(* ===== verification/_CoqProject ===== *)
-Q . S2P
Prelude.v
SeqNum.v
Frame.v
Replay.v
ReplayProtector.v
Evidence.v
Addr.v
Schnorr.v
LinkLayer.v
LinkInv.v
LinkDemo.v
LinkSafety.v
LinkDelivery.v
LinkTrust.v
Slip.v
Coap.v
Block.v
Trickle.v
Loadng.v
Heapless.v
DutyCycle.v
TxQueue.v
FragCodec.v
FragSession.v
FragReceiver.v
FragSender.v
FragHonest.v
FragDelivery.v
FragRepair.v
RplMessage.v
F32.v
RplDodag.v
RplTable.v
RplRoutes.v
RplDao.v
RplDaoInv.v
Storage.v
RplPersist.v
RplRoot.v
SchcBits.v
SchcCheck.v
Schc.v
SchcSpec.v
SchcRules.v
SchcRoundtrip.v
AddrAssign.v
AddrCoord.v
AddrCoordInv.v
AddrRestart.v
DaoOrigin.v
Sos.v
SosLimit.v
SosCodec.v
SosOrigin.v
TimeSync.v
OpenTrust.v
NetHeaders.v
NetVerify.v
Observe.v
ObserveInv.v
CoapClient.v
ForwardBuffer.v
RplTiming.v
Tdma.v
Monitor.v
RadioPlan.v
SchcPeer.v
FragPolicy.v
FragAuth.v
Gradient.v
Announce.v
AnnounceStore.v
AnnounceProc.v
