(* ===== verification/Prelude.v ===== *)
(** * LICHEN: the protocol core, verified

    LICHEN is a LoRa mesh stack.  Its Rust workspace (src/rust) is layered:
    [lichen-core] holds protocol primitives and per-node policies (sequence
    numbers, addresses, reactive routing messages, headers and checksums,
    duty-cycle accounting, superframes, the transmission queue with channel
    access); [lichen-link] is the authenticated link layer (frame format,
    Schnorr signatures, replay windows, peer table, relaying, sealed trust
    records, SOS alerts, time sources); [lichen-hal] has the storage the
    others persist to; [lichen-schc] compresses IPv6 packets and carries them
    over frames too small for them; [lichen-rpl] is the proactive routing
    protocol (DODAG membership, DAO routes, signed DAOs, address assignment,
    the Trickle timer); [lichen-coap] is the application protocol;
    [lichen-kiss] frames a serial line; [lichen-node] joins them in a node
    (announces, gradients, a forwarding buffer).  Gateways and clients are
    built on these.  This development models those parts function by function
    and proves what makes them correct.

    ** How the code is modelled

    Machine integers are [Z] with their width in predicates ([is_u8] ...
    [is_u64]); wrapping, saturating and checked operations are written out
    ([wrap8], [saturating_add], [checked_add] below).  Lengths and offsets into
    buffers are [nat].  [Result] is [result]; an output buffer is an argument
    that is returned with the bytes written into it; a method on [&mut self]
    takes the state and returns it.  A panic (an index out of range, a failed
    [expect] or [assert!], arithmetic overflow where it can happen) is the
    outer [None], so a theorem that says [= Some _] also says that the call
    does not panic; debug assertions and overflow checks, which depend on the
    build, are boolean parameters of the operations that have them.  State
    behind a shared pointer ([Arc], [Rc]) is passed and returned beside the
    states that share it.

    Code outside the repository is a parameter with its documented contract:
    hashing and signing ([Crypto], [CryptoLaws] in Schnorr.v), the iteration
    order of [HashMap] ([HashIter] below), the width of [usize] ([Usize]
    below), the containers of the heapless crate ([Heapless], [HeaplessLaws]
    and the vector operations in Heapless.v), the bits of a converted NaN
    ([NanBits] in Sos.v).  So are the interfaces the source itself leaves
    open, as traits or callbacks: [NonVolatile] (Storage.v: a write that
    succeeds replaces the value, one that fails keeps it, a power loss falls
    between operations), [AddressAssignmentStore] and its atomic form
    (AddrCoord.v), [PinTable] and [OriginReplayStore] (DaoOrigin.v), the
    endpoint of an observer (Observe.v), the outcome of a CoAP exchange
    (CoapClient.v), and what a live link answers about a peer (SchcPeer.v,
    FragPolicy.v, FragAuth.v).  Each contract has a concrete instance, on which
    the witnesses of the theorems run.

    ** The files and the code they follow

    - Prelude: results, machine integers, byte buffers, bit fields, automation
      ([width], [bool_to_prop], [split_ifs], the hint database [lichen]) and
      the lemmas the components share.

    Link layer:
    - SeqNum: lichen-link/src/seqnum.rs and lichen-core/src/seqnum.rs.
    - Frame: lichen-link/src/frame.rs, the frame and its codec.
    - Replay: lichen-link/src/replay.rs, the sliding window, with the set of
      accepted numbers as its specification.
    - ReplayProtector: the per-peer replay table of
      lichen-link/src/link_layer.rs.
    - Evidence: lichen-link/src/evidence.rs, receipt clocks and generations.
    - Addr: lichen-core/src/addr.rs, Yggdrasil addresses of keys.
    - Schnorr: lichen-link/src/schnorr.rs and identity.rs, the signed transcript.
    - LinkLayer: lichen-link/src/link_layer.rs and relay.rs, every method that
      changes the link; [World] holds what links share (process counters, the
      retired flags behind [Arc<AtomicBool>]); [link_step] is one call.
    - LinkInv, LinkDemo, LinkSafety, LinkDelivery, LinkTrust: the invariant of
      reachable links, concrete links for the witnesses, and the theorems on
      safety, delivery and trust persistence.
    - Sos, SosLimit, SosCodec, SosOrigin: sos.rs and sos_origin.rs of
      lichen-link, alerts, their rate limit, their CBOR and the gate of signed
      origins.
    - TimeSync: time_source.rs, precedence.rs, failover.rs, epoch_floor.rs,
      monotonic.rs, wall_clock.rs, time_fallback.rs, dio_time.rs,
      data_timing.rs and tdma_clock.rs of lichen-link.
    - OpenTrust: lichen-link/src/trust.rs, open federation trust.
    - Slip: lichen-kiss/src/slip.rs.

    Packets and application:
    - NetHeaders, NetVerify: checksum.rs, ipv6.rs, udp.rs, icmpv6.rs and
      l2_payload.rs of lichen-core, and what the checksum detects.
    - Coap, Block: lichen-coap/src/codec.rs (with message.rs, option.rs) and
      block.rs.
    - Observe, ObserveInv, CoapClient: lichen-coap/src/observe.rs and client.rs.
    - SchcBits, SchcCheck, Schc: lichen-schc/src/codec.rs, bit packing, packet
      checks, compression and decompression; SchcSpec, SchcRules and
      SchcRoundtrip relate packets and residues.
    - SchcPeer: the contexts of authenticated peers and the failure tracker
      (codec.rs, context.rs and the evidence they read).
    - FragCodec, FragSession: lichen-schc/src/fragment.rs, the fixed profile and
      wire formats, then the sender and receiver state machines.
      FragReceiver and FragSender hold the invariants of the two sides,
      FragHonest, FragDelivery and FragRepair their exchange.
    - FragPolicy, FragAuth: the policy of authenticated peers (reservations,
      hold-downs, polls), the authenticated operations that consult it and the
      sealed floor record, in the same source file.

    Routing:
    - Trickle: lichen-rpl/src/trickle.rs.
    - Loadng: lichen-core/src/loadng.rs.
    - RplMessage: lichen-rpl/src/message.rs with the rule version option of
      lichen-schc/src/rules.rs.
    - F32, RplDodag: single-precision link metrics and lichen-rpl/src/dodag.rs.
    - RplTable: table.rs, srh.rs and announce.rs of lichen-rpl.
    - RplRoutes, RplDao, RplDaoInv: lichen-rpl/src/routing.rs, the graph
      algorithms, the DAO manager and the invariant of its route state.
    - Storage: lichen-hal/src/storage.rs, two-slot values with torn writes, the
      identity and its counters.
    - RplPersist, RplRoot: lichen-rpl/src/persistence.rs (sequences of a sender,
      admission, replay floor), then verify.rs and the signed path of
      routing.rs, across power losses.
    - AddrAssign, AddrCoord, AddrCoordInv, AddrRestart:
      lichen-rpl/src/address_assignment.rs and lichen-core/src/short_addr.rs,
      the option and the node, the coordinator, its theorems, restarts and the
      exchange of the two.
    - DaoOrigin: lichen-rpl/src/dao_origin.rs.
    - RplTiming: root_seq_cache.rs and dao_timing.rs of lichen-rpl.
    - Gradient, Announce, AnnounceStore, AnnounceProc: gradient.rs, announce.rs
      and announce_store.rs of lichen-node with lichen-core/src/announce.rs: the
      next hops toward destinations, the announce and its transcript, durable
      trust in originators, and the processor that joins them.

    Radio time:
    - Heapless, DutyCycle, TxQueue: the containers, lichen-core/src/duty_cycle.rs
      and lichen-core/src/tx_queue.rs (the queue and the CSMA machine).
    - ForwardBuffer: lichen-node/src/forward_buffer.rs.
    - Tdma: superframe.rs, tdma_beacon.rs, desync.rs and the channel hopping of
      lib.rs in lichen-core.
    - Monitor: lichen-core/src/neighbor_monitor.rs.
    - RadioPlan: sf_assignment.rs and airtime.rs of lichen-core,
      lichen-rpl/src/pps.rs.

    ** What the theorems show

    - Link safety: every state a link reaches satisfies an invariant, reception
      never panics and delivers only frames that verify under the key of a
      configured peer, no (epoch, sequence) pair is delivered twice under one
      key generation, and evidence dies when its peer is removed, forgotten,
      unpinned or its link dropped.
    - Link function: what a configured peer builds for a receiver is delivered
      unchanged; buffer sizes are exact; relays only forward verified payloads
      under their own signature; sealed trust survives a restart and a record
      that does not check changes nothing.
    - Replay windows refine a set-based specification, for all 32-bit windows.
    - Codecs (frame, SLIP, LOADng, CoAP, Block options, RPL messages, SOS
      alerts, announces, IPv6 and UDP headers): round trips, canonical or exact
      acceptance, untouched remainders and unchanged buffers on error; signed
      transcripts are injective.
    - Header compression: packets survive it (with one exception, shown), what
      is accepted is characterised, and no packet has two compressed forms.
    - Transfers and discoveries: a block-wise transfer delivers its payload in
      at most 256 rounds, acknowledgements never skip data, notifications are
      retransmitted to a bound, a LOADng discovery is an expanding ring of at
      most three requests.
    - Fragmentation: a receiver never panics on any input and keeps its session
      well formed; tiles may arrive in any order and more than once; what is
      delivered is what was sent; any pattern of lost tiles is repaired by the
      acknowledgement rounds; a sender's work is bounded; a peer that is held
      down gets no session before its time.
    - Routing: a node's DODAG membership stays consistent, parents are chosen
      by MRHOF with hysteresis and form no cycle; the root's cycle check is
      exact, its route state is one acyclic graph with the routes that graph
      gives, path sequences never go back, lookups are longest-prefix matches.
    - Durable state: a two-slot value survives torn writes; sequences a sender
      signed are never reused, a root gives a signed DAO its first effect once,
      and an originator's key is never replaced and its announces only advance,
      through failed writes, power losses and restarts.
    - Addresses: the coordinator's table stays a bounded bijection, requests act
      on their own node, a restart restores the table, and the exchange of node
      and coordinator ends with the address on both sides.
    - SOS: the rate limit holds in every hour and refuses nothing else; the gate
      of signed origins remembers what it must.
    - Timers and airtime: Trickle intervals, backoff and suppression; no
      one-hour window ever carries more airtime than the duty limit; a
      neighbour is reported exactly when its airtime exceeds its share.
    - The transmission queue never panics, its statistics are exact, it serves
      the most urgent and oldest packet and applies congestion and CSMA gates.
    - Some lemmas record behaviour that the code or its comments mean to
      exclude, among them [next_tx_too_early], [coap_delta_overflow],
      [managed_prefix_outlives_egress], [old_copy_granted_after_expiry] and
      [position_read_as_sf].

    ** Fuel

    Loops are structural where the source iterates over data.  The others take
    fuel with a bound that is proved enough: the eviction loops and the heap
    drains remove one entry per round, so they run on the number of entries;
    the CoAP and RPL option scans, the walks over extension headers, OSCORE
    options and DIO options and the search for coordinates advance at least one
    byte per round, so they run on the length of the data (plus one); checksum
    folding runs on three rounds, and a 32-bit sum needs two ([fold_enough]);
    256 rounds carry 4096 bytes in blocks of at least 16.  Fragment drains run on
    65 messages per window and scans for a missing tile on the 63 positions.
    The drain of due notifications runs on the number of pending ones.  The
    cycle search runs on two more than the number of targets
    ([contains_cycle_decides] shows it always returns), path assembly on two
    more than the hop limit ([RplRoutes.assemble_fuel]).

    ** What is not modelled

    - Display and accessor boilerplate, and test snapshots.
    - I/O: the file-backed store of lichen-hal (its contract is [NonVolatile]),
      radio, BLE, sockets and board support (lichen-hal, lichen-embassy), the
      socket under the CoAP client.
    - In lichen-rpl: the unsigned entry points and diagnostics of routing.rs,
      the admission of a link frame to DODAG processing, and multi_instance.rs,
      which keeps several of the modelled machines side by side.
    - In lichen-schc: the rule descriptors and their matching, in the types of
      a third-party crate, and the header view of headers.rs, which repeats the
      codec.
    - In lichen-core: rf_health.rs, floating-point statistics for diagnostics.
    - The rest of lichen-node (the asynchronous integration of the layers),
      lichen-gateway (a server around tunnels and files), lichen-oscore (a
      wrapper of third-party code), lichen-senml, the KISS bridge,
      lichen-meshtastic, the clients, tools and simulators.
    - Third-party cryptography. *)

From stdpp Require Export prelude gmap.
From Stdlib Require Export ZArith Lia.

(** Lengths and offsets are [nat] (they count list cells); every machine
    integer of the source is a [Z] with its width stated by a predicate. *)
#[global] Open Scope Z_scope.

(** ** Results of fallible operations *)

Inductive result (E A : Type) : Type :=
  | Ok (a : A)
  | Err (e : E).
Arguments Ok {E A} a.
Arguments Err {E A} e.

#[export] Instance result_ret {E} : MRet (result E) := fun A a => Ok a.
#[export] Instance result_bind {E} : MBind (result E) := fun A B f m =>
  match m with Ok a => f a | Err e => Err e end.
#[export] Instance result_fmap {E} : FMap (result E) := fun A B f m =>
  match m with Ok a => Ok (f a) | Err e => Err e end.

#[export] Instance result_eq_dec {E A} `{EqDecision E, EqDecision A} :
  EqDecision (result E A).
Proof. solve_decision. Defined.

Definition map_err {E E' A} (f : E -> E') (m : result E A) : result E' A :=
  match m with Ok a => Ok a | Err e => Err (f e) end.

(** [Option::ok_or]. *)
Definition ok_or {E A} (o : option A) (e : E) : result E A :=
  match o with Some a => Ok a | None => Err e end.

Definition is_ok {E A} (m : result E A) : bool :=
  match m with Ok _ => true | Err _ => false end.

(** ** Machine integers *)

Definition u8_max : Z := 255.
Definition u16_max : Z := 65535.
Definition u32_max : Z := 4294967295.
Definition u64_max : Z := 18446744073709551615.

Definition is_u8 (x : Z) : Prop := 0 <= x <= u8_max.
Definition is_u16 (x : Z) : Prop := 0 <= x <= u16_max.
Definition is_u32 (x : Z) : Prop := 0 <= x <= u32_max.
Definition is_u64 (x : Z) : Prop := 0 <= x <= u64_max.

#[export] Instance is_u8_dec x : Decision (is_u8 x) := _.
#[export] Instance is_u16_dec x : Decision (is_u16 x) := _.
#[export] Instance is_u32_dec x : Decision (is_u32 x) := _.
#[export] Instance is_u64_dec x : Decision (is_u64 x) := _.

(** [as u8], [as u16], [as u32], [as u64]: truncation to the width. *)
Definition wrap8 (x : Z) : Z := x mod 256.
Definition wrap16 (x : Z) : Z := x mod 65536.
Definition wrap32 (x : Z) : Z := x mod 4294967296.
Definition wrap64 (x : Z) : Z := x mod 18446744073709551616.

(** [as i32] of a [u32]. *)
Definition as_i32 (x : Z) : Z :=
  if x <? 2147483648 then x else x - 4294967296.

Definition saturating_add (max x y : Z) : Z := Z.min max (x + y).
Definition saturating_sub (x y : Z) : Z := Z.max 0 (x - y).
Definition saturating_mul (max x y : Z) : Z := Z.min max (x * y).
Definition checked_add (max x y : Z) : option Z :=
  if x + y <=? max then Some (x + y) else None.
Definition checked_sub (x y : Z) : option Z :=
  if y <=? x then Some (x - y) else None.
Definition checked_mul (max x y : Z) : option Z :=
  if x * y <=? max then Some (x * y) else None.

(** The width of [usize] is the target's; Rust only guarantees 16 bits. *)
Class Usize := {
  usize_max : Z;
  usize_max_ge : u16_max <= usize_max
}.

Definition usize32 : Usize.
Proof. refine {| usize_max := u32_max |}. done. Defined.
Definition usize64 : Usize.
Proof. refine {| usize_max := u64_max |}. done. Defined.

(** ** Bytes and buffers *)

Abbreviation bytes := (list Z).
Abbreviation bytes_ok := (Forall is_u8).

(** [&l[a..b]] for in-range bounds. *)
Definition slice {A} (a b : nat) (l : list A) : list A := take (b - a) (drop a l).

(** [buf[i..i + k.len()].copy_from_slice(k)]; out of range it panics. *)
Definition copy_in {A} (i : nat) (k buf : list A) : option (list A) :=
  if (i + length k <=? length buf)%nat then Some (list_inserts i k buf) else None.

(** [to_be_bytes] / [from_be_bytes] of an [n]-byte unsigned integer. *)
Fixpoint to_be (n : nat) (x : Z) : bytes :=
  match n with
  | O => []
  | S n => to_be n (x / 256) ++ [x mod 256]
  end.
Definition from_be (l : bytes) : Z := foldl (fun acc b => acc * 256 + b) 0 l.

(** ** Shared error payloads (lichen-ipv6, re-exported by lichen-core) *)

Record TooShort := { expected : nat; actual : nat }.
Record BufferTooSmall := { required : nat; provided : nat }.
#[export] Instance TooShort_eq_dec : EqDecision TooShort.
Proof. solve_decision. Defined.
#[export] Instance BufferTooSmall_eq_dec : EqDecision BufferTooSmall.
Proof. solve_decision. Defined.

(** ** Automation *)

Create HintDb lichen.
Create HintDb lichen_len.

(** Turns boolean tests in the context into arithmetic. *)
Ltac bool_to_prop :=
  repeat match goal with
  | H : (_ =? _) = true |- _ => apply Z.eqb_eq in H
  | H : (_ =? _) = false |- _ => apply Z.eqb_neq in H
  | H : (_ <=? _) = true |- _ => apply Z.leb_le in H
  | H : (_ <=? _) = false |- _ => apply Z.leb_gt in H
  | H : (_ <? _) = true |- _ => apply Z.ltb_lt in H
  | H : (_ <? _) = false |- _ => apply Z.ltb_ge in H
  | H : (_ =? _)%nat = true |- _ => apply Nat.eqb_eq in H
  | H : (_ =? _)%nat = false |- _ => apply Nat.eqb_neq in H
  | H : (_ <=? _)%nat = true |- _ => apply Nat.leb_le in H
  | H : (_ <=? _)%nat = false |- _ => apply Nat.leb_gt in H
  | H : (_ <? _)%nat = true |- _ => apply Nat.ltb_lt in H
  | H : (_ <? _)%nat = false |- _ => apply Nat.ltb_ge in H
  | H : _ && _ = true |- _ => apply andb_true_iff in H as [? ?]
  | H : _ || _ = false |- _ => apply orb_false_iff in H as [? ?]
  | H : negb _ = true |- _ => apply negb_true_iff in H
  | H : negb _ = false |- _ => apply negb_false_iff in H
  end.

(** Unfolds the integer predicates and closes with [lia]. *)
Ltac width :=
  unfold is_u8, is_u16, is_u32, is_u64, u8_max, u16_max, u32_max, u64_max in *; lia.

(** Case-splits every conditional of the goal, innermost first, discarding the
    branches that the arithmetic in the context refutes. *)
Ltac split_ifs :=
  repeat match goal with
  | |- context [if ?b then _ else _] =>
      lazymatch b with context [if _ then _ else _] => fail | _ => idtac end;
      lazymatch type of b with
      | bool => destruct b eqn:?; bool_to_prop; try (exfalso; lia)
      | _ => case_decide; try (exfalso; lia)
      end
  end.

(** ** Lemmas on results *)

Lemma ok_inj {E A} (a b : A) : Ok (E := E) a = Ok b -> a = b.
Proof. congruence. Qed.

Lemma bind_ok {E A B} (f : A -> result E B) (m : result E A) b :
  m ≫= f = Ok b -> exists a, m = Ok a /\ f a = Ok b.
Proof. destruct m; [eauto | done]. Qed.

Lemma Forall_both {A} (P Q R : A -> Prop) l :
  Forall P l -> Forall Q l -> (forall x, P x -> Q x -> R x) -> Forall R l.
Proof. intros HP HQ HR. rewrite Forall_forall in *. eauto. Qed.

Lemma checked_add_some max a b c : checked_add max a b = Some c -> c = a + b /\ c <= max.
Proof. unfold checked_add. destruct (_ <=? _) eqn:E; bool_to_prop; [| done]. intros [= <-]. done. Qed.

(** ** Lemmas on byte strings *)

Lemma wrap8_small x : is_u8 x -> wrap8 x = x.
Proof. unfold wrap8. intros. apply Z.mod_small. width. Qed.
Lemma wrap16_small x : is_u16 x -> wrap16 x = x.
Proof. unfold wrap16. intros. apply Z.mod_small. width. Qed.
Lemma wrap32_small x : is_u32 x -> wrap32 x = x.
Proof. unfold wrap32. intros. apply Z.mod_small. width. Qed.
Lemma wrap8_u8 x : is_u8 (wrap8 x).
Proof. unfold wrap8. pose proof (Z.mod_pos_bound x 256 ltac:(lia)). width. Qed.
Lemma wrap16_u16 x : is_u16 (wrap16 x).
Proof. unfold wrap16. pose proof (Z.mod_pos_bound x 65536 ltac:(lia)). width. Qed.
Lemma wrap32_u32 x : is_u32 (wrap32 x).
Proof. unfold wrap32. pose proof (Z.mod_pos_bound x 4294967296 ltac:(lia)). width. Qed.
#[export] Hint Resolve wrap8_u8 wrap16_u16 wrap32_u32 : lichen.

Lemma length_to_be n x : length (to_be n x) = n.
Proof.
  revert x. induction n; intros x; simpl; [done |].
  rewrite length_app, IHn. simpl. lia.
Qed.

Lemma to_be_ok n x : bytes_ok (to_be n x).
Proof.
  revert x. induction n; intros x; simpl; [done |].
  apply Forall_app; split; [apply IHn |].
  apply Forall_singleton. pose proof (Z.mod_pos_bound x 256 ltac:(lia)). width.
Qed.
#[export] Hint Resolve to_be_ok : lichen.

Lemma bytes_ok_snoc l b : bytes_ok (l ++ [b]) -> bytes_ok l /\ is_u8 b.
Proof. rewrite Forall_app. intros [? Hb]. split; [done | by inversion Hb]. Qed.

Lemma from_be_snoc l b : from_be (l ++ [b]) = from_be l * 256 + b.
Proof. unfold from_be. by rewrite foldl_app. Qed.

Lemma from_be_bound l : bytes_ok l -> 0 <= from_be l < 256 ^ Z.of_nat (length l).
Proof.
  induction l as [|b l IH] using rev_ind; intros Hl; [done |].
  apply bytes_ok_snoc in Hl as [Hl Hb].
  rewrite from_be_snoc, length_app. simpl.
  replace (Z.of_nat (length l + 1)) with (Z.of_nat (length l) + 1) by lia.
  rewrite Z.pow_add_r, Z.pow_1_r by lia. specialize (IH Hl). width.
Qed.

Lemma from_be_to_be n x : 0 <= x < 256 ^ Z.of_nat n -> from_be (to_be n x) = x.
Proof.
  revert x. induction n as [|n IH]; intros x Hx.
  - simpl in *. change (from_be []) with 0. change (256 ^ Z.of_nat 0) with 1 in Hx. lia.
  - simpl. rewrite from_be_snoc, IH.
    + pose proof (Z.div_mod x 256 ltac:(lia)). lia.
    + rewrite Nat2Z.inj_succ, Z.pow_succ_r in Hx by lia.
      split; [apply Z.div_pos; lia | apply Z.div_lt_upper_bound; lia].
Qed.

Lemma to_be_from_be l : bytes_ok l -> to_be (length l) (from_be l) = l.
Proof.
  induction l as [|b l IH] using rev_ind; intros Hl; [done |].
  apply bytes_ok_snoc in Hl as [Hl Hb].
  rewrite from_be_snoc, length_app, Nat.add_comm. simpl.
  replace ((from_be l * 256 + b) / 256) with (from_be l).
  - rewrite (IH Hl). do 2 f_equal.
    rewrite Z.add_comm, Z.mod_add by lia. apply Z.mod_small. width.
  - symmetry. rewrite Z.add_comm, Z.div_add by lia.
    rewrite Z.div_small by width. lia.
Qed.

Lemma from_be_to_be_u16 x : is_u16 x -> from_be (to_be 2 x) = x.
Proof. intros. apply from_be_to_be. change (256 ^ Z.of_nat 2) with 65536. width. Qed.
Lemma from_be_to_be_u32 x : is_u32 x -> from_be (to_be 4 x) = x.
Proof. intros. apply from_be_to_be. change (256 ^ Z.of_nat 4) with 4294967296. width. Qed.
Lemma from_be_to_be_u64 x : is_u64 x -> from_be (to_be 8 x) = x.
Proof.
  intros. apply from_be_to_be.
  change (256 ^ Z.of_nat 8) with 18446744073709551616. width.
Qed.
Lemma to_be_from_be_u16 a b : is_u8 a -> is_u8 b -> to_be 2 (from_be [a; b]) = [a; b].
Proof. intros. apply (to_be_from_be [a; b]). by rewrite !Forall_cons. Qed.
Lemma from_be_u16 a b : is_u8 a -> is_u8 b -> is_u16 (from_be [a; b]).
Proof.
  intros Ha Hb. pose proof (from_be_bound [a; b] ltac:(by rewrite !Forall_cons)) as H.
  change (256 ^ Z.of_nat (length [a; b])) with 65536 in H. width.
Qed.
Lemma from_be_u32 l : bytes_ok l -> (length l <= 4)%nat -> is_u32 (from_be l).
Proof.
  intros Hl Hn. pose proof (from_be_bound l Hl) as Hb.
  assert (256 ^ Z.of_nat (length l) <= 256 ^ 4) as Hp by (apply Z.pow_le_mono_r; lia).
  change (256 ^ 4) with 4294967296 in Hp. width.
Qed.
Lemma from_be_u64 l : bytes_ok l -> (length l <= 8)%nat -> is_u64 (from_be l).
Proof.
  intros Hl Hn. pose proof (from_be_bound l Hl) as Hb.
  assert (256 ^ Z.of_nat (length l) <= 256 ^ 8) as Hp by (apply Z.pow_le_mono_r; lia).
  change (256 ^ 8) with 18446744073709551616 in Hp. width.
Qed.
#[export] Hint Resolve from_be_u16 : lichen.

(** ** Lemmas on slices and in-place writes *)

Lemma slice_length {A} a b (l : list A) :
  (a <= b)%nat -> (b <= length l)%nat -> length (slice a b l) = (b - a)%nat.
Proof. intros. unfold slice. rewrite length_take, length_drop. lia. Qed.

Lemma slice_app_exact {A} (l1 l2 l3 : list A) a b :
  a = length l1 -> b = (length l1 + length l2)%nat ->
  slice a b (l1 ++ l2 ++ l3) = l2.
Proof.
  intros -> ->. unfold slice. rewrite drop_app_length.
  replace (length l1 + length l2 - length l1)%nat with (length l2) by lia.
  apply take_app_length.
Qed.

Lemma slice_app_eq {A} (l1 l2 l3 l : list A) a b :
  l = l1 ++ l2 ++ l3 -> a = length l1 -> b = (length l1 + length l2)%nat ->
  slice a b l = l2.
Proof. intros ->. apply slice_app_exact. Qed.

Lemma nth_app_eq {A} (l1 l2 l : list A) x d n :
  l = l1 ++ x :: l2 -> n = length l1 -> nth n l d = x.
Proof. intros -> ->. by rewrite nth_middle. Qed.

Lemma slice_le {A} a n (l : list A) : (length (slice a (a + n) l) <= n)%nat.
Proof. unfold slice. rewrite length_take. lia. Qed.

Lemma slice_Forall {A} (P : A -> Prop) a b l : Forall P l -> Forall P (slice a b l).
Proof. intros. apply Forall_take, Forall_drop. done. Qed.
#[export] Hint Resolve slice_Forall : lichen.

Lemma slice_split {A} (a b c : nat) (l : list A) :
  (a <= b)%nat -> (b <= c)%nat -> slice a b l ++ slice b c l = slice a c l.
Proof.
  intros. unfold slice.
  replace (c - a)%nat with ((b - a) + (c - b))%nat by lia.
  rewrite <- take_take_drop. f_equal. rewrite drop_drop. f_equal. f_equal. lia.
Qed.

Lemma slice_full {A} (l : list A) : slice 0 (length l) l = l.
Proof. unfold slice. rewrite drop_0, Nat.sub_0_r. apply take_ge. lia. Qed.

Lemma slice_take {A} a b e (l : list A) : (b <= e)%nat -> slice a b (take e l) = slice a b l.
Proof. intros. unfold slice. rewrite skipn_firstn_comm, take_take. f_equal. lia. Qed.

(** A write of [k] at offset 0 leaves [k] followed by the untouched tail. *)
Lemma inserts_front {A} (k buf : list A) :
  (length k <= length buf)%nat ->
  list_inserts 0 k buf = k ++ drop (length k) buf.
Proof.
  intros H. rewrite <- (take_drop (length k) buf) at 1.
  apply list_inserts_0_r. rewrite length_take. lia.
Qed.

(** Two adjacent writes are one write of the concatenation. *)
Lemma inserts_adjacent {A} (i j : nat) (k1 k2 buf : list A) :
  j = (i + length k1)%nat ->
  list_inserts j k2 (list_inserts i k1 buf) = list_inserts i (k1 ++ k2) buf.
Proof. intros ->. rewrite Nat.add_comm. symmetry. apply list_inserts_app_l. Qed.

Lemma insert_inserts {A} (i : nat) (x : A) buf : <[i := x]> buf = list_inserts i [x] buf.
Proof. done. Qed.

Lemma copy_in_at {A} (pre k rest : list A) i :
  i = length pre -> (length k <= length rest)%nat ->
  copy_in i k (pre ++ rest) = Some (pre ++ k ++ drop (length k) rest).
Proof.
  intros -> Hk. unfold copy_in. rewrite length_app, (proj2 (Nat.leb_le _ _)) by lia. f_equal.
  replace (length pre) with (length pre + 0)%nat by lia. rewrite list_inserts_app_r. by rewrite inserts_front.
Qed.

Lemma take_app_le' {A} (k l : list A) n : n = length k -> take n (k ++ l) = k.
Proof. intros ->. apply take_app_length. Qed.

(** ** Bit fields *)

(** [hi << k | lo] for a [k]-bit [lo]. *)
Lemma lor_shiftl hi lo k : 0 <= k -> 0 <= lo < 2 ^ k -> Z.lor (Z.shiftl hi k) lo = hi * 2 ^ k + lo.
Proof.
  intros Hk Hlo. assert (Z.land (Z.shiftl hi k) lo = 0) as H0.
  { apply Z.bits_inj'. intros n Hn. rewrite Z.land_spec, Z.bits_0, Z.shiftl_spec by lia.
    destruct (decide (n < k)); [by rewrite Z.testbit_neg_r by lia |].
    rewrite <- (Z.mod_small lo (2 ^ k)) by lia. rewrite Z.mod_pow2_bits_high by lia. apply andb_false_r. }
  pose proof (Z.add_lor_land (Z.shiftl hi k) lo) as Ha. rewrite H0, Z.shiftl_mul_pow2 in Ha by lia.
  rewrite Z.shiftl_mul_pow2 by lia. lia.
Qed.

(** [(x >> k) & (2^w - 1)]. *)
Lemma bit_field x k w : 0 <= k -> 0 <= w -> Z.land (Z.shiftr x k) (2 ^ w - 1) = x / 2 ^ k mod 2 ^ w.
Proof.
  intros. rewrite Z.shiftr_div_pow2 by lia. replace (2 ^ w - 1) with (Z.ones w) by (rewrite Z.ones_equiv; lia).
  by rewrite Z.land_ones.
Qed.

(** ** Exhaustive reasoning over one byte *)

Definition all_u8 : list Z := Z.of_nat <$> seq 0 256.

Lemma u8_forallb (P : Z -> bool) : forallb P all_u8 = true -> forall b, is_u8 b -> P b = true.
Proof.
  intros H b Hb. rewrite forallb_forall in H. apply H.
  apply list_elem_of_In, list_elem_of_fmap. exists (Z.to_nat b).
  split; [width |]. apply elem_of_seq. width.
Qed.

(** Decides a property of a byte by evaluating it on the 256 values. *)
Ltac byte_cases P b :=
  let H := fresh in
  assert (P b = true) as H by (apply (u8_forallb P); [vm_compute; reflexivity | assumption]);
  revert H.

(** ** [std] collections *)

(** [HashMap] is [gmap]; the order its iterators visit the entries in is
    unspecified, so it is a parameter with the documented contract: every
    entry, once, in some order. *)
Class HashIter := {
  hash_iter : forall {K V : Type} `{Countable K}, gmap K V -> list (K * V);
  hash_iter_perm : forall {K V : Type} `{Countable K} (m : gmap K V),
    hash_iter m ≡ₚ map_to_list m
}.

(** One order that satisfies the contract. *)
Definition hash_iter_id : HashIter.
Proof. by refine {| hash_iter := fun _ _ _ _ m => map_to_list m |}. Defined.

(** [Iterator::min_by_key]: the first of the equally minimal elements. *)
Definition min_by_key {A} (f : A -> Z) (l : list A) : option A :=
  match l with
  | [] => None
  | x :: rest => Some (foldl (fun m y => if f y <? f m then y else m) x rest)
  end.

Lemma foldl_min {A} (f : A -> Z) l x :
  let m := foldl (fun m y => if f y <? f m then y else m) x l in
  m ∈ x :: l /\ f m <= f x /\ Forall (fun y => f m <= f y) l.
Proof.
  revert x. induction l as [|y l IH]; intros x; simpl.
  - split; [apply list_elem_of_singleton; done | split; [lia | constructor]].
  - specialize (IH (if f y <? f x then y else x)) as (Hin & Hle & Hall).
    destruct (f y <? f x) eqn:E; bool_to_prop.
    + split; [by apply list_elem_of_further |]. split; [lia | by constructor].
    + split; [| split; [lia | constructor; [lia | done]]].
      apply elem_of_cons in Hin as [-> | Hin]; [apply list_elem_of_here | by do 2 apply list_elem_of_further].
Qed.

Lemma min_by_key_some {A} (f : A -> Z) l :
  l <> [] -> exists m, min_by_key f l = Some m /\ m ∈ l /\ Forall (fun y => f m <= f y) l.
Proof.
  destruct l as [|x l]; [done |]. intros _. simpl. eexists. split; [done |].
  destruct (foldl_min f l x) as (H1 & H2 & H3). split; [done | by constructor].
Qed.

Lemma size_list_to_set_le {A} `{Countable A} (l : list A) :
  (size (list_to_set l : gset A) <= length l)%nat.
Proof.
  induction l as [|x l IH]; [by rewrite list_to_set_nil, size_empty |].
  rewrite list_to_set_cons, size_union_alt, size_singleton. simpl.
  apply le_n_S. etrans; [| exact IH]. apply subseteq_size. set_solver.
Qed.

Section hash_map.
Context `{HashIter} {K V : Type} `{Countable K}.
Implicit Types m : gmap K V.

Lemma elem_of_hash_iter m k v : (k, v) ∈ hash_iter m <-> m !! k = Some v.
Proof. rewrite hash_iter_perm. apply elem_of_map_to_list. Qed.

Lemma hash_iter_nonempty m : size m <> 0%nat -> hash_iter m <> [].
Proof.
  intros Hs E. apply Hs. rewrite <- length_map_to_list, <- hash_iter_perm, E. done.
Qed.

(** The least-recently-used entry of a nonempty map. *)
Lemma min_by_key_hash m (f : K * V -> Z) :
  size m <> 0%nat ->
  exists k v, min_by_key f (hash_iter m) = Some (k, v) /\ m !! k = Some v /\
    forall k' v', m !! k' = Some v' -> f (k, v) <= f (k', v').
Proof.
  intros Hs. destruct (min_by_key_some f (hash_iter m) (hash_iter_nonempty m Hs))
    as ([k v] & Hm & Hin & Hall).
  exists k, v. split; [done |]. split; [by apply elem_of_hash_iter |].
  intros k' v' Hk'. rewrite Forall_forall in Hall. by apply Hall, elem_of_hash_iter.
Qed.

End hash_map.

(** ** Filters *)

Lemma filter_all {A} (P : A -> Prop) `{forall x, Decision (P x)} l : Forall P l -> filter P l = l.
Proof. induction 1; [done |]. rewrite filter_cons, decide_True by done. by f_equal. Qed.
