(* ===== verification/SeqNum.v ===== *)
(** * Sequence numbers

    [LinkSeqNum] of lichen-link/src/seqnum.rs (the replay counter of link
    frames) and [SeqNum] of lichen-core/src/seqnum.rs (RFC 1982 serial
    numbers used for route freshness).  Both are newtypes over [u16], so a
    value is a [Z] and the width is the predicate [is_u16]. *)

From S2P Require Import Prelude.

Module LinkSeqNum.

(** [to_be_bytes] and [from_be_bytes] on the wrapped [u16]. *)
Definition to_be_bytes (s : Z) : bytes := to_be 2 s.
Definition from_be_bytes (b : bytes) : Z := from_be b.

Definition wrapping_next (s : Z) : Z := wrap16 (s + 1).

(** Returns the old value and the advanced counter. *)
Definition fetch_increment (s : Z) : Z * Z := (s, wrap16 (s + 1)).

Definition logical_counter (epoch seqnum : Z) : Z :=
  Z.lor (wrap32 (Z.shiftl epoch 16)) seqnum.

Definition with_epoch (s epoch : Z) : Z := logical_counter epoch s.

Definition signed_diff (self other : Z) : Z :=
  let diff := self - other in
  if 32767 <? diff then diff - 65536
  else if diff <? -32768 then diff + 65536
  else diff.

Lemma logical_counter_val e s :
  is_u8 e -> is_u16 s -> logical_counter e s = e * 65536 + s.
Proof.
  intros He Hs. unfold logical_counter.
  rewrite wrap32_small, Z.shiftl_mul_pow2 by (rewrite ?Z.shiftl_mul_pow2; width).
  change (2 ^ 16) with 65536. symmetry.
  rewrite <- Z.lxor_lor; [apply Z.add_nocarry_lxor |].
  all: apply Z.bits_inj'; intros n Hn; rewrite Z.land_spec, Z.bits_0.
  all: change 65536 with (2 ^ 16); destruct (Z.lt_ge_cases n 16) as [Hlt | Hge].
  1, 3: by rewrite Z.mul_pow2_bits_low by lia.
  all: rewrite <- (Z.mod_small s (2 ^ 16)) by (change (2 ^ 16) with 65536; width).
  all: rewrite Z.mod_pow2_bits_high, andb_false_r by lia; done.
Qed.

(** The serial number orders frames first by epoch and then by sequence
    number, and separates distinct (epoch, seqnum) pairs. *)
Lemma logical_counter_lex e1 s1 e2 s2 :
  is_u8 e1 -> is_u16 s1 -> is_u8 e2 -> is_u16 s2 ->
  logical_counter e1 s1 < logical_counter e2 s2 <-> e1 < e2 \/ (e1 = e2 /\ s1 < s2).
Proof. intros. rewrite !logical_counter_val by done. width. Qed.

Lemma fetch_increment_u16 s : is_u16 (snd (fetch_increment s)).
Proof. apply wrap16_u16. Qed.

End LinkSeqNum.

Module SerialNum.

Definition SEQ_BITS : Z := 16.
Definition SEQ_MODULUS : Z := Z.shiftl 1 SEQ_BITS.
Definition SEQ_HALF : Z := Z.shiftl 1 (SEQ_BITS - 1).

Definition increment (s : Z) : Z := wrap16 (s + 1).
Definition wrapping_add (s n : Z) : Z := wrap16 (s + n).

Definition rfc1982_cmp (self other : Z) : option comparison :=
  let diff := wrap16 (other - self) in
  if diff =? 0 then Some Eq
  else if diff <? SEQ_HALF then Some Lt
  else if SEQ_HALF <? diff then Some Gt
  else None.

(** [TryFrom<usize>]. *)
Definition try_from_usize (v : Z) : option Z :=
  if v <=? u16_max then Some v else None.

(** What RFC 1982 section 3.2 says of two serial numbers, as a relation on
    their distance. *)
Inductive serial_order (a b : Z) : option comparison -> Prop :=
  | so_eq : a = b -> serial_order a b (Some Eq)
  | so_lt d : 0 < d < 32768 -> b = wrapping_add a d -> serial_order a b (Some Lt)
  | so_gt d : 0 < d < 32768 -> a = wrapping_add b d -> serial_order a b (Some Gt)
  | so_half : b = wrapping_add a 32768 -> serial_order a b None.

Lemma wrap16_range x : 0 <= wrap16 x < 65536.
Proof. apply Z.mod_pos_bound. lia. Qed.

Lemma wrap16_sub_add a d : is_u16 a -> 0 <= d < 65536 -> wrap16 (wrapping_add a d - a) = d.
Proof.
  intros Ha Hd. unfold wrapping_add, wrap16.
  rewrite Zminus_mod_idemp_l. replace (a + d - a) with d by lia. apply Z.mod_small. lia.
Qed.

Lemma wrapping_add_sub a b : is_u16 b -> wrapping_add a (wrap16 (b - a)) = b.
Proof.
  intros Hb. unfold wrapping_add, wrap16.
  rewrite Zplus_mod_idemp_r. replace (a + (b - a)) with b by lia.
  apply Z.mod_small. width.
Qed.

(** Going forward by [d] is going back by [2^16 - d]. *)
Lemma wrapping_add_back a b d :
  is_u16 a -> 0 < d < 65536 -> b = wrapping_add a d -> a = wrapping_add b (65536 - d).
Proof.
  intros Ha Hd ->. unfold wrapping_add, wrap16.
  rewrite Zplus_mod_idemp_l. replace (a + d + (65536 - d)) with (a + 1 * 65536) by lia.
  rewrite Z.mod_add by lia. symmetry. apply Z.mod_small. width.
Qed.

Lemma rfc1982_cmp_sound a b :
  is_u16 a -> is_u16 b -> serial_order a b (rfc1982_cmp a b).
Proof.
  intros Ha Hb. unfold rfc1982_cmp. change SEQ_HALF with 32768.
  pose proof (wrap16_range (b - a)) as Hr.
  pose proof (wrapping_add_sub a b Hb) as Hw. symmetry in Hw.
  set (d := wrap16 (b - a)) in *. clearbody d. split_ifs.
  - apply so_eq. subst d. unfold wrapping_add in Hw.
    rewrite Z.add_0_r, wrap16_small in Hw; done.
  - apply so_lt with d; [lia | done].
  - apply so_gt with (65536 - d); [lia |]. apply wrapping_add_back; [done | lia | done].
  - apply so_half. replace 32768 with d by lia. done.
Qed.

Lemma rfc1982_cmp_complete a b o :
  is_u16 a -> is_u16 b -> serial_order a b o -> rfc1982_cmp a b = o.
Proof.
  intros Ha Hb H. unfold rfc1982_cmp. change SEQ_HALF with 32768.
  destruct H as [-> | d Hd -> | d Hd -> | ->].
  - by rewrite Z.sub_diag.
  - rewrite wrap16_sub_add by (done || lia). split_ifs; done.
  - assert (wrap16 (b - wrapping_add b d) = 65536 - d) as ->.
    { rewrite (wrapping_add_back b (wrapping_add b d) d) at 1 by (done || lia).
      apply wrap16_sub_add; [done | lia]. }
    split_ifs; done.
  - rewrite wrap16_sub_add by (done || lia). done.
Qed.

(** [SeqNum::rfc1982_cmp] decides exactly the RFC 1982 order: equal,
    before or after by a forward distance in (0, 2^15), and unordered exactly
    at distance 2^15. *)
Lemma rfc1982_cmp_spec (a b : Z) (o : option comparison)
  (Ha : is_u16 a) (Hb : is_u16 b) :
  rfc1982_cmp a b = o <-> serial_order a b o.
Proof.
  split; [intros <-; by apply rfc1982_cmp_sound | by apply rfc1982_cmp_complete].
Qed.

Lemma wrap16_diff a b :
  is_u16 a -> is_u16 b -> wrap16 (b - a) = if a <=? b then b - a else b - a + 65536.
Proof.
  intros Ha Hb. unfold wrap16. split_ifs.
  - apply Z.mod_small. width.
  - rewrite <- (Z.mod_add _ 1) by lia. apply Z.mod_small. width.
Qed.

(** [LinkSeqNum::signed_diff] is the unique representative of the
    difference modulo 2^16 in [-2^15, 2^15), and its sign is the RFC 1982
    order of the two numbers (its minimum being the unordered case). *)
Lemma signed_diff_spec (a b : Z) (Ha : is_u16 a) (Hb : is_u16 b) :
  let d := LinkSeqNum.signed_diff a b in
  -32768 <= d < 32768 /\ (exists k, a - b = d + k * 65536) /\
  rfc1982_cmp b a = if d =? -32768 then None else Some (0 ?= d).
Proof.
  cbv zeta. split; [| split].
  - unfold LinkSeqNum.signed_diff. split_ifs; width.
  - unfold LinkSeqNum.signed_diff. split_ifs; [exists 1 | exists (-1) | exists 0]; lia.
  - unfold rfc1982_cmp, LinkSeqNum.signed_diff. change SEQ_HALF with 32768.
    rewrite wrap16_diff by done.
    split_ifs; try done; try (exfalso; width);
      f_equal; symmetry; (apply Z.compare_eq_iff || apply Z.compare_lt_iff
        || apply Z.compare_gt_iff); width.
Qed.

End SerialNum.
