(* ===== verification/Frame.v ===== *)
(** * Link frame codec

    lichen-link/src/frame.rs: the LLSec flags byte, [LichenFrame::write_to]
    and [LichenFrame::from_bytes].  A borrowed slice is the list of its bytes;
    [write_to] takes the caller's output buffer and returns it with the bytes
    it wrote in place. *)

From S2P Require Import Prelude SeqNum.

Module Frame.

Inductive AddrMode := AM_None | AM_Short | AM_Extended | AM_Elided.
Inductive MicLength := Bits32 | Bits64.
Inductive Signature := Absent | Present.
Inductive Encryption := Plaintext | Encrypted.

#[export] Instance AddrMode_eq_dec : EqDecision AddrMode.
Proof. solve_decision. Defined.
#[export] Instance MicLength_eq_dec : EqDecision MicLength.
Proof. solve_decision. Defined.
#[export] Instance Signature_eq_dec : EqDecision Signature.
Proof. solve_decision. Defined.
#[export] Instance Encryption_eq_dec : EqDecision Encryption.
Proof. solve_decision. Defined.

(** The [repr(u8)] discriminants. *)
Definition addr_mode_u8 (m : AddrMode) : Z :=
  match m with AM_None => 0 | AM_Short => 1 | AM_Extended => 2 | AM_Elided => 3 end.
Definition mic_length_u8 (m : MicLength) : Z :=
  match m with Bits32 => 0 | Bits64 => 1 end.

Definition addr_mode_from_u8 (v : Z) : option AddrMode :=
  if v =? 0 then Some AM_None
  else if v =? 1 then Some AM_Short
  else if v =? 2 then Some AM_Extended
  else if v =? 3 then Some AM_Elided
  else None.

Definition addr_len (m : AddrMode) : nat :=
  match m with AM_None | AM_Elided => 0 | AM_Short => 2 | AM_Extended => 8 end.

Definition from_addr_len (len : nat) : option AddrMode :=
  match len with
  | 0%nat => Some AM_None
  | 2%nat => Some AM_Short
  | 8%nat => Some AM_Extended
  | _ => None
  end.

Definition mic_length_from_u8 (v : Z) : option MicLength :=
  if v =? 0 then Some Bits32 else if v =? 1 then Some Bits64 else None.

Definition is_present (s : Signature) : bool :=
  match s with Present => true | Absent => false end.
Definition is_encrypted (e : Encryption) : bool :=
  match e with Encrypted => true | Plaintext => false end.

Definition ADDR_MODE_MASK : Z := 3.
Definition MIC_LEN_SHIFT : Z := 2.
Definition MIC_LEN_MASK : Z := 7.
Definition SIGNATURE_BIT : Z := Z.shiftl 1 5.
Definition ENCRYPTED_BIT : Z := Z.shiftl 1 6.
Definition SIGNER_EUI64_BIT : Z := Z.shiftl 1 7.
Definition MAX_FRAME_LEN : nat := 255.
Definition MAX_FRAME_BODY : nat := MAX_FRAME_LEN - 1.

Inductive FrameError :=
  | Empty
  | FE_TooShort (e : TooShort)
  | FE_BufferTooSmall (e : BufferTooSmall)
  | ReservedBitSet
  | ReservedMicLength (v : Z)
  | AddrLenMismatch
  | MicLenMismatch
  | SignatureMicMismatch
  | SignatureSignerMismatch
  | EncryptedUnsupported
  | TrailingBytes
  | FrameTooLarge.

Record LichenFrame := {
  epoch : Z;
  seqnum : Z;
  dst_addr : bytes;
  signer_eui64 : bytes;
  payload : bytes;
  mic : bytes;
  addr_mode : AddrMode;
  mic_length : MicLength;
  signature : Signature;
  encryption : Encryption
}.

#[export] Instance FrameError_eq_dec : EqDecision FrameError.
Proof. solve_decision. Defined.
#[export] Instance LichenFrame_eq_dec : EqDecision LichenFrame.
Proof. solve_decision. Defined.

Definition llsec_byte (f : LichenFrame) : Z :=
  let v := Z.land (addr_mode_u8 f.(addr_mode)) ADDR_MODE_MASK in
  let v := Z.lor v (Z.shiftl (Z.land (mic_length_u8 f.(mic_length)) MIC_LEN_MASK) MIC_LEN_SHIFT) in
  let v := if is_present f.(signature) then Z.lor (Z.lor v SIGNATURE_BIT) SIGNER_EUI64_BIT else v in
  let v := if is_encrypted f.(encryption) then Z.lor v ENCRYPTED_BIT else v in
  v.

(** The guards of [write_to], in the order of the source; [Ok body_len] when
    every one of them passes. *)
Definition write_guards (f : LichenFrame) : result FrameError nat :=
  if is_encrypted f.(encryption) then Err EncryptedUnsupported
  else if negb (addr_len f.(addr_mode) =? length f.(dst_addr))%nat then Err AddrLenMismatch
  else
    let expected_mic_len := if is_present f.(signature) then 48%nat else 0%nat in
    if negb (length f.(mic) =? expected_mic_len)%nat then
      Err (if is_present f.(signature) then SignatureMicMismatch else MicLenMismatch)
    else
      let signer_len_ok :=
        if is_present f.(signature) then (length f.(signer_eui64) =? 8)%nat
        else (length f.(signer_eui64) =? 0)%nat in
      if negb signer_len_ok then Err SignatureSignerMismatch
      else
        let body_len := (4 + length f.(dst_addr) + length f.(signer_eui64)
                         + length f.(payload) + length f.(mic))%nat in
        if (MAX_FRAME_BODY <? body_len)%nat then Err FrameTooLarge else Ok body_len.

Definition write_to (f : LichenFrame) (buf : bytes) : result FrameError nat * bytes :=
  match write_guards f with
  | Err e => (Err e, buf)
  | Ok body_len =>
      let total := (1 + body_len)%nat in
      if (length buf <? total)%nat then
        (Err (FE_BufferTooSmall {| required := total; provided := length buf |}), buf)
      else
        let buf := <[0%nat := wrap8 (Z.of_nat body_len)]> buf in
        let buf := <[1%nat := llsec_byte f]> buf in
        let buf := <[2%nat := f.(epoch)]> buf in
        let seqnum_bytes := LinkSeqNum.to_be_bytes f.(seqnum) in
        let buf := <[3%nat := nth 0 seqnum_bytes 0]> buf in
        let buf := <[4%nat := nth 1 seqnum_bytes 0]> buf in
        let off := 5%nat in
        let buf := list_inserts off f.(dst_addr) buf in
        let off := (off + length f.(dst_addr))%nat in
        let buf := list_inserts off f.(signer_eui64) buf in
        let off := (off + length f.(signer_eui64))%nat in
        let buf := list_inserts off f.(payload) buf in
        let off := (off + length f.(payload))%nat in
        let buf := list_inserts off f.(mic) buf in
        let off := (off + length f.(mic))%nat in
        (Ok off, buf)
  end.

(** The address mode of the [match] in [from_bytes]: the two-bit field has no
    reserved value. *)
Definition addr_mode_of_bits (v : Z) : AddrMode :=
  if v =? 0 then AM_None else if v =? 1 then AM_Short
  else if v =? 2 then AM_Extended else AM_Elided.

Definition from_bytes (data : bytes) : result FrameError LichenFrame :=
  match data with
  | [] => Err Empty
  | len_byte :: _ =>
    if (MAX_FRAME_LEN <? length data)%nat then Err FrameTooLarge
    else
    let len := Z.to_nat len_byte in
    if (MAX_FRAME_BODY <? len)%nat then Err FrameTooLarge
    else
    let expected_total := (1 + len)%nat in
    if (expected_total <? length data)%nat then Err TrailingBytes
    else if (length data <? expected_total)%nat then
      Err (FE_TooShort {| expected := expected_total; actual := length data |})
    else
    let body := slice 1 expected_total data in
    if (len <? 4)%nat then Err (FE_TooShort {| expected := 4; actual := len |})
    else
    let llsec := nth 0 body 0 in
    if negb (Z.land llsec ENCRYPTED_BIT =? 0) then Err EncryptedUnsupported
    else
    let am := addr_mode_of_bits (Z.land llsec ADDR_MODE_MASK) in
    let mic_field := Z.land (Z.shiftr llsec MIC_LEN_SHIFT) MIC_LEN_MASK in
    match mic_length_from_u8 mic_field with
    | None => Err (ReservedMicLength mic_field)
    | Some ml =>
      let ep := nth 1 body 0 in
      let seq := LinkSeqNum.from_be_bytes [nth 2 body 0; nth 3 body 0] in
      let alen := addr_len am in
      let sig := negb (Z.land llsec SIGNATURE_BIT =? 0) in
      let signer_present := negb (Z.land llsec SIGNER_EUI64_BIT =? 0) in
      if negb (Bool.eqb sig signer_present) then Err SignatureSignerMismatch
      else
      let signer_len := if signer_present then 8%nat else 0%nat in
      let mic_len := if sig then 48%nat else 0%nat in
      let min_body := (4 + alen + signer_len + mic_len)%nat in
      if (length body <? min_body)%nat then
        Err (FE_TooShort {| expected := min_body; actual := length body |})
      else
      let payload_end := (length body - mic_len)%nat in
      let signer_start := (4 + alen)%nat in
      Ok {| epoch := ep;
            seqnum := seq;
            dst_addr := slice 4 (4 + alen) body;
            signer_eui64 := slice signer_start (signer_start + signer_len) body;
            payload := slice (signer_start + signer_len) payload_end body;
            mic := slice payload_end (length body) body;
            addr_mode := am;
            mic_length := ml;
            signature := if sig then Present else Absent;
            encryption := Plaintext |}
    end
  end.

(** ** The wire layout both directions agree on *)

(** Body of a frame, without the leading Length byte. *)
Definition body_of (f : LichenFrame) : bytes :=
  llsec_byte f :: f.(epoch) :: LinkSeqNum.to_be_bytes f.(seqnum)
    ++ f.(dst_addr) ++ f.(signer_eui64) ++ f.(payload) ++ f.(mic).

Definition wire_of (f : LichenFrame) : bytes :=
  Z.of_nat (length (body_of f)) :: body_of f.

(** What the Rust types guarantee of a frame's fields. *)
Record typed (f : LichenFrame) : Prop := {
  t_epoch : is_u8 f.(epoch);
  t_seqnum : is_u16 f.(seqnum);
  t_dst : bytes_ok f.(dst_addr);
  t_signer : bytes_ok f.(signer_eui64);
  t_payload : bytes_ok f.(payload);
  t_mic : bytes_ok f.(mic)
}.

(** What a frame must satisfy to be serialised. *)
Record encodable (f : LichenFrame) : Prop := {
  e_plain : f.(encryption) = Plaintext;
  e_dst : length f.(dst_addr) = addr_len f.(addr_mode);
  e_mic : length f.(mic) = if is_present f.(signature) then 48%nat else 0%nat;
  e_signer : length f.(signer_eui64) = if is_present f.(signature) then 8%nat else 0%nat;
  e_size : (length (body_of f) <= MAX_FRAME_BODY)%nat
}.

Lemma length_body_of f :
  length (body_of f) =
    (4 + length f.(dst_addr) + length f.(signer_eui64) + length f.(payload) + length f.(mic))%nat.
Proof. unfold body_of. rewrite !length_cons, !length_app. simpl. lia. Qed.

Lemma write_guards_ok f n :
  write_guards f = Ok n <-> encodable f /\ n = length (body_of f).
Proof.
  unfold write_guards. rewrite length_body_of. split.
  - intros H. repeat case_match; try done; bool_to_prop; injection H as <-.
    all: split; [constructor; rewrite ?length_body_of | done].
    all: destruct (encryption f), (signature f); simpl in *; try done; lia.
  - intros [[He Hd Hm Hs Hz] ->]. rewrite length_body_of in Hz.
    rewrite He, Hd, Hm, Hs, Nat.eqb_refl. simpl.
    destruct (is_present (signature f)); simpl;
      rewrite (proj2 (Nat.ltb_ge _ _)); auto; rewrite Hd, Hs, Hm in Hz; lia.
Qed.

(** ** Serialisation *)

Lemma wire_of_unfold f :
  wire_of f = [Z.of_nat (length (body_of f)); llsec_byte f; f.(epoch);
               nth 0 (LinkSeqNum.to_be_bytes f.(seqnum)) 0;
               nth 1 (LinkSeqNum.to_be_bytes f.(seqnum)) 0]
              ++ f.(dst_addr) ++ f.(signer_eui64) ++ f.(payload) ++ f.(mic).
Proof. done. Qed.

Lemma write_to_ok f buf :
  encodable f -> (length (wire_of f) <= length buf)%nat ->
  write_to f buf = (Ok (length (wire_of f)), wire_of f ++ drop (length (wire_of f)) buf).
Proof.
  intros He Hb. unfold write_to.
  rewrite (proj2 (write_guards_ok f _) (conj He eq_refl)).
  assert (length (wire_of f) = (1 + length (body_of f))%nat) as Hw by done.
  rewrite (proj2 (Nat.ltb_ge _ _)) by lia.
  assert (wrap8 (Z.of_nat (length (body_of f))) = Z.of_nat (length (body_of f))) as ->.
  { apply wrap8_small. pose proof (e_size f He). unfold MAX_FRAME_BODY, MAX_FRAME_LEN in *. width. }
  rewrite !insert_inserts. rewrite !inserts_adjacent by (simpl; lia).
  f_equal.
  - rewrite Hw, length_body_of. f_equal; lia.
  - rewrite <- inserts_front by done. f_equal.
Qed.

Lemma write_to_inv f buf n buf' :
  write_to f buf = (Ok n, buf') ->
  encodable f /\ n = length (wire_of f) /\ (n <= length buf)%nat /\
  buf' = wire_of f ++ drop n buf.
Proof.
  intros H. assert (encodable f /\ (length (wire_of f) <= length buf)%nat) as [He Hl].
  { unfold write_to in H. destruct (write_guards f) as [m | e] eqn:Hg; [| congruence].
    apply write_guards_ok in Hg as [He ->]. split; [done |].
    destruct (_ <? _)%nat eqn:Hlt; [congruence | bool_to_prop]. unfold wire_of. rewrite length_cons. lia. }
  rewrite write_to_ok in H by done. injection H as <- <-. done.
Qed.

(** ** Parsing *)

(** The flags byte determines the four header fields, and only values a
    serialiser emits pass the checks. *)
Lemma llsec_fields f :
  f.(encryption) = Plaintext ->
  let v := llsec_byte f in
  Z.land v ENCRYPTED_BIT = 0 /\
  addr_mode_of_bits (Z.land v ADDR_MODE_MASK) = f.(addr_mode) /\
  mic_length_from_u8 (Z.land (Z.shiftr v MIC_LEN_SHIFT) MIC_LEN_MASK) = Some f.(mic_length) /\
  negb (Z.land v SIGNATURE_BIT =? 0) = is_present f.(signature) /\
  negb (Z.land v SIGNER_EUI64_BIT =? 0) = is_present f.(signature).
Proof.
  unfold llsec_byte. intros ->.
  destruct (addr_mode f), (mic_length f), (signature f); vm_compute; auto 10.
Qed.

Definition llsec_checks (v : Z) : bool :=
  let am := addr_mode_of_bits (Z.land v ADDR_MODE_MASK) in
  match mic_length_from_u8 (Z.land (Z.shiftr v MIC_LEN_SHIFT) MIC_LEN_MASK) with
  | None => true
  | Some ml =>
      let sig := negb (Z.land v SIGNATURE_BIT =? 0) in
      if negb (Z.land v ENCRYPTED_BIT =? 0)
         || negb (Bool.eqb sig (negb (Z.land v SIGNER_EUI64_BIT =? 0)))
      then true
      else llsec_byte {| epoch := 0; seqnum := 0; dst_addr := []; signer_eui64 := [];
             payload := []; mic := []; addr_mode := am; mic_length := ml;
             signature := if sig then Present else Absent; encryption := Plaintext |} =? v
  end.

Lemma llsec_byte_ext f g :
  f.(addr_mode) = g.(addr_mode) -> f.(mic_length) = g.(mic_length) ->
  f.(signature) = g.(signature) -> f.(encryption) = g.(encryption) ->
  llsec_byte f = llsec_byte g.
Proof. unfold llsec_byte. by intros -> -> -> ->. Qed.

Lemma llsec_reencode v ml :
  is_u8 v -> Z.land v ENCRYPTED_BIT = 0 ->
  mic_length_from_u8 (Z.land (Z.shiftr v MIC_LEN_SHIFT) MIC_LEN_MASK) = Some ml ->
  Bool.eqb (negb (Z.land v SIGNATURE_BIT =? 0)) (negb (Z.land v SIGNER_EUI64_BIT =? 0)) = true ->
  forall f, f.(addr_mode) = addr_mode_of_bits (Z.land v ADDR_MODE_MASK) ->
    f.(mic_length) = ml -> f.(encryption) = Plaintext ->
    f.(signature) = (if negb (Z.land v SIGNATURE_BIT =? 0) then Present else Absent) ->
    llsec_byte f = v.
Proof.
  intros Hv Henc Hml Hsig f H1 H2 H3 H4.
  byte_cases llsec_checks v. unfold llsec_checks. rewrite Hml, Henc, Hsig. simpl.
  intros H%Z.eqb_eq. rewrite <- H at 1. by apply llsec_byte_ext.
Qed.

(** The body split the way [from_bytes] slices it. *)
Lemma body_slices (body : bytes) (a s m : nat) :
  (4 + a + s + m <= length body)%nat ->
  body = nth 0 body 0 :: nth 1 body 0 :: [nth 2 body 0; nth 3 body 0]
    ++ slice 4 (4 + a) body ++ slice (4 + a) (4 + a + s) body
    ++ slice (4 + a + s) (length body - m) body ++ slice (length body - m) (length body) body.
Proof.
  intros H. rewrite !slice_split by lia.
  do 4 (destruct body as [|? body]; [simpl in H; lia |]).
  cbn [nth app]. do 4 f_equal. unfold slice. symmetry.
  change (drop 4 (z :: z0 :: z1 :: z2 :: body)) with body.
  apply take_ge. simpl. lia.
Qed.

Lemma from_bytes_wire f :
  typed f -> encodable f -> from_bytes (wire_of f) = Ok f.
Proof.
  intros Ht He. pose proof (llsec_fields f (e_plain f He)) as (L1 & L2 & L3 & L4 & L5).
  pose proof (e_size f He) as Hz. unfold MAX_FRAME_BODY, MAX_FRAME_LEN in Hz.
  unfold from_bytes, wire_of.
  set (b := body_of f) in *. rewrite Nat2Z.id.
  change (length (Z.of_nat (length b) :: b)) with (1 + length b)%nat.
  assert (slice 1 (1 + length b) (Z.of_nat (length b) :: b) = b) as Hs.
  { unfold slice. change (drop 1 (Z.of_nat (length b) :: b)) with b. apply take_ge. lia. }
  rewrite Hs.
  pose proof (length_body_of f) as Hlen. fold b in Hlen.
  unfold MAX_FRAME_LEN, MAX_FRAME_BODY, MAX_FRAME_LEN.
  rewrite !(proj2 (Nat.ltb_ge _ _)) by lia.
  assert (nth 0 b 0 = llsec_byte f) as -> by done.
  rewrite L1, L2, L3, L4, L5, Bool.eqb_reflx. cbn [negb Z.eqb].
  rewrite (e_dst f He) in Hlen. rewrite (e_mic f He), (e_signer f He) in Hlen.
  rewrite (proj2 (Nat.ltb_ge _ _)) by lia.
  set (a := addr_len (addr_mode f)) in *.
  set (s := if is_present (signature f) then 8%nat else 0%nat) in *.
  set (m := if is_present (signature f) then 48%nat else 0%nat) in *.
  assert (LinkSeqNum.from_be_bytes [nth 2 b 0; nth 3 b 0] = seqnum f) as ->
    by apply (from_be_to_be_u16 _ (t_seqnum f Ht)).
  assert (length (dst_addr f) = a /\ length (signer_eui64 f) = s /\ length (mic f) = m)
    as (Ha & Hsl & Hm) by (destruct He; done).
  set (h := [llsec_byte f; epoch f; nth 2 b 0; nth 3 b 0]).
  assert (b = h ++ dst_addr f ++ signer_eui64 f ++ payload f ++ mic f) as Hb by done.
  rewrite (slice_app_eq h (dst_addr f) (signer_eui64 f ++ payload f ++ mic f))
    by (done || (simpl; lia)).
  rewrite (slice_app_eq (h ++ dst_addr f) (signer_eui64 f) (payload f ++ mic f))
    by (rewrite ?Hb, ?length_app; simpl; by rewrite ?app_assoc || lia).
  rewrite (slice_app_eq ((h ++ dst_addr f) ++ signer_eui64 f) (payload f) (mic f))
    by (rewrite ?Hb, ?length_app; simpl; rewrite <- ?app_assoc; done || lia).
  rewrite (slice_app_eq (((h ++ dst_addr f) ++ signer_eui64 f) ++ payload f) (mic f) [])
    by (rewrite ?Hb, ?length_app; simpl; rewrite <- ?app_assoc, ?app_nil_r; done || lia).
  destruct f as [? ? ? ? ? ? ? ? [] ?], He as [Hp]; simpl in *; by subst.
Qed.

(** A byte string is accepted exactly when it is the encoding of a frame. *)
Lemma from_bytes_inv data f :
  bytes_ok data -> from_bytes data = Ok f ->
  typed f /\ encodable f /\ data = wire_of f.
Proof.
  intros Hok H. unfold from_bytes in H.
  destruct data as [|l rest] eqn:Hdata; [done |]. rewrite <- Hdata in *.
  assert (is_u8 l) as Hl by (rewrite Hdata in Hok; by inversion Hok).
  assert (length data = S (length rest)) as Hlr by (by rewrite Hdata).
  repeat (destruct (_ <? _)%nat eqn:? in H; [congruence |]). bool_to_prop.
  assert (slice 1 (1 + Z.to_nat l) data = rest) as Hbody.
  { rewrite Hdata. unfold slice. change (drop 1 (l :: rest)) with rest. apply take_ge. lia. }
  rewrite Hbody in H. assert (Hrest : bytes_ok rest) by (rewrite Hdata in Hok; by inversion Hok).
  assert (forall i, (i < length rest)%nat -> is_u8 (nth i rest 0)) as Hnth.
  { intros i Hi. rewrite Forall_forall in Hrest. apply Hrest, list_elem_of_In, nth_In. done. }
  destruct (negb (Z.land _ ENCRYPTED_BIT =? 0)) eqn:Henc; [done | bool_to_prop].
  destruct (mic_length_from_u8 _) as [ml |] eqn:Hml; [| done].
  destruct (Bool.eqb _ _) eqn:Hsig; simpl in H; [| done].
  pose proof (eqb_prop _ _ Hsig) as Hsig'. rewrite <- Hsig' in H.
  set (sg := negb (Z.land (nth 0 rest 0) SIGNATURE_BIT =? 0)) in *.
  destruct (_ <? _)%nat eqn:Hmin in H; [done | bool_to_prop].
  apply ok_inj in H. set (a := addr_len _) in *.
  pose proof (body_slices rest a (if sg then 8 else 0) (if sg then 48 else 0) ltac:(lia)) as Hsl.
  assert (is_present (if sg then Present else Absent) = sg) as Hp by (by destruct sg).
  assert (llsec_byte f = nth 0 rest 0) as Hll.
  { eapply llsec_reencode; [apply Hnth; lia | done | done | done | ..]; by rewrite <- H. }
  assert (rest = body_of f) as Hbo.
  { unfold body_of. rewrite Hll, <- H.
    unfold LinkSeqNum.to_be_bytes, LinkSeqNum.from_be_bytes.
    cbn [epoch seqnum dst_addr signer_eui64 payload mic].
    rewrite to_be_from_be_u16 by (apply Hnth; lia). exact Hsl. }
  split; [| split].
  - rewrite <- H. constructor; simpl; auto with lichen lia.
  - pose proof (length_body_of f) as Hlb. rewrite <- Hbo in Hlb.
    unfold MAX_FRAME_LEN in *.
    constructor; rewrite <- ?Hbo; [by rewrite <- H | rewrite <- H; simpl ..|].
    all: rewrite ?Hp, ?slice_length by lia; destruct sg; unfold MAX_FRAME_BODY, MAX_FRAME_LEN; lia.
  - unfold wire_of. rewrite <- Hbo, Hdata. f_equal. width.
Qed.

(** ** Properties *)

(** C33: a frame the serialiser writes is parsed back to the same frame: the
    bytes written at the front of the output buffer are exactly the reported
    length, the rest of the buffer is untouched, and [from_bytes] on them
    returns every field of the frame. *)
Theorem frame_roundtrip (f : LichenFrame) (buf buf' : bytes) (n : nat)
  (Ht : typed f) (Hw : write_to f buf = (Ok n, buf')) :
  from_bytes (take n buf') = Ok f /\ drop n buf' = drop n buf /\ (n <= MAX_FRAME_LEN)%nat.
Proof.
  apply write_to_inv in Hw as (He & -> & Hl & ->).
  rewrite take_app_length, drop_app_length. split; [by apply from_bytes_wire | split; [done |]].
  pose proof (e_size f He). unfold wire_of, MAX_FRAME_BODY, MAX_FRAME_LEN in *.
  rewrite length_cons. lia.
Qed.

(** the wire format is canonical: every accepted byte string is the one
    encoding of the frame it parses to, so re-serialising the parsed frame
    reproduces the received bytes and two different strings never parse to
    the same frame. *)
Lemma frame_parse_canonical (data buf : bytes) (f : LichenFrame)
  (Hd : bytes_ok data) (Hp : from_bytes data = Ok f) (Hb : (length data <= length buf)%nat) :
  write_to f buf = (Ok (length data), data ++ drop (length data) buf) /\
  (forall data', bytes_ok data' -> from_bytes data' = Ok f -> data' = data).
Proof.
  apply from_bytes_inv in Hp as (Ht & He & ->); [| done]. split.
  - by apply write_to_ok.
  - intros data' Hd' Hp'. by apply from_bytes_inv in Hp' as (_ & _ & ->).
Qed.

(** serialisation succeeds exactly on the frames that satisfy the format's
    length rules and fit the buffer, and a failing call leaves the caller's
    buffer as it was. *)
Lemma frame_write_total (f : LichenFrame) (buf : bytes) :
  ((exists n, fst (write_to f buf) = Ok n) <->
     encodable f /\ (length (wire_of f) <= length buf)%nat) /\
  (forall e, fst (write_to f buf) = Err e -> snd (write_to f buf) = buf).
Proof.
  split; [split |].
  - intros [n Hn]. destruct (write_to f buf) as [r buf'] eqn:Hw. simpl in Hn. subst r.
    apply write_to_inv in Hw as (He & -> & Hl & _). done.
  - intros [He Hl]. rewrite write_to_ok by done. by eexists.
  - intros e. unfold write_to. destruct (write_guards f); [| done].
    by destruct (_ <? _)%nat.
Qed.

(** A signed broadcast frame with a two-byte payload, for the witnesses. *)
Definition sample : LichenFrame :=
  {| epoch := 7; seqnum := 513; dst_addr := [];
     signer_eui64 := replicate 8 17; payload := [20; 99]; mic := replicate 48 1;
     addr_mode := AM_None; mic_length := Bits32; signature := Present; encryption := Plaintext |}.

Lemma sample_typed : typed sample.
Proof. constructor; try (simpl; width); vm_compute; repeat constructor; done. Qed.

Lemma frame_roundtrip_witness :
  from_bytes (take 63 (snd (write_to sample (replicate 70 0)))) = Ok sample.
Proof.
  apply (frame_roundtrip sample (replicate 70 0) (snd (write_to sample (replicate 70 0))) 63).
  - exact sample_typed.
  - vm_compute. reflexivity.
Defined.

End Frame.
