(* ===== verification/Replay.v ===== *)
(** * Replay window

    lichen-link/src/replay.rs: the 32-slot bitmask window of one
    (peer, epoch) context.  [accept] is the code's bit manipulation at width
    32; the specification it is shown to implement is a plain set of accepted
    sequence numbers. *)

From S2P Require Import Prelude.

Module Replay.

Inductive ReplayWindowState := RW_Empty | RW_Tracking.
#[export] Instance ReplayWindowState_eq_dec : EqDecision ReplayWindowState.
Proof. solve_decision. Defined.

Definition can_transition_to (s next : ReplayWindowState) : bool :=
  match s, next with
  | RW_Empty, RW_Tracking | RW_Tracking, RW_Tracking => true
  | _, _ => false
  end.

Record InvalidReplayWindowTransition := {
  from : ReplayWindowState;
  to : ReplayWindowState
}.

Record ReplayWindow := {
  last_seq : Z;
  window : Z;
  initialised : bool;
  state : ReplayWindowState
}.

Definition new : ReplayWindow :=
  {| last_seq := 0; window := 0; initialised := false; state := RW_Empty |}.

Definition persistent_parts (w : ReplayWindow) : option (Z * Z) :=
  if w.(initialised) then Some (w.(last_seq), w.(window)) else None.

Definition from_persistent_parts (last_seq window : Z) : option ReplayWindow :=
  if (window =? 0) || (Z.land window 1 =? 0) then None
  else Some {| last_seq := last_seq; window := window; initialised := true;
               state := RW_Tracking |}.

Definition transition_to (w : ReplayWindow) (next : ReplayWindowState)
  : result InvalidReplayWindowTransition ReplayWindow :=
  if can_transition_to w.(state) next then
    Ok {| last_seq := w.(last_seq); window := w.(window);
          initialised := w.(initialised); state := next |}
  else Err {| from := w.(state); to := next |}.

(** [.transition_to(..).expect(..)]: [None] is the panic. *)
Definition expect_transition (w : ReplayWindow) (next : ReplayWindowState)
  : option ReplayWindow :=
  match transition_to w next with Ok w' => Some w' | Err _ => None end.

(** The verdict and the updated window; [None] is a panic. *)
Definition accept (w : ReplayWindow) (seq : Z) : option (bool * ReplayWindow) :=
  if negb w.(initialised) then
    w' ← expect_transition {| last_seq := seq; window := 1; initialised := true;
                              state := w.(state) |} RW_Tracking;
    Some (true, w')
  else
    let diff := seq - w.(last_seq) in
    if 0 <? diff then
      let shift := diff in
      let window' := if 32 <=? shift then 1
                     else Z.lor (wrap32 (Z.shiftl w.(window) shift)) 1 in
      w' ← expect_transition {| last_seq := seq; window := window';
                                initialised := w.(initialised); state := w.(state) |} RW_Tracking;
      Some (true, w')
    else if diff =? 0 then Some (false, w)
    else
      let offset := - diff in
      if 32 <=? offset then Some (false, w)
      else
        let bit := Z.shiftl 1 offset in
        if negb (Z.land w.(window) bit =? 0) then Some (false, w)
        else
          w' ← expect_transition {| last_seq := w.(last_seq); window := Z.lor w.(window) bit;
                                    initialised := w.(initialised); state := w.(state) |} RW_Tracking;
          Some (true, w').

#[global] Arguments accept : simpl never.

(** ** Specification: the set of sequence numbers accepted so far *)

Definition spec_fresh (A : gset Z) (s : Z) : Prop :=
  (s ∉ A) /\ set_Forall (fun m => m - s < 32) A.
#[export] Instance spec_fresh_dec A s : Decision (spec_fresh A s) := _.

Definition spec_accept (A : gset Z) (s : Z) : bool * gset Z :=
  if decide (spec_fresh A s) then (true, {[ s ]} ∪ A) else (false, A).

(** A window in use stands for [A]: [last_seq] is the greatest element and the
    bits are the membership of the 32 numbers below it. *)
Record tracks (w : ReplayWindow) (A : gset Z) : Prop := {
  tr_state : w.(state) = RW_Tracking;
  tr_last : w.(last_seq) ∈ A;
  tr_max : set_Forall (fun m => m <= w.(last_seq)) A;
  tr_u32 : is_u32 w.(window);
  tr_bits : forall i, 0 <= i < 32 -> Z.testbit w.(window) i = bool_decide (w.(last_seq) - i ∈ A)
}.

Definition repr (w : ReplayWindow) (A : gset Z) : Prop :=
  if w.(initialised) then tracks w A else A = ∅.

Lemma repr_new : repr new ∅.
Proof. done. Qed.

(** ** Bit-level lemmas *)

Lemma testbit_one i : 0 <= i -> Z.testbit 1 i = bool_decide (i = 0).
Proof.
  intros Hi. case_bool_decide; [by subst |]. apply Z.bits_above_log2; simpl; lia.
Qed.

Lemma testbit_shifted w k i :
  0 <= i < 32 -> 0 <= k ->
  Z.testbit (Z.lor (wrap32 (Z.shiftl w k)) 1) i =
    (if i <? k then false else Z.testbit w (i - k)) || bool_decide (i = 0).
Proof.
  intros Hi Hk. rewrite Z.lor_spec, testbit_one by lia. f_equal.
  unfold wrap32. change 4294967296 with (2 ^ 32).
  rewrite Z.mod_pow2_bits_low by lia.
  destruct (i <? k) eqn:?; bool_to_prop.
  - rewrite Z.shiftl_spec by lia. apply Z.testbit_neg_r. lia.
  - apply Z.shiftl_spec. lia.
Qed.

Lemma lor_u32 x y : is_u32 x -> is_u32 y -> is_u32 (Z.lor x y).
Proof.
  intros Hx Hy. assert (0 <= Z.lor x y) by (apply Z.lor_nonneg; width).
  assert (Z.lor x y < 2 ^ 32); [| change (2 ^ 32) with 4294967296 in *; width].
  destruct (Z.eq_dec (Z.lor x y) 0) as [-> | Hne]; [done |].
  apply Z.log2_lt_pow2; [lia |]. rewrite Z.log2_lor by width.
  apply Z.max_lub_lt; apply Z.le_lt_trans with (Z.log2 u32_max); try done;
    apply Z.log2_le_mono; width.
Qed.

Lemma land_bit w k : 0 <= k -> (Z.land w (Z.shiftl 1 k) =? 0) = negb (Z.testbit w k).
Proof.
  intros Hk. rewrite Z.shiftl_1_l.
  destruct (Z.testbit w k) eqn:Hb; simpl.
  - apply Z.eqb_neq. intros H. apply (f_equal (fun x => Z.testbit x k)) in H.
    rewrite Z.land_spec, Hb, Z.pow2_bits_true, Z.bits_0 in H by lia. done.
  - apply Z.eqb_eq, Z.bits_inj'. intros i Hi. rewrite Z.land_spec, Z.bits_0.
    rewrite Z.pow2_bits_eqb by lia. destruct (k =? i) eqn:E; [| by rewrite andb_false_r].
    apply Z.eqb_eq in E as ->. by rewrite Hb.
Qed.

(** ** The implementation refines the specification *)

Lemma tracks_advance w A s :
  tracks w A -> w.(last_seq) < s ->
  tracks {| last_seq := s;
            window := if 32 <=? s - w.(last_seq) then 1
                      else Z.lor (wrap32 (Z.shiftl w.(window) (s - w.(last_seq)))) 1;
            initialised := true; state := RW_Tracking |} ({[ s ]} ∪ A).
Proof.
  intros [Hst Hlast Hmax Hu Hbits] Hs. constructor; simpl; [done | set_solver | | |].
  - intros m [->%elem_of_singleton | Hm]%elem_of_union; [lia | apply Hmax in Hm; simpl in Hm; lia].
  - destruct (_ <=? _); [width |]. apply lor_u32; [auto with lichen | width].
  - intros i Hi. assert (forall j, 0 <= j -> w.(last_seq) + j + 1 ∉ A) as Habove.
    { intros j Hj Hin. apply Hmax in Hin. simpl in Hin. lia. }
    destruct (32 <=? _) eqn:E; bool_to_prop.
    + rewrite testbit_one by lia. apply bool_decide_ext. split; [intros; apply elem_of_union_l, elem_of_singleton; lia |].
      intros [?%elem_of_singleton | Hm]%elem_of_union; [lia |].
      exfalso. apply (Habove (s - i - w.(last_seq) - 1)); [lia |].
      by replace (w.(last_seq) + (s - i - w.(last_seq) - 1) + 1) with (s - i) by lia.
    + rewrite testbit_shifted by lia. destruct (i <? _) eqn:Ei; bool_to_prop; simpl.
      * apply bool_decide_ext. split; [intros; apply elem_of_union_l, elem_of_singleton; lia |].
        intros [?%elem_of_singleton | Hm]%elem_of_union; [lia |].
        exfalso. apply (Habove (s - i - w.(last_seq) - 1)); [lia |].
        by replace (w.(last_seq) + (s - i - w.(last_seq) - 1) + 1) with (s - i) by lia.
      * rewrite Hbits by lia.
        replace (w.(last_seq) - (i - (s - w.(last_seq)))) with (s - i) by lia.
        rewrite (bool_decide_false (i = 0)), orb_false_r by lia.
        apply bool_decide_ext. rewrite elem_of_union, elem_of_singleton. intuition lia.
Qed.

Lemma tracks_fill w A s :
  tracks w A -> s < w.(last_seq) -> w.(last_seq) - s < 32 ->
  tracks {| last_seq := w.(last_seq);
            window := Z.lor w.(window) (Z.shiftl 1 (w.(last_seq) - s));
            initialised := true; state := RW_Tracking |} ({[ s ]} ∪ A).
Proof.
  intros [Hst Hlast Hmax Hu Hbits] Hs Hk. constructor; simpl; [done | set_solver | | |].
  - intros m [->%elem_of_singleton | Hm]%elem_of_union; [lia | by apply Hmax in Hm].
  - apply lor_u32; [done |]. rewrite Z.shiftl_1_l.
    split; [apply Z.pow_nonneg; lia |].
    assert (2 ^ (w.(last_seq) - s) <= 2 ^ 31) as Hp by (apply Z.pow_le_mono_r; lia).
    change (2 ^ 31) with 2147483648 in Hp. width.
  - intros i Hi. rewrite Z.lor_spec, Z.shiftl_1_l, Z.pow2_bits_eqb, Hbits by lia.
    destruct (_ =? i) eqn:E; bool_to_prop.
    + rewrite orb_true_r. symmetry. apply bool_decide_true.
      apply elem_of_union_l, elem_of_singleton. lia.
    + rewrite orb_false_r. apply bool_decide_ext.
      rewrite elem_of_union, elem_of_singleton. intuition lia.
Qed.

Lemma spec_accept_true A s : spec_fresh A s -> spec_accept A s = (true, {[ s ]} ∪ A).
Proof. intros. unfold spec_accept. by rewrite decide_True. Qed.
Lemma spec_accept_false A s : ~ spec_fresh A s -> spec_accept A s = (false, A).
Proof. intros. unfold spec_accept. by rewrite decide_False. Qed.

Lemma accept_repr (w : ReplayWindow) (A : gset Z) (s : Z) (Hr : repr w A) :
  exists w', accept w s = Some (fst (spec_accept A s), w') /\
             repr w' (snd (spec_accept A s)) /\ w'.(initialised) = true.
Proof.
  unfold accept, expect_transition, transition_to, repr in *.
  destruct (initialised w) eqn:Hi; simpl.
  - destruct (0 <? _) eqn:H1; [| destruct (_ =? 0) eqn:H2; [| destruct (32 <=? _) eqn:H3;
      [| rewrite land_bit by (bool_to_prop; lia); destruct (Z.testbit _ _) eqn:H4]]];
      bool_to_prop; simpl.
    + rewrite spec_accept_true.
      2: { split; [intros Hin | intros m Hin]; apply (tr_max _ _ Hr) in Hin; simpl in *; lia. }
      rewrite (tr_state _ _ Hr). eexists; split; [done | split; [| done]]. simpl. apply (tracks_advance w A s Hr). lia.
    + rewrite spec_accept_false by (intros [Hn _]; apply Hn; replace s with w.(last_seq) by lia;
        apply (tr_last _ _ Hr)).
      exists w. rewrite Hi. done.
    + rewrite spec_accept_false by (intros [_ Hn]; specialize (Hn _ (tr_last _ _ Hr)); simpl in Hn; lia).
      exists w. rewrite Hi. done.
    + rewrite (tr_bits _ _ Hr) in H4 by lia. apply bool_decide_eq_true in H4.
      replace (last_seq w - - (s - last_seq w)) with s in H4 by lia.
      rewrite spec_accept_false by (intros [Hn _]; done). exists w. rewrite Hi. done.
    + rewrite (tr_bits _ _ Hr) in H4 by lia. apply bool_decide_eq_false in H4.
      replace (last_seq w - - (s - last_seq w)) with s in H4 by lia.
      rewrite spec_accept_true.
      2: { split; [done |]. intros m Hm. apply (tr_max _ _ Hr) in Hm. simpl in *. lia. }
      rewrite (tr_state _ _ Hr). eexists; split; [done | split; [| done]]. simpl.
      replace (- (s - last_seq w)) with (last_seq w - s) by lia.
      apply (tracks_fill w A s Hr); lia.
  - subst A. rewrite spec_accept_true by (split; [set_solver | apply set_Forall_empty]).
    assert (can_transition_to (state w) RW_Tracking = true) as -> by (by destruct (state w)).
    eexists; split; [done | split; [| done]]. constructor; simpl; [done | set_solver | set_solver by lia | done |].
    intros i Hi'. rewrite testbit_one by lia. apply bool_decide_ext. set_solver by lia.
Qed.

(** C32: on every window that stands for a set of accepted numbers, [accept]
    does not panic, returns the verdict of the set-based specification (not
    seen before and less than 32 behind the greatest accepted), and leaves a
    window that stands for the updated set. *)
Theorem accept_refines (w : ReplayWindow) (A : gset Z) (s : Z) (Hr : repr w A) :
  exists w', accept w s = Some (fst (spec_accept A s), w') /\
             repr w' (snd (spec_accept A s)).
Proof. destruct (accept_repr w A s Hr) as (w' & ? & ? & _). eauto. Qed.

Lemma accept_refines_witness :
  exists w', accept new 40 = Some (true, w') /\ repr w' {[ 40 ]}.
Proof.
  destruct (accept_refines new ∅ 40 repr_new) as (w' & H1 & H2).
  exists w'. split; [exact H1 |]. revert H2. by rewrite spec_accept_true, union_empty_r_L
    by (split; [set_solver | apply set_Forall_empty]).
Defined.

(** ** Runs of a window *)

(** Presents [seqs] one after the other; the accepted ones, oldest first. *)
Fixpoint run (w : ReplayWindow) (seqs : list Z) : option (list Z * ReplayWindow) :=
  match seqs with
  | [] => Some ([], w)
  | s :: rest =>
      '(b, w') ← accept w s;
      '(acc, w'') ← run w' rest;
      Some (if (b : bool) then s :: acc else acc, w'')
  end.

Lemma run_repr seqs : forall w A, repr w A ->
  exists acc w', run w seqs = Some (acc, w') /\ NoDup acc /\
    (forall s, s ∈ acc -> s ∉ A) /\ repr w' (list_to_set acc ∪ A).
Proof.
  induction seqs as [|s rest IH]; intros w A Hr; simpl.
  - exists [], w. rewrite list_to_set_nil, union_empty_l_L. repeat split; [constructor | set_solver | done].
  - destruct (accept_repr w A s Hr) as (w' & -> & Hr' & _). simpl.
    destruct (IH _ _ Hr') as (acc & w'' & -> & Hnd & Hdisj & Hr''). simpl.
    unfold spec_accept in *. case_decide as Hf; simpl in *.
    + exists (s :: acc), w''. repeat split.
      * constructor; [| done]. intros Hin. apply (Hdisj _ Hin). set_solver.
      * intros x [-> | Hx]%elem_of_cons; [apply Hf | specialize (Hdisj _ Hx); set_solver].
      * by replace (list_to_set (s :: acc) ∪ A) with (list_to_set acc ∪ ({[s]} ∪ A)) by set_solver.
    + by exists acc, w''.
Qed.

(** however the sequence numbers of one epoch arrive, reordered or
    repeated, a fresh window never panics and accepts no number twice. *)
Lemma window_no_replay (seqs : list Z) :
  exists acc w, run new seqs = Some (acc, w) /\ NoDup acc.
Proof. destruct (run_repr seqs new ∅ repr_new) as (acc & w & H & Hn & _). eauto. Qed.

(** Restoring the persisted parts of a window in use gives the same window. *)
Lemma persistent_roundtrip w A l b :
  tracks w A -> w.(initialised) = true -> persistent_parts w = Some (l, b) ->
  from_persistent_parts l b = Some w.
Proof.
  intros Ht Hi. unfold persistent_parts, from_persistent_parts. rewrite Hi.
  intros [= <- <-]. pose proof (tr_bits _ _ Ht 0 ltac:(lia)) as H0.
  rewrite Z.sub_0_r, (bool_decide_true _ (tr_last _ _ Ht)) in H0.
  assert (window w <> 0) as Hw by (intros E; rewrite E in H0; done).
  change 1 with (Z.shiftl 1 0). rewrite land_bit, H0 by lia.
  rewrite (proj2 (Z.eqb_neq _ _) Hw). simpl. destruct w, Ht; simpl in *. by subst.
Qed.

(** The numbers the bits of a window mark, and that a window rebuilt from
    persisted parts stands for them. *)
Definition marked (last_seq window : Z) : gset Z :=
  list_to_set ((fun i => last_seq - i) <$> filter (fun i => Z.testbit window i = true) (Z.of_nat <$> seq 0 32)).

Lemma elem_of_marked l w s :
  s ∈ marked l w <-> 0 <= l - s < 32 /\ Z.testbit w (l - s) = true.
Proof.
  unfold marked. rewrite elem_of_list_to_set, list_elem_of_fmap. split.
  - intros (i & -> & [Hb Hi]%list_elem_of_filter). apply list_elem_of_fmap in Hi as (n & -> & Hn).
    apply elem_of_seq in Hn. replace (l - (l - Z.of_nat n)) with (Z.of_nat n) by lia.
    split; [lia | done].
  - intros [Hr Hb]. exists (l - s). split; [lia |]. apply list_elem_of_filter. split; [done |].
    apply list_elem_of_fmap. exists (Z.to_nat (l - s)). split; [lia |]. apply elem_of_seq. lia.
Qed.

Lemma from_persistent_repr l b w :
  is_u32 b -> from_persistent_parts l b = Some w -> repr w (marked l b).
Proof.
  unfold from_persistent_parts. intros Hu. change 1 with (Z.shiftl 1 0) at 1.
  rewrite land_bit by lia. destruct (_ || _) eqn:E; [done |].
  apply orb_false_iff in E as [_ E]. apply negb_false_iff in E.
  intros [= <-]. unfold repr; simpl.
  constructor; simpl; [done | | | done |].
  - apply elem_of_marked. replace (l - l) with 0 by lia. split; [lia | done].
  - intros m Hm. apply elem_of_marked in Hm. lia.
  - intros i Hi. symmetry. destruct (Z.testbit b i) eqn:Hb.
    + apply bool_decide_true, elem_of_marked. replace (l - (l - i)) with i by lia. split; [lia | done].
    + apply bool_decide_false. rewrite elem_of_marked. replace (l - (l - i)) with i by lia.
      rewrite Hb. naive_solver.
Qed.

End Replay.
