(* ===== verification/ReplayProtector.v ===== *)
(** * Per-peer replay protection

    [ReplayProtector] of lichen-link/src/link_layer.rs: one replay window and
    highest epoch per public key, with least-recently-used eviction down to
    the capacity of the table. *)

From S2P Require Import Prelude SeqNum Replay.

Module Protector.

(** 32-byte public keys. *)
Abbreviation PublicKey := (list Z).

Record PeerReplayState := {
  last_epoch : Z;
  window : Replay.ReplayWindow;
  last_access : Z
}.

Definition state_new (epoch last_access : Z) : PeerReplayState :=
  {| last_epoch := epoch; window := Replay.new; last_access := last_access |}.

Record ReplayProtector := {
  peers : gmap PublicKey PeerReplayState;
  access_counter : Z;
  max_peers : nat
}.

Definition new : ReplayProtector :=
  {| peers := ∅; access_counter := 0; max_peers := 64 |}.

Definition with_peers (rp : ReplayProtector) (p : gmap PublicKey PeerReplayState) :=
  {| peers := p; access_counter := rp.(access_counter); max_peers := rp.(max_peers) |}.

Section protector.
Context `{HashIter}.

(** [while peers.len() > max_peers { remove the oldest }].  Every round
    removes one entry, so the number of entries is enough fuel. *)
Fixpoint evict_loop (fuel : nat) (max : nat) (p : gmap PublicKey PeerReplayState)
  : gmap PublicKey PeerReplayState :=
  match fuel with
  | O => p
  | S fuel =>
      if (max <? size p)%nat then
        match min_by_key (fun e => last_access (snd e)) (hash_iter p) with
        | Some (k, _) => evict_loop fuel max (delete k p)
        | None => p
        end
      else p
  end.

Definition evict_if_needed (rp : ReplayProtector) : ReplayProtector :=
  with_peers rp (evict_loop (size rp.(peers)) rp.(max_peers) rp.(peers)).

Definition reset_peer (rp : ReplayProtector) (pk : PublicKey) : ReplayProtector :=
  with_peers rp (delete pk rp.(peers)).

(** [None] is a panic of the replay window. *)
Definition check_and_update (rp : ReplayProtector) (pk : PublicKey) (epoch seqnum : Z)
  : option (bool * ReplayProtector) :=
  let access := saturating_add u64_max rp.(access_counter) 1 in
  let rp := {| peers := rp.(peers); access_counter := access; max_peers := rp.(max_peers) |} in
  match rp.(peers) !! pk with
  | None =>
      let st := state_new epoch access in
      '(accepted, w) ← Replay.accept st.(window) seqnum;
      let st := {| last_epoch := st.(last_epoch); window := w; last_access := st.(last_access) |} in
      let rp := with_peers rp (<[pk := st]> rp.(peers)) in
      Some (accepted, evict_if_needed rp)
  | Some st =>
      if st.(last_epoch) <? epoch then
        '(accepted, w) ← Replay.accept Replay.new seqnum;
        Some (accepted, with_peers rp
          (<[pk := {| last_epoch := epoch; window := w; last_access := access |}]> rp.(peers)))
      else if epoch <? st.(last_epoch) then
        Some (false, with_peers rp
          (<[pk := {| last_epoch := st.(last_epoch); window := st.(window);
                      last_access := access |}]> rp.(peers)))
      else
        '(accepted, w) ← Replay.accept st.(window) seqnum;
        Some (accepted, with_peers rp
          (<[pk := {| last_epoch := st.(last_epoch); window := w;
                      last_access := access |}]> rp.(peers)))
  end.

(** ** Eviction *)

Lemma evict_loop_small fuel max p : (size p <= max)%nat -> evict_loop fuel max p = p.
Proof. intros Hs. destruct fuel; simpl; [done |]. by rewrite (proj2 (Nat.ltb_ge _ _)). Qed.

Lemma evict_loop_size fuel max p :
  (size p <= fuel)%nat -> (size (evict_loop fuel max p) <= max)%nat.
Proof.
  revert p. induction fuel as [|fuel IH]; intros p Hf; simpl; [lia |].
  destruct (max <? size p)%nat eqn:E; bool_to_prop; [| lia].
  destruct (min_by_key_hash p (fun e => last_access (snd e)) ltac:(lia))
    as (k & v & -> & Hk & _).
  apply IH. rewrite map_size_delete_Some by eauto. lia.
Qed.

Lemma evict_loop_lookup fuel max p k st :
  evict_loop fuel max p !! k = Some st -> p !! k = Some st.
Proof.
  revert p. induction fuel as [|fuel IH]; intros p; simpl; [done |].
  destruct (max <? size p)%nat; [| done].
  destruct (min_by_key _ _) as [[k' v'] |]; [| done].
  intros Hl%IH. by apply lookup_delete_Some in Hl as [_ Hl].
Qed.

(** ** The per-peer history *)

(** [st] stands for the set [hist] of (epoch, seqnum) pairs it has accepted. *)
Record peer_repr (st : PeerReplayState) (hist : gset (Z * Z)) : Prop := {
  pr_window : Replay.repr st.(window)
    (set_map snd (filter (fun x => fst x = st.(last_epoch)) hist) : gset Z);
  pr_epochs : forall e s, (e, s) ∈ hist -> e <= st.(last_epoch)
}.

(** A fresh pair for a peer with history [hist]: a newer epoch, or the current
    epoch and a number its window has room for. *)
Definition hist_epoch (hist : gset (Z * Z)) (e : Z) : gset Z :=
  set_map snd (filter (fun x => fst x = e) hist).

Lemma elem_of_hist_epoch hist e s : s ∈ hist_epoch hist e <-> (e, s) ∈ hist.
Proof.
  unfold hist_epoch. rewrite elem_of_map. split.
  - intros ([e' s'] & -> & Hx). apply elem_of_filter in Hx as [<- Hx]. done.
  - intros Hin. exists (e, s). split; [done |]. by apply elem_of_filter.
Qed.

Lemma hist_epoch_add hist e s :
  hist_epoch ({[ (e, s) ]} ∪ hist) e = {[ s ]} ∪ hist_epoch hist e.
Proof.
  apply set_eq. intros x. rewrite elem_of_union, elem_of_singleton, !elem_of_hist_epoch.
  rewrite elem_of_union, elem_of_singleton. naive_solver.
Qed.

Lemma hist_epoch_empty hist e :
  (forall e' s, (e', s) ∈ hist -> e' < e) -> hist_epoch hist e = ∅.
Proof.
  intros Hlt. apply set_eq. intros x. rewrite elem_of_hist_epoch.
  split; [intros Hx%Hlt; lia | set_solver].
Qed.

(** Presenting [(e, s)] to a window that stands for the numbers of epoch [e]. *)
Lemma window_step w hist e s a :
  Replay.repr w (hist_epoch hist e) -> (forall e' s', (e', s') ∈ hist -> e' <= e) ->
  exists b w', Replay.accept w s = Some (b, w') /\
    peer_repr {| last_epoch := e; window := w'; last_access := a |}
      (if b then {[ (e, s) ]} ∪ hist else hist) /\
    (b = true -> (e, s) ∉ hist).
Proof.
  intros Hr Hle. destruct (Replay.accept_repr _ _ s Hr) as (w' & Ha & Hr' & _).
  exists (fst (Replay.spec_accept (hist_epoch hist e) s)), w'. split; [done |].
  unfold Replay.spec_accept in *. case_decide as Hf; simpl in *.
  - split; [constructor; simpl |].
    + change (Replay.repr w' (hist_epoch ({[ (e, s) ]} ∪ hist) e)). by rewrite hist_epoch_add.
    + intros e' s' [Heq%elem_of_singleton | Hin]%elem_of_union; [| by eapply Hle].
      injection Heq as -> ->. lia.
    + intros _ Hin. apply Hf. by apply elem_of_hist_epoch.
  - split; [constructor; simpl; done | done].
Qed.

(** A peer with a history: the verdict is positive only on a pair that is not
    in it, the history grows by the accepted pair, and only this peer's entry
    and the access clock change. *)
Lemma check_known rp pk e s st hist :
  rp.(peers) !! pk = Some st -> peer_repr st hist ->
  exists b st', check_and_update rp pk e s =
      Some (b, {| peers := <[pk := st']> rp.(peers);
                  access_counter := saturating_add u64_max rp.(access_counter) 1;
                  max_peers := rp.(max_peers) |}) /\
    peer_repr st' (if b then {[ (e, s) ]} ∪ hist else hist) /\
    (b = true -> (e, s) ∉ hist).
Proof.
  intros Hl Hp. unfold check_and_update. cbn [peers access_counter max_peers]. rewrite Hl.
  pose proof (pr_epochs _ _ Hp) as Hle.
  set (acc := saturating_add _ _ _).
  destruct (_ <? e) eqn:E1; bool_to_prop; [| destruct (e <? _) eqn:E2; bool_to_prop].
  - assert (Replay.repr Replay.new (hist_epoch hist e)) as Hr.
    { rewrite hist_epoch_empty; [done |]. intros e' s' Hin%Hle. lia. }
    destruct (window_step _ hist e s acc Hr) as (b & w' & -> & Hpr & Hb).
    { intros e' s' Hin%Hle. lia. }
    by exists b, {| last_epoch := e; window := w'; last_access := acc |}.
  - exists false, {| last_epoch := st.(last_epoch); window := st.(window); last_access := acc |}.
    split; [done |]. split; [destruct Hp; by constructor | done].
  - assert (e = st.(last_epoch)) as -> by lia.
    destruct (window_step _ hist _ s acc (pr_window _ _ Hp) Hle) as (b & w' & -> & Hpr & Hb).
    by exists b, {| last_epoch := st.(last_epoch); window := w'; last_access := acc |}.
Qed.

(** A peer without an entry is accepted and tracked from its first pair. *)
Lemma check_unknown rp pk e s :
  rp.(peers) !! pk = None ->
  exists st, check_and_update rp pk e s =
      Some (true, evict_if_needed {| peers := <[pk := st]> rp.(peers);
        access_counter := saturating_add u64_max rp.(access_counter) 1;
        max_peers := rp.(max_peers) |}) /\
    peer_repr st {[ (e, s) ]}.
Proof.
  intros Hl. unfold check_and_update. cbn [peers access_counter max_peers]. rewrite Hl.
  set (acc := saturating_add _ _ _).
  assert (Replay.repr Replay.new (hist_epoch ∅ e)) as Hr
    by (rewrite hist_epoch_empty; [done | set_solver]).
  destruct (window_step _ ∅ e s acc Hr) as (b & w' & Ha & Hpr & Hb); [set_solver |].
  assert (b = true) as -> by (cbv in Ha; by injection Ha).
  unfold state_new. cbn [window last_epoch last_access]. rewrite Ha. simpl. eexists. split; [done |]. by rewrite union_empty_r_L in Hpr.
Qed.

(** A counter ahead of everything the entry has accepted: a newer epoch, or
    the current epoch and a greater sequence number. *)
Definition ahead (rp : ReplayProtector) (pk : PublicKey) (e s : Z) : Prop :=
  forall st, rp.(peers) !! pk = Some st ->
    st.(last_epoch) < e \/ (e = st.(last_epoch) /\ Replay.last_seq st.(window) < s).

Lemma check_ahead rp pk e s :
  ahead rp pk e s -> (forall st, rp.(peers) !! pk = Some st -> exists hist, peer_repr st hist) ->
  exists rp', check_and_update rp pk e s = Some (true, rp').
Proof.
  intros Ha Hrep. destruct (rp.(peers) !! pk) as [st|] eqn:Hl.
  2: { destruct (check_unknown rp pk e s Hl) as (st & -> & _). eauto. }
  destruct (Hrep _ eq_refl) as [hist Hp]. specialize (Ha _ Hl).
  unfold check_and_update. cbn [peers access_counter max_peers]. rewrite Hl.
  destruct (_ <? e) eqn:E1; bool_to_prop.
  - destruct (Replay.accept_repr _ _ s Replay.repr_new) as (w' & -> & _). rewrite Replay.spec_accept_true.
    2: { split; [set_solver | apply set_Forall_empty]. }
    simpl. eauto.
  - destruct Ha as [? | [-> Hs]]; [lia |]. rewrite Z.ltb_irrefl.
    destruct (Replay.accept_repr _ _ s (pr_window _ _ Hp)) as (w' & -> & _).
    rewrite Replay.spec_accept_true; [simpl; eauto |].
    pose proof (pr_window _ _ Hp) as Hw. unfold Replay.repr in Hw.
    destruct (Replay.initialised _); [| rewrite Hw; split; [set_solver | apply set_Forall_empty]].
    pose proof (Replay.tr_max _ _ Hw) as Hmax.
    split; [intros Hin | intros m Hin]; apply Hmax in Hin; simpl in Hin; lia.
Qed.

(** A rebuilt entry stands for the numbers its bits mark. *)
Lemma restored_repr l b w e a :
  is_u32 b -> Replay.from_persistent_parts l b = Some w ->
  exists hist, peer_repr {| last_epoch := e; window := w; last_access := a |} hist.
Proof.
  intros Hu Hw. exists (set_map (pair e) (Replay.marked l b)). constructor; simpl.
  - change (Replay.repr w (hist_epoch (set_map (pair e) (Replay.marked l b)) e)).
    replace (hist_epoch _ e) with (Replay.marked l b); [by apply Replay.from_persistent_repr |].
    apply set_eq. intros s. rewrite elem_of_hist_epoch, elem_of_map. naive_solver.
  - intros e' s (x & [= -> ->] & _)%elem_of_map. lia.
Qed.

End protector.
End Protector.
