(* ===== verification/Evidence.v ===== *)
(** * Reception evidence

    lichen-link/src/evidence.rs: the monotonic receipt clock of one receiver,
    the process-wide counters its identifiers come from, and the durable
    identity of an installed peer key.  The two process-wide atomics are fields of
    [Process]; [fetch_update] is one atomic read-modify-write, so a sequential
    state is enough. *)

From S2P Require Import Prelude.

Module Evidence.

(** [NEXT_CLOCK_DOMAIN] and [NEXT_PEER_KEY_GENERATION]. *)
Record Process := {
  NEXT_CLOCK_DOMAIN : Z;
  NEXT_PEER_KEY_GENERATION : Z
}.
Definition process_start : Process :=
  {| NEXT_CLOCK_DOMAIN := 1; NEXT_PEER_KEY_GENERATION := 1 |}.

Definition nonzero (o : option Z) : option Z :=
  n ← o; if n =? 0 then None else Some n.

Definition next_clock_domain (current : Z) : option Z :=
  nonzero (checked_add u32_max current 1).

Inductive ReceiptClockError := DomainExhausted | ClockRegression | ClockModeMismatch.
Inductive ReceiptClockMode := Unset | OpaqueTicks | Millis | Logical.
#[export] Instance ReceiptClockMode_eq_dec : EqDecision ReceiptClockMode.
Proof. solve_decision. Defined.

Record ReceiptEvidence := {
  clock_domain : Z;
  monotonic_ticks : Z;
  duration_millis : option Z
}.

Definition elapsed_since (self earlier : ReceiptEvidence) : option Z :=
  if negb (self.(clock_domain) =? earlier.(clock_domain)) then None
  else checked_sub self.(monotonic_ticks) earlier.(monotonic_ticks).

Record ReceiptClock := {
  domain : Z;
  last_ticks : Z;
  mode : ReceiptClockMode
}.

(** [ReceiptClock::new]: allocates a clock domain from the process counter. *)
Definition clock_new (p : Process) : result ReceiptClockError ReceiptClock * Process :=
  match next_clock_domain p.(NEXT_CLOCK_DOMAIN) with
  | None => (Err DomainExhausted, p)
  | Some next =>
      (Ok {| domain := p.(NEXT_CLOCK_DOMAIN); last_ticks := 0; mode := Unset |},
       {| NEXT_CLOCK_DOMAIN := next; NEXT_PEER_KEY_GENERATION := p.(NEXT_PEER_KEY_GENERATION) |})
  end.

(** [PeerKeyGeneration::allocate]. *)
Definition allocate (p : Process) : option Z * Process :=
  match nonzero (checked_add u64_max p.(NEXT_PEER_KEY_GENERATION) 1) with
  | None => (None, p)
  | Some next =>
      (Some p.(NEXT_PEER_KEY_GENERATION),
       {| NEXT_CLOCK_DOMAIN := p.(NEXT_CLOCK_DOMAIN); NEXT_PEER_KEY_GENERATION := next |})
  end.

(** [DurablePeerKeyGeneration::from_owner_bytes]. *)
Definition from_owner_bytes (b : bytes) : option bytes :=
  if decide (b = replicate 16 0) then None else Some b.

Definition select_mode (c : ReceiptClock) (requested : ReceiptClockMode)
  : result ReceiptClockError unit * ReceiptClock :=
  match c.(mode) with
  | Unset => (Ok tt, {| domain := c.(domain); last_ticks := c.(last_ticks); mode := requested |})
  | current => if decide (current = requested) then (Ok tt, c) else (Err ClockModeMismatch, c)
  end.

(** [observe] and [observe_millis] share their body up to the mode and the
    duration field. *)
Definition observe_in (m : ReceiptClockMode) (duration : option Z) (c : ReceiptClock) (ticks : Z)
  : result ReceiptClockError ReceiptEvidence * ReceiptClock :=
  match select_mode c m with
  | (Err e, c) => (Err e, c)
  | (Ok _, c) =>
      if ticks <? c.(last_ticks) then (Err ClockRegression, c)
      else
        (Ok {| clock_domain := c.(domain); monotonic_ticks := ticks; duration_millis := duration |},
         {| domain := c.(domain); last_ticks := ticks; mode := c.(mode) |})
  end.

Definition observe (c : ReceiptClock) (ticks : Z) := observe_in OpaqueTicks None c ticks.
Definition observe_millis (c : ReceiptClock) (ms : Z) := observe_in Millis (Some ms) c ms.

Definition next_logical (c : ReceiptClock) : result ReceiptClockError ReceiptEvidence * ReceiptClock :=
  match select_mode c Logical with
  | (Err e, c) => (Err e, c)
  | (Ok _, c) =>
      match checked_add u64_max c.(last_ticks) 1 with
      | None => (Err ClockRegression, c)
      | Some next =>
          (Ok {| clock_domain := c.(domain); monotonic_ticks := next; duration_millis := None |},
           {| domain := c.(domain); last_ticks := next; mode := c.(mode) |})
      end
  end.

(** ** One clock under any sequence of samples *)

Inductive sample := Ticks (t : Z) | Ms (t : Z) | Tick.

Definition sample_mode (s : sample) : ReceiptClockMode :=
  match s with Ticks _ => OpaqueTicks | Ms _ => Millis | Tick => Logical end.

Definition capture (c : ReceiptClock) (s : sample) :=
  match s with
  | Ticks t => observe c t
  | Ms t => observe_millis c t
  | Tick => next_logical c
  end.

(** The evidence issued, oldest first. *)
Fixpoint captures (c : ReceiptClock) (ss : list sample) : list (sample * ReceiptEvidence) :=
  match ss with
  | [] => []
  | s :: rest =>
      let '(r, c') := capture c s in
      match r with
      | Ok e => (s, e) :: captures c' rest
      | Err _ => captures c' rest
      end
  end.

(** A sample never moves the clock backwards nor to another domain, and fixes
    its mode. *)
Lemma capture_step c s r c' :
  capture c s = (r, c') ->
  c'.(domain) = c.(domain) /\ c.(last_ticks) <= c'.(last_ticks) /\
  (c.(mode) <> Unset -> c'.(mode) = c.(mode)) /\
  (forall e, r = Ok e -> e.(clock_domain) = c.(domain) /\
     e.(monotonic_ticks) = c'.(last_ticks) /\ c'.(mode) = sample_mode s).
Proof.
  destruct s; unfold capture, observe, observe_millis, observe_in, next_logical, select_mode,
    checked_add; intros H; repeat case_match; simplify_eq; simpl in *; bool_to_prop;
    repeat split; try done; try congruence; try lia; intros; simplify_eq; done.
Qed.

Lemma captures_inv ss : forall c,
  Forall (fun x => (snd x).(clock_domain) = c.(domain) /\
                   c.(last_ticks) <= (snd x).(monotonic_ticks) /\
                   (c.(mode) <> Unset -> sample_mode (fst x) = c.(mode))) (captures c ss).
Proof.
  induction ss as [|s ss IH]; intros c; simpl; [constructor |].
  destruct (capture c s) as [r c'] eqn:Hc. apply capture_step in Hc as (Hd & Hle & Hm & He).
  assert (forall x : sample * ReceiptEvidence, 
      clock_domain (snd x) = domain c' /\ last_ticks c' <= monotonic_ticks (snd x) /\
      (mode c' <> Unset -> sample_mode (fst x) = mode c') ->
      clock_domain (snd x) = domain c /\ last_ticks c <= monotonic_ticks (snd x) /\
      (mode c <> Unset -> sample_mode (fst x) = mode c)) as Hx.
  { intros x (-> & ? & Hx). rewrite Hd. repeat split; [lia |].
    intros Hu. rewrite <- (Hm Hu). apply Hx. by rewrite Hm. }
  destruct r as [e |]; [constructor |]; [| eapply Forall_impl; [apply IH | exact Hx] ..].
  simpl. destruct (He e eq_refl) as (-> & -> & Hs). repeat split; [lia |].
  intros Hu. by rewrite <- Hs, Hm.
Qed.

(** the evidence one receiver clock issues, whatever samples it is given,
    lies in one domain and one unit, never goes back in time, and any later
    receipt can be compared with any earlier one. *)
Lemma receipts_monotone (c : ReceiptClock) (ss : list sample) (i j : nat)
  (si sj : sample) (ei ej : ReceiptEvidence)
  (Hij : (i < j)%nat) (Hi : captures c ss !! i = Some (si, ei))
  (Hj : captures c ss !! j = Some (sj, ej)) :
  elapsed_since ej ei = Some (ej.(monotonic_ticks) - ei.(monotonic_ticks)) /\
  0 <= ej.(monotonic_ticks) - ei.(monotonic_ticks) /\ sample_mode si = sample_mode sj.
Proof.
  revert c i j Hij Hi Hj. induction ss as [|s ss IH]; intros c i j Hij Hi Hj; [done |].
  simpl in Hi, Hj. destruct (capture c s) as [r c'] eqn:Hc.
  destruct r as [e |]; [| by eapply IH].
  destruct i as [|i], j as [|j]; try lia; simpl in Hi, Hj; [| eapply (IH c' i j); [lia | done ..]].
  injection Hi as -> ->. apply capture_step in Hc as (Hd & Hle & _ & He).
  destruct (He _ eq_refl) as (Hde & Hte & Hme).
  pose proof (captures_inv ss c') as Hall. rewrite Forall_lookup in Hall.
  destruct (Hall _ _ Hj) as (Hdj & Htj & Hmj). simpl in *.
  unfold elapsed_since, checked_sub. rewrite Hdj, Hde, Hd, Z.eqb_refl. simpl.
  rewrite (proj2 (Z.leb_le _ _)) by lia.
  repeat split; [lia |]. rewrite Hmj; [done |]. rewrite Hme. by destruct si.
Qed.

End Evidence.
