(* ===== verification/Addr.v ===== *)
(** * Routable addresses

    [ygg_addr_from_pubkey] and [subnet_for_key] of lichen-core/src/addr.rs:
    the bit packing of a 256-bit key into a 0200::/8 address. *)

From S2P Require Import Prelude.

Module Addr.

(** The bit tests of the nested [for byte] / [for shift in (0..8).rev()]
    loops, in the order they are made. *)
Definition loop_bits (pubkey : bytes) : list bool :=
  flat_map (fun byte => map (fun shift => negb (Z.land byte (Z.shiftl 1 shift) =? 0))
                          [7; 6; 5; 4; 3; 2; 1; 0]) pubkey.

(** [leading_ones]: tests passed before the first set bit breaks out. *)
Fixpoint leading_ones (bits : list bool) : nat :=
  match bits with
  | [] => 0
  | true :: _ => 0
  | false :: rest => S (leading_ones rest)
  end.

Record PackState := { acc : Z; n_bits : Z; out : nat; addr : bytes }.

(** One round of the packing loop for a raw key bit. *)
Definition pack_step (st : PackState) (raw_bit : Z) : PackState :=
  let acc := Z.lor (wrap8 (Z.shiftl st.(acc) 1)) (Z.lxor raw_bit 1) in
  let n_bits := st.(n_bits) + 1 in
  if n_bits =? 8 then
    if (st.(out) <? 16)%nat then
      {| acc := 0; n_bits := 0; out := st.(out) + 1; addr := <[st.(out) := acc]> st.(addr) |}
    else {| acc := 0; n_bits := 0; out := st.(out); addr := st.(addr) |}
  else {| acc := acc; n_bits := n_bits; out := st.(out); addr := st.(addr) |}.

(** [(pubkey[i / 8] >> (7 - (i % 8))) & 1]. *)
Definition raw_bit (pubkey : bytes) (i : nat) : Z :=
  Z.land (Z.shiftr (nth (i / 8) pubkey 0) (7 - Z.of_nat (i mod 8))) 1.

Definition ygg_addr_from_pubkey (pubkey : bytes) : bytes :=
  let a := <[0%nat := 2]> (replicate 16 0) in
  let lead := leading_ones (loop_bits pubkey) in
  let a := <[1%nat := wrap8 (Z.of_nat lead)]> a in
  (foldl (fun st i => pack_step st (raw_bit pubkey i))
     {| acc := 0; n_bits := 0; out := 2; addr := a |}
     (seq (lead + 1) (256 - (lead + 1)))).(addr).

Definition subnet_for_key (pubkey : bytes) : bytes :=
  let addr := ygg_addr_from_pubkey pubkey in
  let subnet := take 8 addr in
  match subnet with
  | b :: rest => Z.lor b 1 :: rest
  | [] => []
  end.

(** ** Reference: the inverted key bits after the first set bit, packed
    MSB-first into whole bytes *)

Definition byte_of_bits (bits : list bool) : Z :=
  foldl (fun a b => 2 * a + Z.b2z b) 0 bits.

Fixpoint pack8 (bits : list bool) : list Z :=
  match bits with
  | b7 :: b6 :: b5 :: b4 :: b3 :: b2 :: b1 :: b0 :: rest =>
      byte_of_bits [b7; b6; b5; b4; b3; b2; b1; b0] :: pack8 rest
  | _ => []
  end.

Definition addr_reference (pubkey : bytes) : bytes :=
  let bits := loop_bits pubkey in
  let lead := leading_ones bits in
  let packed := take 14 (pack8 (map negb (drop (lead + 1) bits))) in
  2 :: wrap8 (Z.of_nat lead) :: packed ++ replicate (14 - length packed) 0.

(** The address of the pinned upstream conformance vector shape: a key whose
    first set bit is bit 3. *)
Example ygg_addr_example :
  ygg_addr_from_pubkey (24 :: replicate 31 255) = 2 :: 3 :: 112 :: replicate 13 0.
Proof. vm_compute. reflexivity. Qed.

(** *** The loop over key indices is a loop over key bits *)

Lemma raw_bit_byte b i : is_u8 b -> (i < 8)%nat ->
  Z.land (Z.shiftr b (7 - Z.of_nat i)) 1 =
  Z.b2z (nth i (map (fun shift => negb (Z.land b (Z.shiftl 1 shift) =? 0))
                  [7; 6; 5; 4; 3; 2; 1; 0]) false).
Proof.
  intros Hb Hi.
  byte_cases (fun b => forallb (fun i => Z.land (Z.shiftr b (7 - Z.of_nat i)) 1 =?
    Z.b2z (nth i (map (fun shift => negb (Z.land b (Z.shiftl 1 shift) =? 0))
                  [7; 6; 5; 4; 3; 2; 1; 0]) false)) (seq 0 8)) b.
  rewrite forallb_forall. intros Hall. apply Z.eqb_eq, Hall, in_seq. lia.
Qed.

Lemma raw_bit_nth pubkey i :
  bytes_ok pubkey -> (i < 8 * length pubkey)%nat ->
  raw_bit pubkey i = Z.b2z (nth i (loop_bits pubkey) false).
Proof.
  revert i. induction pubkey as [|b rest IH]; intros i Hok Hi; [simpl in Hi; lia |].
  apply Forall_cons in Hok as [Hb Hrest]. unfold raw_bit.
  change (loop_bits (b :: rest)) with
    (map (fun shift => negb (Z.land b (Z.shiftl 1 shift) =? 0)) [7; 6; 5; 4; 3; 2; 1; 0]
     ++ loop_bits rest).
  destruct (Nat.lt_ge_cases i 8) as [Hlt | Hge].
  - rewrite Nat.div_small, Nat.mod_small, app_nth1 by (simpl; lia).
    by apply raw_bit_byte.
  - rewrite app_nth2 by (simpl; lia).
    change (length (map _ [7; 6; 5; 4; 3; 2; 1; 0])) with 8%nat.
    rewrite <- IH by (done || (simpl in Hi; lia)). unfold raw_bit.
    replace i with ((i - 8) + 1 * 8)%nat at 1 2 by lia.
    rewrite Nat.div_add, Nat.Div0.mod_add by lia.
    by replace ((i - 8) / 8 + 1)%nat with (S ((i - 8) / 8)) by lia.
Qed.

Lemma length_loop_bits pubkey : length (loop_bits pubkey) = (8 * length pubkey)%nat.
Proof.
  induction pubkey as [|b rest IH]; [done |].
  change (length (loop_bits (b :: rest))) with (8 + length (loop_bits rest))%nat.
  rewrite IH. simpl. lia.
Qed.

Lemma foldl_indices pubkey st k n :
  bytes_ok pubkey -> (n = 0 \/ k + n <= 8 * length pubkey)%nat ->
  foldl (fun st i => pack_step st (raw_bit pubkey i)) st (seq k n) =
  foldl (fun st b => pack_step st (Z.b2z b)) st (take n (drop k (loop_bits pubkey))).
Proof.
  intros Hok. revert st k. induction n as [|n IH]; intros st k Hk; [done |].
  destruct (drop k (loop_bits pubkey)) as [|b rest] eqn:Hd.
  - apply (f_equal length) in Hd. rewrite length_drop, length_loop_bits in Hd. simpl in Hd. lia.
  - simpl. rewrite IH by lia. rewrite raw_bit_nth by (done || lia).
    assert (nth k (loop_bits pubkey) false = b) as ->.
    { rewrite <- (take_drop k (loop_bits pubkey)), Hd, app_nth2.
      all: rewrite length_take, length_loop_bits.
      - by replace (k - _)%nat with 0%nat by lia.
      - lia. }
    do 2 f_equal. replace (S k) with (k + 1)%nat by lia. by rewrite <- drop_drop, Hd.
Qed.

(** *** Eight rounds emit one byte *)

Definition pack_bits := foldl (fun st b => pack_step st (Z.b2z b)).

Lemma pack_byte o a b7 b6 b5 b4 b3 b2 b1 b0 :
  pack_bits {| acc := 0; n_bits := 0; out := o; addr := a |} [b7; b6; b5; b4; b3; b2; b1; b0] =
  {| acc := 0; n_bits := 0; out := if (o <? 16)%nat then o + 1 else o;
     addr := if (o <? 16)%nat
             then <[o := byte_of_bits (map negb [b7; b6; b5; b4; b3; b2; b1; b0])]> a else a |}.
Proof.
  destruct (o <? 16)%nat eqn:E;
    destruct b7, b6, b5, b4, b3, b2, b1, b0;
    cbv -[Nat.ltb insert list_insert Nat.add]; rewrite E; reflexivity.
Qed.

Lemma pack_partial st bits :
  st.(n_bits) = 0 -> (length bits < 8)%nat -> (pack_bits st bits).(addr) = st.(addr).
Proof.
  intros H0 Hl. destruct st as [a n o ad]; simpl in *; subst n.
  do 7 (destruct bits as [|? bits]; [done |]). destruct bits; [done | simpl in Hl; lia].
Qed.

(** Packing fills the free cells of the address from the left. *)
Lemma pack_loop : forall n bits o hd,
  (length bits <= n)%nat -> length hd = o -> (o <= 16)%nat ->
  (pack_bits {| acc := 0; n_bits := 0; out := o; addr := hd ++ replicate (16 - o) 0 |} bits).(addr) =
  let packed := take (16 - o) (pack8 (map negb bits)) in
  hd ++ packed ++ replicate (16 - o - length packed) 0.
Proof.
  induction n as [|n IH]; intros bits o hd Hn Hh Ho.
  { destruct bits; [| simpl in Hn; lia]. simpl. rewrite take_nil, Nat.sub_0_r. done. }
  do 8 (destruct bits as [|? bits];
    [rewrite pack_partial by (simpl; lia || done); simpl; rewrite take_nil, Nat.sub_0_r; done |]).
  change (b :: b0 :: b1 :: b2 :: b3 :: b4 :: b5 :: b6 :: bits)
    with ([b; b0; b1; b2; b3; b4; b5; b6] ++ bits).
  unfold pack_bits. rewrite foldl_app. fold pack_bits. rewrite pack_byte.
  set (B := byte_of_bits _).
  change (pack8 (map negb ([b; b0; b1; b2; b3; b4; b5; b6] ++ bits)))
    with (B :: pack8 (map negb bits)).
  destruct (o <? 16)%nat eqn:E; bool_to_prop.
  - replace (16 - o)%nat with (S (16 - (o + 1))) by lia. simpl replicate.
    rewrite <- Hh at 2. rewrite <- (Nat.add_0_r (length hd)), insert_app_r. simpl.
    change (hd ++ B :: replicate (16 - (o + 1)) 0)
      with (hd ++ [B] ++ replicate (16 - (o + 1)) 0).
    rewrite app_assoc, IH; [| simpl in Hn; lia | rewrite length_app; simpl; lia | lia].
    simpl. by rewrite <- app_assoc.
  - assert (o = 16%nat) as -> by lia. rewrite IH by (simpl in Hn; lia || done). done.
Qed.

(** the one-pass packing loop of [ygg_addr_from_pubkey] computes the
    reference address: prefix 0x02, the count of leading zero key bits, then
    the inverted bits after the first set bit packed MSB-first into whole
    bytes and zero-filled to 16 bytes. *)
Lemma ygg_addr_reference (pubkey : bytes) (Hok : bytes_ok pubkey)
  (Hlen : length pubkey = 32%nat) :
  ygg_addr_from_pubkey pubkey = addr_reference pubkey /\
  length (ygg_addr_from_pubkey pubkey) = 16%nat.
Proof.
  assert (ygg_addr_from_pubkey pubkey = addr_reference pubkey) as E.
  { unfold ygg_addr_from_pubkey, addr_reference.
    set (lead := leading_ones (loop_bits pubkey)).
    rewrite foldl_indices by (done || lia).
    rewrite take_ge by (rewrite length_drop, length_loop_bits; lia).
    change (<[1%nat := wrap8 (Z.of_nat lead)]> (<[0%nat := 2]> (replicate 16 0)))
      with ([2; wrap8 (Z.of_nat lead)] ++ replicate (16 - 2) 0).
    rewrite <- app_comm_cons.
    apply (pack_loop (length (drop (lead + 1) (loop_bits pubkey))) _ 2 [2; wrap8 (Z.of_nat lead)]);
      done || lia. }
  split; [done |]. rewrite E. unfold addr_reference. rewrite !length_cons, length_app,
    length_take, length_replicate. lia.
Qed.

End Addr.
