(* ===== verification/Schnorr.v ===== *)
(** * Identities and link signatures

    lichen-link/src/schnorr.rs (the signed transcript of a link frame),
    lichen-link/src/identity.rs and the IID derivation of
    lichen-core/src/addr.rs.  The primitives themselves come from the crates
    schnorr48 and sha2, so they are the parameter [Crypto]; [CryptoLaws]
    states what their documentation promises. *)

From S2P Require Import Prelude SeqNum Frame Addr.

(** Keys and seeds are 32-byte strings, signatures 48-byte strings. *)
Abbreviation PublicKey := (list Z).
Abbreviation PrivateKey := (list Z).
Abbreviation Seed := (list Z).

Class Crypto := {
  sha256 : bytes -> bytes;
  sha512 : bytes -> bytes;
  derive_keypair : Seed -> PrivateKey * PublicKey;
  schnorr_sign : PrivateKey -> PublicKey -> bytes -> bytes;
  schnorr_verify : PublicKey -> bytes -> bytes -> bool
}.

Class CryptoLaws `{Crypto} : Prop := {
  sha256_len m : length (sha256 m) = 32%nat;
  sha256_ok m : bytes_ok (sha256 m);
  sha512_len m : length (sha512 m) = 64%nat;
  sha512_ok m : bytes_ok (sha512 m);
  pubkey_len seed : length (snd (derive_keypair seed)) = 32%nat;
  pubkey_ok seed : bytes_ok (snd (derive_keypair seed));
  sign_len sk pk m : length (schnorr_sign sk pk m) = 48%nat;
  sign_ok sk pk m : bytes_ok (schnorr_sign sk pk m);
  (** A signature made with a derived key pair verifies under its public key. *)
  sign_verify seed m :
    schnorr_verify (snd (derive_keypair seed)) m
      (schnorr_sign (fst (derive_keypair seed)) (snd (derive_keypair seed)) m) = true
}.

Module Schnorr.
Section schnorr.
Context `{Crypto}.

Definition SIGNATURE_LENGTH : nat := 48.

(** The bytes of the source's LICHEN-LINK-v1 literal with its NUL. *)
Definition LINK_SIGNATURE_DOMAIN : bytes :=
  [76; 73; 67; 72; 69; 78; 45; 76; 73; 78; 75; 45; 118; 49; 0].
Definition LLSEC_SI_BIT : Z := Z.shiftl 1 7.

Definition build_signable (len llsec epoch seqnum : Z) (dst_addr signer_eui64 inner_payload : bytes)
  : bytes :=
  let signer_eui64_len := if negb (Z.land llsec LLSEC_SI_BIT =? 0) then 8%nat else 0%nat in
  LINK_SIGNATURE_DOMAIN ++ [len] ++ [llsec] ++ [epoch]
    ++ LinkSeqNum.to_be_bytes seqnum
    ++ [Z.of_nat (length dst_addr)]
    ++ dst_addr
    ++ (if (0 <? signer_eui64_len)%nat then signer_eui64 else [])
    ++ inner_payload.

(** [None]: one of the two assertions fails. *)
Definition sign_frame (len llsec epoch seqnum : Z) (dst_addr signer_eui64 inner_payload : bytes)
  (privkey : PrivateKey) (pubkey : PublicKey) : option bytes :=
  if (255 <? length dst_addr)%nat then None
  else if negb ((Z.land llsec LLSEC_SI_BIT =? 0) || (length signer_eui64 =? 8)%nat) then None
  else Some (schnorr_sign privkey pubkey
               (build_signable len llsec epoch seqnum dst_addr signer_eui64 inner_payload)).

Definition verify_frame (len llsec epoch seqnum : Z) (dst_addr signer_eui64 payload signature : bytes)
  (sender_pubkey : PublicKey) : bool :=
  if negb (length signature =? SIGNATURE_LENGTH)%nat
     || (255 <? length dst_addr)%nat
     || (negb (Z.land llsec LLSEC_SI_BIT =? 0) && negb (length signer_eui64 =? 8)%nat)
  then false
  else schnorr_verify sender_pubkey
         (build_signable len llsec epoch seqnum dst_addr signer_eui64 payload) signature.

Definition verify_profile_message (public_key : PublicKey) (message signature : bytes) : bool :=
  if (length signature =? SIGNATURE_LENGTH)%nat then schnorr_verify public_key message signature
  else false.

(** ** Identities *)

(** [iid_from_pubkey_bytes] (and its re-export [iid_from_pubkey]). *)
Definition iid_from_pubkey (pubkey : PublicKey) : bytes :=
  let iid := take 8 (sha512 pubkey) in
  match iid with
  | b :: rest => Z.land b 253 :: rest
  | [] => []
  end.

(** [x[0] ^= 0x02]: EUI-64 from IID and back. *)
Definition flip_ul (l : bytes) : bytes :=
  match l with b :: rest => Z.lxor b 2 :: rest | [] => [] end.

Record PeerIdentity := { pi_pubkey : PublicKey; pi_iid : bytes }.

Definition from_pubkey (pubkey : PublicKey) : PeerIdentity :=
  {| pi_pubkey := pubkey; pi_iid := iid_from_pubkey pubkey |}.

Record Identity := {
  id_seed : Seed;
  id_privkey : PrivateKey;
  id_pubkey : PublicKey;
  id_iid : bytes;
  id_ygg_addr : bytes
}.

(** [Identity::from_seed]. *)
Definition from_seed (seed : Seed) : Identity :=
  let '(privkey, pubkey) := derive_keypair seed in
  {| id_seed := seed; id_privkey := privkey; id_pubkey := pubkey;
     id_iid := iid_from_pubkey pubkey; id_ygg_addr := Addr.ygg_addr_from_pubkey pubkey |}.

Lemma flip_ul_involutive l : flip_ul (flip_ul l) = l.
Proof.
  destruct l as [|b l]; [done |]. simpl. by rewrite Z.lxor_assoc, Z.lxor_nilpotent, Z.lxor_0_r.
Qed.

Lemma length_flip_ul l : length (flip_ul l) = length l.
Proof. by destruct l. Qed.

Lemma flip_ul_ok l : bytes_ok l -> bytes_ok (flip_ul l).
Proof.
  destruct l as [|b l]; [done |]. intros [Hb Hl]%Forall_cons. constructor; [| done].
  byte_cases (fun b => bool_decide (is_u8 (Z.lxor b 2))) b.
  apply bool_decide_eq_true.
Qed.

Lemma length_iid `{!CryptoLaws} pk : length (iid_from_pubkey pk) = 8%nat.
Proof.
  unfold iid_from_pubkey. pose proof (sha512_len pk) as Hl.
  destruct (sha512 pk) as [|b l]; [done |]. simpl in *. rewrite length_take. lia.
Qed.

Lemma iid_ok `{!CryptoLaws} pk : bytes_ok (iid_from_pubkey pk).
Proof.
  unfold iid_from_pubkey. pose proof (Forall_take is_u8 8 _ (sha512_ok pk)) as Hl.
  destruct (take 8 (sha512 pk)) as [|b l]; [done |].
  apply Forall_cons in Hl as [Hb Hl]. constructor; [| done].
  byte_cases (fun b => bool_decide (is_u8 (Z.land b 253))) b.
  apply bool_decide_eq_true.
Qed.

(** ** What the transcript of a signed frame determines *)

(** The transcript [receive_frame] verifies for a parsed frame. *)
Definition transcript (f : Frame.LichenFrame) : bytes :=
  build_signable (Z.of_nat (length (Frame.body_of f))) (Frame.llsec_byte f) f.(Frame.epoch)
    f.(Frame.seqnum) f.(Frame.dst_addr) f.(Frame.signer_eui64) f.(Frame.payload).

Lemma signed_si_bit f :
  f.(Frame.encryption) = Frame.Plaintext -> f.(Frame.signature) = Frame.Present ->
  negb (Z.land (Frame.llsec_byte f) LLSEC_SI_BIT =? 0) = true.
Proof.
  intros He Hs. pose proof (Frame.llsec_fields f He) as (_ & _ & _ & _ & Hf).
  rewrite Hs in Hf. exact Hf.
Qed.

Lemma transcript_signed f :
  f.(Frame.encryption) = Frame.Plaintext -> f.(Frame.signature) = Frame.Present ->
  transcript f = LINK_SIGNATURE_DOMAIN ++ [Z.of_nat (length (Frame.body_of f)); Frame.llsec_byte f;
    f.(Frame.epoch)] ++ LinkSeqNum.to_be_bytes f.(Frame.seqnum)
    ++ [Z.of_nat (length f.(Frame.dst_addr))] ++ f.(Frame.dst_addr)
    ++ f.(Frame.signer_eui64) ++ f.(Frame.payload).
Proof.
  intros He Hs. unfold transcript, build_signable. by rewrite signed_si_bit.
Qed.

Lemma llsec_byte_inj f g :
  f.(Frame.encryption) = Frame.Plaintext -> g.(Frame.encryption) = Frame.Plaintext ->
  Frame.llsec_byte f = Frame.llsec_byte g ->
  f.(Frame.addr_mode) = g.(Frame.addr_mode) /\ f.(Frame.mic_length) = g.(Frame.mic_length) /\
  f.(Frame.signature) = g.(Frame.signature).
Proof.
  intros Hf Hg Heq. pose proof (Frame.llsec_fields f Hf) as (_ & F1 & F2 & F3 & _).
  pose proof (Frame.llsec_fields g Hg) as (_ & G1 & G2 & G3 & _).
  rewrite Heq in F1, F2, F3. repeat split; [congruence | congruence |].
  rewrite F3 in G3. by destruct (Frame.signature f), (Frame.signature g).
Qed.

(** the signed transcript binds the whole frame: two signed frames with
    the same transcript agree in every field but the signature itself, so a
    valid MIC cannot be moved to a frame with another length, flags, counter,
    destination, signer or payload. *)
Lemma transcript_binds_frame (f g : Frame.LichenFrame)
  (Tf : Frame.typed f) (Tg : Frame.typed g) (Ef : Frame.encodable f) (Eg : Frame.encodable g)
  (Sf : f.(Frame.signature) = Frame.Present) (Sg : g.(Frame.signature) = Frame.Present)
  (Heq : transcript f = transcript g) :
  g = {| Frame.epoch := f.(Frame.epoch); Frame.seqnum := f.(Frame.seqnum);
         Frame.dst_addr := f.(Frame.dst_addr); Frame.signer_eui64 := f.(Frame.signer_eui64);
         Frame.payload := f.(Frame.payload); Frame.mic := g.(Frame.mic);
         Frame.addr_mode := f.(Frame.addr_mode); Frame.mic_length := f.(Frame.mic_length);
         Frame.signature := f.(Frame.signature); Frame.encryption := f.(Frame.encryption) |}.
Proof.
  pose proof (Frame.e_plain _ Ef) as Pf. pose proof (Frame.e_plain _ Eg) as Pg.
  rewrite !transcript_signed in Heq by done. apply app_inv_head in Heq.
  injection Heq as _ Hll Hep Hs1 Hs2 Hdl Hrest.
  destruct (llsec_byte_inj f g Pf Pg Hll) as (Ham & Hml & Hsg).
  assert (LinkSeqNum.to_be_bytes (Frame.seqnum f) = LinkSeqNum.to_be_bytes (Frame.seqnum g)) as Hseq
    by (unfold LinkSeqNum.to_be_bytes; simpl; congruence).
  apply (f_equal LinkSeqNum.from_be_bytes) in Hseq.
  unfold LinkSeqNum.to_be_bytes, LinkSeqNum.from_be_bytes in Hseq.
  rewrite !from_be_to_be_u16 in Hseq by (apply Tf || apply Tg).
  apply app_inj_1 in Hrest as [Hdst Hrest]; [| lia].
  apply app_inj_1 in Hrest as [Hsig Hpay].
  2: { rewrite (Frame.e_signer _ Ef), (Frame.e_signer _ Eg). by rewrite Sf, Sg. }
  destruct f, g; simpl in *. congruence.
Qed.

End schnorr.
End Schnorr.

(** ** A concrete instance of the primitives

    Not a cryptosystem: fixed-length functions that satisfy the laws, so that
    the theorems stated under them can be applied to concrete inputs. *)

Definition toy_digest (m : bytes) : Z :=
  foldl (fun acc b => (acc * 31 + b + 7) mod 4294967296) 1 m.

Definition toy_hash (n : nat) (m : bytes) : bytes := to_be 4 (toy_digest m) ++ to_be n (toy_digest m).

Definition toy_crypto : Crypto := {|
  sha256 := toy_hash 28;
  sha512 := fun m => to_be 8 (toy_digest m * 4294967296 + toy_digest (1 :: m)) ++ replicate 56 0;
  derive_keypair := fun seed => (toy_hash 28 seed, toy_hash 28 (1 :: seed));
  schnorr_sign := fun _ pk m => toy_hash 44 (pk ++ m);
  schnorr_verify := fun pk m s => bool_decide (s = toy_hash 44 (pk ++ m))
|}.

Lemma toy_hash_len n m : length (toy_hash n m) = (4 + n)%nat.
Proof. unfold toy_hash. by rewrite length_app, !length_to_be. Qed.
Lemma toy_hash_ok n m : bytes_ok (toy_hash n m).
Proof. apply Forall_app. split; apply to_be_ok. Qed.

Lemma toy_crypto_laws : @CryptoLaws toy_crypto.
Proof.
  split; intros; try apply toy_hash_len; try apply toy_hash_ok.
  - apply length_app.
  - apply Forall_app. split; [apply (to_be_ok 8) |]. by apply Forall_replicate.
  - by apply bool_decide_true.
Qed.
