(* ===== verification/LinkLayer.v ===== *)
(** * The link layer

    lichen-link/src/link_layer.rs and relay.rs: the peer table with its key
    generations, pins and replay state; frame construction; the receive
    pipeline; hop-by-hop relaying; and the sealed trust records.

    An [Arc<AtomicBool>] is an address of the store [arcs] of the [World]; cloning it
    copies the address, [Arc::ptr_eq] compares addresses, and [store(true)]
    retires it for every holder.  Operations thread a [LinkState] (the world
    and one link); the outer [option] is a Rust panic ([expect] on an
    exhausted counter or a missing entry). *)

From S2P Require Import Prelude SeqNum Frame Replay ReplayProtector Evidence Addr Schnorr.

Module Link.
Import Frame Schnorr.

Definition TRUST_STATE_DOMAIN : bytes :=
  [76; 73; 67; 72; 69; 78; 45; 76; 73; 78; 75; 45; 84; 82; 85; 83; 84; 45; 118; 49; 0].
Definition TRUST_STATE_SIGNATURE_LEN : nat := 48.

Inductive LinkRxError :=
  | LE_Frame (e : FrameError)
  | Unsigned
  | UnknownSender
  | ReplayDetected
  | LE_TooShort (e : TooShort)
  | KeyChange
  | LE_ClockRegression
  | LE_ClockModeMismatch
  | NotForUs.

Inductive LinkPersistentStateError :=
  | Missing | Malformed | Integrity | Rollback | Conflict | LP_BufferTooSmall.

(** [From<ReceiptClockError>]. *)
Definition rx_of_clock (e : Evidence.ReceiptClockError) : LinkRxError :=
  match e with
  | Evidence.ClockRegression | Evidence.DomainExhausted => LE_ClockRegression
  | Evidence.ClockModeMismatch => LE_ClockModeMismatch
  end.

Inductive PeerAuthState := Unknown | Authenticating | Authenticated.
#[export] Instance PeerAuthState_eq_dec : EqDecision PeerAuthState.
Proof. solve_decision. Defined.

Definition auth_can_transition_to (s next : PeerAuthState) : bool :=
  match s, next with
  | Unknown, Unknown | Unknown, Authenticating
  | Authenticating, Authenticating | Authenticating, Authenticated
  | Authenticated, Authenticated | Authenticated, Authenticating => true
  | _, _ => false
  end.

(** The typestate of one peer's authentication; the marker is the index. *)
Record PeerAuthentication (S : PeerAuthState) := { pa_iid : bytes; pa_pubkey : option PublicKey }.
Arguments Build_PeerAuthentication {S} _ _.
Arguments pa_iid {S} _.
Arguments pa_pubkey {S} _.

Definition unknown (iid : bytes) : PeerAuthentication Unknown :=
  {| pa_iid := iid; pa_pubkey := None |}.
Definition begin (a : PeerAuthentication Unknown) (peer : PeerIdentity) : PeerAuthentication Authenticating :=
  {| pa_iid := peer.(pi_iid); pa_pubkey := Some peer.(pi_pubkey) |}.
Definition pa_authenticate (a : PeerAuthentication Authenticating) : PeerAuthentication Authenticated :=
  {| pa_iid := a.(pa_iid); pa_pubkey := a.(pa_pubkey) |}.
Definition unpin (a : PeerAuthentication Authenticated) : PeerAuthentication Authenticating :=
  {| pa_iid := a.(pa_iid); pa_pubkey := a.(pa_pubkey) |}.
Definition pa_state {S} (a : PeerAuthentication S) : PeerAuthState := S.

Record TrackedPeer := {
  tp_identity : PeerIdentity;
  tp_last_access : Z;
  key_generation : nat;
  key_generation_id : Z;
  durable_key_generation : bytes;
  durable_generation_serial : Z;
  required_schc_floor_commitment : option bytes
}.

Record World := {
  arcs : gmap nat bool;
  next_arc : nat;
  process : Evidence.Process
}.

(** [PinnedKey] has the public key as its only field. *)
Record LinkLayer := {
  identity : Identity;
  peers : gmap bytes TrackedPeer;
  replay : Protector.ReplayProtector;
  pinned : gmap bytes PublicKey;
  access_counter : Z;
  max_peers : nat;
  receiving_link_identity : nat;
  receipt_clock : Evidence.ReceiptClock;
  next_durable_generation : Z
}.

Record LinkState := { world : World; link : LinkLayer }.

Record AuthenticatedFrame := {
  af_payload : bytes;
  af_destination : bytes;
  af_destination_mode : AddrMode;
  af_sender : PeerIdentity;
  af_signer_eui64 : bytes;
  af_epoch : Z;
  af_seqnum : Z;
  af_receiving_link_identity : nat;
  af_peer_key_generation : nat;
  af_peer_key_generation_id : Z;
  af_durable_peer_key_generation : bytes;
  af_receipt : Evidence.ReceiptEvidence;
  af_receiving_eui64 : bytes
}.

(** ** Field updates *)

Definition set_peers (l : LinkLayer) p :=
  {| identity := l.(identity); peers := p; replay := l.(replay); pinned := l.(pinned);
     access_counter := l.(access_counter); max_peers := l.(max_peers);
     receiving_link_identity := l.(receiving_link_identity);
     receipt_clock := l.(receipt_clock); next_durable_generation := l.(next_durable_generation) |}.
Definition set_replay (l : LinkLayer) r :=
  {| identity := l.(identity); peers := l.(peers); replay := r; pinned := l.(pinned);
     access_counter := l.(access_counter); max_peers := l.(max_peers);
     receiving_link_identity := l.(receiving_link_identity);
     receipt_clock := l.(receipt_clock); next_durable_generation := l.(next_durable_generation) |}.
Definition set_pinned (l : LinkLayer) p :=
  {| identity := l.(identity); peers := l.(peers); replay := l.(replay); pinned := p;
     access_counter := l.(access_counter); max_peers := l.(max_peers);
     receiving_link_identity := l.(receiving_link_identity);
     receipt_clock := l.(receipt_clock); next_durable_generation := l.(next_durable_generation) |}.
Definition set_access (l : LinkLayer) a :=
  {| identity := l.(identity); peers := l.(peers); replay := l.(replay); pinned := l.(pinned);
     access_counter := a; max_peers := l.(max_peers);
     receiving_link_identity := l.(receiving_link_identity);
     receipt_clock := l.(receipt_clock); next_durable_generation := l.(next_durable_generation) |}.
Definition set_clock (l : LinkLayer) c :=
  {| identity := l.(identity); peers := l.(peers); replay := l.(replay); pinned := l.(pinned);
     access_counter := l.(access_counter); max_peers := l.(max_peers);
     receiving_link_identity := l.(receiving_link_identity);
     receipt_clock := c; next_durable_generation := l.(next_durable_generation) |}.
Definition set_next_durable (l : LinkLayer) n :=
  {| identity := l.(identity); peers := l.(peers); replay := l.(replay); pinned := l.(pinned);
     access_counter := l.(access_counter); max_peers := l.(max_peers);
     receiving_link_identity := l.(receiving_link_identity);
     receipt_clock := l.(receipt_clock); next_durable_generation := n |}.
Definition touch (p : TrackedPeer) (access : Z) : TrackedPeer :=
  {| tp_identity := p.(tp_identity); tp_last_access := access;
     key_generation := p.(key_generation); key_generation_id := p.(key_generation_id);
     durable_key_generation := p.(durable_key_generation);
     durable_generation_serial := p.(durable_generation_serial);
     required_schc_floor_commitment := p.(required_schc_floor_commitment) |}.

(** ** The store of shared flags *)

(** [Arc::new(AtomicBool::new(false))]. *)
Definition arc_new (w : World) : nat * World :=
  (w.(next_arc), {| arcs := <[w.(next_arc) := false]> w.(arcs);
                    next_arc := S w.(next_arc); process := w.(process) |}).

(** [flag.store(true, Release)]. *)
Definition retire (w : World) (a : nat) : World :=
  {| arcs := <[a := true]> w.(arcs); next_arc := w.(next_arc); process := w.(process) |}.

(** [flag.load(Acquire)]. *)
Definition retired (w : World) (a : nat) : bool := default false (w.(arcs) !! a).

(** [PeerKeyGeneration::allocate().expect(..)]. *)
Definition allocate_generation (w : World) : option (Z * World) :=
  match Evidence.allocate w.(process) with
  | (Some g, p) => Some (g, {| arcs := w.(arcs); next_arc := w.(next_arc); process := p |})
  | (None, _) => None
  end.

Section link.
Context `{Crypto} `{HashIter} `{Usize}.

(** ** Construction and lookups *)

Definition new (w : World) (id : Identity) : option LinkState :=
  let '(a, w) := arc_new w in
  match Evidence.clock_new w.(process) with
  | (Err _, _) => None
  | (Ok c, p) =>
      Some {| world := {| arcs := w.(arcs); next_arc := w.(next_arc); process := p |};
              link := {| identity := id; peers := ∅; replay := Protector.new; pinned := ∅;
                         access_counter := 0; max_peers := 64;
                         receiving_link_identity := a; receipt_clock := c;
                         next_durable_generation := 1 |} |}
  end.

Definition pinned_pubkey_for (l : LinkLayer) (iid : bytes) : option PublicKey := l.(pinned) !! iid.

Definition peer_iid_for_routable_addr (l : LinkLayer) (addr : bytes) : option bytes :=
  match find (fun e => bool_decide (Addr.ygg_addr_from_pubkey (snd e).(tp_identity).(pi_pubkey) = addr))
             (hash_iter l.(peers)) with
  | Some (_, peer) => Some peer.(tp_identity).(pi_iid)
  | None =>
      match find (fun e => bool_decide (Addr.ygg_addr_from_pubkey (snd e) = addr))
                 (hash_iter l.(pinned)) with
      | Some (iid, _) => Some iid
      | None => None
      end
  end.

Definition local_eui64 (l : LinkLayer) : bytes := flip_ul l.(identity).(id_iid).

Definition wire_is_for_local (l : LinkLayer) (f : LichenFrame) : bool :=
  match f.(addr_mode) with
  | AM_None => true
  | AM_Short => false
  | AM_Extended => bool_decide (f.(dst_addr) = local_eui64 l)
  | AM_Elided => true
  end.

Definition sign_digest (l : LinkLayer) (digest : bytes) : bytes :=
  schnorr_sign l.(identity).(id_privkey) l.(identity).(id_pubkey) digest.

Definition peer_auth_state (l : LinkLayer) (iid : bytes) : PeerAuthState :=
  match l.(peers) !! iid, l.(pinned) !! iid with
  | Some peer, Some pin =>
      if decide (pin = peer.(tp_identity).(pi_pubkey)) then Authenticated else Authenticating
  | Some _, None => Authenticating
  | None, _ => Unknown
  end.

(** [b"LICHEN-PEER-GENERATION-v1\0"]. *)
Definition PEER_GENERATION_DOMAIN : bytes :=
  [76; 73; 67; 72; 69; 78; 45; 80; 69; 69; 82; 45; 71; 69; 78; 69; 82; 65; 84; 73; 79; 78;
   45; 118; 49; 0].

Definition durable_generation_for (local peer : PublicKey) (serial : Z) : option bytes :=
  Evidence.from_owner_bytes
    (take 16 (sha256 (PEER_GENERATION_DOMAIN ++ local ++ peer ++ to_be 8 serial))).

(** [None] both when the serial is exhausted and when the digest is zero; the
    serial is consumed in the second case only. *)
Definition allocate_durable_generation (l : LinkLayer) (peer : PublicKey)
  : option (bytes * Z) * LinkLayer :=
  let serial := l.(next_durable_generation) in
  match checked_add u64_max serial 1 with
  | None => (None, l)
  | Some next =>
      let l := set_next_durable l next in
      ((fun g => (g, serial)) <$> durable_generation_for l.(identity).(id_pubkey) peer serial, l)
  end.

(** ** Peer table *)

Definition unpin_peer (st : LinkState) (iid : bytes) : option LinkState :=
  let l := set_pinned st.(link) (delete iid st.(link).(pinned)) in
  match l.(peers) !! iid with
  | None => Some {| world := st.(world); link := l |}
  | Some peer =>
      match allocate_durable_generation l peer.(tp_identity).(pi_pubkey) with
      | (None, _) => None
      | (Some (durable, serial), l) =>
          let w := retire st.(world) peer.(key_generation) in
          let '(a, w) := arc_new w in
          '(g, w) ← allocate_generation w;
          let peer :=
            {| tp_identity := peer.(tp_identity); tp_last_access := peer.(tp_last_access);
               key_generation := a; key_generation_id := g;
               durable_key_generation := durable; durable_generation_serial := serial;
               required_schc_floor_commitment := None |} in
          Some {| world := w; link := set_peers l (<[iid := peer]> l.(peers)) |}
      end
  end.

(** One round of the eviction loop; [None] when the table is within capacity. *)
Definition evict_one (st : LinkState) : option (PeerIdentity * LinkState) :=
  let l := st.(link) in
  if (l.(max_peers) <? size l.(peers))%nat then
    match min_by_key (fun e => tp_last_access (snd e)) (hash_iter l.(peers)) with
    | Some (iid, tracked) =>
        let w := retire st.(world) tracked.(key_generation) in
        let l := set_peers l (delete iid l.(peers)) in
        let l := set_replay l (Protector.reset_peer l.(replay) tracked.(tp_identity).(pi_pubkey)) in
        let l := set_pinned l (delete iid l.(pinned)) in
        Some (tracked.(tp_identity), {| world := w; link := l |})
    | None => None
    end
  else None.

Fixpoint evict_loop (fuel : nat) (evicted : option PeerIdentity) (st : LinkState)
  : option PeerIdentity * LinkState :=
  match fuel with
  | O => (evicted, st)
  | S fuel =>
      match evict_one st with
      | Some (p, st) => evict_loop fuel (Some p) st
      | None => (evicted, st)
      end
  end.

(** Every round removes one entry: the size of the table is enough fuel. *)
Definition evict_if_needed (st : LinkState) : option PeerIdentity * LinkState :=
  evict_loop (size st.(link).(peers)) None st.

Definition add_peer (st : LinkState) (peer : PeerIdentity) : option (option PeerIdentity * LinkState) :=
  let peer := from_pubkey peer.(pi_pubkey) in
  let access := saturating_add u64_max st.(link).(access_counter) 1 in
  let l := set_access st.(link) access in
  let refresh :=
    match l.(peers) !! peer.(pi_iid) with
    | Some existing => if decide (existing.(tp_identity).(pi_pubkey) = peer.(pi_pubkey))
                       then Some existing else None
    | None => None
    end in
  match refresh with
  | Some existing =>
      Some (None, {| world := st.(world);
                     link := set_peers l (<[peer.(pi_iid) := touch existing access]> l.(peers)) |})
  | None =>
      match allocate_durable_generation l peer.(pi_pubkey) with
      | (None, _) => None
      | (Some (durable, serial), l) =>
          let '(a, w) := arc_new st.(world) in
          '(g, w) ← allocate_generation w;
          let tracked :=
            {| tp_identity := peer; tp_last_access := access; key_generation := a;
               key_generation_id := g; durable_key_generation := durable;
               durable_generation_serial := serial;
               required_schc_floor_commitment := None |} in
          let replaced := l.(peers) !! peer.(pi_iid) in
          let l := set_peers l (<[peer.(pi_iid) := tracked]> l.(peers)) in
          let '(retired_peer, w, l) :=
            match replaced with
            | Some r => (Some r.(tp_identity), retire w r.(key_generation),
                         set_replay l (Protector.reset_peer l.(replay) r.(tp_identity).(pi_pubkey)))
            | None => (None, w, l)
            end in
          let '(evicted, st) := evict_if_needed {| world := w; link := l |} in
          Some (match evicted with Some e => Some e | None => retired_peer end, st)
      end
  end.

Definition remove_peer (st : LinkState) (iid : bytes) : LinkState :=
  let l := st.(link) in
  match l.(peers) !! iid with
  | Some tracked =>
      let l := set_peers l (delete iid l.(peers)) in
      let l := set_replay l (Protector.reset_peer l.(replay) tracked.(tp_identity).(pi_pubkey)) in
      {| world := retire st.(world) tracked.(key_generation);
         link := set_pinned l (delete iid l.(pinned)) |}
  | None => {| world := st.(world); link := set_pinned l (delete iid l.(pinned)) |}
  end.

Definition forget_peer (st : LinkState) (iid : bytes) : LinkState :=
  let l := st.(link) in
  let '(peer_key, w) :=
    match l.(peers) !! iid with
    | Some peer => (Some peer.(tp_identity).(pi_pubkey), retire st.(world) peer.(key_generation))
    | None => (None, st.(world))
    end in
  let l := set_peers l (delete iid l.(peers)) in
  let pinned_key := l.(pinned) !! iid in
  let l := set_pinned l (delete iid l.(pinned)) in
  let l := match peer_key with
           | Some key => set_replay l (Protector.reset_peer l.(replay) key)
           | None => l
           end in
  let l := match pinned_key with
           | Some key => if decide (Some key = peer_key) then l
                         else set_replay l (Protector.reset_peer l.(replay) key)
           | None => l
           end in
  {| world := w; link := l |}.

(** [Drop]: the link and every configured key generation are retired. *)
Definition drop_link (st : LinkState) : World :=
  foldl (fun w e => retire w (snd e).(key_generation))
    (retire st.(world) st.(link).(receiving_link_identity)) (hash_iter st.(link).(peers)).

(** ** Evidence *)

Definition is_current (w : World) (af : AuthenticatedFrame) : bool :=
  negb (retired w af.(af_receiving_link_identity)) && negb (retired w af.(af_peer_key_generation)).

Definition accepts_authenticated_frame (st : LinkState) (af : AuthenticatedFrame) : bool :=
  (st.(link).(receiving_link_identity) =? af.(af_receiving_link_identity))%nat
  && is_current st.(world) af
  && match st.(link).(peers) !! af.(af_sender).(pi_iid) with
     | Some peer =>
         bool_decide (peer.(tp_identity).(pi_pubkey) = af.(af_sender).(pi_pubkey))
         && (peer.(key_generation) =? af.(af_peer_key_generation))%nat
         && bool_decide (peer.(durable_key_generation) = af.(af_durable_peer_key_generation))
     | None => false
     end
  && match st.(link).(pinned) !! af.(af_sender).(pi_iid) with
     | Some pin => bool_decide (pin = af.(af_sender).(pi_pubkey))
     | None => false
     end.

Definition is_unicast_for (af : AuthenticatedFrame) (l : LinkLayer) : bool :=
  bool_decide (af.(af_destination_mode) = AM_Extended)
  && bool_decide (af.(af_destination) = local_eui64 l).

(** ** Transmit path *)

Definition required_frame_buffer_len (dst_addr_len inner_payload_len : nat) : result FrameError nat :=
  match from_addr_len dst_addr_len with
  | None => Err AddrLenMismatch
  | Some _ =>
      match (n ← checked_add usize_max 4 (Z.of_nat dst_addr_len);
             n ← checked_add usize_max n 8;
             n ← checked_add usize_max n (Z.of_nat inner_payload_len);
             checked_add usize_max n (Z.of_nat SIGNATURE_LENGTH)) with
      | None => Err FrameTooLarge
      | Some body_len =>
          if Z.of_nat MAX_FRAME_BODY <? body_len then Err FrameTooLarge
          else match checked_add usize_max body_len 1 with
               | Some n => Ok (Z.to_nat n)
               | None => Err FrameTooLarge
               end
      end
  end.

(** The frame [build_frame_with_addr_mode] hands to [write_to]; the outer
    [None] is an assertion failure inside [sign_frame]. *)
Definition signed_frame (l : LinkLayer) (epoch seqnum : Z) (dst inner_payload : bytes)
  (am : AddrMode) (required_len : nat) : option LichenFrame :=
  let llsec := Z.lor (Z.lor (addr_mode_u8 am) (Z.shiftl 1 5)) LLSEC_SI_BIT in
  let signer := local_eui64 l in
  let frame_length := (required_len - 1)%nat in
  sig ← sign_frame (wrap8 (Z.of_nat frame_length)) llsec epoch seqnum dst signer inner_payload
          l.(identity).(id_privkey) l.(identity).(id_pubkey);
  Some {| Frame.epoch := epoch; Frame.seqnum := seqnum; dst_addr := dst;
          signer_eui64 := signer; payload := inner_payload; mic := sig; addr_mode := am;
          mic_length := Bits32; signature := Present; encryption := Plaintext |}.

Definition build_frame_with_addr_mode (l : LinkLayer) (epoch seqnum : Z) (dst inner_payload : bytes)
  (am : AddrMode) (out : bytes) : option (result FrameError nat * bytes) :=
  if negb (addr_len am =? length dst)%nat then Some (Err AddrLenMismatch, out)
  else
    match required_frame_buffer_len (length dst) (length inner_payload) with
    | Err e => Some (Err e, out)
    | Ok required_len =>
        f ← signed_frame l epoch seqnum dst inner_payload am required_len;
        Some (write_to f out)
    end.

Definition build_frame (l : LinkLayer) (epoch seqnum : Z) (dst inner_payload out : bytes)
  : option (result FrameError nat * bytes) :=
  match from_addr_len (length dst) with
  | None => Some (Err AddrLenMismatch, out)
  | Some am => build_frame_with_addr_mode l epoch seqnum dst inner_payload am out
  end.

(** ** Receive path *)

Definition rx_frame_length (dst_addr_len signer_eui64_len payload_len : nat) : result FrameError Z :=
  match (n ← checked_add usize_max 4 (Z.of_nat dst_addr_len);
         n ← checked_add usize_max n (Z.of_nat signer_eui64_len);
         n ← checked_add usize_max n (Z.of_nat payload_len);
         checked_add usize_max n (Z.of_nat SIGNATURE_LENGTH)) with
  | Some n => if n <=? Z.of_nat MAX_FRAME_BODY then Ok (wrap8 n) else Err FrameTooLarge
  | None => Err FrameTooLarge
  end.

(** The stateless checks of [receive_frame_with_receipt], up to and including
    destination admission: the parsed frame and the peer that signed it. *)
Definition authenticate (l : LinkLayer) (wire : bytes)
  : result LinkRxError (LichenFrame * PeerIdentity) :=
  match Frame.from_bytes wire with
  | Err e => Err (LE_Frame e)
  | Ok f =>
    if negb (is_present f.(signature)) then Err Unsigned
    else if negb (length f.(mic) =? SIGNATURE_LENGTH)%nat then
      Err (LE_TooShort {| expected := SIGNATURE_LENGTH; actual := length f.(mic) |})
    else
    match rx_frame_length (length f.(dst_addr)) (length f.(signer_eui64)) (length f.(payload)) with
    | Err e => Err (LE_Frame e)
    | Ok frame_length =>
      if negb (length f.(signer_eui64) =? 8)%nat then Err (LE_Frame SignatureSignerMismatch)
      else
      match l.(peers) !! flip_ul f.(signer_eui64) with
      | None => Err UnknownSender
      | Some tracked =>
        let sender := tracked.(tp_identity) in
        let canonical_eui64 := flip_ul sender.(pi_iid) in
        if negb (bool_decide (f.(signer_eui64) = canonical_eui64))
           || negb (verify_frame frame_length (llsec_byte f) f.(Frame.epoch) f.(Frame.seqnum)
                      f.(dst_addr) f.(signer_eui64) f.(payload) f.(mic) sender.(pi_pubkey))
        then Err UnknownSender
        else if negb (wire_is_for_local l f) then Err NotForUs
        else Ok (f, sender)
      end
    end
  end.

Definition receive_frame_with_receipt (st : LinkState) (wire : bytes)
  (receipt : Evidence.ReceiptEvidence)
  : option (result LinkRxError AuthenticatedFrame * LinkState) :=
  match authenticate st.(link) wire with
  | Err e => Some (Err e, st)
  | Ok (f, sender) =>
    let l := st.(link) in
    let old_state := peer_auth_state l sender.(pi_iid) in
    let key_changed :=
      match l.(pinned) !! sender.(pi_iid) with
      | Some pin => negb (bool_decide (pin = sender.(pi_pubkey)))
      | None => false
      end in
    if key_changed then Some (Err KeyChange, st)
    else
    '(fresh, rp) ← Protector.check_and_update l.(replay) sender.(pi_pubkey)
                     f.(Frame.epoch) f.(Frame.seqnum);
    let l := set_replay l rp in
    if negb (fresh : bool) then Some (Err ReplayDetected, {| world := st.(world); link := l |})
    else
    let access := saturating_add u64_max l.(access_counter) 1 in
    let l := set_access l access in
    let l := set_peers l (alter (fun t => touch t access) sender.(pi_iid) l.(peers)) in
    let l := set_pinned l (<[sender.(pi_iid) := sender.(pi_pubkey)]> l.(pinned)) in
    let st := {| world := st.(world); link := l |} in
    let new_state := peer_auth_state l sender.(pi_iid) in
    if negb (auth_can_transition_to old_state new_state) then Some (Err KeyChange, st)
    else
    tracked ← l.(peers) !! sender.(pi_iid);
    Some (Ok {| af_payload := f.(payload);
                af_destination := f.(dst_addr);
                af_destination_mode := f.(addr_mode);
                af_sender := sender;
                af_signer_eui64 := f.(signer_eui64);
                af_epoch := f.(Frame.epoch);
                af_seqnum := f.(Frame.seqnum);
                af_receiving_link_identity := l.(receiving_link_identity);
                af_peer_key_generation := tracked.(key_generation);
                af_peer_key_generation_id := tracked.(key_generation_id);
                af_durable_peer_key_generation := tracked.(durable_key_generation);
                af_receipt := receipt;
                af_receiving_eui64 := local_eui64 l |}, st)
  end.

Definition receive_with (capture : Evidence.ReceiptClock ->
    result Evidence.ReceiptClockError Evidence.ReceiptEvidence * Evidence.ReceiptClock)
  (st : LinkState) (wire : bytes) : option (result LinkRxError AuthenticatedFrame * LinkState) :=
  let '(r, c) := capture st.(link).(receipt_clock) in
  let st := {| world := st.(world); link := set_clock st.(link) c |} in
  match r with
  | Err e => Some (Err (rx_of_clock e), st)
  | Ok receipt => receive_frame_with_receipt st wire receipt
  end.

Definition receive_frame (st : LinkState) (wire : bytes) :=
  receive_with Evidence.next_logical st wire.
Definition receive_frame_at (st : LinkState) (wire : bytes) (monotonic_millis : Z) :=
  receive_with (fun c => Evidence.observe_millis c monotonic_millis) st wire.

(** ** Relaying (relay.rs) *)

Inductive RelayError := Inbound (e : LinkRxError) | Outbound (e : FrameError).

Record RelayOutcome := { ro_len : nat; ro_upstream : PeerIdentity }.

Definition relay_verified_frame (st : LinkState) (inbound_wire next_dst : bytes)
  (next_addr_mode : AddrMode) (payload_override : option bytes) (epoch seqnum : Z) (out : bytes)
  : option (result RelayError RelayOutcome * bytes * LinkState) :=
  '(r, st) ← receive_frame st inbound_wire;
  match r with
  | Err e => Some (Err (Inbound e), out, st)
  | Ok verified =>
      let upstream := verified.(af_sender) in
      let outbound_payload :=
        match payload_override with
        | Some mutated => mutated
        | None => verified.(af_payload)
        end in
      '(w, out) ← build_frame_with_addr_mode st.(link) epoch seqnum next_dst outbound_payload
                    next_addr_mode out;
      match w with
      | Err e => Some (Err (Outbound e), out, st)
      | Ok len => Some (Ok {| ro_len := len; ro_upstream := upstream |}, out, st)
      end
  end.

(** ** Sealed trust records *)

Definition trust_body (l : LinkLayer) (revision : Z) (peer : TrackedPeer) (last_epoch : Z)
  (parts : Z * Z) (schc_floor_record : option bytes) : bytes :=
  TRUST_STATE_DOMAIN ++ [1] ++ to_be 8 revision ++ l.(identity).(id_pubkey)
    ++ peer.(tp_identity).(pi_pubkey) ++ peer.(durable_key_generation)
    ++ to_be 8 peer.(durable_generation_serial) ++ to_be 8 l.(next_durable_generation)
    ++ match schc_floor_record with
       | Some record => 1 :: sha256 record
       | None => 0 :: replicate 32 0
       end
    ++ [last_epoch] ++ to_be 2 (fst parts) ++ to_be 4 (snd parts).

Definition persist_peer_trust_state (l : LinkLayer) (iid : bytes) (revision : Z)
  (schc_floor_record : option bytes) (out : bytes)
  : result LinkPersistentStateError nat * bytes :=
  if revision =? 0 then (Err Malformed, out)
  else
  match l.(peers) !! iid with
  | None => (Err Missing, out)
  | Some peer =>
    let pin_ok := match l.(pinned) !! iid with
                  | Some pin => bool_decide (pin = peer.(tp_identity).(pi_pubkey))
                  | None => false
                  end in
    if negb pin_ok then (Err Missing, out)
    else
    match Protector.peers l.(replay) !! peer.(tp_identity).(pi_pubkey) with
    | None => (Err Missing, out)
    | Some rst =>
      match Replay.persistent_parts rst.(Protector.window) with
      | None => (Err Missing, out)
      | Some parts =>
        let body := trust_body l revision peer rst.(Protector.last_epoch) parts schc_floor_record in
        let needed := (length body + TRUST_STATE_SIGNATURE_LEN)%nat in
        if (length out <? needed)%nat then (Err LP_BufferTooSmall, out)
        else
        let sig := sign_digest l body in
        let out := list_inserts 0 body out in
        let out := list_inserts (length body) sig out in
        (Ok needed, out)
      end
    end
  end.

Definition TAIL_LEN : nat := 1 + 8 + 32 + 32 + 16 + 8 + 8 + 1 + 32 + 1 + 2 + 4.

Record TrustRecord := {
  tr_revision : Z;
  tr_peer_key : PublicKey;
  tr_durable : bytes;
  tr_serial : Z;
  tr_next_serial : Z;
  tr_commitment : option bytes;
  tr_last_epoch : Z;
  tr_window : Replay.ReplayWindow
}.

(** The validation half of [restore_peer_trust_state], in the order of its
    checks; nothing is mutated before it completes. *)
Definition parse_trust_record (l : LinkLayer) (record : bytes) (minimum_revision : Z)
  : result LinkPersistentStateError TrustRecord :=
  let body_len := (length TRUST_STATE_DOMAIN + TAIL_LEN)%nat in
  if negb (length record =? body_len + TRUST_STATE_SIGNATURE_LEN)%nat then Err Malformed
  else
  let body := take body_len record in
  let sig := drop body_len record in
  if negb (verify_profile_message l.(identity).(id_pubkey) body sig) then Err Integrity
  else
  let cursor := length TRUST_STATE_DOMAIN in
  if negb (nth cursor body 0 =? 1) then Err Malformed
  else
  let cursor := (cursor + 1)%nat in
  let revision := from_be (slice cursor (cursor + 8) body) in
  let cursor := (cursor + 8)%nat in
  if (revision =? 0) || (revision <? minimum_revision) then Err Rollback
  else if negb (bool_decide (slice cursor (cursor + 32) body = l.(identity).(id_pubkey)))
  then Err Integrity
  else
  let cursor := (cursor + 32)%nat in
  let peer_key := slice cursor (cursor + 32) body in
  let cursor := (cursor + 32)%nat in
  let durable_bytes := slice cursor (cursor + 16) body in
  let cursor := (cursor + 16)%nat in
  match Evidence.from_owner_bytes durable_bytes with
  | None => Err Malformed
  | Some durable =>
    let serial := from_be (slice cursor (cursor + 8) body) in
    let cursor := (cursor + 8)%nat in
    let next_serial := from_be (slice cursor (cursor + 8) body) in
    let cursor := (cursor + 8)%nat in
    if (serial =? 0) || (next_serial <=? serial)
       || negb (bool_decide (durable_generation_for l.(identity).(id_pubkey) peer_key serial
                             = Some durable))
    then Err Integrity
    else
    let commitment :=
      let flag := nth cursor body 0 in
      let field := slice (cursor + 1) (cursor + 33) body in
      if (flag =? 0) && bool_decide (field = replicate 32 0) then Ok None
      else if flag =? 1 then Ok (Some field)
      else Err Malformed in
    match commitment with
    | Err e => Err e
    | Ok commitment =>
      let cursor := (cursor + 33)%nat in
      let last_epoch := nth cursor body 0 in
      let cursor := (cursor + 1)%nat in
      let last_seq := from_be (slice cursor (cursor + 2) body) in
      let cursor := (cursor + 2)%nat in
      let window := from_be (slice cursor (cursor + 4) body) in
      match Replay.from_persistent_parts last_seq window with
      | None => Err Malformed
      | Some replay_window =>
          Ok {| tr_revision := revision; tr_peer_key := peer_key; tr_durable := durable;
                tr_serial := serial; tr_next_serial := next_serial;
                tr_commitment := commitment; tr_last_epoch := last_epoch;
                tr_window := replay_window |}
      end
    end
  end.

Definition restore_peer_trust_state (st : LinkState) (record : bytes) (minimum_revision : Z)
  : result LinkPersistentStateError Z * LinkState :=
  let l := st.(link) in
  match parse_trust_record l record minimum_revision with
  | Err e => (Err e, st)
  | Ok tr =>
    let peer := from_pubkey tr.(tr_peer_key) in
    if (l.(max_peers) <=? size l.(peers))%nat
       || (Protector.max_peers l.(replay) <=? size (Protector.peers l.(replay)))%nat
       || bool_decide (is_Some (l.(peers) !! peer.(pi_iid)))
       || bool_decide (is_Some (l.(pinned) !! peer.(pi_iid)))
    then (Err Conflict, st)
    else
    match allocate_generation st.(world) with
    | None => (Err Conflict, st)
    | Some (runtime_generation, w) =>
      let l := set_access l (saturating_add u64_max l.(access_counter) 1) in
      let racc := saturating_add u64_max (Protector.access_counter l.(replay)) 1 in
      let l := set_replay l
        {| Protector.peers := <[peer.(pi_pubkey) :=
             {| Protector.last_epoch := tr.(tr_last_epoch); Protector.window := tr.(tr_window);
                Protector.last_access := racc |}]> (Protector.peers l.(replay));
           Protector.access_counter := racc;
           Protector.max_peers := Protector.max_peers l.(replay) |} in
      let l := set_pinned l (<[peer.(pi_iid) := peer.(pi_pubkey)]> l.(pinned)) in
      let '(a, w) := arc_new w in
      let l := set_peers l (<[peer.(pi_iid) :=
        {| tp_identity := peer; tp_last_access := l.(access_counter);
           key_generation := a; key_generation_id := runtime_generation;
           durable_key_generation := tr.(tr_durable);
           durable_generation_serial := tr.(tr_serial);
           required_schc_floor_commitment := tr.(tr_commitment) |}]> l.(peers)) in
      let l := set_next_durable l (Z.max l.(next_durable_generation) tr.(tr_next_serial)) in
      (Ok tr.(tr_revision), {| world := w; link := l |})
    end
  end.

Definition requires_schc_floor_record (l : LinkLayer) (signer : PublicKey) (durable : bytes) : bool :=
  match l.(peers) !! iid_from_pubkey signer with
  | Some peer =>
      bool_decide (peer.(tp_identity).(pi_pubkey) = signer)
      && bool_decide (peer.(durable_key_generation) = durable)
      && bool_decide (is_Some peer.(required_schc_floor_commitment))
  | None => false
  end.

Definition matches_required_schc_floor_record (l : LinkLayer) (signer : PublicKey)
  (durable record : bytes) : bool :=
  let digest := sha256 record in
  match l.(peers) !! iid_from_pubkey signer with
  | Some peer =>
      bool_decide (peer.(tp_identity).(pi_pubkey) = signer)
      && bool_decide (peer.(durable_key_generation) = durable)
      && bool_decide (peer.(required_schc_floor_commitment) = Some digest)
  | None => false
  end.

Definition consume_schc_floor_record (l : LinkLayer) (signer : PublicKey)
  (durable record : bytes) : bool :=
  match l.(peers) !! iid_from_pubkey signer with
  | None => false
  | Some peer =>
      if negb (bool_decide (peer.(tp_identity).(pi_pubkey) = signer))
         || negb (bool_decide (peer.(durable_key_generation) = durable))
      then false
      else bool_decide (peer.(required_schc_floor_commitment) = Some (sha256 record))
  end.

(** ** The link as a transition system *)

(** One call of a state-changing method of a live link. *)
Inductive link_step (st : LinkState) : LinkState -> Prop :=
  | step_add p r st' : add_peer st p = Some (r, st') -> link_step st st'
  | step_remove iid : link_step st (remove_peer st iid)
  | step_forget iid : link_step st (forget_peer st iid)
  | step_unpin iid st' : unpin_peer st iid = Some st' -> link_step st st'
  | step_receive wire r st' : receive_frame st wire = Some (r, st') -> link_step st st'
  | step_receive_at wire ms r st' : receive_frame_at st wire ms = Some (r, st') -> link_step st st'
  | step_relay wire dst am po e s out r out' st' :
      relay_verified_frame st wire dst am po e s out = Some (r, out', st') -> link_step st st'
  | step_restore record rev r st' :
      bytes_ok record ->
      restore_peer_trust_state st record rev = (r, st') -> link_step st st'.

End link.
End Link.
