(* ===== verification/LinkInv.v ===== *)
(** * The invariant of the link layer

    What holds of a link after any sequence of its methods: the peer table is
    within capacity and keyed by key-derived IIDs; every configured peer has a
    live key generation of its own; pins and replay entries only exist for
    configured peers; every replay entry stands for the set of (epoch,
    sequence number) pairs it has accepted.  [evolves] summarises what one
    method may change, so that the theorems on evidence and replay are proved
    once, from the summary. *)

From S2P Require Import Prelude SeqNum Frame Replay ReplayProtector Evidence Addr Schnorr LinkLayer.

Module LinkInv.
Import Schnorr Link.

Abbreviation pubkey_of t := ((tp_identity t).(pi_pubkey)).
Abbreviation replay_of st := (Protector.peers st.(link).(replay)).

Section inv.
Context `{Crypto} `{HashIter} `{Usize}.

(** One configured peer under the key [iid]. *)
Record peer_ok (st : LinkState) (iid : bytes) (t : TrackedPeer) : Prop := {
  po_id : t.(tp_identity) = from_pubkey (pubkey_of t);
  po_iid : iid = iid_from_pubkey (pubkey_of t);
  po_arc : (t.(key_generation) < st.(world).(next_arc))%nat;
  po_live : st.(world).(arcs) !! t.(key_generation) = Some false;
  po_link : t.(key_generation) <> st.(link).(receiving_link_identity)
}.

(** Everything but the capacity bound, which the eviction loop restores. *)
Record core (st : LinkState) : Prop := {
  inv_max : Protector.max_peers st.(link).(replay) = st.(link).(max_peers);
  inv_peer iid t : st.(link).(peers) !! iid = Some t -> peer_ok st iid t;
  inv_gen i j t u : st.(link).(peers) !! i = Some t -> st.(link).(peers) !! j = Some u ->
    t.(key_generation) = u.(key_generation) -> i = j;
  inv_pin iid k : st.(link).(pinned) !! iid = Some k ->
    iid_from_pubkey k = iid /\ is_Some (st.(link).(peers) !! iid);
  inv_tracked pk rs : replay_of st !! pk = Some rs ->
    exists t, st.(link).(peers) !! iid_from_pubkey pk = Some t /\ pubkey_of t = pk;
  inv_hist pk rs : replay_of st !! pk = Some rs -> exists hist, Protector.peer_repr rs hist;
  inv_link_arc : (st.(link).(receiving_link_identity) < st.(world).(next_arc))%nat;
  inv_link_live : st.(world).(arcs) !! st.(link).(receiving_link_identity) = Some false
}.

Record inv (st : LinkState) : Prop := {
  inv_core : core st;
  inv_cap : (size st.(link).(peers) <= st.(link).(max_peers))%nat
}.

(** The same configured peer, up to its last use. *)
Definition same_generation (t u : TrackedPeer) : Prop := touch t u.(tp_last_access) = u.

(** The replay entry of [pk] is kept and remembers at least what it did. *)
Definition remembers (st st' : LinkState) (pk : PublicKey) : Prop :=
  forall rs hist, replay_of st !! pk = Some rs -> Protector.peer_repr rs hist ->
  exists rs' hist', replay_of st' !! pk = Some rs' /\ Protector.peer_repr rs' hist' /\ hist ⊆ hist'.

Record evolves (st st' : LinkState) : Prop := {
  ev_link : st'.(link).(receiving_link_identity) = st.(link).(receiving_link_identity);
  ev_identity : st'.(link).(identity) = st.(link).(identity);
  ev_max : st'.(link).(max_peers) = st.(link).(max_peers);
  ev_arc : (st.(world).(next_arc) <= st'.(world).(next_arc))%nat;
  ev_retired a : st.(world).(arcs) !! a = Some true -> (a < st.(world).(next_arc))%nat ->
    st'.(world).(arcs) !! a = Some true;
  ev_peer iid t' : st'.(link).(peers) !! iid = Some t' ->
    (st.(world).(next_arc) <= t'.(key_generation))%nat \/
    exists t, st.(link).(peers) !! iid = Some t /\ same_generation t t' /\
      (forall k, st.(link).(pinned) !! iid = Some k -> st'.(link).(pinned) !! iid = Some k) /\
      remembers st st' (pubkey_of t)
}.

Lemma same_generation_refl t : same_generation t t.
Proof. by destruct t. Qed.
Lemma same_generation_trans t u v :
  same_generation t u -> same_generation u v -> same_generation t v.
Proof. unfold same_generation. intros <- <-. done. Qed.
Lemma same_generation_touch t a : same_generation t (touch t a).
Proof. done. Qed.
Lemma same_generation_fields t u : same_generation t u ->
  tp_identity u = tp_identity t /\ key_generation u = key_generation t /\
  durable_key_generation u = durable_key_generation t.
Proof. by intros <-. Qed.

Lemma remembers_refl st pk : remembers st st pk.
Proof. intros rs hist ? ?. by exists rs, hist. Qed.
Lemma remembers_trans st1 st2 st3 pk :
  remembers st1 st2 pk -> remembers st2 st3 pk -> remembers st1 st3 pk.
Proof.
  intros H12 H23 rs hist Hl Hr. destruct (H12 rs hist Hl Hr) as (rs2 & h2 & Hl2 & Hr2 & Hs2).
  destruct (H23 rs2 h2 Hl2 Hr2) as (rs3 & h3 & Hl3 & Hr3 & Hs3). exists rs3, h3. set_solver.
Qed.
Lemma remembers_eq st st' pk : replay_of st' !! pk = replay_of st !! pk -> remembers st st' pk.
Proof. intros E rs hist ? ?. exists rs, hist. by rewrite E. Qed.
#[local] Hint Resolve same_generation_refl same_generation_touch remembers_refl remembers_eq : lichen.

Lemma evolves_refl st : evolves st st.
Proof. split; try done. intros iid t Ht. right. exists t. eauto with lichen. Qed.

Lemma evolves_trans st1 st2 st3 : evolves st1 st2 -> evolves st2 st3 -> evolves st1 st3.
Proof.
  intros E12 E23. destruct E12 as [l12 i12 m12 a12 r12 p12], E23 as [l23 i23 m23 a23 r23 p23].
  split; [congruence | congruence | congruence | lia | |].
  - intros a Ha Hlt. apply r23; [by apply r12 | lia].
  - intros iid t3 Ht3. destruct (p23 _ _ Ht3) as [Hf | (t2 & Ht2 & S23 & P23 & R23)]; [left; lia |].
    pose proof (same_generation_fields _ _ S23) as (Hid & Hg & _).
    destruct (p12 _ _ Ht2) as [Hf | (t1 & Ht1 & S12 & P12 & R12)]; [left; lia |]. right.
    exists t1. split; [done |]. split; [by eapply same_generation_trans |].
    pose proof (same_generation_fields _ _ S12) as (Hid' & _). rewrite Hid' in R23.
    split; [auto | by eapply remembers_trans].
Qed.

Lemma peer_pubkey st iid t : core st -> st.(link).(peers) !! iid = Some t ->
  iid_from_pubkey (pubkey_of t) = iid.
Proof. intros C Ht. symmetry. apply (po_iid _ _ _ (inv_peer _ C _ _ Ht)). Qed.

(** At most one key per configured peer. *)
Lemma tracked_size (st : LinkState) (X : gset PublicKey) :
  (forall pk, pk ∈ X -> exists iid t, st.(link).(peers) !! iid = Some t /\ pubkey_of t = pk) ->
  (size X <= size st.(link).(peers))%nat.
Proof.
  intros Htr. rewrite <- (length_map_to_list (peers (link st))).
  rewrite <- (length_fmap (fun e => pubkey_of (snd e))).
  etrans; [| apply size_list_to_set_le]. apply subseteq_size. intros pk Hpk.
  destruct (Htr _ Hpk) as (iid & t & Ht & <-).
  apply elem_of_list_to_set, list_elem_of_fmap. exists (iid, t). split; [done |].
  by apply elem_of_map_to_list.
Qed.

Lemma retire_arcs w a b : (retire w a).(arcs) !! b = if decide (a = b) then Some true else w.(arcs) !! b.
Proof. unfold retire; simpl. case_decide; simplify_map_eq; done. Qed.

Lemma retire_monotone w a b : w.(arcs) !! b = Some true -> (retire w a).(arcs) !! b = Some true.
Proof. rewrite retire_arcs. by case_decide. Qed.

(** ** Removing a peer *)

Lemma reset_peer_eq rp pk : Protector.peers (Protector.reset_peer rp pk) = delete pk (Protector.peers rp).
Proof. done. Qed.

Lemma remove_peer_core st iid : core st -> core (remove_peer st iid).
Proof.
  intros C. pose proof C as [Hm Hp Hg Hpin Ht Hh Ha Hl]. unfold remove_peer.
  destruct (peers (link st) !! iid) as [t|] eqn:E.
  - pose proof (Hp _ _ E) as Hok. split; simpl; try done.
    + intros i u [Hne Hu]%lookup_delete_Some. destruct (Hp _ _ Hu). split; try done.
      change (arcs (retire (world st) (key_generation t)) !! key_generation u = Some false).
      rewrite retire_arcs, decide_False; [done |]. intros Heq. apply Hne. by eapply Hg.
    + intros i j t1 t2 [_ Hi]%lookup_delete_Some [_ Hj]%lookup_delete_Some. by eapply Hg.
    + intros i k [Hne Hk]%lookup_delete_Some. destruct (Hpin _ _ Hk) as [? ?].
      by rewrite lookup_delete_ne.
    + intros pk rs [Hne Hr]%lookup_delete_Some. destruct (Ht _ _ Hr) as (u & Hu & Hpk).
      exists u. split; [| done]. apply lookup_delete_Some. split; [| done].
      intros ->. rewrite E in Hu. by simplify_eq.
    + intros pk rs [_ Hr]%lookup_delete_Some. by eapply Hh.
    + pose proof (po_link _ _ _ Hok). by rewrite lookup_insert_ne.
  - split; simpl; try done.
    + intros i u Hu. by destruct (Hp _ _ Hu).
    + intros i k [Hne Hk]%lookup_delete_Some. by apply Hpin.
Qed.

Lemma remove_peer_evolves st iid : core st -> evolves st (remove_peer st iid).
Proof.
  intros C. unfold remove_peer. destruct (peers (link st) !! iid) as [t|] eqn:E.
  - split; simpl; try done.
    + intros a Ht _. by apply (retire_monotone (world st)).
    + intros i u [Hne Hu]%lookup_delete_Some. right. exists u. split; [done |].
      split; [auto with lichen |]. split; [intros k; by rewrite lookup_delete_ne |].
      apply remembers_eq. simpl. apply lookup_delete_ne.
      intros Heq. apply Hne. rewrite <- (peer_pubkey _ _ _ C E), <- (peer_pubkey _ _ _ C Hu). by f_equal.
  - split; simpl; try done. intros i u Hu. right. exists u. split; [done |].
    split; [auto with lichen |]. split; [| by apply remembers_eq].
    intros k Hk. rewrite lookup_delete_ne; [done |]. intros ->. by rewrite E in Hu.
Qed.

Lemma remove_peer_cap st iid : inv st -> inv (remove_peer st iid).
Proof.
  intros [C Hc]. split; [by apply remove_peer_core |]. unfold remove_peer.
  destruct (peers (link st) !! iid); simpl; [| done].
  etrans; [apply map_subseteq_size, delete_subseteq | done].
Qed.

(** Under the invariant [forget_peer] is [remove_peer]: a pin that differs
    from the configured key never has a replay entry. *)
Lemma forget_is_remove st iid : core st -> forget_peer st iid = remove_peer st iid.
Proof.
  intros C. unfold forget_peer, remove_peer. destruct (peers (link st) !! iid) as [t|] eqn:E; simpl.
  - destruct (pinned (link st) !! iid) as [k|] eqn:Hk; [| done]. case_decide as Hd; [done |].
    f_equal. destruct (inv_pin _ C _ _ Hk) as [Hki _].
    assert (Protector.peers (replay (link st)) !! k = None) as Hn.
    { destruct (_ !! k) as [rs|] eqn:Hrs; [| done].
      destruct (inv_tracked _ C _ _ Hrs) as (u & Hu & Hpk). rewrite Hki, E in Hu. simplify_eq. }
    unfold set_replay, set_pinned, set_peers, Protector.reset_peer, Protector.with_peers; simpl.
    do 2 f_equal. rewrite delete_id; [done |]. by rewrite lookup_delete_None; right.
  - destruct (pinned (link st) !! iid) as [k|] eqn:Hk.
    { destruct (inv_pin _ C _ _ Hk) as [_ [u Hu]]. by rewrite E in Hu. }
    by unfold set_peers; simpl; rewrite delete_id.
Qed.

(** ** Eviction *)

Lemma evict_one_remove st p st' :
  evict_one st = Some (p, st') -> exists iid, st' = remove_peer st iid /\
    (size st'.(link).(peers) < size st.(link).(peers))%nat.
Proof.
  unfold evict_one. destruct (_ <? _)%nat eqn:E; [| done]. bool_to_prop.
  destruct (min_by_key_hash (peers (link st)) (fun e => tp_last_access (snd e)) ltac:(lia))
    as (iid & t & -> & Ht & _).
  intros [= <- <-]. exists iid. unfold remove_peer. rewrite Ht. split; [done |]. simpl.
  rewrite map_size_delete_Some by eauto. lia.
Qed.

Lemma evict_one_none st : evict_one st = None -> (size st.(link).(peers) <= st.(link).(max_peers))%nat.
Proof.
  unfold evict_one. destruct (_ <? _)%nat eqn:E; bool_to_prop; [| done].
  destruct (min_by_key_hash (peers (link st)) (fun e => tp_last_access (snd e)) ltac:(lia))
    as (iid & t & -> & _). done.
Qed.

Lemma evict_loop_ok fuel : forall ev st, core st -> (size st.(link).(peers) <= fuel)%nat ->
  let st' := snd (evict_loop fuel ev st) in inv st' /\ evolves st st'.
Proof.
  induction fuel as [|fuel IH]; intros ev st C Hf; simpl.
  - split; [split; [done | lia] | apply evolves_refl].
  - destruct (evict_one st) as [[p st']|] eqn:E.
    + destruct (evict_one_remove _ _ _ E) as (iid & -> & Hlt).
      destruct (IH (Some p) (remove_peer st iid)) as [? ?]; [by apply remove_peer_core | lia |].
      split; [done |]. eapply evolves_trans; [by apply remove_peer_evolves | done].
    + split; [split; [done | by apply evict_one_none] | apply evolves_refl].
Qed.

(** ** Installing a peer under a new key generation *)

(** What [add_peer], [unpin_peer] and [restore_peer_trust_state] have in common:
    [iid] gets a peer [t] with a new flag, the flag of the peer it replaces
    is retired, and only the pin and the replay entries of [iid] may change. *)
Record installs (st st' : LinkState) (iid : bytes) (t : TrackedPeer) : Prop := {
  in_link : st'.(link).(receiving_link_identity) = st.(link).(receiving_link_identity);
  in_identity : st'.(link).(identity) = st.(link).(identity);
  in_max : st'.(link).(max_peers) = st.(link).(max_peers);
  in_rmax : Protector.max_peers st'.(link).(replay) = Protector.max_peers st.(link).(replay);
  in_arc : t.(key_generation) = st.(world).(next_arc);
  in_next : st'.(world).(next_arc) = S st.(world).(next_arc);
  in_live : st'.(world).(arcs) !! t.(key_generation) = Some false;
  in_arcs b : b <> t.(key_generation) ->
    (forall u, st.(link).(peers) !! iid = Some u -> u.(key_generation) <> b) ->
    st'.(world).(arcs) !! b = st.(world).(arcs) !! b;
  in_retired b : b <> t.(key_generation) -> st.(world).(arcs) !! b = Some true ->
    st'.(world).(arcs) !! b = Some true;
  in_id : t.(tp_identity) = from_pubkey (pubkey_of t);
  in_iid : iid = iid_from_pubkey (pubkey_of t);
  in_peers : st'.(link).(peers) = <[iid := t]> st.(link).(peers);
  in_pin i : i <> iid -> st'.(link).(pinned) !! i = st.(link).(pinned) !! i;
  in_pin_iid k : st'.(link).(pinned) !! iid = Some k -> iid_from_pubkey k = iid;
  in_replay pk : iid_from_pubkey pk <> iid -> replay_of st' !! pk = replay_of st !! pk;
  in_replay_iid pk rs : iid_from_pubkey pk = iid -> replay_of st' !! pk = Some rs ->
    pk = pubkey_of t /\ exists hist, Protector.peer_repr rs hist
}.

Lemma installs_core st st' iid t : core st -> installs st st' iid t -> core st'.
Proof.
  intros C I. destruct C as [Hm Hp Hg Hpin Ht Hh Ha Hl].
  assert (forall j u, j <> iid -> peers (link st) !! j = Some u -> peer_ok st' j u) as Hold.
  { intros j u Hne Hu. destruct (Hp _ _ Hu) as [H1' H2' H3' H4' H5']. split; try done.
    - rewrite (in_next _ _ _ _ I). lia.
    - rewrite (in_arcs _ _ _ _ I); [done | rewrite (in_arc _ _ _ _ I); lia |].
      intros v Hv Heq. apply Hne. eapply Hg; eauto.
    - by rewrite (in_link _ _ _ _ I). }
  split.
  - rewrite (in_rmax _ _ _ _ I), (in_max _ _ _ _ I). done.
  - intros j u. rewrite (in_peers _ _ _ _ I), lookup_insert_Some.
    intros [[<- <-] | [Hne Hu]]; [| by apply Hold].
    split; [apply I | apply I | rewrite (in_next _ _ _ _ I), (in_arc _ _ _ _ I); lia | apply I |].
    rewrite (in_link _ _ _ _ I), (in_arc _ _ _ _ I). lia.
  - intros i j u v. rewrite (in_peers _ _ _ _ I), !lookup_insert_Some.
    pose proof (in_arc _ _ _ _ I) as Hgen.
    intros [[<- <-] | [Hne Hu]] [[<- <-] | [Hne' Hv]] Heq; [done | | | by eapply Hg].
    + pose proof (po_arc _ _ _ (Hp _ _ Hv)). lia.
    + pose proof (po_arc _ _ _ (Hp _ _ Hu)). lia.
  - intros i k Hk. rewrite (in_peers _ _ _ _ I). destruct (decide (i = iid)) as [-> | Hne].
    + split; [by eapply in_pin_iid | rewrite lookup_insert_eq; eauto].
    + rewrite (in_pin _ _ _ _ I) in Hk by done. rewrite lookup_insert_ne by done. by apply Hpin.
  - intros pk rs Hrs. rewrite (in_peers _ _ _ _ I).
    destruct (decide (iid_from_pubkey pk = iid)) as [He | Hne].
    + destruct (in_replay_iid _ _ _ _ I _ _ He Hrs) as [-> _]. exists t. by rewrite He, lookup_insert_eq.
    + rewrite (in_replay _ _ _ _ I) in Hrs by done. rewrite lookup_insert_ne by done. by eapply Ht.
  - intros pk rs Hrs. destruct (decide (iid_from_pubkey pk = iid)) as [He | Hne].
    + by eapply in_replay_iid.
    + rewrite (in_replay _ _ _ _ I) in Hrs by done. by eapply Hh.
  - rewrite (in_link _ _ _ _ I), (in_next _ _ _ _ I). lia.
  - rewrite (in_link _ _ _ _ I), (in_arcs _ _ _ _ I); [done | rewrite (in_arc _ _ _ _ I); lia |].
    intros u Hu. apply (po_link _ _ _ (Hp _ _ Hu)).
Qed.

Lemma installs_evolves st st' iid t : core st -> installs st st' iid t -> evolves st st'.
Proof.
  intros C I. pose proof (in_arc _ _ _ _ I) as Hgen. split; try apply I.
  - rewrite (in_next _ _ _ _ I). lia.
  - intros b Hb Hlt. apply (in_retired _ _ _ _ I); [lia | done].
  - intros j u. rewrite (in_peers _ _ _ _ I), lookup_insert_Some.
    intros [[<- <-] | [Hne Hu]]; [left; lia |]. right. exists u.
    split; [done |]. split; [auto with lichen |]. split.
    + intros k. by rewrite (in_pin _ _ _ _ I).
    + apply remembers_eq, (in_replay _ _ _ _ I). by rewrite (peer_pubkey _ _ _ C Hu).
Qed.

(** Refreshing the access clocks touches nothing else. *)
Lemma touch_core st acc rep c iid a :
  core st -> Protector.peers rep = replay_of st ->
  Protector.max_peers rep = Protector.max_peers st.(link).(replay) ->
  let st' := {| world := st.(world);
                link := set_peers (set_access (set_replay (set_clock st.(link) c) rep) acc)
                          (alter (fun t => touch t a) iid st.(link).(peers)) |} in
  core st' /\ evolves st st'.
Proof.
  intros C Hrep Hmax. simpl.
  assert (forall i u, alter (fun t => touch t a) iid (peers (link st)) !! i = Some u ->
    exists t, peers (link st) !! i = Some t /\ same_generation t u) as Halt.
  { intros i u Hu. destruct (decide (iid = i)) as [-> | Hne].
    - rewrite lookup_alter_eq in Hu. apply fmap_Some in Hu as (t & Ht & ->). eauto with lichen.
    - rewrite lookup_alter_ne in Hu by done. eauto with lichen. }
  destruct C as [Hm Hp Hg Hpin Ht Hh Ha Hl]. split; split; simpl; rewrite ?Hrep; try done.
  - congruence.
  - intros i u Hu. destruct (Halt _ _ Hu) as (t & Ht' & <-). destruct (Hp _ _ Ht'). by split.
  - intros i j u v Hu Hv. destruct (Halt _ _ Hu) as (t & Ht' & <-), (Halt _ _ Hv) as (t2 & Ht2 & <-).
    by apply (Hg i j t t2).
  - intros i k Hk. destruct (Hpin _ _ Hk) as [? Hs]. split; [done |].
    destruct (decide (iid = i)) as [-> | Hne]; [| by rewrite lookup_alter_ne].
    rewrite lookup_alter_eq. by apply fmap_is_Some.
  - intros pk rs Hrs. destruct (Ht _ _ Hrs) as (t & Ht' & Hpk).
    destruct (decide (iid = iid_from_pubkey pk)) as [-> | Hne].
    + rewrite lookup_alter_eq, Ht'. by exists (touch t a).
    + rewrite lookup_alter_ne by done. by exists t.
  - intros i u Hu. right. destruct (Halt _ _ Hu) as (t & Ht' & Hs). exists t.
    split; [done |]. split; [done |]. split; [done |]. apply remembers_eq. simpl. by rewrite Hrep.
Qed.

(** ** The operations *)

Lemma allocate_durable_frame l pk r l' :
  allocate_durable_generation l pk = (r, l') -> exists n, l' = set_next_durable l n.
Proof.
  unfold allocate_durable_generation. destruct (checked_add _ _ _) as [n|].
  - intros [= _ <-]. eauto.
  - intros [= _ <-]. exists (next_durable_generation l). by destruct l.
Qed.

Lemma allocate_generation_frame w g w' :
  allocate_generation w = Some (g, w') -> arcs w' = arcs w /\ next_arc w' = next_arc w.
Proof.
  unfold allocate_generation. destruct (Evidence.allocate _) as [[?|] ?]; [| done].
  by intros [= _ <-].
Qed.

Lemma alter_insert_touch (m : gmap bytes TrackedPeer) i t a :
  m !! i = Some t -> <[i := touch t a]> m = alter (fun t => touch t a) i m.
Proof.
  intros Ht. apply map_eq. intros j. destruct (decide (i = j)) as [<- | Hne].
  - by rewrite lookup_insert_eq, lookup_alter_eq, Ht.
  - by rewrite lookup_insert_ne, lookup_alter_ne.
Qed.

Lemma add_peer_ok st p r st' :
  inv st -> add_peer st p = Some (r, st') -> inv st' /\ evolves st st'.
Proof.
  intros [C Hcap]. unfold add_peer; simpl. set (pk := pi_pubkey p). set (iid := iid_from_pubkey pk).
  destruct (match peers (link st) !! iid with
            | Some u => if decide (pubkey_of u = pk) then Some u else None
            | None => None
            end) as [t|] eqn:Href.
  - intros [= <- <-]. assert (peers (link st) !! iid = Some t) as Ht.
    { destruct (peers (link st) !! iid); [| done]. case_decide; by simplify_eq. }
    rewrite (alter_insert_touch _ _ _ _ Ht).
    destruct (touch_core st (saturating_add u64_max (access_counter (link st)) 1)
      (replay (link st)) (receipt_clock (link st)) iid
      (saturating_add u64_max (access_counter (link st)) 1) C eq_refl eq_refl) as [C' E].
    split; [| exact E]. split; [exact C' |]. simpl. rewrite <- (alter_insert_touch _ _ _ _ Ht).
    rewrite map_size_insert_Some; [done | eauto].
  - destruct (allocate_durable_generation _ _) as [[[durable serial]|] l] eqn:Hd; [| done].
    apply allocate_durable_frame in Hd as [n ->]. simpl.
    destruct (allocate_generation _) as [[g w]|] eqn:Hg; [| done]. simpl.
    apply allocate_generation_frame in Hg as [Harcs Hnext]. simpl in *.
    set (t := {| tp_identity := from_pubkey pk |}).
    match goal with |- (let '(_, _) := ?m in _) = _ -> _ => destruct m as [[ret w2] l2] eqn:Hrep end.
    set (st1 := {| world := w2; link := l2 |}).
    assert (installs st st1 iid t) as I.
    { destruct (peers (link st) !! iid) as [u|] eqn:Hu; simplify_eq Hrep; intros <- <- <-.
      - destruct (decide (pubkey_of u = pk)) as [? | Hne]; [done |].
        pose proof (po_arc _ _ _ (inv_peer _ C _ _ Hu)) as Hlt.
        pose proof (peer_pubkey _ _ _ C Hu) as Hui.
        split; simpl; try done; rewrite ?Harcs.
        + rewrite lookup_insert_ne by lia. apply lookup_insert_eq.
        + intros b Hb Hold. specialize (Hold _ Hu). by rewrite !lookup_insert_ne.
        + intros b Hb Ht. rewrite lookup_insert_Some. destruct (decide (key_generation u = b)); [by left |].
          right. by rewrite lookup_insert_ne.
        + by intros k [? _]%(inv_pin _ C).
        + intros k Hk. rewrite lookup_delete_ne; [done |]. intros <-. done.
        + intros k rs Hk [Hne' Hrs]%lookup_delete_Some. exfalso.
          destruct (inv_tracked _ C _ _ Hrs) as (v & Hv & Hpk). rewrite Hk in Hv. simplify_eq.
      - split; simpl; try done; rewrite ?Harcs.
        + apply lookup_insert_eq.
        + intros b Hb _. by rewrite lookup_insert_ne.
        + intros b Hb Ht. by rewrite lookup_insert_ne.
        + by intros k [? _]%(inv_pin _ C).
        + intros k rs Hk Hrs. exfalso.
          destruct (inv_tracked _ C _ _ Hrs) as (v & Hv & Hpk). rewrite Hk, Hu in Hv. done. }
    destruct (evict_loop_ok (size (peers (link st1))) None st1) as [Hi He];
      [by eapply installs_core | done |].
    unfold evict_if_needed. change (link st1) with l2 in Hi, He. simpl in Hi, He |- *.
    destruct (evict_loop _ _ _) as [ev st2]. simpl in *. intros [= <- <-]. split; [done |].
    eapply evolves_trans; [by eapply installs_evolves | done].
Qed.

Lemma unpin_peer_ok st iid st' :
  inv st -> unpin_peer st iid = Some st' -> inv st' /\ evolves st st'.
Proof.
  intros [C Hcap]. unfold unpin_peer; simpl. destruct (peers (link st) !! iid) as [u|] eqn:Hu.
  - destruct (allocate_durable_generation _ _) as [[[durable serial]|] l] eqn:Hd; [| done].
    apply allocate_durable_frame in Hd as [n ->]. simpl.
    destruct (allocate_generation _) as [[g w]|] eqn:Hg; [| done]. simpl.
    apply allocate_generation_frame in Hg as [Harcs Hnext]. simpl in *.
    set (t := {| tp_identity := tp_identity u |}). intros [= <-].
    pose proof (inv_peer _ C _ _ Hu) as Hok.
    match goal with |- inv ?s /\ _ => assert (installs st s iid t) as I end.
    { split; simpl; try done; rewrite ?Harcs.
      - apply lookup_insert_eq.
      - intros b Hb Hold. specialize (Hold _ Hu). by rewrite !lookup_insert_ne.
      - intros b Hb Ht. rewrite lookup_insert_ne by done. by apply (retire_monotone (world st)).
      - apply Hok.
      - apply Hok.
      - intros i Hi. by rewrite lookup_delete_ne.
      - by intros k [? _]%lookup_delete_Some.
      - intros pk rs Hpk Hrs. split; [| by eapply inv_hist].
        destruct (inv_tracked _ C _ _ Hrs) as (v & Hv & <-). rewrite Hpk in Hv. by simplify_eq. }
    split; [| by eapply installs_evolves]. split; [by eapply installs_core |]. simpl.
    rewrite map_size_insert_Some; [done | eauto].
  - intros [= <-]. assert (pinned (link st) !! iid = None) as Hn.
    { destruct (pinned (link st) !! iid) eqn:Hk; [| done].
      destruct (inv_pin _ C _ _ Hk) as [_ [v Hv]]. by rewrite Hu in Hv. }
    rewrite delete_id by done.
    replace {| world := world st; link := _ |} with st by (by destruct st as [? []]).
    split; [by split | apply evolves_refl].
Qed.

Lemma parse_trust_window l record rev tr :
  bytes_ok record -> parse_trust_record l record rev = Ok tr ->
  exists s b, is_u32 b /\ Replay.from_persistent_parts s b = Some tr.(tr_window).
Proof.
  intros Hok. unfold parse_trust_record. repeat case_match; try done; intros [= <-];
    (eexists _, _; split; [| eassumption]);
    (apply from_be_u32; [eauto using slice_Forall, Forall_take |]);
    unfold slice; rewrite length_take; lia.
Qed.

Lemma restore_ok st record rev r st' :
  inv st -> bytes_ok record -> restore_peer_trust_state st record rev = (r, st') ->
  inv st' /\ evolves st st'.
Proof.
  intros I Hok. pose proof I as [C Hcap]. unfold restore_peer_trust_state.
  destruct (parse_trust_record _ _ _) as [tr | e] eqn:Hp;
    [| intros [= _ <-]; split; [done | apply evolves_refl]].
  destruct (_ || _) eqn:Hg; [intros [= _ <-]; split; [done | apply evolves_refl] |].
  apply orb_false_iff in Hg as [Hg Hpin]. apply orb_false_iff in Hg as [Hg Hpeer].
  apply orb_false_iff in Hg as [Hsz _]. bool_to_prop.
  apply bool_decide_eq_false, eq_None_not_Some in Hpeer, Hpin. simpl in *.
  destruct (allocate_generation _) as [[g w]|] eqn:Ha;
    [| intros [= _ <-]; split; [done | apply evolves_refl]].
  apply allocate_generation_frame in Ha as [Harcs Hnext]. simpl in *. intros [= _ <-].
  destruct (parse_trust_window _ _ _ _ Hok Hp) as (s & b & Hu & Hw).
  set (t := Build_TrackedPeer _ _ _ _ _ _ _).
  match goal with |- inv ?s /\ _ => assert (installs st s (iid_from_pubkey (tr_peer_key tr)) t) as In end.
  { split; simpl; try done; rewrite ?Harcs, ?Hnext; try done.
    - apply lookup_insert_eq.
    - intros c Hc _. by rewrite lookup_insert_ne.
    - intros c Hc Hr. by rewrite lookup_insert_ne.
    - intros i Hi. by rewrite lookup_insert_ne.
    - intros k Hk. rewrite lookup_insert_eq in Hk. by simplify_eq.
    - intros pk Hpk. rewrite lookup_insert_ne; [done |]. by intros <-.
    - intros pk rs Hpk [[<- <-] | [Hne Hrs]]%lookup_insert_Some.
      + split; [done |]. by eapply Protector.restored_repr.
      + destruct (inv_tracked _ C _ _ Hrs) as (u & Hu' & _). by rewrite Hpk, Hpeer in Hu'. }
  split; [| by eapply installs_evolves]. split; [by eapply installs_core |]. simpl.
  rewrite map_size_insert_None by done. lia.
Qed.

(** ** Receiving *)

(** What presenting an authentic pair to the replay table does: the peer is
    configured, so the table has room for it and nothing is evicted. *)
Lemma replay_check st iid t e s :
  inv st -> st.(link).(peers) !! iid = Some t ->
  exists b rs', Protector.check_and_update st.(link).(replay) (pubkey_of t) e s =
      Some (b, {| Protector.peers := <[pubkey_of t := rs']> (replay_of st);
                  Protector.access_counter :=
                    saturating_add u64_max (Protector.access_counter st.(link).(replay)) 1;
                  Protector.max_peers := Protector.max_peers st.(link).(replay) |}) /\
    (exists hist, Protector.peer_repr rs' hist /\ (b = true -> (e, s) ∈ hist)) /\
    (forall rs hist, replay_of st !! pubkey_of t = Some rs -> Protector.peer_repr rs hist ->
       (b = true -> (e, s) ∉ hist) /\ exists hist', Protector.peer_repr rs' hist' /\ hist ⊆ hist').
Proof.
  intros [C Hcap] Ht. destruct (replay_of st !! pubkey_of t) as [rs|] eqn:Hrs.
  - destruct (inv_hist _ C _ _ Hrs) as [hist Hr].
    destruct (Protector.check_known _ _ e s _ _ Hrs Hr) as (b & rs' & Hc & Hr' & Hb).
    exists b, rs'. split; [done |]. split.
    + eexists. split; [exact Hr' |]. intros ->. set_solver.
    + intros rs2 h2 [= <-] Hr2.
      destruct (Protector.check_known _ _ e s _ _ Hrs Hr2) as (b2 & rs2' & Hc2 & Hr2' & Hb2).
      rewrite Hc2 in Hc. injection Hc as -> Hins.
      assert (rs2' = rs') as ->.
      { apply (f_equal (fun m => m !! pubkey_of t)) in Hins. by simplify_map_eq. }
      split; [done |]. eexists. split; [exact Hr2' |]. destruct b; set_solver.
  - destruct (Protector.check_unknown _ _ e s Hrs) as (rs' & Hc & Hr').
    exists true, rs'. split.
    + rewrite Hc. unfold Protector.evict_if_needed, Protector.with_peers; simpl.
      rewrite Protector.evict_loop_small; [done |]. rewrite (inv_max _ C).
      etrans; [| exact Hcap]. rewrite <- size_dom. apply (tracked_size st).
      intros pk [rs Hpk]%elem_of_dom. apply lookup_insert_Some in Hpk as [[<- _] | [_ Hpk]]; [by exists iid, t |].
      destruct (inv_tracked _ C _ _ Hpk) as (u & ? & ?). eauto.
    + split; [| done]. eexists. split; [exact Hr' |]. set_solver.
Qed.

(** The state after the replay check of peer [t] left the entry [rs]. *)
Definition replayed (st : LinkState) (t : TrackedPeer) (rs : Protector.PeerReplayState) : LinkState :=
  {| world := st.(world);
     link := set_replay st.(link)
       {| Protector.peers := <[pubkey_of t := rs]> (replay_of st);
          Protector.access_counter :=
            saturating_add u64_max (Protector.access_counter st.(link).(replay)) 1;
          Protector.max_peers := Protector.max_peers st.(link).(replay) |} |}.

(** The state after a frame of peer [t] is delivered. *)
Definition delivered (st : LinkState) (iid : bytes) (t : TrackedPeer)
  (rs : Protector.PeerReplayState) : LinkState :=
  let access := saturating_add u64_max st.(link).(access_counter) 1 in
  let l := set_access (replayed st t rs).(link) access in
  let l := set_peers l (alter (fun t => touch t access) iid l.(peers)) in
  {| world := st.(world); link := set_pinned l (<[iid := pubkey_of t]> l.(pinned)) |}.

(** The evidence issued for it. *)
Definition evidence (st : LinkState) (t : TrackedPeer) (f : Frame.LichenFrame)
  (receipt : Evidence.ReceiptEvidence) : AuthenticatedFrame :=
  {| af_payload := f.(Frame.payload); af_destination := f.(Frame.dst_addr);
     af_destination_mode := f.(Frame.addr_mode); af_sender := t.(tp_identity);
     af_signer_eui64 := f.(Frame.signer_eui64); af_epoch := f.(Frame.epoch);
     af_seqnum := f.(Frame.seqnum);
     af_receiving_link_identity := st.(link).(receiving_link_identity);
     af_peer_key_generation := t.(key_generation);
     af_peer_key_generation_id := t.(key_generation_id);
     af_durable_peer_key_generation := t.(durable_key_generation);
     af_receipt := receipt; af_receiving_eui64 := local_eui64 st.(link) |}.

Lemma replayed_ok st iid t rs :
  inv st -> st.(link).(peers) !! iid = Some t -> (exists hist, Protector.peer_repr rs hist) ->
  (forall rs0 hist, replay_of st !! pubkey_of t = Some rs0 -> Protector.peer_repr rs0 hist ->
     exists hist', Protector.peer_repr rs hist' /\ hist ⊆ hist') ->
  inv (replayed st t rs) /\ evolves st (replayed st t rs).
Proof.
  intros [C Hcap] Ht Hrs Hmono. pose proof (peer_pubkey _ _ _ C Ht) as Hiid.
  destruct C as [Hm Hp Hg Hpin Htr Hh Ha Hl].
  split; [split; [split; simpl; try done | done] | split; simpl; try done].
  - intros i u Hu. by destruct (Hp _ _ Hu).
  - intros pk rs2 [[<- <-] | [_ Hr]]%lookup_insert_Some; [| by eapply Htr]. exists t. by rewrite Hiid.
  - intros pk rs2 [[<- <-] | [_ Hr]]%lookup_insert_Some; [done | by eapply Hh].
  - intros i u Hu. right. exists u. split; [done |]. split; [auto with lichen |]. split; [done |].
    intros rs0 hist Hr0 Hh0. simpl. destruct (decide (pubkey_of t = pubkey_of u)) as [Heq | Hne].
    + rewrite <- Heq in *. rewrite lookup_insert_eq.
      destruct (Hmono _ _ Hr0 Hh0) as (h' & ? & ?). by exists rs, h'.
    + rewrite lookup_insert_ne by done. by exists rs0, hist.
Qed.

Lemma pin_ok st iid t :
  inv st -> st.(link).(peers) !! iid = Some t ->
  (forall k, st.(link).(pinned) !! iid = Some k -> k = pubkey_of t) ->
  let st' := {| world := st.(world);
                link := set_pinned st.(link) (<[iid := pubkey_of t]> st.(link).(pinned)) |} in
  inv st' /\ evolves st st'.
Proof.
  intros [C Hcap] Ht Hk. pose proof (peer_pubkey _ _ _ C Ht) as Hiid.
  destruct C as [Hm Hp Hg Hpin Htr Hh Ha Hl]. simpl.
  split; [split; [split; simpl; try done | done] | split; simpl; try done].
  - intros i u Hu. by destruct (Hp _ _ Hu).
  - intros i k [[<- <-] | [_ Hi]]%lookup_insert_Some; [eauto | by apply Hpin].
  - intros i u Hu. right. exists u. split; [done |]. split; [auto with lichen |].
    split; [| by apply remembers_eq]. intros k Hi. apply lookup_insert_Some.
    destruct (decide (iid = i)) as [<- | Hne]; [left; split; [done |]; symmetry; by apply Hk | by right].
Qed.

Lemma delivered_ok st iid t rs :
  inv st -> st.(link).(peers) !! iid = Some t ->
  (forall k, st.(link).(pinned) !! iid = Some k -> k = pubkey_of t) ->
  (exists hist, Protector.peer_repr rs hist) ->
  (forall rs0 hist, replay_of st !! pubkey_of t = Some rs0 -> Protector.peer_repr rs0 hist ->
     exists hist', Protector.peer_repr rs hist' /\ hist ⊆ hist') ->
  inv (delivered st iid t rs) /\ evolves st (delivered st iid t rs).
Proof.
  intros I Ht Hk Hrs Hmono.
  destruct (replayed_ok _ _ _ _ I Ht Hrs Hmono) as [I1 E1].
  set (acc := saturating_add u64_max (access_counter (link st)) 1).
  destruct (touch_core (replayed st t rs) acc (replay (link (replayed st t rs)))
    (receipt_clock (link st)) iid acc (inv_core _ I1) eq_refl eq_refl) as [C2 E2].
  simpl in C2, E2. match type of C2 with core ?s => set (st2 := s) in * end.
  assert (peers (link st2) !! iid = Some (touch t acc)) as Ht2.
  { simpl. by rewrite lookup_alter_eq, Ht. }
  assert (inv st2) as I2.
  { split; [done |]. simpl. rewrite <- (alter_insert_touch _ _ _ _ Ht).
    rewrite map_size_insert_Some by eauto. apply I. }
  destruct (pin_ok st2 iid (touch t acc) I2 Ht2 Hk) as [I3 E3].
  split; [exact I3 |]. eapply evolves_trans; [exact E1 |]. eapply evolves_trans; [exact E2 | exact E3].
Qed.

(** ** The receive pipeline *)

(** What the stateless checks have established of an admitted frame. *)
Record authentic (l : LinkLayer) (wire : bytes) (f : Frame.LichenFrame) (t : TrackedPeer) : Prop := {
  au_parsed : Frame.from_bytes wire = Ok f;
  au_signed : f.(Frame.signature) = Frame.Present;
  au_peer : l.(peers) !! flip_ul f.(Frame.signer_eui64) = Some t;
  au_verified : exists len,
    rx_frame_length (length f.(Frame.dst_addr)) (length f.(Frame.signer_eui64))
      (length f.(Frame.payload)) = Ok len /\
    verify_frame len (Frame.llsec_byte f) f.(Frame.epoch) f.(Frame.seqnum) f.(Frame.dst_addr)
      f.(Frame.signer_eui64) f.(Frame.payload) f.(Frame.mic) (pubkey_of t) = true;
  au_local : wire_is_for_local l f = true
}.

Lemma authenticate_ok l wire f sender :
  authenticate l wire = Ok (f, sender) ->
  exists t, authentic l wire f t /\ sender = t.(tp_identity).
Proof.
  unfold authenticate. destruct (Frame.from_bytes wire) as [g|] eqn:Hf; [| done].
  destruct (negb (Frame.is_present _)) eqn:Hs; [done |].
  destruct (negb (length (Frame.mic g) =? _)%nat); [done |].
  destruct (rx_frame_length _ _ _) as [len|] eqn:Hlen; [| done].
  destruct (negb (length _ =? 8)%nat); [done |].
  destruct (_ !! _) as [t|] eqn:Ht; [| done].
  destruct (_ || _) eqn:Hv; [done |]. destruct (negb (wire_is_for_local _ _)) eqn:Hw; [done |].
  intros [= -> <-]. exists t. split; [| done]. bool_to_prop.
  split; try done; [by destruct (Frame.signature f) | eauto].
Qed.

(** Every branch of the stateful half. *)
Inductive rx_outcome (st : LinkState) (iid : bytes) (t : TrackedPeer) (f : Frame.LichenFrame)
  (receipt : Evidence.ReceiptEvidence) : result LinkRxError AuthenticatedFrame -> LinkState -> Prop :=
  | rx_key_change k : st.(link).(pinned) !! iid = Some k -> k <> pubkey_of t ->
      rx_outcome st iid t f receipt (Err KeyChange) st
  | rx_replay rs rp :
      Protector.check_and_update st.(link).(replay) (pubkey_of t) f.(Frame.epoch) f.(Frame.seqnum)
        = Some (false, rp) ->
      (exists hist, Protector.peer_repr rs hist) ->
      (forall rs0 hist, replay_of st !! pubkey_of t = Some rs0 -> Protector.peer_repr rs0 hist ->
         exists hist', Protector.peer_repr rs hist' /\ hist ⊆ hist') ->
      rx_outcome st iid t f receipt (Err ReplayDetected) (replayed st t rs)
  | rx_deliver rs :
      (forall k, st.(link).(pinned) !! iid = Some k -> k = pubkey_of t) ->
      (exists hist, Protector.peer_repr rs hist /\ (f.(Frame.epoch), f.(Frame.seqnum)) ∈ hist) ->
      (forall rs0 hist, replay_of st !! pubkey_of t = Some rs0 -> Protector.peer_repr rs0 hist ->
         ((f.(Frame.epoch), f.(Frame.seqnum)) ∉ hist) /\
         exists hist', Protector.peer_repr rs hist' /\ hist ⊆ hist') ->
      rx_outcome st iid t f receipt (Ok (evidence st t f receipt)) (delivered st iid t rs).

Lemma receive_outcome st wire receipt f t iid :
  inv st -> authentic st.(link) wire f t -> iid = t.(tp_identity).(pi_iid) ->
  authenticate st.(link) wire = Ok (f, t.(tp_identity)) ->
  exists r st', receive_frame_with_receipt st wire receipt = Some (r, st') /\
    rx_outcome st iid t f receipt r st'.
Proof.
  intros I Au -> Ha. unfold receive_frame_with_receipt. rewrite Ha.
  pose proof (inv_core _ I) as C. pose proof (au_peer _ _ _ _ Au) as Ht.
  pose proof (inv_peer _ C _ _ Ht) as Hok.
  assert (pi_iid (tp_identity t) = flip_ul (Frame.signer_eui64 f)) as Hiid.
  { rewrite (po_id _ _ _ Hok). simpl. symmetry. apply Hok. }
  rewrite Hiid. set (iid := flip_ul _) in *.
  destruct (match pinned (link st) !! iid with
            | Some pin => negb (bool_decide (pin = pubkey_of t))
            | None => false
            end) eqn:Hkc.
  { destruct (pinned (link st) !! iid) as [k|] eqn:Hk; [| done]. bool_to_prop.
    apply bool_decide_eq_false in Hkc. eexists _, _. split; [done | by econstructor]. }
  assert (forall k, pinned (link st) !! iid = Some k -> k = pubkey_of t) as Hpin.
  { intros k Hk. rewrite Hk in Hkc. bool_to_prop. by apply bool_decide_eq_true in Hkc. }
  destruct (replay_check st iid t (Frame.epoch f) (Frame.seqnum f) I Ht)
    as (b & rs & Hc & (hist & Hr & Hb) & Hmono).
  simpl. rewrite Hc. simpl. destruct b; simpl.
  2: { eexists _, _. split; [done |]. eapply rx_replay; [exact Hc | eauto |].
       intros rs0 h0 H1' H2'. by apply (Hmono rs0 h0). }
  unfold peer_auth_state; simpl. rewrite lookup_insert_eq, lookup_alter_eq, Ht. simpl.
  rewrite decide_True by done.
  assert (auth_can_transition_to (match pinned (link st) !! iid with
    | Some pin => if decide (pin = pubkey_of t) then Authenticated else Authenticating
    | None => Authenticating end) Authenticated = true) as ->.
  { destruct (pinned (link st) !! iid) as [k|]; [| done]. by case_decide. }
  simpl. eexists _, _. split; [done |]. apply rx_deliver; [done | eauto |].
  intros rs0 h0 H1' H2'. destruct (Hmono rs0 h0 H1' H2') as [Hn ?]. auto.
Qed.

(** The receipt clock is independent of the tables. *)
Definition with_clock (st : LinkState) (c : Evidence.ReceiptClock) : LinkState :=
  {| world := st.(world); link := set_clock st.(link) c |}.

Lemma with_clock_ok st c : inv st -> inv (with_clock st c) /\ evolves st (with_clock st c).
Proof.
  intros [[Hm Hp Hg Hpin Htr Hh Ha Hl] Hcap].
  split; [split; [split; simpl; try done | done] | split; simpl; try done].
  - intros i u Hu. by destruct (Hp _ _ Hu).
  - intros i u Hu. right. exists u. split; [done |]. split; [auto with lichen |].
    split; [done | by apply remembers_eq].
Qed.

Lemma rx_outcome_ok st iid t f receipt r st' :
  inv st -> st.(link).(peers) !! iid = Some t -> rx_outcome st iid t f receipt r st' ->
  inv st' /\ evolves st st'.
Proof.
  intros I Ht [k Hk Hne | rs rp Hc Hr Hmono | rs Hpin (h & Hr & _) Hmono].
  - split; [done | apply evolves_refl].
  - by eapply replayed_ok.
  - eapply delivered_ok; eauto. intros rs0 h0 H1' H2'. by apply (Hmono rs0 h0).
Qed.

(** One receive, whatever the clock it stamps with: it does not panic; an
    early error leaves everything but the clock; otherwise the frame is
    authentic for a configured peer and the outcome is one of [rx_outcome]. *)
Lemma receive_with_cases capture st wire :
  inv st ->
  exists r st', receive_with capture st wire = Some (r, st') /\
    let st1 := with_clock st (snd (capture st.(link).(receipt_clock))) in
    ((exists e, r = Err e /\ e <> ReplayDetected /\ st' = st1) \/
     exists receipt f t, fst (capture st.(link).(receipt_clock)) = Ok receipt /\
       authentic st1.(link) wire f t /\
       st.(link).(peers) !! t.(tp_identity).(pi_iid) = Some t /\
       rx_outcome st1 t.(tp_identity).(pi_iid) t f receipt r st').
Proof.
  intros I. unfold receive_with. destruct (capture _) as [[receipt | e] c] eqn:Hcap; simpl.
  - set (st1 := with_clock st c). change {| world := world st; link := _ |} with st1.
    destruct (with_clock_ok st c I) as [I1 _].
    destruct (authenticate (link st1) wire) as [[f sender] | e] eqn:Ha.
    + destruct (authenticate_ok _ _ _ _ Ha) as (t & Au & ->).
      destruct (receive_outcome st1 wire receipt f t _ I1 Au eq_refl Ha) as (r & st' & Hr & Ho).
      exists r, st'. split; [done |]. right. exists receipt, f, t. split; [done |].
      split; [done |]. split; [| done].
      pose proof (au_peer _ _ _ _ Au) as Ht.
      pose proof (inv_peer _ (inv_core _ I1) _ _ Ht) as Hok.
      rewrite (po_id _ _ _ Hok). simpl. rewrite <- (po_iid _ _ _ Hok). exact Ht.
    + exists (Err e), st1. unfold receive_frame_with_receipt. rewrite Ha. split; [done |]. left.
      exists e. split; [done |]. split; [| done]. revert Ha. unfold authenticate.
      repeat case_match; congruence.
  - eexists _, _. split; [done |]. left. exists (rx_of_clock e). split; [done |]. split; [| done]. by destruct e.
Qed.

Lemma receive_with_ok capture st wire r st' :
  inv st -> receive_with capture st wire = Some (r, st') -> inv st' /\ evolves st st'.
Proof.
  intros I Hr. destruct (receive_with_cases capture st wire I) as (r2 & st2 & Hr2 & Hc).
  rewrite Hr in Hr2. injection Hr2 as <- <-. simpl in Hc.
  set (c := snd (capture _)) in Hc. destruct (with_clock_ok st c I) as [I1 E1].
  destruct Hc as [(e & -> & _ & ->) | (receipt & f & t & _ & Au & Ht & Ho)]; [done |].
  destruct (rx_outcome_ok _ _ _ _ _ _ _ I1 Ht Ho) as [I2 E2].
  split; [done |]. by eapply evolves_trans.
Qed.

(** ** Every method *)

Lemma link_step_ok st st' : link_step st st' -> inv st -> inv st' /\ evolves st st'.
Proof.
  intros Hs I. destruct Hs as [p r st' Hs | iid | iid | iid st' Hs | wire r st' Hs | wire ms r st' Hs
    | wire dst am po e s out r out' st' Hs | record rev r st' Hok Hs].
  - by eapply add_peer_ok.
  - split; [by apply remove_peer_cap | by apply remove_peer_evolves, I].
  - rewrite forget_is_remove by apply I.
    split; [by apply remove_peer_cap | by apply remove_peer_evolves, I].
  - by eapply unpin_peer_ok.
  - by eapply receive_with_ok.
  - by eapply (receive_with_ok (fun c => Evidence.observe_millis c ms)).
  - unfold relay_verified_frame in Hs. destruct (receive_frame st wire) as [[q st1]|] eqn:Hr; [| done].
    destruct (receive_with_ok _ _ _ _ _ I Hr) as [I1 E1].
    assert (st' = st1) as ->; [| done]. simpl in Hs. destruct q as [af | e1]; [| by simplify_eq].
    destruct (build_frame_with_addr_mode _ _ _ _ _ _ _) as [[[len | e2] o]|]; by simplify_eq/=.
  - by eapply restore_ok.
Qed.

Lemma link_steps_ok st st' : rtc link_step st st' -> inv st -> inv st' /\ evolves st st'.
Proof.
  intros Hs. induction Hs as [st | st1 st2 st3 H12 H23 IH]; intros I;
    [split; [done | apply evolves_refl] |].
  destruct (link_step_ok _ _ H12 I) as [I2 E12]. destruct (IH I2) as [I3 E23].
  split; [done |]. by eapply evolves_trans.
Qed.

Lemma link_new_inv w id st : new w id = Some st -> inv st.
Proof.
  unfold new. destruct (arc_new w) as [a w1] eqn:Ha. unfold arc_new in Ha. injection Ha as <- <-.
  simpl. destruct (Evidence.clock_new _) as [[c|] p]; [| done]. intros [= <-].
  split; [split; simpl; try done | simpl; rewrite map_size_empty; lia].
  - lia.
  - apply lookup_insert_eq.
Qed.

(** The states a program can bring a link to. *)
Definition reachable (w : World) (id : Identity) (st : LinkState) : Prop :=
  exists st0, new w id = Some st0 /\ rtc link_step st0 st.

Lemma reachable_inv w id st : reachable w id st -> inv st.
Proof. intros (st0 & Hn & Hs). eapply link_steps_ok; [done | by eapply link_new_inv]. Qed.

Lemma reachable_step w id st st' : reachable w id st -> link_step st st' -> reachable w id st'.
Proof. intros (st0 & Hn & Hs) H'. exists st0. split; [done |]. by eapply rtc_r. Qed.
End inv.
End LinkInv.
