(* ===== verification/LinkDemo.v ===== *)
(** * Two links with concrete keys

    An executable scenario on the concrete primitives of [Schnorr]: a link
    that has configured one peer receives that peer's frames.  The theorems
    on the link layer are applied to it. *)

From S2P Require Import Prelude SeqNum Frame Replay ReplayProtector Evidence Addr Schnorr LinkLayer LinkInv.

Module LinkDemo.
Import Schnorr Link LinkInv.

#[export] Existing Instance toy_crypto.
#[export] Existing Instance toy_crypto_laws.
#[export] Existing Instance hash_iter_id.
#[export] Existing Instance usize64.

Definition alice : Identity := from_seed (replicate 32 1).
Definition bob : Identity := from_seed (replicate 32 2).
Definition bob_peer : PeerIdentity := from_pubkey bob.(id_pubkey).
Definition alice_peer : PeerIdentity := from_pubkey alice.(id_pubkey).

Definition world0 : World :=
  {| arcs := ∅; next_arc := 0; process := Evidence.process_start |}.

(** Only to name the result of an operation that cannot panic here. *)
Definition idle (id : Identity) : LinkState :=
  {| world := world0;
     link := {| identity := id; peers := ∅; replay := Protector.new; pinned := ∅;
                access_counter := 0; max_peers := 64; receiving_link_identity := 0;
                receipt_clock := {| Evidence.domain := 1; Evidence.last_ticks := 0;
                                    Evidence.mode := Evidence.Unset |};
                next_durable_generation := 1 |} |}.

Definition link_of (id : Identity) : LinkState := default (idle id) (new world0 id).
Definition with_peer (st : LinkState) (p : PeerIdentity) : LinkState :=
  default st (snd <$> add_peer st p).
Definition after_rx (st : LinkState) (wire : bytes) : LinkState :=
  default st (snd <$> receive_frame st wire).

Definition alice_new : LinkState := link_of alice.
Definition alice_link : LinkState := with_peer alice_new bob_peer.
Definition bob_link : LinkState := with_peer (link_of bob) alice_peer.

(** Bob's frame to Alice with the given counter. *)
Definition wire (epoch seqnum : Z) : bytes :=
  match build_frame bob_link.(link) epoch seqnum (local_eui64 alice_link.(link)) [20; 99]
          (replicate 255 0) with
  | Some (Ok n, buf) => take n buf
  | _ => []
  end.

Definition alice_rx : LinkState := after_rx alice_link (wire 1 7).
Definition alice_rx2 : LinkState := after_rx alice_rx (wire 1 8).

Definition evidence_of (st : LinkState) (w : bytes) (dummy : AuthenticatedFrame) : AuthenticatedFrame :=
  match receive_frame st w with Some (Ok af, _) => af | _ => dummy end.

Definition no_evidence : AuthenticatedFrame :=
  {| af_payload := []; af_destination := []; af_destination_mode := Frame.AM_None;
     af_sender := bob_peer; af_signer_eui64 := []; af_epoch := 0; af_seqnum := 0;
     af_receiving_link_identity := 0; af_peer_key_generation := 0;
     af_peer_key_generation_id := 0; af_durable_peer_key_generation := [];
     af_receipt := {| Evidence.clock_domain := 0; Evidence.monotonic_ticks := 0;
                      Evidence.duration_millis := None |};
     af_receiving_eui64 := [] |}.

Definition af1 : AuthenticatedFrame := evidence_of alice_link (wire 1 7) no_evidence.
Definition af2 : AuthenticatedFrame := evidence_of alice_rx (wire 1 8) no_evidence.

(** Bob's entry in Alice's table, and the receipt of her first frame. *)
Definition bob_tracked : TrackedPeer :=
  default {| tp_identity := bob_peer; tp_last_access := 0; key_generation := 0; key_generation_id := 0;
             durable_key_generation := []; durable_generation_serial := 0;
             required_schc_floor_commitment := None |}
    (alice_link.(link).(peers) !! bob_peer.(pi_iid)).
Definition receipt1 : Evidence.ReceiptEvidence :=
  {| Evidence.clock_domain := 1; Evidence.monotonic_ticks := 1; Evidence.duration_millis := None |}.

Lemma alice_link_reachable : reachable world0 alice alice_link.
Proof.
  exists alice_new. split; [vm_compute; reflexivity |]. apply rtc_once.
  apply (step_add _ bob_peer None). vm_compute. reflexivity.
Qed.

Lemma rx1 : receive_frame alice_link (wire 1 7) = Some (Ok af1, alice_rx).
Proof. vm_compute. reflexivity. Qed.
Lemma rx2 : receive_frame alice_rx (wire 1 8) = Some (Ok af2, alice_rx2).
Proof. vm_compute. reflexivity. Qed.
(** The same frame again is refused. *)
Lemma rx1_replayed :
  exists st, receive_frame alice_rx (wire 1 7) = Some (Err ReplayDetected, st).
Proof. eexists. vm_compute. reflexivity. Qed.
Lemma af1_payload : af1.(af_payload) = [20; 99].
Proof. vm_compute. reflexivity. Qed.

End LinkDemo.
