(* ===== verification/LinkSafety.v ===== *)
(** * Safety of the link layer

    The theorems a node relies on, over every sequence of link methods:
    the invariant, the exact behaviour of reception, replay protection within
    a key generation, and revocation of issued evidence. *)

From S2P Require Import Prelude SeqNum Frame Replay ReplayProtector Evidence Addr Schnorr LinkLayer LinkInv LinkDemo.

Module LinkSafety.
Import Schnorr Link LinkInv.

Section safety.
Context `{Crypto} `{HashIter} `{Usize}.

(** C3: after any sequence of link methods the peer table is within capacity
    and keyed by the IIDs of its keys, every configured peer holds a live key
    generation of its own, pins and replay entries belong to configured peers
    and every replay entry stands for a set of accepted pairs. *)
Theorem link_invariant (w : World) (id : Identity) (st : LinkState) (Hr : reachable w id st) :
  inv st.
Proof. by eapply reachable_inv. Qed.

(** ** Reception *)

Record delivered_spec (st : LinkState) (wire : bytes) (af : AuthenticatedFrame) (st' : LinkState)
  : Prop := {
  ds_frame : exists f t, authentic st.(link) wire f t /\
    st.(link).(peers) !! af.(af_sender).(pi_iid) = Some t /\
    af.(af_sender) = from_pubkey (tp_identity t).(pi_pubkey) /\
    af.(af_payload) = f.(Frame.payload) /\ af.(af_destination) = f.(Frame.dst_addr) /\
    (af.(af_epoch), af.(af_seqnum)) = (f.(Frame.epoch), f.(Frame.seqnum)) /\
    af.(af_peer_key_generation) = t.(key_generation);
  ds_pin : forall k, st.(link).(pinned) !! af.(af_sender).(pi_iid) = Some k ->
    k = af.(af_sender).(pi_pubkey);
  ds_pinned : st'.(link).(pinned) =
    <[af.(af_sender).(pi_iid) := af.(af_sender).(pi_pubkey)]> st.(link).(pinned);
  ds_live : accepts_authenticated_frame st' af = true
}.

Lemma evidence_live st iid t f receipt rs :
  inv st -> st.(link).(peers) !! iid = Some t -> iid = t.(tp_identity).(pi_iid) ->
  accepts_authenticated_frame (delivered st iid t rs) (evidence st t f receipt) = true.
Proof.
  intros I Ht ->. pose proof (inv_core _ I) as C. pose proof (inv_peer _ C _ _ Ht) as Hok.
  unfold accepts_authenticated_frame, is_current, retired; simpl.
  rewrite (po_live _ _ _ Hok), (inv_link_live _ C), lookup_alter_eq, Ht, lookup_insert_eq; simpl.
  rewrite !Nat.eqb_refl, !bool_decide_true by done. done.
Qed.

Lemma receive_delivers capture st wire r st' :
  inv st -> receive_with capture st wire = Some (r, st') ->
  match r with
  | Ok af => delivered_spec st wire af st'
  | Err e => st'.(link).(peers) = st.(link).(peers) /\ st'.(link).(pinned) = st.(link).(pinned) /\
      st'.(world) = st.(world) /\ (e <> ReplayDetected -> replay_of st' = replay_of st)
  end.
Proof.
  intros I Hr. destruct (receive_with_cases capture st wire I) as (r2 & st2 & Hr2 & Hc).
  rewrite Hr in Hr2. injection Hr2 as <- <-. simpl in Hc.
  set (c := snd (capture _)) in Hc. destruct (with_clock_ok st c I) as [I1 _].
  destruct Hc as [(e & -> & _ & ->) | (receipt & f & t & _ & Au & Ht & Ho)]; [done |].
  destruct Ho as [k Hk Hne | rs rp _ _ _ | rs Hpin _ _]; [done | done |].
  pose proof (inv_peer _ (inv_core _ I1) _ _ Ht) as Hok.
  split; simpl; [| done | done | by eapply evidence_live].
  exists f, t. split; [by destruct Au; split |]. split; [done |]. split; [apply Hok | done].
Qed.

(** C2: from every reachable state reception returns (it cannot panic).  A
    delivered frame parsed, carries a signature that verifies over its whole
    transcript under the key of the configured peer its signer field names,
    is addressed to this node, matches an existing pin, and leaves its sender
    pinned and its evidence live.  An error leaves peers, pins and
    generations alone, and any error but [ReplayDetected] the replay table
    too. *)
Theorem receive_frame_spec (w : World) (id : Identity) (st : LinkState) (wire : bytes)
  (Hr : reachable w id st) :
  exists r st', receive_frame st wire = Some (r, st') /\
    match r with
    | Ok af => delivered_spec st wire af st'
    | Err e => st'.(link).(peers) = st.(link).(peers) /\ st'.(link).(pinned) = st.(link).(pinned) /\
        st'.(world) = st.(world) /\ (e <> ReplayDetected -> replay_of st' = replay_of st)
    end.
Proof.
  pose proof (reachable_inv _ _ _ Hr) as I.
  destruct (receive_with_cases Evidence.next_logical st wire I) as (r & st' & Hrecv & _).
  exists r, st'. split; [done |]. by eapply receive_delivers.
Qed.

(** ** Replay protection *)

(** While a peer with key [pk] is configured under generation [g], its replay
    entry remembers the pair. *)
Definition seen (st : LinkState) (g : nat) (pk : PublicKey) (e s : Z) : Prop :=
  (g < st.(world).(next_arc))%nat /\
  forall iid t, st.(link).(peers) !! iid = Some t -> t.(key_generation) = g ->
    (tp_identity t).(pi_pubkey) = pk ->
    exists rs hist, replay_of st !! pk = Some rs /\ Protector.peer_repr rs hist /\ (e, s) ∈ hist.

Lemma seen_evolves st st' g pk e s : evolves st st' -> seen st g pk e s -> seen st' g pk e s.
Proof.
  intros E [Hlt Hs]. split; [pose proof (ev_arc _ _ E); lia |].
  intros iid t' Ht' Hg Hpk. destruct (ev_peer _ _ E _ _ Ht') as [Hf | (t & Ht & Hsame & _ & Hmem)]; [lia |].
  destruct (same_generation_fields _ _ Hsame) as (Hid & Hgen & _).
  destruct (Hs _ _ Ht) as (rs & hist & Hrs & Hrep & Hin); [congruence | congruence |].
  rewrite <- Hid, Hpk in Hmem. destruct (Hmem _ _ Hrs Hrep) as (rs' & hist' & ? & ? & ?).
  exists rs', hist'. set_solver.
Qed.

Lemma receive_seen capture st wire af st' :
  inv st -> receive_with capture st wire = Some (Ok af, st') ->
  seen st' af.(af_peer_key_generation) af.(af_sender).(pi_pubkey) af.(af_epoch) af.(af_seqnum) /\
  (seen st af.(af_peer_key_generation) af.(af_sender).(pi_pubkey) af.(af_epoch) af.(af_seqnum) -> False).
Proof.
  intros I Hr. destruct (receive_with_cases capture st wire I) as (r2 & st2 & Hr2 & Hc).
  rewrite Hr in Hr2. injection Hr2 as <- <-. simpl in Hc.
  set (c := snd (capture _)) in Hc. destruct (with_clock_ok st c I) as [I1 _].
  destruct Hc as [(e & He & _) | (receipt & f & t & _ & Au & Ht & Ho)]; [done |].
  inversion Ho as [| | rs Hpin (hist & Hrep & Hin) Hfresh]; subst. simpl. split.
  - split; [apply (inv_peer _ (inv_core _ I1) _ _ Ht) |]. intros _ _ _ _ _.
    exists rs, hist. simpl. by rewrite lookup_insert_eq.
  - intros [_ Hseen]. destruct (Hseen _ _ Ht eq_refl eq_refl) as (rs0 & h0 & Hrs0 & Hrep0 & Hin0).
    by destruct (Hfresh rs0 h0 Hrs0 Hrep0) as [Hn _].
Qed.

(** C1: replay safety.  However a link is used between two deliveries, two
    frames delivered under one key generation of one sender never carry the
    same (epoch, sequence number). *)
Theorem no_replay_within_generation (w : World) (id : Identity) (st st1 st2 st3 : LinkState)
  (wire wire' : bytes) (af af' : AuthenticatedFrame)
  (Hr : reachable w id st)
  (Hrx : receive_frame st wire = Some (Ok af, st1))
  (Hs : rtc link_step st1 st2)
  (Hrx2 : receive_frame st2 wire' = Some (Ok af', st3))
  (Hpk : af'.(af_sender).(pi_pubkey) = af.(af_sender).(pi_pubkey))
  (Hg : af'.(af_peer_key_generation) = af.(af_peer_key_generation)) :
  (af'.(af_epoch), af'.(af_seqnum)) <> (af.(af_epoch), af.(af_seqnum)).
Proof.
  intros [= He Hq]. pose proof (reachable_inv _ _ _ Hr) as I.
  destruct (receive_seen _ _ _ _ _ I Hrx) as [Hseen _].
  destruct (receive_with_ok _ _ _ _ _ I Hrx) as [I1 _].
  destruct (link_steps_ok _ _ Hs I1) as [I2 E2].
  destruct (receive_seen _ _ _ _ _ I2 Hrx2) as [_ Hno]. apply Hno.
  rewrite Hg, Hpk, He, Hq. by eapply seen_evolves.
Qed.

(** ** Revocation *)

(** No configured peer holds generation [g], nor ever will. *)
Definition dead (st : LinkState) (g : nat) : Prop :=
  (g < st.(world).(next_arc))%nat /\
  forall iid t, st.(link).(peers) !! iid = Some t -> t.(key_generation) <> g.

Lemma dead_evolves st st' g : evolves st st' -> dead st g -> dead st' g.
Proof.
  intros E [Hlt Hd]. split; [pose proof (ev_arc _ _ E); lia |]. intros iid t' Ht' Hg.
  destruct (ev_peer _ _ E _ _ Ht') as [Hf | (t & Ht & Hsame & _)]; [lia |].
  destruct (same_generation_fields _ _ Hsame) as (_ & Hgen & _). apply (Hd _ _ Ht). congruence.
Qed.

Lemma dead_rejects st af : dead st af.(af_peer_key_generation) -> accepts_authenticated_frame st af = false.
Proof.
  intros [_ Hd]. unfold accepts_authenticated_frame.
  destruct (peers (link st) !! _) as [t|] eqn:Ht; [| by rewrite !andb_false_r].
  rewrite (proj2 (Nat.eqb_neq _ _) (Hd _ _ Ht)). by rewrite !andb_false_r.
Qed.

Lemma accepts_peer st af : accepts_authenticated_frame st af = true ->
  st.(link).(receiving_link_identity) = af.(af_receiving_link_identity) /\
  (exists t, st.(link).(peers) !! af.(af_sender).(pi_iid) = Some t /\
    (tp_identity t).(pi_pubkey) = af.(af_sender).(pi_pubkey) /\
    t.(key_generation) = af.(af_peer_key_generation) /\
    t.(durable_key_generation) = af.(af_durable_peer_key_generation)) /\
  st.(link).(pinned) !! af.(af_sender).(pi_iid) = Some af.(af_sender).(pi_pubkey).
Proof.
  unfold accepts_authenticated_frame. intros Ha.
  apply andb_true_iff in Ha as [Ha Hpin]. apply andb_true_iff in Ha as [Ha Hpeer].
  apply andb_true_iff in Ha as [Hl _]. apply Nat.eqb_eq in Hl. split; [done |].
  destruct (peers (link st) !! _) as [t|]; [| done]. destruct (pinned (link st) !! _) as [k|]; [| done].
  bool_to_prop. repeat match goal with Hb : bool_decide _ = true |- _ => apply bool_decide_eq_true in Hb end.
  split; [by exists t | congruence].
Qed.

Lemma accepts_evolves st st' af : inv st -> inv st' -> evolves st st' ->
  accepts_authenticated_frame st af = true ->
  accepts_authenticated_frame st' af = true \/ dead st' af.(af_peer_key_generation).
Proof.
  intros I I' E Ha. destruct (accepts_peer _ _ Ha) as (Hl & (t & Ht & Hpk & Hg & Hdur) & Hpin).
  pose proof (po_arc _ _ _ (inv_peer _ (inv_core _ I) _ _ Ht)) as Hlt.
  assert (dead st' (af_peer_key_generation af) \/ exists t', peers (link st') !! pi_iid (af_sender af) = Some t'
    /\ key_generation t' = af_peer_key_generation af) as [Hd | (t' & Ht' & Hg')]; [| by right |].
  { destruct (decide (map_Exists (fun _ u => key_generation u = af_peer_key_generation af) (peers (link st'))))
      as [(iid & u & Hu & Hug) | Hno].
    - right. exists u. split; [| done].
      destruct (ev_peer _ _ E _ _ Hu) as [Hf | (v & Hv & Hsame & _)]; [lia |].
      destruct (same_generation_fields _ _ Hsame) as (_ & Hgen & _).
      rewrite <- (inv_gen _ (inv_core _ I) iid _ v t Hv Ht ltac:(congruence)). done.
    - left. split; [pose proof (ev_arc _ _ E); lia |]. intros iid u Hu Hug. apply Hno. by exists iid, u. }
  left. destruct (ev_peer _ _ E _ _ Ht') as [Hf | (v & Hv & Hsame & Hp & _)]; [lia |].
  rewrite Ht in Hv. injection Hv as <-. destruct (same_generation_fields _ _ Hsame) as (Hid & _ & Hd).
  pose proof (inv_core _ I') as C'. pose proof (inv_link_live _ C') as Hlive.
  pose proof (po_live _ _ _ (inv_peer _ C' _ _ Ht')) as Hglive.
  rewrite (ev_link _ _ E), Hl in Hlive. rewrite Hg' in Hglive.
  unfold accepts_authenticated_frame, is_current, retired.
  rewrite (ev_link _ _ E), Hl, Ht', (Hp _ Hpin), Hid, Hpk, Hd, Hdur, Hg', Hlive, Hglive. simpl.
  by rewrite !Nat.eqb_refl, !bool_decide_true.
Qed.

(** The methods that revoke: removing, forgetting or unpinning the sender
    leaves no configured peer with the generation of its evidence. *)
Lemma remove_dead st iid t :
  inv st -> st.(link).(peers) !! iid = Some t -> dead (remove_peer st iid) t.(key_generation).
Proof.
  intros I Ht. pose proof (inv_core _ I) as C. unfold remove_peer. rewrite Ht.
  split; simpl; [apply (inv_peer _ C _ _ Ht) |].
  intros i u [Hne Hu]%lookup_delete_Some Hg. apply Hne. symmetry. by eapply inv_gen.
Qed.

Lemma unpin_dead st iid t st' :
  inv st -> st.(link).(peers) !! iid = Some t -> unpin_peer st iid = Some st' ->
  dead st' t.(key_generation).
Proof.
  intros I Ht Hu. pose proof (inv_core _ I) as C. pose proof (po_arc _ _ _ (inv_peer _ C _ _ Ht)) as Hlt.
  unfold unpin_peer in Hu. simpl in Hu. rewrite Ht in Hu.
  destruct (allocate_durable_generation _ _) as [[[durable serial]|] l] eqn:Hd; [| done].
  apply allocate_durable_frame in Hd as [n ->]. simpl in Hu.
  destruct (allocate_generation _) as [[g w]|] eqn:Hg; [| done].
  apply allocate_generation_frame in Hg as [_ Hnext]. simpl in *. injection Hu as <-.
  split; simpl; [lia |]. intros i u [[<- <-] | [Hne Hu]]%lookup_insert_Some; simpl; [lia |].
  intros Hgen. apply Hne. symmetry. by eapply inv_gen.
Qed.

(** C26: revocation.  Evidence is live when it is issued; once a link has
    stopped accepting it, it never accepts it again; and removing, forgetting
    or unpinning its sender makes the link stop. *)
Theorem evidence_revocation (w : World) (id : Identity) (st st1 st2 : LinkState) (wire : bytes)
  (af : AuthenticatedFrame)
  (Hr : reachable w id st)
  (Hrx : receive_frame st wire = Some (Ok af, st1))
  (Hs : rtc link_step st1 st2) :
  accepts_authenticated_frame st1 af = true /\
  (forall st3, accepts_authenticated_frame st2 af = false -> rtc link_step st2 st3 ->
     accepts_authenticated_frame st3 af = false) /\
  accepts_authenticated_frame (remove_peer st2 af.(af_sender).(pi_iid)) af = false /\
  accepts_authenticated_frame (forget_peer st2 af.(af_sender).(pi_iid)) af = false /\
  (forall st3, unpin_peer st2 af.(af_sender).(pi_iid) = Some st3 ->
     accepts_authenticated_frame st3 af = false).
Proof.
  pose proof (reachable_inv _ _ _ Hr) as I. destruct (receive_with_ok _ _ _ _ _ I Hrx) as [I1 _].
  pose proof (ds_live _ _ _ _ (receive_delivers _ _ _ _ _ I Hrx)) as Hlive.
  destruct (link_steps_ok _ _ Hs I1) as [I2 E2].
  destruct (accepts_evolves _ _ _ I1 I2 E2 Hlive) as [Hacc | Hdead].
  - destruct (accepts_peer _ _ Hacc) as (_ & (t & Ht & _ & Hg & _) & _).
    pose proof (remove_dead _ _ _ I2 Ht) as Hrm. rewrite Hg in Hrm.
    split; [done |]. split; [congruence |]. rewrite forget_is_remove by apply I2.
    split; [by apply dead_rejects |]. split; [by apply dead_rejects |].
    intros st3 Hu. apply dead_rejects. rewrite <- Hg. by eapply unpin_dead.
  - split; [done |]. rewrite forget_is_remove by apply I2.
    split; [| split; [| split]].
    + intros st3 _ Hs3. eapply dead_rejects, dead_evolves; [| done]. by apply link_steps_ok.
    + eapply dead_rejects, dead_evolves; [| done]. by apply remove_peer_evolves, I2.
    + eapply dead_rejects, dead_evolves; [| done]. by apply remove_peer_evolves, I2.
    + intros st3 Hu. eapply dead_rejects, dead_evolves; [| done]. by eapply unpin_peer_ok.
Qed.

(** Dropping a link sets its own flag and every flag of its peers. *)
Lemma foldl_retire (l : list (bytes * TrackedPeer)) : forall w a,
  retired w a = true \/ (exists e, e ∈ l /\ key_generation (snd e) = a) ->
  retired (foldl (fun w e => retire w (snd e).(key_generation)) w l) a = true.
Proof.
  induction l as [|x l IH]; intros w a Ha; simpl.
  - destruct Ha as [Ha | (e & Hin & _)]; [done | by apply not_elem_of_nil in Hin].
  - apply IH. unfold retired in *. rewrite retire_arcs. case_decide as Hd; [by left |].
    destruct Ha as [Ha | (e & [-> | Hin]%elem_of_cons & He)]; [by left | done | eauto].
Qed.

(** dropping a link retires everything it has vouched for: evidence
    issued by it is no longer current for any holder of it. *)
Lemma drop_retires_evidence (w : World) (id : Identity) (st st1 st2 : LinkState) (wire : bytes)
  (af : AuthenticatedFrame)
  (Hr : reachable w id st)
  (Hrx : receive_frame st wire = Some (Ok af, st1))
  (Hs : rtc link_step st1 st2) :
  is_current (drop_link st2) af = false /\
  (accepts_authenticated_frame st2 af = true -> retired (drop_link st2) af.(af_peer_key_generation) = true).
Proof.
  pose proof (reachable_inv _ _ _ Hr) as I. destruct (receive_with_ok _ _ _ _ _ I Hrx) as [I1 _].
  pose proof (ds_live _ _ _ _ (receive_delivers _ _ _ _ _ I Hrx)) as Hlive.
  destruct (link_steps_ok _ _ Hs I1) as [I2 E2].
  destruct (accepts_peer _ _ Hlive) as (Hl & _ & _). split.
  - unfold is_current. rewrite <- Hl, <- (ev_link _ _ E2). unfold drop_link.
    rewrite foldl_retire; [done |]. left. unfold retired. by rewrite retire_arcs, decide_True.
  - intros Hacc. destruct (accepts_peer _ _ Hacc) as (_ & (t & Ht & _ & <- & _) & _).
    apply foldl_retire. right. exists (pi_iid (af_sender af), t). split; [| done]. by apply elem_of_hash_iter.
Qed.
End safety.

(** ** Applied to a concrete link *)

Import LinkDemo.

Lemma link_invariant_witness : inv alice_link.
Proof. apply (link_invariant world0 alice alice_link alice_link_reachable). Defined.

Lemma receive_frame_spec_witness :
  exists r st', receive_frame alice_link (wire 1 7) = Some (r, st') /\
    match r with Ok af => delivered_spec alice_link (wire 1 7) af st' | Err _ => False end.
Proof.
  destruct (receive_frame_spec world0 alice alice_link (wire 1 7) alice_link_reachable)
    as (r & st' & Hr & Hs).
  exists r, st'. split; [exact Hr |]. rewrite rx1 in Hr.
  apply (inj Some), pair_eq in Hr as [<- _]. exact Hs.
Defined.

Lemma no_replay_within_generation_witness :
  (af2.(af_epoch), af2.(af_seqnum)) <> (af1.(af_epoch), af1.(af_seqnum)).
Proof.
  apply (no_replay_within_generation world0 alice alice_link alice_rx alice_rx alice_rx2
    (wire 1 7) (wire 1 8) af1 af2 alice_link_reachable rx1 (rtc_refl _ _) rx2);
    vm_compute; reflexivity.
Defined.

Lemma evidence_revocation_witness :
  accepts_authenticated_frame alice_rx af1 = true /\
  accepts_authenticated_frame (remove_peer alice_rx af1.(af_sender).(pi_iid)) af1 = false.
Proof.
  destruct (evidence_revocation world0 alice alice_link alice_rx alice_rx (wire 1 7) af1
    alice_link_reachable rx1 (rtc_refl _ _)) as (Ha & _ & Hrm & _).
  split; [exact Ha |]. exact Hrm.
Defined.

End LinkSafety.
