(* ===== verification/LinkDelivery.v ===== *)
(** * Transmission and delivery

    What [build_frame] puts on the wire, that a receiver which has configured
    the sender delivers it, and what a relay emits. *)

From S2P Require Import Prelude SeqNum Frame Replay ReplayProtector Evidence Addr Schnorr LinkLayer LinkInv LinkDemo.

Module LinkDelivery.
Import Schnorr Link LinkInv.

Section delivery.
Context `{Crypto} `{HashIter} `{Usize}.

(** The length of the body of a signed frame. *)
Definition signed_body_len (dst_len payload_len : nat) : nat := 60 + dst_len + payload_len.

Lemma checked_sum_small (a b c : nat) :
  (a + b + c <= 1000)%nat ->
  (n ← checked_add usize_max 4 (Z.of_nat a);
   n ← checked_add usize_max n (Z.of_nat b);
   n ← checked_add usize_max n (Z.of_nat c);
   checked_add usize_max n (Z.of_nat SIGNATURE_LENGTH)) = Some (Z.of_nat (52 + a + b + c)).
Proof.
  intros Hs. pose proof usize_max_ge as Hm. unfold u16_max in Hm. unfold SIGNATURE_LENGTH.
  unfold checked_add. repeat (rewrite (proj2 (Z.leb_le _ _)) by lia; cbn [mbind option_bind]).
  f_equal. lia.
Qed.

Lemma checked_sum_bound (a b c : nat) n :
  (n ← checked_add usize_max 4 (Z.of_nat a);
   n ← checked_add usize_max n (Z.of_nat b);
   n ← checked_add usize_max n (Z.of_nat c);
   checked_add usize_max n (Z.of_nat SIGNATURE_LENGTH)) = Some n -> n = Z.of_nat (52 + a + b + c).
Proof.
  unfold checked_add, SIGNATURE_LENGTH. intros Hs.
  repeat (case_match; simplify_eq/=); lia.
Qed.

Lemma required_len_spec am dst_len payload_len :
  dst_len = Frame.addr_len am ->
  required_frame_buffer_len dst_len payload_len =
    if (signed_body_len dst_len payload_len <=? Frame.MAX_FRAME_BODY)%nat
    then Ok (S (signed_body_len dst_len payload_len)) else Err Frame.FrameTooLarge.
Proof.
  intros ->. unfold required_frame_buffer_len.
  destruct (Frame.from_addr_len (Frame.addr_len am)) eqn:Ham; [| by destruct am].
  change 8 with (Z.of_nat 8). unfold signed_body_len, Frame.MAX_FRAME_BODY, Frame.MAX_FRAME_LEN.
  destruct (_ <=? _)%nat eqn:Hle; bool_to_prop.
  - rewrite checked_sum_small by lia. rewrite (proj2 (Z.ltb_ge _ _)) by lia.
    pose proof usize_max_ge as Hm. unfold u16_max in Hm. unfold checked_add.
    rewrite (proj2 (Z.leb_le _ _)) by lia. f_equal. lia.
  - destruct (_ ≫= _) as [n|] eqn:Hn; [| done].
    apply checked_sum_bound in Hn as ->. rewrite (proj2 (Z.ltb_lt _ _)) by lia. done.
Qed.

(** The frame a link emits. *)
Definition emitted (l : LinkLayer) (epoch seqnum : Z) (dst inner_payload : bytes)
  (am : Frame.AddrMode) : Frame.LichenFrame :=
  let unsigned := {| Frame.epoch := epoch; Frame.seqnum := seqnum; Frame.dst_addr := dst;
    Frame.signer_eui64 := local_eui64 l; Frame.payload := inner_payload; Frame.mic := replicate 48 0;
    Frame.addr_mode := am; Frame.mic_length := Frame.Bits32; Frame.signature := Frame.Present;
    Frame.encryption := Frame.Plaintext |} in
  {| Frame.epoch := epoch; Frame.seqnum := seqnum; Frame.dst_addr := dst;
     Frame.signer_eui64 := local_eui64 l; Frame.payload := inner_payload;
     Frame.mic := sign_digest l (transcript unsigned);
     Frame.addr_mode := am; Frame.mic_length := Frame.Bits32; Frame.signature := Frame.Present;
     Frame.encryption := Frame.Plaintext |}.

Context `{!CryptoLaws}.

(** The identity of a link comes from [Identity::from_seed]. *)
Definition seeded (l : LinkLayer) : Prop := exists seed, l.(identity) = from_seed seed.

Lemma local_eui64_len l : seeded l -> length (local_eui64 l) = 8%nat.
Proof.
  intros [seed Hs]. unfold local_eui64. rewrite length_flip_ul, Hs. unfold from_seed.
  destruct (derive_keypair seed). apply length_iid.
Qed.

Lemma local_eui64_ok l : seeded l -> bytes_ok (local_eui64 l).
Proof.
  intros [seed Hs]. unfold local_eui64. apply flip_ul_ok. rewrite Hs. unfold from_seed.
  destruct (derive_keypair seed). apply iid_ok.
Qed.

Lemma sign_digest_verifies l m : seeded l -> schnorr_verify l.(identity).(id_pubkey) m (sign_digest l m) = true.
Proof.
  intros [seed Hs]. unfold sign_digest. rewrite Hs. unfold from_seed.
  pose proof (sign_verify seed m) as Hv. by destruct (derive_keypair seed).
Qed.

Lemma emitted_encodable l e s dst p am :
  seeded l -> length dst = Frame.addr_len am ->
  (signed_body_len (length dst) (length p) <= Frame.MAX_FRAME_BODY)%nat ->
  Frame.encodable (emitted l e s dst p am) /\
  length (Frame.body_of (emitted l e s dst p am)) = signed_body_len (length dst) (length p).
Proof.
  intros Hl Hd Hz. assert (length (Frame.body_of (emitted l e s dst p am)) =
    signed_body_len (length dst) (length p)) as Hlen.
  { rewrite Frame.length_body_of. simpl. unfold sign_digest.
    rewrite sign_len, local_eui64_len by done. unfold signed_body_len. lia. }
  split; [| done]. constructor; [done | done | apply sign_len | by apply local_eui64_len | by rewrite Hlen].
Qed.

Lemma emitted_typed l e s dst p am :
  seeded l -> is_u8 e -> is_u16 s -> bytes_ok dst -> bytes_ok p -> Frame.typed (emitted l e s dst p am).
Proof. intros. constructor; simpl; try done; [by apply local_eui64_ok | apply sign_ok]. Qed.

(** [build_frame_with_addr_mode] writes exactly the emitted frame. *)
Lemma build_emits l e s dst p am out :
  seeded l -> length dst = Frame.addr_len am ->
  (signed_body_len (length dst) (length p) <= Frame.MAX_FRAME_BODY)%nat ->
  build_frame_with_addr_mode l e s dst p am out = Some (Frame.write_to (emitted l e s dst p am) out).
Proof.
  intros Hl Hd Hz. unfold build_frame_with_addr_mode.
  rewrite Hd at 1. rewrite Nat.eqb_refl. cbn [negb].
  rewrite (required_len_spec am) by done. rewrite (proj2 (Nat.leb_le _ _) Hz).
  unfold signed_frame, sign_frame.
  assert (length dst <= 8)%nat as Hd8 by (rewrite Hd; destruct am; simpl; lia).
  rewrite (proj2 (Nat.ltb_ge _ _)) by lia. rewrite local_eui64_len by done. cbn [Nat.eqb].
  rewrite orb_true_r. cbn [negb mbind option_bind]. do 2 f_equal. unfold emitted, sign_digest, transcript.
  f_equal. f_equal. rewrite Frame.length_body_of. cbn [Frame.dst_addr Frame.signer_eui64 Frame.payload Frame.mic].
  rewrite local_eui64_len by done.
  replace (S (signed_body_len (length dst) (length p)) - 1)%nat
    with (4 + length dst + 8 + length p + length (replicate 48 0%Z : list Z))%nat
    by (unfold signed_body_len; simpl; lia).
  rewrite wrap8_small; [by destruct am |].
  unfold signed_body_len, Frame.MAX_FRAME_BODY, Frame.MAX_FRAME_LEN in Hz. simpl length. width.
Qed.

(** ** Delivery *)

Lemma seeded_iid l : seeded l -> l.(identity).(id_iid) = iid_from_pubkey l.(identity).(id_pubkey).
Proof. intros [seed ->]. unfold from_seed. by destruct (derive_keypair seed). Qed.

Lemma rx_length_spec a p :
  (signed_body_len a p <= Frame.MAX_FRAME_BODY)%nat ->
  rx_frame_length a 8 p = Ok (Z.of_nat (signed_body_len a p)).
Proof.
  unfold signed_body_len, Frame.MAX_FRAME_BODY, Frame.MAX_FRAME_LEN. intros Hz.
  unfold rx_frame_length. rewrite checked_sum_small by lia.
  unfold Frame.MAX_FRAME_BODY, Frame.MAX_FRAME_LEN. rewrite (proj2 (Z.leb_le _ _)) by lia.
  rewrite wrap8_small by width. do 2 f_equal. lia.
Qed.

Lemma emitted_verifies l e s dst p am :
  seeded l -> length dst = Frame.addr_len am ->
  (signed_body_len (length dst) (length p) <= Frame.MAX_FRAME_BODY)%nat ->
  let f := emitted l e s dst p am in
  verify_frame (Z.of_nat (signed_body_len (length dst) (length p))) (Frame.llsec_byte f) e s dst
    (local_eui64 l) p f.(Frame.mic) l.(identity).(id_pubkey) = true.
Proof.
  intros Hl Hd Hz f. unfold verify_frame.
  assert (length dst <= 8)%nat as Hd8 by (rewrite Hd; destruct am; simpl; lia).
  assert (length (Frame.mic f) = SIGNATURE_LENGTH) as -> by apply sign_len.
  rewrite (proj2 (Nat.ltb_ge _ _)), local_eui64_len, andb_false_r by (done || lia).
  cbn [negb orb Nat.eqb SIGNATURE_LENGTH].
  rewrite <- (sign_digest_verifies l (transcript f) Hl). f_equal.
  - pose proof (proj2 (emitted_encodable l e s dst p am Hl Hd Hz)) as Hb. fold f in Hb.
    unfold transcript. by rewrite Hb.
  - subst f. unfold emitted. cbn [Frame.mic]. f_equal. unfold transcript.
    rewrite !Frame.length_body_of. cbn [Frame.mic Frame.dst_addr Frame.signer_eui64 Frame.payload].
    unfold sign_digest. by rewrite sign_len.
Qed.

Lemma authenticate_emitted l r t e s dst p am :
  seeded l -> is_u8 e -> is_u16 s -> bytes_ok dst -> bytes_ok p -> length dst = Frame.addr_len am ->
  (signed_body_len (length dst) (length p) <= Frame.MAX_FRAME_BODY)%nat ->
  r.(peers) !! iid_from_pubkey l.(identity).(id_pubkey) = Some t ->
  t.(tp_identity) = from_pubkey l.(identity).(id_pubkey) ->
  wire_is_for_local r (emitted l e s dst p am) = true ->
  authenticate r (Frame.wire_of (emitted l e s dst p am)) = Ok (emitted l e s dst p am, t.(tp_identity)).
Proof.
  intros Hl He Hs Hdb Hpb Hd Hz Ht Hid Hloc. unfold authenticate.
  destruct (emitted_encodable l e s dst p am Hl Hd Hz) as [Henc _].
  rewrite Frame.from_bytes_wire; [| by apply emitted_typed | done].
  set (f := emitted l e s dst p am) in *.
  change (Frame.signature f) with Frame.Present. cbn [Frame.is_present negb].
  assert (length (Frame.mic f) = SIGNATURE_LENGTH) as -> by apply sign_len. rewrite Nat.eqb_refl. cbn [negb].
  change (Frame.dst_addr f) with dst. change (Frame.signer_eui64 f) with (local_eui64 l).
  change (Frame.payload f) with p. rewrite local_eui64_len, rx_length_spec by done. cbn [Nat.eqb negb].
  unfold local_eui64 at 1. rewrite flip_ul_involutive, seeded_iid, Ht by done.
  rewrite Hid. cbn [pi_iid pi_pubkey from_pubkey]. rewrite <- (seeded_iid l Hl).
  rewrite bool_decide_true by done. pose proof (emitted_verifies l e s dst p am Hl Hd Hz) as Hv.
  cbv zeta in Hv. fold f in Hv. change (Frame.epoch f) with e. change (Frame.seqnum f) with s.
  rewrite Hv. cbn [negb orb]. by rewrite Hloc.
Qed.

(** C4: end-to-end delivery.  A link with a configured sender delivers what
    that sender's [build_frame_with_addr_mode] wrote, when all of these hold:
    the frame is for this receiver (broadcast, with the destination elided, or
    addressed to the receiver's own EUI-64); the payload fits a frame; the
    counter is ahead of what the receiver has seen from the sender; no other
    key is pinned for the sender; and the receiver's receipt clock is not
    exhausted.  Then transmission succeeds in any buffer of the reported size,
    and reception returns the same payload, destination and counter, attributed
    to the sender's key. *)
Theorem built_frame_is_delivered (w : World) (id : Identity) (st : LinkState) (l : LinkLayer)
  (t : TrackedPeer) (e s : Z) (dst p out : bytes) (am : Frame.AddrMode) (receipt : Evidence.ReceiptEvidence)
  (Hr : reachable w id st) (Hl : seeded l) (He : is_u8 e) (Hs : is_u16 s)
  (Hdb : bytes_ok dst) (Hpb : bytes_ok p) (Hd : length dst = Frame.addr_len am)
  (Hz : (signed_body_len (length dst) (length p) <= Frame.MAX_FRAME_BODY)%nat)
  (Hout : (S (signed_body_len (length dst) (length p)) <= length out)%nat)
  (Ht : st.(link).(peers) !! iid_from_pubkey l.(identity).(id_pubkey) = Some t)
  (Hpk : (tp_identity t).(pi_pubkey) = l.(identity).(id_pubkey))
  (Hloc : am = Frame.AM_None \/ am = Frame.AM_Elided \/
          am = Frame.AM_Extended /\ dst = local_eui64 st.(link))
  (Hpin : forall k, st.(link).(pinned) !! iid_from_pubkey l.(identity).(id_pubkey) = Some k ->
          k = l.(identity).(id_pubkey))
  (Hahead : Protector.ahead st.(link).(replay) l.(identity).(id_pubkey) e s)
  (Hclock : fst (Evidence.next_logical st.(link).(receipt_clock)) = Ok receipt) :
  exists n buf af st',
    build_frame_with_addr_mode l e s dst p am out = Some (Ok n, buf) /\
    receive_frame st (take n buf) = Some (Ok af, st') /\
    af.(af_payload) = p /\ af.(af_destination) = dst /\ af.(af_epoch) = e /\ af.(af_seqnum) = s /\
    af.(af_sender) = from_pubkey l.(identity).(id_pubkey) /\ af.(af_receipt) = receipt.
Proof.
  pose proof (reachable_inv _ _ _ Hr) as I.
  destruct (emitted_encodable l e s dst p am Hl Hd Hz) as [Henc Hblen].
  set (f := emitted l e s dst p am) in *.
  exists (length (Frame.wire_of f)), (Frame.wire_of f ++ drop (length (Frame.wire_of f)) out).
  assert (length (Frame.wire_of f) <= length out)%nat as Hlen
    by (unfold Frame.wire_of; rewrite length_cons, Hblen; done).
  rewrite take_app_length. rewrite build_emits, Frame.write_to_ok by done.
  set (st1 := with_clock st (snd (Evidence.next_logical (receipt_clock (link st))))).
  destruct (with_clock_ok st (snd (Evidence.next_logical (receipt_clock (link st)))) I) as [I1 _].
  fold st1 in I1. pose proof (inv_peer _ (inv_core _ I) _ _ Ht) as Hok.
  assert (tp_identity t = from_pubkey (id_pubkey (identity l))) as Hid by (rewrite (po_id _ _ _ Hok); congruence).
  assert (authenticate (link st1) (Frame.wire_of f) = Ok (f, tp_identity t)) as Ha.
  { apply authenticate_emitted; try done.
    destruct Hloc as [-> | [-> | [-> ->]]]; [done | done |]. by apply bool_decide_true. }
  destruct (authenticate_ok _ _ _ _ Ha) as (u & Au & Hu).
  assert (u = t) as ->.
  { pose proof (au_peer _ _ _ _ Au) as Hx. simpl in Hx. unfold local_eui64 in Hx.
    rewrite flip_ul_involutive, seeded_iid in Hx by done. simpl in Hx. congruence. }
  destruct (receive_outcome st1 _ receipt f t _ I1 Au eq_refl Ha) as (r & st' & Hrx & Ho).
  assert (receive_frame st (Frame.wire_of f) = Some (r, st')) as Hrecv.
  { unfold receive_frame, receive_with. subst st1.
    destruct (Evidence.next_logical (receipt_clock (link st))) as [q c] eqn:Hn. simpl in *. by subst q. }
  assert (pi_iid (tp_identity t) = iid_from_pubkey (id_pubkey (identity l))) as Hiid by (by rewrite Hid).
  rewrite Hiid in Ho. inversion Ho as [k Hk Hne | rs rp Hc | rs Hp]; subst.
  - exfalso. apply Hne. rewrite Hpk. by apply Hpin.
  - exfalso. destruct (Protector.check_ahead _ _ _ _ Hahead) as [rp' Hc'].
    { intros rs0 Hrs0. by eapply (inv_hist _ (inv_core _ I)). }
    rewrite Hpk in Hc. simpl in Hc. congruence.
  - eexists _, _. split; [done |]. split; [exact Hrecv |]. simpl. by rewrite Hid.
Qed.

(** Transmission never panics; on an error the buffer is untouched. *)
Lemma build_total l e s dst p am out :
  seeded l ->
  exists r out', build_frame_with_addr_mode l e s dst p am out = Some (r, out') /\
    match r with
    | Ok n => let f := emitted l e s dst p am in
        Frame.encodable f /\ n = length (Frame.wire_of f) /\ out' = Frame.wire_of f ++ drop n out
    | Err _ => out' = out
    end.
Proof.
  intros Hl. destruct (decide (length dst = Frame.addr_len am /\
    (signed_body_len (length dst) (length p) <= Frame.MAX_FRAME_BODY)%nat)) as [[Hd Hz] | Hno].
  - rewrite build_emits by done. destruct (Frame.write_to _ out) as [[n | er] out'] eqn:Hw.
    + apply Frame.write_to_inv in Hw as (He & -> & _ & ->). by eexists _, _.
    + exists (Err er), out'. split; [done |]. unfold Frame.write_to in Hw.
      repeat case_match; simplify_eq; done.
  - unfold build_frame_with_addr_mode. destruct (negb _) eqn:Hd; [by eexists _, _ |]. bool_to_prop.
    rewrite (required_len_spec am) by done.
    rewrite (proj2 (Nat.leb_gt _ _)); [by eexists _, _ |]. apply Nat.nle_gt. intros Hz. apply Hno. done.
Qed.

(** sizing.  [required_frame_buffer_len] is exact: with that many bytes
    [build_frame] succeeds and writes exactly that many, with any fewer it
    fails with the size it needs, and when the function refuses the lengths
    [build_frame] refuses them with the same error.  A failing call leaves the
    buffer as it was. *)
Lemma required_len_exact (l : LinkLayer) (e s : Z) (dst p out : bytes) (Hl : seeded l) :
  match required_frame_buffer_len (length dst) (length p) with
  | Ok n =>
      if (n <=? length out)%nat
      then exists out', build_frame l e s dst p out = Some (Ok n, out') /\ drop n out' = drop n out
      else build_frame l e s dst p out =
        Some (Err (Frame.FE_BufferTooSmall {| required := n; provided := length out |}), out)
  | Err er => build_frame l e s dst p out = Some (Err er, out)
  end.
Proof.
  unfold build_frame. destruct (Frame.from_addr_len (length dst)) as [am|] eqn:Ham.
  2: { unfold required_frame_buffer_len. by rewrite Ham. }
  assert (length dst = Frame.addr_len am) as Hd.
  { unfold Frame.from_addr_len in Ham. repeat case_match; simplify_eq; done. }
  rewrite (required_len_spec am) by done. destruct (_ <=? Frame.MAX_FRAME_BODY)%nat eqn:Hz.
  - apply Nat.leb_le in Hz. rewrite build_emits by done.
    destruct (emitted_encodable l e s dst p am Hl Hd Hz) as [Henc Hlen].
    set (f := emitted l e s dst p am) in *.
    assert (length (Frame.wire_of f) = S (signed_body_len (length dst) (length p))) as Hw
      by (unfold Frame.wire_of; by rewrite length_cons, Hlen).
    destruct (_ <=? length out)%nat eqn:Ho; bool_to_prop.
    + rewrite Frame.write_to_ok by (done || lia). rewrite Hw. eexists. split; [done |].
      rewrite <- Hw. apply drop_app_length.
    + unfold Frame.write_to. rewrite (proj2 (Frame.write_guards_ok f _) (conj Henc eq_refl)), Hlen.
      rewrite (proj2 (Nat.ltb_lt _ _)) by lia. done.
  - unfold build_frame_with_addr_mode. rewrite <- Hd, Nat.eqb_refl. cbn [negb].
    by rewrite (required_len_spec am), Hz by done.
Qed.

(** relaying re-signs and never forwards unverified bytes.  From any
    reachable state the relay returns; if its inbound check fails, nothing is
    written; otherwise the emitted frame is this node's own signed frame for
    the next hop, carrying the verified payload or the given replacement, and
    the upstream reported is the verified sender. *)
Lemma relay_resigns (w : World) (id : Identity) (st : LinkState) (inbound next_dst out : bytes)
  (am : Frame.AddrMode) (po : option bytes) (e s : Z)
  (Hr : reachable w id st) (Hl : seeded st.(link)) :
  exists rx r out' st', receive_frame st inbound = Some (rx, st') /\
    relay_verified_frame st inbound next_dst am po e s out = Some (r, out', st') /\
    match rx, r with
    | Ok af, Ok ro =>
        let f := emitted st'.(link) e s next_dst (default af.(af_payload) po) am in
        ro.(ro_upstream) = af.(af_sender) /\ Frame.encodable f /\
        ro.(ro_len) = length (Frame.wire_of f) /\ take ro.(ro_len) out' = Frame.wire_of f /\
        f.(Frame.signer_eui64) = local_eui64 st.(link) /\
        schnorr_verify st.(link).(identity).(id_pubkey) (transcript f) f.(Frame.mic) = true
    | Ok _, Err (Outbound _) => out' = out
    | Err er, Err (Inbound er') => er' = er /\ out' = out
    | _, _ => False
    end.
Proof.
  pose proof (reachable_inv _ _ _ Hr) as I.
  destruct (receive_with_cases Evidence.next_logical st inbound I) as (rx & st' & Hrx & _).
  destruct (receive_with_ok _ _ _ _ _ I Hrx) as [_ E].
  change (receive_frame st inbound = Some (rx, st')) in Hrx.
  unfold relay_verified_frame. rewrite Hrx. cbn [mbind option_bind].
  destruct rx as [af | er]; [| by eexists _, _, _, _].
  assert (seeded (link st')) as Hl' by (unfold seeded; by rewrite (ev_identity _ _ E)).
  change (match po with Some mutated => mutated | None => af_payload af end)
    with (default (af_payload af) po).
  destruct (build_total (link st') e s next_dst (default (af_payload af) po) am out Hl')
    as (r & out' & -> & Hb). cbn [mbind option_bind].
  destruct r as [n | er]; [| by eexists _, _, _, _].
  destruct Hb as (Henc & -> & ->). eexists _, _, _, _. split; [done |]. split; [done |].
  cbn [ro_upstream ro_len]. split; [done |]. split; [done |]. split; [done |].
  split; [apply take_app_length |].
  split; [simpl; unfold local_eui64; by rewrite (ev_identity _ _ E) |].
  rewrite <- (ev_identity _ _ E). set (f := emitted _ _ _ _ _ _).
  assert (Frame.mic f = sign_digest (link st') (transcript f)) as ->; [| by apply sign_digest_verifies].
  subst f. unfold emitted. cbn [Frame.mic]. f_equal. unfold transcript.
  rewrite !Frame.length_body_of. cbn [Frame.mic Frame.dst_addr Frame.signer_eui64 Frame.payload].
  unfold sign_digest. by rewrite sign_len.
Qed.
End delivery.

(** ** Applied to concrete links *)

Import LinkDemo.

Lemma bob_seeded : seeded bob_link.(link).
Proof. exists (replicate 32 2). vm_compute. reflexivity. Qed.
Lemma alice_seeded : seeded alice_link.(link).
Proof. exists (replicate 32 1). vm_compute. reflexivity. Qed.

Lemma built_frame_is_delivered_witness :
  exists n buf af st',
    build_frame_with_addr_mode bob_link.(link) 1 7 [] [20; 99] Frame.AM_None (replicate 63 0) = Some (Ok n, buf) /\
    receive_frame alice_link (take n buf) = Some (Ok af, st') /\ af.(af_payload) = [20; 99].
Proof.
  destruct (built_frame_is_delivered world0 alice alice_link bob_link.(link) bob_tracked 1 7 []
    [20; 99] (replicate 63 0) Frame.AM_None receipt1 alice_link_reachable bob_seeded)
    as (n & buf & af & st' & Hb & Hx & Hp & _).
  1-12: try (vm_compute; reflexivity); try width; try (vm_compute; lia); try (repeat constructor; width).
  - intros k Hk. vm_compute in Hk. discriminate.
  - intros rs Hrs. vm_compute in Hrs. discriminate.
  - vm_compute. reflexivity.
  - exists n, buf, af, st'. split; [exact Hb |]. split; [exact Hx | exact Hp].
Defined.
End LinkDelivery.
