(* ===== verification/LinkTrust.v ===== *)
(** * Sealed trust records

    [persist_peer_trust_state] and [restore_peer_trust_state] of
    lichen-link/src/link_layer.rs: durable key generations are always the
    ones the link derived, and what one process life seals the next one
    restores. *)

From S2P Require Import Prelude SeqNum Frame Replay ReplayProtector Evidence Addr Schnorr LinkLayer LinkInv LinkDelivery LinkDemo.

Module LinkTrust.
Import Schnorr Link LinkInv LinkDelivery.

Section trust.
Context `{Crypto} `{HashIter} `{Usize}.

(** ** Durable generations *)

(** Every configured peer carries the durable generation derived from its
    serial, and the next serial is above all of them. *)
Record durable_ok (l : LinkLayer) : Prop := {
  do_next : 1 <= l.(next_durable_generation) <= u64_max;
  do_peer iid t : l.(peers) !! iid = Some t ->
    durable_generation_for l.(identity).(id_pubkey) (pubkey_of t) t.(durable_generation_serial)
      = Some t.(durable_key_generation) /\
    1 <= t.(durable_generation_serial) < l.(next_durable_generation)
}.

(** Operations that only drop or touch peers. *)
Lemma durable_sub l l' :
  durable_ok l -> l'.(identity) = l.(identity) ->
  l'.(next_durable_generation) = l.(next_durable_generation) ->
  (forall iid t', l'.(peers) !! iid = Some t' ->
     exists t, l.(peers) !! iid = Some t /\ same_generation t t') ->
  durable_ok l'.
Proof.
  intros D Hid Hn Hp. split; rewrite ?Hid, ?Hn; [apply D |].
  intros iid t' Ht'. destruct (Hp _ _ Ht') as (t & Ht & <-). by apply (do_peer _ D _ _ Ht).
Qed.

Lemma allocate_durable_ok l pk d s l' :
  durable_ok l -> allocate_durable_generation l pk = (Some (d, s), l') ->
  l' = set_next_durable l (s + 1) /\ s = l.(next_durable_generation) /\ s + 1 <= u64_max /\
  durable_generation_for l.(identity).(id_pubkey) pk s = Some d.
Proof.
  intros D. unfold allocate_durable_generation, checked_add.
  destruct (_ <=? _) eqn:E; [| done]. bool_to_prop. simpl.
  destruct (durable_generation_for _ _ _) eqn:Hd; [| done]. intros [= -> <- <-].
  split; [done |]. split; [done |]. split; [lia | done].
Qed.

Lemma remove_durable st iid : durable_ok st.(link) -> durable_ok (remove_peer st iid).(link).
Proof.
  intros D. eapply durable_sub; [exact D | | |]; unfold remove_peer;
    destruct (peers (link st) !! iid) as [u|] eqn:Hu; try done; simpl.
  - intros i t [_ Ht]%lookup_delete_Some. eauto using same_generation_refl.
  - eauto using same_generation_refl.
Qed.

Lemma evict_loop_durable fuel : forall ev st,
  durable_ok st.(link) -> durable_ok (snd (evict_loop fuel ev st)).(link).
Proof.
  induction fuel as [|fuel IH]; intros ev st D; simpl; [done |].
  destruct (evict_one st) as [[p st']|] eqn:E; [| done].
  destruct (evict_one_remove _ _ _ E) as (iid & -> & _). by apply IH, remove_durable.
Qed.

(** Installing a peer whose generation was just allocated. *)
Lemma durable_install l iid t n :
  durable_ok l -> n <= u64_max -> l.(next_durable_generation) <= n ->
  durable_generation_for l.(identity).(id_pubkey) (pubkey_of t) t.(durable_generation_serial)
    = Some t.(durable_key_generation) ->
  1 <= t.(durable_generation_serial) < n ->
  forall l', l'.(identity) = l.(identity) -> l'.(next_durable_generation) = n ->
    l'.(peers) = <[iid := t]> l.(peers) -> durable_ok l'.
Proof.
  intros D Hn Hle Hd Hs l' Hid Hnx Hp. pose proof (do_next _ D). split; rewrite ?Hid, ?Hnx; [lia |].
  intros i u. rewrite Hp. intros [[<- <-] | [_ Hu]]%lookup_insert_Some; [done |].
  destruct (do_peer _ D _ _ Hu). split; [done | lia].
Qed.

Lemma add_peer_durable st p r st' :
  durable_ok st.(link) -> add_peer st p = Some (r, st') -> durable_ok st'.(link).
Proof.
  intros D. unfold add_peer; simpl. set (pk := pi_pubkey p). set (iid := iid_from_pubkey pk).
  destruct (match peers (link st) !! iid with
            | Some u => if decide (pubkey_of u = pk) then Some u else None
            | None => None
            end) as [t|] eqn:Href.
  - intros [= <- <-]. eapply durable_sub; [exact D | done | done |]. simpl.
    intros i u [[<- <-] | [_ Hu]]%lookup_insert_Some; [| eauto using same_generation_refl].
    destruct (peers (link st) !! iid) as [v|]; [| done]. case_decide; simplify_eq.
    eauto using same_generation_touch.
  - destruct (allocate_durable_generation _ _) as [[[durable serial]|] l] eqn:Hd; [| done].
    apply allocate_durable_ok in Hd as (-> & -> & Hmax & Hgen);
      [| by eapply durable_sub; [exact D | | |]; eauto using same_generation_refl].
    simpl. destruct (allocate_generation _) as [[g w]|] eqn:Hg; [| done]. simpl in *.
    match goal with |- (let '(_, _) := ?m in _) = _ -> _ => destruct m as [[ret w2] l2] eqn:Hrep end.
    assert (durable_ok l2) as D2.
    { pose proof (do_next _ D). set (t := Build_TrackedPeer _ _ _ _ _ _ _) in Hrep.
      destruct (peers (link st) !! iid) as [u|]; simplify_eq/=;
        (eapply (durable_install (link st) iid t (next_durable_generation (link st) + 1));
         simpl; [exact D | lia | lia | done | lia | done | done | done]). }
    pose proof (evict_loop_durable (size (peers l2)) None {| world := w2; link := l2 |} D2) as D3.
    unfold evict_if_needed. simpl. destruct (evict_loop _ _ _) as [ev st2]. intros [= <- <-]. exact D3.
Qed.

Lemma unpin_durable st iid st' :
  durable_ok st.(link) -> unpin_peer st iid = Some st' -> durable_ok st'.(link).
Proof.
  intros D. unfold unpin_peer; simpl. destruct (peers (link st) !! iid) as [u|] eqn:Hu.
  - destruct (allocate_durable_generation _ _) as [[[durable serial]|] l] eqn:Hd; [| done].
    apply allocate_durable_ok in Hd as (-> & -> & Hmax & Hgen);
      [| by eapply durable_sub; [exact D | | |]; eauto using same_generation_refl].
    destruct (allocate_generation _) as [[g w]|]; [| done]. simpl in *. intros [= <-].
    pose proof (do_next _ D). set (t := Build_TrackedPeer _ _ _ _ _ _ _).
    eapply (durable_install (link st) iid t (next_durable_generation (link st) + 1));
      simpl; [exact D | lia | lia | done | lia | done | done | done].
  - intros [= <-]. eapply durable_sub; [exact D | | |]; eauto using same_generation_refl.
Qed.

Lemma receive_durable capture st wire r st' :
  inv st -> durable_ok st.(link) -> receive_with capture st wire = Some (r, st') ->
  durable_ok st'.(link).
Proof.
  intros I D Hr. destruct (receive_with_cases capture st wire I) as (r2 & st2 & Hr2 & Hc).
  rewrite Hr in Hr2. injection Hr2 as <- <-. simpl in Hc.
  eapply durable_sub; [exact D | | |];
    destruct Hc as [(e & -> & _ & ->) | (receipt & f & t & _ & _ & Ht & [k _ _ | rs rp _ _ _ | rs _ _ _])];
    try done; simpl; eauto using same_generation_refl.
  intros i u Hu. destruct (decide (pi_iid (tp_identity t) = i)) as [<- | Hne].
  - rewrite lookup_alter_eq, Ht in Hu. simplify_eq/=. eauto using same_generation_touch.
  - rewrite lookup_alter_ne in Hu by done. eauto using same_generation_refl.
Qed.

Lemma parse_durable l record rev tr :
  bytes_ok record -> parse_trust_record l record rev = Ok tr ->
  durable_generation_for l.(identity).(id_pubkey) tr.(tr_peer_key) tr.(tr_serial) = Some tr.(tr_durable) /\
  1 <= tr.(tr_serial) < tr.(tr_next_serial) /\ tr.(tr_next_serial) <= u64_max.
Proof.
  intros Hok. unfold parse_trust_record. repeat case_match; try done; intros <-%ok_inj;
    cbn [tr_peer_key tr_serial tr_durable tr_next_serial];
    match goal with Hs : (from_be ?a =? 0) || (from_be ?b <=? from_be ?a) || negb (bool_decide _) = false |- _ =>
      apply orb_false_iff in Hs as [[Hz Hlt]%orb_false_iff Hd];
      apply negb_false_iff, bool_decide_eq_true in Hd; bool_to_prop;
      pose proof (from_be_u64 a ltac:(eauto using slice_Forall, Forall_take) (slice_le _ _ _)) as Ha;
      pose proof (from_be_u64 b ltac:(eauto using slice_Forall, Forall_take) (slice_le _ _ _)) as Hb;
      split; [done |]; revert Hz Hlt Ha Hb; generalize (from_be a) (from_be b); clear; intros; width
    end.
Qed.

Lemma restore_durable st record rev r st' :
  bytes_ok record -> durable_ok st.(link) -> restore_peer_trust_state st record rev = (r, st') ->
  durable_ok st'.(link).
Proof.
  intros Hok D. unfold restore_peer_trust_state.
  destruct (parse_trust_record _ _ _) as [tr | e] eqn:Hp; [| by intros [= _ <-]].
  destruct (_ || _); [by intros [= _ <-] |].
  destruct (allocate_generation _) as [[g w]|]; [| by intros [= _ <-]].
  destruct (parse_durable _ _ _ _ Hok Hp) as (Hd & Hs & Hn). intros [= _ <-].
  pose proof (do_next _ D). simpl. set (t := Build_TrackedPeer _ _ _ _ _ _ _).
  eapply (durable_install (link st) (iid_from_pubkey (tr_peer_key tr)) t
    (Z.max (next_durable_generation (link st)) (tr_next_serial tr)));
    simpl; [exact D | lia | lia | done | lia | done | done | done].
Qed.

Lemma link_step_durable st st' :
  link_step st st' -> inv st -> durable_ok st.(link) -> durable_ok st'.(link).
Proof.
  intros Hs I D. destruct Hs as [p r st' Hs | iid | iid | iid st' Hs | wire r st' Hs | wire ms r st' Hs
    | wire dst am po e s out r out' st' Hs | record rev r st' Hok Hs].
  - by eapply add_peer_durable.
  - by apply remove_durable.
  - rewrite forget_is_remove by apply I. by apply remove_durable.
  - by eapply unpin_durable.
  - by eapply receive_durable.
  - by eapply (receive_durable (fun c => Evidence.observe_millis c ms)).
  - unfold relay_verified_frame in Hs. destruct (receive_frame st wire) as [[q st1]|] eqn:Hr; [| done].
    pose proof (receive_durable _ _ _ _ _ I D Hr) as D1.
    assert (st' = st1) as ->; [| done]. simpl in Hs. destruct q as [af | e1]; [| by simplify_eq].
    destruct (build_frame_with_addr_mode _ _ _ _ _ _ _) as [[[len | e2] o]|]; by simplify_eq/=.
  - by eapply restore_durable.
Qed.

Lemma reachable_durable w id st : reachable w id st -> durable_ok st.(link).
Proof.
  intros (st0 & Hn & Hs). pose proof (link_new_inv _ _ _ Hn) as I.
  assert (durable_ok (link st0)) as D.
  { unfold new in Hn. destruct (arc_new w). destruct (Evidence.clock_new _) as [[c|] p]; [| done].
    injection Hn as <-. split; simpl; [width | done]. }
  clear Hn. induction Hs as [st | st1 st2 st3 H12 H23 IH]; [done |].
  apply IH; [by eapply link_step_ok | by eapply link_step_durable].
Qed.

(** ** Round trip *)

(** The length of a prefix whose pieces have known lengths. *)
Ltac cut_len :=
  repeat (rewrite length_app || rewrite length_cons); simpl length; lia.

(** The fields of a sealed body are where the parser looks for them. *)
Record body_fields (b : bytes) (rev : Z) (lk pk d : bytes) (serial next : Z) (c : option bytes)
  (ep seq win : Z) : Prop := {
  bf_len : length b = 166%nat;
  bf_version : nth 21 b 0 = 1;
  bf_rev : from_be (slice 22 30 b) = rev;
  bf_local : slice 30 62 b = lk;
  bf_peer : slice 62 94 b = pk;
  bf_durable : slice 94 110 b = d;
  bf_serial : from_be (slice 110 118 b) = serial;
  bf_next : from_be (slice 118 126 b) = next;
  bf_flag : nth 126 b 0 = match c with Some _ => 1 | None => 0 end;
  bf_commit : slice 127 159 b = default (replicate 32 0) c;
  bf_epoch : nth 159 b 0 = ep;
  bf_seq : from_be (slice 160 162 b) = seq;
  bf_window : from_be (slice 162 166 b) = win
}.

Context `{!CryptoLaws}.

Lemma trust_body_fields l rev t ep seq win record :
  length l.(identity).(id_pubkey) = 32%nat -> length (pubkey_of t) = 32%nat ->
  length t.(durable_key_generation) = 16%nat ->
  is_u64 rev -> is_u64 t.(durable_generation_serial) -> is_u64 l.(next_durable_generation) ->
  is_u16 seq -> is_u32 win ->
  body_fields (trust_body l rev t ep (seq, win) record) rev l.(identity).(id_pubkey) (pubkey_of t)
    t.(durable_key_generation) t.(durable_generation_serial) l.(next_durable_generation)
    (sha256 <$> record) ep seq win.
Proof.
  intros Hl Hp Hd Hr Hs Hn Hq Hw. unfold trust_body. cbn [fst snd].
  set (D := TRUST_STATE_DOMAIN). set (R := to_be 8 rev).
  set (S := to_be 8 (durable_generation_serial t)). set (N := to_be 8 (next_durable_generation l)).
  set (F := match record with Some _ => 1 | None => 0 end). set (C := default (replicate 32 0) (sha256 <$> record)).
  replace (match record with Some r => 1 :: sha256 r | None => 0 :: replicate 32 0 end) with (F :: C)
    by (by destruct record).
  set (Q := to_be 2 seq). set (W := to_be 4 win).
  set (L := id_pubkey (identity l)) in *. set (P := pubkey_of t) in *.
  set (G := durable_key_generation t) in *.
  assert (length C = 32%nat) as HC by (subst C; destruct record; simpl; [apply sha256_len | done]).
  assert (length R = 8%nat /\ length S = 8%nat /\ length N = 8%nat /\ length Q = 2%nat /\ length W = 4%nat)
    as (HR & HS & HN & HQ & HW) by (repeat split; apply length_to_be).
  assert (length D = 21%nat) as HD by done.
  constructor.
  - cut_len.
  - apply (nth_app_eq D (R ++ L ++ P ++ G ++ S ++ N ++ (F :: C) ++ [ep] ++ Q ++ W)); [done | lia].
  - rewrite (slice_app_eq (D ++ [1]) R (L ++ P ++ G ++ S ++ N ++ (F :: C) ++ [ep] ++ Q ++ W));
      [by apply from_be_to_be_u64 | by list_simplifier | cut_len | cut_len].
  - apply (slice_app_eq (D ++ [1] ++ R) L (P ++ G ++ S ++ N ++ (F :: C) ++ [ep] ++ Q ++ W));
      [by list_simplifier | cut_len | cut_len].
  - apply (slice_app_eq (D ++ [1] ++ R ++ L) P (G ++ S ++ N ++ (F :: C) ++ [ep] ++ Q ++ W));
      [by list_simplifier | cut_len | cut_len].
  - apply (slice_app_eq (D ++ [1] ++ R ++ L ++ P) G (S ++ N ++ (F :: C) ++ [ep] ++ Q ++ W));
      [by list_simplifier | cut_len | cut_len].
  - rewrite (slice_app_eq (D ++ [1] ++ R ++ L ++ P ++ G) S (N ++ (F :: C) ++ [ep] ++ Q ++ W));
      [by apply from_be_to_be_u64 | by list_simplifier | cut_len | cut_len].
  - rewrite (slice_app_eq (D ++ [1] ++ R ++ L ++ P ++ G ++ S) N ((F :: C) ++ [ep] ++ Q ++ W));
      [by apply from_be_to_be_u64 | by list_simplifier | cut_len | cut_len].
  - rewrite (nth_app_eq (D ++ [1] ++ R ++ L ++ P ++ G ++ S ++ N) (C ++ [ep] ++ Q ++ W) _ F);
      [by destruct record | by list_simplifier | cut_len].
  - apply (slice_app_eq (D ++ [1] ++ R ++ L ++ P ++ G ++ S ++ N ++ [F]) C ([ep] ++ Q ++ W));
      [by list_simplifier | cut_len | cut_len].
  - apply (nth_app_eq (D ++ [1] ++ R ++ L ++ P ++ G ++ S ++ N ++ F :: C) (Q ++ W));
      [by list_simplifier | cut_len].
  - rewrite (slice_app_eq (D ++ [1] ++ R ++ L ++ P ++ G ++ S ++ N ++ (F :: C) ++ [ep]) Q W);
      [by apply from_be_to_be_u16 | by list_simplifier | cut_len | cut_len].
  - rewrite (slice_app_eq (D ++ [1] ++ R ++ L ++ P ++ G ++ S ++ N ++ (F :: C) ++ [ep] ++ Q) W []);
      [by apply from_be_to_be_u32 | by rewrite app_nil_r; list_simplifier | cut_len | cut_len].
Qed.

Lemma parse_sealed l b sig rev min pk d serial next c ep seq win rw :
  body_fields b rev l.(identity).(id_pubkey) pk d serial next c ep seq win ->
  verify_profile_message l.(identity).(id_pubkey) b sig = true -> length sig = 48%nat ->
  rev <> 0 -> min <= rev -> Evidence.from_owner_bytes d = Some d -> 1 <= serial < next ->
  durable_generation_for l.(identity).(id_pubkey) pk serial = Some d ->
  Replay.from_persistent_parts seq win = Some rw ->
  parse_trust_record l (b ++ sig) min =
    Ok {| tr_revision := rev; tr_peer_key := pk; tr_durable := d; tr_serial := serial;
          tr_next_serial := next; tr_commitment := c; tr_last_epoch := ep; tr_window := rw |}.
Proof.
  intros [Hlen Hv Hrev Hloc Hpk Hd Hser Hnx Hfl Hc Hep Hsq Hwin] Hsig Hsl Hr0 Hmin Hown Hs Hgen Hrw.
  unfold parse_trust_record. change (length TRUST_STATE_DOMAIN) with 21%nat.
  unfold TAIL_LEN. cbn [Nat.add].
  rewrite length_app, Hlen, Hsl. cbn [Nat.add Nat.eqb negb TRUST_STATE_SIGNATURE_LEN].
  rewrite <- Hlen at 1 2. rewrite take_app_length, drop_app_length.
  rewrite take_app_le' by done.
  rewrite Hsig, Hv, Hrev, Hloc, Hpk, Hd, Hown, Hser, Hnx, Hfl, Hc, Hep, Hsq, Hwin, Hgen, Hrw.
  cbn [negb Z.eqb Pos.eqb].
  rewrite (proj2 (Z.eqb_neq _ _) Hr0), (proj2 (Z.ltb_ge _ _)) by lia. cbn [orb].
  rewrite !bool_decide_true by done. cbn [negb].
  rewrite (proj2 (Z.eqb_neq serial 0)), (proj2 (Z.leb_gt next serial)) by lia. cbn [orb].
  destruct c as [c|]; cbn [default Z.eqb andb]; [done |]. by rewrite bool_decide_true.
Qed.

Lemma durable_bytes local peer serial d :
  durable_generation_for local peer serial = Some d ->
  length d = 16%nat /\ Evidence.from_owner_bytes d = Some d.
Proof.
  unfold durable_generation_for. intros Hd. assert (d = take 16 (sha256 (PEER_GENERATION_DOMAIN ++ local ++ peer ++ to_be 8 serial))) as ->.
  { unfold Evidence.from_owner_bytes in Hd. case_decide; by simplify_eq. }
  split; [| done]. rewrite length_take, sha256_len. done.
Qed.

Lemma reachable_identity w id st : reachable w id st -> st.(link).(identity) = id.
Proof.
  intros (st0 & Hn & Hs). pose proof (link_new_inv _ _ _ Hn) as I.
  destruct (link_steps_ok _ _ Hs I) as [_ E]. rewrite (ev_identity _ _ E).
  unfold new in Hn. destruct (arc_new w). destruct (Evidence.clock_new _) as [[c|] p]; [| done].
  by injection Hn as <-.
Qed.

(** What [persist_peer_trust_state] wrote when it succeeded. *)
Lemma persist_inv l iid rev record out n out' :
  persist_peer_trust_state l iid rev record out = (Ok n, out') ->
  rev <> 0 /\ exists t rs parts, l.(peers) !! iid = Some t /\ l.(pinned) !! iid = Some (pubkey_of t) /\
    Protector.peers l.(replay) !! pubkey_of t = Some rs /\
    Replay.persistent_parts rs.(Protector.window) = Some parts /\
    let body := trust_body l rev t rs.(Protector.last_epoch) parts record in
    n = (length body + 48)%nat /\ take n out' = body ++ sign_digest l body.
Proof.
  unfold persist_peer_trust_state. destruct (rev =? 0) eqn:Hr; [done |]. bool_to_prop.
  destruct (peers l !! iid) as [t|] eqn:Ht; [| done].
  destruct (pinned l !! iid) as [k|] eqn:Hk; [| done].
  destruct (negb _) eqn:Hp; [done |]. bool_to_prop. apply bool_decide_eq_true in Hp as ->.
  destruct (Protector.peers _ !! _) as [rs|] eqn:Hrs; [| done].
  destruct (Replay.persistent_parts _) as [parts|] eqn:Hparts; [| done].
  intros Hw. split; [done |]. exists t, rs, parts. do 4 (split; [done |]).
  revert Hw. generalize (trust_body l rev t (Protector.last_epoch rs) parts record). intros body.
  destruct (_ <? _)%nat eqn:Hlt; [done |]. bool_to_prop. intros [= <- <-].
  split; [done |]. rewrite inserts_adjacent by done.
  assert (length (body ++ sign_digest l body) = (length body + 48)%nat) as Hlen
    by (unfold sign_digest; by rewrite length_app, sign_len).
  rewrite inserts_front by (rewrite Hlen; unfold TRUST_STATE_SIGNATURE_LEN in Hlt; lia).
  by apply take_app_le'.
Qed.

(** A link without the peer and with room for one has no pin for it and room
    in its replay table. *)
Lemma room_to_restore st iid : inv st -> st.(link).(peers) !! iid = None ->
  (size st.(link).(peers) < st.(link).(max_peers))%nat ->
  st.(link).(pinned) !! iid = None /\ (size (replay_of st) < Protector.max_peers st.(link).(replay))%nat.
Proof.
  intros I Hnone Hroom. split.
  - destruct (pinned (link st) !! iid) eqn:Hk; [| done].
    destruct (inv_pin _ (inv_core _ I) _ _ Hk) as [_ [v Hv]]. by rewrite Hnone in Hv.
  - rewrite (inv_max _ (inv_core _ I)). eapply Nat.le_lt_trans; [| exact Hroom].
    rewrite <- size_dom. apply (tracked_size st). intros pk [q Hq]%elem_of_dom.
    destruct (inv_tracked _ (inv_core _ I) _ _ Hq) as (u & ? & ?). eauto.
Qed.

(** trust survives a restart.  What one process life of an identity
    seals for a peer, a later one restores (given a revision that is not
    rolled back, room in the table and no conflicting entry): the same key is
    configured and pinned with the same durable generation and serial, the
    floor record is required by its digest, and the replay window is the one
    that was sealed, so nothing accepted before the restart is accepted
    again. *)
Lemma trust_roundtrip (w w' : World) (seed : Seed) (st st' : LinkState) (iid : bytes)
  (rev min : Z) (record : option bytes) (out out' : bytes) (n : nat) (g : Z) (w2 : World)
  (t : TrackedPeer) (rs : Protector.PeerReplayState)
  (Hr : reachable w (from_seed seed) st) (Hr' : reachable w' (from_seed seed) st')
  (Hp : persist_peer_trust_state st.(link) iid rev record out = (Ok n, out'))
  (Ht : st.(link).(peers) !! iid = Some t) (Hrs : replay_of st !! pubkey_of t = Some rs)
  (Hrev : is_u64 rev) (Hmin : min <= rev) (Hpk : length (pubkey_of t) = 32%nat)
  (Hseq : is_u16 (Replay.last_seq (Protector.window rs)))
  (Hroom : (size st'.(link).(peers) < st'.(link).(max_peers))%nat)
  (Hnone : st'.(link).(peers) !! iid = None)
  (Hgen : allocate_generation st'.(world) = Some (g, w2)) :
  exists st'' t'' rs'', restore_peer_trust_state st' (take n out') min = (Ok rev, st'') /\
    st''.(link).(peers) !! iid = Some t'' /\ t''.(tp_identity) = t.(tp_identity) /\
    t''.(durable_key_generation) = t.(durable_key_generation) /\
    t''.(durable_generation_serial) = t.(durable_generation_serial) /\
    t''.(required_schc_floor_commitment) = sha256 <$> record /\
    st''.(link).(pinned) !! iid = Some (pubkey_of t) /\
    replay_of st'' !! pubkey_of t = Some rs'' /\
    rs''.(Protector.last_epoch) = rs.(Protector.last_epoch) /\
    rs''.(Protector.window) = rs.(Protector.window).
Proof.
  pose proof (reachable_inv _ _ _ Hr) as I. pose proof (reachable_inv _ _ _ Hr') as I'.
  pose proof (reachable_durable _ _ _ Hr) as D.
  pose proof (reachable_identity _ _ _ Hr) as Hid. pose proof (reachable_identity _ _ _ Hr') as Hid'.
  destruct (persist_inv _ _ _ _ _ _ _ Hp) as (Hr0 & t2 & rs2 & [seq win] & Ht2 & _ & Hrs2 & Hparts & -> & ->).
  rewrite Ht in Ht2. injection Ht2 as <-. rewrite Hrs in Hrs2. injection Hrs2 as <-.
  destruct (do_peer _ D _ _ Ht) as [Hd Hser]. destruct (durable_bytes _ _ _ _ Hd) as [Hdl Hown].
  pose proof (do_next _ D) as Hnx.
  destruct (inv_hist _ (inv_core _ I) _ _ Hrs) as [hist Hrep].
  assert (Replay.initialised (Protector.window rs) = true /\ seq = Replay.last_seq (Protector.window rs)
          /\ win = Replay.window (Protector.window rs)) as (Hinit & -> & ->).
  { unfold Replay.persistent_parts in Hparts. destruct (Replay.initialised _); by simplify_eq. }
  pose proof (Protector.pr_window _ _ Hrep) as Htr. unfold Replay.repr in Htr. rewrite Hinit in Htr.
  pose proof (Replay.persistent_roundtrip _ _ _ _ Htr Hinit Hparts) as Hrw.
  assert (id_pubkey (identity (link st)) = id_pubkey (identity (link st'))) as Hkeys by congruence.
  assert (length (id_pubkey (identity (link st))) = 32%nat) as Hkl.
  { rewrite Hid. unfold from_seed. pose proof (pubkey_len seed) as Hx. by destruct (derive_keypair seed). }
  assert (seeded (link st)) as Hsd by (by exists seed).
  set (body := trust_body _ _ _ _ _ _).
  assert (parse_trust_record (link st') (body ++ sign_digest (link st) body) min = Ok
    {| tr_revision := rev; tr_peer_key := pubkey_of t; tr_durable := durable_key_generation t;
       tr_serial := durable_generation_serial t; tr_next_serial := next_durable_generation (link st);
       tr_commitment := sha256 <$> record; tr_last_epoch := Protector.last_epoch rs;
       tr_window := Protector.window rs |}) as Hparse.
  { eapply parse_sealed; rewrite <- ?Hkeys; try done.
    - apply trust_body_fields; try done; [width | width | apply Htr].
    - unfold verify_profile_message, sign_digest. rewrite sign_len. apply (sign_digest_verifies (link st) body Hsd).
    - apply sign_len. }
  pose proof (inv_peer _ (inv_core _ I) _ _ Ht) as Hok.
  pose proof (po_iid _ _ _ Hok) as Hiid.
  destruct (room_to_restore st' iid I' Hnone Hroom) as [Hnp Hrsz].
  unfold restore_peer_trust_state. rewrite Hparse. cbn [tr_peer_key pi_iid pi_pubkey from_pubkey].
  rewrite <- Hiid, Hnone, Hnp, Hgen.
  rewrite (proj2 (Nat.leb_gt _ _)), (proj2 (Nat.leb_gt _ _)) by done.
  rewrite !bool_decide_false by (by intros []). cbn [orb].
  eexists _, _, _. split; [done |]. simpl. rewrite !lookup_insert_eq.
  split; [done |]. split; [symmetry; apply Hok |]. done.
Qed.

(** restoring fails closed.  Whatever the record, an error leaves the
    link and the process exactly as they were; success means that the record
    has the exact length, carries this identity's valid signature over its
    whole body and names a nonzero revision that is not below the required
    one. *)
Lemma restore_fails_closed (st : LinkState) (record : bytes) (min : Z) :
  let '(r, st') := restore_peer_trust_state st record min in
  match r with
  | Err _ => st' = st
  | Ok rev => length record = 214%nat /\ rev <> 0 /\ min <= rev /\
      rev = from_be (slice 22 30 record) /\ slice 30 62 record = st.(link).(identity).(id_pubkey) /\
      schnorr_verify st.(link).(identity).(id_pubkey) (take 166 record) (drop 166 record) = true
  end.
Proof.
  unfold restore_peer_trust_state. destruct (parse_trust_record _ _ _) as [tr | e] eqn:Hp; [| done].
  destruct (_ || _); [done |]. destruct (allocate_generation _) as [[g w]|]; [| done]. cbn [arc_new].
  revert Hp. unfold parse_trust_record. change (length TRUST_STATE_DOMAIN + TAIL_LEN)%nat with 166%nat.
  change (length TRUST_STATE_DOMAIN) with 21%nat. cbn [Nat.add].
  destruct (negb (length record =? _)%nat) eqn:Hl; [done |].
  destruct (negb (verify_profile_message _ _ _)) eqn:Hv; [done |].
  destruct (negb (nth 21 _ _ =? 1)); [done |].
  destruct (_ || _) eqn:Hrev; [done |]. destruct (negb (bool_decide _)) eqn:Hk; [done |].
  apply orb_false_iff in Hrev as [Hr0 Hrmin]. bool_to_prop. apply bool_decide_eq_true in Hk.
  assert (forall i j, (j <= 166)%nat -> slice i j (take 166 record) = slice i j record) as Hs.
  { intros i j Hj. unfold slice. rewrite skipn_firstn_comm, take_take. f_equal. lia. }
  rewrite Hs in Hk, Hr0, Hrmin by lia. intros Hp.
  assert (tr_revision tr = from_be (slice 22 30 record)) as ->.
  { repeat case_match; try done; apply ok_inj in Hp as <-; cbn [tr_revision]; by rewrite Hs by lia. }
  unfold verify_profile_message in Hv. destruct (_ =? _)%nat in Hv; [| done]. done.
Qed.
End trust.

(** ** Applied to a concrete link *)

Import LinkDemo.

Definition sealed : bytes := snd (persist_peer_trust_state alice_rx.(link) bob_peer.(pi_iid) 5 None (replicate 300 0)).

Definition bob_replay : Protector.PeerReplayState :=
  default (Protector.state_new 0 0) (replay_of alice_rx !! bob.(id_pubkey)).
Definition bob_tracked_rx : TrackedPeer :=
  default bob_tracked (alice_rx.(link).(peers) !! bob_peer.(pi_iid)).
Definition alice_next : Z * World := default (0, world0) (allocate_generation alice_new.(world)).

Lemma alice_new_reachable : reachable world0 alice alice_new.
Proof. exists alice_new. split; [vm_compute; reflexivity | apply rtc_refl]. Qed.
Lemma alice_rx_reachable : reachable world0 alice alice_rx.
Proof. eapply reachable_step; [exact alice_link_reachable |]. eapply step_receive, rx1. Qed.
End LinkTrust.
