(* ===== verification/Slip.v ===== *)
(** * SLIP framing

    lichen-kiss/src/slip.rs: the buffer-oriented RFC 1055 codec of the local
    client interface.  Indexing past a slice and a failed [debug_assert_eq!]
    are panics, the outer [None]. *)

From S2P Require Import Prelude.

Module Slip.

Definition END : Z := 192.
Definition ESC : Z := 219.
Definition ESC_END : Z := 220.
Definition ESC_ESC : Z := 221.

Inductive Error :=
  | LengthOverflow
  | SL_BufferTooSmall (needed : nat)
  | FrameTooShort
  | MissingStart
  | MissingEnd
  | UnexpectedEnd
  | TruncatedEscape
  | InvalidEscape (b : Z).

Section slip.
Context `{Usize}.

Definition encoded_len (data : bytes) : result Error nat :=
  let escaped_bytes := length (filter (fun b => b = END \/ b = ESC) data) in
  match (n ← checked_add usize_max (Z.of_nat (length data)) (Z.of_nat escaped_bytes);
         checked_add usize_max n 2) with
  | Some n => Ok (Z.to_nat n)
  | None => Err LengthOverflow
  end.

(** [out[i] = v]. *)
Definition store (i : nat) (v : Z) (out : bytes) : option bytes :=
  if (i <? length out)%nat then Some (<[i := v]> out) else None.

(** The [for] loop of [encode]. *)
Fixpoint encode_loop (data : bytes) (position : nat) (out : bytes) : option (nat * bytes) :=
  match data with
  | [] => Some (position, out)
  | byte :: data =>
      if byte =? END then
        out ← store position ESC out;
        out ← store (position + 1) ESC_END out;
        encode_loop data (position + 2) out
      else if byte =? ESC then
        out ← store position ESC out;
        out ← store (position + 1) ESC_ESC out;
        encode_loop data (position + 2) out
      else
        out ← store position byte out;
        encode_loop data (position + 1) out
  end.

Definition encode (data out : bytes) : option (result Error nat * bytes) :=
  match encoded_len data with
  | Err e => Some (Err e, out)
  | Ok needed =>
      if (length out <? needed)%nat then Some (Err (SL_BufferTooSmall needed), out)
      else
        out ← store 0 END out;
        '(position, out) ← encode_loop data 1 out;
        out ← store position END out;
        if (position + 1 =? needed)%nat then Some (Ok needed, out) else None
  end.

(** The [while] loop of [decoded_len] from the current position on. *)
Fixpoint decoded_len_loop (payload : bytes) (len : nat) : result Error nat :=
  match payload with
  | [] => Ok len
  | b :: rest =>
      if b =? END then Err UnexpectedEnd
      else if b =? ESC then
        match rest with
        | [] => Err TruncatedEscape
        | escaped :: rest' =>
            if negb (escaped =? ESC_END) && negb (escaped =? ESC_ESC) then Err (InvalidEscape escaped)
            else decoded_len_loop rest' (S len)
        end
      else decoded_len_loop rest (S len)
  end.
Definition decoded_len (payload : bytes) : result Error nat := decoded_len_loop payload 0.

(** The writing loop of [decode]. *)
Fixpoint decode_loop (payload : bytes) (output_position : nat) (out : bytes) : option (nat * bytes) :=
  match payload with
  | [] => Some (output_position, out)
  | byte :: rest =>
      if byte =? ESC then
        match rest with
        | [] => None
        | escaped :: rest' =>
            out ← store output_position (if escaped =? ESC_END then END else ESC) out;
            decode_loop rest' (output_position + 1) out
        end
      else
        out ← store output_position byte out;
        decode_loop rest (output_position + 1) out
  end.

Definition decode (frame out : bytes) : option (result Error nat * bytes) :=
  if (length frame <? 2)%nat then Some (Err FrameTooShort, out)
  else if negb (nth 0 frame 0 =? END) then Some (Err MissingStart, out)
  else if negb (nth (length frame - 1) frame 0 =? END) then Some (Err MissingEnd, out)
  else
    let payload := slice 1 (length frame - 1) frame in
    match decoded_len payload with
    | Err e => Some (Err e, out)
    | Ok needed =>
        if (length out <? needed)%nat then Some (Err (SL_BufferTooSmall needed), out)
        else
          '(output_position, out) ← decode_loop payload 0 out;
          if (output_position =? needed)%nat then Some (Ok needed, out) else None
    end.

(** ** The frame of a byte string *)

Definition escape (b : Z) : bytes :=
  if b =? END then [ESC; ESC_END] else if b =? ESC then [ESC; ESC_ESC] else [b].
Definition escaped (data : bytes) : bytes := data ≫= escape.
Definition frame_of (data : bytes) : bytes := END :: escaped data ++ [END].

Lemma escaped_cons b data : escaped (b :: data) = escape b ++ escaped data.
Proof. done. Qed.

Lemma length_escaped data :
  length (escaped data) = (length data + length (filter (fun b => b = END \/ b = ESC) data))%nat.
Proof.
  induction data as [|b data IH]; [done |].
  rewrite escaped_cons, length_app, IH, filter_cons. unfold escape.
  case_decide as Hd; simpl.
  - destruct Hd as [-> | ->]; simpl; lia.
  - rewrite (proj2 (Z.eqb_neq _ _)), (proj2 (Z.eqb_neq _ _)) by tauto. simpl. lia.
Qed.

Lemma length_frame_of data : length (frame_of data) = (2 + length (escaped data))%nat.
Proof. unfold frame_of. rewrite length_cons, length_app. simpl. lia. Qed.

(** The length is representable or the encoder says so. *)
Lemma encoded_len_spec data :
  encoded_len data = if Z.of_nat (length (frame_of data)) <=? usize_max
                     then Ok (length (frame_of data)) else Err LengthOverflow.
Proof.
  rewrite length_frame_of, length_escaped. unfold encoded_len, checked_add.
  destruct (_ + _ <=? usize_max) eqn:E1; cbn [mbind option_bind]; bool_to_prop.
  - destruct (_ + 2 <=? usize_max) eqn:E2; bool_to_prop.
    + rewrite (proj2 (Z.leb_le _ _)) by lia. f_equal. lia.
    + by rewrite (proj2 (Z.leb_gt _ _)) by lia.
  - by rewrite (proj2 (Z.leb_gt _ _)) by lia.
Qed.

(** ** Writing at a cursor *)

Lemma store_at (done : bytes) x v rest :
  store (length done) v (done ++ x :: rest) = Some (done ++ v :: rest).
Proof.
  unfold store. rewrite length_app. simpl.
  rewrite (proj2 (Nat.ltb_lt _ _)) by lia. by rewrite insert_app_r_alt, Nat.sub_diag by lia.
Qed.

Lemma store_at' (done : bytes) x v rest i :
  i = length done -> store i v (done ++ x :: rest) = Some (done ++ v :: rest).
Proof. intros ->. apply store_at. Qed.

Lemma store_pair {A} (done : bytes) x1 x2 rest u v (k : bytes -> option A) :
  (out ← store (length done) u (done ++ x1 :: x2 :: rest);
   out ← store (length done + 1) v out; k out) = k (done ++ u :: v :: rest).
Proof.
  rewrite store_at. cbn [mbind option_bind].
  rewrite (app_assoc done [u] (x2 :: rest) : done ++ u :: x2 :: rest = _).
  rewrite store_at' by (rewrite length_app; simpl; lia). cbn [mbind option_bind].
  by rewrite <- app_assoc.
Qed.

Lemma encode_loop_spec data : forall done rest,
  (length (escaped data) <= length rest)%nat ->
  encode_loop data (length done) (done ++ rest) =
    Some ((length done + length (escaped data))%nat,
          done ++ escaped data ++ drop (length (escaped data)) rest).
Proof.
  induction data as [|b data IH]; intros done rest Hr; simpl.
  - by rewrite drop_0, Nat.add_0_r.
  - rewrite escaped_cons, length_app in *.
    assert (forall pre suf n, escape b = pre -> rest = suf ++ drop n rest -> n = length pre ->
      encode_loop data (length done + n) (done ++ pre ++ drop n rest) =
      Some ((length done + (length (escape b) + length (escaped data)))%nat,
        done ++ (escape b ++ escaped data) ++ drop (length (escape b) + length (escaped data)) rest)) as Hgo.
    { intros pre suf n Hpre _ ->. rewrite Hpre in *.
      specialize (IH (done ++ pre) (drop (length pre) rest)). rewrite length_drop in IH.
      rewrite length_app, <- app_assoc, drop_drop in IH. rewrite IH by lia.
      rewrite <- !app_assoc. do 2 f_equal; lia. }
    unfold escape in *. destruct (b =? END); [| destruct (b =? ESC)]; simpl in Hr.
    + destruct rest as [|x1 [|x2 rest]]; simpl in Hr; [lia | lia |].
      rewrite store_pair. by apply (Hgo [ESC; ESC_END] [x1; x2] 2%nat).
    + destruct rest as [|x1 [|x2 rest]]; simpl in Hr; [lia | lia |].
      rewrite store_pair. by apply (Hgo [ESC; ESC_ESC] [x1; x2] 2%nat).
    + destruct rest as [|x1 rest]; simpl in Hr; [lia |].
      rewrite store_at. by apply (Hgo [b] [x1] 1%nat).
Qed.

(** The encoder on every input. *)
Lemma encode_spec data out :
  encode data out =
    Some (if Z.of_nat (length (frame_of data)) <=? usize_max then
            if (length (frame_of data) <=? length out)%nat
            then (Ok (length (frame_of data)), frame_of data ++ drop (length (frame_of data)) out)
            else (Err (SL_BufferTooSmall (length (frame_of data))), out)
          else (Err LengthOverflow, out)).
Proof.
  unfold encode. rewrite encoded_len_spec. destruct (_ <=? usize_max); [| done].
  rewrite Nat.ltb_antisym. destruct (_ <=? length out)%nat eqn:Hl; [| done]. cbn [negb]. bool_to_prop.
  rewrite length_frame_of in *. destruct out as [|x out]; simpl in Hl; [lia |].
  rewrite (store_at [] x END out : store 0 END (x :: out) = Some (END :: out)). cbn [mbind option_bind].
  change (encode_loop data 1 (END :: out)) with (encode_loop data (length [END]) ([END] ++ out)).
  rewrite encode_loop_spec by lia.
  cbn [mbind option_bind length].
  destruct (drop (length (escaped data)) out) as [|y rest] eqn:Hd.
  { apply (f_equal length) in Hd. rewrite length_drop in Hd. simpl in Hd. lia. }
  rewrite (app_assoc [END] (escaped data) (y :: rest)).
  rewrite store_at' by (rewrite length_app; done). cbn [mbind option_bind].
  rewrite (proj2 (Nat.eqb_eq _ _)) by lia. do 2 f_equal. unfold frame_of.
  change (END :: escaped data ++ [END]) with ([END] ++ escaped data ++ [END]).
  rewrite <- !app_assoc. simpl. do 3 f_equal.
  apply (f_equal (drop 1)) in Hd. rewrite drop_drop in Hd. simpl in Hd.
  rewrite Nat.add_comm in Hd. by rewrite drop_0 in Hd.
Qed.

(** ** Decoding *)

(** The payload a string was escaped to, or why it is not one. *)
Lemma decoded_len_escaped data n : decoded_len_loop (escaped data) n = Ok (n + length data)%nat.
Proof.
  revert n. induction data as [|b data IH]; intros n; [simpl; f_equal; lia |].
  rewrite escaped_cons. unfold escape.
  destruct (b =? END) eqn:E1; [| destruct (b =? ESC) eqn:E2]; simpl; rewrite ?E1, ?E2, IH; f_equal; lia.
Qed.

Lemma decoded_len_inv k : forall payload n m, (length payload <= k)%nat ->
  decoded_len_loop payload n = Ok m -> exists data, payload = escaped data.
Proof.
  induction k as [|k IH]; intros [|b rest] n m Hk; simpl in *; try (by exists []); [lia |].
  destruct (b =? END) eqn:E1; [done |]. destruct (b =? ESC) eqn:E2.
  - destruct rest as [|e rest]; [done |]. destruct (_ && _) eqn:E3; [done |].
    intros Hd. destruct (IH rest (S n) m) as [data ->]; [simpl in Hk; lia | done |].
    bool_to_prop. subst b. apply andb_false_iff in E3 as [E3 | E3]; bool_to_prop; subst e;
      [by exists (END :: data) | by exists (ESC :: data)].
  - intros Hd. destruct (IH rest (S n) m) as [data ->]; [lia | done |].
    exists (b :: data). rewrite escaped_cons. unfold escape. by rewrite E1, E2.
Qed.

Lemma decode_loop_spec data : forall done rest,
  (length data <= length rest)%nat ->
  decode_loop (escaped data) (length done) (done ++ rest) =
    Some ((length done + length data)%nat, done ++ data ++ drop (length data) rest).
Proof.
  induction data as [|b data IH]; intros done rest Hr; [by rewrite Nat.add_0_r |].
  destruct rest as [|x rest]; simpl in Hr; [lia |].
  specialize (IH (done ++ [b]) rest ltac:(lia)). rewrite length_app, <- !app_assoc in IH. simpl in IH.
  rewrite escaped_cons. unfold escape.
  destruct (b =? END) eqn:E1; [| destruct (b =? ESC) eqn:E2]; bool_to_prop; subst;
    cbn [app decode_loop]; simpl (_ =? _); cbn match; rewrite ?(proj2 (Z.eqb_neq _ _) E2);
    rewrite store_at; cbn [mbind option_bind]; rewrite IH; do 2 f_equal; simpl; lia.
Qed.

Lemma frame_payload data :
  length (frame_of data) <> 0%nat /\ (length (frame_of data) <? 2)%nat = false /\
  nth 0 (frame_of data) 0 = END /\ nth (length (frame_of data) - 1) (frame_of data) 0 = END /\
  slice 1 (length (frame_of data) - 1) (frame_of data) = escaped data.
Proof.
  rewrite length_frame_of. split; [lia |]. split; [done |]. split; [done |]. split.
  - apply (nth_app_eq (END :: escaped data) []); [done |]. simpl. lia.
  - apply (slice_app_eq [END] (escaped data) [END]); [done | done |]. simpl. lia.
Qed.

(** A frame between delimiters: the middle is the payload. *)
Lemma delimited frame :
  (2 <= length frame)%nat -> nth 0 frame 0 = END -> nth (length frame - 1) frame 0 = END ->
  frame = END :: slice 1 (length frame - 1) frame ++ [END].
Proof.
  destruct frame as [|x rest]; simpl; [lia |]. intros Hl -> Hlast. f_equal.
  destruct rest as [|y mid _] using rev_ind; [simpl in Hl; lia |].
  assert (length (mid ++ [y]) = S (length mid)) as Hlen by (rewrite length_app; simpl; lia).
  rewrite Hlen in *. cbn [Nat.sub] in *. rewrite nth_middle in Hlast. subst y.
  unfold slice. simpl. rewrite ?drop_0, ?Nat.sub_0_r. by rewrite take_app_length.
Qed.

Lemma decode_frame data out :
  decode (frame_of data) out =
    Some (if (length data <=? length out)%nat
          then (Ok (length data), data ++ drop (length data) out)
          else (Err (SL_BufferTooSmall (length data)), out)).
Proof.
  destruct (frame_payload data) as (_ & H1 & H2 & H3 & H4). unfold decode.
  rewrite H1, H2, H3, H4. cbn [negb Z.eqb END Pos.eqb].
  unfold decoded_len. rewrite decoded_len_escaped. cbn [Nat.add].
  rewrite Nat.ltb_antisym. destruct (_ <=? _)%nat eqn:Hl; [| done]. cbn [negb]. bool_to_prop.
  change out with ([] ++ out) at 1. change 0%nat with (length ([] : bytes)) at 1.
  rewrite decode_loop_spec by done. cbn [mbind option_bind length Nat.add]. by rewrite Nat.eqb_refl.
Qed.

(** SLIP round trip.  What [encode] wrote, [decode] returns, byte for
    byte, in any buffer that holds the data; the encoder wrote exactly the
    length it reported and the bytes after it are untouched. *)
Lemma slip_roundtrip (data out out' buf : bytes) (n : nat)
  (He : encode data out = Some (Ok n, out')) (Hb : (length data <= length buf)%nat) :
  decode (take n out') buf = Some (Ok (length data), data ++ drop (length data) buf) /\
  drop n out' = drop n out /\ (n <= 2 * length data + 2)%nat.
Proof.
  rewrite encode_spec in He. destruct (_ <=? usize_max); [| done].
  destruct (_ <=? length out)%nat; [| done]. apply (inj Some), pair_eq in He as [<-%ok_inj <-].
  rewrite take_app_length, drop_app_length, decode_frame.
  rewrite (proj2 (Nat.leb_le _ _) Hb). split; [done |]. split; [done |].
  rewrite length_frame_of, length_escaped.
  pose proof (length_filter (fun b => b = END \/ b = ESC) data). lia.
Qed.

(** the decoder accepts exactly the encoder's frames.  It never panics;
    success means that the frame is the encoding of the bytes it stored in
    front of an otherwise untouched buffer; failure leaves the buffer as it
    was and happens on an encoding only when the buffer cannot hold it. *)
Lemma slip_decode_exact (frame out : bytes) :
  exists r out', decode frame out = Some (r, out') /\
    match r with
    | Ok n => exists data, frame = frame_of data /\ n = length data /\ out' = data ++ drop n out
    | Err _ => out' = out /\ forall data, frame = frame_of data -> (length out < length data)%nat
    end.
Proof.
  destruct (length frame <? 2)%nat eqn:G1.
  { exists (Err FrameTooShort), out. split; [unfold decode; by rewrite G1 |]. split; [done |].
    intros data ->. by rewrite (proj1 (proj2 (frame_payload data))) in G1. }
  destruct (nth 0 frame 0 =? END) eqn:G2.
  2: { exists (Err MissingStart), out. split; [unfold decode; by rewrite G1, G2 |]. split; [done |].
       intros data ->. by destruct (frame_payload data) as (_ & _ & F & _); rewrite F in G2. }
  destruct (nth (length frame - 1) frame 0 =? END) eqn:G3.
  2: { exists (Err MissingEnd), out. split; [unfold decode; by rewrite G1, G2, G3 |]. split; [done |].
       intros data ->. by destruct (frame_payload data) as (_ & _ & _ & F & _); rewrite F in G3. }
  destruct (decoded_len (slice 1 (length frame - 1) frame)) as [m | e] eqn:G4.
  2: { exists (Err e), out. split; [unfold decode; by rewrite G1, G2, G3, G4 |]. split; [done |].
       intros data ->. destruct (frame_payload data) as (_ & _ & _ & _ & F). unfold decoded_len in G4.
       by rewrite F, decoded_len_escaped in G4. }
  destruct (decoded_len_inv _ _ _ _ (le_n _) G4) as [data Hpay]. bool_to_prop.
  assert (frame = frame_of data) as -> by (unfold frame_of; rewrite <- Hpay; by apply delimited).
  rewrite decode_frame. eexists _, _. split; [apply (f_equal Some), surjective_pairing |].
  destruct (_ <=? _)%nat eqn:Hl; simpl; [eauto |]. bool_to_prop. split; [done |].
  intros data' Heq. assert (escaped data' = escaped data) as Hesc.
  { destruct (frame_payload data) as (_ & _ & _ & _ & <-), (frame_payload data') as (_ & _ & _ & _ & <-).
    by rewrite Heq. }
  pose proof (decoded_len_escaped data 0) as D1. pose proof (decoded_len_escaped data' 0) as D2.
  rewrite Hesc, D1 in D2. simplify_eq/=. lia.
Qed.

End slip.

End Slip.
