(* ===== verification/Coap.v ===== *)
(** * The CoAP message codec

    lichen-coap/src/codec.rs with the types of message.rs and option.rs: the
    zero-copy parser, its option iterator, and the builder.  The parser adds
    269 to a two-byte option delta in [u16]; [overflow_checks] says whether
    the build traps an overflow (the outer [None], as for an index out of
    range) or wraps. *)

From S2P Require Import Prelude.

Module Coap.

Inductive MessageType := Confirmable | NonConfirmable | Acknowledgement | Reset.
Definition type_u8 (t : MessageType) : Z :=
  match t with Confirmable => 0 | NonConfirmable => 1 | Acknowledgement => 2 | Reset => 3 end.

(** [MessageCode] is its byte. *)
Definition class (code : Z) : Z := Z.shiftr code 5.
Definition detail (code : Z) : Z := Z.land code 31.

Inductive OptionNumber :=
  | IfMatch | UriHost | ETag | IfNoneMatch | Observe | UriPort | LocationPath | Oscore | UriPath
  | ContentFormat | MaxAge | UriQuery | Accept | LocationQuery | Block2 | Block1 | Size2 | ProxyUri
  | ProxyScheme | Size1.
Definition option_u16 (o : OptionNumber) : Z :=
  match o with
  | IfMatch => 1 | UriHost => 3 | ETag => 4 | IfNoneMatch => 5 | Observe => 6 | UriPort => 7
  | LocationPath => 8 | Oscore => 9 | UriPath => 11 | ContentFormat => 12 | MaxAge => 14
  | UriQuery => 15 | Accept => 17 | LocationQuery => 20 | Block2 => 23 | Block1 => 27 | Size2 => 28
  | ProxyUri => 35 | ProxyScheme => 39 | Size1 => 60
  end.

Definition COAP_VERSION : Z := 1.
Definition MIN_HEADER_LEN : nat := 4.
Definition MAX_TOKEN_LEN : nat := 8.
Definition PAYLOAD_MARKER : Z := 255.

Inductive CoapError :=
  | CE_TooShort (e : TooShort)
  | WrongVersion (v : Z)
  | TokenTooLong (n : Z)
  | InvalidOptionDelta
  | InvalidOptionLength
  | TruncatedOption
  | InvalidPayloadMarker
  | CE_BufferTooSmall (e : BufferTooSmall)
  | InvalidBlockOption
  | UintOptionTooLong
  | CE_PayloadTooLarge
  | BlockOutOfOrder
  | OptionNumberOverflow.

Record CoapPacket := {
  data : bytes;
  options_start : nat;
  options_end : nat;
  payload_start : nat
}.

Record CoapOption := { number : Z; value : bytes }.

Section codec.
Variable overflow_checks : bool.

(** [a + b] in [u16]. *)
Definition add_u16 (a b : Z) : option Z :=
  if a + b <=? u16_max then Some (a + b)
  else if overflow_checks then None else Some (wrap16 (a + b)).

(** The extended delta of an option whose first byte had the nibble [n]; the
    offset after it. *)
Definition ext_delta (data : bytes) (i : nat) (n : Z) : option (result CoapError (Z * nat)) :=
  if n =? 13 then
    if (length data <=? i)%nat then Some (Err TruncatedOption)
    else b ← data !! i; Some (Ok (b + 13, (i + 1)%nat))
  else if n =? 14 then
    if (length data <=? i + 1)%nat then Some (Err TruncatedOption)
    else
      hi ← data !! i;
      lo ← data !! (i + 1)%nat;
      d ← add_u16 (Z.lor (Z.shiftl hi 8) lo) 269;
      Some (Ok (d, (i + 2)%nat))
  else if n =? 15 then Some (Err InvalidOptionDelta)
  else Some (Ok (n, i)).

(** The extended length, in [usize], where 65535 + 269 does not overflow. *)
Definition ext_len (data : bytes) (i : nat) (n : Z) : option (result CoapError (nat * nat)) :=
  if n =? 13 then
    if (length data <=? i)%nat then Some (Err TruncatedOption)
    else b ← data !! i; Some (Ok (Z.to_nat (b + 13), (i + 1)%nat))
  else if n =? 14 then
    if (length data <=? i + 1)%nat then Some (Err TruncatedOption)
    else
      hi ← data !! i;
      lo ← data !! (i + 1)%nat;
      Some (Ok (Z.to_nat (Z.lor (Z.shiftl hi 8) lo + 269), (i + 2)%nat))
  else if n =? 15 then Some (Err InvalidOptionLength)
  else Some (Ok (Z.to_nat n, i)).

(** The [while] loop of [find_payload_marker]; every round advances [i], so
    the rounds are at most the length of the data and the one that leaves the
    loop. *)
Fixpoint find_loop (fuel : nat) (data : bytes) (i : nat) (current_number : Z)
  : option (result CoapError (option nat)) :=
  match fuel with
  | O => Some (Ok None)
  | S fuel =>
      if (length data <=? i)%nat then Some (Ok None)
      else
      first ← data !! i;
      if first =? PAYLOAD_MARKER then Some (Ok (Some i))
      else
      let delta_nibble := Z.land (Z.shiftr first 4) 15 in
      let len_nibble := Z.land first 15 in
      rd ← ext_delta data (i + 1) delta_nibble;
      match rd with
      | Err e => Some (Err e)
      | Ok (delta, i) =>
          match checked_add u16_max current_number delta with
          | None => Some (Err OptionNumberOverflow)
          | Some current_number =>
              rl ← ext_len data i len_nibble;
              match rl with
              | Err e => Some (Err e)
              | Ok (opt_len, i) =>
                  let i := (i + opt_len)%nat in
                  if (length data <? i)%nat then Some (Err TruncatedOption)
                  else find_loop fuel data i current_number
              end
          end
      end
  end.

Definition find_payload_marker (data : bytes) : option (result CoapError (option nat)) :=
  find_loop (S (length data)) data 0 0.

Definition from_bytes (data : bytes) : option (result CoapError CoapPacket) :=
  if (length data <? MIN_HEADER_LEN)%nat then
    Some (Err (CE_TooShort {| expected := MIN_HEADER_LEN; actual := length data |}))
  else
  first ← data !! 0%nat;
  let ver := Z.shiftr first 6 in
  if negb (ver =? COAP_VERSION) then Some (Err (WrongVersion ver))
  else
  let tkl := Z.to_nat (Z.land first 15) in
  if (MAX_TOKEN_LEN <? tkl)%nat then Some (Err (TokenTooLong (wrap8 (Z.of_nat tkl))))
  else
  let options_start := (MIN_HEADER_LEN + tkl)%nat in
  if (length data <? options_start)%nat then
    Some (Err (CE_TooShort {| expected := options_start; actual := length data |}))
  else
  r ← find_payload_marker (drop options_start data);
  match r with
  | Err e => Some (Err e)
  | Ok (Some off) =>
      let payload_start := (options_start + off + 1)%nat in
      if (payload_start =? length data)%nat then Some (Err InvalidPayloadMarker)
      else Some (Ok {| data := data; options_start := options_start;
                       options_end := (options_start + off)%nat; payload_start := payload_start |})
  | Ok None =>
      Some (Ok {| data := data; options_start := options_start;
                  options_end := length data; payload_start := length data |})
  end.

(** ** Accessors *)

Definition msg_type (p : CoapPacket) : option MessageType :=
  b ← p.(data) !! 0%nat;
  let v := Z.land (Z.shiftr b 4) 3 in
  Some (if v =? 0 then Confirmable else if v =? 1 then NonConfirmable
        else if v =? 2 then Acknowledgement else Reset).
Definition code (p : CoapPacket) : option Z := p.(data) !! 1%nat.
Definition message_id (p : CoapPacket) : option Z :=
  hi ← p.(data) !! 2%nat; lo ← p.(data) !! 3%nat; Some (from_be [hi; lo]).
Definition token (p : CoapPacket) : bytes := slice MIN_HEADER_LEN p.(options_start) p.(data).
Definition payload (p : CoapPacket) : bytes :=
  if (p.(payload_start) <? length p.(data))%nat then drop p.(payload_start) p.(data) else [].
Definition is_request (p : CoapPacket) : option bool :=
  c ← code p; Some ((class c =? 0) && (0 <? detail c)).
Definition is_success (p : CoapPacket) : option bool := c ← code p; Some (class c =? 2).

(** ** The option iterator *)

Record OptionIterator := { it_data : bytes; offset : nat; current_number : Z }.

Definition options (p : CoapPacket) : OptionIterator :=
  {| it_data := slice p.(options_start) p.(options_end) p.(data); offset := 0; current_number := 0 |}.
Definition iter_from_bytes (data : bytes) : OptionIterator :=
  {| it_data := data; offset := 0; current_number := 0 |}.

Definition at_offset (it : OptionIterator) (i : nat) : OptionIterator :=
  {| it_data := it.(it_data); offset := i; current_number := it.(current_number) |}.

(** [Iterator::next]: the item and the iterator after it. *)
Definition next (it : OptionIterator) : option (option (result CoapError CoapOption) * OptionIterator) :=
  if (length it.(it_data) <=? it.(offset))%nat then Some (None, it)
  else
  first ← it.(it_data) !! it.(offset);
  if first =? PAYLOAD_MARKER then Some (None, it)
  else
  let delta_nibble := Z.land (Z.shiftr first 4) 15 in
  let len_nibble := Z.land first 15 in
  let i := (it.(offset) + 1)%nat in
  rd ← ext_delta it.(it_data) i delta_nibble;
  match rd with
  | Err e => Some (Some (Err e), at_offset it i)
  | Ok (delta, i) =>
      rl ← ext_len it.(it_data) i len_nibble;
      match rl with
      | Err e => Some (Some (Err e), at_offset it i)
      | Ok (len, i) =>
          if (length it.(it_data) <? i + len)%nat then Some (Some (Err TruncatedOption), at_offset it i)
          else
          match checked_add u16_max it.(current_number) delta with
          | None => Some (Some (Err OptionNumberOverflow), at_offset it i)
          | Some new_number =>
              Some (Some (Ok {| number := new_number; value := slice i (i + len) it.(it_data) |}),
                    {| it_data := it.(it_data); offset := (i + len)%nat; current_number := new_number |})
          end
      end
  end.

(** What a loop over the iterator sees, for at most [fuel] items. *)
Fixpoint collect (fuel : nat) (it : OptionIterator) : option (list (result CoapError CoapOption)) :=
  match fuel with
  | O => Some []
  | S fuel =>
      '(item, it) ← next it;
      match item with
      | None => Some []
      | Some o => rest ← collect fuel it; Some (o :: rest)
      end
  end.

(** The integer of at most four big-endian bytes, in [u32]. *)
Definition be_uint (data : bytes) : Z := foldl (fun val b => Z.lor (wrap32 (Z.shiftl val 8)) b) 0 data.

Definition as_uint (o : CoapOption) : result CoapError Z :=
  if (4 <? length o.(value))%nat then Err UintOptionTooLong
  else Ok (be_uint o.(value)).
Definition is_uri_path (o : CoapOption) : bool := o.(number) =? option_u16 UriPath.
Definition is_content_format (o : CoapOption) : bool := o.(number) =? option_u16 ContentFormat.
Definition is_proxy_uri (o : CoapOption) : bool := o.(number) =? option_u16 ProxyUri.

(** ** The builder *)

Record CoapBuilder := { out : bytes; pos : nat; last_option_number : Z; options_done : bool }.

Definition builder_new (out : bytes) (t : MessageType) (code message_id : Z) (token : bytes)
  : option (result CoapError CoapBuilder) :=
  let tkl := length token in
  if (MAX_TOKEN_LEN <? tkl)%nat then Some (Err (TokenTooLong (wrap8 (Z.of_nat tkl))))
  else
  let header_len := (MIN_HEADER_LEN + tkl)%nat in
  if (length out <? header_len)%nat then
    Some (Err (CE_BufferTooSmall {| required := header_len; provided := length out |}))
  else
  out ← copy_in 0 [Z.lor (Z.lor (wrap8 (Z.shiftl COAP_VERSION 6)) (wrap8 (Z.shiftl (type_u8 t) 4))) (Z.of_nat tkl)] out;
  out ← copy_in 1 [code] out;
  out ← copy_in 2 (to_be 2 message_id) out;
  out ← copy_in MIN_HEADER_LEN token out;
  Some (Ok {| out := out; pos := header_len; last_option_number := 0; options_done := false |}).

Definition option_encoding_len (delta : Z) (value_len : nat) : nat :=
  let delta_ext := if delta <? 13 then 0%nat else if delta <? 269 then 1%nat else 2%nat in
  let len_ext := if (value_len <? 13)%nat then 0%nat else if (value_len <? 269)%nat then 1%nat else 2%nat in
  (1 + delta_ext + len_ext + value_len)%nat.

(** The nibble of a delta or length and its one-byte extension. *)
Definition nibble_ext (x : Z) : Z * option Z :=
  if x <? 13 then (wrap8 x, None) else if x <? 269 then (13, Some (wrap8 (x - 13))) else (14, None).

(** Writes the extension of the nibble [n] at [pos]. *)
Definition write_ext (n : Z) (ext1 : option Z) (x : Z) (pos : nat) (out : bytes) : option (nat * bytes) :=
  if n =? 13 then
    b ← ext1;
    out ← copy_in pos [b] out;
    Some ((pos + 1)%nat, out)
  else if n =? 14 then
    let ext := x - 269 in
    out ← copy_in pos [wrap8 (Z.shiftr ext 8)] out;
    out ← copy_in (pos + 1) [wrap8 ext] out;
    Some ((pos + 2)%nat, out)
  else Some (pos, out).

Definition write_option (out : bytes) (delta : Z) (value : bytes) : option (nat * bytes) :=
  let '(delta_nibble, delta_ext) := nibble_ext delta in
  let len := Z.of_nat (length value) in
  let '(len_nibble, len_ext) := nibble_ext len in
  out ← copy_in 0 [Z.lor (wrap8 (Z.shiftl delta_nibble 4)) len_nibble] out;
  '(pos, out) ← write_ext delta_nibble delta_ext delta 1 out;
  '(pos, out) ← write_ext len_nibble len_ext len pos out;
  out ← copy_in pos value out;
  Some ((pos + length value)%nat, out).

Definition add_option (b : CoapBuilder) (number : Z) (value : bytes) : option (result CoapError unit * CoapBuilder) :=
  if b.(options_done) then Some (Err InvalidOptionDelta, b)
  else if number <? b.(last_option_number) then Some (Err InvalidOptionDelta, b)
  else
  let delta := number - b.(last_option_number) in
  let needed := option_encoding_len delta (length value) in
  if (length b.(out) <? b.(pos) + needed)%nat then
    Some (Err (CE_BufferTooSmall {| required := b.(pos) + needed; provided := length b.(out) |}), b)
  else
  '(n, tail) ← write_option (drop b.(pos) b.(out)) delta value;
  Some (Ok tt, {| out := take b.(pos) b.(out) ++ tail; pos := b.(pos) + n;
                  last_option_number := number; options_done := b.(options_done) |}).

Definition uri_path (b : CoapBuilder) (segment : bytes) := add_option b (option_u16 UriPath) segment.

Definition content_format (b : CoapBuilder) (format : Z) :=
  let bytes := to_be 2 format in
  let value := if format =? 0 then [] else if format <=? 255 then slice 1 2 bytes else slice 0 2 bytes in
  add_option b (option_u16 ContentFormat) value.

Definition add_payload (b : CoapBuilder) (data : bytes) : option (result CoapError unit * CoapBuilder) :=
  match data with
  | [] => Some (Ok tt, {| out := b.(out); pos := b.(pos); last_option_number := b.(last_option_number);
                          options_done := true |})
  | _ =>
      let needed := (b.(pos) + 1 + length data)%nat in
      if (length b.(out) <? needed)%nat then
        Some (Err (CE_BufferTooSmall {| required := needed; provided := length b.(out) |}), b)
      else
      out ← copy_in b.(pos) [PAYLOAD_MARKER] b.(out);
      let pos := (b.(pos) + 1)%nat in
      out ← copy_in pos data out;
      Some (Ok tt, {| out := out; pos := (pos + length data)%nat;
                      last_option_number := b.(last_option_number); options_done := true |})
  end.

Definition finish (b : CoapBuilder) : nat := b.(pos).
Definition as_bytes (b : CoapBuilder) : bytes := take b.(pos) b.(out).

(** ** The option encoding *)

Definition nibble (x : Z) : Z := if x <? 13 then x else if x <? 269 then 13 else 14.
Definition ext_bytes (x : Z) : bytes :=
  if x <? 13 then [] else if x <? 269 then [x - 13] else to_be 2 (x - 269).

Definition opt_bytes (delta : Z) (v : bytes) : bytes :=
  let len := Z.of_nat (length v) in
  (nibble delta * 16 + nibble len) :: ext_bytes delta ++ ext_bytes len ++ v.

Fixpoint opts_bytes (prev : Z) (opts : list CoapOption) : bytes :=
  match opts with
  | [] => []
  | o :: opts => opt_bytes (o.(number) - prev) o.(value) ++ opts_bytes o.(number) opts
  end.

(** Option numbers in order from [prev], and values the format can carry. *)
Fixpoint in_order (prev : Z) (opts : list CoapOption) : Prop :=
  match opts with
  | [] => True
  | o :: opts => prev <= o.(number) <= u16_max /\ Z.of_nat (length o.(value)) <= 65804 /\ in_order o.(number) opts
  end.

Lemma lor_be hi lo : is_u8 lo -> Z.lor (Z.shiftl hi 8) lo = hi * 256 + lo.
Proof. intros Hlo. rewrite lor_shiftl; [done | lia | change (2 ^ 8) with 256; width]. Qed.

Lemma low_nibble x : Z.land x 15 = x mod 16.
Proof. change 15 with (Z.ones 4). by rewrite Z.land_ones. Qed.
Lemma high_nibble x : Z.land (Z.shiftr x 4) 15 = x / 16 mod 16.
Proof. change 15 with (2 ^ 4 - 1). by rewrite bit_field. Qed.

Lemma nibble_range x : 0 <= x -> 0 <= nibble x <= 14.
Proof. intros. unfold nibble. split_ifs; lia. Qed.

Lemma head_nibbles a b : 0 <= a <= 14 -> 0 <= b <= 14 ->
  (a * 16 + b =? PAYLOAD_MARKER) = false /\
  Z.land (Z.shiftr (a * 16 + b) 4) 15 = a /\ Z.land (a * 16 + b) 15 = b.
Proof.
  intros Ha Hb. rewrite high_nibble, low_nibble. unfold PAYLOAD_MARKER.
  split; [apply Z.eqb_neq; lia |]. split; Z.to_euclidean_division_equations; lia.
Qed.

(** The two extension bytes of a value of at least 269. *)
Lemma ext_two x : 269 <= x <= 65804 ->
  exists hi lo, to_be 2 (x - 269) = [hi; lo] /\ is_u8 lo /\ hi * 256 + lo = x - 269.
Proof.
  intros Hx. exists ((x - 269) / 256 mod 256), ((x - 269) mod 256). split; [done |].
  assert (0 <= (x - 269) / 256 < 256) by (split; [apply Z.div_pos | apply Z.div_lt_upper_bound]; lia).
  rewrite (Z.mod_small (_ / 256)) by lia. pose proof (Z.div_mod (x - 269) 256 ltac:(lia)).
  pose proof (Z.mod_pos_bound (x - 269) 256 ltac:(lia)). split; width.
Qed.

Lemma ext_delta_enc pre rest d : 0 <= d <= u16_max ->
  ext_delta (pre ++ ext_bytes d ++ rest) (length pre) (nibble d) =
  Some (Ok (d, (length pre + length (ext_bytes d))%nat)).
Proof.
  intros Hd. unfold ext_delta, ext_bytes, nibble. destruct (d <? 13) eqn:E1; bool_to_prop.
  { rewrite !(proj2 (Z.eqb_neq d _)) by lia. by rewrite Nat.add_0_r. }
  destruct (d <? 269) eqn:E2; bool_to_prop; cbn [Z.eqb Pos.eqb].
  - rewrite !length_app. cbn [length app]. rewrite (proj2 (Nat.leb_gt _ _)) by lia.
    rewrite list_lookup_middle by done. cbn [mbind option_bind]. do 3 f_equal. lia.
  - destruct (ext_two d ltac:(width)) as (hi & lo & -> & Hlo & Hv). rewrite !length_app. cbn [length app].
    rewrite (proj2 (Nat.leb_gt _ _)) by lia. rewrite (list_lookup_middle pre (lo :: rest) hi (length pre)) by done.
    cbn [mbind option_bind].
    replace (pre ++ hi :: lo :: rest) with ((pre ++ [hi]) ++ lo :: rest) by (by rewrite <- app_assoc).
    rewrite list_lookup_middle by (by rewrite length_app). cbn [mbind option_bind].
    rewrite lor_be, Hv by done. unfold add_u16. rewrite (proj2 (Z.leb_le _ _)) by width.
    cbn [mbind option_bind]. do 3 f_equal. lia.
Qed.

Lemma ext_len_enc pre rest n : Z.of_nat n <= 65804 ->
  ext_len (pre ++ ext_bytes (Z.of_nat n) ++ rest) (length pre) (nibble (Z.of_nat n)) =
  Some (Ok (n, (length pre + length (ext_bytes (Z.of_nat n)))%nat)).
Proof.
  intros Hn. set (d := Z.of_nat n). assert (0 <= d <= 65804) as Hd by lia.
  replace n with (Z.to_nat d) by lia. clearbody d. clear Hn n.
  unfold ext_len, ext_bytes, nibble. destruct (d <? 13) eqn:E1; bool_to_prop.
  { rewrite !(proj2 (Z.eqb_neq d _)) by lia. by rewrite Nat.add_0_r. }
  destruct (d <? 269) eqn:E2; bool_to_prop; cbn [Z.eqb Pos.eqb].
  - rewrite !length_app. cbn [length app]. rewrite (proj2 (Nat.leb_gt _ _)) by lia.
    rewrite list_lookup_middle by done. cbn [mbind option_bind]. do 4 f_equal. lia.
  - destruct (ext_two d ltac:(width)) as (hi & lo & -> & Hlo & Hv). rewrite !length_app. cbn [length app].
    rewrite (proj2 (Nat.leb_gt _ _)) by lia. rewrite (list_lookup_middle pre (lo :: rest) hi (length pre)) by done.
    cbn [mbind option_bind].
    replace (pre ++ hi :: lo :: rest) with ((pre ++ [hi]) ++ lo :: rest) by (by rewrite <- app_assoc).
    rewrite list_lookup_middle by (by rewrite length_app). cbn [mbind option_bind].
    rewrite lor_be, Hv by done. do 4 f_equal. lia.
Qed.

(** ** Reading encoded options *)

(** Where the parts of an encoded option lie. *)
Lemma opt_layout pre d v rest :
  let len := Z.of_nat (length v) in
  let all := pre ++ opt_bytes d v ++ rest in
  let i1 := (length pre + 1)%nat in
  let i2 := (i1 + length (ext_bytes d))%nat in
  let i3 := (i2 + length (ext_bytes len))%nat in
  0 <= d <= u16_max -> len <= 65804 ->
  all !! length pre = Some (nibble d * 16 + nibble len) /\
  ext_delta all i1 (nibble d) = Some (Ok (d, i2)) /\
  ext_len all i2 (nibble len) = Some (Ok (length v, i3)) /\
  slice i3 (i3 + length v) all = v /\
  (i3 + length v)%nat = length (pre ++ opt_bytes d v) /\
  (length pre < length (pre ++ opt_bytes d v) <= length all)%nat.
Proof.
  intros len all i1 i2 i3 Hd Hlen. unfold all, opt_bytes. fold len. cbn [app].
  set (h := nibble d * 16 + nibble len).
  assert (pre ++ h :: (ext_bytes d ++ ext_bytes len ++ v) ++ rest =
          (pre ++ [h]) ++ ext_bytes d ++ (ext_bytes len ++ v ++ rest)) as E1.
  { rewrite <- !app_assoc. done. }
  assert (pre ++ h :: (ext_bytes d ++ ext_bytes len ++ v) ++ rest =
          (pre ++ [h] ++ ext_bytes d) ++ ext_bytes len ++ (v ++ rest)) as E2.
  { rewrite <- !app_assoc. done. }
  split; [by apply list_lookup_middle |].
  split. { rewrite E1. replace i1 with (length (pre ++ [h])) by (rewrite length_app; done).
           rewrite ext_delta_enc by done. do 3 f_equal. subst i2 i1. rewrite length_app. done. }
  split. { rewrite E2. replace i2 with (length (pre ++ [h] ++ ext_bytes d))
             by (rewrite !length_app; subst i2 i1; simpl; lia).
           rewrite (ext_len_enc _ _ (length v)) by done. fold len. do 3 f_equal. subst i3 i2 i1. rewrite !length_app. simpl. lia. }
  split.
  { eapply (slice_app_eq (pre ++ [h] ++ ext_bytes d ++ ext_bytes len) v rest).
    - rewrite <- !app_assoc. done.
    - rewrite !length_app. subst i3 i2 i1. simpl. lia.
    - rewrite !length_app. subst i3 i2 i1. simpl. lia. }
  rewrite !length_app. cbn [length]. rewrite !length_app. subst i3 i2 i1. lia.
Qed.

Lemma next_enc pre d v rest cur :
  0 <= d -> 0 <= cur -> cur + d <= u16_max -> Z.of_nat (length v) <= 65804 ->
  next {| it_data := pre ++ opt_bytes d v ++ rest; offset := length pre; current_number := cur |} =
  Some (Some (Ok {| number := cur + d; value := v |}),
        {| it_data := pre ++ opt_bytes d v ++ rest; offset := length (pre ++ opt_bytes d v);
           current_number := cur + d |}).
Proof.
  intros Hd Hc Hcd Hv. destruct (opt_layout pre d v rest) as (H1 & H2 & H3 & H4 & H5 & H6); [lia | done |].
  unfold next. cbn [it_data offset current_number]. rewrite (proj2 (Nat.leb_gt _ _)) by lia.
  rewrite H1. cbn [mbind option_bind].
  destruct (head_nibbles (nibble d) (nibble (Z.of_nat (length v)))) as (-> & -> & ->);
    [apply nibble_range; lia | apply nibble_range; lia |].
  rewrite H2. cbn [mbind option_bind]. rewrite H3. cbn [mbind option_bind].
  rewrite (proj2 (Nat.ltb_ge _ _)) by lia. unfold checked_add. rewrite (proj2 (Z.leb_le _ _)) by lia.
  rewrite H4, H5. done.
Qed.

Lemma find_enc fuel pre d v rest cur :
  0 <= d -> 0 <= cur -> cur + d <= u16_max -> Z.of_nat (length v) <= 65804 ->
  find_loop (S fuel) (pre ++ opt_bytes d v ++ rest) (length pre) cur =
  find_loop fuel (pre ++ opt_bytes d v ++ rest) (length (pre ++ opt_bytes d v)) (cur + d).
Proof.
  intros Hd Hc Hcd Hv. destruct (opt_layout pre d v rest) as (H1 & H2 & H3 & H4 & H5 & H6); [lia | done |].
  cbn [find_loop]. rewrite (proj2 (Nat.leb_gt _ _)) by lia. rewrite H1. cbn [mbind option_bind].
  destruct (head_nibbles (nibble d) (nibble (Z.of_nat (length v)))) as (-> & -> & ->);
    [apply nibble_range; lia | apply nibble_range; lia |].
  rewrite H2. cbn [mbind option_bind]. unfold checked_add at 1. rewrite (proj2 (Z.leb_le _ _)) by lia.
  rewrite H3. cbn [mbind option_bind]. rewrite (proj2 (Nat.ltb_ge _ _)) by lia. by rewrite H5.
Qed.

Lemma collect_opts opts : forall fuel pre cur, (length opts < fuel)%nat -> 0 <= cur -> in_order cur opts ->
  collect fuel {| it_data := pre ++ opts_bytes cur opts; offset := length pre; current_number := cur |} =
  Some (Ok <$> opts).
Proof.
  induction opts as [|o opts IH]; intros fuel pre cur Hf Hc Ho; (destruct fuel as [|fuel]; [lia |]).
  - cbn [collect opts_bytes]. unfold next. cbn [it_data offset]. rewrite app_nil_r, Nat.leb_refl. done.
  - destruct Ho as (Hn & Hv & Ho). cbn [collect opts_bytes fmap list_fmap map length] in *.
    rewrite next_enc by (done || lia). cbn [mbind option_bind].
    replace (cur + (number o - cur)) with (number o) by lia. rewrite app_assoc.
    rewrite IH by (done || lia). by destruct o.
Qed.

Lemma find_opts opts : forall fuel pre cur tail,
  (length opts < fuel)%nat -> 0 <= cur -> in_order cur opts ->
  (match tail with [] => True | b :: _ => b = PAYLOAD_MARKER end) ->
  find_loop fuel (pre ++ opts_bytes cur opts ++ tail) (length pre) cur =
  Some (Ok (match tail with [] => None | _ => Some (length (pre ++ opts_bytes cur opts)) end)).
Proof.
  induction opts as [|o opts IH]; intros fuel pre cur tail Hf Hc Ho Ht; (destruct fuel as [|fuel]; [lia |]).
  - cbn [find_loop opts_bytes app]. rewrite app_nil_r, length_app. destruct tail as [|b tail].
    + by rewrite (proj2 (Nat.leb_le _ _)) by (simpl; lia).
    + rewrite (proj2 (Nat.leb_gt _ _)) by (simpl; lia). rewrite list_lookup_middle by done.
      cbn [mbind option_bind]. subst b. done.
  - destruct Ho as (Hn & Hv & Ho). cbn [opts_bytes length] in *. rewrite <- app_assoc.
    rewrite find_enc by (done || lia). replace (cur + (number o - cur)) with (number o) by lia.
    rewrite (app_assoc pre (opt_bytes _ _)). rewrite IH by (done || lia). by rewrite <- app_assoc.
Qed.

(** ** Writing options *)

Lemma nibble_ext_spec x : 0 <= x ->
  nibble_ext x = (nibble x, if nibble x =? 13 then Some (wrap8 (x - 13)) else None).
Proof.
  intros Hx. unfold nibble_ext, nibble. destruct (x <? 13) eqn:E; bool_to_prop; [| by destruct (x <? 269)].
  rewrite wrap8_small by width. by rewrite (proj2 (Z.eqb_neq x 13)) by lia.
Qed.

Lemma write_ext_spec x pre rest : 0 <= x <= 65804 -> (length (ext_bytes x) <= length rest)%nat ->
  write_ext (nibble x) (if nibble x =? 13 then Some (wrap8 (x - 13)) else None) x (length pre) (pre ++ rest) =
  Some ((length pre + length (ext_bytes x))%nat, pre ++ ext_bytes x ++ drop (length (ext_bytes x)) rest).
Proof.
  intros Hx Hl. unfold write_ext, nibble. unfold ext_bytes in *. destruct (x <? 13) eqn:E1; bool_to_prop.
  { rewrite !(proj2 (Z.eqb_neq x _)) by lia. by rewrite Nat.add_0_r. }
  destruct (x <? 269) eqn:E2; bool_to_prop; cbn [Z.eqb Pos.eqb].
  - cbn [mbind option_bind]. rewrite wrap8_small by width.
    rewrite copy_in_at by done. done.
  - cbn [length to_be app] in Hl. rewrite (copy_in_at pre) by (simpl; done || lia). cbn [mbind option_bind length].
    rewrite app_assoc, copy_in_at by (rewrite ?length_app, ?length_drop; simpl; lia).
    cbn [mbind option_bind length]. rewrite <- app_assoc, drop_drop. by rewrite Z.shiftr_div_pow2 by lia.
Qed.

Lemma length_opt_bytes d v : option_encoding_len d (length v) = length (opt_bytes d v).
Proof.
  unfold option_encoding_len, opt_bytes. cbn [length]. rewrite !length_app.
  assert (forall x, length (ext_bytes x) = if x <? 13 then 0%nat else if x <? 269 then 1%nat else 2%nat) as He.
  { intros x. unfold ext_bytes. by split_ifs. }
  rewrite !He. split_ifs; lia.
Qed.

Lemma write_option_spec d v rest : 0 <= d <= u16_max -> Z.of_nat (length v) <= 65804 ->
  (length (opt_bytes d v) <= length rest)%nat ->
  write_option rest d v = Some (length (opt_bytes d v), opt_bytes d v ++ drop (length (opt_bytes d v)) rest).
Proof.
  intros Hd Hv Hl. unfold write_option. rewrite !nibble_ext_spec by lia.
  set (len := Z.of_nat (length v)) in *. assert (0 <= len) by lia.
  unfold opt_bytes in *. fold len in Hl |- *. cbn [length] in *. rewrite !length_app in *.
  pose proof (nibble_range d ltac:(lia)) as Hnd. pose proof (nibble_range len ltac:(lia)) as Hnl.
  assert (Z.lor (wrap8 (Z.shiftl (nibble d) 4)) (nibble len) = nibble d * 16 + nibble len) as ->.
  { rewrite wrap8_small by (rewrite Z.shiftl_mul_pow2 by lia; change (2 ^ 4) with 16; width).
    rewrite lor_shiftl; [done | lia | change (2 ^ 4) with 16; lia]. }
  set (h := nibble d * 16 + nibble len). change rest with ([] ++ rest) at 1.
  rewrite copy_in_at by (simpl; done || lia). cbn [mbind option_bind app length].
  change (h :: drop 1 rest) with ([h] ++ drop 1 rest).
  change 1%nat with (length [h]) at 2.
  rewrite (write_ext_spec d [h]) by (width || (rewrite length_drop; simpl; lia)). cbn [mbind option_bind].
  rewrite app_assoc. replace (length [h] + length (ext_bytes d))%nat with (length ([h] ++ ext_bytes d)) by done.
  rewrite (write_ext_spec len) by (width || (rewrite !length_drop; simpl; lia)). cbn [mbind option_bind].
  rewrite (app_assoc ([h] ++ ext_bytes d)).
  rewrite copy_in_at by (rewrite ?length_app, ?length_drop; simpl; lia). cbn [mbind option_bind].
  f_equal. apply pair_eq. split; [simpl; lia |]. cbn [app]. rewrite <- !app_assoc. cbn [app].
  rewrite !drop_drop. repeat f_equal.
Qed.

(** A builder that has written [w] in front of [rest]. *)
Definition builder (w rest : bytes) (last : Z) (fin : bool) : CoapBuilder :=
  {| out := w ++ rest; pos := length w; last_option_number := last; options_done := fin |}.

Lemma add_option_spec w rest cur n v : 0 <= cur <= n -> n <= u16_max -> Z.of_nat (length v) <= 65804 ->
  (length (opt_bytes (n - cur) v) <= length rest)%nat ->
  add_option (builder w rest cur false) n v =
  Some (Ok tt, builder (w ++ opt_bytes (n - cur) v) (drop (length (opt_bytes (n - cur) v)) rest) n false).
Proof.
  intros Hc Hn Hv Hl. unfold add_option, builder. cbn [options_done last_option_number pos out].
  rewrite (proj2 (Z.ltb_ge _ _)) by lia. rewrite length_opt_bytes, length_app.
  rewrite (proj2 (Nat.ltb_ge _ _)) by lia. rewrite drop_app_length, take_app_length.
  rewrite write_option_spec by (width || done || lia). cbn [mbind option_bind].
  by rewrite <- app_assoc, length_app.
Qed.

Fixpoint add_options (b : CoapBuilder) (opts : list CoapOption) : option (result CoapError unit * CoapBuilder) :=
  match opts with
  | [] => Some (Ok tt, b)
  | o :: opts =>
      '(r, b) ← add_option b o.(number) o.(value);
      match r with Err e => Some (Err e, b) | Ok _ => add_options b opts end
  end.

Lemma add_options_spec opts : forall w rest cur, 0 <= cur -> in_order cur opts ->
  (length (opts_bytes cur opts) <= length rest)%nat ->
  exists last, add_options (builder w rest cur false) opts =
    Some (Ok tt, builder (w ++ opts_bytes cur opts) (drop (length (opts_bytes cur opts)) rest) last false).
Proof.
  induction opts as [|o opts IH]; intros w rest cur Hc Ho Hl; cbn [add_options opts_bytes] in *.
  { exists cur. by rewrite app_nil_r, drop_0. }
  destruct Ho as (Hn & Hv & Ho). rewrite length_app in Hl.
  rewrite add_option_spec by (done || lia). cbn [mbind option_bind].
  destruct (IH (w ++ opt_bytes (number o - cur) (value o)) (drop (length (opt_bytes (number o - cur) (value o))) rest)
    (number o)) as (last & ->); [lia | done | rewrite length_drop; lia |].
  exists last. by rewrite <- app_assoc, drop_drop, length_app.
Qed.

Lemma be_uint_spec l : bytes_ok l -> (length l <= 4)%nat -> be_uint l = from_be l.
Proof.
  induction l as [|b l IH] using rev_ind; intros Hl Hn; [done |].
  apply bytes_ok_snoc in Hl as [Hl Hb]. rewrite length_app in Hn. simpl in Hn.
  rewrite from_be_snoc, <- IH by (done || lia). unfold be_uint. rewrite foldl_app. cbn [foldl].
  fold (be_uint l). rewrite IH by (done || lia).
  assert (0 <= from_be l < 16777216) as Hlt.
  { pose proof (from_be_bound l Hl). assert (256 ^ Z.of_nat (length l) <= 256 ^ 3) by (apply Z.pow_le_mono_r; lia).
    change (256 ^ 3) with 16777216 in *. lia. }
  rewrite wrap32_small by (rewrite Z.shiftl_mul_pow2 by lia; change (2 ^ 8) with 256; width).
  by apply lor_be.
Qed.

(** ** Whole messages *)

Definition build (buf : bytes) (t : MessageType) (code message_id : Z) (token : bytes)
  (opts : list CoapOption) (data : bytes) : option (result CoapError CoapBuilder) :=
  r ← builder_new buf t code message_id token;
  match r with
  | Err e => Some (Err e)
  | Ok b =>
      '(r, b) ← add_options b opts;
      match r with
      | Err e => Some (Err e)
      | Ok _ => '(r, b) ← add_payload b data; Some (match r with Err e => Err e | Ok _ => Ok b end)
      end
  end.

Definition header (t : MessageType) (code message_id : Z) (token : bytes) : bytes :=
  [64 + type_u8 t * 16 + Z.of_nat (length token); code] ++ to_be 2 message_id ++ token.
Definition tail (data : bytes) : bytes := match data with [] => [] | _ => PAYLOAD_MARKER :: data end.

Lemma builder_new_spec buf t c id tok : (length tok <= 8)%nat -> (4 + length tok <= length buf)%nat ->
  builder_new buf t c id tok =
  Some (Ok (builder (header t c id tok) (drop (length (header t c id tok)) buf) 0 false)).
Proof.
  intros Ht Hb. unfold builder_new, MAX_TOKEN_LEN, MIN_HEADER_LEN.
  rewrite !(proj2 (Nat.ltb_ge _ _)) by lia.
  assert (Z.lor (Z.lor (wrap8 (Z.shiftl COAP_VERSION 6)) (wrap8 (Z.shiftl (type_u8 t) 4))) (Z.of_nat (length tok)) =
          64 + type_u8 t * 16 + Z.of_nat (length tok)) as ->.
  { replace (Z.lor _ (wrap8 (Z.shiftl (type_u8 t) 4))) with (Z.shiftl (4 + type_u8 t) 4) by (by destruct t).
    rewrite lor_shiftl; [| lia | change (2 ^ 4) with 16; lia]. change (2 ^ 4) with 16. lia. }
  set (h := 64 + _ + _). rewrite <- (app_nil_l buf) at 1. rewrite copy_in_at by (simpl; done || lia).
  cbn [mbind option_bind]. rewrite app_assoc, copy_in_at by (rewrite ?length_drop; simpl; done || lia).
  cbn [mbind option_bind]. rewrite app_assoc, copy_in_at by (rewrite ?length_drop; simpl; done || lia).
  cbn [mbind option_bind]. rewrite app_assoc, copy_in_at by (rewrite ?length_drop; simpl; done || lia).
  cbn [mbind option_bind]. unfold builder. do 3 f_equal.
  rewrite !drop_drop, app_assoc. done.
Qed.

Lemma add_payload_spec w rest last data : (length (tail data) <= length rest)%nat ->
  add_payload (builder w rest last false) data =
  Some (Ok tt, builder (w ++ tail data) (drop (length (tail data)) rest) last true).
Proof.
  intros Hl. destruct data as [|x data']; unfold add_payload.
  { unfold builder, tail. cbn [out pos last_option_number length]. by rewrite app_nil_r, drop_0. }
  remember (x :: data') as d. assert (tail d = PAYLOAD_MARKER :: d) as Htl by (by subst d).
  rewrite Htl in *. cbn [length] in Hl. unfold builder. cbn [out pos last_option_number].
  rewrite length_app, (proj2 (Nat.ltb_ge _ _)) by lia.
  rewrite copy_in_at by (simpl; done || lia). cbn [mbind option_bind].
  rewrite app_assoc, copy_in_at by (rewrite ?length_app, ?length_drop; simpl; lia). cbn [mbind option_bind].
  rewrite drop_drop. do 3 f_equal; rewrite ?length_app; simpl; [by rewrite <- !app_assoc | lia].
Qed.

Lemma length_opts_bytes cur opts : (length opts <= length (opts_bytes cur opts))%nat.
Proof.
  revert cur. induction opts as [|o opts IH]; intros cur; simpl; [lia |]. rewrite length_app.
  specialize (IH (number o)). lia.
Qed.

(** The packet of a message in the wire format. *)
Definition packet (t : MessageType) (c id : Z) (tok : bytes) (opts : list CoapOption) (payload : bytes) : CoapPacket :=
  {| data := header t c id tok ++ opts_bytes 0 opts ++ tail payload;
     options_start := (4 + length tok)%nat;
     options_end := (4 + length tok + length (opts_bytes 0 opts))%nat;
     payload_start := (4 + length tok + length (opts_bytes 0 opts) + length (take 1 (tail payload)))%nat |}.

Lemma length_header t c id tok : length (header t c id tok) = (4 + length tok)%nat.
Proof. unfold header. by rewrite !length_app, length_to_be. Qed.

Lemma length_packet t c id tok opts pl : length (packet t c id tok opts pl).(data) =
  (4 + length tok + (length (opts_bytes 0 opts) + length (tail pl)))%nat.
Proof. unfold packet. cbn [data]. rewrite !length_app, length_header. lia. Qed.

Lemma coap_parse_wire t c id tok opts pl : (length tok <= 8)%nat -> in_order 0 opts ->
  from_bytes (packet t c id tok opts pl).(data) = Some (Ok (packet t c id tok opts pl)).
Proof.
  intros Ht Ho. pose proof (length_packet t c id tok opts pl) as Hm.
  set (m := data (packet t c id tok opts pl)) in *.
  unfold from_bytes, MIN_HEADER_LEN, MAX_TOKEN_LEN. rewrite (proj2 (Nat.ltb_ge _ _)) by lia.
  set (h := 64 + type_u8 t * 16 + Z.of_nat (length tok)).
  assert (m !! 0%nat = Some h) as -> by done. cbn [mbind option_bind].
  assert (Z.shiftr h 6 = 1 /\ Z.land h 15 = Z.of_nat (length tok)) as [-> ->].
  { rewrite low_nibble, Z.shiftr_div_pow2 by lia. change (2 ^ 6) with 64. unfold h.
    assert (0 <= type_u8 t <= 3) by (destruct t; simpl; lia). Z.to_euclidean_division_equations. lia. }
  cbn [negb COAP_VERSION Z.eqb Pos.eqb]. rewrite Nat2Z.id. rewrite !(proj2 (Nat.ltb_ge _ _)) by lia.
  assert (drop (4 + length tok) m = opts_bytes 0 opts ++ tail pl) as ->.
  { unfold m, packet. cbn [data]. by rewrite <- (length_header t c id tok), drop_app_length. }
  unfold find_payload_marker.
  rewrite (find_opts opts _ [] 0 (tail pl)); [| | done | done | by destruct pl].
  2: { rewrite length_app. pose proof (length_opts_bytes 0 opts). lia. }
  cbn [mbind option_bind app]. unfold packet in *. destruct pl as [|x pl']; cbn [tail take length] in *.
  - subst m. cbn [data] in *. do 3 f_equal; lia.
  - by rewrite (proj2 (Nat.eqb_neq _ _)) by lia.
Qed.

Lemma packet_fields t c id tok opts pl : (length tok <= 8)%nat -> is_u16 id ->
  let p := packet t c id tok opts pl in
  msg_type p = Some t /\ code p = Some c /\ message_id p = Some id /\ token p = tok /\ payload p = pl.
Proof.
  intros Ht Hid p. pose proof (length_packet t c id tok opts pl) as Hm. fold p in Hm.
  split. { unfold msg_type. set (h := 64 + type_u8 t * 16 + Z.of_nat (length tok)).
    change (data p !! 0%nat) with (Some h). cbn [mbind option_bind]. f_equal.
    replace (Z.land _ 3) with (type_u8 t); [by destruct t |]. change 3 with (2 ^ 2 - 1). rewrite bit_field by lia.
    change (2 ^ 4) with 16. change (2 ^ 2) with 4. assert (0 <= type_u8 t <= 3) by (destruct t; simpl; lia).
    unfold h. Z.to_euclidean_division_equations. lia. }
  split; [done |].
  split. { unfold message_id. change (data p !! 2%nat) with (Some (id / 256 mod 256)).
    change (data p !! 3%nat) with (Some (id mod 256)).
    cbn [mbind option_bind]. f_equal. by apply (from_be_to_be_u16 id). }
  split. { unfold token. eapply (slice_app_eq ([64 + type_u8 t * 16 + Z.of_nat (length tok); c] ++ to_be 2 id) tok).
    - unfold p, packet, header. cbn [data]. by rewrite <- !app_assoc.
    - done.
    - done. }
  unfold payload. rewrite Hm. unfold p, packet. cbn [payload_start data]. rewrite app_assoc.
  destruct pl as [|x pl]; cbn [tail take length].
  - by rewrite (proj2 (Nat.ltb_ge _ _)) by lia.
  - rewrite (proj2 (Nat.ltb_lt _ _)) by lia. rewrite drop_app_ge by (rewrite length_app, length_header; lia).
    rewrite length_app, length_header. by replace (_ - _)%nat with 1%nat by lia.
Qed.

Lemma packet_options t c id tok opts pl fuel : in_order 0 opts -> (length opts < fuel)%nat ->
  collect fuel (options (packet t c id tok opts pl)) = Some (Ok <$> opts).
Proof.
  intros Ho Hf. unfold options.
  replace (slice _ _ _) with ([] ++ opts_bytes 0 opts); [by apply (collect_opts opts _ [] 0) |].
  symmetry. apply (slice_app_eq (header t c id tok) (opts_bytes 0 opts) (tail pl)); [done | |];
    by rewrite length_header.
Qed.

(** C38: CoAP round trip.  A message built from any token of at most eight bytes,
    options in order whose values the format can carry and any payload, in any
    buffer with room for it, is parsed back with the same type, code, message
    ID, token, payload and options; the bytes after the message are untouched.
    It holds whether or not arithmetic overflow is trapped. *)
Theorem coap_roundtrip (buf tok pl : bytes) (t : MessageType) (c id : Z) (opts : list CoapOption)
  (Ht : (length tok <= 8)%nat) (Hid : is_u16 id) (Ho : in_order 0 opts)
  (Hroom : (4 + length tok + length (opts_bytes 0 opts) + length (tail pl) <= length buf)%nat) :
  exists b p, build buf t c id tok opts pl = Some (Ok b) /\ from_bytes (as_bytes b) = Some (Ok p) /\
    msg_type p = Some t /\ code p = Some c /\ message_id p = Some id /\ token p = tok /\ payload p = pl /\
    collect (S (length opts)) (options p) = Some (Ok <$> opts) /\
    drop (finish b) b.(out) = drop (finish b) buf.
Proof.
  pose proof (length_header t c id tok) as Hh. unfold build. rewrite builder_new_spec by lia. cbn [mbind option_bind].
  destruct (add_options_spec opts (header t c id tok) (drop (length (header t c id tok)) buf) 0) as (last & ->);
    [lia | done | rewrite length_drop; lia |]. cbn [mbind option_bind].
  rewrite add_payload_spec by (rewrite !length_drop; lia). cbn [mbind option_bind].
  eexists _, (packet t c id tok opts pl). split; [done |].
  split. { unfold as_bytes, builder. cbn [out pos]. rewrite take_app_length, <- app_assoc. by apply coap_parse_wire. }
  destruct (packet_fields t c id tok opts pl Ht Hid) as (-> & -> & -> & -> & ->).
  rewrite packet_options by (done || lia). do 6 (split; [done |]).
  unfold builder. cbn [finish pos out]. rewrite drop_app_length, !drop_drop, !length_app. f_equal. lia.
Qed.

(** ** The two readers agree *)

Lemma add_u16_nonneg a b c : 0 <= a -> 0 <= b -> add_u16 a b = Some c -> 0 <= c.
Proof.
  unfold add_u16. intros ? ? Hs. destruct (_ <=? _); [simplify_eq; lia |].
  destruct overflow_checks; simplify_eq. pose proof (wrap16_u16 (a + b)). width.
Qed.

Lemma lookup_take_same (l : bytes) i e : (i < e)%nat -> take e l !! i = l !! i.
Proof. intros. by rewrite lookup_take_lt. Qed.

(** A successful read of an extension stays inside what it consumed. *)
Lemma ext_delta_prefix l i n d j : bytes_ok l -> 0 <= n -> ext_delta l i n = Some (Ok (d, j)) ->
  0 <= d /\ (i <= j <= Nat.max i (length l))%nat /\
  forall e, (j <= e)%nat -> ext_delta (take e l) i n = Some (Ok (d, j)).
Proof.
  intros Hb Hn. unfold ext_delta. destruct (n =? 13) eqn:E1; bool_to_prop.
  - destruct (length l <=? i)%nat eqn:E2; bool_to_prop; [done |].
    destruct (l !! i) as [b|] eqn:Hl; [| done]. cbn [mbind option_bind]. intros [= <- <-].
    pose proof (Forall_lookup_1 _ _ _ _ Hb Hl) as Hu. split; [width |]. split; [lia |]. intros e He.
    rewrite length_take, (proj2 (Nat.leb_gt _ _)) by lia. by rewrite lookup_take_same, Hl by lia.
  - destruct (n =? 14) eqn:E3; bool_to_prop.
    + destruct (length l <=? i + 1)%nat eqn:E2; bool_to_prop; [done |].
      destruct (l !! i) as [hi|] eqn:Hh; [| done]. cbn [mbind option_bind].
      destruct (l !! (i + 1)%nat) as [lo|] eqn:Hlo; [| done]. cbn [mbind option_bind].
      pose proof (Forall_lookup_1 _ _ _ _ Hb Hh) as Uh. pose proof (Forall_lookup_1 _ _ _ _ Hb Hlo) as Ul.
      destruct (add_u16 _ _) as [d'|] eqn:Ha; [| done]. cbn [mbind option_bind]. intros [= <- <-].
      split; [rewrite lor_be in Ha by done; apply add_u16_nonneg in Ha; width |]. split; [lia |]. intros e He.
      rewrite length_take, (proj2 (Nat.leb_gt _ _)) by lia. rewrite !lookup_take_same, Hh, Hlo by lia.
      cbn [mbind option_bind]. by rewrite Ha.
    + destruct (n =? 15); [done |]. intros [= <- <-]. split; [done |]. split; [lia |]. done.
Qed.

Lemma ext_len_prefix l i n d j : ext_len l i n = Some (Ok (d, j)) ->
  (i <= j <= Nat.max i (length l))%nat /\
  forall e, (j <= e)%nat -> ext_len (take e l) i n = Some (Ok (d, j)).
Proof.
  unfold ext_len. destruct (n =? 13) eqn:E1; bool_to_prop.
  - destruct (length l <=? i)%nat eqn:E2; bool_to_prop; [done |].
    destruct (l !! i) as [b|] eqn:Hl; [| done]. cbn [mbind option_bind]. intros [= <- <-].
    split; [lia |]. intros e He.
    rewrite length_take, (proj2 (Nat.leb_gt _ _)) by lia. by rewrite lookup_take_same, Hl by lia.
  - destruct (n =? 14) eqn:E3; bool_to_prop.
    + destruct (length l <=? i + 1)%nat eqn:E2; bool_to_prop; [done |].
      destruct (l !! i) as [hi|] eqn:Hh; [| done]. cbn [mbind option_bind].
      destruct (l !! (i + 1)%nat) as [lo|] eqn:Hlo; [| done]. cbn [mbind option_bind]. intros [= <- <-].
      split; [lia |]. intros e He.
      rewrite length_take, (proj2 (Nat.leb_gt _ _)) by lia. by rewrite !lookup_take_same, Hh, Hlo by lia.
    + destruct (n =? 15); [done |]. intros [= <- <-]. split; [lia |]. done.
Qed.

(** Option numbers do not decrease and fit [u16]. *)
Fixpoint ascending (prev : Z) (opts : list CoapOption) : Prop :=
  match opts with
  | [] => True
  | o :: opts => prev <= o.(number) <= u16_max /\ ascending o.(number) opts
  end.

(** One round of the marker search, read by the iterator over the options
    that precede the marker. *)
Lemma find_round fuel l i cur r first : bytes_ok l -> 0 <= cur -> (i < length l)%nat ->
  l !! i = Some first -> first <> PAYLOAD_MARKER -> find_loop (S fuel) l i cur = Some (Ok r) ->
  exists o j, (i < j <= length l)%nat /\ cur <= o.(number) <= u16_max /\
    find_loop fuel l j o.(number) = Some (Ok r) /\
    forall e, (j <= e)%nat -> next {| it_data := take e l; offset := i; current_number := cur |} =
      Some (Some (Ok o), {| it_data := take e l; offset := j; current_number := o.(number) |}).
Proof.
  intros Hb Hc Hi Hf Hne. cbn [find_loop]. rewrite (proj2 (Nat.leb_gt _ _)) by lia. rewrite Hf. cbn [mbind option_bind].
  rewrite (proj2 (Z.eqb_neq _ _)) by done.
  destruct (ext_delta l (i + 1) _) as [[[d j1]|e]|] eqn:Hd; [| done | done]. cbn [mbind option_bind].
  destruct (checked_add u16_max cur d) as [n|] eqn:Hn; [| done].
  destruct (ext_len l j1 _) as [[[len j2]|e]|] eqn:Hl; [| done | done]. cbn [mbind option_bind].
  destruct (_ <? _)%nat eqn:Hlt; bool_to_prop; [done |]. intros Hr.
  apply ext_delta_prefix in Hd as (Hd0 & Hj1 & Hdt); [| done | rewrite high_nibble; apply Z.mod_pos_bound; lia].
  apply ext_len_prefix in Hl as (Hj2 & Hlt').
  assert (n = cur + d /\ n <= u16_max) as [-> Hmax].
  { unfold checked_add in Hn. destruct (_ <=? _) eqn:E in Hn; bool_to_prop; simplify_eq. lia. }
  exists {| number := cur + d; value := slice j2 (j2 + len) l |}, (j2 + len)%nat. cbn [number].
  split; [lia |]. split; [lia |]. split; [done |]. intros e He.
  unfold next. cbn [it_data offset current_number]. rewrite length_take.
  rewrite (proj2 (Nat.leb_gt _ _)) by lia. rewrite lookup_take_same, Hf by lia. cbn [mbind option_bind].
  rewrite (proj2 (Z.eqb_neq _ _)) by done. rewrite Hdt by lia. cbn [mbind option_bind].
  rewrite Hlt' by lia. cbn [mbind option_bind]. rewrite (proj2 (Nat.ltb_ge _ _)) by lia. rewrite Hn.
  by rewrite slice_take by lia.
Qed.

(** From [i], the iterator over the bytes before [e] yields options and no
    error. *)
Definition reads (l : bytes) (i : nat) (cur : Z) (e : nat) : Prop :=
  exists opts, ascending cur opts /\ (length opts <= e - i)%nat /\
    forall fuel, (length opts < fuel)%nat ->
      collect fuel {| it_data := take e l; offset := i; current_number := cur |} = Some (Ok <$> opts).

Lemma reads_end l i cur : reads l i cur i.
Proof.
  exists []. split; [done |]. split; [simpl; lia |]. intros [|fuel] Hf; [simpl in Hf; lia |].
  cbn [collect]. unfold next. cbn [it_data offset].
  by rewrite (proj2 (Nat.leb_le _ _)) by (rewrite length_take; lia).
Qed.

Lemma find_valid l : bytes_ok l -> forall fuel i cur r,
  (length l < fuel + i)%nat -> (i <= length l)%nat -> 0 <= cur -> find_loop fuel l i cur = Some (Ok r) ->
  let e := default (length l) r in
  (i <= e <= length l)%nat /\ (r <> None -> l !! e = Some PAYLOAD_MARKER) /\ reads l i cur e.
Proof.
  intros Hb fuel. induction fuel as [|fuel IH]; intros i cur r Hf Hi Hc Hr e; [lia |].
  destruct (decide (i < length l)%nat) as [Hlt|Hge].
  2: { cbn [find_loop] in Hr. rewrite (proj2 (Nat.leb_le _ _)) in Hr by lia. simplify_eq. subst e. cbn [default].
       replace i with (length l) by lia. split; [lia |]. split; [done | apply reads_end]. }
  destruct (lookup_lt_is_Some_2 l i Hlt) as [first Hfirst].
  destruct (decide (first = PAYLOAD_MARKER)) as [->|Hne].
  { cbn [find_loop] in Hr. rewrite (proj2 (Nat.leb_gt _ _)), Hfirst in Hr by lia. cbn in Hr. simplify_eq.
    subst e. change (default (length l) (Some i)) with i. split; [lia |]. split; [done | apply reads_end]. }
  destruct (find_round fuel l i cur r first) as (o & j & Hj & Hn & Hr' & Hnext); [done.. |].
  destruct (IH j (number o) r) as (He & Hm & opts & Ha & Hlen & Hcol); [lia | lia | lia | done |].
  fold e in He, Hm, Hlen, Hcol. split; [lia |]. split; [done |].
  exists (o :: opts). split; [done |]. split; [simpl; lia |].
  intros [|fuel'] Hf'; [simpl in Hf'; lia |]. cbn [collect]. rewrite Hnext by lia. cbn [mbind option_bind].
  rewrite Hcol by (simpl in Hf'; lia). done.
Qed.

(** The layout of an accepted message. *)
Lemma coap_parse_inv m p : bytes_ok m -> from_bytes m = Some (Ok p) ->
  exists tkl e, (tkl <= 8)%nat /\ p.(data) = m /\ p.(options_start) = (4 + tkl)%nat /\
    (4 + tkl + e <= length m)%nat /\ p.(options_end) = (4 + tkl + e)%nat /\
    reads (drop (4 + tkl) m) 0 0 e /\
    m = take (4 + tkl) m ++ take e (drop (4 + tkl) m) ++ tail (payload p).
Proof.
  intros Hm Hp. unfold from_bytes, MIN_HEADER_LEN, MAX_TOKEN_LEN in Hp.
  destruct (_ <? _)%nat eqn:E1 in Hp; bool_to_prop; [done |].
  destruct (m !! 0%nat) as [first|]; [| done]. cbn [mbind option_bind] in Hp.
  destruct (negb _); [done |]. set (tkl := Z.to_nat (Z.land first 15)) in *.
  destruct (_ <? _)%nat eqn:E2 in Hp; bool_to_prop; [done |].
  destruct (_ <? _)%nat eqn:E3 in Hp; bool_to_prop; [done |].
  set (l := drop (4 + tkl) m) in *. assert (length l = length m - (4 + tkl))%nat as Hll by apply length_drop.
  destruct (find_payload_marker l) as [[r|er]|] eqn:Hfind; [| done | done]. cbn [mbind option_bind] in Hp.
  destruct (find_valid l ltac:(by apply Forall_drop) (S (length l)) 0 0 r ltac:(lia) ltac:(lia) ltac:(lia) Hfind)
    as (He & Hmark & Hreads). exists tkl, (default (length l) r). split; [done |].
  destruct r as [off|]; [change (default _ _) with off in * | change (default _ _) with (length l) in *].
  - destruct (_ =? _)%nat eqn:E4 in Hp; bool_to_prop; [done |]. apply (inj Some), ok_inj in Hp. subst p.
    specialize (Hmark ltac:(done)). apply lookup_lt_Some in Hmark as Hlt.
    split; [done |]. split; [done |]. split; [lia |]. split; [done |]. split; [done |].
    unfold payload. cbn [payload_start data]. rewrite (proj2 (Nat.ltb_lt _ _)) by lia.
    assert (drop off l = PAYLOAD_MARKER :: drop (4 + tkl + off + 1) m) as Hdrop.
    { rewrite (drop_S _ _ _ Hmark). unfold l. rewrite drop_drop. do 2 f_equal. lia. }
    assert (tail (drop (4 + tkl + off + 1) m) = drop off l) as ->.
    { rewrite Hdrop. destruct (drop (4 + tkl + off + 1) m) eqn:En; [| done].
      apply (f_equal length) in En. rewrite length_drop in En. simpl in En. lia. }
    rewrite take_drop. unfold l. by rewrite take_drop.
  - apply (inj Some), ok_inj in Hp. subst p. cbn [data options_start options_end].
    split; [done |]. split; [done |]. split; [lia |]. split; [lia |]. split; [done |].
    unfold payload. cbn [payload_start data]. rewrite Nat.ltb_irrefl. cbn [tail].
    rewrite app_nil_r, (take_ge l) by lia. unfold l. by rewrite take_drop.
Qed.

(** a message the parser accepts is well formed.  Iterating its options
    ends, yields no error and option numbers that never decrease and fit 16
    bits; header, token, options and payload are consecutive parts of the
    message, and a payload follows its marker and is not empty. *)
Lemma parsed_options_valid (m : bytes) (p : CoapPacket)
  (Hm : bytes_ok m) (Hp : from_bytes m = Some (Ok p)) :
  (length (token p) <= 8)%nat /\
  (exists opts, ascending 0 opts /\
     forall fuel, (length opts < fuel)%nat -> collect fuel (options p) = Some (Ok <$> opts)) /\
  m = take 4 m ++ token p ++ (options p).(it_data) ++ tail (payload p).
Proof.
  destruct (coap_parse_inv m p Hm Hp) as (tkl & e & Ht & Hd & Hs & Hle & Hoe & (opts & Ha & _ & Hcol) & Hsplit).
  assert (token p = take tkl (drop 4 m)) as Htok.
  { unfold token, slice, MIN_HEADER_LEN. rewrite Hs, Hd. f_equal. lia. }
  assert (it_data (options p) = take e (drop (4 + tkl) m)) as Hit.
  { unfold options, slice. cbn [it_data]. rewrite Hs, Hoe, Hd. f_equal. lia. }
  split; [rewrite Htok, length_take; lia |]. split.
  - exists opts. split; [done |]. intros fuel Hf. specialize (Hcol fuel Hf). rewrite <- Hit in Hcol. exact Hcol.
  - rewrite Htok, Hit, app_assoc, take_take_drop. exact Hsplit.
Qed.
End codec.

(** the delta of an option is computed in 16 bits, so an extended delta
    above 65266 overflows before the check of the option number.  The message
    below announces option 65804, which no message may carry: a build that
    traps overflow panics on receiving it, and one that does not parses it
    as option 268. *)
Lemma coap_delta_overflow :
  let m := [64; 1; 0; 1; 224; 255; 255] in
  from_bytes true m = None /\
  exists p, from_bytes false m = Some (Ok p) /\
    collect false 2 (options p) = Some [Ok {| number := 268; value := [] |}].
Proof. split; [reflexivity |]. eexists. split; reflexivity. Qed.

(** A GET with two path segments and a payload. *)
Definition sample_opts : list CoapOption :=
  [{| number := option_u16 UriPath; value := [115; 101; 110; 115; 111; 114; 115] |};
   {| number := option_u16 UriPath; value := [116] |}; {| number := 300; value := [1; 2] |}].

Lemma coap_roundtrip_witness :
  exists b p, build (replicate 64 0) Confirmable 1 4660 [170; 187] sample_opts [9; 8; 7] = Some (Ok b) /\
    from_bytes true (as_bytes b) = Some (Ok p) /\ payload p = [9; 8; 7] /\
    collect true 4 (options p) = Some (Ok <$> sample_opts).
Proof.
  destruct (coap_roundtrip true (replicate 64 0) [170; 187] [9; 8; 7] Confirmable 1 4660 sample_opts)
    as (b & p & Hb & Hp & _ & _ & _ & _ & Hpl & Hc & _).
  - simpl. lia.
  - width.
  - simpl. width.
  - vm_compute. lia.
  - exists b, p. do 3 (split; [done |]). exact Hc.
Defined.
End Coap.
