(* ===== verification/Block.v ===== *)
(** * CoAP block-wise transfer

    lichen-coap/src/block.rs: the Block option, the sender and the receiver of
    a block-wise transfer.  Sizes and offsets are [Z]: with the 20-bit block
    numbers and 1024-byte blocks that [BlockOption::new] admits the products
    stay below 2^30 and do not overflow a [usize] of 32 bits or more.  The
    outer [None] is a panic. *)

From S2P Require Import Prelude Coap.

Module Block.
Import Coap.

Record BlockOption := { num : Z; more : bool; szx : Z }.
#[export] Instance BlockOption_eq_dec : EqDecision BlockOption.
Proof. solve_decision. Defined.

Definition MAX_NUM : Z := 1048575.

Definition block_new (num : Z) (more : bool) (szx : Z) : result CoapError BlockOption :=
  if 6 <? szx then Err InvalidBlockOption
  else if MAX_NUM <? num then Err InvalidBlockOption
  else Ok {| num := num; more := more; szx := szx |}.

Definition block_from_bytes (data : bytes) : option (result CoapError BlockOption) :=
  let empty := (length data =? 0)%nat || (3 <? length data)%nat in
  bad ← (if empty then Some true
         else if (1 <? length data)%nat then b ← data !! 0%nat; Some (b =? 0) else Some false);
  if bad : bool then Some (Err InvalidBlockOption)
  else
    let val := be_uint data in
    let szx := wrap8 (Z.land val 7) in
    let more := negb (Z.land val 8 =? 0) in
    let num := Z.shiftr val 4 in
    if 6 <? szx then Some (Err InvalidBlockOption)
    else Some (Ok {| num := num; more := more; szx := szx |}).

Definition block_write_to (b : BlockOption) (out : bytes) : option (result CoapError nat * bytes) :=
  let val := Z.lor (Z.lor (wrap32 (Z.shiftl b.(num) 4)) (Z.shiftl (Z.b2z b.(more)) 3)) b.(szx) in
  if val <=? 255 then
    if (length out =? 0)%nat then Some (Err (CE_BufferTooSmall {| required := 1; provided := 0 |}), out)
    else out ← copy_in 0 [wrap8 val] out; Some (Ok 1%nat, out)
  else if val <=? 65535 then
    if (length out <? 2)%nat then Some (Err (CE_BufferTooSmall {| required := 2; provided := length out |}), out)
    else
      out ← copy_in 0 [wrap8 (Z.shiftr val 8)] out;
      out ← copy_in 1 [wrap8 val] out;
      Some (Ok 2%nat, out)
  else
    if (length out <? 3)%nat then Some (Err (CE_BufferTooSmall {| required := 3; provided := length out |}), out)
    else
      out ← copy_in 0 [wrap8 (Z.shiftr val 16)] out;
      out ← copy_in 1 [wrap8 (Z.shiftr val 8)] out;
      out ← copy_in 2 [wrap8 val] out;
      Some (Ok 3%nat, out).

Definition size (b : BlockOption) : Z := Z.shiftl 1 (b.(szx) + 4).
Definition block_offset (b : BlockOption) : Z := b.(num) * size b.

Definition size_to_szx (size : Z) : Z :=
  if size <? 16 then 0 else Z.min (saturating_sub (wrap8 (Z.log2 size)) 4) 6.
Definition szx_to_size (szx : Z) : Z := Z.shiftl 1 (Z.min szx 6 + 4).

Definition from_size (num : Z) (more : bool) (size : Z) : result CoapError BlockOption :=
  block_new num more (size_to_szx size).

Definition is_block1 (o : CoapOption) : bool := o.(number) =? option_u16 Block1.
Definition is_block2 (o : CoapOption) : bool := o.(number) =? option_u16 Block2.
Definition is_size1 (o : CoapOption) : bool := o.(number) =? option_u16 Size1.
Definition is_size2 (o : CoapOption) : bool := o.(number) =? option_u16 Size2.

Definition as_block (o : CoapOption) : option (result CoapError BlockOption) :=
  if is_block1 o || is_block2 o then block_from_bytes o.(value) else Some (Err InvalidBlockOption).

(** [block1] and [block2] of the builder. *)
Definition add_block (n : OptionNumber) (b : CoapBuilder) (block : BlockOption)
  : option (result CoapError unit * CoapBuilder) :=
  '(r, buf) ← block_write_to block (replicate 3 0);
  match r with
  | Err e => Some (Err e, b)
  | Ok len => add_option b (option_u16 n) (take len buf)
  end.
Definition block1 := add_block Block1.
Definition block2 := add_block Block2.

Definition uint_len (val : Z) : nat :=
  if val =? 0 then 0 else if val <=? 255 then 1 else if val <=? 65535 then 2
  else if val <=? 16777215 then 3 else 4.

Definition add_size (n : OptionNumber) (b : CoapBuilder) (sz : Z) : option (result CoapError unit * CoapBuilder) :=
  let bytes := to_be 4 sz in
  let len := uint_len sz in
  add_option b (option_u16 n) (drop (4 - len) bytes).
Definition size1 := add_size Size1.
Definition size2 := add_size Size2.

(** ** The sender *)

Definition MAX_PAYLOAD : nat := 4096.

Record BlockSender := {
  s_data : bytes;
  s_data_len : nat;
  s_block_size : Z;
  current_block : Z;
  s_complete : bool
}.

Definition sender_new (payload : bytes) (block_size : Z) : option (result CoapError BlockSender) :=
  if (MAX_PAYLOAD <? length payload)%nat then Some (Err CE_PayloadTooLarge)
  else
    d ← copy_in 0 payload (replicate MAX_PAYLOAD 0);
    Some (Ok {| s_data := d; s_data_len := length payload;
                s_block_size := szx_to_size (size_to_szx block_size);
                current_block := 0; s_complete := false |}).

(** [data_len.div_ceil(block_size) as u32]. *)
Definition block_count (s : BlockSender) : Z :=
  let n := Z.of_nat s.(s_data_len) in
  wrap32 (n / s.(s_block_size) + if n mod s.(s_block_size) =? 0 then 0 else 1).

Definition next_block (s : BlockSender) : option (option (BlockOption * bytes)) :=
  if s.(s_complete) then Some None
  else
  let offset := s.(current_block) * s.(s_block_size) in
  if Z.of_nat s.(s_data_len) <=? offset then Some None
  else
  let end_ := Z.min (offset + s.(s_block_size)) (Z.of_nat s.(s_data_len)) in
  let more := end_ <? Z.of_nat s.(s_data_len) in
  match from_size s.(current_block) more s.(s_block_size) with
  | Err _ => None
  | Ok block => Some (Some (block, slice (Z.to_nat offset) (Z.to_nat end_) s.(s_data)))
  end.

Definition set_position (s : BlockSender) (block_size block : Z) (complete : bool) : BlockSender :=
  {| s_data := s.(s_data); s_data_len := s.(s_data_len); s_block_size := block_size;
     current_block := block; s_complete := complete |}.

Definition ack_block (s : BlockSender) (block_num : Z) : option (bool * BlockSender) :=
  if block_num =? s.(current_block) then
    n ← checked_add u32_max s.(current_block) 1;
    let s := set_position s s.(s_block_size) n s.(s_complete) in
    let s := if block_count s <=? n then set_position s s.(s_block_size) n true else s in
    Some (s.(s_complete), s)
  else Some (s.(s_complete), s).

Section sizes.
Context `{Usize}.

Definition acknowledge (s : BlockSender) (sent ack : BlockOption)
  : option (result CoapError bool * BlockSender) :=
  nb ← next_block s;
  match nb with
  | None => Some (Err BlockOutOfOrder, s)
  | Some (current, _) =>
      if negb (bool_decide (current = sent)) || (sent.(szx) <? ack.(szx)) || negb (Bool.eqb ack.(more) sent.(more))
      then Some (Err BlockOutOfOrder, s)
      else
      let len := Z.of_nat s.(s_data_len) in
      let sent_start := block_offset sent in
      match checked_add usize_max sent_start (size sent) with
      | None => Some (Err InvalidBlockOption, s)
      | Some sent_end =>
          let sent_end := Z.min sent_end len in
          let ack_start := block_offset ack in
          match checked_add usize_max ack_start (size ack) with
          | None => Some (Err InvalidBlockOption, s)
          | Some ack_end =>
              let ack_end := Z.min ack_end len in
              if (sent_start <? ack_start) || (ack_end <=? sent_start) || (sent_end <? ack_end)
              then Some (Err BlockOutOfOrder, s)
              else
              match checked_add u32_max ack.(num) 1 with
              | None => Some (Err InvalidBlockOption, s)
              | Some new_block =>
                  let s := set_position s (size ack) new_block (len <=? ack_end) in
                  Some (Ok s.(s_complete), s)
              end
          end
      end
  end.

Definition resize (s : BlockSender) (new_szx : Z) : BlockSender :=
  let new_size := szx_to_size new_szx in
  if new_size <? s.(s_block_size) then
    let current_offset := s.(current_block) * s.(s_block_size) in
    set_position s new_size (wrap32 (current_offset / new_size)) s.(s_complete)
  else s.

(** ** The receiver *)

Record BlockReceiver := {
  r_data : bytes;
  r_data_len : nat;
  expected_block : Z;
  r_block_size : Z;
  expected_size : option nat;
  r_complete : bool
}.

Definition receiver_new (block_size : Z) : BlockReceiver :=
  {| r_data := replicate MAX_PAYLOAD 0; r_data_len := 0; expected_block := 0;
     r_block_size := szx_to_size (size_to_szx block_size); expected_size := None; r_complete := false |}.

Definition set_expected_size (r : BlockReceiver) (sz : nat) : result CoapError unit * BlockReceiver :=
  if (MAX_PAYLOAD <? sz)%nat || (sz <? r.(r_data_len))%nat then (Err CE_PayloadTooLarge, r)
  else if match r.(expected_size) with Some e => negb (e =? sz)%nat | None => false end
  then (Err InvalidBlockOption, r)
  else (Ok tt, {| r_data := r.(r_data); r_data_len := r.(r_data_len); expected_block := r.(expected_block);
                  r_block_size := r.(r_block_size); expected_size := Some sz; r_complete := r.(r_complete) |}).

Definition receive_block (r : BlockReceiver) (block : BlockOption) (data : bytes)
  : option (result CoapError bool * BlockReceiver) :=
  if r.(r_complete) then Some (Err BlockOutOfOrder, r)
  else
  let block_size := size block in
  let n := Z.of_nat (length data) in
  if (block_size <? n) || (block.(more) && negb (n =? block_size)) then Some (Err InvalidBlockOption, r)
  else
  let offset := block_offset block in
  if offset <? Z.of_nat r.(r_data_len) then Some (Err BlockOutOfOrder, r)
  else if Z.of_nat r.(r_data_len) <? offset then Some (Err BlockOutOfOrder, r)
  else
  let needed := (r.(r_data_len) + length data)%nat in
  if (MAX_PAYLOAD <? needed)%nat then
    Some (Err (CE_BufferTooSmall {| required := needed; provided := MAX_PAYLOAD |}), r)
  else if negb block.(more) && match r.(expected_size) with Some e => negb (e =? needed)%nat | None => false end
  then Some (Err InvalidBlockOption, r)
  else
  d ← copy_in r.(r_data_len) data r.(r_data);
  let complete := if negb block.(more) then true else r.(r_complete) in
  Some (Ok complete,
        {| r_data := d; r_data_len := needed; expected_block := block.(num) + 1; r_block_size := size block;
           expected_size := r.(expected_size); r_complete := complete |}).

Definition r_payload (r : BlockReceiver) : bytes := take r.(r_data_len) r.(r_data).

Definition next_request_block (r : BlockReceiver) : option BlockOption :=
  match from_size r.(expected_block) false r.(r_block_size) with Ok b => Some b | Err _ => None end.


(** ** Block options on the wire *)

Record block_ok (b : BlockOption) : Prop := {
  ok_num : 0 <= b.(num) <= MAX_NUM;
  ok_szx : 0 <= b.(szx) <= 6
}.

Lemma block_val b : block_ok b ->
  Z.lor (Z.lor (wrap32 (Z.shiftl b.(num) 4)) (Z.shiftl (Z.b2z b.(more)) 3)) b.(szx) =
  b.(num) * 16 + Z.b2z b.(more) * 8 + b.(szx).
Proof.
  intros [Hn Hs]. unfold MAX_NUM in Hn.
  assert (0 <= Z.b2z (more b) < 2) as Hm by (destruct (more b); simpl; lia).
  rewrite wrap32_small by (rewrite Z.shiftl_mul_pow2 by lia; change (2 ^ 4) with 16; width).
  rewrite lor_shiftl; [| lia | rewrite Z.shiftl_mul_pow2 by lia; change (2 ^ 3) with 8; change (2 ^ 4) with 16; lia].
  rewrite Z.shiftl_mul_pow2 by lia.
  replace (num b * 2 ^ 4 + Z.b2z (more b) * 2 ^ 3) with (Z.shiftl (num b * 2 + Z.b2z (more b)) 3)
    by (rewrite Z.shiftl_mul_pow2 by lia; lia).
  rewrite lor_shiftl; [| lia | change (2 ^ 3) with 8; lia]. change (2 ^ 3) with 8. lia.
Qed.

(** The decoder of the option value. *)
Lemma block_decode l b : bytes_ok l -> (1 <= length l <= 3)%nat -> ((1 < length l)%nat -> hd 0 l <> 0) ->
  block_ok b -> from_be l = b.(num) * 16 + Z.b2z b.(more) * 8 + b.(szx) -> block_from_bytes l = Some (Ok b).
Proof.
  intros Hl Hlen Hhd [Hn Hs] Hv. unfold block_from_bytes.
  rewrite (proj2 (Nat.eqb_neq _ _)), (proj2 (Nat.ltb_ge 3 _)) by lia. cbn [orb].
  assert ((if (1 <? length l)%nat then b ← l !! 0%nat; Some (b =? 0) else Some false) = Some false) as ->.
  { destruct (_ <? _)%nat eqn:E; bool_to_prop; [| done]. destruct l as [|x l]; [simpl in *; lia |]. simpl.
    f_equal. apply Z.eqb_neq. by apply Hhd. }
  cbn [mbind option_bind]. rewrite be_uint_spec by (done || lia).
  rewrite Hv. set (m := Z.b2z (more b)). assert (0 <= m < 2) as Hm by (unfold m; destruct (more b); simpl; lia).
  assert (Z.land (num b * 16 + m * 8 + szx b) 7 = szx b) as ->.
  { change 7 with (Z.ones 3). rewrite Z.land_ones by lia. change (2 ^ 3) with 8. Z.to_euclidean_division_equations. lia. }
  rewrite wrap8_small by width. rewrite (proj2 (Z.ltb_ge 6 _)) by lia.
  do 2 f_equal. destruct b as [n mo z]. cbn [num more szx] in *. f_equal.
  - rewrite Z.shiftr_div_pow2 by lia. change (2 ^ 4) with 16. Z.to_euclidean_division_equations. lia.
  - assert (Z.land (n * 16 + m * 8 + z) 8 = m * 8) as ->.
    { replace (Z.land _ 8) with (Z.shiftl (Z.land (Z.shiftr (n * 16 + m * 8 + z) 3) 1) 3).
      - change 1 with (2 ^ 1 - 1) at 1. rewrite bit_field by lia. rewrite Z.shiftl_mul_pow2 by lia.
        change (2 ^ 3) with 8. change (2 ^ 1) with 2. Z.to_euclidean_division_equations. lia.
      - apply Z.bits_inj'. intros k Hk. rewrite Z.shiftl_spec, !Z.land_spec by lia.
        destruct (decide (k < 3)).
        + rewrite (Z.testbit_neg_r _ (k - 3)) by lia. change 8 with (2 ^ 3). rewrite Z.pow2_bits_false by lia.
          by rewrite andb_false_r.
        + rewrite Z.shiftr_spec by lia. replace (k - 3 + 3) with k by lia. f_equal.
          change 8 with (2 ^ 3). change 1 with (2 ^ 0). rewrite !Z.pow2_bits_eqb by lia.
          destruct (decide (k = 3)) as [->|]; [done |]. by rewrite !(proj2 (Z.eqb_neq _ _)) by lia. }
    unfold m. by destruct mo.
Qed.

(** The minimal encoding of a block option is read back. *)
Lemma block_option_roundtrip b : block_ok b ->
  exists n buf, block_write_to b (replicate 3 0) = Some (Ok n, buf) /\ block_from_bytes (take n buf) = Some (Ok b).
Proof.
  intros Hb. pose proof Hb as [Hn Hs]. unfold MAX_NUM in Hn. unfold block_write_to. rewrite block_val by done.
  set (v := num b * 16 + Z.b2z (more b) * 8 + szx b).
  assert (0 <= v <= 16777215) as Hv by (unfold v; destruct (more b); simpl; lia).
  assert (forall k, 0 <= k -> is_u8 (wrap8 (Z.shiftr v k))) by auto with lichen.
  destruct (v <=? 255) eqn:E1; [| destruct (v <=? 65535) eqn:E2]; bool_to_prop; cbn [length replicate Nat.eqb Nat.ltb Nat.leb].
  - eexists _, _. split; [done |]. apply block_decode; [| simpl; lia | simpl; lia | done |].
    + simpl. rewrite Forall_singleton. auto with lichen.
    + simpl. rewrite wrap8_small by width. done.
  - eexists _, _. split; [done |]. apply block_decode; [| simpl; lia | | done |].
    + simpl. rewrite !Forall_cons. auto with lichen.
    + intros _. simpl. unfold wrap8. rewrite Z.shiftr_div_pow2 by lia. change (2 ^ 8) with 256.
      Z.to_euclidean_division_equations. lia.
    + change (from_be [wrap8 (Z.shiftr v 8); wrap8 v] = v). unfold from_be, wrap8. simpl.
      rewrite Z.shiftr_div_pow2 by lia. change (2 ^ 8) with 256. Z.to_euclidean_division_equations. lia.
  - eexists _, _. split; [done |]. apply block_decode; [| simpl; lia | | done |].
    + simpl. rewrite !Forall_cons. auto with lichen.
    + intros _. simpl. unfold wrap8. rewrite Z.shiftr_div_pow2 by lia. change (2 ^ 16) with 65536.
      Z.to_euclidean_division_equations. lia.
    + change (from_be [wrap8 (Z.shiftr v 16); wrap8 (Z.shiftr v 8); wrap8 v] = v). unfold from_be, wrap8. simpl.
      rewrite !Z.shiftr_div_pow2 by lia. change (2 ^ 8) with 256. change (2 ^ 16) with 65536.
      Z.to_euclidean_division_equations. lia.
Qed.

(** ** Positions *)

(** [x] is the block size of exponent [z]. *)
Lemma szx_size z : 0 <= z <= 6 -> szx_to_size z = 2 ^ (z + 4) /\ size_to_szx (2 ^ (z + 4)) = z /\
  16 <= 2 ^ (z + 4) <= 1024.
Proof.
  intros Hz. unfold szx_to_size, size_to_szx. rewrite Z.min_l, Z.shiftl_1_l by lia.
  pose proof (Z.pow_le_mono_r 2 4 (z + 4) ltac:(lia) ltac:(lia)) as H1.
  pose proof (Z.pow_le_mono_r 2 (z + 4) 10 ltac:(lia) ltac:(lia)) as H2.
  change (2 ^ 4) with 16 in H1. change (2 ^ 10) with 1024 in H2. split; [done |]. split; [| lia].
  rewrite (proj2 (Z.ltb_ge _ _)) by lia. rewrite Z.log2_pow2 by lia. rewrite wrap8_small by width.
  unfold saturating_sub. lia.
Qed.

Lemma size_pow b : block_ok b -> size b = 2 ^ (b.(szx) + 4).
Proof. intros [_ Hs]. unfold size. by rewrite Z.shiftl_1_l. Qed.

Lemma szx_norm x : exists z, 0 <= z <= 6 /\ szx_to_size (size_to_szx x) = 2 ^ (z + 4).
Proof.
  assert (0 <= size_to_szx x <= 6) as Hz.
  { unfold size_to_szx. destruct (x <? 16); [lia |]. unfold saturating_sub. lia. }
  exists (size_to_szx x). split; [done |]. by apply szx_size.
Qed.

(** The next byte the sender will send, and the end of its current block. *)
Definition position (s : BlockSender) : Z := s.(current_block) * s.(s_block_size).
Definition sent_end (s : BlockSender) : Z := Z.min (position s + s.(s_block_size)) (Z.of_nat s.(s_data_len)).

(** A sender of [P]. *)
Record sends (P : bytes) (s : BlockSender) : Prop := {
  sn_data : s.(s_data) = P ++ replicate (MAX_PAYLOAD - length P) 0;
  sn_len : s.(s_data_len) = length P;
  sn_max : (length P <= MAX_PAYLOAD)%nat;
  sn_size : exists z, 0 <= z <= 6 /\ s.(s_block_size) = 2 ^ (z + 4);
  sn_block : 0 <= s.(current_block);
  sn_open : s.(s_complete) = false -> position s < Z.of_nat (length P) \/ P = []
}.

Lemma MAX_PAYLOAD_Z n : (n <= MAX_PAYLOAD)%nat -> Z.of_nat n <= 4096.
Proof. intros Hn. apply Nat2Z.inj_le in Hn. change (Z.of_nat MAX_PAYLOAD) with 4096 in Hn. done. Qed.

Lemma sender_new_ok P bs : (length P <= MAX_PAYLOAD)%nat ->
  exists s, sender_new P bs = Some (Ok s) /\ sends P s /\ position s = 0 /\ s.(s_complete) = false.
Proof.
  intros HP. unfold sender_new. rewrite (proj2 (Nat.ltb_ge _ _)) by lia.
  rewrite <- (app_nil_l (replicate MAX_PAYLOAD 0)), copy_in_at by (done || (rewrite length_replicate; lia)).
  cbn [mbind option_bind]. eexists. split; [done |]. split; [| done].
  split; cbn [s_data s_data_len s_block_size current_block s_complete]; try done.
  - by rewrite drop_replicate.
  - apply szx_norm.
  - intros _. unfold position. cbn [current_block s_block_size]. destruct P; [by right | left; simpl; lia].
Qed.

(** The block in flight. *)
Lemma next_block_ok P s : sends P s -> s.(s_complete) = false -> P <> [] ->
  exists b d, next_block s = Some (Some (b, d)) /\ block_ok b /\
    b.(num) = s.(current_block) /\ size b = s.(s_block_size) /\ b.(more) = (sent_end s <? Z.of_nat (length P)) /\
    position s < sent_end s /\
    d = slice (Z.to_nat (position s)) (Z.to_nat (sent_end s)) P.
Proof.
  intros [Hd Hl Hmax (z & Hz & Hs) Hb Ho] Hc HP. specialize (Ho Hc). destruct Ho as [Hpos|]; [| done].
  destruct (szx_size z Hz) as (_ & Hszx & Hrange). apply MAX_PAYLOAD_Z in Hmax as Hmax'.
  unfold next_block. rewrite Hc. fold (position s). rewrite (proj2 (Z.leb_gt _ _)) by (rewrite Hl; lia).
  unfold sent_end. rewrite Hl. set (e := Z.min _ _).
  assert (s.(current_block) <= position s) as Hle by (unfold position; rewrite Hs; nia).
  unfold from_size, block_new. rewrite Hs, Hszx. rewrite (proj2 (Z.ltb_ge 6 _)) by lia.
  rewrite (proj2 (Z.ltb_ge MAX_NUM _)) by (unfold MAX_NUM; lia).
  set (b := {| num := _; more := _; szx := _ |}).
  assert (block_ok b) as Hbo by (split; simpl; unfold MAX_NUM; lia).
  eexists b, _. split; [done |]. split; [done |]. split; [done |]. split; [by rewrite size_pow by done |].
  split; [done |]. assert (0 <= position s) by (unfold position; rewrite Hs; nia).
  split; [unfold e; lia |]. rewrite Hd. unfold slice. rewrite drop_app_le by lia. rewrite take_app_le; [done |].
  rewrite length_drop. lia.
Qed.

Lemma next_block_cases P s : sends P s -> next_block s = Some None \/ (s.(s_complete) = false /\ P <> []).
Proof.
  intros Hs. destruct (s_complete s) eqn:Hc; [left; unfold next_block; by rewrite Hc |].
  destruct P as [|x P]; [left | by right]. unfold next_block. rewrite Hc, (sn_len _ _ Hs). cbn [length].
  rewrite (proj2 (Z.leb_le _ _)); [done |]. destruct (sn_size _ _ Hs) as (z & Hz & ->).
  pose proof (sn_block _ _ Hs). destruct (szx_size z Hz) as (_ & _ & ?). nia.
Qed.

(** What acknowledging can do to a sender. *)
Lemma acknowledge_ok P s sent ack : sends P s -> 0 <= ack.(num) -> 0 <= ack.(szx) ->
  exists r s', acknowledge s sent ack = Some (r, s') /\
    match r with
    | Err _ => s' = s
    | Ok fin => (exists d, next_block s = Some (Some (sent, d))) /\ sends P s' /\ fin = s'.(s_complete) /\
        s'.(s_block_size) <= s.(s_block_size) /\
        position s < Z.min (position s') (Z.of_nat (length P)) <= sent_end s /\
        fin = (Z.of_nat (length P) <=? position s')
    end.
Proof.
  intros Hs Hn Hz. unfold acknowledge.
  destruct (next_block_cases _ _ Hs) as [-> | [Hc HP]].
  { eexists _, s. done. }
  destruct (next_block_ok _ _ Hs Hc HP) as (b' & d' & Hnb' & Hbo & Hbn & Hbs & Hbm & Hlt & _).
  rewrite Hnb'. cbn [mbind option_bind].
  destruct (bool_decide_reflect (b' = sent)) as [<-|Hne]; cbn [negb orb]; [| by eexists _, s].
  destruct (_ || _) eqn:Hguard; [by eexists _, s |]. apply orb_false_iff in Hguard as [Hszx _]. bool_to_prop.
  assert (block_offset b' = position s) as Hoff by (unfold block_offset, position; by rewrite Hbn, Hbs).
  rewrite Hoff, Hbs. destruct (checked_add usize_max _ _) as [se|] eqn:Hse; [| by eexists _, s].
  apply checked_add_some in Hse as [-> _].
  destruct (checked_add usize_max (block_offset ack) _) as [ae|] eqn:Hae; [| by eexists _, s].
  apply checked_add_some in Hae as [-> _].
  rewrite (sn_len _ _ Hs). fold (sent_end s).
  destruct (_ || _) eqn:Hg; [by eexists _, s |]. bool_to_prop.
  destruct (checked_add u32_max _ _) as [nb|] eqn:Hnbk; [| by eexists _, s].
  apply checked_add_some in Hnbk as [-> _].
  assert (sent_end s = Z.min (position s + s_block_size s) (Z.of_nat (length P))) as Hsent
    by (unfold sent_end; by rewrite (sn_len _ _ Hs)).
  eexists _, _. split; [done |].
  set (s' := set_position _ _ _ _). destruct (ok_szx _ Hbo) as [_ Hs6].
  assert (size ack = 2 ^ (szx ack + 4)) as Hsz by (unfold size; by rewrite Z.shiftl_1_l).
  destruct (szx_size (szx ack) ltac:(lia)) as (_ & _ & Hrange).
  assert (position s' = block_offset ack + size ack) as Hp' by (unfold position, block_offset, s'; cbn; lia).
  split; [eauto |]. assert (s_complete s' = (Z.of_nat (length P) <=? position s')) as Hfin.
  { rewrite Hp'. unfold s'. cbn [set_position s_complete]. apply eq_bool_prop_intro. rewrite !Is_true_true, !Z.leb_le. lia. }
  split.
  { destruct Hs. split; try done; unfold s'; cbn [set_position s_block_size current_block].
    - exists (szx ack). split; [lia | done].
    - lia.
    - fold s'. rewrite Hfin. intros Hf. bool_to_prop. by left. }
  split; [done |]. split; [unfold s'; cbn [set_position s_block_size]; rewrite Hsz, <- Hbs, (size_pow b') by done;
    apply Z.pow_le_mono_r; lia |].
  split; [rewrite Hp'; lia | done].
Qed.

(** Acknowledging the block in flight as it was sent always succeeds. *)
Lemma acknowledge_echo P s b d : sends P s -> next_block s = Some (Some (b, d)) ->
  exists s', acknowledge s b b = Some (Ok s'.(s_complete), s') /\ sends P s' /\
    s'.(s_complete) = negb b.(more) /\ (s'.(s_complete) = false -> position s' = sent_end s).
Proof.
  intros Hs Hnb. destruct (next_block_cases _ _ Hs) as [Hn|[Hc HP]]; [by rewrite Hn in Hnb |].
  destruct (next_block_ok _ _ Hs Hc HP) as (b' & d' & Hnb' & Hbo & Hbn & Hbs & Hbm & Hlt & _).
  rewrite Hnb in Hnb'. apply (inj Some), (inj Some), pair_eq in Hnb' as [<- <-].
  destruct (acknowledge_ok P s b b Hs) as (r & s' & Hack & Hr); [apply Hbo | apply Hbo |].
  pose proof (MAX_PAYLOAD_Z _ (sn_max _ _ Hs)) as Hmax. destruct (sn_size _ _ Hs) as (z & Hz & Hsz).
  destruct (szx_size z Hz) as (_ & _ & Hrange).
  assert (block_offset b = position s) as Hoff by (unfold block_offset, position; by rewrite Hbn, Hbs).
  assert (0 <= position s < Z.of_nat (length P)) as Hpos.
  { split; [unfold position; pose proof (sn_block _ _ Hs); nia |]. by destruct (sn_open _ _ Hs Hc). }
  pose proof Hack as Hack'. unfold acknowledge in Hack. rewrite Hnb in Hack. cbn [mbind option_bind] in Hack.
  rewrite bool_decide_true, Z.ltb_irrefl, Bool.eqb_reflx in Hack by done. cbn [negb orb] in Hack.
  pose proof usize_max_ge. rewrite Hoff, Hbs, (sn_len _ _ Hs) in Hack. unfold checked_add at 1 2 in Hack.
  rewrite (proj2 (Z.leb_le _ _)) in Hack by width. rewrite Z.ltb_irrefl in Hack.
  unfold sent_end in *. rewrite (sn_len _ _ Hs) in *. rewrite (proj2 (Z.leb_gt _ (position s))) in Hack by lia.
  rewrite Z.ltb_irrefl in Hack. cbn [orb] in Hack. pose proof (ok_num _ Hbo) as Hn. unfold MAX_NUM in Hn.
  unfold checked_add in Hack. rewrite (proj2 (Z.leb_le _ _)) in Hack by width.
  apply (inj Some), pair_eq in Hack as [<- <-]. destruct Hr as (_ & Hs' & Hfin & _ & Hp & Hfin').
  eexists. split; [exact Hack' |]. split; [done |].
  split; [cbn [set_position s_complete]; rewrite Hbm; apply Z.leb_antisym |].
  cbn [set_position s_complete]. intros Hf. bool_to_prop.
  unfold position at 1. cbn [set_position current_block s_block_size]. rewrite Hbn. unfold position in *. lia.
Qed.

Lemma resize_ok P s z : sends P s -> 0 <= z -> s.(s_complete) = false -> P <> [] ->
  sends P (resize s z) /\ position (resize s z) = position s /\ (resize s z).(s_complete) = false.
Proof.
  intros Hs Hz Hc HP. unfold resize. destruct (_ <? _) eqn:Hlt; [| done]. bool_to_prop.
  destruct (sn_open _ _ Hs Hc) as [Hpos|]; [| done]. pose proof (MAX_PAYLOAD_Z _ (sn_max _ _ Hs)) as Hmax.
  destruct (sn_size _ _ Hs) as (y & Hy & Hsz). destruct (szx_size y Hy) as (_ & _ & Hr).
  assert (szx_to_size z = 2 ^ (Z.min z 6 + 4)) as Hn by (unfold szx_to_size; by rewrite Z.shiftl_1_l).
  destruct (szx_size (Z.min z 6) ltac:(lia)) as (_ & _ & Hr').
  assert (Z.min z 6 <= y) as Hle.
  { rewrite Hn, Hsz in Hlt. apply Z.pow_lt_mono_r_iff in Hlt; lia. }
  rewrite Hn. fold (position s). set (n := 2 ^ (Z.min z 6 + 4)) in *.
  assert (position s = n * (s.(current_block) * 2 ^ (y - Z.min z 6))) as Hm.
  { unfold position, n. rewrite Hsz. replace (y + 4) with ((Z.min z 6 + 4) + (y - Z.min z 6)) by lia.
    rewrite Z.pow_add_r by lia. lia. }
  pose proof (sn_block _ _ Hs) as Hb. assert (0 < 2 ^ (y - Z.min z 6)) by (apply Z.pow_pos_nonneg; lia).
  set (q := s.(current_block) * 2 ^ (y - Z.min z 6)) in *. assert (0 <= q) by (unfold q; nia).
  rewrite Hm, Z.mul_comm, Z.div_mul by lia. rewrite wrap32_small by (split; [done | unfold u32_max; nia]).
  split; [| split; [unfold position; cbn [set_position current_block s_block_size]; lia | done]].
  destruct Hs. split; try done; cbn [set_position s_block_size current_block].
  - exists (Z.min z 6). split; [lia | done].
  - intros _. left. unfold position. cbn [set_position current_block s_block_size]. lia.
Qed.

(** A receiver that has the first [n] bytes of [P]. *)
Record holds (P : bytes) (n : nat) (r : BlockReceiver) : Prop := {
  hd_len : r.(r_data_len) = n;
  hd_space : length r.(r_data) = MAX_PAYLOAD;
  hd_data : take n r.(r_data) = take n P;
  hd_size : r.(expected_size) = None \/ r.(expected_size) = Some (length P)
}.

Lemma receive_ok P r n e b : holds P n r -> r.(r_complete) = false -> (length P <= MAX_PAYLOAD)%nat ->
  block_offset b = Z.of_nat n -> (n <= e <= length P)%nat -> Z.of_nat (e - n) <= size b ->
  b.(more) = (Z.of_nat e <? Z.of_nat (length P)) -> (b.(more) = true -> Z.of_nat (e - n) = size b) ->
  exists r', receive_block r b (slice n e P) = Some (Ok (negb b.(more)), r') /\
    holds P e r' /\ r'.(r_complete) = negb b.(more).
Proof.
  intros [Hl Hsp Hd He] Hc Hmax Hoff Hne Hsize Hmore Hfull. unfold receive_block. rewrite Hc.
  rewrite slice_length by lia. rewrite (proj2 (Z.ltb_ge _ _)) by done.
  assert (more b && negb (Z.of_nat (e - n) =? size b) = false) as ->.
  { destruct (more b); [| done]. by rewrite Hfull, Z.eqb_refl by done. }
  cbn [orb]. rewrite Hoff, Hl, !Z.ltb_irrefl. replace (n + (e - n))%nat with e by lia.
  rewrite (proj2 (Nat.ltb_ge _ _)) by lia.
  assert (negb (more b) && match expected_size r with Some x => negb (x =? e)%nat | None => false end = false) as ->.
  { destruct (more b) eqn:Hm; [done |]. cbn [negb andb]. symmetry in Hmore. bool_to_prop.
    destruct He as [-> | ->]; [done |]. by rewrite (proj2 (Nat.eqb_eq _ _)) by lia. }
  assert (length (take n (r_data r)) = n) as Htn by (rewrite length_take; lia).
  pose proof (copy_in_at (take n (r_data r)) (slice n e P) (drop n (r_data r)) n ltac:(done)) as Hcopy.
  rewrite take_drop, slice_length, length_drop in Hcopy by lia. rewrite Hcopy by lia. cbn [mbind option_bind].
  assert ((if negb (more b) then true else false) = negb (more b)) as -> by (by destruct (more b)).
  eexists. split; [done |]. split; [| done].
  split; cbn [r_data_len r_data expected_size]; [done | | | done].
  - rewrite !length_app, Htn, slice_length, !length_drop by lia. lia.
  - rewrite Hd, app_assoc, take_app_le' by (rewrite length_app, length_take, slice_length; lia).
    unfold slice. rewrite take_take_drop. f_equal. lia.
Qed.

(** ** A whole transfer *)

(** The Block option as the peer decodes it. *)
Definition over_wire (b : BlockOption) : option (result CoapError BlockOption) :=
  '(r, buf) ← block_write_to b (replicate 3 0);
  match r with Err e => Some (Err e) | Ok n => block_from_bytes (take n buf) end.

(** One round per element: the sender may first be asked for smaller blocks,
    then a block goes over the wire and its acknowledgement echoes it. *)
Fixpoint transfer (rounds : list (option Z)) (s : BlockSender) (r : BlockReceiver)
  : option (BlockSender * BlockReceiver) :=
  match rounds with
  | [] => Some (s, r)
  | z :: rounds =>
      let s := match z with Some z => resize s z | None => s end in
      nb ← next_block s;
      match nb with
      | None => Some (s, r)
      | Some (b, d) =>
          rb ← over_wire b;
          match rb with
          | Err _ => None
          | Ok b' =>
              '(got, r) ← receive_block r b' d;
              '(acked, s) ← acknowledge s b b';
              match got, acked with Ok _, Ok _ => transfer rounds s r | _, _ => None end
          end
      end
  end.

(** One round from a synchronised pair. *)
Lemma transfer_round P s r z : sends P s -> s.(s_complete) = false -> P <> [] ->
  holds P (Z.to_nat (position s)) r -> r.(r_complete) = false -> from_option (fun z => 0 <= z) True z ->
  exists s' r', (forall rounds, transfer (z :: rounds) s r = transfer rounds s' r') /\ sends P s' /\
    s'.(s_complete) = r'.(r_complete) /\
    if s'.(s_complete) then holds P (length P) r'
    else holds P (Z.to_nat (position s')) r' /\ position s + 16 <= position s'.
Proof.
  intros Hs0 Hc0 HP Hr Hrc Hz. set (s1 := match z with Some z => resize s z | None => s end).
  assert (sends P s1 /\ position s1 = position s /\ s1.(s_complete) = false) as (Hs & Hpe & Hc).
  { unfold s1. destruct z as [z|]; [by apply resize_ok | done]. }
  rewrite <- Hpe in Hr |- *. destruct (next_block_ok _ _ Hs Hc HP) as (b & d & Hnb & Hbo & Hbn & Hbs & Hbm & Hlt & Hd).
  assert (0 <= position s1) as Hp0.
  { unfold position. pose proof (sn_block _ _ Hs). destruct (sn_size _ _ Hs) as (y & Hy & ->).
    destruct (szx_size y Hy) as (_ & _ & ?). nia. }
  destruct (sn_size _ _ Hs) as (y & Hy & Hsz). destruct (szx_size y Hy) as (_ & _ & Hrange).
  assert (sent_end s1 <= Z.of_nat (length P)) as Hle by (unfold sent_end; rewrite (sn_len _ _ Hs); lia).
  assert (sent_end s1 <= position s1 + s_block_size s1 /\
    (sent_end s1 < Z.of_nat (length P) -> sent_end s1 = position s1 + s_block_size s1)) as [Hse Hfull]
    by (unfold sent_end; rewrite (sn_len _ _ Hs); lia).
  destruct (acknowledge_echo P s1 b d Hs Hnb) as (s' & Hack & Hs' & Hc' & Hp').
  destruct (receive_ok P r (Z.to_nat (position s1)) (Z.to_nat (sent_end s1)) b) as (r' & Hrecv & Hr' & Hrc');
    [done | done | by apply (sn_max _ _ Hs) | unfold block_offset, position in *; rewrite Hbn, Hbs; lia
    | lia | lia | by rewrite Z2Nat.id by lia
    | rewrite Hbm; intros Hm; bool_to_prop; lia |].
  destruct (block_option_roundtrip b Hbo) as (n & buf & Hw & Hrd).
  exists s', r'. split.
  { intros rounds. cbn [transfer]. fold s1. rewrite Hnb. cbn [mbind option_bind]. unfold over_wire.
    rewrite Hw. cbn [mbind option_bind]. rewrite Hrd. cbn [mbind option_bind]. subst d. rewrite Hrecv.
    cbn [mbind option_bind]. rewrite Hack. done. }
  split; [done |]. split; [by rewrite Hc', Hrc' |]. destruct (s_complete s') eqn:Hf.
  - rewrite Hbm in Hc'. symmetry in Hc'. bool_to_prop. replace (length P) with (Z.to_nat (sent_end s1)) by lia. done.
  - rewrite Hp' by done. split; [done |]. rewrite Hbm in Hc'. symmetry in Hc'. bool_to_prop. lia.
Qed.

Lemma transfer_done rounds s r : s.(s_complete) = true ->
  exists s', transfer rounds s r = Some (s', r) /\ s'.(s_complete) = true.
Proof.
  intros Hc. destruct rounds as [|z rounds]; [by exists s |]. cbn [transfer].
  set (s1 := match z with Some z => resize s z | None => s end).
  assert (s1.(s_complete) = true) as Hc1 by (unfold s1, resize; destruct z; [destruct (_ <? _) |]; done).
  exists s1. split; [| done]. unfold next_block. by rewrite Hc1.
Qed.

Lemma transfer_ok P rounds : P <> [] -> forall s r,
  sends P s -> s.(s_complete) = false -> holds P (Z.to_nat (position s)) r -> r.(r_complete) = false ->
  Forall (from_option (fun z => 0 <= z) True) rounds ->
  Z.of_nat (length P) <= position s + 16 * Z.of_nat (length rounds) ->
  exists s' r', transfer rounds s r = Some (s', r') /\ s'.(s_complete) = true /\ r'.(r_complete) = true /\
    r_payload r' = P.
Proof.
  intros HP. induction rounds as [|z rounds IH]; intros s r Hs Hc Hr Hrc Hz Hlen.
  { destruct (sn_open _ _ Hs Hc) as [?|]; [| done]. simpl in Hlen. lia. }
  apply Forall_cons in Hz as [Hz Hzs].
  destruct (transfer_round P s r z) as (s' & r' & -> & Hs' & Hcc & Hnext); [done.. |].
  destruct (s_complete s') eqn:Hc'.
  - destruct (transfer_done rounds s' r' Hc') as (s'' & -> & Hd). exists s'', r'. split; [done |].
    split; [done |]. split; [done |]. unfold r_payload. destruct Hnext as [-> _ -> _]. apply take_ge. lia.
  - destruct Hnext as [Hr' Hstep]. apply IH; [done | done | done | done | done |]. simpl in Hlen. lia.
Qed.

(** C39: a block-wise transfer delivers a payload of 1 to 4096 octets.  (A
    longer one is refused when the sender is made; an empty one has no block to
    send and is not transferred.)  Whatever block sizes the two sides start with and whichever smaller sizes the receiving side asks
    for on the way, 256 rounds of sending a block, decoding its Block option,
    storing it and acknowledging it complete both sides, and the receiver
    holds exactly the payload that was sent; no round is refused. *)
Theorem block_transfer_delivers (P : bytes) (bs bs' : Z) (rounds : list (option Z))
  (HP : P <> []) (Hmax : (length P <= MAX_PAYLOAD)%nat) (Hn : (256 <= length rounds)%nat)
  (Hz : Forall (from_option (fun z => 0 <= z) True) rounds) :
  exists s s' r', sender_new P bs = Some (Ok s) /\
    transfer rounds s (receiver_new bs') = Some (s', r') /\
    s'.(s_complete) = true /\ r'.(r_complete) = true /\ r_payload r' = P.
Proof.
  destruct (sender_new_ok P bs Hmax) as (s & Hnew & Hs & Hpos & Hc). exists s.
  destruct (transfer_ok P rounds HP s (receiver_new bs')) as (s' & r' & Ht & Hrest); [done | done | | done | done | |].
  - rewrite Hpos. split; [done | by apply length_replicate | done | by left].
  - pose proof (MAX_PAYLOAD_Z _ Hmax). lia.
  - exists s', r'. done.
Qed.

Lemma sends_resize P s z : sends P s -> 0 <= z -> sends P (resize s z).
Proof.
  intros Hs Hz. destruct (s_complete s) eqn:Hc; [| destruct (decide (P = [])) as [->|HP]; [| by apply resize_ok]].
  all: unfold resize; destruct (_ <? _); [| done].
  all: destruct Hs; split; try done; cbn [set_position s_block_size current_block s_complete].
  all: try (pose proof (wrap32_u32 (current_block s * s_block_size s / szx_to_size z)); width).
  all: try (exists (Z.min z 6); split; [lia |]; unfold szx_to_size; by rewrite Z.shiftl_1_l).
  - congruence.
  - by right.
Qed.

Lemma sends_ack_block P s n done_ s' : sends P s -> ack_block s n = Some (done_, s') -> sends P s'.
Proof.
  intros Hs. unfold ack_block. destruct (n =? _); [| by intros [= _ <-]].
  destruct (checked_add _ _ _) as [m|] eqn:Hm; [| done]. apply checked_add_some in Hm as [-> _].
  cbn [mbind option_bind]. intros [= _ <-]. pose proof (MAX_PAYLOAD_Z _ (sn_max _ _ Hs)) as Hmax.
  destruct (sn_size _ _ Hs) as (z & Hz & Hsz). destruct (szx_size z Hz) as (_ & _ & Hr).
  pose proof (sn_block _ _ Hs) as Hb.
  destruct (_ <=? _) eqn:E; bool_to_prop.
  - destruct Hs; split; try done; cbn [set_position s_block_size current_block s_complete]; lia.
  - assert (current_block s + 1 < block_count (set_position s (s_block_size s) (current_block s + 1) (s_complete s))) as Hlt by done.
    unfold block_count in Hlt. cbn [set_position s_data_len s_block_size] in Hlt. rewrite (sn_len _ _ Hs) in Hlt.
    destruct Hs; split; try done; cbn [set_position s_block_size current_block s_complete]; [lia |].
    intros _. left. unfold position. cbn [set_position s_block_size current_block].
    set (L := Z.of_nat (length P)) in *. set (k := s_block_size s) in *. assert (0 <= L) by lia.
    assert (0 <= L / k <= L) by (split; [apply Z.div_pos; lia | apply Z.div_le_upper_bound; nia]).
    pose proof (Z.div_mod L k ltac:(lia)). pose proof (Z.mod_pos_bound L k ltac:(lia)).
    rewrite wrap32_small in Hlt by (destruct (_ =? 0); width). destruct (L mod k =? 0) eqn:E0; bool_to_prop; nia.
Qed.

(** The calls that move a sender. *)
Inductive sender_step (s : BlockSender) : BlockSender -> Prop :=
  | step_ack_block n fin s' : ack_block s n = Some (fin, s') -> sender_step s s'
  | step_acknowledge sent ack r s' : 0 <= ack.(num) -> 0 <= ack.(szx) ->
      acknowledge s sent ack = Some (r, s') -> sender_step s s'
  | step_resize z : 0 <= z -> sender_step s (resize s z).

Lemma sends_step P s s' : sends P s -> sender_step s s' -> sends P s'.
Proof.
  intros Hs [n fin t Ht | sent ack r t Hn Hz Ht | z Hz].
  - by eapply sends_ack_block.
  - destruct (acknowledge_ok P s sent ack Hs Hn Hz) as (r' & t' & Ht' & Hr). rewrite Ht in Ht'. simplify_eq.
    destruct r'; [by destruct Hr as (_ & ? & _) | by subst].
  - by apply sends_resize.
Qed.

Lemma sends_steps P bs s0 s : sender_new P bs = Some (Ok s0) -> rtc sender_step s0 s -> sends P s.
Proof.
  intros Hnew Hst. assert (length P <= MAX_PAYLOAD)%nat as Hmax.
  { unfold sender_new in Hnew. destruct (_ <? _)%nat eqn:E; bool_to_prop; done. }
  destruct (sender_new_ok P bs Hmax) as (s1 & Hnew' & Hs & _).
  rewrite Hnew in Hnew'. apply (inj Some), ok_inj in Hnew'. subst s1. clear Hnew.
  induction Hst as [|x y z Hxy Hyz IH]; [done |]. apply IH. by eapply sends_step.
Qed.

(** acknowledgements are safe.  In any state a sender reaches and for any
    pair of options, [acknowledge] does not panic; an error leaves the sender
    as it was; success means that the first option is the block in flight, and
    the sender then continues strictly after its start and never beyond its
    end, with blocks no larger than before, and reports completion exactly
    when nothing is left to send. *)
Lemma acknowledge_safe (P : bytes) (bs : Z) (s0 s : BlockSender) (sent ack : BlockOption)
  (Hnew : sender_new P bs = Some (Ok s0)) (Hst : rtc sender_step s0 s)
  (Hn : 0 <= ack.(num)) (Hz : 0 <= ack.(szx)) :
  exists r s', acknowledge s sent ack = Some (r, s') /\
    match r with
    | Err _ => s' = s
    | Ok fin => (exists d, next_block s = Some (Some (sent, d))) /\ fin = s'.(s_complete) /\
        s'.(s_block_size) <= s.(s_block_size) /\
        position s < Z.min (position s') (Z.of_nat (length P)) <= sent_end s /\
        fin = (Z.of_nat (length P) <=? position s')
    end.
Proof.
  destruct (acknowledge_ok P s sent ack (sends_steps P bs s0 s Hnew Hst) Hn Hz) as (r & s' & Ha & Hr).
  exists r, s'. split; [done |]. destruct r; [| done]. by destruct Hr as (? & _ & Hr).
Qed.
End sizes.

(** A 40-byte payload in 16-byte blocks after a first request for 64. *)
Definition demo : bytes := Z.of_nat <$> seq 0 40.

Lemma block_transfer_delivers_witness :
  exists s s' r', sender_new demo 64 = Some (Ok s) /\
    transfer (H := usize32) (Some 0 :: replicate 255 None) s (receiver_new 1024) = Some (s', r') /\
    r_payload r' = demo.
Proof.
  destruct (block_transfer_delivers (H := usize32) demo 64 1024 (Some 0 :: replicate 255 None))
    as (s & s' & r' & H1 & H2 & _ & _ & H3).
  - done.
  - apply Nat.leb_le. reflexivity.
  - apply Nat.leb_le. reflexivity.
  - apply Forall_cons. split; [simpl; lia |]. apply Forall_replicate. exact I.
  - exists s, s', r'. auto.
Defined.

(** The first of three 16-byte blocks is acknowledged. *)
Definition demo_sender : BlockSender :=
  match sender_new demo 16 with Some (Ok s) => s | _ => set_position {| s_data := []; s_data_len := 0;
    s_block_size := 16; current_block := 0; s_complete := false |} 16 0 false end.
End Block.
