(* ===== verification/Trickle.v ===== *)
(** * The Trickle timer

    lichen-rpl/src/trickle.rs: the caller-driven RFC 6206 timer that paces
    DIO transmission.  The caller supplies the clock and the random offset,
    so every method is a function of the timer.  [debug_assertions] is the
    build's flag: a failed [debug_assert!] is the outer [None]. *)

From S2P Require Import Prelude.

Module Trickle.

Definition LICHEN_TRICKLE_IMIN_MS : Z := 4000.
Definition LICHEN_TRICKLE_IMAX_DOUBLINGS : Z := 8.
Definition LICHEN_TRICKLE_IMAX_MS : Z := Z.shiftl LICHEN_TRICKLE_IMIN_MS LICHEN_TRICKLE_IMAX_DOUBLINGS.
Definition LICHEN_TRICKLE_K : Z := 10.

Inductive TrickleEvent := TE_Stopped | Transmit (at_ms : Z) | Expire (at_ms : Z).

Inductive TrickleState := Stopped | WaitingTransmit | WaitingExpire.
#[export] Instance TrickleState_eq_dec : EqDecision TrickleState.
Proof. solve_decision. Defined.

Definition can_transition_to (s next : TrickleState) : bool :=
  match s, next with
  | _, Stopped => true
  | Stopped, WaitingTransmit => true
  | WaitingTransmit, WaitingTransmit => true
  | WaitingTransmit, WaitingExpire => true
  | WaitingExpire, WaitingTransmit => true
  | _, _ => false
  end.

Record InvalidTrickleTransition := { from : TrickleState; to : TrickleState }.

Record TrickleScope := { dodag_id : bytes; version : Z }.
#[export] Instance TrickleScope_eq_dec : EqDecision TrickleScope.
Proof. solve_decision. Defined.

Record TrickleTimer := {
  imin : Z;
  max_interval : Z;
  k : Z;
  interval : Z;
  counter : Z;
  interval_start : Z;
  transmit_time : Z;
  state : TrickleState;
  scope : option TrickleScope;
  transmitted : bool
}.

(** [None]: the assertion on [imin_ms] fails. *)
Definition new (imin_ms imax_doublings k : Z) : option TrickleTimer :=
  if negb (0 <? imin_ms) then None
  else
    let mult := if imax_doublings <? 32 then Some (Z.shiftl 1 imax_doublings) else None in
    let max_interval := default u32_max (mult ≫= checked_mul u32_max imin_ms) in
    Some {| imin := imin_ms; max_interval := max_interval; k := k; interval := imin_ms;
            counter := 0; interval_start := 0; transmit_time := 0; state := Stopped;
            scope := None; transmitted := false |}.

Definition with_scope (t : TrickleTimer) (s : option TrickleScope) : TrickleTimer :=
  {| imin := t.(imin); max_interval := t.(max_interval); k := t.(k); interval := t.(interval);
     counter := t.(counter); interval_start := t.(interval_start);
     transmit_time := t.(transmit_time); state := t.(state); scope := s;
     transmitted := t.(transmitted) |}.
Definition with_counter (t : TrickleTimer) (c : Z) : TrickleTimer :=
  {| imin := t.(imin); max_interval := t.(max_interval); k := t.(k); interval := t.(interval);
     counter := c; interval_start := t.(interval_start);
     transmit_time := t.(transmit_time); state := t.(state); scope := t.(scope);
     transmitted := t.(transmitted) |}.
Definition with_interval (t : TrickleTimer) (i : Z) : TrickleTimer :=
  {| imin := t.(imin); max_interval := t.(max_interval); k := t.(k); interval := i;
     counter := t.(counter); interval_start := t.(interval_start);
     transmit_time := t.(transmit_time); state := t.(state); scope := t.(scope);
     transmitted := t.(transmitted) |}.
Definition with_state (t : TrickleTimer) (s : TrickleState) : TrickleTimer :=
  {| imin := t.(imin); max_interval := t.(max_interval); k := t.(k); interval := t.(interval);
     counter := t.(counter); interval_start := t.(interval_start);
     transmit_time := t.(transmit_time); state := s; scope := t.(scope);
     transmitted := t.(transmitted) |}.
Definition with_transmitted (t : TrickleTimer) (b : bool) : TrickleTimer :=
  {| imin := t.(imin); max_interval := t.(max_interval); k := t.(k); interval := t.(interval);
     counter := t.(counter); interval_start := t.(interval_start);
     transmit_time := t.(transmit_time); state := t.(state); scope := t.(scope);
     transmitted := b |}.
(** The fields [begin_interval] resets before it looks at the clock. *)
Definition with_begin (t : TrickleTimer) (start : Z) : TrickleTimer :=
  {| imin := t.(imin); max_interval := t.(max_interval); k := t.(k); interval := t.(interval);
     counter := 0; interval_start := start; transmit_time := t.(transmit_time);
     state := t.(state); scope := t.(scope); transmitted := false |}.
Definition with_transmit_time (t : TrickleTimer) (x : Z) : TrickleTimer :=
  {| imin := t.(imin); max_interval := t.(max_interval); k := t.(k); interval := t.(interval);
     counter := t.(counter); interval_start := t.(interval_start); transmit_time := x;
     state := t.(state); scope := t.(scope); transmitted := t.(transmitted) |}.

Definition lichen_profile : option TrickleTimer :=
  new LICHEN_TRICKLE_IMIN_MS LICHEN_TRICKLE_IMAX_DOUBLINGS LICHEN_TRICKLE_K.

Definition new_scoped (imin_ms imax_doublings k : Z) (s : TrickleScope) : option TrickleTimer :=
  timer ← new imin_ms imax_doublings k; Some (with_scope timer (Some s)).

Definition lichen_profile_scoped (s : TrickleScope) : option TrickleTimer :=
  new_scoped LICHEN_TRICKLE_IMIN_MS LICHEN_TRICKLE_IMAX_DOUBLINGS LICHEN_TRICKLE_K s.

Definition set_scope (t : TrickleTimer) (s : TrickleScope) : TrickleTimer := with_scope t (Some s).

Definition transition_to (t : TrickleTimer) (next : TrickleState)
  : result InvalidTrickleTransition unit * TrickleTimer :=
  if can_transition_to t.(state) next then (Ok tt, with_state t next)
  else (Err {| from := t.(state); to := next |}, t).

Definition begin_interval (t : TrickleTimer) (now rand_offset : Z)
  : result InvalidTrickleTransition unit * TrickleTimer :=
  let t := with_begin t now in
  match checked_add u64_max now t.(interval) with
  | None => transition_to (with_transmit_time t now) Stopped
  | Some _ =>
      let half := Z.shiftr t.(interval) 1 + Z.land t.(interval) 1 in
      let range := t.(interval) - half in
      let offset := if 0 <? range then rand_offset mod range else 0 in
      let t := with_transmit_time t
        (saturating_add u64_max (saturating_add u64_max now half) offset) in
      transition_to t WaitingTransmit
  end.

(** A [debug_assert!(r.is_ok())] after a call. *)
Definition debug_ok {E A} (debug_assertions : bool) (r : result E A * TrickleTimer) : option TrickleTimer :=
  match r with
  | (Ok _, t) => Some t
  | (Err _, t) => if debug_assertions then None else Some t
  end.

Definition start (debug_assertions : bool) (t : TrickleTimer) (now rand_offset : Z) : option TrickleTimer :=
  debug_ok debug_assertions (begin_interval (with_interval t t.(imin)) now rand_offset).

Definition interval_end (t : TrickleTimer) : Z :=
  saturating_add u64_max t.(interval_start) t.(interval).

Definition heard_consistent (t : TrickleTimer) : bool * TrickleTimer :=
  if bool_decide (is_Some t.(scope)) || bool_decide (t.(state) = Stopped) then (false, t)
  else (true, with_counter t (saturating_add u32_max t.(counter) 1)).

Definition heard_consistent_for (t : TrickleTimer) (observed : TrickleScope) : bool * TrickleTimer :=
  if bool_decide (t.(state) = Stopped) || negb (bool_decide (t.(scope) = Some observed)) then (false, t)
  else (true, with_counter t (saturating_add u32_max t.(counter) 1)).

Definition should_transmit (t : TrickleTimer) : bool :=
  negb (bool_decide (t.(state) = Stopped)) && (t.(counter) <? t.(k)).

Definition try_fire_transmit (t : TrickleTimer) : result InvalidTrickleTransition bool * TrickleTimer :=
  match transition_to t WaitingExpire with
  | (Err e, t) => (Err e, t)
  | (Ok _, t) => let t := with_transmitted t true in (Ok (should_transmit t), t)
  end.

(** The assertion or, without it, the [unwrap] panics on an error. *)
Definition fire_transmit (t : TrickleTimer) : option (bool * TrickleTimer) :=
  match try_fire_transmit t with
  | (Ok b, t) => Some (b, t)
  | (Err _, _) => None
  end.

Definition try_expire (t : TrickleTimer) (now rand_offset : Z)
  : result InvalidTrickleTransition unit * TrickleTimer :=
  if negb (bool_decide (t.(state) = WaitingExpire)) then
    (Err {| from := t.(state); to := WaitingTransmit |}, t)
  else
    begin_interval (with_interval t (Z.min (saturating_mul u32_max t.(interval) 2) t.(max_interval)))
      now rand_offset.

Definition expire (debug_assertions : bool) (t : TrickleTimer) (now rand_offset : Z) : option TrickleTimer :=
  debug_ok debug_assertions (try_expire t now rand_offset).

Definition try_reset (t : TrickleTimer) (now rand_offset : Z)
  : result InvalidTrickleTransition unit * TrickleTimer :=
  begin_interval (with_interval t t.(imin)) now rand_offset.

Definition reset (debug_assertions : bool) (t : TrickleTimer) (now rand_offset : Z) : option TrickleTimer :=
  debug_ok debug_assertions (try_reset t now rand_offset).

Definition next_event (t : TrickleTimer) : TrickleEvent :=
  if bool_decide (t.(state) = Stopped) then TE_Stopped
  else if negb t.(transmitted) then Transmit t.(transmit_time)
  else Expire (interval_end t).

(** ** The timer as a state machine *)

(** One call of a state-changing method, at a u64 time with a u32 offset. *)
Inductive step (t : TrickleTimer) : TrickleTimer -> Prop :=
  | s_start d now off t' : is_u64 now -> is_u32 off -> start d t now off = Some t' -> step t t'
  | s_scope s : step t (set_scope t s)
  | s_heard : step t (snd (heard_consistent t))
  | s_heard_for s : step t (snd (heard_consistent_for t s))
  | s_fire : step t (snd (try_fire_transmit t))
  | s_expire now off : is_u64 now -> is_u32 off -> step t (snd (try_expire t now off))
  | s_reset now off : is_u64 now -> is_u32 off -> step t (snd (try_reset t now off)).

(** RFC 6206: the interval is within [Imin, Imax] and the transmission point
    within its second half; the bookkeeping flag follows the state. *)
Record inv (t : TrickleTimer) : Prop := {
  inv_imin : 1 <= t.(imin);
  inv_low : t.(imin) <= t.(interval);
  inv_high : t.(interval) <= t.(max_interval);
  inv_max : t.(max_interval) <= u32_max;
  inv_counter : 0 <= t.(counter) <= u32_max;
  inv_fit : t.(state) <> Stopped -> t.(interval_start) + t.(interval) <= u64_max;
  inv_half : t.(state) <> Stopped ->
    t.(interval_start) + (t.(interval) + 1) / 2 <= t.(transmit_time);
  inv_before : t.(state) <> Stopped -> 2 <= t.(interval) ->
    t.(transmit_time) < t.(interval_start) + t.(interval);
  inv_unit : t.(state) <> Stopped -> t.(interval) = 1 ->
    t.(transmit_time) = t.(interval_start) + t.(interval);
  inv_flag : t.(state) <> Stopped -> t.(transmitted) = bool_decide (t.(state) = WaitingExpire)
}.

Lemma half_up i : 0 <= i -> Z.shiftr i 1 + Z.land i 1 = (i + 1) / 2.
Proof.
  intros Hi. rewrite Z.shiftr_div_pow2 by lia. change (Z.land i 1) with (Z.land i (Z.ones 1)).
  rewrite Z.land_ones by lia. change (2 ^ 1) with 2.
  pose proof (Z.div_mod i 2 ltac:(lia)). pose proof (Z.mod_pos_bound i 2 ltac:(lia)).
  apply Z.div_unique with (1 - i mod 2); lia.
Qed.

(** Whatever the state, a new interval begins without an invalid transition. *)
Lemma begin_interval_inv t now off :
  is_u64 now -> is_u32 off -> 1 <= t.(imin) -> t.(imin) <= t.(interval) ->
  t.(interval) <= t.(max_interval) -> t.(max_interval) <= u32_max ->
  let '(r, t') := begin_interval t now off in
  r = Ok tt /\ inv t' /\ t'.(interval) = t.(interval) /\ t'.(counter) = 0 /\
  t'.(state) = if now + t.(interval) <=? u64_max then WaitingTransmit else Stopped.
Proof.
  intros Hnow Hoff H1 H2 H3 H4. unfold begin_interval, checked_add. cbn [with_begin interval].
  destruct (_ <=? u64_max) eqn:Hfit; bool_to_prop.
  - unfold transition_to. cbn [state with_transmit_time].
    assert (can_transition_to (state t) WaitingTransmit = true) as Hc by (by destruct (state t)).
    cbn [with_begin state]. rewrite Hc, half_up by lia. split; [done |].
    pose proof (Z.div_mod (interval t + 1) 2 ltac:(lia)).
    pose proof (Z.mod_pos_bound (interval t + 1) 2 ltac:(lia)).
    set (half := (interval t + 1) / 2) in *.
    set (o := if 0 <? interval t - half then off mod (interval t - half) else 0).
    assert (0 <= o /\ (o < interval t - half \/ interval t = half /\ o = 0)) as Hoffb.
    { subst o. destruct (0 <? _) eqn:E; bool_to_prop; [| lia].
      pose proof (Z.mod_pos_bound off (interval t - half) ltac:(lia)). lia. }
    clearbody o.
    split; [| by rewrite ?(proj2 (Z.leb_le _ _) Hfit)].
    assert (saturating_add u64_max (saturating_add u64_max now half) o = now + half + o) as ->
      by (unfold saturating_add; width).
    constructor; cbn [imin interval max_interval counter state interval_start transmit_time transmitted
      with_state with_transmit_time with_begin]; intros; fold half; try width; done.
  - unfold transition_to. cbn [state with_transmit_time with_begin].
    assert (can_transition_to (state t) Stopped = true) as -> by (by destruct (state t)).
    split; [done |]. split; [constructor; cbn; try width; done | done].
Qed.

Lemma timer_new_inv imin_ms d k t :
  is_u32 imin_ms -> 0 <= d -> new imin_ms d k = Some t -> inv t.
Proof.
  intros Hi Hd. unfold new. destruct (negb _) eqn:E; [done |]. bool_to_prop. intros [= <-].
  assert (imin_ms <= default u32_max ((if d <? 32 then Some (Z.shiftl 1 d) else None) ≫=
    checked_mul u32_max imin_ms) <= u32_max) as Hm.
  { destruct (d <? 32); simpl; [| width]. unfold checked_mul. rewrite Z.shiftl_1_l.
    pose proof (Z.pow_pos_nonneg 2 d ltac:(lia) Hd).
    destruct (_ <=? _) eqn:E2; simpl; bool_to_prop; [nia | width]. }
  constructor; cbn [imin interval max_interval counter state]; try done; lia || width.
Qed.

Lemma with_interval_bounds t : inv t ->
  1 <= t.(imin) /\ t.(imin) <= t.(imin) <= t.(max_interval) /\
  t.(imin) <= Z.min (saturating_mul u32_max t.(interval) 2) t.(max_interval) <= t.(max_interval) /\
  t.(max_interval) <= u32_max.
Proof. intros []. unfold saturating_mul. lia. Qed.

Lemma with_counter_inv t : inv t -> inv (with_counter t (saturating_add u32_max t.(counter) 1)).
Proof. intros []. constructor; try done. cbn. unfold saturating_add. width. Qed.

Lemma step_inv t t' : inv t -> step t t' -> inv t'.
Proof.
  intros I Hs. pose proof (with_interval_bounds _ I) as (B1 & B2 & B3 & B4).
  destruct Hs as [d now off t' Hn Ho Hst | s | | s | | now off Hn Ho | now off Hn Ho].
  - unfold start in Hst.
    pose proof (begin_interval_inv (with_interval t (imin t)) now off Hn Ho B1 ltac:(apply B2) ltac:(apply B2) B4) as Hb.
    destruct (begin_interval _ _ _) as [r t1]. destruct Hb as (-> & I1 & _). by injection Hst as <-.
  - by destruct I.
  - unfold heard_consistent. destruct (_ || _); [done | by apply with_counter_inv].
  - unfold heard_consistent_for. destruct (_ || _); [done | by apply with_counter_inv].
  - unfold try_fire_transmit, transition_to. destruct (can_transition_to _ _) eqn:Hc; [| done].
    destruct I, t as [? ? ? ? ? ? ? st0 ? ?]. destruct st0; try done. constructor; cbn in *; intros; auto.
  - unfold try_expire. destruct (negb _); [done |].
    pose proof (begin_interval_inv (with_interval t (Z.min (saturating_mul u32_max (interval t) 2) (max_interval t)))
      now off Hn Ho B1 ltac:(apply B3) ltac:(apply B3) B4) as Hb.
    destruct (begin_interval _ _ _) as [r t1]. apply Hb.
  - unfold try_reset.
    pose proof (begin_interval_inv (with_interval t (imin t)) now off Hn Ho B1 ltac:(apply B2) ltac:(apply B2) B4) as Hb.
    destruct (begin_interval _ _ _) as [r t1]. apply Hb.
Qed.

(** whatever the caller does with a timer made by [new], the interval
    stays within [Imin, Imax] and the transmission point within the second
    half of the interval, before its end (at its end for the degenerate
    one-millisecond interval); what [next_event] announces is what the timer
    will accept next. *)
Lemma trickle_invariant (imin_ms d k : Z) (t0 t : TrickleTimer)
  (Hi : is_u32 imin_ms) (Hd : 0 <= d) (Hn : new imin_ms d k = Some t0) (Hs : rtc step t0 t) :
  inv t /\
  match next_event t with
  | TE_Stopped => t.(state) = Stopped
  | Transmit at_ms => (exists b t', fire_transmit t = Some (b, t')) /\
      t.(interval_start) + (t.(interval) + 1) / 2 <= at_ms <= t.(interval_start) + t.(interval)
  | Expire at_ms => (forall d now off, is_u64 now -> is_u32 off -> exists t', expire d t now off = Some t') /\
      at_ms = t.(interval_start) + t.(interval)
  end.
Proof.
  assert (inv t) as I.
  { pose proof (timer_new_inv _ _ _ _ Hi Hd Hn) as I0. clear Hn. induction Hs as [|t1 t2 t3 H12 _ IH]; [done |].
    apply IH. by eapply step_inv. }
  split; [done |]. pose proof (with_interval_bounds _ I) as (B1 & B2 & B3 & B4).
  destruct I as [H1 H2 H3 H4 _ Hfit Hhalf Hbef Hunit Hflag]. unfold next_event.
  destruct (state t) eqn:Hst; cbn [bool_decide decide]; [done | |];
    rewrite Hflag by done; cbn.
  - unfold fire_transmit, try_fire_transmit, transition_to. rewrite Hst. cbn. split; [eauto |].
    split; [by apply Hhalf |]. destruct (decide (interval t = 1)) as [E | E];
      [rewrite (Hunit ltac:(done) E); lia | specialize (Hbef ltac:(done)); lia].
  - split; [| unfold interval_end, saturating_add; specialize (Hfit ltac:(done)); lia].
    intros d' now off Hnow Hoff. unfold expire, try_expire. rewrite Hst. cbn [bool_decide decide negb].
    pose proof (begin_interval_inv (with_interval t (Z.min (saturating_mul u32_max (interval t) 2) (max_interval t)))
      now off Hnow Hoff B1 ltac:(apply B3) ltac:(apply B3) B4) as Hb.
    cbn. destruct (begin_interval _ _ _) as [r t1]. destruct Hb as (-> & _). by eexists.
Qed.

(** ** Backoff and suppression *)

(** A run of complete intervals: fire, then expire at the given time. *)
Fixpoint rounds (t : TrickleTimer) (ends : list (Z * Z)) : option TrickleTimer :=
  match ends with
  | [] => Some t
  | (now, off) :: ends =>
      '(_, t) ← fire_transmit t;
      t ← expire true t now off;
      rounds t ends
  end.

Definition clock_ok (e : Z * Z) : Prop := 0 <= fst e <= u64_max - u32_max /\ is_u32 (snd e).

Lemma begin_interval_frame t now off :
  let t' := snd (begin_interval t now off) in
  t'.(imin) = t.(imin) /\ t'.(max_interval) = t.(max_interval) /\ t'.(k) = t.(k) /\ t'.(scope) = t.(scope).
Proof.
  unfold begin_interval, transition_to. destruct (checked_add _ _ _); by destruct (can_transition_to _ _).
Qed.

Lemma round_spec t now off : inv t -> t.(state) = WaitingTransmit -> clock_ok (now, off) ->
  exists b t1 t', fire_transmit t = Some (b, t1) /\ expire true t1 now off = Some t' /\
    inv t' /\ t'.(state) = WaitingTransmit /\ t'.(imin) = t.(imin) /\
    t'.(max_interval) = t.(max_interval) /\ t'.(interval) = Z.min (t.(interval) * 2) t.(max_interval).
Proof.
  intros I Hst [Hnow Hoff]. cbn [fst snd] in *.
  set (t1 := with_transmitted (with_state t WaitingExpire) true).
  exists (should_transmit t1), t1.
  assert (try_fire_transmit t = (Ok (should_transmit t1), t1)) as Hf
    by (unfold try_fire_transmit, transition_to; by rewrite Hst).
  assert (inv t1) as I1.
  { apply (step_inv t); [done |]. replace t1 with (snd (try_fire_transmit t)) by (by rewrite Hf). constructor. }
  pose proof (with_interval_bounds _ I1) as (B1 & B2 & B3 & B4).
  set (t2 := with_interval t1 (Z.min (saturating_mul u32_max (interval t1) 2) (max_interval t1))).
  pose proof (begin_interval_inv t2 now off ltac:(width) Hoff B1 ltac:(apply B3) ltac:(apply B3) B4) as Hb.
  pose proof (begin_interval_frame t2 now off) as Hfr.
  exists (snd (begin_interval t2 now off)). split; [unfold fire_transmit; by rewrite Hf |].
  change (expire true t1 now off) with (debug_ok true (begin_interval t2 now off)).
  destruct (begin_interval t2 now off) as [r t']. destruct Hb as (-> & I' & Hi & _ & Hs).
  cbn [snd] in Hfr. destruct Hfr as (F1 & F2 & _ & _).
  assert (interval t2 = Z.min (interval t * 2) (max_interval t)) as Hint.
  { change (Z.min (saturating_mul u32_max (interval t) 2) (max_interval t) = Z.min (interval t * 2) (max_interval t)).
    unfold saturating_mul. pose proof (inv_max _ I). lia. }
  cbn [snd]. split; [done |]. split; [done |]. split.
  - rewrite Hs, (proj2 (Z.leb_le _ _)); [done |]. pose proof (inv_max _ I). width.
  - split; [exact F1 |]. split; [exact F2 |]. cbn [snd]. congruence.
Qed.

Lemma min_double a m i : 0 <= m -> 0 <= i -> 1 <= a ->
  Z.min (Z.min (a * 2 ^ i) m * 2) m = Z.min (a * 2 ^ (i + 1)) m.
Proof. intros. rewrite Z.pow_add_r, Z.pow_1_r by lia. lia. Qed.

Lemma rounds_spec ends : forall t i, inv t -> t.(state) = WaitingTransmit ->
  0 <= i -> t.(interval) = Z.min (t.(imin) * 2 ^ i) t.(max_interval) -> Forall clock_ok ends ->
  exists t', rounds t ends = Some t' /\ inv t' /\
    t'.(interval) = Z.min (t.(imin) * 2 ^ (i + Z.of_nat (length ends))) t.(max_interval).
Proof.
  induction ends as [|[now off] ends IH]; intros t i I Hst Hi Hint Hc; simpl.
  - exists t. by rewrite Z.add_0_r.
  - apply Forall_cons in Hc as [Hc1 Hc].
    destruct (round_spec t now off I Hst Hc1) as (b & t1 & t' & -> & He & I' & Hst' & Hm & Hx & Hi').
    simpl. rewrite He. simpl.
    destruct (IH t' (i + 1) I' Hst' ltac:(lia)) as (t'' & -> & I'' & Hi''); [| done |].
    + rewrite Hi', Hint, Hm, Hx. pose proof (inv_imin _ I). pose proof (inv_low _ I). pose proof (inv_high _ I).
      apply min_double; lia.
    + exists t''. split; [done |]. split; [done |]. rewrite Hi'', Hm, Hx. do 3 f_equal. lia.
Qed.

(** exponential backoff.  From any state, [start] begins at Imin, and
    after [n] undisturbed intervals (each fired and expired while the clock
    is not exhausted) the interval is Imin doubled [n] times, capped at Imax;
    no call along the way is refused. *)
Lemma trickle_backoff (t : TrickleTimer) (now off : Z) (ends : list (Z * Z))
  (I : inv t) (Hc : Forall clock_ok ((now, off) :: ends)) :
  exists t0 t', start true t now off = Some t0 /\ rounds t0 ends = Some t' /\
    t'.(interval) = Z.min (t.(imin) * 2 ^ Z.of_nat (length ends)) t.(max_interval).
Proof.
  apply Forall_cons in Hc as [[Hnow Hoff] Hc]. cbn [fst snd] in *.
  pose proof (with_interval_bounds _ I) as (B1 & B2 & B3 & B4).
  pose proof (begin_interval_inv (with_interval t (imin t)) now off ltac:(width) Hoff B1
    ltac:(apply B2) ltac:(apply B2) B4) as Hb.
  pose proof (begin_interval_frame (with_interval t (imin t)) now off) as Hf.
  unfold start. destruct (begin_interval _ now off) as [r t0]. destruct Hb as (-> & I0 & Hi & _ & Hs).
  cbn [snd] in Hf. destruct Hf as (F1 & F2 & _).
  destruct (rounds_spec ends t0 0 I0) as (t' & Hr & _ & Hi'); [| lia | | done |].
  - rewrite Hs, (proj2 (Z.leb_le _ _)); [done |]. cbn [with_interval interval]. width.
  - rewrite Hi, F1, F2. cbn [with_interval interval imin max_interval]. rewrite Z.mul_1_r. lia.
  - exists t0, t'. split; [done |]. split; [done |]. by rewrite Hi', F1, F2.
Qed.

(** [n] consistent transmissions heard in a row. *)
Fixpoint heard (n : nat) (t : TrickleTimer) : TrickleTimer :=
  match n with
  | O => t
  | S n => snd (heard_consistent (heard n t))
  end.

Lemma heard_spec n t : t.(scope) = None -> t.(state) = WaitingTransmit -> 0 <= t.(counter) <= u32_max ->
  heard n t = with_counter t (Z.min u32_max (t.(counter) + Z.of_nat n)).
Proof.
  intros Hsc Hst Hc. induction n as [|n IH]; simpl.
  - rewrite Z.add_0_r, Z.min_r by lia. by destruct t.
  - rewrite IH. unfold heard_consistent. cbn [with_counter scope state counter].
    rewrite Hsc, Hst. rewrite (bool_decide_false (is_Some None)) by (by intros []).
    rewrite bool_decide_false by done. unfold with_counter, saturating_add.
    cbn [orb snd imin max_interval k interval counter interval_start transmit_time state scope transmitted].
    f_equal. rewrite Nat2Z.inj_succ. lia.
Qed.

(** suppression.  In a new interval the timer asks for a transmission
    exactly when fewer than [k] consistent ones were heard since the interval
    began, whatever happened in earlier intervals. *)
Lemma trickle_suppression (t : TrickleTimer) (now off : Z) (n : nat)
  (I : inv t) (Hsc : t.(scope) = None) (Hk : is_u32 t.(k)) (Hc : clock_ok (now, off)) :
  exists t0 t1, start true t now off = Some t0 /\
    fire_transmit (heard n t0) = Some (Z.of_nat n <? t.(k), t1).
Proof.
  destruct Hc as [Hnow Hoff]. cbn [fst snd] in *.
  pose proof (with_interval_bounds _ I) as (B1 & B2 & B3 & B4).
  pose proof (begin_interval_inv (with_interval t (imin t)) now off ltac:(width) Hoff B1
    ltac:(apply B2) ltac:(apply B2) B4) as Hb.
  pose proof (begin_interval_frame (with_interval t (imin t)) now off) as Hf.
  unfold start. destruct (begin_interval _ now off) as [r t0]. destruct Hb as (-> & I0 & Hi & Hct & Hs).
  cbn [snd] in Hf. destruct Hf as (_ & _ & F3 & F4).
  rewrite (proj2 (Z.leb_le _ _)) in Hs by (cbn [with_interval interval]; width).
  cbn [with_interval k scope] in F3, F4. rewrite Hsc in F4.
  eexists t0, _. split; [done |].
  rewrite heard_spec by (done || (rewrite Hct; width)).
  unfold fire_transmit, try_fire_transmit, transition_to. cbn [with_counter state]. rewrite Hs.
  cbn. do 2 f_equal. unfold should_transmit. cbn. rewrite Hct, F3. 
  destruct (Z.of_nat n <? k t) eqn:E; bool_to_prop; [apply Z.ltb_lt | apply Z.ltb_ge]; width.
Qed.

Definition sample : TrickleTimer :=
  {| imin := 4000; max_interval := 1024000; k := 10; interval := 4000; counter := 0;
     interval_start := 0; transmit_time := 0; state := Stopped; scope := None; transmitted := false |}.

Lemma sample_is_profile : lichen_profile = Some sample.
Proof. reflexivity. Qed.
Lemma sample_inv : inv sample.
Proof. apply (timer_new_inv 4000 8 10); [width | lia | reflexivity]. Qed.

End Trickle.
