(* ===== verification/Loadng.v ===== *)
(** * LOADng route discovery

    lichen-core/src/loadng.rs: the RREQ/RREP/RERR codecs, the freshness test
    on sequence numbers and the expanding-ring discovery.  The typestate
    parameter [S] of [RouteDiscovery<S>] is the index of the record. *)

From S2P Require Import Prelude SeqNum.

Module Loadng.

Definition LOADNG_ICMPV6_TYPE : Z := 158.
Definition INITIAL_HOP_LIMIT : Z := 4.
Definition MAX_HOP_LIMIT : Z := 15.
Definition SEQ_HALF : Z := 32768.
Definition EXPANDING_RING : list Z := [4; 8; 15].
Definition RREP_FLAG_PROXY : Z := 1.

Definition seq_is_fresher (existing incoming : Z) : bool :=
  if existing =? incoming then false else wrap16 (incoming - existing) <? SEQ_HALF.

Inductive LoadngCode := C_Rreq | C_Rrep | C_Rerr.
Definition code_from_u8 (v : Z) : option LoadngCode :=
  if v =? 0 then Some C_Rreq else if v =? 1 then Some C_Rrep else if v =? 2 then Some C_Rerr else None.
Definition code_u8 (c : LoadngCode) : Z :=
  match c with C_Rreq => 0 | C_Rrep => 1 | C_Rerr => 2 end.

Inductive RerrCode := Unspecified | NoRoute | Other (v : Z).
Definition rerr_from_u8 (v : Z) : RerrCode :=
  if v =? 0 then Unspecified else if v =? 1 then NoRoute else Other v.
Definition rerr_u8 (c : RerrCode) : Z :=
  match c with Unspecified => 0 | NoRoute => 1 | Other v => v end.

Inductive RouteDiscoveryState := Idle | Searching | Replied | Failed.
#[export] Instance RouteDiscoveryState_eq_dec : EqDecision RouteDiscoveryState.
Proof. solve_decision. Defined.

Inductive LoadngError :=
  | LN_TooShort (e : TooShort)
  | LN_BufferTooSmall (e : BufferTooSmall)
  | UnknownCode (c : Z)
  | HopLimitExceeded (got : Z)
  | InvalidDiscoveryTransition (from to : RouteDiscoveryState)
  | InvalidDiscoveryReply.

Definition RREQ_RREP_LEN : nat := 36.
Definition RERR_LEN : nat := 18.

Definition can_transition_to (s next : RouteDiscoveryState) : bool :=
  match s, next with
  | Idle, Searching => true
  | Searching, (Searching | Replied | Failed) => true
  | Replied, _ | Failed, _ => false
  | _, _ => false
  end.

Definition transition_to (s next : RouteDiscoveryState) : result LoadngError RouteDiscoveryState :=
  if can_transition_to s next then Ok next else Err (InvalidDiscoveryTransition s next).

Record Rreq := {
  rq_originator : bytes; rq_destination : bytes; rq_seq_num : Z; rq_hop_limit : Z; rq_flags : Z
}.
Record Rrep := {
  rp_originator : bytes; rp_destination : bytes; rp_seq_num : Z; rp_hop_count : Z; rp_flags : Z
}.
Record Rerr := { re_unreachable : bytes; re_error_code : RerrCode; re_flags : Z }.

(** ** Codecs *)

Definition rreq_from_bytes (data : bytes) : result LoadngError Rreq :=
  if (length data <? RREQ_RREP_LEN)%nat then
    Err (LN_TooShort {| expected := RREQ_RREP_LEN; actual := length data |})
  else
    let hop_limit := nth 1 data 0 in
    if MAX_HOP_LIMIT <? hop_limit then Err (HopLimitExceeded hop_limit)
    else Ok {| rq_flags := nth 0 data 0; rq_hop_limit := hop_limit;
               rq_seq_num := from_be [nth 2 data 0; nth 3 data 0];
               rq_originator := slice 4 20 data; rq_destination := slice 20 36 data |}.

Definition rreq_write_to (m : Rreq) (out : bytes) : result LoadngError nat * bytes :=
  if (length out <? RREQ_RREP_LEN)%nat then
    (Err (LN_BufferTooSmall {| required := RREQ_RREP_LEN; provided := length out |}), out)
  else
    let out := <[0%nat := m.(rq_flags)]> out in
    let out := <[1%nat := m.(rq_hop_limit)]> out in
    let out := list_inserts 2 (to_be 2 m.(rq_seq_num)) out in
    let out := list_inserts 4 m.(rq_originator) out in
    let out := list_inserts 20 m.(rq_destination) out in
    (Ok RREQ_RREP_LEN, out).

Definition with_decremented_hop_limit (m : Rreq) : option Rreq :=
  if m.(rq_hop_limit) =? 0 then None
  else Some {| rq_originator := m.(rq_originator); rq_destination := m.(rq_destination);
               rq_seq_num := m.(rq_seq_num); rq_hop_limit := m.(rq_hop_limit) - 1;
               rq_flags := m.(rq_flags) |}.

Definition rrep_from_bytes (data : bytes) : result LoadngError Rrep :=
  if (length data <? RREQ_RREP_LEN)%nat then
    Err (LN_TooShort {| expected := RREQ_RREP_LEN; actual := length data |})
  else
    let hop_count := nth 1 data 0 in
    if MAX_HOP_LIMIT <? hop_count then Err (HopLimitExceeded hop_count)
    else Ok {| rp_flags := nth 0 data 0; rp_hop_count := hop_count;
               rp_seq_num := from_be [nth 2 data 0; nth 3 data 0];
               rp_originator := slice 4 20 data; rp_destination := slice 20 36 data |}.

Definition rrep_write_to (m : Rrep) (out : bytes) : result LoadngError nat * bytes :=
  if (length out <? RREQ_RREP_LEN)%nat then
    (Err (LN_BufferTooSmall {| required := RREQ_RREP_LEN; provided := length out |}), out)
  else
    let out := <[0%nat := m.(rp_flags)]> out in
    let out := <[1%nat := m.(rp_hop_count)]> out in
    let out := list_inserts 2 (to_be 2 m.(rp_seq_num)) out in
    let out := list_inserts 4 m.(rp_originator) out in
    let out := list_inserts 20 m.(rp_destination) out in
    (Ok RREQ_RREP_LEN, out).

Definition with_incremented_hop_count (m : Rrep) : option Rrep :=
  if MAX_HOP_LIMIT <=? m.(rp_hop_count) then None
  else Some {| rp_originator := m.(rp_originator); rp_destination := m.(rp_destination);
               rp_seq_num := m.(rp_seq_num); rp_hop_count := m.(rp_hop_count) + 1;
               rp_flags := m.(rp_flags) |}.

Definition is_proxy (m : Rrep) : bool := negb (Z.land m.(rp_flags) RREP_FLAG_PROXY =? 0).

Definition rerr_from_bytes (data : bytes) : result LoadngError Rerr :=
  if (length data <? RERR_LEN)%nat then
    Err (LN_TooShort {| expected := RERR_LEN; actual := length data |})
  else Ok {| re_flags := nth 0 data 0; re_error_code := rerr_from_u8 (nth 1 data 0);
             re_unreachable := slice 2 18 data |}.

Definition rerr_write_to (m : Rerr) (out : bytes) : result LoadngError nat * bytes :=
  if (length out <? RERR_LEN)%nat then
    (Err (LN_BufferTooSmall {| required := RERR_LEN; provided := length out |}), out)
  else
    let out := <[0%nat := m.(re_flags)]> out in
    let out := <[1%nat := rerr_u8 m.(re_error_code)]> out in
    let out := list_inserts 2 m.(re_unreachable) out in
    (Ok RERR_LEN, out).

Inductive LoadngMessage := M_Rreq (m : Rreq) | M_Rrep (m : Rrep) | M_Rerr (m : Rerr).

Definition from_icmpv6 (code : Z) (body : bytes) : result LoadngError LoadngMessage :=
  match code_from_u8 code with
  | Some C_Rreq => M_Rreq <$> rreq_from_bytes body
  | Some C_Rrep => M_Rrep <$> rrep_from_bytes body
  | Some C_Rerr => M_Rerr <$> rerr_from_bytes body
  | None => Err (UnknownCode code)
  end.

Definition code (m : LoadngMessage) : Z :=
  match m with M_Rreq _ => code_u8 C_Rreq | M_Rrep _ => code_u8 C_Rrep | M_Rerr _ => code_u8 C_Rerr end.

Definition write_to (m : LoadngMessage) (out : bytes) : result LoadngError nat * bytes :=
  match m with
  | M_Rreq m => rreq_write_to m out
  | M_Rrep m => rrep_write_to m out
  | M_Rerr m => rerr_write_to m out
  end.

(** ** Expanding-ring discovery *)

Record RouteDiscovery (S : RouteDiscoveryState) := {
  originator : bytes;
  destination : bytes;
  seq_num : Z;
  ring_index : nat
}.
Arguments originator {S}.
Arguments destination {S}.
Arguments seq_num {S}.
Arguments ring_index {S}.

(** The runtime state of a typed discovery. *)
Definition state {S} (d : RouteDiscovery S) : RouteDiscoveryState := S.

Definition retype {S T} (d : RouteDiscovery S) (ring : nat) : RouteDiscovery T :=
  {| originator := d.(originator); destination := d.(destination); seq_num := d.(seq_num);
     ring_index := ring |}.

Definition new (originator destination : bytes) (seq_num : Z) : RouteDiscovery Idle :=
  {| originator := originator; destination := destination; seq_num := seq_num; ring_index := 0 |}.

(** [None]: the ring index is past the table. *)
Definition rreq (d : RouteDiscovery Searching) : option Rreq :=
  limit ← EXPANDING_RING !! d.(ring_index);
  Some {| rq_originator := d.(originator); rq_destination := d.(destination);
          rq_seq_num := d.(seq_num); rq_hop_limit := limit; rq_flags := 0 |}.

Definition start (d : RouteDiscovery Idle) : option (RouteDiscovery Searching * Rreq) :=
  let searching : RouteDiscovery Searching := retype d 0 in
  r ← rreq searching; Some (searching, r).

Definition fail (d : RouteDiscovery Searching) : RouteDiscovery Failed := retype d d.(ring_index).

Definition advance_ring (d : RouteDiscovery Searching)
  : option (result (RouteDiscovery Failed) (RouteDiscovery Searching * Rreq)) :=
  if (length EXPANDING_RING <=? d.(ring_index) + 1)%nat then Some (Err (fail d))
  else
    let next : RouteDiscovery Searching := retype d (d.(ring_index) + 1) in
    r ← rreq next; Some (Ok (next, r)).

Definition receive_rrep (d : RouteDiscovery Searching) (m : Rrep)
  : result LoadngError (RouteDiscovery Replied) :=
  if negb (bool_decide (m.(rp_originator) = d.(destination)))
     || negb (bool_decide (m.(rp_destination) = d.(originator)))
     || negb (m.(rp_seq_num) =? d.(seq_num))
  then Err InvalidDiscoveryReply
  else Ok (retype d d.(ring_index)).

(** ** Wire layout *)

(** What a node puts on the wire: fields at their widths, hop values within
    the flood bound, unassigned error codes only in [Other]. *)
Definition addr_ok (a : bytes) : Prop := length a = 16%nat /\ bytes_ok a.
Definition rerr_code_ok (c : RerrCode) : Prop :=
  match c with Other v => 2 <= v <= 255 | _ => True end.
Definition wf (m : LoadngMessage) : Prop :=
  match m with
  | M_Rreq m => is_u8 m.(rq_flags) /\ 0 <= m.(rq_hop_limit) <= MAX_HOP_LIMIT /\ is_u16 m.(rq_seq_num)
      /\ addr_ok m.(rq_originator) /\ addr_ok m.(rq_destination)
  | M_Rrep m => is_u8 m.(rp_flags) /\ 0 <= m.(rp_hop_count) <= MAX_HOP_LIMIT /\ is_u16 m.(rp_seq_num)
      /\ addr_ok m.(rp_originator) /\ addr_ok m.(rp_destination)
  | M_Rerr m => is_u8 m.(re_flags) /\ rerr_code_ok m.(re_error_code) /\ addr_ok m.(re_unreachable)
  end.

Definition wire (m : LoadngMessage) : bytes :=
  match m with
  | M_Rreq m => [m.(rq_flags); m.(rq_hop_limit)] ++ to_be 2 m.(rq_seq_num)
      ++ m.(rq_originator) ++ m.(rq_destination)
  | M_Rrep m => [m.(rp_flags); m.(rp_hop_count)] ++ to_be 2 m.(rp_seq_num)
      ++ m.(rp_originator) ++ m.(rp_destination)
  | M_Rerr m => [m.(re_flags); rerr_u8 m.(re_error_code)] ++ m.(re_unreachable)
  end.

Definition wire_len (m : LoadngMessage) : nat :=
  match m with M_Rerr _ => RERR_LEN | _ => RREQ_RREP_LEN end.

Lemma wire_length m : wf m -> length (wire m) = wire_len m.
Proof.
  destruct m; simpl; intros Hw.
  - destruct Hw as (_ & _ & _ & [Ho _] & [Hd _]). rewrite length_app, Ho, Hd. done.
  - destruct Hw as (_ & _ & _ & [Ho _] & [Hd _]). rewrite length_app, Ho, Hd. done.
  - destruct Hw as (_ & _ & [Hu _]). by rewrite Hu.
Qed.

(** Serialisation on every input. *)
Lemma write_to_spec m out : wf m ->
  write_to m out =
    if (wire_len m <=? length out)%nat
    then (Ok (wire_len m), wire m ++ drop (wire_len m) out)
    else (Err (LN_BufferTooSmall {| required := wire_len m; provided := length out |}), out).
Proof.
  intros Hw. pose proof (wire_length m Hw) as Hl.
  assert ((wire_len m <=? length out)%nat = true ->
    list_inserts 0 (wire m) out = wire m ++ drop (wire_len m) out) as Hins.
  { intros Hfit. bool_to_prop. rewrite inserts_front by lia. by rewrite Hl. }
  unfold write_to, rreq_write_to, rrep_write_to, rerr_write_to.
  destruct m as [m | m | m]; cbn [wire_len] in *; rewrite Nat.ltb_antisym;
    destruct (_ <=? _)%nat; try done; cbn [negb]; f_equal; rewrite <- Hins by done; rewrite !insert_inserts.
  - destruct Hw as (_ & _ & _ & [Ho _] & _).
    rewrite !inserts_adjacent by (rewrite ?length_app, ?length_to_be, ?Ho; simpl; lia).
    by rewrite <- ?app_assoc.
  - destruct Hw as (_ & _ & _ & [Ho _] & _).
    rewrite !inserts_adjacent by (rewrite ?length_app, ?length_to_be, ?Ho; simpl; lia).
    by rewrite <- ?app_assoc.
  - by rewrite !inserts_adjacent by (simpl; lia).
Qed.

(** ** Parsing *)

Lemma rerr_code_roundtrip c : rerr_code_ok c -> rerr_from_u8 (rerr_u8 c) = c.
Proof. destruct c as [| | v]; try done. simpl. intros Hv. unfold rerr_from_u8. by split_ifs. Qed.

Lemma rerr_code_parse v : is_u8 v -> rerr_u8 (rerr_from_u8 v) = v /\ rerr_code_ok (rerr_from_u8 v).
Proof. intros Hv. unfold rerr_from_u8. split_ifs; simpl; split; try done; width. Qed.

Lemma parse_wire m rest : wf m -> from_icmpv6 (code m) (wire m ++ rest) = Ok m.
Proof.
  intros Hw. pose proof (wire_length m Hw) as Hl.
  assert ((length (wire m ++ rest) <? wire_len m)%nat = false) as Hlen.
  { apply Nat.ltb_ge. rewrite length_app. lia. }
  destruct m as [m | m | m]; unfold from_icmpv6; cbn [code code_u8 code_from_u8 Z.eqb Pos.eqb];
    cbn [wire_len] in *.
  - destruct Hw as (Hf & Hh & Hs & [Ho Hob] & [Hd Hdb]). unfold rreq_from_bytes. rewrite Hlen.
    cbn [wire]. change (nth 1 _ 0) with (rq_hop_limit m).
    rewrite (proj2 (Z.ltb_ge _ _)) by lia. cbn [fmap result_fmap]. f_equal. f_equal.
    destruct m as [o d s h f]; simpl in *. f_equal.
    + apply (slice_app_eq (f :: h :: to_be 2 s) o (d ++ rest)); [by simpl; rewrite <- app_assoc | done | simpl; lia].
    + apply (slice_app_eq (f :: h :: to_be 2 s ++ o) d rest); [by simpl; rewrite <- ?app_assoc | simpl; lia | simpl; lia].
    + by apply (from_be_to_be_u16 s).
  - destruct Hw as (Hf & Hh & Hs & [Ho Hob] & [Hd Hdb]). unfold rrep_from_bytes. rewrite Hlen.
    cbn [wire]. change (nth 1 _ 0) with (rp_hop_count m).
    rewrite (proj2 (Z.ltb_ge _ _)) by lia. cbn [fmap result_fmap]. f_equal. f_equal.
    destruct m as [o d s h f]; simpl in *. f_equal.
    + apply (slice_app_eq (f :: h :: to_be 2 s) o (d ++ rest)); [by simpl; rewrite <- app_assoc | done | simpl; lia].
    + apply (slice_app_eq (f :: h :: to_be 2 s ++ o) d rest); [by simpl; rewrite <- ?app_assoc | simpl; lia | simpl; lia].
    + by apply (from_be_to_be_u16 s).
  - destruct Hw as (Hf & Hc & [Hu Hub]). unfold rerr_from_bytes. rewrite Hlen. cbn [fmap result_fmap].
    do 2 f_equal. destruct m as [u c f]; simpl in *. f_equal.
    + apply (slice_app_eq [f; rerr_u8 c] u rest); [done | done | simpl; lia].
    + by apply rerr_code_roundtrip.
Qed.

Lemma slice_addr_ok a data : bytes_ok data -> (a + 16 <= length data)%nat -> addr_ok (slice a (a + 16) data).
Proof. intros Hb Hl. split; [rewrite slice_length by lia; lia | by apply slice_Forall]. Qed.

(** A body that carries a 36-byte message starts with its fields. *)
Lemma body36 data : (36 <= length data)%nat ->
  take 36 data = [nth 0 data 0; nth 1 data 0] ++ [nth 2 data 0; nth 3 data 0]
    ++ slice 4 20 data ++ slice 20 36 data.
Proof.
  intros Hl. do 4 (destruct data as [|? data]; [simpl in Hl; lia |]). simpl. do 4 f_equal.
  rewrite (slice_split 4 20 36) by lia. done.
Qed.

Lemma nth_u8 data i : bytes_ok data -> (i < length data)%nat -> is_u8 (nth i data 0).
Proof.
  intros Hb Hi. destruct (lookup_lt_is_Some_2 data i Hi) as [x Hx].
  rewrite (nth_lookup_Some _ _ _ _ Hx). by eapply Forall_lookup_1.
Qed.

Lemma parse_inv c body m : bytes_ok body -> from_icmpv6 c body = Ok m ->
  wf m /\ c = code m /\ take (wire_len m) body = wire m.
Proof.
  intros Hb. unfold from_icmpv6, code_from_u8.
  destruct (c =? 0) eqn:E0; [| destruct (c =? 1) eqn:E1; [| destruct (c =? 2) eqn:E2; [| done]]]; bool_to_prop.
  - unfold rreq_from_bytes. destruct (_ <? _)%nat eqn:Hl; [done |]. destruct (_ <? _) eqn:Hh; [done |].
    bool_to_prop. unfold RREQ_RREP_LEN in Hl. intros <-%ok_inj.
    pose proof (nth_u8 body 0 Hb ltac:(lia)). pose proof (nth_u8 body 1 Hb ltac:(lia)).
    pose proof (nth_u8 body 2 Hb ltac:(lia)). pose proof (nth_u8 body 3 Hb ltac:(lia)).
    split; [| split; [done |]].
    + split; [done |]. split; [cbn; width |]. split; [by apply from_be_u16 |].
      split; [apply (slice_addr_ok 4 body Hb) | apply (slice_addr_ok 20 body Hb)]; lia.
    + cbn [wire wire_len rq_flags rq_hop_limit rq_seq_num rq_originator rq_destination].
      rewrite to_be_from_be_u16 by done. by apply body36.
  - unfold rrep_from_bytes. destruct (_ <? _)%nat eqn:Hl; [done |]. destruct (_ <? _) eqn:Hh; [done |].
    bool_to_prop. unfold RREQ_RREP_LEN in Hl. intros <-%ok_inj.
    pose proof (nth_u8 body 0 Hb ltac:(lia)). pose proof (nth_u8 body 1 Hb ltac:(lia)).
    pose proof (nth_u8 body 2 Hb ltac:(lia)). pose proof (nth_u8 body 3 Hb ltac:(lia)).
    split; [| split; [done |]].
    + split; [done |]. split; [cbn; width |]. split; [by apply from_be_u16 |].
      split; [apply (slice_addr_ok 4 body Hb) | apply (slice_addr_ok 20 body Hb)]; lia.
    + cbn [wire wire_len rp_flags rp_hop_count rp_seq_num rp_originator rp_destination].
      rewrite to_be_from_be_u16 by done. by apply body36.
  - unfold rerr_from_bytes. destruct (_ <? _)%nat eqn:Hl; [done |]. bool_to_prop. unfold RERR_LEN in Hl.
    intros <-%ok_inj. pose proof (nth_u8 body 0 Hb ltac:(lia)) as Hf.
    destruct (rerr_code_parse (nth 1 body 0) (nth_u8 body 1 Hb ltac:(lia))) as [Hc Hok].
    split; [| split; [done |]].
    + split; [done |]. split; [done |]. apply (slice_addr_ok 2 body Hb). lia.
    + cbn [wire wire_len re_flags re_error_code re_unreachable]. rewrite Hc.
      do 2 (destruct body as [|? body]; [simpl in Hl; lia |]). done.
Qed.

(** LOADng messages survive the wire.  A message within the protocol's
    ranges is written in its fixed length and parsed back, whatever follows
    it in the datagram; and every body the parser accepts is, up to its
    trailing bytes, the encoding of the message returned, which is within
    those ranges (in particular no hop value above the flood bound). *)
Lemma loadng_roundtrip (m : LoadngMessage) (out out' rest : bytes) (n : nat)
  (Hw : wf m) (Hout : write_to m out = (Ok n, out')) :
  n = wire_len m /\ from_icmpv6 (code m) (take n out' ++ rest) = Ok m /\ drop n out' = drop n out /\
  (forall c body m', bytes_ok body -> from_icmpv6 c body = Ok m' ->
     wf m' /\ c = code m' /\ take (wire_len m') body = wire m').
Proof.
  rewrite write_to_spec in Hout by done. destruct (_ <=? _)%nat; [| done].
  injection Hout as <- <-. pose proof (wire_length m Hw) as Hl. split; [done |].
  split; [rewrite take_app_le' by done; by apply parse_wire |].
  split; [rewrite <- Hl; apply drop_app_length |]. apply parse_inv.
Qed.

(** the freshness test is the RFC 1982 order: a sequence number is
    fresher exactly when it follows the existing one by less than half the
    space; equal and diametrically opposed numbers are not. *)
Lemma fresher_is_rfc1982 (existing incoming : Z) (He : is_u16 existing) (Hi : is_u16 incoming) :
  seq_is_fresher existing incoming = true <-> SerialNum.rfc1982_cmp existing incoming = Some Lt.
Proof.
  unfold seq_is_fresher, SerialNum.rfc1982_cmp. change SerialNum.SEQ_HALF with 32768. unfold SEQ_HALF.
  rewrite SerialNum.wrap16_diff by done. split_ifs; split; try done; width.
Qed.

(** ** Discovery *)

(** What a searching node sees. *)
Inductive event := Timeout | Reply (m : Rrep).

Inductive outcome := Ongoing (d : RouteDiscovery Searching) | Done_Replied (d : RouteDiscovery Replied)
  | Done_Failed (d : RouteDiscovery Failed).

(** The search driven by events: the requests sent and where it ends.  A
    reply that does not match is an error and the search continues. *)
Fixpoint search (d : RouteDiscovery Searching) (evs : list event) : option (list Rreq * outcome) :=
  match evs with
  | [] => Some ([], Ongoing d)
  | Reply m :: evs =>
      match receive_rrep d m with
      | Ok d' => Some ([], Done_Replied d')
      | Err _ => search d evs
      end
  | Timeout :: evs =>
      a ← advance_ring d;
      match a with
      | Err d' => Some ([], Done_Failed d')
      | Ok (d', r) => '(rs, o) ← search d' evs; Some (r :: rs, o)
      end
  end.

Definition discover (o d : bytes) (s : Z) (evs : list event) : option (list Rreq * outcome) :=
  '(searching, r) ← start (new o d s);
  '(rs, out) ← search searching evs;
  Some (r :: rs, out).

Definition request (o d : bytes) (s limit : Z) : Rreq :=
  {| rq_originator := o; rq_destination := d; rq_seq_num := s; rq_hop_limit := limit; rq_flags := 0 |}.

Definition at_ring (o d : bytes) (s : Z) (i : nat) {S} : RouteDiscovery S :=
  {| originator := o; destination := d; seq_num := s; ring_index := i |}.

Definition matches (o d : bytes) (s : Z) (m : Rrep) : Prop :=
  m.(rp_originator) = d /\ m.(rp_destination) = o /\ m.(rp_seq_num) = s.

Lemma receive_rrep_spec o d s i m :
  match receive_rrep (at_ring o d s i) m with
  | Ok d' => matches o d s m /\ d' = at_ring o d s i
  | Err e => ~ matches o d s m /\ e = InvalidDiscoveryReply
  end.
Proof.
  unfold receive_rrep, matches. simpl. destruct (_ || _) eqn:E.
  - split; [| done]. intros (Ho & Hd & Hs).
    rewrite Ho, Hd, Hs, !bool_decide_true, Z.eqb_refl in E by done. done.
  - apply orb_false_iff in E as [[E1 E2]%orb_false_iff E3]. bool_to_prop.
    apply bool_decide_eq_true in E1, E2. done.
Qed.

Lemma search_spec evs : forall o d s i, (i < 3)%nat ->
  exists n out, search (at_ring o d s i) evs = Some (request o d s <$> slice (i + 1) (i + 1 + n) EXPANDING_RING, out) /\
    (i + 1 + n <= 3)%nat /\
    match out with
    | Ongoing d' => d' = at_ring o d s (i + n) /\ (forall m, Reply m ∈ evs -> ~ matches o d s m)
    | Done_Replied d' => d' = at_ring o d s (i + n) /\ exists m, Reply m ∈ evs /\ matches o d s m
    | Done_Failed d' => d' = at_ring o d s 2 /\ (i + n = 2)%nat
    end.
Proof.
  induction evs as [|[|m] evs IH]; intros o d s i Hi.
  - exists 0%nat, (Ongoing (at_ring o d s i)). rewrite !Nat.add_0_r. simpl. unfold slice.
    rewrite Nat.sub_diag. split; [done |]. split; [lia |]. split; [done |]. by intros m ?%not_elem_of_nil.
  - cbn [search]. unfold advance_ring. cbn [at_ring ring_index length EXPANDING_RING].
    destruct (3 <=? i + 1)%nat eqn:E; bool_to_prop; cbn [mbind option_bind].
    + exists 0%nat, (Done_Failed (fail (at_ring o d s i))). assert (i = 2%nat) as -> by lia. done.
    + change (retype (at_ring o d s i) (i + 1)) with (at_ring o d s (i + 1) (S := Searching)).
      destruct (IH o d s (i + 1)%nat ltac:(lia)) as (n & out & Hs & Hb & Hout).
      assert (exists l, EXPANDING_RING !! (i + 1)%nat = Some l /\
        slice (i + 1) (i + 1 + S n) EXPANDING_RING = l :: slice (i + 1 + 1) (i + 1 + 1 + n) EXPANDING_RING)
        as (l & Hl & Hsl).
      { destruct i as [|[|i]]; [| | lia]; destruct n as [|[|n]]; try lia; by eexists. }
      exists (S n), out. unfold rreq. cbn [at_ring ring_index]. rewrite Hl. cbn [mbind option_bind].
      fold (request o d s l). rewrite Hs. cbn [mbind option_bind]. rewrite Hsl.
      split; [done |]. split; [lia |]. replace (i + S n)%nat with (i + 1 + n)%nat by lia.
      destruct out as [d' | d' | d']; [| | done].
      * destruct Hout as [-> Hno]. split; [done |]. intros m [? | Hm]%elem_of_cons; [done | by apply Hno].
      * destruct Hout as [-> (m & Hm & Hok)]. split; [done |]. exists m. split; [by right | done].
  - cbn [search]. pose proof (receive_rrep_spec o d s i m) as Hr.
    destruct (receive_rrep _ m) as [d' | e].
    + destruct Hr as [Hm ->]. exists 0%nat, (Done_Replied (at_ring o d s i)). rewrite !Nat.add_0_r.
      unfold slice. rewrite Nat.sub_diag. split; [done |]. split; [lia |]. split; [done |].
      exists m. split; [by left | done].
    + destruct Hr as [Hno _]. destruct (IH o d s i Hi) as (n & out & Hs & Hb & Hout).
      exists n, out. split; [done |]. split; [done |]. destruct out as [d' | d' | d']; [| | done].
      * destruct Hout as [-> Hall]. split; [done |]. intros m' [[= ->] | Hm]%elem_of_cons; [done | by apply Hall].
      * destruct Hout as [-> (m' & Hm & Hok)]. split; [done |]. exists m'. split; [by right | done].
Qed.

(** C37: every discovery is a bounded expanding-ring search.  Whatever
    replies and timeouts it sees, it never indexes past the ring table; it
    sends one request per ring, with the same addresses and sequence number
    and the hop limits 4, 8, 15 in that order, so at most three; it succeeds
    only on a reply that matches the request in both addresses and the
    sequence number, and fails only after the widest ring timed out. *)
Theorem discovery_expanding_ring (o d : bytes) (s : Z) (evs : list event) :
  exists n out, discover o d s evs = Some (request o d s <$> take n EXPANDING_RING, out) /\
    (1 <= n <= 3)%nat /\
    match out with
    | Ongoing _ => forall m, Reply m ∈ evs -> ~ matches o d s m
    | Done_Replied _ => exists m, Reply m ∈ evs /\ matches o d s m
    | Done_Failed _ => n = 3%nat
    end.
Proof.
  unfold discover, start. cbn [new retype rreq ring_index mbind option_bind lookup EXPANDING_RING].
  destruct (search_spec evs o d s 0 ltac:(lia)) as (n & out & Hs & Hb & Hout).
  change (retype (new o d s) 0) with (at_ring o d s 0 (S := Searching)).
  exists (S n), out. unfold rreq. cbn. rewrite Hs. cbn [mbind option_bind].
  split; [| split; [lia |]].
  - do 2 f_equal. by destruct n as [|[|[|n]]]; try lia.
  - destruct out; [apply Hout | apply Hout | lia].
Qed.

Definition sample_rreq : LoadngMessage :=
  M_Rreq {| rq_originator := replicate 16 1; rq_destination := replicate 16 2; rq_seq_num := 513;
            rq_hop_limit := 4; rq_flags := 0 |}.

End Loadng.
