(* ===== verification/Heapless.v ===== *)
(** * The containers of the heapless crate

    The queue and the duty-cycle tracker keep their data in [heapless]
    containers, which are not part of the repository: the operations used are
    a parameter and [HeaplessLaws] is their documented contract.  A container
    is observed through the list its iterator yields.  [HeaplessList] is one
    implementation, on lists. *)

From S2P Require Import Prelude.
From Stdlib Require Import Sorted.

Class Heapless := {
  (** [Vec<T, N>] *)
  vec : nat -> Type -> Type;
  vec_new {N A} : vec N A;
  vec_items {N A} : vec N A -> list A;
  vec_push {N A} : A -> vec N A -> option (vec N A);
  vec_extend_from_slice {N A} : list A -> vec N A -> option (vec N A);
  (** [Deque<T, N>] *)
  deque : nat -> Type -> Type;
  deque_new {N A} : deque N A;
  deque_items {N A} : deque N A -> list A;
  deque_push_back {N A} : A -> deque N A -> option (deque N A);
  deque_pop_front {N A} : deque N A -> option (A * deque N A);
  deque_clear {N A} : deque N A -> deque N A;
  (** [BinaryHeap<T, Max, N>]; the comparison is the element's [Ord]. *)
  heap : nat -> Type -> Type;
  heap_new {N A} : heap N A;
  heap_items {N A} : heap N A -> list A;
  heap_push {N A} : (A -> A -> comparison) -> A -> heap N A -> option (heap N A);
  heap_pop {N A} : (A -> A -> comparison) -> heap N A -> option (A * heap N A);
  heap_peek {N A} : heap N A -> option A;
  (** The heap property, which only a lawful comparison maintains. *)
  heap_ordered {N A} : (A -> A -> comparison) -> heap N A -> Prop
}.

(** [Ord] is lawful on the elements of a list. *)
Record total_on {A} (cmp : A -> A -> comparison) (l : list A) : Prop := {
  total_flip x y : x ∈ l -> y ∈ l -> cmp y x = CompOpp (cmp x y);
  total_trans x y z : x ∈ l -> y ∈ l -> z ∈ l -> cmp x y <> Gt -> cmp y z <> Gt -> cmp x z <> Gt
}.

Class HeaplessLaws `{Heapless} : Prop := {
  vec_items_new {N A} : vec_items (vec_new : vec N A) = [];
  vec_push_spec {N A} (x : A) (v : vec N A) :
    if (length (vec_items v) <? N)%nat
    then exists v', vec_push x v = Some v' /\ vec_items v' = vec_items v ++ [x]
    else vec_push x v = None;
  vec_extend_spec {N A} (l : list A) (v : vec N A) :
    if (length (vec_items v) + length l <=? N)%nat
    then exists v', vec_extend_from_slice l v = Some v' /\ vec_items v' = vec_items v ++ l
    else vec_extend_from_slice l v = None;
  deque_items_new {N A} : deque_items (deque_new : deque N A) = [];
  deque_push_spec {N A} (x : A) (d : deque N A) :
    if (length (deque_items d) <? N)%nat
    then exists d', deque_push_back x d = Some d' /\ deque_items d' = deque_items d ++ [x]
    else deque_push_back x d = None;
  deque_pop_spec {N A} (d : deque N A) :
    match deque_items d with
    | [] => deque_pop_front d = None
    | x :: l => exists d', deque_pop_front d = Some (x, d') /\ deque_items d' = l
    end;
  deque_clear_spec {N A} (d : deque N A) : deque_items (deque_clear d) = [];
  heap_items_new {N A} : heap_items (heap_new : heap N A) = [];
  heap_ordered_new {N A} cmp : heap_ordered cmp (heap_new : heap N A);
  heap_push_spec {N A} cmp (x : A) (h : heap N A) :
    if (length (heap_items h) <? N)%nat
    then exists h', heap_push cmp x h = Some h' /\ heap_items h' ≡ₚ x :: heap_items h
    else heap_push cmp x h = None;
  heap_push_ordered {N A} cmp (x : A) (h h' : heap N A) :
    heap_ordered cmp h -> total_on cmp (x :: heap_items h) -> heap_push cmp x h = Some h' ->
    heap_ordered cmp h';
  heap_pop_spec {N A} cmp (h : heap N A) :
    match heap_pop cmp h with
    | None => heap_items h = []
    | Some (x, h') => heap_items h ≡ₚ x :: heap_items h'
    end;
  heap_pop_max {N A} cmp (h h' : heap N A) x :
    heap_ordered cmp h -> total_on cmp (heap_items h) -> heap_pop cmp h = Some (x, h') ->
    heap_ordered cmp h' /\ Forall (fun y => cmp y x <> Gt) (heap_items h');
  heap_peek_pop {N A} cmp (h : heap N A) : heap_peek h = fst <$> heap_pop cmp h
}.

(** ** An implementation on lists *)

Module HeaplessList.

Definition bounded {A} (n : nat) (l l' : list A) : option (list A) :=
  if (length l <? n)%nat then Some l' else None.

(** Descending insertion. *)
Fixpoint insert_desc {A} (cmp : A -> A -> comparison) (x : A) (l : list A) : list A :=
  match l with
  | [] => [x]
  | y :: l => match cmp x y with Gt => x :: y :: l | _ => y :: insert_desc cmp x l end
  end.

Lemma insert_desc_perm {A} cmp (x : A) l : insert_desc cmp x l ≡ₚ x :: l.
Proof.
  induction l as [|y l IH]; simpl; [done |]. destruct (cmp x y); [| | done]; by rewrite IH, Permutation_swap.
Qed.

Abbreviation descending cmp := (StronglySorted (fun x y => cmp y x <> Gt)).

Lemma total_on_perm {A} cmp (l l' : list A) : l ≡ₚ l' -> total_on cmp l -> total_on cmp l'.
Proof. intros Hp [Hf Ht]. split; intros *; rewrite <- !Hp; eauto. Qed.
Lemma total_on_tail {A} cmp (x : A) l : total_on cmp (x :: l) -> total_on cmp l.
Proof.
  intros [Hf Ht]. split; [intros u v ? ?; apply Hf | intros u v w ? ? ?; apply (Ht u v w)];
    by apply list_elem_of_further.
Qed.

Lemma insert_desc_sorted {A} cmp (x : A) l :
  total_on cmp (x :: l) -> descending cmp l -> descending cmp (insert_desc cmp x l).
Proof.
  induction l as [|y l IH]; intros Ht Hs; simpl; [repeat constructor |].
  apply StronglySorted_inv in Hs as [Hs Hall].
  assert (x ∈ x :: y :: l) as Hx by apply list_elem_of_here.
  assert (y ∈ x :: y :: l) as Hy by (apply list_elem_of_further, list_elem_of_here).
  assert (total_on cmp (x :: l)) as Ht'.
  { apply (total_on_tail cmp y). by eapply total_on_perm; [apply Permutation_swap |]. }
  pose proof (total_flip _ _ Ht x y Hx Hy) as Hflip.
  assert (forall z, z ∈ l -> cmp z y <> Gt) as Hz by (by apply Forall_forall).
  destruct (cmp x y) eqn:Hxy; simpl in Hflip.
  - constructor; [by apply IH |]. rewrite insert_desc_perm. constructor; [congruence | by apply Forall_forall].
  - constructor; [by apply IH |]. rewrite insert_desc_perm. constructor; [congruence | by apply Forall_forall].
  - constructor; [by constructor |]. constructor; [congruence |]. apply Forall_forall. intros z Hin.
    eapply (total_trans _ _ Ht z y x); auto; [by do 2 apply list_elem_of_further | congruence].
Qed.

#[export] Instance list_heapless : Heapless := {|
  vec _ A := list A;
  vec_new _ _ := [];
  vec_items _ _ v := v;
  vec_push N _ x v := bounded N v (v ++ [x]);
  vec_extend_from_slice N _ l v := if (length v + length l <=? N)%nat then Some (v ++ l) else None;
  deque _ A := list A;
  deque_new _ _ := [];
  deque_items _ _ d := d;
  deque_push_back N _ x d := bounded N d (d ++ [x]);
  deque_pop_front _ _ d := match d with [] => None | x :: d => Some (x, d) end;
  deque_clear _ _ _ := [];
  heap _ A := list A;
  heap_new _ _ := [];
  heap_items _ _ h := h;
  heap_push N _ cmp x h := bounded N h (insert_desc cmp x h);
  heap_pop _ _ _ h := match h with [] => None | x :: h => Some (x, h) end;
  heap_peek _ _ h := head h;
  heap_ordered _ _ cmp h := descending cmp h
|}.

#[export] Instance list_heapless_laws : HeaplessLaws.
Proof.
  split; intros; simpl in *; unfold bounded in *; try done.
  - destruct (_ <? _)%nat; eauto.
  - destruct (_ <=? _)%nat; eauto.
  - destruct (_ <? _)%nat; eauto.
  - destruct d; eauto.
  - constructor.
  - destruct (_ <? _)%nat; eauto using insert_desc_perm.
  - destruct (_ <? _)%nat; [| done]. simplify_eq. by apply insert_desc_sorted.
  - by destruct h as [|x h].
  - destruct h as [|y h0]; [done |]. simplify_eq.
    by match goal with Hs : StronglySorted _ _ |- _ => apply StronglySorted_inv in Hs end.
  - by destruct h.
Qed.

End HeaplessList.
