(* ===== verification/DutyCycle.v ===== *)
(** * Duty-cycle accounting

    lichen-core/src/duty_cycle.rs (regional limits, the rolling-window
    tracker, congestion levels) and the priority type of
    lichen-core/src/tx_queue.rs. *)

From stdpp Require Import sorting.
From S2P Require Import Prelude Heapless.

Module TxPriority.

Inductive TxPriority := Sos | Routing | Urgent | Normal | Bulk.
#[export] Instance TxPriority_eq_dec : EqDecision TxPriority.
Proof. solve_decision. Defined.

Definition COUNT : nat := 5.
Definition as_u8 (p : TxPriority) : Z :=
  match p with Sos => 0 | Routing => 1 | Urgent => 2 | Normal => 3 | Bulk => 4 end.
Definition from_u8 (value : Z) : option TxPriority :=
  if value =? 0 then Some Sos else if value =? 1 then Some Routing else if value =? 2 then Some Urgent
  else if value =? 3 then Some Normal else if value =? 4 then Some Bulk else None.

End TxPriority.

Module DutyCycle.
Import TxPriority.

Definition WINDOW_MS : Z := 3600000.
Definition DEFAULT_DUTY_PERMILLE : Z := 10.
Definition REGION_EU : Z := 0.
Definition REGION_US : Z := 1.
Definition REGION_AS : Z := 2.
Definition EU868_DUTY_PERMILLE : Z := 10.
Definition US915_DUTY_PERMILLE : Z := 1000.
Definition US915_FCC_MAX_DWELL_MS : Z := 400.

Inductive DutyCycleRegion := Eu868 | Us915.

Record RegionalDutyCycleLimit := { rl_duty_permille : Z; rl_max_dwell_time_ms : option Z }.

Definition LIMIT_EU868 : RegionalDutyCycleLimit :=
  {| rl_duty_permille := EU868_DUTY_PERMILLE; rl_max_dwell_time_ms := None |}.
Definition LIMIT_US915 : RegionalDutyCycleLimit :=
  {| rl_duty_permille := US915_DUTY_PERMILLE; rl_max_dwell_time_ms := Some US915_FCC_MAX_DWELL_MS |}.

Definition limit (r : DutyCycleRegion) : RegionalDutyCycleLimit :=
  match r with Eu868 => LIMIT_EU868 | Us915 => LIMIT_US915 end.

Definition from_parts (duty_permille : Z) (max_dwell_time_ms : option Z) : option RegionalDutyCycleLimit :=
  if (duty_permille =? 0) || (1000 <? duty_permille) then None
  else if bool_decide (max_dwell_time_ms = Some 0) then None
  else Some {| rl_duty_permille := duty_permille; rl_max_dwell_time_ms := max_dwell_time_ms |}.

Definition THRESHOLD_ELEVATED : Z := 500.
Definition THRESHOLD_CRITICAL : Z := 800.
Definition THRESHOLD_EXHAUSTED : Z := 950.

Inductive CongestionLevel := CL_Normal | Elevated | Critical | Exhausted.
#[export] Instance CongestionLevel_eq_dec : EqDecision CongestionLevel.
Proof. solve_decision. Defined.

Definition level_u8 (l : CongestionLevel) : Z :=
  match l with CL_Normal => 0 | Elevated => 1 | Critical => 2 | Exhausted => 3 end.
Definition allows_any (l : CongestionLevel) : bool :=
  match l with Exhausted => false | _ => true end.
Definition is_at_least (l other : CongestionLevel) : bool := level_u8 other <=? level_u8 l.

Definition congestion_level_from_permille (usage_permille : Z) : CongestionLevel :=
  if THRESHOLD_EXHAUSTED <? usage_permille then Exhausted
  else if THRESHOLD_CRITICAL <=? usage_permille then Critical
  else if THRESHOLD_ELEVATED <=? usage_permille then Elevated
  else CL_Normal.

Record CongestionState := { level : CongestionLevel; retry_after_ms : option Z }.
Record CongestionError := {
  ce_level : CongestionLevel; ce_priority : TxPriority; ce_retry_after_ms : option Z
}.

Definition check_congestion_allows (l : CongestionLevel) (p : TxPriority) : bool :=
  match l with
  | CL_Normal => true
  | Elevated => as_u8 p <=? as_u8 Urgent
  | Critical => as_u8 p <=? as_u8 Routing
  | Exhausted => false
  end.

Definition adaptive_duty_permille (density region : Z) : Z :=
  let strict_region := negb (region =? REGION_US) in
  if 10 <? density then (if strict_region then 5 else 10)
  else if density <? 3 then (if strict_region then 20 else 50)
  else (if strict_region then 10 else 20).

Record TxRecord := { timestamp_ms : Z; duration_ms : Z }.

Section tracker.
Context `{Heapless} {N : nat}.

Record DutyCycleTracker := {
  records : deque N TxRecord;
  duty_permille : Z;
  max_dwell_time_ms : option Z
}.

Definition new : DutyCycleTracker :=
  {| records := deque_new; duty_permille := DEFAULT_DUTY_PERMILLE; max_dwell_time_ms := None |}.

(** [None]: a debug assertion fails. *)
Definition with_duty_permille (debug_assertions : bool) (duty_permille : Z) : option DutyCycleTracker :=
  if debug_assertions && (negb (0 <? duty_permille) || negb (duty_permille <=? 1000)) then None
  else Some {| records := deque_new; duty_permille := duty_permille; max_dwell_time_ms := None |}.

Definition with_regional_limit (l : RegionalDutyCycleLimit) : DutyCycleTracker :=
  {| records := deque_new; duty_permille := l.(rl_duty_permille);
     max_dwell_time_ms := l.(rl_max_dwell_time_ms) |}.
Definition with_region (r : DutyCycleRegion) : DutyCycleTracker := with_regional_limit (limit r).

Definition configure_regional_limit (t : DutyCycleTracker) (l : RegionalDutyCycleLimit) : DutyCycleTracker :=
  {| records := t.(records); duty_permille := l.(rl_duty_permille);
     max_dwell_time_ms := l.(rl_max_dwell_time_ms) |}.
Definition configure_region (t : DutyCycleTracker) (r : DutyCycleRegion) : DutyCycleTracker :=
  configure_regional_limit t (limit r).
Definition regional_limit (t : DutyCycleTracker) : RegionalDutyCycleLimit :=
  {| rl_duty_permille := t.(duty_permille); rl_max_dwell_time_ms := t.(max_dwell_time_ms) |}.
Definition set_from_density (t : DutyCycleTracker) (density region : Z) : DutyCycleTracker :=
  {| records := t.(records); duty_permille := adaptive_duty_permille density region;
     max_dwell_time_ms := if region =? REGION_US then Some US915_FCC_MAX_DWELL_MS else None |}.

Definition with_records (t : DutyCycleTracker) (d : deque N TxRecord) : DutyCycleTracker :=
  {| records := d; duty_permille := t.(duty_permille); max_dwell_time_ms := t.(max_dwell_time_ms) |}.

Definition tx_end (r : TxRecord) : Z := saturating_add u64_max r.(timestamp_ms) r.(duration_ms).

(** The [while let] of [evict_stale]; every round pops a record, so the
    number of records is enough fuel. *)
Fixpoint evict_loop (fuel : nat) (window_start : Z) (d : deque N TxRecord) : deque N TxRecord :=
  match fuel with
  | O => d
  | S fuel =>
      match head (deque_items d) with
      | Some front =>
          if tx_end front <=? window_start then
            match deque_pop_front d with
            | Some (_, d) => evict_loop fuel window_start d
            | None => d
            end
          else d
      | None => d
      end
  end.

Definition evict_stale (t : DutyCycleTracker) (now_ms : Z) : DutyCycleTracker :=
  with_records t (evict_loop (length (deque_items t.(records))) (saturating_sub now_ms WINDOW_MS) t.(records)).

Definition record_tx (t : DutyCycleTracker) (timestamp_ms duration_ms : Z) : bool * DutyCycleTracker :=
  let t := evict_stale t timestamp_ms in
  let record := {| timestamp_ms := timestamp_ms; duration_ms := duration_ms |} in
  match deque_push_back record t.(records) with
  | Some d => (true, with_records t d)
  | None => (false, t)
  end.

(** One iteration of the loop of [total_tx_in_window]. *)
Definition add_record (window_start total : Z) (r : TxRecord) : Z :=
  if window_start <=? r.(timestamp_ms) then saturating_add u32_max total r.(duration_ms)
  else if window_start <? tx_end r then
    saturating_add u32_max total (wrap32 (tx_end r - window_start))
  else total.

Definition total_tx_in_window (t : DutyCycleTracker) (now_ms : Z) : Z :=
  foldl (add_record (saturating_sub now_ms WINDOW_MS)) 0 (deque_items t.(records)).

Definition max_tx_ms (t : DutyCycleTracker) : Z := wrap32 WINDOW_MS / 1000 * t.(duty_permille).

Definition remaining_ms (t : DutyCycleTracker) (now_ms : Z) : Z * DutyCycleTracker :=
  let t := evict_stale t now_ms in
  (saturating_sub (max_tx_ms t) (total_tx_in_window t now_ms), t).

Definition usage_permille (t : DutyCycleTracker) (now_ms : Z) : Z * DutyCycleTracker :=
  let t := evict_stale t now_ms in
  (wrap16 (total_tx_in_window t now_ms * 1000 / WINDOW_MS), t).

Definition congestion_level (t : DutyCycleTracker) (now_ms : Z) : CongestionLevel * DutyCycleTracker :=
  let '(u, t) := usage_permille t now_ms in (congestion_level_from_permille u, t).

(** The [for] loop of [next_tx_available_ms]. *)
Fixpoint first_freeing (rs : list TxRecord) (freed needed : Z) : Z :=
  match rs with
  | [] => u64_max
  | r :: rs =>
      let freed := saturating_add u32_max freed r.(duration_ms) in
      if needed <=? freed then saturating_add u64_max (tx_end r) WINDOW_MS
      else first_freeing rs freed needed
  end.

Definition next_tx_available_ms (t : DutyCycleTracker) (now_ms duration_ms : Z) : Z * DutyCycleTracker :=
  let t := evict_stale t now_ms in
  let too_long := match t.(max_dwell_time_ms) with Some m => m <? duration_ms | None => false end in
  if too_long then (u64_max, t)
  else
    let max_tx := max_tx_ms t in
    let used := total_tx_in_window t now_ms in
    if saturating_add u32_max used duration_ms <=? max_tx then (now_ms, t)
    else
      let needed := saturating_sub (saturating_add u32_max used duration_ms) max_tx in
      (first_freeing (deque_items t.(records)) 0 needed, t).

Definition congestion_state (t : DutyCycleTracker) (now_ms : Z) : CongestionState * DutyCycleTracker :=
  let '(usage, t) := usage_permille t now_ms in
  let lvl := congestion_level_from_permille usage in
  if bool_decide (lvl = CL_Normal) then ({| level := lvl; retry_after_ms := None |}, t)
  else
    let '(next_tx, t) := next_tx_available_ms t now_ms 1 in
    ({| level := lvl;
        retry_after_ms := if next_tx =? u64_max then None
                          else if next_tx <=? now_ms then Some 0
                          else Some (wrap32 (next_tx - now_ms)) |}, t).

Definition can_transmit (t : DutyCycleTracker) (now_ms duration_ms : Z) : bool * DutyCycleTracker :=
  let within_dwell_limit := match t.(max_dwell_time_ms) with Some m => duration_ms <=? m | None => true end in
  if within_dwell_limit then
    let '(r, t) := remaining_ms t now_ms in (duration_ms <=? r, t)
  else (false, t).

Definition try_record_tx (t : DutyCycleTracker) (timestamp_ms duration_ms : Z) : bool * DutyCycleTracker :=
  let '(ok, t) := can_transmit t timestamp_ms duration_ms in
  if ok then record_tx t timestamp_ms duration_ms else (false, t).

Definition record_count (t : DutyCycleTracker) : nat := length (deque_items t.(records)).
Definition clear (t : DutyCycleTracker) : DutyCycleTracker := with_records t (deque_clear t.(records)).

(** ** Airtime, independently of the tracker *)

(** Milliseconds of [r] inside the hour that ends at [now], counting a
    transmission that has started as if it were complete. *)
Definition share (now : Z) (r : TxRecord) : Z :=
  let start := saturating_sub now WINDOW_MS in
  if start <=? r.(timestamp_ms) then r.(duration_ms)
  else Z.max 0 (r.(timestamp_ms) + r.(duration_ms) - start).
Definition shares (now : Z) (rs : list TxRecord) : Z := foldr (fun r acc => share now r + acc) 0 rs.

(** Milliseconds of [r] on the air within the window [w, w + WINDOW_MS). *)
Definition on_air (w : Z) (r : TxRecord) : Z :=
  Z.max 0 (Z.min (r.(timestamp_ms) + r.(duration_ms)) (w + WINDOW_MS) - Z.max r.(timestamp_ms) w).
Definition airtime (w : Z) (rs : list TxRecord) : Z := foldr (fun r acc => on_air w r + acc) 0 rs.

Lemma shares_app now l1 l2 : shares now (l1 ++ l2) = shares now l1 + shares now l2.
Proof. induction l1 as [|r l1 IH]; simpl; [done |]. rewrite IH. lia. Qed.

(** A record the u64 clock and the u32 duration can hold. *)
Definition record_ok (r : TxRecord) : Prop :=
  0 <= r.(timestamp_ms) <= u64_max - u32_max /\ is_u32 r.(duration_ms).

Lemma share_nonneg now r : record_ok r -> 0 <= share now r.
Proof. intros [? ?]. unfold share. split_ifs; width. Qed.
Lemma share_le now r : record_ok r -> share now r <= r.(duration_ms).
Proof. intros [? ?]. unfold share, saturating_sub in *. split_ifs; width. Qed.
Lemma shares_nonneg now rs : Forall record_ok rs -> 0 <= shares now rs.
Proof. induction 1 as [|r rs Hr _ IH]; simpl; [lia |]. pose proof (share_nonneg now r Hr). lia. Qed.

(** Budget only comes back as time passes. *)
Lemma share_mono now now' r : record_ok r -> now <= now' -> share now' r <= share now r.
Proof.
  intros [Ht Hd] Hle. unfold share.
  assert (saturating_sub now WINDOW_MS <= saturating_sub now' WINDOW_MS) by (unfold saturating_sub; lia).
  split_ifs; width.
Qed.
Lemma shares_mono now now' rs : Forall record_ok rs -> now <= now' -> shares now' rs <= shares now rs.
Proof.
  intros Hr Hle. induction Hr as [|r rs Hr _ IH]; simpl; [lia |].
  pose proof (share_mono now now' r Hr Hle). lia.
Qed.

Lemma tx_end_exact r : record_ok r -> tx_end r = r.(timestamp_ms) + r.(duration_ms).
Proof. intros [? ?]. unfold tx_end, saturating_add. width. Qed.

Lemma add_record_spec now total r : record_ok r -> 0 <= total ->
  add_record (saturating_sub now WINDOW_MS) (Z.min u32_max total) r = Z.min u32_max (total + share now r).
Proof.
  intros Hr Ht. unfold add_record, share. rewrite tx_end_exact by done. destruct Hr as [Hts Hd].
  unfold saturating_add. destruct (_ <=? _) eqn:E; bool_to_prop; [width |].
  destruct (_ <? _) eqn:E2; bool_to_prop; [| lia].
  rewrite wrap32_small by width. width.
Qed.

(** The loop computes the exact sum, up to saturation at [u32::MAX]. *)
Lemma total_spec (t : DutyCycleTracker) now : Forall record_ok (deque_items t.(records)) ->
  total_tx_in_window t now = Z.min u32_max (shares now (deque_items t.(records))).
Proof.
  unfold total_tx_in_window. intros Hr.
  assert (forall acc, 0 <= acc -> foldl (add_record (saturating_sub now WINDOW_MS)) (Z.min u32_max acc)
    (deque_items (records t)) = Z.min u32_max (acc + shares now (deque_items (records t)))) as Hgen.
  { induction Hr as [|r rs Hr Hrs IH]; intros acc Hacc; simpl; [f_equal; lia |].
    rewrite add_record_spec by done. pose proof (share_nonneg now r Hr). rewrite IH by lia. f_equal. lia. }
  specialize (Hgen 0 ltac:(lia)). exact Hgen.
Qed.

(** ** Rolling-window compliance *)

Context `{!HeaplessLaws}.

Lemma evict_loop_spec fuel ws : forall d : deque N TxRecord,
  exists pre, deque_items d = pre ++ deque_items (evict_loop fuel ws d) /\
    Forall (fun r => tx_end r <= ws) pre.
Proof.
  induction fuel as [|fuel IH]; intros d; simpl; [by exists [] |].
  pose proof (deque_pop_spec d) as Hp. destruct (deque_items d) as [|r l] eqn:Hd; simpl; [by exists []; rewrite Hd |].
  destruct (_ <=? ws) eqn:E; bool_to_prop; [| by exists []; rewrite Hd].
  destruct Hp as (d' & -> & Hd'). destruct (IH d') as (pre & Hpre & Hall). rewrite Hd' in Hpre.
  exists (r :: pre). rewrite Hpre. split; [done | by constructor].
Qed.

(** The tracker stands for the whole history [hist] at time [last]: what it
    has dropped can no longer be in any window. *)
Definition represents (t : DutyCycleTracker) (hist : list TxRecord) (last : Z) : Prop :=
  Forall record_ok hist /\
  exists old, hist = old ++ deque_items t.(records) /\ Forall (fun r => share last r = 0) old.

Lemma share_gone now now' r : record_ok r -> now <= now' -> share now r = 0 -> share now' r = 0.
Proof. intros Hr Hle Hz. pose proof (share_mono now now' r Hr Hle). pose proof (share_nonneg now' r Hr). lia. Qed.

Lemma stale_share now r : record_ok r -> tx_end r <= saturating_sub now WINDOW_MS -> share now r = 0.
Proof.
  intros Hr. rewrite tx_end_exact by done. destruct Hr as [Hts Hd]. unfold share. intros Hle.
  split_ifs; [width | lia].
Qed.

Lemma evict_represents t hist last now : represents t hist last -> last <= now ->
  represents (evict_stale t now) hist now.
Proof.
  intros [Hok (old & -> & Hold)] Hle. split; [done |].
  destruct (evict_loop_spec (length (deque_items (records t))) (saturating_sub now WINDOW_MS) (records t))
    as (pre & Hpre & Hstale).
  apply Forall_app in Hok as [Hoko Hoki]. rewrite Hpre in Hoki. apply Forall_app in Hoki as [Hokp _].
  exists (old ++ pre). unfold evict_stale. cbn [records with_records].
  split; [rewrite Hpre at 1; by rewrite app_assoc |]. apply Forall_app. split.
  - eapply (Forall_both _ _ _ _ Hoko Hold). intros r Hr Hz. by eapply share_gone.
  - eapply (Forall_both _ _ _ _ Hokp Hstale). intros r Hr Hz. by apply stale_share.
Qed.

Lemma shares_gone now rs : Forall (fun r => share now r = 0) rs -> shares now rs = 0.
Proof. induction 1 as [|r rs Hr _ IH]; simpl; [done |]. lia. Qed.

Lemma represents_total t hist now : represents t hist now ->
  total_tx_in_window t now = Z.min u32_max (shares now hist).
Proof.
  intros [Hok (old & -> & Hold)]. apply Forall_app in Hok as [_ Hoki].
  rewrite total_spec, shares_app, (shares_gone now old) by done. done.
Qed.

(** The budget of an hour. *)
Definition budget (permille : Z) : Z := 3600 * permille.

Lemma max_tx_budget (t : DutyCycleTracker) : max_tx_ms t = budget t.(duty_permille).
Proof. done. Qed.

(** One guarded transmission. *)
Lemma try_record_step t hist last now dur :
  0 <= t.(duty_permille) <= 1000 -> represents t hist last -> last <= now ->
  shares last hist <= budget t.(duty_permille) ->
  record_ok {| timestamp_ms := now; duration_ms := dur |} ->
  let '(b, t') := try_record_tx t now dur in
  let hist' := if b then hist ++ [{| timestamp_ms := now; duration_ms := dur |}] else hist in
  represents t' hist' now /\ shares now hist' <= budget t.(duty_permille) /\
  t'.(duty_permille) = t.(duty_permille) /\ t'.(max_dwell_time_ms) = t.(max_dwell_time_ms) /\
  (b = true -> match t.(max_dwell_time_ms) with Some m => dur <= m | None => True end).
Proof.
  intros Hd Hrep Hle Hbud Hrec. pose proof (evict_represents _ _ _ _ Hrep Hle) as Hrep1.
  pose proof (shares_mono last now hist (proj1 Hrep) Hle) as Hmono.
  assert (represents t hist now) as Hrep0.
  { destruct Hrep as [Hok (old & -> & Hold)]. split; [done |]. exists old. split; [done |].
    apply Forall_app in Hok as [Hoko _].
    eapply (Forall_both _ _ _ _ Hoko Hold). intros r ? ?. by eapply share_gone. }
  unfold try_record_tx, can_transmit.
  destruct (match max_dwell_time_ms t with Some m => dur <=? m | None => true end) eqn:Hdw.
  2: { split; [done |]. split; [lia | done]. }
  unfold remaining_ms. set (t1 := evict_stale t now) in *.
  rewrite (represents_total t1 hist now Hrep1). change (max_tx_ms t1) with (budget (duty_permille t)).
  assert (Z.min u32_max (shares now hist) = shares now hist) as -> by (unfold budget in *; width).
  destruct (dur <=? _) eqn:Hfit; bool_to_prop; cbv iota beta zeta.
  2: { split; [done |]. split; [lia | done]. }
  unfold record_tx. pose proof (evict_represents t1 hist now now Hrep1 ltac:(lia)) as Hrep2.
  set (t2 := evict_stale t1 now) in *. set (r := {| timestamp_ms := now; duration_ms := dur |}) in *.
  pose proof (deque_push_spec r (records t2)) as Hpush. destruct (_ <? N)%nat.
  - destruct Hpush as (d' & -> & Hd'). split; [| split; [| split; [done | split; [done |]]]].
    + destruct Hrep2 as [Hok (old & -> & Hold)]. split; [apply Forall_app; by split; [| constructor] |].
      exists old. cbn [records with_records]. by rewrite Hd', app_assoc.
    + rewrite shares_app. cbn [shares foldr]. pose proof (share_le now r Hrec). cbn [duration_ms r] in *.
      unfold saturating_sub in Hfit. destruct Hrec as [_ Hu]. cbn in *. width.
    + intros _. destruct (max_dwell_time_ms t); [| done]. by apply Z.leb_le in Hdw.
  - rewrite Hpush. split; [done |]. split; [lia | done].
Qed.

(** The accepted transmissions of a run of guarded attempts, oldest first. *)
Fixpoint run (t : DutyCycleTracker) (attempts : list TxRecord) : list TxRecord * DutyCycleTracker :=
  match attempts with
  | [] => ([], t)
  | r :: attempts =>
      let '(b, t) := try_record_tx t r.(timestamp_ms) r.(duration_ms) in
      let '(acc, t) := run t attempts in
      (if b then r :: acc else acc, t)
  end.

(** Attempts made with a clock that does not go backwards. *)
Fixpoint monotone (last : Z) (rs : list TxRecord) : Prop :=
  match rs with
  | [] => True
  | r :: rs => last <= r.(timestamp_ms) /\ monotone r.(timestamp_ms) rs
  end.

(** Every transmission was within budget when it was made. *)
Definition compliant (m : Z) (hist : list TxRecord) : Prop :=
  forall pre r post, hist = pre ++ r :: post -> shares r.(timestamp_ms) (pre ++ [r]) <= m.

Lemma compliant_snoc m hist r :
  compliant m hist -> shares r.(timestamp_ms) (hist ++ [r]) <= m -> compliant m (hist ++ [r]).
Proof.
  intros Hc Hs pre x post Heq. destruct post as [|y post _] using rev_ind.
  - by apply app_inj_tail in Heq as [-> ->].
  - rewrite app_comm_cons, app_assoc in Heq. apply app_inj_tail in Heq as [-> _]. by eapply Hc.
Qed.

Definition before (r : TxRecord) (hist : list TxRecord) : Prop :=
  Forall (fun x => x.(timestamp_ms) <= r.(timestamp_ms)) hist.

Lemma run_spec attempts : forall t hist last,
  0 <= t.(duty_permille) <= 1000 -> represents t hist last ->
  shares last hist <= budget t.(duty_permille) -> compliant (budget t.(duty_permille)) hist ->
  Forall (fun x => x.(timestamp_ms) <= last) hist ->
  StronglySorted (fun a b => a.(timestamp_ms) <= b.(timestamp_ms)) hist ->
  monotone last attempts -> Forall record_ok attempts ->
  let hist' := hist ++ fst (run t attempts) in
  compliant (budget t.(duty_permille)) hist' /\ Forall record_ok hist' /\
  StronglySorted (fun a b => a.(timestamp_ms) <= b.(timestamp_ms)) hist' /\
  (forall m, t.(max_dwell_time_ms) = Some m -> Forall (fun r => r.(duration_ms) <= m) hist ->
     Forall (fun r => r.(duration_ms) <= m) hist').
Proof.
  induction attempts as [|[now dur] attempts IH]; intros t hist last Hd Hrep Hb Hc Hle Hsort Hmono Hok.
  - simpl. rewrite app_nil_r. split; [done |]. split; [apply Hrep |]. done.
  - destruct Hmono as [Hnow Hmono]. apply Forall_cons in Hok as [Hrec Hok]. cbn [timestamp_ms duration_ms] in *.
    pose proof (try_record_step t hist last now dur Hd Hrep Hnow Hb Hrec) as Hstep.
    cbn [run timestamp_ms duration_ms]. destruct (try_record_tx t now dur) as [b t'].
    destruct Hstep as (Hrep' & Hb' & Hp & Hdw & Hdwell). rewrite <- Hp in *.
    set (r := {| timestamp_ms := now; duration_ms := dur |}) in *.
    assert (compliant (budget (duty_permille t')) (if b then hist ++ [r] else hist)) as Hc'
      by (destruct b; [by apply compliant_snoc | done]).
    assert (Forall (fun x => timestamp_ms x <= now) (if b then hist ++ [r] else hist)) as Hle'.
    { assert (Forall (fun x => timestamp_ms x <= now) hist) by (eapply Forall_impl; [exact Hle | simpl; lia]).
      destruct b; [| done]. apply Forall_app. split; [done |]. constructor; [done | constructor]. }
    assert (StronglySorted (fun a b => timestamp_ms a <= timestamp_ms b) (if b then hist ++ [r] else hist)) as Hsort'.
    { destruct b; [| done]. apply StronglySorted_app_2; [| done | repeat constructor].
      intros x1 x2 Hx1 ->%list_elem_of_singleton. rewrite Forall_forall in Hle. specialize (Hle _ Hx1).
      simpl in *. lia. }
    specialize (IH t' _ now Hd Hrep' Hb' Hc' Hle' Hsort' Hmono Hok).
    destruct (run t' attempts) as [acc t'']. cbn [fst] in *. rewrite Hdw in IH.
    destruct b; [rewrite <- app_assoc in IH; simpl in IH |]; [| done].
    destruct IH as (I1 & I2 & I3 & I4). split; [done |]. split; [done |]. split; [done |].
    intros m Hm Hall. apply I4; [done |]. apply Forall_app. split; [done |]. constructor; [| constructor].
    specialize (Hdwell eq_refl). by rewrite Hm in Hdwell.
Qed.

Lemma on_air_share w r : record_ok r -> 0 <= w -> on_air w r <= share (w + WINDOW_MS) r.
Proof.
  intros [Ht Hd] Hw. unfold on_air, share, saturating_sub, WINDOW_MS in *. split_ifs; width.
Qed.

Lemma airtime_shares w rs : Forall record_ok rs -> 0 <= w -> airtime w rs <= shares (w + WINDOW_MS) rs.
Proof.
  intros Hr Hw. induction Hr as [|r rs Hr _ IH]; simpl; [lia |]. pose proof (on_air_share w r Hr Hw). lia.
Qed.

Lemma airtime_app w l1 l2 : airtime w (l1 ++ l2) = airtime w l1 + airtime w l2.
Proof. induction l1 as [|r l1 IH]; simpl; [done |]. rewrite IH. lia. Qed.

(** Local compliance at every transmission bounds every window. *)
Lemma compliant_airtime m hist w : 0 <= m -> 0 <= w -> Forall record_ok hist ->
  StronglySorted (fun a b => a.(timestamp_ms) <= b.(timestamp_ms)) hist -> compliant m hist ->
  airtime w hist <= m.
Proof.
  intros Hm Hw. induction hist as [|r hist IH] using rev_ind; intros Hok Hsort Hc; [simpl; lia |].
  pose proof (Hc hist r [] eq_refl) as Hr.
  apply Forall_app in Hok as [Hok1 Hok2]. pose proof (Forall_inv Hok2) as Hrok.
  destruct (decide (w + WINDOW_MS <= timestamp_ms r)) as [Hlate | Hin].
  - rewrite airtime_app. simpl. unfold on_air at 1. destruct Hrok as [Ht Hd].
    rewrite Z.max_l by (unfold WINDOW_MS in *; width). rewrite !Z.add_0_r.
    apply IH; [done | by eapply StronglySorted_app_1_l |].
    intros pre x post ->. apply (Hc pre x (post ++ [r])). by rewrite <- app_assoc.
  - etrans; [apply airtime_shares; [by apply Forall_app | done] |].
    etrans; [| exact Hr]. apply shares_mono; [by apply Forall_app | lia].
Qed.

(** C35: regulatory compliance.  A tracker that starts empty with a limit of
    [permille] and records transmissions only through [try_record_tx], under
    a clock that does not go backwards, never lets the node be on the air for
    more than [permille] thousandths of any one-hour window, wherever the
    window starts, and never lets one transmission exceed the dwell limit,
    however small its record buffer is. *)
Theorem duty_cycle_compliance (l : RegionalDutyCycleLimit) (attempts : list TxRecord) (w : Z)
  (Hl : 0 <= l.(rl_duty_permille) <= 1000) (Hm : monotone 0 attempts)
  (Hok : Forall record_ok attempts) (Hw : 0 <= w) :
  let sent := fst (run (with_regional_limit l) attempts) in
  airtime w sent <= 3600 * l.(rl_duty_permille) /\
  (forall m, l.(rl_max_dwell_time_ms) = Some m -> Forall (fun r => r.(duration_ms) <= m) sent).
Proof.
  assert (represents (with_regional_limit l) [] 0) as Hrep.
  { split; [done |]. exists []. cbn [with_regional_limit records]. by rewrite deque_items_new. }
  destruct (run_spec attempts (with_regional_limit l) [] 0 Hl Hrep) as (Hc & Hr & Hs & Hdw);
    [simpl; unfold budget; cbn; lia | intros [|? ?] ? ? ?; done | done | constructor | done | done |].
  rewrite app_nil_l in *. split; [| intros m Hx; by apply Hdw].
  apply compliant_airtime; [lia | done | done | done | exact Hc].
Qed.

(** ** Queries agree with the guard *)

(** the queries agree with the guard: a transmission [can_transmit]
    permits is available now, and one over the dwell limit never is; the
    budget [remaining_ms] reports is exactly the allowance minus the airtime
    of the past hour, never negative. *)
Lemma queries_agree (t : DutyCycleTracker) (now dur : Z)
  (Hp : 0 <= t.(duty_permille) <= 1000) (Hd : is_u32 dur)
  (Hok : Forall record_ok (deque_items t.(records)))
  (Hbud : shares now (deque_items t.(records)) <= 3600 * t.(duty_permille)) :
  fst (remaining_ms t now) = 3600 * t.(duty_permille) - shares now (deque_items t.(records)) /\
  (fst (can_transmit t now dur) = true -> fst (next_tx_available_ms t now dur) = now) /\
  (forall m, t.(max_dwell_time_ms) = Some m -> m < dur ->
     fst (can_transmit t now dur) = false /\ fst (next_tx_available_ms t now dur) = u64_max).
Proof.
  assert (represents t (deque_items (records t)) now) as Hrep.
  { split; [done |]. exists []. done. }
  pose proof (represents_total _ _ _ (evict_represents _ _ _ now Hrep ltac:(lia))) as Htot.
  pose proof (shares_nonneg now _ Hok) as Hnn.
  unfold can_transmit, next_tx_available_ms, remaining_ms. set (t1 := evict_stale t now) in *.
  change (max_dwell_time_ms t1) with (max_dwell_time_ms t).
  change (max_tx_ms t1) with (budget (duty_permille t)). cbv zeta. rewrite Htot.
  set (u := shares now _) in *. clearbody u. unfold saturating_add, saturating_sub, budget.
  split; [cbn [fst]; width |]. split.
  - destruct (max_dwell_time_ms t) as [m|]; [destruct (dur <=? m) eqn:E; [| done] |]; cbn [fst]; intros Hc;
      bool_to_prop; rewrite ?(proj2 (Z.ltb_ge _ _)) by lia; rewrite (proj2 (Z.leb_le _ _)) by width; done.
  - intros m -> Hlt. rewrite (proj2 (Z.leb_gt _ _)), (proj2 (Z.ltb_lt _ _)) by lia. done.
Qed.
End tracker.

Import HeaplessList.

Definition demo_attempts : list TxRecord :=
  [{| timestamp_ms := 0; duration_ms := 1000 |}; {| timestamp_ms := 3600500; duration_ms := 35500 |};
   {| timestamp_ms := 3600500; duration_ms := 600 |}].

Lemma duty_cycle_compliance_witness :
  airtime 1000 (fst (run (N := 64) (with_regional_limit LIMIT_EU868) demo_attempts)) <= 36000.
Proof.
  apply (duty_cycle_compliance (N := 64) LIMIT_EU868 demo_attempts 1000).
  - simpl. unfold EU868_DUTY_PERMILLE. lia.
  - simpl. split; [lia |]. split; [lia |]. split; [lia | exact I].
  - unfold demo_attempts, record_ok. rewrite !Forall_cons. simpl.
    split; [width |]. split; [width |]. split; [width | constructor].
  - lia.
Defined.

(** ** What the queries do not promise *)

Definition early_tracker : DutyCycleTracker (N := 64) := snd (run (with_regional_limit LIMIT_EU868) demo_attempts).

(** the time [next_tx_available_ms] announces can come too early, since
    the wait it computes counts the whole duration of a record of which part
    has already left the window.  Here a transmission of 600 ms is announced
    for time 3601000, when only 500 ms fit and [can_transmit] refuses it. *)
Lemma next_tx_too_early :
  fst (next_tx_available_ms early_tracker 3600500 600) = 3601000 /\
  fst (can_transmit early_tracker 3601000 600) = false /\
  fst (remaining_ms early_tracker 3601000) = 500.
Proof. vm_compute. auto. Qed.

(** Congestion is measured against the whole hour, not against the allowance:
    a node within a limit below 50 percent never leaves [CL_Normal]. *)
Lemma congestion_ignores_limit `{Heapless} `{!HeaplessLaws} {N : nat} (t : DutyCycleTracker (N := N)) now :
  0 <= t.(duty_permille) < 500 -> Forall record_ok (deque_items t.(records)) ->
  shares now (deque_items t.(records)) <= budget t.(duty_permille) ->
  fst (congestion_level t now) = CL_Normal.
Proof.
  intros Hp Hok Hb. assert (represents t (deque_items (records t)) now) as Hrep.
  { split; [done |]. exists []. done. }
  pose proof (represents_total _ _ _ (evict_represents _ _ _ now Hrep ltac:(lia))) as Htot.
  pose proof (shares_nonneg now _ Hok) as Hnn.
  unfold congestion_level, usage_permille. rewrite Htot. set (u := shares now _) in *. clearbody u.
  unfold budget in Hb. rewrite Z.min_r by width.
  assert (u * 1000 / WINDOW_MS < 500) by (apply Z.div_lt_upper_bound; unfold WINDOW_MS; lia).
  assert (0 <= u * 1000 / WINDOW_MS) by (apply Z.div_pos; unfold WINDOW_MS; lia).
  rewrite wrap16_small by width. unfold congestion_level_from_permille, THRESHOLD_EXHAUSTED,
    THRESHOLD_CRITICAL, THRESHOLD_ELEVATED. cbn [fst]. by split_ifs.
Qed.

End DutyCycle.
