(* ===== verification/TxQueue.v ===== *)
(** * Transmission queue and channel access

    lichen-core/src/tx_queue.rs: the CSMA/CA contention machine and the
    four-slot priority queue with deadlines, preemption and congestion
    gating.  Unsigned subtraction that would underflow and indexing out of
    range are panics, the outer [None]. *)

From stdpp Require Import sorting.
From S2P Require Import Prelude Heapless DutyCycle.

Module Csma.

Definition CSMA_BACKOFF_MAX : Z := 5.
Definition CSMA_RETRY_LIMIT : Z := 3.
Definition CSMA_BACKOFF_UNIT_MS : Z := 10.
Definition CSMA_CAD_TIMEOUT_SYMBOLS : Z := 3.

Inductive CadObservation := Idle | Busy.
#[export] Instance CadObservation_eq_dec : EqDecision CadObservation.
Proof. solve_decision. Defined.

Inductive CsmaAction := Transmit | Backoff (slots delay_ms : Z) | RetryExhausted.

Definition tx_allowed (a : CsmaAction) : bool := match a with Transmit => true | _ => false end.

Inductive CsmaStateError := BackoffExponentOutOfRange | RetryCountOutOfRange.

Record CsmaState := { backoff_exponent : Z; retries : Z }.

Definition new : CsmaState := {| backoff_exponent := 0; retries := 0 |}.

Definition from_parts (backoff_exponent retries : Z) : result CsmaStateError CsmaState :=
  if CSMA_BACKOFF_MAX <? backoff_exponent then Err BackoffExponentOutOfRange
  else if CSMA_RETRY_LIMIT + 1 <? retries then Err RetryCountOutOfRange
  else Ok {| backoff_exponent := backoff_exponent; retries := retries |}.

Definition is_exhausted (s : CsmaState) : bool := CSMA_RETRY_LIMIT <? s.(retries).

Definition contention_window (s : CsmaState) : Z := wrap8 (Z.shiftl 1 s.(backoff_exponent) - 1).

Definition reset (s : CsmaState) : CsmaState := {| backoff_exponent := 0; retries := 0 |}.

Definition on_cad (s : CsmaState) (observation : CadObservation) (random_draw : Z)
  : CsmaAction * CsmaState :=
  if decide (observation = Idle) then (Transmit, reset s)
  else if is_exhausted s then (RetryExhausted, s)
  else
    let s := {| backoff_exponent := s.(backoff_exponent); retries := s.(retries) + 1 |} in
    if is_exhausted s then (RetryExhausted, s)
    else
      let s := {| backoff_exponent := Z.min (saturating_add u8_max s.(backoff_exponent) 1) CSMA_BACKOFF_MAX;
                  retries := s.(retries) |} in
      let slots := wrap8 (Z.land random_draw (contention_window s)) in
      (Backoff slots (slots * CSMA_BACKOFF_UNIT_MS), s).

Definition checked_csma_backoff_ms (slots : Z) : option Z := checked_mul u32_max slots CSMA_BACKOFF_UNIT_MS.

(** Validated states. *)
Definition valid (s : CsmaState) : Prop :=
  0 <= s.(backoff_exponent) <= CSMA_BACKOFF_MAX /\ 0 <= s.(retries) <= CSMA_RETRY_LIMIT + 1.

Lemma window_spec s : valid s -> contention_window s = 2 ^ s.(backoff_exponent) - 1.
Proof.
  intros [He _]. unfold contention_window. rewrite Z.shiftl_1_l. apply wrap8_small.
  pose proof (Z.pow_le_mono_r 2 _ _ ltac:(lia) (proj2 He)) as Hp.
  pose proof (Z.pow_pos_nonneg 2 (backoff_exponent s) ltac:(lia) ltac:(lia)).
  change (2 ^ CSMA_BACKOFF_MAX) with 32 in Hp. width.
Qed.

Lemma slots_spec s draw : valid s ->
  wrap8 (Z.land draw (contention_window s)) = draw mod 2 ^ s.(backoff_exponent).
Proof.
  intros Hv. rewrite window_spec by done. destruct Hv as [He _].
  replace (2 ^ backoff_exponent s - 1) with (Z.ones (backoff_exponent s)) by (rewrite Z.ones_equiv; lia).
  rewrite Z.land_ones by lia. apply wrap8_small.
  pose proof (Z.pow_le_mono_r 2 _ _ ltac:(lia) (proj2 He)) as Hp.
  pose proof (Z.pow_pos_nonneg 2 (backoff_exponent s) ltac:(lia) ltac:(lia)).
  pose proof (Z.mod_pos_bound draw (2 ^ backoff_exponent s) ltac:(lia)).
  change (2 ^ CSMA_BACKOFF_MAX) with 32 in Hp. width.
Qed.

(** one CAD result on any validated state.  An idle channel transmits
    and starts afresh; a busy one backs off for a slot count drawn from the
    doubled window (a power of two, so the draw is reduced without bias),
    at most 31 slots and 310 ms; the fourth busy result in a row exhausts the
    attempt, and an exhausted state stays exhausted until the channel is
    idle.  The state stays valid. *)
Lemma on_cad_spec (s : CsmaState) (o : CadObservation) (draw : Z) (Hv : valid s) :
  let '(a, s') := on_cad s o draw in
  valid s' /\
  match o, a with
  | Idle, Transmit => s' = new
  | Busy, Backoff slots delay =>
      s'.(retries) = s.(retries) + 1 /\ s'.(retries) <= 3 /\
      s'.(backoff_exponent) = Z.min (s.(backoff_exponent) + 1) 5 /\
      slots = draw mod 2 ^ s'.(backoff_exponent) /\ 0 <= slots <= 31 /\
      delay = 10 * slots /\ delay <= 310
  | Busy, RetryExhausted =>
      s'.(retries) = 4 /\ 3 <= s.(retries) /\ s'.(backoff_exponent) = s.(backoff_exponent)
  | _, _ => False
  end.
Proof.
  pose proof Hv as [He Hr]. unfold on_cad. destruct o; cbn [decide]; simpl (if decide _ then _ else _).
  { split; [| done]. split; simpl; unfold CSMA_BACKOFF_MAX, CSMA_RETRY_LIMIT; lia. }
  unfold is_exhausted, CSMA_RETRY_LIMIT, CSMA_BACKOFF_MAX in *. cbn [retries backoff_exponent].
  destruct (3 <? retries s) eqn:E1; bool_to_prop; [split; [done | lia] |].
  destruct (3 <? retries s + 1) eqn:E2; bool_to_prop.
  { split; [split; simpl; unfold CSMA_BACKOFF_MAX, CSMA_RETRY_LIMIT; lia | simpl; lia]. }
  set (s' := {| backoff_exponent := _; retries := retries s + 1 |}).
  assert (backoff_exponent s' = Z.min (backoff_exponent s + 1) 5) as Hexp
    by (simpl; unfold saturating_add; width).
  assert (valid s') as Hv' by (split; [rewrite Hexp |]; simpl; unfold CSMA_BACKOFF_MAX, CSMA_RETRY_LIMIT; lia).
  split; [done |]. rewrite slots_spec by done.
  assert (0 <= draw mod 2 ^ backoff_exponent s' <= 31) as Hs.
  { pose proof (Z.pow_le_mono_r 2 (backoff_exponent s') 5 ltac:(lia) ltac:(lia)) as Hp.
    pose proof (Z.pow_pos_nonneg 2 (backoff_exponent s') ltac:(lia) ltac:(lia)).
    pose proof (Z.mod_pos_bound draw (2 ^ backoff_exponent s') ltac:(lia)).
    change (2 ^ 5) with 32 in Hp. lia. }
  unfold CSMA_BACKOFF_UNIT_MS. change (retries s') with (retries s + 1). lia.
Qed.

End Csma.

Module TxQueue.
Import TxPriority DutyCycle Csma.

Inductive TxQueueError := QueueFull | PayloadTooLarge | DeadlineExpired.

Definition TX_QUEUE_CAPACITY : nat := 4.
Definition DEADLINE_SOS_MS : Z := 2000.
Definition DEADLINE_ROUTING_MS : Z := 5000.
Definition DEADLINE_ACK_MS : Z := 10000.
Definition DEADLINE_URGENT_MS : Z := 30000.
Definition DEADLINE_NORMAL_MS : Z := 60000.
Definition DEADLINE_BULK_MS : Z := 120000.
Definition TX_ITEM_MAX_PAYLOAD : nat := 255.

Section queue.
Context `{Heapless}.

Record TxItem := {
  priority : TxPriority;
  sequence : Z;
  deadline_ms : Z;
  enqueue_time_ms : Z;
  data : vec TX_ITEM_MAX_PAYLOAD Z
}.

Definition item_new (priority : TxPriority) (sequence deadline_ms enqueue_time_ms : Z) (bytes_in : bytes)
  : option TxItem :=
  v ← vec_extend_from_slice bytes_in vec_new;
  Some {| priority := priority; sequence := sequence; deadline_ms := deadline_ms;
          enqueue_time_ms := enqueue_time_ms; data := v |}.

Definition is_expired (i : TxItem) (now_ms : Z) : bool := i.(deadline_ms) <=? now_ms.
Definition item_len (i : TxItem) : Z := Z.of_nat (length (vec_items i.(data))).

(** [Ord for TxItem]. *)
Definition item_cmp (self other : TxItem) : comparison :=
  match as_u8 other.(priority) ?= as_u8 self.(priority) with
  | Eq => as_i32 (wrap32 (other.(sequence) - self.(sequence))) ?= 0
  | ord => ord
  end.

Record TxQueueStats := {
  depth : nat;
  st_bytes_pending : Z;
  st_by_priority : list Z;
  st_packets_queued : Z;
  st_packets_dropped_deadline : Z;
  st_packets_dropped_full : Z;
  st_packets_preempted : Z;
  st_max_latency_ms : Z;
  avg_latency_ms : Z
}.

(** The counters of [TxQueue], apart from the heap. *)
Record Counters := {
  next_sequence : Z;
  bytes_pending : Z;
  by_priority : list Z;
  packets_queued : Z;
  packets_dropped_deadline : Z;
  packets_dropped_full : Z;
  packets_preempted : Z;
  max_latency_ms : Z;
  avg_latency_scaled : Z;
  observed_now_ms : Z
}.

Record TxQueue := { items : heap TX_QUEUE_CAPACITY TxItem; counters : Counters }.

Definition new : TxQueue :=
  {| items := heap_new;
     counters := {| next_sequence := 0; bytes_pending := 0; by_priority := replicate COUNT 0;
                    packets_queued := 0; packets_dropped_deadline := 0; packets_dropped_full := 0;
                    packets_preempted := 0; max_latency_ms := 0; avg_latency_scaled := 0;
                    observed_now_ms := 0 |} |}.

(** *** Counter updates *)

(** [bytes_pending -= item.len(); by_priority[p] -= 1]. *)
Definition sub_item (c : Counters) (i : TxItem) : option Counters :=
  b ← checked_sub c.(bytes_pending) (item_len i);
  n ← c.(by_priority) !! Z.to_nat (as_u8 i.(priority));
  n ← checked_sub n 1;
  Some {| next_sequence := c.(next_sequence); bytes_pending := b;
          by_priority := <[Z.to_nat (as_u8 i.(priority)) := n]> c.(by_priority);
          packets_queued := c.(packets_queued);
          packets_dropped_deadline := c.(packets_dropped_deadline);
          packets_dropped_full := c.(packets_dropped_full);
          packets_preempted := c.(packets_preempted); max_latency_ms := c.(max_latency_ms);
          avg_latency_scaled := c.(avg_latency_scaled); observed_now_ms := c.(observed_now_ms) |}.

(** The counters of a successful [push]. *)
Definition add_item (c : Counters) (p : TxPriority) (len : nat) : option Counters :=
  n ← c.(by_priority) !! Z.to_nat (as_u8 p);
  Some {| next_sequence := wrap32 (c.(next_sequence) + 1); bytes_pending := c.(bytes_pending) + Z.of_nat len;
          by_priority := <[Z.to_nat (as_u8 p) := n + 1]> c.(by_priority);
          packets_queued := saturating_add u32_max c.(packets_queued) 1;
          packets_dropped_deadline := c.(packets_dropped_deadline);
          packets_dropped_full := c.(packets_dropped_full);
          packets_preempted := c.(packets_preempted); max_latency_ms := c.(max_latency_ms);
          avg_latency_scaled := c.(avg_latency_scaled); observed_now_ms := c.(observed_now_ms) |}.

Definition set_observed (c : Counters) (now : Z) : Counters :=
  {| next_sequence := c.(next_sequence); bytes_pending := c.(bytes_pending);
     by_priority := c.(by_priority); packets_queued := c.(packets_queued);
     packets_dropped_deadline := c.(packets_dropped_deadline);
     packets_dropped_full := c.(packets_dropped_full);
     packets_preempted := c.(packets_preempted); max_latency_ms := c.(max_latency_ms);
     avg_latency_scaled := c.(avg_latency_scaled); observed_now_ms := now |}.

Definition count_dropped (c : Counters) (deadline full preempted : Z) : Counters :=
  {| next_sequence := c.(next_sequence); bytes_pending := c.(bytes_pending);
     by_priority := c.(by_priority); packets_queued := c.(packets_queued);
     packets_dropped_deadline := saturating_add u32_max c.(packets_dropped_deadline) deadline;
     packets_dropped_full := saturating_add u32_max c.(packets_dropped_full) full;
     packets_preempted := saturating_add u32_max c.(packets_preempted) preempted;
     max_latency_ms := c.(max_latency_ms);
     avg_latency_scaled := c.(avg_latency_scaled); observed_now_ms := c.(observed_now_ms) |}.

(** The latency bookkeeping of [pop] and [pop_if_allowed]. *)
Definition track_latency (c : Counters) (i : TxItem) : Counters :=
  let latency_ms := wrap32 (Z.min (saturating_sub c.(observed_now_ms) i.(enqueue_time_ms)) u32_max) in
  {| next_sequence := c.(next_sequence); bytes_pending := c.(bytes_pending);
     by_priority := c.(by_priority); packets_queued := c.(packets_queued);
     packets_dropped_deadline := c.(packets_dropped_deadline);
     packets_dropped_full := c.(packets_dropped_full);
     packets_preempted := c.(packets_preempted);
     max_latency_ms := if c.(max_latency_ms) <? latency_ms then latency_ms else c.(max_latency_ms);
     avg_latency_scaled := saturating_add u32_max
       (saturating_sub c.(avg_latency_scaled) (c.(avg_latency_scaled) / 8)) latency_ms;
     observed_now_ms := c.(observed_now_ms) |}.

(** *** Draining and rebuilding the heap *)

(** [while let Some(item) = self.heap.pop() { .. }]: [visit] updates the loop's
    state and says whether the item goes to [temp] ([temp.push(item).ok()]).
    Every round pops one item, so the size of the heap is enough fuel. *)
Fixpoint drain {S} (visit : S -> TxItem -> option (S * bool)) (fuel : nat)
  (h : heap TX_QUEUE_CAPACITY TxItem) (temp : vec TX_QUEUE_CAPACITY TxItem) (s : S)
  : option (S * vec TX_QUEUE_CAPACITY TxItem * heap TX_QUEUE_CAPACITY TxItem) :=
  match fuel with
  | O => Some (s, temp, h)
  | S fuel =>
      match heap_pop item_cmp h with
      | None => Some (s, temp, h)
      | Some (item, h) =>
          '(s, keep) ← visit s item;
          drain visit fuel h (if keep : bool then default temp (vec_push item temp) else temp) s
      end
  end.

(** [for item in temp { self.heap.push(item).ok(); }]. *)
Definition rebuild (h : heap TX_QUEUE_CAPACITY TxItem) (temp : vec TX_QUEUE_CAPACITY TxItem)
  : heap TX_QUEUE_CAPACITY TxItem :=
  foldl (fun h item => default h (heap_push item_cmp item h)) h (vec_items temp).

Definition drain_rebuild {S} (visit : S -> TxItem -> option (S * bool))
  (h : heap TX_QUEUE_CAPACITY TxItem) (s : S) : option (S * heap TX_QUEUE_CAPACITY TxItem) :=
  '(s, temp, h) ← drain visit (length (heap_items h)) h vec_new s;
  Some (s, rebuild h temp).

(** *** Operations *)

Definition expire_visit (now : Z) (s : Counters * nat) (item : TxItem) : option (Counters * nat * bool) :=
  let '(c, expired_count) := s in
  if is_expired item now then
    c ← sub_item c item;
    Some (count_dropped c 1 0 0, Datatypes.S expired_count, false)
  else Some (c, expired_count, true).

Definition expire_before (q : TxQueue) (now_ms : Z) : option (nat * TxQueue) :=
  let effective_now_ms := Z.max q.(counters).(observed_now_ms) now_ms in
  let c := set_observed q.(counters) effective_now_ms in
  '((c, expired_count), h) ← drain_rebuild (expire_visit effective_now_ms) q.(items) (c, 0%nat);
  Some (expired_count, {| items := h; counters := c |}).

(** The scan for the oldest item at the worst priority. *)
Definition older (worst : Z) (best : option Z) (i : TxItem) : option Z :=
  if as_u8 i.(priority) =? worst then
    match best with
    | None => Some i.(sequence)
    | Some seq => if as_i32 (wrap32 (i.(sequence) - seq)) <? 0 then Some i.(sequence) else Some seq
    end
  else best.

Definition preempt_visit (worst target : Z) (s : Counters * bool) (item : TxItem)
  : option (Counters * bool * bool) :=
  let '(c, removed) := s in
  if negb removed && (as_u8 item.(priority) =? worst) && (item.(sequence) =? target) then
    c ← sub_item c item;
    Some (count_dropped c 0 0 1, true, false)
  else Some (c, removed, true).

Definition worst_priority (l : list TxItem) : Z :=
  foldl (fun w i => Z.max w (as_u8 i.(priority))) 0 l.

Definition try_preempt (q : TxQueue) (new_priority : TxPriority) : option (bool * TxQueue) :=
  let l := heap_items q.(items) in
  let worst := worst_priority l in
  if worst <=? as_u8 new_priority then Some (false, q)
  else
    match foldl (older worst) None l with
    | None => Some (false, q)
    | Some target =>
        '((c, removed), h) ← drain_rebuild (preempt_visit worst target) q.(items) (q.(counters), false);
        Some (removed, {| items := h; counters := c |})
    end.

Definition enqueue (q : TxQueue) (item : TxItem) (len : nat) : option TxQueue :=
  c ← add_item q.(counters) item.(priority) len;
  Some {| items := default q.(items) (heap_push item_cmp item q.(items)); counters := c |}.

Definition push (q : TxQueue) (p : TxPriority) (deadline now_ms : Z) (bytes_in : bytes)
  : option (result TxQueueError unit * TxQueue) :=
  '(_, q) ← expire_before q now_ms;
  let effective_now_ms := q.(counters).(observed_now_ms) in
  if deadline <=? effective_now_ms then Some (Err DeadlineExpired, q)
  else
  match item_new p q.(counters).(next_sequence) deadline effective_now_ms bytes_in with
  | None => Some (Err PayloadTooLarge, q)
  | Some item =>
      if (length (heap_items q.(items)) <? TX_QUEUE_CAPACITY)%nat then
        q ← enqueue q item (length bytes_in);
        Some (Ok tt, q)
      else
        '(preempted, q) ← try_preempt q p;
        if preempted : bool then
          q ← enqueue q item (length bytes_in);
          Some (Ok tt, q)
        else
          Some (Err QueueFull, {| items := q.(items); counters := count_dropped q.(counters) 0 1 0 |})
  end.

Definition pop (q : TxQueue) (now_ms : Z) : option (option TxItem * TxQueue) :=
  '(_, q) ← expire_before q now_ms;
  match heap_pop item_cmp q.(items) with
  | None => Some (None, q)
  | Some (item, h) =>
      c ← sub_item q.(counters) item;
      Some (Some item, {| items := h; counters := track_latency c item |})
  end.

Definition allowed_visit (lvl : CongestionLevel) (s : Counters * option TxItem) (item : TxItem)
  : option (Counters * option TxItem * bool) :=
  let '(c, found) := s in
  if bool_decide (found = None) && check_congestion_allows lvl item.(priority) then
    c ← sub_item c item;
    Some (track_latency c item, Some item, false)
  else Some (c, found, true).

Definition pop_if_allowed (q : TxQueue) (now_ms : Z) (lvl : CongestionLevel)
  : option (option TxItem * TxQueue) :=
  '(_, q) ← expire_before q now_ms;
  if decide (lvl = Exhausted) then Some (None, q)
  else
    let top_allowed :=
      match heap_peek q.(items) with
      | Some top => check_congestion_allows lvl top.(priority)
      | None => false
      end in
    if top_allowed then pop q now_ms
    else
      '((c, found), h) ← drain_rebuild (allowed_visit lvl) q.(items) (q.(counters), None);
      Some (found, {| items := h; counters := c |}).

Definition pop_after_csma (q : TxQueue) (now_ms : Z) (lvl : CongestionLevel) (action : CsmaAction)
  : option (option TxItem * TxQueue) :=
  if negb (tx_allowed action) then Some (None, q) else pop_if_allowed q now_ms lvl.

Definition has_allowed (q : TxQueue) (now_ms : Z) (lvl : CongestionLevel) : option (bool * TxQueue) :=
  '(_, q) ← expire_before q now_ms;
  if decide (lvl = Exhausted) then Some (false, q)
  else Some (existsb (fun i => check_congestion_allows lvl i.(priority)) (heap_items q.(items)), q).

Definition peek (q : TxQueue) (now_ms : Z) : option (option TxItem * TxQueue) :=
  '(_, q) ← expire_before q now_ms; Some (heap_peek q.(items), q).

Definition count (q : TxQueue) (now_ms : Z) : option (nat * TxQueue) :=
  '(_, q) ← expire_before q now_ms; Some (length (heap_items q.(items)), q).

Definition is_empty (q : TxQueue) (now_ms : Z) : option (bool * TxQueue) :=
  '(n, q) ← count q now_ms; Some ((n =? 0)%nat, q).

Definition is_full (q : TxQueue) (now_ms : Z) : option (bool * TxQueue) :=
  '(_, q) ← expire_before q now_ms;
  Some ((TX_QUEUE_CAPACITY <=? length (heap_items q.(items)))%nat, q).

Definition len (q : TxQueue) : nat := length (heap_items q.(items)).

Definition stats (q : TxQueue) : TxQueueStats :=
  let c := q.(counters) in
  {| depth := length (heap_items q.(items)); st_bytes_pending := c.(bytes_pending);
     st_by_priority := c.(by_priority); st_packets_queued := c.(packets_queued);
     st_packets_dropped_deadline := c.(packets_dropped_deadline);
     st_packets_dropped_full := c.(packets_dropped_full);
     st_packets_preempted := c.(packets_preempted); st_max_latency_ms := c.(max_latency_ms);
     avg_latency_ms := c.(avg_latency_scaled) / 8 |}.

(** [u64::div_ceil]. *)
Definition estimated_drain_time_ms (q : TxQueue) (airtime_per_byte_us : Z) : Z :=
  let total_us := q.(counters).(bytes_pending) * airtime_per_byte_us in
  total_us / 1000 + (if total_us mod 1000 =? 0 then 0 else 1).

(** ** Accounting *)

Definition total_len (l : list TxItem) : Z := foldr (fun i acc => item_len i + acc) 0 l.
Definition count_of (p : nat) (l : list TxItem) : Z :=
  Z.of_nat (length (filter (fun i => Z.to_nat (as_u8 i.(priority)) = p) l)).

(** The cached statistics are those of [l]. *)
Record accounts (c : Counters) (l : list TxItem) : Prop := {
  ac_bytes : c.(bytes_pending) = total_len l;
  ac_len : length c.(by_priority) = COUNT;
  ac_counts p : (p < COUNT)%nat -> c.(by_priority) !! p = Some (count_of p l)
}.

Lemma total_len_perm l l' : l ≡ₚ l' -> total_len l = total_len l'.
Proof. induction 1; simpl; lia. Qed.
Lemma count_of_perm p l l' : l ≡ₚ l' -> count_of p l = count_of p l'.
Proof. intros Hp. unfold count_of. by rewrite Hp. Qed.

#[export] Instance accounts_proper c : Proper ((≡ₚ) ==> iff) (accounts c).
Proof.
  intros l l' Hp. split; intros [Hb Hl Hc]; split; try done.
  - by rewrite Hb, (total_len_perm _ _ Hp).
  - intros p Hlt. rewrite Hc by done. f_equal. by apply count_of_perm.
  - by rewrite Hb, (total_len_perm _ _ Hp).
  - intros p Hlt. rewrite Hc by done. f_equal. by apply count_of_perm.
Qed.

Lemma total_len_nonneg l : 0 <= total_len l.
Proof. induction l as [|i l IH]; simpl; [lia |]. unfold item_len. lia. Qed.
Lemma count_of_cons p i l :
  count_of p (i :: l) = count_of p l + if decide (Z.to_nat (as_u8 i.(priority)) = p) then 1 else 0.
Proof. unfold count_of. rewrite filter_cons. case_decide; simpl; lia. Qed.
Lemma prio_lt i : (Z.to_nat (as_u8 i.(priority)) < COUNT)%nat.
Proof. unfold COUNT. destruct (priority i); simpl; lia. Qed.

(** Removing an accounted item never underflows. *)
Lemma sub_item_ok c i l : accounts c (i :: l) ->
  exists c', sub_item c i = Some c' /\ accounts c' l /\
    c'.(next_sequence) = c.(next_sequence) /\ c'.(packets_queued) = c.(packets_queued) /\
    c'.(observed_now_ms) = c.(observed_now_ms).
Proof.
  intros [Hb Hl Hc]. unfold sub_item, checked_sub. pose proof (total_len_nonneg l). simpl in Hb.
  rewrite (proj2 (Z.leb_le _ _)) by lia. cbn [mbind option_bind].
  rewrite Hc by apply prio_lt. cbn [mbind option_bind]. rewrite count_of_cons, decide_True by done.
  assert (0 <= count_of (Z.to_nat (as_u8 (priority i))) l) by (unfold count_of; lia).
  rewrite (proj2 (Z.leb_le _ _)) by lia. cbn [mbind option_bind].
  eexists. split; [done |]. split; [| done]. split; cbn [bytes_pending by_priority].
  - lia.
  - by rewrite length_insert.
  - intros p Hp. destruct (decide (Z.to_nat (as_u8 (priority i)) = p)) as [<- | Hne].
    + rewrite list_lookup_insert_eq by (rewrite Hl; apply prio_lt). f_equal. lia.
    + rewrite list_lookup_insert_ne by done. rewrite Hc, count_of_cons, decide_False by done. f_equal. lia.
Qed.

Lemma add_item_ok c i l : accounts c l ->
  exists c', add_item c i.(priority) (length (vec_items i.(data))) = Some c' /\ accounts c' (i :: l) /\
    c'.(next_sequence) = wrap32 (c.(next_sequence) + 1) /\
    c'.(packets_queued) = saturating_add u32_max c.(packets_queued) 1 /\
    c'.(observed_now_ms) = c.(observed_now_ms).
Proof.
  intros [Hb Hl Hc]. unfold add_item. rewrite Hc by apply prio_lt. cbn [mbind option_bind].
  eexists. split; [done |]. split; [| done]. split; cbn [bytes_pending by_priority].
  - change (total_len (i :: l)) with (item_len i + total_len l). unfold item_len. lia.
  - by rewrite length_insert.
  - intros p Hp. rewrite count_of_cons. destruct (decide (Z.to_nat (as_u8 (priority i)) = p)) as [<- | Hne].
    + by rewrite list_lookup_insert_eq by (rewrite Hl; apply prio_lt).
    + rewrite list_lookup_insert_ne by done. rewrite Hc by done. f_equal. lia.
Qed.

Lemma accounts_dropped c l d f p : accounts c l -> accounts (count_dropped c d f p) l.
Proof. intros []. by split. Qed.
Lemma accounts_latency c l i : accounts c l -> accounts (track_latency c i) l.
Proof. intros []. by split. Qed.

(** ** The drain *)

Context `{!HeaplessLaws}.

(** The items of a heap in the order its [pop] yields them. *)
Fixpoint pop_all (fuel : nat) (h : heap TX_QUEUE_CAPACITY TxItem) : list TxItem :=
  match fuel with
  | O => []
  | S fuel =>
      match heap_pop item_cmp h with
      | None => []
      | Some (item, h) => item :: pop_all fuel h
      end
  end.

Lemma pop_all_perm fuel : forall h, (length (heap_items h) <= fuel)%nat -> pop_all fuel h ≡ₚ heap_items h.
Proof.
  induction fuel as [|fuel IH]; intros h Hf; simpl.
  - destruct (heap_items h); [done | simpl in Hf; lia].
  - pose proof (heap_pop_spec item_cmp h) as Hp. destruct (heap_pop item_cmp h) as [[x h'] |].
    + rewrite Hp. f_equiv. apply IH. rewrite Hp in Hf. simpl in Hf. lia.
    + by rewrite Hp.
Qed.

(** The loop of [drain] over the list of popped items. *)
Fixpoint visits {S} (visit : S -> TxItem -> option (S * bool)) (l : list TxItem) (s : S)
  : option (S * list TxItem) :=
  match l with
  | [] => Some (s, [])
  | i :: l =>
      '(s, keep) ← visit s i;
      '(s, kept) ← visits visit l s;
      Some (s, if keep : bool then i :: kept else kept)
  end.

Lemma visits_kept {S} visit l : forall (s s' : S) kept,
  visits visit l s = Some (s', kept) -> (length kept <= length l)%nat.
Proof.
  induction l as [|i l IH]; intros s s' kept; simpl; [by intros [= _ <-] |].
  destruct (visit s i) as [[s1 keep]|]; [| done]. simpl.
  destruct (visits visit l s1) as [[s2 k]|] eqn:Hv; [| done]. simpl. intros [= _ <-].
  apply IH in Hv. destruct keep; simpl; lia.
Qed.

Lemma drain_spec {S} visit fuel : forall h temp (s s' : S) kept,
  (length (heap_items h) <= fuel)%nat ->
  (length (vec_items temp) + length (heap_items h) <= TX_QUEUE_CAPACITY)%nat ->
  visits visit (pop_all fuel h) s = Some (s', kept) ->
  exists temp' h', drain visit fuel h temp s = Some (s', temp', h') /\
    vec_items temp' = vec_items temp ++ kept /\ heap_items h' = [].
Proof.
  induction fuel as [|fuel IH]; intros h temp s s' kept Hf Hcap; simpl.
  - intros [= <- <-]. exists temp, h. rewrite app_nil_r. destruct (heap_items h); [done | simpl in Hf; lia].
  - pose proof (heap_pop_spec item_cmp h) as Hp. destruct (heap_pop item_cmp h) as [[i h1] |].
    2: { intros [= <- <-]. exists temp, h. by rewrite app_nil_r. }
    rewrite Hp in Hf, Hcap. simpl in Hf, Hcap. simpl.
    destruct (visit s i) as [[s1 keep]|]; [| done]. simpl.
    destruct (visits visit (pop_all fuel h1) s1) as [[s2 k]|] eqn:Hv; [| done]. simpl. intros [= <- <-].
    destruct keep.
    + pose proof (vec_push_spec i temp) as Hpush. rewrite (proj2 (Nat.ltb_lt _ _)) in Hpush by lia.
      destruct Hpush as (t1 & -> & Ht1). simpl.
      destruct (IH h1 t1 s1 s2 k) as (t' & h' & -> & Ht' & Hh'); [lia | rewrite Ht1, length_app; simpl; lia | done |].
      exists t', h'. rewrite Ht', Ht1, <- app_assoc. done.
    + destruct (IH h1 temp s1 s2 k) as (t' & h' & -> & Ht' & Hh'); [lia | lia | done |]. by exists t', h'.
Qed.

Lemma rebuild_perm l : forall h : heap TX_QUEUE_CAPACITY TxItem, (length (heap_items h) + length l <= TX_QUEUE_CAPACITY)%nat ->
  heap_items (foldl (fun h item => default h (heap_push item_cmp item h)) h l) ≡ₚ l ++ heap_items h.
Proof.
  induction l as [|i l IH]; intros h Hcap; simpl in *; [done |].
  pose proof (heap_push_spec item_cmp i h) as Hp. rewrite (proj2 (Nat.ltb_lt _ _)) in Hp by lia.
  destruct Hp as (h' & -> & Hh'). simpl.
  rewrite IH by (rewrite Hh'; simpl; lia). by rewrite Hh', Permutation_middle.
Qed.

Lemma drain_rebuild_spec {S} visit (h : heap TX_QUEUE_CAPACITY TxItem) (s s' : S) kept :
  (length (heap_items h) <= TX_QUEUE_CAPACITY)%nat ->
  visits visit (pop_all (length (heap_items h)) h) s = Some (s', kept) ->
  exists h', drain_rebuild visit h s = Some (s', h') /\ heap_items h' ≡ₚ kept.
Proof.
  intros Hcap Hv. unfold drain_rebuild.
  destruct (drain_spec visit (length (heap_items h)) h vec_new s s' kept) as (t & h' & -> & Ht & Hh');
    [done | by rewrite vec_items_new | done |].
  cbn [mbind option_bind]. eexists. split; [done |]. rewrite vec_items_new in Ht. simpl in Ht.
  unfold rebuild. rewrite Ht. rewrite rebuild_perm; [by rewrite Hh', app_nil_r |].
  rewrite Hh'. simpl. apply visits_kept in Hv. rewrite pop_all_perm in Hv by done. lia.
Qed.

(** ** The order of the heap *)

(** How many pushes ago an item was enqueued. *)
Definition age (next : Z) (i : TxItem) : Z := wrap32 (next - i.(sequence)).

Definition recent (next n : Z) (i : TxItem) : Prop := is_u32 i.(sequence) /\ 1 <= age next i <= n.

(** Served before: a more urgent priority, or the same and older. *)
Definition precedes (next : Z) (x y : TxItem) : Prop :=
  as_u8 x.(priority) < as_u8 y.(priority) \/
  (as_u8 x.(priority) = as_u8 y.(priority) /\ age next y <= age next x).

Lemma as_i32_wrap d : - 2147483648 < d < 2147483648 -> as_i32 (wrap32 d) = d.
Proof.
  intros Hd. unfold as_i32, wrap32. destruct (decide (0 <= d)).
  - rewrite Z.mod_small by lia. by rewrite (proj2 (Z.ltb_lt _ _)) by lia.
  - rewrite <- (Z.mod_add d 1), Z.mod_small by lia. rewrite (proj2 (Z.ltb_ge _ _)) by lia. lia.
Qed.

Lemma wrap32_ages next i j : wrap32 (j.(sequence) - i.(sequence)) = wrap32 (age next i - age next j).
Proof.
  unfold age, wrap32. rewrite <- Zminus_mod. f_equal. lia.
Qed.

Lemma item_cmp_spec next n x y : n < 2147483648 -> recent next n x -> recent next n y ->
  item_cmp x y = match as_u8 y.(priority) ?= as_u8 x.(priority) with
                 | Eq => age next x ?= age next y
                 | o => o
                 end.
Proof.
  intros Hn [_ Hx] [_ Hy]. unfold item_cmp. destruct (_ ?= _); [| done | done].
  rewrite (wrap32_ages next), as_i32_wrap by lia. by rewrite (Z.compare_sub (age next x)).
Qed.

Lemma item_cmp_precedes next n x y : n < 2147483648 -> recent next n x -> recent next n y ->
  item_cmp y x <> Gt <-> precedes next x y.
Proof.
  intros Hn Hx Hy. rewrite (item_cmp_spec next n y x) by done. unfold precedes.
  destruct (as_u8 (priority x) ?= as_u8 (priority y)) eqn:E.
  - apply Z.compare_eq in E. rewrite Z.compare_le_iff. lia.
  - change (as_u8 (priority x) < as_u8 (priority y)) in E. split; [intros _; lia | done].
  - apply Z.compare_gt_iff in E. split; [done | intros ?; lia].
Qed.

Lemma item_total next n l : n < 2147483648 -> Forall (recent next n) l -> total_on item_cmp l.
Proof.
  intros Hn Hl. rewrite Forall_forall in Hl. split.
  - intros x y Hx Hy. rewrite !(item_cmp_spec next n) by auto.
    rewrite (Z.compare_antisym (as_u8 (priority y))). destruct (_ ?= _); simpl; [| done | done].
    apply Z.compare_antisym.
  - intros x y z Hx Hy Hz. rewrite !(item_cmp_precedes next n) by auto. unfold precedes. lia.
Qed.

Lemma pop_all_sorted next n fuel : forall h, n < 2147483648 -> Forall (recent next n) (heap_items h) ->
  heap_ordered item_cmp h -> (length (heap_items h) <= fuel)%nat ->
  StronglySorted (precedes next) (pop_all fuel h).
Proof.
  induction fuel as [|fuel IH]; intros h Hn Hr Ho Hf; simpl; [constructor |].
  pose proof (heap_pop_spec item_cmp h) as Hp. destruct (heap_pop item_cmp h) as [[x h'] |] eqn:Hpop; [| constructor].
  pose proof (item_total next n _ Hn Hr) as Ht.
  destruct (heap_pop_max item_cmp h h' x Ho Ht Hpop) as [Ho' Hmax].
  rewrite Hp in Hr, Hf. apply Forall_cons in Hr as [Hx Hr']. simpl in Hf. constructor.
  - apply IH; [done | done | done | lia].
  - rewrite pop_all_perm by lia. rewrite Forall_forall in *. intros y Hy.
    apply (item_cmp_precedes next n); auto.
Qed.

Lemma drain_ordered {S} visit next n fuel : forall h temp (s s' : S) temp' h', n < 2147483648 ->
  Forall (recent next n) (heap_items h) -> heap_ordered item_cmp h ->
  drain visit fuel h temp s = Some (s', temp', h') -> heap_ordered item_cmp h'.
Proof.
  induction fuel as [|fuel IH]; intros h temp s s' temp' h' Hn Hr Ho; simpl; [by intros [= _ _ <-] |].
  pose proof (heap_pop_spec item_cmp h) as Hp. destruct (heap_pop item_cmp h) as [[x h1] |] eqn:Hpop;
    [| by intros [= _ _ <-]].
  destruct (heap_pop_max item_cmp h h1 x Ho (item_total next n _ Hn Hr) Hpop) as [Ho' _].
  destruct (visit s x) as [[s1 keep]|]; [| done]. simpl. apply IH; [done | | done].
  rewrite Hp in Hr. by apply Forall_cons in Hr as [_ Hr].
Qed.

Lemma rebuild_ordered next n l : forall h : heap TX_QUEUE_CAPACITY TxItem, n < 2147483648 ->
  Forall (recent next n) (l ++ heap_items h) -> heap_ordered item_cmp h ->
  heap_ordered item_cmp (foldl (fun h item => default h (heap_push item_cmp item h)) h l).
Proof.
  induction l as [|i l IH]; intros h Hn Hr Ho; simpl in *; [done |].
  apply Forall_cons in Hr as [Hi Hr]. apply Forall_app in Hr as [Hl Hh].
  pose proof (heap_push_spec item_cmp i h) as Hp.
  destruct (heap_push item_cmp i h) as [h'|] eqn:Hpush; simpl; [| apply IH; [done | by apply Forall_app | done]].
  apply IH; [done | |].
  - apply Forall_app. split; [done |]. destruct (_ <? _)%nat; [| done].
    destruct Hp as (h2 & [= <-] & ->). by constructor.
  - eapply heap_push_ordered; [done | | done]. apply (item_total next n); [done | by constructor].
Qed.

(** ** The invariant of the queue *)

Record inv (q : TxQueue) : Prop := {
  inv_cap : (length (heap_items q.(items)) <= TX_QUEUE_CAPACITY)%nat;
  inv_acc : accounts q.(counters) (heap_items q.(items));
  inv_next : is_u32 q.(counters).(next_sequence);
  inv_queued : 0 <= q.(counters).(packets_queued);
  (** until 2^31 packets have been queued the sequence numbers in the heap
      are comparable and the heap is in order *)
  inv_recent : q.(counters).(packets_queued) < 2147483648 ->
    Forall (recent q.(counters).(next_sequence) q.(counters).(packets_queued)) (heap_items q.(items));
  inv_order : q.(counters).(packets_queued) < 2147483648 -> heap_ordered item_cmp q.(items)
}.

(** A drain that keeps [kept] and whose counters account for it. *)
Lemma drain_inv {S} (q : TxQueue) visit (s s' : S) kept c :
  inv q -> visits visit (pop_all (length (heap_items q.(items))) q.(items)) s = Some (s', kept) ->
  accounts c kept -> c.(next_sequence) = q.(counters).(next_sequence) ->
  c.(packets_queued) = q.(counters).(packets_queued) ->
  (forall i, i ∈ kept -> i ∈ heap_items q.(items)) ->
  exists h', drain_rebuild visit q.(items) s = Some (s', h') /\ heap_items h' ≡ₚ kept /\
    inv {| items := h'; counters := c |}.
Proof.
  intros I Hv Hacc Hnext Hq Hsub. destruct I as [Hcap _ Hn Hqd Hrec Hord].
  destruct (drain_rebuild_spec visit (items q) s s' kept Hcap Hv) as (h' & Hd & Hh').
  exists h'. split; [done |]. split; [done |].
  assert (packets_queued (counters q) < 2147483648 ->
    Forall (recent (next_sequence (counters q)) (packets_queued (counters q))) kept) as Hrk.
  { intros Hlt. specialize (Hrec Hlt). rewrite Forall_forall in *. auto. }
  split; cbn [items counters]; rewrite ?Hnext, ?Hq; try done.
  - rewrite Hh'. apply visits_kept in Hv. rewrite pop_all_perm in Hv by done. lia.
  - by rewrite Hh'.
  - intros Hlt. rewrite Hh'. auto.
  - intros Hlt. unfold drain_rebuild in Hd.
    destruct (drain visit _ _ _ _) as [[[s1 temp] h1]|] eqn:Hdr; [| done]. simpl in Hd. injection Hd as <- <-.
    pose proof (drain_ordered visit _ _ _ _ _ _ _ _ _ Hlt (Hrec Hlt) (Hord Hlt) Hdr) as Ho1.
    destruct (drain_spec visit (length (heap_items (items q))) (items q) vec_new s s1 kept) as (t2 & h2 & Hdr2 & Ht2 & Hh2);
      [done | by rewrite vec_items_new | done |].
    rewrite Hdr in Hdr2. injection Hdr2 as <- <-. rewrite vec_items_new in Ht2. simpl in Ht2.
    unfold rebuild. rewrite Ht2. eapply rebuild_ordered; [exact Hlt | | done].
    rewrite Hh2, app_nil_r. auto.
Qed.

(** *** Expiry *)

Abbreviation live now := (fun i => is_expired i now = false).

Lemma expire_visits now l : forall c n rest, accounts c (l ++ rest) ->
  exists c' n', visits (expire_visit now) l (c, n) = Some ((c', n'), filter (live now) l) /\
    accounts c' (filter (live now) l ++ rest) /\
    c'.(next_sequence) = c.(next_sequence) /\ c'.(packets_queued) = c.(packets_queued) /\
    c'.(observed_now_ms) = c.(observed_now_ms) /\
    (n' + length (filter (live now) l) = n + length l)%nat.
Proof.
  induction l as [|i l IH]; intros c n rest Ha; cbn [visits].
  - exists c, n. done.
  - cbn [expire_visit]. rewrite filter_cons. destruct (is_expired i now) eqn:E.
    + destruct (sub_item_ok c i (l ++ rest) Ha) as (c1 & -> & Ha1 & Hn1 & Hq1 & Ho1). cbn [mbind option_bind].
      destruct (IH (count_dropped c1 1 0 0) (S n) rest (accounts_dropped _ _ _ _ _ Ha1))
        as (c' & n' & -> & Ha' & Hn' & Hq' & Ho' & Hlen).
      cbn [mbind option_bind]. rewrite decide_False by done. exists c', n'. cbn in Hn', Hq', Ho'.
      split; [done |]. split; [done |]. split; [congruence |]. split; [congruence |]. split; [congruence |].
      simpl. lia.
    + cbn [mbind option_bind]. assert (accounts c (l ++ i :: rest)) as Ha1 by (by rewrite <- Permutation_middle).
      destruct (IH c n (i :: rest) Ha1) as (c' & n' & -> & Ha' & Hn' & Hq' & Ho' & Hlen).
      cbn [mbind option_bind]. rewrite decide_True by done. exists c', n'. split; [done |].
      split; [by rewrite <- Permutation_middle in Ha' |]. split; [done |]. split; [done |]. split; [done |]. simpl. lia.
Qed.

(** Expiry keeps exactly the items whose deadline lies ahead of the greatest
    time seen, and advances that time. *)
Lemma expire_ok q now : inv q ->
  exists n q', expire_before q now = Some (n, q') /\ inv q' /\
    q'.(counters).(observed_now_ms) = Z.max q.(counters).(observed_now_ms) now /\
    q'.(counters).(next_sequence) = q.(counters).(next_sequence) /\
    q'.(counters).(packets_queued) = q.(counters).(packets_queued) /\
    heap_items q'.(items) ≡ₚ filter (live q'.(counters).(observed_now_ms)) (heap_items q.(items)).
Proof.
  intros I. unfold expire_before. set (eff := Z.max _ now). pose proof (inv_cap _ I) as Hcap.
  set (popped := pop_all (length (heap_items (items q))) (items q)).
  assert (popped ≡ₚ heap_items (items q)) as Hperm by (by apply pop_all_perm).
  destruct (expire_visits eff popped (set_observed (counters q) eff) 0 [])
    as (c' & n' & Hv & Ha & Hn & Hq & Ho & _).
  { rewrite app_nil_r, Hperm. destruct (inv_acc _ I). by split. }
  rewrite app_nil_r in Ha.
  destruct (drain_inv q (expire_visit eff) (set_observed (counters q) eff, 0%nat) (c', n')
    (filter (live eff) popped) c' I Hv Ha Hn Hq) as (h' & -> & Hh' & I').
  { intros i [_ Hi]%list_elem_of_filter. by rewrite Hperm in Hi. }
  cbn [mbind option_bind]. eexists n', _. split; [done |]. split; [done |]. cbn [counters items].
  rewrite Ho. split; [done |]. split; [done |]. split; [done |]. cbn [set_observed observed_now_ms].
  by rewrite Hh', Hperm.
Qed.

Lemma live_filter_id now (l l' : list TxItem) :
  l ≡ₚ filter (live now) l' -> Forall (live now) l.
Proof. intros ->. apply Forall_forall. by intros i [? _]%list_elem_of_filter. Qed.

(** *** Preemption *)

Lemma preempt_visits_done worst target l : forall c, visits (preempt_visit worst target) l (c, true) = Some ((c, true), l).
Proof. induction l as [|i l IH]; intros c; cbn [visits preempt_visit negb andb mbind option_bind]; [done |]. by rewrite IH. Qed.

Lemma preempt_visits worst target l : forall c rest, accounts c (l ++ rest) ->
  (exists x, x ∈ l /\ as_u8 x.(priority) = worst /\ x.(sequence) = target) ->
  exists c' x kept, visits (preempt_visit worst target) l (c, false) = Some ((c', true), kept) /\
    l ≡ₚ x :: kept /\ as_u8 x.(priority) = worst /\ x.(sequence) = target /\ accounts c' (kept ++ rest) /\
    c'.(next_sequence) = c.(next_sequence) /\ c'.(packets_queued) = c.(packets_queued) /\
    c'.(observed_now_ms) = c.(observed_now_ms).
Proof.
  induction l as [|i l IH]; intros c rest Ha (x & Hx & Hp & Hs); [by apply not_elem_of_nil in Hx |].
  cbn [visits preempt_visit negb andb]. destruct ((_ =? worst) && (_ =? target)) eqn:E.
  - apply andb_true_iff in E as [E1 E2]. bool_to_prop.
    destruct (sub_item_ok c i (l ++ rest) Ha) as (c1 & -> & Ha1 & Hn1 & Hq1 & Ho1). cbn [mbind option_bind].
    rewrite preempt_visits_done. cbn [mbind option_bind]. eexists _, i, l. split; [done |]. split; [done |].
    split; [done |]. split; [done |]. split; [by apply accounts_dropped | done].
  - cbn [mbind option_bind]. apply elem_of_cons in Hx as [-> | Hx].
    { rewrite Hp, Hs, !Z.eqb_refl in E. done. }
    assert (accounts c (l ++ i :: rest)) as Ha1 by (by rewrite <- Permutation_middle).
    destruct (IH c (i :: rest) Ha1) as (c' & y & kept & -> & Hl & Hy & Hys & Ha' & Hrest); [by exists x |].
    cbn [mbind option_bind]. exists c', y, (i :: kept). split; [done |].
    split; [rewrite Hl; apply Permutation_swap |]. split; [done |]. split; [done |].
    split; [by rewrite <- Permutation_middle in Ha' | done].
Qed.

Lemma worst_priority_spec l : forall w, let m := foldl (fun w i => Z.max w (as_u8 i.(priority))) w l in
  w <= m /\ Forall (fun i => as_u8 i.(priority) <= m) l /\ (m = w \/ exists i, i ∈ l /\ as_u8 i.(priority) = m).
Proof.
  induction l as [|i l IH]; intros w; simpl; [split; [lia |]; split; [constructor | by left] |].
  destruct (IH (Z.max w (as_u8 (priority i)))) as (H1 & H2 & H3). split; [lia |].
  split; [constructor; [lia | done] |]. destruct H3 as [H3 | (j & Hj & Hjp)].
  - rewrite H3. destruct (Z.max_spec w (as_u8 (priority i))) as [[_ ->] | [_ ->]]; [| by left].
    right. exists i. split; [by left | done].
  - right. exists j. split; [by right | done].
Qed.

Lemma older_spec worst l : forall b, match foldl (older worst) b l with
  | None => b = None /\ Forall (fun i => as_u8 i.(priority) <> worst) l
  | Some t => b = Some t \/ exists x, x ∈ l /\ as_u8 x.(priority) = worst /\ x.(sequence) = t
  end.
Proof.
  induction l as [|i l IH]; intros b; simpl; [destruct b; auto |].
  specialize (IH (older worst b i)). destruct (foldl _ _ l) as [t|].
  - destruct IH as [Ho | (x & Hx & ?)]; [| right; exists x; split; [by right | done]].
    unfold older in Ho. destruct (_ =? worst) eqn:E; [| by left]. bool_to_prop.
    destruct b as [z|]; [destruct (_ <? 0) |]; simplify_eq; try (by left);
      right; exists i; (split; [by left | done]).
  - destruct IH as [Ho Hall]. unfold older in Ho. destruct (_ =? worst) eqn:E.
    + destruct b; [by destruct (_ <? 0) | done].
    + bool_to_prop. split; [done | by constructor].
Qed.

(** Preemption removes one item of the worst priority, which is strictly
    worse than the new one's; it refuses exactly when there is none. *)
Lemma preempt_ok q p : inv q ->
  exists b q', try_preempt q p = Some (b, q') /\ inv q' /\
    q'.(counters).(observed_now_ms) = q.(counters).(observed_now_ms) /\
    q'.(counters).(next_sequence) = q.(counters).(next_sequence) /\
    q'.(counters).(packets_queued) = q.(counters).(packets_queued) /\
    if b then exists x, heap_items q.(items) ≡ₚ x :: heap_items q'.(items) /\
                as_u8 p < as_u8 x.(priority) /\
                Forall (fun i => as_u8 i.(priority) <= as_u8 x.(priority)) (heap_items q.(items))
    else q' = q /\ Forall (fun i => as_u8 i.(priority) <= as_u8 p) (heap_items q.(items)).
Proof.
  intros I. unfold try_preempt. destruct (worst_priority_spec (heap_items (items q)) 0) as (Hw & Hall & Hex).
  fold (worst_priority (heap_items (items q))) in *. set (worst := worst_priority _) in *.
  assert (0 <= as_u8 p) as Hp0 by (by destruct p).
  destruct (worst <=? as_u8 p) eqn:E; bool_to_prop.
  { exists false, q. do 5 (split; [done |]). split; [done |]. eapply Forall_impl; [exact Hall | simpl; lia]. }
  destruct Hex as [Hw0 | (y & Hy & Hyp)]; [lia |].
  pose proof (older_spec worst (heap_items (items q)) None) as Ho.
  destruct (foldl (older worst) None _) as [target|].
  2: { exfalso. destruct Ho as [_ Hno]. rewrite Forall_forall in Hno. by apply (Hno y). }
  destruct Ho as [? | (x & Hx & Hxp & Hxs)]; [done |].
  set (popped := pop_all (length (heap_items (items q))) (items q)).
  assert (popped ≡ₚ heap_items (items q)) as Hperm by (by apply pop_all_perm).
  destruct (preempt_visits worst target popped (counters q) []) as (c' & z & kept & Hv & Hl & Hz & _ & Ha & Hn & Hq & Hob).
  { rewrite app_nil_r, Hperm. apply I. }
  { exists x. by rewrite Hperm. }
  rewrite app_nil_r in Ha.
  destruct (drain_inv q (preempt_visit worst target) (counters q, false) (c', true) kept c' I Hv Ha Hn Hq)
    as (h' & -> & Hh' & I').
  { intros i Hi. rewrite <- Hperm, Hl. by right. }
  cbn [mbind option_bind]. eexists true, _. split; [done |]. split; [done |]. cbn [counters items].
  split; [done |]. split; [done |]. split; [done |].
  exists z. split; [by rewrite Hh', <- Hl |]. rewrite Hz. split; [lia | done].
Qed.

(** *** Enqueueing *)

Lemma wrap32_age_succ next i : is_u32 i.(sequence) -> is_u32 next -> 1 <= age next i < 2147483648 ->
  age (wrap32 (next + 1)) i = age next i + 1.
Proof.
  intros Hi Hn Ha. unfold age in *. unfold wrap32 in *. rewrite Zminus_mod_idemp_l.
  replace (next + 1 - sequence i) with (next - sequence i + 1) by lia.
  rewrite <- Zplus_mod_idemp_l. apply Z.mod_small. lia.
Qed.

Lemma enqueue_ok q p deadline now bytes_in item :
  inv q -> (length (heap_items q.(items)) < TX_QUEUE_CAPACITY)%nat ->
  item_new p q.(counters).(next_sequence) deadline now bytes_in = Some item ->
  exists q', enqueue q item (length bytes_in) = Some q' /\ inv q' /\
    heap_items q'.(items) ≡ₚ item :: heap_items q.(items) /\
    q'.(counters).(observed_now_ms) = q.(counters).(observed_now_ms) /\
    item.(priority) = p /\ item.(deadline_ms) = deadline /\ vec_items item.(data) = bytes_in.
Proof.
  intros I Hlt Hitem. unfold item_new in Hitem.
  pose proof (vec_extend_spec bytes_in (vec_new (N := TX_ITEM_MAX_PAYLOAD))) as Hv. rewrite vec_items_new in Hv.
  destruct (_ <=? _)%nat; [| rewrite Hv in Hitem; done].
  destruct Hv as (v & Hv & Hvi). rewrite Hv in Hitem. simpl in Hitem, Hvi. injection Hitem as <-.
  set (item := {| priority := p |}) in *. unfold enqueue.
  destruct (add_item_ok (counters q) item (heap_items (items q)) (inv_acc _ I)) as (c' & Hc & Ha & Hn & Hq & Ho).
  cbn [data item] in Hc. rewrite Hvi in Hc. rewrite Hc. cbn [mbind option_bind].
  pose proof (heap_push_spec item_cmp item (items q)) as Hp. rewrite (proj2 (Nat.ltb_lt _ _) Hlt) in Hp.
  destruct Hp as (h' & Hpush & Hh'). rewrite Hpush. cbn [default].
  eexists. split; [done |]. cbn [items counters]. split; [| done].
  destruct I as [Hcap _ Hnx Hqd Hrec Hord].
  assert (packets_queued c' < 2147483648 ->
    Forall (recent (next_sequence c') (packets_queued c')) (item :: heap_items (items q))) as Hrec'.
  { rewrite Hq, Hn. unfold saturating_add. intros Hlt2.
    assert (packets_queued (counters q) < 2147483647) as Hq0 by width. specialize (Hrec ltac:(lia)).
    assert (Z.min u32_max (packets_queued (counters q) + 1) = packets_queued (counters q) + 1) as -> by width.
    constructor.
    - split; [done |]. unfold age. cbn [sequence item]. unfold wrap32. rewrite Zminus_mod_idemp_l.
      replace (next_sequence (counters q) + 1 - next_sequence (counters q)) with 1 by lia.
      rewrite Z.mod_small by lia. lia.
    - eapply Forall_impl; [exact Hrec |]. intros i [Hi Hage]. split; [done |].
      rewrite wrap32_age_succ by (done || lia). lia. }
  split; cbn [items counters].
  - rewrite Hh'. simpl. lia.
  - by rewrite Hh'.
  - rewrite Hn. auto with lichen.
  - rewrite Hq. unfold saturating_add. width.
  - intros Hl2. rewrite Hh'. auto.
  - intros Hl2. eapply heap_push_ordered; [| | exact Hpush].
    + apply Hord. rewrite Hq in Hl2. unfold saturating_add in Hl2. width.
    + eapply item_total; [exact Hl2 | auto].
Qed.

(** *** Dequeueing *)

(** Taking one item out under invariant: what is left is still a queue. *)
Lemma removed_inv q x h c : inv q -> heap_items q.(items) ≡ₚ x :: heap_items h ->
  accounts c (heap_items h) -> c.(next_sequence) = q.(counters).(next_sequence) ->
  c.(packets_queued) = q.(counters).(packets_queued) ->
  (q.(counters).(packets_queued) < 2147483648 -> heap_ordered item_cmp h) ->
  inv {| items := h; counters := c |}.
Proof.
  intros [Hcap _ Hn Hqd Hrec Hord] Hp Ha Hnx Hq Ho. rewrite Hp in Hcap.
  split; cbn [items counters]; rewrite ?Hnx, ?Hq; try done.
  - simpl in Hcap. lia.
  - intros Hlt. specialize (Hrec Hlt). rewrite Hp in Hrec. by apply Forall_cons in Hrec as [_ ?].
Qed.

Lemma heap_pop_take q : inv q ->
  match heap_pop item_cmp q.(items) with
  | None => heap_items q.(items) = []
  | Some (x, h) => exists c, sub_item q.(counters) x = Some c /\
      inv {| items := h; counters := track_latency c x |} /\
      c.(observed_now_ms) = q.(counters).(observed_now_ms) /\
      heap_items q.(items) ≡ₚ x :: heap_items h /\
      (q.(counters).(packets_queued) < 2147483648 ->
         Forall (precedes q.(counters).(next_sequence) x) (heap_items h))
  end.
Proof.
  intros I. pose proof (heap_pop_spec item_cmp (items q)) as Hp.
  destruct (heap_pop item_cmp (items q)) as [[x h]|] eqn:Hpop; [| done].
  pose proof (inv_acc _ I) as Ha. rewrite Hp in Ha.
  destruct (sub_item_ok _ _ _ Ha) as (c & Hc & Hac & Hn & Hq & Ho). exists c. split; [done |].
  assert (packets_queued (counters q) < 2147483648 -> heap_ordered item_cmp h /\
    Forall (fun y => item_cmp y x <> Gt) (heap_items h)) as Hmax.
  { intros Hlt. eapply heap_pop_max; [by apply (inv_order _ I) | | exact Hpop].
    eapply item_total; [exact Hlt | by apply (inv_recent _ I)]. }
  split; [eapply removed_inv; [exact I | exact Hp | by apply accounts_latency | done | done | by intros []%Hmax] |].
  split; [done |]. split; [done |]. intros Hlt. destruct (Hmax Hlt) as [_ Hall].
  pose proof (inv_recent _ I Hlt) as Hrec. rewrite Hp in Hrec. apply Forall_cons in Hrec as [Hx Hr].
  eapply (Forall_both _ _ _ _ Hall Hr). intros y Hy Hyr. by eapply (item_cmp_precedes _ _ _ _ Hlt).
Qed.

Lemma pop_ok q now : inv q ->
  exists r q', pop q now = Some (r, q') /\ inv q' /\
    q'.(counters).(observed_now_ms) = Z.max q.(counters).(observed_now_ms) now /\
    let alive := filter (live q'.(counters).(observed_now_ms)) (heap_items q.(items)) in
    match r with
    | None => alive = [] /\ heap_items q'.(items) = []
    | Some x => alive ≡ₚ x :: heap_items q'.(items) /\
        (q.(counters).(packets_queued) < 2147483648 ->
           Forall (precedes q.(counters).(next_sequence) x) (heap_items q'.(items)))
    end.
Proof.
  intros I. unfold pop. destruct (expire_ok q now I) as (n & q1 & -> & I1 & Ho & Hn & Hq & Hits).
  cbn [mbind option_bind]. pose proof (heap_pop_take q1 I1) as Ht.
  destruct (heap_pop item_cmp (items q1)) as [[x h]|].
  - destruct Ht as (c & -> & I2 & Hoc & Hp & Hmax). cbn [mbind option_bind]. eexists _, _. split; [done |].
    split; [done |]. cbn [items counters track_latency observed_now_ms]. rewrite Hoc, Ho.
    split; [done |]. rewrite <- Ho. split; [by rewrite <- Hits |]. by rewrite <- Hq, <- Hn.
  - eexists _, _. split; [done |]. split; [done |]. split; [done |]. rewrite Ht in Hits.
    split; [| done]. by apply Permutation_nil_l in Hits.
Qed.

Lemma allowed_visits_done lvl l : forall c x,
  visits (allowed_visit lvl) l (c, Some x) = Some ((c, Some x), l).
Proof.
  induction l as [|i l IH]; intros c x; cbn [visits allowed_visit]; [done |].
  rewrite bool_decide_false by done. cbn [andb mbind option_bind]. by rewrite IH.
Qed.

Abbreviation allowed lvl := (fun i => check_congestion_allows lvl i.(priority)).

Lemma allowed_visits lvl l : forall c rest, accounts c (l ++ rest) ->
  (visits (allowed_visit lvl) l (c, None) = Some ((c, None), l) /\ Forall (fun i => allowed lvl i = false) l) \/
  exists pre x post c', l = pre ++ x :: post /\ Forall (fun i => allowed lvl i = false) pre /\ allowed lvl x = true /\
    visits (allowed_visit lvl) l (c, None) = Some ((c', Some x), pre ++ post) /\ accounts c' (pre ++ post ++ rest) /\
    c'.(next_sequence) = c.(next_sequence) /\ c'.(packets_queued) = c.(packets_queued) /\
    c'.(observed_now_ms) = c.(observed_now_ms).
Proof.
  induction l as [|i l IH]; intros c rest Ha; cbn [visits allowed_visit]; [by left |].
  rewrite bool_decide_true by done. cbn [andb]. destruct (allowed lvl i) eqn:E.
  - right. destruct (sub_item_ok c i (l ++ rest) Ha) as (c1 & -> & Ha1 & Hn1 & Hq1 & Ho1). cbn [mbind option_bind].
    rewrite allowed_visits_done. cbn [mbind option_bind]. exists [], i, l, (track_latency c1 i).
    split; [done |]. split; [done |]. split; [done |]. split; [done |]. split; [by apply accounts_latency | done].
  - cbn [mbind option_bind]. assert (accounts c (l ++ i :: rest)) as Ha1 by (by rewrite <- Permutation_middle).
    destruct (IH c (i :: rest) Ha1) as [[-> Hall] | (pre & x & post & c' & -> & Hpre & Hx & -> & Ha' & Hf)];
      cbn [mbind option_bind]; [left; split; [done | by constructor] |].
    right. exists (i :: pre), x, post, c'. split; [done |]. split; [by constructor |]. split; [done |].
    split; [done |]. split; [| done]. simpl.
    rewrite !app_assoc in *. by rewrite <- Permutation_middle in Ha'.
Qed.

Lemma live_filter_same now (l : list TxItem) : Forall (live now) l -> filter (live now) l = l.
Proof.
  induction 1 as [|i l Hi _ IH]; [done |]. rewrite filter_cons, decide_True by done. by rewrite IH.
Qed.

Lemma pop_if_allowed_ok q now lvl : inv q ->
  exists r q', pop_if_allowed q now lvl = Some (r, q') /\ inv q' /\
    q'.(counters).(observed_now_ms) = Z.max q.(counters).(observed_now_ms) now /\
    let alive := filter (live q'.(counters).(observed_now_ms)) (heap_items q.(items)) in
    match r with
    | None => heap_items q'.(items) ≡ₚ alive /\ Forall (fun i => allowed lvl i = false) alive
    | Some x => alive ≡ₚ x :: heap_items q'.(items) /\
        (q.(counters).(packets_queued) < 2147483648 -> allowed lvl x = true /\
           Forall (fun y => allowed lvl y = true -> precedes q.(counters).(next_sequence) x y) (heap_items q'.(items)))
    end.
Proof.
  intros I. unfold pop_if_allowed. destruct (expire_ok q now I) as (n & q1 & -> & I1 & Ho & Hn & Hq & Hits).
  cbn [mbind option_bind]. case_decide as Hex.
  { subst lvl. exists None, q1. split; [done |]. split; [done |]. split; [done |]. split; [done |].
    by apply Forall_forall. }
  rewrite (heap_peek_pop item_cmp). pose proof (heap_pop_take q1 I1) as Ht. cbv zeta.
  assert (Forall (live (observed_now_ms (counters q1))) (heap_items (items q1))) as Hlive by (by eapply live_filter_id).
  destruct (match fst <$> heap_pop item_cmp (items q1) with
            | Some top => check_congestion_allows lvl (priority top) | None => false end) eqn:Htop.
  - destruct (heap_pop item_cmp (items q1)) as [[top h]|]; [| done]. cbn [fmap option_fmap option_map fst] in Htop.
    destruct Ht as (_ & _ & _ & _ & Hpt & Hmax).
    destruct (pop_ok q1 now I1) as (r & q2 & Hpop & I2 & Ho2 & Hr). exists r, q2. split; [done |]. split; [done |].
    rewrite Ho, Z.max_l in Ho2 by lia. split; [done |]. rewrite Ho2, <- Ho in *.
    cbv zeta in Hr. rewrite (live_filter_same _ _ Hlive), Hq, Hn in Hr.
    destruct r as [x|]; [| exfalso; destruct Hr as [Hr _]; rewrite Hr in Hpt; by apply Permutation_nil_cons in Hpt].
    destruct Hr as [Hx Hbest]. split; [by rewrite <- Hits |]. rewrite <- Hq at 1. intros Hlt.
    specialize (Hmax Hlt). rewrite Hq in Hlt. specialize (Hbest Hlt). rewrite Hn in Hmax.
    split; [| eapply Forall_impl; [exact Hbest | done]].
    assert (as_u8 (priority x) <= as_u8 (priority top)) as Hle.
    { assert (top ∈ x :: heap_items (items q2)) as [-> | Htin]%elem_of_cons; [by rewrite <- Hx, Hpt; left | lia |].
      rewrite Forall_forall in Hbest. destruct (Hbest _ Htin); lia. }
    destruct lvl, (priority x), (priority top); simpl in *; try done; lia.
  - set (popped := pop_all (length (heap_items (items q1))) (items q1)).
    assert (popped ≡ₚ heap_items (items q1)) as Hperm by (by apply pop_all_perm).
    destruct (allowed_visits lvl popped (counters q1) []) as [[Hv Hall] | (pre & x & post & c' & Hl & Hpre & Hx & Hv & Ha & Hn' & Hq' & Ho')].
    { rewrite app_nil_r, Hperm. apply I1. }
    + destruct (drain_inv q1 (allowed_visit lvl) (counters q1, None) (counters q1, None) popped (counters q1) I1 Hv)
        as (h' & -> & Hh' & I'); [rewrite Hperm; apply I1 | done | done | intros i; by rewrite Hperm |].
      cbn [mbind option_bind]. eexists None, _. split; [done |]. split; [done |]. cbn [items counters]. split; [done |].
      split; [by rewrite Hh', Hperm |]. by rewrite <- Hits, <- Hperm.
    + rewrite app_nil_r in Ha.
      destruct (drain_inv q1 (allowed_visit lvl) (counters q1, None) (c', Some x) (pre ++ post) c' I1 Hv Ha Hn' Hq')
        as (h' & -> & Hh' & I').
      { intros i Hi. rewrite <- Hperm, Hl, <- Permutation_middle. by right. }
      cbn [mbind option_bind]. eexists (Some x), _. split; [done |]. split; [done |]. cbn [items counters].
      rewrite Ho', Ho. split; [done |]. rewrite <- Ho.
      split; [by rewrite <- Hits, Hh', <- Hperm, Hl, <- Permutation_middle |].
      intros Hlt. split; [done |]. rewrite Hh', <- Hn. rewrite <- Hq in Hlt.
      assert (StronglySorted (precedes (next_sequence (counters q1))) (pre ++ x :: post)) as Hsort.
      { rewrite <- Hl. eapply pop_all_sorted; [exact Hlt | by apply (inv_recent _ I1) | by apply (inv_order _ I1) | done]. }
      apply Forall_app. split.
      * eapply Forall_impl; [exact Hpre |]. simpl. congruence.
      * apply StronglySorted_app_1_r in Hsort. apply StronglySorted_inv in Hsort as [_ Hs].
        eapply Forall_impl; [exact Hs | done].
Qed.

(** *** Pushing *)

Definition accepted (q : TxQueue) (p : TxPriority) (deadline : Z) (bytes_in : bytes) (alive : list TxItem) : Prop :=
  exists item, item.(priority) = p /\ item.(deadline_ms) = deadline /\ vec_items item.(data) = bytes_in /\
    ((length alive < TX_QUEUE_CAPACITY)%nat /\ heap_items q.(items) ≡ₚ item :: alive \/
     exists x rest, length alive = TX_QUEUE_CAPACITY /\ alive ≡ₚ x :: rest /\ heap_items q.(items) ≡ₚ item :: rest /\
       as_u8 p < as_u8 x.(priority) /\ Forall (fun i => as_u8 i.(priority) <= as_u8 x.(priority)) alive).

Lemma push_ok q p deadline now bytes_in : inv q ->
  exists r q', push q p deadline now bytes_in = Some (r, q') /\ inv q' /\
    q'.(counters).(observed_now_ms) = Z.max q.(counters).(observed_now_ms) now /\
    let alive := filter (live q'.(counters).(observed_now_ms)) (heap_items q.(items)) in
    match r with
    | Ok _ => q'.(counters).(observed_now_ms) < deadline /\ (length bytes_in <= TX_ITEM_MAX_PAYLOAD)%nat /\
        accepted q' p deadline bytes_in alive
    | Err e => heap_items q'.(items) ≡ₚ alive /\
        match e with
        | DeadlineExpired => deadline <= q'.(counters).(observed_now_ms)
        | PayloadTooLarge => (TX_ITEM_MAX_PAYLOAD < length bytes_in)%nat
        | QueueFull => length alive = TX_QUEUE_CAPACITY /\ Forall (fun i => as_u8 i.(priority) <= as_u8 p) alive
        end
    end.
Proof.
  intros I. unfold push. destruct (expire_ok q now I) as (n & q1 & -> & I1 & Ho & Hn & Hq & Hits).
  cbn [mbind option_bind]. cbv zeta.
  destruct (deadline <=? _) eqn:Hdl; bool_to_prop.
  { eexists _, q1. split; [done |]. split; [done |]. split; [done |]. split; [done | lia]. }
  pose proof (vec_extend_spec bytes_in (vec_new (N := TX_ITEM_MAX_PAYLOAD))) as Hv. rewrite vec_items_new in Hv.
  destruct (item_new _ _ _ _ _) as [item|] eqn:Hitem.
  2: { eexists _, q1. split; [done |]. split; [done |]. split; [done |]. split; [done |].
       unfold item_new in Hitem. destruct (_ <=? _)%nat eqn:E in Hv; bool_to_prop; [| simpl in E; lia].
       destruct Hv as (v & Hv & _). rewrite Hv in Hitem. done. }
  assert (length bytes_in <= TX_ITEM_MAX_PAYLOAD)%nat as Hlen.
  { destruct (_ <=? _)%nat eqn:E in Hv; bool_to_prop; [done |]. unfold item_new in Hitem. by rewrite Hv in Hitem. }
  destruct (_ <? _)%nat eqn:Hcap; bool_to_prop.
  - destruct (enqueue_ok q1 p _ _ _ _ I1 Hcap Hitem) as (q2 & -> & I2 & Hh2 & Ho2 & Hip & Hid & Hidata).
    cbn [mbind option_bind]. eexists _, q2. split; [done |]. split; [done |]. rewrite Ho2, Ho.
    split; [done |]. rewrite <- Ho. split; [done |]. split; [done |]. exists item.
    split; [done |]. split; [done |]. split; [done |]. left. split; [by rewrite <- Hits | by rewrite Hh2, Hits].
  - pose proof (inv_cap _ I1) as Hc1. assert (length (heap_items (items q1)) = TX_QUEUE_CAPACITY) as Hfull by lia.
    destruct (preempt_ok q1 p I1) as (b & q2 & -> & I2 & Ho2 & Hn2 & Hq2 & Hb). cbn [mbind option_bind].
    destruct b.
    + destruct Hb as (x & Hx & Hpx & Hall).
      assert (length (heap_items (items q2)) < TX_QUEUE_CAPACITY)%nat as Hroom.
      { rewrite Hx in Hfull. simpl in Hfull. lia. }
      rewrite <- Hn2 in Hitem.
      destruct (enqueue_ok q2 p _ _ _ _ I2 Hroom Hitem) as (q3 & -> & I3 & Hh3 & Ho3 & Hip & Hid & Hidata).
      cbn [mbind option_bind]. eexists _, q3. split; [done |]. split; [done |]. rewrite Ho3, Ho2, Ho.
      split; [done |]. rewrite <- Ho. split; [done |]. split; [done |]. exists item.
      split; [done |]. split; [done |]. split; [done |]. right. exists x, (heap_items (items q2)).
      split; [by rewrite <- Hits |]. split; [by rewrite <- Hits |]. split; [done |]. split; [done |]. by rewrite <- Hits.
    + destruct Hb as [-> Hall]. eexists _, _. split; [done |]. split.
      { destruct I1. split; try done. by apply accounts_dropped. }
      cbn [items counters count_dropped observed_now_ms]. split; [done |]. split; [done |].
      split; [by rewrite <- Hits | by rewrite <- Hits].
Qed.

(** ** Queues a program can reach *)

(** One call of the public interface. *)
Inductive call :=
  | Push (p : TxPriority) (deadline now : Z) (bytes_in : bytes)
  | ExpireBefore (now : Z)
  | Pop (now : Z)
  | PopIfAllowed (now : Z) (lvl : CongestionLevel)
  | PopAfterCsma (now : Z) (lvl : CongestionLevel) (action : CsmaAction)
  | HasAllowed (now : Z) (lvl : CongestionLevel)
  | Peek (now : Z)
  | Count (now : Z)
  | IsEmpty (now : Z)
  | IsFull (now : Z).

Definition perform (q : TxQueue) (o : call) : option TxQueue :=
  match o with
  | Push p deadline now bytes_in => snd <$> push q p deadline now bytes_in
  | ExpireBefore now => snd <$> expire_before q now
  | Pop now => snd <$> pop q now
  | PopIfAllowed now lvl => snd <$> pop_if_allowed q now lvl
  | PopAfterCsma now lvl action => snd <$> pop_after_csma q now lvl action
  | HasAllowed now lvl => snd <$> has_allowed q now lvl
  | Peek now => snd <$> peek q now
  | Count now => snd <$> count q now
  | IsEmpty now => snd <$> is_empty q now
  | IsFull now => snd <$> is_full q now
  end.

Fixpoint run (q : TxQueue) (ops : list call) : option TxQueue :=
  match ops with
  | [] => Some q
  | o :: ops => q ← perform q o; run q ops
  end.

Lemma queue_new_inv : inv new.
Proof.
  split; unfold new; cbn [items counters next_sequence packets_queued]; rewrite ?heap_items_new.
  - simpl. lia.
  - split; [done | done |]. intros p Hp. cbn [by_priority]. rewrite lookup_replicate_2 by done. done.
  - width.
  - lia.
  - intros _. constructor.
  - intros _. apply heap_ordered_new.
Qed.

(** Every operation starts by expiring and never panics. *)
Lemma perform_ok q o : inv q -> exists q', perform q o = Some q' /\ inv q'.
Proof.
  intros I. destruct o as [p dl now b | now | now | now lvl | now lvl a | now lvl | now | now | now | now];
    cbn [perform]; unfold pop_after_csma, has_allowed, peek, is_empty, count, is_full;
    try (destruct (expire_ok q now I) as (n & q1 & -> & I1 & _); cbn [mbind option_bind];
         eexists; split; [done | done]).
  - destruct (push_ok q p dl now b I) as (r & q' & -> & I' & _). by exists q'.
  - destruct (pop_ok q now I) as (r & q' & -> & I' & _). by exists q'.
  - destruct (pop_if_allowed_ok q now lvl I) as (r & q' & -> & I' & _). by exists q'.
  - destruct (tx_allowed a); cbn [negb]; [| by exists q].
    destruct (pop_if_allowed_ok q now lvl I) as (r & q' & -> & I' & _). by exists q'.
  - destruct (expire_ok q now I) as (n & q1 & -> & I1 & _). cbn [mbind option_bind]. exists q1. by case_decide.
Qed.

Lemma run_ok ops : forall q, inv q -> exists q', run q ops = Some q' /\ inv q'.
Proof.
  induction ops as [|o ops IH]; intros q I; cbn [run]; [by exists q |].
  destruct (perform_ok q o I) as (q1 & -> & I1). by apply IH.
Qed.

Lemma run_inv ops q : run new ops = Some q -> inv q.
Proof.
  intros Hr. destruct (run_ok ops new queue_new_inv) as (q' & Hr' & I). by simplify_option_eq.
Qed.

(** from a new queue no sequence of calls panics (no statistic
    underflows, no index is out of range), the queue never holds more than
    four packets, and [stats] always reports exactly the packets it holds: the
    depth, the total of their lengths, and how many there are of each
    priority. *)
Lemma queue_accounting (ops : list call) :
  exists q, run new ops = Some q /\
    let l := heap_items q.(items) in
    (length l <= TX_QUEUE_CAPACITY)%nat /\
    (stats q).(depth) = length l /\ (stats q).(st_bytes_pending) = total_len l /\
    (stats q).(st_by_priority) = map (fun p => count_of p l) (seq 0 COUNT).
Proof.
  destruct (run_ok ops new queue_new_inv) as (q & Hr & [Hcap [Hb Hl Hc] _ _ _ _]). exists q.
  split; [done |]. cbv zeta. split; [done |]. split; [done |]. split; [done |]. cbn [stats st_by_priority].
  apply list_eq_same_length with (n := COUNT); [by rewrite length_map, length_seq | done |].
  intros p x y Hp. rewrite Hc, list_lookup_fmap, lookup_seq_lt by done. cbn. congruence.
Qed.

(** what [push] answers on any queue a program can reach.  Expired
    packets leave first; the packet is accepted exactly when its deadline is in
    the future, its payload fits, and there is room or a strictly less urgent
    packet to give way, which is then one of the least urgent; every refusal
    names its cause and keeps all unexpired packets. *)
Lemma push_contract (ops : list call) (q : TxQueue) (p : TxPriority) (deadline now : Z) (bytes_in : bytes)
  (Hrun : run new ops = Some q) :
  exists r q', push q p deadline now bytes_in = Some (r, q') /\
    let now' := Z.max q.(counters).(observed_now_ms) now in
    let alive := filter (live now') (heap_items q.(items)) in
    match r with
    | Ok _ => now' < deadline /\ (length bytes_in <= 255)%nat /\ accepted q' p deadline bytes_in alive
    | Err e => heap_items q'.(items) ≡ₚ alive /\
        match e with
        | DeadlineExpired => deadline <= now'
        | PayloadTooLarge => (255 < length bytes_in)%nat
        | QueueFull => length alive = 4%nat /\ Forall (fun i => as_u8 i.(priority) <= as_u8 p) alive
        end
    end.
Proof.
  destruct (push_ok q p deadline now bytes_in (run_inv _ _ Hrun)) as (r & q' & Hp & _ & Ho & Hr).
  exists r, q'. split; [done |]. cbv zeta in *. by rewrite Ho in Hr.
Qed.

(** [pop] removes and returns, among the unexpired packets, the most
    urgent and oldest one, as long as fewer than 2^31 packets have been queued
    (the range of the sequence comparison); it returns nothing only when no
    unexpired packet is left. *)
Lemma pop_serves_best (ops : list call) (q : TxQueue) (now : Z)
  (Hrun : run new ops = Some q) (Hq : q.(counters).(packets_queued) < 2 ^ 31) :
  exists r q', pop q now = Some (r, q') /\
    let alive := filter (live (Z.max q.(counters).(observed_now_ms) now)) (heap_items q.(items)) in
    match r with
    | None => alive = []
    | Some x => alive ≡ₚ x :: heap_items q'.(items) /\
        Forall (precedes q.(counters).(next_sequence) x) (heap_items q'.(items))
    end.
Proof.
  destruct (pop_ok q now (run_inv _ _ Hrun)) as (r & q' & Hp & _ & Ho & Hr).
  exists r, q'. split; [done |]. cbv zeta in *. rewrite Ho in Hr.
  destruct r; [destruct Hr as [? Hr]; split; [done | by apply Hr] | by destruct Hr].
Qed.

(** [has_allowed] scans the unexpired packets. *)
Lemma has_allowed_ok q now lvl (b : bool) : inv q ->
  let alive := filter (live (Z.max q.(counters).(observed_now_ms) now)) (heap_items q.(items)) in
  (if b then exists i, i ∈ alive /\ allowed lvl i = true else Forall (fun i => allowed lvl i = false) alive) ->
  (fst <$> has_allowed q now lvl) = Some b.
Proof.
  intros I alive Hb. unfold has_allowed.
  destruct (expire_ok q now I) as (n & q1 & -> & I1 & Ho1 & _ & _ & Hits). cbn [mbind option_bind].
  rewrite Ho1 in Hits. fold alive in Hits. case_decide as Hex.
  - subst lvl. destruct b; [by destruct Hb as (i & _ & Ha) | done].
  - change (Some (existsb (allowed lvl) (heap_items (items q1))) = Some b). f_equal. destruct b.
    + destruct Hb as (i & Hi & Ha). apply existsb_exists. exists i. split; [| done].
      by rewrite <- list_elem_of_In, Hits.
    + rewrite <- Hits in Hb. clear Hits. induction Hb as [|i l Hi _ IH]; simpl; [done |]. by rewrite Hi.
Qed.

(** the gated dequeue.  A CSMA action other than transmit leaves the
    queue untouched; with one, [pop_after_csma] returns the most urgent and
    oldest packet among the unexpired ones the congestion level admits, keeps
    the others, and returns nothing only when the level admits none of them;
    [has_allowed] predicts which of the two. *)
Lemma gated_dequeue (ops : list call) (q : TxQueue) (now : Z) (lvl : CongestionLevel) (action : CsmaAction)
  (Hrun : run new ops = Some q) (Hq : q.(counters).(packets_queued) < 2 ^ 31) :
  exists r q', pop_after_csma q now lvl action = Some (r, q') /\
    if tx_allowed action then
      let alive := filter (live (Z.max q.(counters).(observed_now_ms) now)) (heap_items q.(items)) in
      (fst <$> has_allowed q now lvl) = Some (bool_decide (is_Some r)) /\
      match r with
      | None => heap_items q'.(items) ≡ₚ alive /\ Forall (fun i => allowed lvl i = false) alive
      | Some x => alive ≡ₚ x :: heap_items q'.(items) /\ allowed lvl x = true /\
          Forall (fun y => allowed lvl y = true -> precedes q.(counters).(next_sequence) x y) (heap_items q'.(items))
      end
    else r = None /\ q' = q.
Proof.
  pose proof (run_inv _ _ Hrun) as I. unfold pop_after_csma. destruct (tx_allowed action); cbn [negb].
  2: { by exists None, q. }
  destruct (pop_if_allowed_ok q now lvl I) as (r & q' & Hp & _ & Ho & Hr).
  exists r, q'. split; [done |]. cbv zeta in *. rewrite Ho in Hr.
  destruct r as [x|].
  - destruct Hr as [Hx Hbest]. destruct (Hbest Hq) as [Ha Hall]. split; [| done].
    rewrite bool_decide_true by eauto. apply has_allowed_ok; [done |]. exists x. rewrite Hx.
    split; [by left | done].
  - destruct Hr as [Hx Hnone]. split; [| done].
    rewrite bool_decide_false by (by intros [? [=]]). by apply has_allowed_ok.
Qed.
End queue.

(** ** Concrete queues *)

Import HeaplessList.

(** Four packets fill the queue. *)
Definition full_calls : list call :=
  [Push Bulk 120000 100 [1; 2; 3]; Push Normal 60000 100 [4]; Push Bulk 120000 100 [5; 6]; Push Urgent 30000 100 [7]].

Definition full_queue : TxQueue := default new (run new full_calls).

Lemma full_queue_run : run new full_calls = Some full_queue.
Proof. vm_compute. reflexivity. Qed.

(** Nothing in it has expired at 200 ms. *)
Lemma full_queue_alive now : now ∈ [100; 200] ->
  filter (fun i => is_expired i (Z.max full_queue.(counters).(observed_now_ms) now) = false) (heap_items full_queue.(items)) =
  heap_items full_queue.(items).
Proof. intros Hn. repeat (apply elem_of_cons in Hn as [-> | Hn]; [vm_compute; reflexivity |]). by apply elem_of_nil in Hn. Qed.
End TxQueue.
