(* ===== verification/FragCodec.v ===== *)
(** * SCHC fragmentation: the wire formats

    lichen-schc/src/fragment.rs: the fixed Rule Set v3 profile, the tile-size
    arithmetic, the reassembly check sequence, and the encoders and decoders of
    the fragment, the ACK with its compressed bitmap, and the control messages.
    A write returns the caller's buffer with the bytes put in place; a [u64]
    bitmap is a [Z] read with [Z.testbit]. *)

From S2P Require Import Prelude.

Module Frag.

Definition FRAGMENT_M : Z := 1.
Definition FRAGMENT_N : Z := 6.
Definition FRAGMENT_T : Z := 0.
Definition ALL_1_FCN : Z := Z.shiftl 1 FRAGMENT_N - 1.
Definition MIC_LENGTH : nat := 4.
Definition RETRANSMISSION_TIMEOUT_S : Z := 10.
Definition RETRANSMISSION_TIMEOUT_MILLIS : Z := RETRANSMISSION_TIMEOUT_S * 1000.
Definition MAX_ACK_REQUESTS : Z := 4.
Definition INACTIVITY_TIMEOUT_S : Z := 60.
Definition INACTIVITY_TIMEOUT_MILLIS : Z := INACTIVITY_TIMEOUT_S * 1000.
Definition FRAGMENT_RULE_ID_BITS : Z := 8.
Definition FRAGMENT_ENVELOPE_MTU : Z := 185.
Definition FRAGMENT_HEADER_BITS : Z :=
  FRAGMENT_RULE_ID_BITS + FRAGMENT_T + FRAGMENT_M + FRAGMENT_N.
Definition TILE_SIZE : nat :=
  Z.to_nat ((FRAGMENT_ENVELOPE_MTU * 8 - FRAGMENT_HEADER_BITS - Z.of_nat MIC_LENGTH * 8) / 8).
Definition WINDOW_SIZE : nat := 63.
Definition BITMAP_MASK : Z := Z.shiftl 1 (Z.of_nat WINDOW_SIZE) - 1.
Definition MAX_PACKET_SIZE : nat := Z.to_nat 22554.
Definition MAX_FRAGMENT_WIRE_SIZE : nat := TILE_SIZE + MIC_LENGTH + 2.
Definition FRAGMENT_TOMBSTONE_MILLIS : Z := 60000.
Definition RULE_ID_A_TO_B : Z := 120.
Definition RULE_ID_B_TO_A : Z := 121.

Inductive TileSizeError := InvalidMtu | ArithmeticOverflow | NoPayload.

Record Ack := {
  ack_rule_id : Z;
  ack_window : Z;
  bitmap : Z;
  complete : bool
}.

Inductive ReceiverResponse :=
  | RespAck (a : Ack)
  | RespReceiverAbort (rule_id : Z).

Inductive FragmentError :=
  | FE_TooShort (e : TooShort)
  | FE_BufferTooSmall (e : BufferTooSmall)
  | UnsupportedRule
  | InvalidWindow
  | InvalidFcn
  | InvalidTileLength
  | InvalidRcs
  | NonZeroPadding
  | MalformedAck
  | NonCanonicalAck
  | UnassignedBitmapBit
  | EmptyPacket
  | InvalidReceiverLimit
  | PacketTooLarge
  | InvalidState
  | VersionMismatch
  | PolicyFull
  | InvalidPeerEvidence
  | SessionBusy
  | ReceiverAllocationRejected (response : ReceiverResponse)
  | InvalidPersistentState
  | PersistentRollback.

#[export] Instance TileSizeError_eq_dec : EqDecision TileSizeError.
Proof. solve_decision. Defined.
#[export] Instance Ack_eq_dec : EqDecision Ack.
Proof. solve_decision. Defined.
#[export] Instance ReceiverResponse_eq_dec : EqDecision ReceiverResponse.
Proof. solve_decision. Defined.
#[export] Instance FragmentError_eq_dec : EqDecision FragmentError.
Proof. solve_decision. Defined.

(** ** Tile size *)

Definition fragment_payload_capacity
    (mtu_bytes rule_id_bits dtag_bits window_bits fcn_bits rcs_bits : Z) :
    result TileSizeError Z :=
  if mtu_bytes =? 0 then Err InvalidMtu
  else
    let overhead :=
      bits ← checked_add u64_max rule_id_bits dtag_bits;
      bits ← checked_add u64_max bits window_bits;
      bits ← checked_add u64_max bits fcn_bits;
      checked_add u64_max bits rcs_bits in
    overhead_bits ← ok_or overhead ArithmeticOverflow;
    available_bits ← ok_or (checked_mul u64_max mtu_bytes 8) ArithmeticOverflow;
    payload_bits ← ok_or (checked_sub available_bits overhead_bits) NoPayload;
    let payload_bytes := payload_bits / 8 in
    if payload_bytes =? 0 then Err NoPayload else Ok payload_bytes.

Definition tile_size_for_mtu
    (mtu_bytes rule_id_bits dtag_bits window_bits fcn_bits rcs_bits : Z) :
    result TileSizeError Z :=
  regular ← fragment_payload_capacity mtu_bytes rule_id_bits dtag_bits window_bits fcn_bits 0;
  terminal ← fragment_payload_capacity mtu_bytes rule_id_bits dtag_bits window_bits fcn_bits rcs_bits;
  Ok (Z.min regular terminal).

(** ** Rules *)

Definition check_rule (rule_id : Z) : result FragmentError unit :=
  if (rule_id =? RULE_ID_A_TO_B) || (rule_id =? RULE_ID_B_TO_A) then Ok tt
  else Err UnsupportedRule.

Definition rule_index (rule_id : Z) : result FragmentError nat :=
  if rule_id =? RULE_ID_A_TO_B then Ok 0%nat
  else if rule_id =? RULE_ID_B_TO_A then Ok 1%nat
  else Err UnsupportedRule.

(** [<[u8; 32] as Ord>::cmp]: lexicographic on bytes. *)
Fixpoint bytes_cmp (a b : bytes) : comparison :=
  match a, b with
  | [], [] => Eq
  | [], _ :: _ => Lt
  | _ :: _, [] => Gt
  | x :: a, y :: b => match x ?= y with Eq => bytes_cmp a b | c => c end
  end.

Definition canonical_fragmentation_rule (local_signer remote_signer : bytes) (outbound : bool) :
    result FragmentError Z :=
  match bytes_cmp local_signer remote_signer with
  | Lt => Ok (if outbound then RULE_ID_A_TO_B else RULE_ID_B_TO_A)
  | Gt => Ok (if outbound then RULE_ID_B_TO_A else RULE_ID_A_TO_B)
  | Eq => Err InvalidPeerEvidence
  end.

(** ** Reassembly check sequence *)

Definition crc_bit (crc : Z) : Z :=
  if Z.land crc 1 =? 0 then Z.shiftr crc 1
  else Z.lxor (Z.shiftr crc 1) 3988292384.

Definition crc_byte (crc byte : Z) : Z := Nat.iter 8 crc_bit (Z.lxor crc byte).

Definition compute_mic (data : bytes) : bytes :=
  to_be 4 (Z.lxor (foldl crc_byte u32_max (data ++ [0])) u32_max).

(** ** Fragments *)

Record Fragment := {
  rule_id : Z;
  window : Z;
  fcn : Z;
  payload : bytes;
  mic : bytes
}.
#[export] Instance Fragment_eq_dec : EqDecision Fragment.
Proof. solve_decision. Defined.

Definition no_mic : bytes := replicate MIC_LENGTH 0.

Definition is_all_1 (f : Fragment) : bool := f.(fcn) =? ALL_1_FCN.
Definition is_all_0 (f : Fragment) : bool := f.(fcn) =? 0.

(** One iteration of the writing loops: the byte is shifted left by one, its
    top bit going into the previous octet. *)
Definition put_byte (st : nat * bytes) (byte : Z) : nat * bytes :=
  let '(index, out) := st in
  let out := <[(1 + index)%nat := Z.lor (nth (1 + index) out 0) (Z.shiftr byte 7)]> out in
  let out := <[(2 + index)%nat := wrap8 (Z.shiftl byte 1)]> out in
  (S index, out).

Definition fragment_guards (f : Fragment) : result FragmentError unit :=
  check_rule f.(rule_id) ≫= fun _ =>
  if 1 <? f.(window) then Err InvalidWindow
  else if ALL_1_FCN <? f.(fcn) then Err InvalidFcn
  else if is_all_1 f then
    if negb ((1 <=? length f.(payload)) && (length f.(payload) <=? TILE_SIZE))%nat
    then Err InvalidTileLength else Ok tt
  else if negb (length f.(payload) =? TILE_SIZE)%nat || negb (bool_decide (f.(mic) = no_mic))
  then Err InvalidTileLength
  else if (f.(window) =? 1) && is_all_0 f then Err InvalidFcn
  else Ok tt.

Definition fragment_write_to (f : Fragment) (out : bytes) : result FragmentError nat * bytes :=
  match fragment_guards f with
  | Err e => (Err e, out)
  | Ok _ =>
      let content_len := (length f.(payload) + if is_all_1 f then MIC_LENGTH else 0)%nat in
      let needed := (content_len + 2)%nat in
      if (length out <? needed)%nat then
        (Err (FE_BufferTooSmall {| required := needed; provided := length out |}), out)
      else
        let out := list_inserts 0 (replicate needed 0) out in
        let out := <[0%nat := f.(rule_id)]> out in
        let out := <[1%nat :=
          Z.lor (wrap8 (Z.shiftl (Z.land f.(window) 1) 7))
                (wrap8 (Z.shiftl (Z.land f.(fcn) (Z.shiftl 1 FRAGMENT_N - 1)) 1))]> out in
        let st := if is_all_1 f then foldl put_byte (0%nat, out) f.(mic) else (0%nat, out) in
        let st := foldl put_byte st f.(payload) in
        (Ok needed, st.2)
  end.

(** The octet read back across the one-bit shift. *)
Definition get_byte (data : bytes) (wire : nat) : Z :=
  Z.lor (wrap8 (Z.shiftl (nth wire data 0) 7)) (Z.shiftr (nth (wire + 1) data 0) 1).

(** [from_bytes] fills the caller's tile buffer, of which only the length
    matters: the returned payload is the filled prefix. *)
Definition fragment_from_bytes (data : bytes) (out_len : nat) : result FragmentError Fragment :=
  if (length data <? 2)%nat then
    Err (FE_TooShort {| expected := 2; actual := length data |})
  else if (MAX_FRAGMENT_WIRE_SIZE <? length data)%nat then Err InvalidTileLength
  else
    let rule_id := nth 0 data 0 in
    let window := Z.land (Z.shiftr (nth 1 data 0) 7) 1 in
    let fcn := Z.land (Z.shiftr (nth 1 data 0) 1) (Z.shiftl 1 FRAGMENT_N - 1) in
    let content_len := (length data - 2)%nat in
    let content_offset := if fcn =? ALL_1_FCN then MIC_LENGTH else 0%nat in
    payload_len ←
      (if fcn =? ALL_1_FCN then
         if negb ((MIC_LENGTH + 1 <=? content_len) && (content_len <=? MIC_LENGTH + TILE_SIZE))%nat
         then Err InvalidTileLength
         else Ok (content_len - content_offset)%nat
       else if negb (length data =? TILE_SIZE + 2)%nat then Err InvalidTileLength
       else if (window =? 1) && (fcn =? 0) then Err InvalidFcn
       else Ok TILE_SIZE);
    if (out_len <? payload_len)%nat then
      Err (FE_BufferTooSmall {| required := payload_len; provided := out_len |})
    else if negb (fcn =? ALL_1_FCN) && negb (Z.land (nth (length data - 1) data 0) 1 =? 0)
    then Err NonZeroPadding
    else
      Ok {| rule_id := rule_id; window := window; fcn := fcn;
            payload := (fun i => get_byte data (1 + content_offset + i)) <$> seq 0 payload_len;
            mic := if fcn =? ALL_1_FCN
                   then (fun i => get_byte data (1 + i)) <$> seq 0 MIC_LENGTH
                   else no_mic |}.

Definition is_receiver_session_opener (data : bytes) (rule : Z) : bool :=
  match fragment_from_bytes data TILE_SIZE with
  | Ok f =>
      (f.(rule_id) =? rule) && (f.(window) =? 0)
      && (f.(fcn) =? wrap8 (Z.of_nat WINDOW_SIZE) - 1) && negb (is_all_1 f)
  | Err _ => false
  end.

(** ** Acknowledgements *)

Definition ack_new (rule_id window bm : Z) (complete : bool) : Ack :=
  {| ack_rule_id := rule_id; ack_window := window;
     bitmap := Z.land bm BITMAP_MASK; complete := complete |}.

(** [u64::trailing_ones], [u64::trailing_zeros] and [u64::count_ones]. *)
Fixpoint trailing (bit : bool) (width : nat) (x : Z) : nat :=
  match width with
  | O => O
  | S width => if Bool.eqb (Z.odd x) bit then S (trailing bit width (Z.div2 x)) else O
  end.
Definition trailing_ones (x : Z) : nat := trailing true 64 x.
Definition trailing_zeros (x : Z) : nat := trailing false 64 x.
Definition count_ones (x : Z) : nat :=
  length (filter (fun i => Z.testbit x (Z.of_nat i) = true) (seq 0 64)).

(** [out[k] |= 1 << b]. *)
Definition set_bit (out : bytes) (k b : nat) : bytes :=
  <[k := Z.lor (nth k out 0) (Z.shiftl 1 (Z.of_nat b))]> out.

(** Where bit [i] of the encoded bitmap goes: six bits in the octet after the
    Rule ID, then whole octets, most significant bit first. *)
Definition byte_idx (i : nat) : nat := if (i <? 6)%nat then 1%nat else (2 + (i - 6) / 8)%nat.
Definition bit_idx (i : nat) : nat := if (i <? 6)%nat then (5 - i)%nat else (7 - (i - 6) mod 8)%nat.

Definition div_ceil (a b : nat) : nat := ((a + (b - 1)) / b)%nat.

Definition ack_write_to (a : Ack) (out : bytes) : result FragmentError nat * bytes :=
  match check_rule a.(ack_rule_id) with
  | Err e => (Err e, out)
  | Ok _ =>
      if 1 <? a.(ack_window) then (Err InvalidWindow, out)
      else if a.(complete) then
        if negb (a.(bitmap) =? 0) then (Err MalformedAck, out)
        else if (length out <? 2)%nat then
          (Err (FE_BufferTooSmall {| required := 2; provided := length out |}), out)
        else
          let out := <[0%nat := a.(ack_rule_id)]> out in
          let out := <[1%nat := Z.lor (wrap8 (Z.shiftl a.(ack_window) 7)) 64]> out in
          (Ok 2%nat, out)
      else
        let trailing := trailing_ones (Z.land a.(bitmap) BITMAP_MASK) in
        let n := (WINDOW_SIZE - trailing)%nat in
        let remaining := (n - 6)%nat in
        let body_bytes := div_ceil remaining 8 in
        let needed := (2 + body_bytes)%nat in
        if (length out <? needed)%nat then
          (Err (FE_BufferTooSmall {| required := needed; provided := length out |}), out)
        else
          let out := list_inserts 0 (replicate needed 0) out in
          let out := <[0%nat := a.(ack_rule_id)]> out in
          let out := <[1%nat := wrap8 (Z.shiftl a.(ack_window) 7)]> out in
          let first_byte_bits := Nat.min n 6 in
          let out := foldl (fun out i =>
            if negb (Z.land a.(bitmap) (Z.shiftl 1 (62 - Z.of_nat i)) =? 0)
            then set_bit out 1 (5 - i) else out) out (seq 0 first_byte_bits) in
          let out := foldl (fun out i =>
            if negb (Z.land a.(bitmap) (Z.shiftl 1 (56 - Z.of_nat i)) =? 0)
            then set_bit out (2 + i / 8) (7 - i mod 8) else out) out (seq 0 remaining) in
          let out :=
            if (0 <? trailing)%nat then
              let encoded_bits := (6 + body_bytes * 8)%nat in
              foldl (fun out i => set_bit out (byte_idx i) (bit_idx i)) out
                    (seq n (encoded_bits - n))
            else out in
          (Ok needed, out)
  end.

Definition ack_from_bytes_for (data : bytes) (assigned : option Z) : result FragmentError Ack :=
  if (length data <? 2)%nat then
    Err (FE_TooShort {| expected := 2; actual := length data |})
  else if (10 <? length data)%nat then Err MalformedAck
  else
    let rule_id := nth 0 data 0 in
    let window := Z.land (Z.shiftr (nth 1 data 0) 7) 1 in
    if negb (Z.land (nth 1 data 0) 64 =? 0) then
      if negb (length data =? 2)%nat then Err MalformedAck
      else
        let ack := ack_new rule_id window 0 true in
        let '(r, canonical) := ack_write_to ack (replicate 2 0) in
        len ← r;
        if negb (bool_decide (take len canonical = data)) then Err NonCanonicalAck else Ok ack
    else
      let total_bits := (6 + (length data - 2) * 8)%nat in
      let bm := foldl (fun bm i =>
        let val := Z.land (Z.shiftr (nth (byte_idx i) data 0) (Z.of_nat (bit_idx i))) 1 in
        if negb (val =? 0) then Z.lor bm (Z.shiftl 1 (62 - Z.of_nat i)) else bm)
        0 (seq 0 (Nat.min total_bits 63)) in
      let bm := if (total_bits <? 63)%nat
                then Z.lor bm (Z.shiftl 1 (63 - Z.of_nat total_bits) - 1) else bm in
      let bm := Z.land bm BITMAP_MASK in
      let trailing := trailing_ones (Z.land bm BITMAP_MASK) in
      let n := (WINDOW_SIZE - trailing)%nat in
      if (WINDOW_SIZE <? n)%nat then Err MalformedAck
      else
        let remaining := (n - 6)%nat in
        let body_bytes := div_ceil remaining 8 in
        let expected_len := (2 + body_bytes)%nat in
        if negb (expected_len =? length data)%nat then Err NonCanonicalAck
        else
          let ack := ack_new rule_id window bm false in
          let '(r, canonical) := ack_write_to ack (replicate 10 0) in
          len ← r;
          if negb (bool_decide (take len canonical = data)) then Err NonCanonicalAck
          else if match assigned with
                  | Some mask => negb (Z.land (Z.ldiff bm mask) BITMAP_MASK =? 0)
                  | None => false
                  end then Err UnassignedBitmapBit
          else Ok ack.

Definition ack_from_bytes (data : bytes) : result FragmentError Ack := ack_from_bytes_for data None.

(** ** Control messages *)

Inductive Control :=
  | AckRequest (rule_id window : Z)
  | SenderAbort (rule_id : Z)
  | ReceiverAbort (rule_id : Z).

Definition control_write_to (c : Control) (out : bytes) : result FragmentError nat * bytes :=
  let parts :=
    match c with
    | AckRequest rule_id window =>
        if window <=? 1 then Ok (rule_id, wrap8 (Z.shiftl window 7), 2%nat) else Err InvalidWindow
    | SenderAbort rule_id => Ok (rule_id, 254, 2%nat)
    | ReceiverAbort rule_id => Ok (rule_id, 255, 3%nat)
    end in
  match parts with
  | Err e => (Err e, out)
  | Ok (rule_id, body, needed) =>
      match check_rule rule_id with
      | Err e => (Err e, out)
      | Ok _ =>
          if (length out <? needed)%nat then
            (Err (FE_BufferTooSmall {| required := needed; provided := length out |}), out)
          else
            let out := <[0%nat := rule_id]> out in
            let out := <[1%nat := body]> out in
            let out := if (needed =? 3)%nat then <[2%nat := 255]> out else out in
            (Ok needed, out)
      end
  end.

(** Whether [data] is the control message [c], written in the 3-byte scratch
    buffer. *)
Definition is_control (data : bytes) (c : Control) : result FragmentError bool :=
  let '(r, control) := control_write_to c (replicate 3 0) in
  len ← r;
  Ok (bool_decide (data = take len control)).

Definition is_sender_facing_control (data : bytes) (rule_id : Z) : result FragmentError bool :=
  b ← is_control data (ReceiverAbort rule_id);
  if b : bool then Ok true
  else
    b ← is_control data (SenderAbort rule_id);
    if b : bool then Ok false
    else
      let window := Z.shiftr (nth 1 data 0) 7 in
      b ← is_control data (AckRequest rule_id window);
      if b : bool then Ok false
      else Ok (is_ok (ack_from_bytes data)).

Definition response_write_to (r : ReceiverResponse) (out : bytes) :
    result FragmentError nat * bytes :=
  match r with
  | RespAck a => ack_write_to a out
  | RespReceiverAbort rule_id => control_write_to (ReceiverAbort rule_id) out
  end.

(** ** Constants, evaluated *)

Lemma TILE_SIZE_val : TILE_SIZE = 179%nat.
Proof. reflexivity. Qed.
Lemma MAX_WIRE_val : MAX_FRAGMENT_WIRE_SIZE = 185%nat.
Proof. reflexivity. Qed.

(** ** The one-bit shift of the fragment content *)

(** [c] shifted left by one behind an octet [h] whose low bit is free. *)
Fixpoint shl1 (h : Z) (c : bytes) : bytes :=
  match c with
  | [] => [h]
  | b :: c => Z.lor h (Z.shiftr b 7) :: shl1 (wrap8 (Z.shiftl b 1)) c
  end.

Lemma length_shl1 h c : length (shl1 h c) = S (length c).
Proof. revert h. induction c; intros h; simpl; [done | by rewrite IHc]. Qed.

Lemma put_bytes c : forall pre h zs rest index,
  length pre = S index -> length zs = length c ->
  foldl put_byte (index, pre ++ h :: zs ++ rest) c =
  ((index + length c)%nat, pre ++ shl1 h c ++ rest).
Proof.
  induction c as [|b c IH]; intros pre h zs rest index Hp Hz.
  - destruct zs; [| done]. simpl. by rewrite Nat.add_0_r.
  - destruct zs as [|z zs]; [done |]. simpl in Hz. injection Hz as Hz.
    cbn [foldl]. unfold put_byte at 2. rewrite <- app_comm_cons.
    rewrite (nth_app_eq pre (z :: zs ++ rest) _ h) by (done || lia).
    rewrite insert_app_r_alt, Hp, Nat.sub_diag by lia. simpl (<[0%nat := _]> _).
    rewrite insert_app_r_alt, Hp by lia.
    replace (2 + index - S index)%nat with 1%nat by lia. simpl (<[1%nat := _]> _).
    rewrite (cons_middle _ pre), app_assoc, (IH _ _ zs rest (S index)); [| | done].
    + rewrite <- app_assoc. simpl. f_equal. lia.
    + rewrite length_app. simpl. lia.
Qed.

Lemma lor_even h t : 0 <= t <= 1 -> Z.even h = true -> Z.lor h t = h + t.
Proof.
  intros Ht He. apply Z.even_spec in He as [k ->].
  replace (2 * k) with (Z.shiftl k 1) by (rewrite Z.shiftl_mul_pow2 by lia; lia).
  rewrite lor_shiftl, Z.shiftl_mul_pow2 by (change (2 ^ 1) with 2; lia). done.
Qed.

Lemma top_bit b : is_u8 b -> 0 <= Z.shiftr b 7 <= 1.
Proof.
  intros. rewrite Z.shiftr_div_pow2 by lia. change (2 ^ 7) with 128.
  pose proof (Z.div_mod b 128 ltac:(lia)). pose proof (Z.mod_pos_bound b 128 ltac:(lia)). width.
Qed.

Lemma double_even b : Z.even (wrap8 (Z.shiftl b 1)) = true.
Proof.
  unfold wrap8. rewrite Z.shiftl_mul_pow2 by lia. change (2 ^ 1) with 2.
  apply Z.even_spec. exists (b mod 128). change 256 with (2 * 128).
  rewrite (Z.mul_comm b 2), Z.mul_mod_distr_l by lia. done.
Qed.

(** Reading across the shift recovers an octet: the low bit of the octet that
    held its top bit, then the high seven bits of the next. *)
Lemma unshift_byte h b t :
  Z.even h = true -> is_u8 b -> 0 <= t <= 1 ->
  Z.lor (wrap8 (Z.shiftl (Z.lor h (Z.shiftr b 7)) 7))
        (Z.shiftr (Z.lor (wrap8 (Z.shiftl b 1)) t) 1) = b.
Proof.
  intros Hh Hb Ht.
  rewrite (lor_even h) by (done || by apply top_bit).
  rewrite (lor_even (wrap8 (Z.shiftl b 1)) t) by (done || apply double_even).
  apply Z.even_spec in Hh as [k ->]. unfold wrap8.
  rewrite !Z.shiftl_mul_pow2, !Z.shiftr_div_pow2 by lia.
  change (2 ^ 7) with 128. change (2 ^ 1) with 2.
  pose proof (Z.div_mod b 128 ltac:(lia)). pose proof (Z.mod_pos_bound b 128 ltac:(lia)).
  assert (0 <= b / 128 <= 1) by width.
  replace ((2 * k + b / 128) * 128) with (b / 128 * 128 + k * 256) by lia.
  rewrite Z.mod_add, (Z.mod_small (b / 128 * 128)) by lia.
  replace ((b * 2) mod 256) with (b mod 128 * 2).
  - replace ((b mod 128 * 2 + t) / 2) with (b mod 128).
    + change 128 with (2 ^ 7) at 2. rewrite <- Z.shiftl_mul_pow2, lor_shiftl by lia.
      change (2 ^ 7) with 128. lia.
    + symmetry. rewrite Z.add_comm, Z.div_add, Z.div_small by lia. lia.
  - rewrite (Z.mul_comm b 2), (Z.mul_comm _ 2). change 256 with (2 * 128).
    by rewrite Z.mul_mod_distr_l by lia.
Qed.

Lemma shl1_head c b : bytes_ok c -> exists t rest,
  0 <= t <= 1 /\ shl1 (wrap8 (Z.shiftl b 1)) c = Z.lor (wrap8 (Z.shiftl b 1)) t :: rest.
Proof.
  intros Hc. destruct c as [|x c].
  - exists 0, []. by rewrite Z.lor_0_r.
  - inversion Hc; subst. exists (Z.shiftr x 7), (shl1 (wrap8 (Z.shiftl x 1)) c).
    by split; [apply top_bit |].
Qed.

Lemma get_shl1 c : forall pre h rest i,
  Z.even h = true -> bytes_ok c -> (i < length c)%nat ->
  get_byte (pre ++ shl1 h c ++ rest) (length pre + i) = nth i c 0.
Proof.
  induction c as [|b c IH]; intros pre h rest i Hh Hc Hi; [simpl in Hi; lia |].
  inversion Hc; subst. destruct i as [|i].
  - rewrite Nat.add_0_r. unfold get_byte. simpl shl1.
    destruct (shl1_head c b) as (t & r & Ht & ->); [done |].
    rewrite (nth_app_eq pre (Z.lor (wrap8 (Z.shiftl b 1)) t :: r ++ rest) _
      (Z.lor h (Z.shiftr b 7))) by done.
    rewrite (nth_app_eq (pre ++ [Z.lor h (Z.shiftr b 7)]) (r ++ rest) _
      (Z.lor (wrap8 (Z.shiftl b 1)) t)).
    + by apply unshift_byte.
    + by rewrite <- app_assoc.
    + rewrite length_app. done.
  - simpl shl1. simpl nth. rewrite <- app_comm_cons, (cons_middle _ pre), app_assoc.
    rewrite <- (IH (pre ++ [Z.lor h (Z.shiftr b 7)]) (wrap8 (Z.shiftl b 1)) rest i);
      [| apply double_even | done | simpl in Hi; lia].
    f_equal. rewrite length_app. simpl. lia.
Qed.

Lemma get_bytes c pre h rest k n :
  Z.even h = true -> bytes_ok c -> (k + n <= length c)%nat ->
  ((fun i => get_byte (pre ++ shl1 h c ++ rest) (length pre + k + i)) <$> seq 0 n)
  = slice k (k + n) c.
Proof.
  intros Hh Hc Hn. apply list_eq. intros i. unfold slice.
  rewrite list_lookup_fmap. destruct (decide (i < n)%nat) as [Hi|Hi].
  - rewrite lookup_seq_lt by done. simpl.
    rewrite lookup_take_lt, lookup_drop by lia.
    replace (length pre + k + i)%nat with (length pre + (k + i))%nat by lia.
    rewrite get_shl1 by (done || lia).
    destruct (lookup_lt_is_Some_2 c (k + i)) as [x Hx]; [lia |].
    by rewrite Hx, (nth_lookup_Some _ _ _ _ Hx).
  - rewrite lookup_seq_ge by lia. simpl. rewrite lookup_ge_None_2; [done |].
    rewrite length_take, length_drop. lia.
Qed.

(** ** The fragment encoding, in closed form *)

(** The widths of the fields and what the guards of [write_to] leave. *)
Record fragment_ok (f : Fragment) : Prop := {
  fok_guards : fragment_guards f = Ok tt;
  fok_window : 0 <= f.(window);
  fok_fcn : 0 <= f.(fcn);
  fok_payload : bytes_ok f.(payload);
  fok_mic : bytes_ok f.(mic);
  fok_mic_len : length f.(mic) = MIC_LENGTH
}.

Definition header (f : Fragment) : Z :=
  Z.lor (wrap8 (Z.shiftl (Z.land f.(window) 1) 7))
        (wrap8 (Z.shiftl (Z.land f.(fcn) (Z.shiftl 1 FRAGMENT_N - 1)) 1)).
Definition content (f : Fragment) : bytes :=
  if is_all_1 f then f.(mic) ++ f.(payload) else f.(payload).
Definition wire (f : Fragment) : bytes := f.(rule_id) :: shl1 (header f) (content f).

Lemma check_rule_ok r : check_rule r = Ok tt <-> r = RULE_ID_A_TO_B \/ r = RULE_ID_B_TO_A.
Proof.
  unfold check_rule. destruct (_ || _) eqn:E.
  - split; [intros _ | done]. apply orb_true_iff in E as [E|E]; bool_to_prop; auto.
  - split; [done |]. bool_to_prop. intros [?|?]; done.
Qed.

Lemma guards_inv f : fragment_guards f = Ok tt ->
  check_rule f.(rule_id) = Ok tt /\ f.(window) <= 1 /\ f.(fcn) <= 63 /\
  (if is_all_1 f then (1 <= length f.(payload) <= TILE_SIZE)%nat
   else length f.(payload) = TILE_SIZE /\ f.(mic) = no_mic /\ (f.(window) =? 1) && is_all_0 f = false).
Proof.
  unfold fragment_guards. change ALL_1_FCN with 63.
  destruct (check_rule _) as [[]|]; [| done]. cbn [mbind result_bind].
  destruct (1 <? window f) eqn:?; [done |]. destruct (63 <? fcn f) eqn:?; [done |].
  bool_to_prop. destruct (is_all_1 f).
  - destruct (negb _) eqn:?; [done |]. bool_to_prop. auto with lia.
  - destruct (_ || _) eqn:E; [done |]. apply orb_false_iff in E as [E Em].
    apply negb_false_iff, bool_decide_eq_true_1 in Em. bool_to_prop.
    destruct ((_ =? _) && _) eqn:?; done.
Qed.

Lemma header_val f t : fragment_ok f -> 0 <= t <= 1 ->
  Z.lor (header f) t = f.(window) * 128 + f.(fcn) * 2 + t.
Proof.
  intros [Hg Hw Hf _ _ _] Ht. apply guards_inv in Hg as (_ & Hw1 & Hf1 & _).
  unfold header. change (Z.shiftl 1 FRAGMENT_N - 1) with (Z.ones 6).
  change (Z.land (window f) 1) with (Z.land (window f) (Z.ones 1)).
  rewrite !Z.land_ones, !Z.mod_small by lia. unfold wrap8.
  rewrite (Z.shiftl_mul_pow2 (fcn f)), (Z.mod_small (fcn f * 2 ^ 1)),
    (Z.mod_small (Z.shiftl (window f) 7)) by (rewrite ?Z.shiftl_mul_pow2; lia).
  rewrite (lor_shiftl (window f)) by lia. rewrite lor_even; [lia | done |].
  apply Z.even_spec. exists (window f * 64 + fcn f). lia.
Qed.

Lemma header_even f : fragment_ok f -> Z.even (header f) = true.
Proof.
  intros H. rewrite <- (Z.lor_0_r (header f)), (header_val f 0) by (done || lia).
  apply Z.even_spec. exists (window f * 64 + fcn f). lia.
Qed.

Lemma content_ok f : fragment_ok f -> bytes_ok (content f).
Proof. intros []. unfold content. destruct (is_all_1 f); [by apply Forall_app |]; done. Qed.

Lemma content_length f : fragment_ok f ->
  length (content f) = (length f.(payload) + if is_all_1 f then MIC_LENGTH else 0)%nat.
Proof. intros []. unfold content. destruct (is_all_1 f); rewrite ?length_app; lia. Qed.

Lemma frag_wire_length f : fragment_ok f ->
  length (wire f) = (length f.(payload) + (if is_all_1 f then MIC_LENGTH else 0) + 2)%nat.
Proof. intros H. simpl. rewrite length_shl1, content_length by done. lia. Qed.

Lemma content_nonempty f : fragment_ok f -> (1 <= length (content f))%nat.
Proof.
  intros H. rewrite content_length by done. destruct H as [Hg _ _ _ _ _].
  apply guards_inv in Hg as (_ & _ & _ & Hg). rewrite TILE_SIZE_val in Hg.
  destruct (is_all_1 f); lia.
Qed.

Lemma wire_second f : fragment_ok f -> exists t rest, 0 <= t <= 1 /\
  shl1 (header f) (content f) = Z.lor (header f) t :: rest.
Proof.
  intros H. pose proof (content_nonempty f H). pose proof (content_ok f H) as Hc.
  destruct (content f) as [|b c]; [simpl in *; lia |]. inversion Hc; subst.
  exists (Z.shiftr b 7), (shl1 (wrap8 (Z.shiftl b 1)) c). by split; [apply top_bit |].
Qed.

Lemma write_to_wire f out : fragment_ok f -> (length (wire f) <= length out)%nat ->
  fragment_write_to f out = (Ok (length (wire f)), wire f ++ drop (length (wire f)) out).
Proof.
  intros H Hl. pose proof (content_length f H) as Hcl.
  unfold fragment_write_to. rewrite (fok_guards f H), <- Hcl.
  assert (length (wire f) = (length (content f) + 2)%nat) as Hn
    by (simpl; rewrite length_shl1; lia). rewrite Hn in *.
  destruct (_ <? _)%nat eqn:E; bool_to_prop; [lia |].
  rewrite inserts_front, length_replicate by (rewrite length_replicate; lia).
  replace (replicate (length (content f) + 2) 0) with (0 :: 0 :: replicate (length (content f)) 0)
    by (by rewrite Nat.add_comm).
  cbn [app]. cbn [list_insert insert].
  change (Z.lor _ _) with (header f).
  pose proof (put_bytes (content f) [rule_id f] (header f) (replicate (length (content f)) 0)
    (drop (length (content f) + 2) out) 0%nat eq_refl (length_replicate _ _)) as Hp.
  cbn [app] in Hp. unfold wire. rewrite <- app_comm_cons.
  unfold content in Hp |- *. destruct (is_all_1 f); [rewrite foldl_app in Hp|]; by rewrite Hp.
Qed.

Lemma shl1_pad c : forall h, Z.even h = true -> Z.land (nth (length c) (shl1 h c) 0) 1 = 0.
Proof.
  induction c as [|b c IH]; intros h Hh; simpl; [| by apply IH, double_even].
  change 1 with (Z.ones 1). rewrite Z.land_ones, Zmod_even by lia. by rewrite Hh.
Qed.

Lemma header_fields f t : fragment_ok f -> 0 <= t <= 1 ->
  Z.land (Z.shiftr (Z.lor (header f) t) 7) 1 = f.(window) /\
  Z.land (Z.shiftr (Z.lor (header f) t) 1) (Z.shiftl 1 FRAGMENT_N - 1) = f.(fcn).
Proof.
  intros H Ht. rewrite header_val by done.
  destruct H as [Hg Hw Hf _ _ _]. apply guards_inv in Hg as (_ & Hw1 & Hf1 & _).
  change (Z.land ?x 1) with (Z.land x (2 ^ 1 - 1)).
  change (Z.shiftl 1 FRAGMENT_N - 1) with (2 ^ 6 - 1). rewrite !bit_field by lia.
  change (2 ^ 7) with 128. change (2 ^ 1) with 2. change (2 ^ 6) with 64.
  split; Z.to_euclidean_division_equations; lia.
Qed.

Lemma get_content f k n : fragment_ok f -> (k + n <= length (content f))%nat ->
  ((fun i => get_byte (wire f) (1 + k + i)) <$> seq 0 n) = slice k (k + n) (content f).
Proof.
  intros H Hn. pose proof (get_bytes (content f) [rule_id f] (header f) [] k n
    (header_even f H) (content_ok f H) Hn) as Hg. rewrite app_nil_r in Hg. exact Hg.
Qed.

Lemma fragment_eta f : f = {| rule_id := rule_id f; window := window f; fcn := fcn f;
                              payload := payload f; mic := mic f |}.
Proof. by destruct f. Qed.

Lemma frag_from_wire f : fragment_ok f -> fragment_from_bytes (wire f) TILE_SIZE = Ok f.
Proof.
  intros H. pose proof (frag_wire_length f H) as Hl.
  destruct (wire_second f H) as (t & r & Ht & Hs).
  pose proof (header_fields f t H Ht) as [Hw Hf].
  pose proof (shl1_pad (content f) (header f) (header_even f H)) as Hpad.
  pose proof (content_length f H) as Hc. pose proof (fok_mic_len f H) as Hm.
  pose proof (guards_inv f (fok_guards f H)) as (_ & _ & _ & Hg).
  pose proof (get_content f 0 MIC_LENGTH H) as Hmic.
  change (fun i => get_byte (wire f) (1 + 0 + i)) with (fun i => get_byte (wire f) (1 + i)) in Hmic.
  pose proof (get_content f MIC_LENGTH (length (payload f)) H) as Hp1.
  pose proof (get_content f 0 (length (payload f)) H) as Hp0.
  unfold fragment_from_bytes.
  replace (nth 1 (wire f) 0) with (Z.lor (header f) t) by (unfold wire; by rewrite Hs).
  rewrite Hw, Hf. change (fcn f =? ALL_1_FCN) with (is_all_1 f).
  change (nth 0 (wire f) 0) with (rule_id f).
  unfold MIC_LENGTH in *. rewrite MAX_WIRE_val. rewrite TILE_SIZE_val in *.
  destruct (is_all_1 f) eqn:Ea; unfold content in *; rewrite Ea in *; cbn [negb andb].
  - do 2 (destruct (_ <? _)%nat eqn:?; bool_to_prop; [lia |]).
    destruct (negb _) eqn:E; cbn [mbind result_bind].
    { apply negb_true_iff, andb_false_iff in E as [?|?]; bool_to_prop; lia. }
    rewrite Hl, (proj2 (Nat.ltb_ge _ _)) by lia.
    replace (length (payload f) + 4 + 2 - 2 - 4)%nat with (length (payload f)) by lia.
    rewrite length_app in *. rewrite Hp1 by lia. rewrite Hmic by lia.
    rewrite (slice_app_eq (mic f) (payload f) []), (slice_app_eq [] (mic f) (payload f));
      rewrite ?app_nil_r; simpl; try (done || lia).
    by rewrite <- fragment_eta.
  - destruct Hg as (Hpl & Hm0 & Hw0).
    do 2 (destruct (_ <? _)%nat eqn:?; bool_to_prop; [lia |]).
    rewrite Hl, Hpl. change (fcn f =? 0) with (is_all_0 f). rewrite Hw0.
    cbn [negb Nat.eqb Nat.add mbind result_bind Nat.ltb Nat.leb Nat.sub].
    replace (nth 180 (wire f) 0) with (nth 179 (shl1 (header f) (payload f)) 0)
      by (unfold wire, content; by rewrite Ea).
    rewrite Hpl in Hpad. rewrite Hpad. cbn [negb Z.eqb].
    change (fun i => get_byte (wire f) (1 + 0 + i)) with (fun i => get_byte (wire f) (S i)) in Hp0.
    rewrite <- Hpl, Hp0, <- Hm0 by lia. cbn [Nat.add].
    by rewrite slice_full, <- fragment_eta.
Qed.

(** A fragment that passes the guards of [write_to] is written in a buffer
    that can hold it, in at most 185 octets, and [from_bytes] reads the same
    fragment back from the octets written: rule, window, FCN, tile and, in an
    All-1, the reassembly check sequence.  The octets after them are kept. *)
Lemma fragment_roundtrip f out :
  fragment_ok f -> (MAX_FRAGMENT_WIRE_SIZE <= length out)%nat ->
  exists n out', fragment_write_to f out = (Ok n, out') /\
    (n <= MAX_FRAGMENT_WIRE_SIZE)%nat /\ drop n out' = drop n out /\
    fragment_from_bytes (take n out') TILE_SIZE = Ok f.
Proof.
  intros H Hl. pose proof (frag_wire_length f H) as Hwl.
  pose proof (guards_inv f (fok_guards f H)) as (_ & _ & _ & Hg).
  assert (length (wire f) <= MAX_FRAGMENT_WIRE_SIZE)%nat as Hle.
  { rewrite Hwl, MAX_WIRE_val. rewrite TILE_SIZE_val in Hg. unfold MIC_LENGTH.
    destruct (is_all_1 f); lia. }
  exists (length (wire f)), (wire f ++ drop (length (wire f)) out).
  split; [apply write_to_wire; [done | lia] |]. split; [done |].
  rewrite drop_app_length, take_app_length. by split; [| apply frag_from_wire].
Qed.

Definition demo_all1 : Fragment :=
  {| rule_id := 120; window := 1; fcn := 63; payload := [1; 128; 255];
     mic := compute_mic [1; 128; 255] |}.

Lemma demo_all1_ok : fragment_ok demo_all1.
Proof. split; try done; repeat constructor; vm_compute; done. Qed.

Lemma foldl_ext_in {A B} (f g : A -> B -> A) l : (forall a b, b ∈ l -> f a b = g a b) ->
  forall a, foldl f a l = foldl g a l.
Proof.
  induction l as [|b l IH]; intros H a; [done |]. simpl. rewrite (H a b) by constructor.
  apply IH. intros. apply H. by constructor.
Qed.

Lemma foldl_map {A B C} (f : A -> C -> A) (g : B -> C) l : forall a,
  foldl f a (g <$> l) = foldl (fun a b => f a (g b)) a l.
Proof. induction l as [|b l IH]; intros x; [done |]. simpl. apply IH. Qed.

(** ** Bits *)

Lemma land_bit_test x k : 0 <= k -> negb (Z.land x (Z.shiftl 1 k) =? 0) = Z.testbit x k.
Proof.
  intros Hk. rewrite Z.shiftl_1_l. destruct (Z.testbit x k) eqn:E.
  - apply negb_true_iff, Z.eqb_neq. intros H0.
    apply (f_equal (fun z => Z.testbit z k)) in H0.
    by rewrite Z.land_spec, E, Z.pow2_bits_true, Z.bits_0 in H0 by done.
  - apply negb_false_iff, Z.eqb_eq, Z.bits_inj'. intros m Hm.
    rewrite Z.land_spec, Z.bits_0. destruct (decide (m = k)) as [->|]; [by rewrite E |].
    by rewrite Z.pow2_bits_false, andb_false_r by done.
Qed.

Lemma shiftr_bit x k : 0 <= k -> negb (Z.land (Z.shiftr x k) 1 =? 0) = Z.testbit x k.
Proof.
  intros Hk. change 1 with (Z.shiftl 1 0). rewrite land_bit_test, Z.shiftr_spec by lia.
  by rewrite Z.add_0_l.
Qed.

Lemma land_mask x : 0 <= x <= BITMAP_MASK -> Z.land x BITMAP_MASK = x.
Proof.
  intros H. change BITMAP_MASK with (Z.ones 63) in *. rewrite Z.land_ones by lia.
  apply Z.mod_small. rewrite Z.ones_equiv in H. lia.
Qed.

Lemma mask_bit m : 0 <= m -> Z.testbit BITMAP_MASK m = (m <? 63).
Proof.
  intros Hm. change BITMAP_MASK with (Z.ones 63). apply Z.testbit_ones_nonneg; lia.
Qed.

(** A bitmap is determined by its bits 0 to 62. *)
Lemma bitmap_eq x y : 0 <= x <= BITMAP_MASK -> 0 <= y <= BITMAP_MASK ->
  (forall i, (i < 63)%nat -> Z.testbit x (Z.of_nat i) = Z.testbit y (Z.of_nat i)) -> x = y.
Proof.
  intros Hx Hy H. rewrite <- (land_mask x Hx), <- (land_mask y Hy).
  apply Z.bits_inj'. intros m Hm. rewrite !Z.land_spec, mask_bit by done.
  destruct (m <? 63) eqn:E; [| by rewrite !andb_false_r]. bool_to_prop.
  by rewrite <- (Z2Nat.id m), H by lia.
Qed.

Lemma trailing_le b w x : (trailing b w x <= w)%nat.
Proof. revert x. induction w; intros x; simpl; [done |]. case_match; [apply le_n_S, IHw | lia]. Qed.

Lemma trailing_bits b w : forall x i, (i < trailing b w x)%nat -> Z.testbit x (Z.of_nat i) = b.
Proof.
  induction w as [|w IH]; intros x i; simpl; [lia |].
  destruct (Bool.eqb (Z.odd x) b) eqn:E; [| lia]. apply eqb_prop in E.
  destruct i as [|i]; intros Hi; [by rewrite Z.bit0_odd |].
  rewrite Nat2Z.inj_succ, <- Z.div2_bits, <- Z.div2_div by lia. apply IH. lia.
Qed.

Lemma trailing_stop b w : forall x, (trailing b w x < w)%nat ->
  Z.testbit x (Z.of_nat (trailing b w x)) = negb b.
Proof.
  induction w as [|w IH]; intros x; simpl; [lia |].
  destruct (Bool.eqb (Z.odd x) b) eqn:E.
  - intros H. rewrite Nat2Z.inj_succ, <- Z.div2_bits, <- Z.div2_div by lia. apply IH. lia.
  - intros _. rewrite Z.bit0_odd. by destruct (Z.odd x), b.
Qed.

Lemma trailing_ones_le x : 0 <= x <= BITMAP_MASK -> (trailing_ones x <= 63)%nat.
Proof.
  intros H. destruct (le_lt_dec (trailing_ones x) 63) as [|Hlt]; [done |].
  apply (trailing_bits true 64 x 63) in Hlt.
  rewrite <- (land_mask x H), Z.land_spec, mask_bit, andb_false_r in Hlt by lia. done.
Qed.

Lemma set_bit_spec out k b j m : (k < length out)%nat -> 0 <= m ->
  Z.testbit (nth j (set_bit out k b) 0) m =
  Z.testbit (nth j out 0) m || ((j =? k)%nat && (m =? Z.of_nat b)).
Proof.
  intros Hk Hm. unfold set_bit. rewrite !nth_lookup.
  destruct (Nat.eqb_spec j k) as [->|Hj].
  - rewrite list_lookup_insert_eq by done. simpl.
    rewrite Z.lor_spec, Z.shiftl_1_l, Z.pow2_bits_eqb by lia. f_equal. apply Z.eqb_sym.
  - rewrite list_lookup_insert_ne by done. by rewrite orb_false_r.
Qed.

Lemma length_set_bit out k b : length (set_bit out k b) = length out.
Proof. apply length_insert. Qed.

(** ** The encoded bitmap *)

Lemma idx_inj i j : byte_idx i = byte_idx j -> bit_idx i = bit_idx j -> i = j.
Proof.
  unfold byte_idx, bit_idx. intros H1 H2.
  destruct (i <? 6)%nat eqn:?, (j <? 6)%nat eqn:?; bool_to_prop; try lia.
  - pose proof (Nat.Div0.div_mod (i - 6) 8). pose proof (Nat.Div0.div_mod (j - 6) 8).
    pose proof (Nat.mod_upper_bound (i - 6) 8 ltac:(lia)).
    pose proof (Nat.mod_upper_bound (j - 6) 8 ltac:(lia)). lia.
Qed.

Lemma byte_idx_lt i n : (i < 6 + n * 8)%nat -> (byte_idx i < 2 + n)%nat.
Proof.
  unfold byte_idx. destruct (i <? 6)%nat eqn:?; bool_to_prop; [lia |]. intros H.
  enough ((i - 6) / 8 < n)%nat by lia. apply Nat.Div0.div_lt_upper_bound. lia.
Qed.

Lemma div_ceil8 n : (n <= div_ceil n 8 * 8 < n + 8)%nat.
Proof.
  unfold div_ceil. simpl (8 - 1)%nat. pose proof (Nat.Div0.div_mod (n + 7) 8).
  pose proof (Nat.mod_upper_bound (n + 7) 8 ltac:(lia)). lia.
Qed.

(** The loops of the ACK writer are one loop over the encoded bits. *)
Definition put_bits (e : nat -> bool) (out : bytes) (l : list nat) : bytes :=
  foldl (fun out i => if e i then set_bit out (byte_idx i) (bit_idx i) else out) out l.

Lemma length_put_bits e l : forall out, length (put_bits e out l) = length out.
Proof.
  induction l as [|i l IH]; intros out; [done |]. simpl. unfold put_bits in *.
  rewrite IH. destruct (e i); [apply length_set_bit | done].
Qed.

Lemma put_bits_app e l1 l2 out : put_bits e out (l1 ++ l2) = put_bits e (put_bits e out l1) l2.
Proof. apply foldl_app. Qed.

Lemma put_bits_ext e e' l out : (forall i, i ∈ l -> e i = e' i) ->
  put_bits e out l = put_bits e' out l.
Proof.
  revert out. induction l as [|i l IH]; intros out H; [done |]. unfold put_bits in *. simpl.
  rewrite (H i) by constructor. apply IH. intros. apply H. by constructor.
Qed.

Lemma put_bits_none e l out : (forall i, i ∈ l -> e i = false) -> put_bits e out l = out.
Proof.
  intros H. rewrite (put_bits_ext e (fun _ => false)) by done. clear H.
  induction l; [done |]. done.
Qed.

Lemma put_bits_rest e l rest : forall out,
  Forall (fun i => byte_idx i < length out)%nat l ->
  put_bits e (out ++ rest) l = put_bits e out l ++ rest.
Proof.
  induction l as [|i l IH]; intros out Hl; [done |]. inversion Hl; subst.
  unfold put_bits in *. simpl. destruct (e i); [| by apply IH].
  unfold set_bit. rewrite app_nth1, insert_app_l by done. apply IH.
  by rewrite length_insert.
Qed.

Lemma put_bits_spec e l : forall out j m, 0 <= m ->
  Forall (fun i => byte_idx i < length out)%nat l ->
  Z.testbit (nth j (put_bits e out l) 0) m =
  Z.testbit (nth j out 0) m ||
  existsb (fun i => e i && (j =? byte_idx i)%nat && (m =? Z.of_nat (bit_idx i))) l.
Proof.
  induction l as [|i l IH]; intros out j m Hm Hl; [by rewrite orb_false_r |].
  inversion Hl; subst. unfold put_bits in *. simpl. destruct (e i).
  - rewrite IH, set_bit_spec by (done || by rewrite length_set_bit). by rewrite orb_assoc.
  - by rewrite IH by done.
Qed.

Lemma put_bits_at e n out i : (i < n)%nat ->
  Forall (fun i => byte_idx i < length out)%nat (seq 0 n) ->
  Z.testbit (nth (byte_idx i) out 0) (Z.of_nat (bit_idx i)) = false ->
  Z.testbit (nth (byte_idx i) (put_bits e out (seq 0 n)) 0) (Z.of_nat (bit_idx i)) = e i.
Proof.
  intros Hi Hl Hz. rewrite put_bits_spec, Hz by (done || lia). cbn [orb].
  apply eq_true_iff_eq. rewrite existsb_exists. split.
  - intros (k & _ & H). bool_to_prop. apply Nat2Z.inj in H0.
    by rewrite (idx_inj i k).
  - intros He. exists i. rewrite He, !Nat.eqb_refl, Z.eqb_refl. split; [| done].
    apply in_seq. lia.
Qed.

(** ** The ACK encoding, in closed form *)

Record ack_ok (a : Ack) : Prop := {
  aok_rule : check_rule a.(ack_rule_id) = Ok tt;
  aok_window : 0 <= a.(ack_window) <= 1;
  aok_bitmap : 0 <= a.(bitmap) <= BITMAP_MASK;
  aok_complete : a.(complete) = true -> a.(bitmap) = 0
}.

Definition ack_len (bm : Z) : nat := WINDOW_SIZE - trailing_ones bm.
Definition ack_body (bm : Z) : nat := div_ceil (ack_len bm - 6) 8.
Definition ack_bit (bm : Z) (i : nat) : bool :=
  if (i <? ack_len bm)%nat then Z.testbit bm (62 - Z.of_nat i) else (0 <? trailing_ones bm)%nat.
Definition ack_wire (a : Ack) : bytes :=
  if a.(complete) then [a.(ack_rule_id); Z.lor (wrap8 (Z.shiftl a.(ack_window) 7)) 64]
  else put_bits (ack_bit a.(bitmap))
         (a.(ack_rule_id) :: wrap8 (Z.shiftl a.(ack_window) 7) :: replicate (ack_body a.(bitmap)) 0)
         (seq 0 (6 + ack_body a.(bitmap) * 8)).

Lemma ack_len_le bm : (ack_len bm <= 63)%nat.
Proof. unfold ack_len, WINDOW_SIZE. lia. Qed.

Lemma ack_body_le bm : (ack_len bm <= 6 + ack_body bm * 8)%nat /\ (ack_body bm <= 8)%nat.
Proof.
  unfold ack_body. pose proof (div_ceil8 (ack_len bm - 6)). pose proof (ack_len_le bm). lia.
Qed.

Lemma ack_wire_length a : length (ack_wire a) =
  if a.(complete) then 2%nat else (2 + ack_body a.(bitmap))%nat.
Proof.
  unfold ack_wire. destruct (complete a); [done |].
  rewrite length_put_bits. simpl. by rewrite length_replicate.
Qed.

Lemma enc_in_range bm (out : bytes) :
  length out = (2 + ack_body bm)%nat ->
  Forall (fun i => byte_idx i < length out)%nat (seq 0 (6 + ack_body bm * 8)).
Proof.
  intros ->. apply Forall_forall. intros i Hi. apply elem_of_seq in Hi.
  apply byte_idx_lt. lia.
Qed.

(** The three loops of [Ack::write_to]. *)
Lemma ack_loops bm out :
  0 <= bm <= BITMAP_MASK ->
  let tr := trailing_ones bm in let n := ack_len bm in
  let out1 := foldl (fun out i =>
    if negb (Z.land bm (Z.shiftl 1 (62 - Z.of_nat i)) =? 0)
    then set_bit out 1 (5 - i) else out) out (seq 0 (Nat.min n 6)) in
  let out2 := foldl (fun out i =>
    if negb (Z.land bm (Z.shiftl 1 (56 - Z.of_nat i)) =? 0)
    then set_bit out (2 + i / 8) (7 - i mod 8) else out) out1 (seq 0 (n - 6)) in
  (if (0 <? tr)%nat then
     foldl (fun out i => set_bit out (byte_idx i) (bit_idx i)) out2
       (seq n (6 + ack_body bm * 8 - n))
   else out2) = put_bits (ack_bit bm) out (seq 0 (6 + ack_body bm * 8)).
Proof.
  intros Hb tr n out1 out2. pose proof (ack_len_le bm) as Hn.
  pose proof (ack_body_le bm) as [Hb1 Hb2]. fold n in Hn, Hb1.
  assert (out1 = put_bits (ack_bit bm) out (seq 0 (Nat.min n 6))) as E1.
  { apply foldl_ext_in; intros o i Hi. apply elem_of_seq in Hi.
    rewrite land_bit_test by lia. unfold ack_bit, byte_idx, bit_idx. fold n.
    rewrite (proj2 (Nat.ltb_lt i n)), (proj2 (Nat.ltb_lt i 6)) by lia. done. }
  assert (out2 = put_bits (ack_bit bm) out1 (seq 6 (n - 6))) as E2.
  { unfold out2, put_bits. rewrite <- (Nat.add_0_r 6) at 2.
    rewrite <- fmap_add_seq, foldl_map. apply foldl_ext_in; intros o i Hi.
    apply elem_of_seq in Hi. rewrite land_bit_test by lia. unfold ack_bit, byte_idx, bit_idx. fold n.
    rewrite (proj2 (Nat.ltb_lt (6 + i) n)), (proj2 (Nat.ltb_ge (6 + i) 6)) by lia.
    replace (6 + i - 6)%nat with i by lia.
    replace (62 - Z.of_nat (6 + i)) with (56 - Z.of_nat i) by lia. done. }
  assert (out2 = put_bits (ack_bit bm) out (seq 0 n)) as ->.
  { rewrite E2, E1, <- put_bits_app. f_equal. destruct (le_lt_dec n 6).
    - rewrite Nat.min_l by lia. replace (n - 6)%nat with 0%nat by lia. by rewrite app_nil_r.
    - rewrite Nat.min_r by lia. rewrite <- seq_app. f_equal. lia. }
  replace (seq 0 (6 + ack_body bm * 8)) with (seq 0 n ++ seq n (6 + ack_body bm * 8 - n))
    by (rewrite <- seq_app; f_equal; lia).
  rewrite put_bits_app. destruct (0 <? tr)%nat eqn:E.
  - apply foldl_ext_in; intros o i Hi. apply elem_of_seq in Hi.
    unfold ack_bit. fold n tr. by rewrite (proj2 (Nat.ltb_ge i n)), E by lia.
  - symmetry. apply put_bits_none. intros i Hi. apply elem_of_seq in Hi.
    unfold ack_bit. fold n tr. by rewrite (proj2 (Nat.ltb_ge i n)), E by lia.
Qed.

Lemma write_to_ack_wire a out : ack_ok a -> (length (ack_wire a) <= length out)%nat ->
  ack_write_to a out = (Ok (length (ack_wire a)), ack_wire a ++ drop (length (ack_wire a)) out).
Proof.
  intros [Hr Hw Hb Hc] Hl. rewrite ack_wire_length in *. unfold ack_write_to, ack_wire.
  rewrite Hr, (proj2 (Z.ltb_ge 1 (ack_window a))) by lia.
  destruct (complete a).
  - rewrite Hc, Z.eqb_refl by done. cbn [negb].
    rewrite (proj2 (Nat.ltb_ge _ _)) by lia.
    destruct out as [|x [|y out]]; simpl in Hl; [lia | lia | done].
  - rewrite land_mask by done. fold (ack_len (bitmap a)). fold (ack_body (bitmap a)).
    rewrite (proj2 (Nat.ltb_ge _ _)) by lia. rewrite ack_loops by done.
    rewrite inserts_front by (rewrite length_replicate; lia).
    rewrite length_replicate. cbn [replicate Nat.add app]. cbn [insert list_insert].
    f_equal. rewrite <- put_bits_rest; [done |].
    apply enc_in_range. simpl. by rewrite length_replicate.
Qed.

(** ** Reading the bitmap back *)

Lemma land_mask_bound x : 0 <= Z.land x BITMAP_MASK <= BITMAP_MASK.
Proof.
  change BITMAP_MASK with (Z.ones 63). rewrite Z.land_ones by lia.
  pose proof (Z.mod_pos_bound x (2 ^ 63) ltac:(lia)). rewrite Z.ones_equiv. lia.
Qed.

Lemma fold_bits (e : nat -> bool) k : (k <= 63)%nat -> forall i, (i < 63)%nat ->
  Z.testbit (foldl (fun bm i => if e i then Z.lor bm (Z.shiftl 1 (62 - Z.of_nat i)) else bm)
    0 (seq 0 k)) (62 - Z.of_nat i) = (i <? k)%nat && e i.
Proof.
  intros Hk i Hi. induction k as [|k IH]; [apply Z.bits_0 |].
  rewrite seq_S, foldl_app. cbn [foldl Nat.add]. specialize (IH ltac:(lia)).
  assert ((i <? S k)%nat = (i <? k)%nat || (i =? k)%nat) as ->.
  { apply eq_true_iff_eq. rewrite orb_true_iff, !Nat.ltb_lt, Nat.eqb_eq. lia. }
  destruct (e k) eqn:Ek.
  - rewrite Z.lor_spec, IH, Z.shiftl_1_l, Z.pow2_bits_eqb by lia.
    destruct (Nat.eqb_spec i k) as [->|Hne].
    + by rewrite Z.eqb_refl, Ek, !orb_true_r.
    + rewrite (proj2 (Z.eqb_neq _ _)) by lia. by rewrite !orb_false_r.
  - rewrite IH. destruct (Nat.eqb_spec i k) as [->|Hne]; [| by rewrite orb_false_r].
    by rewrite Ek, !andb_false_r.
Qed.

(** The bits the decoder rebuilds, elided ones included, are those encoded. *)
Lemma decode_bitmap bm data :
  0 <= bm <= BITMAP_MASK ->
  (forall i, (i < 6 + ack_body bm * 8)%nat ->
     Z.testbit (nth (byte_idx i) data 0) (Z.of_nat (bit_idx i)) = ack_bit bm i) ->
  let total_bits := (6 + ack_body bm * 8)%nat in
  let bm' := foldl (fun bm i =>
    let val := Z.land (Z.shiftr (nth (byte_idx i) data 0) (Z.of_nat (bit_idx i))) 1 in
    if negb (val =? 0) then Z.lor bm (Z.shiftl 1 (62 - Z.of_nat i)) else bm)
    0 (seq 0 (Nat.min total_bits 63)) in
  Z.land (if (total_bits <? 63)%nat
          then Z.lor bm' (Z.shiftl 1 (63 - Z.of_nat total_bits) - 1) else bm') BITMAP_MASK = bm.
Proof.
  intros Hb Hd total bm'. apply bitmap_eq; [apply land_mask_bound | done |]. intros m Hm.
  set (i := (62 - m)%nat). replace (Z.of_nat m) with (62 - Z.of_nat i) by lia.
  pose proof (ack_body_le bm) as [Hle _].
  assert (Z.testbit bm' (62 - Z.of_nat i) = (i <? total)%nat && ack_bit bm i) as Hbm.
  { unfold bm'. erewrite foldl_ext_in
      by (intros; cbv zeta; rewrite shiftr_bit by lia; reflexivity).
    rewrite (fold_bits (fun i => Z.testbit (nth (byte_idx i) data 0) (Z.of_nat (bit_idx i))))
      by lia.
    destruct (i <? total)%nat eqn:E; bool_to_prop.
    - rewrite (proj2 (Nat.ltb_lt _ _)), Hd by lia. done.
    - rewrite (proj2 (Nat.ltb_ge _ _)) by lia. done. }
  assert (ack_bit bm i = Z.testbit bm (62 - Z.of_nat i)) as Hbit.
  { unfold ack_bit. destruct (i <? ack_len bm)%nat eqn:E; [done |]. bool_to_prop.
    unfold ack_len, WINDOW_SIZE in E. rewrite (proj2 (Nat.ltb_lt _ _)) by lia.
    replace (62 - Z.of_nat i) with (Z.of_nat (62 - i)) by lia.
    symmetry. apply (trailing_bits true 64). fold (trailing_ones bm). lia. }
  rewrite Z.land_spec, mask_bit, (proj2 (Z.ltb_lt _ _)), andb_true_r by lia.
  destruct (total <? 63)%nat eqn:E; bool_to_prop; rewrite ?Z.lor_spec, Hbm, Hbit.
  - replace (Z.shiftl 1 (63 - Z.of_nat total) - 1) with (Z.ones (63 - Z.of_nat total)) by done.
    rewrite Z.testbit_ones_nonneg by lia.
    destruct (i <? total)%nat eqn:Ei; bool_to_prop.
    + rewrite (proj2 (Z.ltb_ge _ _)) by lia. apply orb_false_r.
    + rewrite (proj2 (Z.ltb_lt _ _)) by lia. rewrite <- Hbit. unfold ack_bit.
      rewrite (proj2 (Nat.ltb_ge _ _)) by lia. unfold ack_len, WINDOW_SIZE in Hle.
      by rewrite (proj2 (Nat.ltb_lt _ _)) by lia.
  - by rewrite (proj2 (Nat.ltb_lt _ _)) by lia.
Qed.

Lemma shiftr_land1 x k : 0 <= k -> Z.land (Z.shiftr x k) 1 = Z.b2z (Z.testbit x k).
Proof.
  intros Hk. change 1 with (2 ^ 1 - 1). rewrite bit_field, Z.testbit_spec' by lia. done.
Qed.

Lemma window_bit w m : 0 <= w <= 1 -> 0 <= m ->
  Z.testbit (wrap8 (Z.shiftl w 7)) m = (m =? 7) && (w =? 1).
Proof.
  intros Hw Hm. assert (w = 0 \/ w = 1) as [-> | ->] by lia.
  - by rewrite Z.bits_0, andb_false_r.
  - change (wrap8 (Z.shiftl 1 7)) with (2 ^ 7). rewrite Z.pow2_bits_eqb, Z.eqb_sym by lia.
    by rewrite andb_true_r.
Qed.

Lemma ack_wire_init_bit a i :
  ack_ok a -> (i < 6 + ack_body a.(bitmap) * 8)%nat ->
  Z.testbit (nth (byte_idx i)
    (a.(ack_rule_id) :: wrap8 (Z.shiftl a.(ack_window) 7) :: replicate (ack_body a.(bitmap)) 0) 0)
    (Z.of_nat (bit_idx i)) = false.
Proof.
  intros H Hi. unfold byte_idx, bit_idx. destruct (i <? 6)%nat eqn:E; bool_to_prop.
  - cbn [nth]. rewrite window_bit by (apply H || lia). by rewrite (proj2 (Z.eqb_neq _ _)) by lia.
  - change (nth (2 + ?k) (_ :: _ :: ?l) 0) with (nth k l 0). rewrite nth_lookup. destruct (replicate _ 0 !! _) as [z|] eqn:L; [| apply Z.bits_0].
    apply lookup_replicate in L as [-> _]. apply Z.bits_0.
Qed.

Lemma ack_wire_high a m : ack_ok a -> a.(complete) = false -> 6 <= m ->
  Z.testbit (nth 1 (ack_wire a) 0) m = (m =? 7) && (a.(ack_window) =? 1).
Proof.
  intros H Hc Hm. unfold ack_wire. rewrite Hc, put_bits_spec; [| lia | ].
  - cbn [nth]. rewrite window_bit by (apply H || lia).
    destruct (existsb _ _) eqn:E; [exfalso | by rewrite orb_false_r].
    apply existsb_exists in E as (i & _ & E). bool_to_prop.
    unfold byte_idx, bit_idx in *. destruct (i <? 6)%nat eqn:?; bool_to_prop; lia.
  - apply enc_in_range. simpl. by rewrite length_replicate.
Qed.

Lemma put_bits_front e l x out : nth 0 (put_bits e (x :: out) l) 0 = x.
Proof.
  revert out. induction l as [|i l IH]; intros out; [done |]. unfold put_bits in *. simpl.
  destruct (e i); [| apply IH]. unfold set_bit.
  assert (exists k, byte_idx i = S k) as [k ->].
  { unfold byte_idx. destruct (i <? 6)%nat; eexists; simpl; reflexivity. }
  apply IH.
Qed.

Lemma ack_eta a : {| ack_rule_id := ack_rule_id a; ack_window := ack_window a;
                     bitmap := bitmap a; complete := complete a |} = a.
Proof. by destruct a. Qed.

Lemma ack_canonical a k : ack_ok a -> (length (ack_wire a) <= k)%nat ->
  ack_write_to a (replicate k 0) =
  (Ok (length (ack_wire a)), ack_wire a ++ drop (length (ack_wire a)) (replicate k 0)).
Proof. intros H Hk. apply write_to_ack_wire; [done |]. by rewrite length_replicate. Qed.

(** The assigned bits an incomplete ACK is checked against. *)
Definition ack_assigned (a : Ack) (assigned : option Z) : Prop :=
  match assigned with
  | Some mask => a.(complete) = true \/ Z.land (Z.ldiff a.(bitmap) mask) BITMAP_MASK = 0
  | None => True
  end.

Lemma from_ack_wire_incomplete a assigned :
  ack_ok a -> a.(complete) = false -> ack_assigned a assigned ->
  ack_from_bytes_for (ack_wire a) assigned = Ok a.
Proof.
  intros H Hc Has. pose proof (ack_wire_length a) as Hl. rewrite Hc in Hl.
  pose proof (ack_body_le (bitmap a)) as [_ Hbd]. pose proof (aok_bitmap a H) as Hb.
  unfold ack_from_bytes_for.
  rewrite (proj2 (Nat.ltb_ge (length (ack_wire a)) 2)),
    (proj2 (Nat.ltb_ge 10 (length (ack_wire a)))) by lia.
  replace (nth 0 (ack_wire a) 0) with (ack_rule_id a)
    by (symmetry; unfold ack_wire; rewrite Hc; apply put_bits_front).
  rewrite (land_bit_test _ 6), ack_wire_high by (done || lia). cbn [Z.eqb Pos.eqb andb negb].
  rewrite shiftr_land1, ack_wire_high by (done || lia). cbn [Z.eqb Pos.eqb andb].
  replace (Z.b2z (ack_window a =? 1)) with (ack_window a)
    by (pose proof (aok_window a H); destruct (ack_window a =? 1) eqn:?; bool_to_prop; simpl; lia).
  rewrite Hl. replace (2 + ack_body (bitmap a) - 2)%nat with (ack_body (bitmap a)) by lia.
  pose proof (decode_bitmap (bitmap a) (ack_wire a) Hb) as Hd. cbv zeta in Hd |- *.
  rewrite Hd; clear Hd.
  2:{ intros i Hi. unfold ack_wire. rewrite Hc. apply put_bits_at; [done | |].
      - apply enc_in_range. simpl. by rewrite length_replicate.
      - by apply ack_wire_init_bit. }
  rewrite land_mask by done. fold (ack_len (bitmap a)). fold (ack_body (bitmap a)).
  rewrite (proj2 (Nat.ltb_ge _ _)) by apply ack_len_le. rewrite Nat.eqb_refl. cbn [negb].
  unfold ack_new. rewrite land_mask by done. rewrite <- Hc, ack_eta, ack_canonical by (done || lia).
  cbn [mbind result_bind]. rewrite take_app_length, bool_decide_eq_true_2 by done. cbn [negb].
  destruct assigned as [mask|]; [| by rewrite Hc]. destruct Has as [? | ->]; [congruence | done].
Qed.

Lemma from_ack_wire a assigned :
  ack_ok a -> ack_assigned a assigned -> ack_from_bytes_for (ack_wire a) assigned = Ok a.
Proof.
  intros H Has. destruct (complete a) eqn:Hc; [| by apply from_ack_wire_incomplete].
  destruct H as [Hr Hw Hb H0]. specialize (H0 Hc). destruct a as [r w b c]; simpl in *. subst b c.
  apply check_rule_ok in Hr.
  assert (w = 0 \/ w = 1) as [-> | ->] by lia; destruct Hr as [-> | ->]; reflexivity.
Qed.

(** An ACK of a window (any bitmap of 63 bits, compressed by eliding its
    trailing ones to the octet) or a completion ACK is written in at most ten
    octets, and [from_bytes_for] reads the same ACK back, provided the bits set
    are assigned ones. *)
Lemma ack_roundtrip a out assigned :
  ack_ok a -> ack_assigned a assigned -> (10 <= length out)%nat ->
  exists n out', ack_write_to a out = (Ok n, out') /\ (n <= 10)%nat /\
    ack_from_bytes_for (take n out') assigned = Ok a.
Proof.
  intros H Has Hl. pose proof (ack_wire_length a) as Hwl.
  pose proof (ack_body_le (bitmap a)) as [_ Hb].
  assert (length (ack_wire a) <= 10)%nat by (rewrite Hwl; destruct (complete a); lia).
  exists (length (ack_wire a)), (ack_wire a ++ drop (length (ack_wire a)) out).
  split; [apply write_to_ack_wire; [done | lia] |]. split; [done |].
  rewrite take_app_length. by apply from_ack_wire.
Qed.

Definition demo_ack : Ack :=
  {| ack_rule_id := 121; ack_window := 1; bitmap := BITMAP_MASK - Z.shiftl 1 40; complete := false |}.


(** ** Tile size *)

Lemma checked_sum_some (a b c d e s : Z) :
  (bits ← checked_add u64_max a b; bits ← checked_add u64_max bits c;
   bits ← checked_add u64_max bits d; checked_add u64_max bits e) = Some s ->
  s = a + b + c + d + e /\ s <= u64_max.
Proof.
  intros H. repeat (apply bind_Some in H as (? & Hx & H); apply checked_add_some in Hx as [-> _]).
  by apply checked_add_some in H.
Qed.

(** The capacity is the largest number of whole octets that fit the MTU behind
    the header bits. *)
Lemma fragment_payload_capacity_spec mtu r d w f rcs n :
  0 <= mtu -> fragment_payload_capacity mtu r d w f rcs = Ok n ->
  1 <= n /\ r + d + w + f + rcs + 8 * n <= 8 * mtu < r + d + w + f + rcs + 8 * (n + 1).
Proof.
  intros Hm. unfold fragment_payload_capacity. destruct (mtu =? 0); [done |].
  destruct (checked_add _ _ _ ≫= _) as [s|] eqn:Hs; [| done].
  apply checked_sum_some in Hs as [-> _]. cbn [ok_or mbind result_bind].
  unfold checked_mul. destruct (_ <=? u64_max); [| done]. cbn [ok_or mbind result_bind].
  unfold checked_sub. destruct (_ <=? _) eqn:Hle; [| done]. cbn [ok_or mbind result_bind].
  bool_to_prop. destruct (_ =? 0) eqn:E; [done |]. bool_to_prop. intros [= <-].
  pose proof (Z.div_mod (mtu * 8 - (r + d + w + f + rcs)) 8 ltac:(lia)).
  pose proof (Z.mod_pos_bound (mtu * 8 - (r + d + w + f + rcs)) 8 ltac:(lia)). lia.
Qed.

(** A tile size derived from an MTU is the largest one whose All-1
    fragment, with its check sequence, still fits the MTU; a regular fragment
    then fits too.  The fixed profile's tile is the one its envelope MTU
    gives. *)
Lemma tile_size_maximal mtu r d w f rcs t :
  0 <= mtu -> 0 <= rcs -> tile_size_for_mtu mtu r d w f rcs = Ok t ->
  1 <= t /\ r + d + w + f + rcs + 8 * t <= 8 * mtu < r + d + w + f + rcs + 8 * (t + 1) /\
  r + d + w + f + 8 * t <= 8 * mtu /\
  tile_size_for_mtu FRAGMENT_ENVELOPE_MTU FRAGMENT_RULE_ID_BITS FRAGMENT_T FRAGMENT_M FRAGMENT_N
    (8 * Z.of_nat MIC_LENGTH) = Ok (Z.of_nat TILE_SIZE).
Proof.
  intros Hm Hr H. unfold tile_size_for_mtu in H.
  apply bind_ok in H as (n1 & H1 & H). apply bind_ok in H as (n2 & H2 & H). injection H as <-.
  apply fragment_payload_capacity_spec in H1, H2; [| done | done].
  split; [lia |]. split; [lia |]. split; [lia | reflexivity].
Qed.

(** ** Fragments and control messages never collide *)

Lemma is_control_spec data c : forall n out,
  control_write_to c (replicate 3 0) = (Ok n, out) ->
  is_control data c = Ok (bool_decide (data = take n out)).
Proof. intros n out H. unfold is_control. by rewrite H. Qed.

Lemma is_control_len data c b : is_control data c = Ok b -> (3 < length data)%nat -> b = false.
Proof.
  unfold is_control. destruct (control_write_to c _) as [[n|] out] eqn:E; [| done].
  intros H Hl. injection H as <-. apply bool_decide_eq_false_2. intros ->.
  assert (length out = 3%nat) as Ho.
  { revert E. unfold control_write_to. repeat case_match; intros [= _ <-];
      rewrite ?length_insert; done. }
  rewrite length_take in Hl. lia.
Qed.

Lemma is_control_some data c r : check_rule r = Ok tt ->
  (c = SenderAbort r \/ c = ReceiverAbort r \/ exists w, c = AckRequest r w /\ w <= 1) ->
  exists b, is_control data c = Ok b.
Proof.
  intros Hr Hc. unfold is_control, control_write_to.
  destruct Hc as [-> | [-> | (w & -> & Hw)]]; rewrite ?(proj2 (Z.leb_le w 1)) by lia; rewrite Hr;
    eexists; reflexivity.
Qed.

Lemma all1_not_ack f : fragment_ok f -> is_ok (ack_from_bytes (wire f)) = false.
Proof.
  intros H. pose proof (frag_wire_length f H) as Hl. destruct (wire_second f H) as (t & r & Ht & Hs).
  pose proof (guards_inv f (fok_guards f H)) as (_ & _ & _ & Hg). rewrite TILE_SIZE_val in Hg.
  unfold MIC_LENGTH in Hl. unfold ack_from_bytes, ack_from_bytes_for.
  destruct (_ <? 2)%nat eqn:?; [done |]. destruct (10 <? _)%nat eqn:?; [done |]. bool_to_prop.
  destruct (is_all_1 f) eqn:Ea; [| lia].
  replace (nth 1 (wire f) 0) with (Z.lor (header f) t) by (unfold wire; by rewrite Hs).
  change (Z.land (Z.lor (header f) t) 64) with (Z.land (Z.lor (header f) t) (Z.shiftl 1 6)).
  rewrite land_bit_test, header_val by (done || lia).
  replace (fcn f) with 63 by (unfold is_all_1 in Ea; by apply Z.eqb_eq in Ea).
  assert (Z.testbit (window f * 128 + 63 * 2 + t) 6 = true) as ->.
  { apply Z.testbit_true; [lia |]. change (2 ^ 6) with 64. pose proof (fok_window f H).
    Z.to_euclidean_division_equations. lia. }
  rewrite (proj2 (Nat.eqb_neq _ _)) by lia. done.
Qed.

Lemma wire_is_no_control f : fragment_ok f ->
  is_sender_facing_control (wire f) f.(rule_id) = Ok false /\
  is_control (wire f) (SenderAbort f.(rule_id)) = Ok false /\
  is_control (wire f) (AckRequest f.(rule_id) (Z.shiftr (nth 1 (wire f) 0) 7)) = Ok false.
Proof.
  intros H. pose proof (guards_inv f (fok_guards f H)) as (Hr & _ & _ & Hg).
  pose proof (frag_wire_length f H) as Hl. unfold MIC_LENGTH in Hl. rewrite TILE_SIZE_val in Hg.
  assert (3 < length (wire f))%nat as H3 by (destruct (is_all_1 f); lia).
  assert (Z.shiftr (nth 1 (wire f) 0) 7 <= 1) as Hw.
  { destruct (wire_second f H) as (t & r & Ht & Hs). unfold wire. rewrite Hs. cbn [nth].
    rewrite header_val, Z.shiftr_div_pow2 by (done || lia). change (2 ^ 7) with 128.
    pose proof (guards_inv f (fok_guards f H)) as (_ & ? & ? & _).
    Z.to_euclidean_division_equations. lia. }
  destruct (is_control_some (wire f) (ReceiverAbort (rule_id f)) _ Hr) as [b1 E1]; [auto |].
  destruct (is_control_some (wire f) (SenderAbort (rule_id f)) _ Hr) as [b2 E2]; [auto |].
  destruct (is_control_some (wire f) (AckRequest (rule_id f) (Z.shiftr (nth 1 (wire f) 0) 7)) _ Hr)
    as [b3 E3]; [eauto |].
  unfold is_sender_facing_control. rewrite E1, E2, E3. cbn [mbind result_bind].
  apply is_control_len in E1 as ->; [| done]. apply is_control_len in E2 as ->; [| done].
  apply is_control_len in E3 as ->; [| done]. by rewrite (all1_not_ack f H).
Qed.

End Frag.
