(* ===== verification/FragSession.v ===== *)
(** * SCHC fragmentation: sender and receiver

    lichen-schc/src/fragment.rs: [FragmentSender] (tiling, ACK handling,
    retransmission, ACK requests) and [FragmentReceiver] (reassembly, bitmap,
    check of the All-1, ACKs and aborts), the parts that do not consult the
    peer policy.  An operation of the receiver that may index its buffer out of
    range returns an [option]: [None] is the panic.  Of the sender's policy
    back-reference only the reservation flag is kept. *)

From S2P Require Import Prelude FragCodec.
Import Frag.

Module FragSession.

(** A peer's revocable permit; issued by the policy. *)
Record Permit := {
  p_owner : Z;
  p_slot : Z;
  p_generation : Z;
  p_key_generation : Z;
  p_durable_key_generation : bytes;
  p_signer : bytes
}.

Inductive SenderStatus := Ready | Active | Succeeded | Aborted.

Inductive SenderOutput :=
  | OutNone
  | OutSuccess
  | OutAbort (written : bool)
  | OutRetransmit (window missing position : Z) (request : bool)
  | OutAckRequest (written : bool).

Record FragmentSender := {
  s_payload : bytes;
  s_rule_id : Z;
  count : nat;
  s_mic : bytes;
  s_attempts : Z;
  status : SenderStatus;
  remote_signer : bytes;
  s_permit : Permit;
  ack_high_counter : option Z;
  retransmit_at_ms : option Z;
  last_timer_ms : Z;
  s_session_id : Z;
  reservation_active : bool
}.

#[export] Instance Permit_eq_dec : EqDecision Permit.
Proof. solve_decision. Defined.
#[export] Instance SenderStatus_eq_dec : EqDecision SenderStatus.
Proof. solve_decision. Defined.
#[export] Instance SenderOutput_eq_dec : EqDecision SenderOutput.
Proof. solve_decision. Defined.

(** The three fields the protocol transitions write. *)
Definition s_update (s : FragmentSender) (att : Z) (st : SenderStatus) (at_ms : option Z) :
    FragmentSender :=
  {| s_payload := s.(s_payload); s_rule_id := s.(s_rule_id); count := s.(count);
     s_mic := s.(s_mic); s_attempts := att; status := st;
     remote_signer := s.(remote_signer); s_permit := s.(s_permit);
     ack_high_counter := s.(ack_high_counter); retransmit_at_ms := at_ms;
     last_timer_ms := s.(last_timer_ms); s_session_id := s.(s_session_id);
     reservation_active := s.(reservation_active) |}.

(** The fields of the authenticated layer. *)
Definition s_session (s : FragmentSender) (high : option Z) (at_ms : option Z) (last id : Z)
    (active : bool) : FragmentSender :=
  {| s_payload := s.(s_payload); s_rule_id := s.(s_rule_id); count := s.(count);
     s_mic := s.(s_mic); s_attempts := s.(s_attempts); status := s.(status);
     remote_signer := s.(remote_signer); s_permit := s.(s_permit);
     ack_high_counter := high; retransmit_at_ms := at_ms;
     last_timer_ms := last; s_session_id := id; reservation_active := active |}.

Definition new_unchecked (payload : bytes) (rule_id : Z) (receiver_limit : nat) (permit : Permit) :
    result FragmentError FragmentSender :=
  check_rule rule_id ≫= fun _ =>
  if negb ((1 <=? receiver_limit) && (receiver_limit <=? MAX_PACKET_SIZE))%nat
  then Err InvalidReceiverLimit
  else if bool_decide (payload = []) then Err EmptyPacket
  else if (MAX_PACKET_SIZE <? length payload)%nat then Err PacketTooLarge
  else if (receiver_limit <? length payload)%nat then Err PacketTooLarge
  else Ok {| s_payload := payload; s_rule_id := rule_id;
             count := div_ceil (length payload) TILE_SIZE;
             s_mic := compute_mic payload; s_attempts := 0; status := Ready;
             remote_signer := permit.(p_signer); s_permit := permit;
             ack_high_counter := None; retransmit_at_ms := None; last_timer_ms := 0;
             s_session_id := 0; reservation_active := false |}.

(** The raw codec's permit. *)
Definition raw_permit : Permit :=
  {| p_owner := 0; p_slot := 0; p_generation := 0; p_key_generation := 0;
     p_durable_key_generation := replicate 16 0; p_signer := replicate 32 0 |}.

Definition new_raw (payload : bytes) (rule_id : Z) (receiver_limit : nat) :
    result FragmentError FragmentSender :=
  new_unchecked payload rule_id receiver_limit raw_permit.

Definition final_window (s : FragmentSender) : Z :=
  wrap8 (Z.of_nat ((s.(count) - 1) / WINDOW_SIZE)).

Definition window_count (s : FragmentSender) : Z := final_window s + 1.

Definition start_inner (s : FragmentSender) : result FragmentError FragmentSender :=
  if negb (bool_decide (s.(status) = Ready)) then Err InvalidState
  else Ok (s_update s 1 Active s.(retransmit_at_ms)).

Definition get_fragment_inner (s : FragmentSender) (index : nat) : option Fragment :=
  if (s.(count) <=? index)%nat then None
  else
    let final_fragment := (index + 1 =? s.(count))%nat in
    let start := (index * TILE_SIZE)%nat in
    let fin := Nat.min (start + TILE_SIZE) (length s.(s_payload)) in
    Some {| rule_id := s.(s_rule_id);
            window := wrap8 (Z.of_nat (index / WINDOW_SIZE));
            fcn := if final_fragment then ALL_1_FCN
                   else 62 - wrap8 (Z.of_nat (index mod WINDOW_SIZE));
            payload := slice start fin s.(s_payload);
            mic := if final_fragment then s.(s_mic) else no_mic |}.

(** [iter_inner().collect()]: the iterator stops at the first index out of
    range, which is [count]. *)
Definition iter_inner (s : FragmentSender) : list Fragment :=
  omap (get_fragment_inner s) (seq 0 s.(count)).

Definition fragment_bit (f : Fragment) : Z :=
  if is_all_1 f then 1 else Z.shiftl 1 f.(fcn).

Definition assigned_bitmap_inner (s : FragmentSender) (w : Z) : Z :=
  foldl (fun bm f => Z.lor bm (fragment_bit f)) 0
        (filter (fun f => f.(window) = w) (iter_inner s)).

Definition fragment_at_position (s : FragmentSender) (w position : Z) : option Fragment :=
  List.find (fun f =>
    (f.(window) =? w) &&
    (if is_all_1 f then position =? 62 else position =? 62 - f.(fcn))) (iter_inner s).

Definition abort_output (s : FragmentSender) : SenderOutput * FragmentSender :=
  (OutAbort false, s_update s s.(s_attempts) Aborted None).

Definition handle_ack_inner (s : FragmentSender) (a : Ack) : SenderOutput * FragmentSender :=
  if negb (bool_decide (s.(status) = Active)) || negb (a.(ack_rule_id) =? s.(s_rule_id))
  then (OutNone, s)
  else if a.(complete) then
    if negb (a.(ack_window) =? final_window s) then (OutNone, s)
    else (OutSuccess, s_update s s.(s_attempts) Succeeded None)
  else if final_window s <? a.(ack_window) then (OutNone, s)
  else
    let assigned := assigned_bitmap_inner s a.(ack_window) in
    if negb (Z.land (Z.ldiff a.(bitmap) assigned) BITMAP_MASK =? 0) then (OutNone, s)
    else
      let missing := Z.ldiff assigned a.(bitmap) in
      if missing =? 0 then
        if a.(ack_window) =? final_window s then abort_output s else (OutNone, s)
      else if MAX_ACK_REQUESTS <=? s.(s_attempts) then abort_output s
      else
        let s := s_update s (s.(s_attempts) + 1) s.(status) s.(retransmit_at_ms) in
        let all1_missing := (a.(ack_window) =? final_window s) && negb (Z.land missing 1 =? 0) in
        (OutRetransmit a.(ack_window) missing 0 (negb all1_missing), s).

Definition handle_ack_bytes_inner (s : FragmentSender) (data : bytes) :
    result FragmentError SenderOutput * FragmentSender :=
  if negb (bool_decide (s.(status) = Active))
     || negb (bool_decide (head data = Some s.(s_rule_id))) then (Ok OutNone, s)
  else
    match is_control data (ReceiverAbort s.(s_rule_id)) with
    | Err e => (Err e, s)
    | Ok true => (Ok OutNone, s_update s s.(s_attempts) Aborted None)
    | Ok false =>
        match ack_from_bytes data with
        | Err e => (Err e, s)
        | Ok ack =>
            if ack.(complete) then let '(o, s) := handle_ack_inner s ack in (Ok o, s)
            else if final_window s <? ack.(ack_window) then (Ok OutNone, s)
            else
              match ack_from_bytes_for data (Some (assigned_bitmap_inner s ack.(ack_window))) with
              | Err e => (Err e, s)
              | Ok ack => let '(o, s) := handle_ack_inner s ack in (Ok o, s)
              end
        end
    end.

Definition validate_authenticated_control (s : FragmentSender) (data : bytes) :
    result FragmentError unit :=
  if negb (bool_decide (s.(status) = Active))
     || negb (bool_decide (head data = Some s.(s_rule_id))) then Err MalformedAck
  else
    is_control data (ReceiverAbort s.(s_rule_id)) ≫= fun b : bool =>
    if b then Ok tt
    else
      ack_from_bytes data ≫= fun ack =>
      if ack.(complete) then
        if ack.(ack_window) =? final_window s then Ok tt else Err MalformedAck
      else if final_window s <? ack.(ack_window) then Err MalformedAck
      else ack_from_bytes_for data (Some (assigned_bitmap_inner s ack.(ack_window))) ≫= fun _ => Ok tt.

Definition timeout_inner (s : FragmentSender) : result FragmentError SenderOutput * FragmentSender :=
  if negb (bool_decide (s.(status) = Active)) then (Err InvalidState, s)
  else if MAX_ACK_REQUESTS <=? s.(s_attempts) then
    let '(o, s) := abort_output s in (Ok o, s)
  else (Ok (OutAckRequest false), s_update s (s.(s_attempts) + 1) s.(status) s.(retransmit_at_ms)).

(** The [while current < WINDOW_SIZE] loop of [write_next_inner]: the next
    missing position that has a fragment. *)
Fixpoint next_missing (s : FragmentSender) (w missing current : Z) (fuel : nat) :
    option (Z * Fragment) :=
  match fuel with
  | O => None
  | S fuel =>
      if Z.land missing (Z.shiftl 1 (62 - current)) =? 0
      then next_missing s w missing (current + 1) fuel
      else match fragment_at_position s w current with
           | Some f => Some (current, f)
           | None => next_missing s w missing (current + 1) fuel
           end
  end.

Definition write_next_inner (s : FragmentSender) (output : SenderOutput) (out : bytes) :
    result FragmentError (option nat) * SenderOutput * bytes :=
  match output with
  | OutNone | OutSuccess => (Ok None, output, out)
  | OutAbort written =>
      if written then (Ok None, output, out)
      else match control_write_to (SenderAbort s.(s_rule_id)) out with
           | (Err e, out) => (Err e, output, out)
           | (Ok n, out) => (Ok (Some n), OutAbort true, out)
           end
  | OutAckRequest written =>
      if negb (bool_decide (s.(status) = Active)) || written then (Ok None, output, out)
      else match control_write_to (AckRequest s.(s_rule_id) (final_window s)) out with
           | (Err e, out) => (Err e, output, out)
           | (Ok n, out) => (Ok (Some n), OutAckRequest true, out)
           end
  | OutRetransmit w missing position request =>
      if negb (bool_decide (s.(status) = Active)) then (Ok None, output, out)
      else
        match next_missing s w missing position (WINDOW_SIZE - Z.to_nat position) with
        | Some (current, f) =>
            match fragment_write_to f out with
            | (Err e, out) => (Err e, output, out)
            | (Ok n, out) => (Ok (Some n), OutRetransmit w missing (current + 1) request, out)
            end
        | None =>
            if request then
              match control_write_to (AckRequest s.(s_rule_id) (final_window s)) out with
              | (Err e, out) => (Err e, output, out)
              | (Ok n, out) =>
                  (Ok (Some n), OutRetransmit w missing (wrap8 (Z.of_nat WINDOW_SIZE)) false, out)
              end
            else (Ok None, output, out)
        end
  end.

(** ** Receiver *)

Record ReceiverResult := {
  response : option ReceiverResponse;
  res_packet_len : option nat;
  mic_ok : option bool;
  aborted : bool
}.
#[export] Instance ReceiverResult_eq_dec : EqDecision ReceiverResult.
Proof. solve_decision. Defined.

Definition result_default : ReceiverResult :=
  {| response := None; res_packet_len := None; mic_ok := None; aborted := false |}.

Record FragmentReceiver := {
  storage : bytes;
  limit : nat;
  r_rule_id : option Z;
  bitmaps : list Z;
  all1 : bool;
  all1_window : Z;
  all1_mic : bytes;
  final_tile : bytes;
  final_len : nat;
  r_attempts : Z;
  done_ : bool;
  packet_len : option nat
}.

Definition new_inner (storage : bytes) : result FragmentError FragmentReceiver :=
  let limit := Nat.min (length storage) MAX_PACKET_SIZE in
  if (limit =? 0)%nat then Err InvalidReceiverLimit
  else Ok {| storage := storage; limit := limit; r_rule_id := None; bitmaps := [0; 0];
             all1 := false; all1_window := 0; all1_mic := no_mic;
             final_tile := replicate TILE_SIZE 0; final_len := 0; r_attempts := 0;
             done_ := false; packet_len := None |}.

Definition with_limit (storage : bytes) (limit' : nat) : result FragmentError FragmentReceiver :=
  if negb ((1 <=? limit') && (limit' <=? MAX_PACKET_SIZE))%nat || (length storage <? limit')%nat
  then Err InvalidReceiverLimit
  else
    r ← new_inner storage;
    Ok {| storage := r.(FragSession.storage); limit := limit'; r_rule_id := r.(r_rule_id);
          bitmaps := r.(bitmaps); all1 := r.(all1); all1_window := r.(all1_window);
          all1_mic := r.(all1_mic); final_tile := r.(final_tile); final_len := r.(final_len);
          r_attempts := r.(r_attempts); done_ := r.(done_); packet_len := r.(packet_len) |}.

Definition packet (r : FragmentReceiver) : option bytes :=
  (fun len => take len r.(storage)) <$> r.(packet_len).

Definition reset (r : FragmentReceiver) : FragmentReceiver :=
  {| storage := r.(storage); limit := r.(limit); r_rule_id := None; bitmaps := [0; 0];
     all1 := false; all1_window := r.(all1_window); all1_mic := r.(all1_mic);
     final_tile := r.(final_tile); final_len := 0; r_attempts := 0;
     done_ := false; packet_len := None |}.

Definition set_done (r : FragmentReceiver) : FragmentReceiver :=
  {| storage := r.(storage); limit := r.(limit); r_rule_id := r.(r_rule_id);
     bitmaps := r.(bitmaps); all1 := r.(all1); all1_window := r.(all1_window);
     all1_mic := r.(all1_mic); final_tile := r.(final_tile); final_len := r.(final_len);
     r_attempts := r.(r_attempts); done_ := true; packet_len := r.(packet_len) |}.

Definition set_rule (r : FragmentReceiver) (rule : Z) : FragmentReceiver :=
  {| storage := r.(storage); limit := r.(limit); r_rule_id := Some rule;
     bitmaps := r.(bitmaps); all1 := r.(all1); all1_window := r.(all1_window);
     all1_mic := r.(all1_mic); final_tile := r.(final_tile); final_len := r.(final_len);
     r_attempts := r.(r_attempts); done_ := r.(done_); packet_len := r.(packet_len) |}.

Definition set_attempts (r : FragmentReceiver) (n : Z) : FragmentReceiver :=
  {| storage := r.(storage); limit := r.(limit); r_rule_id := r.(r_rule_id);
     bitmaps := r.(bitmaps); all1 := r.(all1); all1_window := r.(all1_window);
     all1_mic := r.(all1_mic); final_tile := r.(final_tile); final_len := r.(final_len);
     r_attempts := n; done_ := r.(done_); packet_len := r.(packet_len) |}.

Definition set_tile (r : FragmentReceiver) (st : bytes) (bms : list Z) : FragmentReceiver :=
  {| storage := st; limit := r.(limit); r_rule_id := r.(r_rule_id);
     bitmaps := bms; all1 := r.(all1); all1_window := r.(all1_window);
     all1_mic := r.(all1_mic); final_tile := r.(final_tile); final_len := r.(final_len);
     r_attempts := r.(r_attempts); done_ := r.(done_); packet_len := r.(packet_len) |}.

Definition set_all1 (r : FragmentReceiver) (f : Fragment) (tile : bytes) : FragmentReceiver :=
  {| storage := r.(storage); limit := r.(limit); r_rule_id := r.(r_rule_id);
     bitmaps := r.(bitmaps); all1 := true; all1_window := f.(window);
     all1_mic := f.(mic); final_tile := tile; final_len := length f.(payload);
     r_attempts := r.(r_attempts); done_ := r.(done_); packet_len := r.(packet_len) |}.

Definition set_packet (r : FragmentReceiver) (st : bytes) (len : option nat) : FragmentReceiver :=
  {| storage := st; limit := r.(limit); r_rule_id := r.(r_rule_id);
     bitmaps := r.(bitmaps); all1 := r.(all1); all1_window := r.(all1_window);
     all1_mic := r.(all1_mic); final_tile := r.(final_tile); final_len := r.(final_len);
     r_attempts := r.(r_attempts); done_ := r.(done_); packet_len := len |}.

Definition release (r : FragmentReceiver) : FragmentReceiver := set_done (reset r).

Definition abort (r : FragmentReceiver) (rule : Z) : ReceiverResult * FragmentReceiver :=
  ({| response := Some (RespReceiverAbort rule); res_packet_len := None; mic_ok := None;
      aborted := true |}, release r).

Definition expire (r : FragmentReceiver) : option ReceiverResponse * FragmentReceiver :=
  match r.(r_rule_id) with
  | None => (None, r)
  | Some rule => if r.(done_) then (None, r) else (Some (RespReceiverAbort rule), release r)
  end.

Definition respond (r : FragmentReceiver) (a : Ack) : ReceiverResult * FragmentReceiver :=
  if MAX_ACK_REQUESTS <=? r.(r_attempts) then abort r a.(ack_rule_id)
  else ({| response := Some (RespAck a); res_packet_len := None; mic_ok := None; aborted := false |},
        set_attempts r (r.(r_attempts) + 1)).

Definition respond_with_packet (r : FragmentReceiver) (a : Ack) : ReceiverResult * FragmentReceiver :=
  let len := r.(packet_len) in
  let '(res, r) := respond r a in
  (if res.(aborted) then res
   else {| response := res.(response); res_packet_len := len; mic_ok := Some true;
           aborted := res.(aborted) |}, r).

Definition respond_with_mic_failure (r : FragmentReceiver) (a : Ack) :
    ReceiverResult * FragmentReceiver :=
  let '(res, r) := respond r a in
  (if res.(aborted) then res
   else {| response := res.(response); res_packet_len := res.(res_packet_len);
           mic_ok := Some false; aborted := res.(aborted) |}, r).

Definition finalize (r : FragmentReceiver) : option (ReceiverResult * FragmentReceiver) :=
  let rule := default RULE_ID_A_TO_B r.(r_rule_id) in
  b0 ← r.(bitmaps) !! 0%nat;
  if (r.(all1_window) =? 1) && negb (b0 =? BITMAP_MASK)
  then Some (respond r (ack_new rule 0 b0 false))
  else
    let final_base := (Z.to_nat r.(all1_window) * WINDOW_SIZE)%nat in
    bm ← r.(bitmaps) !! Z.to_nat r.(all1_window);
    let regular_count := if bm =? 0 then 0%nat else (WINDOW_SIZE - trailing_zeros bm)%nat in
    let required :=
      if (regular_count =? 0)%nat then 0
      else Z.ldiff BITMAP_MASK (Z.shiftr BITMAP_MASK (Z.of_nat regular_count)) in
    if negb (Z.land bm required =? required)
    then Some (respond r (ack_new rule r.(all1_window) (Z.lor bm 1) false))
    else
      let packet_len := ((final_base + regular_count) * TILE_SIZE + r.(final_len))%nat in
      if (r.(limit) <? packet_len)%nat then Some (abort r rule)
      else
        let final_offset := ((final_base + regular_count) * TILE_SIZE)%nat in
        st ← copy_in final_offset (take r.(final_len) r.(final_tile)) r.(storage);
        let r := set_packet r st r.(FragSession.packet_len) in
        if bool_decide (compute_mic (take packet_len st) = r.(all1_mic)) then
          let r := set_packet r st (Some packet_len) in
          let '(res, r) := respond_with_packet r (ack_new rule r.(all1_window) 0 true) in
          Some (res, set_done r)
        else
          let full_window := (bm =? required) && (count_ones bm =? regular_count)%nat in
          let ack_bitmap := if full_window && (1 <? regular_count)%nat then bm else Z.lor bm 1 in
          Some (respond_with_mic_failure r (ack_new rule r.(all1_window) ack_bitmap false)).

Definition receive_all1 (r : FragmentReceiver) (f : Fragment) :
    option (ReceiverResult * FragmentReceiver) :=
  b0 ← r.(bitmaps) !! 0%nat;
  b1 ← r.(bitmaps) !! 1%nat;
  bm ← r.(bitmaps) !! Z.to_nat f.(window);
  if existsb (fun b => negb (b =? 0)) (drop (Z.to_nat f.(window) + 1) r.(bitmaps))
     || negb (Z.land bm 1 =? 0)
  then Some (abort r f.(rule_id))
  else if r.(all1) then
    if negb (r.(all1_window) =? f.(window)) || negb (bool_decide (r.(all1_mic) = f.(mic)))
       || negb (bool_decide (take r.(final_len) r.(final_tile) = f.(payload)))
    then Some (abort r f.(rule_id))
    else finalize r
  else
    let retained := ((count_ones b0 + count_ones b1) * TILE_SIZE + length f.(payload))%nat in
    if (r.(limit) <? retained)%nat then Some (abort r f.(rule_id))
    else
      tile ← copy_in 0 f.(payload) r.(final_tile);
      finalize (set_all1 r f tile).

Definition fragment_valid (f : Fragment) : bool :=
  is_ok (check_rule f.(rule_id)) && (f.(window) <=? 1) && (f.(fcn) <=? ALL_1_FCN)
  && (is_all_1 f || (f.(window) =? 0) || negb (f.(fcn) =? 0))
  && ((is_all_1 f && ((1 <=? length f.(payload)) && (length f.(payload) <=? TILE_SIZE))%nat)
      || (negb (is_all_1 f) && (length f.(payload) =? TILE_SIZE)%nat
          && bool_decide (f.(mic) = no_mic))).

(** The part of [receive_inner] after the session's rule is settled. *)
Definition receive_tile (r : FragmentReceiver) (f : Fragment) :
    option (ReceiverResult * FragmentReceiver) :=
  if is_all_1 f then receive_all1 r f
  else if (f.(window) =? 1) && (f.(fcn) =? 0) then Some (abort r f.(rule_id))
  else if r.(all1) && ((r.(all1_window) <? f.(window))
                       || ((f.(window) =? r.(all1_window)) && (f.(fcn) =? 0)))
  then Some (abort r f.(rule_id))
  else
    let ordinal := (Z.to_nat f.(window) * WINDOW_SIZE + 62 - Z.to_nat f.(fcn))%nat in
    let fin := ((ordinal + 1) * TILE_SIZE)%nat in
    if (r.(limit) <? fin)%nat then Some (abort r f.(rule_id))
    else
      let bit := Z.shiftl 1 f.(fcn) in
      bm ← r.(bitmaps) !! Z.to_nat f.(window);
      if (length r.(storage) <? fin)%nat then None
      else
        let destination := slice (ordinal * TILE_SIZE) fin r.(storage) in
        if negb (Z.land bm bit =? 0) then
          if negb (bool_decide (destination = f.(payload))) then Some (abort r f.(rule_id))
          else Some (result_default, r)
        else
          st ← copy_in (ordinal * TILE_SIZE) f.(payload) r.(storage);
          Some (result_default,
                set_tile r st (<[Z.to_nat f.(window) := Z.lor bm bit]> r.(bitmaps))).

Definition receive_inner (r : FragmentReceiver) (f : Fragment) :
    option (ReceiverResult * FragmentReceiver) :=
  let valid := fragment_valid f in
  if r.(done_) && negb valid then Some (result_default, r)
  else
    let r := if r.(done_) then reset r else r in
    if negb valid then Some (abort r f.(rule_id))
    else
      match r.(r_rule_id) with
      | Some active =>
          if negb (active =? f.(rule_id)) then Some (abort r active) else receive_tile r f
      | None => receive_tile (set_rule r f.(rule_id)) f
      end.

(** The part of [receive_ack_request] after the session's rule is settled. *)
Definition answer_ack_request (r : FragmentReceiver) (rule : Z) :
    option (ReceiverResult * FragmentReceiver) :=
  if r.(all1) then finalize r
  else
    b0 ← r.(bitmaps) !! 0%nat;
    let w := if b0 =? BITMAP_MASK then 1 else 0 in
    bm ← r.(bitmaps) !! Z.to_nat w;
    Some (respond r (ack_new rule w bm false)).

Definition receive_ack_request (r : FragmentReceiver) (rule : Z) :
    option (ReceiverResult * FragmentReceiver) :=
  match r.(r_rule_id) with
  | Some active =>
      if negb (active =? rule) then Some (abort r active) else answer_ack_request r rule
  | None => answer_ack_request (set_rule r rule) rule
  end.

Definition receive_bytes_inner (r : FragmentReceiver) (data : bytes) :
    option (result FragmentError ReceiverResult * FragmentReceiver) :=
  let lift (o : option (ReceiverResult * FragmentReceiver)) :=
    (fun p => (Ok p.1, p.2)) <$> o in
  if (length data <? 2)%nat then
    Some (Err (FE_TooShort {| expected := 2; actual := length data |}), r)
  else
    let rule := nth 0 data 0 in
    match check_rule rule with
    | Err e => Some (Err e, r)
    | Ok _ =>
        match is_control data (SenderAbort rule) with
        | Err e => Some (Err e, r)
        | Ok true =>
            Some (Ok {| response := None; res_packet_len := None; mic_ok := None; aborted := true |},
                  release r)
        | Ok false =>
            match is_control data (AckRequest rule (Z.shiftr (nth 1 data 0) 7)) with
            | Err e => Some (Err e, r)
            | Ok true => lift (receive_ack_request (if r.(done_) then reset r else r) rule)
            | Ok false =>
                match is_sender_facing_control data rule with
                | Err e => Some (Err e, r)
                | Ok true => Some (Err MalformedAck, r)
                | Ok false =>
                    match fragment_from_bytes data TILE_SIZE with
                    | Ok f => lift (receive_inner (if r.(done_) then reset r else r) f)
                    | Err _ =>
                        if r.(done_) then Some (Ok result_default, r)
                        else lift (Some (abort r rule))
                    end
                end
            end
        end
    end.

(** [RetransmitIter::next], from the position after the last one returned;
    the returned position is the iterator's next. *)
Fixpoint retransmit_next (s : FragmentSender) (start fin : nat) (bm : list bool) (pos fuel : nat) :
    option Fragment * nat :=
  match fuel with
  | O => (None, pos)
  | S fuel =>
      if (fin <=? pos)%nat then (None, pos)
      else
        let received := nth (pos - start) bm false in
        if negb received then (get_fragment_inner s pos, S pos)
        else retransmit_next s start fin bm (S pos) fuel
  end.

End FragSession.
