(* ===== verification/FragReceiver.v ===== *)
(** * SCHC fragmentation: the receiver under arbitrary input

    The representation invariant of [FragmentReceiver] and that every message,
    whoever sent it, keeps it: no index of the reassembly buffer is ever out of
    range, a packet is only reported when its check sequence matches, and the
    ACK budget is never exceeded. *)

From S2P Require Import Prelude FragCodec FragSession.
Import Frag FragSession.

Module FragReceiver.

Record receiver_ok (r : FragmentReceiver) : Prop := {
  rok_bitmaps : exists b0 b1, r.(bitmaps) = [b0; b1] /\
                0 <= b0 <= BITMAP_MASK /\ 0 <= b1 <= BITMAP_MASK;
  rok_limit : (1 <= r.(limit) <= length r.(storage))%nat;
  rok_window : 0 <= r.(all1_window) <= 1;
  rok_tile : length r.(final_tile) = TILE_SIZE;
  rok_final : (r.(final_len) <= TILE_SIZE)%nat;
  rok_attempts : 0 <= r.(r_attempts) <= MAX_ACK_REQUESTS
}.

(** What a result promises about the state it comes with. *)
Definition result_ok (res : ReceiverResult) (r : FragmentReceiver) : Prop :=
  match res.(res_packet_len) with
  | Some n =>
      res.(mic_ok) = Some true /\ res.(aborted) = false /\ (n <= r.(limit))%nat /\
      r.(packet_len) = Some n /\ r.(done_) = true /\
      compute_mic (take n r.(storage)) = r.(all1_mic) /\
      exists a, res.(response) = Some (RespAck a) /\ a.(complete) = true
  | None => res.(mic_ok) <> Some true
  end /\ (res.(aborted) = true -> r.(done_) = true /\ r.(packet_len) = None).

Definition step_ok (o : option (ReceiverResult * FragmentReceiver)) : Prop :=
  exists res r, o = Some (res, r) /\ receiver_ok r /\ result_ok res r.

Lemma bitmaps_lookup r w : receiver_ok r -> 0 <= w <= 1 ->
  exists b, r.(bitmaps) !! Z.to_nat w = Some b /\ 0 <= b <= BITMAP_MASK.
Proof.
  intros [(b0 & b1 & -> & H0 & H1) _ _ _ _ _] Hw.
  assert (w = 0 \/ w = 1) as [-> | ->] by lia; [exists b0 | exists b1]; done.
Qed.

Lemma bitmaps_01 r : receiver_ok r ->
  exists b0 b1, r.(bitmaps) !! 0%nat = Some b0 /\ r.(bitmaps) !! 1%nat = Some b1.
Proof. intros [(b0 & b1 & -> & _ & _) _ _ _ _ _]. by exists b0, b1. Qed.

Lemma reset_ok r : receiver_ok r -> receiver_ok (reset r).
Proof.
  intros []. split; simpl; try done; [| lia].
  by exists 0, 0.
Qed.

Lemma release_ok r : receiver_ok r -> receiver_ok (release r).
Proof. intros H. destruct (reset_ok r H). by split. Qed.

Lemma set_rule_ok r rule : receiver_ok r -> receiver_ok (set_rule r rule).
Proof. intros []. by split. Qed.

Lemma abort_ok r rule : receiver_ok r -> step_ok (Some (abort r rule)).
Proof. intros H. do 2 eexists. split; [reflexivity |]. by split; [apply release_ok |]. Qed.

Lemma default_ok r : receiver_ok r -> step_ok (Some (result_default, r)).
Proof. intros H. do 2 eexists. by split. Qed.

#[local] Hint Resolve reset_ok release_ok set_rule_ok abort_ok default_ok : core.

Lemma set_attempts_ok r : receiver_ok r -> r.(r_attempts) < MAX_ACK_REQUESTS ->
  receiver_ok (set_attempts r (r.(r_attempts) + 1)).
Proof. intros [] Hlt. split; simpl; try done. lia. Qed.

Lemma respond_ok r a : receiver_ok r -> step_ok (Some (respond r a)).
Proof.
  intros H. unfold respond. destruct (_ <=? _) eqn:E; [auto |]. bool_to_prop.
  do 2 eexists. split; [reflexivity |]. by split; [apply set_attempts_ok |].
Qed.

Lemma respond_mic_failure_ok r a : receiver_ok r -> step_ok (Some (respond_with_mic_failure r a)).
Proof.
  intros H. unfold respond_with_mic_failure, respond. destruct (_ <=? _) eqn:E.
  { by apply (abort_ok r (ack_rule_id a)). }
  bool_to_prop. do 2 eexists. split; [reflexivity |]. by split; [apply set_attempts_ok |].
Qed.

Lemma set_packet_ok r st len : receiver_ok r -> length st = length r.(storage) ->
  receiver_ok (set_packet r st len).
Proof. intros [] Hl. split; simpl; try done. by rewrite Hl. Qed.

Lemma copy_in_some {A} i (k buf : list A) : (i + length k <= length buf)%nat ->
  copy_in i k buf = Some (list_inserts i k buf) /\ length (list_inserts i k buf) = length buf.
Proof.
  intros H. unfold copy_in. rewrite (proj2 (Nat.leb_le _ _)) by done.
  by rewrite length_inserts.
Qed.

Lemma respond_packet_ok r a n : receiver_ok r -> a.(complete) = true ->
  (n <= r.(limit))%nat -> r.(packet_len) = Some n ->
  compute_mic (take n r.(storage)) = r.(all1_mic) ->
  step_ok (let '(res, r) := respond_with_packet r a in Some (res, set_done r)).
Proof.
  intros H Hc Hn Hp Hm. unfold respond_with_packet, respond. destruct (_ <=? _) eqn:E.
  - do 2 eexists. split; [reflexivity |]. split; [| done].
    destruct (release_ok r H). by split.
  - bool_to_prop. do 2 eexists. split; [reflexivity |]. split.
    + destruct (set_attempts_ok r H E). by split.
    + rewrite Hp. split; [| done]. simpl. by repeat (split || eexists).
Qed.

Lemma finalize_ok r : receiver_ok r -> step_ok (finalize r).
Proof.
  intros H. unfold finalize.
  destruct (bitmaps_01 r H) as (b0 & b1 & -> & _). cbn [mbind option_bind].
  destruct (_ && negb _); [by apply respond_ok |].
  destruct (bitmaps_lookup r (all1_window r) H (rok_window r H)) as (bm & -> & Hbm).
  cbn [mbind option_bind]. set (rc := if bm =? 0 then _ else _). set (req := if (_ =? _)%nat then _ else _).
  destruct (negb _); [by apply respond_ok |].
  destruct (_ <? _)%nat eqn:El; [by apply abort_ok |]. bool_to_prop.
  pose proof (rok_tile r H). pose proof (rok_final r H). pose proof (rok_limit r H).
  destruct (copy_in_some ((Z.to_nat (all1_window r) * WINDOW_SIZE + rc) * TILE_SIZE)
    (take (final_len r) (final_tile r)) (storage r)) as [-> Hl].
  { rewrite length_take. lia. }
  cbn [mbind option_bind]. destruct (bool_decide _) eqn:Em.
  - apply bool_decide_eq_true_1 in Em. eapply respond_packet_ok; try done.
    apply set_packet_ok; [by apply set_packet_ok | done].
  - by apply respond_mic_failure_ok, set_packet_ok.
Qed.

Lemma fragment_valid_inv f : fragment_valid f = true ->
  f.(window) <= 1 /\ f.(fcn) <= 63 /\ (length f.(payload) <= TILE_SIZE)%nat /\
  (is_all_1 f = false -> length f.(payload) = TILE_SIZE /\ f.(mic) = no_mic).
Proof.
  unfold fragment_valid. change ALL_1_FCN with 63. intros H.
  apply andb_true_iff in H as [H Hl]. apply andb_true_iff in H as [H _]. bool_to_prop.
  apply orb_true_iff in Hl as [Hl|Hl].
  - bool_to_prop. split; [done |]. split; [done |]. split; [done |]. congruence.
  - apply andb_true_iff in Hl as [Hl Hm]. apply bool_decide_eq_true_1 in Hm. bool_to_prop.
    split; [done |]. split; [done |]. split; [lia |]. done.
Qed.

Lemma lor_bit_bound b k : 0 <= b <= BITMAP_MASK -> 0 <= k <= 62 ->
  0 <= Z.lor b (Z.shiftl 1 k) <= BITMAP_MASK.
Proof.
  intros Hb Hk. rewrite <- (land_mask b Hb).
  replace (Z.lor _ _) with (Z.land (Z.lor b (Z.shiftl 1 k)) BITMAP_MASK);
    [apply land_mask_bound |].
  apply Z.bits_inj'. intros m Hm. rewrite !Z.land_spec, !Z.lor_spec, Z.land_spec, mask_bit by done.
  rewrite Z.shiftl_1_l, Z.pow2_bits_eqb by lia.
  destruct (m <? 63) eqn:E, (k =? m) eqn:?, (Z.testbit b m); bool_to_prop; try done; lia.
Qed.

Lemma receive_all1_ok r f : receiver_ok r -> 0 <= f.(window) -> fragment_valid f = true ->
  step_ok (receive_all1 r f).
Proof.
  intros H Hw Hv. apply fragment_valid_inv in Hv as (Hw1 & _ & Hp & _). unfold receive_all1.
  destruct (bitmaps_01 r H) as (b0 & b1 & -> & ->).
  destruct (bitmaps_lookup r (window f) H ltac:(lia)) as (bm & -> & _).
  cbn [mbind option_bind]. destruct (_ || _); [by apply abort_ok |].
  destruct (all1 r).
  - destruct (_ || _); [by apply abort_ok | by apply finalize_ok].
  - destruct (_ <? _)%nat; [by apply abort_ok |].
    destruct (copy_in_some 0 (payload f) (final_tile r)) as [-> Hl].
    { rewrite (rok_tile r H). done. }
    cbn [mbind option_bind]. apply finalize_ok. destruct H. split; simpl; try done. by rewrite Hl.
Qed.

Lemma set_tile_ok r st w b : receiver_ok r -> 0 <= w <= 1 -> length st = length r.(storage) ->
  0 <= b <= BITMAP_MASK -> receiver_ok (set_tile r st (<[Z.to_nat w := b]> r.(bitmaps))).
Proof.
  intros [(b0 & b1 & Hb & H0 & H1) Hl ? ? ? ?] Hw Hst Hbm.
  split; simpl; try done; [| by rewrite Hst].
  rewrite Hb. assert (w = 0 \/ w = 1) as [-> | ->] by lia; simpl; eauto 10.
Qed.

Lemma receive_tile_ok r f : receiver_ok r -> 0 <= f.(window) -> 0 <= f.(fcn) ->
  fragment_valid f = true -> step_ok (receive_tile r f).
Proof.
  intros H Hw Hf Hv. unfold receive_tile.
  destruct (is_all_1 f) eqn:Ea; [by apply receive_all1_ok |].
  apply fragment_valid_inv in Hv as (Hw1 & Hf1 & _ & Hp). destruct (Hp Ea) as [Hp' _].
  destruct (_ && _); [by apply abort_ok |]. destruct (_ && _); [by apply abort_ok |].
  set (ordinal := (Z.to_nat (window f) * WINDOW_SIZE + 62 - Z.to_nat (fcn f))%nat).
  destruct (limit r <? _)%nat eqn:El; [by apply abort_ok |]. bool_to_prop.
  destruct (bitmaps_lookup r (window f) H ltac:(lia)) as (bm & -> & Hbm). cbn [mbind option_bind].
  pose proof (rok_limit r H). rewrite (proj2 (Nat.ltb_ge _ _)) by lia.
  destruct (negb (_ =? 0)); [destruct (negb _); auto |].
  destruct (copy_in_some (ordinal * TILE_SIZE) (payload f) (storage r)) as [-> Hl].
  { rewrite Hp'. lia. }
  cbn [mbind option_bind]. apply default_ok, set_tile_ok; [done | lia | done |].
  apply lor_bit_bound; [done |]. unfold is_all_1 in Ea. change ALL_1_FCN with 63 in Ea.
  bool_to_prop. lia.
Qed.

Lemma receive_inner_ok r f : receiver_ok r -> 0 <= f.(window) -> 0 <= f.(fcn) ->
  step_ok (receive_inner r f).
Proof.
  intros H Hw Hf. unfold receive_inner. destruct (done_ r && _); [by apply default_ok |].
  assert (receiver_ok (if done_ r then reset r else r)) as Hr by (destruct (done_ r); auto).
  revert Hr. generalize (if done_ r then reset r else r). intros r' Hr.
  destruct (fragment_valid f) eqn:Hv; [| by apply abort_ok]. cbn [negb].
  destruct (r_rule_id r'); [destruct (negb _) |]; auto using receive_tile_ok.
Qed.

Lemma answer_ack_request_ok r rule : receiver_ok r -> step_ok (answer_ack_request r rule).
Proof.
  intros H. unfold answer_ack_request. destruct (all1 r); [by apply finalize_ok |].
  destruct (bitmaps_01 r H) as (b0 & b1 & -> & _). cbn [mbind option_bind].
  destruct (bitmaps_lookup r (if b0 =? BITMAP_MASK then 1 else 0) H
    ltac:(destruct (_ =? _); lia)) as (bm & E & _).
  cbv zeta. rewrite E. by apply respond_ok.
Qed.

Lemma receive_ack_request_ok r rule : receiver_ok r -> step_ok (receive_ack_request r rule).
Proof.
  intros H. unfold receive_ack_request.
  destruct (r_rule_id r); [destruct (negb _) |]; auto using answer_ack_request_ok.
Qed.

(** A message leaves the state as it was when it is refused with an error. *)
Definition bytes_step_ok (r : FragmentReceiver)
    (o : option (result FragmentError ReceiverResult * FragmentReceiver)) : Prop :=
  exists x r', o = Some (x, r') /\ receiver_ok r' /\
    match x with Ok res => result_ok res r' | Err _ => r' = r end.

Lemma lift_ok r o : step_ok o ->
  bytes_step_ok r ((fun p : ReceiverResult * FragmentReceiver => (Ok p.1, p.2)) <$> o).
Proof. intros (res & r' & -> & H & Hr). exists (Ok res), r'. done. Qed.

Lemma from_bytes_widths data n f : fragment_from_bytes data n = Ok f ->
  0 <= f.(window) /\ 0 <= f.(fcn).
Proof.
  unfold fragment_from_bytes. destruct (_ <? 2)%nat; [done |]. destruct (_ <? _)%nat; [done |].
  intros H. apply bind_ok in H as (len & _ & H). destruct (_ <? _)%nat; [done |].
  destruct (_ && _); [done |]. injection H as <-. simpl.
  split; apply Z.land_nonneg; right; vm_compute; discriminate.
Qed.

(** C24: The receiver is total on arbitrary octets.  From any state that
    satisfies the representation invariant, every message is handled without
    an index out of range and leaves the invariant; a message refused with an
    error changes nothing; a reported packet lies within the receiver's limit,
    has the check sequence of its All-1 and comes with a completion ACK, and an
    aborted session holds no packet. *)
Theorem receive_bytes_safe r data :
  receiver_ok r -> bytes_step_ok r (receive_bytes_inner r data).
Proof.
  intros H. unfold receive_bytes_inner.
  assert (receiver_ok (if done_ r then reset r else r)) as Hr by (destruct (done_ r); auto).
  assert (forall e, bytes_step_ok r (Some (Err e, r))) as He by (intros e; by exists (Err e), r).
  destruct (_ <? 2)%nat; [done |]. destruct (check_rule _); [| done].
  destruct (is_control data (SenderAbort _)) as [[]|]; [| | done].
  - eexists _, (release r). split; [reflexivity |]. by split; [apply release_ok |].
  - destruct (is_control data (AckRequest _ _)) as [[]|]; [| | done].
    + by apply lift_ok, receive_ack_request_ok.
    + destruct (is_sender_facing_control _ _) as [[]|]; [done | | done].
      destruct (fragment_from_bytes data TILE_SIZE) as [f|] eqn:Ef.
      * apply from_bytes_widths in Ef as [? ?]. by apply lift_ok, receive_inner_ok.
      * destruct (done_ r); [by exists (Ok result_default), r |].
        apply lift_ok. by apply abort_ok.
Qed.

Lemma new_inner_ok storage r : new_inner storage = Ok r -> receiver_ok r.
Proof.
  unfold new_inner. destruct (_ =? 0)%nat eqn:E; [done |]. intros [= <-]. bool_to_prop.
  split; simpl; try (done || lia).
  by exists 0, 0.
Qed.

Lemma receive_bytes_safe_witness : exists r,
  new_inner (replicate 400 0) = Ok r /\ bytes_step_ok r (receive_bytes_inner r (wire demo_all1)).
Proof.
  eexists. split; [reflexivity |]. apply receive_bytes_safe.
  apply (new_inner_ok (replicate 400 0)). reflexivity.
Defined.

End FragReceiver.
