(* ===== verification/FragSender.v ===== *)
(** * SCHC fragmentation: the sender

    What [FragmentSender] emits: its tiling of the packet, the bitmap of a
    window, the fragments a NACK selects, and the bound on its ACK requests. *)

From Stdlib Require Import Sorting.Sorted.
From S2P Require Import Prelude FragCodec FragSession.
Import Frag FragSession.

Module FragSender.

Record sender_ok (s : FragmentSender) : Prop := {
  sok_bytes : bytes_ok s.(s_payload);
  sok_len : (1 <= length s.(s_payload) <= MAX_PACKET_SIZE)%nat;
  sok_rule : check_rule s.(s_rule_id) = Ok tt;
  sok_count : s.(count) = div_ceil (length s.(s_payload)) TILE_SIZE;
  sok_mic : s.(s_mic) = compute_mic s.(s_payload)
}.

Lemma new_unchecked_ok payload rule lim permit s :
  bytes_ok payload -> new_unchecked payload rule lim permit = Ok s ->
  sender_ok s /\ s.(s_payload) = payload /\ s.(s_rule_id) = rule /\ s.(status) = Ready /\
  s.(s_attempts) = 0 /\ (length payload <= lim)%nat.
Proof.
  intros Hb H. unfold new_unchecked in H. apply bind_ok in H as ([] & Hr & H).
  destruct (negb _); [done |]. destruct (bool_decide _) eqn:Ee; [done |].
  destruct (_ <? _)%nat eqn:El; [done |]. destruct (lim <? _)%nat eqn:Em; [done |].
  apply bool_decide_eq_false_1 in Ee. bool_to_prop. injection H as <-.
  split; [| done]. split; simpl; try done. split; [| done]. destruct payload; [done | simpl; lia].
Qed.

Section tiling.
Context (s : FragmentSender) (Hs : sender_ok s).

Abbreviation len := (length s.(s_payload)).
Abbreviation N := s.(count).

Lemma count_bounds : (1 <= N <= 126)%nat /\ ((N - 1) * 179 < len)%nat /\ (len <= N * 179)%nat.
Proof.
  destruct Hs as [_ Hl _ Hc _]. unfold div_ceil in Hc. rewrite TILE_SIZE_val in Hc.
  change MAX_PACKET_SIZE with (Z.to_nat 22554) in Hl.
  pose proof (Nat.Div0.div_mod (len + (179 - 1)) 179).
  pose proof (Nat.mod_upper_bound (len + (179 - 1)) 179 ltac:(lia)). lia.
Qed.

Lemma window_of i : (i < N)%nat -> (i / 63 <= 1)%nat.
Proof.
  intros Hi. pose proof count_bounds. enough (i / 63 < 2)%nat by lia.
  apply Nat.Div0.div_lt_upper_bound. lia.
Qed.

Lemma final_window_val : final_window s = Z.of_nat ((N - 1) / 63).
Proof.
  unfold final_window, WINDOW_SIZE. apply wrap8_small.
  pose proof (window_of (N - 1)). pose proof count_bounds. width.
Qed.

(** Fragment [i] of the packet. *)
Definition tile (i : nat) : bytes := slice (i * 179) (Nat.min (i * 179 + 179) len) s.(s_payload).
Definition frag (i : nat) : Fragment :=
  {| rule_id := s.(s_rule_id); window := Z.of_nat (i / 63);
     fcn := if (i + 1 =? N)%nat then 63 else 62 - Z.of_nat (i mod 63);
     payload := tile i; mic := if (i + 1 =? N)%nat then s.(s_mic) else no_mic |}.

Lemma get_fragment_frag i : (i < N)%nat -> get_fragment_inner s i = Some (frag i).
Proof.
  intros Hi. unfold get_fragment_inner. rewrite (proj2 (Nat.leb_gt _ _)) by lia.
  unfold frag, tile, WINDOW_SIZE. rewrite TILE_SIZE_val. pose proof (window_of i Hi).
  pose proof (Nat.mod_upper_bound i 63 ltac:(lia)).
  rewrite !wrap8_small by width. done.
Qed.

Lemma tile_length i : (i < N)%nat ->
  length (tile i) = if (i + 1 =? N)%nat then (len - (N - 1) * 179)%nat else 179%nat.
Proof.
  intros Hi. pose proof count_bounds as (_ & H1 & H2). unfold tile.
  assert (i * 179 <= (N - 1) * 179)%nat by (apply Nat.mul_le_mono_r; lia).
  rewrite slice_length by lia. destruct (i + 1 =? N)%nat eqn:E; bool_to_prop.
  - replace (N - 1)%nat with i in * by lia. lia.
  - assert ((i + 1) * 179 <= (N - 1) * 179)%nat by (apply Nat.mul_le_mono_r; lia). lia.
Qed.

Lemma frag_all_1 i : is_all_1 (frag i) = (i + 1 =? N)%nat.
Proof.
  unfold is_all_1, frag. simpl. destruct (i + 1 =? N)%nat; [done |].
  change ALL_1_FCN with 63. apply Z.eqb_neq. lia.
Qed.

Lemma frag_ok i : (i < N)%nat -> fragment_ok (frag i).
Proof.
  intros Hi. pose proof (window_of i Hi) as Hw. pose proof (tile_length i Hi) as Hl.
  pose proof count_bounds as (HN & H1 & H2). pose proof (Nat.mod_upper_bound i 63 ltac:(lia)) as Hm.
  pose proof (Nat.Div0.div_mod i 63) as Hdm.
  destruct Hs as [Hb _ Hr _ Hmic]. split; simpl.
  - unfold fragment_guards. rewrite frag_all_1. change (rule_id (frag i)) with (s_rule_id s).
    rewrite Hr. cbn [mbind result_bind]. unfold is_all_0.
    cbn [window fcn payload mic frag]. rewrite Hl, TILE_SIZE_val.
    rewrite (proj2 (Z.ltb_ge 1 _)) by lia. change ALL_1_FCN with 63.
    destruct (i + 1 =? N)%nat eqn:E; bool_to_prop; rewrite (proj2 (Z.ltb_ge 63 _)) by lia.
    + rewrite !(proj2 (Nat.leb_le _ _)) by lia. done.
    + rewrite Nat.eqb_refl, bool_decide_eq_true_2 by done. cbn [negb orb].
      destruct (_ && _) eqn:E2; [| done]. bool_to_prop. lia.
  - lia.
  - destruct (i + 1 =? N)%nat; lia.
  - by apply slice_Forall.
  - rewrite Hmic. destruct (i + 1 =? N)%nat; [apply to_be_ok | by repeat constructor].
  - rewrite Hmic. destruct (i + 1 =? N)%nat; [apply length_to_be | done].
Qed.

(** The tiles, in order, are the packet. *)
Lemma tiles_prefix k : (k < N)%nat -> take (k * 179) s.(s_payload) ++ tile k =
  take (Nat.min (k * 179 + 179) len) s.(s_payload).
Proof.
  intros Hk. pose proof count_bounds as (_ & H1 & H2).
  assert (k * 179 <= (N - 1) * 179)%nat by (apply Nat.mul_le_mono_r; lia).
  pose proof (slice_split 0 (k * 179) (Nat.min (k * 179 + 179) len) s.(s_payload)
    ltac:(lia) ltac:(lia)) as E.
  unfold tile. unfold slice in *. rewrite !drop_0, !Nat.sub_0_r in E. done.
Qed.

Lemma tiles_all : take ((N - 1) * 179) s.(s_payload) ++ tile (N - 1) = s.(s_payload).
Proof.
  pose proof count_bounds as (? & ? & ?). rewrite tiles_prefix by lia. apply take_ge. lia.
Qed.

Lemma iter_frags : iter_inner s = frag <$> seq 0 N.
Proof.
  unfold iter_inner.
  assert (forall l, Forall (fun i => i < N)%nat l -> omap (get_fragment_inner s) l = frag <$> l) as H.
  { induction l as [|i l IH]; intros Hl; [done |]. inversion Hl; subst. simpl.
    rewrite get_fragment_frag by done. f_equal. by apply IH. }
  apply H, Forall_forall. intros i Hi. apply elem_of_seq in Hi. lia.
Qed.

(** ** Windows and positions *)

(** The position of fragment [i] in the bitmap of its window. *)
Definition pos (i : nat) : nat := if (i + 1 =? N)%nat then 62%nat else (i mod 63)%nat.

Lemma pos_lt i : (pos i < 63)%nat.
Proof.
  unfold pos. destruct (_ =? _)%nat; [lia |]. apply Nat.mod_upper_bound. lia.
Qed.

Lemma pos_inj i j : (i < N)%nat -> (j < N)%nat ->
  (i / 63 = j / 63)%nat -> pos i = pos j -> i = j.
Proof.
  intros Hi Hj Hw Hp. unfold pos in Hp.
  pose proof (Nat.Div0.div_mod i 63). pose proof (Nat.Div0.div_mod j 63).
  pose proof (Nat.mod_upper_bound i 63 ltac:(lia)). pose proof (Nat.mod_upper_bound j 63 ltac:(lia)).
  destruct (i + 1 =? N)%nat eqn:?, (j + 1 =? N)%nat eqn:?; bool_to_prop; lia.
Qed.

Lemma frag_bit_pos i m : 0 <= m ->
  Z.testbit (fragment_bit (frag i)) m = (m =? 62 - Z.of_nat (pos i)).
Proof.
  intros Hm. unfold fragment_bit, pos. rewrite frag_all_1.
  pose proof (Nat.mod_upper_bound i 63 ltac:(lia)).
  unfold frag. cbn [fcn]. destruct (i + 1 =? N)%nat.
  - change 1 with (2 ^ 0). rewrite Z.pow2_bits_eqb, Z.eqb_sym by lia. done.
  - rewrite Z.shiftl_1_l, Z.pow2_bits_eqb, Z.eqb_sym by lia. done.
Qed.

Lemma fold_lor_bits {A} (g : A -> Z) l : forall x m,
  Z.testbit (foldl (fun bm a => Z.lor bm (g a)) x l) m =
  Z.testbit x m || existsb (fun a => Z.testbit (g a) m) l.
Proof.
  induction l as [|a l IH]; intros x m; simpl; [by rewrite orb_false_r |].
  by rewrite IH, Z.lor_spec, orb_assoc.
Qed.

(** The bits assigned in a window are the positions of its fragments. *)
Lemma assigned_spec w m : (m < 63)%nat ->
  Z.testbit (assigned_bitmap_inner s (Z.of_nat w)) (62 - Z.of_nat m) = true <->
  exists i, (i < N)%nat /\ (i / 63 = w)%nat /\ pos i = m.
Proof.
  intros Hm. unfold assigned_bitmap_inner. rewrite fold_lor_bits, Z.bits_0. cbn [orb].
  rewrite existsb_exists, iter_frags. split.
  - intros (f & Hf & Hb). apply list_elem_of_In, list_elem_of_filter in Hf as [Hw Hf].
    apply list_elem_of_fmap in Hf as (i & -> & Hi). apply elem_of_seq in Hi.
    rewrite frag_bit_pos in Hb by lia. pose proof (pos_lt i). bool_to_prop.
    exists i. cbn [window frag] in Hw. split_and!; lia.
  - intros (i & Hi & Hw & Hp). exists (frag i). split.
    + apply list_elem_of_In, list_elem_of_filter. split; [cbn [window frag]; by rewrite Hw |].
      apply list_elem_of_fmap. exists i. split; [done |]. apply elem_of_seq. lia.
    + rewrite frag_bit_pos by lia. apply Z.eqb_eq. lia.
Qed.

Lemma assigned_bound w : 0 <= assigned_bitmap_inner s w <= BITMAP_MASK.
Proof.
  assert (assigned_bitmap_inner s w = Z.land (assigned_bitmap_inner s w) BITMAP_MASK) as ->;
    [| apply land_mask_bound].
  apply Z.bits_inj'. intros m Hm. rewrite Z.land_spec, mask_bit by done.
  destruct (m <? 63) eqn:E; [by rewrite andb_true_r |]. rewrite andb_false_r. bool_to_prop.
  unfold assigned_bitmap_inner. rewrite fold_lor_bits, Z.bits_0. cbn [orb].
  apply not_true_iff_false. rewrite existsb_exists, iter_frags. intros (f & Hf & Hb).
  apply list_elem_of_In, list_elem_of_filter in Hf as [_ Hf].
  apply list_elem_of_fmap in Hf as (i & -> & _). rewrite frag_bit_pos in Hb by lia.
  bool_to_prop. lia.
Qed.

Lemma fragment_at_pos i : (i < N)%nat ->
  fragment_at_position s (Z.of_nat (i / 63)) (Z.of_nat (pos i)) = Some (frag i).
Proof.
  intros Hi. unfold fragment_at_position. rewrite iter_frags.
  assert (forall f, f ∈ frag <$> seq 0 N ->
    ((window f =? Z.of_nat (i / 63)) &&
     (if is_all_1 f then Z.of_nat (pos i) =? 62 else Z.of_nat (pos i) =? 62 - fcn f)) =
    bool_decide (f = frag i)) as Hf.
  { intros f Hf. apply list_elem_of_fmap in Hf as (j & -> & Hj). apply elem_of_seq in Hj.
    pose proof (Nat.mod_upper_bound j 63 ltac:(lia)).
    assert ((if is_all_1 (frag j) then Z.of_nat (pos i) =? 62
             else Z.of_nat (pos i) =? 62 - fcn (frag j)) = (pos i =? pos j)%nat) as ->.
    { rewrite frag_all_1. unfold pos at 4. unfold frag. cbn [fcn].
      destruct (j + 1 =? N)%nat eqn:?; apply eq_true_iff_eq; rewrite Z.eqb_eq, Nat.eqb_eq; lia. }
    apply eq_true_iff_eq. rewrite andb_true_iff, Z.eqb_eq, Nat.eqb_eq, bool_decide_eq_true.
    split.
    - intros [Hw Hp]. cbn [window frag] in Hw. f_equal. symmetry. apply pos_inj; [done | lia | lia | done].
    - intros E. assert (window (frag j) = window (frag i)) as Hw by by rewrite E.
      assert (fcn (frag j) = fcn (frag i)) as Hc by by rewrite E.
      split; [done |]. cbn [fcn window frag] in Hw, Hc. unfold pos.
      pose proof (Nat.mod_upper_bound i 63 ltac:(lia)).
      destruct (i + 1 =? N)%nat, (j + 1 =? N)%nat; lia. }
  assert (frag i ∈ frag <$> seq 0 N) as Hin.
  { apply list_elem_of_fmap. exists i. split; [done |]. apply elem_of_seq. lia. }
  revert Hf Hin. generalize (frag <$> seq 0 N). induction l as [|f l IH]; intros Hf Hin.
  - by apply elem_of_nil in Hin.
  - simpl. rewrite Hf by constructor. case_bool_decide as E; [by rewrite E |].
    apply IH; [intros; apply Hf; by constructor |]. apply elem_of_cons in Hin as [?|?]; congruence.
Qed.

End tiling.

(** ** Retransmission *)

Lemma seq_sorted k n : StronglySorted lt (seq k n).
Proof.
  revert k. induction n as [|n IH]; intros k; simpl; constructor; [apply IH |].
  apply Forall_forall. intros j Hj. apply elem_of_seq in Hj. lia.
Qed.

Lemma filter_none {A} (P : A -> Prop) `{forall x, Decision (P x)} l :
  Forall (fun x => ~ P x) l -> filter P l = [].
Proof. induction 1; [done |]. rewrite filter_cons, decide_False by done. done. Qed.

Lemma filter_ext_in {A} (P Q : A -> Prop) `{forall x, Decision (P x), forall x, Decision (Q x)} (l : list A) :
  (forall x, x ∈ l -> P x <-> Q x) -> filter P l = filter Q l.
Proof.
  induction l as [|x l IH]; intros Hpq; [done |]. rewrite !filter_cons.
  rewrite IH by (intros; apply Hpq; by constructor).
  destruct (Hpq x ltac:(constructor)). do 2 case_decide; tauto.
Qed.

Lemma sorted_filter {A} (R : A -> A -> Prop) (P : A -> Prop) `{forall x, Decision (P x)} l :
  StronglySorted R l -> StronglySorted R (filter P l).
Proof.
  induction 1 as [|x l Hl IH Hx]; [constructor |].
  rewrite filter_cons. case_decide; [| done]. constructor; [done |]. rewrite Forall_forall in *.
  intros y Hy. apply list_elem_of_filter in Hy as [_ Hy]. auto.
Qed.

Lemma sorted_weaken {A} (R R' : A -> A -> Prop) l :
  (forall x y, x ∈ l -> y ∈ l -> R x y -> R' x y) -> StronglySorted R l -> StronglySorted R' l.
Proof.
  intros Himp Hl. induction Hl as [|x l Hl IH Hx]; constructor.
  - apply IH. intros. apply Himp; by repeat constructor.
  - rewrite Forall_forall in *. intros y Hy. apply Himp; [by constructor | by constructor | auto].
Qed.

Lemma filter_key_none {A} (f : A -> nat) (l : list A) c : (forall x, x ∈ l -> f x <> c) ->
  filter (fun x => c <= f x)%nat l = filter (fun x => c + 1 <= f x)%nat l.
Proof.
  induction l as [|x l IH]; intros H; [done |]. rewrite !filter_cons, IH
    by (intros; apply H; by constructor).
  specialize (H x ltac:(constructor)). do 2 case_decide; done || lia.
Qed.

Lemma filter_key_here {A} (f : A -> nat) (l : list A) c x : StronglySorted (fun a b => f a < f b)%nat l ->
  x ∈ l -> f x = c ->
  filter (fun x => c <= f x)%nat l = x :: filter (fun x => c + 1 <= f x)%nat l.
Proof.
  induction 1 as [|y l Hl IH Hy]; intros Hx Hc; [by apply elem_of_nil in Hx |].
  rewrite !filter_cons. apply elem_of_cons in Hx as [<-|Hx].
  - rewrite decide_True, decide_False by lia. f_equal. apply filter_key_none.
    intros z Hz. rewrite Forall_forall in Hy. specialize (Hy z Hz). simpl in Hy. lia.
  - rewrite Forall_forall in Hy. specialize (Hy x Hx). simpl in Hy.
    rewrite !decide_False by lia. auto.
Qed.

Lemma filter_tail {A} (f : A -> nat) (l : list A) c x rest : StronglySorted (fun a b => f a < f b)%nat l ->
  x :: rest = filter (fun x => c <= f x)%nat l ->
  rest = filter (fun y => f x + 1 <= f y)%nat l.
Proof.
  induction 1 as [|y l Hl IH Hy]; intros E; [done |]. rewrite filter_cons in E. rewrite filter_cons.
  rewrite Forall_forall in Hy. case_decide.
  - injection E as -> ->. rewrite decide_False by lia.
    rewrite !filter_all; [done | |]; apply Forall_forall; intros z Hz;
      specialize (Hy z Hz); simpl in Hy; lia.
  - assert (x ∈ l) as Hx.
    { assert (x ∈ filter (fun x => c <= f x)%nat l) as Hx by (rewrite <- E; constructor).
      by apply list_elem_of_filter in Hx as [_ ?]. }
    specialize (Hy x Hx). simpl in Hy. rewrite decide_False by lia. auto.
Qed.

(** Every message [write_next] produces for one output, in the order sent. *)
Fixpoint drain (fuel : nat) (s : FragmentSender) (o : SenderOutput) : list bytes :=
  match fuel with
  | O => []
  | S fuel =>
      match write_next_inner s o (replicate MAX_FRAGMENT_WIRE_SIZE 0) with
      | (Ok (Some n), o', out) => take n out :: drain fuel s o'
      | _ => []
      end
  end.

(** The fragments of window [w] whose position is set in [missing]. *)
Definition missing_frags (s : FragmentSender) (w : nat) (missing : Z) : list nat :=
  filter (fun i => (i / 63 = w)%nat /\ Z.testbit missing (62 - Z.of_nat (pos s i)) = true)
         (seq 0 s.(count)).

Definition ack_req_wire (s : FragmentSender) : bytes :=
  [s.(s_rule_id); wrap8 (Z.shiftl (final_window s) 7)].

Section retransmission.
Context (s : FragmentSender) (Hs : sender_ok s) (Hact : s.(status) = Active).
Context (w : nat) (missing : Z).
Hypothesis Hmiss : forall p, (p < 63)%nat -> Z.testbit missing (62 - Z.of_nat p) = true ->
  Z.testbit (assigned_bitmap_inner s (Z.of_nat w)) (62 - Z.of_nat p) = true.

Abbreviation M := (missing_frags s w missing).

Lemma elem_of_missing i : i ∈ M <->
  (i < s.(count))%nat /\ (i / 63 = w)%nat /\ Z.testbit missing (62 - Z.of_nat (pos s i)) = true.
Proof. unfold missing_frags. rewrite list_elem_of_filter, elem_of_seq. intuition lia. Qed.

Lemma missing_sorted : StronglySorted (fun a b => pos s a < pos s b)%nat M.
Proof.
  apply (sorted_weaken lt); [| apply sorted_filter, seq_sorted].
  intros x y Hx Hy Hlt. apply elem_of_missing in Hx as (Hx & Hwx & _), Hy as (Hy & Hwy & _).
  unfold pos. pose proof (Nat.Div0.div_mod x 63). pose proof (Nat.Div0.div_mod y 63).
  pose proof (Nat.mod_upper_bound x 63 ltac:(lia)). pose proof (Nat.mod_upper_bound y 63 ltac:(lia)).
  rewrite (proj2 (Nat.eqb_neq (x + 1) _)) by lia.
  destruct (y + 1 =? count s)%nat eqn:?; bool_to_prop; lia.
Qed.

Lemma next_missing_spec fuel : forall c, (c + fuel = 63)%nat ->
  next_missing s (Z.of_nat w) missing (Z.of_nat c) fuel =
  (fun i => (Z.of_nat (pos s i), frag s i)) <$> head (filter (fun i => c <= pos s i)%nat M).
Proof.
  induction fuel as [|fuel IH]; intros c Hc.
  - rewrite filter_none; [done |].
    apply Forall_forall. intros i _. pose proof (pos_lt s i). lia.
  - cbn [next_missing]. destruct (Z.land _ _ =? 0) eqn:E.
    + apply (f_equal negb) in E. rewrite land_bit_test in E by lia. simpl in E.
      replace (Z.of_nat c + 1) with (Z.of_nat (c + 1)) by lia. rewrite IH by lia.
      rewrite (filter_key_none _ _ c); [done |]. intros i Hi Hp.
      apply elem_of_missing in Hi as (_ & _ & Hb). rewrite Hp in Hb. congruence.
    + apply (f_equal negb) in E. rewrite land_bit_test in E by lia. simpl in E.
      pose proof E as Ha. apply Hmiss in Ha; [| lia].
      apply (assigned_spec s Hs) in Ha as (i & Hi & Hw & Hp); [| lia].
      pose proof (fragment_at_pos s Hs i Hi) as Hf. rewrite Hw, Hp in Hf. rewrite Hf.
      rewrite (filter_key_here (pos s) M c i missing_sorted); [simpl; by rewrite Hp | | done].
      apply elem_of_missing. by rewrite Hp.
Qed.

Lemma write_frag i : (i < s.(count))%nat ->
  exists out, fragment_write_to (frag s i) (replicate MAX_FRAGMENT_WIRE_SIZE 0)
  = (Ok (length (wire (frag s i))), out) /\ take (length (wire (frag s i))) out = wire (frag s i).
Proof.
  intros Hi. pose proof (frag_ok s Hs i Hi) as Hf. eexists. split.
  - apply write_to_wire; [done |]. rewrite length_replicate, frag_wire_length, frag_all_1 by done.
    change (payload (frag s i)) with (tile s i). rewrite tile_length, MAX_WIRE_val by done.
    unfold MIC_LENGTH. pose proof (count_bounds s Hs). destruct (_ =? _)%nat; lia.
  - apply take_app_length.
Qed.

Lemma write_ack_req : exists out,
  control_write_to (AckRequest s.(s_rule_id) (final_window s)) (replicate MAX_FRAGMENT_WIRE_SIZE 0)
  = (Ok 2%nat, out) /\ take 2 out = ack_req_wire s.
Proof.
  unfold control_write_to. pose proof (window_of s Hs (count s - 1)). pose proof (count_bounds s Hs).
  rewrite final_window_val, (proj2 (Z.leb_le _ _)), (sok_rule s Hs) by (done || lia).
  eexists. split; [reflexivity |]. unfold ack_req_wire. by rewrite final_window_val.
Qed.

(** From position [c] on, the fragments still selected are sent in order, then
    the ACK request when one is due. *)
Lemma drain_from l : forall c request fuel, (length l + 1 < fuel)%nat -> (c <= 63)%nat ->
  l = filter (fun i => c <= pos s i)%nat M ->
  drain fuel s (OutRetransmit (Z.of_nat w) missing (Z.of_nat c) request) =
  ((fun i => wire (frag s i)) <$> l) ++ (if request : bool then [ack_req_wire s] else []).
Proof.
  induction l as [|i l IH]; intros c request fuel Hf Hc Hl;
    (destruct fuel as [|fuel]; [simpl in Hf; lia |]); cbn [drain write_next_inner];
    rewrite bool_decide_eq_true_2 by done; cbn [negb]; rewrite Nat2Z.id;
    unfold WINDOW_SIZE; rewrite next_missing_spec by lia; rewrite <- Hl; cbn [head fmap option_fmap option_map].
  - destruct request; [| done]. destruct write_ack_req as (out & -> & Ho). rewrite Ho.
    destruct fuel as [|fuel]; [simpl in Hf; lia |]. cbn [drain write_next_inner].
    rewrite bool_decide_eq_true_2 by done. done.
  - assert (i ∈ filter (fun i => c <= pos s i)%nat M) as Hi by (rewrite <- Hl; constructor).
    apply list_elem_of_filter in Hi as [Hci Hi]. pose proof Hi as Hi'.
    apply elem_of_missing in Hi' as (Hlt & _ & _). pose proof (pos_lt s i).
    destruct (write_frag i Hlt) as (out & -> & ->). cbn [fmap list_fmap app]. f_equal.
    replace (Z.of_nat (pos s i) + 1) with (Z.of_nat (pos s i + 1)) by lia.
    apply IH; [simpl in Hf; lia | lia |].
    apply (filter_tail _ _ c _ _ missing_sorted). done.
Qed.

End retransmission.

(** ** What a NACK makes the sender do *)

Lemma ldiff_mask_zero x y : 0 <= x <= BITMAP_MASK ->
  Z.land (Z.ldiff x y) BITMAP_MASK = 0 <->
  forall p, (p < 63)%nat -> Z.testbit x (62 - Z.of_nat p) = true -> Z.testbit y (62 - Z.of_nat p) = true.
Proof.
  intros Hx. split.
  - intros E p Hp Hb. apply (f_equal (fun z => Z.testbit z (62 - Z.of_nat p))) in E.
    rewrite Z.land_spec, Z.ldiff_spec, mask_bit, Hb, Z.bits_0 in E by lia.
    rewrite (proj2 (Z.ltb_lt _ _)), andb_true_r in E by lia.
    by destruct (Z.testbit y (62 - Z.of_nat p)).
  - intros H. apply Z.bits_inj'. intros m Hm. rewrite Z.land_spec, Z.ldiff_spec, mask_bit, Z.bits_0 by lia.
    destruct (m <? 63) eqn:E; [| by rewrite andb_false_r]. bool_to_prop. rewrite andb_true_r.
    specialize (H (62 - Z.to_nat m)%nat ltac:(lia)).
    replace (62 - Z.of_nat (62 - Z.to_nat m)) with m in H by lia.
    destruct (Z.testbit x m); [by rewrite H | done].
Qed.

(** The fragments of window [w] an ACK bitmap reports missing, in order. *)
Definition nacked (s : FragmentSender) (w : nat) (bm : Z) : list nat :=
  filter (fun i => (i / 63 = w)%nat /\ Z.testbit bm (62 - Z.of_nat (pos s i)) = false)
         (seq 0 s.(count)).

Lemma missing_nacked s (Hs : sender_ok s) w bm :
  missing_frags s w (Z.ldiff (assigned_bitmap_inner s (Z.of_nat w)) bm) = nacked s w bm.
Proof.
  unfold missing_frags, nacked. apply filter_ext_in. intros i Hi. apply elem_of_seq in Hi.
  pose proof (pos_lt s i). rewrite Z.ldiff_spec by lia. split; intros [Hw Hb]; (split; [done |]).
  - apply andb_true_iff in Hb as [_ Hb]. by apply negb_true_iff in Hb.
  - rewrite Hb, andb_true_r. apply (assigned_spec s Hs); [done |]. exists i. split_and!; [lia | done | done].
Qed.

(** An ACK the receiver of this session may send. *)
Record nack_for (s : FragmentSender) (w : nat) (a : Ack) : Prop := {
  nf_ok : ack_ok a;
  nf_rule : a.(ack_rule_id) = s.(s_rule_id);
  nf_window : a.(ack_window) = Z.of_nat w;
  nf_le : (w <= (s.(count) - 1) / 63)%nat;
  nf_incomplete : a.(complete) = false;
  nf_assigned : forall p, (p < 63)%nat -> Z.testbit a.(bitmap) (62 - Z.of_nat p) = true ->
    Z.testbit (assigned_bitmap_inner s (Z.of_nat w)) (62 - Z.of_nat p) = true
}.

Lemma ack_wire_head a : head (ack_wire a) = Some a.(ack_rule_id).
Proof.
  unfold ack_wire. destruct (complete a); [done |].
  pose proof (put_bits_front (ack_bit (bitmap a)) (seq 0 (6 + ack_body (bitmap a) * 8))
    (ack_rule_id a) (wrap8 (Z.shiftl (ack_window a) 7) :: replicate (ack_body (bitmap a)) 0)) as H.
  pose proof (length_put_bits (ack_bit (bitmap a)) (seq 0 (6 + ack_body (bitmap a) * 8))
    (ack_rule_id a :: wrap8 (Z.shiftl (ack_window a) 7) :: replicate (ack_body (bitmap a)) 0)) as Hl.
  destruct (put_bits _ _ _); simpl in *; [done | congruence].
Qed.

Lemma ack_wire_not_abort a s : ack_ok a -> check_rule s.(s_rule_id) = Ok tt ->
  is_control (ack_wire a) (ReceiverAbort s.(s_rule_id)) = Ok false.
Proof.
  intros H Hr. unfold is_control, control_write_to. rewrite Hr.
  cbn [length replicate Nat.ltb Nat.leb Nat.eqb insert list_insert mbind result_bind].
  f_equal. apply bool_decide_eq_false_2. intros E.
  pose proof (from_ack_wire a None H I) as Hf. rewrite E in Hf. simpl take in Hf.
  apply check_rule_ok in Hr as [Hr | Hr]; rewrite Hr in Hf; vm_compute in Hf; discriminate.
Qed.


Lemma sender_ok_update s att st at_ms : sender_ok s -> sender_ok (s_update s att st at_ms).
Proof. intros []. by split. Qed.

Lemma nacked_all1 s (Hs : sender_ok s) w bm :
  (s.(count) - 1)%nat ∈ nacked s w bm <->
  ((Z.of_nat w =? final_window s) &&
   negb (Z.land (Z.ldiff (assigned_bitmap_inner s (Z.of_nat w)) bm) 1 =? 0)) = true.
Proof.
  pose proof (count_bounds s Hs) as ((HN & _) & _ & _).
  assert (pos s (count s - 1) = 62%nat) as Hp by (unfold pos; by rewrite (proj2 (Nat.eqb_eq _ _)) by lia).
  unfold nacked. rewrite list_elem_of_filter, elem_of_seq, Hp, final_window_val by done.
  change (Z.land ?x 1) with (Z.land x (Z.shiftl 1 0)). rewrite land_bit_test, Z.ldiff_spec by lia.
  rewrite andb_true_iff, Z.eqb_eq, andb_true_iff, negb_true_iff.
  change (62 - Z.of_nat 62) with 0. split.
  - intros [[Hw Hb] _]. split; [lia |]. split; [| done].
    apply (assigned_spec s Hs w 62); [lia |]. exists (count s - 1)%nat. split_and!; [lia | done | done].
  - intros [Hw [_ Hb]]. split; [| lia]. split; [lia | done].
Qed.

Lemma nacked_length s w bm : (length (nacked s w bm) <= 63)%nat.
Proof.
  assert (length (nacked s w bm) = length (pos s <$> nacked s w bm)) as -> by by rewrite length_fmap.
  assert (length (seq 0 63) = 63%nat) as <- by apply length_seq.
  apply submseteq_length, NoDup_submseteq.
  - apply NoDup_fmap_2_strong; [| apply NoDup_filter, NoDup_seq].
    intros i j Hi Hj E. apply list_elem_of_filter in Hi as [[Hi _] Hi2], Hj as [[Hj _] Hj2].
    apply elem_of_seq in Hi2, Hj2. apply (pos_inj s); [lia | lia | congruence | done].
  - intros p Hp. apply list_elem_of_fmap in Hp as (i & -> & _). apply elem_of_seq.
    pose proof (pos_lt s i). lia.
Qed.

Lemma nack_retransmits s w a :
  sender_ok s -> s.(status) = Active -> s.(s_attempts) < MAX_ACK_REQUESTS ->
  nack_for s w a -> nacked s w a.(bitmap) <> [] ->
  exists missing request,
    let s' := s_update s (s.(s_attempts) + 1) Active s.(retransmit_at_ms) in
    handle_ack_bytes_inner s (ack_wire a) = (Ok (OutRetransmit (Z.of_nat w) missing 0 request), s') /\
    drain 65 s' (OutRetransmit (Z.of_nat w) missing 0 request) =
      ((fun i => wire (frag s i)) <$> nacked s w a.(bitmap)) ++
      (if request : bool then [ack_req_wire s] else []) /\
    (request = false <-> (s.(count) - 1)%nat ∈ nacked s w a.(bitmap)).
Proof.
  intros Hs Hact Hatt [Hok Hr Hw Hle Hc Has] Hne.
  set (assigned := assigned_bitmap_inner s (Z.of_nat w)).
  exists (Z.ldiff assigned (bitmap a)).
  exists (negb ((Z.of_nat w =? final_window s) && negb (Z.land (Z.ldiff assigned (bitmap a)) 1 =? 0))).
  cbv zeta. set (s' := s_update _ _ _ _).
  pose proof (ldiff_mask_zero (bitmap a) assigned (aok_bitmap a Hok)) as [_ Hld].
  specialize (Hld Has). split_and!.
  - unfold handle_ack_bytes_inner.
    rewrite bool_decide_eq_true_2, (bool_decide_eq_true_2 (head _ = _)) by
      (done || by rewrite ack_wire_head, Hr). cbn [negb orb].
    rewrite ack_wire_not_abort by (done || apply Hs).
    unfold ack_from_bytes. rewrite from_ack_wire, Hc, Hw by done.
    rewrite final_window_val, (proj2 (Z.ltb_ge _ _)) by (done || lia).
    rewrite from_ack_wire by (done || by right). unfold handle_ack_inner.
    rewrite bool_decide_eq_true_2, Hr, Z.eqb_refl, Hc, Hw by done. cbn [negb orb].
    rewrite final_window_val, (proj2 (Z.ltb_ge _ _)) by (done || lia). fold assigned.
    rewrite Hld. cbn [Z.eqb negb].
    destruct (Z.ldiff assigned (bitmap a) =? 0) eqn:E0.
    { exfalso. apply Hne. rewrite <- missing_nacked by done. fold assigned. bool_to_prop. rewrite E0.
      apply filter_none, Forall_forall. intros i _ [_ Hb]. by rewrite Z.bits_0 in Hb. }
    rewrite (proj2 (Z.leb_gt _ _)), Hact by done. fold s'.
    replace (final_window s') with (final_window s) by done.
    by rewrite final_window_val.
  - pose proof (drain_from s' (sender_ok_update s _ _ _ Hs) eq_refl w
      (Z.ldiff assigned (bitmap a))) as Hd.
    rewrite (Hd ltac:(intros p Hp; rewrite Z.ldiff_spec by lia; by intros [? _]%andb_true_iff)
      (nacked s w (bitmap a)) 0%nat); [done | | lia |].
    + pose proof (nacked_length s w (bitmap a)). lia.
    + change (missing_frags s' w) with (missing_frags s w). rewrite missing_nacked by done.
      symmetry. apply filter_all, Forall_forall. intros. lia.
  - rewrite nacked_all1 by done. fold assigned. rewrite negb_false_iff. done.
Qed.

(** A NACK makes the sender send exactly the fragments it reports missing.
    The wire form of an ACK for one of its windows, with only assigned bits
    set and some missing, is accepted while attempts remain; the sender then
    writes the missing fragments of that window, in order, each once, and ends
    with an ACK request unless the last of them is the All-1. *)
Lemma retransmit_exact s w a :
  sender_ok s -> s.(status) = Active -> s.(s_attempts) < MAX_ACK_REQUESTS ->
  nack_for s w a -> nacked s w a.(bitmap) <> [] ->
  exists missing request,
    let s' := s_update s (s.(s_attempts) + 1) Active s.(retransmit_at_ms) in
    handle_ack_bytes_inner s (ack_wire a) = (Ok (OutRetransmit (Z.of_nat w) missing 0 request), s') /\
    drain 65 s' (OutRetransmit (Z.of_nat w) missing 0 request) =
      ((fun i => wire (frag s i)) <$> nacked s w a.(bitmap)) ++
      (if request : bool then [ack_req_wire s] else []) /\
    (request = false <-> (s.(count) - 1)%nat ∈ nacked s w a.(bitmap)).
Proof. apply nack_retransmits. Qed.

Definition demo_packet : bytes := (fun i => Z.of_nat (i mod 251)) <$> seq 0 400.
Definition demo_sender : result FragmentError FragmentSender :=
  new_raw demo_packet RULE_ID_A_TO_B MAX_PACKET_SIZE ≫= start_inner.

Lemma demo_bytes : bytes_ok demo_packet.
Proof.
  apply Forall_forall. intros x Hx. apply list_elem_of_fmap in Hx as (i & -> & _).
  pose proof (Nat.mod_upper_bound i 251 ltac:(lia)). width.
Qed.

Lemma start_inner_ok s s' : sender_ok s -> start_inner s = Ok s' ->
  sender_ok s' /\ s'.(status) = Active /\ s'.(s_attempts) = 1 /\ s'.(s_payload) = s.(s_payload) /\
  s'.(s_rule_id) = s.(s_rule_id) /\ s'.(count) = s.(count).
Proof.
  intros Hs. unfold start_inner. destruct (negb _); [done |]. intros [= <-].
  by split; [apply sender_ok_update |].
Qed.

Lemma demo_sender_ok s : demo_sender = Ok s ->
  sender_ok s /\ s.(status) = Active /\ s.(s_attempts) = 1 /\ s.(count) = 3%nat /\
  s.(s_rule_id) = RULE_ID_A_TO_B /\ s.(s_payload) = demo_packet.
Proof.
  intros H. apply bind_ok in H as (s0 & H0 & H).
  apply new_unchecked_ok in H0 as (Hs0 & Hp & Hr & _); [| exact demo_bytes].
  apply (start_inner_ok s0) in H as (? & ? & ? & ? & ? & Hc); [| done].
  split_and!; try congruence. rewrite Hc, (sok_count s0 Hs0), Hp. reflexivity.
Qed.

(** The middle one of three fragments is missing. *)
Definition demo_nack : Ack := ack_new RULE_ID_A_TO_B 0 (Z.shiftl 1 62 + 1) false.

Lemma demo_nack_for s : sender_ok s -> s.(count) = 3%nat -> s.(s_rule_id) = RULE_ID_A_TO_B ->
  nack_for s 0 demo_nack /\ nacked s 0 demo_nack.(bitmap) = [1%nat].
Proof.
  intros Hs Hc Hr. split.
  - split; [| done | done | lia | done |].
    + by split; vm_compute.
    + intros p Hp Hb. apply (assigned_spec s Hs 0 p Hp). unfold pos. rewrite Hc.
      destruct (decide (p = 0%nat)) as [->|Hp0]; [by exists 0%nat; split_and!; [lia | |] |].
      destruct (decide (p = 62%nat)) as [->|Hp1]; [by exists 2%nat; split_and!; [lia | |] |].
      exfalso. revert Hb. apply not_true_iff_false.
      change (bitmap demo_nack) with (Z.lor (2 ^ 62) (2 ^ 0)).
      rewrite Z.lor_spec, !Z.pow2_bits_eqb by lia.
      apply orb_false_iff. split; apply Z.eqb_neq; lia.
  - unfold nacked, pos. rewrite Hc. vm_compute. reflexivity.
Qed.

(** ** Bounded retransmission *)

Inductive event := EvAck (data : bytes) | EvTimeout.

Definition sender_step (s : FragmentSender) (e : event) :
    result FragmentError SenderOutput * FragmentSender :=
  match e with
  | EvAck data => handle_ack_bytes_inner s data
  | EvTimeout => timeout_inner s
  end.

(** An output that asks the peer for another ACK. *)
Definition solicits (o : result FragmentError SenderOutput) : bool :=
  match o with Ok (OutRetransmit _ _ _ _) | Ok (OutAckRequest _) => true | _ => false end.

Fixpoint sender_run (s : FragmentSender) (es : list event) : nat * FragmentSender :=
  match es with
  | [] => (0%nat, s)
  | e :: es =>
      let '(o, s) := sender_step s e in
      let '(n, s) := sender_run s es in
      ((if solicits o then 1 else 0) + n, s)%nat
  end.

Definition is_timeout (e : event) : bool := match e with EvTimeout => true | EvAck _ => false end.

(** One step: the attempts count the solicitations, and a timeout in an active
    session solicits or ends it. *)
Lemma handle_ack_inner_step s a o s' : handle_ack_inner s a = (o, s') ->
  s.(s_attempts) <= MAX_ACK_REQUESTS ->
  s'.(s_attempts) = s.(s_attempts) + (if solicits (Ok o) then 1 else 0) /\
  s'.(s_attempts) <= MAX_ACK_REQUESTS /\ (s.(status) <> Active -> s' = s).
Proof.
  unfold handle_ack_inner, abort_output. intros H Ha.
  repeat (case_match; simplify_eq; simpl; try (split_and!; (done || lia))); bool_to_prop;
    repeat case_bool_decide; split_and!; simpl in *; try (done || lia).
Qed.

Lemma sender_step_spec s e o s' : sender_step s e = (o, s') ->
  s.(s_attempts) <= MAX_ACK_REQUESTS ->
  s'.(s_attempts) = s.(s_attempts) + (if solicits o then 1 else 0) /\
  s'.(s_attempts) <= MAX_ACK_REQUESTS /\ (s.(status) <> Active -> s' = s) /\
  (e = EvTimeout -> s.(status) = Active ->
     s'.(status) = Aborted \/ s'.(s_attempts) = s.(s_attempts) + 1).
Proof.
  intros H Ha. destruct e as [data|]; simpl in H.
  - unfold handle_ack_bytes_inner in H.
    destruct (_ || _) eqn:Ed; [injection H as <- <-; simpl; split_and!; (done || lia) |].
    bool_to_prop. apply bool_decide_eq_true_1 in H0.
    repeat (case_match; simplify_eq; simpl; try (split_and!; (done || lia)));
      match goal with E : handle_ack_inner _ _ = _ |- _ =>
        apply handle_ack_inner_step in E as (? & ? & ?); [| done]; split_and!; done end.
  - unfold timeout_inner, abort_output in H.
    destruct (negb _) eqn:Ed; [injection H as <- <-; simpl; bool_to_prop;
      apply bool_decide_eq_false_1 in Ed; split_and!; (done || lia) |].
    bool_to_prop. apply bool_decide_eq_true_1 in Ed.
    destruct (_ <=? _) eqn:E; injection H as <- <-; bool_to_prop; simpl;
      split_and!; (done || lia || auto).
Qed.

Lemma sender_run_inactive es : forall s, s.(status) <> Active ->
  s.(s_attempts) <= MAX_ACK_REQUESTS -> (sender_run s es).2.(status) <> Active.
Proof.
  induction es as [|e es IH]; intros s Hs Ha; [done |]. cbn [sender_run].
  destruct (sender_step s e) as [o s1] eqn:E1. destruct (sender_run s1 es) as [n s2] eqn:E2.
  apply sender_step_spec in E1 as (_ & _ & H & _); [| done].
  specialize (IH s Hs Ha). rewrite <- (H Hs), E2 in IH. exact IH.
Qed.

Lemma sender_run_bound es : forall s, s.(s_attempts) <= MAX_ACK_REQUESTS ->
  s.(s_attempts) + Z.of_nat (sender_run s es).1 <= MAX_ACK_REQUESTS /\
  (MAX_ACK_REQUESTS - s.(s_attempts) < Z.of_nat (length (filter is_timeout es)) ->
   (sender_run s es).2.(status) <> Active).
Proof.
  induction es as [|e es IH]; intros s Ha; [simpl; lia |]. cbn [sender_run].
  destruct (sender_step s e) as [o s1] eqn:E1.
  apply sender_step_spec in E1 as (H1 & H2 & H3 & H4); [| done].
  destruct (IH s1 H2) as [Hb Ht]. pose proof (sender_run_inactive es s1) as Hin.
  destruct (sender_run s1 es) as [n s2] eqn:E2. cbn [fst snd] in *. split.
  - destruct (solicits o); lia.
  - intros Hlen. rewrite filter_cons in Hlen. destruct (decide (s.(status) = Active)) as [Hact|Hna].
    + destruct e as [data|]; simpl in Hlen.
      * apply Ht. destruct (solicits o); lia.
      * destruct (H4 eq_refl Hact) as [Hab|Hinc]; [apply Hin; [by rewrite Hab | done] |].
        apply Ht. lia.
    + rewrite (H3 Hna) in Hin. by apply Hin.
Qed.

(** A started sender asks for an ACK at most three more times, whatever
    octets it receives and however its timer fires, so that with the first
    transmission no session exceeds [MAX_ACK_REQUESTS]; and four timer expiries
    always end it, in success or abort. *)
Lemma sender_bounded payload rule lim permit s0 s es :
  bytes_ok payload -> new_unchecked payload rule lim permit = Ok s0 -> start_inner s0 = Ok s ->
  1 + Z.of_nat (sender_run s es).1 <= MAX_ACK_REQUESTS /\
  ((4 <= length (filter is_timeout es))%nat -> (sender_run s es).2.(status) <> Active).
Proof.
  intros Hb H0 H1. apply new_unchecked_ok in H0 as (Hs & _); [| done].
  apply start_inner_ok in H1 as (_ & _ & Ha & _); [| done].
  destruct (sender_run_bound es s) as [Hn Ht]; [rewrite Ha; vm_compute; discriminate |].
  rewrite Ha in *. split; [done |]. intros Hl. apply Ht. unfold MAX_ACK_REQUESTS. lia.
Qed.

End FragSender.
