(* ===== verification/FragHonest.v ===== *)
(** * SCHC fragmentation: a receiver fed by one sender

    The invariant that ties a receiver to the sender whose fragments it hears,
    in any order, with losses and duplicates: every tile marked in its bitmaps
    is the sender's tile, and the All-1 it holds is the sender's. *)

From S2P Require Import Prelude FragCodec FragSession FragReceiver FragSender.
Import Frag FragSession FragReceiver FragSender.

Module FragHonest.

(** ** Writes into a buffer, seen by slices *)

Lemma lookup_slice {A} a b (l : list A) j :
  slice a b l !! j = if (j <? b - a)%nat then l !! (a + j)%nat else None.
Proof.
  unfold slice. destruct (j <? b - a)%nat eqn:E; bool_to_prop.
  - by rewrite lookup_take_lt, lookup_drop by lia.
  - apply lookup_ge_None_2. rewrite length_take. lia.
Qed.

Lemma slice_ext {A} a b (l l' : list A) :
  (forall j, (a <= j < b)%nat -> l !! j = l' !! j) -> slice a b l = slice a b l'.
Proof.
  intros H. apply list_eq. intros j. rewrite !lookup_slice.
  destruct (j <? b - a)%nat eqn:E; [| done]. bool_to_prop. apply H. lia.
Qed.

Lemma slice_inserts_other {A} a b i (k buf : list A) :
  (b <= i)%nat \/ (i + length k <= a)%nat ->
  slice a b (list_inserts i k buf) = slice a b buf.
Proof.
  intros H. apply slice_ext. intros j Hj. destruct H.
  - apply list_lookup_inserts_lt. lia.
  - apply list_lookup_inserts_ge. lia.
Qed.

Lemma slice_inserts_same {A} i (k buf : list A) : (i + length k <= length buf)%nat ->
  slice i (i + length k) (list_inserts i k buf) = k.
Proof.
  intros H. apply list_eq. intros j. rewrite lookup_slice.
  replace (i + length k - i)%nat with (length k) by lia.
  destruct (j <? length k)%nat eqn:E; bool_to_prop.
  - rewrite list_lookup_inserts by lia. f_equal. lia.
  - symmetry. by apply lookup_ge_None_2.
Qed.

Lemma take_inserts {A} i (k buf : list A) : (i + length k <= length buf)%nat ->
  take (i + length k) (list_inserts i k buf) = take i buf ++ k.
Proof.
  intros H. pose proof (slice_split 0 i (i + length k) (list_inserts i k buf)) as E.
  rewrite slice_inserts_same in E by done. rewrite slice_inserts_other in E by lia.
  unfold slice in E. rewrite !drop_0, !Nat.sub_0_r in E. rewrite <- E by lia. done.
Qed.

(** ** Counting bits *)

Lemma count_ones_positions b : 0 <= b <= BITMAP_MASK ->
  count_ones b = length (filter (fun p => Z.testbit b (62 - Z.of_nat p) = true) (seq 0 63)).
Proof.
  intros Hb. unfold count_ones.
  set (F := filter (fun i => Z.testbit b (Z.of_nat i) = true) (seq 0 64)).
  set (G := filter (fun p => Z.testbit b (62 - Z.of_nat p) = true) (seq 0 63)).
  assert (forall i, i ∈ F -> (i < 63)%nat /\ Z.testbit b (Z.of_nat i) = true) as HF.
  { intros i Hi. apply list_elem_of_filter in Hi as [Hi Hs]. split; [| done].
    apply elem_of_seq in Hs. destruct (decide (i = 63%nat)) as [->|]; [| lia].
    rewrite <- (land_mask b Hb), Z.land_spec, mask_bit, andb_false_r in Hi by lia. done. }
  assert (Permutation ((fun i => 62 - i)%nat <$> F) G) as HP.
  { apply NoDup_Permutation.
    - apply NoDup_fmap_2_strong; [| apply NoDup_filter, NoDup_seq].
      intros x y Hx Hy. apply HF in Hx as [? _], Hy as [? _]. lia.
    - apply NoDup_filter, NoDup_seq.
    - intros p. unfold G. rewrite list_elem_of_fmap, list_elem_of_filter, elem_of_seq. split.
      + intros (i & -> & Hi). apply HF in Hi as [Hi Ht].
        replace (62 - Z.of_nat (62 - i)) with (Z.of_nat i) by lia. split; [done | lia].
      + intros [Ht Hp]. exists (62 - p)%nat. split; [lia |].
        apply list_elem_of_filter. rewrite elem_of_seq.
        replace (Z.of_nat (62 - p)) with (62 - Z.of_nat p) by lia. split; [done | lia]. }
  by rewrite <- HP, length_fmap.
Qed.

(** ** The bitmaps as a set of tiles *)

Definition bitmap_of (r : FragmentReceiver) (w : nat) : Z := nth w r.(bitmaps) 0.
Definition got (r : FragmentReceiver) (i : nat) : bool :=
  Z.testbit (bitmap_of r (i / 63)) (62 - Z.of_nat (i mod 63)).

Lemma div63 w p : (p < 63)%nat -> ((63 * w + p) / 63 = w)%nat /\ ((63 * w + p) mod 63 = p)%nat.
Proof.
  intros Hp. rewrite Nat.mul_comm. split.
  - rewrite Nat.div_add_l, Nat.div_small by lia. lia.
  - rewrite Nat.add_comm, Nat.Div0.mod_add, Nat.mod_small by lia. done.
Qed.

Lemma got_bit r w p : (p < 63)%nat ->
  got r (63 * w + p) = Z.testbit (bitmap_of r w) (62 - Z.of_nat p).
Proof. intros Hp. unfold got. destruct (div63 w p Hp) as [-> ->]. done. Qed.

Lemma bitmaps_two r : receiver_ok r -> exists b0 b1, r.(bitmaps) = [b0; b1] /\
  bitmap_of r 0 = b0 /\ bitmap_of r 1 = b1 /\ 0 <= b0 <= BITMAP_MASK /\ 0 <= b1 <= BITMAP_MASK.
Proof.
  intros [(b0 & b1 & E & H0 & H1) _ _ _ _ _]. exists b0, b1. unfold bitmap_of. by rewrite E.
Qed.

Lemma bitmap_of_bound r w : receiver_ok r -> 0 <= bitmap_of r w <= BITMAP_MASK.
Proof.
  intros H. destruct (bitmaps_two r H) as (b0 & b1 & E & _ & _ & H0 & H1).
  unfold bitmap_of. rewrite E. by destruct w as [|[|[|w]]].
Qed.

Lemma bitmaps_at r w : receiver_ok r -> (w <= 1)%nat ->
  r.(bitmaps) !! Z.to_nat (Z.of_nat w) = Some (bitmap_of r w).
Proof.
  intros H Hw. destruct (bitmaps_two r H) as (b0 & b1 & E & _). unfold bitmap_of.
  rewrite E, Nat2Z.id. by destruct w as [|[|w]]; [| | lia].
Qed.

Lemma got_set_tile r st i b : receiver_ok r -> (i < 126)%nat ->
  b = Z.lor (bitmap_of r (i / 63)) (Z.shiftl 1 (62 - Z.of_nat (i mod 63))) ->
  forall j, (j < 126)%nat ->
  got (set_tile r st (<[(i / 63)%nat := b]> r.(bitmaps))) j = got r j || (j =? i)%nat.
Proof.
  intros H Hi -> j Hj. destruct (bitmaps_two r H) as (b0 & b1 & E & _).
  assert (i / 63 <= 1)%nat by (enough (i / 63 < 2)%nat by lia; apply Nat.Div0.div_lt_upper_bound; lia).
  assert (j / 63 <= 1)%nat by (enough (j / 63 < 2)%nat by lia; apply Nat.Div0.div_lt_upper_bound; lia).
  pose proof (Nat.Div0.div_mod i 63). pose proof (Nat.Div0.div_mod j 63).
  pose proof (Nat.mod_upper_bound i 63 ltac:(lia)). pose proof (Nat.mod_upper_bound j 63 ltac:(lia)).
  unfold got. assert (bitmap_of (set_tile r st (<[(i / 63)%nat :=
      Z.lor (bitmap_of r (i / 63)) (Z.shiftl 1 (62 - Z.of_nat (i mod 63)))]> (bitmaps r))) (j / 63) =
    if (j / 63 =? i / 63)%nat
    then Z.lor (bitmap_of r (i / 63)) (Z.shiftl 1 (62 - Z.of_nat (i mod 63))) else bitmap_of r (j / 63))
    as ->.
  { unfold bitmap_of. cbn [bitmaps set_tile]. rewrite E. rewrite !nth_lookup.
    destruct (Nat.eqb_spec (j / 63) (i / 63)) as [->|Hne].
    - rewrite list_lookup_insert_eq by (cbn [length]; lia); done.
    - by rewrite list_lookup_insert_ne by done. }
  destruct (Nat.eqb_spec (j / 63) (i / 63)) as [Hw|Hw].
  - rewrite Z.lor_spec, Z.shiftl_1_l, Z.pow2_bits_eqb, Hw by lia. f_equal.
    apply eq_true_iff_eq. rewrite Z.eqb_eq, Nat.eqb_eq. split; [lia | by intros ->].
  - rewrite (proj2 (Nat.eqb_neq j i)), orb_false_r by congruence. done.
Qed.

(** ** The invariant *)

Record honest (s : FragmentSender) (r : FragmentReceiver) : Prop := {
  h_ok : receiver_ok r;
  h_limit : (length s.(s_payload) <= r.(limit))%nat;
  h_rule : r.(r_rule_id) = None \/ r.(r_rule_id) = Some s.(s_rule_id);
  h_tiles : forall i, (i < 126)%nat -> got r i = true ->
    (i + 1 < s.(count))%nat /\ slice (i * 179) (i * 179 + 179) r.(storage) = tile s i;
  h_all1 : r.(all1) = true ->
    r.(r_rule_id) = Some s.(s_rule_id) /\ r.(all1_window) = final_window s /\
    r.(all1_mic) = s.(s_mic) /\ r.(final_len) = length (tile s (s.(count) - 1)) /\
    take r.(final_len) r.(final_tile) = tile s (s.(count) - 1);
  h_live : r.(done_) = false;
  h_nopkt : r.(packet_len) = None
}.

(** What a step keeps: the tiles received so far, the All-1 and the budget. *)
Record keeps (r r' : FragmentReceiver) : Prop := {
  k_got : forall i, (i < 126)%nat -> got r' i = got r i;
  k_all1 : r'.(all1) = r.(all1);
  k_attempts : r'.(r_attempts) = r.(r_attempts)
}.

Lemma fresh_honest s storage r : new_inner storage = Ok r ->
  (length s.(s_payload) <= r.(limit))%nat -> honest s r.
Proof.
  intros Hn Hl. pose proof (new_inner_ok storage r Hn) as Hok.
  unfold new_inner in Hn. destruct (_ =? 0)%nat; [done |]. injection Hn as <-.
  split; simpl; try done; [by left |]. intros i Hi. unfold got, bitmap_of. simpl bitmaps.
  destruct (i / 63)%nat as [|[|[]]]; by rewrite Z.bits_0.
Qed.

Lemma reset_honest s r : receiver_ok r -> (length s.(s_payload) <= r.(limit))%nat ->
  honest s (reset r).
Proof.
  intros Hok Hl. split; simpl; try done; [by apply reset_ok | by left |].
  intros i Hi. unfold got, bitmap_of. simpl bitmaps.
  destruct (i / 63)%nat as [|[|[]]]; by rewrite Z.bits_0.
Qed.

Section honest.
Context (s : FragmentSender) (Hs : sender_ok s).

Abbreviation N := s.(count).
Abbreviation last := (N - 1)%nat.

Lemma set_rule_honest r : honest s r -> honest s (set_rule r s.(s_rule_id)).
Proof.
  intros []. split; simpl; try done; [by apply set_rule_ok | by right |].
  intros Ha. destruct (h_all2 Ha) as (_ & ?). by split.
Qed.

Lemma frag_valid i : (i < N)%nat -> fragment_valid (frag s i) = true.
Proof.
  intros Hi. pose proof (frag_ok s Hs i Hi) as Hf.
  pose proof (guards_inv _ (fok_guards _ Hf)) as (Hr & Hw & Hc & Hg).
  pose proof (fok_window _ Hf). pose proof (fok_fcn _ Hf).
  unfold fragment_valid. rewrite Hr. change ALL_1_FCN with 63.
  rewrite (proj2 (Z.leb_le (window _) 1)), (proj2 (Z.leb_le (fcn _) 63)) by done.
  cbn [is_ok andb]. destruct (is_all_1 (frag s i)).
  - cbn [orb andb negb]. by rewrite !(proj2 (Nat.leb_le _ _)) by lia.
  - destruct Hg as (Hl & Hm & Hz). rewrite Hl, Nat.eqb_refl, bool_decide_eq_true_2 by done.
    cbn [orb andb negb]. rewrite andb_true_r. unfold is_all_0 in Hz.
    destruct (window (frag s i) =? 0) eqn:?, (fcn (frag s i) =? 0) eqn:?; try done.
    bool_to_prop. rewrite (proj2 (Z.eqb_eq _ _)) in Hz by lia. done.
Qed.

Lemma index_lt i : (i < N)%nat -> (i < 126)%nat.
Proof. pose proof (count_bounds s Hs). lia. Qed.

Lemma ordinal_index i : (i + 1 < N)%nat ->
  (Z.to_nat (window (frag s i)) * WINDOW_SIZE + 62 - Z.to_nat (fcn (frag s i)))%nat = i.
Proof.
  intros Hi. cbn [window fcn frag]. rewrite (proj2 (Nat.eqb_neq (i + 1) N)) by lia.
  pose proof (Nat.mod_upper_bound i 63 ltac:(lia)). pose proof (Nat.Div0.div_mod i 63).
  unfold WINDOW_SIZE. rewrite Nat2Z.id. lia.
Qed.

(** A regular fragment is recorded, or recognised as a duplicate. *)
Lemma receive_regular r i :
  honest s r -> r.(r_rule_id) = Some s.(s_rule_id) -> (i + 1 < N)%nat ->
  exists r', receive_tile r (frag s i) = Some (result_default, r') /\ honest s r' /\
    r'.(r_rule_id) = Some s.(s_rule_id) /\ r'.(all1) = r.(all1) /\ r'.(r_attempts) = r.(r_attempts) /\
    forall j, (j < 126)%nat -> got r' j = got r j || (j =? i)%nat.
Proof.
  intros H Hr Hi. pose proof (ordinal_index i Hi) as Ho. pose proof (count_bounds s Hs) as (HN & H1 & H2).
  pose proof (tile_length s Hs i ltac:(lia)) as Hl.
  rewrite (proj2 (Nat.eqb_neq (i + 1) N)) in Hl by lia.
  pose proof (Nat.mod_upper_bound i 63 ltac:(lia)) as Hm. pose proof (Nat.Div0.div_mod i 63) as Hdm.
  pose proof (window_of s Hs i ltac:(lia)) as Hw. pose proof (h_ok s r H) as Hok.
  assert ((i + 1) * 179 <= last * 179)%nat as Hend by (apply Nat.mul_le_mono_r; lia).
  pose proof (h_limit s r H) as Hlim. pose proof (rok_limit r Hok) as Hst.
  unfold receive_tile. rewrite frag_all_1, (proj2 (Nat.eqb_neq (i + 1) N)), Ho by lia.
  assert (fcn (frag s i) = 62 - Z.of_nat (i mod 63)) as Hfcn
    by (cbn [fcn frag]; by rewrite (proj2 (Nat.eqb_neq (i + 1) N)) by lia).
  rewrite Hfcn. change (window (frag s i)) with (Z.of_nat (i / 63)).
  change (payload (frag s i)) with (tile s i).
  destruct ((_ =? 1) && (_ =? 0)) eqn:E1; [bool_to_prop; lia |].
  destruct (all1 r && _) eqn:E2.
  { exfalso. apply andb_true_iff in E2 as [Ha E2]. destruct (h_all1 s r H Ha) as (_ & Hw1 & _).
    rewrite Hw1, final_window_val in E2 by done.
    pose proof (Nat.Div0.div_mod last 63). pose proof (Nat.mod_upper_bound last 63 ltac:(lia)).
    assert (i / 63 <= last / 63)%nat by (apply Nat.Div0.div_le_mono; lia).
    apply orb_true_iff in E2 as [E2|E2]; bool_to_prop; lia. }
  rewrite TILE_SIZE_val, (proj2 (Nat.ltb_ge _ _)) by lia.
  rewrite (bitmaps_at r (i / 63) Hok Hw). cbn [mbind option_bind].
  rewrite (proj2 (Nat.ltb_ge _ _)) by lia. rewrite land_bit_test by lia.
  change (Z.testbit (bitmap_of r (i / 63)) (62 - Z.of_nat (i mod 63))) with (got r i).
  destruct (got r i) eqn:Eg.
  - destruct (h_tiles s r H i ltac:(lia) Eg) as [_ Ht].
    replace ((i + 1) * 179)%nat with (i * 179 + 179)%nat by lia.
    rewrite Ht, bool_decide_eq_true_2 by done. cbn [negb]. exists r. split_and!; try done.
    intros j Hj. destruct (Nat.eqb_spec j i) as [->|]; [by rewrite Eg | by rewrite orb_false_r].
  - destruct (copy_in_some (i * 179) (tile s i) (storage r)) as [-> Hsl]; [lia |].
    cbn [mbind option_bind]. eexists. split; [reflexivity |]. rewrite Nat2Z.id.
    assert (forall j, (j < 126)%nat -> got (set_tile r (list_inserts (i * 179) (tile s i) (storage r))
      (<[(i / 63)%nat := Z.lor (bitmap_of r (i / 63)) (Z.shiftl 1 (62 - Z.of_nat (i mod 63)))]>
         (bitmaps r))) j = got r j || (j =? i)%nat) as Hg
      by (apply got_set_tile; [done | lia | done]).
    split_and!; try done. destruct H. split; try done.
    + rewrite <- (Nat2Z.id (i / 63)). apply set_tile_ok; [done | lia | done |].
      apply lor_bit_bound; [by apply bitmap_of_bound | lia].
    + intros j Hj Hgj. rewrite Hg in Hgj by done. cbn [storage set_tile].
      destruct (Nat.eqb_spec j i) as [->|Hne].
      * split; [done |]. pose proof (slice_inserts_same (i * 179) (tile s i) (storage r)) as Hss.
        rewrite Hl in Hss. apply Hss. lia.
      * rewrite orb_false_r in Hgj. destruct (h_tiles0 j Hj Hgj) as [? <-]. split; [done |].
        apply slice_inserts_other. rewrite Hl. lia.
Qed.

(** No more tiles are marked than the sender has regular ones. *)
Lemma ones_le r : honest s r ->
  (count_ones (bitmap_of r 0) + count_ones (bitmap_of r 1) <= last)%nat.
Proof.
  intros H. pose proof (h_ok s r H) as Hok.
  rewrite !count_ones_positions by (by apply bitmap_of_bound).
  set (G w := filter (fun p => Z.testbit (bitmap_of r w) (62 - Z.of_nat p) = true) (seq 0 63)).
  change (length (G 0%nat) + length (G 1%nat) <= last)%nat.
  assert (forall w p, (w <= 1)%nat -> p ∈ G w -> (p < 63)%nat /\ (63 * w + p < last)%nat) as HG.
  { intros w p Hw Hp. apply list_elem_of_filter in Hp as [Hp Hs0]. apply elem_of_seq in Hs0.
    rewrite <- got_bit in Hp by lia. apply (h_tiles s r H) in Hp as [? _]; lia. }
  assert (length (G 0%nat) + length (G 1%nat) =
    length (G 0%nat ++ ((fun p => 63 + p)%nat <$> G 1%nat)))%nat as -> by (by rewrite length_app, length_fmap).
  rewrite <- (length_seq last 0). apply submseteq_length, NoDup_submseteq.
  - apply NoDup_app. split_and!.
    + apply NoDup_filter, NoDup_seq.
    + intros p Hp Hq. apply list_elem_of_fmap in Hq as (q & -> & _). apply (HG 0%nat) in Hp; lia.
    + apply NoDup_fmap_2_strong; [lia |]. apply NoDup_filter, NoDup_seq.
  - intros p Hp. apply elem_of_seq. apply elem_of_app in Hp as [Hp|Hp].
    + apply (HG 0%nat) in Hp; lia.
    + apply list_elem_of_fmap in Hp as (q & -> & Hq). apply (HG 1%nat) in Hq; lia.
Qed.

Lemma last_bounds : (last / 63 <= 1)%nat /\ (63 * (last / 63) <= last < 63 * (last / 63) + 63)%nat.
Proof.
  pose proof (count_bounds s Hs) as (HN & _). pose proof (window_of s Hs last ltac:(lia)).
  pose proof (Nat.Div0.div_mod last 63). pose proof (Nat.mod_upper_bound last 63 ltac:(lia)). lia.
Qed.

(** No bit of the final window is set at or after the All-1's place. *)
Lemma no_late_bit r w p : honest s r -> (w <= 1)%nat -> (p < 63)%nat -> (last <= 63 * w + p)%nat ->
  Z.testbit (bitmap_of r w) (62 - Z.of_nat p) = false.
Proof.
  intros H Hw Hp Hle. rewrite <- got_bit by done. destruct (got r _) eqn:E; [| done].
  apply (h_tiles s r H) in E as [? _]; lia.
Qed.

Lemma later_windows_empty r : honest s r ->
  existsb (fun b => negb (b =? 0)) (drop (last / 63 + 1) r.(bitmaps)) = false.
Proof.
  intros H. pose proof (h_ok s r H) as Hok. destruct last_bounds as [Hw Hl].
  destruct (bitmaps_two r Hok) as (b0 & b1 & -> & _ & E1 & _ & Hb1).
  destruct (last / 63)%nat as [|[|]] eqn:E; [| done | lia]. simpl drop. simpl existsb.
  assert (b1 = 0) as ->; [| done].
  apply bitmap_eq; [done | done |]. intros m Hm. rewrite Z.bits_0, <- E1.
  replace (Z.of_nat m) with (62 - Z.of_nat (62 - m)) by lia. apply (no_late_bit r 1); (done || lia).
Qed.

(** The All-1 is accepted, and leads to the final check with the same tiles. *)
Lemma receive_all1_honest r :
  honest s r -> r.(r_rule_id) = Some s.(s_rule_id) ->
  exists r', receive_tile r (frag s last) = finalize r' /\ honest s r' /\ r'.(all1) = true /\
    r'.(r_attempts) = r.(r_attempts) /\ forall i, (i < 126)%nat -> got r' i = got r i.
Proof.
  intros H Hr. pose proof (h_ok s r H) as Hok. destruct last_bounds as [Hw Hl].
  pose proof (count_bounds s Hs) as (HN & H1 & H2).
  assert ((last + 1 =? N)%nat = true) as Hlast by (apply Nat.eqb_eq; lia).
  pose proof (tile_length s Hs last ltac:(lia)) as Htl. rewrite Hlast in Htl.
  unfold receive_tile. rewrite frag_all_1, Hlast. unfold receive_all1.
  destruct (bitmaps_two r Hok) as (b0 & b1 & E & E0 & E1 & _ & _).
  assert (bitmaps r !! 0%nat = Some (bitmap_of r 0)) as -> by by rewrite E, E0.
  assert (bitmaps r !! 1%nat = Some (bitmap_of r 1)) as -> by by rewrite E, E1.
  change (window (frag s last)) with (Z.of_nat (last / 63)). rewrite bitmaps_at by done.
  cbn [mbind option_bind]. rewrite Nat2Z.id, later_windows_empty by done.
  change (Z.land ?x 1) with (Z.land x (Z.shiftl 1 0)). rewrite land_bit_test by lia.
  change (Z.testbit ?x 0) with (Z.testbit x (62 - Z.of_nat 62)).
  rewrite (no_late_bit r (last / 63) 62 H Hw) by lia. cbn [orb].
  change (payload (frag s last)) with (tile s last).
  replace (mic (frag s last)) with (s_mic s) by (cbn [mic frag]; by rewrite Hlast).
  destruct (all1 r) eqn:Ha.
  - destruct (h_all1 s r H Ha) as (_ & Hw1 & Hm & _ & Ht).
    rewrite Hw1, final_window_val, Hm, Ht, Z.eqb_refl, !bool_decide_eq_true_2 by done.
    cbn [negb orb]. by exists r.
  - pose proof (ones_le r H) as Hones.
    assert ((count_ones (bitmap_of r 0) + count_ones (bitmap_of r 1)) * 179 <= last * 179)%nat
      by (by apply Nat.mul_le_mono_r).
    pose proof (h_limit s r H). rewrite TILE_SIZE_val, (proj2 (Nat.ltb_ge _ _)) by lia.
    destruct (copy_in_some 0 (tile s last) (final_tile r)) as [-> Hfl].
    { rewrite (rok_tile r Hok), TILE_SIZE_val. lia. }
    cbn [mbind option_bind]. eexists. split; [reflexivity |]. split_and!; try done.
    destruct H as [Hok' Hlim Hrule Htiles _ Hlive Hnp]. split; try done.
    + destruct Hok. split; cbn [all1_window final_tile final_len set_all1 window payload frag];
        try done; [lia | by rewrite Hfl | rewrite TILE_SIZE_val; lia].
    + intros _. cbn [r_rule_id all1_window all1_mic final_len final_tile set_all1 window payload mic frag].
      rewrite Hlast, final_window_val by done. split_and!; try done.
      rewrite <- (Nat.add_0_l (length (tile s last))). rewrite take_inserts; [done |].
      rewrite (rok_tile r Hok), TILE_SIZE_val. lia.
Qed.

End honest.

End FragHonest.
