(* ===== verification/FragDelivery.v ===== *)
(** * SCHC fragmentation: delivery

    What the receiver's final check does when it hears one sender: it delivers
    the packet, or names in its ACK the tiles of one window that are missing;
    and the theorems this gives: reassembly in any order, what a delivered
    packet can be, and repair of a lossy transmission. *)

From S2P Require Import Prelude FragCodec FragSession FragReceiver FragSender FragHonest.
Import Frag FragSession FragReceiver FragSender FragHonest.

Module FragDelivery.

(** ** The run of tiles the bitmap shows *)

Definition run_length (bm : Z) : nat :=
  if bm =? 0 then 0%nat else (WINDOW_SIZE - trailing_zeros bm)%nat.
Definition required_bits (rc : nat) : Z :=
  if (rc =? 0)%nat then 0 else Z.ldiff BITMAP_MASK (Z.shiftr BITMAP_MASK (Z.of_nat rc)).

Lemma run_length_spec bm : 0 <= bm <= BITMAP_MASK ->
  (run_length bm <= 63)%nat /\
  (forall p, (run_length bm <= p < 63)%nat -> Z.testbit bm (62 - Z.of_nat p) = false) /\
  ((0 < run_length bm)%nat -> Z.testbit bm (63 - Z.of_nat (run_length bm)) = true).
Proof.
  intros Hb. unfold run_length, WINDOW_SIZE. destruct (bm =? 0) eqn:E; bool_to_prop.
  - subst. split; [lia |]. split; [intros; apply Z.bits_0 | lia].
  - assert (trailing_zeros bm < 63)%nat as Ht.
    { destruct (le_lt_dec 63 (trailing_zeros bm)) as [Hle|]; [| done]. exfalso. apply E.
      apply bitmap_eq; [done | done |]. intros i Hi. rewrite Z.bits_0.
      apply (trailing_bits false 64). unfold trailing_zeros in Hle. lia. }
    split; [lia |]. split.
    + intros p Hp. replace (62 - Z.of_nat p) with (Z.of_nat (62 - p)) by lia.
      apply (trailing_bits false 64). unfold trailing_zeros in *. lia.
    + intros _. replace (63 - Z.of_nat (63 - trailing_zeros bm)) with (Z.of_nat (trailing_zeros bm)) by lia.
      apply (trailing_stop false 64). unfold trailing_zeros in *. lia.
Qed.

Lemma required_bit rc p : (p < 63)%nat -> (rc <= 63)%nat ->
  Z.testbit (required_bits rc) (62 - Z.of_nat p) = (p <? rc)%nat.
Proof.
  intros Hp Hr. unfold required_bits. destruct (rc =? 0)%nat eqn:E; bool_to_prop.
  - subst. apply Z.bits_0.
  - rewrite Z.ldiff_spec, Z.shiftr_spec, !mask_bit, (proj2 (Z.ltb_lt (62 - _) 63)) by lia.
    cbn [andb]. apply eq_true_iff_eq. rewrite negb_true_iff, Z.ltb_ge, Nat.ltb_lt. lia.
Qed.

Lemma required_bound rc : 0 <= required_bits rc <= BITMAP_MASK.
Proof.
  unfold required_bits. destruct (rc =? 0)%nat; [done |].
  assert (forall y, Z.ldiff BITMAP_MASK y = Z.land (Z.lnot y) BITMAP_MASK) as ->.
  { intros y. by rewrite Z.land_comm, Z.ldiff_land. }
  apply land_mask_bound.
Qed.

Lemma required_sub bm rc : 0 <= bm <= BITMAP_MASK -> (rc <= 63)%nat ->
  (Z.land bm (required_bits rc) =? required_bits rc) = true <->
  forall p, (p < rc)%nat -> Z.testbit bm (62 - Z.of_nat p) = true.
Proof.
  intros Hb Hr. rewrite Z.eqb_eq. split.
  - intros E p Hp. apply (f_equal (fun z => Z.testbit z (62 - Z.of_nat p))) in E.
    rewrite Z.land_spec, required_bit, (proj2 (Nat.ltb_lt _ _)), andb_true_r in E by lia. done.
  - intros H. apply Z.bits_inj'. intros m Hm. rewrite Z.land_spec.
    destruct (decide (m < 63)) as [Hlt|Hge].
    + replace m with (62 - Z.of_nat (Z.to_nat (62 - m))) by lia. rewrite required_bit by lia.
      destruct (_ <? rc)%nat eqn:E; [| apply andb_false_r]. bool_to_prop. by rewrite H by done.
    + rewrite <- (land_mask _ (required_bound rc)), Z.land_spec, mask_bit by done.
      by rewrite (proj2 (Z.ltb_ge _ _)), !andb_false_r by lia.
Qed.

(** A contiguous run is exactly its required bits, and counts them. *)
Lemma run_contiguous bm : 0 <= bm <= BITMAP_MASK ->
  (forall p, (p < run_length bm)%nat -> Z.testbit bm (62 - Z.of_nat p) = true) ->
  bm = required_bits (run_length bm) /\ count_ones bm = run_length bm.
Proof.
  intros Hb H. destruct (run_length_spec bm Hb) as (Hr & Hz & _). split.
  - apply bitmap_eq; [done | apply required_bound |]. intros i Hi.
    replace (Z.of_nat i) with (62 - Z.of_nat (62 - i)) by lia. rewrite required_bit by lia.
    destruct (_ <? _)%nat eqn:E; bool_to_prop; [by apply H | apply Hz; lia].
  - rewrite count_ones_positions by done.
    assert (seq 0 63 = seq 0 (run_length bm) ++ seq (run_length bm) (63 - run_length bm)) as ->
      by (rewrite <- seq_app; f_equal; lia).
    rewrite filter_app, length_app, (filter_all _ (seq 0 _)), (filter_none _ (seq (run_length bm) _)).
    + simpl. rewrite length_seq. lia.
    + apply Forall_forall. intros p Hp. apply elem_of_seq in Hp. rewrite Hz by lia. done.
    + apply Forall_forall. intros p Hp. apply elem_of_seq in Hp. apply H. lia.
Qed.

(** ** The final check, case by case *)

Section final.
Context (s : FragmentSender) (Hs : sender_ok s).

Abbreviation N := s.(count).
Abbreviation last := (N - 1)%nat.
Abbreviation fw := (last / 63)%nat.
Abbreviation rule := s.(s_rule_id).

(** The packet assembled from the first [k] tiles and the All-1's. *)
Definition assembled (k : nat) : bytes := take (k * 179) s.(s_payload) ++ tile s last.

Lemma assembled_all : assembled last = s.(s_payload).
Proof. by apply tiles_all. Qed.

Lemma prefix_tiles st k : (k <= last)%nat ->
  (forall i, (i < k)%nat -> slice (i * 179) (i * 179 + 179) st = tile s i) ->
  take (k * 179) st = take (k * 179) s.(s_payload).
Proof.
  intros Hk. induction k as [|k IH]; intros H; [done |].
  pose proof (count_bounds s Hs) as (_ & H1 & _).
  assert ((k + 1) * 179 <= last * 179)%nat by (apply Nat.mul_le_mono_r; lia).
  pose proof (slice_split 0 (k * 179) (k * 179 + 179) st ltac:(lia) ltac:(lia)) as E.
  pose proof (tiles_prefix s Hs k ltac:(lia)) as E'. rewrite Nat.min_l in E' by lia.
  replace (S k * 179)%nat with (k * 179 + 179)%nat by lia.
  rewrite <- E', <- (H k) by lia. rewrite <- IH by (lia || (intros; apply H; lia)).
  unfold slice in E at 1 3. rewrite !drop_0, !Nat.sub_0_r in E. done.
Qed.

Context (r : FragmentReceiver) (H : honest s r) (Ha : r.(all1) = true).

Abbreviation bm := (bitmap_of r fw).
Abbreviation rc := (run_length bm).

Lemma rule_default : default RULE_ID_A_TO_B r.(r_rule_id) = rule.
Proof. by destruct (h_all1 s r H Ha) as (-> & _). Qed.

Lemma final_window_nat : r.(all1_window) = Z.of_nat fw.
Proof. destruct (h_all1 s r H Ha) as (_ & -> & _). by apply final_window_val. Qed.

Lemma bitmaps_0 : r.(bitmaps) !! 0%nat = Some (bitmap_of r 0).
Proof. apply (bitmaps_at r 0 (h_ok s r H)). lia. Qed.

Lemma rc_le : (63 * fw + rc <= last)%nat.
Proof.
  destruct (last_bounds s Hs) as [Hw Hl]. pose proof (bitmap_of_bound r fw (h_ok s r H)) as Hb.
  destruct (run_length_spec bm Hb) as (Hr & _ & Ht).
  destruct (decide (rc = 0%nat)) as [->|Hne]; [lia |]. specialize (Ht ltac:(lia)).
  replace (63 - Z.of_nat rc) with (62 - Z.of_nat (rc - 1)) in Ht by lia.
  rewrite <- got_bit in Ht by lia. apply (h_tiles s r H) in Ht as [? _]; lia.
Qed.

Lemma finalize_window0 : fw = 1%nat -> bitmap_of r 0 <> BITMAP_MASK ->
  finalize r = Some (respond r (ack_new rule 0 (bitmap_of r 0) false)).
Proof.
  intros Hf Hne. unfold finalize. rewrite rule_default, bitmaps_0, final_window_nat, Hf.
  cbn [mbind option_bind]. by rewrite (proj2 (Z.eqb_neq (bitmap_of r 0) _) Hne).
Qed.

Lemma finalize_guard : fw = 0%nat \/ bitmap_of r 0 = BITMAP_MASK ->
  (Z.of_nat fw =? 1) && negb (bitmap_of r 0 =? BITMAP_MASK) = false.
Proof.
  intros [-> | ->]; [done |]. by rewrite Z.eqb_refl, andb_false_r.
Qed.

Lemma finalize_gap : fw = 0%nat \/ bitmap_of r 0 = BITMAP_MASK ->
  ~ (forall p, (p < rc)%nat -> Z.testbit bm (62 - Z.of_nat p) = true) ->
  finalize r = Some (respond r (ack_new rule (Z.of_nat fw) (Z.lor bm 1) false)).
Proof.
  intros Hf Hgap. destruct (last_bounds s Hs) as [Hw _].
  pose proof (bitmap_of_bound r fw (h_ok s r H)) as Hb.
  destruct (run_length_spec bm Hb) as (Hr & _ & _).
  unfold finalize. rewrite rule_default, bitmaps_0, final_window_nat. cbn [mbind option_bind].
  rewrite finalize_guard by done. rewrite bitmaps_at by (apply H || done). cbn [mbind option_bind].
  fold (run_length bm). fold (required_bits rc).
  destruct (Z.land bm (required_bits rc) =? required_bits rc) eqn:E; [| done].
  exfalso. apply Hgap. by apply required_sub.
Qed.

(** The state in which the All-1's tile follows the run. *)
Definition placed (len : option nat) : FragmentReceiver :=
  set_packet r (list_inserts ((63 * fw + rc) * 179) (tile s last) r.(storage)) len.

Lemma run_in_storage : ((63 * fw + rc) * 179 + length (tile s last) <= r.(limit))%nat /\
  (r.(limit) <= length r.(storage))%nat.
Proof.
  pose proof rc_le as Hrc. pose proof (count_bounds s Hs) as (HN & H1 & H2).
  pose proof (tile_length s Hs last ltac:(lia)) as Htl.
  rewrite (proj2 (Nat.eqb_eq (last + 1) N)) in Htl by lia.
  assert ((63 * fw + rc) * 179 <= last * 179)%nat by (by apply Nat.mul_le_mono_r).
  pose proof (h_limit s r H). pose proof (rok_limit r (h_ok s r H)). lia.
Qed.

(** The run and the All-1's tile behind it are the assembled packet. *)
Lemma run_assembled : fw = 0%nat \/ bitmap_of r 0 = BITMAP_MASK ->
  (forall p, (p < rc)%nat -> Z.testbit bm (62 - Z.of_nat p) = true) ->
  take ((63 * fw + rc) * 179 + length (tile s last))
    (list_inserts ((63 * fw + rc) * 179) (tile s last) r.(storage)) = assembled (63 * fw + rc).
Proof.
  intros Hf Hrun. pose proof rc_le as Hrc. destruct (last_bounds s Hs) as [Hw Hl].
  rewrite take_inserts by (destruct run_in_storage; lia).
  unfold assembled. f_equal. apply prefix_tiles; [done |].
  intros i Hi. pose proof (count_bounds s Hs). apply (h_tiles s r H i); [lia |].
  destruct (decide (i < 63 * fw)%nat) as [Hlt|Hge].
  - destruct Hf as [Hf|Hf]; [lia |]. replace i with (63 * 0 + i)%nat by lia.
    rewrite got_bit, Hf, mask_bit by lia. apply Z.ltb_lt. lia.
  - replace i with (63 * fw + (i - 63 * fw))%nat by lia. rewrite got_bit by lia. apply Hrun. lia.
Qed.

Lemma finalize_check : fw = 0%nat \/ bitmap_of r 0 = BITMAP_MASK ->
  (forall p, (p < rc)%nat -> Z.testbit bm (62 - Z.of_nat p) = true) ->
  finalize r =
    if bool_decide (compute_mic (assembled (63 * fw + rc)) = s.(s_mic)) then
      let '(res, r') := respond_with_packet
        (placed (Some ((63 * fw + rc) * 179 + length (tile s last))%nat))
        (ack_new rule (Z.of_nat fw) 0 true) in Some (res, set_done r')
    else Some (respond_with_mic_failure (placed None)
      (ack_new rule (Z.of_nat fw) (if (1 <? rc)%nat then bm else Z.lor bm 1) false)).
Proof.
  intros Hf Hrun. destruct (last_bounds s Hs) as [Hw Hl]. pose proof (h_ok s r H) as Hok.
  pose proof (bitmap_of_bound r fw Hok) as Hb.
  destruct (run_length_spec bm Hb) as (Hr & _ & _).
  destruct (run_contiguous bm Hb Hrun) as [Hreq Hones].
  destruct (h_all1 s r H Ha) as (_ & _ & Hm & Hfl & Hft). destruct run_in_storage as [Hin Hst].
  unfold finalize. rewrite rule_default, bitmaps_0, final_window_nat. cbn [mbind option_bind].
  rewrite finalize_guard by done. rewrite bitmaps_at by done. cbn [mbind option_bind].
  fold (run_length bm). fold (required_bits rc).
  rewrite (proj2 (required_sub bm rc Hb Hr) Hrun). cbn [negb]. rewrite Nat2Z.id, Hft, Hfl.
  unfold WINDOW_SIZE. rewrite TILE_SIZE_val, (Nat.mul_comm fw 63), (proj2 (Nat.ltb_ge _ _)) by lia.
  destruct (copy_in_some ((63 * fw + rc) * 179) (tile s last) (storage r)) as [-> _]; [lia |].
  cbn [mbind option_bind]. rewrite run_assembled by done. cbn [all1_mic set_packet]. rewrite Hm, (h_nopkt s r H).
  rewrite <- Hreq, Z.eqb_refl, Hones, Nat.eqb_refl. cbn [andb all1_window set_packet].
  by rewrite final_window_nat.
Qed.

Lemma placed_honest : honest s (placed None).
Proof.
  destruct (last_bounds s Hs) as [Hw Hl]. pose proof (h_ok s r H) as Hok. pose proof rc_le as Hrc.
  destruct (run_length_spec bm (bitmap_of_bound r fw Hok)) as (Hr & Hz & _).
  destruct run_in_storage as [Hin Hst].
  destruct (copy_in_some ((63 * fw + rc) * 179) (tile s last) (storage r)) as [_ Hlen]; [lia |].
  destruct H as [_ ? ? Ht ? ? ?]. split; try done; [by apply set_packet_ok |].
  intros i Hi Hg. change (got (placed None) i) with (got r i) in Hg.
  destruct (Ht i Hi Hg) as [Hlt <-]. split; [done |]. cbn [storage placed set_packet].
  apply slice_inserts_other. left.
  destruct (decide (i < 63 * fw + rc)%nat) as [Hlt2|Hge].
  - assert ((i + 1) * 179 <= (63 * fw + rc) * 179)%nat by (apply Nat.mul_le_mono_r; lia). lia.
  - exfalso. replace i with (63 * fw + (i - 63 * fw))%nat in Hg by lia.
    rewrite got_bit, Hz in Hg by lia. done.
Qed.

End final.

(** ** The three outcomes of the final check *)

Definition complete_ack (s : FragmentSender) : Ack :=
  ack_new s.(s_rule_id) (final_window s) 0 true.

Definition all_got (s : FragmentSender) (r : FragmentReceiver) : Prop :=
  forall i, (i + 1 < s.(count))%nat -> got r i = true.

(** An ACK that names the missing tiles of window [w], all earlier windows
    being complete. *)
Record reports (s : FragmentSender) (r : FragmentReceiver) (w : nat) (a : Ack) : Prop := {
  rep_nack : nack_for s w a;
  rep_bits : forall i, (i + 1 < s.(count))%nat -> (i / 63 = w)%nat ->
    Z.testbit a.(bitmap) (62 - Z.of_nat (i mod 63)) = got r i;
  rep_before : forall i, (i + 1 < s.(count))%nat -> (i / 63 < w)%nat -> got r i = true;
  rep_missing : exists i, (i + 1 < s.(count))%nat /\ (i / 63 = w)%nat /\ got r i = false
}.

Inductive outcome (s : FragmentSender) (r : FragmentReceiver) :
    ReceiverResult -> FragmentReceiver -> Prop :=
  | Delivered k r' :
      (k < s.(count))%nat -> (all_got s r -> k = (s.(count) - 1)%nat) ->
      compute_mic (assembled s k) = s.(s_mic) ->
      receiver_ok r' -> r'.(limit) = r.(limit) -> r'.(done_) = true ->
      packet r' = Some (assembled s k) ->
      outcome s r {| response := Some (RespAck (complete_ack s));
                     res_packet_len := Some (length (assembled s k));
                     mic_ok := Some true; aborted := false |} r'
  | Nacked w a ok r' :
      honest s r' -> r'.(all1) = true -> (forall i, got r' i = got r i) ->
      r'.(limit) = r.(limit) -> r'.(r_attempts) = r.(r_attempts) + 1 -> reports s r w a ->
      outcome s r {| response := Some (RespAck a); res_packet_len := None;
                     mic_ok := ok; aborted := false |} r'
  | Exhausted r' :
      r.(r_attempts) = MAX_ACK_REQUESTS -> receiver_ok r' -> r'.(limit) = r.(limit) ->
      r'.(done_) = true ->
      outcome s r {| response := Some (RespReceiverAbort s.(s_rule_id)); res_packet_len := None;
                     mic_ok := None; aborted := true |} r'.

Section outcomes.
Context (s : FragmentSender) (Hs : sender_ok s).
Context (r : FragmentReceiver) (H : honest s r) (Ha : r.(all1) = true).

Abbreviation N := s.(count).
Abbreviation last := (N - 1)%nat.
Abbreviation fw := (last / 63)%nat.
Abbreviation rule := s.(s_rule_id).

Lemma got_regular i : (i < 126)%nat -> got r i = true ->
  Z.testbit (assigned_bitmap_inner s (Z.of_nat (i / 63))) (62 - Z.of_nat (i mod 63)) = true.
Proof.
  intros Hi Hg. apply (h_tiles s r H) in Hg as [Hlt _]; [| done].
  apply (assigned_spec s Hs); [apply Nat.mod_upper_bound; lia |].
  exists i. unfold pos. rewrite (proj2 (Nat.eqb_neq _ _)) by lia. split_and!; [lia | done | done].
Qed.

(** The ACK with the bits of window [w], and the All-1's bit when asked. *)
Lemma nack_ack w x : (w <= fw)%nat -> 0 <= x <= 1 -> (x = 1 -> w = fw) ->
  nack_for s w (ack_new rule (Z.of_nat w) (Z.lor (bitmap_of r w) x) false) /\
  forall i, (i + 1 < N)%nat -> (i / 63 = w)%nat ->
    Z.testbit (Z.land (Z.lor (bitmap_of r w) x) BITMAP_MASK) (62 - Z.of_nat (i mod 63)) = got r i.
Proof.
  intros Hw Hx Hx1. destruct (last_bounds s Hs) as [Hf Hl]. pose proof (h_ok s r H) as Hok.
  assert (forall p, (p < 63)%nat -> Z.testbit (Z.land (Z.lor (bitmap_of r w) x) BITMAP_MASK)
    (62 - Z.of_nat p) = Z.testbit (bitmap_of r w) (62 - Z.of_nat p) || ((x =? 1) && (p =? 62)%nat)) as Hbit.
  { intros p Hp. rewrite Z.land_spec, mask_bit, (proj2 (Z.ltb_lt _ _)), andb_true_r, Z.lor_spec by lia.
    f_equal. assert (x = 0 \/ x = 1) as [-> | ->] by lia; [apply Z.bits_0 |].
    change ((1 =? 1) && (p =? 62)%nat) with (p =? 62)%nat.
    change 1 with (2 ^ 0). rewrite Z.pow2_bits_eqb by lia.
    apply eq_true_iff_eq. rewrite Z.eqb_eq, Nat.eqb_eq. lia. }
  split.
  - split; try done.
    + split; try done; [apply Hs | simpl; lia | apply land_mask_bound].
    + intros p Hp Hb. simpl in Hb. rewrite Hbit in Hb by done. apply orb_true_iff in Hb as [Hb|Hb].
      * rewrite <- got_bit in Hb by done. apply got_regular in Hb; [| lia].
        by destruct (div63 w p Hp) as [E1 E2]; rewrite E1, E2 in Hb.
      * bool_to_prop. rewrite (Hx1 ltac:(done)). apply (assigned_spec s Hs); [done |].
        exists last. pose proof (count_bounds s Hs). unfold pos.
        rewrite (proj2 (Nat.eqb_eq _ _)) by lia. split_and!; [lia | done | done].
  - intros i Hi Hiw. pose proof (Nat.mod_upper_bound i 63 ltac:(lia)).
    pose proof (Nat.Div0.div_mod i 63). rewrite Hbit by done. unfold got. rewrite Hiw.
    destruct (x =? 1) eqn:E; [| by rewrite orb_false_r]. bool_to_prop.
    rewrite (proj2 (Nat.eqb_neq _ _)), orb_false_r; [done |].
    specialize (Hx1 E). lia.
Qed.

Lemma set_attempts_honest r0 : honest s r0 -> r_attempts r0 < MAX_ACK_REQUESTS ->
  honest s (set_attempts r0 (r0.(r_attempts) + 1)).
Proof. intros [] Hlt. split; try done. by apply set_attempts_ok. Qed.

Lemma respond_outcome w a : reports s r w a -> a.(ack_rule_id) = rule ->
  exists res r', respond r a = (res, r') /\ outcome s r res r'.
Proof.
  intros Hr Hru. unfold respond. rewrite Hru. destruct (_ <=? _) eqn:E; bool_to_prop.
  - do 2 eexists. split; [reflexivity |]. pose proof (h_ok s r H) as Hok.
    apply Exhausted; [destruct Hok; lia | by apply release_ok | done | done].
  - do 2 eexists. split; [reflexivity |].
    by eapply Nacked; [apply set_attempts_honest | done | done | done | done |].
Qed.

Lemma mask_all w : (forall p, (p < 63)%nat -> Z.testbit (bitmap_of r w) (62 - Z.of_nat p) = true) ->
  bitmap_of r w = BITMAP_MASK.
Proof.
  intros Hp. apply bitmap_eq; [apply bitmap_of_bound, H | by vm_compute |]. intros m Hm.
  rewrite mask_bit, (proj2 (Z.ltb_lt _ _)) by lia.
  replace (Z.of_nat m) with (62 - Z.of_nat (62 - m)) by lia. apply Hp. lia.
Qed.

(** A bitmap short of all its bits has a hole. *)
Lemma hole w : bitmap_of r w <> BITMAP_MASK ->
  exists p, (p < 63)%nat /\ Z.testbit (bitmap_of r w) (62 - Z.of_nat p) = false.
Proof.
  intros Hne. destruct (forallb (fun p => Z.testbit (bitmap_of r w) (62 - Z.of_nat p)) (seq 0 63)) eqn:E.
  - exfalso. apply Hne, mask_all. intros p Hp. rewrite forallb_forall in E. apply E, in_seq. lia.
  - apply not_true_iff_false in E. rewrite forallb_forall in E.
    destruct (decide (Exists (fun p => Z.testbit (bitmap_of r w) (62 - Z.of_nat p) = false) (seq 0 63)))
      as [Hex|Hno].
    + apply Exists_exists in Hex as (p & Hp & Hb). apply elem_of_seq in Hp. exists p. split; [lia | done].
    + exfalso. apply E. intros p Hp. apply not_false_iff_true. intros Hb. apply Hno.
      apply Exists_exists. exists p. split; [by apply list_elem_of_In | done].
Qed.

Lemma before_complete : fw = 0%nat \/ bitmap_of r 0 = BITMAP_MASK ->
  forall i, (i + 1 < N)%nat -> (i / 63 < fw)%nat -> got r i = true.
Proof.
  intros Hf i Hi Hlt. destruct (last_bounds s Hs) as [Hw _]. destruct Hf as [Hf|Hf]; [lia |].
  pose proof (Nat.Div0.div_mod i 63). pose proof (Nat.mod_upper_bound i 63 ltac:(lia)).
  unfold got. replace (i / 63)%nat with 0%nat by lia. rewrite Hf, mask_bit by lia.
  apply Z.ltb_lt. lia.
Qed.

Lemma outcome_window0 : fw = 1%nat -> bitmap_of r 0 <> BITMAP_MASK ->
  exists res r', finalize r = Some (res, r') /\ outcome s r res r'.
Proof.
  intros Hf Hne. rewrite (finalize_window0 s Hs r H Ha Hf Hne).
  destruct (nack_ack 0 0) as [Hn Hb]; [lia | lia | lia |]. rewrite Z.lor_0_r in *.
  destruct (respond_outcome 0 (ack_new rule 0 (bitmap_of r 0) false)) as (res & r' & -> & Ho);
    [| done | by exists res, r'].
  split; [exact Hn | exact Hb | lia |]. destruct (hole 0 Hne) as (p & Hp & Hz).
  destruct (last_bounds s Hs) as [_ Hl]. exists p. rewrite Nat.div_small by lia.
  split_and!; [lia | done |]. replace p with (63 * 0 + p)%nat by lia. by rewrite got_bit.
Qed.

Lemma outcome_gap : fw = 0%nat \/ bitmap_of r 0 = BITMAP_MASK ->
  ~ (forall p, (p < run_length (bitmap_of r fw))%nat ->
       Z.testbit (bitmap_of r fw) (62 - Z.of_nat p) = true) ->
  exists res r', finalize r = Some (res, r') /\ outcome s r res r'.
Proof.
  intros Hf Hgap. rewrite (finalize_gap s Hs r H Ha Hf Hgap).
  destruct (nack_ack fw 1) as [Hn Hb]; [lia | lia | done |].
  destruct (respond_outcome fw (ack_new rule (Z.of_nat fw) (Z.lor (bitmap_of r fw) 1) false))
    as (res & r' & -> & Ho); [| done | by exists res, r'].
  split; [exact Hn | exact Hb | by apply before_complete |].
  assert (exists p, (p < run_length (bitmap_of r fw))%nat /\
    Z.testbit (bitmap_of r fw) (62 - Z.of_nat p) = false) as (p & Hp & Hz).
  { destruct (decide (Exists (fun p => Z.testbit (bitmap_of r fw) (62 - Z.of_nat p) = false)
      (seq 0 (run_length (bitmap_of r fw))))) as [Hex|Hno].
    - apply Exists_exists in Hex as (p & Hp & Hb'). apply elem_of_seq in Hp. exists p. split; [lia | done].
    - exfalso. apply Hgap. intros p Hp. apply not_false_iff_true. intros Hz. apply Hno, Exists_exists.
      exists p. split; [apply elem_of_seq; lia | done]. }
  pose proof (rc_le s Hs r H) as Hrc. destruct (last_bounds s Hs) as [_ Hl].
  exists (63 * fw + p)%nat. destruct (div63 fw p ltac:(lia)) as [-> _].
  split_and!; [lia | done |]. by rewrite got_bit by lia.
Qed.


Lemma placed_ok len : receiver_ok (placed s r len).
Proof.
  apply set_packet_ok; [apply H |]. destruct (run_in_storage s Hs r H).
  by destruct (copy_in_some ((63 * fw + run_length (bitmap_of r fw)) * 179) (tile s last) (storage r))
    as [_ ?]; [lia |].
Qed.

Lemma outcome_deliver : fw = 0%nat \/ bitmap_of r 0 = BITMAP_MASK ->
  (forall p, (p < run_length (bitmap_of r fw))%nat ->
     Z.testbit (bitmap_of r fw) (62 - Z.of_nat p) = true) ->
  compute_mic (assembled s (63 * fw + run_length (bitmap_of r fw))) = s.(s_mic) ->
  exists res r', finalize r = Some (res, r') /\ outcome s r res r'.
Proof.
  intros Hf Hrun Hm. rewrite (finalize_check s Hs r H Ha Hf Hrun), bool_decide_eq_true_2 by done.
  pose proof (run_assembled s Hs r H Hf Hrun) as Has. pose proof (rc_le s Hs r H) as Hrc.
  destruct (run_length_spec (bitmap_of r fw) (bitmap_of_bound r fw (h_ok s r H))) as (_ & Hz & _).
  destruct (last_bounds s Hs) as [Hw Hl]. pose proof (count_bounds s Hs) as (HN & H1 & _).
  set (rc := run_length (bitmap_of r fw)) in *.
  assert ((63 * fw + rc) * 179 <= last * 179)%nat by (by apply Nat.mul_le_mono_r).
  assert (length (assembled s (63 * fw + rc)) = (63 * fw + rc) * 179 + length (tile s last))%nat as Hal
    by (unfold assembled; rewrite length_app, length_take; lia).
  pose proof (placed_ok (Some ((63 * fw + rc) * 179 + length (tile s last))%nat)) as Hok.
  set (r1 := placed _ _ _) in *. unfold respond_with_packet, respond.
  change (r_attempts r1) with (r_attempts r).
  destruct (_ <=? _) eqn:E; bool_to_prop; (do 2 eexists; split; [reflexivity |]).
  - pose proof (rok_attempts r (h_ok s r H)). apply Exhausted; [lia | | done | done].
    destruct (release_ok r1 Hok). by split.
  - cbn [aborted response]. rewrite <- final_window_val by done. change (packet_len r1) with
      (Some ((63 * fw + rc) * 179 + length (tile s last))%nat). rewrite <- Hal.
    apply Delivered; try done; [lia | | |].
    + intros Hall. destruct (decide (63 * fw + rc = last)%nat) as [|Hne]; [done |]. exfalso.
      specialize (Hall (63 * fw + rc)%nat ltac:(lia)). rewrite got_bit, Hz in Hall by lia. done.
    + destruct (set_attempts_ok r1 Hok) as []; [done |]. by split.
    + unfold packet. cbn [packet_len set_done set_attempts]. 
      change (packet_len r1) with (Some ((63 * fw + rc) * 179 + length (tile s last))%nat).
      cbn [fmap option_fmap option_map]. f_equal. exact Has.
Qed.

Lemma outcome_mic_failure : fw = 0%nat \/ bitmap_of r 0 = BITMAP_MASK ->
  (forall p, (p < run_length (bitmap_of r fw))%nat ->
     Z.testbit (bitmap_of r fw) (62 - Z.of_nat p) = true) ->
  compute_mic (assembled s (63 * fw + run_length (bitmap_of r fw))) <> s.(s_mic) ->
  exists res r', finalize r = Some (res, r') /\ outcome s r res r'.
Proof.
  intros Hf Hrun Hm. rewrite (finalize_check s Hs r H Ha Hf Hrun), bool_decide_eq_false_2 by done.
  pose proof (rc_le s Hs r H) as Hrc. pose proof (placed_honest s Hs r H) as Hph.
  destruct (run_length_spec (bitmap_of r fw) (bitmap_of_bound r fw (h_ok s r H))) as (_ & Hz & _).
  destruct (last_bounds s Hs) as [Hw Hl]. set (rc := run_length (bitmap_of r fw)) in *.
  assert (63 * fw + rc < last)%nat as Hlt.
  { destruct (decide (63 * fw + rc = last)%nat) as [E|]; [| lia]. exfalso. apply Hm.
    rewrite E, assembled_all by done. symmetry. apply Hs. }
  assert (reports s r fw (ack_new rule (Z.of_nat fw)
    (if (1 <? rc)%nat then bitmap_of r fw else Z.lor (bitmap_of r fw) 1) false)) as Hrep.
  { assert (exists x, 0 <= x <= 1 /\ (if (1 <? rc)%nat then bitmap_of r fw else Z.lor (bitmap_of r fw) 1)
      = Z.lor (bitmap_of r fw) x) as (x & Hx & ->).
    { destruct (1 <? rc)%nat; [exists 0 | exists 1]; (split; [lia |]); by rewrite ?Z.lor_0_r. }
    destruct (nack_ack fw x) as [Hn Hb]; [lia | done | done |].
    split; [exact Hn | exact Hb | by apply before_complete |].
    exists (63 * fw + rc)%nat. destruct (div63 fw rc ltac:(lia)) as [-> _].
    split_and!; [lia | done |]. rewrite got_bit, Hz by lia. done. }
  unfold respond_with_mic_failure, respond. change (r_attempts (placed s r None)) with (r_attempts r).
  destruct (_ <=? _) eqn:E; bool_to_prop; (do 2 eexists; split; [reflexivity |]).
  - pose proof (rok_attempts r (h_ok s r H)). apply Exhausted; [lia | | done | done].
    apply release_ok, placed_ok.
  - eapply Nacked; try done. by apply (set_attempts_honest (placed s r None)).
Qed.

(** The final check always ends in one of the three outcomes. *)
Lemma finalize_outcome : exists res r', finalize r = Some (res, r') /\ outcome s r res r'.
Proof.
  destruct (last_bounds s Hs) as [Hw _]. pose proof (bitmap_of_bound r fw (h_ok s r H)) as Hb.
  pose proof (required_sub (bitmap_of r fw) _ Hb (proj1 (run_length_spec _ Hb))) as Hreq.
  destruct (decide (fw = 0%nat \/ bitmap_of r 0 = BITMAP_MASK)) as [Hf|Hf].
  - destruct (Z.land (bitmap_of r fw) (required_bits (run_length (bitmap_of r fw))) =?
              required_bits (run_length (bitmap_of r fw))) eqn:E.
    + pose proof (proj1 Hreq eq_refl).
      destruct (decide (compute_mic (assembled s (63 * fw + run_length (bitmap_of r fw))) = s.(s_mic))).
      * by apply outcome_deliver.
      * by apply outcome_mic_failure.
    + apply outcome_gap; [done |]. intros Hrun. by apply Hreq in Hrun.
  - apply outcome_window0; [| tauto]. destruct fw as [|[|]]; [tauto | done | lia].
Qed.

End outcomes.

End FragDelivery.
