(* ===== verification/FragRepair.v ===== *)
(** * SCHC fragmentation: sender and receiver together

    The messages of one sender handled by one receiver: reassembly in any
    order, what can be delivered under any schedule of its messages, and the
    repair of a lossy transmission by the ACK exchange. *)

From S2P Require Import Prelude FragCodec FragSession FragReceiver FragSender FragHonest FragDelivery.
Import Frag FragSession FragReceiver FragSender FragHonest FragDelivery.

Module FragRepair.

(** Fragment [i] as the sender writes it. *)
Definition send (s : FragmentSender) (i : nat) : bytes :=
  match get_fragment_inner s i with
  | Some f =>
      match fragment_write_to f (replicate MAX_FRAGMENT_WIRE_SIZE 0) with
      | (Ok n, out) => take n out
      | (Err _, _) => []
      end
  | None => []
  end.

(** The receiver's answer as it is written. *)
Definition response_bytes (resp : ReceiverResponse) : bytes :=
  match response_write_to resp (replicate 10 0) with
  | (Ok n, out) => take n out
  | (Err _, _) => []
  end.

(** Messages handled one after the other; the result is that of the last. *)
Fixpoint feed (r : FragmentReceiver) (res : ReceiverResult) (ms : list bytes) :
    option (ReceiverResult * FragmentReceiver) :=
  match ms with
  | [] => Some (res, r)
  | m :: ms =>
      match receive_bytes_inner r m with
      | Some (Ok res, r) => feed r res ms
      | _ => None
      end
  end.

(** The loss-free exchange after the first transmission: the receiver's answer
    goes to the sender, whose retransmissions go back, for [fuel] rounds. *)
Fixpoint exchange (fuel : nat) (s : FragmentSender) (r : FragmentReceiver) (res : ReceiverResult) :
    option (FragmentSender * FragmentReceiver) :=
  match fuel with
  | O => Some (s, r)
  | S fuel =>
      match res.(response) with
      | None => Some (s, r)
      | Some resp =>
          match handle_ack_bytes_inner s (response_bytes resp) with
          | (Ok (OutRetransmit w missing position request), s) =>
              match feed r result_default (drain 65 s (OutRetransmit w missing position request)) with
              | Some (res, r) => exchange fuel s r res
              | None => None
              end
          | (_, s) => Some (s, r)
          end
      end
  end.

(** The messages of one session's sender. *)
Inductive message (s : FragmentSender) : bytes -> Prop :=
  | msg_fragment i : (i < s.(count))%nat -> message s (send s i)
  | msg_ack_request : message s (ack_req_wire s).

(** The receivers that have only heard this sender. *)
Inductive heard (s : FragmentSender) : FragmentReceiver -> Prop :=
  | heard_new storage r :
      new_inner storage = Ok r -> (length s.(s_payload) <= length storage)%nat -> heard s r
  | heard_step r m x r' :
      heard s r -> message s m -> receive_bytes_inner r m = Some (x, r') -> heard s r'.

Section session.
Context (s : FragmentSender) (Hs : sender_ok s).

Abbreviation N := s.(count).
Abbreviation last := (N - 1)%nat.

Lemma send_wire i : (i < N)%nat -> send s i = wire (frag s i).
Proof.
  intros Hi. unfold send. rewrite get_fragment_frag by done.
  by destruct (write_frag s Hs i Hi) as (out & -> & ->).
Qed.

Lemma response_bytes_ack a : ack_ok a -> response_bytes (RespAck a) = ack_wire a.
Proof.
  intros Ha. unfold response_bytes. cbn [response_write_to]. rewrite ack_canonical; [| done |].
  - apply take_app_length.
  - rewrite ack_wire_length. pose proof (ack_body_le (bitmap a)). destruct (complete a); lia.
Qed.

(** ** One message *)

Definition revived (r : FragmentReceiver) : FragmentReceiver := if r.(done_) then reset r else r.

Lemma receive_fragment r i : (i < N)%nat ->
  receive_bytes_inner r (wire (frag s i)) =
  (fun p : ReceiverResult * FragmentReceiver => (Ok p.1, p.2)) <$> receive_inner (revived r) (frag s i).
Proof.
  intros Hi. pose proof (frag_ok s Hs i Hi) as Hf.
  pose proof (guards_inv _ (fok_guards _ Hf)) as (Hr & _).
  destruct (wire_is_no_control _ Hf) as (E1 & E2 & E3).
  unfold receive_bytes_inner. change (nth 0 (wire (frag s i)) 0) with (rule_id (frag s i)).
  rewrite Hr, E2, E3, E1, (frag_from_wire _ Hf), (proj2 (Nat.ltb_ge _ _)); [done |].
  simpl. rewrite length_shl1. lia.
Qed.

Lemma receive_settled r i : honest s r -> (i < N)%nat ->
  exists r', honest s r' /\ r'.(r_rule_id) = Some s.(s_rule_id) /\ r'.(all1) = r.(all1) /\
    r'.(limit) = r.(limit) /\ r'.(r_attempts) = r.(r_attempts) /\ (forall j, got r' j = got r j) /\
    receive_inner r (frag s i) = receive_tile r' (frag s i).
Proof.
  intros H Hi. unfold receive_inner. rewrite (frag_valid s Hs i Hi), (h_live s r H). cbn [andb negb].
  destruct (h_rule s r H) as [E|E]; rewrite E.
  - exists (set_rule r s.(s_rule_id)). split; [by apply set_rule_honest | done].
  - change (rule_id (frag s i)) with (s_rule_id s). rewrite Z.eqb_refl. by exists r.
Qed.

(** A regular fragment adds its tile and answers nothing. *)
Lemma hear_regular r i : honest s r -> (i + 1 < N)%nat ->
  exists r', receive_bytes_inner r (wire (frag s i)) = Some (Ok result_default, r') /\
    honest s r' /\ r'.(all1) = r.(all1) /\ r'.(r_attempts) = r.(r_attempts) /\
    forall j, (j < 126)%nat -> got r' j = got r j || (j =? i)%nat.
Proof.
  intros H Hi. rewrite receive_fragment by lia. unfold revived. rewrite (h_live s r H).
  destruct (receive_settled r i H ltac:(lia)) as (r1 & H1 & Hr1 & Ha & _ & Hat & Hg & ->).
  destruct (receive_regular s Hs r1 i H1 Hr1 Hi) as (r' & -> & Hh & _ & Ha' & Hat' & Hg').
  exists r'. split_and!; try done; try congruence.
  intros j Hj. by rewrite Hg', Hg by done.
Qed.

(** The All-1 triggers the final check. *)
Lemma hear_all1 r : honest s r ->
  exists r1 res r', receive_bytes_inner r (wire (frag s last)) = Some (Ok res, r') /\
    honest s r1 /\ r1.(all1) = true /\ r1.(r_attempts) = r.(r_attempts) /\
    (forall i, (i < 126)%nat -> got r1 i = got r i) /\ outcome s r1 res r'.
Proof.
  intros H. pose proof (count_bounds s Hs) as ((HN & _) & _).
  rewrite receive_fragment by lia. unfold revived. rewrite (h_live s r H).
  destruct (receive_settled r last H ltac:(lia)) as (r0 & H0 & Hr0 & _ & _ & Hat & Hg & ->).
  destruct (receive_all1_honest s Hs r0 H0 Hr0) as (r1 & -> & H1 & Ha1 & Hat1 & Hg1).
  destruct (finalize_outcome s Hs r1 H1 Ha1) as (res & r' & -> & Ho).
  exists r1, res, r'. split_and!; try done; [congruence |].
  intros i Hi. by rewrite Hg1, Hg by done.
Qed.

Lemma ack_req_control r : receive_bytes_inner r (ack_req_wire s) =
  (fun p : ReceiverResult * FragmentReceiver => (Ok p.1, p.2)) <$>
    receive_ack_request (revived r) s.(s_rule_id).
Proof.
  pose proof (window_of s Hs last) as Hw. pose proof (count_bounds s Hs).
  pose proof (sok_rule s Hs) as Hr. unfold ack_req_wire. rewrite final_window_val by done.
  unfold receive_bytes_inner. cbn [length Nat.ltb Nat.leb nth]. rewrite Hr.
  apply check_rule_ok in Hr.
  destruct (last / 63)%nat as [|[|]]; [| | lia]; destruct Hr as [-> | ->]; reflexivity.
Qed.

(** After the All-1, an ACK request repeats the final check. *)
Lemma hear_ack_request r : honest s r -> r.(all1) = true ->
  exists res r', receive_bytes_inner r (ack_req_wire s) = Some (Ok res, r') /\ outcome s r res r'.
Proof.
  intros H Ha. rewrite ack_req_control. unfold revived, receive_ack_request.
  rewrite (h_live s r H). destruct (h_all1 s r H Ha) as (-> & _). rewrite Z.eqb_refl. cbn [negb].
  unfold answer_ack_request. rewrite Ha. destruct (finalize_outcome s Hs r H Ha) as (res & r' & -> & Ho). by exists res, r'.
Qed.

(** ** Any schedule of the sender's messages *)

(** A receiver that has only heard this sender is at work with it, or done. *)
Record live (r : FragmentReceiver) : Prop := {
  l_ok : receiver_ok r;
  l_limit : (length s.(s_payload) <= r.(limit))%nat;
  l_honest : r.(done_) = false -> honest s r
}.

Definition delivers (res : ReceiverResult) (r : FragmentReceiver) : Prop :=
  forall n, res.(res_packet_len) = Some n -> exists k, (k < N)%nat /\ n = length (assembled s k) /\
    packet r = Some (assembled s k) /\ compute_mic (assembled s k) = s.(s_mic).

Lemma live_revived r : live r -> honest s (revived r).
Proof.
  intros [Hok Hl Hh]. unfold revived. destruct (done_ r); [by apply reset_honest | by apply Hh].
Qed.

Lemma honest_live r : honest s r -> live r.
Proof. intros H. destruct (H). by split. Qed.

Lemma done_live r : receiver_ok r -> (length s.(s_payload) <= r.(limit))%nat -> r.(done_) = true -> live r.
Proof. intros. split; try done. congruence. Qed.

Lemma outcome_live r res r' : honest s r -> outcome s r res r' -> live r' /\ delivers res r'.
Proof.
  intros H Ho. pose proof (h_limit s r H). destruct Ho; (split; [| intros n Hn; simplify_eq/=]).
  - apply done_live; congruence.
  - by exists k.
  - by apply honest_live.
  - apply done_live; congruence.
Qed.

Lemma respond_live r a : honest s r ->
  exists res r', respond r a = (res, r') /\ live r' /\ delivers res r'.
Proof.
  intros H. pose proof (h_limit s r H). pose proof (h_ok s r H) as Hok. unfold respond.
  destruct (_ <=? _) eqn:E; bool_to_prop; (do 2 eexists; split; [reflexivity |]);
    (split; [| by intros n Hn]).
  - by apply done_live; [apply release_ok | |].
  - by apply honest_live, set_attempts_honest.
Qed.

Lemma answer_live r : honest s r -> r.(all1) = false ->
  exists res r', answer_ack_request r s.(s_rule_id) = Some (res, r') /\ live r' /\ delivers res r'.
Proof.
  intros H Ha. pose proof (h_ok s r H) as Hok. unfold answer_ack_request. rewrite Ha.
  destruct (bitmaps_01 r Hok) as (b0 & b1 & -> & _). cbn [mbind option_bind].
  destruct (bitmaps_lookup r (if b0 =? BITMAP_MASK then 1 else 0) Hok
    ltac:(destruct (_ =? _); lia)) as (bm & E & _). cbv zeta. rewrite E. cbn [mbind option_bind].
  destruct (respond_live r (ack_new (s_rule_id s) (if b0 =? BITMAP_MASK then 1 else 0) bm false) H)
    as (res & r' & -> & ?). by exists res, r'.
Qed.

Lemma revived_message r m : message s m -> receive_bytes_inner r m = receive_bytes_inner (revived r) m.
Proof.
  intros [i Hi|].
  - rewrite send_wire, !receive_fragment by done. unfold revived. by destruct (done_ r) eqn:E; simpl; rewrite ?E.
  - rewrite !ack_req_control. unfold revived. by destruct (done_ r) eqn:E; simpl; rewrite ?E.
Qed.

Lemma hear_live r m : live r -> message s m ->
  exists res r', receive_bytes_inner r m = Some (Ok res, r') /\ live r' /\ delivers res r'.
Proof.
  intros Hl Hm. pose proof (live_revived r Hl) as H. rewrite (revived_message r m Hm).
  revert H. generalize (revived r). clear r Hl. intros r H. destruct Hm as [i Hi|].
  - rewrite send_wire by done. destruct (decide (i + 1 = N)%nat) as [E|E].
    + replace i with last by lia. destruct (hear_all1 r H) as (r1 & res & r' & -> & H1 & _ & _ & _ & Ho).
      exists res, r'. split; [done |]. by apply (outcome_live r1).
    + destruct (hear_regular r i H ltac:(lia)) as (r' & -> & Hh & _).
      exists result_default, r'. split; [done |]. by split; [apply honest_live |].
  - destruct (all1 r) eqn:Ha.
    + destruct (hear_ack_request r H Ha) as (res & r' & -> & Ho). exists res, r'.
      split; [done |]. by apply (outcome_live r).
    + rewrite ack_req_control. unfold revived, receive_ack_request. rewrite (h_live s r H).
      destruct (h_rule s r H) as [E|E]; rewrite E.
      * destruct (answer_live (set_rule r (s_rule_id s)) (set_rule_honest s r H) Ha)
          as (res & r' & -> & ?). by exists res, r'.
      * rewrite Z.eqb_refl. destruct (answer_live r H Ha) as (res & r' & -> & ?). by exists res, r'.
Qed.

Lemma heard_live r : heard s r -> live r.
Proof.
  induction 1 as [storage r Hn Hl | r m x r' _ IH Hm E].
  - apply honest_live, (fresh_honest s storage); [done |].
    unfold new_inner in Hn. destruct (_ =? 0)%nat; [done |]. injection Hn as <-. cbn [limit].
    pose proof (sok_len s Hs). lia.
  - destruct (hear_live r m IH Hm) as (res & r1 & E' & Hl & _). congruence.
Qed.

(** ** Sequences of messages *)

Definition wires (l : list nat) : list bytes := (fun i => wire (frag s i)) <$> l.

Lemma feed_regulars l ms : forall r res, honest s r -> Forall (fun i => i + 1 < N)%nat l ->
  exists r' res', feed r res (wires l ++ ms) = feed r' res' ms /\ honest s r' /\
    r'.(all1) = r.(all1) /\ r'.(r_attempts) = r.(r_attempts) /\
    forall j, (j < 126)%nat -> got r' j = got r j || bool_decide (j ∈ l).
Proof.
  induction l as [|i l IH]; intros r res H Hl.
  - exists r, res. split_and!; try done. intros j _.
    rewrite bool_decide_eq_false_2 by apply not_elem_of_nil. by rewrite orb_false_r.
  - inversion Hl as [|? ? Hi Hl']; subst.
    destruct (hear_regular r i H Hi) as (r1 & E & H1 & Ha1 & Hat1 & Hg1).
    destruct (IH r1 result_default H1 Hl') as (r' & res' & E' & H' & Ha' & Hat' & Hg').
    exists r', res'. split_and!; try done; try congruence.
    + cbn [wires fmap list_fmap app feed]. rewrite E. exact E'.
    + intros j Hj. rewrite Hg', Hg1, <- orb_assoc by done. f_equal.
      apply eq_true_iff_eq. rewrite orb_true_iff, Nat.eqb_eq, !bool_decide_eq_true, elem_of_cons. done.
Qed.

Lemma all_got_delivers r1 res r' : honest s r1 -> r1.(r_attempts) < MAX_ACK_REQUESTS ->
  all_got s r1 -> outcome s r1 res r' ->
  res = {| response := Some (RespAck (complete_ack s));
           res_packet_len := Some (length s.(s_payload)); mic_ok := Some true; aborted := false |} /\
  packet r' = Some s.(s_payload).
Proof.
  intros H1 Hat Hall Ho. inversion Ho as [k r0 Hk Hl Hm Hok Hlim Hd Hp | w a ok r0 Hh Ha Hg Hlim Hatt Hrep | r0 Hatt];
    subst.
  - rewrite (Hl Hall), assembled_all in * by done. done.
  - destruct (rep_missing _ _ _ _ Hrep) as (i & Hi & _ & Hz). rewrite Hall in Hz by done. done.
  - lia.
Qed.

(** The receiver of a fresh session. *)
Lemma new_inner_honest storage r0 : (length s.(s_payload) <= length storage)%nat ->
  new_inner storage = Ok r0 -> honest s r0 /\ r0.(r_attempts) = 0.
Proof.
  intros Hl Hn. split.
  - apply (fresh_honest s storage); [done |].
    unfold new_inner in Hn. destruct (_ =? 0)%nat; [done |]. injection Hn as <-. cbn [limit].
    pose proof (sok_len s Hs). lia.
  - unfold new_inner in Hn. destruct (_ =? 0)%nat; [done |]. by injection Hn as <-.
Qed.

Lemma map_send l : Forall (fun i => i < N)%nat l -> send s <$> l = wires l.
Proof.
  induction 1 as [|i l Hi Hl IH]; [done |]. unfold wires in *. cbn [fmap list_fmap].
  rewrite send_wire by done. f_equal. exact IH.
Qed.

Lemma feed_all1 r res : honest s r ->
  exists r1 res' r', feed r res [wire (frag s last)] = Some (res', r') /\ honest s r1 /\
    r1.(all1) = true /\ r1.(r_attempts) = r.(r_attempts) /\
    (forall i, (i < 126)%nat -> got r1 i = got r i) /\ outcome s r1 res' r'.
Proof.
  intros H. destruct (hear_all1 r H) as (r1 & res' & r' & E & ?). exists r1, res', r'.
  cbn [feed]. by rewrite E.
Qed.

Lemma session_reassembles storage r0 order :
  (length s.(s_payload) <= length storage)%nat -> new_inner storage = Ok r0 ->
  (forall i, (i < last)%nat <-> i ∈ order) ->
  exists r, feed r0 result_default (send s <$> order ++ [last]) =
    Some ({| response := Some (RespAck (complete_ack s));
             res_packet_len := Some (length s.(s_payload)); mic_ok := Some true; aborted := false |}, r) /\
    packet r = Some s.(s_payload).
Proof.
  intros Hl Hn Hord. destruct (new_inner_honest storage r0 Hl Hn) as [H0 Hat0].
  pose proof (count_bounds s Hs) as ((HN & HN2) & _).
  assert (Forall (fun i => i + 1 < N)%nat order) as Hreg
    by (apply Forall_forall; intros i Hi; apply Hord in Hi; lia).
  rewrite map_send by (apply Forall_app; split; [| apply Forall_singleton; lia];
    apply Forall_forall; intros i Hi; apply Hord in Hi; lia).
  unfold wires. rewrite fmap_app.
  destruct (feed_regulars order [wire (frag s last)] r0 result_default H0 Hreg)
    as (r1 & res1 & E1 & H1 & _ & Hat1 & Hg1).
  destruct (feed_all1 r1 res1 H1) as (r2 & res & r' & E2 & H2 & _ & Hat2 & Hg2 & Ho).
  destruct (all_got_delivers r2 res r') as [-> Hp]; try done.
  - rewrite Hat2, Hat1, Hat0. done.
  - intros i Hi. rewrite Hg2, Hg1, orb_true_iff by lia. right. apply bool_decide_eq_true. apply Hord. lia.
  - exists r'. split; [| done]. etransitivity; [exact E1 | exact E2].
Qed.

(** ** One round of repair *)

Lemma nacked_split w bm : exists l, Forall (fun i => i + 1 < N)%nat l /\
  (forall i, i ∈ l <-> (i < last)%nat /\ (i / 63 = w)%nat /\
     Z.testbit bm (62 - Z.of_nat (i mod 63)) = false) /\
  nacked s w bm = l ++ (if decide (last ∈ nacked s w bm) then [last] else []).
Proof.
  pose proof (count_bounds s Hs) as ((HN & _) & _).
  set (P i := (i / 63 = w)%nat /\ Z.testbit bm (62 - Z.of_nat (pos s i)) = false).
  exists (filter P (seq 0 last)).
  assert (forall i, i ∈ filter P (seq 0 last) <-> (i < last)%nat /\ (i / 63 = w)%nat /\
    Z.testbit bm (62 - Z.of_nat (i mod 63)) = false) as Hin.
  { intros i. rewrite list_elem_of_filter, elem_of_seq. unfold P, pos.
    destruct (decide (i < last)%nat); [| intuition lia].
    rewrite (proj2 (Nat.eqb_neq _ _)) by lia. intuition lia. }
  assert (nacked s w bm = filter P (seq 0 last) ++ filter P [last]) as E.
  { unfold nacked. replace (seq 0 N) with (seq 0 last ++ [last]); [apply filter_app |].
    pose proof (seq_S last 0) as E. cbn [Nat.add] in E. rewrite <- E. f_equal. lia. }
  split; [apply Forall_forall; intros i Hi; apply Hin in Hi; lia |]. split; [done |].
  rewrite E at 1. f_equal. rewrite filter_cons, filter_nil.
  assert (P last <-> last ∈ nacked s w bm) as Hp.
  { rewrite E, elem_of_app, Hin, list_elem_of_filter, list_elem_of_singleton. intuition lia. }
  do 2 case_decide; tauto.
Qed.

Lemma repair_round r w a request :
  honest s r -> r.(all1) = true -> reports s r w a ->
  (request = false <-> last ∈ nacked s w a.(bitmap)) ->
  exists r2 res r', feed r result_default (wires (nacked s w a.(bitmap)) ++
      (if request : bool then [ack_req_wire s] else [])) = Some (res, r') /\
    honest s r2 /\ r2.(all1) = true /\ r2.(r_attempts) = r.(r_attempts) /\
    (forall i, (i + 1 < N)%nat -> (i / 63 <= w)%nat -> got r2 i = true) /\ outcome s r2 res r'.
Proof.
  intros H Ha [Hn Hbits Hbefore _] Hreq. pose proof (count_bounds s Hs) as ((HN & HN2) & _).
  destruct (nacked_split w a.(bitmap)) as (l & Hl & Hin & ->).
  assert (exists f, (f = [wire (frag s last)] \/ f = [ack_req_wire s]) /\
    wires (l ++ (if decide (last ∈ nacked s w (bitmap a)) then [last] else [])) ++
      (if request : bool then [ack_req_wire s] else []) = wires l ++ f) as (f & Hf & ->).
  { unfold wires. rewrite fmap_app, <- app_assoc. destruct request; case_decide as Hd.
    - exfalso. apply Hreq in Hd. done.
    - exists [ack_req_wire s]. auto.
    - exists [wire (frag s last)]. auto.
    - exfalso. apply Hd, Hreq. done. }
  destruct (feed_regulars l f r result_default H Hl) as (r1 & res1 & -> & H1 & Ha1 & Hat1 & Hg1).
  assert (forall i, (i + 1 < N)%nat -> (i / 63 <= w)%nat -> got r1 i = true) as Hall.
  { intros i Hi Hw. rewrite Hg1, orb_true_iff by lia.
    destruct (decide (i / 63 < w)%nat); [left; by apply Hbefore |].
    destruct (got r i) eqn:Hz; [by left |]. right. apply bool_decide_eq_true, Hin.
    split; [lia |]. split; [lia |]. by rewrite Hbits by lia. }
  destruct Hf as [-> | ->].
  - destruct (feed_all1 r1 res1 H1) as (r2 & res & r' & E & H2 & Ha2 & Hat2 & Hg2 & Ho).
    exists r2, res, r'. split_and!; try done; [congruence |].
    intros i Hi Hw. rewrite Hg2 by lia. by apply Hall.
  - destruct (hear_ack_request r1 H1 ltac:(congruence)) as (res & r' & E & Ho).
    exists r1, res, r'. cbn [feed]. rewrite E. split_and!; done || congruence.
Qed.

Lemma complete_ack_ok : ack_ok (complete_ack s).
Proof.
  pose proof (window_of s Hs last). pose proof (count_bounds s Hs).
  unfold complete_ack. rewrite final_window_val by done.
  split; try done; [apply Hs | cbn [ack_window ack_new]; lia].
Qed.

Lemma handle_complete at_ms att : handle_ack_bytes_inner (s_update s att Active at_ms)
  (response_bytes (RespAck (complete_ack s))) = (Ok OutSuccess, s_update s att Succeeded None).
Proof.
  rewrite response_bytes_ack by apply complete_ack_ok. unfold handle_ack_bytes_inner.
  rewrite bool_decide_eq_true_2, (bool_decide_eq_true_2 (head _ = _)) by (done || by rewrite ack_wire_head).
  cbn [negb orb]. rewrite (ack_wire_not_abort _ (s_update s att Active at_ms))
    by (apply complete_ack_ok || apply Hs).
  unfold ack_from_bytes. rewrite from_ack_wire by (apply complete_ack_ok || done).
  cbn [complete complete_ack ack_new]. unfold handle_ack_inner.
  rewrite bool_decide_eq_true_2 by done. cbn [ack_rule_id complete_ack ack_new].
  rewrite Z.eqb_refl. cbn [negb orb complete ack_window].
  by rewrite Z.eqb_refl.
Qed.

(** ** The exchange *)

(** No packet made of fewer tiles has the packet's check sequence. *)
Definition no_collision : Prop := forall k, (k < last)%nat -> compute_mic (assembled s k) <> s.(s_mic).

Lemma outcome_after_round w r2 res r' : no_collision -> honest s r2 ->
  r2.(r_attempts) < MAX_ACK_REQUESTS ->
  (forall i, (i + 1 < N)%nat -> (i / 63 <= w)%nat -> got r2 i = true) -> outcome s r2 res r' ->
  (res.(response) = Some (RespAck (complete_ack s)) /\ packet r' = Some s.(s_payload)) \/
  exists w' a, res.(response) = Some (RespAck a) /\ (w < w')%nat /\ honest s r' /\ r'.(all1) = true /\
    r'.(r_attempts) = r2.(r_attempts) + 1 /\ reports s r' w' a.
Proof.
  intros Hnc H2 Hat Hall Ho.
  inversion Ho as [k r0 Hk Hl Hm Hok Hlim Hd Hp | w' a ok r0 Hh Ha Hg Hlim Hatt Hrep | r0 Hatt]; subst.
  - left. split; [done |]. destruct (decide (k = last)) as [->|Hne].
    + by rewrite assembled_all in Hp.
    + exfalso. apply (Hnc k); [lia | done].
  - right. exists w', a. destruct Hrep as [Hn Hb Hbf Hmi]. split_and!; try done.
    + destruct Hmi as (i & Hi & Hw & Hz). destruct (decide (w < w')%nat); [done |].
      rewrite Hall in Hz by lia. done.
    + split; try done; setoid_rewrite Hg; done.
  - lia.
Qed.

(** The sender's part of a round: it answers a report with the missing
    fragments. *)
Lemma round_sender r w a att at_ms : reports s r w a -> att < MAX_ACK_REQUESTS ->
  exists missing request,
    handle_ack_bytes_inner (s_update s att Active at_ms) (response_bytes (RespAck a)) =
      (Ok (OutRetransmit (Z.of_nat w) missing 0 request), s_update s (att + 1) Active at_ms) /\
    drain 65 (s_update s (att + 1) Active at_ms) (OutRetransmit (Z.of_nat w) missing 0 request) =
      wires (nacked s w a.(bitmap)) ++ (if request : bool then [ack_req_wire s] else []) /\
    (request = false <-> last ∈ nacked s w a.(bitmap)).
Proof.
  intros [Hnf Hbits _ (i & Hi & Hw & Hz)] Hatt.
  rewrite response_bytes_ack by (by destruct Hnf).
  destruct (nack_retransmits (s_update s att Active at_ms) w a) as (missing & request & E & Ed & Hreq).
  - by apply sender_ok_update.
  - done.
  - done.
  - by destruct Hnf.
  - intros En. assert (i ∈ nacked s w (bitmap a)) as Hin.
    { apply list_elem_of_filter. unfold pos. rewrite (proj2 (Nat.eqb_neq _ _)), elem_of_seq, Hbits by lia.
      split; [done | lia]. }
    change (nacked (s_update s att Active at_ms)) with (nacked s) in En. rewrite En in Hin.
    by apply elem_of_nil in Hin.
  - by exists missing, request.
Qed.

Lemma exchange_complete fuel at_ms att r res :
  res.(response) = Some (RespAck (complete_ack s)) -> packet r = Some s.(s_payload) ->
  exists s' r', exchange (S fuel) (s_update s att Active at_ms) r res = Some (s', r') /\
    s'.(status) = Succeeded /\ packet r' = Some s.(s_payload).
Proof.
  intros Hr Hp. cbn [exchange]. rewrite Hr, handle_complete.
  by exists (s_update s att Succeeded None), r.
Qed.

Lemma exchange_repairs n : no_collision -> forall att at_ms r w a res,
  honest s r -> r.(all1) = true -> reports s r w a -> res.(response) = Some (RespAck a) ->
  (last / 63 < w + n)%nat -> att + Z.of_nat n <= MAX_ACK_REQUESTS ->
  r.(r_attempts) + Z.of_nat n <= MAX_ACK_REQUESTS ->
  exists s' r', exchange (S n) (s_update s att Active at_ms) r res = Some (s', r') /\
    s'.(status) = Succeeded /\ packet r' = Some s.(s_payload).
Proof.
  intros Hnc. induction n as [|n IH]; intros att at_ms r w a res H Ha Hrep Hres Hn Hatt Hratt.
  { pose proof (nf_le _ _ _ (rep_nack _ _ _ _ Hrep)). lia. }
  destruct (round_sender r w a att at_ms Hrep ltac:(lia)) as (missing & request & E & Ed & Hreq).
  destruct (repair_round r w a request H Ha Hrep Hreq) as (r2 & res2 & r' & Ef & H2 & _ & Hat2 & Hall & Ho).
  remember (S n) as m. cbn [exchange]. rewrite Hres, E, Ed, Ef. subst m.
  destruct (outcome_after_round w r2 res2 r' Hnc H2 ltac:(lia) Hall Ho) as
    [[Hr Hp] | (w' & a' & Hr & Hlt & H' & Ha' & Hat' & Hrep')].
  - by apply exchange_complete.
  - apply (IH _ _ r' w' a'); try done; lia.
Qed.

End session.

(** C6: A packet is reassembled whatever the order of its fragments.  When a
    sender built for the packet writes every regular fragment in any order,
    with any repetitions, and then the All-1, a fresh receiver with room for
    the packet ends with exactly that packet, its check sequence verified, and
    answers with the completion ACK of the last window. *)
Theorem reassembly_any_order packet_bytes rule lim permit s storage r0 order :
  bytes_ok packet_bytes -> new_unchecked packet_bytes rule lim permit = Ok s ->
  (length packet_bytes <= length storage)%nat -> new_inner storage = Ok r0 ->
  (forall i, (i < s.(count) - 1)%nat <-> i ∈ order) ->
  exists r, feed r0 result_default (send s <$> order ++ [(s.(count) - 1)%nat]) =
    Some ({| response := Some (RespAck (ack_new rule (final_window s) 0 true));
             res_packet_len := Some (length packet_bytes); mic_ok := Some true; aborted := false |}, r) /\
    packet r = Some packet_bytes.
Proof.
  intros Hb Hnew Hl Hr Hord. apply new_unchecked_ok in Hnew as (Hs & Hp & Hru & _); [| done].
  rewrite <- Hp, <- Hru in *. by apply (session_reassembles s Hs storage r0).
Qed.

Lemma reassembly_any_order_witness : exists s r0 r,
  new_unchecked demo_packet RULE_ID_A_TO_B MAX_PACKET_SIZE raw_permit = Ok s /\
  new_inner (replicate 500 255) = Ok r0 /\
  feed r0 result_default (send s <$> [1; 0; 1]%nat ++ [(s.(count) - 1)%nat]) =
    Some ({| response := Some (RespAck (ack_new RULE_ID_A_TO_B (final_window s) 0 true));
             res_packet_len := Some 400%nat; mic_ok := Some true; aborted := false |}, r) /\
  packet r = Some demo_packet.
Proof.
  destruct (new_unchecked demo_packet RULE_ID_A_TO_B MAX_PACKET_SIZE raw_permit) as [s|] eqn:E;
    [| vm_compute in E; discriminate].
  destruct (new_inner (replicate 500 255)) as [r0|] eqn:E0; [| vm_compute in E0; discriminate].
  assert (s.(count) = 3%nat) as Hc.
  { apply new_unchecked_ok in E as (Hs & Hp & _); [| exact demo_bytes].
    rewrite (sok_count s Hs), Hp. reflexivity. }
  destruct (reassembly_any_order demo_packet RULE_ID_A_TO_B MAX_PACKET_SIZE raw_permit s
    (replicate 500 255) r0 [1; 0; 1]%nat) as (r & H1 & H2).
  - exact demo_bytes.
  - exact E.
  - rewrite length_replicate. apply Nat.leb_le. reflexivity.
  - exact E0.
  - intros i. rewrite Hc, !elem_of_cons, elem_of_nil. simpl. lia.
  - exists s, r0, r. split; [reflexivity |]. split; [reflexivity |]. split; [exact H1 | exact H2].
Defined.

(** C23: Under any schedule of one sender's messages (fragments and ACK
    requests, lost, repeated and reordered at will) a receiver never fails and
    never delivers anything else than the packet sent, except a shorter one,
    made of its first tiles and its last, that has the packet's check
    sequence. *)
Theorem delivery_sound s r m :
  sender_ok s -> heard s r -> message s m ->
  exists res r', receive_bytes_inner r m = Some (Ok res, r') /\ receiver_ok r' /\
    forall n, res.(res_packet_len) = Some n ->
      exists p, packet r' = Some p /\ length p = n /\ compute_mic p = compute_mic s.(s_payload) /\
        (p = s.(s_payload) \/
         (length p < length s.(s_payload))%nat /\
         exists k, p = take (k * TILE_SIZE) s.(s_payload) ++ tile s (s.(count) - 1)).
Proof.
  intros Hs Hh Hm. pose proof (heard_live s Hs r Hh) as Hl.
  destruct (hear_live s Hs r m Hl Hm) as (res & r' & E & Hl' & Hd). exists res, r'.
  split; [done |]. split; [apply Hl' |]. intros n Hn.
  destruct (Hd n Hn) as (k & Hk & -> & Hp & Hmic). exists (assembled s k).
  rewrite <- (sok_mic s Hs). split_and!; try done.
  destruct (decide (k = s.(count) - 1)%nat) as [->|Hne]; [left; by apply assembled_all |]. right.
  pose proof (count_bounds s Hs) as (_ & H1 & _).
  assert ((k + 1) * 179 <= (count s - 1) * 179)%nat by (apply Nat.mul_le_mono_r; lia).
  split; [| by exists k]. rewrite <- (assembled_all s Hs) at 1. unfold assembled.
  rewrite !length_app, !length_take. lia.
Qed.

Lemma delivery_sound_witness : exists s r res r',
  demo_sender = Ok s /\ new_inner (replicate 500 255) = Ok r /\
  receive_bytes_inner r (send s 2) = Some (Ok res, r') /\ receiver_ok r'.
Proof.
  destruct demo_sender as [s|] eqn:E; [| vm_compute in E; discriminate].
  destruct (demo_sender_ok s E) as (Hs & _ & _ & Hc & _ & Hp).
  destruct (new_inner (replicate 500 255)) as [r|] eqn:E0; [| vm_compute in E0; discriminate].
  destruct (delivery_sound s r (send s 2)) as (res & r' & H1 & H2 & _).
  - exact Hs.
  - apply (heard_new s (replicate 500 255)); [exact E0 |]. rewrite Hp. apply Nat.leb_le. reflexivity.
  - apply msg_fragment. rewrite Hc. lia.
  - exists s, r, res, r'. split; [reflexivity |]. split; [reflexivity |]. split; [exact H1 | exact H2].
Defined.

(** C5: A lossy transmission is repaired.  A started sender transmits its
    packet; of the regular fragments any subset arrives, in any order, and the
    All-1 arrives after them.  Unless a packet of fewer tiles has the same check
    sequence, the exchange that follows (the receiver's ACK, the fragments the
    sender retransmits for it, and so on) ends, within three rounds and without
    exhausting either side's attempts, with the sender's success and exactly
    the packet in the receiver. *)
Theorem lossy_transmission_repaired packet_bytes rule lim permit s0 s storage r0 arrived :
  bytes_ok packet_bytes -> new_unchecked packet_bytes rule lim permit = Ok s0 ->
  start_inner s0 = Ok s ->
  (length packet_bytes <= length storage)%nat -> new_inner storage = Ok r0 ->
  (forall i, i ∈ arrived -> (i < s.(count) - 1)%nat) -> no_collision s ->
  exists res r s' r',
    feed r0 result_default (send s <$> arrived ++ [(s.(count) - 1)%nat]) = Some (res, r) /\
    exchange 3 s r res = Some (s', r') /\ s'.(status) = Succeeded /\ packet r' = Some packet_bytes.
Proof.
  intros Hb Hnew Hst Hl Hr Harr Hnc. apply new_unchecked_ok in Hnew as (Hs0 & Hp0 & _); [| done].
  assert (s = s_update s 1 Active s.(retransmit_at_ms)) as Es
    by (unfold start_inner in Hst; destruct (negb _); [done |]; injection Hst as <-; done).
  apply start_inner_ok in Hst as (Hs & _ & _ & Hp & _); [| done].
  rewrite <- Hp0, <- Hp in *. clear Hp0 Hp.
  pose proof (count_bounds s Hs) as ((HN & HN2) & _).
  destruct (new_inner_honest s Hs storage r0 Hl Hr) as [H0 Hat0].
  assert (Forall (fun i => i + 1 < s.(count))%nat arrived) as Hreg
    by (apply Forall_forall; intros i Hi; apply Harr in Hi; lia).
  rewrite map_send by (done || (apply Forall_app; split; [| apply Forall_singleton; lia];
    apply Forall_forall; intros i Hi; apply Harr in Hi; lia)).
  unfold wires. rewrite fmap_app.
  destruct (feed_regulars s Hs arrived [wire (frag s (s.(count) - 1))] r0 result_default H0 Hreg)
    as (r1 & res1 & E1 & H1 & _ & Hat1 & _).
  destruct (feed_all1 s Hs r1 res1 H1) as (r2 & res & r & E2 & H2 & Ha2 & Hat2 & _ & Ho).
  exists res, r. rewrite E2 in E1. unfold MAX_ACK_REQUESTS in *.
  assert (exists s' r', exchange 3 (s_update s 1 Active s.(retransmit_at_ms)) r res = Some (s', r') /\
    s'.(status) = Succeeded /\ packet r' = Some s.(s_payload)) as (s' & r' & E).
  { inversion Ho as [k r3 Hk _ Hm _ _ _ Hp | w a ok r3 Hh Ha Hg _ Hatt Hrep | r3 Hatt]; subst.
    - apply exchange_complete; [done | done |]. destruct (decide (k = s.(count) - 1)%nat) as [->|Hne].
      + by rewrite assembled_all in Hp.
      + exfalso. apply (Hnc k); [lia | done].
    - pose proof (last_bounds s Hs). apply (exchange_repairs s Hs 2 Hnc _ _ r w a); try done;
        unfold MAX_ACK_REQUESTS; try lia.
      destruct Hrep. split; try done; setoid_rewrite Hg; done.
    - unfold MAX_ACK_REQUESTS in *. lia. }
  exists s', r'. rewrite Es at 2. split; [exact E1 | exact E].
Qed.

Lemma demo_no_collision s : demo_sender = Ok s -> no_collision s.
Proof.
  intros H. destruct (demo_sender_ok s H) as (Hs & _ & _ & Hc & _ & Hp).
  intros k Hk. rewrite (sok_mic s Hs). unfold assembled, tile. rewrite Hc, Hp in *.
  assert (k = 0 \/ k = 1)%nat as [-> | ->] by lia; vm_compute; discriminate.
Qed.

Lemma lossy_transmission_repaired_witness : exists s0 s r0 res r s' r',
  new_unchecked demo_packet RULE_ID_A_TO_B MAX_PACKET_SIZE raw_permit = Ok s0 /\
  start_inner s0 = Ok s /\ new_inner (replicate 500 255) = Ok r0 /\
  feed r0 result_default (send s <$> [1%nat] ++ [(s.(count) - 1)%nat]) = Some (res, r) /\
  exchange 3 s r res = Some (s', r') /\ s'.(status) = Succeeded /\ packet r' = Some demo_packet.
Proof.
  destruct (new_unchecked demo_packet RULE_ID_A_TO_B MAX_PACKET_SIZE raw_permit) as [s0|] eqn:E;
    [| vm_compute in E; discriminate].
  destruct (new_inner (replicate 500 255)) as [r0|] eqn:E0; [| vm_compute in E0; discriminate].
  destruct (start_inner s0) as [s|] eqn:E1.
  - assert (demo_sender = Ok s) as Hd.
    { unfold demo_sender, new_raw. rewrite E. exact E1. }
    destruct (demo_sender_ok s Hd) as (_ & _ & _ & Hc & _ & _).
    destruct (lossy_transmission_repaired demo_packet RULE_ID_A_TO_B MAX_PACKET_SIZE raw_permit s0 s
      (replicate 500 255) r0 [1%nat]) as (res & r & s' & r' & H1 & H2 & H3 & H4).
    + exact demo_bytes.
    + exact E.
    + exact E1.
    + rewrite length_replicate. apply Nat.leb_le. reflexivity.
    + exact E0.
    + intros i Hi. apply list_elem_of_singleton in Hi. rewrite Hc. lia.
    + exact (demo_no_collision s Hd).
    + exists s0, s, r0, res, r, s', r'.
      split; [reflexivity |]. split; [exact E1 |]. split; [reflexivity |]. split; [exact H1 |].
      split; [exact H2 |]. split; [exact H3 | exact H4].
  - exfalso. apply new_unchecked_ok in E as (_ & _ & _ & Hr & _); [| exact demo_bytes].
    unfold start_inner in E1. rewrite bool_decide_eq_true_2 in E1 by done. discriminate.
Defined.

End FragRepair.
