(* ===== verification/RplMessage.v ===== *)
(** * RPL control messages

    lichen-rpl/src/message.rs: the base objects (DIS, DIO, DAO, DAO-ACK), the
    options the profile uses, the option iterator, and the signed DAO envelope;
    with the SCHC Rule Version option a DIO carries (lichen-schc/src/rules.rs). *)

From S2P Require Import Prelude.

Module RplMessage.

Inductive RplError :=
  | RE_TooShort (e : TooShort)
  | OptionOverrun
  | BadOptionType (t : Z)
  | BadRoutingType (t : Z)
  | RE_BufferTooSmall (e : BufferTooSmall)
  | InvalidOption
  | LocalInstanceId (id : Z).
#[export] Instance RplError_eq_dec : EqDecision RplError.
Proof. solve_decision. Defined.

Definition OPT_PAD1 : Z := 0.
Definition OPT_DODAG_CONFIG : Z := 4.
Definition OPT_RPL_TARGET : Z := 5.
Definition OPT_TRANSIT_INFO : Z := 6.
Definition OPT_RPL_TARGET_DESCRIPTOR : Z := 9.
Definition OPT_DAO_ORIGIN_SIGNATURE : Z := 18.
Definition OPT_DODAG_VERSION_AUTHORIZATION : Z := 22.
Definition OPT_ROOT_DIO_SIGNATURE : Z := 23.
Definition DAO_ORIGIN_SIGNATURE_DATA_LEN : nat := 56.
Definition DAO_ORIGIN_SIGNATURE_LEN : nat := 58.
Definition DODAG_VERSION_AUTHORIZATION_DATA_LEN : nat := 81.
Definition DODAG_VERSION_AUTHORIZATION_LEN : nat := 83.
Definition DODAG_CONFIG_DATA_LEN : nat := 14.
Definition ROOT_DIO_SIGNATURE_MIN_LEN : nat := 64.
Definition ROOT_DIO_SIGNATURE_MAX_LEN : nat := 255.

Definition too_short (n : nat) (data : bytes) : RplError :=
  RE_TooShort {| expected := n; actual := length data |}.
Definition too_small (n : nat) (out : bytes) : RplError :=
  RE_BufferTooSmall {| required := n; provided := length out |}.
Definition b2u8 (b : bool) : Z := if b then 1 else 0.

(** ** DIS *)

Record Dis := { dis_flags : Z; dis_reserved : Z }.
Definition DIS_BASE_LEN : nat := 2.

Definition dis_from_bytes (data : bytes) : result RplError Dis :=
  if (length data <? DIS_BASE_LEN)%nat then Err (too_short DIS_BASE_LEN data)
  else
    let reserved := nth 1 data 0 in
    if negb (reserved =? 0) then Err InvalidOption
    else Ok {| dis_flags := nth 0 data 0; dis_reserved := reserved |}.

Definition dis_write_to (d : Dis) (out : bytes) : result RplError nat * bytes :=
  if (length out <? DIS_BASE_LEN)%nat then (Err (too_small DIS_BASE_LEN out), out)
  else
    let out := <[0%nat := d.(dis_flags)]> out in
    let out := <[1%nat := d.(dis_reserved)]> out in
    (Ok DIS_BASE_LEN, out).

Definition dis_options_tail (data : bytes) : bytes :=
  if (DIS_BASE_LEN <? length data)%nat then drop DIS_BASE_LEN data else [].

(** ** The SCHC Rule Version option *)

Definition RULE_SET_VERSION : Z := 3.
Definition SCHC_RULE_VERSION_TYPE : Z := 19.
Record SchcRuleVersionOption := { sv_version : Z }.
Definition sv_current : SchcRuleVersionOption := {| sv_version := RULE_SET_VERSION |}.
Definition sv_to_bytes (o : SchcRuleVersionOption) : bytes :=
  [SCHC_RULE_VERSION_TYPE; 1; o.(sv_version)].
Definition sv_from_bytes (data : bytes) : option SchcRuleVersionOption :=
  if negb (length data =? 3)%nat then None
  else if negb (nth 0 data 0 =? SCHC_RULE_VERSION_TYPE) then None
  else if negb (nth 1 data 0 =? 1) then None
  else Some {| sv_version := nth 2 data 0 |}.

(** ** DIO *)

Record Dio := {
  dio_instance : Z;
  dio_version : Z;
  dio_rank : Z;
  grounded : bool;
  mode_of_operation : Z;
  preference : Z;
  dtsn : Z;
  dio_flags : Z;
  dio_dodag_id : bytes
}.
Definition DIO_BASE_LEN : nat := 24.
Definition DIO_SERIALIZED_LEN : nat := 27.

Definition dio_from_bytes (data : bytes) : result RplError Dio :=
  if (length data <? DIO_BASE_LEN)%nat then Err (too_short DIO_BASE_LEN data)
  else
    let id := nth 0 data 0 in
    if 192 <=? id then Err (LocalInstanceId id)
    else
      let gmop := nth 4 data 0 in
      if negb (nth 7 data 0 =? 0) then Err InvalidOption
      else Ok {| dio_instance := id; dio_version := nth 1 data 0;
                 dio_rank := from_be [nth 2 data 0; nth 3 data 0];
                 grounded := Z.land (Z.shiftr gmop 7) 1 =? 1;
                 mode_of_operation := Z.land (Z.shiftr gmop 3) 7;
                 preference := Z.land gmop 7;
                 dtsn := nth 5 data 0; dio_flags := nth 6 data 0;
                 dio_dodag_id := slice 8 24 data |}.

Definition dio_write_with (d : Dio) (opt : option bytes) (out : bytes) :
    result RplError nat * bytes :=
  if 192 <=? d.(dio_instance) then (Err (LocalInstanceId d.(dio_instance)), out)
  else
    match (match opt with
           | None => Some (sv_to_bytes sv_current)
           | Some b => sv_to_bytes <$> sv_from_bytes b
           end) with
    | None => (Err InvalidOption, out)
    | Some version_option =>
        if (length out <? DIO_SERIALIZED_LEN)%nat then (Err (too_small DIO_SERIALIZED_LEN out), out)
        else
          let gmop := Z.lor (Z.lor (wrap8 (Z.shiftl (b2u8 d.(grounded)) 7))
                                   (wrap8 (Z.shiftl (Z.land d.(mode_of_operation) 7) 3)))
                            (Z.land d.(preference) 7) in
          let out := <[0%nat := d.(dio_instance)]> out in
          let out := <[1%nat := d.(dio_version)]> out in
          let out := <[2%nat := wrap8 (Z.shiftr d.(dio_rank) 8)]> out in
          let out := <[3%nat := wrap8 d.(dio_rank)]> out in
          let out := <[4%nat := gmop]> out in
          let out := <[5%nat := d.(dtsn)]> out in
          let out := <[6%nat := d.(dio_flags)]> out in
          let out := <[7%nat := 0]> out in
          let out := list_inserts 8 d.(dio_dodag_id) out in
          let out := list_inserts 24 version_option out in
          (Ok DIO_SERIALIZED_LEN, out)
    end.

Definition dio_write_to (d : Dio) (out : bytes) : result RplError nat * bytes :=
  dio_write_with d None out.

Definition dio_options_tail (data : bytes) : bytes :=
  if (DIO_BASE_LEN <? length data)%nat then drop DIO_BASE_LEN data else [].

(** ** DODAG version authorization *)

Record DodagVersionAuthorization := { va_version : Z; root_pubkey : bytes; va_signature : bytes }.

Definition va_from_option_data (data : bytes) : result RplError DodagVersionAuthorization :=
  if negb (length data =? DODAG_VERSION_AUTHORIZATION_DATA_LEN)%nat then Err InvalidOption
  else Ok {| va_version := nth 0 data 0; root_pubkey := slice 1 33 data;
             va_signature := slice 33 81 data |}.

Definition va_write_to (a : DodagVersionAuthorization) (out : bytes) : result RplError nat * bytes :=
  if (length out <? DODAG_VERSION_AUTHORIZATION_LEN)%nat
  then (Err (too_small DODAG_VERSION_AUTHORIZATION_LEN out), out)
  else
    let out := <[0%nat := OPT_DODAG_VERSION_AUTHORIZATION]> out in
    let out := <[1%nat := wrap8 (Z.of_nat DODAG_VERSION_AUTHORIZATION_DATA_LEN)]> out in
    let out := <[2%nat := a.(va_version)]> out in
    let out := list_inserts 3 a.(root_pubkey) out in
    let out := list_inserts 35 a.(va_signature) out in
    (Ok DODAG_VERSION_AUTHORIZATION_LEN, out).

(** ** DAO *)

Record Dao := {
  dao_instance : Z;
  ack_requested : bool;
  dao_flags : Z;
  dao_sequence : Z;
  dao_dodag_id : option bytes
}.

Definition dao_from_bytes (data : bytes) : result RplError Dao :=
  if (length data <? 4)%nat then Err (too_short 4 data)
  else
    let id := nth 0 data 0 in
    if 192 <=? id then Err (LocalInstanceId id)
    else
      let kd := nth 1 data 0 in
      let d_flag := Z.land (Z.shiftr kd 6) 1 in
      let base_len := if d_flag =? 1 then 20%nat else 4%nat in
      if (length data <? base_len)%nat then Err (too_short base_len data)
      else
        let dodag_id := if d_flag =? 1 then Some (slice 4 20 data) else None in
        Ok {| dao_instance := id; ack_requested := Z.land (Z.shiftr kd 7) 1 =? 1;
              dao_flags := Z.land kd 63; dao_sequence := nth 3 data 0;
              dao_dodag_id := dodag_id |}.

Definition dao_write_to (d : Dao) (out : bytes) : result RplError nat * bytes :=
  if 192 <=? d.(dao_instance) then (Err (LocalInstanceId d.(dao_instance)), out)
  else if negb (Z.land d.(dao_instance) 128 =? 0) && bool_decide (d.(dao_dodag_id) = None)
  then (Err InvalidOption, out)
  else
    let base_len := match d.(dao_dodag_id) with Some _ => 20%nat | None => 4%nat end in
    if (length out <? base_len)%nat then (Err (too_small base_len out), out)
    else
      let kd := Z.lor (Z.lor (wrap8 (Z.shiftl (b2u8 d.(ack_requested)) 7))
                   (wrap8 (Z.shiftl (b2u8 (bool_decide (is_Some d.(dao_dodag_id)))) 6)))
                  (Z.land d.(dao_flags) 63) in
      let out := <[0%nat := d.(dao_instance)]> out in
      let out := <[1%nat := kd]> out in
      let out := <[2%nat := 0]> out in
      let out := <[3%nat := d.(dao_sequence)]> out in
      let out := match d.(dao_dodag_id) with Some id => list_inserts 4 id out | None => out end in
      (Ok base_len, out).

Definition dao_options_tail (data : bytes) : bytes :=
  if (length data <? 4)%nat then []
  else
    let d_flag := Z.land (Z.shiftr (nth 1 data 0) 6) 1 in
    let base_len := if d_flag =? 1 then 20%nat else 4%nat in
    drop base_len data.

(** ** DAO origin signature *)

Record DaoOriginSignature := { origin_sequence : Z; os_signature : bytes }.

Definition os_from_bytes (data : bytes) : result RplError DaoOriginSignature :=
  if negb (length data =? DAO_ORIGIN_SIGNATURE_DATA_LEN)%nat then Err InvalidOption
  else Ok {| origin_sequence := from_be (slice 0 8 data); os_signature := drop 8 data |}.

Definition os_write_to (o : DaoOriginSignature) (out : bytes) : result RplError nat * bytes :=
  if o.(origin_sequence) =? 0 then (Err InvalidOption, out)
  else if (length out <? DAO_ORIGIN_SIGNATURE_LEN)%nat
  then (Err (too_small DAO_ORIGIN_SIGNATURE_LEN out), out)
  else
    let out := <[0%nat := OPT_DAO_ORIGIN_SIGNATURE]> out in
    let out := <[1%nat := wrap8 (Z.of_nat DAO_ORIGIN_SIGNATURE_DATA_LEN)]> out in
    let out := list_inserts 2 (to_be 8 o.(origin_sequence)) out in
    let out := list_inserts 10 o.(os_signature) out in
    (Ok DAO_ORIGIN_SIGNATURE_LEN, out).

(** ** Root DIO signature *)

Definition rds_from_bytes (data : bytes) : result RplError bytes :=
  if (length data <? ROOT_DIO_SIGNATURE_MIN_LEN)%nat then Err InvalidOption else Ok data.

Definition rds_write_to (cose : bytes) (out : bytes) : result RplError nat * bytes :=
  if (length cose <? ROOT_DIO_SIGNATURE_MIN_LEN)%nat || (ROOT_DIO_SIGNATURE_MAX_LEN <? length cose)%nat
  then (Err InvalidOption, out)
  else
    let total := (2 + length cose)%nat in
    if (length out <? total)%nat then (Err (too_small total out), out)
    else
      let out := <[0%nat := OPT_ROOT_DIO_SIGNATURE]> out in
      let out := <[1%nat := wrap8 (Z.of_nat (length cose))]> out in
      let out := list_inserts 2 cose out in
      (Ok total, out).

(** ** DODAG configuration, target and transit options *)

Record DodagConfig := {
  pcs : Z;
  a_flag : bool;
  gateway_centric : bool;
  min_hop_rank_increase : Z;
  max_rank_increase : Z;
  ocp : Z;
  def_lifetime : Z;
  lifetime_unit : Z;
  dio_int_min : Z;
  dio_int_doublings : Z;
  dio_redundancy_const : Z
}.

Definition config_default : DodagConfig :=
  {| pcs := 0; a_flag := false; gateway_centric := false; min_hop_rank_increase := 256;
     max_rank_increase := 2048; ocp := 1; def_lifetime := 255; lifetime_unit := 60;
     dio_int_min := 12; dio_int_doublings := 8; dio_redundancy_const := 10 |}.

Definition config_from_bytes (data : bytes) : result RplError DodagConfig :=
  if negb (length data =? DODAG_CONFIG_DATA_LEN)%nat then Err InvalidOption
  else
    let flags := nth 0 data 0 in
    if negb (Z.land flags 112 =? 0) || negb (nth 10 data 0 =? 0) then Err InvalidOption
    else Ok {| pcs := Z.land flags 7;
               a_flag := negb (Z.land flags 8 =? 0);
               gateway_centric := negb (Z.land flags 128 =? 0);
               dio_int_doublings := nth 1 data 0;
               dio_int_min := nth 2 data 0;
               dio_redundancy_const := nth 3 data 0;
               max_rank_increase := from_be [nth 4 data 0; nth 5 data 0];
               min_hop_rank_increase := from_be [nth 6 data 0; nth 7 data 0];
               ocp := from_be [nth 8 data 0; nth 9 data 0];
               def_lifetime := nth 11 data 0;
               lifetime_unit := from_be [nth 12 data 0; nth 13 data 0] |}.

Definition config_write_to (c : DodagConfig) (out : bytes) : result RplError nat * bytes :=
  if 7 <? c.(pcs) then (Err InvalidOption, out)
  else
    let needed := (2 + DODAG_CONFIG_DATA_LEN)%nat in
    if (length out <? needed)%nat then (Err (too_small needed out), out)
    else
      let flags := Z.lor (Z.lor (wrap8 (Z.shiftl (b2u8 c.(gateway_centric)) 7))
                                (wrap8 (Z.shiftl (b2u8 c.(a_flag)) 3))) c.(pcs) in
      let out := <[0%nat := OPT_DODAG_CONFIG]> out in
      let out := <[1%nat := wrap8 (Z.of_nat DODAG_CONFIG_DATA_LEN)]> out in
      let out := <[2%nat := flags]> out in
      let out := <[3%nat := c.(dio_int_doublings)]> out in
      let out := <[4%nat := c.(dio_int_min)]> out in
      let out := <[5%nat := c.(dio_redundancy_const)]> out in
      let out := <[6%nat := wrap8 (Z.shiftr c.(max_rank_increase) 8)]> out in
      let out := <[7%nat := wrap8 c.(max_rank_increase)]> out in
      let out := <[8%nat := wrap8 (Z.shiftr c.(min_hop_rank_increase) 8)]> out in
      let out := <[9%nat := wrap8 c.(min_hop_rank_increase)]> out in
      let out := <[10%nat := wrap8 (Z.shiftr c.(ocp) 8)]> out in
      let out := <[11%nat := wrap8 c.(ocp)]> out in
      let out := <[12%nat := 0]> out in
      let out := <[13%nat := c.(def_lifetime)]> out in
      let out := <[14%nat := wrap8 (Z.shiftr c.(lifetime_unit) 8)]> out in
      let out := <[15%nat := wrap8 c.(lifetime_unit)]> out in
      (Ok needed, out).

Record RplTarget := { prefix_len : Z; prefix : bytes }.
Definition TARGET_DATA_LEN : nat := 18.

Definition target_from_bytes (data : bytes) : result RplError RplTarget :=
  if negb (length data =? TARGET_DATA_LEN)%nat then Err InvalidOption
  else if negb (nth 0 data 0 =? 0) then Err InvalidOption
  else if negb (nth 1 data 0 =? 128) then Err InvalidOption
  else Ok {| prefix_len := nth 1 data 0; prefix := drop 2 data |}.

Definition target_write_to (t : RplTarget) (out : bytes) : result RplError nat * bytes :=
  if negb (t.(prefix_len) =? 128) then (Err InvalidOption, out)
  else
    let needed := (2 + TARGET_DATA_LEN)%nat in
    if (length out <? needed)%nat then (Err (too_small needed out), out)
    else
      let out := <[0%nat := OPT_RPL_TARGET]> out in
      let out := <[1%nat := wrap8 (Z.of_nat TARGET_DATA_LEN)]> out in
      let out := <[2%nat := 0]> out in
      let out := <[3%nat := t.(prefix_len)]> out in
      let out := list_inserts 4 t.(prefix) out in
      (Ok needed, out).

Record TransitInfo := {
  external : bool;
  path_control : Z;
  path_sequence : Z;
  path_lifetime : Z;
  parent_address : bytes
}.
Definition TRANSIT_DATA_LEN : nat := 20.

Definition transit_from_bytes (data : bytes) : result RplError TransitInfo :=
  if negb (length data =? TRANSIT_DATA_LEN)%nat || negb (Z.land (nth 0 data 0) 127 =? 0)
  then Err InvalidOption
  else Ok {| external := negb (Z.land (nth 0 data 0) 128 =? 0);
             path_control := nth 1 data 0; path_sequence := nth 2 data 0;
             path_lifetime := nth 3 data 0; parent_address := slice 4 20 data |}.

Definition transit_write_to (t : TransitInfo) (out : bytes) : result RplError nat * bytes :=
  let needed := (2 + TRANSIT_DATA_LEN)%nat in
  if (length out <? needed)%nat then (Err (too_small needed out), out)
  else
    let out := <[0%nat := OPT_TRANSIT_INFO]> out in
    let out := <[1%nat := wrap8 (Z.of_nat TRANSIT_DATA_LEN)]> out in
    let out := <[2%nat := if t.(external) then 128 else 0]> out in
    let out := <[3%nat := t.(path_control)]> out in
    let out := <[4%nat := t.(path_sequence)]> out in
    let out := <[5%nat := t.(path_lifetime)]> out in
    let out := list_inserts 6 t.(parent_address) out in
    (Ok needed, out).

(** ** Option iterator *)

Record RawOption := { opt_type : Z; opt_data : bytes }.

Fixpoint skip_pad (data : bytes) (pos fuel : nat) : nat :=
  match fuel with
  | O => pos
  | S fuel =>
      if (pos <? length data)%nat && (nth pos data 0 =? OPT_PAD1)
      then skip_pad data (pos + 1) fuel else pos
  end.

(** [OptionIter::next]: the item and the position it leaves. *)
Definition option_next (data : bytes) (pos : nat) : option (result RplError RawOption) * nat :=
  let pos := skip_pad data pos (length data) in
  if (length data <=? pos)%nat then (None, pos)
  else
    let ty := nth pos data 0 in
    if (length data <? pos + 2)%nat then (Some (Err (too_short (pos + 2) data)), pos)
    else
      let len := Z.to_nat (nth (pos + 1) data 0) in
      if (length data <? pos + 2 + len)%nat then (Some (Err OptionOverrun), pos)
      else (Some (Ok {| opt_type := ty; opt_data := slice (pos + 2) (pos + 2 + len) data |}),
            (pos + 2 + len)%nat).

(** The options of a tail, for a loop that stops at the first error. *)
Fixpoint options_from (data : bytes) (pos fuel : nat) : result RplError (list RawOption) :=
  match fuel with
  | O => Ok []
  | S fuel =>
      match option_next data pos with
      | (None, _) => Ok []
      | (Some (Err e), _) => Err e
      | (Some (Ok o), pos) => rest ← options_from data pos fuel; Ok (o :: rest)
      end
  end.
Definition options (data : bytes) : result RplError (list RawOption) :=
  options_from data 0 (S (length data)).

Definition append_option (buf : bytes) (pos : nat) (o : bytes) : result RplError nat * bytes :=
  let fin := (pos + length o)%nat in
  if (length buf <? fin)%nat then (Err (too_small fin buf), buf)
  else (Ok fin, list_inserts pos o buf).

(** ** DAO-ACK *)

Record DaoAck := {
  da_instance : Z;
  da_flags : Z;
  da_sequence : Z;
  da_status : Z;
  da_dodag_id : option bytes
}.
Definition BASE_LEN_NO_DODAGID : nat := 4.
Definition BASE_LEN_WITH_DODAGID : nat := 20.

Definition da_from_bytes (data : bytes) : result RplError DaoAck :=
  if (length data <? BASE_LEN_NO_DODAGID)%nat then Err (too_short BASE_LEN_NO_DODAGID data)
  else
    let d_byte := nth 1 data 0 in
    let d_flag := Z.land (Z.shiftr d_byte 7) 1 in
    let base_len := if d_flag =? 1 then BASE_LEN_WITH_DODAGID else BASE_LEN_NO_DODAGID in
    if (length data <? base_len)%nat then Err (too_short base_len data)
    else if negb (Z.land d_byte 127 =? 0) || negb (is_ok (options (drop base_len data)))
    then Err InvalidOption
    else
      let dodag_id := if d_flag =? 1 then Some (slice 4 20 data) else None in
      let id := nth 0 data 0 in
      if 192 <=? id then Err (LocalInstanceId id)
      else Ok {| da_instance := id; da_flags := Z.land d_byte 127; da_sequence := nth 2 data 0;
                 da_status := nth 3 data 0; da_dodag_id := dodag_id |}.

Definition da_write_to (d : DaoAck) (out : bytes) : result RplError nat * bytes :=
  if 192 <=? d.(da_instance) then (Err (LocalInstanceId d.(da_instance)), out)
  else if negb (d.(da_flags) =? 0) then (Err InvalidOption, out)
  else
    let base_len := match d.(da_dodag_id) with
                    | Some _ => BASE_LEN_WITH_DODAGID | None => BASE_LEN_NO_DODAGID end in
    if (length out <? base_len)%nat then (Err (too_small base_len out), out)
    else
      let d_byte := wrap8 (Z.shiftl (b2u8 (bool_decide (is_Some d.(da_dodag_id)))) 7) in
      let out := <[0%nat := d.(da_instance)]> out in
      let out := <[1%nat := d_byte]> out in
      let out := <[2%nat := d.(da_sequence)]> out in
      let out := <[3%nat := d.(da_status)]> out in
      let out := match d.(da_dodag_id) with Some id => list_inserts 4 id out | None => out end in
      (Ok base_len, out).

Definition da_options_tail (data : bytes) : bytes :=
  if (length data <? BASE_LEN_NO_DODAGID)%nat then []
  else
    let base_len := if negb (Z.land (nth 1 data 0) 128 =? 0)
                    then BASE_LEN_WITH_DODAGID else BASE_LEN_NO_DODAGID in
    drop base_len data.

(** ** The signed DAO envelope *)

Inductive DaoEnvelopeError :=
  | Rpl (e : RplError)
  | MissingSignature
  | DuplicateSignature
  | NonTerminalSignature
  | InvalidOptionLength
  | UnknownOption (t : Z).

Record SignedDaoEnvelope := {
  env_dao : Dao;
  signed_bytes : bytes;
  unsigned_bytes : bytes;
  env_origin : DaoOriginSignature
}.

Definition is_generalized_target_body (body : bytes) : bool :=
  (2 <=? length body)%nat && (nth 0 body 0 =? 0) && (nth 1 body 0 <=? 128)
  && ((nth 1 body 0 + 7) / 8 <=? Z.of_nat (length body - 2)).

(** The options a DAO may carry before its signature. *)
Definition dao_option_ok (ty : Z) (len : Z) (body : bytes) : result DaoEnvelopeError unit :=
  if ty =? OPT_PAD1 then Ok tt
  else if (ty =? OPT_RPL_TARGET) && is_generalized_target_body body then Ok tt
  else if (ty =? OPT_TRANSIT_INFO) && (len =? Z.of_nat TRANSIT_DATA_LEN) then Ok tt
  else if (ty =? OPT_RPL_TARGET_DESCRIPTOR) && (len =? 4) then Ok tt
  else if (ty =? OPT_RPL_TARGET) || (ty =? OPT_TRANSIT_INFO) || (ty =? OPT_RPL_TARGET_DESCRIPTOR)
  then Err InvalidOptionLength
  else Err (UnknownOption ty).

Fixpoint envelope_scan (data : bytes) (pos : nat) (found : option (nat * DaoOriginSignature))
    (fuel : nat) : result DaoEnvelopeError (option (nat * DaoOriginSignature)) :=
  match fuel with
  | O => Ok found
  | S fuel =>
      if (length data <=? pos)%nat then Ok found
      else if nth pos data 0 =? OPT_PAD1 then
        if bool_decide (is_Some found) then Err NonTerminalSignature
        else envelope_scan data (pos + 1) found fuel
      else if (length data <? pos + 2)%nat then Err InvalidOptionLength
      else
        let len := Z.to_nat (nth (pos + 1) data 0) in
        let fin := (pos + 2 + len)%nat in
        if (length data <? fin)%nat then Err InvalidOptionLength
        else if nth pos data 0 =? OPT_DAO_ORIGIN_SIGNATURE then
          if bool_decide (is_Some found) then Err DuplicateSignature
          else
            origin ← map_err (fun _ => InvalidOptionLength) (os_from_bytes (slice (pos + 2) fin data));
            if origin.(origin_sequence) =? 0 then Err InvalidOptionLength
            else envelope_scan data fin (Some (pos, origin)) fuel
        else if bool_decide (is_Some found) then Err NonTerminalSignature
        else
          dao_option_ok (nth pos data 0) (nth (pos + 1) data 0) (slice (pos + 2) fin data) ≫= fun _ =>
          envelope_scan data fin found fuel
  end.

Definition envelope_from_bytes (data : bytes) : result DaoEnvelopeError SignedDaoEnvelope :=
  dao ← map_err Rpl (dao_from_bytes data);
  if negb (dao.(dao_flags) =? 0) || negb (nth 2 data 0 =? 0) then Err (Rpl InvalidOption)
  else
    let base_len := (length data - length (dao_options_tail data))%nat in
    found ← envelope_scan data base_len None (S (length data));
    match found with
    | None => Err MissingSignature
    | Some (unsigned_len, origin) =>
        Ok {| env_dao := dao; signed_bytes := data; unsigned_bytes := take unsigned_len data;
              env_origin := origin |}
    end.

(** ** Encodings in closed form *)

(** [write] and [read] agree on the values that satisfy [ok]: the octets of a
    value, read back behind the first [skip] (an option's type and length),
    give the value; they are written at the front of any buffer that can hold
    them, the rest of which is kept, and a smaller buffer is refused as it is. *)
Definition roundtrips {A} (ok : A -> Prop) (write : A -> bytes -> result RplError nat * bytes)
    (read : bytes -> result RplError A) (skip : nat) : Prop :=
  forall a out, ok a -> exists w,
    read (drop skip w) = Ok a /\
    ((length w <= length out)%nat -> write a out = (Ok (length w), w ++ drop (length w) out)) /\
    ((length out < length w)%nat -> write a out = (Err (too_small (length w) out), out)).

(** Adjacent writes from the front are one write. *)
Ltac merge_writes :=
  rewrite ?insert_inserts;
  repeat (rewrite inserts_adjacent by (rewrite ?length_app; simpl; lia));
  rewrite inserts_front by (rewrite ?length_app; simpl; lia).

(** Chooses between the two lengths of the buffer and writes. *)
Ltac write_cases :=
  match goal with |- context [(?a <? ?b)%nat] => destruct (a <? b)%nat eqn:?; bool_to_prop end;
  simpl length in *; rewrite ?length_app in *; simpl length in *; try lia.

Lemma be16_split x : is_u16 x -> from_be [wrap8 (Z.shiftr x 8); wrap8 x] = x.
Proof.
  intros H. unfold from_be, wrap8. simpl. rewrite Z.shiftr_div_pow2 by lia. change (2 ^ 8) with 256.
  rewrite (Z.mod_small (x / 256)).
  - pose proof (Z.div_mod x 256 ltac:(lia)). lia.
  - split; [apply Z.div_pos; width | apply Z.div_lt_upper_bound; width].
Qed.

(** A mask of low bits is a remainder, a shift a quotient. *)
Lemma land_low n m x : m = Z.ones n -> 0 <= n -> Z.land x m = x mod 2 ^ n.
Proof. intros ->. apply Z.land_ones. Qed.

Ltac low_fields :=
  rewrite ?Z.shiftr_div_pow2 by lia;
  rewrite ?(land_low 1 1), ?(land_low 3 7), ?(land_low 6 63), ?(land_low 7 127) by done;
  change (2 ^ 1) with 2; change (2 ^ 3) with 8; change (2 ^ 6) with 64; change (2 ^ 7) with 128.

(** Arithmetic on an octet whose top bits are the flags [b]. *)
Ltac octet_fields b := destruct b; simpl; Z.to_euclidean_division_equations; lia.

Record dis_ok (d : Dis) : Prop := { dis_res : d.(dis_reserved) = 0 }.

Lemma dis_roundtrip : roundtrips dis_ok dis_write_to dis_from_bytes 0.
Proof.
  intros d out [Hr]. exists [dis_flags d; dis_reserved d]. split_and!.
  - unfold dis_from_bytes. simpl. rewrite Hr. simpl. destruct d; simpl in *; by subst.
  - intros Hl. unfold dis_write_to, DIS_BASE_LEN. write_cases. merge_writes. done.
  - intros Hl. unfold dis_write_to, DIS_BASE_LEN. write_cases. done.
Qed.

Record dio_ok (d : Dio) : Prop := {
  dio_global : d.(dio_instance) < 192;
  dio_rank16 : is_u16 d.(dio_rank);
  dio_mop : 0 <= d.(mode_of_operation) <= 7;
  dio_pref : 0 <= d.(preference) <= 7;
  dio_id_len : length d.(dio_dodag_id) = 16%nat
}.

Lemma gmop_val g m p : 0 <= m <= 7 -> 0 <= p <= 7 ->
  Z.lor (Z.lor (wrap8 (Z.shiftl (b2u8 g) 7)) (wrap8 (Z.shiftl (Z.land m 7) 3))) (Z.land p 7)
  = b2u8 g * 128 + m * 8 + p.
Proof.
  intros Hm Hp. change 7 with (Z.ones 3) at 2 3. rewrite !Z.land_ones, !Z.mod_small by lia.
  unfold wrap8. rewrite !Z.mod_small by (rewrite Z.shiftl_mul_pow2 by lia; destruct g; simpl; lia).
  replace (Z.shiftl (b2u8 g) 7) with (Z.shiftl (Z.shiftl (b2u8 g) 4) 3) by (by rewrite Z.shiftl_shiftl).
  rewrite <- Z.shiftl_lor, lor_shiftl by lia. change (2 ^ 3) with 8.
  rewrite lor_shiftl by (change (2 ^ 4) with 16; lia). change (2 ^ 4) with 16. lia.
Qed.

Lemma dio_roundtrip : roundtrips dio_ok dio_write_to dio_from_bytes 0.
Proof.
  intros d out [Hg Hr Hm Hp Hi].
  exists ([dio_instance d; dio_version d; wrap8 (Z.shiftr (dio_rank d) 8); wrap8 (dio_rank d);
    b2u8 (grounded d) * 128 + mode_of_operation d * 8 + preference d; dtsn d; dio_flags d; 0]
    ++ dio_dodag_id d ++ sv_to_bytes sv_current).
  assert (forall k, length ([dio_instance d; dio_version d; wrap8 (Z.shiftr (dio_rank d) 8);
    wrap8 (dio_rank d); k; dtsn d; dio_flags d; 0] ++ dio_dodag_id d ++ sv_to_bytes sv_current) = 27%nat)
    as Hl by (intros; rewrite !length_app, Hi; done).
  rewrite !Hl. split_and!.
  - rewrite drop_0. unfold dio_from_bytes. rewrite Hl. simpl nth.
    rewrite (proj2 (Z.leb_gt _ _)) by lia. cbn [Nat.ltb Nat.leb negb Z.eqb DIO_BASE_LEN].
    rewrite be16_split by done. erewrite slice_app_eq; [| done | done | by rewrite Hi].
    low_fields. destruct d as [i v r g m p ts f id]; simpl in *.
    replace ((b2u8 g * 128 + m * 8 + p) / 8 mod 8) with m by octet_fields g.
    replace ((b2u8 g * 128 + m * 8 + p) mod 8) with p by octet_fields g.
    replace ((b2u8 g * 128 + m * 8 + p) / 128 mod 2) with (b2u8 g) by octet_fields g.
    by destruct g.
  - intros Ho. unfold dio_write_to, dio_write_with. rewrite (proj2 (Z.leb_gt _ _)) by lia.
    rewrite (proj2 (Nat.ltb_ge _ _)) by done. rewrite gmop_val by done. merge_writes.
    rewrite <- !app_assoc. simpl. rewrite length_app, Hi. done.
  - intros Ho. unfold dio_write_to, dio_write_with. rewrite (proj2 (Z.leb_gt _ _)) by lia.
    by rewrite (proj2 (Nat.ltb_lt _ _)) by done.
Qed.

Definition id_ok (id : option bytes) : Prop :=
  match id with Some b => length b = 16%nat | None => True end.
Definition id_bytes (id : option bytes) : bytes := default [] id.
Definition id_flag (id : option bytes) : bool := bool_decide (is_Some id).

Record dao_ok (d : Dao) : Prop := {
  dao_global : 0 <= d.(dao_instance) < 192;
  dao_named : 128 <= d.(dao_instance) -> is_Some d.(dao_dodag_id);
  dao_flags6 : 0 <= d.(dao_flags) <= 63;
  dao_id_len : id_ok d.(dao_dodag_id)
}.

Lemma kd_val a b f : 0 <= f <= 63 ->
  Z.lor (Z.lor (wrap8 (Z.shiftl (b2u8 a) 7)) (wrap8 (Z.shiftl (b2u8 b) 6))) (Z.land f 63)
  = b2u8 a * 128 + b2u8 b * 64 + f.
Proof.
  intros Hf. rewrite (land_low 6 63), Z.mod_small by (done || lia). unfold wrap8.
  rewrite !Z.mod_small by (rewrite Z.shiftl_mul_pow2 by lia; destruct a, b; simpl; lia).
  replace (Z.shiftl (b2u8 a) 7) with (Z.shiftl (Z.shiftl (b2u8 a) 1) 6) by (by rewrite Z.shiftl_shiftl).
  rewrite <- Z.shiftl_lor, lor_shiftl by lia. change (2 ^ 6) with 64.
  rewrite lor_shiftl by (change (2 ^ 1) with 2; destruct b; simpl; lia). change (2 ^ 1) with 2. lia.
Qed.

Lemma bit7_clear i : 0 <= i < 128 -> Z.land i 128 = 0.
Proof.
  intros Hi. apply Z.bits_inj'. intros k Hk. rewrite Z.land_spec, Z.bits_0.
  change 128 with (2 ^ 7). rewrite Z.pow2_bits_eqb by lia. destruct (Z.eqb_spec 7 k) as [<- |].
  - rewrite andb_true_r. apply Z.testbit_false; [lia |]. change (2 ^ 7) with 128.
    by rewrite Z.div_small.
  - apply andb_false_r.
Qed.

Lemma slice_cons4 {A} (a b c d : A) l n :
  slice 4 n (a :: b :: c :: d :: l) = slice 0 (n - 4) l.
Proof. unfold slice. simpl. by rewrite Nat.sub_0_r. Qed.

Lemma dao_roundtrip : roundtrips dao_ok dao_write_to dao_from_bytes 0.
Proof.
  intros d out [Hg Hn Hf Hi].
  exists ([dao_instance d; b2u8 (ack_requested d) * 128 + b2u8 (id_flag (dao_dodag_id d)) * 64
    + dao_flags d; 0; dao_sequence d] ++ id_bytes (dao_dodag_id d)).
  destruct d as [i a f q id]; simpl in *.
  assert (negb (Z.land i 128 =? 0) && bool_decide (id = None) = false) as Hloc.
  { destruct id as [| ]; [by rewrite andb_false_r |].
    destruct (Z.lt_ge_cases i 128) as [Hlt | Hge]; [| by destruct (Hn Hge)].
    by rewrite bit7_clear by lia. }
  split_and!.
  - unfold dao_from_bytes. simpl. rewrite (proj2 (Z.leb_gt _ _)) by lia. low_fields.
    replace ((b2u8 a * 128 + b2u8 (id_flag id) * 64 + f) / 64 mod 2) with (b2u8 (id_flag id))
      by (destruct id; unfold id_flag; simpl; octet_fields a).
    replace ((b2u8 a * 128 + b2u8 (id_flag id) * 64 + f) / 128 mod 2) with (b2u8 a)
      by (destruct id; unfold id_flag; simpl; octet_fields a).
    replace ((b2u8 a * 128 + b2u8 (id_flag id) * 64 + f) mod 64) with f
      by (destruct id; unfold id_flag; simpl; octet_fields a).
    destruct id as [id |]; simpl in *.
    + rewrite Hi. simpl. rewrite slice_cons4. change (20 - 4)%nat with 16%nat. rewrite <- Hi, slice_full. by destruct a.
    + by destruct a.
  - intros Ho. unfold dao_write_to; simpl. rewrite (proj2 (Z.leb_gt _ _)), Hloc, kd_val by lia.
    destruct id as [id |]; simpl in *; rewrite (proj2 (Nat.ltb_ge _ _)) by lia;
      merge_writes; simpl; rewrite ?Hi; done.
  - intros Ho. unfold dao_write_to; simpl. rewrite (proj2 (Z.leb_gt _ _)), Hloc by lia.
    destruct id as [id |]; simpl in *; rewrite ?Hi in *; by rewrite (proj2 (Nat.ltb_lt _ _)) by lia.
Qed.

Record da_ok (d : DaoAck) : Prop := {
  da_global : d.(da_instance) < 192;
  da_unflagged : d.(da_flags) = 0;
  da_id_len : id_ok d.(da_dodag_id)
}.

Lemma da_roundtrip : roundtrips da_ok da_write_to da_from_bytes 0.
Proof.
  intros d out [Hg Hf Hi].
  exists ([da_instance d; b2u8 (id_flag (da_dodag_id d)) * 128; da_sequence d; da_status d]
    ++ id_bytes (da_dodag_id d)).
  destruct d as [i f q st id]; simpl in *; subst f. split_and!.
  - unfold da_from_bytes. destruct id as [id |]; simpl in *; [rewrite Hi; simpl |].
    + rewrite slice_cons4, drop_ge by lia. change (20 - 4)%nat with 16%nat.
      rewrite <- Hi, slice_full. simpl. by rewrite (proj2 (Z.leb_gt _ _)) by lia.
    + by rewrite (proj2 (Z.leb_gt _ _)) by lia.
  - intros Ho. unfold da_write_to; simpl. rewrite (proj2 (Z.leb_gt _ _)) by lia.
    destruct id as [id |]; simpl in *; rewrite (proj2 (Nat.ltb_ge _ _)) by (rewrite ?Hi in *; done);
      merge_writes; simpl; rewrite ?Hi; done.
  - intros Ho. unfold da_write_to; simpl. rewrite (proj2 (Z.leb_gt _ _)) by lia.
    destruct id as [id |]; simpl in *; rewrite ?Hi in *; by rewrite (proj2 (Nat.ltb_lt _ _)) by done.
Qed.

Record va_ok (a : DodagVersionAuthorization) : Prop := {
  va_key_len : length a.(root_pubkey) = 32%nat;
  va_sig_len : length a.(va_signature) = 48%nat
}.

Lemma va_roundtrip : roundtrips va_ok va_write_to va_from_option_data 2.
Proof.
  intros [v k sg] out [Hk Hs]; simpl in *.
  exists ([OPT_DODAG_VERSION_AUTHORIZATION; 81; v] ++ k ++ sg).
  assert (length ([OPT_DODAG_VERSION_AUTHORIZATION; 81; v] ++ k ++ sg) = 83%nat) as Hl
    by (rewrite !length_app, Hk, Hs; done).
  rewrite Hl. split_and!.
  - simpl. unfold va_from_option_data. simpl. rewrite length_app, Hk, Hs. simpl.
    rewrite (slice_app_eq [v] k sg), (slice_app_eq ([v] ++ k) sg []);
      rewrite ?app_nil_r, ?length_app, ?Hk, ?Hs; done.
  - intros Ho. unfold va_write_to; simpl. rewrite (proj2 (Nat.ltb_ge _ _)) by done.
    merge_writes. rewrite <- !app_assoc. rewrite !length_app, Hk, Hs. done.
  - intros Ho. unfold va_write_to. by rewrite (proj2 (Nat.ltb_lt _ _)) by done.
Qed.

Record os_ok (o : DaoOriginSignature) : Prop := {
  os_seq : is_u64 o.(origin_sequence);
  os_seq_pos : o.(origin_sequence) <> 0;
  os_sig_len : length o.(os_signature) = 48%nat
}.

Definition os_bytes (o : DaoOriginSignature) : bytes :=
  [OPT_DAO_ORIGIN_SIGNATURE; 56] ++ to_be 8 o.(origin_sequence) ++ o.(os_signature).

Lemma os_bytes_len o : os_ok o -> length (os_bytes o) = 58%nat.
Proof. intros []. unfold os_bytes. by rewrite !length_app, length_to_be, os_sig_len0. Qed.

Lemma os_read o : os_ok o -> os_from_bytes (drop 2 (os_bytes o)) = Ok o.
Proof.
  intros Ho. pose proof (os_bytes_len o Ho) as Hl. destruct Ho as [Hq _ Hs]. unfold os_from_bytes.
  rewrite length_drop, Hl. change (drop 2 (os_bytes o)) with (to_be 8 (origin_sequence o) ++ os_signature o).
  cbn [negb Nat.eqb Nat.sub DAO_ORIGIN_SIGNATURE_DATA_LEN].
  rewrite (slice_app_eq [] (to_be 8 (origin_sequence o)) (os_signature o));
    rewrite ?length_to_be; [| done..].
  rewrite from_be_to_be_u64, drop_app_ge, length_to_be by (rewrite ?length_to_be; done).
  rewrite drop_0. by destruct o.
Qed.

Lemma os_roundtrip : roundtrips os_ok os_write_to os_from_bytes 2.
Proof.
  intros o out Ho. exists (os_bytes o). rewrite os_read, os_bytes_len by done. destruct Ho as [Hq Hz Hs].
  split_and!; [done | |]; intros Hl; unfold os_write_to; rewrite (proj2 (Z.eqb_neq _ _) Hz).
  - rewrite (proj2 (Nat.ltb_ge _ _)) by done. change (wrap8 _) with 56. merge_writes.
    unfold os_bytes. rewrite <- app_assoc. rewrite !length_app, length_to_be, Hs. done.
  - by rewrite (proj2 (Nat.ltb_lt _ _)) by done.
Qed.

Record rds_ok (cose : bytes) : Prop := { rds_len : (64 <= length cose <= 255)%nat }.

Lemma rds_roundtrip : roundtrips rds_ok rds_write_to rds_from_bytes 2.
Proof.
  intros c out [Hl]. exists ([OPT_ROOT_DIO_SIGNATURE; Z.of_nat (length c)] ++ c).
  change (drop 2 (_ ++ c)) with (drop 0 c). rewrite length_app.
  rewrite drop_0. unfold rds_from_bytes, rds_write_to, ROOT_DIO_SIGNATURE_MIN_LEN, ROOT_DIO_SIGNATURE_MAX_LEN.
  rewrite (proj2 (Nat.ltb_ge (length c) 64)), (proj2 (Nat.ltb_ge 255 _)) by lia.
  cbn [orb length Nat.add].
  split_and!; [done | |]; intros Ho.
  - rewrite (proj2 (Nat.ltb_ge _ _)) by done. unfold wrap8. rewrite Z.mod_small by lia. by merge_writes.
  - by rewrite (proj2 (Nat.ltb_lt _ _)) by done.
Qed.

Record target_ok (t : RplTarget) : Prop := {
  t_host : t.(prefix_len) = 128;
  t_len : length t.(prefix) = 16%nat
}.

Lemma target_roundtrip : roundtrips target_ok target_write_to target_from_bytes 2.
Proof.
  intros [n pre] out [Hn Hp]; simpl in *; subst n.
  exists ([OPT_RPL_TARGET; 18; 0; 128] ++ pre). simpl. rewrite Hp.
  unfold target_from_bytes, target_write_to. simpl. rewrite Hp. simpl. split_and!; [done | |]; intros Ho.
  - rewrite (proj2 (Nat.ltb_ge _ _)) by done. merge_writes. simpl. by rewrite Hp.
  - by rewrite (proj2 (Nat.ltb_lt _ _)) by done.
Qed.

Record transit_ok (t : TransitInfo) : Prop := { ti_len : length t.(parent_address) = 16%nat }.

Lemma transit_roundtrip : roundtrips transit_ok transit_write_to transit_from_bytes 2.
Proof.
  intros [e pc ps pl pa] out [Hp]; simpl in *.
  exists ([OPT_TRANSIT_INFO; 20; if e then 128 else 0; pc; ps; pl] ++ pa). simpl. rewrite Hp.
  unfold transit_from_bytes, transit_write_to. simpl. rewrite Hp, slice_cons4.
  replace (slice 0 (20 - 4) pa) with pa by (change (20 - 4)%nat with 16%nat; by rewrite <- Hp, slice_full).
  split_and!; [by destruct e | |]; intros Ho.
  - rewrite (proj2 (Nat.ltb_ge _ _)) by done. merge_writes. simpl. by rewrite Hp.
  - by rewrite (proj2 (Nat.ltb_lt _ _)) by done.
Qed.

Record config_ok (c : DodagConfig) : Prop := {
  cfg_pcs : 0 <= c.(pcs) <= 7;
  cfg_max : is_u16 c.(max_rank_increase);
  cfg_min : is_u16 c.(min_hop_rank_increase);
  cfg_ocp : is_u16 c.(ocp);
  cfg_unit : is_u16 c.(lifetime_unit)
}.

Lemma config_roundtrip : roundtrips config_ok config_write_to config_from_bytes 2.
Proof.
  intros [p a g mh mr oc dl lu dm dd dr] out [Hp Hmr Hmh Hoc Hlu]; simpl in *.
  set (flags := Z.lor (Z.lor (wrap8 (Z.shiftl (b2u8 g) 7)) (wrap8 (Z.shiftl (b2u8 a) 3))) p).
  assert (Z.land flags 7 = p /\ Z.land flags 112 = 0 /\ negb (Z.land flags 8 =? 0) = a /\
          negb (Z.land flags 128 =? 0) = g) as (F1 & F2 & F3 & F4).
  { subst flags. assert (p = 0 \/ p = 1 \/ p = 2 \/ p = 3 \/ p = 4 \/ p = 5 \/ p = 6 \/ p = 7) as Hc
      by lia. repeat (destruct Hc as [-> | Hc]; [by destruct a, g |]). subst p; by destruct a, g. }
  exists [OPT_DODAG_CONFIG; 14; flags; dd; dm; dr; wrap8 (Z.shiftr mr 8); wrap8 mr;
    wrap8 (Z.shiftr mh 8); wrap8 mh; wrap8 (Z.shiftr oc 8); wrap8 oc; 0; dl;
    wrap8 (Z.shiftr lu 8); wrap8 lu].
  unfold config_from_bytes, config_write_to. simpl length. split_and!.
  - simpl. by rewrite F1, F2, F3, F4, !be16_split by done.
  - intros Ho. simpl pcs. rewrite (proj2 (Z.ltb_ge 7 p)), (proj2 (Nat.ltb_ge _ _)) by (done || lia).
    cbn -[list_inserts insert wrap8 Z.lor]. change (wrap8 14) with 14. fold flags. by merge_writes.
  - intros Ho. simpl pcs. rewrite (proj2 (Z.ltb_ge 7 p)) by lia.
    by rewrite (proj2 (Nat.ltb_lt _ _)) by done.
Qed.

(** ** The envelope grammar *)

(** The octets of a sequence of options a DAO may carry before its signature. *)
Inductive dao_opts : bytes -> Prop :=
  | opts_nil : dao_opts []
  | opts_pad l : dao_opts l -> dao_opts (OPT_PAD1 :: l)
  | opts_cons ty body l :
      ty <> OPT_PAD1 -> ty <> OPT_DAO_ORIGIN_SIGNATURE ->
      dao_option_ok ty (Z.of_nat (length body)) body = Ok tt ->
      dao_opts l -> dao_opts (ty :: Z.of_nat (length body) :: body ++ l).

Lemma nth_drop (data rest : bytes) pos i x :
  drop pos data = rest -> rest !! i = Some x -> nth (pos + i) data 0 = x.
Proof. intros <- H. rewrite lookup_drop in H. by apply nth_lookup_Some. Qed.

Lemma drop_len {A} (data rest : list A) pos :
  drop pos data = rest -> rest <> [] -> length data = (pos + length rest)%nat.
Proof.
  intros <- H. rewrite length_drop. destruct (decide (pos <= length data)%nat); [lia |].
  destruct H. apply drop_ge. lia.
Qed.

(** One step of the scan with no signature found so far, on what it reads. *)
Lemma scan_pad data pos rest fuel : drop pos data = OPT_PAD1 :: rest ->
  envelope_scan data pos None (S fuel) = envelope_scan data (pos + 1) None fuel.
Proof.
  intros H. simpl. rewrite <- (Nat.add_0_r pos) at 2. rewrite (nth_drop _ _ pos 0 _ H eq_refl).
  pose proof (drop_len _ _ _ H ltac:(done)) as Hl. simpl in Hl.
  rewrite (proj2 (Nat.leb_gt _ _)) by lia. done.
Qed.

Lemma scan_option data pos ty n body rest fuel :
  drop pos data = ty :: Z.of_nat n :: body ++ rest -> length body = n -> ty <> OPT_PAD1 ->
  envelope_scan data pos None (S fuel) =
    if ty =? OPT_DAO_ORIGIN_SIGNATURE then
      origin ← map_err (fun _ => InvalidOptionLength) (os_from_bytes body);
      if origin.(origin_sequence) =? 0 then Err InvalidOptionLength
      else envelope_scan data (pos + 2 + n) (Some (pos, origin)) fuel
    else dao_option_ok ty (Z.of_nat n) body ≫= fun _ => envelope_scan data (pos + 2 + n) None fuel.
Proof.
  intros H Hn Hty. pose proof (drop_len _ _ _ H ltac:(done)) as Hl. simpl in Hl.
  rewrite length_app in Hl. cbn [envelope_scan].
  pose proof (nth_drop _ _ pos 0 _ H eq_refl) as H0. rewrite Nat.add_0_r in H0.
  pose proof (nth_drop _ _ pos 1 _ H eq_refl) as H1. rewrite H0, H1, Nat2Z.id.
  rewrite (proj2 (Nat.leb_gt _ _)), (proj2 (Z.eqb_neq _ _) Hty) by lia.
  rewrite !(proj2 (Nat.ltb_ge _ _)) by lia. simpl.
  replace (slice (pos + 2) (pos + 2 + n) data) with body; [done |]. symmetry.
  apply (slice_app_eq (take (pos + 2) data) body rest).
  - rewrite <- (take_drop (pos + 2) data) at 1. f_equal. by rewrite <- drop_drop, H.
  - rewrite length_take. lia.
  - rewrite length_take. lia.
Qed.

(** After the signature nothing may follow. *)
Lemma scan_terminal_shape data pos f fuel r : fuel <> O ->
  envelope_scan data pos (Some f) fuel = Ok r -> r = Some f /\ (length data <= pos)%nat.
Proof.
  intros Hf. destruct fuel as [| fuel]; [done |]. cbn [envelope_scan].
  destruct (length data <=? pos)%nat eqn:?; bool_to_prop; [by intros [= <-] |].
  repeat case_match; done.
Qed.

Lemma scan_complete opts : dao_opts opts -> forall data pos o fuel,
  drop pos data = opts ++ os_bytes o -> os_ok o -> (length opts + 2 <= fuel)%nat ->
  envelope_scan data pos None fuel = Ok (Some ((pos + length opts)%nat, o)).
Proof.
  induction 1 as [| l Hl IH | ty body l Hp Hs Hok Hl IH]; intros data pos o [| fuel] H Ho Hf;
    simpl in Hf; try lia; cbn [length].
  - pose proof (drop_len _ _ _ H ltac:(done)) as Hlen. simpl app in *. rewrite os_bytes_len in Hlen by done.
    change (os_bytes o) with ([OPT_DAO_ORIGIN_SIGNATURE; Z.of_nat 56] ++ drop 2 (os_bytes o)) in H.
    rewrite <- (app_nil_r (drop 2 _)) in H. erewrite scan_option; [| exact H | | done].
    + rewrite os_read by done. destruct Ho as [_ Hz _]. simpl. rewrite (proj2 (Z.eqb_neq _ _) Hz).
      destruct fuel as [| fuel]; [lia |]. cbn [envelope_scan].
      rewrite (proj2 (Nat.leb_le _ _)) by lia. by rewrite Nat.add_0_r.
    + by rewrite length_drop, os_bytes_len.
  - simpl in H. rewrite (scan_pad _ _ _ _ H). rewrite IH with (o := o) by
      (lia || done || by rewrite <- drop_drop, H).
    by replace (pos + S (length l))%nat with (pos + 1 + length l)%nat by lia.
  - simpl in H. rewrite <- app_assoc in H. erewrite scan_option; [| exact H | done | done].
    rewrite (proj2 (Z.eqb_neq _ _) Hs), Hok. simpl. rewrite length_app in Hf.
    rewrite IH with (o := o); [| | done | lia].
    + rewrite length_app.
      by replace (pos + S (S (length body + length l)))%nat with (pos + 2 + length body + length l)%nat by lia.
    + rewrite <- Nat.add_assoc, <- drop_drop, H. simpl. apply drop_app_length.
Qed.

(** What the scan reads next: nothing, a lone octet, padding, an overrun or an option. *)
Lemma split_option (rest : bytes) : bytes_ok rest -> rest <> [] ->
  (exists l, rest = OPT_PAD1 :: l) \/ (exists ty, rest = [ty] /\ ty <> OPT_PAD1) \/
  (exists ty n l, rest = ty :: Z.of_nat n :: l /\ ty <> OPT_PAD1 /\ (length l < n)%nat) \/
  (exists ty n body l, rest = ty :: Z.of_nat n :: body ++ l /\ ty <> OPT_PAD1 /\ length body = n).
Proof.
  intros Hb Hne. destruct rest as [| ty [| n l]]; [done | |];
    (destruct (decide (ty = OPT_PAD1)) as [-> |]; [by left; eexists |]; right).
  - left. by exists ty.
  - right. apply Forall_cons in Hb as [_ Hb]. apply Forall_cons in Hb as [Hn _].
    assert (n = Z.of_nat (Z.to_nat n)) as Hn' by width.
    destruct (decide (length l < Z.to_nat n)%nat); [left | right].
    + exists ty, (Z.to_nat n), l. by rewrite <- Hn'.
    + exists ty, (Z.to_nat n), (take (Z.to_nat n) l), (drop (Z.to_nat n) l).
      rewrite take_drop, <- Hn', length_take. split_and!; [done | done | lia].
Qed.

Lemma scan_short data pos ty fuel : drop pos data = [ty] -> ty <> OPT_PAD1 ->
  envelope_scan data pos None (S fuel) = Err InvalidOptionLength.
Proof.
  intros H Hty. pose proof (drop_len _ _ _ H ltac:(done)) as Hl. simpl in Hl. cbn [envelope_scan].
  pose proof (nth_drop _ _ pos 0 _ H eq_refl) as H0. rewrite Nat.add_0_r in H0. rewrite H0.
  rewrite (proj2 (Nat.leb_gt _ _)), (proj2 (Z.eqb_neq _ _) Hty) by lia.
  by rewrite (proj2 (Nat.ltb_lt _ _)) by lia.
Qed.

Lemma scan_overrun data pos ty n l fuel :
  drop pos data = ty :: Z.of_nat n :: l -> ty <> OPT_PAD1 -> (length l < n)%nat ->
  envelope_scan data pos None (S fuel) = Err InvalidOptionLength.
Proof.
  intros H Hty Hn. pose proof (drop_len _ _ _ H ltac:(done)) as Hl. simpl in Hl. cbn [envelope_scan].
  pose proof (nth_drop _ _ pos 0 _ H eq_refl) as H0. rewrite Nat.add_0_r in H0.
  pose proof (nth_drop _ _ pos 1 _ H eq_refl) as H1. rewrite H0, H1, Nat2Z.id.
  rewrite (proj2 (Nat.leb_gt _ _)), (proj2 (Z.eqb_neq _ _) Hty) by lia.
  rewrite (proj2 (Nat.ltb_ge _ _)) by lia. by rewrite (proj2 (Nat.ltb_lt _ _)) by lia.
Qed.

Lemma os_from_bytes_inv body o : bytes_ok body -> os_from_bytes body = Ok o ->
  origin_sequence o <> 0 -> os_ok o /\ OPT_DAO_ORIGIN_SIGNATURE :: 56 :: body = os_bytes o.
Proof.
  intros Hb. unfold os_from_bytes. destruct (length body =? DAO_ORIGIN_SIGNATURE_DATA_LEN)%nat eqn:Hl;
    [| done]. apply Nat.eqb_eq in Hl. unfold DAO_ORIGIN_SIGNATURE_DATA_LEN in Hl.
  simpl negb. cbv iota. intros [= <-] Hz. cbn [origin_sequence] in Hz.
  assert (length (slice 0 8 body) = 8%nat) as H8 by (rewrite slice_length; lia).
  assert (bytes_ok (slice 0 8 body)) as Hb8 by by apply slice_Forall. split.
  - split; cbn [origin_sequence os_signature]; [| done | rewrite length_drop; lia].
    apply from_be_u64; [done | lia].
  - unfold os_bytes. cbn [origin_sequence os_signature]. 
    replace (to_be 8 (from_be (slice 0 8 body))) with (slice 0 8 body)
      by (pose proof (to_be_from_be _ Hb8) as Hr; by rewrite H8 in Hr).
    unfold slice. rewrite drop_0. change (8 - 0)%nat with 8%nat. by rewrite take_drop.
Qed.

Lemma scan_sound data : bytes_ok data -> forall fuel pos u o,
  (length data < pos + fuel)%nat ->
  envelope_scan data pos None fuel = Ok (Some (u, o)) ->
  exists opts, drop pos data = opts ++ os_bytes o /\ u = (pos + length opts)%nat /\
    dao_opts opts /\ os_ok o.
Proof.
  intros Hb. induction fuel as [| fuel IH]; intros pos u o Hf Hs; [done |].
  assert (bytes_ok (drop pos data)) as Hbd by by apply Forall_drop.
  destruct (decide (drop pos data = [])) as [Hn | Hn].
  { apply (f_equal length) in Hn. rewrite length_drop in Hn. simpl in Hn, Hs.
    by rewrite (proj2 (Nat.leb_le _ _)) in Hs by lia. }
  destruct (split_option _ Hbd Hn) as [[l H] | [(ty & H & Hty) | [(ty & n & l & H & Hty & Hl) |
    (ty & n & body & l & H & Hty & Hl)]]].
  - rewrite (scan_pad _ _ _ _ H) in Hs. apply IH in Hs as (opts & Hd & -> & Ho & Hok); [| lia].
    rewrite <- drop_drop, H in Hd. simpl in Hd. exists (OPT_PAD1 :: opts).
    rewrite H. simpl. split_and!; [by rewrite <- Hd | lia | by constructor | done].
  - by rewrite (scan_short _ _ _ _ H) in Hs.
  - by rewrite (scan_overrun _ _ _ _ _ _ H) in Hs.
  - pose proof (drop_len _ _ _ H ltac:(done)) as Hlen. simpl in Hlen. rewrite length_app in Hlen.
    rewrite (scan_option _ _ _ _ _ _ _ H Hl Hty) in Hs. rewrite H in *.
    apply Forall_cons in Hbd as [_ Hbd]. apply Forall_cons in Hbd as [_ Hbd].
    apply Forall_app in Hbd as [Hbody _]. destruct (Z.eqb_spec ty OPT_DAO_ORIGIN_SIGNATURE) as [-> |].
    + destruct (os_from_bytes body) as [origin | e] eqn:Ho; simpl in Hs; [| done].
      destruct (Z.eqb_spec (origin_sequence origin) 0) as [| Hz]; [done |].
      apply scan_terminal_shape in Hs as [[= -> ->] Hend]; [| lia].
      destruct (os_from_bytes_inv _ _ Hbody Ho Hz) as [Hok Hbytes]. exists []. simpl.
      assert (l = []) as -> by (apply length_zero_iff_nil; lia).
      rewrite app_nil_r, <- Hbytes. split_and!; [| lia | constructor | done].
      apply (f_equal length) in Hbytes. rewrite os_bytes_len in Hbytes by done. simpl in Hbytes.
      by replace n with 56%nat by lia.
    + destruct (dao_option_ok ty (Z.of_nat n) body) as [[] |] eqn:Hopt; simpl in Hs; [| done].
      apply IH in Hs as (opts & Hd & -> & Ho & Hok); [| lia].
      rewrite <- Nat.add_assoc, <- drop_drop, H in Hd. simpl in Hd.
      rewrite drop_app_length' in Hd by done. exists (ty :: Z.of_nat n :: body ++ opts). subst n.
      rewrite Hd. simpl. rewrite <- app_assoc, length_app.
      split_and!; [done | lia | by constructor | done].
Qed.

Definition dao_base_len (d : Dao) : nat := match dao_dodag_id d with Some _ => 20 | None => 4 end.

Lemma dao_tail_len data d : dao_from_bytes data = Ok d ->
  (length data - length (dao_options_tail data))%nat = dao_base_len d /\
  (dao_base_len d <= length data)%nat.
Proof.
  unfold dao_from_bytes, dao_options_tail, dao_base_len. intros H.
  repeat case_match; simplify_eq/=; bool_to_prop; rewrite ?length_drop; lia.
Qed.

#[local] Arguments envelope_scan : simpl never.

(** What an accepted envelope is made of. *)
Record envelope_parts (data : bytes) (e : SignedDaoEnvelope) (base opts : bytes) : Prop := {
  ep_data : data = base ++ opts ++ os_bytes e.(env_origin);
  ep_dao : dao_from_bytes data = Ok e.(env_dao);
  ep_flags : dao_flags e.(env_dao) = 0;
  ep_reserved : nth 2 data 0 = 0;
  ep_base : length base = dao_base_len e.(env_dao);
  ep_opts : dao_opts opts;
  ep_origin : os_ok e.(env_origin);
  ep_signed : signed_bytes e = data;
  ep_unsigned : unsigned_bytes e = base ++ opts
}.

Lemma envelope_sound data e : bytes_ok data -> envelope_from_bytes data = Ok e ->
  exists base opts, envelope_parts data e base opts.
Proof.
  intros Hb. unfold envelope_from_bytes. destruct (dao_from_bytes data) as [d |] eqn:Hd; [| done].
  simpl. destruct (negb (dao_flags d =? 0) || negb (nth 2 data 0 =? 0)) eqn:Hf; [done |].
  apply orb_false_iff in Hf as [Hf H2]. apply negb_false_iff, Z.eqb_eq in Hf, H2.
  destruct (dao_tail_len _ _ Hd) as [-> Hbase].
  destruct (envelope_scan data (dao_base_len d) None (S (length data))) as [[[u o] |] |] eqn:Hs; simpl; [| done..].
  intros [= <-]. apply scan_sound in Hs as (opts & Hdrop & -> & Hopts & Ho); [| done | lia].
  exists (take (dao_base_len d) data), opts. split; cbn [env_dao signed_bytes unsigned_bytes env_origin]; try done.
  - by rewrite <- Hdrop, take_drop.
  - rewrite length_take. lia.
  - rewrite <- (take_drop (dao_base_len d) data) at 1. rewrite Hdrop, app_assoc.
    apply take_app_length'. rewrite length_app, length_take. lia.
Qed.

Lemma envelope_complete data e base opts :
  envelope_parts data e base opts -> envelope_from_bytes data = Ok e.
Proof.
  intros [Hdata Hd Hf H2 Hbase Hopts Ho Hs Hu]. unfold envelope_from_bytes. rewrite Hd. simpl.
  rewrite Hf, H2. simpl. destruct (dao_tail_len _ _ Hd) as [-> _]. rewrite <- Hbase.
  rewrite (scan_complete _ Hopts data (length base) (env_origin e)).
  - simpl. destruct e as [d sb ub o]; cbn in *. subst sb ub. do 2 f_equal.
    rewrite Hdata, app_assoc. rewrite take_app_length' by (by rewrite length_app). done.
  - rewrite Hdata. apply drop_app_length.
  - done.
  - rewrite Hdata, !length_app, os_bytes_len by done. lia.
Qed.

(** ** Properties *)

(** C40: every RPL base object and option of the profile, when its fields are
    within what its format can carry, reads back the value it was written from;
    an option's payload is read behind its type and length. The conditions: a
    DIS has reserved octet 0; a DIO a global or local instance below 192, a
    16-bit rank, mode of operation and preference of at most 7 and a DODAG
    identifier of 16 octets; a DAO an instance below 192, flags of at most 63
    and, if its instance is local, a DODAG identifier, of 16 octets when
    present; a DAO-ACK an instance below 192, no flags and an
    identifier of 16 octets when present; a target is a full address (prefix length 128); a
    transit information names a parent of 16 octets; a configuration has
    control flags of at most 7 and 16-bit rank steps, objective code point and
    lifetime unit; an origin signature a 64-bit sequence other than 0 and a
    signature of 48 octets; a root signature between 64 and 255 octets; a version
    authorization a key of 32 and a signature of 48 octets. The octets go to the front of any buffer that holds them, the rest
    of which is kept; a smaller one is refused with the size needed and is not
    written. *)
Theorem rpl_messages_roundtrip :
  roundtrips dis_ok dis_write_to dis_from_bytes 0 /\
  roundtrips dio_ok dio_write_to dio_from_bytes 0 /\
  roundtrips dao_ok dao_write_to dao_from_bytes 0 /\
  roundtrips da_ok da_write_to da_from_bytes 0 /\
  roundtrips config_ok config_write_to config_from_bytes 2 /\
  roundtrips target_ok target_write_to target_from_bytes 2 /\
  roundtrips transit_ok transit_write_to transit_from_bytes 2 /\
  roundtrips os_ok os_write_to os_from_bytes 2 /\
  roundtrips rds_ok rds_write_to rds_from_bytes 2 /\
  roundtrips va_ok va_write_to va_from_option_data 2.
Proof.
  split_and!; auto using dis_roundtrip, dio_roundtrip, dao_roundtrip, da_roundtrip, config_roundtrip,
    target_roundtrip, transit_roundtrip, os_roundtrip, rds_roundtrip, va_roundtrip.
Qed.

(** a signed DAO is accepted exactly when its octets are a DAO base with no
    flag and no reserved bit set, then any sequence of padding, targets,
    transit information and target descriptors of valid length, then one DAO
    origin signature with a sequence other than 0 as the last option. What is
    reported as unsigned (the octets the signature covers) is everything before
    that option. *)
Lemma envelope_accepts_exactly data e : bytes_ok data ->
  envelope_from_bytes data = Ok e <-> exists base opts, envelope_parts data e base opts.
Proof.
  intros Hb. split; [by apply envelope_sound |]. intros (base & opts & H).
  by apply (envelope_complete _ _ base opts).
Qed.

Definition sample_origin : DaoOriginSignature :=
  {| origin_sequence := 7; os_signature := repeat 3 48 |}.
Definition sample_envelope : SignedDaoEnvelope :=
  let d := [5; 128; 0; 9] ++ [0; 9; 4; 1; 2; 3; 4] ++ os_bytes sample_origin in
  {| env_dao := {| dao_instance := 5; ack_requested := true; dao_flags := 0; dao_sequence := 9;
                   dao_dodag_id := None |};
     signed_bytes := d; unsigned_bytes := take 11 d; env_origin := sample_origin |}.

End RplMessage.
