(* ===== verification/F32.v ===== *)
(** * Single-precision floats

    The [f32] operations the routing metric uses, on the Standard Library's
    executable IEEE 754 values with 24 bits of precision: literals and
    conversions from integers, multiplication, comparison, [round] (half away
    from zero) and the saturating conversion [as u16]. *)

From Stdlib Require Import Floats.SpecFloat.
From S2P Require Import Prelude.

Module F32.

Definition f32 : Type := spec_float.
Definition prec : Z := 24.
Definition emax : Z := 128.

(** [n as f32] of an unsigned integer; exact below 2^24. *)
Definition of_Z (n : Z) : f32 := binary_normalize prec emax n 0 false.
(** The literal nearest to [m * 2^e]. *)
Definition of_dyadic (m e : Z) : f32 := binary_normalize prec emax m e false.
Definition mul (x y : f32) : f32 := SFmul prec emax x y.
Definition ltb (x y : f32) : bool := SFltb x y.

Definition is_nan (x : f32) : bool := match x with S754_nan => true | _ => false end.
Definition is_finite (x : f32) : bool :=
  match x with S754_zero _ | S754_finite _ _ _ => true | _ => false end.

Definition round (x : f32) : f32 :=
  match x with
  | S754_finite s m e =>
      if 0 <=? e then x
      else binary_normalize prec emax
             (cond_Zopp s ((Z.pos m + 2 ^ (- e - 1)) / 2 ^ (- e))) 0 s
  | _ => x
  end.

Definition as_u16 (x : f32) : Z :=
  match x with
  | S754_nan | S754_zero _ => 0
  | S754_infinity s => if s then 0 else u16_max
  | S754_finite s m e =>
      if s then 0
      else Z.min u16_max (if 0 <=? e then Z.pos m * 2 ^ e else Z.pos m / 2 ^ (- e))
  end.

Lemma as_u16_bound x : is_u16 (as_u16 x).
Proof.
  destruct x as [s | s | | s m e]; simpl; try (destruct s); try width. unfold is_u16, u16_max.
  destruct (0 <=? e) eqn:?; bool_to_prop.
  - assert (0 < 2 ^ e) by (apply Z.pow_pos_nonneg; lia). nia.
  - assert (0 <= Z.pos m / 2 ^ (- e)) by (apply Z.div_pos; [lia | apply Z.pow_pos_nonneg; lia]). lia.
Qed.

Example round_samples :
  as_u16 (round (mul (of_dyadic 3 (-1)) (of_Z 256))) = 384 /\
  as_u16 (round (of_dyadic 5 (-1))) = 3 /\ as_u16 (round (of_dyadic 9 (-2))) = 2 /\
  as_u16 (of_Z 70000) = 65535 /\ ltb (of_Z 1) (of_dyadic 3 (-1)) = true.
Proof. vm_compute. done. Qed.

End F32.
