(* ===== verification/RplDodag.v ===== *)
(** * RPL DODAG membership

    lichen-rpl/src/dodag.rs: version comparison, MRHOF candidate admissibility,
    parent selection with hysteresis and every operation on [DodagState] except
    the link admission of a frame (it decompresses SCHC). *)

From S2P Require Import Prelude F32 RplMessage.

Module RplDodag.
Import RplMessage.

Definition INFINITE_RANK : Z := 65535.
Definition MIN_HOP_RANK_INCREASE : Z := 256.
Definition ROOT_RANK : Z := MIN_HOP_RANK_INCREASE.
Definition MAX_RANK_INCREASE : Z := 1024.
Definition PARENT_SWITCH_THRESHOLD : Z := 192.
Definition MAX_PARENT_CANDIDATES : nat := 16.

Definition ALL_RPL_NODES : bytes := [255; 2; 0; 0; 0; 0; 0; 0; 0; 0; 0; 0; 0; 0; 0; 26].
Definition is_rpl_multicast (addr : bytes) : bool := bool_decide (addr = ALL_RPL_NODES).

(** ** Version numbers *)

Definition lollipop_cmp (a b : Z) : option comparison :=
  if a =? b then Some Eq
  else
    let a_circular := a <? 128 in
    let b_circular := b <? 128 in
    if Bool.eqb a_circular b_circular then
      if 16 <? Z.abs (a - b) then None
      else if b <? a then Some Gt else Some Lt
    else if a_circular then
      let wrap_distance := 256 - b + a in
      if wrap_distance <=? 16 then Some Gt else Some Lt
    else
      let wrap_distance := 256 - a + b in
      if wrap_distance <=? 16 then Some Lt else Some Gt.

Definition version_is_newer (new_ver old_ver : Z) : bool :=
  ((new_ver =? 0) && (old_ver =? 127)) || bool_decide (lollipop_cmp new_ver old_ver = Some Gt).
Definition version_is_equal (new_ver old_ver : Z) : bool :=
  bool_decide (lollipop_cmp new_ver old_ver = Some Eq).
Definition version_is_older_or_incomparable (new_ver old_ver : Z) : bool :=
  negb (version_is_newer new_ver old_ver) && negb (version_is_equal new_ver old_ver).

(** ** Candidates *)

Record ParentCandidate := { pc_addr : bytes; pc_rank : Z; link_etx : F32.f32 }.

Definition path_cost (c : ParentCandidate) (mhri : Z) : Z :=
  let link_cost := F32.round (F32.mul c.(link_etx) (F32.of_Z mhri)) in
  if F32.is_nan link_cost || F32.ltb link_cost (F32.of_Z 0) then u16_max
  else saturating_add u16_max c.(pc_rank) (F32.as_u16 link_cost).

Definition candidate_admissible (c : ParentCandidate)
    (node_rank lowest_rank min_hop_rank_increase max_rank_increase : Z) : bool :=
  if min_hop_rank_increase =? 0 then false
  else
    let cost := path_cost c min_hop_rank_increase in
    if (c.(pc_rank) <? min_hop_rank_increase) || (cost =? INFINITE_RANK)
       || (cost / min_hop_rank_increase <=? c.(pc_rank) / min_hop_rank_increase)
    then false
    else if negb (node_rank =? INFINITE_RANK)
            && (node_rank / min_hop_rank_increase <=? c.(pc_rank) / min_hop_rank_increase)
    then false
    else (max_rank_increase =? 0) || (lowest_rank =? INFINITE_RANK)
         || (cost <=? saturating_add u16_max lowest_rank max_rank_increase).

(** ** State *)

Inductive DodagRole := Unjoined | Joined | Root.
#[export] Instance DodagRole_eq_dec : EqDecision DodagRole.
Proof. solve_decision. Defined.

Definition can_transition_to (self next : DodagRole) : bool :=
  match self, next with
  | Unjoined, _ | Joined, _ | Root, Root | Root, Unjoined => true
  | Root, Joined => false
  end.

Inductive DioOutcome := Accepted | Removed | Rejected.

Record DodagState := {
  rpl_instance_id : Z;
  dodag_id : bytes;
  version : Z;
  role : DodagRole;
  rank : Z;
  preferred_parent : option bytes;
  ds_min_hop : Z;
  ds_max_rank : Z;
  parent_switch_threshold : Z;
  is_gateway_centric : bool;
  parents : gmap bytes ParentCandidate;
  lowest_rank : Z
}.

Definition dodag_new (id : Z) (dodag : bytes) (v : Z) : DodagState :=
  {| rpl_instance_id := id; dodag_id := dodag; version := v; role := Unjoined;
     rank := INFINITE_RANK; preferred_parent := None; ds_min_hop := MIN_HOP_RANK_INCREASE;
     ds_max_rank := MAX_RANK_INCREASE; parent_switch_threshold := PARENT_SWITCH_THRESHOLD;
     is_gateway_centric := false; parents := ∅; lowest_rank := INFINITE_RANK |}.

Definition rank_config_ok (mhri : Z) : bool := negb ((mhri =? 0) || (INFINITE_RANK / 2 <? mhri)).

Definition as_root_with_rank_config (id : Z) (dodag : bytes) (v mhri max : Z) : option DodagState :=
  if negb (rank_config_ok mhri) then None
  else Some {| rpl_instance_id := id; dodag_id := dodag; version := v; role := Root;
     rank := mhri; preferred_parent := None; ds_min_hop := mhri;
     ds_max_rank := max; parent_switch_threshold := PARENT_SWITCH_THRESHOLD;
     is_gateway_centric := false; parents := ∅; lowest_rank := mhri |}.

(** [None] is the [expect] panic. *)
Definition as_root (id : Z) (dodag : bytes) (v : Z) : option DodagState :=
  as_root_with_rank_config id dodag v MIN_HOP_RANK_INCREASE MAX_RANK_INCREASE.

(** Updates of the fields the operations change. *)
Definition set_parents (s : DodagState) (ps : gmap bytes ParentCandidate) : DodagState :=
  {| rpl_instance_id := s.(rpl_instance_id); dodag_id := s.(dodag_id); version := s.(version);
     role := s.(role); rank := s.(rank); preferred_parent := s.(preferred_parent);
     ds_min_hop := s.(ds_min_hop); ds_max_rank := s.(ds_max_rank);
     parent_switch_threshold := s.(parent_switch_threshold);
     is_gateway_centric := s.(is_gateway_centric); parents := ps; lowest_rank := s.(lowest_rank) |}.
Definition set_membership (s : DodagState) (r : DodagRole) (rk : Z) (pp : option bytes) (low : Z) :
    DodagState :=
  {| rpl_instance_id := s.(rpl_instance_id); dodag_id := s.(dodag_id); version := s.(version);
     role := r; rank := rk; preferred_parent := pp;
     ds_min_hop := s.(ds_min_hop); ds_max_rank := s.(ds_max_rank);
     parent_switch_threshold := s.(parent_switch_threshold);
     is_gateway_centric := s.(is_gateway_centric); parents := s.(parents); lowest_rank := low |}.
Definition set_version (s : DodagState) (v : Z) : DodagState :=
  {| rpl_instance_id := s.(rpl_instance_id); dodag_id := s.(dodag_id); version := v;
     role := s.(role); rank := s.(rank); preferred_parent := s.(preferred_parent);
     ds_min_hop := s.(ds_min_hop); ds_max_rank := s.(ds_max_rank);
     parent_switch_threshold := s.(parent_switch_threshold);
     is_gateway_centric := s.(is_gateway_centric); parents := s.(parents);
     lowest_rank := s.(lowest_rank) |}.
Definition set_config (s : DodagState) (mhri max : Z) : DodagState :=
  {| rpl_instance_id := s.(rpl_instance_id); dodag_id := s.(dodag_id); version := s.(version);
     role := s.(role); rank := s.(rank); preferred_parent := s.(preferred_parent);
     ds_min_hop := mhri; ds_max_rank := max;
     parent_switch_threshold := s.(parent_switch_threshold);
     is_gateway_centric := s.(is_gateway_centric); parents := s.(parents);
     lowest_rank := s.(lowest_rank) |}.

Definition is_root (s : DodagState) : bool := bool_decide (s.(role) = Root).
Definition is_joined (s : DodagState) : bool :=
  match s.(role) with Joined | Root => true | Unjoined => false end.

Definition set_gateway_centric (s : DodagState) (gc : bool) : bool * DodagState :=
  if Bool.eqb s.(is_gateway_centric) gc then (false, s)
  else (true,
    {| rpl_instance_id := s.(rpl_instance_id); dodag_id := s.(dodag_id); version := s.(version);
       role := s.(role); rank := s.(rank); preferred_parent := s.(preferred_parent);
       ds_min_hop := s.(ds_min_hop); ds_max_rank := s.(ds_max_rank);
       parent_switch_threshold := s.(parent_switch_threshold);
       is_gateway_centric := gc; parents := s.(parents); lowest_rank := s.(lowest_rank) |}).

Definition demote (s : DodagState) : DodagState :=
  if bool_decide (s.(role) = Root)
  then set_parents (set_membership s Unjoined INFINITE_RANK None s.(lowest_rank)) ∅
  else s.

(** [set_role]: [None] is [InvalidDodagTransition], which changes nothing. *)
Definition set_role (s : DodagState) (next : DodagRole) : option DodagState :=
  if can_transition_to s.(role) next
  then Some (set_membership s next s.(rank) s.(preferred_parent) s.(lowest_rank))
  else None.

(** ** Parent selection *)

Definition admissible (s : DodagState) (c : ParentCandidate) : bool :=
  candidate_admissible c s.(rank) s.(lowest_rank) s.(ds_min_hop) s.(ds_max_rank).

Definition prune_inadmissible_parents (s : DodagState) : DodagState :=
  set_parents s (filter (fun '(_, c) => admissible s c = true) s.(parents)).

Definition adopt_version (s : DodagState) (v : Z) : option DodagState :=
  if bool_decide (s.(role) = Root) then None
  else
    let s := set_version s v in
    let s := set_parents s ∅ in
    let s := set_membership s s.(role) INFINITE_RANK None INFINITE_RANK in
    set_role s Unjoined.

Section selection.
Context `{HashIter}.

(** The choice between the best candidate and the current parent. *)
Definition hysteresis (s : DodagState) (best : ParentCandidate) : bytes * Z :=
  let mhri := s.(ds_min_hop) in
  let best_cost := path_cost best mhri in
  match s.(preferred_parent) with
  | Some cur_addr =>
      if bool_decide (cur_addr = best.(pc_addr)) then (best.(pc_addr), best_cost)
      else
        match s.(parents) !! cur_addr with
        | Some cur =>
            if admissible s cur then
              let cur_cost := path_cost cur mhri in
              if saturating_sub cur_cost s.(parent_switch_threshold) <? best_cost
              then (cur_addr, cur_cost) else (best.(pc_addr), best_cost)
            else (best.(pc_addr), best_cost)
        | None => (best.(pc_addr), best_cost)
        end
  | None => (best.(pc_addr), best_cost)
  end.

Definition best_candidate (s : DodagState) : option ParentCandidate :=
  min_by_key (fun c => path_cost c s.(ds_min_hop))
    (List.filter (admissible s) (snd <$> hash_iter s.(parents))).

Definition select_parent (s : DodagState) : DodagState :=
  if bool_decide (s.(role) = Root) then s
  else
    let s := prune_inadmissible_parents s in
    match best_candidate s with
    | None =>
        match set_role s Unjoined with
        | Some s => set_membership s s.(role) INFINITE_RANK None s.(lowest_rank)
        | None => s
        end
    | Some best =>
        let '(chosen_addr, chosen_cost) := hysteresis s best in
        let s' := set_membership s s.(role) chosen_cost (Some chosen_addr) s.(lowest_rank) in
        match set_role s' Joined with
        | None => s
        | Some s =>
            let s := if chosen_cost <? s.(lowest_rank)
                     then set_membership s s.(role) s.(rank) s.(preferred_parent) chosen_cost
                     else s in
            prune_inadmissible_parents s
        end
    end.

Definition remove_parents (s : DodagState) (addrs : list bytes) : DodagState :=
  select_parent (foldl (fun s a => set_parents s (delete a s.(parents))) s addrs).
Definition remove_parent (s : DodagState) (addr : bytes) : DodagState := remove_parents s [addr].

Definition remove_parents_with_iid (s : DodagState) (iid : bytes) : bool * DodagState :=
  let addresses := List.filter (fun a => bool_decide (drop 8 a = iid)) (fst <$> hash_iter s.(parents)) in
  (bool_decide (addresses <> []), remove_parents s addresses).

Definition has_parent (s : DodagState) (addr : bytes) : bool := bool_decide (is_Some (s.(parents) !! addr)).
Definition parent_count (s : DodagState) : nat := size s.(parents).

Definition set_rank_config (s : DodagState) (mhri max : Z) : bool * DodagState :=
  if negb (rank_config_ok mhri) then (false, s)
  else if (mhri =? s.(ds_min_hop)) && (max =? s.(ds_max_rank)) then (true, s)
  else
    let s := set_config s mhri max in
    (true,
     match s.(role) with
     | Root => set_membership s s.(role) mhri s.(preferred_parent) mhri
     | Joined => select_parent (set_membership s s.(role) INFINITE_RANK s.(preferred_parent) INFINITE_RANK)
     | Unjoined => s
     end).

(** ** DIO processing *)

(** Drops the advertiser and re-selects. *)
Definition drop_candidate (s : DodagState) (addr : bytes) : DioOutcome * DodagState :=
  let removed := has_parent s addr in
  let s := select_parent (set_parents s (delete addr s.(parents))) in
  (if removed then Removed else Rejected, s).

Definition process_dio_with_version_authorization (s : DodagState) (dio : Dio)
    (neighbor_addr : bytes) (etx : F32.f32) (version_authorized : bool) : DioOutcome * DodagState :=
  if negb (F32.is_finite etx) || F32.ltb etx (F32.of_Z 1) then (Rejected, s)
  else if bool_decide (s.(role) = Root) then (Rejected, s)
  else if negb (dio.(dio_instance) =? s.(rpl_instance_id))
          || negb (bool_decide (dio.(dio_dodag_id) = s.(dodag_id))) then (Rejected, s)
  else
    let newer_version := version_is_newer dio.(dio_version) s.(version) in
    if negb newer_version && version_is_older_or_incomparable dio.(dio_version) s.(version)
    then (Rejected, s)
    else if newer_version && negb version_authorized then (Rejected, s)
    else
      let candidate := {| pc_addr := neighbor_addr; pc_rank := dio.(dio_rank); link_etx := etx |} in
      let usable := candidate_admissible candidate INFINITE_RANK INFINITE_RANK
                      s.(ds_min_hop) s.(ds_max_rank) in
      let '(stop, s) :=
        if newer_version then
          match adopt_version s dio.(dio_version) with
          | None => (true, s)
          | Some s => (negb usable, s)
          end
        else (false, s) in
      if (stop : bool) then (Rejected, s)
      else if dio.(dio_rank) =? INFINITE_RANK then drop_candidate s neighbor_addr
      else if negb (s.(rank) =? INFINITE_RANK) && (s.(rank) <=? dio.(dio_rank))
      then drop_candidate s neighbor_addr
      else if negb (admissible s candidate) then drop_candidate s neighbor_addr
      else
        let s :=
          if has_parent s neighbor_addr then set_parents s (<[neighbor_addr := candidate]> s.(parents))
          else if (parent_count s <? MAX_PARENT_CANDIDATES)%nat
          then set_parents s (<[neighbor_addr := candidate]> s.(parents))
          else s in
        (Accepted, select_parent s).

Definition process_dio (s : DodagState) (dio : Dio) (neighbor_addr : bytes) (etx : F32.f32) :
    DioOutcome * DodagState :=
  process_dio_with_version_authorization s dio neighbor_addr etx false.

(** ** Admitted DIOs *)

Record DodagScope := { sc_instance : Z; sc_dodag_id : bytes }.
#[export] Instance DodagScope_eq_dec : EqDecision DodagScope.
Proof. solve_decision. Defined.
Record AdmittedDio := {
  scope : DodagScope;
  ad_dio : Dio;
  ad_neighbor : bytes;
  signer_iid : bytes;
  signer_is_expected_root : bool
}.
Record DodagScopeMismatch := { sealed : DodagScope; current : DodagScope }.

Definition scope_snapshot (s : DodagState) : DodagScope :=
  {| sc_instance := s.(rpl_instance_id); sc_dodag_id := s.(dodag_id) |}.

Definition commit_admitted_dio (s : DodagState) (a : AdmittedDio) (etx : F32.f32) :
    result DodagScopeMismatch DioOutcome * DodagState :=
  let current := scope_snapshot s in
  if negb (bool_decide (current = a.(scope)))
     || negb (a.(ad_dio).(dio_instance) =? current.(sc_instance))
     || negb (bool_decide (a.(ad_dio).(dio_dodag_id) = current.(sc_dodag_id)))
  then (Err {| sealed := a.(scope); current := current |}, s)
  else if negb (a.(ad_dio).(dio_version) =? s.(version)) && negb a.(signer_is_expected_root)
  then (Ok Rejected, snd (remove_parents_with_iid s a.(signer_iid)))
  else
    let '(o, s) := process_dio s a.(ad_dio) a.(ad_neighbor) etx in
    (Ok o, s).

(** ** Invariant *)

Record candidates_ok (s : DodagState) : Prop := {
  co_hop : 0 < s.(ds_min_hop) <= 32767;
  co_max : is_u16 s.(ds_max_rank);
  co_low : is_u16 s.(lowest_rank);
  co_keyed : forall a c, s.(parents) !! a = Some c -> c.(pc_addr) = a;
  co_ranks : forall a c, s.(parents) !! a = Some c -> is_u16 c.(pc_rank);
  co_count : (size s.(parents) <= MAX_PARENT_CANDIDATES)%nat
}.

Definition membership_ok (s : DodagState) : Prop :=
  match s.(role) with
  | Root => s.(rank) = s.(ds_min_hop) /\ s.(lowest_rank) = s.(ds_min_hop) /\
            s.(preferred_parent) = None /\ s.(parents) = ∅
  | Unjoined => s.(rank) = INFINITE_RANK /\ s.(preferred_parent) = None /\ s.(parents) = ∅
  | Joined =>
      (forall a c, s.(parents) !! a = Some c -> admissible s c = true) /\
      s.(lowest_rank) <= s.(rank) /\
      exists a c, s.(preferred_parent) = Some a /\ s.(parents) !! a = Some c /\
        s.(rank) = path_cost c s.(ds_min_hop)
  end.

Record dodag_ok (s : DodagState) : Prop := {
  do_candidates : candidates_ok s;
  do_membership : membership_ok s
}.

(** *** Costs and admissibility *)

Lemma path_cost_u16 c m : is_u16 c.(pc_rank) -> is_u16 (path_cost c m).
Proof.
  intros Hr. unfold path_cost. destruct (_ || _); [width |].
  pose proof (F32.as_u16_bound (F32.round (F32.mul (link_etx c) (F32.of_Z m)))).
  unfold saturating_add. width.
Qed.

Record admitted (c : ParentCandidate) (node_rank low m mx : Z) : Prop := {
  am_hop : m <> 0;
  am_floor : m <= c.(pc_rank);
  am_finite : path_cost c m <> INFINITE_RANK;
  am_up : c.(pc_rank) / m < path_cost c m / m;
  am_below : node_rank <> INFINITE_RANK -> c.(pc_rank) / m < node_rank / m;
  am_max : mx <> 0 -> low <> INFINITE_RANK -> path_cost c m <= saturating_add u16_max low mx
}.

Lemma candidate_admissible_iff c r low m mx :
  candidate_admissible c r low m mx = true <-> admitted c r low m mx.
Proof.
  unfold candidate_admissible. split.
  - intros H0. repeat case_match; try done.
    split; lia.
  - intros [H1 H2 H3 H4 H5 H6]. rewrite (proj2 (Z.eqb_neq _ _) H1), (proj2 (Z.ltb_ge _ _) H2),
      (proj2 (Z.eqb_neq _ _) H3), (proj2 (Z.leb_gt _ _) H4). simpl.
    destruct (Z.eqb_spec r INFINITE_RANK) as [| Hr]; simpl;
      [| rewrite (proj2 (Z.leb_gt _ _) (H5 Hr))].
    all: destruct (Z.eqb_spec mx 0); [done |]; destruct (Z.eqb_spec low INFINITE_RANK); [done |];
      simpl; apply Z.leb_le; auto.
Qed.

Lemma admissible_set_parents s ps c : admissible (set_parents s ps) c = admissible s c.
Proof. done. Qed.

(** A candidate that becomes the preferred parent stays admissible at the rank
    it gives and the lowest rank that results. *)
Lemma admissible_chosen s c : candidates_ok s -> is_u16 c.(pc_rank) -> admissible s c = true ->
  candidate_admissible c (path_cost c s.(ds_min_hop)) (Z.min s.(lowest_rank) (path_cost c s.(ds_min_hop)))
    s.(ds_min_hop) s.(ds_max_rank) = true.
Proof.
  intros [_ Hmx Hlow _ _ _] Hr Ha. apply candidate_admissible_iff in Ha as [H1 H2 H3 H4 H5 H6].
  apply candidate_admissible_iff. pose proof (path_cost_u16 c (ds_min_hop s) Hr).
  split; try done. intros Hm Hl. unfold saturating_add in *.
  destruct (Z.min_spec (lowest_rank s) (path_cost c (ds_min_hop s))) as [[? ->] | [? ->]]; width.
Qed.

(** *** Selection *)

Lemma candidates_mono s ps : candidates_ok s -> ps ⊆ s.(parents) -> candidates_ok (set_parents s ps).
Proof.
  intros [H1 H2 H3 H4 H5 H6] Hps. split; cbn; try done.
  - intros a c Ha. eapply H4, lookup_weaken; done.
  - intros a c Ha. eapply H5, lookup_weaken; done.
  - etrans; [| exact H6]. by apply map_subseteq_size.
Qed.

Lemma prune_subseteq s : (prune_inadmissible_parents s).(parents) ⊆ s.(parents).
Proof. apply map_filter_subseteq. Qed.

Lemma prune_lookup s a c : (prune_inadmissible_parents s).(parents) !! a = Some c <->
  s.(parents) !! a = Some c /\ admissible s c = true.
Proof. apply map_lookup_filter_Some. Qed.

Lemma prune_ok s : candidates_ok s -> candidates_ok (prune_inadmissible_parents s).
Proof. intros. apply candidates_mono; [done | apply prune_subseteq]. Qed.

Lemma best_candidate_none s : best_candidate s = None <->
  forall a c, s.(parents) !! a = Some c -> admissible s c = false.
Proof.
  unfold best_candidate. set (l := List.filter _ _). split.
  - intros Hn a c Ha. destruct (admissible s c) eqn:Hc; [| done].
    assert (c ∈ l) as Hin.
    { apply list_elem_of_In, filter_In. split; [| done]. apply list_elem_of_In, list_elem_of_fmap.
      exists (a, c). split; [done | by apply elem_of_hash_iter]. }
    destruct l; [by apply not_elem_of_nil in Hin | done].
  - intros Hall. destruct l as [| c l'] eqn:Hl; [done |].
    assert (In c l) as Hin by (rewrite Hl; by left). apply filter_In in Hin as [Hin Hc].
    apply list_elem_of_In, list_elem_of_fmap in Hin as ([a c'] & -> & Ha).
    apply elem_of_hash_iter, Hall in Ha. simpl in *. congruence.
Qed.

Lemma best_candidate_some s best : best_candidate s = Some best ->
  (exists a, s.(parents) !! a = Some best) /\ admissible s best = true /\
  forall a c, s.(parents) !! a = Some c -> admissible s c = true ->
    path_cost best s.(ds_min_hop) <= path_cost c s.(ds_min_hop).
Proof.
  unfold best_candidate. set (l := List.filter _ _). intros Hb.
  destruct (min_by_key_some (fun c => path_cost c (ds_min_hop s)) l) as (m & Hm & Hin & Hall).
  { intros Hl. by rewrite Hl in Hb. }
  simplify_eq. apply list_elem_of_In, filter_In in Hin as [Hin Hc].
  apply list_elem_of_In, list_elem_of_fmap in Hin as ([a c'] & -> & Ha).
  split_and!; [exists a; by apply elem_of_hash_iter | done |].
  intros a' c Hac Hadm. rewrite Forall_forall in Hall. apply Hall.
  apply list_elem_of_In, filter_In. split; [| done]. apply list_elem_of_In, list_elem_of_fmap.
  exists (a', c). split; [done | by apply elem_of_hash_iter].
Qed.

(** What the choice satisfies: it is a candidate, at most a threshold away from
    the best, and the current parent is left only for an improvement of a
    threshold. *)
Record choice_ok (s : DodagState) (a : bytes) (c : ParentCandidate) : Prop := {
  ch_in : s.(parents) !! a = Some c;
  ch_adm : admissible s c = true;
  ch_best : forall a' c', s.(parents) !! a' = Some c' -> admissible s c' = true ->
    path_cost c s.(ds_min_hop) <= path_cost c' s.(ds_min_hop) \/
    (s.(preferred_parent) = Some a /\
     saturating_sub (path_cost c s.(ds_min_hop)) s.(parent_switch_threshold)
       < path_cost c' s.(ds_min_hop));
  ch_sticky : forall a' c', s.(preferred_parent) = Some a' -> s.(parents) !! a' = Some c' ->
    admissible s c' = true -> a' <> a ->
    path_cost c s.(ds_min_hop)
      <= saturating_sub (path_cost c' s.(ds_min_hop)) s.(parent_switch_threshold)
}.

Lemma hysteresis_ok s best a k : candidates_ok s -> best_candidate s = Some best ->
  hysteresis s best = (a, k) -> exists c, choice_ok s a c /\ k = path_cost c s.(ds_min_hop).
Proof.
  intros Hc Hb Hh. apply best_candidate_some in Hb as ([ab Hab] & Hadm & Hmin).
  assert (pc_addr best = ab) as <- by by eapply co_keyed.
  assert ((forall a' c', s.(preferred_parent) = Some a' -> s.(parents) !! a' = Some c' ->
    admissible s c' = true -> a' <> pc_addr best ->
    path_cost best s.(ds_min_hop)
      <= saturating_sub (path_cost c' s.(ds_min_hop)) s.(parent_switch_threshold)) ->
    choice_ok s (pc_addr best) best) as Hbest by (intros Hs; split; try done; intros; left; eauto).
  unfold hysteresis in Hh. destruct (preferred_parent s) as [cur |] eqn:Hp;
    [| simplify_eq; exists best; split; [by apply Hbest | done]].
  case_bool_decide as Hcur; [simplify_eq; exists best; split; [apply Hbest; congruence | done] |].
  destruct (parents s !! cur) as [c |] eqn:Hc';
    [| simplify_eq; exists best; split; [apply Hbest; congruence | done]].
  destruct (admissible s c) eqn:Hca;
    [| simplify_eq; exists best; split; [apply Hbest; congruence | done]].
  destruct (_ <? _) eqn:Hlt; bool_to_prop; simplify_eq.
  - exists c. split; [| done]. split; try done; [| congruence].
    intros a' c' Ha' Hadm'. right. split; [done |]. specialize (Hmin _ _ Ha' Hadm'). lia.
  - exists best. split; [apply Hbest | done]. intros a' c' [= <-] Ha' _ _. by simplify_eq.
Qed.

(** What [select_parent] leaves of a non-root state. *)
Lemma select_cases s : s.(role) <> Root -> candidates_ok s ->
  let s1 := prune_inadmissible_parents s in
  (s1.(parents) = ∅ /\
   select_parent s = set_membership s1 Unjoined INFINITE_RANK None s.(lowest_rank)) \/
  (exists a c, let k := path_cost c s.(ds_min_hop) in
     choice_ok s1 a c /\
     select_parent s = prune_inadmissible_parents
       (set_membership s1 Joined k (Some a) (Z.min s.(lowest_rank) k))).
Proof.
  intros Hr Hc s1. unfold select_parent. rewrite bool_decide_eq_false_2 by done. fold s1.
  assert (forall r, can_transition_to (role s1) r = true) as Ht by (intros; subst s1; cbn; by destruct (role s)).
  destruct (best_candidate s1) as [best |] eqn:Hb.
  - right. destruct (hysteresis s1 best) as [a k] eqn:Hh.
    destruct (hysteresis_ok _ _ _ _ (prune_ok _ Hc) Hb Hh) as (c & Hch & ->). exists a, c.
    split; [done |]. unfold set_role. rewrite Ht.
    change (ds_min_hop (prune_inadmissible_parents s)) with (ds_min_hop s).
    cbn [lowest_rank set_membership]. change (lowest_rank s1) with (lowest_rank s).
    destruct (path_cost c (ds_min_hop s) <? lowest_rank s) eqn:Hlt; bool_to_prop.
    + rewrite Z.min_r by lia. done.
    + by rewrite Z.min_l by lia.
  - left. unfold set_role. rewrite Ht. split; [| done].
    apply map_empty. intros a. destruct (parents s1 !! a) as [c |] eqn:Ha; [| done].
    pose proof (proj1 (best_candidate_none s1) Hb a c Ha) as Hn.
    apply prune_lookup in Ha as [_ Ha]. change (admissible s c = false) in Hn. congruence.
Qed.

Lemma select_ok s : s.(role) <> Root -> candidates_ok s -> dodag_ok (select_parent s).
Proof.
  intros Hr Hc. pose proof (prune_ok _ Hc) as Hc1.
  destruct (select_cases s Hr Hc) as [[He ->] | (a & c & [Hin Hadm _ _] & ->)].
  - split; [| by split_and!]. destruct Hc1. by split.
  - pose proof (co_ranks _ Hc1 _ _ Hin) as Hrk.
    pose proof (path_cost_u16 c (ds_min_hop s) Hrk) as Hk.
    pose proof (admissible_chosen _ _ Hc1 Hrk Hadm) as Hadm'.
    set (k := path_cost c (ds_min_hop s)) in *. set (s2 := set_membership _ Joined _ _ _).
    assert (candidates_ok s2) as Hc2.
    { destruct Hc1. split; try done. cbn in *. width. }
    split; [by apply prune_ok |]. cbn [membership_ok role prune_inadmissible_parents set_parents s2 set_membership].
    split_and!.
    + intros a' c' Ha'. change (admissible s2 c' = true). by apply prune_lookup in Ha' as [_ Ha'].
    + apply Z.le_min_r.
    + exists a, c. split_and!; [done | | done]. by apply prune_lookup.
Qed.

Lemma select_root s : s.(role) = Root -> select_parent s = s.
Proof. intros Hr. unfold select_parent. by rewrite bool_decide_eq_true_2. Qed.

(** Selecting again after candidates went away. *)
Lemma select_fewer s ps : dodag_ok s -> ps ⊆ s.(parents) -> dodag_ok (select_parent (set_parents s ps)).
Proof.
  intros [Hc Hm] Hps. destruct (decide (s.(role) = Root)) as [Hr | Hr].
  - rewrite select_root by done. split; [by apply candidates_mono |].
    revert Hm. unfold membership_ok. cbn. rewrite Hr. intros (? & ? & ? & He).
    split_and!; try done. rewrite He in Hps. apply map_empty. intros a.
    destruct (ps !! a) as [c |] eqn:Ha; [| done]. by apply (lookup_weaken _ _ _ _ Ha) in Hps.
  - apply select_ok; [done | by apply candidates_mono].
Qed.

Lemma remove_parents_ok s addrs : dodag_ok s -> dodag_ok (remove_parents s addrs).
Proof.
  intros Hs. unfold remove_parents.
  assert (exists ps, ps ⊆ s.(parents) /\
    foldl (fun s a => set_parents s (delete a s.(parents))) s addrs = set_parents s ps) as (ps & Hps & ->).
  { clear Hs. induction addrs as [| a l (ps & Hps & IH)] using rev_ind.
    - exists s.(parents). by destruct s.
    - rewrite foldl_app, IH. simpl. exists (delete a ps). split; [| done].
      etrans; [apply delete_subseteq | done]. }
  by apply select_fewer.
Qed.

Lemma drop_candidate_ok s a : dodag_ok s -> dodag_ok (snd (drop_candidate s a)).
Proof. intros. apply select_fewer; [done |]. apply delete_subseteq. Qed.

Lemma adopt_version_ok s v s' : dodag_ok s -> adopt_version s v = Some s' ->
  dodag_ok s' /\ s'.(role) = Unjoined /\ s'.(version) = v /\ s'.(rank) = INFINITE_RANK /\
  s'.(lowest_rank) = INFINITE_RANK /\ s'.(parents) = ∅.
Proof.
  intros [Hc _] Ha. unfold adopt_version in Ha. case_bool_decide as Hr; [done |].
  unfold set_role in Ha. cbn in Ha. destruct (can_transition_to (role s) Unjoined); [| done].
  simplify_eq. split_and!; [split | done..].
  - destruct Hc. split; cbn -[size]; try done. rewrite map_size_empty. unfold MAX_PARENT_CANDIDATES. lia.
  - by split_and!.
Qed.

Lemma insert_ok s a c : dodag_ok s -> s.(role) <> Root -> c.(pc_addr) = a -> is_u16 c.(pc_rank) ->
  (has_parent s a = true \/ (size s.(parents) < MAX_PARENT_CANDIDATES)%nat) ->
  dodag_ok (select_parent (set_parents s (<[a := c]> s.(parents)))).
Proof.
  intros [[H1 H2 H3 H4 H5 H6] _] Hr Ha Hrk Hsz. apply select_ok; [done |].
  split; cbn; try done.
  - intros a' c' [[<- <-] | [_ Hc']]%lookup_insert_Some; [done | by eapply H4].
  - intros a' c' [[<- <-] | [_ Hc']]%lookup_insert_Some; [done | by eapply H5].
  - destruct Hsz as [Hh | Hsz].
    + apply bool_decide_eq_true_1 in Hh. by rewrite map_size_insert_Some.
    + rewrite map_size_insert. destruct (_ !! a); simpl; lia.
Qed.

Lemma process_dio_ok s dio a etx auth : dodag_ok s -> is_u16 dio.(dio_rank) ->
  dodag_ok (snd (process_dio_with_version_authorization s dio a etx auth)).
Proof.
  intros Hs Hrk. unfold process_dio_with_version_authorization.
  destruct (_ || _); [done |]. case_bool_decide as Hr; [done |].
  destruct (_ || _); [done |]. destruct (_ && _); [done |]. destruct (_ && _); [done |].
  set (cand := {| pc_addr := a; pc_rank := dio_rank dio; link_etx := etx |}).
  set (adopted := if version_is_newer _ _ then _ else _).
  assert (dodag_ok (snd adopted) /\ role (snd adopted) <> Root) as [Hs' Hr'].
  { subst adopted. destruct (version_is_newer _ _); [| done].
    destruct (adopt_version _ _) as [s1 |] eqn:Ha; [| done].
    destruct (adopt_version_ok _ _ _ Hs Ha) as (? & Hj & _).
    cbn [snd]. by rewrite Hj. }
  destruct adopted as [stop s1]; cbn [snd] in *. destruct stop; [done |].
  destruct (_ =? _); [by apply drop_candidate_ok |].
  destruct (_ && _); [by apply drop_candidate_ok |].
  destruct (negb _); [by apply drop_candidate_ok |]. cbn [snd].
  destruct (has_parent s1 a) eqn:Hh; [apply insert_ok; auto |].
  unfold parent_count. destruct (_ <? _)%nat eqn:Hlt; bool_to_prop; [by apply insert_ok; auto |].
  apply select_ok; [done | by destruct Hs'].
Qed.

Lemma set_rank_config_ok s mhri mx : dodag_ok s -> is_u16 mhri -> is_u16 mx ->
  dodag_ok (snd (set_rank_config s mhri mx)).
Proof.
  intros [[H1 H2 H3 H4 H5 H6] Hm] Hh Hmx. unfold set_rank_config, rank_config_ok.
  destruct ((mhri =? 0) || _) eqn:Hok; [done |]. cbn [negb].
  apply orb_false_iff in Hok as [Hz Hhi]. bool_to_prop. change (INFINITE_RANK / 2) with 32767 in Hhi.
  destruct (_ && _); [done |]. cbn [snd]. cbn [role set_config].
  unfold membership_ok in Hm. destruct (role s) eqn:Hr.
  - split; [split; cbn; try done; width |]. unfold membership_ok. cbn. by rewrite Hr.
  - apply select_ok; [done |]. split; cbn; try done; width.
  - split; [split; cbn; try done; width |]. by destruct Hm as (_ & _ & ? & ?).
Qed.

(** ** Reachable states *)

Inductive dodag_init : DodagState -> Prop :=
  | init_new id dodag v : dodag_init (dodag_new id dodag v)
  | init_root id dodag v mhri mx s : is_u16 mhri -> is_u16 mx ->
      as_root_with_rank_config id dodag v mhri mx = Some s -> dodag_init s.

Inductive dodag_step : DodagState -> DodagState -> Prop :=
  | step_dio s dio a etx auth : is_u16 dio.(dio_rank) ->
      dodag_step s (snd (process_dio_with_version_authorization s dio a etx auth))
  | step_commit s ad etx : is_u16 ad.(ad_dio).(dio_rank) ->
      dodag_step s (snd (commit_admitted_dio s ad etx))
  | step_remove s addrs : dodag_step s (remove_parents s addrs)
  | step_remove_iid s iid : dodag_step s (snd (remove_parents_with_iid s iid))
  | step_select s : dodag_step s (select_parent s)
  | step_config s mhri mx : is_u16 mhri -> is_u16 mx -> dodag_step s (snd (set_rank_config s mhri mx))
  | step_gateway s gc : dodag_step s (snd (set_gateway_centric s gc))
  | step_demote s : dodag_step s (demote s).

Lemma dodag_init_ok s : dodag_init s -> dodag_ok s.
Proof.
  destruct 1 as [id dodag v | id dodag v mhri mx s H1 H2 Ha].
  - split; [split; cbn -[size]; try done; rewrite ?map_size_empty | by split_and!];
      unfold MIN_HOP_RANK_INCREASE, MAX_PARENT_CANDIDATES; lia.
  - unfold as_root_with_rank_config, rank_config_ok in Ha.
    destruct ((mhri =? 0) || _) eqn:Hok; simplify_eq/=.
    apply orb_false_iff in Hok as [Hz Hhi]. bool_to_prop. change (INFINITE_RANK / 2) with 32767 in Hhi.
    split; [split; cbn -[size]; try done; rewrite ?map_size_empty | by split_and!];
      unfold MAX_PARENT_CANDIDATES; width.
Qed.

Lemma dodag_step_ok s s' : dodag_step s s' -> dodag_ok s -> dodag_ok s'.
Proof.
  destruct 1 as [s dio a etx auth Hr | s ad etx Hr | s addrs | s iid | s | s mhri mx Hh Hm | s gc | s];
    intros Hs.
  - by apply process_dio_ok.
  - unfold commit_admitted_dio. destruct (_ || _); [done |].
    destruct (_ && _); [by apply remove_parents_ok |].
    pose proof (process_dio_ok s (ad_dio ad) (ad_neighbor ad) etx false Hs Hr) as Hp.
    unfold process_dio. by destruct (process_dio_with_version_authorization _ _ _ _ _).
  - by apply remove_parents_ok.
  - by apply remove_parents_ok.
  - pose proof (select_fewer s (parents s) Hs ltac:(done)) as Hp. by destruct s.
  - by apply set_rank_config_ok.
  - unfold set_gateway_centric. destruct (Bool.eqb _ _); [done |].
    destruct Hs as [[] Hm]. split; [by split | done].
  - unfold demote. case_bool_decide; [| done]. destruct Hs as [[] _].
    split; [split; cbn -[size]; try done | by split_and!].
    rewrite map_size_empty. unfold MAX_PARENT_CANDIDATES. lia.
Qed.

(** ** The routing topology *)

Record network_ok (net : gmap bytes DodagState) (m : Z) : Prop := {
  nw_ok : forall a s, net !! a = Some s -> dodag_ok s;
  nw_hop : forall a s, net !! a = Some s -> s.(ds_min_hop) = m;
  (* the joined parent holds a rank no worse than the one it advertised *)
  nw_fresh : forall a s b c t, net !! a = Some s -> s.(preferred_parent) = Some b ->
    s.(parents) !! b = Some c -> net !! b = Some t -> t.(role) = Joined -> t.(rank) <= c.(pc_rank)
}.

Definition uplink (net : gmap bytes DodagState) (a b : bytes) : Prop :=
  exists s, net !! a = Some s /\ s.(role) = Joined /\ s.(preferred_parent) = Some b.

Lemma uplink_descends net m a b s t : network_ok net m -> net !! a = Some s -> net !! b = Some t ->
  uplink net a b -> t.(role) = Joined -> t.(rank) / m < s.(rank) / m.
Proof.
  intros [Hok Hm Hf] Ha Hb (s' & Hs' & Hj & Hp) Ht. simplify_eq.
  destruct (Hok _ _ Ha) as [[Hhop _ _ _ _ _] Hmem]. rewrite (Hm _ _ Ha) in Hhop.
  unfold membership_ok in Hmem. rewrite Hj in Hmem. destruct Hmem as (Hadm & _ & b' & c & Hp' & Hc & ->).
  simplify_eq. pose proof (Hf _ _ _ _ _ Ha Hp Hc Hb Ht).
  pose proof (Hadm _ _ Hc) as Hc'. apply candidate_admissible_iff in Hc' as [_ _ _ Hup _ _].
  rewrite (Hm _ _ Ha) in *. eapply Z.le_lt_trans; [| exact Hup]. apply Z.div_le_mono; lia.
Qed.

Lemma uplink_from_joined net a b : tc (uplink net) a b ->
  exists s, net !! a = Some s /\ s.(role) = Joined.
Proof. intros Ht. inversion Ht as [? ? (s & ? & ? & _) | ? ? ? (s & ? & ? & _)]; eauto. Qed.

Lemma uplink_path_descends net m a b : network_ok net m -> tc (uplink net) a b ->
  forall s t, net !! a = Some s -> net !! b = Some t -> t.(role) = Joined -> t.(rank) / m < s.(rank) / m.
Proof.
  intros Hn. induction 1 as [a b Hab | a b c Hab Hbc IH]; intros s t Hs Ht Hj.
  - by eapply uplink_descends.
  - assert (exists u, net !! b = Some u /\ u.(role) = Joined) as (u & Hu & Hju).
    { by eapply uplink_from_joined. }
    etrans; [by eapply IH | by eapply uplink_descends].
Qed.

Lemma choice_unpruned s a c : choice_ok (prune_inadmissible_parents s) a c -> choice_ok s a c.
Proof.
  intros [H1 H2 H3 H4]. apply prune_lookup in H1 as [H1 _].
  split; [done.. | |]; intros; [eapply H3 | eapply H4]; try done; by apply prune_lookup.
Qed.

End selection.

(** ** Properties *)

(** C13: whatever DIOs are processed or committed, candidates removed, ranks
    reconfigured and roots demoted, a node's membership stays consistent: at most
    16 candidates; a root advertises its MinHopRankIncrease and has no parent; an
    unjoined node has infinite rank, no candidate and no parent; a joined node
    has its preferred parent among its candidates, advertises exactly the path
    cost through it, and every candidate it keeps is admissible, so each lies
    at a DAGRank strictly below the node's own and within MaxRankIncrease of the
    lowest rank it held. *)
Theorem dodag_invariant `{HashIter} s0 s :
  dodag_init s0 -> rtc dodag_step s0 s -> dodag_ok s.
Proof.
  intros Hi%dodag_init_ok Hr. induction Hr; eauto using dodag_step_ok.
Qed.

(** C12: the preferred-parent links of a network form no cycle: when members use
    one MinHopRankIncrease and no joined parent has a worse rank than the one it
    advertised to its child, following preferred parents never returns to the
    start. *)
Theorem no_parent_cycle net m a : network_ok net m -> ~ tc (uplink net) a a.
Proof.
  intros Hn Hc. assert (exists s, net !! a = Some s /\ s.(role) = Joined) as (s & Hs & Hj).
  { by eapply uplink_from_joined. }
  pose proof (uplink_path_descends _ _ _ _ Hn Hc s s Hs Hs Hj). lia.
Qed.

(** C34: parent selection is MRHOF with hysteresis. A node joins exactly when
    some candidate is admissible; the parent it takes is an admissible candidate
    whose path cost becomes its rank; no admissible candidate is cheaper unless
    the parent is the one it already had and the gain is below the switch
    threshold; and an admissible current parent is left only for a gain of at
    least the threshold. *)
Theorem select_parent_mrhof `{HashIter} s : s.(role) <> Root -> candidates_ok s ->
  let s' := select_parent s in
  (s'.(role) = Joined <-> exists a c, s.(parents) !! a = Some c /\ admissible s c = true) /\
  (s'.(role) = Joined -> exists a c, s'.(preferred_parent) = Some a /\
     s'.(rank) = path_cost c s.(ds_min_hop) /\ choice_ok s a c).
Proof.
  intros Hr Hc s'. subst s'. destruct (select_cases s Hr Hc) as [[He ->] | (a & c & Hch & ->)]; cbn.
  - split; [| done]. split; [done |]. intros (a & c & Ha & Hadm).
    assert (parents (prune_inadmissible_parents s) !! a = Some c) as Hl by by apply prune_lookup.
    by rewrite He in Hl.
  - apply choice_unpruned in Hch. split; [| by exists a, c].
    split; [| done]. intros _. exists a, c. by destruct Hch.
Qed.

(** ** Samples: two neighbours of one root *)

Definition demo_root : bytes := repeat 1 16.
Definition demo_a : bytes := repeat 2 16.
Definition demo_b : bytes := repeat 3 16.
Definition demo_dio (r : Z) : Dio :=
  {| dio_instance := 0; dio_version := 1; dio_rank := r; grounded := true; mode_of_operation := 1;
     preference := 0; dtsn := 0; dio_flags := 0; dio_dodag_id := demo_root |}.
Definition etx_1_5 : F32.f32 := F32.of_dyadic 3 (-1).

(** The root's neighbour, and a node that hears that neighbour. *)
Definition demo_joined : DodagState :=
  snd (@process_dio hash_iter_id (dodag_new 0 demo_root 1) (demo_dio 256) demo_root (F32.of_Z 1)).
Definition demo_child : DodagState :=
  snd (@process_dio hash_iter_id (dodag_new 0 demo_root 1) (demo_dio 512) demo_a etx_1_5).
Definition demo_net : gmap bytes DodagState := {[demo_a := demo_joined; demo_b := demo_child]}.

Lemma demo_step (r : Z) (a : bytes) (etx : F32.f32) : is_u16 r ->
  @dodag_step hash_iter_id (dodag_new 0 demo_root 1)
    (snd (@process_dio hash_iter_id (dodag_new 0 demo_root 1) (demo_dio r) a etx)).
Proof. intros Hr. by apply step_dio. Qed.

Lemma dodag_invariant_witness : dodag_ok demo_joined /\ demo_joined.(rank) = 512 /\
  demo_joined.(preferred_parent) = Some demo_root.
Proof.
  split; [| vm_compute; done].
  apply (@dodag_invariant hash_iter_id (dodag_new 0 demo_root 1) demo_joined); [constructor |].
  eapply rtc_l; [apply (demo_step 256 demo_root (F32.of_Z 1)); width | apply rtc_refl].
Defined.

Lemma demo_facts :
  demo_joined.(preferred_parent) = Some demo_root /\ demo_child.(preferred_parent) = Some demo_a /\
  demo_joined.(rank) = 512 /\ pc_rank <$> demo_child.(parents) !! demo_a = Some 512.
Proof. vm_compute. done. Qed.

Lemma demo_net_ok : network_ok demo_net 256.
Proof.
  assert (forall a s, demo_net !! a = Some s ->
    a = demo_a /\ s = demo_joined \/ a = demo_b /\ s = demo_child) as Hcases.
  { intros a s. unfold demo_net. rewrite lookup_insert_Some, lookup_singleton_Some.
    intros [[<- <-] | [_ [<- <-]]]; [by left | by right]. }
  assert (forall r a etx, is_u16 r ->
    dodag_ok (snd (@process_dio hash_iter_id (dodag_new 0 demo_root 1) (demo_dio r) a etx))) as Hd.
  { intros r a etx Hr. eapply (@dodag_step_ok hash_iter_id); [by apply demo_step |].
    apply dodag_init_ok. constructor. }
  split.
  - intros a s [[-> ->] | [-> ->]]%Hcases; apply Hd; width.
  - intros a s [[-> ->] | [-> ->]]%Hcases; by vm_compute.
  - intros a s b c t Ha Hp Hc Ht Hj. apply Hcases in Ha as [[-> ->] | [-> ->]].
    + rewrite (proj1 demo_facts) in Hp. injection Hp as <-.
      apply Hcases in Ht as [[Hx _] | [Hx _]]; discriminate Hx.
    + rewrite (proj1 (proj2 demo_facts)) in Hp. injection Hp as <-.
      apply Hcases in Ht as [[_ ->] | [Hx _]]; [| discriminate Hx].
      destruct demo_facts as (_ & _ & Hrank & Hcand).
      rewrite Hc in Hcand. injection Hcand as Hcand. rewrite Hrank, Hcand. done.
Qed.

Lemma no_parent_cycle_witness : ~ tc (uplink demo_net) demo_b demo_b.
Proof. apply (no_parent_cycle demo_net 256 demo_b). exact demo_net_ok. Defined.

Lemma select_parent_mrhof_witness : (@select_parent hash_iter_id demo_joined).(role) = Joined.
Proof.
  apply (@select_parent_mrhof hash_iter_id demo_joined).
  - by vm_compute.
  - apply (@dodag_step_ok hash_iter_id (dodag_new 0 demo_root 1)); [by apply (demo_step 256) |].
    apply dodag_init_ok. constructor.
  - exists demo_root, {| pc_addr := demo_root; pc_rank := 256; link_etx := F32.of_Z 1 |}. by vm_compute.
Defined.

End RplDodag.
