(* ===== verification/RplTable.v ===== *)
(** * Routing table, source routing header and announce relay

    lichen-rpl/src/table.rs: canonical prefixes, route entries and the root's
    table with its longest-prefix lookup. lichen-rpl/src/srh.rs: the RFC 6554
    header. lichen-rpl/src/announce.rs: the relay filter. *)

From S2P Require Import Prelude RplMessage.

Module RplTable.
Import RplMessage.

(** ** Source routing header *)

Definition MAX_ROUTE_HOPS : nat := 8.
Record SourceRoutingHeader := { segments_left : Z; addresses : list bytes }.

Fixpoint write_addresses (i : nat) (l : list bytes) (out : bytes) : bytes :=
  match l with
  | [] => out
  | a :: l => write_addresses (i + 1) l (list_inserts (6 + i * 16) a out)
  end.

Definition srh_write_to (h : SourceRoutingHeader) (out : bytes) : result RplError nat * bytes :=
  if (MAX_ROUTE_HOPS <? length h.(addresses))%nat
     || (Z.of_nat (length h.(addresses)) <? h.(segments_left))
  then (Err InvalidOption, out)
  else
    let needed := (6 + length h.(addresses) * 16)%nat in
    if (length out <? needed)%nat then (Err (too_small needed out), out)
    else
      let out := <[0%nat := 3]> out in
      let out := <[1%nat := h.(segments_left)]> out in
      let out := <[2%nat := 0]> out in
      let out := <[3%nat := 0]> out in
      let out := <[4%nat := 0]> out in
      let out := <[5%nat := 0]> out in
      (Ok needed, write_addresses 0 h.(addresses) out).

(** [chunks_exact(16)] of [n] chunks. *)
Fixpoint chunks16 (n : nat) (data : bytes) : list bytes :=
  match n with
  | O => []
  | S n => take 16 data :: chunks16 n (drop 16 data)
  end.

Definition srh_from_bytes (data : bytes) : result RplError SourceRoutingHeader :=
  if (length data <? 6)%nat then Err (too_short 6 data)
  else if negb (nth 0 data 0 =? 3) then Err (BadRoutingType (nth 0 data 0))
  else if negb (nth 2 data 0 =? 0) || negb (Z.land (nth 3 data 0) 240 =? 0) then Err InvalidOption
  else
    let addr_bytes := drop 6 data in
    if negb (length addr_bytes mod 16 =? 0)%nat then Err InvalidOption
    else
      let addresses := chunks16 (length addr_bytes / 16) addr_bytes in
      if (MAX_ROUTE_HOPS <? length addresses)%nat then Err InvalidOption
      else
        let segments_left := nth 1 data 0 in
        if Z.of_nat (length addresses) <? segments_left then Err InvalidOption
        else Ok {| segments_left := segments_left; addresses := addresses |}.

Definition srh_from_route (route : list bytes) : result RplError SourceRoutingHeader :=
  match route with
  | [] => Err InvalidOption
  | _ :: rest =>
      if (length rest =? 0)%nat || (MAX_ROUTE_HOPS <? length route)%nat then Err InvalidOption
      else Ok {| segments_left := wrap8 (Z.of_nat (length rest)); addresses := rest |}
  end.

Definition validate_hop_limit (h : SourceRoutingHeader) (hop_limit : Z) : bool :=
  h.(segments_left) <? hop_limit.

(** ** Announce relay *)

Definition MAX_ANNOUNCE_HOPS : Z := 15.
Inductive AnnounceRelayAction := Send (hop_count : Z) | Suppress.
Record AnnounceState := { local_seq : Z; last_relay_map : gmap bytes Z }.
Definition announce_new : AnnounceState := {| local_seq := 0; last_relay_map := ∅ |}.
Definition bump_local_seq (s : AnnounceState) : Z * AnnounceState :=
  let n := wrap16 (s.(local_seq) + 1) in
  (n, {| local_seq := n; last_relay_map := s.(last_relay_map) |}).
Definition seq_gt (a b : Z) : bool := negb (a =? b) && (wrap16 (a - b) <? 32768).
Definition should_relay (s : AnnounceState) (iid : bytes) (seq_num hop_count : Z) :
    AnnounceRelayAction * AnnounceState :=
  if MAX_ANNOUNCE_HOPS <=? hop_count then (Suppress, s)
  else if match s.(last_relay_map) !! iid with
          | Some last_seq => negb (seq_gt seq_num last_seq)
          | None => false
          end then (Suppress, s)
  else (Send (hop_count + 1),
        {| local_seq := s.(local_seq); last_relay_map := <[iid := seq_num]> s.(last_relay_map) |}).

(** ** Prefixes *)

Record RouteTarget := { rt_prefix : bytes; rt_len : Z }.
#[export] Instance RouteTarget_eq_dec : EqDecision RouteTarget.
Proof. solve_decision. Defined.
#[export] Instance RouteTarget_countable : Countable RouteTarget.
Proof.
  refine (inj_countable' (fun t => (rt_prefix t, rt_len t))
            (fun '(p, n) => {| rt_prefix := p; rt_len := n |}) _). by intros [].
Defined.

(** [0xFF << (8 - rem)] in eight bits. *)
Definition prefix_mask (rem : Z) : Z := wrap8 (Z.shiftl 255 (8 - rem)).

Definition target_new (prefix : bytes) (prefix_len : Z) : option RouteTarget :=
  if 128 <? prefix_len then None
  else
    let whole_bytes := Z.to_nat (prefix_len / 8) in
    let remaining_bits := prefix_len mod 8 in
    let used_bytes := (whole_bytes + if (remaining_bits =? 0)%Z then 0 else 1)%nat in
    let prefix :=
      if remaining_bits =? 0 then prefix
      else <[whole_bytes := Z.land (nth whole_bytes prefix 0) (prefix_mask remaining_bits)]> prefix in
    let prefix := take used_bytes prefix ++ replicate (length prefix - used_bytes) 0 in
    Some {| rt_prefix := prefix; rt_len := prefix_len |}.

Definition host (address : bytes) : RouteTarget := {| rt_prefix := address; rt_len := 128 |}.

Definition contains (t : RouteTarget) (address : bytes) : bool :=
  let whole_bytes := Z.to_nat (t.(rt_len) / 8) in
  if negb (bool_decide (take whole_bytes t.(rt_prefix) = take whole_bytes address)) then false
  else
    let remaining_bits := t.(rt_len) mod 8 in
    (remaining_bits =? 0)
    || (Z.land (Z.lxor (nth whole_bytes t.(rt_prefix) 0) (nth whole_bytes address 0))
               (prefix_mask remaining_bits) =? 0).

(** ** Entries *)

Inductive RouteEntryState := Fresh | Stale | Expired.
#[export] Instance RouteEntryState_eq_dec : EqDecision RouteEntryState.
Proof. solve_decision. Defined.

Definition entry_can_transition (self next : RouteEntryState) : bool :=
  match self, next with
  | Expired, Expired => true
  | Expired, _ => false
  | _, _ => true
  end.

Record RouteEntry := { path : list bytes; state : RouteEntryState }.
#[export] Instance RouteEntry_eq_dec : EqDecision RouteEntry.
Proof. solve_decision. Defined.

Definition fresh (p : list bytes) : RouteEntry := {| path := p; state := Fresh |}.

(** The entry as it is left, and whether the transition was legal. *)
Definition transition_to (e : RouteEntry) (next : RouteEntryState) : bool * RouteEntry :=
  if entry_can_transition e.(state) next then (true, {| path := e.(path); state := next |})
  else (false, e).
Definition entry_mark_stale (e : RouteEntry) : bool * RouteEntry := transition_to e Stale.
Definition entry_mark_expired (e : RouteEntry) : bool * RouteEntry := transition_to e Expired.
Definition refresh (e : RouteEntry) (p : list bytes) : bool * RouteEntry :=
  if bool_decide (e.(state) = Expired) then (false, e)
  else transition_to {| path := p; state := e.(state) |} Fresh.
Definition is_usable (e : RouteEntry) : bool := negb (bool_decide (e.(state) = Expired)).

(** ** Table *)

Definition MAX_ROUTES : nat := 256.

Record RoutingTable := {
  routes : gmap RouteTarget RouteEntry;
  prefix_route_count : nat;
  rpl_managed_hosts : gset bytes;
  rpl_managed_prefixes : gmap RouteTarget bytes;
  unavailable_managed_prefixes : gset RouteTarget
}.

Definition table_new : RoutingTable :=
  {| routes := ∅; prefix_route_count := 0; rpl_managed_hosts := ∅; rpl_managed_prefixes := ∅;
     unavailable_managed_prefixes := ∅ |}.

Definition with_routes (t : RoutingTable) r n : RoutingTable :=
  {| routes := r; prefix_route_count := n; rpl_managed_hosts := t.(rpl_managed_hosts);
     rpl_managed_prefixes := t.(rpl_managed_prefixes);
     unavailable_managed_prefixes := t.(unavailable_managed_prefixes) |}.
Definition with_managed (t : RoutingTable) m u : RoutingTable :=
  {| routes := t.(routes); prefix_route_count := t.(prefix_route_count);
     rpl_managed_hosts := t.(rpl_managed_hosts); rpl_managed_prefixes := m;
     unavailable_managed_prefixes := u |}.

(** [None] is the panic of the [expect]. *)
Definition add_target_route (t : RoutingTable) (target : RouteTarget) (p : list bytes) :
    option (bool * RoutingTable) :=
  if (length p =? 0)%nat || (MAX_ROUTE_HOPS <? length p)%nat then Some (false, t)
  else
    let is_new := bool_decide (t.(routes) !! target = None) in
    if is_new && (size t.(routes) =? MAX_ROUTES)%nat then Some (false, t)
    else
      entry ←
        match t.(routes) !! target with
        | Some entry =>
            if negb (bool_decide (entry.(state) = Expired)) then
              let '(ok, e) := refresh entry p in if ok then Some e else None
            else Some (fresh p)
        | None => Some (fresh p)
        end;
      let count := if is_new && (target.(rt_len) <? 128)
                   then (t.(prefix_route_count) + 1)%nat else t.(prefix_route_count) in
      Some (true, with_routes t (<[target := entry]> t.(routes)) count).

Definition add_route (t : RoutingTable) (target : bytes) (p : list bytes) :
    option (bool * RoutingTable) :=
  add_target_route t (host target) p.

Definition add_prefix_route (t : RoutingTable) (target : RouteTarget) (egress : bytes)
    (p : list bytes) : option (bool * RoutingTable) :=
  if (target.(rt_len) =? 128) || negb (bool_decide (last p = Some egress))
     || existsb (fun hop => bool_decide (hop = target.(rt_prefix))) p
  then Some (false, t)
  else
    let was_managed := bool_decide (t.(rpl_managed_prefixes) !! target = Some egress) in
    let is_managed := was_managed || bool_decide (egress ∈ t.(rpl_managed_hosts)) in
    r ← add_target_route t target p;
    let '(ok, t) := r in
    if negb (ok : bool) then Some (false, t)
    else
      Some (true,
        with_managed t
          (if is_managed then <[target := egress]> t.(rpl_managed_prefixes)
           else delete target t.(rpl_managed_prefixes))
          (t.(unavailable_managed_prefixes) ∖ {[target]})).

Definition remove_route (t : RoutingTable) (target : bytes) : RoutingTable :=
  with_routes t (delete (host target) t.(routes)) t.(prefix_route_count).

Definition remove_prefix_route (t : RoutingTable) (target : RouteTarget) : RoutingTable :=
  if (target.(rt_len) <? 128) && bool_decide (is_Some (t.(routes) !! target)) then
    let t := with_routes t (delete target t.(routes)) (t.(prefix_route_count) - 1) in
    with_managed t (delete target t.(rpl_managed_prefixes))
      (t.(unavailable_managed_prefixes) ∖ {[target]})
  else t.

(** [get_mut(key).map(f)] *)
Definition modify (t : RoutingTable) (key : RouteTarget) (f : RouteEntry -> bool * RouteEntry) :
    option bool * RoutingTable :=
  match t.(routes) !! key with
  | Some e => let '(ok, e) := f e in
              (Some ok, with_routes t (<[key := e]> t.(routes)) t.(prefix_route_count))
  | None => (None, t)
  end.
Definition mark_stale (t : RoutingTable) (target : bytes) := modify t (host target) entry_mark_stale.
Definition mark_expired (t : RoutingTable) (target : bytes) := modify t (host target) entry_mark_expired.
Definition mark_prefix_expired (t : RoutingTable) (target : RouteTarget) :
    option bool * RoutingTable :=
  if target.(rt_len) <? 128 then modify t target entry_mark_expired else (None, t).
Definition entry_state (t : RoutingTable) (target : bytes) : option RouteEntryState :=
  state <$> t.(routes) !! host target.

(** [Iterator::max_by_key]: the last of the equally maximal elements. *)
Definition max_by_key {A} (f : A -> Z) (l : list A) : option A :=
  match l with
  | [] => None
  | x :: rest => Some (foldl (fun m y => if f m <=? f y then y else m) x rest)
  end.

Definition lookup_route `{HashIter} (t : RoutingTable) (target : bytes) : option (list bytes) :=
  if (t.(prefix_route_count) =? 0)%nat then
    match t.(routes) !! host target with
    | Some e => if is_usable e then Some e.(path) else None
    | None => None
    end
  else
    (fun kv => path (snd kv)) <$>
      max_by_key (fun kv => rt_len (fst kv))
        (List.filter (fun kv => contains (fst kv) target && is_usable (snd kv)) (hash_iter t.(routes))).

Definition table_len (t : RoutingTable) : nat := size t.(routes).
Definition table_is_empty (t : RoutingTable) : bool := bool_decide (t.(routes) = ∅).

(** ** Canonical prefixes *)

Definition whole (n : Z) : nat := Z.to_nat (n / 8).

(** The masked octet of a prefix that ends inside one. *)
Definition partial (n : Z) (p : bytes) : bytes :=
  if n mod 8 =? 0 then [] else [Z.land (nth (whole n) p 0) (prefix_mask (n mod 8))].

Lemma whole_lt n : 0 <= n <= 128 -> n mod 8 <> 0 -> (whole n < 16)%nat.
Proof. intros. unfold whole. Z.to_euclidean_division_equations. lia. Qed.
Lemma whole_le n : 0 <= n <= 128 -> (whole n <= 16)%nat.
Proof. intros. unfold whole. Z.to_euclidean_division_equations. lia. Qed.

Lemma target_new_split p n : length p = 16%nat -> 0 <= n <= 128 ->
  target_new p n = Some {| rt_prefix := take (whole n) p ++ partial n p
                             ++ replicate (16 - whole n - length (partial n p)) 0; rt_len := n |}.
Proof.
  intros Hp Hn. unfold target_new. rewrite (proj2 (Z.ltb_ge _ _)) by lia. fold (whole n).
  unfold partial. destruct (Z.eqb_spec (n mod 8) 0) as [Hr | Hr].
  - rewrite Hp, Nat.add_0_r. simpl. by rewrite Nat.sub_0_r.
  - pose proof (whole_lt n Hn Hr) as Hw. rewrite length_insert, Hp. cbn [length].
    rewrite insert_take_drop by lia. rewrite take_app_ge by (rewrite length_take; lia).
    rewrite length_take, Nat.min_l by lia. replace (whole n + 1 - whole n)%nat with 1%nat by lia.
    simpl. rewrite <- app_assoc. simpl. by replace (16 - (whole n + 1))%nat with (16 - whole n - 1)%nat by lia.
Qed.

Record canonical (k : RouteTarget) : Prop := {
  cn_len : length k.(rt_prefix) = 16%nat;
  cn_bits : 0 <= k.(rt_len) <= 128;
  cn_masked : target_new k.(rt_prefix) k.(rt_len) = Some k
}.

Lemma partial_len n p q : length (partial n p) = length (partial n q).
Proof. unfold partial. by destruct (_ =? _). Qed.

Lemma land_lxor a b m : Z.land (Z.lxor a b) m = Z.lxor (Z.land a m) (Z.land b m).
Proof.
  apply Z.bits_inj'. intros i Hi. rewrite Z.lxor_spec, !Z.land_spec, Z.lxor_spec.
  by destruct (Z.testbit a i), (Z.testbit b i), (Z.testbit m i).
Qed.

Lemma partial_agree n p q : partial n p = partial n q <->
  (n mod 8 =? 0) || (Z.land (Z.lxor (nth (whole n) p 0) (nth (whole n) q 0)) (prefix_mask (n mod 8)) =? 0)
  = true.
Proof.
  unfold partial. destruct (n mod 8 =? 0); [done |]. simpl.
  rewrite Z.eqb_eq, land_lxor, Z.lxor_eq_0_iff. split; [by intros [=] | by intros ->].
Qed.

(** A canonical prefix contains an address when it is what the address masks to. *)
Lemma contains_iff k a : canonical k -> length a = 16%nat ->
  contains k a = true <-> target_new a k.(rt_len) = Some k.
Proof.
  intros [Hl Hb Hm] Ha. destruct k as [p n]; cbn [rt_prefix rt_len] in *.
  assert (contains {| rt_prefix := p; rt_len := n |} a = true <->
    take (whole n) p = take (whole n) a /\ partial n p = partial n a) as ->.
  { rewrite partial_agree. unfold contains. cbn [rt_prefix rt_len]. fold (whole n).
    destruct (decide (take (whole n) p = take (whole n) a)) as [E | E];
      [rewrite bool_decide_eq_true_2 by done | rewrite bool_decide_eq_false_2 by done]; cbn [negb].
    - tauto.
    - split; [done | tauto]. }
  rewrite target_new_split in Hm |- * by done. injection Hm as Hm. split.
  - intros [E1 E2]. rewrite <- E1, <- E2. by rewrite Hm.
  - intros [= Heq]. rewrite <- Hm in Heq at 1.
    apply app_inj_1 in Heq as [E1 Heq]; [| rewrite !length_take; lia].
    apply app_inj_1 in Heq as [E2 _]; [done | apply partial_len].
Qed.

Lemma host_canonical a : length a = 16%nat -> canonical (host a).
Proof.
  intros Ha. split; cbn [host rt_prefix rt_len]; [done | lia |]. rewrite target_new_split by (done || lia). unfold partial. simpl.
  change (whole 128) with 16%nat. rewrite take_ge by lia. simpl. by rewrite app_nil_r.
Qed.

Lemma host_contains a b : length a = 16%nat -> length b = 16%nat ->
  contains (host a) b = true <-> a = b.
Proof.
  intros Ha Hb. rewrite contains_iff by (done || by apply host_canonical).
  pose proof (cn_masked _ (host_canonical b Hb)) as Hm. cbn [host rt_prefix rt_len] in *. rewrite Hm.
  split; [by intros [= ->] | by intros ->].
Qed.

(** Of the prefixes of one length, only one contains an address. *)
Lemma contains_unique k1 k2 a : canonical k1 -> canonical k2 -> length a = 16%nat ->
  k1.(rt_len) = k2.(rt_len) -> contains k1 a = true -> contains k2 a = true -> k1 = k2.
Proof.
  intros H1 H2 Ha Hl. rewrite !contains_iff by done. rewrite Hl. congruence.
Qed.

(** ** Invariant of the table *)

Definition is_prefix (kv : RouteTarget * RouteEntry) : Prop := (fst kv).(rt_len) < 128.
#[export] Instance is_prefix_dec kv : Decision (is_prefix kv) := _.

Record table_ok (t : RoutingTable) : Prop := {
  tk_keys : forall k e, t.(routes) !! k = Some e -> canonical k;
  tk_hops : forall k e, t.(routes) !! k = Some e -> (1 <= length e.(path) <= MAX_ROUTE_HOPS)%nat;
  tk_size : (size t.(routes) <= MAX_ROUTES)%nat;
  tk_count : t.(prefix_route_count) = size (filter is_prefix t.(routes));
  tk_managed : forall k a, t.(rpl_managed_prefixes) !! k = Some a ->
    k.(rt_len) < 128 /\ is_Some (t.(routes) !! k)
}.

Lemma table_new_ok : table_ok table_new.
Proof.
  split; cbn -[size]; try done. rewrite map_size_empty. unfold MAX_ROUTES. lia.
Qed.

(** The count of prefix routes after an insertion and a deletion. *)
Definition prefix_bit (k : RouteTarget) : nat := if k.(rt_len) <? 128 then 1 else 0.

Lemma count_insert (m : gmap RouteTarget RouteEntry) k e :
  size (filter is_prefix (<[k := e]> m)) =
    match m !! k with
    | Some _ => size (filter is_prefix m)
    | None => (size (filter is_prefix m) + prefix_bit k)%nat
    end.
Proof.
  unfold prefix_bit. destruct (k.(rt_len) <? 128) eqn:Hk; bool_to_prop.
  - rewrite map_filter_insert_True by done. rewrite map_size_insert, map_lookup_filter.
    destruct (m !! k) as [e' |]; simpl; [| lia].
    by rewrite option_guard_True by done.
  - rewrite map_filter_insert_False by (unfold is_prefix; simpl; lia).
    rewrite map_filter_delete. destruct (m !! k) eqn:Hm.
    + rewrite delete_id; [done |]. apply map_lookup_filter_None. right. intros e' He'.
      unfold is_prefix. simpl. lia.
    + rewrite delete_id; [lia |]. apply map_lookup_filter_None. by left.
Qed.

Lemma count_delete (m : gmap RouteTarget RouteEntry) k :
  size (filter is_prefix (delete k m)) =
    match m !! k with
    | Some _ => (size (filter is_prefix m) - prefix_bit k)%nat
    | None => size (filter is_prefix m)
    end.
Proof.
  destruct (m !! k) as [e |] eqn:Hm; [| by rewrite delete_id].
  rewrite <- (insert_delete_id m k e) at 2 by done. rewrite count_insert, lookup_delete_eq. lia.
Qed.

(** Rewriting the entry of a key. *)
Lemma insert_route_ok t k e n : table_ok t -> canonical k -> (1 <= length e.(path) <= MAX_ROUTE_HOPS)%nat ->
  (t.(routes) !! k = None -> (size t.(routes) < MAX_ROUTES)%nat) ->
  n = (t.(prefix_route_count) + match t.(routes) !! k with Some _ => 0 | None => prefix_bit k end)%nat ->
  table_ok (with_routes t (<[k := e]> t.(routes)) n).
Proof.
  intros [H1 H2 H3 H4 H5] Hk He Hsz ->. split; cbn [routes with_routes prefix_route_count rpl_managed_prefixes].
  - intros k' e' [[<- <-] | [_ Hk']]%lookup_insert_Some; eauto.
  - intros k' e' [[<- <-] | [_ Hk']]%lookup_insert_Some; eauto.
  - rewrite map_size_insert. destruct (_ !! k); simpl; [done |]. specialize (Hsz eq_refl). lia.
  - rewrite count_insert, H4. destruct (_ !! k); lia.
  - intros k' a' Hm. apply H5 in Hm as [? ?]. split; [done |]. rewrite lookup_insert_is_Some'. by right.
Qed.

Lemma with_managed_ok t m u : table_ok t ->
  (forall k a, m !! k = Some a -> k.(rt_len) < 128 /\ is_Some (t.(routes) !! k)) ->
  table_ok (with_managed t m u).
Proof. intros [] Hm. by split. Qed.

Lemma add_target_route_ok t k p : table_ok t -> canonical k ->
  exists ok t', add_target_route t k p = Some (ok, t') /\ table_ok t' /\
    t'.(rpl_managed_prefixes) = t.(rpl_managed_prefixes) /\
    (ok = true -> is_Some (t'.(routes) !! k)).
Proof.
  intros Ht Hk. unfold add_target_route.
  destruct (_ || _) eqn:Hp; [by exists false, t |]. apply orb_false_iff in Hp as [Hp0 Hp8]. bool_to_prop.
  assert (forall e n, e.(path) = p ->
    (t.(routes) !! k = None -> (size t.(routes) < MAX_ROUTES)%nat) ->
    n = (t.(prefix_route_count) + match t.(routes) !! k with Some _ => 0 | None => prefix_bit k end)%nat ->
    let t' := with_routes t (<[k := e]> t.(routes)) n in
    table_ok t' /\ t'.(rpl_managed_prefixes) = t.(rpl_managed_prefixes) /\
    (true = true -> is_Some (t'.(routes) !! k))) as Hins.
  { intros e n He Hsz Hn. cbn [routes with_routes rpl_managed_prefixes]. split_and!; [| done |].
    - apply insert_route_ok; try done. rewrite He. lia.
    - rewrite lookup_insert_eq. eauto. }
  pose proof (tk_size _ Ht) as Hsz. destruct (t.(routes) !! k) as [e |] eqn:Hl; simpl.
  - destruct e as [q st]. destruct st; simpl; do 2 eexists; (split; [done |]);
      apply Hins; done || (simpl; lia).
  - destruct (size _ =? MAX_ROUTES)%nat eqn:Hs; bool_to_prop; [by exists false, t |].
    do 2 eexists. split; [done |]. apply Hins; [done | intros _; lia |].
    unfold prefix_bit. destruct (rt_len k <? 128); lia.
Qed.

(** ** Operations *)

Inductive table_step : RoutingTable -> RoutingTable -> Prop :=
  | ts_route t a p ok t' : length a = 16%nat -> add_route t a p = Some (ok, t') -> table_step t t'
  | ts_prefix t pre n k eg p ok t' : length pre = 16%nat -> 0 <= n -> target_new pre n = Some k ->
      add_prefix_route t k eg p = Some (ok, t') -> table_step t t'
  | ts_remove t a : table_step t (remove_route t a)
  | ts_remove_prefix t k : table_step t (remove_prefix_route t k)
  | ts_stale t a : table_step t (snd (mark_stale t a))
  | ts_expired t a : table_step t (snd (mark_expired t a))
  | ts_prefix_expired t k : table_step t (snd (mark_prefix_expired t k)).

Lemma target_new_canonical pre n k : length pre = 16%nat -> 0 <= n -> target_new pre n = Some k ->
  canonical k.
Proof.
  intros Hp Hn Hk. assert (n <= 128) as Hn'.
  { unfold target_new in Hk. destruct (128 <? n) eqn:?; bool_to_prop; [done | lia]. }
  rewrite target_new_split in Hk by done. injection Hk as <-.
  pose proof (whole_le n ltac:(lia)) as Hw. set (l := take (whole n) pre ++ _ ++ _).
  assert (length (partial n pre) = if n mod 8 =? 0 then 0%nat else 1%nat) as Hpl
    by (unfold partial; by destruct (n mod 8 =? 0)).
  assert (length l = 16%nat) as Hl.
  { subst l. rewrite !length_app, length_take, length_replicate, Hpl.
    destruct (Z.eqb_spec (n mod 8) 0) as [|Hr]; [lia |]. pose proof (whole_lt n ltac:(lia) Hr). lia. }
  split; cbn [rt_prefix rt_len]; [done | lia |]. rewrite target_new_split by (done || lia). do 2 f_equal.
  assert (take (whole n) l = take (whole n) pre) as ->.
  { subst l. apply take_app_length'. rewrite length_take. lia. }
  subst l. f_equal. assert (partial n (take (whole n) pre ++ partial n pre
    ++ replicate (16 - whole n - length (partial n pre)) 0) = partial n pre) as ->; [| done].
  unfold partial. destruct (n mod 8 =? 0) eqn:Hr; [done |]. f_equal.
  rewrite app_nth2 by (rewrite length_take; lia). rewrite length_take, Nat.min_l, Nat.sub_diag by lia.
  simpl. by rewrite <- Z.land_assoc, Z.land_diag.
Qed.

Lemma modify_ok t k f : table_ok t ->
  (forall e, (snd (f e)).(path) = e.(path)) -> table_ok (snd (modify t k f)).
Proof.
  intros Ht Hf. unfold modify. destruct (routes t !! k) as [e |] eqn:Hk; [| done].
  destruct (f e) as [ok e'] eqn:Hfe. specialize (Hf e). rewrite Hfe in Hf. simpl in *.
  apply insert_route_ok; [done | by eapply tk_keys | | by rewrite Hk | rewrite Hk; lia].
  rewrite Hf. by eapply tk_hops.
Qed.

Lemma transition_path e next : (snd (transition_to e next)).(path) = e.(path).
Proof. unfold transition_to. by destruct (entry_can_transition _ _). Qed.

Lemma delete_route_ok t k n m u : table_ok t ->
  n = size (filter is_prefix (delete k t.(routes))) ->
  (forall k' a, m !! k' = Some a -> t.(rpl_managed_prefixes) !! k' = Some a /\ k' <> k) ->
  table_ok (with_managed (with_routes t (delete k t.(routes)) n) m u).
Proof.
  intros [H1 H2 H3 H4 H5] -> Hm.
  split; cbn [routes with_managed with_routes prefix_route_count rpl_managed_prefixes].
  - intros k' e' [_ Hk']%lookup_delete_Some. eauto.
  - intros k' e' [_ Hk']%lookup_delete_Some. eauto.
  - etrans; [apply map_subseteq_size, delete_subseteq | done].
  - done.
  - intros k' a Ha. apply Hm in Ha as [Ha Hne]. apply H5 in Ha as [? ?].
    split; [done |]. by rewrite lookup_delete_ne.
Qed.

Lemma remove_route_ok t a : table_ok t -> table_ok (remove_route t a).
Proof.
  intros Ht. unfold remove_route.
  apply (delete_route_ok t (host a) t.(prefix_route_count) t.(rpl_managed_prefixes) t.(unavailable_managed_prefixes)); [done | |].
  - rewrite count_delete, <- (tk_count _ Ht). change (prefix_bit (host a)) with 0%nat.
    destruct (routes t !! host a); lia.
  - intros k' a' Ha. split; [done |]. apply (tk_managed _ Ht) in Ha as [Hlt _]. intros ->. done.
Qed.

Lemma remove_prefix_route_ok t k : table_ok t -> table_ok (remove_prefix_route t k).
Proof.
  intros Ht. unfold remove_prefix_route. destruct (_ && _) eqn:Hc; [| done].
  apply andb_true_iff in Hc as [Hlt [e He]%bool_decide_eq_true_1].
  apply delete_route_ok; [done | |].
  - rewrite count_delete, He, <- (tk_count _ Ht). unfold prefix_bit. by rewrite Hlt.
  - by intros k' a [Hne Ha]%lookup_delete_Some.
Qed.

Lemma add_prefix_route_ok t k eg p ok t' : table_ok t -> canonical k ->
  add_prefix_route t k eg p = Some (ok, t') -> table_ok t'.
Proof.
  intros Ht Hk. unfold add_prefix_route. destruct (_ || existsb _ _) eqn:Hc; [by intros [= <- <-] |].
  apply orb_false_iff in Hc as [[Hlen _]%orb_false_iff _]. bool_to_prop.
  destruct (add_target_route_ok t k p Ht Hk) as (ok' & t1 & -> & Ht1 & Hm & Hin). simpl.
  destruct ok'; simpl; intros [= <- <-]; [| done]. apply with_managed_ok; [done |].
  intros k' a Ha. destruct (decide (k' = k)) as [-> | Hne].
  - split; [| by apply Hin]. destruct (cn_bits _ Hk). lia.
  - apply (tk_managed _ Ht1 k' a). destruct (_ || _); [by rewrite lookup_insert_ne in Ha |].
    by rewrite lookup_delete_ne in Ha.
Qed.

Lemma table_step_ok t t' : table_step t t' -> table_ok t -> table_ok t'.
Proof.
  destruct 1 as [t a p ok t' Ha Hadd | t pre n k eg p ok t' Hp Hn Hk Hadd | t a | t k | t a | t a | t k];
    intros Ht.
  - destruct (add_target_route_ok t (host a) p Ht (host_canonical a Ha)) as (ok' & t1 & Hr & Ht1 & _).
    unfold add_route in Hadd. congruence.
  - eapply add_prefix_route_ok; [done | | done]. by eapply target_new_canonical.
  - by apply remove_route_ok.
  - by apply remove_prefix_route_ok.
  - apply modify_ok; [done | intros; apply transition_path].
  - apply modify_ok; [done | intros; apply transition_path].
  - unfold mark_prefix_expired. destruct (_ <? _); [| done].
    apply modify_ok; [done | intros; apply transition_path].
Qed.

(** ** Longest-prefix lookup *)

(** The entry of the most specific usable route to [a]. *)
Definition best_route (t : RoutingTable) (a : bytes) (k : RouteTarget) (e : RouteEntry) : Prop :=
  t.(routes) !! k = Some e /\ contains k a = true /\ is_usable e = true /\
  forall k' e', t.(routes) !! k' = Some e' -> contains k' a = true -> is_usable e' = true ->
    k'.(rt_len) <= k.(rt_len).

Lemma foldl_max {A} (f : A -> Z) l x :
  let m := foldl (fun m y => if f m <=? f y then y else m) x l in
  m ∈ x :: l /\ f x <= f m /\ Forall (fun y => f y <= f m) l.
Proof.
  revert x. induction l as [| y l IH]; intros x; simpl.
  - split; [by apply list_elem_of_singleton | split; [lia | constructor]].
  - specialize (IH (if f x <=? f y then y else x)) as (Hin & Hle & Hall).
    destruct (f x <=? f y) eqn:E; bool_to_prop.
    + split; [by apply list_elem_of_further |]. split; [lia | by constructor].
    + split; [| split; [lia | constructor; [lia | done]]].
      apply elem_of_cons in Hin as [-> | Hin]; [apply list_elem_of_here | by do 2 apply list_elem_of_further].
Qed.

Lemma max_by_key_spec {A} (f : A -> Z) l :
  match max_by_key f l with
  | None => l = []
  | Some m => m ∈ l /\ forall y, y ∈ l -> f y <= f m
  end.
Proof.
  destruct l as [| x l]; simpl; [done |]. destruct (foldl_max f l x) as (H1 & H2 & H3).
  split; [done |]. rewrite Forall_forall in H3. intros y [-> | Hy]%elem_of_cons; [done | by apply H3].
Qed.

Section lookup.
Context `{HashIter}.

Lemma usable_routes_elem t a k e :
  (k, e) ∈ List.filter (fun kv => contains (fst kv) a && is_usable (snd kv)) (hash_iter t.(routes)) <->
  t.(routes) !! k = Some e /\ contains k a = true /\ is_usable e = true.
Proof.
  rewrite list_elem_of_In, filter_In, <- list_elem_of_In, elem_of_hash_iter, andb_true_iff. done.
Qed.

Lemma best_route_unique t a k e k' e' : table_ok t -> length a = 16%nat ->
  best_route t a k e -> best_route t a k' e' -> e' = e.
Proof.
  intros Ht Ha (Hk & Hc & Hu & Hm) (Hk' & Hc' & Hu' & Hm').
  assert (k' = k) as ->; [| congruence]. apply (contains_unique _ _ a); eauto using tk_keys.
  specialize (Hm _ _ Hk' Hc' Hu'). specialize (Hm' _ _ Hk Hc Hu). lia.
Qed.

(** a lookup is longest-prefix match: it returns a path exactly when that is
    the path of the usable route with the longest prefix containing the address
    (in a table whose keys are canonical there is at most one), whatever order
    the map is iterated in; the shortcut for a table without prefix routes
    included. *)
Lemma lookup_longest_prefix t a p : table_ok t -> length a = 16%nat ->
  lookup_route t a = Some p <-> exists k e, best_route t a k e /\ e.(path) = p.
Proof.
  intros Ht Ha. unfold lookup_route. destruct (_ =? 0)%nat eqn:Hc; bool_to_prop.
  - rewrite (tk_count _ Ht) in Hc. apply map_size_empty_iff in Hc.
    assert (forall k e, routes t !! k = Some e -> contains k a = true -> k = host a) as Hhost.
    { intros k e Hk Hka. pose proof (tk_keys _ Ht _ _ Hk) as Hkc.
      apply (contains_unique _ _ a); auto using host_canonical; [| by apply host_contains].
      pose proof (map_filter_empty_not_lookup _ _ k e Hc) as Hn.
      destruct (Z.lt_ge_cases (rt_len k) 128) as [Hlt | Hge]; [by destruct (Hn Hlt Hk) |].
      destruct (cn_bits _ Hkc). simpl. lia. }
    split.
    + destruct (routes t !! host a) as [e |] eqn:He; [| done]. destruct (is_usable e) eqn:Hu; [| done].
      intros [= <-]. exists (host a), e. split; [| done]. split_and!; [done | by apply host_contains | done |].
      intros k' e' Hk' Hc' _. by rewrite (Hhost _ _ Hk' Hc').
    + intros (k & e & (Hk & Hka & Hu & _) & <-). rewrite (Hhost _ _ Hk Hka) in Hk. by rewrite Hk, Hu.
  - set (l := List.filter _ _). pose proof (max_by_key_spec (fun kv => rt_len (fst kv)) l) as Hm.
    split.
    + destruct (max_by_key _ l) as [[k e] |]; simpl; [| done]. intros [= <-].
      destruct Hm as [Hin Hmax]. apply usable_routes_elem in Hin as (Hk & Hka & Hu).
      exists k, e. split; [| done]. split_and!; try done. intros k' e' Hk' Hc' Hu'.
      apply (Hmax (k', e')). by apply usable_routes_elem.
    + intros (k & e & Hb & <-). destruct (max_by_key _ l) as [[k' e'] |]; simpl.
      * destruct Hm as [Hin Hmax]. apply usable_routes_elem in Hin as (Hk & Hka & Hu). do 2 f_equal.
        apply (best_route_unique t a k e k'); try done. split_and!; try done.
        intros k2 e2 Hk2 Hc2 Hu2. apply (Hmax (k2, e2)). by apply usable_routes_elem.
      * destruct Hb as (Hk & Hka & Hu & _). exfalso.
        assert ((k, e) ∈ l) as Hin by by apply usable_routes_elem. rewrite Hm in Hin.
        by apply not_elem_of_nil in Hin.
Qed.

End lookup.

Lemma table_reachable_ok t : rtc table_step table_new t -> table_ok t.
Proof.
  intros Hr. generalize table_new_ok. induction Hr; [done |]. eauto using table_step_ok.
Qed.

(** A network's prefix and a host in it behind another router. *)
Definition demo_net64 : bytes := repeat 253 8 ++ repeat 0 8.
Definition demo_host : bytes := repeat 253 8 ++ repeat 7 8.
Definition demo_gw : bytes := repeat 9 16.
Definition demo_table : option RoutingTable :=
  k ← target_new demo_net64 64;
  r ← add_prefix_route table_new k demo_gw [demo_gw];
  r ← add_route (snd r) demo_host [demo_gw; demo_host];
  Some (snd r).

Lemma demo_table_ok t : demo_table = Some t -> table_ok t.
Proof.
  unfold demo_table. destruct (target_new demo_net64 64) as [k |] eqn:Hk; [| done].
  cbn [mbind option_bind].
  destruct (add_prefix_route _ _ _ _) as [[ok1 t1] |] eqn:H1; [| done]. cbn [mbind option_bind snd].
  destruct (add_route _ _ _) as [[ok2 t2] |] eqn:H2; [| done]. intros [= <-].
  apply table_reachable_ok. eapply rtc_l; [by eapply (ts_prefix table_new demo_net64 64) |].
  eapply rtc_l; [by eapply (ts_route t1 demo_host) | apply rtc_refl].
Qed.

(** ** Source routing headers *)

Record srh_ok (h : SourceRoutingHeader) : Prop := {
  sh_hops : (length h.(addresses) <= MAX_ROUTE_HOPS)%nat;
  sh_left : 0 <= h.(segments_left) <= Z.of_nat (length h.(addresses));
  sh_addr : Forall (fun a => length a = 16%nat) h.(addresses)
}.

Lemma length_addresses (l : list bytes) : Forall (fun a => length a = 16%nat) l ->
  length (concat l) = (length l * 16)%nat.
Proof. induction 1; simpl; [done |]. rewrite length_app. lia. Qed.

Lemma chunks_concat (l : list bytes) : Forall (fun a => length a = 16%nat) l ->
  chunks16 (length l) (concat l) = l.
Proof.
  induction 1 as [| a l Ha Hl IH]; cbn [length chunks16 concat]; [done |].
  rewrite take_app_length', drop_app_length' by done. by rewrite IH.
Qed.

Lemma write_addresses_inserts l : Forall (fun a => length a = 16%nat) l -> forall i pre out,
  length pre = (6 + i * 16)%nat ->
  write_addresses i l (list_inserts 0 pre out) = list_inserts 0 (pre ++ concat l) out.
Proof.
  induction 1 as [| a l Ha Hl IH]; intros i pre out Hp; simpl write_addresses; [by rewrite app_nil_r |].
  rewrite inserts_adjacent by (simpl; lia). rewrite IH by (rewrite length_app; lia).
  simpl. by rewrite <- app_assoc.
Qed.

Lemma srh_roundtrip : roundtrips srh_ok srh_write_to srh_from_bytes 0.
Proof.
  intros [sl l] out [Hh Hs Ha]; cbn [addresses segments_left] in *.
  exists ([3; sl; 0; 0; 0; 0] ++ concat l).
  assert (length ([3; sl; 0; 0; 0; 0] ++ concat l) = (6 + length l * 16)%nat) as Hl
    by (rewrite length_app, length_addresses; done).
  rewrite Hl. split_and!.
  - unfold srh_from_bytes. rewrite drop_0, Hl. rewrite (proj2 (Nat.ltb_ge _ _)) by lia.
    cbv zeta. change (drop 6 ([3; sl; 0; 0; 0; 0] ++ concat l)) with (concat l).
    cbn [nth negb Z.eqb Z.land orb app]. rewrite length_addresses by done.
    rewrite Nat.Div0.mod_mul, Nat.div_mul by lia. cbn [negb Nat.eqb].
    rewrite chunks_concat by done. rewrite (proj2 (Nat.ltb_ge _ _)) by lia.
    by rewrite (proj2 (Z.ltb_ge _ _)) by lia.
  - intros Ho. unfold srh_write_to; cbn [addresses segments_left].
    rewrite (proj2 (Nat.ltb_ge MAX_ROUTE_HOPS _)), (proj2 (Z.ltb_ge _ _)) by lia. cbn [orb].
    rewrite (proj2 (Nat.ltb_ge _ _)) by lia. rewrite ?insert_inserts.
    repeat (rewrite inserts_adjacent by (simpl; lia)).
    rewrite write_addresses_inserts by done. cbn [app].
    rewrite inserts_front by (simpl; rewrite length_addresses by done; lia).
    cbn [length]. by rewrite length_addresses.
  - intros Ho. unfold srh_write_to; cbn [addresses segments_left].
    rewrite (proj2 (Nat.ltb_ge MAX_ROUTE_HOPS _)), (proj2 (Z.ltb_ge _ _)) by lia. cbn [orb].
    by rewrite (proj2 (Nat.ltb_lt _ _)) by lia.
Qed.

End RplTable.
