(* ===== verification/RplRoutes.v ===== *)
(** * Route computation of the root

    lichen-rpl/src/routing.rs, the pure part of [DaoManager]: sequence
    comparison, cycle detection over the parent map, assembly of source routes
    and the rebuilding of the routing table. *)

From S2P Require Import Prelude RplMessage RplTable.

Module RplRoutes.
Import RplMessage RplTable.

(** ** Path sequences *)

Definition LOLLIPOP_CIRCULAR_BIT : Z := 128.
Definition LOLLIPOP_SEQUENCE_WINDOW : Z := 16.

Definition seq_is_newer (new_seq old_seq : Z) : bool :=
  match new_seq <? LOLLIPOP_CIRCULAR_BIT, old_seq <? LOLLIPOP_CIRCULAR_BIT with
  | true, true | false, false =>
      let diff := Z.land (wrap8 (new_seq - old_seq)) 127 in
      (1 <=? diff) && (diff <=? LOLLIPOP_SEQUENCE_WINDOW)
  | true, false => 256 + new_seq - old_seq <=? LOLLIPOP_SEQUENCE_WINDOW
  | false, true => LOLLIPOP_SEQUENCE_WINDOW <? 256 + old_seq - new_seq
  end.

Definition increment_lollipop (sequence : Z) : Z :=
  if (sequence =? 127) || (sequence =? 255) then 0 else sequence + 1.

(** ** Candidates *)

Definition PATH_CONTROL_SIZE : Z := 7.

Record DaoCandidate := { dc_parent : bytes; dc_control : Z; dc_lifetime : Z }.
#[export] Instance DaoCandidate_eq_dec : EqDecision DaoCandidate.
Proof. solve_decision. Defined.

Abbreviation ParentMap := (gmap bytes (list bytes)).
Abbreviation CandidateMap := (gmap bytes (list DaoCandidate)).

Definition is_canonical_link_local (a : bytes) : bool :=
  (nth 0 a 0 =? 254) && (nth 1 a 0 =? 128) && forallb (fun b => b =? 0) (slice 2 8 a).

(** The position of the most preferred subfield in use. *)
Definition path_control_rank (path_control : Z) : option Z :=
  let active_mask := wrap8 (Z.shiftl 255 (7 - PATH_CONTROL_SIZE)) in
  let masked := Z.land path_control active_mask in
  let used shift := negb (Z.land masked (Z.shiftl 3 shift) =? 0) in
  if used 6 then Some 0 else if used 4 then Some 1 else if used 2 then Some 2
  else if used 0 then Some 3 else None.

(** ** Cycle detection *)

Definition Search : Type := option (bool * gset bytes * gset bytes).

(** The loop over the parents of a node, which stops at the first cycle. *)
Fixpoint walk_parents (go : bytes -> gset bytes -> gset bytes -> Search) (parents : list bytes)
    (visited stack : gset bytes) : Search :=
  match parents with
  | [] => Some (false, visited, stack)
  | parent :: rest =>
      match go parent visited stack with
      | Some (false, visited, stack) => walk_parents go rest visited stack
      | r => r
      end
  end.

(** The depth-first search; [None] when [fuel] runs out. *)
Fixpoint has_cycle_from (m : ParentMap) (fuel : nat) (node : bytes) (visited stack : gset bytes) :
    Search :=
  match fuel with
  | O => None
  | S fuel =>
      if bool_decide (node ∈ stack) then Some (true, visited, stack)
      else if bool_decide (node ∈ visited) then Some (false, visited, stack)
      else
        let visited := {[node]} ∪ visited in
        let stack := {[node]} ∪ stack in
        match walk_parents (has_cycle_from m fuel) (default [] (m !! node)) visited stack with
        | Some (false, visited, stack) => Some (false, visited, stack ∖ {[node]})
        | r => r
        end
  end.

Fixpoint cycle_in_keys (m : ParentMap) (fuel : nat) (keys : list bytes) (visited stack : gset bytes) :
    option bool :=
  match keys with
  | [] => Some false
  | node :: keys =>
      match has_cycle_from m fuel node visited stack with
      | Some (true, _, _) => Some true
      | Some (false, visited, stack) => cycle_in_keys m fuel keys visited stack
      | None => None
      end
  end.

Definition contains_cycle `{HashIter} (m : ParentMap) : option bool :=
  cycle_in_keys m (size m + 2) (fst <$> hash_iter m) ∅ ∅.

(** ** Path assembly *)

Fixpoint list_cmp {A} (cmp : A -> A -> comparison) (a b : list A) : comparison :=
  match a, b with
  | [], [] => Eq
  | [], _ => Lt
  | _, [] => Gt
  | x :: a, y :: b => match cmp x y with Eq => list_cmp cmp a b | c => c end
  end.
Definition chain_cmp : list bytes -> list bytes -> comparison := list_cmp (list_cmp Z.compare).
Definition choice_cmp (x y : Z * list bytes) : comparison :=
  match Z.compare (fst x) (fst y) with Eq => chain_cmp (snd x) (snd y) | c => c end.

(** [Iterator::min_by]: the first of the equally minimal elements. *)
Definition min_by {A} (cmp : A -> A -> comparison) (l : list A) : option A :=
  match l with
  | [] => None
  | x :: rest => Some (foldl (fun m y => match cmp m y with Gt => y | _ => m end) x rest)
  end.

Section assembly.
Context `{HashIter}.
Variables (root : bytes) (parent_map : ParentMap) (candidate_map : CandidateMap).

Definition names_root (node : bytes) : bool :=
  bool_decide (node = root)
  || (is_canonical_link_local node && bool_decide (drop 8 node = drop 8 root)).

(** The key a node stands for: itself, or the only key with the interface
    identifier of a link-local address. [Err] when that is ambiguous. *)
Definition resolve (node : bytes) : result unit (option bytes) :=
  if bool_decide (is_Some (parent_map !! node)) then Ok (Some node)
  else if is_canonical_link_local node then
    match List.filter (fun c => bool_decide (drop 8 c = drop 8 node)) (fst <$> hash_iter parent_map) with
    | [] => Ok None
    | [alias] => Ok (Some alias)
    | _ => Err tt
    end
  else Ok None.

(** The loop over the candidates: the choices found, and whether some branch failed. *)
Fixpoint try_candidates (go : bytes -> result unit (option (list bytes))) (active : list bytes)
    (candidates : list DaoCandidate) : list (Z * list bytes) * bool :=
  match candidates with
  | [] => ([], false)
  | c :: rest =>
      let '(choices, exceeded) := try_candidates go active rest in
      if negb (bool_decide (c.(dc_parent) ∈ active)) then (choices, exceeded)
      else
        match path_control_rank c.(dc_control) with
        | None => (choices, exceeded)
        | Some rank =>
            match go c.(dc_parent) with
            | Ok (Some chain) => ((rank, rev chain) :: choices, exceeded)
            | Ok None => (choices, exceeded)
            | Err _ => (choices, true)
            end
        end
  end.

(** The chain from [node] on, with the nodes before it; [Ok None] when there is
    no way to the root. The recursion stops at [MAX_ROUTE_HOPS] nodes. *)
Fixpoint assemble_path_from (fuel : nat) (node : bytes) (chain : list bytes) (visited : gset bytes) :
    result unit (option (list bytes)) :=
  match fuel with
  | O => Ok None
  | S fuel =>
      if names_root node then Ok (Some chain)
      else
        alias ← resolve node;
        match alias with
        | None => Ok None
        | Some node =>
            if (length chain =? MAX_ROUTE_HOPS)%nat then Err tt
            else if bool_decide (node ∈ visited) then Ok None
            else
              let visited := {[node]} ∪ visited in
              let chain := chain ++ [node] in
              match parent_map !! node, candidate_map !! node with
              | Some active, Some candidates =>
                  let '(choices, exceeded_limit) :=
                    try_candidates (fun p => assemble_path_from fuel p chain visited) active candidates in
                  if (exceeded_limit : bool) then Err tt
                  else
                    match min_by choice_cmp choices with
                    | None => Ok None
                    | Some (_, selected) => Ok (Some (rev selected))
                    end
              | _, _ => Ok None
              end
        end
  end.

Definition assemble_path_checked (target : bytes) : result unit (option (list bytes)) :=
  r ← assemble_path_from (MAX_ROUTE_HOPS + 2) target [] ∅;
  match r with
  | None | Some [] => Ok None
  | Some chain => Ok (Some (rev chain))
  end.

(** ** Rebuilding the table *)

Definition with_hosts (t : RoutingTable) r n hosts : RoutingTable :=
  {| routes := r; prefix_route_count := n; rpl_managed_hosts := hosts;
     rpl_managed_prefixes := t.(rpl_managed_prefixes);
     unavailable_managed_prefixes := t.(unavailable_managed_prefixes) |}.

Fixpoint host_routes (targets : list bytes) (t : RoutingTable) : option RoutingTable :=
  match targets with
  | [] => Some t
  | target :: rest =>
      match assemble_path_checked target with
      | Ok (Some path) =>
          if (MAX_ROUTES <=? size t.(routes))%nat then None
          else host_routes rest
                 (with_hosts t (<[host target := fresh path]> t.(routes)) t.(prefix_route_count)
                    ({[target]} ∪ t.(rpl_managed_hosts)))
      | Ok None => host_routes rest t
      | Err _ => None
      end
  end.

Definition reconcile (t : RoutingTable) (kv : RouteTarget * bytes) : RoutingTable :=
  let '(prefix, egress) := kv in
  if negb (bool_decide (egress ∈ t.(rpl_managed_hosts))) then
    let t := with_managed t t.(rpl_managed_prefixes) ({[prefix]} ∪ t.(unavailable_managed_prefixes)) in
    snd (modify t prefix entry_mark_expired)
  else
    match lookup_route t egress with
    | Some [] | None => t
    | Some path =>
        let t := with_routes t (<[prefix := fresh path]> t.(routes)) t.(prefix_route_count) in
        with_managed t t.(rpl_managed_prefixes) (t.(unavailable_managed_prefixes) ∖ {[prefix]})
    end.

Definition rebuilt_routes (existing : RoutingTable) : option RoutingTable :=
  let prefixes := filter is_prefix existing.(routes) in
  let t := {| routes := prefixes; prefix_route_count := size prefixes;
              rpl_managed_hosts := existing.(rpl_managed_hosts);
              rpl_managed_prefixes := existing.(rpl_managed_prefixes);
              unavailable_managed_prefixes := existing.(unavailable_managed_prefixes) |} in
  t ← host_routes (fst <$> hash_iter parent_map) t;
  Some (foldl reconcile t (hash_iter existing.(rpl_managed_prefixes))).

End assembly.

(** ** The search decides acyclicity *)

Section search.
Variable m : ParentMap.

Definition edge (a b : bytes) : Prop := exists ps, m !! a = Some ps /\ b ∈ ps.
Definition cyclic : Prop := exists x, tc edge x x.

Lemma edge_default a b : edge a b <-> b ∈ default [] (m !! a).
Proof.
  unfold edge. destruct (m !! a) as [ps |]; simpl.
  - split; [by intros (ps' & [= <-] & Hb) | by eauto].
  - split; [by intros (? & ? & _) | by intros ?%not_elem_of_nil].
Qed.

(** The finished nodes: their parents are finished and none lies on a cycle. *)
Record finished (V S : gset bytes) : Prop := {
  fi_closed : forall x y, x ∈ V -> x ∉ S -> edge x y -> y ∈ V /\ y ∉ S;
  fi_acyclic : forall x, x ∈ V -> x ∉ S -> ~ tc edge x x
}.

Lemma finished_reach V S x y : finished V S -> x ∈ V -> x ∉ S -> tc edge x y -> y ∈ V /\ y ∉ S.
Proof. intros Hf Hx Hs Ht. induction Ht; [by eapply fi_closed |]. destruct (fi_closed _ _ Hf _ _ Hx Hs H). auto. Qed.

(** Finishing a node whose parents are all finished. *)
Lemma finish_node V S n : finished V ({[n]} ∪ S) -> n ∈ V -> n ∉ S ->
  (forall y, edge n y -> y ∈ V /\ y ∉ {[n]} ∪ S) -> finished V S.
Proof.
  intros Hf Hn Hns Hp. split.
  - intros x y Hx Hxs He. destruct (decide (x = n)) as [-> | Hne]; [apply Hp in He; set_solver |].
    destruct (fi_closed _ _ Hf x y Hx ltac:(set_solver) He). set_solver.
  - intros x Hx Hxs Hc. destruct (decide (x = n)) as [-> | Hne];
      [| by apply (fi_acyclic _ _ Hf x Hx ltac:(set_solver))].
    assert (exists y, edge n y /\ (y = n \/ tc edge y n)) as (y & He & Hy)
      by (inversion Hc; subst; eauto).
    destruct (Hp y He) as [Hyv Hys]. destruct Hy as [-> | Hy]; [set_solver |].
    destruct (finished_reach _ _ _ _ Hf Hyv Hys Hy). set_solver.
Qed.

Definition unvisited (V : gset bytes) : nat := size (dom m ∖ V).

Lemma unvisited_mono V V' : V ⊆ V' -> (unvisited V' <= unvisited V)%nat.
Proof. intros. unfold unvisited. apply subseteq_size. set_solver. Qed.

Lemma unvisited_visit V n : n ∈ dom m -> n ∉ V -> (unvisited ({[n]} ∪ V) < unvisited V)%nat.
Proof. intros. unfold unvisited. apply subset_size. set_solver. Qed.

(** What a search from [n] returns when the nodes of the stack lead to it. *)
Definition search_ok (targets : list bytes) (V S : gset bytes) (r : Search) : Prop :=
  match r with
  | None => False
  | Some (true, _, _) => cyclic
  | Some (false, V', S') => S' = S /\ V ⊆ V' /\ finished V' S /\ Forall (fun n => n ∈ V' /\ n ∉ S) targets
  end.

Lemma walk_ok go ps V S k : (unvisited V <= k)%nat -> finished V S ->
  (forall p V', p ∈ ps -> (unvisited V' <= k)%nat -> finished V' S -> search_ok [p] V' S (go p V' S)) ->
  search_ok ps V S (walk_parents go ps V S).
Proof.
  revert V. induction ps as [| p ps IH]; intros V Hk Hf Hgo; simpl; [by split_and! |].
  pose proof (Hgo p V ltac:(set_solver) Hk Hf) as Hp.
  destruct (go p V S) as [[[[] V1] S1] |]; [done | | done].
  destruct Hp as (-> & HV & Hf1 & [Hp1 _]%Forall_cons).
  pose proof (unvisited_mono _ _ HV). specialize (IH V1 ltac:(lia) Hf1).
  assert (search_ok ps V1 S (walk_parents go ps V1 S)) as Hr
    by (apply IH; intros; apply Hgo; set_solver).
  unfold search_ok in *. destruct (walk_parents go ps V1 S) as [[[[] V2] S2] |]; [done | | done].
  destruct Hr as (-> & HV2 & Hf2 & Hall). split_and!; [done | set_solver | done |].
  constructor; [set_solver | done].
Qed.

Lemma has_cycle_from_ok fuel : forall n V S, (unvisited V + 1 < fuel)%nat -> finished V S ->
  (forall s, s ∈ S -> tc edge s n) -> search_ok [n] V S (has_cycle_from m fuel n V S).
Proof.
  induction fuel as [| fuel IH]; intros n V S Hfuel Hf Hst; [lia |]. cbn [has_cycle_from].
  case_bool_decide as HnS; [by exists n; apply Hst |].
  case_bool_decide as HnV; [split_and!; [done.. | by constructor] |].
  set (V1 := {[n]} ∪ V). set (S1 := {[n]} ∪ S).
  assert (finished V1 S1) as Hf1.
  { split; intros x; [intros y |]; intros Hx HxS.
    - intros He. destruct (fi_closed _ _ Hf x y ltac:(set_solver) ltac:(set_solver) He) as [Hy HyS].
      split; [set_solver |]. intros [->%elem_of_singleton |]%elem_of_union; done.
    - apply (fi_acyclic _ _ Hf); set_solver. }
  assert (search_ok (default [] (m !! n)) V1 S1
    (walk_parents (has_cycle_from m fuel) (default [] (m !! n)) V1 S1)) as Hw.
  { destruct (decide (n ∈ dom m)) as [Hd | Hd];
      [| apply not_elem_of_dom in Hd; rewrite Hd; by split_and!].
    pose proof (unvisited_visit V n Hd HnV). apply (walk_ok _ _ _ _ (unvisited V1)); [done | done |].
    intros p V' Hp%edge_default HV' Hf'. apply IH; [subst V1; lia | done |].
    intros s [->%elem_of_singleton | Hs]%elem_of_union; [by apply tc_once |].
    eapply tc_r; [by apply Hst | done]. }
  unfold search_ok in Hw. destruct (walk_parents _ _ _ _) as [[[[] V2] S2] |]; [done | | done].
  destruct Hw as (-> & HV2 & Hf2 & Hall). rewrite Forall_forall in Hall.
  split_and!; [set_solver | set_solver | | constructor; [set_solver | done]].
  apply (finish_node _ _ n); [done | set_solver | done |].
  intros y Hy%edge_default. by apply Hall.
Qed.

Lemma cycle_in_keys_ok fuel keys V : (size m + 1 < fuel)%nat -> finished V ∅ ->
  match cycle_in_keys m fuel keys V ∅ with
  | None => False
  | Some true => cyclic
  | Some false => exists V', finished V' ∅ /\ Forall (fun k => k ∈ V') keys /\ V ⊆ V'
  end.
Proof.
  intros Hfuel. revert V. induction keys as [| n keys IH]; intros V Hf; simpl; [by exists V |].
  assert (unvisited V <= size m)%nat as Hu.
  { unfold unvisited. rewrite <- (size_dom m). apply subseteq_size. set_solver. }
  pose proof (has_cycle_from_ok fuel n V ∅ ltac:(lia) Hf ltac:(set_solver)) as Hs.
  unfold search_ok in Hs. destruct (has_cycle_from m fuel n V ∅) as [[[[] V1] S1] |]; [done | | done].
  destruct Hs as (-> & HV & Hf1 & [[Hn _] _]%Forall_cons). specialize (IH V1 Hf1).
  destruct (cycle_in_keys m fuel keys V1 ∅) as [[] |]; [done | | done].
  destruct IH as (V2 & Hf2 & Hall & HV2). exists V2. split_and!; [done | | set_solver].
  constructor; [set_solver | done].
Qed.

End search.

(** ** Assembled paths *)

Section paths.
Context `{HashIter}.
Variables (root : bytes) (pm : ParentMap) (cm : CandidateMap).

(** [p] is an active parent of [n] that [n] advertised with a path-control bit. *)
Definition active_parent (n p : bytes) : Prop :=
  exists ps cs c, pm !! n = Some ps /\ cm !! n = Some cs /\ c ∈ cs /\ c.(dc_parent) = p /\
    p ∈ ps /\ is_Some (path_control_rank c.(dc_control)).

(** A chain from its first node to a child of the root. *)
Inductive uplinks : list bytes -> Prop :=
  | up_root n p : active_parent n p -> names_root root p = true -> uplinks [n]
  | up_hop n p n' l : active_parent n p -> names_root root p = false ->
      resolve pm p = Ok (Some n') -> uplinks (n' :: l) -> uplinks (n :: n' :: l).

Lemma min_by_elem {A} cmp (l : list A) x : min_by cmp l = Some x -> x ∈ l.
Proof.
  destruct l as [| y l]; simpl; [done |]. intros [= <-]. revert y.
  induction l as [| z l IH]; intros y; simpl; [by apply list_elem_of_singleton |].
  specialize (IH (match cmp y z with Gt => z | _ => y end)).
  destruct (cmp y z); set_solver.
Qed.

Lemma try_candidates_elem go active cs r c exceeded choices :
  try_candidates go active cs = (choices, exceeded) -> (r, c) ∈ choices ->
  exists d, d ∈ cs /\ d.(dc_parent) ∈ active /\ is_Some (path_control_rank d.(dc_control)) /\
    go d.(dc_parent) = Ok (Some (rev c)).
Proof.
  revert choices exceeded. induction cs as [| d cs IH]; intros choices exceeded; simpl.
  - intros [= <- <-] Hin. by apply not_elem_of_nil in Hin.
  - destruct (try_candidates go active cs) as [ch ex] eqn:Ht. intros Heq Hin.
    assert ((r, c) ∈ ch -> exists d', d' ∈ d :: cs /\ dc_parent d' ∈ active /\
      is_Some (path_control_rank (dc_control d')) /\ go (dc_parent d') = Ok (Some (rev c))) as Hrest.
    { intros Hin'. destruct (IH _ _ eq_refl Hin') as (d' & Hd' & ?). exists d'. split; [by right | done]. }
    case_bool_decide as Ha; simpl in Heq; [| simplify_eq; auto].
    destruct (path_control_rank (dc_control d)) as [rank |] eqn:Hr; [| simplify_eq; auto].
    destruct (go (dc_parent d)) as [[ch' |] |] eqn:Hg; simplify_eq; auto.
    apply elem_of_cons in Hin as [[= -> ->] | Hin]; [| auto].
    exists d. rewrite rev_involutive. split_and!; [by left | done | done | done].
Qed.

Lemma resolve_key n node : resolve pm node = Ok (Some n) -> is_Some (pm !! n).
Proof.
  unfold resolve. case_bool_decide as Hk; [by intros [= <-] |].
  destruct (is_canonical_link_local node); [| done].
  destruct (List.filter _ _) as [| a [| b l]] eqn:Hf; [done | | done]. intros [= <-].
  assert (a ∈ fst <$> hash_iter pm) as Hin.
  { apply list_elem_of_In. eapply (proj1 (filter_In _ a _)). rewrite Hf. by left. }
  apply list_elem_of_fmap in Hin as ([k ps] & -> & Hin). apply elem_of_hash_iter in Hin. by exists ps.
Qed.

Lemma assemble_sound fuel node chain visited out :
  assemble_path_from root pm cm fuel node chain visited = Ok (Some out) ->
  (names_root root node = true /\ out = chain) \/
  (names_root root node = false /\ exists n ext, resolve pm node = Ok (Some n) /\
     out = chain ++ n :: ext /\ uplinks (n :: ext) /\ NoDup (n :: ext) /\
     Forall (fun x => x ∉ visited) (n :: ext) /\ (length out <= MAX_ROUTE_HOPS \/ MAX_ROUTE_HOPS < length chain)%nat).
Proof.
  revert node chain visited out. induction fuel as [| fuel IH]; intros node chain visited out; [done |].
  cbn [assemble_path_from]. destruct (names_root root node) eqn:Hroot; [intros [= <-]; by left |].
  destruct (resolve pm node) as [[n |] |] eqn:Hres; simpl; [| done | done].
  destruct (length chain =? MAX_ROUTE_HOPS)%nat eqn:Hlen; [done |]. bool_to_prop.
  case_bool_decide as Hvis; [done |].
  destruct (pm !! n) as [ps |] eqn:Hps; [| done]. destruct (cm !! n) as [cs |] eqn:Hcs; [| done].
  destruct (try_candidates _ ps cs) as [choices ex] eqn:Htry. destruct ex; [done |].
  destruct (min_by choice_cmp choices) as [[r c] |] eqn:Hmin; [| done]. intros [= <-].
  apply min_by_elem in Hmin. destruct (try_candidates_elem _ _ _ _ _ _ _ Htry Hmin)
    as (d & Hd & Hactive & Hrank & Hgo).
  assert (active_parent n (dc_parent d)) as Hap by (exists ps, cs, d; split_and!; done).
  right. split; [done |]. apply IH in Hgo as [[Hr ->] | (Hr & n' & ext & Hres' & -> & Hup & Hnd & Hfresh & Hl)].
  - exists n, []. split_and!; [done | done | by eapply up_root | apply NoDup_singleton | by apply Forall_singleton |].
    rewrite length_app. simpl. unfold MAX_ROUTE_HOPS in *. lia.
  - exists n, (n' :: ext). rewrite <- app_assoc. split_and!; [done | done | by eapply up_hop | | |].
    + constructor; [| done]. intros Hin. rewrite Forall_forall in Hfresh. apply Hfresh in Hin. set_solver.
    + constructor; [done |]. eapply Forall_impl; [exact Hfresh |]. cbn beta. set_solver.
    + rewrite length_app in Hl. simpl in *. rewrite !length_app in *. simpl in *.
      unfold MAX_ROUTE_HOPS in *. lia.
Qed.

(** A route: the hops from the root's child to [target], a chain of advertised
    active parents without repetition, of at most [MAX_ROUTE_HOPS]. *)
Record route_ok (target : bytes) (p : list bytes) : Prop := {
  ro_last : last p = Some target;
  ro_up : uplinks (rev p);
  ro_nodup : NoDup p;
  ro_len : (1 <= length p <= MAX_ROUTE_HOPS)%nat
}.

Lemma assemble_checked_ok target p : is_Some (pm !! target) ->
  assemble_path_checked root pm cm target = Ok (Some p) -> route_ok target p.
Proof.
  intros Hk. unfold assemble_path_checked.
  destruct (assemble_path_from _ _ _ _ _ _ _) as [[[| x out] |] |] eqn:Ha; try done.
  intros [= <-]. change (route_ok target (rev (x :: out))). apply assemble_sound in Ha.
  destruct Ha as [[_ Hn] | (_ & n & ext & Hres & Heq & Hup & Hnd & _ & Hl)]; [done |].
  unfold resolve in Hres. rewrite bool_decide_eq_true_2 in Hres by done.
  injection Hres as <-. injection Heq as -> ->.
  split.
  - cbn [rev]. by rewrite last_snoc.
  - by rewrite rev_involutive.
  - by apply NoDup_ListNoDup, NoDup_rev, NoDup_ListNoDup.
  - rewrite length_rev. simpl in *. unfold MAX_ROUTE_HOPS in *. lia.
Qed.

(** More fuel than nodes a path may have changes nothing. *)
Lemma assemble_fuel f1 f2 node chain visited :
  (MAX_ROUTE_HOPS < f1 + length chain)%nat -> (MAX_ROUTE_HOPS < f2 + length chain)%nat ->
  (length chain <= MAX_ROUTE_HOPS)%nat ->
  assemble_path_from root pm cm f1 node chain visited = assemble_path_from root pm cm f2 node chain visited.
Proof.
  revert f2 node chain visited. induction f1 as [| f1 IH]; intros [| f2] node chain visited H1 H2 Hc;
    try lia. cbn [assemble_path_from]. destruct (names_root root node); [done |].
  destruct (resolve pm node) as [[n |] |]; simpl; [| done | done].
  destruct (length chain =? MAX_ROUTE_HOPS)%nat eqn:Hlen; [done |]. bool_to_prop.
  case_bool_decide; [done |]. destruct (pm !! n) as [ps |]; [| done]. destruct (cm !! n) as [cs |]; [| done].
  assert (forall go1 go2, (forall p, go1 p = go2 p) -> try_candidates go1 ps cs = try_candidates go2 ps cs) as Hext.
  { intros go1 go2 Hgo. induction cs as [| d cs IHcs]; [done |]. simpl. by rewrite IHcs, Hgo. }
  erewrite Hext; [done |]. intros p. apply IH; rewrite length_app; simpl; lia.
Qed.

(** *** The rebuilt table *)

(** The host entry a target gets. *)
Definition host_entry (a : bytes) : option RouteEntry :=
  match pm !! a with
  | None => None
  | Some _ =>
      match assemble_path_checked root pm cm a with Ok (Some p) => Some (fresh p) | _ => None end
  end.

Lemma with_hosts_ok t r n hosts : table_ok (with_routes t r n) -> table_ok (with_hosts t r n hosts).
Proof. intros []. by split. Qed.

Lemma host_inj a b : host a = host b -> a = b.
Proof. by intros [=]. Qed.

Lemma host_routes_ok targets t t' : table_ok t -> NoDup targets ->
  Forall (fun a => length a = 16%nat /\ is_Some (pm !! a) /\ t.(routes) !! host a = None) targets ->
  host_routes root pm cm targets t = Some t' ->
  table_ok t' /\ t'.(rpl_managed_prefixes) = t.(rpl_managed_prefixes) /\
  (forall k, (forall a, a ∈ targets -> k <> host a) -> t'.(routes) !! k = t.(routes) !! k) /\
  (forall a, a ∈ targets -> t'.(routes) !! host a = host_entry a).
Proof.
  revert t. induction targets as [| a targets IH]; intros t Ht Hnd Hall; cbn [host_routes].
  { intros [= <-]. split_and!; try done. by intros a ?%not_elem_of_nil. }
  apply NoDup_cons in Hnd as [Ha Hnd]. apply Forall_cons in Hall as [(Hlen & Hk & Hnone) Hall].
  assert (host_entry a = match assemble_path_checked root pm cm a with
    Ok (Some p) => Some (fresh p) | _ => None end) as He by (unfold host_entry; by destruct Hk as [ps ->]).
  destruct (assemble_path_checked root pm cm a) as [[p |] |] eqn:Hp; [| | done].
  - destruct (MAX_ROUTES <=? size (routes t))%nat eqn:Hsz; [done |]. bool_to_prop. intros Hr.
    apply IH in Hr as (Ht' & Hm & Hother & Hin); [| | done |].
    + split_and!; [done | done | |].
      * intros k Hne. rewrite Hother by (intros b Hb; apply Hne; by right). cbn.
        rewrite lookup_insert_ne; [done |]. symmetry. apply Hne. by left.
      * intros b [-> | Hb]%elem_of_cons; [| by apply Hin]. rewrite Hother, He.
        -- cbn. by rewrite lookup_insert_eq.
        -- intros b Hb ->%host_inj. done.
    + apply with_hosts_ok, insert_route_ok; [done | by apply host_canonical | | by intros; lia |].
      * by destruct (assemble_checked_ok _ _ Hk Hp).
      * rewrite Hnone. unfold prefix_bit. simpl. lia.
    + rewrite Forall_forall in Hall |- *. intros b Hb. destruct (Hall b Hb) as (? & ? & ?).
      split_and!; try done. cbn. rewrite lookup_insert_ne; [done |]. intros ->%host_inj. done.
  - intros Hr. apply IH in Hr as (Ht' & Hm & Hother & Hin); try done. split_and!; [done | done | |].
    + intros k Hne. apply Hother. intros b Hb. apply Hne. by right.
    + intros b [-> | Hb]%elem_of_cons; [| by apply Hin]. rewrite Hother, He; [done |].
      intros b Hb ->%host_inj. done.
Qed.

Lemma reconcile_ok t kv : table_ok t -> t.(rpl_managed_prefixes) !! (fst kv) <> None ->
  table_ok (reconcile t kv) /\ (reconcile t kv).(rpl_managed_prefixes) = t.(rpl_managed_prefixes) /\
  forall a, (reconcile t kv).(routes) !! host a = t.(routes) !! host a.
Proof.
  intros Ht Hm. destruct kv as [k eg]; cbn [fst] in Hm.
  destruct (rpl_managed_prefixes t !! k) as [eg' |] eqn:Hk; [| done].
  destruct (tk_managed _ Ht _ _ Hk) as [Hlt [e He]]. pose proof (tk_keys _ Ht _ _ He) as Hcan.
  assert (forall a, k <> host a) as Hne by (intros a ->; done).
  unfold reconcile. case_bool_decide; cbn [negb].
  - destruct (lookup_route t eg) as [[| hop path] |] eqn:Hl; [by split_and! | | by split_and!].
    assert (1 <= length (hop :: path) <= MAX_ROUTE_HOPS)%nat as Hlen.
    { assert (exists k' e', t.(routes) !! k' = Some e' /\ e'.(RplTable.path) = hop :: path) as (k' & e' & Hk' & <-);
        [| by eapply tk_hops].
      unfold lookup_route in Hl. destruct (_ =? 0)%nat.
      - destruct (routes t !! host eg) as [e' |] eqn:He'; [| done]. destruct (is_usable e'); [| done].
        injection Hl as Hl. eauto.
      - pose proof (max_by_key_spec (fun kv => rt_len (fst kv)) (List.filter (fun kv : RouteTarget * RouteEntry =>
          contains (fst kv) eg && is_usable (snd kv)) (hash_iter (routes t)))) as Hs.
        destruct (max_by_key _ _) as [[k' e'] |]; [| done]. injection Hl as Hl.
        destruct Hs as [Hs _]. apply usable_routes_elem in Hs as (Hs & _). eauto. }
    split_and!; [| done |].
    + assert (table_ok (with_routes t (<[k := fresh (hop :: path)]> t.(routes)) t.(prefix_route_count))) as Ht'
        by (apply insert_route_ok; rewrite ?He; done || lia).
      by apply with_managed_ok, (tk_managed _ Ht').
    + intros a. cbn. by rewrite lookup_insert_ne.
  - split_and!.
    + apply modify_ok; [| intros; apply transition_path]. apply with_managed_ok; [done |].
      apply (tk_managed _ Ht).
    + unfold modify. cbn [routes with_managed]. rewrite He. by destruct (entry_mark_expired e).
    + intros a. unfold modify. cbn [routes with_managed]. rewrite He.
      destruct (entry_mark_expired e). cbn. by rewrite lookup_insert_ne.
Qed.

Lemma reconcile_all_ok l t : table_ok t -> Forall (fun kv => t.(rpl_managed_prefixes) !! fst kv <> None) l ->
  table_ok (foldl reconcile t l) /\
  forall a, (foldl reconcile t l).(routes) !! host a = t.(routes) !! host a.
Proof.
  revert t. induction l as [| kv l IH]; intros t Ht Hall; [done |]. simpl.
  apply Forall_cons in Hall as [Hkv Hall]. destruct (reconcile_ok t kv Ht Hkv) as (Ht' & Hm & Hh).
  destruct (IH (reconcile t kv) Ht') as [Hok Hsame]; [by rewrite Hm |].
  split; [done |]. intros a. by rewrite Hsame, Hh.
Qed.

Lemma rebuilt_ok existing t : table_ok existing -> (forall a ps, pm !! a = Some ps -> length a = 16%nat) ->
  rebuilt_routes root pm cm existing = Some t ->
  table_ok t /\ forall a, t.(routes) !! host a = host_entry a.
Proof.
  intros Hex Hkeys. unfold rebuilt_routes. set (t0 := {| routes := _ |}).
  assert (forall a, t0.(routes) !! host a = None) as Hnone.
  { intros a. cbn. apply map_lookup_filter_None. right. intros e _. unfold is_prefix. simpl. lia. }
  assert (table_ok t0) as Ht0.
  { destruct Hex as [H1 H2 H3 H4 H5]. split; cbn -[size].
    - intros k e [Hk _]%map_lookup_filter_Some. eauto.
    - intros k e [Hk _]%map_lookup_filter_Some. eauto.
    - etrans; [apply map_subseteq_size, map_filter_subseteq | done].
    - rewrite map_filter_filter_l; [done |]. done.
    - intros k a Hk. apply H5 in Hk as [Hlt [e He]]. split; [done |]. exists e. by apply map_lookup_filter_Some. }
  destruct (host_routes _ _ _ _ t0) as [t1 |] eqn:Hh; simpl; [| done]. intros [= <-].
  assert (forall a, a ∈ fst <$> hash_iter pm <-> is_Some (pm !! a)) as Hin.
  { intros a. rewrite list_elem_of_fmap. split.
    - intros ([k ps] & -> & Hk). apply elem_of_hash_iter in Hk. by exists ps.
    - intros [ps Hk]. exists (a, ps). split; [done | by apply elem_of_hash_iter]. }
  apply host_routes_ok in Hh as (Ht1 & Hm & Hother & Hent); [| done | |].
  - destruct (reconcile_all_ok (hash_iter (rpl_managed_prefixes existing)) t1 Ht1) as [Hok Hsame].
    { rewrite Forall_forall. intros [k eg] Hk. apply elem_of_hash_iter in Hk. rewrite Hm. cbn. by rewrite Hk. }
    split; [done |]. intros a. rewrite Hsame. destruct (pm !! a) as [ps |] eqn:Ha.
    + apply Hent, Hin. by exists ps.
    + rewrite Hother; [rewrite Hnone; unfold host_entry; by rewrite Ha |].
      intros b Hb ->%host_inj. apply Hin in Hb as [ps Hb]. congruence.
  - rewrite hash_iter_perm. apply NoDup_fst_map_to_list.
  - rewrite Forall_forall. intros a Ha. apply Hin in Ha as Hs. split_and!; [| done | apply Hnone].
    destruct Hs as [ps Hs]. by eapply Hkeys.
Qed.

End paths.

Lemma contains_cycle_exact `{HashIter} (m : ParentMap) :
  exists b, contains_cycle m = Some b /\ (b = true <-> cyclic m).
Proof.
  unfold contains_cycle.
  pose proof (cycle_in_keys_ok m (size m + 2) (fst <$> hash_iter m) ∅ ltac:(lia)) as Hc.
  specialize (Hc ltac:(split; set_solver)). destruct (cycle_in_keys _ _ _ _ _) as [b |]; [| done].
  exists b. split; [done |]. destruct b; [done |]. split; [done |]. intros [x Hx].
  destruct Hc as (V & Hf & Hall & _). rewrite Forall_forall in Hall.
  assert (exists ps, m !! x = Some ps) as [ps Hps].
  { assert (exists y, edge m x y) as (y & ps & Hps & _) by (inversion Hx; eauto). by exists ps. }
  destruct (fi_acyclic _ _ _ Hf x); [| done | done]. apply Hall, list_elem_of_fmap.
  exists (x, ps). split; [done | by apply elem_of_hash_iter].
Qed.

(** C9: the root's cycle check is exact: on any parent map the depth-first search
    terminates, and reports a cycle exactly when some node reaches itself along
    parent links, in whatever order the map is iterated. *)
Theorem contains_cycle_decides `{HashIter} (m : ParentMap) :
  exists b, contains_cycle m = Some b /\ (b = true <-> cyclic m).
Proof. apply contains_cycle_exact. Qed.

End RplRoutes.
