(* ===== verification/RplDao.v ===== *)
(** * DAO processing of the root

    lichen-rpl/src/routing.rs: prefix delegations and their authorization, the
    extraction of updates from a DAO, the transactional update of the route
    state, expiry, and the DAOs a node builds. The replay floor around
    them and its persistence are in RplPersist.v and RplRoot.v. *)

From stdpp Require Import sorting.
From S2P Require Import Prelude RplMessage RplTable RplRoutes.

Module RplDao.
Import RplMessage RplTable RplRoutes.

Definition MAX_DAO_UPDATES : nat := 64.
Definition MAX_DAO_ORIGINS : nat := 256.
Definition MAX_PREFIX_DELEGATIONS : nat := 64.
Definition MAX_PARENT_EDGES : nat := 256.
Definition MAX_PATH_SEQUENCES : nat := 256.
Definition FRESHNESS_TOMBSTONE_RETENTION_SECONDS : Z := 3600.

(** ** Prefix delegations *)

Inductive PrefixDelegationError := DelegateDefaultRoute | PrefixLength | Capacity.

(** [delegated]: the exact prefixes of each origin key. *)
Abbreviation PrefixDelegations := (gmap bytes (gset (Z * bytes))).

(** In place, clear the bits beyond [prefix_len]. *)
Definition mask_prefix_bits (prefix_len : Z) (prefix : bytes) : bytes :=
  let full := Z.to_nat (prefix_len / 8) in
  let rem := prefix_len mod 8 in
  let prefix :=
    if negb (rem =? 0) then <[full := Z.land (nth full prefix 0) (prefix_mask rem)]> prefix
    else prefix in
  let from := (full + (if negb (rem =? 0)%Z then 1 else 0))%nat in
  take from prefix ++ replicate (length prefix - from) 0.

Definition authorizes (d : PrefixDelegations) (public_key : bytes) (prefix_len : Z) (prefix : bytes) :
    bool :=
  match d !! public_key with
  | Some set => bool_decide ((prefix_len, prefix) ∈ set)
  | None => false
  end.

Definition delegations_len (d : PrefixDelegations) : nat :=
  map_fold (fun _ (s : gset (Z * bytes)) n => (size s + n)%nat) 0%nat d.

Definition delegate (d : PrefixDelegations) (public_key prefix : bytes) (prefix_len : Z) :
    result PrefixDelegationError PrefixDelegations :=
  if prefix_len =? 0 then Err DelegateDefaultRoute
  else if 128 <? prefix_len then Err PrefixLength
  else
    let canonical := mask_prefix_bits prefix_len prefix in
    if authorizes d public_key prefix_len canonical then Ok d
    else if (MAX_PREFIX_DELEGATIONS <=? delegations_len d)%nat then Err Capacity
    else Ok (<[public_key := {[(prefix_len, canonical)]} ∪ default ∅ (d !! public_key)]> d).

Inductive UnauthorizedPrefixReason := DefaultRoute | ForeignPrefix.
Inductive PrefixAuthorizationError :=
  | MalformedTarget
  | Unauthorized (r : UnauthorizedPrefixReason).

Definition host_octets (prefix_len : Z) : nat := Z.to_nat ((prefix_len + 7) / 8).

(** The canonical prefix a Target option carries. *)
Definition target_prefix (data : bytes) (prefix_len : Z) : bytes :=
  mask_prefix_bits prefix_len
    (slice 2 (2 + host_octets prefix_len) data ++ replicate (16 - host_octets prefix_len) 0).

Fixpoint authorize_options (d : PrefixDelegations) (public_key origin : bytes) (opts : list RawOption)
    (saw_target : bool) : result PrefixAuthorizationError bool :=
  match opts with
  | [] => Ok saw_target
  | o :: opts =>
      if negb (o.(opt_type) =? OPT_RPL_TARGET) then authorize_options d public_key origin opts saw_target
      else if (length o.(opt_data) <? 2)%nat then Err MalformedTarget
      else
        let prefix_len := nth 1 o.(opt_data) 0 in
        if 128 <? prefix_len then Err MalformedTarget
        else if (length o.(opt_data) - 2 <? host_octets prefix_len)%nat then Err MalformedTarget
        else
          let prefix := target_prefix o.(opt_data) prefix_len in
          if prefix_len =? 0 then Err (Unauthorized DefaultRoute)
          else
            let authorized := (prefix_len =? 128) && bool_decide (prefix = origin) in
            if negb authorized && negb (authorizes d public_key prefix_len prefix)
            then Err (Unauthorized ForeignPrefix)
            else authorize_options d public_key origin opts true
  end.

(** The iterator yields its options up to the first malformed one, which is an
    error of its own; the options before it are screened first. *)
Fixpoint options_prefix (data : bytes) (pos fuel : nat) : list RawOption * bool :=
  match fuel with
  | O => ([], true)
  | S fuel =>
      match option_next data pos with
      | (None, _) => ([], true)
      | (Some (Err _), _) => ([], false)
      | (Some (Ok o), pos) => let '(l, ok) := options_prefix data pos fuel in (o :: l, ok)
      end
  end.

Definition authorize_dao_prefixes (d : PrefixDelegations) (unsigned_dao public_key origin : bytes) :
    result PrefixAuthorizationError unit :=
  let tail := dao_options_tail unsigned_dao in
  let '(opts, well_formed) := options_prefix tail 0 (S (length tail)) in
  saw_target ← authorize_options d public_key origin opts false;
  if negb (well_formed : bool) then Err MalformedTarget
  else if (saw_target : bool) then Ok tt else Err MalformedTarget.

(** ** Updates *)

Record DaoUpdate := {
  target : bytes;
  parent : bytes;
  up_control : Z;
  up_sequence : Z;
  up_lifetime : Z;
  descriptor : option Z
}.

(** What the scan of a DAO's options has collected: the updates of the finished
    groups, the targets of the current one with their descriptors, and its
    transits. *)
Record Extraction := {
  ex_updates : list DaoUpdate;
  ex_targets : list (bytes * option Z);
  ex_transits : list TransitInfo;
  descriptor_allowed : bool
}.

#[export] Instance TransitInfo_eq_dec : EqDecision TransitInfo.
Proof. solve_decision. Defined.

Definition transit_update (t : bytes * option Z) (tr : TransitInfo) : DaoUpdate :=
  {| target := fst t; parent := tr.(parent_address); up_control := tr.(path_control);
     up_sequence := tr.(path_sequence); up_lifetime := tr.(path_lifetime); descriptor := snd t |}.

(** One target after another; a target already updated is refused. *)
Fixpoint group_updates (updates : list DaoUpdate) (targets : list (bytes * option Z))
    (transits : list TransitInfo) : option (list DaoUpdate) :=
  match targets with
  | [] => Some updates
  | t :: targets =>
      if existsb (fun u => bool_decide (u.(target) = fst t)) updates then None
      else group_updates (updates ++ (transit_update t <$> transits)) targets transits
  end.

Definition finish_group (updates : list DaoUpdate) (targets : list (bytes * option Z))
    (transits : list TransitInfo) : option (list DaoUpdate) :=
  if (length targets =? 0)%nat || (length transits =? 0)%nat
     || (MAX_DAO_UPDATES <? length updates + length targets * length transits)%nat
  then None
  else group_updates updates targets transits.

Definition extract_target (e : Extraction) (data : bytes) : option Extraction :=
  e ← (if negb (length e.(ex_transits) =? 0)%nat then
         updates ← finish_group e.(ex_updates) e.(ex_targets) e.(ex_transits);
         Some {| ex_updates := updates; ex_targets := []; ex_transits := [];
                 descriptor_allowed := e.(descriptor_allowed) |}
       else Some e);
  if (length data <? 2)%nat || negb (nth 0 data 0 =? 0) then None
  else
    let prefix_len := nth 1 data 0 in
    if (prefix_len =? 0) || (128 <? prefix_len) || (length data - 2 <? host_octets prefix_len)%nat
       || (length e.(ex_targets) =? MAX_DAO_UPDATES)%nat
    then None
    else Some {| ex_updates := e.(ex_updates);
                 ex_targets := e.(ex_targets) ++ [(target_prefix data prefix_len, None)];
                 ex_transits := e.(ex_transits); descriptor_allowed := true |}.

(** Sets the descriptor of the last target. *)
Fixpoint describe_last (targets : list (bytes * option Z)) (v : Z) : list (bytes * option Z) :=
  match targets with
  | [] => []
  | [(t, _)] => [(t, Some v)]
  | t :: targets => t :: describe_last targets v
  end.

Definition extract_descriptor (e : Extraction) (data : bytes) : option Extraction :=
  if negb e.(descriptor_allowed) || negb (length data =? 4)%nat then None
  else Some {| ex_updates := e.(ex_updates); ex_targets := describe_last e.(ex_targets) (from_be data);
               ex_transits := e.(ex_transits); descriptor_allowed := false |}.

Definition extract_transit (e : Extraction) (data : bytes) : option Extraction :=
  if (length e.(ex_targets) =? 0)%nat then None
  else
    match transit_from_bytes data with
    | Err _ => None
    | Ok parsed =>
        if parsed.(external) then None
        else if existsb (fun first => negb (first.(path_sequence) =? parsed.(path_sequence))
                                      || negb (first.(path_lifetime) =? parsed.(path_lifetime)))
                  e.(ex_transits) then None
        else
          let keep transits :=
            Some {| ex_updates := e.(ex_updates); ex_targets := e.(ex_targets);
                    ex_transits := transits; descriptor_allowed := false |} in
          match List.find (fun t => bool_decide (t.(parent_address) = parsed.(parent_address)))
                  e.(ex_transits) with
          | Some existing => if bool_decide (existing = parsed) then keep e.(ex_transits) else None
          | None =>
              if (length e.(ex_transits) =? MAX_DAO_UPDATES)%nat then None
              else keep (e.(ex_transits) ++ [parsed])
          end
    end.

Definition extract_option (e : Extraction) (o : RawOption) : option Extraction :=
  if o.(opt_type) =? OPT_RPL_TARGET then extract_target e o.(opt_data)
  else if o.(opt_type) =? OPT_RPL_TARGET_DESCRIPTOR then extract_descriptor e o.(opt_data)
  else if o.(opt_type) =? OPT_TRANSIT_INFO then extract_transit e o.(opt_data)
  else None.

Fixpoint extract_options (e : Extraction) (opts : list RawOption) : option Extraction :=
  match opts with
  | [] => Some e
  | o :: opts => e ← extract_option e o; extract_options e opts
  end.

Definition extract_updates (dao : Dao) (dao_bytes : bytes) : option (list DaoUpdate) :=
  if negb (dao.(dao_flags) =? 0) then None
  else if negb (default 1 (dao_bytes !! 2%nat) =? 0) then None
  else
    match options (dao_options_tail dao_bytes) with
    | Err _ => None
    | Ok opts =>
        e ← extract_options {| ex_updates := []; ex_targets := []; ex_transits := [];
                               descriptor_allowed := false |} opts;
        finish_group e.(ex_updates) e.(ex_targets) e.(ex_transits)
    end.

Definition is_link_local_prefix (a : bytes) : bool :=
  (nth 0 a 0 =? 254) && (Z.land (nth 1 a 0) 192 =? 128).

(** Whether the immediate sender may carry an origin's parent [p]. *)
Definition parent_authorized (origin root sender_iid p : bytes) : bool :=
  is_canonical_link_local p
  && (if bool_decide (drop 8 p = drop 8 root) then bool_decide (drop 8 origin = sender_iid)
      else bool_decide (drop 8 p = sender_iid)).

Fixpoint sender_scan (updates : list DaoUpdate) (origin root sender_iid : bytes) (found_origin : bool) :
    bool :=
  match updates with
  | [] => found_origin
  | u :: updates =>
      if negb (bool_decide (u.(target) = origin)) then sender_scan updates origin root sender_iid found_origin
      else if is_link_local_prefix origin && negb (parent_authorized origin root sender_iid u.(parent))
      then false
      else sender_scan updates origin root sender_iid true
  end.
Definition sender_is_authorized (updates : list DaoUpdate) (origin root sender_iid : bytes) : bool :=
  sender_scan updates origin root sender_iid false.

(** ** The manager's state *)

Record Freshness := {
  fr_sequence : Z;
  active_until : option Z;
  retain_until : option Z;
  updated_at : Z
}.

Definition freshness_new (sequence : Z) (active : option Z) (updated : Z) : Freshness :=
  {| fr_sequence := sequence; active_until := active;
     retain_until :=
       (fun deadline => saturating_add u64_max deadline FRESHNESS_TOMBSTONE_RETENTION_SECONDS) <$> active;
     updated_at := updated |}.
Definition is_reclaimable (f : Freshness) (now : Z) : bool :=
  match f.(retain_until) with Some deadline => deadline <=? now | None => false end.

Record DaoTiming := { now_seconds : Z; lifetime_unit_seconds : Z; max_deadline_seconds : Z }.
Record DaoStateLimits := {
  max_targets : nat;
  max_candidates_per_target : nat;
  max_candidates : nat
}.
Definition PRODUCTION : DaoStateLimits :=
  {| max_targets := MAX_PATH_SEQUENCES; max_candidates_per_target := MAX_PARENT_EDGES;
     max_candidates := MAX_PARENT_EDGES |}.

(** What the transaction on the route state changes. *)
Record RouteState := {
  routing_table : RoutingTable;
  parent_map : ParentMap;
  edge_expiry : gmap (bytes * bytes) (option Z);
  origin_seq_map : gmap bytes Freshness;
  path_seq_map : gmap bytes Freshness;
  candidate_map : CandidateMap;
  descriptor_map : gmap bytes (option Z)
}.

Record DaoManager := {
  node_address : bytes;
  dm_is_root : bool;
  dm_instance : Z;
  dm_dodag_id : bytes;
  dm_sequence : Z;
  dm_path_sequence : Z;
  last_built_dao : option (bytes * Z);
  route_state : RouteState;
  origin_high_water : gmap bytes (bytes * Z);
  prefix_delegations : PrefixDelegations
}.

Definition manager_new (node : bytes) (instance : Z) (dodag : bytes) : DaoManager :=
  {| node_address := node; dm_is_root := false; dm_instance := instance; dm_dodag_id := dodag;
     dm_sequence := 240; dm_path_sequence := 240; last_built_dao := None;
     route_state := {| routing_table := table_new; parent_map := ∅; edge_expiry := ∅;
       origin_seq_map := ∅; path_seq_map := ∅; candidate_map := ∅; descriptor_map := ∅ |};
     origin_high_water := ∅; prefix_delegations := ∅ |}.
Definition manager_as_root (node : bytes) (instance : Z) (dodag : bytes) : DaoManager :=
  let m := manager_new node instance dodag in
  {| node_address := m.(node_address); dm_is_root := true; dm_instance := m.(dm_instance);
     dm_dodag_id := m.(dm_dodag_id); dm_sequence := m.(dm_sequence);
     dm_path_sequence := m.(dm_path_sequence); last_built_dao := m.(last_built_dao);
     route_state := m.(route_state); origin_high_water := m.(origin_high_water);
     prefix_delegations := m.(prefix_delegations) |}.

Definition set_state (m : DaoManager) (s : RouteState) : DaoManager :=
  {| node_address := m.(node_address); dm_is_root := m.(dm_is_root); dm_instance := m.(dm_instance);
     dm_dodag_id := m.(dm_dodag_id); dm_sequence := m.(dm_sequence);
     dm_path_sequence := m.(dm_path_sequence); last_built_dao := m.(last_built_dao);
     route_state := s; origin_high_water := m.(origin_high_water);
     prefix_delegations := m.(prefix_delegations) |}.

Definition delegate_prefix (m : DaoManager) (public_key prefix : bytes) (prefix_len : Z) :
    result PrefixDelegationError DaoManager :=
  d ← delegate m.(prefix_delegations) public_key prefix prefix_len;
  Ok {| node_address := m.(node_address); dm_is_root := m.(dm_is_root); dm_instance := m.(dm_instance);
        dm_dodag_id := m.(dm_dodag_id); dm_sequence := m.(dm_sequence);
        dm_path_sequence := m.(dm_path_sequence); last_built_dao := m.(last_built_dao);
        route_state := m.(route_state); origin_high_water := m.(origin_high_water);
        prefix_delegations := d |}.

(** ** Building DAOs *)

(** The octets of the DAO; [None] is a panic of an [expect], which the writes of
    an instance identifier of 192 or more cause. *)
Definition build_dao_inner (m : DaoManager) (parent_addr : bytes) (path_lifetime : Z) : option bytes :=
  let dao := {| dao_instance := m.(dm_instance); ack_requested := false; dao_flags := 0;
                dao_sequence := m.(dm_sequence); dao_dodag_id := Some m.(dm_dodag_id) |} in
  match dao_write_to dao (replicate 64 0) with
  | (Err _, _) => None
  | (Ok pos, buf) =>
      match target_write_to {| prefix_len := 128; prefix := m.(node_address) |} (replicate 24 0) with
      | (Err _, _) => None
      | (Ok n, tmp) =>
          let buf := list_inserts pos (take n tmp) buf in
          let pos := (pos + n)%nat in
          let transit := {| external := false; path_control := 128;
                            path_sequence := m.(dm_path_sequence); path_lifetime := path_lifetime;
                            parent_address := parent_addr |} in
          match transit_write_to transit (drop pos buf) with
          | (Err _, _) => None
          | (Ok n, rest) => Some (take (pos + n) (take pos buf ++ rest))
          end
      end
  end.

Definition set_sequences (m : DaoManager) (dao_seq path_seq : Z) (last : option (bytes * Z)) : DaoManager :=
  {| node_address := m.(node_address); dm_is_root := m.(dm_is_root); dm_instance := m.(dm_instance);
     dm_dodag_id := m.(dm_dodag_id); dm_sequence := dao_seq; dm_path_sequence := path_seq;
     last_built_dao := last; route_state := m.(route_state);
     origin_high_water := m.(origin_high_water); prefix_delegations := m.(prefix_delegations) |}.

Definition build_dao_with_lifetime (m : DaoManager) (parent_addr : bytes) (path_lifetime : Z) :
    option (bytes * DaoManager) :=
  let m := set_sequences m (increment_lollipop m.(dm_sequence))
             (increment_lollipop m.(dm_path_sequence)) m.(last_built_dao) in
  wire ← build_dao_inner m parent_addr path_lifetime;
  Some (wire, set_sequences m m.(dm_sequence) m.(dm_path_sequence) (Some (parent_addr, path_lifetime))).
Definition build_dao (m : DaoManager) (parent_addr : bytes) : option (bytes * DaoManager) :=
  build_dao_with_lifetime m parent_addr 255.
Definition build_dao_copy_with_lifetime (m : DaoManager) (parent_addr : bytes) (path_lifetime : Z) :
    option (option bytes * DaoManager) :=
  if negb (bool_decide (m.(last_built_dao) = Some (parent_addr, path_lifetime))) then Some (None, m)
  else
    let m := set_sequences m (increment_lollipop m.(dm_sequence)) m.(dm_path_sequence)
               m.(last_built_dao) in
    wire ← build_dao_inner m parent_addr path_lifetime;
    Some (Some wire, m).

(** ** Deadlines and freshness records *)

Definition is_active (deadline : option Z) (now : Z) : bool :=
  match deadline with Some deadline => now <? deadline | None => true end.
Definition max_deadline (left right : option Z) : option Z :=
  match left, right with Some l, Some r => Some (Z.max l r) | _, _ => None end.

Definition lex_le (a b : bytes) : Prop := list_cmp Z.compare a b <> Gt.
#[export] Instance lex_le_dec a b : Decision (lex_le a b) := _.
Definition candidate_cmp (a b : DaoCandidate) : comparison :=
  match list_cmp Z.compare a.(dc_parent) b.(dc_parent) with
  | Eq => match Z.compare a.(dc_control) b.(dc_control) with
          | Eq => Z.compare a.(dc_lifetime) b.(dc_lifetime) | c => c end
  | c => c
  end.
Definition candidate_le (a b : DaoCandidate) : Prop := candidate_cmp a b <> Gt.
#[export] Instance candidate_le_dec a b : Decision (candidate_le a b) := _.

(** [Vec::dedup] *)
Fixpoint dedup (l : list DaoCandidate) : list DaoCandidate :=
  match l with
  | [] => []
  | x :: l => match dedup l with
              | [] => [x]
              | y :: r => if decide (x = y) then y :: r else x :: y :: r
              end
  end.

Definition drop_expired (expiry : gmap (bytes * bytes) (option Z)) (now : Z) :
    gmap (bytes * bytes) (option Z) :=
  filter (fun '(_, deadline) => is_active deadline now = true) expiry.
Definition live_parents (expiry : gmap (bytes * bytes) (option Z)) (parents : ParentMap) : ParentMap :=
  map_imap (fun t ps =>
    match filter (fun p => is_Some (expiry !! (t, p))) ps with [] => None | ps => Some ps end) parents.

Section manager.
Context `{HashIter}.

Definition target_active_until (t : bytes) (expiry : gmap (bytes * bytes) (option Z)) (fallback : Z) :
    option Z :=
  foldl max_deadline (Some fallback)
    (snd <$> List.filter (fun kv => bool_decide (fst (fst kv) = t)) (hash_iter expiry)).

(** The oldest reclaimable record, by update time and then by key. *)
Definition reclaim_cmp (x y : bytes * Freshness) : comparison :=
  match Z.compare (snd x).(updated_at) (snd y).(updated_at) with
  | Eq => list_cmp Z.compare (fst x) (fst y) | c => c end.

Definition make_freshness_room (map : gmap bytes Freshness) (limit : nat) (now : Z)
    (protected : gset bytes) : bool * gmap bytes Freshness :=
  if (size map <? limit)%nat then (true, map)
  else
    match min_by reclaim_cmp
            (List.filter (fun kv => negb (bool_decide (fst kv ∈ protected)) && is_reclaimable (snd kv) now)
               (hash_iter map)) with
    | Some (key, _) => (bool_decide (is_Some (map !! key)), delete key map)
    | None => (false, map)
    end.

(** ** The transaction *)

(** The updates by target: candidates in order of appearance, and descriptors,
    which have to agree. *)
Fixpoint incoming (updates : list DaoUpdate) (cands : CandidateMap) (descs : gmap bytes (option Z)) :
    result unit (CandidateMap * gmap bytes (option Z)) :=
  match updates with
  | [] => Ok (cands, descs)
  | u :: updates =>
      if match descs !! u.(target) with
         | Some d => negb (bool_decide (d = u.(descriptor)))
         | None => false
         end then Err tt
      else
        let c := {| dc_parent := u.(parent); dc_control := u.(up_control); dc_lifetime := u.(up_lifetime) |} in
        incoming updates (<[u.(target) := default [] (cands !! u.(target)) ++ [c]]> cands)
          (<[u.(target) := u.(descriptor)]> descs)
  end.
Definition sort_candidates (l : list DaoCandidate) : list DaoCandidate :=
  dedup (merge_sort candidate_le l).

(** The path sequence of a target's first update; there is one for every target
    that is asked for. *)
Definition sequence_of (updates : list DaoUpdate) (t : bytes) : Z :=
  match List.find (fun u => bool_decide (u.(target) = t)) updates with
  | Some u => u.(up_sequence)
  | None => 0
  end.

(** The proposal while targets are replaced. *)
Record Proposal := {
  pr_parents : ParentMap;
  pr_expiry : gmap (bytes * bytes) (option Z);
  pr_candidates : CandidateMap;
  pr_descriptors : gmap bytes (option Z);
  changed_targets : gmap bytes ()
}.

Definition replace_target (updates : list DaoUpdate) (path_sequences : gmap bytes Freshness)
    (descs : gmap bytes (option Z)) (p : Proposal) (t : bytes) (cands : list DaoCandidate) :
    result unit Proposal :=
  let sequence := sequence_of updates t in
  let desc := default None (descs !! t) in
  let install p :=
    Ok {| pr_parents := p.(pr_parents); pr_expiry := p.(pr_expiry);
          pr_candidates := <[t := cands]> p.(pr_candidates);
          pr_descriptors := <[t := desc]> p.(pr_descriptors);
          changed_targets := <[t := ()]> p.(changed_targets) |} in
  match path_sequences !! t with
  | None => install p
  | Some last =>
      if sequence =? last.(fr_sequence) then
        if bool_decide (p.(pr_candidates) !! t = Some cands)
           && bool_decide (default None (p.(pr_descriptors) !! t) = desc)
        then Ok p else Err tt
      else if negb (seq_is_newer sequence last.(fr_sequence)) then Err tt
      else
        match p.(pr_parents) !! t with
        | Some ps =>
            install {| pr_parents := delete t p.(pr_parents);
                       pr_expiry := foldl (fun e q => delete (t, q) e) p.(pr_expiry) ps;
                       pr_candidates := p.(pr_candidates); pr_descriptors := p.(pr_descriptors);
                       changed_targets := p.(changed_targets) |}
        | None => install p
        end
  end.

Fixpoint replace_targets (updates : list DaoUpdate) (path_sequences : gmap bytes Freshness)
    (descs : gmap bytes (option Z)) (l : list (bytes * list DaoCandidate)) (p : Proposal) :
    result unit Proposal :=
  match l with
  | [] => Ok p
  | (t, cands) :: l =>
      p ← replace_target updates path_sequences descs p t cands;
      replace_targets updates path_sequences descs l p
  end.

Definition expires_at (timing : DaoTiming) (lifetime : Z) : result unit (option Z) :=
  if (lifetime =? 0) || (lifetime =? 255) then Ok None
  else
    match checked_mul u64_max (Z.max lifetime 1) timing.(lifetime_unit_seconds) with
    | None => Err tt
    | Some duration =>
        match checked_add u64_max timing.(now_seconds) duration with
        | None => Err tt
        | Some deadline =>
            if timing.(max_deadline_seconds) <? deadline then Err tt else Ok (Some deadline)
        end
    end.

(** The edges of the changed targets. *)
Fixpoint install_edges (timing : DaoTiming) (changed : gmap bytes ()) (updates : list DaoUpdate)
    (parents : ParentMap) (expiry : gmap (bytes * bytes) (option Z)) :
    result unit (ParentMap * gmap (bytes * bytes) (option Z)) :=
  match updates with
  | [] => Ok (parents, expiry)
  | u :: updates =>
      if bool_decide (changed !! u.(target) = None) then install_edges timing changed updates parents expiry
      else
        deadline ← expires_at timing u.(up_lifetime);
        if u.(up_lifetime) =? 0 then install_edges timing changed updates parents expiry
        else
          let ps := default [] (parents !! u.(target)) in
          let ps := if bool_decide (u.(parent) ∈ ps) then ps else merge_sort lex_le (ps ++ [u.(parent)]) in
          install_edges timing changed updates (<[u.(target) := ps]> parents)
            (<[(u.(target), u.(parent)) := deadline]> expiry)
  end.

Fixpoint stamp_targets (updates : list DaoUpdate) (expiry : gmap (bytes * bytes) (option Z))
    (limit : nat) (now : Z) (protected : gset bytes) (l : list bytes) (seqs : gmap bytes Freshness) :
    result unit (gmap bytes Freshness) :=
  match l with
  | [] => Ok seqs
  | t :: l =>
      let active := target_active_until t expiry now in
      seqs ←
        (if bool_decide (seqs !! t = None) then
           let '(ok, seqs) := make_freshness_room seqs limit now protected in
           if (ok : bool) then Ok seqs else Err tt
         else Ok seqs);
      stamp_targets updates expiry limit now protected l
        (<[t := freshness_new (sequence_of updates t) active now]> seqs)
  end.

Definition scope_ok (m : DaoManager) (dao : Dao) : bool :=
  (dao.(dao_instance) =? m.(dm_instance))
  && match dao.(dao_dodag_id) with
     | Some id => bool_decide (id = replicate 16 0) || bool_decide (id = m.(dm_dodag_id))
     | None => true
     end.

Definition process_dao_inner (m : DaoManager) (dao : Dao) (updates : list DaoUpdate) (origin : bytes)
    (skip_dao_sequence_check : bool) (timing : DaoTiming) (limits : DaoStateLimits) :
    result unit (bool * DaoManager) :=
  let now := timing.(now_seconds) in
  let s := m.(route_state) in
  if negb m.(dm_is_root) then Err tt
  else if negb (scope_ok m dao) then Err tt
  else if negb skip_dao_sequence_check
          && match s.(origin_seq_map) !! origin with
             | Some last => negb (seq_is_newer dao.(dao_sequence) last.(fr_sequence))
             | None => false
             end then Err tt
  else
    let expiry := drop_expired s.(edge_expiry) now in
    let parents := live_parents expiry s.(parent_map) in
    inc ← incoming updates ∅ ∅;
    let '(raw_candidates, descs) := inc in
    let cands := sort_candidates <$> raw_candidates in
    if existsb (fun c => bool_decide (path_control_rank c.(dc_control) = None))
         (concat (snd <$> map_to_list cands)) then Err tt
    else if (timing.(lifetime_unit_seconds) =? 0)
            && existsb (fun u => negb (u.(up_lifetime) =? 255)) updates then Err tt
    else
      p ← replace_targets updates s.(path_seq_map) descs (hash_iter cands)
            {| pr_parents := parents; pr_expiry := expiry; pr_candidates := s.(candidate_map);
               pr_descriptors := s.(descriptor_map); changed_targets := ∅ |};
      edges ← install_edges timing p.(changed_targets) updates p.(pr_parents) p.(pr_expiry);
      let '(parents, expiry) := edges in
      path_sequences ← stamp_targets updates expiry limits.(max_targets) now (dom cands)
                         (fst <$> hash_iter p.(changed_targets)) s.(path_seq_map);
      let candidates := filter (fun '(t, _) => is_Some (path_sequences !! t)) p.(pr_candidates) in
      let descriptors := filter (fun '(t, _) => is_Some (path_sequences !! t)) p.(pr_descriptors) in
      origin_sequences ←
        (if bool_decide (s.(origin_seq_map) !! origin = None) then
           let '(ok, seqs) := make_freshness_room s.(origin_seq_map) MAX_DAO_ORIGINS now ∅ in
           if (ok : bool) then Ok seqs else Err tt
         else Ok s.(origin_seq_map));
      let origin_active_until :=
        foldl max_deadline (Some now) ((fun u => target_active_until u.(target) expiry now) <$> updates) in
      let origin_sequences := <[origin := freshness_new dao.(dao_sequence) origin_active_until now]>
                                origin_sequences in
      if (limits.(max_candidates) <? size expiry)%nat
         || existsb (fun kv => (limits.(max_candidates_per_target) <? length (snd kv))%nat)
              (map_to_list candidates)
         || (limits.(max_targets) <? size path_sequences)%nat
         || (MAX_DAO_ORIGINS <? size origin_sequences)%nat then Err tt
      else if negb (bool_decide (contains_cycle parents = Some false)) then Err tt
      else
        match rebuilt_routes m.(node_address) parents candidates s.(routing_table) with
        | None => Err tt
        | Some table =>
            let changed :=
              negb (bool_decide (p.(changed_targets) = ∅))
              || negb (bool_decide (parents = s.(parent_map)))
              || negb (bool_decide (expiry = s.(edge_expiry)))
              || negb (bool_decide (table.(routes) = s.(routing_table).(routes))) in
            Ok (changed,
                set_state m
                  {| routing_table := table; parent_map := parents; edge_expiry := expiry;
                     origin_seq_map := origin_sequences; path_seq_map := path_sequences;
                     candidate_map := candidates; descriptor_map := descriptors |})
        end.

(** ** Expiry *)

Definition expire_routes (m : DaoManager) (now : Z) : bool * DaoManager :=
  let s := m.(route_state) in
  let expiry := drop_expired s.(edge_expiry) now in
  let parents := live_parents expiry s.(parent_map) in
  match rebuilt_routes m.(node_address) parents s.(candidate_map) s.(routing_table) with
  | None => (false, m)
  | Some table =>
      (negb (bool_decide (expiry = s.(edge_expiry)))
       || negb (bool_decide (parents = s.(parent_map)))
       || negb (bool_decide (table.(routes) = s.(routing_table).(routes))),
       set_state m
         {| routing_table := table; parent_map := parents; edge_expiry := expiry;
            origin_seq_map := s.(origin_seq_map); path_seq_map := s.(path_seq_map);
            candidate_map := s.(candidate_map); descriptor_map := s.(descriptor_map) |})
  end.

End manager.

End RplDao.
