(* ===== verification/RplDaoInv.v ===== *)
(** * Invariant of the root's route state

    What every DAO, expiry and table change keeps: parent map and edge deadlines
    describe the same acyclic graph, every edge is covered by a freshness record
    that outlives it, tables are bounded, and the installed host routes are
    exactly the ones the graph gives. *)

From stdpp Require Import sorting.
From S2P Require Import Prelude RplMessage RplTable RplRoutes RplDao.

Module RplDaoInv.
Import RplMessage RplTable RplRoutes RplDao.

Abbreviation Expiry := (gmap (bytes * bytes) (option Z)).

(** ** Edges *)

(** The two maps hold the same edges. *)
Record edges_ok (parents : ParentMap) (expiry : Expiry) : Prop := {
  eo_edge : forall t p, is_Some (expiry !! (t, p)) <-> exists ps, parents !! t = Some ps /\ p ∈ ps;
  eo_ne : forall t ps, parents !! t = Some ps -> ps <> [] /\ NoDup ps
}.

Definition keys16 {A} (m : gmap bytes A) : Prop := forall t a, m !! t = Some a -> length t = 16%nat.

Lemma live_lookup expiry parents t ps :
  live_parents expiry parents !! t = Some ps <->
  exists ps0, parents !! t = Some ps0 /\ ps = filter (fun p => is_Some (expiry !! (t, p))) ps0 /\ ps <> [].
Proof.
  unfold live_parents. rewrite map_lookup_imap. destruct (parents !! t) as [ps0 |]; simpl.
  - destruct (filter _ ps0) as [| q l] eqn:Hf; split.
    + done.
    + intros (ps1 & [= <-] & -> & Hne). by rewrite Hf in Hne.
    + intros [= <-]. exists ps0. by rewrite Hf.
    + intros (ps1 & [= <-] & -> & Hne). by rewrite Hf.
  - split; [done | by intros (? & ? & _)].
Qed.

Lemma drop_expired_lookup expiry now k d :
  drop_expired expiry now !! k = Some d <-> expiry !! k = Some d /\ is_active d now = true.
Proof. apply map_lookup_filter_Some. Qed.

Lemma live_edges parents expiry now : edges_ok parents expiry ->
  edges_ok (live_parents (drop_expired expiry now) parents) (drop_expired expiry now).
Proof.
  intros [He Hn]. set (e' := drop_expired expiry now). split.
  - intros t p. split.
    + intros Hp. assert (is_Some (expiry !! (t, p))) as Hold.
      { destruct Hp as [d Hd]. apply drop_expired_lookup in Hd as [Hd _]. by exists d. }
      apply He in Hold as (ps & Hps & Hin).
      assert (p ∈ filter (fun p => is_Some (e' !! (t, p))) ps) as Hf by (by apply list_elem_of_filter).
      eexists. split; [| exact Hf]. apply live_lookup. exists ps. split_and!; [done | done |].
      intros Hnil. rewrite Hnil in Hf. by apply not_elem_of_nil in Hf.
    + intros (ps & Hl & Hin). apply live_lookup in Hl as (ps0 & _ & -> & _).
      by apply list_elem_of_filter in Hin as [Hs _].
  - intros t ps Hl. apply live_lookup in Hl as (ps0 & Hps & -> & Hne). split; [done |].
    apply NoDup_filter. by apply (Hn t).
Qed.

Lemma live_keys parents expiry : keys16 parents -> keys16 (live_parents expiry parents).
Proof. intros Hk t ps Hl. apply live_lookup in Hl as (ps0 & Hps & _). by eapply Hk. Qed.

Lemma live_edge_sub parents expiry a b : edge (live_parents expiry parents) a b -> edge parents a b.
Proof.
  intros (ps & Hl & Hin). apply live_lookup in Hl as (ps0 & Hps & -> & _).
  apply list_elem_of_filter in Hin as [_ Hin]. by exists ps0.
Qed.

Lemma acyclic_sub (m m' : ParentMap) :
  (forall a b, edge m a b -> edge m' a b) -> ~ cyclic m' -> ~ cyclic m.
Proof.
  intros Hs Hc [x Hx]. apply Hc. exists x. revert Hx. generalize x at 1 3. intros y Hy.
  induction Hy; [by apply tc_once, Hs | eapply tc_l; [by apply Hs | done]].
Qed.

(** Removing a target with all its edges. *)
Lemma delete_edges_lookup (t : bytes) (ps : list bytes) (expiry : Expiry) (k : bytes * bytes) :
  foldl (fun e q => delete (t, q) e) expiry ps !! k =
    if decide (fst k = t /\ snd k ∈ ps) then None else expiry !! k.
Proof.
  revert expiry. induction ps as [| q ps IH]; intros expiry; simpl.
  - rewrite decide_False; [done |]. intros [_ Hin]. by apply not_elem_of_nil in Hin.
  - rewrite IH. destruct k as [k1 k2]; cbn [fst snd] in *.
    destruct (decide (k1 = t /\ k2 ∈ ps)) as [[-> Hin] | Hno].
    + rewrite decide_True by (split; [done | by right]). done.
    + destruct (decide (k1 = t /\ k2 = q)) as [[-> ->] | Hnq].
      * rewrite lookup_delete_eq, decide_True by (split; [done | by left]). done.
      * rewrite lookup_delete_ne by (intros [= -> ->]; by apply Hnq).
        rewrite decide_False; [done |]. intros [-> [-> | Hin]%elem_of_cons]; [by apply Hnq | by apply Hno].
Qed.

Lemma remove_target_edges parents expiry t ps : edges_ok parents expiry -> parents !! t = Some ps ->
  let expiry' := foldl (fun e q => delete (t, q) e) expiry ps in
  edges_ok (delete t parents) expiry' /\ expiry' ⊆ expiry /\ (forall p, expiry' !! (t, p) = None).
Proof.
  intros [He Hn] Ht expiry'. subst expiry'.
  assert (forall p, foldl (fun e q => delete (t, q) e) expiry ps !! (t, p) = None) as Hnone.
  { intros p. rewrite delete_edges_lookup. case_decide as Hd; [done |].
    apply eq_None_not_Some. intros Hs. apply He in Hs as (ps' & Hps' & Hin). simplify_eq. by apply Hd. }
  split_and!; [| | done].
  - split.
    + intros t' p. destruct (decide (t' = t)) as [-> | Hne].
      * rewrite Hnone. split; [by intros [? ?] |]. intros (ps' & Hl & _). by rewrite lookup_delete_eq in Hl.
      * rewrite delete_edges_lookup, decide_False by (cbn; intros [? _]; done). rewrite He.
        by rewrite lookup_delete_ne.
    + intros t' ps' [_ Hl]%lookup_delete_Some. by apply (Hn t').
  - apply map_subseteq_spec. intros k d. rewrite delete_edges_lookup. by case_decide.
Qed.

(** ** Replacing targets *)

(** A proposal that started as [p0] and has given up the edges of its changed
    targets, which the updates name with newer path sequences. *)
Record staged (updates : list DaoUpdate) (seqs : gmap bytes Freshness) (p0 p : Proposal) : Prop := {
  sg_edges : edges_ok p.(pr_parents) p.(pr_expiry);
  sg_keys : keys16 p.(pr_parents);
  sg_sub : p.(pr_expiry) ⊆ p0.(pr_expiry);
  sg_gone : forall t q, is_Some (p.(changed_targets) !! t) -> p.(pr_expiry) !! (t, q) = None;
  sg_newer : forall t last, is_Some (p.(changed_targets) !! t) -> seqs !! t = Some last ->
    seq_is_newer (sequence_of updates t) last.(fr_sequence) = true;
  sg_cands : forall t, is_Some (p.(pr_candidates) !! t) <->
    is_Some (p0.(pr_candidates) !! t) \/ is_Some (p.(changed_targets) !! t)
}.

Lemma staged_install updates seqs p0 p parents expiry t cands desc : staged updates seqs p0 p ->
  edges_ok parents expiry -> keys16 parents -> expiry ⊆ p.(pr_expiry) ->
  (forall q, expiry !! (t, q) = None) ->
  (forall last, seqs !! t = Some last -> seq_is_newer (sequence_of updates t) last.(fr_sequence) = true) ->
  staged updates seqs p0
    {| pr_parents := parents; pr_expiry := expiry; pr_candidates := <[t := cands]> p.(pr_candidates);
       pr_descriptors := desc; changed_targets := <[t := ()]> p.(changed_targets) |}.
Proof.
  intros [H1 H2 H3 H4 H5 H6] He Hk Hsub Hgone Hnew. split; cbn; try done.
  - by etrans.
  - intros t' q. destruct (decide (t' = t)) as [-> | Hne]; [done |].
    rewrite lookup_insert_ne by done. intros Hc. specialize (H4 t' q Hc).
    destruct (expiry !! (t', q)) eqn:Hl; [| done].
    apply (lookup_weaken _ _ _ _ Hl) in Hsub. congruence.
  - intros t' last. destruct (decide (t' = t)) as [-> | Hne]; [auto |].
    rewrite lookup_insert_ne by done. apply H5.
  - intros t'. rewrite !lookup_insert_is_Some', H6. tauto.
Qed.

Lemma replace_target_ok updates seqs descs p0 p t cands p' : staged updates seqs p0 p ->
  (forall q, is_Some (p.(pr_expiry) !! (t, q)) -> is_Some (seqs !! t)) ->
  replace_target updates seqs descs p t cands = Ok p' -> staged updates seqs p0 p'.
Proof.
  intros Hs Hcov. unfold replace_target. pose proof Hs as [H1 H2 H3 H4 H5 H6].
  destruct (seqs !! t) as [last |] eqn:Hl.
  - destruct (_ =? _); [destruct (_ && _); [by intros [= <-] | done] |].
    destruct (negb (seq_is_newer _ _)) eqn:Hn; [done |]. apply negb_false_iff in Hn.
    destruct (pr_parents p !! t) as [ps |] eqn:Hp; intros [= <-].
    + destruct (remove_target_edges _ _ _ _ H1 Hp) as (He & Hsub & Hgone).
      apply staged_install; try done.
      * intros t' ps' [_ Ht']%lookup_delete_Some. by eapply H2.
      * intros last' Hl'. by simplify_eq.
    + apply staged_install; try done.
      * intros q. apply eq_None_not_Some. intros Hq. apply (eo_edge _ _ H1) in Hq as (ps & Hps & _). congruence.
      * intros last' Hl'. by simplify_eq.
  - intros [= <-]. apply staged_install; try done; [| by intros last' Hl'; simplify_eq].
    intros q. apply eq_None_not_Some. intros Hq. destruct (Hcov q Hq) as [? ?]. done.
Qed.

Lemma replace_targets_ok updates seqs descs p0 l p p' : staged updates seqs p0 p ->
  (forall t q, is_Some (p0.(pr_expiry) !! (t, q)) -> is_Some (seqs !! t)) ->
  replace_targets updates seqs descs l p = Ok p' -> staged updates seqs p0 p'.
Proof.
  intros Hs Hcov. revert p Hs. induction l as [| [t cands] l IH]; intros p Hs; simpl; [by intros [= <-] |].
  destruct (replace_target _ _ _ _ _ _) as [p1 |] eqn:Hr; simpl; [| done]. apply IH.
  eapply replace_target_ok; [done | | done]. intros q [d Hd].
  eapply Hcov. exists d. eapply lookup_weaken; [done | apply (sg_sub _ _ _ _ Hs)].
Qed.

(** ** Installing edges *)

Definition deadline_le (a b : option Z) : Prop :=
  match a, b with _, None => True | Some x, Some y => x <= y | None, Some _ => False end.

Lemma expires_at_bound timing l x : expires_at timing l = Ok (Some x) -> x <= u64_max.
Proof.
  unfold expires_at. destruct (_ || _); [done |]. destruct (checked_mul _ _ _) as [d |]; [| done].
  unfold checked_add. destruct (_ <=? u64_max) eqn:Hle; bool_to_prop; simpl; [| done].
  destruct (_ <? _); [done |]. by intros [= <-].
Qed.

(** What installing the edges of the changed targets does to the maps. *)
Lemma install_edges_ok timing changed updates : forall parents expiry parents' expiry',
  edges_ok parents expiry -> keys16 parents -> Forall (fun u => length u.(target) = 16%nat) updates ->
  install_edges timing changed updates parents expiry = Ok (parents', expiry') ->
  edges_ok parents' expiry' /\ keys16 parents' /\
  (forall t q, changed !! t = None -> expiry' !! (t, q) = expiry !! (t, q)) /\
  (forall k x, expiry' !! k = Some (Some x) -> expiry !! k = Some (Some x) \/ x <= u64_max).
Proof.
  induction updates as [| u updates IH]; intros parents expiry parents' expiry' He Hk Hl;
    cbn [install_edges]; [intros [= <- <-]; by eauto |].
  apply Forall_cons in Hl as [Hu Hl]. case_bool_decide as Hc; [by apply IH |].
  destruct (expires_at timing (up_lifetime u)) as [deadline |] eqn:Hd; simpl; [| done].
  destruct (up_lifetime u =? 0); [by apply IH |]. set (ps0 := default [] (parents !! target u)).
  set (ps := if bool_decide _ then ps0 else _). intros Hi.
  assert ((forall q, q ∈ ps <-> q = parent u \/ q ∈ ps0) /\ NoDup ps) as [Hin Hnd].
  { assert (NoDup ps0) as Hnd0.
    { subst ps0. destruct (parents !! target u) eqn:Hp; simpl; [by apply (eo_ne _ _ He (target u)) | constructor]. }
    subst ps. case_bool_decide as Hin; [split; [set_solver | done] |].
    split; [intros q; rewrite merge_sort_Permutation; set_solver |].
    rewrite merge_sort_Permutation. apply NoDup_app. split_and!; [done | set_solver | apply NoDup_singleton]. }
  apply IH in Hi as (He' & Hk' & Hsame & Hbound); [split_and!; [done | done | |] | | | done].
  - intros t q Ht. rewrite Hsame by done. rewrite lookup_insert_ne; [done |]. intros [= Ht' _]. apply Hc. by rewrite Ht'.
  - intros k x Hx. apply Hbound in Hx as [Hx | Hx]; [| by right].
    apply lookup_insert_Some in Hx as [[_ Hx] | [_ Hx]]; [right; subst deadline | by left].
    by eapply expires_at_bound.
  - split.
    + intros t q. rewrite lookup_insert_is_Some', (eo_edge _ _ He).
      destruct (decide (t = target u)) as [-> | Hne].
      * rewrite lookup_insert_eq. split.
        -- intros [[= Hq] | (ps' & Hps' & Hq)]; exists ps; (split; [done |]); apply Hin; [by left |].
           right. subst ps0. by rewrite Hps'.
        -- intros (ps' & [= <-] & Hq). apply Hin in Hq as [Hq | Hq]; [left; by rewrite Hq | right].
           subst ps0. destruct (parents !! target u) as [ps' |]; [by exists ps' | by apply not_elem_of_nil in Hq].
      * rewrite lookup_insert_ne by done. split; [intros [[= Ht _] | ?]; [by destruct Hne | done] | by right].
    + intros t ps' [[<- <-] | [_ Hp]]%lookup_insert_Some; [| by apply (eo_ne _ _ He t)].
      split; [| done]. intros Hnil. assert (parent u ∈ ps) as Hp by (apply Hin; by left).
      rewrite Hnil in Hp. by apply not_elem_of_nil in Hp.
  - intros t ps' [[<- <-] | [_ Hp]]%lookup_insert_Some; [done | by eapply Hk].
Qed.

(** ** Freshness records *)

Section freshness.
Context `{HashIter}.

Lemma deadline_le_refl d : deadline_le d d.
Proof. destruct d; simpl; [lia | done]. Qed.
Lemma deadline_le_trans a b c : deadline_le a b -> deadline_le b c -> deadline_le a c.
Proof. destruct a, b, c; simpl; try done; lia. Qed.

Lemma max_deadline_l a b : deadline_le a (max_deadline a b).
Proof. destruct a, b; simpl; try done; lia. Qed.
Lemma max_deadline_r a b : deadline_le b (max_deadline a b).
Proof. destruct a, b; simpl; try done; lia. Qed.

Lemma foldl_deadline l init : deadline_le init (foldl max_deadline init l) /\
  forall d, d ∈ l -> deadline_le d (foldl max_deadline init l).
Proof.
  revert init. induction l as [| x l IH]; intros init; simpl.
  - split; [apply deadline_le_refl | by intros d ?%not_elem_of_nil].
  - destruct (IH (max_deadline init x)) as [Hi Hall]. split.
    + eapply deadline_le_trans; [apply max_deadline_l | done].
    + intros d [-> | Hd]%elem_of_cons; [| by apply Hall].
      eapply deadline_le_trans; [apply max_deadline_r | done].
Qed.

(** The record of a target lasts as long as each of its edges. *)
Lemma target_active_until_ge t expiry now q d : expiry !! (t, q) = Some d ->
  deadline_le d (target_active_until t expiry now).
Proof.
  intros Hd. unfold target_active_until. apply foldl_deadline. apply list_elem_of_fmap.
  exists ((t, q), d). split; [done |]. apply list_elem_of_In, filter_In. split.
  - by apply list_elem_of_In, elem_of_hash_iter.
  - by apply bool_decide_eq_true_2.
Qed.

Lemma room_ok (m : gmap bytes Freshness) limit now protected m' :
  make_freshness_room m limit now protected = (true, m') ->
  m' = m \/ exists k f, m !! k = Some f /\ is_reclaimable f now = true /\
    (k ∉ protected) /\ m' = delete k m.
Proof.
  unfold make_freshness_room. destruct (_ <? _)%nat; [intros [= <-]; by left |].
  destruct (min_by _ _) as [[k f] |] eqn:Hm; [| done]. intros [= _ <-].
  apply min_by_elem, list_elem_of_In, filter_In in Hm as [Hin Hp]. apply list_elem_of_In, elem_of_hash_iter in Hin.
  apply andb_true_iff in Hp as [Hp Hr]. apply negb_true_iff, bool_decide_eq_false_1 in Hp.
  right. by exists k, f.
Qed.

(** A record that is kept, or one that could be reclaimed and is gone. *)
Definition kept_or_reclaimed (now : Z) (seqs seqs' : gmap bytes Freshness) (t : bytes) : Prop :=
  seqs' !! t = seqs !! t \/
  (seqs' !! t = None /\ exists f, seqs !! t = Some f /\ is_reclaimable f now = true).

Lemma stamp_targets_ok updates expiry limit now protected l : forall seqs seqs',
  Forall (fun t => t ∈ protected) l ->
  stamp_targets updates expiry limit now protected l seqs = Ok seqs' ->
  (forall t, t ∈ l -> seqs' !! t =
     Some (freshness_new (sequence_of updates t) (target_active_until t expiry now) now)) /\
  (forall t, t ∉ l -> kept_or_reclaimed now seqs seqs' t) /\
  (forall t, t ∉ l -> t ∈ protected -> seqs' !! t = seqs !! t).
Proof.
  induction l as [| t l IH]; intros seqs seqs' Hp; cbn [stamp_targets].
  { intros [= <-]. split_and!; [by intros t ?%not_elem_of_nil | by left | done]. }
  apply Forall_cons in Hp as [Ht Hp].
  destruct (if bool_decide (seqs !! t = None) then _ else _) as [seqs1 |] eqn:Hroom; simpl; [| done].
  assert (forall u, kept_or_reclaimed now seqs seqs1 u /\ (u ∈ protected -> seqs1 !! u = seqs !! u)) as H1.
  { intros u. case_bool_decide; [| simplify_eq; by split; [left |]].
    destruct (make_freshness_room _ _ _ _) as [[] s1] eqn:Hr; [| done]. simplify_eq.
    apply room_ok in Hr as [-> | (k & f & Hk & Hrec & Hnp & ->)]; [by split; [left |] |].
    destruct (decide (u = k)) as [-> | Hne].
    - split; [right; rewrite lookup_delete_eq; by eauto | done].
    - unfold kept_or_reclaimed. rewrite lookup_delete_ne by done. by split; [left |]. }
  set (f := freshness_new (sequence_of updates t) (target_active_until t expiry now) now).
  intros Hs. apply IH in Hs as (Hin & Hout & Hprot); [| done].
  assert (forall u, u ∉ l -> u ∈ protected -> seqs' !! u = <[t := f]> seqs1 !! u) as Hp' by done.
  split_and!.
  - intros u [-> | Hu]%elem_of_cons; [| by apply Hin].
    destruct (decide (t ∈ l)) as [Hl | Hl]; [by apply Hin |]. by rewrite Hp', lookup_insert_eq.
  - intros u [Hne Hl]%not_elem_of_cons. destruct (H1 u) as [H1u _]. specialize (Hout u Hl).
    unfold kept_or_reclaimed in *. rewrite lookup_insert_ne in Hout by done.
    destruct Hout as [-> | [Hnone (g & Hg & Hr)]]; [done |]. right. split; [done |].
    destruct H1u as [<- | [Hn _]]; [by eauto | congruence].
  - intros u [Hne Hl]%not_elem_of_cons Hu. rewrite Hp', lookup_insert_ne by done. by apply H1.
Qed.

(** Records outlive the edges they cover. *)
Definition covered (expiry : Expiry) (seqs : gmap bytes Freshness) : Prop :=
  forall t q d, expiry !! (t, q) = Some d ->
    exists f, seqs !! t = Some f /\ deadline_le d f.(active_until).

Definition retained (seqs : gmap bytes Freshness) : Prop :=
  forall t f, seqs !! t = Some f -> f.(retain_until) =
    (fun x => saturating_add u64_max x FRESHNESS_TOMBSTONE_RETENTION_SECONDS) <$> f.(active_until).

Lemma reclaimable_dead f now d : is_reclaimable f now = true ->
  f.(retain_until) = (fun x => saturating_add u64_max x FRESHNESS_TOMBSTONE_RETENTION_SECONDS) <$> f.(active_until) ->
  deadline_le d f.(active_until) -> is_active d now = true ->
  (forall x, d = Some x -> x <= u64_max) -> False.
Proof.
  unfold is_reclaimable. intros Hr Hret Hd Ha Hu. rewrite Hret in Hr. destruct f as [sq [a |] rt up]; cbn in *; [| done].
  destruct d as [x |]; [| done]. cbn in *. specialize (Hu x eq_refl). bool_to_prop.
  unfold saturating_add, FRESHNESS_TOMBSTONE_RETENTION_SECONDS in Hr. lia.
Qed.

(** ** The route state *)

Record state_ok (root : bytes) (s : RouteState) : Prop := {
  st_edges : edges_ok s.(parent_map) s.(edge_expiry);
  st_keys : keys16 s.(parent_map);
  st_acyclic : ~ cyclic s.(parent_map);
  st_covered : covered s.(edge_expiry) s.(path_seq_map);
  st_retained : retained s.(path_seq_map);
  st_deadlines : forall k x, s.(edge_expiry) !! k = Some (Some x) -> x <= u64_max;
  st_cands : forall t, is_Some (s.(candidate_map) !! t) <-> is_Some (s.(path_seq_map) !! t);
  st_edge_count : (size s.(edge_expiry) <= MAX_PARENT_EDGES)%nat;
  st_seq_count : (size s.(path_seq_map) <= MAX_PATH_SEQUENCES)%nat;
  st_origin_count : (size s.(origin_seq_map) <= MAX_DAO_ORIGINS)%nat;
  st_table : table_ok s.(routing_table);
  st_routes : forall a, s.(routing_table).(routes) !! host a
    = host_entry root s.(parent_map) s.(candidate_map) a
}.

Lemma replace_targets_keys updates seqs descs l p p' :
  replace_targets updates seqs descs l p = Ok p' ->
  forall t, is_Some (p'.(changed_targets) !! t) -> is_Some (p.(changed_targets) !! t) \/ t ∈ fst <$> l.
Proof.
  revert p. induction l as [| [t cands] l IH]; intros p; simpl; [intros [= <-]; auto |].
  destruct (replace_target _ _ _ _ _ _) as [p1 |] eqn:Hr; simpl; [| done]. intros Hp u Hu.
  apply (IH _ Hp) in Hu as [Hu | Hu]; [| by right; right].
  assert (changed_targets p1 = changed_targets p \/ changed_targets p1 = <[t := ()]> (changed_targets p))
    as [E | E] by (unfold replace_target in Hr; repeat case_match; simplify_eq/=; auto);
    rewrite E in Hu; [by left |].
  apply lookup_insert_is_Some' in Hu as [-> | Hu]; [right; by left | by left].
Qed.

(** What a processed DAO leaves of the freshness records of a staged proposal. *)
Lemma stamped_covered (s : RouteState) (updates : list DaoUpdate) (now : Z) (expiry' : Expiry) (seqs' : gmap bytes Freshness) (changed : gmap bytes ()) :
  covered s.(edge_expiry) s.(path_seq_map) -> retained s.(path_seq_map) ->
  (forall k x, s.(edge_expiry) !! k = Some (Some x) -> x <= u64_max) ->
  (forall t q d, changed !! t = None -> expiry' !! (t, q) = Some d ->
     (drop_expired s.(edge_expiry) now) !! (t, q) = Some d) ->
  (forall t, is_Some (changed !! t) -> seqs' !! t =
     Some (freshness_new (sequence_of updates t) (target_active_until t expiry' now) now)) ->
  (forall t, changed !! t = None -> kept_or_reclaimed now s.(path_seq_map) seqs' t) ->
  covered expiry' seqs' /\ retained seqs'.
Proof.
  intros Hc Hr Hu Hsame Hin Hout. split.
  - intros t q d Hd. destruct (changed !! t) as [[] |] eqn:Hch.
    + eexists. split; [apply Hin; by eexists |]. cbn. by apply (target_active_until_ge t _ _ q).
    + pose proof (Hsame t q d Hch Hd) as Hold. apply drop_expired_lookup in Hold as [Hold Hact].
      destruct (Hc _ _ _ Hold) as (f & Hf & Hle).
      destruct (Hout t Hch) as [Heq | [_ (g & Hg & Hrec)]]; [exists f; by rewrite Heq |].
      simplify_eq. exfalso. eapply (reclaimable_dead _ _ _ Hrec); [by eapply Hr | done | done |].
      intros x ->. by eapply Hu.
  - intros t f Hf. destruct (changed !! t) as [[] |] eqn:Hch.
    + rewrite Hin in Hf by (by eexists). by simplify_eq.
    + destruct (Hout t Hch) as [Heq | [Hn _]]; [| congruence]. rewrite Heq in Hf. by eapply Hr.
Qed.

(** The parts of a DAO that was processed. *)
Lemma process_parts m dao updates origin skip timing limits b m' :
  process_dao_inner m dao updates origin skip timing limits = Ok (b, m') ->
  let s := m.(route_state) in let s' := m'.(route_state) in let now := timing.(now_seconds) in
  exists cands descs p,
    let p0 := {| pr_parents := live_parents (drop_expired s.(edge_expiry) now) s.(parent_map);
                 pr_expiry := drop_expired s.(edge_expiry) now; pr_candidates := s.(candidate_map);
                 pr_descriptors := s.(descriptor_map); changed_targets := ∅ |} in
    replace_targets updates s.(path_seq_map) descs (hash_iter cands) p0 = Ok p /\
    install_edges timing p.(changed_targets) updates p.(pr_parents) p.(pr_expiry)
      = Ok (s'.(parent_map), s'.(edge_expiry)) /\
    stamp_targets updates s'.(edge_expiry) limits.(max_targets) now (dom (cands : CandidateMap))
      (fst <$> hash_iter p.(changed_targets)) s.(path_seq_map) = Ok s'.(path_seq_map) /\
    s'.(candidate_map) = filter (fun '(t, _) => is_Some (s'.(path_seq_map) !! t)) p.(pr_candidates) /\
    (size s'.(edge_expiry) <= limits.(max_candidates))%nat /\
    (size s'.(path_seq_map) <= limits.(max_targets))%nat /\
    (size s'.(origin_seq_map) <= MAX_DAO_ORIGINS)%nat /\
    contains_cycle s'.(parent_map) = Some false /\
    rebuilt_routes m.(node_address) s'.(parent_map) s'.(candidate_map) s.(routing_table)
      = Some s'.(routing_table) /\
    m' = set_state m s'.
Proof.
  unfold process_dao_inner. destruct (negb _); [done |]. destruct (negb (scope_ok _ _)); [done |].
  destruct (_ && _); [done |]. destruct (incoming updates ∅ ∅) as [[raw descs] |]; simpl; [| done].
  destruct (existsb _ _); [done |]. destruct (_ && _); [done |].
  destruct (replace_targets _ _ _ _ _) as [p |] eqn:Hr; simpl; [| done].
  destruct (install_edges _ _ _ _ _) as [[parents expiry] |] eqn:Hi; simpl; [| done].
  destruct (stamp_targets _ _ _ _ _ _ _) as [seqs |] eqn:Hs; simpl; [| done].
  destruct (if bool_decide _ then _ else _) as [origins |]; simpl; [| done].
  destruct (_ || _) eqn:Hlim; [done |].
  apply orb_false_iff in Hlim as [[[Hl1 _]%orb_false_iff Hl2]%orb_false_iff Hl3].
  destruct (bool_decide _) eqn:Hcyc; simpl; [| done]. apply bool_decide_eq_true_1 in Hcyc.
  destruct (rebuilt_routes _ _ _ _) as [table |] eqn:Ht; [| done]. intros [= _ <-]. bool_to_prop.
  exists (sort_candidates <$> raw), descs, p. by split_and!.
Qed.

Lemma acyclic_of_check m : contains_cycle m = Some false -> ~ cyclic m.
Proof.
  intros Hc Hcyc. destruct (contains_cycle_exact m) as (b & Hb & Hiff).
  rewrite Hc in Hb. simplify_eq. by apply Hiff in Hcyc.
Qed.

Lemma process_staged root s (now : Z) updates descs cands p : state_ok root s ->
  let p0 := {| pr_parents := live_parents (drop_expired s.(edge_expiry) now) s.(parent_map);
               pr_expiry := drop_expired s.(edge_expiry) now; pr_candidates := s.(candidate_map);
               pr_descriptors := s.(descriptor_map); changed_targets := ∅ |} in
  replace_targets updates s.(path_seq_map) descs (hash_iter (cands : CandidateMap)) p0 = Ok p ->
  staged updates s.(path_seq_map) p0 p /\
  Forall (fun t => t ∈ dom cands) (fst <$> hash_iter p.(changed_targets)) /\
  (forall t, t ∈ fst <$> hash_iter p.(changed_targets) <-> is_Some (p.(changed_targets) !! t)).
Proof.
  intros Hs p0 Hr. assert (forall t q, is_Some (pr_expiry p0 !! (t, q)) -> is_Some (path_seq_map s !! t)) as Hcov.
  { intros t q [d Hd]. apply drop_expired_lookup in Hd as [Hd _].
    destruct (st_covered _ _ Hs _ _ _ Hd) as (f & Hf & _). by exists f. }
  assert (forall t, t ∈ fst <$> hash_iter p.(changed_targets) <-> is_Some (p.(changed_targets) !! t)) as Hel.
  { intros t. rewrite list_elem_of_fmap. split.
    - intros ([u []] & -> & Hu). apply elem_of_hash_iter in Hu. by eexists.
    - intros [[] Ht]. exists (t, ()). split; [done | by apply elem_of_hash_iter]. }
  assert (forall t, ~ is_Some ((∅ : gmap bytes ()) !! t)) as Hnone by (intros t [? Ht]; by rewrite lookup_empty in Ht).
  split_and!; [| | done].
  - eapply replace_targets_ok; [| exact Hcov | exact Hr]. split; cbn.
    + by apply live_edges, st_edges with root.
    + by apply live_keys, st_keys with root.
    + done.
    + by intros t q ?%Hnone.
    + by intros t last ?%Hnone.
    + intros t. split; [by left |]. by intros [? | ?%Hnone].
  - rewrite Forall_forall. intros t Ht%Hel.
    apply (replace_targets_keys _ _ _ _ _ _ Hr) in Ht as [Ht | Ht]; [by apply Hnone in Ht |].
    apply list_elem_of_fmap in Ht as ([u l] & -> & Hu). apply elem_of_hash_iter in Hu.
    apply elem_of_dom. by exists l.
Qed.

Lemma process_ok root m dao updates origin skip timing b m' :
  m.(node_address) = root -> state_ok root m.(route_state) ->
  Forall (fun u => length u.(target) = 16%nat) updates ->
  process_dao_inner m dao updates origin skip timing PRODUCTION = Ok (b, m') ->
  state_ok root m'.(route_state) /\ m'.(node_address) = root.
Proof.
  intros Hroot Hs Hlen Hp. apply process_parts in Hp as (cands & descs & p & Hrep & Hinst & Hstamp & Hcm & Hec &
    Hpc & Hoc & Hcyc & Hreb & Hm). set (s := route_state m) in *. set (s' := route_state m') in *.
  set (now := now_seconds timing) in *. split; [| by rewrite Hm].
  destruct (process_staged _ _ _ _ _ _ _ Hs Hrep) as (Hst & Hprot & Hch).
  apply install_edges_ok in Hinst as (He & Hk & Hsame & Hbound); [| apply Hst | apply Hst | done].
  apply stamp_targets_ok in Hstamp as (Hin & Hout & _); [| done].
  assert (forall t, p.(changed_targets) !! t = None -> t ∉ fst <$> hash_iter p.(changed_targets)) as Hno.
  { intros t Ht Hc%Hch. destruct Hc as [? Hc]. congruence. }
  destruct (stamped_covered s updates now s'.(edge_expiry) s'.(path_seq_map) p.(changed_targets))
    as [Hcov Hret].
  { apply Hs. }
  { apply Hs. }
  { apply Hs. }
  { intros t q d Ht Hd. rewrite Hsame in Hd by done. eapply lookup_weaken; [done | apply (sg_sub _ _ _ _ Hst)]. }
  { intros t Ht. by apply Hin, Hch. }
  { intros t Ht. by apply Hout, Hno. }
  assert (forall k x, s'.(edge_expiry) !! k = Some (Some x) -> x <= u64_max) as Hdl.
  { intros k x Hx. apply Hbound in Hx as [Hx | Hx]; [| done].
    assert (pr_expiry p !! k = Some (Some x)) as Hx1 by done.
    eapply lookup_weaken in Hx1; [| apply (sg_sub _ _ _ _ Hst)].
    apply drop_expired_lookup in Hx1 as [Hx1 _]. by apply (st_deadlines _ _ Hs k). }
  assert (table_ok s'.(routing_table) /\ forall a, s'.(routing_table).(routes) !! host a
    = host_entry root s'.(parent_map) s'.(candidate_map) a) as [Htab Hroutes].
  { rewrite Hroot in Hreb. eapply rebuilt_ok; [apply (st_table _ _ Hs) | exact Hk | exact Hreb]. }
  split; try done.
  - by apply acyclic_of_check.
  - intros t. rewrite Hcm. split.
    + intros [c Hc]. by apply map_lookup_filter_Some in Hc as [_ Hc].
    + intros Ht. assert (is_Some (pr_candidates p !! t)) as [c Hc].
      { apply (sg_cands _ _ _ _ Hst). destruct (changed_targets p !! t) as [[] |] eqn:Hc; [by right |]. left.
        cbn. apply (st_cands _ _ Hs). destruct (Hout t (Hno t Hc)) as [<- | [Hn _]]; [done |].
        destruct Ht as [? Ht]. fold s' in Hn. congruence. }
      exists c. by apply map_lookup_filter_Some.
Qed.

Lemma expire_routes_ok root m now : m.(node_address) = root -> state_ok root m.(route_state) ->
  state_ok root (snd (expire_routes m now)).(route_state) /\ (snd (expire_routes m now)).(node_address) = root.
Proof.
  intros Hroot Hs. unfold expire_routes. set (s := route_state m) in *.
  destruct (rebuilt_routes _ _ _ _) as [table |] eqn:Hreb; [| done]. split; [| done].
  rewrite Hroot in Hreb. cbn [snd set_state route_state].
  assert (keys16 (live_parents (drop_expired (edge_expiry s) now) (parent_map s))) as Hk
    by (apply live_keys, (st_keys _ _ Hs)).
  apply rebuilt_ok in Hreb as [Htab Hroutes]; [| apply (st_table _ _ Hs) | exact Hk].
  split; cbn; try done; try apply Hs.
  - apply live_edges, (st_edges _ _ Hs).
  - eapply acyclic_sub; [apply live_edge_sub | apply (st_acyclic _ _ Hs)].
  - intros t q d Hd. apply drop_expired_lookup in Hd as [Hd _]. by apply (st_covered _ _ Hs) in Hd.
  - intros k x Hx. apply drop_expired_lookup in Hx as [Hx _]. by apply (st_deadlines _ _ Hs) in Hx.
  - etrans; [apply map_subseteq_size, map_filter_subseteq | apply (st_edge_count _ _ Hs)].
Qed.

End freshness.

(** ** Extracted updates *)

Lemma mask_length n p : n <= 128 -> length p = 16%nat -> length (mask_prefix_bits n p) = 16%nat.
Proof.
  intros Hn Hp. unfold mask_prefix_bits. set (from := (_ + _)%nat).
  assert (from <= 16)%nat as Hf.
  { subst from. destruct (Z.eqb_spec (n mod 8) 0); simpl negb; cbv iota;
      Z.to_euclidean_division_equations; lia. }
  destruct (negb _); rewrite length_app, length_take, length_replicate, ?length_insert, Hp; lia.
Qed.

Lemma target_prefix_length data n : n <= 128 -> (host_octets n <= length data - 2)%nat ->
  length (target_prefix data n) = 16%nat.
Proof.
  intros Hn Hl. assert (host_octets n <= 16)%nat as Hh
    by (unfold host_octets; Z.to_euclidean_division_equations; lia).
  unfold target_prefix. apply mask_length; [done |]. rewrite length_app, length_replicate.
  unfold slice. rewrite length_take, length_drop. lia.
Qed.

Definition targets16 (l : list (bytes * option Z)) : Prop := Forall (fun t => length (fst t) = 16%nat) l.
Definition updates16 (l : list DaoUpdate) : Prop := Forall (fun u => length u.(target) = 16%nat) l.

Lemma finish_group_ok updates targets transits updates' : updates16 updates -> targets16 targets ->
  finish_group updates targets transits = Some updates' ->
  updates16 updates' /\ (length updates' <= MAX_DAO_UPDATES)%nat.
Proof.
  unfold finish_group. destruct (_ || _) eqn:Hg; [done |].
  apply orb_false_iff in Hg as [_ Hg]. bool_to_prop. intros Hu Ht Hr. revert updates Hu Hg Hr.
  induction targets as [| t targets IH]; intros updates Hu Hg; cbn [group_updates].
  { intros [= <-]. split; [done |]. simpl in Hg. lia. }
  apply Forall_cons in Ht as [Ht Htargets]. destruct (existsb _ _); [done |].
  apply IH; [done | |].
  - apply Forall_app. split; [done |]. apply Forall_fmap, Forall_true. by intros.
  - rewrite length_app, length_fmap. simpl in Hg. lia.
Qed.

Lemma describe_last_ok l v : targets16 l -> targets16 (describe_last l v).
Proof.
  induction l as [| [t d] l IH]; intros Hl; [done |]. apply Forall_cons in Hl as [Ht Hl].
  destruct l as [| x l]; [by apply Forall_singleton |]. cbn [describe_last].
  constructor; [done | by apply IH].
Qed.

Lemma extract_option_ok e o e' : updates16 e.(ex_updates) -> targets16 e.(ex_targets) ->
  extract_option e o = Some e' -> updates16 e'.(ex_updates) /\ targets16 e'.(ex_targets).
Proof.
  intros Hu Ht. unfold extract_option. destruct (_ =? _); [| destruct (_ =? _); [| destruct (_ =? _); [| done]]].
  - unfold extract_target. destruct (if negb _ then _ else _) as [e1 |] eqn:Hg; simpl; [| done].
    assert (updates16 e1.(ex_updates) /\ targets16 e1.(ex_targets)) as [Hu1 Ht1].
    { destruct (negb _); [| by simplify_eq].
      destruct (finish_group _ _ _) as [us |] eqn:Hf; simplify_eq/=.
      apply finish_group_ok in Hf as [? _]; [| done | done]. split; [done | constructor]. }
    destruct (_ || _); [done |]. destruct (_ || _) eqn:Hb; [done |]. intros [= <-]. cbn.
    apply orb_false_iff in Hb as [[[_ Hlen]%orb_false_iff Hho]%orb_false_iff _]. bool_to_prop.
    split; [done |]. apply Forall_app. split; [done |]. apply Forall_singleton.
    apply target_prefix_length; lia.
  - unfold extract_descriptor. destruct (_ || _); [done |]. intros [= <-]. cbn.
    split; [done | by apply describe_last_ok].
  - unfold extract_transit. repeat case_match; try done; by intros [= <-].
Qed.

Lemma extract_options_ok opts : forall e e', updates16 e.(ex_updates) -> targets16 e.(ex_targets) ->
  extract_options e opts = Some e' -> updates16 e'.(ex_updates) /\ targets16 e'.(ex_targets).
Proof.
  induction opts as [| o opts IH]; intros e e' Hu Ht; simpl; [by intros [= <-] |].
  destruct (extract_option e o) as [e1 |] eqn:Ho; simpl; [| done].
  apply extract_option_ok in Ho as [Hu1 Ht1]; [| done | done]. by apply IH.
Qed.

Lemma extract_updates_ok dao data updates : extract_updates dao data = Some updates ->
  updates16 updates /\ (length updates <= MAX_DAO_UPDATES)%nat.
Proof.
  unfold extract_updates. destruct (negb _); [done |]. destruct (negb _); [done |].
  destruct (options _) as [opts |]; [| done].
  destruct (extract_options _ opts) as [e |] eqn:He; simpl; [| done].
  apply extract_options_ok in He as [Hu Ht]; [| constructor | constructor]. by apply finish_group_ok.
Qed.

(** ** Reachable managers *)

Section reachable.
Context `{HashIter}.

Definition with_table (m : DaoManager) (t : RoutingTable) : DaoManager :=
  let s := m.(route_state) in
  set_state m {| routing_table := t; parent_map := s.(parent_map); edge_expiry := s.(edge_expiry);
    origin_seq_map := s.(origin_seq_map); path_seq_map := s.(path_seq_map);
    candidate_map := s.(candidate_map); descriptor_map := s.(descriptor_map) |}.

(** The root's operations; of the table it hands out, those on prefix routes. *)
Inductive dao_step : DaoManager -> DaoManager -> Prop :=
  | ds_process m dao data updates origin skip timing b m' :
      extract_updates dao data = Some updates ->
      process_dao_inner m dao updates origin skip timing PRODUCTION = Ok (b, m') -> dao_step m m'
  | ds_expire m now : dao_step m (snd (expire_routes m now))
  | ds_delegate m key pre n m' : delegate_prefix m key pre n = Ok m' -> dao_step m m'
  | ds_build m parent life wire m' :
      build_dao_with_lifetime m parent life = Some (wire, m') -> dao_step m m'
  | ds_copy m parent life wire m' :
      build_dao_copy_with_lifetime m parent life = Some (wire, m') -> dao_step m m'
  | ds_add_prefix m pre n k eg p ok t' : length pre = 16%nat -> 0 <= n -> target_new pre n = Some k ->
      add_prefix_route m.(route_state).(routing_table) k eg p = Some (ok, t') ->
      dao_step m (with_table m t')
  | ds_remove_prefix m k :
      dao_step m (with_table m (remove_prefix_route m.(route_state).(routing_table) k))
  | ds_expire_prefix m k :
      dao_step m (with_table m (snd (mark_prefix_expired m.(route_state).(routing_table) k))).

Lemma with_table_ok root m t : m.(node_address) = root -> state_ok root m.(route_state) -> table_ok t ->
  (forall a, t.(routes) !! host a = m.(route_state).(routing_table).(routes) !! host a) ->
  state_ok root (with_table m t).(route_state) /\ (with_table m t).(node_address) = root.
Proof.
  intros Hr [H1 H2 H3 H4 H5 H6 H7 H8 H9 H10 H11 H12] Ht Hh. split; [| done]. split; cbn; try done.
  intros a. by rewrite Hh.
Qed.

Lemma add_prefix_hosts t k eg p ok t' : add_prefix_route t k eg p = Some (ok, t') ->
  forall a, t'.(routes) !! host a = t.(routes) !! host a.
Proof.
  intros Ha a. unfold add_prefix_route in Ha. destruct (_ || existsb _ _) eqn:Hc; [by simplify_eq |].
  apply orb_false_iff in Hc as [[Hl _]%orb_false_iff _]. bool_to_prop.
  assert (k <> host a) as Hne by (intros ->; done).
  destruct (add_target_route t k p) as [[ok1 t1] |] eqn:Hadd; simpl in Ha; [| done].
  assert (routes t1 !! host a = routes t !! host a) as Ht1.
  { unfold add_target_route in Hadd. destruct (_ || _); [by simplify_eq |].
    destruct (_ && _); [by simplify_eq |].
    destruct (match routes t !! k with Some _ => _ | None => _ end) as [entry |]; simplify_eq/=.
    by rewrite lookup_insert_ne. }
  destruct ok1; simplify_eq/=; done.
Qed.

Lemma init_ok root instance dodag :
  state_ok root (manager_as_root root instance dodag).(route_state).
Proof.
  split; cbn -[size]; try (rewrite map_size_empty; unfold MAX_PARENT_EDGES, MAX_PATH_SEQUENCES, MAX_DAO_ORIGINS; lia).
  - split; [| done]. intros t p. rewrite !lookup_empty. split; [by intros [? ?] | by intros (? & ? & _)].
  - done.
  - intros [x Hx]. assert (exists y, edge (∅ : ParentMap) x y) as (y & ps & Hps & _) by (inversion Hx; eauto).
    by rewrite lookup_empty in Hps.
  - done.
  - done.
  - done.
  - intros t. by rewrite !lookup_empty, !is_Some_alt.
  - apply table_new_ok.
  - intros a. unfold host_entry. by rewrite !lookup_empty.
Qed.

Lemma dao_step_ok root m m' : dao_step m m' -> m.(node_address) = root -> state_ok root m.(route_state) ->
  state_ok root m'.(route_state) /\ m'.(node_address) = root.
Proof.
  destruct 1 as [m dao data updates origin skip timing b m' Hex Hp | m now | m key pre n m' Hd
    | m par life wire m' Hb | m par life wire m' Hb | m pre n k eg p ok t' Hl Hn Hk Ha | m k | m k]; intros Hr Hs.
  - eapply process_ok; [done | done | | done]. by apply extract_updates_ok in Hex as [? _].
  - by apply expire_routes_ok.
  - unfold delegate_prefix in Hd. destruct (delegate _ _ _ _); simplify_eq/=. done.
  - unfold build_dao_with_lifetime in Hb. destruct (build_dao_inner _ _ _); simplify_eq/=. done.
  - unfold build_dao_copy_with_lifetime in Hb. destruct (negb _); [by simplify_eq |].
    destruct (build_dao_inner _ _ _); simplify_eq/=. done.
  - apply with_table_ok; [done | done | |].
    + eapply add_prefix_route_ok; [apply (st_table _ _ Hs) | by eapply target_new_canonical | done].
    + by eapply add_prefix_hosts.
  - apply with_table_ok; [done | done | by apply remove_prefix_route_ok, (st_table _ _ Hs) |].
    intros a. unfold remove_prefix_route. destruct (_ && _) eqn:Hc; [| done]. cbn.
    apply andb_true_iff in Hc as [Hc _]. bool_to_prop. rewrite lookup_delete_ne; [done |].
    intros ->. done.
  - apply with_table_ok; [done | done | |].
    + eapply table_step_ok; [apply ts_prefix_expired | apply (st_table _ _ Hs)].
    + intros a. unfold mark_prefix_expired. destruct (_ <? _) eqn:Hc; [| done]. bool_to_prop.
      unfold modify. destruct (routes _ !! k) as [e |]; [| done]. destruct (entry_mark_expired e). cbn.
      rewrite lookup_insert_ne; [done |]. intros ->. done.
Qed.

Lemma host_entry_ok root pm cm a e : host_entry root pm cm a = Some e -> route_ok root pm cm a e.(path).
Proof.
  unfold host_entry. destruct (pm !! a) as [ps |] eqn:Ha; [| done].
  destruct (assemble_path_checked root pm cm a) as [[p |] |] eqn:Hp; [| done | done]. intros [= <-]. cbn.
  apply assemble_checked_ok; [by exists ps | done].
Qed.

Lemma reachable_ok root instance dodag m : rtc dao_step (manager_as_root root instance dodag) m ->
  state_ok root m.(route_state) /\ m.(node_address) = root.
Proof.
  intros Hr. remember (manager_as_root root instance dodag) as m0 eqn:Hm0.
  assert (state_ok root m0.(route_state) /\ m0.(node_address) = root) as [Hs Ha]
    by (subst m0; split; [apply init_ok | done]). clear Hm0.
  induction Hr as [| m0 m1 m2 Hstep _ IH]; [done |].
  destruct (dao_step_ok root _ _ Hstep Ha Hs) as [Hs1 Ha1]. by apply IH.
Qed.

End reachable.

(** C8: the route state of a root stays consistent under every DAO it processes,
    expiry, delegation and prefix route: the parent graph and the edge deadlines
    agree and have no cycle; every live edge is covered by a path sequence record
    that outlives it, so a withdrawn or replayed path is still recognised while
    the edge lives; edges, records and origins are bounded; and the host routes
    are exactly the ones the graph gives. Each of them ends at its target, follows
    active advertised parents up to the root, repeats no node and has at most 8
    hops. *)
Theorem dao_invariant `{HashIter} root instance dodag m :
  rtc dao_step (manager_as_root root instance dodag) m ->
  state_ok root m.(route_state) /\
  forall a e, m.(route_state).(routing_table).(routes) !! host a = Some e ->
    route_ok root m.(route_state).(parent_map) m.(route_state).(candidate_map) a e.(path).
Proof.
  intros [Hs _]%reachable_ok.
  split; [done |]. intros a e He. rewrite (st_routes _ _ Hs) in He. by apply host_entry_ok.
Qed.

(** a root never goes back on a path sequence: after it accepted a DAO, the
    record of every target is the one it had, one with a newer path sequence, or
    gone, which only happens to a record past its retention deadline. *)
Lemma path_sequence_monotone `{HashIter} m dao updates origin skip timing b m' t f :
  state_ok m.(node_address) m.(route_state) ->
  process_dao_inner m dao updates origin skip timing PRODUCTION = Ok (b, m') ->
  m.(route_state).(path_seq_map) !! t = Some f ->
  match m'.(route_state).(path_seq_map) !! t with
  | Some f' => f' = f \/ seq_is_newer f'.(fr_sequence) f.(fr_sequence) = true
  | None => is_reclaimable f timing.(now_seconds) = true
  end.
Proof.
  intros Hs Hp Hf. apply process_parts in Hp as (cands & descs & p & Hrep & _ & Hstamp & _).
  destruct (process_staged _ _ _ _ _ _ _ Hs Hrep) as (Hst & Hprot & Hch).
  apply stamp_targets_ok in Hstamp as (Hin & Hout & _); [| done].
  destruct (decide (t ∈ fst <$> hash_iter p.(changed_targets))) as [Hc | Hc].
  - rewrite (Hin t Hc). right. cbn. by apply (sg_newer _ _ _ _ Hst); [apply Hch |].
  - destruct (Hout t Hc) as [-> | [-> (g & Hg & Hrec)]]; [rewrite Hf; by left | by simplify_eq].
Qed.

(** ** Sample: a node joins below the root, then moves on with a newer path *)

Definition demo_root : bytes := [254; 128; 0; 0; 0; 0; 0; 0; 0; 0; 0; 0; 0; 0; 0; 1].
Definition demo_node : bytes := [253; 0; 0; 0; 0; 0; 0; 0; 0; 0; 0; 0; 0; 0; 0; 2].
Definition demo_timing : DaoTiming :=
  {| now_seconds := 10; lifetime_unit_seconds := 60; max_deadline_seconds := u64_max |}.

(** The root receives the octets of a DAO from [demo_node]. *)
Definition demo_receive (m : DaoManager) (wire : bytes) : option DaoManager :=
  match dao_from_bytes wire with
  | Err _ => None
  | Ok dao =>
      updates ← extract_updates dao wire;
      match @process_dao_inner hash_iter_id m dao updates demo_node false demo_timing PRODUCTION with
      | Ok (_, m) => Some m
      | Err _ => None
      end
  end.

Definition demo_wires : option (bytes * bytes) :=
  '(first, n) ← build_dao (manager_new demo_node 0 demo_root) demo_root;
  '(second, _) ← build_dao_with_lifetime n demo_root 5;
  Some (first, second).
Definition demo_first : option DaoManager :=
  w ← demo_wires; demo_receive (manager_as_root demo_root 0 demo_root) (fst w).
Definition demo_second : option DaoManager :=
  w ← demo_wires; m ← demo_first; demo_receive m (snd w).

Lemma demo_receive_inv m wire m' : demo_receive m wire = Some m' ->
  exists dao updates b, extract_updates dao wire = Some updates /\
    @process_dao_inner hash_iter_id m dao updates demo_node false demo_timing PRODUCTION = Ok (b, m').
Proof.
  unfold demo_receive. destruct (dao_from_bytes wire) as [dao |]; [| done].
  destruct (extract_updates dao wire) as [updates |] eqn:Hu; simpl; [| done].
  destruct (@process_dao_inner hash_iter_id _ _ _ _ _ _ _) as [[b m1] |] eqn:Hp; [| done]. intros [= <-].
  by exists dao, updates, b.
Qed.

Lemma demo_first_reachable m : demo_first = Some m ->
  rtc (@dao_step hash_iter_id) (manager_as_root demo_root 0 demo_root) m.
Proof.
  unfold demo_first. destruct demo_wires as [w |]; simpl; [| done].
  intros (dao & updates & b & Hu & Hp)%demo_receive_inv. apply rtc_once. by eapply (@ds_process hash_iter_id).
Qed.

Lemma dao_invariant_witness : exists m, demo_first = Some m /\
  path <$> m.(route_state).(routing_table).(routes) !! host demo_node = Some [demo_node] /\
  @state_ok hash_iter_id demo_root m.(route_state).
Proof.
  assert ((fun m => path <$> m.(route_state).(routing_table).(routes) !! host demo_node) <$> demo_first
    = Some (Some [demo_node])) as He by (vm_compute; reflexivity).
  destruct demo_first as [m |] eqn:Hm; [| discriminate He].
  exists m. split; [reflexivity |]. split; [by injection He |].
  exact (proj1 (@dao_invariant hash_iter_id demo_root 0 demo_root m (demo_first_reachable m Hm))).
Defined.

(** ** A prefix route behind an expired egress *)

Definition demo_prefix : bytes := [253; 1; 0; 0; 0; 0; 0; 0; 0; 0; 0; 0; 0; 0; 0; 0].
Definition demo_dest : bytes := [253; 1; 0; 0; 0; 0; 0; 0; 0; 0; 0; 0; 0; 0; 0; 9].

(** The root learns a finite path to [demo_node], registers a prefix behind it
    and lets the path expire. *)
Definition demo_expired : option DaoManager :=
  m ← demo_second;
  k ← target_new demo_prefix 64;
  '(_, t) ← add_prefix_route m.(route_state).(routing_table) k demo_node [demo_node];
  Some (snd (@expire_routes hash_iter_id (with_table m t) 1000)).

(** a managed prefix can outlive its egress. The prefix was managed, as its egress had a DAO route; when that route
    expires, [rpl_managed_hosts] still names the egress, so the prefix is neither
    expired nor marked unavailable and lookups keep using the dead path. *)
Lemma managed_prefix_outlives_egress :
  match demo_expired with
  | None => False
  | Some m =>
      let t := m.(route_state).(routing_table) in
      @lookup_route hash_iter_id t demo_node = None /\
      @lookup_route hash_iter_id t demo_dest = Some [demo_node] /\
      m.(route_state).(parent_map) = ∅ /\ t.(unavailable_managed_prefixes) = ∅
  end.
Proof. vm_compute. repeat split; reflexivity. Qed.

End RplDaoInv.
