(* ===== verification/Storage.v ===== *)
(** * Redundant storage (lichen-hal/src/storage.rs)

    Two-slot persistent records over the [NonVolatile] trait: the slot format
    with its checksum, opening the newest valid slot, provisioning and updating
    in the other slot; and the identity, counters and peer keys stored beside
    them.  The trait is the class [NonVolatile] with the contract its
    documentation states (lichen-hal/src/lib.rs); [MemStorage], with its fault
    injection, is an instance.  [FileStorage] is file-system I/O and is only
    represented by the contract.

    Reads take [&self], but an implementation may change behind a [Cell]
    ([MemStorage] does), so they thread the store like writes.  The outer
    [option] of an operation is a panic. *)

From stdpp Require Import strings pretty.
From S2P Require Import Prelude.
Open Scope Z_scope.

Module Nv.

(** [trait NonVolatile].  [nv_contents] is the durable state the contract talks
    about: what survives a power loss. *)
Class NonVolatile (S E : Type) := {
  nv_contents : S -> gmap string bytes;
  (** [read(key, buf)]: the reported length and the buffer afterwards. *)
  nv_read : S -> string -> bytes -> S * result E (option nat * bytes);
  nv_write : S -> string -> bytes -> S * result E unit;
  nv_delete : S -> string -> S * bool;
  nv_read_keeps s key buf : nv_contents (nv_read s key buf).1 = nv_contents s;
  (** A slice keeps its length. *)
  nv_read_len s key buf s' o buf' :
    nv_read s key buf = (s', Ok (o, buf')) -> length buf' = length buf;
  (** [Ok(None)]: the key is absent. *)
  nv_read_none s key buf s' buf' :
    nv_read s key buf = (s', Ok (None, buf')) -> nv_contents s !! key = None;
  (** [Ok(Some(stored_len))]: the value is copied as far as it fits; a record
      larger than the buffer is detectable by its length, one that fits reports
      its exact length. *)
  nv_read_some s key buf s' n buf' :
    nv_read s key buf = (s', Ok (Some n, buf')) ->
    exists data, nv_contents s !! key = Some data /\
      take (length data `min` length buf) buf' = take (length buf) data /\
      ((length data <= length buf)%nat -> n = length data) /\
      ((length buf < length data)%nat -> (length buf < n)%nat);
  (** [Ok(())]: the complete new value survives; [Err]: the old one does. *)
  nv_write_ok s key data s' :
    nv_write s key data = (s', Ok tt) -> nv_contents s' = <[key := data]> (nv_contents s);
  nv_write_err s key data s' e :
    nv_write s key data = (s', Err e) -> nv_contents s' = nv_contents s;
  nv_delete_ok s key :
    nv_contents (nv_delete s key).1 = delete key (nv_contents s) /\
    (nv_delete s key).2 = bool_decide (is_Some (nv_contents s !! key))
}.

End Nv.
Export Nv.

(** ** The in-memory store *)
Module Mem.

Inductive MemStorageError := MemErr.

Record MemStorage := {
  data : gmap string bytes;
  fail_after_writes : option nat;
  fail_next_read : bool
}.

Definition new : MemStorage :=
  {| data := ∅; fail_after_writes := None; fail_next_read := false |}.

Definition fail_next_write (s : MemStorage) : MemStorage :=
  {| data := data s; fail_after_writes := Some 0%nat; fail_next_read := fail_next_read s |}.
Definition set_fail_next_read (s : MemStorage) : MemStorage :=
  {| data := data s; fail_after_writes := fail_after_writes s; fail_next_read := true |}.
Definition set_fail_after_writes (s : MemStorage) (successful_writes : nat) : MemStorage :=
  {| data := data s; fail_after_writes := Some successful_writes;
     fail_next_read := fail_next_read s |}.
Definition set_raw (s : MemStorage) (key : string) (value : bytes) : MemStorage :=
  {| data := <[key := value]> (data s); fail_after_writes := fail_after_writes s;
     fail_next_read := fail_next_read s |}.
Definition raw (s : MemStorage) (key : string) : option bytes := data s !! key.

Definition read (s : MemStorage) (key : string) (buf : bytes) :
    MemStorage * result MemStorageError (option nat * bytes) :=
  if fail_next_read s then
    ({| data := data s; fail_after_writes := fail_after_writes s; fail_next_read := false |},
     Err MemErr)
  else
    (s, Ok (match data s !! key with
            | None => (None, buf)
            | Some d => let n := (length d `min` length buf)%nat in
                        (Some (length d), list_inserts 0 (take n d) buf)
            end)).

Definition write (s : MemStorage) (key : string) (d : bytes) :
    MemStorage * result MemStorageError unit :=
  match fail_after_writes s with
  | Some 0%nat =>
      ({| data := data s; fail_after_writes := None; fail_next_read := fail_next_read s |},
       Err MemErr)
  | fail =>
      ({| data := <[key := d]> (data s); fail_after_writes := pred <$> fail;
          fail_next_read := fail_next_read s |}, Ok tt)
  end.

Definition delete (s : MemStorage) (key : string) : MemStorage * bool :=
  ({| data := base.delete key (data s); fail_after_writes := fail_after_writes s;
      fail_next_read := fail_next_read s |},
   bool_decide (is_Some (data s !! key))).

#[refine, global] Instance mem_nonvolatile : NonVolatile MemStorage MemStorageError := {|
  nv_contents := data; nv_read := read; nv_write := write; nv_delete := delete
|}.
Proof.
  - intros s key buf. unfold read. by destruct (fail_next_read s).
  - intros s key buf s' o buf'. unfold read. destruct (fail_next_read s); [done |].
    destruct (data s !! key); intros [= _ _ <-]; [by rewrite length_inserts | done].
  - intros s key buf s' buf'. unfold read. destruct (fail_next_read s); [done |].
    by destruct (data s !! key) eqn:E; intros [= <- <-].
  - intros s key buf s' n buf'. unfold read. destruct (fail_next_read s); [done |].
    destruct (data s !! key) as [d|] eqn:E; [| done]. intros [= <- <- <-].
    exists d. split; [done |]. split; [| lia].
    rewrite inserts_front by (rewrite length_take; lia).
    rewrite take_app_le' by (rewrite length_take; lia).
    destruct (Nat.le_ge_cases (length d) (length buf)).
    + rewrite !take_ge by lia. done.
    + by rewrite Nat.min_r by lia.
  - intros s key d s'. unfold write. destruct (fail_after_writes s) as [[|k]|]; by intros [= <-].
  - intros s key d s' e. unfold write. destruct (fail_after_writes s) as [[|k]|]; by intros [= <-].
  - done.
Defined.

End Mem.

(** ** Checksum and slot format *)
Module Slot.

Definition SLOT_VERSION : Z := 1.
Definition SLOT_HEADER_LEN : nat := 20.
Definition SLOT_TRAILER_LEN : nat := 4.

(** One bit of the reflected CRC-32. *)
Definition crc_bit (crc : Z) : Z :=
  Z.lxor (Z.shiftr crc 1) (Z.land 3988292384 (wrap32 (0 - Z.land crc 1))).
Definition crc_byte (crc byte : Z) : Z := Nat.iter 8 crc_bit (Z.lxor crc byte).
Definition crc32 (d : bytes) : Z := Z.lxor u32_max (foldl crc_byte u32_max d).

Definition parse_slot (raw magic : bytes) : option (Z * bytes) :=
  if (length raw <? SLOT_HEADER_LEN + SLOT_TRAILER_LEN)%nat
     || negb (bool_decide (take 4 raw = magic))
     || negb (nth 4 raw 0 =? SLOT_VERSION)
     || negb (bool_decide (slice 5 8 raw = [0; 0; 0]))
  then None
  else
    let generation := from_be (slice 8 16 raw) in
    let payload_len := Z.to_nat (from_be (slice 16 20 raw)) in
    let checksum_at := (SLOT_HEADER_LEN + payload_len)%nat in
    if (generation =? 0) || negb (checksum_at + SLOT_TRAILER_LEN =? length raw)%nat then None
    else
      let expected := from_be (drop checksum_at raw) in
      if crc32 (take checksum_at raw) =? expected
      then Some (generation, slice SLOT_HEADER_LEN checksum_at raw) else None.

(** The length written and the buffer afterwards.  The lengths are those of
    buffers in memory, so the checked additions do not overflow. *)
Definition encode_slot (magic : bytes) (generation : Z) (payload out : bytes) :
    option (nat * bytes) :=
  let len := (SLOT_HEADER_LEN + length payload + SLOT_TRAILER_LEN)%nat in
  if (generation =? 0) || (u32_max <? Z.of_nat (length payload)) || (length out <? len)%nat
  then None
  else
    let out := list_inserts 0 magic out in
    let out := <[4%nat := SLOT_VERSION]> out in
    let out := list_inserts 5 [0; 0; 0] out in
    let out := list_inserts 8 (to_be 8 generation) out in
    let out := list_inserts 16 (to_be 4 (Z.of_nat (length payload))) out in
    let out := list_inserts 20 payload out in
    let checksum_at := (20 + length payload)%nat in
    let checksum := crc32 (take checksum_at out) in
    Some (len, list_inserts checksum_at (to_be 4 checksum) out).

(** The bytes of a slot. *)
Definition slot_body (magic : bytes) (generation : Z) (payload : bytes) : bytes :=
  magic ++ [SLOT_VERSION; 0; 0; 0] ++ to_be 8 generation
    ++ to_be 4 (Z.of_nat (length payload)) ++ payload.
Definition slot_bytes (magic : bytes) (generation : Z) (payload : bytes) : bytes :=
  let body := slot_body magic generation payload in body ++ to_be 4 (crc32 body).

Example crc32_check : crc32 [49; 50; 51; 52; 53; 54; 55; 56; 57] = 3421780262.
Proof. vm_compute. reflexivity. Qed.

(** *** The checksum *)

Lemma lxor_u32 a b : is_u32 a -> is_u32 b -> is_u32 (Z.lxor a b).
Proof.
  intros Ha Hb. assert (0 <= Z.lxor a b) by (apply Z.lxor_nonneg; width).
  split; [done |]. assert (Z.lxor a b < 2 ^ 32); [| width].
  destruct (decide (Z.lxor a b = 0)) as [-> | Hn]; [done |].
  apply Z.log2_lt_pow2; [lia |].
  eapply Z.le_lt_trans; [apply Z.log2_lxor; width |].
  apply Z.max_lub_lt; destruct (decide (a = 0)) as [-> |]; destruct (decide (b = 0)) as [-> |];
    simpl; try lia; apply Z.log2_lt_pow2; width.
Qed.

Lemma crc_bit_even x : x mod 2 = 0 -> crc_bit x = x / 2.
Proof.
  intros H. unfold crc_bit. change 1 with (Z.ones 1) at 2. rewrite Z.land_ones by lia.
  change (2 ^ 1) with 2. rewrite H. change (wrap32 (0 - 0)) with 0.
  by rewrite Z.land_0_r, Z.lxor_0_r, Z.shiftr_div_pow2.
Qed.
Lemma crc_bit_odd x : x mod 2 = 1 -> crc_bit x = Z.lxor (x / 2) 3988292384.
Proof.
  intros H. unfold crc_bit. change 1 with (Z.ones 1) at 2. rewrite Z.land_ones by lia.
  change (2 ^ 1) with 2. rewrite H.
  change (Z.land 3988292384 (wrap32 (0 - 1))) with 3988292384.
  by rewrite Z.shiftr_div_pow2.
Qed.

Lemma crc_bit_u32 x : is_u32 x -> is_u32 (crc_bit x).
Proof.
  intros H. assert (is_u32 (x / 2)).
  { split; [apply Z.div_pos; width |]. apply Z.div_le_upper_bound; width. }
  destruct (Z.mod_pos_bound x 2) as [? ?]; [lia |].
  destruct (decide (x mod 2 = 0)) as [E | E].
  - by rewrite crc_bit_even.
  - rewrite crc_bit_odd by lia. by apply lxor_u32.
Qed.

(** The polynomial's top bit makes a shift invertible: the bit shifted out
    becomes bit 31. *)
Lemma crc_bit_top x : is_u32 x -> Z.testbit (crc_bit x) 31 = (x mod 2 =? 1).
Proof.
  intros H.
  assert (Z.testbit (x / 2) 31 = false) as Ht.
  { change (x / 2) with (x / 2 ^ 1). rewrite Z.div_pow2_bits by lia.
    destruct (decide (x = 0)) as [-> |]; [done |]. apply Z.bits_above_log2; [width |].
    apply Z.log2_lt_pow2; width. }
  destruct (Z.mod_pos_bound x 2) as [? ?]; [lia |].
  destruct (decide (x mod 2 = 0)) as [E | E].
  - rewrite crc_bit_even, E by done. done.
  - rewrite crc_bit_odd by lia. rewrite Z.lxor_spec, Ht. destruct (Z.eqb_spec (x mod 2) 1); [done | lia].
Qed.

Lemma crc_bit_inj x y : is_u32 x -> is_u32 y -> crc_bit x = crc_bit y -> x = y.
Proof.
  intros Hx Hy E.
  assert (x mod 2 = y mod 2) as Hm.
  { pose proof (crc_bit_top x Hx) as Tx. rewrite E, (crc_bit_top y Hy) in Tx.
    destruct (Z.mod_pos_bound x 2), (Z.mod_pos_bound y 2); [lia.. |].
    destruct (Z.eqb_spec (x mod 2) 1), (Z.eqb_spec (y mod 2) 1); first [discriminate | lia]. }
  assert (x / 2 = y / 2) as Hd.
  { destruct (Z.mod_pos_bound x 2) as [? ?]; [lia |]. destruct (decide (x mod 2 = 0)).
    - rewrite !crc_bit_even in E by lia. done.
    - rewrite !crc_bit_odd in E by lia.
      apply (f_equal (fun z => Z.lxor z 3988292384)) in E.
      by rewrite !Z.lxor_assoc, Z.lxor_nilpotent, !Z.lxor_0_r in E. }
  rewrite (Z.div_mod x 2), (Z.div_mod y 2) by lia. congruence.
Qed.

Lemma crc_iter_u32 n x : is_u32 x -> is_u32 (Nat.iter n crc_bit x).
Proof. intros. induction n; simpl; [done | by apply crc_bit_u32]. Qed.

Lemma crc_iter_inj n x y : is_u32 x -> is_u32 y ->
  Nat.iter n crc_bit x = Nat.iter n crc_bit y -> x = y.
Proof.
  intros Hx Hy. induction n as [|n IH]; simpl; [done |]. intros E. apply IH.
  apply crc_bit_inj; [by apply crc_iter_u32 .. | done].
Qed.

Lemma u8_u32 b : is_u8 b -> is_u32 b.
Proof. width. Qed.
#[local] Hint Resolve u8_u32 lxor_u32 : lichen.

Lemma crc_byte_u32 c b : is_u32 c -> is_u8 b -> is_u32 (crc_byte c b).
Proof. intros. unfold crc_byte. apply crc_iter_u32. auto with lichen. Qed.
#[local] Hint Resolve crc_byte_u32 : lichen.

Lemma lxor_cancel_r a b c : Z.lxor a c = Z.lxor b c -> a = b.
Proof.
  intros E. apply (f_equal (fun z => Z.lxor z c)) in E.
  by rewrite !Z.lxor_assoc, Z.lxor_nilpotent, !Z.lxor_0_r in E.
Qed.

Lemma crc_byte_inj c c' b b' :
  is_u32 c -> is_u32 c' -> is_u8 b -> is_u8 b' -> crc_byte c b = crc_byte c' b' ->
  Z.lxor c b = Z.lxor c' b'.
Proof. intros ? ? ? ? E. unfold crc_byte in E. eapply crc_iter_inj; eauto with lichen. Qed.

Lemma crc_fold_u32 d c : is_u32 c -> bytes_ok d -> is_u32 (foldl crc_byte c d).
Proof. intros Hc Hd. revert c Hc. induction Hd; intros c Hc; simpl; auto with lichen. Qed.

Lemma crc_fold_inj d c c' : is_u32 c -> is_u32 c' -> bytes_ok d ->
  foldl crc_byte c d = foldl crc_byte c' d -> c = c'.
Proof.
  intros Hc Hc' Hd. revert c c' Hc Hc'. induction Hd as [|b d Hb Hd IH]; intros c c' Hc Hc' E; [done |].
  simpl in E. apply IH in E; [| by apply crc_byte_u32 ..].
  apply (lxor_cancel_r _ _ b). by apply crc_byte_inj.
Qed.

Lemma u32_max_u32 : is_u32 u32_max.
Proof. width. Qed.
#[local] Hint Resolve u32_max_u32 : lichen.

Lemma crc32_u32 d : bytes_ok d -> is_u32 (crc32 d).
Proof. intros. apply lxor_u32; [width |]. apply crc_fold_u32; [width | done]. Qed.

(** Changing one byte changes the checksum. *)
Lemma crc32_byte_change pre b b' post :
  bytes_ok (pre ++ b :: post) -> is_u8 b' -> b' <> b ->
  crc32 (pre ++ b' :: post) <> crc32 (pre ++ b :: post).
Proof.
  intros [Hpre [Hb Hpost]%Forall_cons]%Forall_app Hb' Hne E. apply Hne. unfold crc32 in E.
  rewrite !(Z.lxor_comm u32_max) in E. apply lxor_cancel_r in E.
  rewrite !foldl_app in E. simpl in E.
  assert (is_u32 (foldl crc_byte u32_max pre)) as Hc by (apply crc_fold_u32; auto with lichen).
  apply crc_fold_inj in E; [| by apply crc_byte_u32 .. | done].
  apply crc_byte_inj in E; [| done..].
  rewrite !(Z.lxor_comm (foldl crc_byte u32_max pre)) in E. by apply lxor_cancel_r in E.
Qed.

(** *** The format *)

Lemma length_slot_body m g p : length m = 4%nat -> length (slot_body m g p) = (20 + length p)%nat.
Proof. intros Hm. unfold slot_body. rewrite !length_app, !length_to_be, Hm. simpl. lia. Qed.

Lemma length_slot_bytes m g p : length m = 4%nat -> length (slot_bytes m g p) = (24 + length p)%nat.
Proof.
  intros Hm. unfold slot_bytes. rewrite length_app, length_slot_body, length_to_be by done. lia.
Qed.

Lemma slot_body_ok m g p : bytes_ok m -> bytes_ok p -> bytes_ok (slot_body m g p).
Proof.
  intros. unfold slot_body. rewrite !Forall_app. repeat split; auto with lichen.
  repeat constructor; unfold SLOT_VERSION; width.
Qed.

(** [encode_slot] writes exactly the slot's bytes at the front of the buffer
    and leaves the rest. *)
Lemma encode_slot_bytes m g p out :
  length m = 4%nat ->
  encode_slot m g p out =
    if (g =? 0) || (u32_max <? Z.of_nat (length p)) || (length out <? 24 + length p)%nat then None
    else Some ((24 + length p)%nat, slot_bytes m g p ++ drop (24 + length p) out).
Proof.
  intros Hm. unfold encode_slot, SLOT_HEADER_LEN, SLOT_TRAILER_LEN.
  replace (20 + length p + 4)%nat with (24 + length p)%nat by lia.
  destruct (_ || _) eqn:E; [done |]. bool_to_prop.
  change [0; 0; 0] with ([0; 0] ++ [0]). rewrite insert_inserts.
  rewrite (inserts_adjacent 0 4) by (simpl; lia).
  rewrite (inserts_adjacent 0 5) by (rewrite length_app; simpl; lia).
  rewrite (inserts_adjacent 0 8) by (rewrite !length_app; simpl; lia).
  rewrite (inserts_adjacent 0 16) by (rewrite !length_app, length_to_be; simpl; lia).
  rewrite (inserts_adjacent 0 20) by (rewrite !length_app, !length_to_be; simpl; lia).
  set (body := (((((m ++ _) ++ _) ++ _) ++ _) ++ _)).
  assert (body = slot_body m g p) as ->.
  { unfold body, slot_body. by rewrite <- !app_assoc. }
  rewrite (inserts_adjacent 0) by (rewrite length_slot_body by done; lia).
  rewrite (inserts_front (slot_body m g p)) by (rewrite length_slot_body by done; lia).
  rewrite take_app_le' by (rewrite length_slot_body by done; lia).
  fold (slot_bytes m g p).
  rewrite inserts_front by (rewrite length_slot_bytes by done; lia).
  by rewrite length_slot_bytes.
Qed.

Lemma slot_bytes_split m g p :
  slot_bytes m g p = m ++ [SLOT_VERSION] ++ [0; 0; 0] ++ to_be 8 g
    ++ to_be 4 (Z.of_nat (length p)) ++ p ++ to_be 4 (crc32 (slot_body m g p)).
Proof. unfold slot_bytes, slot_body. by rewrite <- !app_assoc. Qed.

(** A slice of [l], split after the prefix [pre] by [H]. *)
Ltac cut_at H pre :=
  eapply (slice_app_eq pre);
  [rewrite H, <- ?app_assoc; reflexivity | rewrite ?length_app, ?length_to_be; simpl; lia ..].

Lemma parse_slot_bytes m g p :
  length m = 4%nat -> bytes_ok m -> bytes_ok p -> 1 <= g <= u64_max ->
  Z.of_nat (length p) <= u32_max -> parse_slot (slot_bytes m g p) m = Some (g, p).
Proof.
  intros Hm Hmb Hpb Hg Hp. unfold parse_slot, SLOT_HEADER_LEN, SLOT_TRAILER_LEN.
  rewrite (length_slot_bytes m g p Hm), (proj2 (Nat.ltb_ge _ _)) by lia.
  pose proof (slot_bytes_split m g p) as Hs.
  assert (take 4 (slot_bytes m g p) = m) as -> by (rewrite Hs; by apply take_app_le').
  assert (nth 4 (slot_bytes m g p) 0 = SLOT_VERSION) as ->.
  { rewrite Hs. eapply (nth_app_eq m); [reflexivity | lia]. }
  assert (slice 5 8 (slot_bytes m g p) = [0; 0; 0]) as -> by cut_at Hs (m ++ [SLOT_VERSION]).
  assert (slice 8 16 (slot_bytes m g p) = to_be 8 g) as ->
    by cut_at Hs (m ++ [SLOT_VERSION] ++ [0; 0; 0]).
  assert (slice 16 20 (slot_bytes m g p) = to_be 4 (Z.of_nat (length p))) as ->
    by cut_at Hs (m ++ [SLOT_VERSION] ++ [0; 0; 0] ++ to_be 8 g).
  assert (slice 20 (20 + length p) (slot_bytes m g p) = p) as Hp'
    by cut_at Hs (m ++ [SLOT_VERSION] ++ [0; 0; 0] ++ to_be 8 g ++ to_be 4 (Z.of_nat (length p))).
  rewrite from_be_to_be_u64 by width. rewrite from_be_to_be_u32 by width. rewrite Nat2Z.id.
  rewrite !bool_decide_eq_true_2 by done. simpl orb.
  rewrite (proj2 (Z.eqb_neq g 0)) by lia. rewrite (proj2 (Nat.eqb_eq _ _)) by lia. simpl orb.
  rewrite Hp'. unfold slot_bytes.
  rewrite take_app_le' by (rewrite length_slot_body by done; lia).
  rewrite drop_app_length' by (rewrite length_slot_body by done; lia).
  rewrite from_be_to_be_u32 by (by apply crc32_u32, slot_body_ok).
  by rewrite Z.eqb_refl.
Qed.

Lemma to_be_from_be_len n l : length l = n -> bytes_ok l -> to_be n (from_be l) = l.
Proof. intros <-. apply to_be_from_be. Qed.

Lemma slice_one {A} i (l : list A) d : (i < length l)%nat -> slice i (S i) l = [nth i l d].
Proof.
  intros Hi. unfold slice. replace (S i - i)%nat with 1%nat by lia.
  destruct (lookup_lt_is_Some_2 l i Hi) as [x Hx].
  rewrite (drop_S _ _ _ Hx). simpl. by rewrite (nth_lookup_Some _ _ _ _ Hx).
Qed.

(** Nothing but the encoder's bytes parses. *)
Lemma parse_slot_canonical m g p raw :
  bytes_ok raw -> length m = 4%nat -> parse_slot raw m = Some (g, p) ->
  raw = slot_bytes m g p /\ 1 <= g <= u64_max /\ Z.of_nat (length p) <= u32_max.
Proof.
  intros Hok Hm. unfold parse_slot, SLOT_HEADER_LEN, SLOT_TRAILER_LEN.
  destruct (_ || _) eqn:E1; [done |]. bool_to_prop.
  destruct (_ || _) eqn:E2; [done |]. bool_to_prop.
  destruct (Z.eqb_spec (crc32 (take (20 + Z.to_nat (from_be (slice 16 20 raw))) raw))
              (from_be (drop (20 + Z.to_nat (from_be (slice 16 20 raw))) raw))) as [Ec | Ec]; [| done].
  set (n := Z.to_nat (from_be (slice 16 20 raw))) in *. intros [= Eg Ep].
  change (slice 20 (20 + n) raw = p) in Ep. subst g p.
  repeat match goal with H : bool_decide _ = true |- _ => apply bool_decide_eq_true_1 in H end.
  assert (Hlen : length raw = (24 + n)%nat) by lia.
  assert (Hn : length (slice 16 20 raw) = 4%nat) by (rewrite slice_length; lia).
  assert (Hg : length (slice 8 16 raw) = 8%nat) by (rewrite slice_length; lia).
  assert (Hp : length (slice 20 (20 + n) raw) = n) by (rewrite slice_length; lia).
  assert (is_u32 (from_be (slice 16 20 raw))) as Hnr by (apply from_be_u32; [by apply slice_Forall | lia]).
  assert (is_u64 (from_be (slice 8 16 raw))) as Hgr by (apply from_be_u64; [by apply slice_Forall | lia]).
  assert (take (20 + n) raw = slot_body m (from_be (slice 8 16 raw)) (slice 20 (20 + n) raw)) as Hbody.
  { unfold slot_body. rewrite Hp. unfold n at 2. rewrite Z2Nat.id by width.
    rewrite !to_be_from_be_len by (first [done | by apply slice_Forall]).
    transitivity (slice 0 (20 + n) raw); [unfold slice; by rewrite Nat.sub_0_r, drop_0 |].
    rewrite <- (slice_split 0 4 (20 + n)), <- (slice_split 4 5 (20 + n)), <- (slice_split 5 8 (20 + n)),
      <- (slice_split 8 16 (20 + n)), <- (slice_split 16 20 (20 + n)) by lia.
    f_equal; [unfold slice; by rewrite drop_0 |].
    rewrite (slice_one 4 raw 0) by lia. by rewrite H1, H0. }
  split; [| rewrite Hp; unfold n; split; width].
  unfold slot_bytes. rewrite <- Hbody, Ec.
  assert (length (drop (20 + n) raw) = 4%nat) as Hd by (rewrite length_drop; lia).
  rewrite to_be_from_be_len by (first [done | by apply Forall_drop]). by rewrite take_drop.
Qed.

(** The slot format round-trips and is canonical: a non-zero generation and
    a payload that fits the buffer are encoded, the bytes written parse back to
    exactly that generation and payload, the rest of the buffer is untouched;
    and any bytes that parse are the encoding of what they parse to. *)
Lemma slot_roundtrip magic g payload out raw :
  length magic = 4%nat -> bytes_ok magic -> bytes_ok payload -> 1 <= g <= u64_max ->
  Z.of_nat (length payload) <= u32_max -> (24 + length payload <= length out)%nat ->
  bytes_ok raw ->
  (exists len out', encode_slot magic g payload out = Some (len, out') /\
     parse_slot (take len out') magic = Some (g, payload) /\ drop len out' = drop len out) /\
  (parse_slot raw magic = Some (g, payload) -> raw = slot_bytes magic g payload).
Proof.
  intros Hm Hmb Hpb Hg Hp Hout Hraw. split.
  - rewrite encode_slot_bytes by done.
    rewrite (proj2 (Z.eqb_neq g 0)), (proj2 (Z.ltb_ge _ _)), (proj2 (Nat.ltb_ge _ _)) by lia.
    do 2 eexists. split; [reflexivity |]. rewrite <- (length_slot_bytes magic g payload Hm).
    rewrite take_app_length, drop_app_length. split; [by apply parse_slot_bytes | done].
  - intros H. by eapply parse_slot_canonical in H as [? _].
Qed.

(** a record that opens does not open after any one of its bytes is
    altered, whichever byte it is: the magic, version and reserved bytes are
    compared, the length must account for every byte, and the checksum detects
    every single-byte change in the rest. *)
Lemma single_byte_corruption_detected magic raw g payload i b' :
  bytes_ok raw -> length magic = 4%nat -> parse_slot raw magic = Some (g, payload) ->
  (i < length raw)%nat -> is_u8 b' -> raw !! i <> Some b' ->
  parse_slot (<[i := b']> raw) magic = None.
Proof.
  intros Hok Hm Hp Hi Hb Hne. apply eq_None_not_Some. intros [[g' p'] Hp'].
  destruct (lookup_lt_is_Some_2 raw i Hi) as [b Hlk].
  assert (bytes_ok (<[i := b']> raw)) as Hok' by (by apply Forall_insert).
  apply parse_slot_canonical in Hp as (Hr & Hg & Hl); [| done..].
  apply parse_slot_canonical in Hp' as (Hr' & Hg' & Hl'); [| done..].
  assert (length p' = length payload) as Elen.
  { apply (f_equal length) in Hr, Hr'. rewrite length_insert in Hr'.
    rewrite length_slot_bytes in Hr, Hr' by done. lia. }
  set (body := slot_body magic g payload) in *. set (body' := slot_body magic g' p') in *.
  assert (length body' = length body) as Eb by (unfold body, body'; rewrite !length_slot_body by done; lia).
  assert (bytes_ok body /\ bytes_ok body') as [Hbo Hbo'].
  { split; [rewrite Hr in Hok | rewrite Hr' in Hok']; unfold slot_bytes in *.
    - by apply Forall_app in Hok as [? _].
    - by apply Forall_app in Hok' as [? _]. }
  rewrite Hr in Hr', Hlk, Hne, Hi. unfold slot_bytes in Hr', Hlk, Hi. fold body body' in Hr', Hlk, Hi.
  destruct (Nat.lt_ge_cases i (length body)) as [Hlt | Hge].
  - rewrite insert_app_l in Hr' by done. rewrite lookup_app_l in Hlk by done.
    apply app_inj_1 in Hr' as [E1 E2]; [| by rewrite length_insert].
    apply (f_equal from_be) in E2.
    rewrite !from_be_to_be_u32 in E2 by (by apply crc32_u32).
    rewrite <- E1 in E2. rewrite <- (take_drop_middle body i b Hlk) in E2 at 1.
    rewrite insert_take_drop in E2 by done. symmetry in E2. revert E2.
    apply crc32_byte_change; [by rewrite take_drop_middle | done |].
    intros ->. apply Hne. unfold slot_bytes. fold body. rewrite lookup_app_l by done. exact Hlk.
  - rewrite insert_app_r_alt in Hr' by done. rewrite lookup_app_r in Hlk by done.
    apply app_inj_1 in Hr' as [E1 E2]; [| done].
    rewrite <- E1 in E2. apply Hne. unfold slot_bytes. fold body. rewrite lookup_app_r by done.
    rewrite <- E2. rewrite list_lookup_insert_eq; [done |].
    rewrite length_app in Hi. lia.
Qed.

End Slot.

(** ** Two-slot values *)
Module Redundant.
Import Slot.

Inductive RedundantOpenError (E : Type) : Type :=
  | OMissing | OCorrupt | OBufferTooSmall | OStorage (e : E).
Inductive RedundantProvisionError (E : Type) : Type :=
  | PExists | PStorage (e : E).
Inductive RedundantUpdateError (E : Type) : Type :=
  | UStorage (e : E) | UStale | UExhausted | UCorrupt.
Arguments OMissing {E}.
Arguments OCorrupt {E}.
Arguments OBufferTooSmall {E}.
Arguments OStorage {E} e.
Arguments PExists {E}.
Arguments PStorage {E} e.
Arguments UStorage {E} e.
Arguments UStale {E}.
Arguments UExhausted {E}.
Arguments UCorrupt {E}.

Record RedundantValue := { generation : Z; slot : nat; len : nat }.
#[export] Instance redundant_value_eq_dec : EqDecision RedundantValue.
Proof. solve_decision. Defined.

(** [keys: [&str; 2]]. *)
Abbreviation slot_keys := (string * string)%type.
Definition key_of (keys : slot_keys) (i : nat) : option string :=
  match i with 0%nat => Some keys.1 | 1%nat => Some keys.2 | _ => None end.

Section ops.
Context {S SE : Type} `{!NonVolatile S SE}.
Implicit Types (s : S) (keys : slot_keys) (magic : bytes).

(** The result refers to the buffer, which is returned with it. *)
Definition read_raw s (key : string) (buf : bytes) :
    S * result (RedundantOpenError SE) (option bytes * bytes) :=
  match nv_read s key buf with
  | (s, Err e) => (s, Err (OStorage e))
  | (s, Ok (None, buf)) => (s, Ok (None, buf))
  | (s, Ok (Some n, buf)) =>
      if (length buf <? n)%nat then (s, Err OBufferTooSmall) else (s, Ok (Some (take n buf), buf))
  end.

(** Generation and payload length of a valid slot, whether any data was
    present, and the buffer. *)
Definition read_parsed_update s (key : string) (buf magic : bytes) :
    S * result (RedundantUpdateError SE) (option (Z * nat) * bool * bytes) :=
  match read_raw s key buf with
  | (s, Err (OStorage e)) => (s, Err (UStorage e))
  | (s, Err _) => (s, Err UCorrupt)
  | (s, Ok (raw, buf)) =>
      let parsed := raw ≫= fun raw => parse_slot raw magic in
      (s, Ok ((fun p => (p.1, length p.2)) <$> parsed, bool_decide (is_Some raw), buf))
  end.

Definition open_redundant s keys magic (slot_a slot_b out : bytes) :
    S * result (RedundantOpenError SE) (RedundantValue * bytes) :=
  match read_raw s keys.1 slot_a with
  | (s, Err e) => (s, Err e)
  | (s, Ok (raw_a, _)) =>
    match read_raw s keys.2 slot_b with
    | (s, Err e) => (s, Err e)
    | (s, Ok (raw_b, _)) =>
      let parsed_a := raw_a ≫= fun raw => parse_slot raw magic in
      let parsed_b := raw_b ≫= fun raw => parse_slot raw magic in
      let newest : result (RedundantOpenError SE) (Z * nat * bytes) :=
        match parsed_a, parsed_b with
        | Some a, Some b => if a.1 <? b.1 then Ok (b.1, 1%nat, b.2) else Ok (a.1, 0%nat, a.2)
        | Some a, None => Ok (a.1, 0%nat, a.2)
        | None, Some b => Ok (b.1, 1%nat, b.2)
        | None, None =>
            if bool_decide (raw_a = None) && bool_decide (raw_b = None) then Err OMissing
            else Err OCorrupt
        end in
      match newest with
      | Err e => (s, Err e)
      | Ok (g, i, payload) =>
          if (length out <? length payload)%nat then (s, Err OBufferTooSmall)
          else (s, Ok ({| generation := g; slot := i; len := length payload |},
                       list_inserts 0 payload out))
      end
    end
  end.

(** [None]: the [expect] on the record buffer fails. *)
Definition provision_redundant s keys magic (payload record : bytes) :
    option (S * result (RedundantProvisionError SE) unit) :=
  let present := [0] in
  match nv_read s keys.1 present with
  | (s, Err e) => Some (s, Err (PStorage e))
  | (s, Ok (a, present)) =>
    match nv_read s keys.2 present with
    | (s, Err e) => Some (s, Err (PStorage e))
    | (s, Ok (b, _)) =>
      if bool_decide (is_Some a) || bool_decide (is_Some b) then Some (s, Err PExists)
      else
        '(n, record) ← encode_slot magic 1 payload record;
        let '(s, r) := nv_write s keys.1 (take n record) in
        Some (s, map_err PStorage r)
    end
  end.

(** [None]: the [expect] fails, or [keys[slot]] is out of range. *)
Definition update_redundant s keys magic (current : RedundantValue) (payload record : bytes) :
    option (S * result (RedundantUpdateError SE) RedundantValue) :=
  match read_parsed_update s keys.1 record magic with
  | (s, Err e) => Some (s, Err e)
  | (s, Ok (parsed_a, a_present, record)) =>
    match read_parsed_update s keys.2 record magic with
    | (s, Err e) => Some (s, Err e)
    | (s, Ok (parsed_b, b_present, record)) =>
      let latest : result (RedundantUpdateError SE) RedundantValue :=
        match parsed_a, parsed_b with
        | Some a, Some b =>
            if a.1 <? b.1 then Ok {| generation := b.1; slot := 1; len := b.2 |}
            else Ok {| generation := a.1; slot := 0; len := a.2 |}
        | Some a, None => Ok {| generation := a.1; slot := 0; len := a.2 |}
        | None, Some b => Ok {| generation := b.1; slot := 1; len := b.2 |}
        | None, None => if negb a_present && negb b_present then Err UStale else Err UCorrupt
        end in
      match latest with
      | Err e => Some (s, Err e)
      | Ok latest =>
        if negb (generation latest =? generation current) || negb (slot latest =? slot current)%nat
        then Some (s, Err UStale)
        else match checked_add u64_max (generation current) 1 with
        | None => Some (s, Err UExhausted)
        | Some g =>
          '(n, record) ← encode_slot magic g payload record;
          let i := (1 - slot current)%nat in
          key ← key_of keys i;
          match nv_write s key (take n record) with
          | (s, Err e) => Some (s, Err (UStorage e))
          | (s, Ok _) => Some (s, Ok {| generation := g; slot := i; len := length payload |})
          end
        end
      end
    end
  end.

(** *** What a store holds *)

(** The record in a slot, when it parses. *)
Definition slot_value magic (m : gmap string bytes) (key : string) : option (Z * bytes) :=
  m !! key ≫= fun raw => parse_slot raw magic.

(** The value the two slots hold: generation, slot and payload of the newer
    valid one, slot 0 on a tie. *)
Definition current_value magic keys (m : gmap string bytes) : option (Z * nat * bytes) :=
  match slot_value magic m keys.1, slot_value magic m keys.2 with
  | Some a, Some b => if a.1 <? b.1 then Some (b.1, 1%nat, b.2) else Some (a.1, 0%nat, a.2)
  | Some a, None => Some (a.1, 0%nat, a.2)
  | None, Some b => Some (b.1, 1%nat, b.2)
  | None, None => None
  end.

(** Every record of the store is bytes, and the slots' records fit [n]-byte
    buffers. *)
Definition store_ok (m : gmap string bytes) : Prop := map_Forall (fun _ d => bytes_ok d) m.
Definition slots_fit keys (n : nat) (m : gmap string bytes) : Prop :=
  forall d, m !! keys.1 = Some d \/ m !! keys.2 = Some d -> (length d <= n)%nat.

Lemma read_raw_spec s key buf s' r :
  read_raw s key buf = (s', r) ->
  nv_contents s' = nv_contents s /\
  match r with
  | Ok (raw, buf') => raw = nv_contents s !! key /\ length buf' = length buf /\
      forall d, raw = Some d -> (length d <= length buf)%nat
  | Err OBufferTooSmall => exists d, nv_contents s !! key = Some d /\ (length buf < length d)%nat
  | Err (OStorage _) => True
  | Err _ => False
  end.
Proof.
  unfold read_raw. pose proof (nv_read_keeps s key buf) as Hk.
  destruct (nv_read s key buf) as [s1 [[[n|] buf1] | e]] eqn:E; simpl in Hk.
  - pose proof (nv_read_len _ _ _ _ _ _ E) as Hl.
    apply nv_read_some in E as (d & Hd & Htake & Hfit & Hbig).
    destruct (Nat.ltb_spec (length buf1) n) as [Hlt | Hge]; intros [= <- <-]; split; try done.
    + exists d. split; [done |]. lia.
    + assert (length d <= length buf)%nat as Hle by (destruct (Nat.le_gt_cases (length d) (length buf)); [done | lia]).
      rewrite (Hfit Hle). rewrite Nat.min_l in Htake by done.
      rewrite Htake, Hd, take_ge by done. repeat split; [lia |]. by intros ? [= <-].
  - intros [= <- <-]. split; [done |]. rewrite (nv_read_none _ _ _ _ _ E).
    by rewrite (nv_read_len _ _ _ _ _ _ E).
  - by intros [= <- <-].
Qed.

Lemma read_parsed_update_spec s key buf magic s' r :
  read_parsed_update s key buf magic = (s', r) ->
  nv_contents s' = nv_contents s /\
  match r with
  | Ok (parsed, present, buf') =>
      parsed = (fun p => (p.1, length p.2)) <$> slot_value magic (nv_contents s) key /\
      present = bool_decide (is_Some (nv_contents s !! key)) /\ length buf' = length buf
  | Err (UStorage _) => True
  | Err UCorrupt => exists d, nv_contents s !! key = Some d /\ (length buf < length d)%nat
  | Err _ => False
  end.
Proof.
  unfold read_parsed_update. destruct (read_raw s key buf) as [s1 r1] eqn:E.
  apply read_raw_spec in E as [Hc Hr]. destruct r1 as [[raw buf1] | e].
  - intros [= <- <-]. destruct Hr as (-> & ? & _). done.
  - destruct e; intros [= <- <-]; done.
Qed.

Definition open_result (cur : option (Z * nat * bytes)) (out : bytes)
    (r : result (RedundantOpenError SE) (RedundantValue * bytes)) : Prop :=
  match r with
  | Ok (v, out') => exists payload,
      cur = Some (generation v, slot v, payload) /\
      len v = length payload /\ (length payload <= length out)%nat /\
      take (len v) out' = payload /\ length out' = length out
  | Err OBufferTooSmall => exists v, cur = Some v /\ (length out < length v.2)%nat
  | Err _ => False
  end.

Lemma open_finish s2 g i payload out s' r :
  (if (length out <? length payload)%nat then (s2, Err OBufferTooSmall)
   else (s2, Ok ({| generation := g; slot := i; len := length payload |},
                 list_inserts 0 payload out))) = (s', r) ->
  s' = s2 /\ open_result (Some (g, i, payload)) out r.
Proof.
  destruct (Nat.ltb_spec (length out) (length payload)) as [Hlt | Hge]; intros [= <- <-];
    (split; [done |]).
  - eexists. split; [reflexivity | exact Hlt].
  - exists payload. simpl. rewrite inserts_front, take_app_length by done.
    rewrite length_app, length_drop. repeat split; [done | lia].
Qed.

(** The newest value, as [open_redundant] reports it. *)
Lemma open_redundant_spec s keys magic a b out s' r :
  open_redundant s keys magic a b out = (s', r) ->
  nv_contents s' = nv_contents s /\
  (open_result (current_value magic keys (nv_contents s)) out r \/
   match r with
   | Ok _ => False
   | Err OMissing => nv_contents s !! keys.1 = None /\ nv_contents s !! keys.2 = None
   | Err OCorrupt => current_value magic keys (nv_contents s) = None /\
       (is_Some (nv_contents s !! keys.1) \/ is_Some (nv_contents s !! keys.2))
   | Err OBufferTooSmall => ~ slots_fit keys (length a `min` length b) (nv_contents s)
   | Err (OStorage _) => True
   end).
Proof.
  unfold open_redundant. destruct (read_raw s keys.1 a) as [s1 r1] eqn:E1.
  apply read_raw_spec in E1 as [Hc1 H1]. destruct r1 as [[ra ba] | e1].
  2: { intros [= <- <-]. split; [done |]. right. destruct e1; try done. intros Hf.
       destruct H1 as (d & Hd & Hlt). specialize (Hf d (or_introl Hd)). lia. }
  destruct (read_raw s1 keys.2 b) as [s2 r2] eqn:E2.
  apply read_raw_spec in E2 as [Hc2 H2]. rewrite Hc1 in *. destruct r2 as [[rb bb] | e2].
  2: { intros [= <- <-]. split; [done |]. right. destruct e2; try done. intros Hf.
       destruct H2 as (d & Hd & Hlt). specialize (Hf d (or_intror Hd)). lia. }
  destruct H1 as (-> & _ & _), H2 as (-> & _ & _).
  unfold current_value, slot_value.
  destruct (nv_contents s !! keys.1 ≫= _) as [pa|] eqn:Ea,
    (nv_contents s !! keys.2 ≫= _) as [pb|] eqn:Eb; simpl.
  - destruct (pa.1 <? pb.1); intros [-> Hr]%open_finish; auto.
  - intros [-> Hr]%open_finish; auto.
  - intros [-> Hr]%open_finish; auto.
  - do 2 case_bool_decide; simpl; intros [= <- <-]; (split; [done |]); right; try done;
      (split; [done |]); rewrite <- !not_eq_None_Some; tauto.
Qed.

Definition other_key keys (i : nat) : string := match i with 0%nat => keys.2 | _ => keys.1 end.

Lemma current_value_slot magic keys m g i p :
  current_value magic keys m = Some (g, i, p) -> (i < 2)%nat.
Proof.
  unfold current_value. destruct (slot_value magic m keys.1), (slot_value magic m keys.2);
    try destruct (_ <? _); intros [= <- <- <-]; lia.
Qed.

Lemma slot_value_u64 magic m key g p :
  store_ok m -> length magic = 4%nat -> slot_value magic m key = Some (g, p) -> 1 <= g <= u64_max.
Proof.
  intros Hok Hm (raw & Hraw & Hp)%bind_Some.
  apply parse_slot_canonical in Hp as (_ & ? & _); [done | by eapply Hok | done].
Qed.

(** Writing the next generation in the other slot makes it the current
    value. *)
Lemma current_value_next magic keys m g i old payload :
  keys.1 <> keys.2 -> length magic = 4%nat -> bytes_ok magic -> bytes_ok payload ->
  Z.of_nat (length payload) <= u32_max -> 0 <= g < u64_max ->
  current_value magic keys m = Some (g, i, old) ->
  current_value magic keys (<[other_key keys i := slot_bytes magic (g + 1) payload]> m) =
    Some (g + 1, (1 - i)%nat, payload).
Proof.
  intros Hk Hm Hmb Hpb Hl Hg Hcur.
  assert (Hnew : forall key, slot_value magic (<[key := slot_bytes magic (g + 1) payload]> m) key
            = Some (g + 1, payload)).
  { intros key. unfold slot_value. rewrite lookup_insert_eq. simpl. apply parse_slot_bytes; [done.. | lia | done]. }
  assert (Hold : forall key key', key <> key' ->
            slot_value magic (<[key := slot_bytes magic (g + 1) payload]> m) key' = slot_value magic m key').
  { intros key key' Hne. unfold slot_value. by rewrite lookup_insert_ne. }
  unfold current_value in *.
  destruct (slot_value magic m keys.1) as [a|] eqn:Ea, (slot_value magic m keys.2) as [b|] eqn:Eb;
    try destruct (Z.ltb_spec a.1 b.1); simplify_eq; unfold other_key.
  all: rewrite ?Hnew, ?(Hold keys.1 keys.2), ?(Hold keys.2 keys.1), ?Ea, ?Eb by congruence; simpl.
  all: first [rewrite (proj2 (Z.ltb_lt _ _)) by lia | rewrite (proj2 (Z.ltb_ge _ _)) by lia | idtac]; done.
Qed.

(** [update_redundant] on a record buffer that holds the new record: it never
    panics, writes nothing or exactly the other slot, and every error is
    explained. *)
Definition update_result magic keys (current : RedundantValue) (payload : bytes) (n : nat)
    (m m' : gmap string bytes) (r : result (RedundantUpdateError SE) RedundantValue) : Prop :=
  match r with
  | Ok v =>
      (exists old, current_value magic keys m = Some (generation current, slot current, old)) /\
      v = {| generation := generation current + 1; slot := 1 - slot current; len := length payload |} /\
      m' = <[other_key keys (slot current) := slot_bytes magic (generation v) payload]> m /\
      current_value magic keys m' = Some (generation v, slot v, payload)
  | Err e => m' = m /\
      match e with
      | UStale => forall payload',
          current_value magic keys m <> Some (generation current, slot current, payload')
      | UExhausted => generation current = u64_max
      | UCorrupt => ~ slots_fit keys n m \/ current_value magic keys m = None
      | UStorage _ => True
      end
  end.

Lemma update_redundant_spec s keys magic current payload record :
  keys.1 <> keys.2 -> length magic = 4%nat -> bytes_ok magic -> bytes_ok payload ->
  Z.of_nat (length payload) <= u32_max -> (24 + length payload <= length record)%nat ->
  store_ok (nv_contents s) ->
  exists s' r, update_redundant s keys magic current payload record = Some (s', r) /\
    update_result magic keys current payload (length record) (nv_contents s) (nv_contents s') r.
Proof.
  intros Hk Hm Hmb Hpb Hl Hrec Hok. unfold update_redundant.
  destruct (read_parsed_update s keys.1 record magic) as [s1 r1] eqn:E1.
  apply read_parsed_update_spec in E1 as [Hc1 H1]. destruct r1 as [[[pa prea] rec1] | e1].
  2: { do 2 eexists. split; [reflexivity |]. split; [done |]. destruct e1; try done. left.
       intros Hf. destruct H1 as (d & Hd & Hlt). specialize (Hf d (or_introl Hd)). lia. }
  destruct H1 as (-> & -> & Hl1).
  destruct (read_parsed_update s1 keys.2 rec1 magic) as [s2 r2] eqn:E2.
  apply read_parsed_update_spec in E2 as [Hc2 H2]. rewrite Hc1 in *. destruct r2 as [[[pb preb] rec2] | e2].
  2: { do 2 eexists. split; [reflexivity |]. split; [done |]. destruct e2; try done. left.
       intros Hf. destruct H2 as (d & Hd & Hlt). specialize (Hf d (or_intror Hd)). lia. }
  destruct H2 as (-> & -> & Hl2). set (m := nv_contents s) in *.
  match goal with |- context [match ?l with Ok _ => _ | Err e => Some (s2, Err e) end] =>
    assert (l = match current_value magic keys m with
                | Some (g, i, p) => Ok {| generation := g; slot := i; len := length p |}
                | None => if negb (bool_decide (is_Some (m !! keys.1))) && negb (bool_decide (is_Some (m !! keys.2)))
                          then Err UStale else Err UCorrupt
                end) as -> end.
  { unfold current_value. destruct (slot_value magic m keys.1), (slot_value magic m keys.2); simpl;
      try destruct (_ <? _); done. }
  destruct (current_value magic keys m) as [[[g i] old]|] eqn:Ecur.
  2: { destruct (_ && _); do 2 eexists; (split; [reflexivity |]); (split; [done |]);
         [intros ?; by rewrite Ecur | by right]. }
  cbv beta iota. cbn [generation slot].
  destruct (_ || _) eqn:Est.
  { do 2 eexists. split; [reflexivity |]. split; [done |]. intros p' Hp'. rewrite Ecur in Hp'.
    injection Hp' as -> -> _. rewrite Z.eqb_refl, Nat.eqb_refl in Est. done. }
  bool_to_prop. subst g i.
  assert (1 <= generation current <= u64_max) as Hg.
  { unfold current_value in Ecur.
    destruct (slot_value magic m keys.1) as [[]|] eqn:Ea, (slot_value magic m keys.2) as [[]|] eqn:Eb;
      simpl in Ecur; try destruct (_ <? _); try discriminate Ecur; injection Ecur as <- _ _;
      by eapply slot_value_u64. }
  unfold checked_add. destruct (Z.leb_spec (generation current + 1) u64_max).
  2: { do 2 eexists. split; [reflexivity |]. split; [done |]. lia. }
  rewrite encode_slot_bytes by done.
  rewrite (proj2 (Z.eqb_neq _ 0)), (proj2 (Z.ltb_ge _ _)), (proj2 (Nat.ltb_ge _ _)) by lia.
  simpl. rewrite (take_app_le' (slot_bytes _ _ _)) by (by rewrite length_slot_bytes).
  pose proof (current_value_slot _ _ _ _ _ _ Ecur).
  assert (key_of keys (1 - slot current) = Some (other_key keys (slot current))) as ->
    by (destruct (slot current) as [|[|]]; [done.. | lia]).
  simpl. destruct (nv_write s2 _ _) as [s3 [[] | e]] eqn:Ew; do 2 eexists; (split; [reflexivity |]).
  - apply nv_write_ok in Ew. rewrite Ew, Hc2. fold m. split; [by exists old |]. split; [done |].
    split; [done |]. simpl. eapply current_value_next; eauto; lia.
  - apply nv_write_err in Ew. split; [by rewrite Ew, Hc2 | done].
Qed.

(** [provision_redundant] on a record buffer that holds the record. *)
Lemma provision_redundant_spec s keys magic payload record :
  keys.1 <> keys.2 -> length magic = 4%nat -> bytes_ok magic -> bytes_ok payload ->
  Z.of_nat (length payload) <= u32_max -> (24 + length payload <= length record)%nat ->
  exists s' r, provision_redundant s keys magic payload record = Some (s', r) /\
    match r with
    | Ok _ => nv_contents s !! keys.1 = None /\ nv_contents s !! keys.2 = None /\
        nv_contents s' = <[keys.1 := slot_bytes magic 1 payload]> (nv_contents s) /\
        current_value magic keys (nv_contents s') = Some (1, 0%nat, payload)
    | Err e => nv_contents s' = nv_contents s /\
        (e = PExists -> is_Some (nv_contents s !! keys.1) \/ is_Some (nv_contents s !! keys.2))
    end.
Proof.
  intros Hk Hm Hmb Hpb Hl Hrec. unfold provision_redundant.
  pose proof (nv_read_keeps s keys.1 [0]) as Hc1.
  destruct (nv_read s keys.1 [0]) as [s1 [[a pr] | e]] eqn:E1; simpl in Hc1.
  2: { do 2 eexists. split; [reflexivity |]. done. }
  pose proof (nv_read_keeps s1 keys.2 pr) as Hc2.
  destruct (nv_read s1 keys.2 pr) as [s2 [[b pr2] | e]] eqn:E2; simpl in Hc2.
  2: { do 2 eexists. split; [reflexivity |]. split; [congruence | done]. }
  rewrite Hc1 in Hc2. destruct (_ || _) eqn:Eab.
  { do 2 eexists. split; [reflexivity |]. split; [done |]. intros _.
    apply orb_true_iff in Eab as [H | H]; apply bool_decide_eq_true_1 in H as [n ->].
    - apply nv_read_some in E1 as (d & Hd & _). left. by exists d.
    - apply nv_read_some in E2 as (d & Hd & _). right. exists d. by rewrite <- Hc1. }
  apply orb_false_iff in Eab as [Ha Hb].
  apply bool_decide_eq_false_1, eq_None_not_Some in Ha as ->.
  apply bool_decide_eq_false_1, eq_None_not_Some in Hb as ->.
  apply nv_read_none in E1, E2. rewrite Hc1 in E2.
  rewrite encode_slot_bytes by done.
  rewrite (proj2 (Z.ltb_ge _ _)), (proj2 (Nat.ltb_ge _ _)) by lia.
  simpl. rewrite (take_app_le' (slot_bytes _ _ _)) by (by rewrite length_slot_bytes).
  destruct (nv_write s2 _ _) as [s3 [[] | e]] eqn:Ew; do 2 eexists; (split; [reflexivity |]); simpl.
  - apply nv_write_ok in Ew. rewrite Ew, Hc2. do 3 (split; [done |]).
    unfold current_value, slot_value. rewrite lookup_insert_eq, lookup_insert_ne, E2 by done.
    simpl. by rewrite parse_slot_bytes by (done || width).
  - apply nv_write_err in Ew. split; [congruence | done].
Qed.

(** *** Handles *)

(** A handle that was current once: the stored generation has not fallen below
    the handle's, and while it is the handle's, the stored payload is the one
    the handle stands for. *)
Definition handle_ok magic keys (c : RedundantValue) (P : bytes -> Prop) (m : gmap string bytes) : Prop :=
  exists g i p, current_value magic keys m = Some (g, i, p) /\ generation c <= g /\
    (generation c = g -> slot c = i /\ P p).

Lemma current_handle magic keys m g i p (P : bytes -> Prop) c :
  current_value magic keys m = Some (g, i, p) -> generation c = g -> slot c = i -> P p ->
  handle_ok magic keys c P m.
Proof. intros Hc <- <- HP. exists (generation c), (slot c), p. split; [done |]. split; [lia | done]. Qed.

(** Only a handle that is current updates: the value it replaces is the one it
    stands for, the new handle is current, and every other handle is still
    good. *)
Lemma update_handle magic keys c (P : bytes -> Prop) payload n m m' v :
  handle_ok magic keys c P m -> update_result magic keys c payload n m m' (Ok v) ->
  (exists old, current_value magic keys m = Some (generation c, slot c, old) /\ P old) /\
  current_value magic keys m' = Some (generation v, slot v, payload) /\
  generation v = generation c + 1 /\
  forall c' P', handle_ok magic keys c' P' m -> handle_ok magic keys c' P' m'.
Proof.
  intros (g & i & p & Hc & _ & Hp) ((old & Ho) & -> & Hm & Hc'). simpl in *.
  rewrite Hc in Ho. injection Ho as -> -> ->. destruct (Hp eq_refl) as [_ HP].
  split; [by exists old |]. split; [done |]. split; [done |].
  intros c' P' (g & i & p & Hcur & Hle & _). rewrite Hc in Hcur. injection Hcur as <- <- <-.
  exists (generation c + 1), (1 - slot c)%nat, payload. split; [done |]. split; [lia |]. lia.
Qed.

(** Writes to other keys do not matter. *)
Lemma current_value_frame magic keys (m m' : gmap string bytes) :
  m' !! keys.1 = m !! keys.1 -> m' !! keys.2 = m !! keys.2 ->
  current_value magic keys m' = current_value magic keys m.
Proof. intros H1 H2. unfold current_value, slot_value. by rewrite H1, H2. Qed.

(** What an update leaves in the store. *)
Lemma update_result_store magic keys c payload n k m m' r :
  length magic = 4%nat -> bytes_ok magic -> bytes_ok payload -> (24 + length payload <= k)%nat ->
  keys.1 <> keys.2 ->
  update_result magic keys c payload n m m' r -> store_ok m -> slots_fit keys k m ->
  store_ok m' /\ slots_fit keys k m' /\
  forall key, key <> keys.1 -> key <> keys.2 -> m' !! key = m !! key.
Proof.
  intros Hm Hmb Hpb Hk Hne Hu Hok Hfit. destruct r as [v | e]; [| by destruct Hu as [-> _]].
  destruct Hu as (_ & _ & -> & _). split_and!.
  - apply map_Forall_insert_2; [| done]. unfold slot_bytes. apply Forall_app. split; [by apply slot_body_ok | auto with lichen].
  - intros d [H | H]; apply lookup_insert_Some in H as [[_ <-] | [_ H]];
      first [by rewrite length_slot_bytes | apply Hfit; auto].
  - intros key H1 H2. apply lookup_insert_ne. unfold other_key. destruct (slot c); congruence.
Qed.

(** What opening must return for a store whose current value is [cur]: exactly
    it, or a storage failure. *)
Definition opens_as keys magic (n : nat) (s : S) (g : Z) (i : nat) (payload : bytes) : Prop :=
  forall a b out, (n <= length a)%nat -> (n <= length b)%nat -> (length payload <= length out)%nat ->
  match (open_redundant s keys magic a b out).2 with
  | Ok (v, out') => v = {| generation := g; slot := i; len := length payload |} /\
                    take (len v) out' = payload
  | Err (OStorage _) => True
  | Err _ => False
  end.

Lemma current_opens_as keys magic n s g i payload :
  current_value magic keys (nv_contents s) = Some (g, i, payload) ->
  slots_fit keys n (nv_contents s) -> opens_as keys magic n s g i payload.
Proof.
  intros Hcur Hfit a b out Ha Hb Hout.
  destruct (open_redundant s keys magic a b out) as [s' r] eqn:E. simpl.
  apply open_redundant_spec in E as [_ Hr]. rewrite Hcur in Hr.
  destruct r as [[v out'] | e]; destruct Hr as [Hr | Hr]; try done.
  - destruct Hr as (p & [= -> -> ->] & Hlen & _ & Ht & _). split; [| by rewrite Ht].
    destruct v; simpl in *. congruence.
  - destruct e; try done. destruct Hr as (v & [= <-] & Hlt). simpl in Hlt. lia.
  - destruct e; try done.
    + destruct Hr as [H1 H2]. unfold current_value, slot_value in Hcur. by rewrite H1, H2 in Hcur.
    + destruct Hr as [? _]. done.
    + apply Hr. intros d Hd. specialize (Hfit d Hd). lia.
Qed.

(** C10: updating a two-slot value is atomic, whatever the storage does.  The
    update returns (the [expect]s cannot fail); when it succeeds the handle was
    the current one and reopening, now or after a power loss, yields the new
    payload with the next generation; when it fails, whatever the error,
    reopening yields the old value; only the slot that does not hold the current
    value is ever written, and if that write is torn after all, leaving anything
    that is not a record in it, reopening still yields the old value. *)
Theorem update_redundant_crash_safe s keys magic current payload record g i old n :
  keys.1 <> keys.2 -> length magic = 4%nat -> bytes_ok magic -> bytes_ok payload ->
  Z.of_nat (length payload) <= u32_max -> (24 + length payload <= length record)%nat ->
  (24 + length payload <= n)%nat -> slots_fit keys n (nv_contents s) ->
  store_ok (nv_contents s) -> current_value magic keys (nv_contents s) = Some (g, i, old) ->
  exists s' r, update_redundant s keys magic current payload record = Some (s', r) /\
    match r with
    | Ok v => generation current = g /\ slot current = i /\ generation v = g + 1 /\
        opens_as keys magic n s' (g + 1) (slot v) payload
    | Err _ => opens_as keys magic n s' g i old
    end /\
    (forall key, key <> other_key keys i -> nv_contents s' !! key = nv_contents s !! key) /\
    forall s'' torn, (length torn <= n)%nat -> parse_slot torn magic = None ->
      nv_contents s'' = <[other_key keys i := torn]> (nv_contents s) ->
      opens_as keys magic n s'' g i old.
Proof.
  intros Hk Hm Hmb Hpb Hl Hrec Hn Hfit Hok Hcur.
  destruct (update_redundant_spec s keys magic current payload record) as (s' & r & Hu & Hr); [done.. |].
  exists s', r. split; [done |]. pose proof (current_value_slot _ _ _ _ _ _ Hcur) as Hi.
  assert (Hfit' : forall d, (length d <= n)%nat -> slots_fit keys n (<[other_key keys i := d]> (nv_contents s))).
  { intros d Hd d' [H | H]; apply lookup_insert_Some in H as [[_ <-] | [_ H]]; auto; apply Hfit; auto. }
  split_and!.
  - destruct r as [v | e].
    + destruct Hr as ([o Ho] & Hv & Hc & Hcur'). rewrite Hcur in Ho. injection Ho as -> -> ->.
      rewrite Hv in *. simpl in *. do 3 (split; [done |]). apply current_opens_as; [done |].
      rewrite Hc. apply Hfit'. by rewrite length_slot_bytes.
    + destruct Hr as [Hc _]. apply current_opens_as; by rewrite Hc.
  - intros key Hne. destruct r as [v | e]; [| by destruct Hr as [-> _]].
    destruct Hr as ([o Ho] & _ & -> & _). rewrite Hcur in Ho. injection Ho as -> -> _.
    by apply lookup_insert_ne.
  - intros s'' torn Ht Hp Hc. apply current_opens_as; rewrite Hc; [| by apply Hfit'].
    assert (slot_value magic (<[other_key keys i := torn]> (nv_contents s)) (other_key keys i) = None) as Hnew.
    { unfold slot_value. rewrite lookup_insert_eq. exact Hp. }
    assert (forall key, key <> other_key keys i ->
      slot_value magic (<[other_key keys i := torn]> (nv_contents s)) key = slot_value magic (nv_contents s) key) as Hold.
    { intros key Hne. unfold slot_value. by rewrite lookup_insert_ne. }
    unfold current_value in *.
    destruct i as [|[|]]; [| | lia]; simpl in *; rewrite Hnew, Hold by done;
      destruct (slot_value magic (nv_contents s) keys.1), (slot_value magic (nv_contents s) keys.2);
      try destruct (_ <? _); simplify_eq; done.
Qed.

End ops.
End Redundant.

(** ** Identity, counters and peer keys *)
Module Identity.

Definition IDENTITY_SEED : string := "id.seed".
Definition EPOCH : string := "id.epoch".
Definition SEQNUM : string := "id.seq".
Definition PEER_COUNT : string := "peers.n".
Definition MAX_PEERS : nat := 16.

(** [heapless::String<16>]: [None] is the [expect] on a key that does not
    fit. *)
Definition peer_key (index : nat) : option string :=
  let k := ("peer." +:+ pretty index)%string in
  if (String.length k <=? 16)%nat then Some k else None.

Section ops.
Context {S SE : Type} `{!NonVolatile S SE}.
Implicit Types s : S.

Definition load_seed s : S * result SE (option bytes) :=
  match nv_read s IDENTITY_SEED (replicate 32 0) with
  | (s, Err e) => (s, Err e)
  | (s, Ok (None, _)) => (s, Ok None)
  | (s, Ok (Some n, buf)) => (s, Ok (if (n =? 32)%nat then Some buf else None))
  end.
Definition save_seed s (seed : bytes) : S * result SE unit := nv_write s IDENTITY_SEED seed.

Definition load_epoch s : S * result SE (option Z) :=
  match nv_read s EPOCH [0] with
  | (s, Err e) => (s, Err e)
  | (s, Ok (None, _)) => (s, Ok None)
  | (s, Ok (Some n, buf)) => (s, Ok (if (n =? 1)%nat then Some (nth 0 buf 0) else None))
  end.
Definition save_epoch s (epoch : Z) : S * result SE unit := nv_write s EPOCH [epoch].

Definition load_seqnum s : S * result SE (option Z) :=
  match nv_read s SEQNUM [0; 0] with
  | (s, Err e) => (s, Err e)
  | (s, Ok (None, _)) => (s, Ok None)
  | (s, Ok (Some n, buf)) => (s, Ok (if (n =? 2)%nat then Some (from_be buf) else None))
  end.
Definition save_seqnum s (seqnum : Z) : S * result SE unit := nv_write s SEQNUM (to_be 2 seqnum).

Definition load_peer_count s : S * result SE nat :=
  match nv_read s PEER_COUNT [0] with
  | (s, Err e) => (s, Err e)
  | (s, Ok (None, _)) => (s, Ok 0%nat)
  | (s, Ok (Some n, buf)) => (s, Ok (if (n =? 1)%nat then Z.to_nat (nth 0 buf 0) else 0%nat))
  end.

Definition load_peer s (index : nat) : option (S * result SE (option bytes)) :=
  if (MAX_PEERS <=? index)%nat then Some (s, Ok None)
  else
    key ← peer_key index;
    Some (match nv_read s key (replicate 32 0) with
          | (s, Err e) => (s, Err e)
          | (s, Ok (None, _)) => (s, Ok None)
          | (s, Ok (Some n, buf)) => (s, Ok (if (n =? 32)%nat then Some buf else None))
          end).

Fixpoint write_peers s (i : nat) (peers : list bytes) : option (S * result SE unit) :=
  match peers with
  | [] => Some (s, Ok tt)
  | pubkey :: peers =>
      key ← peer_key i;
      match nv_write s key pubkey with
      | (s, Err e) => Some (s, Err e)
      | (s, Ok _) => write_peers s (i + 1) peers
      end
  end.

Definition save_peers s (peers : list bytes) : option (S * result SE unit) :=
  let count := (length peers `min` MAX_PEERS)%nat in
  '(s, r) ← write_peers s 0 (take count peers);
  match r with
  | Err e => Some (s, Err e)
  | Ok _ => Some (nv_write s PEER_COUNT [wrap8 (Z.of_nat count)])
  end.

(** *** Reading back *)

(** A read into an [n]-byte buffer of a key that holds [n] bytes. *)
Lemma read_exact s key d n s' o buf :
  nv_contents s !! key = Some d -> length d = n ->
  nv_read s key (replicate n 0) = (s', Ok (o, buf)) -> o = Some n /\ buf = d.
Proof.
  intros Hd Hn E. pose proof (nv_read_len _ _ _ _ _ _ E) as Hl. rewrite length_replicate in Hl.
  destruct o as [n'|].
  - apply nv_read_some in E as (d' & Hd' & Ht & Hfit & _). rewrite length_replicate in *.
    replace d' with d in * by congruence. rewrite Hn, Nat.min_id in Ht.
    rewrite !take_ge in Ht by lia. split; [| done]. rewrite Hfit by lia. by rewrite Hn.
  - apply nv_read_none in E. congruence.
Qed.

(** What a load returns when the storage does not fail. *)
Definition loads {A} (r : S * result SE A) (x : A) : Prop :=
  match r.2 with Ok y => y = x | Err _ => True end.

(** What is saved is what is loaded, across a reboot: after a successful
    save, loading from any store with the same contents returns the saved seed,
    epoch or sequence number (or the storage's own failure). *)
Lemma identity_roundtrip s s' s2 seed epoch seqnum :
  nv_contents s2 = nv_contents s' ->
  (length seed = 32%nat -> save_seed s seed = (s', Ok tt) -> loads (load_seed s2) (Some seed)) /\
  (save_epoch s epoch = (s', Ok tt) -> loads (load_epoch s2) (Some epoch)) /\
  (is_u16 seqnum -> save_seqnum s seqnum = (s', Ok tt) -> loads (load_seqnum s2) (Some seqnum)).
Proof.
  intros Hc. unfold save_seed, save_epoch, save_seqnum, loads, load_seed, load_epoch, load_seqnum.
  repeat split.
  - intros Hl Hw%nv_write_ok. assert (nv_contents s2 !! IDENTITY_SEED = Some seed) as Hlk
      by (rewrite Hc, Hw; apply lookup_insert_eq).
    destruct (nv_read s2 _ _) as [? [[o buf] | e]] eqn:E; [| done].
    by destruct (read_exact _ _ _ _ _ _ _ Hlk Hl E) as [-> ->].
  - intros Hw%nv_write_ok. assert (nv_contents s2 !! EPOCH = Some [epoch]) as Hlk
      by (rewrite Hc, Hw; apply lookup_insert_eq).
    destruct (nv_read s2 _ _) as [? [[o buf] | e]] eqn:E; [| done].
    by destruct (read_exact _ _ _ 1 _ _ _ Hlk eq_refl E) as [-> ->].
  - intros Hu Hw%nv_write_ok. assert (nv_contents s2 !! SEQNUM = Some (to_be 2 seqnum)) as Hlk
      by (rewrite Hc, Hw; apply lookup_insert_eq).
    destruct (nv_read s2 _ _) as [? [[o buf] | e]] eqn:E; [| done].
    destruct (read_exact _ _ _ 2 _ _ _ Hlk eq_refl E) as [-> ->]. simpl.
    f_equal. by apply from_be_to_be_u16.
Qed.

(** *** The peer table *)

Lemma peer_key_some i : (i < MAX_PEERS)%nat ->
  exists k, peer_key i = Some k /\ k <> PEER_COUNT /\
    forall j, (j < MAX_PEERS)%nat -> peer_key j = Some k -> j = i.
Proof.
  intros Hi.
  assert (forallb (fun i => match peer_key i with
     | None => false
     | Some k => negb (bool_decide (k = PEER_COUNT)) &&
         forallb (fun j => implb (bool_decide (peer_key j = Some k)) (j =? i)%nat) (seq 0 MAX_PEERS)
     end) (seq 0 MAX_PEERS) = true) as H by (vm_compute; reflexivity).
  rewrite forallb_forall in H. specialize (H i). rewrite in_seq in H. specialize (H ltac:(lia)).
  destruct (peer_key i) as [k|]; [| done]. apply andb_true_iff in H as [H1 H2].
  exists k. split; [done |]. split; [by apply negb_true_iff, bool_decide_eq_false_1 in H1 |].
  intros j Hj Ej. rewrite forallb_forall in H2. specialize (H2 j). rewrite in_seq in H2.
  specialize (H2 ltac:(lia)). rewrite bool_decide_eq_true_2 in H2 by done. simpl in H2. by bool_to_prop.
Qed.

Definition peer_at (m : gmap string bytes) (i : nat) : option bytes :=
  peer_key i ≫= fun k => m !! k.

Lemma peer_at_insert i j k d m :
  (i < MAX_PEERS)%nat -> (j < MAX_PEERS)%nat -> peer_key i = Some k ->
  peer_at (<[k := d]> m) j = if (j =? i)%nat then Some d else peer_at m j.
Proof.
  intros Hi Hj Hk. destruct (peer_key_some i Hi) as (k' & Hk' & _ & Hinj).
  assert (k' = k) as -> by congruence. unfold peer_at.
  destruct (Nat.eqb_spec j i) as [-> | Hne]; [rewrite Hk; simpl; apply lookup_insert_eq |].
  destruct (peer_key j) as [kj|] eqn:Ej; simpl; [| done].
  rewrite lookup_insert_ne; [done |]. intros <-. by apply Hne, Hinj.
Qed.

(** Writing entries: each is written or kept, nothing else changes. *)
Lemma write_peers_spec peers : forall s i, (i + length peers <= MAX_PEERS)%nat ->
  exists s' r, write_peers s i peers = Some (s', r) /\
    nv_contents s' !! PEER_COUNT = nv_contents s !! PEER_COUNT /\
    forall j, (j < MAX_PEERS)%nat ->
      (peer_at (nv_contents s') j = peer_at (nv_contents s) j /\
         (r = Ok tt -> ~ (i <= j < i + length peers)%nat)) \/
      ((i <= j < i + length peers)%nat /\ peer_at (nv_contents s') j = peers !! (j - i)%nat).
Proof.
  induction peers as [|p peers IH]; intros s i Hi; simpl in *.
  - do 2 eexists. split; [reflexivity |]. split; [done |]. intros j Hj. left. split; [done | lia].
  - destruct (peer_key_some i ltac:(lia)) as (k & Hk & Hne & _). rewrite Hk. simpl.
    destruct (nv_write s k p) as [s1 [[] | e]] eqn:Ew.
    + apply nv_write_ok in Ew. destruct (IH s1 (i + 1)%nat ltac:(lia)) as (s' & r & Hw & Hc & Hat).
      exists s', r. split; [done |]. split; [rewrite Hc, Ew; by apply lookup_insert_ne |].
      intros j Hj. specialize (Hat j Hj). rewrite Ew, (peer_at_insert i j k) in Hat by (done || lia).
      destruct (Nat.eqb_spec j i) as [Hji | Hji].
      * subst j. right. destruct Hat as [[Ha _] | [? _]]; [| lia]. split; [lia |]. by rewrite Nat.sub_diag.
      * destruct Hat as [[Ha Hr] | [Hb Ha]].
        -- left. split; [done |]. intros Hok. specialize (Hr Hok). lia.
        -- right. split; [lia |]. rewrite Ha. by replace (j - i)%nat with (1 + (j - (i + 1)))%nat by lia.
    + apply nv_write_err in Ew. do 2 eexists. split; [reflexivity |]. rewrite Ew.
      split; [done |]. intros j Hj. by left.
Qed.

(** The stored count only covers whole entries. *)
Definition table_ok (m : gmap string bytes) : Prop :=
  forall d, m !! PEER_COUNT = Some d -> exists c, d = [c] /\ 0 <= c <= 16 /\
    forall i, (i < Z.to_nat c)%nat -> exists d, peer_at m i = Some d /\ length d = 32%nat.

(** saving the peer table is crash-safe: wherever it stops, at a failed
    write of an entry or of the count, the count on storage still covers only
    whole 32-byte entries; and when it succeeds the count is that of the table
    (at most 16) and every entry below it loads as the peer's key. *)
Lemma save_peers_crash_safe s (peers : list bytes) :
  Forall (fun k => length k = 32%nat) peers -> table_ok (nv_contents s) ->
  exists s' r, save_peers s peers = Some (s', r) /\ table_ok (nv_contents s') /\
    (r = Ok tt ->
       loads (load_peer_count s') (length peers `min` MAX_PEERS)%nat /\
       forall i k, (i < MAX_PEERS)%nat -> peers !! i = Some k ->
         exists r', load_peer s' i = Some r' /\ loads r' (Some k)).
Proof.
  intros Hall Hok. unfold save_peers.
  set (count := (length peers `min` MAX_PEERS)%nat). set (ps := take count peers).
  assert (Hps : length ps = count) by (unfold ps; rewrite length_take; lia).
  assert (Hpsl : forall j k, ps !! j = Some k -> length k = 32%nat).
  { intros j k Hj. apply lookup_take_Some in Hj as [Hj _]. by eapply Forall_lookup in Hall. }
  destruct (write_peers_spec ps s 0 ltac:(lia)) as (s1 & r1 & Hw & Hc & Hat). rewrite Hw. simpl.
  assert (Hentry : forall j d, (j < MAX_PEERS)%nat -> peer_at (nv_contents s) j = Some d -> length d = 32%nat ->
            exists d, peer_at (nv_contents s1) j = Some d /\ length d = 32%nat).
  { intros j d Hj Hd Hl. destruct (Hat j Hj) as [[-> _] | [Hlt ->]]; [by exists d |].
    rewrite Nat.sub_0_r. destruct (lookup_lt_is_Some_2 ps j ltac:(lia)) as [k Hk]. eauto. }
  assert (Hok1 : table_ok (nv_contents s1)).
  { intros d Hd. rewrite Hc in Hd. destruct (Hok d Hd) as (c & -> & Hr & Hi). exists c.
    split; [done |]. split; [done |]. intros i Hlt. destruct (Hi i Hlt) as (d & Hd' & Hl).
    unfold MAX_PEERS in *. eapply Hentry; [lia | done..]. }
  destruct r1 as [[] | e]; [| by do 2 eexists].
  destruct (nv_write s1 PEER_COUNT _) as [s2 r2] eqn:Ew. exists s2, r2. split; [done |].
  destruct r2 as [[] | e]; [| apply nv_write_err in Ew; by rewrite Ew].
  apply nv_write_ok in Ew.
  rewrite (wrap8_small (Z.of_nat count)) in Ew by (unfold count, MAX_PEERS; width).
  assert (Hat2 : forall j, (j < MAX_PEERS)%nat -> peer_at (nv_contents s2) j = peer_at (nv_contents s1) j).
  { intros j Hj. destruct (peer_key_some j Hj) as (k & Hk & Hne & _). unfold peer_at. rewrite Hk, Ew. simpl.
    by apply lookup_insert_ne. }
  assert (Hnew : forall j k, (j < MAX_PEERS)%nat -> ps !! j = Some k -> peer_at (nv_contents s2) j = Some k).
  { intros j k Hj Hk. pose proof (lookup_lt_Some _ _ _ Hk). rewrite Hat2 by done.
    destruct (Hat j Hj) as [[_ Hn] | [_ ->]]; [| by rewrite Nat.sub_0_r]. specialize (Hn eq_refl). lia. }
  assert (Hcount : nv_contents s2 !! PEER_COUNT = Some [Z.of_nat count]) by (rewrite Ew; apply lookup_insert_eq).
  split.
  { intros d Hd. rewrite Hcount in Hd. injection Hd as <-. eexists. split; [reflexivity |].
    unfold MAX_PEERS in *. split; [lia |]. rewrite Nat2Z.id. intros i Hi.
    destruct (lookup_lt_is_Some_2 ps i ltac:(lia)) as [k Hk]. exists k. split; [apply Hnew; [lia | done] | eauto]. }
  intros _. split.
  - unfold loads, load_peer_count.
    destruct (nv_read s2 _ _) as [? [[o buf] | e]] eqn:E; [| done].
    destruct (read_exact _ _ _ 1 _ _ _ Hcount eq_refl E) as [-> ->]. simpl. lia.
  - intros i k Hi Hk. assert (ps !! i = Some k) as Hk'.
    { unfold ps. rewrite lookup_take_lt; [done |]. apply lookup_lt_Some in Hk. unfold count. lia. }
    pose proof (Hnew i k Hi Hk') as Hp. unfold load_peer. rewrite (proj2 (Nat.leb_gt _ _)) by done.
    unfold peer_at in Hp. destruct (peer_key i) as [key|]; [| done]. simpl in *. eexists. split; [reflexivity |].
    unfold loads. destruct (nv_read s2 _ _) as [? [[o buf] | e]] eqn:E; [| done].
    by destruct (read_exact _ _ _ 32 _ _ _ Hp (Hpsl _ _ Hk') E) as [-> ->].
Qed.

End ops.
End Identity.

(** ** Concrete stores *)
Module StorageDemo.
Import Slot Redundant Identity.

Definition demo_keys : slot_keys := ("v.a", "v.b").
Definition demo_magic : bytes := [68; 84; 88; 50].
Definition demo_store : Mem.MemStorage :=
  Mem.set_raw Mem.new "v.a" (slot_bytes demo_magic 1 [7; 8]).

Lemma demo_current : current_value demo_magic demo_keys (nv_contents demo_store) = Some (1, 0%nat, [7; 8]).
Proof. vm_compute. reflexivity. Qed.
Lemma demo_fits n : (26 <= n)%nat -> slots_fit demo_keys n (nv_contents demo_store).
Proof.
  intros Hn d Hd. assert (d = slot_bytes demo_magic 1 [7; 8]) as ->.
  { destruct Hd as [H | H]; vm_compute in H; [by injection H as <- | discriminate]. }
  rewrite length_slot_bytes by done. simpl. lia.
Qed.
Lemma demo_store_ok : store_ok (nv_contents demo_store).
Proof. unfold store_ok. apply (bool_decide_unpack _). vm_compute. exact I. Qed.

Lemma update_redundant_crash_safe_witness :
  exists s' r, update_redundant demo_store demo_keys demo_magic
    {| generation := 1; slot := 0; len := 2 |} [9] (replicate 25 0) = Some (s', r).
Proof.
  destruct (update_redundant_crash_safe demo_store demo_keys demo_magic
    {| generation := 1; slot := 0; len := 2 |} [9] (replicate 25 0) 1 0 [7; 8] 26)
    as (s' & r & H & _);
    first [ exact demo_current | exact demo_store_ok | apply demo_fits; lia
          | by apply (bool_decide_unpack _); vm_compute | discriminate | vm_compute; lia | simpl; lia
          | exists s', r; exact H ].
Defined.

End StorageDemo.
