(* ===== verification/RplPersist.v ===== *)
(** * Persistent DAO state (lichen-rpl/src/persistence.rs)

    The sender's durable origin sequence, the set of admitted origins and the
    encodings of both and of the root's replay floor, on the two-slot values of
    Storage.v.  An operation takes the store and the state and returns both;
    the outer [option] is a panic.  A failed operation leaves the state as it
    was. *)

From stdpp Require Import sorting strings.
From S2P Require Import Prelude RplMessage RplTable RplRoutes RplDao Storage.
Open Scope Z_scope.

Module RplPersist.
Import RplMessage RplRoutes RplDao Slot Redundant.

(** ** Constants *)

Definition DAO_TX_KEYS : slot_keys := ("rpl.tx.a", "rpl.tx.b").
Definition DAO_RX_KEYS : slot_keys := ("rpl.rx.a", "rpl.rx.b").
Definition DAO_ADMISSION_KEYS : slot_keys := ("rpl.admit.a", "rpl.admit.b").
(** The bytes of the literals DTX2, DRX2 and DAD1. *)
Definition DAO_TX_MAGIC : bytes := [68; 84; 88; 50].
Definition DAO_RX_MAGIC : bytes := [68; 82; 88; 50].
Definition DAO_ADMISSION_MAGIC : bytes := [68; 65; 68; 49].
Definition HIGH_WATER_ENTRY_LEN : nat := 72.
Definition HIGH_WATER_SCOPE_LEN : nat := 33.
Definition HIGH_WATER_HEADER_LEN : nat := HIGH_WATER_SCOPE_LEN + 2.
Definition HIGH_WATER_PAYLOAD_LEN : nat :=
  HIGH_WATER_HEADER_LEN + MAX_DAO_ORIGINS * HIGH_WATER_ENTRY_LEN.
Definition SLOT_OVERHEAD : nat := 24.
Definition DAO_TX_HEADER_LEN : nat := 75.
Definition MAX_SIGNED_DAO_LEN : nat := 255.
Definition DAO_TX_PAYLOAD_LEN : nat := DAO_TX_HEADER_LEN + MAX_SIGNED_DAO_LEN.
Definition DAO_ADMISSION_HEADER_LEN : nat := HIGH_WATER_SCOPE_LEN + 2.
Definition DAO_ADMISSION_PAYLOAD_LEN : nat := DAO_ADMISSION_HEADER_LEN + MAX_DAO_ORIGINS * 32.

(** ** Errors *)

Inductive DaoPersistentOpenError (E : Type) : Type :=
  | Missing | Corrupt | AlreadyProvisioned | Storage (e : E) | KeyMismatch | ScopeMismatch.
Arguments Missing {E}.
Arguments Corrupt {E}.
Arguments AlreadyProvisioned {E}.
Arguments Storage {E} e.
Arguments KeyMismatch {E}.
Arguments ScopeMismatch {E}.
Inductive DaoProvisionError (E : Type) : Type :=
  | ProvisionOpen (e : DaoPersistentOpenError E) | ProvisionStorage (e : E).
Arguments ProvisionOpen {E} e.
Arguments ProvisionStorage {E} e.
Inductive DaoTxError (E : Type) : Type :=
  | Persistence (e : E) | Stale | TxCorrupt | Exhausted | Oversized | InvalidState
  | TxKeyMismatch | NotJoined | InvalidOrigin | Encoding.
Arguments Persistence {E} e.
Arguments Stale {E}.
Arguments TxCorrupt {E}.
Arguments Exhausted {E}.
Arguments Oversized {E}.
Arguments InvalidState {E}.
Arguments TxKeyMismatch {E}.
Arguments NotJoined {E}.
Arguments InvalidOrigin {E}.
Arguments Encoding {E}.
Inductive DaoAdmissionUpdateError (E : Type) : Type :=
  | AdmitPersistence (e : E) | AdmitStale | AdmitExhausted | AdmitCorrupt | AdmitCapacity.
Arguments AdmitPersistence {E} e.
Arguments AdmitStale {E}.
Arguments AdmitExhausted {E}.
Arguments AdmitCorrupt {E}.
Arguments AdmitCapacity {E}.

Definition map_open_error {E} (e : RedundantOpenError E) : DaoPersistentOpenError E :=
  match e with
  | OMissing => Missing
  | OCorrupt | OBufferTooSmall => Corrupt
  | OStorage e => Storage e
  end.
Definition map_tx_update_error {E} (e : RedundantUpdateError E) : DaoTxError E :=
  match e with
  | UStorage e => Persistence e
  | UStale => Stale
  | UExhausted => Exhausted
  | UCorrupt => TxCorrupt
  end.
Definition map_admission_update_error {E} (e : RedundantUpdateError E) : DaoAdmissionUpdateError E :=
  match e with
  | UStorage e => AdmitPersistence e
  | UStale => AdmitStale
  | UExhausted => AdmitExhausted
  | UCorrupt => AdmitCorrupt
  end.
(** The match on the result of provisioning, the same in the three places. *)
Definition map_provision_error {E} (e : RedundantProvisionError E) : DaoProvisionError E :=
  match e with
  | PExists => ProvisionOpen Corrupt
  | PStorage e => ProvisionStorage e
  end.

(** ** Encodings *)

Definition encode_tx_state (public_key local_origin : bytes) (rpl_instance_id : Z) (dodag_id : bytes)
    (sequence : Z) (signed_dao : bytes) : option bytes :=
  if (MAX_SIGNED_DAO_LEN <? length signed_dao)%nat then None
  else
    let payload := replicate (DAO_TX_HEADER_LEN + length signed_dao) 0 in
    let payload := list_inserts 0 public_key payload in
    let payload := list_inserts 32 local_origin payload in
    let payload := <[48%nat := rpl_instance_id]> payload in
    let payload := list_inserts 49 dodag_id payload in
    let payload := list_inserts 65 (to_be 8 sequence) payload in
    let payload := list_inserts 73 (to_be 2 (wrap16 (Z.of_nat (length signed_dao)))) payload in
    Some (list_inserts DAO_TX_HEADER_LEN signed_dao payload).

(** The scope every payload but the sender's starts with. *)
Definition scope_matches (payload node_address : bytes) (rpl_instance_id : Z) (dodag_id : bytes) : bool :=
  bool_decide (take 16 payload = node_address) && (nth 16 payload 0 =? rpl_instance_id)
  && bool_decide (slice 17 33 payload = dodag_id).

Inductive AdmissionDecodeError := AdmissionScopeMismatch | AdmissionCorrupt.

(** [for index in 0..count]: the keys, each new. *)
Fixpoint decode_keys (payload : bytes) (index count : nat) (admitted : gset bytes) : option (gset bytes) :=
  match count with
  | O => Some admitted
  | S count =>
      let start := (DAO_ADMISSION_HEADER_LEN + index * 32)%nat in
      let key := slice start (start + 32) payload in
      if bool_decide (key ∈ admitted) then None
      else decode_keys payload (index + 1) count ({[key]} ∪ admitted)
  end.

Definition decode_admissions (payload node_address : bytes) (rpl_instance_id : Z) (dodag_id : bytes) :
    result AdmissionDecodeError (gset bytes) :=
  if (length payload <? DAO_ADMISSION_HEADER_LEN)%nat then Err AdmissionCorrupt
  else if negb (scope_matches payload node_address rpl_instance_id dodag_id)
  then Err AdmissionScopeMismatch
  else
    let count := Z.to_nat (from_be (slice 33 35 payload)) in
    if (MAX_DAO_ORIGINS <? count)%nat
       || negb (length payload =? DAO_ADMISSION_HEADER_LEN + count * 32)%nat
    then Err AdmissionCorrupt
    else ok_or (decode_keys payload 0 count ∅) AdmissionCorrupt.

(** The replay floor: for each origin key, the hash of the last DAO and its
    sequence. *)
Abbreviation HighWaterMap := (gmap bytes (bytes * Z)).

Fixpoint decode_entries (data : bytes) (index count : nat) (map : HighWaterMap) : option HighWaterMap :=
  match count with
  | O => Some map
  | S count =>
      let offset := (HIGH_WATER_HEADER_LEN + index * HIGH_WATER_ENTRY_LEN)%nat in
      let key := slice offset (offset + 32) data in
      let sequence := from_be (slice (offset + 32) (offset + 40) data) in
      let hash := slice (offset + 40) (offset + 72) data in
      if (sequence =? 0) || bool_decide (is_Some (map !! key)) then None
      else decode_entries data (index + 1) count (<[key := (hash, sequence)]> map)
  end.

Definition decode_high_water (data : bytes) : option HighWaterMap :=
  if (length data <? HIGH_WATER_HEADER_LEN)%nat then None
  else
    let count := Z.to_nat (from_be (slice HIGH_WATER_SCOPE_LEN HIGH_WATER_HEADER_LEN data)) in
    if (MAX_DAO_ORIGINS <? count)%nat
       || negb (length data =? HIGH_WATER_HEADER_LEN + count * HIGH_WATER_ENTRY_LEN)%nat
    then None
    else decode_entries data 0 count ∅.

Section encode.
Context `{HashIter}.

(** [HashSet::iter]. *)
Definition set_iter (s : gset bytes) : list bytes := fst <$> hash_iter (set_to_map (fun k => (k, tt)) s : gmap bytes ()).

Fixpoint write_keys (keys : list bytes) (index : nat) (payload : bytes) : bytes :=
  match keys with
  | [] => payload
  | key :: keys =>
      write_keys keys (index + 1) (list_inserts (DAO_ADMISSION_HEADER_LEN + index * 32) key payload)
  end.

Definition encode_admissions (node_address : bytes) (rpl_instance_id : Z) (dodag_id : bytes)
    (admitted : gset bytes) : option bytes :=
  if (MAX_DAO_ORIGINS <? size admitted)%nat then None
  else
    let keys := merge_sort lex_le (set_iter admitted) in
    let payload := replicate (DAO_ADMISSION_HEADER_LEN + length keys * 32) 0 in
    let payload := list_inserts 0 node_address payload in
    let payload := <[16%nat := rpl_instance_id]> payload in
    let payload := list_inserts 17 dodag_id payload in
    let payload := list_inserts 33 (to_be 2 (wrap16 (Z.of_nat (length keys)))) payload in
    Some (write_keys keys 0 payload).

Definition entry_le (a b : bytes * (bytes * Z)) : Prop := lex_le (fst a) (fst b).
#[export] Instance entry_le_dec a b : Decision (entry_le a b) := _.

Fixpoint write_entries (entries : list (bytes * (bytes * Z))) (index : nat) (out : bytes) : bytes :=
  match entries with
  | [] => out
  | (key, (hash, sequence)) :: entries =>
      let offset := (HIGH_WATER_HEADER_LEN + index * HIGH_WATER_ENTRY_LEN)%nat in
      let out := list_inserts offset key out in
      let out := list_inserts (offset + 32) (to_be 8 sequence) out in
      let out := list_inserts (offset + 40) hash out in
      write_entries entries (index + 1) out
  end.

(** The length written and the buffer. *)
Definition encode_high_water (node_address : bytes) (rpl_instance_id : Z) (dodag_id : bytes)
    (map : HighWaterMap) (out : bytes) : option (nat * bytes) :=
  if (MAX_DAO_ORIGINS <? size map)%nat then None
  else
    let len := (HIGH_WATER_HEADER_LEN + size map * HIGH_WATER_ENTRY_LEN)%nat in
    if (length out <? len)%nat then None
    else
      let out := list_inserts 0 node_address out in
      let out := <[16%nat := rpl_instance_id]> out in
      let out := list_inserts 17 dodag_id out in
      let out := list_inserts HIGH_WATER_SCOPE_LEN (to_be 2 (wrap16 (Z.of_nat (size map)))) out in
      Some (len, write_entries (merge_sort entry_le (hash_iter map)) 0 out).

End encode.

(** ** The sender's state *)

Record DaoTxState := {
  tx_current : RedundantValue;
  tx_public_key : bytes;
  tx_local_origin : bytes;
  tx_instance : Z;
  tx_dodag_id : bytes;
  last_reserved : Z;
  last_signed_dao_bytes : bytes
}.

(** The fields the operations change. *)
Definition tx_set (st : DaoTxState) (current : RedundantValue) (reserved : Z) (signed : bytes) : DaoTxState :=
  {| tx_current := current; tx_public_key := tx_public_key st; tx_local_origin := tx_local_origin st;
     tx_instance := tx_instance st; tx_dodag_id := tx_dodag_id st; last_reserved := reserved;
     last_signed_dao_bytes := signed |}.

Definition is_for_scope (st : DaoTxState) (public_key local_origin : bytes) (rpl_instance_id : Z)
    (dodag_id : bytes) : bool :=
  bool_decide (tx_public_key st = public_key) && bool_decide (tx_local_origin st = local_origin)
  && (tx_instance st =? rpl_instance_id) && bool_decide (tx_dodag_id st = dodag_id).

Definition last_signed_dao (st : DaoTxState) : option bytes :=
  match last_signed_dao_bytes st with [] => None | b => Some b end.

Section tx.
Context {St SE : Type} `{!NonVolatile St SE}.
Implicit Types s : St.

Definition tx_open s (expected_key local_origin : bytes) (rpl_instance_id : Z) (dodag_id : bytes) :
    St * result (DaoPersistentOpenError SE) DaoTxState :=
  let a := replicate (DAO_TX_PAYLOAD_LEN + SLOT_OVERHEAD) 0 in
  let b := replicate (DAO_TX_PAYLOAD_LEN + SLOT_OVERHEAD) 0 in
  let payload := replicate DAO_TX_PAYLOAD_LEN 0 in
  match open_redundant s DAO_TX_KEYS DAO_TX_MAGIC a b payload with
  | (s, Err e) => (s, Err (map_open_error e))
  | (s, Ok (current, payload)) =>
      (s,
       if (len current <? DAO_TX_HEADER_LEN)%nat then Err Corrupt
       else if negb (bool_decide (take 32 payload = expected_key)) then Err KeyMismatch
       else if negb (bool_decide (slice 32 48 payload = local_origin))
               || negb (nth 48 payload 0 =? rpl_instance_id)
               || negb (bool_decide (slice 49 65 payload = dodag_id)) then Err ScopeMismatch
       else
         let signed_len := Z.to_nat (from_be (slice 73 75 payload)) in
         if (MAX_SIGNED_DAO_LEN <? signed_len)%nat
            || negb (len current =? DAO_TX_HEADER_LEN + signed_len)%nat then Err Corrupt
         else
           Ok {| tx_current := current; tx_public_key := take 32 payload;
                 tx_local_origin := local_origin; tx_instance := rpl_instance_id;
                 tx_dodag_id := dodag_id; last_reserved := from_be (slice 65 73 payload);
                 last_signed_dao_bytes := slice DAO_TX_HEADER_LEN (len current) payload |})
  end.

Definition tx_provision s (expected_key local_origin : bytes) (rpl_instance_id : Z) (dodag_id : bytes) :
    option (St * result (DaoProvisionError SE) DaoTxState) :=
  match tx_open s expected_key local_origin rpl_instance_id dodag_id with
  | (s, Ok _) => Some (s, Err (ProvisionOpen AlreadyProvisioned))
  | (s, Err Missing) =>
      payload ← encode_tx_state expected_key local_origin rpl_instance_id dodag_id 0 [];
      let record := replicate (DAO_TX_HEADER_LEN + SLOT_OVERHEAD) 0 in
      '(s, r) ← provision_redundant s DAO_TX_KEYS DAO_TX_MAGIC payload record;
      match r with
      | Err e => Some (s, Err (map_provision_error e))
      | Ok _ =>
          let '(s, r) := tx_open s expected_key local_origin rpl_instance_id dodag_id in
          Some (s, map_err ProvisionOpen r)
      end
  | (s, Err (Storage e)) => Some (s, Err (ProvisionStorage e))
  | (s, Err e) => Some (s, Err (ProvisionOpen e))
  end.

(** The update the three writing operations end in: the encoded state goes to
    the other slot; on success the fields change, on failure nothing does. *)
Definition tx_write (st : DaoTxState) s (reserved : Z) (signed : bytes) :
    option (St * DaoTxState * result (DaoTxError SE) unit) :=
  match encode_tx_state (tx_public_key st) (tx_local_origin st) (tx_instance st) (tx_dodag_id st)
          reserved signed with
  | None => Some (s, st, Err Oversized)
  | Some payload =>
      let record := replicate (DAO_TX_PAYLOAD_LEN + SLOT_OVERHEAD) 0 in
      '(s, r) ← update_redundant s DAO_TX_KEYS DAO_TX_MAGIC (tx_current st) payload record;
      match r with
      | Err e => Some (s, st, Err (map_tx_update_error e))
      | Ok current => Some (s, tx_set st current reserved signed, Ok tt)
      end
  end.

Definition reserve_next (st : DaoTxState) s : option (St * DaoTxState * result (DaoTxError SE) Z) :=
  match checked_add u64_max (last_reserved st) 1 with
  | None => Some (s, st, Err Exhausted)
  | Some next =>
      '(s, st, r) ← tx_write st s next (last_signed_dao_bytes st);
      Some (s, st, r ≫= fun _ => Ok next)
  end.

(** The origin sequence of the bytes of a signed DAO. *)
Definition signed_sequence (b : bytes) : option Z :=
  match envelope_from_bytes b with
  | Ok e => Some (origin_sequence (env_origin e))
  | Err _ => None
  end.

Definition finalize_signed (st : DaoTxState) s (sequence : Z) (signed_dao : bytes) :
    option (St * DaoTxState * result (DaoTxError SE) unit) :=
  if negb (sequence =? last_reserved st) then Some (s, st, Err InvalidState)
  else if (MAX_SIGNED_DAO_LEN <? length signed_dao)%nat then Some (s, st, Err Oversized)
  else match signed_sequence signed_dao with
  | None => Some (s, st, Err Encoding)
  | Some n =>
      if negb (n =? sequence) then Some (s, st, Err InvalidState)
      else if bool_decide (signed_sequence (last_signed_dao_bytes st) = Some sequence)
      then Some (s, st, Err InvalidState)
      else tx_write st s sequence signed_dao
  end.

Definition clear_transmitted (st : DaoTxState) s : option (St * DaoTxState * result (DaoTxError SE) unit) :=
  match last_signed_dao_bytes st with
  | [] => Some (s, st, Err InvalidState)
  | _ => tx_write st s (last_reserved st) []
  end.

End tx.

(** ** Admitted origins *)

Record DaoAdmissionState := {
  ad_current : RedundantValue;
  ad_node_address : bytes;
  ad_instance : Z;
  ad_dodag_id : bytes;
  admitted : gset bytes
}.

Definition admission_contains (st : DaoAdmissionState) (key : bytes) : bool :=
  bool_decide (key ∈ admitted st).
Definition admission_len (st : DaoAdmissionState) : nat := size (admitted st).
Definition admission_is_empty (st : DaoAdmissionState) : bool := bool_decide (admitted st = ∅).

Section admission.
Context {St SE : Type} `{!NonVolatile St SE} `{HashIter}.
Implicit Types s : St.

Definition admission_open s (node_address : bytes) (rpl_instance_id : Z) (dodag_id : bytes) :
    St * result (DaoPersistentOpenError SE) DaoAdmissionState :=
  let a := replicate (DAO_ADMISSION_PAYLOAD_LEN + SLOT_OVERHEAD) 0 in
  let b := replicate (DAO_ADMISSION_PAYLOAD_LEN + SLOT_OVERHEAD) 0 in
  let payload := replicate DAO_ADMISSION_PAYLOAD_LEN 0 in
  match open_redundant s DAO_ADMISSION_KEYS DAO_ADMISSION_MAGIC a b payload with
  | (s, Err e) => (s, Err (map_open_error e))
  | (s, Ok (current, payload)) =>
      (s,
       match decode_admissions (take (len current) payload) node_address rpl_instance_id dodag_id with
       | Err AdmissionScopeMismatch => Err ScopeMismatch
       | Err AdmissionCorrupt => Err Corrupt
       | Ok keys =>
           Ok {| ad_current := current; ad_node_address := node_address; ad_instance := rpl_instance_id;
                 ad_dodag_id := dodag_id; admitted := keys |}
       end)
  end.

Definition admission_provision s (node_address : bytes) (rpl_instance_id : Z) (dodag_id : bytes) :
    option (St * result (DaoProvisionError SE) DaoAdmissionState) :=
  match admission_open s node_address rpl_instance_id dodag_id with
  | (s, Ok _) => Some (s, Err (ProvisionOpen AlreadyProvisioned))
  | (s, Err Missing) =>
      payload ← encode_admissions node_address rpl_instance_id dodag_id ∅;
      let record := replicate (length payload + SLOT_OVERHEAD) 0 in
      '(s, r) ← provision_redundant s DAO_ADMISSION_KEYS DAO_ADMISSION_MAGIC payload record;
      match r with
      | Err e => Some (s, Err (map_provision_error e))
      | Ok _ =>
          let '(s, r) := admission_open s node_address rpl_instance_id dodag_id in
          Some (s, map_err ProvisionOpen r)
      end
  | (s, Err (Storage e)) => Some (s, Err (ProvisionStorage e))
  | (s, Err e) => Some (s, Err (ProvisionOpen e))
  end.

Definition admit_key (st : DaoAdmissionState) s (key : bytes) :
    option (St * DaoAdmissionState * result (DaoAdmissionUpdateError SE) unit) :=
  if bool_decide (key ∈ admitted st) then Some (s, st, Ok tt)
  else if (size (admitted st) =? MAX_DAO_ORIGINS)%nat then Some (s, st, Err AdmitCapacity)
  else
    let proposed := {[key]} ∪ admitted st in
    match encode_admissions (ad_node_address st) (ad_instance st) (ad_dodag_id st) proposed with
    | None => Some (s, st, Err AdmitCorrupt)
    | Some payload =>
        let record := replicate (DAO_ADMISSION_PAYLOAD_LEN + SLOT_OVERHEAD) 0 in
        '(s, r) ← update_redundant s DAO_ADMISSION_KEYS DAO_ADMISSION_MAGIC (ad_current st) payload record;
        match r with
        | Err e => Some (s, st, Err (map_admission_update_error e))
        | Ok current =>
            Some (s, {| ad_current := current; ad_node_address := ad_node_address st;
                        ad_instance := ad_instance st; ad_dodag_id := ad_dodag_id st;
                        admitted := proposed |}, Ok tt)
        end
    end.

End admission.

(** ** The encodings in closed form *)

Definition tx_bytes (public_key local_origin : bytes) (rpl_instance_id : Z) (dodag_id : bytes)
    (sequence : Z) (signed_dao : bytes) : bytes :=
  public_key ++ local_origin ++ [rpl_instance_id] ++ dodag_id ++ to_be 8 sequence
    ++ to_be 2 (Z.of_nat (length signed_dao)) ++ signed_dao.

(** Node address, instance and DODAG of the right sizes. *)
Record scope_wf (node_address : bytes) (rpl_instance_id : Z) (dodag_id : bytes) : Prop := {
  sc_node : length node_address = 16%nat; sc_node_ok : bytes_ok node_address;
  sc_instance : is_u8 rpl_instance_id;
  sc_dodag : length dodag_id = 16%nat; sc_dodag_ok : bytes_ok dodag_id
}.
Definition key_ok (k : bytes) : Prop := length k = 32%nat /\ bytes_ok k.

Definition scope_bytes (node_address : bytes) (rpl_instance_id : Z) (dodag_id : bytes) (n : nat) : bytes :=
  node_address ++ [rpl_instance_id] ++ dodag_id ++ to_be 2 (Z.of_nat n).

Lemma scope_bytes_length node inst dodag n : scope_wf node inst dodag ->
  length (scope_bytes node inst dodag n) = 35%nat.
Proof. intros [H1 _ _ H2 _]. unfold scope_bytes. rewrite !length_app, length_to_be, H1, H2. done. Qed.

Lemma scope_bytes_ok node inst dodag n : scope_wf node inst dodag -> bytes_ok (scope_bytes node inst dodag n).
Proof.
  intros [_ H1 H2 _ H3]. unfold scope_bytes. rewrite !Forall_app. repeat split; auto with lichen.
Qed.

(** The writes of a header, as one. *)
Lemma scope_writes node inst dodag n out : scope_wf node inst dodag -> is_u16 (Z.of_nat n) ->
  list_inserts 33 (to_be 2 (wrap16 (Z.of_nat n)))
    (list_inserts 17 dodag (<[16%nat := inst]> (list_inserts 0 node out))) =
  list_inserts 0 (scope_bytes node inst dodag n) out.
Proof.
  intros [H1 _ _ H2 _] Hn. rewrite wrap16_small by done. rewrite insert_inserts.
  rewrite (inserts_adjacent 0 16) by (simpl; lia).
  rewrite (inserts_adjacent 0 17) by (rewrite length_app; simpl; lia).
  rewrite (inserts_adjacent 0 33) by (rewrite !length_app; simpl; lia).
  f_equal. unfold scope_bytes. by rewrite <- !app_assoc.
Qed.

Lemma scope_matches_bytes node inst dodag n rest : scope_wf node inst dodag ->
  scope_matches (scope_bytes node inst dodag n ++ rest) node inst dodag = true.
Proof.
  intros [H1 _ _ H2 _]. unfold scope_matches, scope_bytes. rewrite <- !app_assoc.
  rewrite take_app_le' by done. rewrite bool_decide_eq_true_2 by done.
  rewrite (nth_app_eq node (dodag ++ to_be 2 (Z.of_nat n) ++ rest) _ inst) by (done || lia).
  rewrite Z.eqb_refl.
  rewrite (slice_app_eq (node ++ [inst]) dodag (to_be 2 (Z.of_nat n) ++ rest));
    [by rewrite bool_decide_eq_true_2 | by rewrite <- !app_assoc | rewrite length_app; simpl; lia ..].
Qed.

Lemma scope_count_bytes node inst dodag n rest : scope_wf node inst dodag -> is_u16 (Z.of_nat n) ->
  Z.to_nat (from_be (slice 33 35 (scope_bytes node inst dodag n ++ rest))) = n.
Proof.
  intros [H1 _ _ H2 _] Hn. unfold scope_bytes. rewrite <- !app_assoc.
  rewrite (slice_app_eq (node ++ [inst] ++ dodag) (to_be 2 (Z.of_nat n)) rest);
    [| by rewrite <- !app_assoc | rewrite !length_app; simpl; lia | rewrite !length_app, length_to_be; simpl; lia].
  by rewrite from_be_to_be_u16, Nat2Z.id.
Qed.

Lemma encode_tx_state_bytes pk origin inst dodag seqn signed :
  length pk = 32%nat -> scope_wf origin inst dodag ->
  encode_tx_state pk origin inst dodag seqn signed =
    if (MAX_SIGNED_DAO_LEN <? length signed)%nat then None
    else Some (tx_bytes pk origin inst dodag seqn signed).
Proof.
  intros Hpk [H1 _ _ H2 _]. unfold encode_tx_state, DAO_TX_HEADER_LEN, MAX_SIGNED_DAO_LEN.
  destruct (Nat.ltb_spec 255 (length signed)); [done |]. f_equal.
  rewrite wrap16_small by width. rewrite insert_inserts.
  rewrite (inserts_adjacent 0 32) by (simpl; lia).
  rewrite (inserts_adjacent 0 48) by (rewrite length_app; simpl; lia).
  rewrite (inserts_adjacent 0 49) by (rewrite !length_app; simpl; lia).
  rewrite (inserts_adjacent 0 65) by (rewrite !length_app; simpl; lia).
  rewrite (inserts_adjacent 0 73) by (rewrite !length_app, length_to_be; simpl; lia).
  rewrite (inserts_adjacent 0 75) by (rewrite !length_app, !length_to_be; simpl; lia).
  rewrite inserts_front by (rewrite length_replicate, !length_app, !length_to_be; simpl; lia).
  rewrite drop_ge by (rewrite length_replicate, !length_app, !length_to_be; simpl; lia).
  rewrite app_nil_r. unfold tx_bytes. by rewrite <- !app_assoc.
Qed.

(** *** Admissions *)

Lemma write_keys_bytes keys : forall index pre out,
  Forall key_ok keys -> length pre = (35 + index * 32)%nat ->
  write_keys keys index (list_inserts 0 pre out) = list_inserts 0 (pre ++ concat keys) out.
Proof.
  induction keys as [|k keys IH]; intros index pre out Hk Hpre; simpl; [by rewrite app_nil_r |].
  apply Forall_cons in Hk as [[Hl _] Hk]. unfold DAO_ADMISSION_HEADER_LEN, HIGH_WATER_SCOPE_LEN.
  rewrite (inserts_adjacent 0) by lia. rewrite IH by (done || rewrite length_app; lia).
  by rewrite <- app_assoc.
Qed.

Lemma decode_keys_bytes keys : forall data index pre (admitted : gset bytes),
  Forall key_ok keys -> NoDup keys -> (forall k, k ∈ keys -> k ∉ admitted) ->
  length pre = (35 + index * 32)%nat -> data = pre ++ concat keys ->
  decode_keys data index (length keys) admitted = Some (list_to_set keys ∪ admitted).
Proof.
  induction keys as [|k keys IH]; intros data index pre admitted Hk Hnd Hnew Hpre ->.
  - simpl. f_equal. set_solver.
  - apply Forall_cons in Hk as [[Hl _] Hk]. apply NoDup_cons in Hnd as [Hnk Hnd].
    cbn [decode_keys length]. unfold DAO_ADMISSION_HEADER_LEN, HIGH_WATER_SCOPE_LEN.
    rewrite (slice_app_eq pre k (concat keys)) by (done || lia).
    rewrite bool_decide_eq_false_2 by (apply Hnew, list_elem_of_here).
    erewrite (IH _ (index + 1)%nat (pre ++ k)); [| done | done | | rewrite length_app; lia | simpl; by rewrite <- app_assoc].
    + f_equal. simpl. set_solver.
    + intros k' Hk'. apply not_elem_of_union. split; [set_solver |]. apply Hnew. by apply list_elem_of_further.
Qed.

Lemma decode_keys_sound data count : forall index (admitted s : gset bytes),
  bytes_ok data -> length data = (35 + (index + count) * 32)%nat -> set_Forall key_ok admitted ->
  size admitted = index -> decode_keys data index count admitted = Some s ->
  set_Forall key_ok s /\ size s = (index + count)%nat.
Proof.
  induction count as [|count IH]; intros index admitted s Hok Hl Ha Hs; simpl.
  - intros [= <-]. split; [done | lia].
  - case_bool_decide as Hin; [done |]. intros H.
    apply IH in H; [| done | lia | | rewrite size_union, size_singleton by set_solver; lia].
    + destruct H. split; [done | lia].
    + apply set_Forall_union; [| done]. apply set_Forall_singleton. split; [| by apply slice_Forall].
      rewrite slice_length; [| lia |]; unfold DAO_ADMISSION_HEADER_LEN, HIGH_WATER_SCOPE_LEN; lia.
Qed.

Section sets.
Context `{HashIter}.

Lemma set_iter_NoDup s : NoDup (set_iter s).
Proof. unfold set_iter. rewrite hash_iter_perm. apply NoDup_fst_map_to_list. Qed.
Lemma elem_of_set_iter s k : k ∈ set_iter s <-> k ∈ s.
Proof.
  unfold set_iter. rewrite list_elem_of_fmap. split.
  - intros ([k' []] & -> & Hin). apply elem_of_hash_iter, lookup_set_to_map in Hin; [| by intros ? ? ? ? ?].
    destruct Hin as (k & Hk & [= ->]). exact Hk.
  - intros Hk. exists (k, tt). split; [done |]. apply elem_of_hash_iter, lookup_set_to_map; [by intros ? ? ? ? ? |].
    by exists k.
Qed.
Lemma set_iter_length s : length (set_iter s) = size s.
Proof.
  rewrite <- (size_list_to_set (C := gset bytes)) by apply set_iter_NoDup.
  assert ((list_to_set (set_iter s) : gset bytes) = s) as -> by (apply set_eq; intros k; by rewrite elem_of_list_to_set, elem_of_set_iter).
  done.
Qed.

(** The keys in the order they are written. *)
Definition sorted_keys (s : gset bytes) : list bytes := merge_sort lex_le (set_iter s).
Lemma sorted_keys_perm s : sorted_keys s ≡ₚ set_iter s.
Proof. apply merge_sort_Permutation. Qed.
Lemma sorted_keys_ok s : set_Forall key_ok s -> Forall key_ok (sorted_keys s).
Proof.
  intros Hs. apply Forall_forall. intros k Hk. apply Hs. by rewrite sorted_keys_perm, elem_of_set_iter in Hk.
Qed.
Lemma sorted_keys_length s : length (sorted_keys s) = size s.
Proof. by rewrite sorted_keys_perm, set_iter_length. Qed.

Definition admission_bytes (node : bytes) (inst : Z) (dodag : bytes) (s : gset bytes) : bytes :=
  scope_bytes node inst dodag (size s) ++ concat (sorted_keys s).

Lemma concat_keys_length keys : Forall key_ok keys -> length (concat keys) = (length keys * 32)%nat.
Proof. induction 1 as [|k keys [Hk _] _ IH]; [done |]. simpl. rewrite length_app, IH, Hk. lia. Qed.
Lemma concat_keys_ok keys : Forall key_ok keys -> bytes_ok (concat keys).
Proof. induction 1 as [|k keys [_ Hk] _ IH]; [constructor |]. simpl. by apply Forall_app. Qed.

Lemma encode_admissions_bytes node inst dodag s :
  scope_wf node inst dodag -> set_Forall key_ok s ->
  encode_admissions node inst dodag s =
    if (MAX_DAO_ORIGINS <? size s)%nat then None else Some (admission_bytes node inst dodag s).
Proof.
  intros Hsc Hs. unfold encode_admissions. destruct (Nat.ltb_spec MAX_DAO_ORIGINS (size s)) as [| Hle]; [done |].
  fold (sorted_keys s). rewrite sorted_keys_length. unfold MAX_DAO_ORIGINS in Hle.
  rewrite scope_writes by (done || width). f_equal.
  rewrite write_keys_bytes by (first [by apply sorted_keys_ok | by rewrite scope_bytes_length]).
  pose proof (concat_keys_length _ (sorted_keys_ok s Hs)) as Hc. rewrite sorted_keys_length in Hc.
  assert (Hl : length (scope_bytes node inst dodag (size s) ++ concat (sorted_keys s)) = (35 + size s * 32)%nat)
    by (rewrite length_app, scope_bytes_length by done; lia).
  change DAO_ADMISSION_HEADER_LEN with 35%nat.
  rewrite inserts_front by (rewrite length_replicate; lia).
  rewrite drop_ge by (rewrite length_replicate; lia). by rewrite app_nil_r.
Qed.

(** The admitted origins survive their encoding: a set of at most 256
    32-byte keys is encoded, its encoding decodes to the same set under its own
    scope, and under any other node address, instance or DODAG it is refused as
    a scope mismatch, whatever the set. *)
Lemma admissions_roundtrip (node : bytes) (inst : Z) (dodag node' : bytes) (inst' : Z) (dodag' : bytes)
    (s : gset bytes) :
  scope_wf node inst dodag -> set_Forall key_ok s -> (size s <= MAX_DAO_ORIGINS)%nat ->
  exists payload, encode_admissions node inst dodag s = Some payload /\
    decode_admissions payload node inst dodag = Ok s /\
    ((node', inst', dodag') <> (node, inst, dodag) ->
     decode_admissions payload node' inst' dodag' = Err AdmissionScopeMismatch).
Proof.
  intros Hsc Hs Hle. rewrite encode_admissions_bytes, (proj2 (Nat.ltb_ge _ _)) by done.
  eexists. split; [reflexivity |].
  pose proof (concat_keys_length _ (sorted_keys_ok s Hs)) as Hc. rewrite sorted_keys_length in Hc.
  assert (Hl : length (admission_bytes node inst dodag s) = (35 + size s * 32)%nat)
    by (unfold admission_bytes; rewrite length_app, scope_bytes_length by done; lia).
  unfold decode_admissions. rewrite Hl. change DAO_ADMISSION_HEADER_LEN with 35%nat.
  rewrite (proj2 (Nat.ltb_ge _ _)) by lia. unfold admission_bytes in *. unfold MAX_DAO_ORIGINS in *. split.
  - rewrite scope_matches_bytes by done. simpl negb. cbv iota.
    rewrite scope_count_bytes by (done || width). rewrite (proj2 (Nat.ltb_ge _ _)) by lia.
    rewrite Nat.eqb_refl. simpl orb. cbv iota.
    rewrite <- (sorted_keys_length s) at 2.
    rewrite (decode_keys_bytes _ _ _ (scope_bytes node inst dodag (size s)));
      [| by apply sorted_keys_ok | rewrite sorted_keys_perm; apply set_iter_NoDup | set_solver
       | by rewrite scope_bytes_length | done].
    simpl. f_equal. rewrite (right_id_L ∅ (∪)). apply set_eq. intros k.
    by rewrite elem_of_list_to_set, sorted_keys_perm, elem_of_set_iter.
  - intros Hne. destruct (scope_matches _ node' inst' dodag') eqn:E; [| done]. exfalso. apply Hne.
    destruct Hsc as [H1 _ _ H2 _]. unfold scope_matches, scope_bytes in E. rewrite <- !app_assoc in E. bool_to_prop.
    repeat match goal with H : bool_decide _ = true |- _ => apply bool_decide_eq_true_1 in H end.
    rewrite take_app_le' in * by done.
    rewrite (nth_app_eq node (dodag ++ to_be 2 (Z.of_nat (size s)) ++ concat (sorted_keys s)) _ inst) in * by (done || lia).
    rewrite (slice_app_eq (node ++ [inst]) dodag (to_be 2 (Z.of_nat (size s)) ++ concat (sorted_keys s))) in *
      by (first [by rewrite <- !app_assoc | rewrite length_app; simpl; lia]).
    congruence.
Qed.

End sets.

(** *** The replay floor *)

(** 32-byte keys and hashes, positive 64-bit sequences. *)
Definition entry_ok (e : bytes * (bytes * Z)) : Prop :=
  key_ok e.1 /\ key_ok e.2.1 /\ 1 <= e.2.2 <= u64_max.
Definition floor_ok (m : HighWaterMap) : Prop :=
  map_Forall (fun k v => entry_ok (k, v)) m /\ (size m <= MAX_DAO_ORIGINS)%nat.
Definition entry_bytes (e : bytes * (bytes * Z)) : bytes := e.1 ++ to_be 8 e.2.2 ++ e.2.1.

Lemma entry_bytes_length e : entry_ok e -> length (entry_bytes e) = 72%nat.
Proof.
  intros ([H1 _] & [H2 _] & _). unfold entry_bytes. rewrite !length_app, length_to_be, H1, H2. done.
Qed.
Lemma entries_bytes_length es : Forall entry_ok es -> length (concat (entry_bytes <$> es)) = (length es * 72)%nat.
Proof. induction 1 as [|e es He _ IH]; [done |]. rewrite fmap_cons. cbn [concat length].
  rewrite length_app, IH, entry_bytes_length by done. lia. Qed.
Lemma entries_bytes_ok es : Forall entry_ok es -> bytes_ok (concat (entry_bytes <$> es)).
Proof.
  induction 1 as [|e es ([_ H1] & [_ H2] & _) _ IH]; [constructor |]. rewrite fmap_cons. cbn [concat].
  unfold entry_bytes at 1. rewrite !Forall_app. repeat split; auto with lichen.
Qed.

Lemma write_entries_bytes es : forall index pre out,
  Forall entry_ok es -> length pre = (35 + index * 72)%nat ->
  write_entries es index (list_inserts 0 pre out) = list_inserts 0 (pre ++ concat (entry_bytes <$> es)) out.
Proof.
  induction es as [|[k [h n]] es IH]; intros index pre out Hk Hpre; [simpl; by rewrite app_nil_r |].
  rewrite fmap_cons. cbn [concat write_entries].
  apply Forall_cons in Hk as [He Hk]. pose proof (entry_bytes_length _ He) as Hel.
  destruct He as ([H1 _] & [H2 _] & _). cbn [fst snd] in *.
  change HIGH_WATER_HEADER_LEN with 35%nat. change HIGH_WATER_ENTRY_LEN with 72%nat.
  rewrite (inserts_adjacent 0) by lia.
  rewrite (inserts_adjacent 0) by (rewrite length_app; lia).
  rewrite (inserts_adjacent 0) by (rewrite !length_app, length_to_be; lia).
  rewrite <- !app_assoc. change (k ++ to_be 8 n ++ h) with (entry_bytes (k, (h, n))).
  rewrite IH by (done || rewrite length_app; lia). by rewrite <- app_assoc.
Qed.

Lemma decode_entries_bytes es : forall data index pre (m : HighWaterMap),
  Forall entry_ok es -> NoDup (es.*1) -> (forall k, k ∈ es.*1 -> m !! k = None) ->
  length pre = (35 + index * 72)%nat -> data = pre ++ concat (entry_bytes <$> es) ->
  decode_entries data index (length es) m = Some (list_to_map es ∪ m).
Proof.
  induction es as [|[k [h n]] es IH]; intros data index pre m Hk Hnd Hnew Hpre Hdata.
  - simpl. by rewrite (left_id_L ∅ (∪)).
  - apply Forall_cons in Hk as [He Hk]. pose proof (entry_bytes_length _ He) as Hel.
    destruct He as ([H1 _] & [H2 _] & Hn). rewrite fmap_cons in Hnd, Hdata, Hnew.
    apply NoDup_cons in Hnd as [Hnk Hnd]. cbn [fst snd] in *.
    cbn [decode_entries length concat] in *. rewrite app_assoc in Hdata.
    specialize (IH data (index + 1)%nat (pre ++ entry_bytes (k, (h, n)))).
    change HIGH_WATER_HEADER_LEN with 35%nat. change HIGH_WATER_ENTRY_LEN with 72%nat.
    assert (Hd : data = pre ++ k ++ to_be 8 n ++ h ++ concat (entry_bytes <$> es))
      by (rewrite Hdata; unfold entry_bytes at 1; cbn [fst snd]; by rewrite <- !app_assoc).
    set (off := (35 + index * 72)%nat) in *.
    assert (slice off (off + 32) data = k) as -> by cut_at Hd pre.
    assert (slice (off + 32) (off + 40) data = to_be 8 n) as -> by cut_at Hd (pre ++ k).
    assert (slice (off + 40) (off + 72) data = h) as -> by cut_at Hd (pre ++ k ++ to_be 8 n).
    rewrite from_be_to_be_u64 by width. rewrite (proj2 (Z.eqb_neq _ _)) by lia.
    rewrite (Hnew k) by apply list_elem_of_here. rewrite bool_decide_eq_false_2 by (by intros [? ?]).
    cbn [orb]. rewrite IH; [| done | done | | rewrite length_app; lia | done].
    + f_equal. cbn [list_to_map foldr uncurry]. rewrite <- insert_union_r by (by apply not_elem_of_list_to_map_1).
      by rewrite insert_union_l.
    + intros k' Hk'. rewrite lookup_insert_ne by (intros <-; done). apply Hnew. by apply list_elem_of_further.
Qed.

Lemma decode_entries_sound data count : forall index (m r : HighWaterMap),
  bytes_ok data -> length data = (35 + (index + count) * 72)%nat ->
  map_Forall (fun k v => entry_ok (k, v)) m -> size m = index -> decode_entries data index count m = Some r ->
  map_Forall (fun k v => entry_ok (k, v)) r /\ size r = (index + count)%nat.
Proof.
  induction count as [|count IH]; intros index m r Hok Hl Hm Hs; cbn [decode_entries].
  - intros [= <-]. split; [done | lia].
  - change HIGH_WATER_HEADER_LEN with 35%nat. change HIGH_WATER_ENTRY_LEN with 72%nat.
    destruct (_ || _) eqn:E; [done |]. apply orb_false_iff in E as [E1 E2].
    apply bool_decide_eq_false_1, eq_None_not_Some in E2. apply Z.eqb_neq in E1. intros Hd.
    apply IH in Hd; [| done | lia | | rewrite map_size_insert_None by done; lia].
    + destruct Hd. split; [done | lia].
    + apply map_Forall_insert_2; [| done].
      assert (is_u64 (from_be (slice (35 + index * 72 + 32) (35 + index * 72 + 40) data))) as Hu.
      { apply from_be_u64; [by apply slice_Forall |]. rewrite slice_length; lia. }
      unfold entry_ok, key_ok. cbn [fst snd].
      split_and!; first [by apply slice_Forall | rewrite slice_length; lia | width].
Qed.

Lemma decode_high_water_ok data m : bytes_ok data -> decode_high_water data = Some m -> floor_ok m.
Proof.
  intros Hok. unfold decode_high_water. change HIGH_WATER_HEADER_LEN with 35%nat.
  change HIGH_WATER_ENTRY_LEN with 72%nat. change HIGH_WATER_SCOPE_LEN with 33%nat.
  destruct (_ <? _)%nat; [done |]. set (count := Z.to_nat _). destruct (_ || _) eqn:E; [done |].
  apply orb_false_iff in E as [E1 E2]. bool_to_prop. intros Hd.
  apply decode_entries_sound in Hd as [H1 H2]; [| done | lia | apply map_Forall_empty | apply map_size_empty].
  split; [done | lia].
Qed.

Section floor.
Context `{HashIter}.

Definition sorted_entries (m : HighWaterMap) := merge_sort entry_le (hash_iter m).
Lemma sorted_entries_perm m : sorted_entries m ≡ₚ map_to_list m.
Proof. unfold sorted_entries. rewrite merge_sort_Permutation. apply hash_iter_perm. Qed.
Lemma sorted_entries_length m : length (sorted_entries m) = size m.
Proof. by rewrite sorted_entries_perm, length_map_to_list. Qed.
Lemma sorted_entries_ok m : map_Forall (fun k v => entry_ok (k, v)) m -> Forall entry_ok (sorted_entries m).
Proof.
  intros Hm. rewrite sorted_entries_perm. apply map_Forall_to_list in Hm.
  eapply Forall_impl; [exact Hm |]. by intros [k v].
Qed.

Definition floor_bytes (node : bytes) (inst : Z) (dodag : bytes) (m : HighWaterMap) : bytes :=
  scope_bytes node inst dodag (size m) ++ concat (entry_bytes <$> sorted_entries m).

Lemma floor_bytes_length node inst dodag m : scope_wf node inst dodag -> floor_ok m ->
  length (floor_bytes node inst dodag m) = (35 + size m * 72)%nat.
Proof.
  intros Hsc [Hm _]. unfold floor_bytes.
  rewrite length_app, scope_bytes_length, entries_bytes_length, sorted_entries_length by (done || by apply sorted_entries_ok).
  done.
Qed.
Lemma floor_bytes_ok node inst dodag m : scope_wf node inst dodag -> floor_ok m ->
  bytes_ok (floor_bytes node inst dodag m).
Proof.
  intros Hsc [Hm _]. unfold floor_bytes. apply Forall_app. split; [by apply scope_bytes_ok |].
  by apply entries_bytes_ok, sorted_entries_ok.
Qed.

Lemma encode_high_water_bytes node inst dodag m out : scope_wf node inst dodag -> floor_ok m ->
  (35 + size m * 72 <= length out)%nat ->
  exists out', encode_high_water node inst dodag m out = Some ((35 + size m * 72)%nat, out') /\
    take (35 + size m * 72) out' = floor_bytes node inst dodag m.
Proof.
  intros Hsc Hf Hout. pose proof Hf as [Hm Hsz]. unfold encode_high_water.
  rewrite (proj2 (Nat.ltb_ge _ (size m))) by done.
  change HIGH_WATER_HEADER_LEN with 35%nat. change HIGH_WATER_ENTRY_LEN with 72%nat.
  change HIGH_WATER_SCOPE_LEN with 33%nat.
  rewrite (proj2 (Nat.ltb_ge (length out) _)) by done. eexists. split; [reflexivity |].
  fold (sorted_entries m). unfold MAX_DAO_ORIGINS in Hsz.
  rewrite scope_writes by (done || width).
  rewrite write_entries_bytes by (first [by apply sorted_entries_ok | by rewrite scope_bytes_length]).
  fold (floor_bytes node inst dodag m). pose proof (floor_bytes_length _ _ _ _ Hsc Hf).
  rewrite inserts_front by lia. by apply take_app_le'.
Qed.

Lemma decode_floor_bytes node inst dodag m : scope_wf node inst dodag -> floor_ok m ->
  decode_high_water (floor_bytes node inst dodag m) = Some m.
Proof.
  intros Hsc Hf. pose proof Hf as [Hm Hsz]. unfold decode_high_water.
  rewrite floor_bytes_length by done. change HIGH_WATER_HEADER_LEN with 35%nat.
  change HIGH_WATER_ENTRY_LEN with 72%nat. change HIGH_WATER_SCOPE_LEN with 33%nat.
  rewrite (proj2 (Nat.ltb_ge _ _)) by lia. unfold floor_bytes, MAX_DAO_ORIGINS in *.
  rewrite scope_count_bytes by (done || width). rewrite (proj2 (Nat.ltb_ge _ _)) by lia.
  rewrite Nat.eqb_refl. simpl orb. cbv iota. rewrite <- (sorted_entries_length m) at 2.
  assert (NoDup ((sorted_entries m).*1)) as Hnd by (rewrite sorted_entries_perm; apply NoDup_fst_map_to_list).
  rewrite (decode_entries_bytes _ _ _ (scope_bytes node inst dodag (size m)));
    [| by apply sorted_entries_ok | done | intros; apply lookup_empty
     | by rewrite scope_bytes_length | done].
  rewrite (right_id_L ∅ (∪)). f_equal.
  rewrite (list_to_map_proper _ (map_to_list m)) by (done || apply sorted_entries_perm).
  apply list_to_map_to_list.
Qed.

(** The replay floor survives its encoding: a floor of at most 256 origins
    is written into a buffer that can hold it and decodes to the same floor;
    and whatever decodes is a floor, with 32-byte keys and hashes and non-zero
    sequences, for at most 256 origins. *)
Lemma high_water_roundtrip (node : bytes) (inst : Z) (dodag : bytes) (m m' : HighWaterMap)
    (out data : bytes) :
  scope_wf node inst dodag -> floor_ok m -> (HIGH_WATER_PAYLOAD_LEN <= length out)%nat -> bytes_ok data ->
  (exists n out', encode_high_water node inst dodag m out = Some (n, out') /\
     decode_high_water (take n out') = Some m) /\
  (decode_high_water data = Some m' -> floor_ok m').
Proof.
  intros Hsc Hf Hout Hd. split; [| by apply decode_high_water_ok].
  assert (HIGH_WATER_PAYLOAD_LEN = (35 + 256 * 72)%nat) as Hp by reflexivity.
  destruct (encode_high_water_bytes node inst dodag m out Hsc Hf) as (out' & He & Ht).
  { destruct Hf as [_ Hsz]. unfold MAX_DAO_ORIGINS in Hsz. lia. }
  do 2 eexists. split; [exact He |]. rewrite Ht. by apply decode_floor_bytes.
Qed.

End floor.

(** ** The sender's sequence numbers *)

Record tx_wf (st : DaoTxState) : Prop := {
  tw_key : key_ok (tx_public_key st);
  tw_scope : scope_wf (tx_local_origin st) (tx_instance st) (tx_dodag_id st);
  tw_reserved : is_u64 (last_reserved st);
  tw_signed : (length (last_signed_dao_bytes st) <= MAX_SIGNED_DAO_LEN)%nat;
  tw_signed_ok : bytes_ok (last_signed_dao_bytes st)
}.
Definition tx_payload (st : DaoTxState) : bytes :=
  tx_bytes (tx_public_key st) (tx_local_origin st) (tx_instance st) (tx_dodag_id st)
    (last_reserved st) (last_signed_dao_bytes st).

Lemma tx_payload_length st : tx_wf st ->
  length (tx_payload st) = (75 + length (last_signed_dao_bytes st))%nat.
Proof.
  intros [[H1 _] [H2 _ _ H3 _] _ _ _]. unfold tx_payload, tx_bytes.
  rewrite !length_app, !length_to_be, H1, H2, H3. simpl. lia.
Qed.
Lemma tx_payload_ok st : tx_wf st -> bytes_ok (tx_payload st).
Proof.
  intros [[_ H1] [_ H2 H3 _ H4] _ _ H5]. unfold tx_payload, tx_bytes. rewrite !Forall_app.
  repeat split; auto with lichen.
Qed.

(** A payload of the right sizes is the encoding of its fields. *)
Lemma tx_bytes_fields p n : bytes_ok p -> length p = (75 + n)%nat -> is_u16 (Z.of_nat n) ->
  Z.to_nat (from_be (slice 73 75 p)) = n ->
  p = tx_bytes (take 32 p) (slice 32 48 p) (nth 48 p 0) (slice 49 65 p) (from_be (slice 65 73 p))
        (slice 75 (75 + n) p).
Proof.
  intros Hok Hl Hn Hc. unfold tx_bytes.
  assert (length (slice 75 (75 + n) p) = n) as -> by (rewrite slice_length; lia).
  assert (is_u16 (from_be (slice 73 75 p))) as Hu.
  { pose proof (from_be_bound (slice 73 75 p) ltac:(by apply slice_Forall)) as Hb.
    rewrite slice_length in Hb by lia. change (256 ^ Z.of_nat (75 - 73)) with 65536 in Hb. width. }
  rewrite <- Hc at 1. rewrite Z2Nat.id by width.
  rewrite !to_be_from_be_len by (first [by apply slice_Forall | rewrite slice_length; lia]).
  rewrite <- (slice_one 48 p 0) by lia.
  transitivity (slice 0 (75 + n) p); [by rewrite <- Hl, slice_full |].
  rewrite <- (slice_split 0 32 (75 + n)), <- (slice_split 32 48 (75 + n)), <- (slice_split 48 49 (75 + n)),
    <- (slice_split 49 65 (75 + n)), <- (slice_split 65 73 (75 + n)), <- (slice_split 73 75 (75 + n)) by lia.
  reflexivity.
Qed.

Lemma tx_bytes_slices pk origin inst dodag seqn signed rest p :
  length pk = 32%nat -> length origin = 16%nat -> length dodag = 16%nat -> is_u64 seqn ->
  is_u16 (Z.of_nat (length signed)) -> p = tx_bytes pk origin inst dodag seqn signed ++ rest ->
  take 32 p = pk /\ slice 32 48 p = origin /\ nth 48 p 0 = inst /\ slice 49 65 p = dodag /\
  from_be (slice 65 73 p) = seqn /\ Z.to_nat (from_be (slice 73 75 p)) = length signed /\
  slice 75 (75 + length signed) p = signed.
Proof.
  intros H1 H2 H3 H4 H5 Hp. unfold tx_bytes in Hp. rewrite <- !app_assoc in Hp.
  assert (slice 65 73 p = to_be 8 seqn) as -> by cut_at Hp (pk ++ origin ++ [inst] ++ dodag).
  assert (slice 73 75 p = to_be 2 (Z.of_nat (length signed))) as ->
    by cut_at Hp (pk ++ origin ++ [inst] ++ dodag ++ to_be 8 seqn).
  rewrite from_be_to_be_u64, from_be_to_be_u16, Nat2Z.id by done. split_and!; try done.
  - rewrite Hp. by apply take_app_le'.
  - by cut_at Hp pk.
  - eapply (nth_app_eq (pk ++ origin)); [rewrite Hp, <- ?app_assoc; reflexivity | rewrite length_app; lia].
  - by cut_at Hp (pk ++ origin ++ [inst]).
  - by cut_at Hp (pk ++ origin ++ [inst] ++ dodag ++ to_be 8 seqn ++ to_be 2 (Z.of_nat (length signed))).
Qed.

Lemma slot_value_bytes magic m key g p : store_ok m -> length magic = 4%nat ->
  slot_value magic m key = Some (g, p) -> bytes_ok p.
Proof.
  intros Hok Hm (raw & Hraw & Hp)%bind_Some. pose proof (Hok _ _ Hraw) as Hr. simpl in Hr.
  apply parse_slot_canonical in Hp as (-> & _); [| done..]. unfold slot_bytes, slot_body in Hr.
  rewrite !Forall_app in Hr. tauto.
Qed.
Lemma current_value_bytes magic keys m g i p : store_ok m -> length magic = 4%nat ->
  current_value magic keys m = Some (g, i, p) -> bytes_ok p.
Proof.
  intros Hok Hm. unfold current_value.
  destruct (slot_value magic m keys.1) as [[]|] eqn:Ea, (slot_value magic m keys.2) as [[]|] eqn:Eb; simpl;
    try destruct (_ <? _); intros [= <- <- <-]; by eapply slot_value_bytes.
Qed.

Section tx_lemmas.
Context {St SE : Type} `{!NonVolatile St SE}.
Implicit Types s : St.

(** Opening yields the stored state, and only for its key and scope. *)
Lemma tx_open_ok s pk origin inst dodag s' st :
  store_ok (nv_contents s) -> key_ok pk -> scope_wf origin inst dodag ->
  tx_open s pk origin inst dodag = (s', Ok st) ->
  tx_wf st /\ tx_public_key st = pk /\ tx_local_origin st = origin /\ tx_instance st = inst /\
  tx_dodag_id st = dodag /\
  current_value DAO_TX_MAGIC DAO_TX_KEYS (nv_contents s) =
    Some (generation (tx_current st), slot (tx_current st), tx_payload st).
Proof.
  intros Hok Hpk Hsc. unfold tx_open. destruct (open_redundant _ _ _ _ _ _) as [s1 r1] eqn:E.
  apply open_redundant_spec in E as [_ Hr]. destruct r1 as [[c buf] | e]; [| by intros [= _ ?]].
  destruct Hr as [(p & Hcur & Hlen & Hle & Htake & Hbuf) | []].
  change DAO_TX_HEADER_LEN with 75%nat. change MAX_SIGNED_DAO_LEN with 255%nat.
  destruct (Nat.ltb_spec (len c) 75) as [|H75]; [done |].
  destruct (bool_decide (take 32 buf = pk)) eqn:H32; [| done]. apply bool_decide_eq_true_1 in H32. cbn [negb].
  destruct (_ || _) eqn:Hx; [done |]. apply orb_false_iff in Hx as [[Hx1 Hx2]%orb_false_iff Hx3].
  apply negb_false_iff, bool_decide_eq_true_1 in Hx1, Hx3. bool_to_prop.
  destruct (_ || _) eqn:Hy; [done |]. apply orb_false_iff in Hy as [Hy1 Hy2]. bool_to_prop.
  set (n := Z.to_nat (from_be (slice 73 75 buf))) in *.
  assert (Hbp : bytes_ok p) by (eapply current_value_bytes; [exact Hok | | exact Hcur]; done).
  assert (Hlp : length p = (75 + n)%nat) by congruence.
  assert (Hs : forall a b, (b <= 75 + n)%nat -> slice a b buf = slice a b p).
  { intros a b Hb. rewrite <- Htake, Hy2. by rewrite slice_take. }
  assert (take 32 buf = take 32 p) as E32 by (rewrite <- Htake, Hy2, take_take; f_equal; lia).
  assert (nth 48 buf 0 = nth 48 p 0) as E48.
  { pose proof (slice_one 48 buf 0 ltac:(rewrite Hbuf; lia)) as H1.
    pose proof (slice_one 48 p 0 ltac:(lia)) as H2. rewrite Hs in H1 by lia. congruence. }
  assert (Z.to_nat (from_be (slice 73 75 p)) = n) as Hn by (unfold n; by rewrite Hs by lia).
  intros [= <- <-]. cbn [tx_current tx_public_key tx_local_origin tx_instance tx_dodag_id].
  rewrite Hy2, E32, !Hs by lia. rewrite E32 in H32. rewrite E48 in Hx2.
  rewrite Hs in Hx1, Hx3 by lia.
  split; [| split_and!; try done].
  - split; cbn [tx_public_key tx_local_origin tx_instance tx_dodag_id last_reserved last_signed_dao_bytes];
      [by rewrite H32 | done | | rewrite slice_length; unfold MAX_SIGNED_DAO_LEN; lia | by apply slice_Forall].
    apply from_be_u64; [by apply slice_Forall | rewrite slice_length; lia].
  - rewrite Hcur. f_equal. f_equal. unfold tx_payload.
    cbn [tx_public_key tx_local_origin tx_instance tx_dodag_id last_reserved last_signed_dao_bytes].
    rewrite <- Hx1, <- Hx2, <- Hx3.
    apply tx_bytes_fields; [done.. | width | done].
Qed.

(** A stored state opens as itself, unless the storage fails. *)
Lemma tx_open_complete s g i st :
  tx_wf st -> slots_fit DAO_TX_KEYS (DAO_TX_PAYLOAD_LEN + SLOT_OVERHEAD) (nv_contents s) ->
  current_value DAO_TX_MAGIC DAO_TX_KEYS (nv_contents s) = Some (g, i, tx_payload st) ->
  match (tx_open s (tx_public_key st) (tx_local_origin st) (tx_instance st) (tx_dodag_id st)).2 with
  | Ok st' => st' = tx_set st {| generation := g; slot := i; len := length (tx_payload st) |}
                      (last_reserved st) (last_signed_dao_bytes st)
  | Err (Storage _) => True
  | Err _ => False
  end.
Proof.
  intros Hw Hfit Hcur. pose proof (tx_payload_length st Hw) as Hl.
  pose proof (current_opens_as _ _ _ _ _ _ _ Hcur Hfit
    (replicate (DAO_TX_PAYLOAD_LEN + SLOT_OVERHEAD) 0) (replicate (DAO_TX_PAYLOAD_LEN + SLOT_OVERHEAD) 0)
    (replicate DAO_TX_PAYLOAD_LEN 0)) as Ho.
  destruct Hw as [[Hk _] [H1 _ _ H2 _] Hr Hsl _]. unfold MAX_SIGNED_DAO_LEN in *.
  rewrite !length_replicate in Ho. specialize (Ho ltac:(lia) ltac:(lia) ltac:(rewrite Hl; change DAO_TX_PAYLOAD_LEN with 330%nat; lia)).
  unfold tx_open. destruct (open_redundant _ _ _ _ _ _) as [s1 [[c buf] | e]]; cbn [snd] in Ho |- *;
    [| destruct e; done].
  destruct Ho as [-> Ht]. cbn [len] in *. rewrite Hl in *.
  pose proof (take_drop (75 + length (last_signed_dao_bytes st)) buf) as Hbuf. rewrite Ht in Hbuf. symmetry in Hbuf.
  assert (is_u16 (Z.of_nat (length (last_signed_dao_bytes st)))) as Hu by width.
  change DAO_TX_HEADER_LEN with 75%nat. change MAX_SIGNED_DAO_LEN with 255%nat.
  destruct (tx_bytes_slices _ _ _ _ _ _ _ _ Hk H1 H2 Hr Hu Hbuf) as (-> & -> & -> & -> & -> & -> & ->).
  rewrite (proj2 (Nat.ltb_ge _ _)) by lia. rewrite !bool_decide_eq_true_2 by done. rewrite Z.eqb_refl.
  cbn [negb orb]. rewrite (proj2 (Nat.ltb_ge _ _)) by lia. rewrite Nat.eqb_refl. done.
Qed.

(** One write: nothing happens, or the state goes to the other slot. *)
Lemma tx_write_spec st s reserved signed :
  tx_wf st -> is_u64 reserved -> bytes_ok signed -> store_ok (nv_contents s) ->
  exists s' st' r, tx_write st s reserved signed = Some (s', st', r) /\
    match r with
    | Ok _ => exists v, (length signed <= MAX_SIGNED_DAO_LEN)%nat /\
        st' = tx_set st v reserved signed /\
        update_result (SE := SE) DAO_TX_MAGIC DAO_TX_KEYS (tx_current st) (tx_payload st')
          (DAO_TX_PAYLOAD_LEN + SLOT_OVERHEAD) (nv_contents s) (nv_contents s') (Ok v)
    | Err _ => st' = st /\ nv_contents s' = nv_contents s
    end.
Proof.
  intros Hw Hres Hsb Hok. pose proof Hw as [[Hk _] Hsc _ _ _]. unfold tx_write.
  rewrite encode_tx_state_bytes by done.
  destruct (Nat.ltb_spec MAX_SIGNED_DAO_LEN (length signed)) as [| Hle]; [by do 3 eexists |].
  assert (Hw' : forall v, tx_wf (tx_set st v reserved signed)) by (intros v; destruct Hw; by split).
  pose proof (tx_payload_length _ (Hw' (tx_current st))) as Hl. pose proof (tx_payload_ok _ (Hw' (tx_current st))) as Hb.
  unfold tx_payload in Hl, Hb. unfold MAX_SIGNED_DAO_LEN in *.
  cbn [tx_set tx_public_key tx_local_origin tx_instance tx_dodag_id last_reserved last_signed_dao_bytes] in Hl, Hb.
  destruct (update_redundant_spec s DAO_TX_KEYS DAO_TX_MAGIC (tx_current st)
    (tx_bytes (tx_public_key st) (tx_local_origin st) (tx_instance st) (tx_dodag_id st) reserved signed)
    (replicate (DAO_TX_PAYLOAD_LEN + SLOT_OVERHEAD) 0)) as (s' & r & Hu & Hr);
    [done | done | by apply (bool_decide_unpack _); vm_compute | done | rewrite Hl; width
     | rewrite Hl, length_replicate; change (DAO_TX_PAYLOAD_LEN + SLOT_OVERHEAD)%nat with 354%nat; lia | done |].
  rewrite Hu. rewrite length_replicate in Hr. destruct r as [v | e]; do 3 eexists; (split; [reflexivity |]).
  - exists v. split; [done |]. split; [done |]. exact Hr.
  - split; [done |]. by destruct Hr as [-> _].
Qed.

(** *** The sender across power losses

    The store, and the states opened from it since the last power loss: an
    application may, by mistake, open it twice. *)
Inductive tx_step (pk origin : bytes) (inst : Z) (dodag : bytes) :
    St * list DaoTxState -> option Z -> St * list DaoTxState -> Prop :=
  | ts_reserve s hs i st s' st' r :
      hs !! i = Some st -> reserve_next st s = Some (s', st', r) ->
      tx_step pk origin inst dodag (s, hs)
        (match r with Ok n => Some n | Err _ => None end) (s', <[i := st']> hs)
  | ts_finalize s hs i st n signed s' st' r :
      hs !! i = Some st -> bytes_ok signed -> finalize_signed st s n signed = Some (s', st', r) ->
      tx_step pk origin inst dodag (s, hs) None (s', <[i := st']> hs)
  | ts_clear s hs i st s' st' r :
      hs !! i = Some st -> clear_transmitted st s = Some (s', st', r) ->
      tx_step pk origin inst dodag (s, hs) None (s', <[i := st']> hs)
  | ts_power_loss s hs : tx_step pk origin inst dodag (s, hs) None (s, [])
  | ts_open s hs s' st :
      tx_open s pk origin inst dodag = (s', Ok st) ->
      tx_step pk origin inst dodag (s, hs) None (s', st :: hs)
  | ts_other s hs s' :
      (forall key, key = DAO_TX_KEYS.1 \/ key = DAO_TX_KEYS.2 ->
         nv_contents s' !! key = nv_contents s !! key) ->
      store_ok (nv_contents s') -> tx_step pk origin inst dodag (s, hs) None (s', hs).

(** A run and the sequence numbers it handed out, in order. *)
Inductive tx_run (pk origin : bytes) (inst : Z) (dodag : bytes) :
    St * list DaoTxState -> list Z -> St * list DaoTxState -> Prop :=
  | tr_nil x : tx_run pk origin inst dodag x [] x
  | tr_step x o y ns z :
      tx_step pk origin inst dodag x o y -> tx_run pk origin inst dodag y ns z ->
      tx_run pk origin inst dodag x (option_list o ++ ns) z.

(** The state [d] is stored, and every handle was current once. *)
Definition tx_stored (d : DaoTxState) (x : St * list DaoTxState) : Prop :=
  tx_wf d /\ store_ok (nv_contents x.1) /\
  (exists g i, current_value DAO_TX_MAGIC DAO_TX_KEYS (nv_contents x.1) = Some (g, i, tx_payload d)) /\
  Forall (fun h => tx_wf h /\
    handle_ok DAO_TX_MAGIC DAO_TX_KEYS (tx_current h) (fun p => p = tx_payload h) (nv_contents x.1)) x.2.

Lemma tx_payload_reserved a b : tx_wf a -> tx_wf b -> tx_payload a = tx_payload b ->
  last_reserved a = last_reserved b.
Proof.
  intros [[H1 _] [H2 _ _ H3 _] H4 H5 _] [[G1 _] [G2 _ _ G3 _] G4 G5 _] E. unfold MAX_SIGNED_DAO_LEN in *.
  destruct (tx_bytes_slices (tx_public_key a) (tx_local_origin a) (tx_instance a) (tx_dodag_id a)
    (last_reserved a) (last_signed_dao_bytes a) [] (tx_payload a)) as (_ & _ & _ & _ & Ha & _);
    [done.. | width | by rewrite app_nil_r |].
  destruct (tx_bytes_slices (tx_public_key b) (tx_local_origin b) (tx_instance b) (tx_dodag_id b)
    (last_reserved b) (last_signed_dao_bytes b) [] (tx_payload b)) as (_ & _ & _ & _ & Hb & _);
    [done.. | width | by rewrite app_nil_r |].
  congruence.
Qed.

(** A write through the [i]-th handle. *)
Lemma tx_write_stored d s hs i st reserved signed s' st' r :
  tx_stored d (s, hs) -> hs !! i = Some st -> is_u64 reserved -> bytes_ok signed ->
  tx_write st s reserved signed = Some (s', st', r) ->
  exists d', tx_stored d' (s', <[i := st']> hs) /\
    match r with
    | Ok _ => last_reserved st = last_reserved d /\ last_reserved d' = reserved
    | Err _ => d' = d
    end.
Proof.
  intros (Hd & Hok & (g & j & Hcur) & Hhs) Hi Hres Hsb Hw. cbn [fst snd] in *.
  pose proof (Forall_lookup_1 _ _ _ _ Hhs Hi) as [Hst Hh].
  destruct (tx_write_spec st s reserved signed Hst Hres Hsb Hok) as (s1 & st1 & r1 & Hw1 & Hr).
  rewrite Hw in Hw1. injection Hw1 as <- <- <-. destruct r as [u | e].
  - destruct Hr as (v & Hle & -> & Hup).
    destruct (update_handle _ _ _ _ _ _ _ _ _ Hh Hup) as ((old & Hc1 & ->) & Hc2 & _ & Hoth).
    rewrite Hcur in Hc1. injection Hc1 as _ _ Hp.
    assert (tx_wf (tx_set st v reserved signed)) as Hwf by (destruct Hst; by split).
    exists (tx_set st v reserved signed). split.
    + split; [done |]. cbn [fst snd]. split; [| split].
      * assert (length (tx_payload (tx_set st v reserved signed)) <= 330)%nat as Hl.
        { rewrite tx_payload_length by done. cbn. unfold MAX_SIGNED_DAO_LEN in Hle. lia. }
        destruct Hup as (_ & _ & -> & _). apply map_Forall_insert_2; [| done].
        unfold slot_bytes. apply Forall_app. split; [| auto with lichen].
        apply slot_body_ok; [by apply (bool_decide_unpack _); vm_compute | by apply tx_payload_ok].
      * by exists (generation v), (slot v).
      * apply Forall_insert; [| split; [done |]].
        -- eapply Forall_impl; [exact Hhs |]. intros h [? ?]. split; [done |]. by apply Hoth.
        -- by eapply current_handle.
    + split; [| done]. symmetry. by apply tx_payload_reserved.
  - destruct Hr as [-> Hc]. exists d. split; [| done]. split; [done |]. cbn [fst snd]. rewrite Hc.
    rewrite list_insert_id by done. split; [done |]. split; [by exists g, j | done].
Qed.

(** Every step keeps a state stored, and its last reserved number is the one
    before, or the number the step hands out, which is greater. *)
Lemma tx_step_stored pk origin inst dodag d x o y :
  key_ok pk -> scope_wf origin inst dodag -> tx_stored d x -> tx_step pk origin inst dodag x o y ->
  exists d', tx_stored d' y /\
    match o with
    | Some n => last_reserved d < n /\ last_reserved d' = n
    | None => last_reserved d' = last_reserved d
    end.
Proof.
  intros Hpk Hsc Hs Hstep. pose proof Hs as (Hd & Hok & (g & j & Hcur) & Hhs).
  destruct Hstep as [s hs i st s' st' r Hi Hr | s hs i st n signed s' st' r Hi Hb Hr | s hs i st s' st' r Hi Hr
    | s hs | s hs s' st Ho | s hs s' Hf Hok']; cbn [fst snd] in *.
  - pose proof (Forall_lookup_1 _ _ _ _ Hhs Hi) as [[_ _ Hu _ Hsb] _]. unfold reserve_next, checked_add in Hr.
    destruct (Z.leb_spec (last_reserved st + 1) u64_max) as [Hle |];
      [| injection Hr as <- <- <-; rewrite list_insert_id by done; by exists d].
    destruct (tx_write _ _ _ _) as [[[s1 st1] r1] |] eqn:Hw; [| done]. cbn in Hr. injection Hr as <- <- <-.
    assert (is_u64 (last_reserved st + 1)) as Hu' by width.
    destruct (tx_write_stored _ _ _ _ _ _ _ _ _ _ Hs Hi Hu' Hsb Hw) as (d' & Hd' & Hr').
    exists d'. split; [done |]. destruct r1; cbn; [| by subst]. lia.
  - pose proof (Forall_lookup_1 _ _ _ _ Hhs Hi) as [[_ _ Hu _ _] _]. unfold finalize_signed in Hr.
    assert (Hsame : exists d', tx_stored d' (s, <[i := st]> hs) /\ last_reserved d' = last_reserved d)
      by (rewrite list_insert_id by done; by exists d).
    destruct (negb (n =? _)) eqn:En; [by injection Hr as <- <- <- |]. bool_to_prop. subst n.
    destruct (_ <? _)%nat; [by injection Hr as <- <- <- |].
    destruct (signed_sequence signed); [| by injection Hr as <- <- <-].
    destruct (negb _); [by injection Hr as <- <- <- |].
    destruct (bool_decide _); [by injection Hr as <- <- <- |].
    destruct (tx_write_stored _ _ _ _ _ _ _ _ _ _ Hs Hi Hu Hb Hr) as (d' & Hd' & Hr').
    exists d'. split; [done |]. destruct r; [lia | by subst].
  - pose proof (Forall_lookup_1 _ _ _ _ Hhs Hi) as [[_ _ Hu _ _] _]. unfold clear_transmitted in Hr.
    destruct (last_signed_dao_bytes st); [injection Hr as <- <- <-; rewrite list_insert_id by done; by exists d |].
    destruct (tx_write_stored _ _ _ _ _ _ _ _ _ _ Hs Hi Hu (List.Forall_nil _) Hr) as (d' & Hd' & Hr').
    exists d'. split; [done |]. destruct r; [lia | by subst].
  - exists d. split; [| done]. split; [done |]. split; [done |]. split; [by exists g, j | constructor].
  - exists d. split; [| done].
    assert (nv_contents s' = nv_contents s) as Hc.
    { unfold tx_open in Ho. destruct (open_redundant _ _ _ _ _ _) as [s1 r1] eqn:E.
      apply open_redundant_spec in E as [<- _]. destruct r1 as [[? ?] | ?]; by injection Ho as <-. }
    apply tx_open_ok in Ho as (Hw & _ & _ & _ & _ & Hst); [| done..].
    split; [done |]. cbn [fst snd]. rewrite Hc. split; [done |]. split; [by exists g, j |].
    constructor; [| done]. split; [done |]. by apply (current_handle _ _ _ _ _ _ _ _ Hst).
  - exists d. split; [| done]. split; [done |]. cbn [fst snd].
    assert (Hf' : forall (P : bytes -> Prop) c, handle_ok DAO_TX_MAGIC DAO_TX_KEYS c P (nv_contents s) ->
      handle_ok DAO_TX_MAGIC DAO_TX_KEYS c P (nv_contents s')).
    { intros P c. unfold handle_ok. by rewrite (current_value_frame _ _ (nv_contents s) (nv_contents s')) by auto. }
    split; [done |]. split; [exists g, j; by rewrite (current_value_frame _ _ (nv_contents s)) by auto |].
    eapply Forall_impl; [exact Hhs |]. intros h [? ?]. split; [done |]. by apply Hf'.
Qed.

(** C11: an origin never uses a sequence number twice.  Whatever is interleaved
    (failed writes, other users of the storage, power losses and reopenings,
    even the state opened several times), the numbers [reserve_next] returns are
    strictly increasing and above the stored one it started from; and the number
    handed out last is on storage before it is returned. *)
Theorem tx_sequences_never_reused pk origin inst dodag d x ns y :
  key_ok pk -> scope_wf origin inst dodag -> tx_stored d x -> tx_run pk origin inst dodag x ns y ->
  StronglySorted Z.lt ns /\ Forall (Z.lt (last_reserved d)) ns /\
  exists d', tx_stored d' y /\ last_reserved d' = default (last_reserved d) (last ns).
Proof.
  intros Hpk Hsc Hs Hrun. revert d Hs. induction Hrun as [x | x o y ns z Hstep _ IH]; intros d Hs.
  - split; [constructor |]. split; [constructor |]. by exists d.
  - destruct (tx_step_stored _ _ _ _ _ _ _ _ Hpk Hsc Hs Hstep) as (d1 & Hd1 & Ho).
    destruct (IH d1 Hd1) as (Hsort & Hall & d' & Hd' & Hl). destruct o as [n|]; cbn.
    + destruct Ho as [Hlt <-]. split; [by constructor |]. split.
      * constructor; [done |]. eapply Forall_impl; [exact Hall |]. intros z'. cbn. lia.
      * exists d'. split; [done |]. rewrite Hl. rewrite last_cons. by destruct (last ns).
    + rewrite <- Ho. split; [done |]. split; [done |]. by exists d'.
Qed.

End tx_lemmas.

(** ** Admission *)

Lemma admission_magic_ok : bytes_ok DAO_ADMISSION_MAGIC.
Proof. by apply (bool_decide_unpack _); vm_compute. Qed.

Section admission_lemmas.
Context {St SE : Type} `{!NonVolatile St SE} `{HashIter}.
Implicit Types s : St.

Record admission_wf (st : DaoAdmissionState) : Prop := {
  aw_scope : scope_wf (ad_node_address st) (ad_instance st) (ad_dodag_id st);
  aw_keys : set_Forall key_ok (admitted st);
  aw_size : (size (admitted st) <= MAX_DAO_ORIGINS)%nat
}.
Definition admission_payload (st : DaoAdmissionState) : bytes :=
  admission_bytes (ad_node_address st) (ad_instance st) (ad_dodag_id st) (admitted st).

Lemma admission_payload_length st : admission_wf st ->
  length (admission_payload st) = (35 + size (admitted st) * 32)%nat.
Proof.
  intros [Hsc Hk _]. unfold admission_payload, admission_bytes.
  rewrite length_app, scope_bytes_length, concat_keys_length, sorted_keys_length by (done || by apply sorted_keys_ok).
  done.
Qed.
Lemma admission_payload_ok st : admission_wf st -> bytes_ok (admission_payload st).
Proof.
  intros [Hsc Hk _]. apply Forall_app. split; [by apply scope_bytes_ok | by apply concat_keys_ok, sorted_keys_ok].
Qed.

(** The stored set opens as itself, unless the storage fails. *)
Lemma admission_open_complete s g i st :
  admission_wf st ->
  slots_fit DAO_ADMISSION_KEYS (DAO_ADMISSION_PAYLOAD_LEN + SLOT_OVERHEAD) (nv_contents s) ->
  current_value DAO_ADMISSION_MAGIC DAO_ADMISSION_KEYS (nv_contents s) = Some (g, i, admission_payload st) ->
  match (admission_open s (ad_node_address st) (ad_instance st) (ad_dodag_id st)).2 with
  | Ok st' => admitted st' = admitted st /\ ad_current st' =
      {| generation := g; slot := i; len := length (admission_payload st) |}
  | Err (Storage _) => True
  | Err _ => False
  end.
Proof.
  intros Hw Hfit Hcur. pose proof (admission_payload_length st Hw) as Hl.
  pose proof (current_opens_as _ _ _ _ _ _ _ Hcur Hfit
    (replicate (DAO_ADMISSION_PAYLOAD_LEN + SLOT_OVERHEAD) 0)
    (replicate (DAO_ADMISSION_PAYLOAD_LEN + SLOT_OVERHEAD) 0)
    (replicate DAO_ADMISSION_PAYLOAD_LEN 0)) as Ho.
  pose proof Hw as [Hsc Hk Hsz]. rewrite !length_replicate in Ho.
  assert (length (admission_payload st) <= DAO_ADMISSION_PAYLOAD_LEN)%nat as Hfits.
  { rewrite Hl. change DAO_ADMISSION_PAYLOAD_LEN with (35 + 256 * 32)%nat. unfold MAX_DAO_ORIGINS in Hsz. lia. }
  specialize (Ho ltac:(lia) ltac:(lia) Hfits). unfold admission_open.
  destruct (open_redundant _ _ _ _ _ _) as [s1 [[c buf] | e]]; cbn [snd] in Ho |- *; [| by destruct e].
  destruct Ho as [-> ->].
  destruct (admissions_roundtrip _ _ _ [] 0 [] _ Hsc Hk Hsz) as (p & He & Hd & _).
  rewrite encode_admissions_bytes, (proj2 (Nat.ltb_ge _ _)) in He by done. injection He as <-.
  fold (admission_payload st) in Hd. by rewrite Hd.
Qed.

(** Admitting an origin is durable: unless it fails, in which case neither the
    state nor the stored set changes, the key is admitted and reopening, after a
    power loss too, finds it with all the others; it fails with a full table
    exactly when 256 other origins are admitted. *)
Lemma admit_durable st s key g i :
  admission_wf st -> key_ok key -> store_ok (nv_contents s) ->
  slots_fit DAO_ADMISSION_KEYS (DAO_ADMISSION_PAYLOAD_LEN + SLOT_OVERHEAD) (nv_contents s) ->
  current_value DAO_ADMISSION_MAGIC DAO_ADMISSION_KEYS (nv_contents s) = Some (g, i, admission_payload st) ->
  exists s' st' r, admit_key st s key = Some (s', st', r) /\
    (r = Err AdmitCapacity <-> key ∉ admitted st /\ size (admitted st) = MAX_DAO_ORIGINS) /\
    match r with
    | Ok _ => admitted st' = {[key]} ∪ admitted st /\ admission_wf st' /\
        match (admission_open s' (ad_node_address st) (ad_instance st) (ad_dodag_id st)).2 with
        | Ok st2 => admitted st2 = {[key]} ∪ admitted st
        | Err (Storage _) => True
        | Err _ => False
        end
    | Err _ => st' = st /\ nv_contents s' = nv_contents s
    end.
Proof.
  intros Hw Hkey Hok Hfit Hcur. pose proof Hw as [Hsc Hk Hsz]. unfold admit_key.
  case_bool_decide as Hin.
  { do 3 eexists. split; [reflexivity |]. split; [by split; [| intros [? _]] |].
    rewrite (subseteq_union_1_L {[key]} (admitted st)) by (by apply singleton_subseteq_l). split; [done |]. split; [done |].
    pose proof (admission_open_complete _ _ _ _ Hw Hfit Hcur) as Ho.
    destruct (admission_open _ _ _ _) as [? [? | []]]; cbn [snd] in *; tauto. }
  destruct (Nat.eqb_spec (size (admitted st)) MAX_DAO_ORIGINS) as [Hfull | Hroom].
  { do 3 eexists. split; [reflexivity |]. done. }
  set (st1 := fun c => {| ad_current := c; ad_node_address := ad_node_address st; ad_instance := ad_instance st;
                ad_dodag_id := ad_dodag_id st; admitted := {[key]} ∪ admitted st |}).
  assert (Hsz1 : size ({[key]} ∪ admitted st) = (1 + size (admitted st))%nat)
    by (rewrite size_union, size_singleton; [done | by apply disjoint_singleton_l]).
  assert (Hw1 : forall c, admission_wf (st1 c)).
  { intros c. split; cbn [st1 ad_node_address ad_instance ad_dodag_id admitted]; [done | | lia].
    apply set_Forall_union; [by apply set_Forall_singleton | done]. }
  rewrite encode_admissions_bytes, (proj2 (Nat.ltb_ge _ _)) by (first [done | lia | apply (Hw1 (ad_current st))]).
  change (admission_bytes _ _ _ _) with (admission_payload (st1 (ad_current st))).
  pose proof (admission_payload_length _ (Hw1 (ad_current st))) as Hl. cbn [st1 admitted] in Hl.
  unfold MAX_DAO_ORIGINS in *.
  assert (24 + length (admission_payload (st1 (ad_current st))) <= DAO_ADMISSION_PAYLOAD_LEN + SLOT_OVERHEAD)%nat as Hrec.
  { rewrite Hl, Hsz1. change (DAO_ADMISSION_PAYLOAD_LEN + SLOT_OVERHEAD)%nat with (35 + 256 * 32 + 24)%nat. lia. }
  pose proof (admission_payload_ok _ (Hw1 (ad_current st))) as Hpok.
  destruct (update_redundant_spec s DAO_ADMISSION_KEYS DAO_ADMISSION_MAGIC (ad_current st)
    (admission_payload (st1 (ad_current st)))
    (replicate (DAO_ADMISSION_PAYLOAD_LEN + SLOT_OVERHEAD) 0)) as (s' & r & Hu & Hr);
    [done | done | apply admission_magic_ok | done | rewrite Hl, Hsz1; width
     | by rewrite length_replicate | done |].
  rewrite Hu. destruct r as [v | e].
  - exists s', (st1 v), (Ok tt). split; [done |]. split; [split; [done | intros [_ ?]; lia] |].
    split; [done |]. split; [done |].
    assert (slots_fit DAO_ADMISSION_KEYS (DAO_ADMISSION_PAYLOAD_LEN + SLOT_OVERHEAD) (nv_contents s')) as Hfit'.
    { by eapply (update_result_store (SE := SE) DAO_ADMISSION_MAGIC) in Hr as (_ & Hf & _);
        [exact Hf | done | apply admission_magic_ok | exact Hpok | exact Hrec | .. ]. }
    destruct Hr as (_ & _ & _ & Hcur').
    change (admission_payload (st1 (ad_current st))) with (admission_payload (st1 v)) in Hcur'.
    pose proof (admission_open_complete _ _ _ _ (Hw1 v) Hfit' Hcur') as Ho.
    cbn [st1 ad_node_address ad_instance ad_dodag_id admitted] in Ho.
    destruct (admission_open _ _ _ _) as [? [? | []]]; cbn [snd] in *; tauto.
  - do 3 eexists. split; [reflexivity |]. split; [| by destruct Hr as [-> _]].
    destruct e; split; try done; intros [_ ?]; lia.
Qed.

End admission_lemmas.

(** ** A sender *)

Definition demo_key : bytes := replicate 32 7.
Definition demo_origin : bytes := 253 :: replicate 15 1.
Definition demo_dodag : bytes := 254 :: replicate 15 2.
Definition tx_demo_store : Mem.MemStorage :=
  match @tx_provision _ _ Mem.mem_nonvolatile Mem.new demo_key demo_origin 0 demo_dodag with
  | Some (s, Ok _) => s
  | _ => Mem.new
  end.
Definition tx_demo_state : DaoTxState :=
  {| tx_current := {| generation := 1; slot := 0; len := 75 |}; tx_public_key := demo_key;
     tx_local_origin := demo_origin; tx_instance := 0; tx_dodag_id := demo_dodag; last_reserved := 0;
     last_signed_dao_bytes := [] |}.

Lemma demo_scope_wf : scope_wf demo_origin 0 demo_dodag.
Proof. split; first [reflexivity | by apply (bool_decide_unpack _); vm_compute | width]. Qed.
Lemma demo_key_ok : key_ok demo_key.
Proof. split; [reflexivity | by apply (bool_decide_unpack _); vm_compute]. Qed.
Lemma tx_demo_stored : @tx_stored _ _ Mem.mem_nonvolatile tx_demo_state (tx_demo_store, []).
Proof.
  split; [split; [apply demo_key_ok | apply demo_scope_wf | vm_compute; split; discriminate | vm_compute; lia | constructor] |].
  split; [apply (bool_decide_unpack _); vm_compute; exact I |]. split; [| constructor].
  exists 1, 0%nat. vm_compute. reflexivity.
Qed.

(** Open, reserve, lose power, open and reserve. *)
Definition tx_demo_run :=
  match @tx_open _ _ Mem.mem_nonvolatile tx_demo_store demo_key demo_origin 0 demo_dodag with
  | (s1, Ok st1) =>
    match @reserve_next _ _ Mem.mem_nonvolatile st1 s1 with
    | Some (s2, st2, Ok n1) =>
      match @tx_open _ _ Mem.mem_nonvolatile s2 demo_key demo_origin 0 demo_dodag with
      | (s3, Ok st3) =>
        match @reserve_next _ _ Mem.mem_nonvolatile st3 s3 with
        | Some (s4, st4, Ok n2) => Some (n1, n2)
        | _ => None
        end
      | _ => None
      end
    | _ => None
    end
  | _ => None
  end.

Lemma tx_sequences_never_reused_witness : exists y,
  @tx_run _ _ Mem.mem_nonvolatile demo_key demo_origin 0 demo_dodag (tx_demo_store, []) [1; 2] y /\
  StronglySorted Z.lt [1; 2].
Proof.
  assert (tx_demo_run = Some (1, 2)) as He by (vm_compute; reflexivity). unfold tx_demo_run in He.
  destruct (tx_open tx_demo_store demo_key demo_origin 0 demo_dodag) as [s1 [st1 | e]] eqn:E1; [| discriminate].
  destruct (reserve_next st1 s1) as [[[s2 st2] [n1 | e]] |] eqn:E2; [| discriminate..].
  destruct (tx_open s2 demo_key demo_origin 0 demo_dodag) as [s3 [st3 | e]] eqn:E3; [| discriminate].
  destruct (reserve_next st3 s3) as [[[s4 st4] [n2 | e]] |] eqn:E4; [| discriminate..].
  injection He as -> ->.
  assert (@tx_run _ _ Mem.mem_nonvolatile demo_key demo_origin 0 demo_dodag (tx_demo_store, [])
    (option_list None ++ option_list (Some 1) ++ option_list None ++ option_list None ++ option_list (Some 2) ++ [])
    (s4, [st4])) as Hrun.
  { eapply tr_step; [by eapply ts_open |]. eapply tr_step.
    { by apply (ts_reserve _ _ _ _ s1 [st1] 0 st1 s2 st2 (Ok 1)). }
    eapply tr_step; [apply ts_power_loss |]. eapply tr_step; [by eapply ts_open |].
    eapply tr_step; [| apply tr_nil]. by apply (ts_reserve _ _ _ _ s3 [st3] 0 st3 s4 st4 (Ok 2)). }
  eexists. split; [exact Hrun |].
  exact (proj1 (@tx_sequences_never_reused _ _ Mem.mem_nonvolatile _ _ _ _ _ _ _ _ demo_key_ok demo_scope_wf
    tx_demo_stored Hrun)).
Defined.

End RplPersist.
