(* ===== verification/RplRoot.v ===== *)
(** * The root's signed DAO path (lichen-rpl/src/verify.rs, routing.rs)

    Verification of a signed DAO, and the root's processing of a verified one
    against its replay floor: what is checked in which order, and that the floor
    is on storage before the routes change.  The storage is an argument, as in
    RplPersist.v; a panic is the outer [None]. *)

From stdpp Require Import sorting strings.
From S2P Require Import Prelude Addr Schnorr RplMessage RplTable RplRoutes RplDao RplDaoInv Storage RplPersist.
Open Scope Z_scope.

Module RplRoot.
Import Addr Schnorr RplMessage RplTable RplRoutes RplDao RplDaoInv Slot Redundant RplPersist.

(** ** Verification *)

Inductive DaoMalformed :=
  | DmMissingSignature | DmDuplicateSignature | DmNonTerminalSignature | DmInvalidOptionLength
  | DmUnknownOption (t : Z) | DmInvalidDao.
Inductive DaoVerifyError :=
  | Malformed (m : DaoMalformed) | UnknownKey | WrongInstance | WrongDodag | IidMismatch | BadSignature.

(** The bytes of the literal LICHEN-DAO-ORIGIN-v1. *)
Definition DAO_ORIGIN_DOMAIN : bytes :=
  [76; 73; 67; 72; 69; 78; 45; 68; 65; 79; 45; 79; 82; 73; 71; 73; 78; 45; 118; 49].

Record SignatureVerifiedDao := {
  sv_envelope : SignedDaoEnvelope;
  sv_origin : bytes;
  sv_public_key : bytes;
  signed_dao_sha256 : bytes
}.

Definition map_envelope_error (e : DaoEnvelopeError) : DaoVerifyError :=
  Malformed match e with
  | MissingSignature => DmMissingSignature
  | DuplicateSignature => DmDuplicateSignature
  | NonTerminalSignature => DmNonTerminalSignature
  | InvalidOptionLength => DmInvalidOptionLength
  | UnknownOption t => DmUnknownOption t
  | Rpl _ => DmInvalidDao
  end.

Definition zero_id : bytes := replicate 16 0.

(** The DODAG the digest names: the DAO's unless it has none. *)
Definition effective_dodag_id (dao : Dao) (active_dodag_id : bytes) : bytes :=
  match dao_dodag_id dao with
  | Some id => if bool_decide (id = zero_id) then active_dodag_id else id
  | None => active_dodag_id
  end.

Section verify.
Context `{Crypto}.

Definition digest_input (origin dodag_id : bytes) (sequence : Z) (unsigned_dao : bytes) : bytes :=
  DAO_ORIGIN_DOMAIN ++ origin ++ dodag_id ++ to_be 8 sequence ++ unsigned_dao.
Definition dao_origin_digest (origin dodag_id : bytes) (sequence : Z) (unsigned_dao : bytes) : bytes :=
  sha512 (digest_input origin dodag_id sequence unsigned_dao).

Definition verify_signature (wire origin : bytes) (rpl_instance_id : Z) (active_dodag_id : bytes)
    (pinned_key : option PublicKey) : result DaoVerifyError SignatureVerifiedDao :=
  match dao_from_bytes wire with
  | Err _ => Err (Malformed DmInvalidDao)
  | Ok dao =>
    if negb (dao_flags dao =? 0) || negb (nth 2 wire 0 =? 0) then Err (Malformed DmInvalidDao)
    else if negb (dao_instance dao =? rpl_instance_id) then Err WrongInstance
    else if match dao_dodag_id dao with
            | Some dodag => negb (bool_decide (dodag = zero_id)) && negb (bool_decide (dodag = active_dodag_id))
            | None => false
            end then Err WrongDodag
    else
      envelope ← map_err map_envelope_error (envelope_from_bytes wire);
      pinned_key ← ok_or pinned_key UnknownKey;
      if negb (bool_decide (origin = ygg_addr_from_pubkey pinned_key)) then Err IidMismatch
      else
        let digest := dao_origin_digest origin (effective_dodag_id (env_dao envelope) active_dodag_id)
                        (origin_sequence (env_origin envelope)) (unsigned_bytes envelope) in
        if negb (schnorr_verify pinned_key digest (os_signature (env_origin envelope))) then Err BadSignature
        else Ok {| sv_envelope := envelope; sv_origin := origin; sv_public_key := pinned_key;
                   signed_dao_sha256 := sha256 wire |}
  end.

End verify.

(** ** The root *)

Inductive DaoProcessOutcome := Applied | Duplicate.
Inductive DaoProcessError (E : Type) : Type :=
  | Replay | ProcPersistence (e : E) | ProcStale | ProcExhausted | ProcCorrupt | RouteRejected | NotAdmitted.
Arguments Replay {E}.
Arguments ProcPersistence {E} e.
Arguments ProcStale {E}.
Arguments ProcExhausted {E}.
Arguments ProcCorrupt {E}.
Arguments RouteRejected {E}.
Arguments NotAdmitted {E}.

Definition map_rx_update_error {E} (e : RedundantUpdateError E) : DaoProcessError E :=
  match e with
  | UStorage e => ProcPersistence e
  | UStale => ProcStale
  | UExhausted => ProcExhausted
  | UCorrupt => ProcCorrupt
  end.

Record DaoRxState := { rx_current : RedundantValue }.

Definition with_floor (m : DaoManager) (floor : HighWaterMap) : DaoManager :=
  {| node_address := node_address m; dm_is_root := dm_is_root m; dm_instance := dm_instance m;
     dm_dodag_id := dm_dodag_id m; dm_sequence := dm_sequence m; dm_path_sequence := dm_path_sequence m;
     last_built_dao := last_built_dao m; route_state := route_state m; origin_high_water := floor;
     prefix_delegations := prefix_delegations m |}.

Section root.
Context {St SE : Type} `{!NonVolatile St SE} `{HashIter}.
Implicit Types s : St.

Definition open_root s (node : bytes) (rpl_instance_id : Z) (dodag_id : bytes) :
    St * result (DaoPersistentOpenError SE) (DaoManager * DaoRxState) :=
  let a := replicate (HIGH_WATER_PAYLOAD_LEN + SLOT_OVERHEAD) 0 in
  let b := replicate (HIGH_WATER_PAYLOAD_LEN + SLOT_OVERHEAD) 0 in
  let payload := replicate HIGH_WATER_PAYLOAD_LEN 0 in
  match open_redundant s DAO_RX_KEYS DAO_RX_MAGIC a b payload with
  | (s, Err e) => (s, Err (map_open_error e))
  | (s, Ok (current, payload)) =>
      let persisted := take (len current) payload in
      (s,
       if (length persisted <? HIGH_WATER_HEADER_LEN)%nat then Err Corrupt
       else if negb (scope_matches persisted node rpl_instance_id dodag_id) then Err ScopeMismatch
       else
         origin_high_water ← ok_or (decode_high_water persisted) Corrupt;
         Ok (with_floor (manager_as_root node rpl_instance_id dodag_id) origin_high_water,
             {| rx_current := current |}))
  end.

Definition provision_root s (node : bytes) (rpl_instance_id : Z) (dodag_id : bytes) :
    option (St * result (DaoProvisionError SE) (DaoManager * DaoRxState)) :=
  match open_root s node rpl_instance_id dodag_id with
  | (s, Ok _) => Some (s, Err (ProvisionOpen AlreadyProvisioned))
  | (s, Err Missing) =>
      let payload := replicate HIGH_WATER_HEADER_LEN 0 in
      '(_, payload) ← encode_high_water node rpl_instance_id dodag_id ∅ payload;
      let record := replicate (length payload + SLOT_OVERHEAD) 0 in
      '(s, r) ← provision_redundant s DAO_RX_KEYS DAO_RX_MAGIC payload record;
      match r with
      | Err e => Some (s, Err (map_provision_error e))
      | Ok _ =>
          let '(s, r) := open_root s node rpl_instance_id dodag_id in
          Some (s, map_err ProvisionOpen r)
      end
  | (s, Err (Storage e)) => Some (s, Err (ProvisionStorage e))
  | (s, Err e) => Some (s, Err (ProvisionOpen e))
  end.

Definition process_signature_verified_inner (m : DaoManager) (v : SignatureVerifiedDao)
    (authenticated_sender_iid : bytes) (rx : DaoRxState) s (timing : DaoTiming)
    (skip_dao_sequence_check : bool) (dao_admission : DaoAdmissionState) :
    option (St * DaoManager * DaoRxState * result (DaoProcessError SE) DaoProcessOutcome) :=
  if negb (admission_contains dao_admission (sv_public_key v)) then Some (s, m, rx, Err NotAdmitted)
  else
    let sequence := origin_sequence (env_origin (sv_envelope v)) in
    let checked : result (DaoProcessError SE) bool :=
      match origin_high_water m !! sv_public_key v with
      | Some (hash, previous) =>
          if (sequence <? previous)
             || ((sequence =? previous) && negb (bool_decide (hash = signed_dao_sha256 v)))
          then Err Replay else Ok (sequence =? previous)
      | None =>
          if (size (origin_high_water m) =? MAX_DAO_ORIGINS)%nat then Err NotAdmitted else Ok false
      end in
    match checked with
    | Err e => Some (s, m, rx, Err e)
    | Ok duplicate =>
      let dao := env_dao (sv_envelope v) in
      if negb (is_ok (authorize_dao_prefixes (prefix_delegations m) (unsigned_bytes (sv_envelope v))
                        (sv_public_key v) (sv_origin v)))
      then Some (s, m, rx, Err RouteRejected)
      else match extract_updates dao (unsigned_bytes (sv_envelope v)) with
      | None => Some (s, m, rx, Err RouteRejected)
      | Some updates =>
        if duplicate && existsb (fun u => bool_decide (is_Some (path_seq_map (route_state m) !! target u))) updates
        then Some (s, m, rx, Ok Duplicate)
        else if negb (sender_is_authorized updates (sv_origin v) (node_address m) authenticated_sender_iid)
        then Some (s, m, rx, Err RouteRejected)
        else match process_dao_inner m dao updates (sv_origin v) skip_dao_sequence_check timing PRODUCTION with
        | Err _ => Some (s, m, rx, Err RouteRejected)
        | Ok (_, proposed) =>
          if duplicate then Some (s, proposed, rx, Ok Duplicate)
          else
            let proposed := with_floor proposed
              (<[sv_public_key v := (signed_dao_sha256 v, sequence)]> (origin_high_water proposed)) in
            let payload := replicate HIGH_WATER_PAYLOAD_LEN 0 in
            match encode_high_water (node_address m) (dm_instance m) (dm_dodag_id m)
                    (origin_high_water proposed) payload with
            | None => Some (s, m, rx, Err RouteRejected)
            | Some (n, payload) =>
              let record := replicate (HIGH_WATER_PAYLOAD_LEN + SLOT_OVERHEAD) 0 in
              '(s, r) ← update_redundant s DAO_RX_KEYS DAO_RX_MAGIC (rx_current rx) (take n payload) record;
              match r with
              | Err e => Some (s, m, rx, Err (map_rx_update_error e))
              | Ok current => Some (s, proposed, {| rx_current := current |}, Ok Applied)
              end
            end
        end
      end
    end.

Definition process_signature_verified m v sender rx s timing adm :=
  process_signature_verified_inner m v sender rx s timing true adm.
Definition process_signature_verified_with_lollipop m v sender rx s timing adm :=
  process_signature_verified_inner m v sender rx s timing false adm.

End root.

(** ** What processing does *)

Record verified_ok (v : SignatureVerifiedDao) : Prop := {
  vo_key : key_ok (sv_public_key v);
  vo_hash : key_ok (signed_dao_sha256 v);
  vo_sequence : 1 <= origin_sequence (env_origin (sv_envelope v)) <= u64_max
}.
Record manager_wf (m : DaoManager) : Prop := {
  mw_scope : scope_wf (node_address m) (dm_instance m) (dm_dodag_id m);
  mw_floor : floor_ok (origin_high_water m)
}.
Definition sequence_of_dao (v : SignatureVerifiedDao) : Z := origin_sequence (env_origin (sv_envelope v)).

(** A DAO is below the floor: an older sequence, or the same with other
    contents. *)
Definition replayed (m : DaoManager) (v : SignatureVerifiedDao) : Prop :=
  exists hash previous, origin_high_water m !! sv_public_key v = Some (hash, previous) /\
    (sequence_of_dao v < previous \/ sequence_of_dao v = previous /\ hash <> signed_dao_sha256 v).
(** It is above it. *)
Definition fresh (m : DaoManager) (v : SignatureVerifiedDao) : Prop :=
  forall hash previous, origin_high_water m !! sv_public_key v = Some (hash, previous) ->
    previous < sequence_of_dao v.

Lemma rx_magic_ok : bytes_ok DAO_RX_MAGIC.
Proof. by apply (bool_decide_unpack _); vm_compute. Qed.

Section process_lemmas.
Context {St SE : Type} `{!NonVolatile St SE} `{HashIter}.
Implicit Types s : St.

(** The transaction on the routes keeps everything else. *)
Lemma process_keeps m dao updates origin skip timing limits b m' :
  process_dao_inner m dao updates origin skip timing limits = Ok (b, m') -> m' = set_state m (route_state m').
Proof. intros Hp. apply process_parts in Hp as (? & ? & ? & Hp). cbv zeta in Hp. tauto. Qed.

Lemma floor_insert (fl : HighWaterMap) (v : SignatureVerifiedDao) :
  floor_ok fl -> verified_ok v -> (fl !! sv_public_key v = None -> size fl <> MAX_DAO_ORIGINS) ->
  floor_ok (<[sv_public_key v := (signed_dao_sha256 v, sequence_of_dao v)]> fl).
Proof.
  intros [Hm Hsz] [Hk Hh Hs] Hroom. split; [apply map_Forall_insert_2; [exact (conj Hk (conj Hh Hs)) | done] |].
  destruct (fl !! sv_public_key v) eqn:E.
  - by rewrite map_size_insert_Some by (by rewrite E).
  - rewrite map_size_insert_None by done. specialize (Hroom eq_refl). lia.
Qed.

Record applied_dao (m : DaoManager) (v : SignatureVerifiedDao) (sender : bytes) (adm : DaoAdmissionState)
    (m' : DaoManager) : Prop := {
  ap_admitted : sv_public_key v ∈ admitted adm;
  ap_fresh : fresh m v;
  ap_authorized : is_ok (authorize_dao_prefixes (prefix_delegations m) (unsigned_bytes (sv_envelope v))
                           (sv_public_key v) (sv_origin v)) = true;
  ap_routes : exists updates skip timing b mid,
    extract_updates (env_dao (sv_envelope v)) (unsigned_bytes (sv_envelope v)) = Some updates /\
    sender_is_authorized updates (sv_origin v) (node_address m) sender = true /\
    process_dao_inner m (env_dao (sv_envelope v)) updates (sv_origin v) skip timing PRODUCTION = Ok (b, mid) /\
    m' = with_floor mid (<[sv_public_key v := (signed_dao_sha256 v, sequence_of_dao v)]> (origin_high_water m))
}.

(** The same outcome, said of the storage and the state. *)
Definition process_result (m : DaoManager) (v : SignatureVerifiedDao) (sender : bytes) (rx : DaoRxState)
    (adm : DaoAdmissionState) (c c' : gmap string bytes) (m' : DaoManager) (rx' : DaoRxState)
    (r : result (DaoProcessError SE) DaoProcessOutcome) : Prop :=
  match r with
  | Ok Applied =>
      applied_dao m v sender adm m' /\ floor_ok (origin_high_water m') /\
      update_result (SE := SE) DAO_RX_MAGIC DAO_RX_KEYS (rx_current rx)
        (floor_bytes (node_address m) (dm_instance m) (dm_dodag_id m) (origin_high_water m'))
        (HIGH_WATER_PAYLOAD_LEN + SLOT_OVERHEAD) c c' (Ok (rx_current rx'))
  | Ok Duplicate =>
      sv_public_key v ∈ admitted adm /\
      origin_high_water m !! sv_public_key v = Some (signed_dao_sha256 v, sequence_of_dao v) /\
      c' = c /\ rx' = rx /\
      (m' = m \/ exists updates skip timing b,
         extract_updates (env_dao (sv_envelope v)) (unsigned_bytes (sv_envelope v)) = Some updates /\
         process_dao_inner m (env_dao (sv_envelope v)) updates (sv_origin v) skip timing PRODUCTION = Ok (b, m'))
  | Err e => c' = c /\ m' = m /\ rx' = rx /\ (e = Replay -> replayed m v)
  end.

Lemma process_spec m v sender rx s timing skip adm :
  manager_wf m -> verified_ok v -> store_ok (nv_contents s) ->
  exists s' m' rx' r,
    process_signature_verified_inner m v sender rx s timing skip adm = Some (s', m', rx', r) /\
    process_result m v sender rx adm (nv_contents s) (nv_contents s') m' rx' r /\
    (sv_public_key v ∈ admitted adm -> replayed m v -> r = Err Replay).
Proof.
  intros [Hsc Hfl] Hv Hok. unfold process_signature_verified_inner, admission_contains.
  case_bool_decide as Hadm; cbn [negb]; [| by do 4 eexists].
  fold (sequence_of_dao v).
  match goal with |- context [match ?c with Ok _ => _ | Err e => Some (s, m, rx, Err e) end] =>
    assert (match c with
            | Err e => (e = Replay -> replayed m v) /\ (replayed m v -> e = Replay)
            | Ok d => ~ replayed m v /\
                if (d : bool) then origin_high_water m !! sv_public_key v = Some (signed_dao_sha256 v, sequence_of_dao v)
                else fresh m v /\ (origin_high_water m !! sv_public_key v = None ->
                                   size (origin_high_water m) <> MAX_DAO_ORIGINS)
            end) as Hch; [| destruct c as [dup | e]] end.
  { unfold replayed, fresh. destruct (origin_high_water m !! sv_public_key v) as [[hash prev]|].
    - destruct (_ || _) eqn:Hr.
      + split; [intros _ | done]. exists hash, prev. split; [done |].
        apply orb_true_iff in Hr as [Hr | [Hr1 Hr2]%andb_true_iff]; bool_to_prop; [by left | right].
        by apply bool_decide_eq_false_1 in Hr2.
      + apply orb_false_iff in Hr as [Hr1 Hr2]. bool_to_prop. split.
        * intros (h & p & [= <- <-] & [Hlt | [He Hne]]); [lia |].
          rewrite (proj2 (Z.eqb_eq _ _) He), bool_decide_eq_false_2 in Hr2 by done. done.
        * destruct (Z.eqb_spec (sequence_of_dao v) prev) as [<- | Hne].
          -- apply negb_false_iff, bool_decide_eq_true_1 in Hr2. by subst.
          -- split; [intros h p [= <- <-]; lia | done].
    - destruct (Nat.eqb_spec (size (origin_high_water m)) MAX_DAO_ORIGINS); [by split; [| intros (? & ? & ? & _)] |].
      split; [by intros (? & ? & ? & _) | done]. }
  2: { do 4 eexists. split; [reflexivity |]. destruct Hch as [H1 H2]. split; [done |]. intros _ Hr. by rewrite H2. }
  destruct Hch as [Hnr Hch].
  destruct (is_ok (authorize_dao_prefixes _ _ _ _)) eqn:Hauth; cbn [negb];
    [| do 4 eexists; (split; [reflexivity |]); (split; [done |]); intros _ Hr; by destruct Hnr].
  destruct (extract_updates _ _) as [updates |] eqn:Hex;
    [| do 4 eexists; (split; [reflexivity |]); (split; [done |]); intros _ Hr; by destruct Hnr].
  destruct (dup && _) eqn:Hdup.
  { apply andb_true_iff in Hdup as [-> _]. do 4 eexists. split; [reflexivity |].
    split; [| intros _ Hr; by destruct Hnr]. split_and!; [done.. | by left]. }
  destruct (sender_is_authorized _ _ _ _) eqn:Hsend; cbn [negb];
    [| do 4 eexists; (split; [reflexivity |]); (split; [done |]); intros _ Hr; by destruct Hnr].
  destruct (process_dao_inner _ _ _ _ _ _ _) as [[b mid] |] eqn:Hp;
    [| do 4 eexists; (split; [reflexivity |]); (split; [done |]); intros _ Hr; by destruct Hnr].
  destruct dup.
  { do 4 eexists. split; [reflexivity |]. split; [| intros _ Hr; by destruct Hnr].
    split_and!; [done.. |]. right. by exists updates, skip, timing, b. }
  destruct Hch as [Hfresh Hroom]. pose proof (process_keeps _ _ _ _ _ _ _ _ _ Hp) as Hmid.
  assert (origin_high_water mid = origin_high_water m) as Hfm by (by rewrite Hmid).
  cbn [origin_high_water with_floor]. rewrite Hfm.
  set (fl := <[sv_public_key v := (signed_dao_sha256 v, sequence_of_dao v)]> (origin_high_water m)).
  assert (Hfl' : floor_ok fl) by (by apply floor_insert).
  pose proof Hfl' as [_ Hsz]. unfold MAX_DAO_ORIGINS in Hsz.
  destruct (encode_high_water_bytes (node_address m) (dm_instance m) (dm_dodag_id m) fl
    (replicate HIGH_WATER_PAYLOAD_LEN 0) Hsc Hfl') as (out' & He & Ht).
  { rewrite length_replicate. change HIGH_WATER_PAYLOAD_LEN with (35 + 256 * 72)%nat. lia. }
  rewrite He, Ht. pose proof (floor_bytes_length _ _ _ _ Hsc Hfl') as Hl.
  destruct (update_redundant_spec s DAO_RX_KEYS DAO_RX_MAGIC (rx_current rx)
    (floor_bytes (node_address m) (dm_instance m) (dm_dodag_id m) fl)
    (replicate (HIGH_WATER_PAYLOAD_LEN + SLOT_OVERHEAD) 0)) as (s' & r & Hu & Hr);
    [done | done | apply rx_magic_ok | by apply floor_bytes_ok | rewrite Hl; width
     | rewrite Hl, length_replicate; change (HIGH_WATER_PAYLOAD_LEN + SLOT_OVERHEAD)%nat with (35 + 256 * 72 + 24)%nat; lia
     | done |].
  rewrite Hu. rewrite length_replicate in Hr. destruct r as [cur | e]; do 4 eexists; (split; [reflexivity |]);
    (split; [| intros _ Hrep; by destruct Hnr]).
  - split; [| split; [exact Hfl' | exact Hr]].
    split; [done.. |]. exists updates, skip, timing, b, mid. split_and!; done.
  - destruct Hr as [-> _]. split_and!; try done. by destruct e.
Qed.

(** *** Opening *)

Lemma open_root_keeps s node inst dodag s' r :
  open_root s node inst dodag = (s', r) -> nv_contents s' = nv_contents s.
Proof.
  unfold open_root. destruct (open_redundant _ _ _ _ _ _) as [s1 r1] eqn:E.
  apply open_redundant_spec in E as [<- _]. destruct r1 as [[? ?] | ?]; by intros [= <- _].
Qed.

Lemma open_root_ok s node inst dodag s' m rx :
  store_ok (nv_contents s) -> open_root s node inst dodag = (s', Ok (m, rx)) ->
  exists p fl, m = with_floor (manager_as_root node inst dodag) fl /\ floor_ok fl /\
    current_value DAO_RX_MAGIC DAO_RX_KEYS (nv_contents s) =
      Some (generation (rx_current rx), slot (rx_current rx), p) /\
    decode_high_water p = Some fl /\ scope_matches p node inst dodag = true.
Proof.
  intros Hok. unfold open_root. destruct (open_redundant _ _ _ _ _ _) as [s1 r1] eqn:E.
  apply open_redundant_spec in E as [_ Hr]. destruct r1 as [[c buf] | e]; [| by intros [= _ ?]].
  destruct Hr as [(p & Hcur & _ & _ & -> & _) | []]. cbv zeta.
  destruct (_ <? _)%nat; [done |]. destruct (scope_matches p node inst dodag) eqn:Hs; [| done]. cbn [negb].
  destruct (decode_high_water p) as [fl |] eqn:Hd; [| done]. cbn. intros [= _ <- <-].
  exists p, fl. split_and!; try done. eapply decode_high_water_ok; [| done].
  eapply current_value_bytes; [exact Hok | | exact Hcur]. done.
Qed.

(** A stored floor opens as itself, unless the storage fails. *)
Lemma open_root_complete s m g i :
  manager_wf m -> slots_fit DAO_RX_KEYS (HIGH_WATER_PAYLOAD_LEN + SLOT_OVERHEAD) (nv_contents s) ->
  current_value DAO_RX_MAGIC DAO_RX_KEYS (nv_contents s) =
    Some (g, i, floor_bytes (node_address m) (dm_instance m) (dm_dodag_id m) (origin_high_water m)) ->
  match (open_root s (node_address m) (dm_instance m) (dm_dodag_id m)).2 with
  | Ok (m', _) => origin_high_water m' = origin_high_water m
  | Err (Storage _) => True
  | Err _ => False
  end.
Proof.
  intros [Hsc Hfl] Hfit Hcur. pose proof (floor_bytes_length _ _ _ _ Hsc Hfl) as Hl.
  pose proof (current_opens_as _ _ _ _ _ _ _ Hcur Hfit
    (replicate (HIGH_WATER_PAYLOAD_LEN + SLOT_OVERHEAD) 0) (replicate (HIGH_WATER_PAYLOAD_LEN + SLOT_OVERHEAD) 0)
    (replicate HIGH_WATER_PAYLOAD_LEN 0)) as Ho. rewrite !length_replicate in Ho.
  assert (35 + size (origin_high_water m) * 72 <= HIGH_WATER_PAYLOAD_LEN)%nat as Hfits.
  { change HIGH_WATER_PAYLOAD_LEN with (35 + 256 * 72)%nat. destruct Hfl as [_ Hsz]. unfold MAX_DAO_ORIGINS in Hsz. lia. }
  rewrite Hl in Ho. specialize (Ho ltac:(lia) ltac:(lia) Hfits). unfold open_root.
  destruct (open_redundant _ _ _ _ _ _) as [s1 [[c buf] | e]]; cbn [snd] in Ho |- *; [| by destruct e].
  destruct Ho as [-> ->]. rewrite Hl. change HIGH_WATER_HEADER_LEN with 35%nat.
  rewrite (proj2 (Nat.ltb_ge _ _)) by lia.
  rewrite decode_floor_bytes by done. unfold floor_bytes. rewrite scope_matches_bytes by done. done.
Qed.

(** *** The root across power losses *)

(** What an applied DAO leaves behind: the origin's key, the hash and the
    sequence. *)
Abbreviation applied_event := (bytes * bytes * Z)%type.

Definition event_of (v : SignatureVerifiedDao) (r : result (DaoProcessError SE) DaoProcessOutcome) :
    option applied_event :=
  match r with
  | Ok Applied => Some (sv_public_key v, signed_dao_sha256 v, sequence_of_dao v)
  | _ => None
  end.

(** The store, and the managers opened from it since the last power loss (an
    application may, by mistake, open it twice); other operations of a manager
    are [dao_step]s that do not touch the storage. *)
Inductive root_step (node : bytes) (inst : Z) (dodag : bytes) :
    St * list (DaoManager * DaoRxState) -> option applied_event ->
    St * list (DaoManager * DaoRxState) -> Prop :=
  | rs_process s hs i m rx v sender timing skip adm s' m' rx' r :
      hs !! i = Some (m, rx) -> verified_ok v ->
      process_signature_verified_inner m v sender rx s timing skip adm = Some (s', m', rx', r) ->
      root_step node inst dodag (s, hs) (event_of v r) (s', <[i := (m', rx')]> hs)
  | rs_manager s hs i m rx m' :
      hs !! i = Some (m, rx) -> dao_step m m' ->
      root_step node inst dodag (s, hs) None (s, <[i := (m', rx)]> hs)
  | rs_power_loss s hs : root_step node inst dodag (s, hs) None (s, [])
  | rs_open s hs s' m rx :
      open_root s node inst dodag = (s', Ok (m, rx)) ->
      root_step node inst dodag (s, hs) None (s', (m, rx) :: hs)
  | rs_other s hs s' :
      (forall key, key = DAO_RX_KEYS.1 \/ key = DAO_RX_KEYS.2 ->
         nv_contents s' !! key = nv_contents s !! key) ->
      store_ok (nv_contents s') -> root_step node inst dodag (s, hs) None (s', hs).

Inductive root_run (node : bytes) (inst : Z) (dodag : bytes) :
    St * list (DaoManager * DaoRxState) -> list applied_event ->
    St * list (DaoManager * DaoRxState) -> Prop :=
  | rr_nil x : root_run node inst dodag x [] x
  | rr_step x o y es z :
      root_step node inst dodag x o y -> root_run node inst dodag y es z ->
      root_run node inst dodag x (option_list o ++ es) z.

(** A manager for its scope whose route state is consistent. *)
Definition opened (node : bytes) (inst : Z) (dodag : bytes) (m : DaoManager) : Prop :=
  node_address m = node /\ dm_instance m = inst /\ dm_dodag_id m = dodag /\
  floor_ok (origin_high_water m) /\ state_ok node (route_state m).

(** The floor [d] is stored, and every manager's floor was once. *)
Definition root_stored (node : bytes) (inst : Z) (dodag : bytes) (d : HighWaterMap)
    (x : St * list (DaoManager * DaoRxState)) : Prop :=
  store_ok (nv_contents x.1) /\
  (exists g i p, current_value DAO_RX_MAGIC DAO_RX_KEYS (nv_contents x.1) = Some (g, i, p) /\
     decode_high_water p = Some d) /\
  Forall (fun h => opened node inst dodag h.1 /\
    handle_ok DAO_RX_MAGIC DAO_RX_KEYS (rx_current h.2)
      (fun p => decode_high_water p = Some (origin_high_water h.1)) (nv_contents x.1)) x.2.

Lemma dao_step_keeps m m' : dao_step m m' ->
  node_address m' = node_address m /\ dm_instance m' = dm_instance m /\ dm_dodag_id m' = dm_dodag_id m /\
  origin_high_water m' = origin_high_water m.
Proof.
  destruct 1 as [m dao data updates origin skip timing b m' _ Hp | m now | m key pre n m' Hd
    | m par life wire m' Hb | m par life wire m' Hb | m pre n k eg p ok t' _ _ _ _ | m k | m k]; try done.
  - apply process_keeps in Hp. by rewrite Hp.
  - unfold expire_routes. by destruct (rebuilt_routes _ _ _ _).
  - unfold delegate_prefix in Hd. destruct (delegate _ _ _ _); simplify_eq/=. done.
  - unfold build_dao_with_lifetime in Hb. destruct (build_dao_inner _ _ _); simplify_eq/=. done.
  - unfold build_dao_copy_with_lifetime in Hb. destruct (negb _); [by simplify_eq |].
    destruct (build_dao_inner _ _ _); simplify_eq/=. done.
Qed.

Lemma opened_process node inst dodag m dao updates origin skip timing b m' data :
  opened node inst dodag m -> extract_updates dao data = Some updates ->
  process_dao_inner m dao updates origin skip timing PRODUCTION = Ok (b, m') ->
  opened node inst dodag m' /\ origin_high_water m' = origin_high_water m.
Proof.
  intros (Hn & Hi & Hd & Hf & Hs) Hex Hp.
  destruct (dao_step_keeps m m') as (H1 & H2 & H3 & H4); [by eapply ds_process |].
  apply extract_updates_ok in Hex as [Hu _].
  destruct (process_ok _ _ _ _ _ _ _ _ _ Hn Hs Hu Hp) as [Hs' _].
  split; [| done]. unfold opened. rewrite H1, H2, H3, H4. done.
Qed.

Lemma opened_floor node inst dodag m fl : opened node inst dodag m -> floor_ok fl ->
  opened node inst dodag (with_floor m fl).
Proof. intros (Hn & Hi & Hd & _ & Hs) Hf. by split_and!. Qed.

(** Processing through the [i]-th manager. *)
Lemma process_stored node inst dodag d s hs i m rx v sender timing skip adm s' m' rx' r :
  scope_wf node inst dodag -> root_stored node inst dodag d (s, hs) -> hs !! i = Some (m, rx) ->
  verified_ok v ->
  process_signature_verified_inner m v sender rx s timing skip adm = Some (s', m', rx', r) ->
  exists d', root_stored node inst dodag d' (s', <[i := (m', rx')]> hs) /\
    match event_of v r with
    | Some (k, h, n) => d' = <[k := (h, n)]> d /\
        forall h' n', d !! k = Some (h', n') -> n' < n
    | None => d' = d
    end.
Proof.
  intros Hsc (Hok & (g & j & p & Hcur & Hdec) & Hhs) Hi Hv Hp. cbn [fst snd] in *.
  pose proof (Forall_lookup_1 _ _ _ _ Hhs Hi) as [Hm Hh]. cbn [fst snd] in Hm, Hh.
  assert (manager_wf m) as Hmw by (destruct Hm as (<- & <- & <- & ? & _); by split).
  destruct (process_spec m v sender rx s timing skip adm Hmw Hv Hok) as (s1 & m1 & rx1 & r1 & Hp1 & Hr & _).
  rewrite Hp in Hp1. injection Hp1 as <- <- <- <-. destruct r as [[|] | e]; cbn [event_of].
  - destruct Hr as ([_ Hfresh _ (updates & sk & tm & b & mid & Hex & _ & Hpi & ->)] & Hfl' & Hup).
    destruct (opened_process _ _ _ _ _ _ _ _ _ _ _ _ Hm Hex Hpi) as [Hmid Hfm].
    destruct (update_handle _ _ _ _ _ _ _ _ _ Hh Hup) as ((old & Hc1 & Hold) & Hc2 & _ & Hoth).
    rewrite Hcur in Hc1. injection Hc1 as _ _ <-. rewrite Hdec in Hold. injection Hold as Hd.
    cbn [origin_high_water with_floor] in *.
    assert (decode_high_water (floor_bytes (node_address m) (dm_instance m) (dm_dodag_id m)
      (<[sv_public_key v := (signed_dao_sha256 v, sequence_of_dao v)]> (origin_high_water m)))
      = Some (<[sv_public_key v := (signed_dao_sha256 v, sequence_of_dao v)]> d)) as Hdec'.
    { rewrite Hd. apply decode_floor_bytes; [apply Hmw | done]. }
    eexists. split; [| split; [reflexivity |]].
    + split; [| split]; cbn [fst snd].
      * destruct Hup as (_ & _ & -> & _). apply map_Forall_insert_2; [| done].
        unfold slot_bytes. apply Forall_app. split; [| auto with lichen].
        apply slot_body_ok; [apply rx_magic_ok | apply floor_bytes_ok; [apply Hmw | done]].
      * eexists _, _, _. split; [exact Hc2 | exact Hdec'].
      * apply Forall_insert; [| split; cbn [fst snd]].
        -- eapply Forall_impl; [exact Hhs |]. intros h [? ?]. split; [done |]. by apply Hoth.
        -- by apply opened_floor.
        -- eapply current_handle; [exact Hc2 | done | done |]. cbn. rewrite Hdec'. by rewrite Hd.
    + intros h' n' Hk. eapply Hfresh. by rewrite <- Hd.
  - destruct Hr as (_ & _ & Hc & -> & Hm'). exists d. split; [| done]. unfold root_stored. cbn [fst snd]. rewrite Hc.
    split; [done |]. split; [by exists g, j, p |]. apply Forall_insert; [done |]. cbn [fst snd].
    destruct Hm' as [-> | (updates & sk & tm & b & Hex & Hpi)]; [done |].
    destruct (opened_process _ _ _ _ _ _ _ _ _ _ _ _ Hm Hex Hpi) as [Hmid Hfm]. by rewrite Hfm.
  - destruct Hr as (Hc & -> & -> & _). exists d. split; [| by destruct e]. unfold root_stored. cbn [fst snd].
    rewrite Hc, list_insert_id by done. split; [done |]. split; [by exists g, j, p | done].
Qed.

Lemma root_step_stored node inst dodag d x o y :
  scope_wf node inst dodag -> root_stored node inst dodag d x -> root_step node inst dodag x o y ->
  exists d', root_stored node inst dodag d' y /\
    match o with
    | Some (k, h, n) => d' = <[k := (h, n)]> d /\ forall h' n', d !! k = Some (h', n') -> n' < n
    | None => d' = d
    end.
Proof.
  intros Hsc Hs Hstep. destruct Hstep as [s hs i m rx v sender timing skip adm s' m' rx' r Hi Hv Hp
    | s hs i m rx m' Hi Hst | s hs | s hs s' m rx Ho | s hs s' Hf Hok'];
    [by eapply process_stored | ..]; destruct Hs as (Hok & Hcur & Hhs); cbn [fst snd] in *; exists d; (split; [| done]).
  - split; [done |]. split; [done |]. cbn [fst snd]. apply Forall_insert; [done |]. cbn [fst snd].
    pose proof (Forall_lookup_1 _ _ _ _ Hhs Hi) as [(Hn & Hin & Hd & Hfl & Hso) Hh]. cbn [fst snd] in *.
    destruct (dao_step_keeps _ _ Hst) as (H1 & H2 & H3 & H4). unfold opened. rewrite H1, H2, H3, H4.
    split; [| done]. split_and!; try done. by eapply dao_step_ok.
  - split; [done |]. split; [done | constructor].
  - pose proof (open_root_keeps _ _ _ _ _ _ Ho) as Hc.
    destruct (open_root_ok _ _ _ _ _ _ _ Hok Ho) as (p & fl & -> & Hfl & Hcur' & Hdec & _).
    unfold root_stored. cbn [fst snd]. rewrite Hc. split; [done |]. split; [done |]. constructor; [| done]. cbn [fst snd].
    split; [split_and!; try done; apply init_ok |]. by apply (current_handle _ _ _ _ _ _ _ _ Hcur').
  - assert (Hcv : current_value DAO_RX_MAGIC DAO_RX_KEYS (nv_contents s') =
      current_value DAO_RX_MAGIC DAO_RX_KEYS (nv_contents s)) by (apply current_value_frame; auto).
    unfold root_stored. cbn [fst snd]. split; [done |]. split; [by rewrite Hcv |].
    eapply Forall_impl; [exact Hhs |]. intros h [? Hh]. split; [done |]. unfold handle_ok in *. by rewrite Hcv.
Qed.

(** What the outcome [Duplicate] says. *)
Lemma duplicate_spec node inst dodag d x i m rx v sender timing skip adm s' m' rx' :
  scope_wf node inst dodag -> root_stored node inst dodag d x -> x.2 !! i = Some (m, rx) -> verified_ok v ->
  process_signature_verified_inner m v sender rx x.1 timing skip adm = Some (s', m', rx', Ok Duplicate) ->
  origin_high_water m !! sv_public_key v = Some (signed_dao_sha256 v, sequence_of_dao v) /\
  nv_contents s' = nv_contents x.1 /\ rx' = rx /\ origin_high_water m' = origin_high_water m.
Proof.
  intros Hsc (Hok & _ & Hhs) Hi Hv Hp. pose proof (Forall_lookup_1 _ _ _ _ Hhs Hi) as [Hm _]. cbn [fst] in Hm.
  assert (manager_wf m) as Hmw by (destruct Hm as (<- & <- & <- & ? & _); by split).
  destruct (process_spec m v sender rx x.1 timing skip adm Hmw Hv Hok) as (s1 & m1 & rx1 & r1 & Hp1 & Hr & _).
  rewrite Hp in Hp1. injection Hp1 as <- <- <- <-. destruct Hr as (_ & Hfl & Hc & -> & Hm'). split_and!; try done.
  destruct Hm' as [-> | (updates & sk & tm & b & Hex & Hpi)]; [done |]. by destruct (opened_process _ _ _ _ _ _ _ _ _ _ _ _ Hm Hex Hpi).
Qed.

(** The sequences of one origin's events. *)
Definition sequences_of (k : bytes) (es : list applied_event) : list Z :=
  omap (fun e => if bool_decide (e.1.1 = k) then Some e.2 else None) es.

(** C7: the outcome [Applied] is given to a signed DAO at most once, across any
    number of power losses.  Whatever is interleaved (failed writes, reopenings,
    other managers opened from the same storage, other operations and other
    users of the storage), the sequences of one origin's DAOs with that outcome
    are strictly increasing and above its stored floor; the floor that is on
    storage at the end is at the last of them; and the routes of every open
    manager are consistent.  The outcome [Duplicate] is given only to the very
    DAO at the floor of the manager (the same sequence and hash): such a copy may
    install routes that a restart lost, but it writes nothing and moves no
    floor. *)
Theorem applied_once_across_power_loss (node : bytes) (inst : Z) (dodag : bytes) (d : HighWaterMap)
    (x : St * list (DaoManager * DaoRxState)) (es : list applied_event) (y : St * list (DaoManager * DaoRxState)) :
  scope_wf node inst dodag -> root_stored node inst dodag d x -> root_run node inst dodag x es y ->
  (forall k, StronglySorted Z.lt (sequences_of k es) /\
     forall h n, d !! k = Some (h, n) -> Forall (Z.lt n) (sequences_of k es)) /\
  exists d', root_stored node inst dodag d' y /\
    (forall k, snd <$> d' !! k = match last (sequences_of k es) with
                                | Some n => Some n
                                | None => snd <$> d !! k
                                end) /\
    forall i m rx v sender timing skip adm s' m' rx', y.2 !! i = Some (m, rx) -> verified_ok v ->
      process_signature_verified_inner m v sender rx y.1 timing skip adm = Some (s', m', rx', Ok Duplicate) ->
      origin_high_water m !! sv_public_key v = Some (signed_dao_sha256 v, sequence_of_dao v) /\
      nv_contents s' = nv_contents y.1 /\ rx' = rx /\ origin_high_water m' = origin_high_water m.
Proof.
  intros Hsc Hs Hrun. revert d Hs. induction Hrun as [x | x o y es z Hstep _ IH]; intros d Hs.
  - split; [intros k; split; constructor |]. exists d. split; [done |]. split; [done |]. intros i m rx v sender timing skip adm s' m' rx'. by apply (duplicate_spec node inst dodag d).
  - destruct (root_step_stored _ _ _ _ _ _ _ Hsc Hs Hstep) as (d1 & Hd1 & Ho).
    destruct (IH d1 Hd1) as (Hsort & d' & Hd' & Hl & Hdup). destruct o as [[[k0 h0] n0]|]; cbn [option_list option_rect app]; [| by subst; eauto].
    destruct Ho as [-> Hgt]. split.
    + intros k. destruct (Hsort k) as [Hss Hall]. unfold sequences_of. cbn [omap list_omap fst snd].
      case_bool_decide as Hk; cbn.
      * subst k0. specialize (Hall h0 n0 ltac:(apply lookup_insert_eq)). split; [by constructor |].
        intros h n Hkn. specialize (Hgt h n Hkn). constructor; [done |].
        eapply Forall_impl; [exact Hall |]. intros z'. cbn. lia.
      * split; [done |]. intros h n Hkn. eapply Hall. by rewrite lookup_insert_ne.
    + exists d'. split; [done |]. split; [| done]. intros k. rewrite Hl. unfold sequences_of at 2. cbn [omap list_omap fst snd].
      case_bool_decide as Hk; cbn.
      * subst k0. fold (sequences_of k es). rewrite last_cons. destruct (last (sequences_of k es)); [done |].
        by rewrite lookup_insert_eq.
      * fold (sequences_of k es). destruct (last (sequences_of k es)); [done |]. by rewrite lookup_insert_ne.
Qed.

End process_lemmas.

(** ** What verification accepts *)

Section verify_lemmas.
Context `{Crypto}.

(** What a verified DAO is: a well-formed envelope for this instance and DODAG,
    from the address of the pinned key, signed by that key over the origin, the
    DODAG, the sequence and every unsigned byte. *)
Record authentic (wire origin : bytes) (inst : Z) (active : bytes) (pinned : option PublicKey)
    (v : SignatureVerifiedDao) : Prop := {
  au_key : pinned = Some (sv_public_key v);
  au_envelope : envelope_from_bytes wire = Ok (sv_envelope v);
  au_instance : dao_instance (env_dao (sv_envelope v)) = inst;
  au_dodag : effective_dodag_id (env_dao (sv_envelope v)) active = active;
  au_origin : origin = ygg_addr_from_pubkey (sv_public_key v);
  au_sv_origin : sv_origin v = origin;
  au_signature : schnorr_verify (sv_public_key v)
    (dao_origin_digest origin active (sequence_of_dao v) (unsigned_bytes (sv_envelope v)))
    (os_signature (env_origin (sv_envelope v))) = true;
  au_hash : signed_dao_sha256 v = sha256 wire
}.

Lemma envelope_dao wire e dao :
  dao_from_bytes wire = Ok dao -> envelope_from_bytes wire = Ok e -> env_dao e = dao.
Proof.
  intros Hd. unfold envelope_from_bytes. rewrite Hd. simpl map_err. generalize (envelope_scan wire).
  intros scan. simpl. destruct (_ || _); [done |].
  by destruct (scan _ _ _) as [[[]|]|]; intros [= <-].
Qed.
Lemma envelope_flags wire e dao :
  dao_from_bytes wire = Ok dao -> envelope_from_bytes wire = Ok e ->
  negb (dao_flags dao =? 0) || negb (nth 2 wire 0 =? 0) = false.
Proof.
  intros Hd. unfold envelope_from_bytes. rewrite Hd. simpl map_err. generalize (envelope_scan wire).
  intros scan. simpl. by destruct (_ || _).
Qed.

Lemma effective_active dao active :
  match dao_dodag_id dao with
  | Some dodag => negb (bool_decide (dodag = zero_id)) && negb (bool_decide (dodag = active))
  | None => false
  end = false <-> effective_dodag_id dao active = active.
Proof.
  unfold effective_dodag_id. destruct (dao_dodag_id dao) as [id|]; [| done].
  case_bool_decide; cbn; [done |]. rewrite negb_false_iff. apply bool_decide_eq_true.
Qed.

(** A verified DAO is authentic. *)
Lemma verify_signature_authentic wire origin inst active pinned v :
  verify_signature wire origin inst active pinned = Ok v -> authentic wire origin inst active pinned v.
Proof.
  unfold verify_signature. destruct (dao_from_bytes wire) as [dao |] eqn:Hd; [| done].
  destruct (_ || _) eqn:Hf; [done |]. destruct (negb (_ =? inst)) eqn:Hi; [done |].
  destruct (match dao_dodag_id dao with Some _ => _ | None => _ end) eqn:Hg; [done |].
  destruct (envelope_from_bytes wire) as [e |] eqn:He; cbn; [| done].
  destruct pinned as [key |]; cbn; [| done].
  case_bool_decide as Ho; cbn; [| done]. destruct (schnorr_verify _ _ _) eqn:Hs; cbn; [| done].
  intros [= <-].
  pose proof (envelope_dao _ _ _ Hd He) as Hde.
  rewrite <- Hde in Hi, Hg. apply effective_active in Hg. bool_to_prop. rewrite Hg in Hs. by split.
Qed.

(** a signed DAO is accepted exactly when it is authentic: the envelope
    parses with no reserved bit, it is for the active instance and DODAG (or
    names no DODAG), the origin address is the one derived from the pinned key,
    and the key's signature verifies over the digest of the origin address, the
    DODAG, the origin sequence and everything before the signature.  In
    particular nothing is accepted without a pinned key. *)
Lemma verify_signature_accepts_exactly (wire origin : bytes) (inst : Z) (active : bytes)
    (pinned : option PublicKey) (v : SignatureVerifiedDao) :
  verify_signature wire origin inst active pinned = Ok v <-> authentic wire origin inst active pinned v.
Proof.
  split.
  - apply verify_signature_authentic.
  - destruct v as [e o key h]. intros [Hk He Hi Hg Ho Ho' Hs Hh].
    cbn [sv_public_key sv_envelope sv_origin signed_dao_sha256] in *. subst. unfold verify_signature.
    destruct (dao_from_bytes wire) as [dao | er] eqn:Hd;
      [| unfold envelope_from_bytes in He; rewrite Hd in He; discriminate He].
    pose proof (envelope_dao _ _ _ Hd He) as Hde. pose proof (envelope_flags _ _ _ Hd He) as Hf.
    rewrite Hf.
    rewrite <- Hde, Z.eqb_refl. change (negb true) with false. cbv iota. rewrite (proj2 (effective_active _ _) Hg), He.
    cbn [map_err ok_or mbind result_bind].
    rewrite bool_decide_eq_true_2 by done. cbn [negb]. rewrite Hg. unfold sequence_of_dao in Hs. cbn [sv_envelope] in Hs.
    by rewrite Hs.
Qed.

(** The signed bytes determine all four fields. *)
Lemma digest_input_inj o o' d d' n n' u u' :
  length o = 16%nat -> length o' = 16%nat -> length d = 16%nat -> length d' = 16%nat -> is_u64 n -> is_u64 n' ->
  digest_input o d n u = digest_input o' d' n' u' -> o = o' /\ d = d' /\ n = n' /\ u = u'.
Proof.
  unfold digest_input. intros H1 H2 H3 H4 H5 H6 E. apply app_inv_head in E.
  apply app_inj_1 in E as [-> E]; [| congruence]. apply app_inj_1 in E as [-> E]; [| congruence].
  apply app_inj_1 in E as [E ->]; [| by rewrite !length_to_be].
  apply (f_equal from_be) in E. by rewrite !from_be_to_be_u64 in E.
Qed.

(** A verified DAO has what processing relies on. *)
Lemma verified_is_ok `{!CryptoLaws} wire origin inst active key v :
  bytes_ok wire -> key_ok key -> verify_signature wire origin inst active (Some key) = Ok v -> verified_ok v.
Proof.
  intros Hw Hk [[= Hk'] He _ _ _ _ _ Hh]%verify_signature_authentic. split; [by rewrite <- Hk' | |].
  - rewrite Hh. split; [apply sha256_len | apply sha256_ok].
  - apply envelope_sound in He as (base & opts & Hp); [| done]. destruct (ep_origin _ _ _ _ Hp) as [Hu Hz _]. width.
Qed.

End verify_lemmas.

(** ** A root, an origin and a power loss *)

Definition origin_seed : Seed := repeat 9 32.
Definition origin_key : PublicKey := (@derive_keypair toy_crypto origin_seed).2.
Definition origin_address : bytes := ygg_addr_from_pubkey origin_key.

(** The origin's [n]-th signed DAO. *)
Definition signed_wire (n : Z) (unsigned : bytes) : bytes :=
  let digest := @dao_origin_digest toy_crypto origin_address demo_root n unsigned in
  let signature := @schnorr_sign toy_crypto (@derive_keypair toy_crypto origin_seed).1 origin_key digest in
  unsigned ++ os_bytes {| origin_sequence := n; os_signature := signature |}.
Definition signed_dao (n : Z) : option bytes :=
  match build_dao (manager_new origin_address 0 demo_root) demo_root with
  | Some (unsigned, _) => Some (signed_wire n unsigned)
  | None => None
  end.
Definition demo_verified (n : Z) : option SignatureVerifiedDao :=
  wire ← signed_dao n;
  match @verify_signature toy_crypto wire origin_address 0 demo_root (Some origin_key) with
  | Ok v => Some v
  | Err _ => None
  end.

Definition demo_admission : DaoAdmissionState :=
  {| ad_current := {| generation := 1; slot := 0; len := 0 |}; ad_node_address := demo_root; ad_instance := 0;
     ad_dodag_id := demo_root; admitted := {[origin_key]} |}.
Definition demo_store : Mem.MemStorage :=
  match @provision_root _ _ Mem.mem_nonvolatile hash_iter_id Mem.new demo_root 0 demo_root with
  | Some (s, Ok _) => s
  | _ => Mem.new
  end.
Definition demo_open (s : Mem.MemStorage) : Mem.MemStorage * option (DaoManager * DaoRxState) :=
  match @open_root _ _ Mem.mem_nonvolatile s demo_root 0 demo_root with
  | (s, Ok x) => (s, Some x)
  | (s, Err _) => (s, None)
  end.

(** Receive DAO [n], lose power, reopen, and receive DAO [k]. *)
Definition demo_process (s : Mem.MemStorage) (x : DaoManager * DaoRxState) (v : SignatureVerifiedDao) :=
  @process_signature_verified _ _ Mem.mem_nonvolatile hash_iter_id x.1 v (drop 8 origin_address) x.2 s demo_timing
    demo_admission.
Definition demo_twice (n k : Z) :
    option (result (DaoProcessError Mem.MemStorageError) DaoProcessOutcome *
            result (DaoProcessError Mem.MemStorageError) DaoProcessOutcome) :=
  v ← demo_verified n; w ← demo_verified k;
  let '(s, o) := demo_open demo_store in
  x ← o;
  '(s, _, _, r1) ← demo_process s x v;
  let '(s, o) := demo_open s in
  x ← o;
  '(_, _, _, r2) ← demo_process s x w;
  Some (r1, r2).

Example demo_replay : demo_twice 5 4 = Some (Ok Applied, Err Replay).
Proof. vm_compute. reflexivity. Qed.
Example demo_duplicate : demo_twice 5 5 = Some (Ok Applied, Ok Duplicate).
Proof. vm_compute. reflexivity. Qed.
Example demo_newer : demo_twice 5 6 = Some (Ok Applied, Ok Applied).
Proof. vm_compute. reflexivity. Qed.

Lemma demo_scope : scope_wf demo_root 0 demo_root.
Proof. split; first [reflexivity | by apply (bool_decide_unpack _); vm_compute | width]. Qed.
Lemma demo_stored : @root_stored _ _ Mem.mem_nonvolatile hash_iter_id demo_root 0 demo_root ∅ (demo_store, []).
Proof.
  split; [apply (bool_decide_unpack _); vm_compute; exact I |]. split; [| constructor].
  exists 1, 0%nat, (demo_root ++ [0] ++ demo_root ++ [0; 0]). split; vm_compute; reflexivity.
Qed.
Lemma demo_verified_ok v : demo_verified 5 = Some v -> verified_ok v.
Proof.
  intros Hv.
  assert (match demo_verified 5 with
          | Some v => bool_decide (length (sv_public_key v) = 32%nat /\ bytes_ok (sv_public_key v)) &&
              bool_decide (length (signed_dao_sha256 v) = 32%nat /\ bytes_ok (signed_dao_sha256 v)) &&
              bool_decide (1 <= sequence_of_dao v <= u64_max)
          | None => true end = true) as Hb by (vm_compute; reflexivity).
  rewrite Hv in Hb. apply andb_true_iff in Hb as [[H1 H2]%andb_true_iff H3].
  apply bool_decide_eq_true_1 in H1, H2, H3. by split.
Qed.

Definition demo_event :=
  match demo_verified 5, @open_root _ _ Mem.mem_nonvolatile demo_store demo_root 0 demo_root with
  | Some v, (s, Ok (m, rx)) =>
      match @process_signature_verified _ _ Mem.mem_nonvolatile hash_iter_id m v (drop 8 origin_address) rx s demo_timing
              demo_admission with
      | Some (_, _, _, r) =>
          Some ((fun e => (e.1.1, e.2)) <$> event_of v r, sv_public_key v, sequence_of_dao v)
      | None => None
      end
  | _, _ => None
  end.

(** One open and one DAO: a run of the root, and the theorem about it. *)
Lemma applied_once_across_power_loss_witness : exists es y,
  @root_run _ _ Mem.mem_nonvolatile hash_iter_id demo_root 0 demo_root (demo_store, []) es y /\
  sequences_of origin_key es = [5] /\ StronglySorted Z.lt (sequences_of origin_key es).
Proof.
  assert (demo_event = Some (Some (origin_key, 5), origin_key, 5)) as He by (vm_compute; reflexivity).
  unfold demo_event in He. destruct (demo_verified 5) as [v|] eqn:Ev; [| discriminate].
  destruct (open_root demo_store demo_root 0 demo_root) as [s1 [[m rx] | e]] eqn:Eo; [| discriminate].
  destruct (@process_signature_verified _ _ Mem.mem_nonvolatile hash_iter_id m v (drop 8 origin_address) rx s1 demo_timing
    demo_admission) as [[[[s2 m2] rx2] r]|] eqn:Ep; [| discriminate].
  assert (@root_run _ _ Mem.mem_nonvolatile hash_iter_id demo_root 0 demo_root (demo_store, [])
    (option_list None ++ option_list (event_of v r) ++ []) (s2, [(m2, rx2)])) as Hrun.
  { eapply rr_step; [by eapply rs_open |]. eapply rr_step; [| apply rr_nil].
    eapply (rs_process _ _ _ s1 [(m, rx)] 0); [done | by eapply demo_verified_ok | exact Ep]. }
  destruct (event_of v r) as [[[k h] n]|]; [| discriminate]. injection He as Hk Hn _ _. subst k n.
  eexists _, _. split; [exact Hrun |]. split.
  - unfold sequences_of. cbn. by rewrite bool_decide_eq_true_2.
  - exact (proj1 (proj1 (@applied_once_across_power_loss _ _ Mem.mem_nonvolatile hash_iter_id _ _ _ _ _ _ _
      demo_scope demo_stored Hrun) origin_key)).
Defined.

End RplRoot.
