(* ===== verification/SchcBits.v ===== *)
(** * Bit packing of the header codec (lichen-schc/src/codec.rs, first part)

    The codec's error type, its bit writer over a caller-owned buffer and its
    bit reader.  The writer is a state monad whose buffer survives an error, as
    the caller's slice does; the reader is a state monad over the position.
    Both are related to the list of bits of a byte string. *)

From stdpp Require Import strings.
From S2P Require Import Prelude.
Open Scope Z_scope.

Module SchcBits.

Inductive DioAdmissionError :=
  | MissingRuleVersion
  | MalformedRuleVersionLength0
  | MalformedRuleVersionLength2
  | MalformedRuleVersion
  | DuplicateRuleVersion
  | DodagScopeMismatch
  | RoleScopeMismatch
  | SourceSignerMismatch
  | RootKeyDodagMismatch.
#[export] Instance DioAdmissionError_eq_dec : EqDecision DioAdmissionError.
Proof. solve_decision. Defined.

Inductive SchcError :=
  | NoMatchingRule
  | ErrBufferTooSmall (e : BufferTooSmall)
  | UnknownRuleId (id : Z)
  | ErrTooShort (e : TooShort)
  | InvalidPacket (reason : string)
  | NonCanonicalResidue (reason : string)
  | FailureTrackerFull
  | InvalidPeerEvidence
  | PeerAuthorityFull
  | DioAdmission (error : DioAdmissionError).
#[export] Instance SchcError_eq_dec : EqDecision SchcError.
Proof. solve_decision. Defined.

Abbreviation sresult := (result SchcError).

(** ** The bit writer *)

Record BitWriter := { w_buf : bytes; nbits : nat }.

(** [buf.fill(0)] *)
Definition bw_new (buf : bytes) : BitWriter := {| w_buf := replicate (length buf) 0; nbits := 0 |}.

(** A writer step: the buffer keeps what was written before an error. *)
Definition W (A : Type) : Type := BitWriter -> sresult A * BitWriter.
#[export] Instance W_ret : MRet W := fun A a w => (Ok a, w).
#[export] Instance W_bind : MBind W := fun A B f m w =>
  match m w with (Ok a, w) => f a w | (Err e, w) => (Err e, w) end.

(** [for i in (0..nbits).rev()] *)
Fixpoint write (value : Z) (n : nat) : W unit := fun w =>
  match n with
  | O => (Ok tt, w)
  | S i =>
      let bit := wrap8 (Z.land (Z.shiftr value (Z.of_nat i)) 1) in
      let byte_pos := (w.(nbits) / 8)%nat in
      let bit_pos := (7 - w.(nbits) mod 8)%nat in
      if (length w.(w_buf) <=? byte_pos)%nat then
        (Err (ErrBufferTooSmall {| required := byte_pos + 1; provided := length w.(w_buf) |}), w)
      else
        let byte := Z.lor (nth byte_pos w.(w_buf) 0) (Z.shiftl bit (Z.of_nat bit_pos)) in
        write value i {| w_buf := <[byte_pos := byte]> w.(w_buf); nbits := S w.(nbits) |}
  end.

Definition div_ceil8 (n : nat) : nat := ((n + 7) / 8)%nat.
Definition byte_len (w : BitWriter) : nat := div_ceil8 w.(nbits).

(** ** The bit reader *)

Record BitReader := { r_buf : bytes; pos : nat }.
Definition br_new (buf : bytes) : BitReader := {| r_buf := buf; pos := 0 |}.

Definition R (A : Type) : Type := BitReader -> sresult (A * BitReader).
#[export] Instance R_ret : MRet R := fun A a r => Ok (a, r).
#[export] Instance R_bind : MBind R := fun A B f m r =>
  match m r with Ok (a, r) => f a r | Err e => Err e end.
Definition r_err {A} (e : SchcError) : R A := fun _ => Err e.
(** A check on the way: the reader is kept. *)
Definition r_lift {A} (m : sresult A) : R A := fun r =>
  match m with Ok a => Ok (a, r) | Err e => Err e end.

Fixpoint read_loop (n : nat) (value : Z) (r : BitReader) : Z * BitReader :=
  match n with
  | O => (value, r)
  | S n =>
      let byte := nth (r.(pos) / 8) r.(r_buf) 0 in
      let bit := Z.land (Z.shiftr byte (Z.of_nat (7 - r.(pos) mod 8))) 1 in
      read_loop n (Z.lor (Z.shiftl value 1) bit) {| r_buf := r.(r_buf); pos := S r.(pos) |}
  end.

Definition read (n : nat) : R Z := fun r =>
  if (128 <? n)%nat then Err (ErrTooShort {| expected := 17; actual := 16 |})
  else
    let required_bits := (r.(pos) + n)%nat in
    let available_bits := (length r.(r_buf) * 8)%nat in
    if (available_bits <? required_bits)%nat then
      Err (ErrTooShort {| expected := div_ceil8 required_bits; actual := length r.(r_buf) |})
    else Ok (read_loop n 0 r).

Definition residue_byte_end (r : BitReader) : nat := div_ceil8 r.(pos).

Definition padding_is_zero (r : BitReader) : bool :=
  let used_in_last_byte := (r.(pos) mod 8)%nat in
  if (used_in_last_byte =? 0)%nat then true
  else
    let padding_bits := (8 - used_in_last_byte)%nat in
    Z.land (nth (r.(pos) / 8) r.(r_buf) 0) (Z.shiftl 1 (Z.of_nat padding_bits) - 1) =? 0.

(** ** Bit strings *)

Fixpoint to_bits (n : nat) (v : Z) : list bool :=
  match n with O => [] | S i => Z.testbit v (Z.of_nat i) :: to_bits i v end.

Definition of_bits (l : list bool) : Z := foldl (fun a b => 2 * a + Z.b2z b) 0 l.

Fixpoint bits_of_bytes (l : bytes) : list bool :=
  match l with [] => [] | b :: l => to_bits 8 b ++ bits_of_bytes l end.

Lemma length_to_bits n v : length (to_bits n v) = n.
Proof. induction n; cbn [to_bits length]; congruence. Qed.

Lemma length_bits_of_bytes l : length (bits_of_bytes l) = (8 * length l)%nat.
Proof.
  induction l as [|b l IH]; [done |].
  cbn [bits_of_bytes length]. rewrite length_app, length_to_bits, IH. lia.
Qed.
#[export] Hint Rewrite length_to_bits length_bits_of_bytes : lichen_len.

Lemma bits_of_bytes_app k l : bits_of_bytes (k ++ l) = bits_of_bytes k ++ bits_of_bytes l.
Proof. induction k as [|b k IH]; [done |]. cbn [app bits_of_bytes]. by rewrite IH, app_assoc. Qed.

Lemma to_bits_lookup n v i :
  (i < n)%nat -> to_bits n v !! i = Some (Z.testbit v (Z.of_nat (n - 1 - i))).
Proof.
  revert i. induction n as [|n IH]; intros i Hi; [lia |].
  destruct i; cbn [to_bits lookup list_lookup]; [do 2 f_equal; lia |].
  rewrite IH by lia. do 2 f_equal. lia.
Qed.

Lemma bits_of_bytes_lookup l i b :
  l !! (i / 8)%nat = Some b ->
  bits_of_bytes l !! i = Some (Z.testbit b (Z.of_nat (7 - i mod 8))).
Proof.
  revert i. induction l as [|a l IH]; intros i Hi; [done |].
  cbn [bits_of_bytes].
  destruct (decide (i < 8)%nat) as [Hlt|Hge].
  - rewrite lookup_app_l by (rewrite length_to_bits; lia).
    rewrite (Nat.div_small i 8) in Hi by lia. injection Hi as ->.
    rewrite to_bits_lookup by lia. rewrite (Nat.mod_small i 8) by lia. do 2 f_equal; lia.
  - rewrite lookup_app_r, length_to_bits by (rewrite length_to_bits; lia).
    replace i with ((i - 8) + 1 * 8)%nat in Hi |- * by lia.
    rewrite Nat.div_add in Hi by lia. rewrite Nat.Div0.mod_add.
    replace ((i - 8) + 1 * 8 - 8)%nat with (i - 8)%nat by lia.
    apply IH. by rewrite Nat.add_1_r in Hi.
Qed.

Lemma of_bits_snoc l b : of_bits (l ++ [b]) = 2 * of_bits l + Z.b2z b.
Proof. unfold of_bits. by rewrite foldl_app. Qed.

Lemma of_bits_bound l : 0 <= of_bits l < 2 ^ Z.of_nat (length l).
Proof.
  induction l as [|b l IH] using rev_ind; [done |].
  rewrite of_bits_snoc, length_app, Nat2Z.inj_add. change (Z.of_nat (length [b])) with 1.
  rewrite Z.pow_add_r by lia. destruct b; cbn [Z.b2z]; lia.
Qed.

Lemma to_bits_S_snoc n v : to_bits (S n) v = to_bits n (v / 2) ++ [Z.odd v].
Proof.
  induction n as [|n IH]; [cbn; by rewrite Z.bit0_odd |].
  change (to_bits (S (S n)) v) with (Z.testbit v (Z.of_nat (S n)) :: to_bits (S n) v).
  rewrite IH. cbn [to_bits app]. f_equal.
  rewrite <- (Z.div2_div v), Z.div2_spec, Z.shiftr_spec by lia. f_equal. lia.
Qed.

Lemma of_to_bits n v : 0 <= v < 2 ^ Z.of_nat n -> of_bits (to_bits n v) = v.
Proof.
  revert v. induction n as [|n IH]; intros v Hv; [cbn in *; lia |].
  rewrite to_bits_S_snoc, of_bits_snoc, IH.
  - rewrite Zodd_mod. pose proof (Z.div_mod v 2 ltac:(lia)).
    pose proof (Z.mod_pos_bound v 2 ltac:(lia)).
    destruct (Zeq_bool (v mod 2) 1) eqn:E; cbn [Z.b2z].
    + apply Zeq_bool_eq in E. lia.
    + apply Zeq_bool_neq in E. lia.
  - rewrite Nat2Z.inj_succ, Z.pow_succ_r in Hv by lia.
    split; [apply Z.div_pos; lia | apply Z.div_lt_upper_bound; lia].
Qed.

Lemma to_of_bits l : to_bits (length l) (of_bits l) = l.
Proof.
  induction l as [|b l IH] using rev_ind; [done |].
  rewrite length_app, Nat.add_1_r, to_bits_S_snoc, of_bits_snoc. f_equal.
  - rewrite (Z.add_comm (2 * _)), (Z.mul_comm 2), Z.div_add by lia.
    destruct b; cbn [Z.b2z]; [change (1 / 2) with 0 | change (0 / 2) with 0]; exact IH.
  - rewrite Z.add_comm, Z.odd_add_mul_2. by destruct b.
Qed.

Lemma to_bits_eq n l v : length l = n -> v = of_bits l -> to_bits n v = l.
Proof. intros <- ->. apply to_of_bits. Qed.

Lemma to_bits_inj n v v' :
  0 <= v < 2 ^ Z.of_nat n -> 0 <= v' < 2 ^ Z.of_nat n -> to_bits n v = to_bits n v' -> v = v'.
Proof. intros H H' E. rewrite <- (of_to_bits n v H), <- (of_to_bits n v' H'). congruence. Qed.

(** Bytes are determined by their bits. *)
Lemma bits_of_bytes_inj k l :
  bytes_ok k -> bytes_ok l -> bits_of_bytes k = bits_of_bytes l -> k = l.
Proof.
  intros Hk. revert l. induction Hk as [|a k Ha Hk IH]; intros l Hl E.
  - by destruct l.
  - destruct Hl as [|b l Hb Hl]; [done |]. cbn [bits_of_bytes] in E.
    apply app_inj_1 in E as [E1 E2]; [| by rewrite !length_to_bits].
    f_equal; [| by apply IH]. apply (to_bits_inj 8); [| | done]; cbn; width.
Qed.

Lemma to_bits_app n m v : to_bits (n + m) v = to_bits n (v / 2 ^ Z.of_nat m) ++ to_bits m v.
Proof.
  induction n as [|n IH]; [done |]. cbn [Nat.add to_bits app]. rewrite IH. f_equal.
  rewrite <- Z.shiftr_div_pow2, Z.shiftr_spec by lia. f_equal. lia.
Qed.

Lemma to_bits_mod n v : to_bits n (v mod 2 ^ Z.of_nat n) = to_bits n v.
Proof.
  assert (forall k, (k <= n)%nat -> to_bits k (v mod 2 ^ Z.of_nat n) = to_bits k v) as H; [| by apply H].
  induction k as [|k IH]; intros Hk; [done |]. cbn [to_bits].
  rewrite IH by lia. f_equal. apply Z.mod_pow2_bits_low. lia.
Qed.

(** The bits of a big-endian integer are the bits of its bytes. *)
Lemma to_bits_from_be l : bytes_ok l -> to_bits (8 * length l) (from_be l) = bits_of_bytes l.
Proof.
  induction l as [|b l IH] using rev_ind; intros H; [done |].
  apply bytes_ok_snoc in H as [Hl Hb]. rewrite length_app. change (length [b]) with 1%nat.
  replace (8 * (length l + 1))%nat with (8 * length l + 8)%nat by lia.
  rewrite from_be_snoc, bits_of_bytes_app, to_bits_app. change (2 ^ Z.of_nat 8) with 256.
  replace ((from_be l * 256 + b) / 256) with (from_be l).
  - rewrite IH by done. f_equal. cbn [bits_of_bytes]. rewrite app_nil_r.
    rewrite <- (to_bits_mod 8 (_ + _)). change (2 ^ Z.of_nat 8) with 256. f_equal.
    rewrite Z.add_comm, Z.mod_add by lia. apply Z.mod_small. width.
  - rewrite Z.add_comm, Z.div_add, Z.div_small by width. lia.
Qed.

Lemma of_bits_of_bytes l : bytes_ok l -> of_bits (bits_of_bytes l) = from_be l.
Proof.
  intros H. rewrite <- to_bits_from_be by done. apply of_to_bits.
  pose proof (from_be_bound l H). rewrite Nat2Z.inj_mul, Z.pow_mul_r by lia. exact H0.
Qed.

(** ** What the writer writes *)

(** [w] has written [bs] over a zero-filled buffer. *)
Definition wrote (w : BitWriter) (bs : list bool) : Prop :=
  bytes_ok w.(w_buf) /\ w.(nbits) = length bs /\ (length bs <= 8 * length w.(w_buf))%nat /\
  bits_of_bytes w.(w_buf) = bs ++ replicate (8 * length w.(w_buf) - length bs) false.

Lemma bits_of_zeros n : bits_of_bytes (replicate n 0) = replicate (8 * n) false.
Proof.
  induction n as [|n IH]; [done |]. cbn [replicate bits_of_bytes]. rewrite IH.
  replace (8 * S n)%nat with (8 + 8 * n)%nat by lia. by rewrite replicate_add.
Qed.

Lemma bw_new_wrote buf : wrote (bw_new buf) [].
Proof.
  unfold wrote, bw_new. cbn [w_buf nbits length app]. rewrite length_replicate. split_and!.
  - apply Forall_replicate. done.
  - done.
  - lia.
  - rewrite Nat.sub_0_r. apply bits_of_zeros.
Qed.

Lemma lor_u8 a b : is_u8 a -> is_u8 b -> is_u8 (Z.lor a b).
Proof.
  intros Ha Hb. assert (0 <= Z.lor a b) by (apply Z.lor_nonneg; width).
  split; [done |]. destruct (decide (Z.lor a b = 0)) as [->|]; [done |].
  assert (Z.lor a b < 2 ^ 8); [| unfold u8_max; lia].
  apply Z.log2_lt_pow2; [lia |]. rewrite Z.log2_lor by width.
  assert (forall x, is_u8 x -> Z.log2 x < 8) as Hl.
  { intros x Hx. destruct (decide (x <= 0)); [rewrite Z.log2_nonpos by done; lia |].
    apply Z.log2_lt_pow2; width. }
  apply Z.max_lub_lt; auto.
Qed.

(** Setting one bit of a byte string. *)
Lemma bits_set_bit buf p k (b : bool) :
  (p < length buf)%nat -> (k < 8)%nat ->
  bits_of_bytes (<[p := Z.lor (nth p buf 0) (Z.shiftl (Z.b2z b) (Z.of_nat (7 - k)))]> buf) =
  <[(8 * p + k)%nat := nth (8 * p + k) (bits_of_bytes buf) false || b]> (bits_of_bytes buf).
Proof.
  intros Hp Hk. apply list_eq_same_length with (8 * length buf)%nat.
  { by rewrite length_insert, length_bits_of_bytes. }
  { by rewrite length_bits_of_bytes, length_insert. }
  assert ((8 * p + k) / 8 = p)%nat as Hdiv.
  { rewrite (Nat.mul_comm 8), Nat.div_add_l, (Nat.div_small k) by lia. lia. }
  assert ((8 * p + k) mod 8 = k)%nat as Hmod.
  { rewrite (Nat.mul_comm 8), Nat.add_comm, Nat.Div0.mod_add. apply Nat.mod_small. lia. }
  destruct (lookup_lt_is_Some_2 buf p Hp) as [c Hc].
  assert (nth p buf 0 = c) as -> by (by apply nth_lookup_Some).
  intros i x y Hi Hx Hy.
  assert (i / 8 < length buf)%nat as Hi8 by (apply Nat.Div0.div_lt_upper_bound; lia).
  destruct (decide (i = 8 * p + k)%nat) as [->|Hne].
  - erewrite bits_of_bytes_lookup in Hx by (rewrite Hdiv, list_lookup_insert_eq; done).
    rewrite list_lookup_insert_eq in Hy by (rewrite length_bits_of_bytes; lia).
    rewrite (nth_lookup_Some _ _ _ (Z.testbit c (Z.of_nat (7 - k)))) in Hy
      by (erewrite bits_of_bytes_lookup; [by rewrite Hmod | by rewrite Hdiv]).
    rewrite Hmod in Hx. simplify_eq. rewrite Z.lor_spec, Z.shiftl_spec, Z.sub_diag by lia.
    f_equal. by destruct b.
  - rewrite list_lookup_insert_ne in Hy by done.
    destruct (decide (i / 8 = p)%nat) as [Hip|Hip].
    + erewrite bits_of_bytes_lookup in Hx by (rewrite Hip, list_lookup_insert_eq; done).
      erewrite bits_of_bytes_lookup in Hy by (rewrite Hip; done).
      simplify_eq. rewrite Z.lor_spec, Z.shiftl_spec by lia.
      assert (i mod 8 <> k)%nat.
      { intros E. apply Hne. rewrite (Nat.div_mod_eq i 8), E. lia. }
      pose proof (Nat.mod_upper_bound i 8).
      replace (Z.testbit (Z.b2z b) _) with false; [apply orb_false_r |].
      destruct (decide (Z.of_nat (7 - i mod 8) < Z.of_nat (7 - k))).
      * by rewrite Z.testbit_neg_r by lia.
      * symmetry. apply Z.bits_above_log2; [by destruct b |].
        assert (Z.log2 (Z.b2z b) = 0) as -> by (by destruct b). lia.
    + destruct (lookup_lt_is_Some_2 buf (i / 8)%nat Hi8) as [d Hd].
      erewrite bits_of_bytes_lookup in Hx by (rewrite list_lookup_insert_ne by congruence; done).
      erewrite bits_of_bytes_lookup in Hy by done. congruence.
Qed.

Lemma write_S value i w :
  (w.(nbits) < 8 * length w.(w_buf))%nat ->
  write value (S i) w =
  write value i {| w_buf := <[(w.(nbits) / 8)%nat := Z.lor (nth (w.(nbits) / 8) w.(w_buf) 0)
                     (Z.shiftl (Z.b2z (Z.testbit value (Z.of_nat i))) (Z.of_nat (7 - w.(nbits) mod 8)))]> w.(w_buf);
                   nbits := S w.(nbits) |}.
Proof.
  intros H. cbn [write].
  rewrite (proj2 (Nat.leb_gt _ _)) by (apply Nat.Div0.div_lt_upper_bound; lia).
  do 2 f_equal. f_equal. f_equal. f_equal. unfold wrap8.
  rewrite (Z.land_ones _ 1) by lia. change (2 ^ 1) with 2.
  rewrite <- Zmod_mod. rewrite Z.testbit_odd.
  rewrite Zodd_mod. pose proof (Z.mod_pos_bound (Z.shiftr value (Z.of_nat i)) 2 ltac:(lia)).
  destruct (Zeq_bool (Z.shiftr value (Z.of_nat i) mod 2) 1) eqn:E.
  - apply Zeq_bool_eq in E. by rewrite E.
  - apply Zeq_bool_neq in E. by replace (Z.shiftr value (Z.of_nat i) mod 2) with 0 by lia.
Qed.

(** Appending [n] bits. *)
Lemma write_wrote value n w bs :
  wrote w bs -> (length bs + n <= 8 * length w.(w_buf))%nat ->
  exists w', write value n w = (Ok tt, w') /\ wrote w' (bs ++ to_bits n value) /\
    length w'.(w_buf) = length w.(w_buf).
Proof.
  revert w bs. induction n as [|i IH]; intros w bs Hw Hlen.
  - exists w. cbn [to_bits write]. by rewrite app_nil_r.
  - destruct Hw as (Hok & Hn & Hle & Hbits).
    rewrite write_S by lia.
    set (b := Z.testbit value (Z.of_nat i)).
    set (w1 := {| w_buf := _; nbits := _ |}).
    assert (wrote w1 (bs ++ [b])) as Hw1.
    { unfold wrote, w1; cbn [w_buf nbits]. rewrite length_insert, length_app.
      change (length [b]) with 1%nat.
      assert (w.(nbits) / 8 < length w.(w_buf))%nat as Hp by (apply Nat.Div0.div_lt_upper_bound; lia).
      split_and!; [| lia | lia |].
      - apply Forall_insert; [done |].
        assert (is_u8 (nth (w.(nbits) / 8) w.(w_buf) 0)) as Hb8.
        { rewrite Forall_forall in Hok. apply Hok. rewrite list_elem_of_In. by apply nth_In. }
        assert (forall k, (k < 8)%nat -> is_u8 (Z.shiftl (Z.b2z b) (Z.of_nat k))) as Hs.
        { intros k Hk. do 8 (destruct k as [|k]; [by destruct b |]). lia. }
        specialize (Hs (7 - w.(nbits) mod 8)%nat ltac:(lia)).
        apply (lor_u8 _ _ Hb8 Hs).
      - pose proof (Nat.div_mod_eq w.(nbits) 8) as Hdm.
        rewrite bits_set_bit by (done || apply Nat.mod_upper_bound; lia).
        rewrite <- Hdm, Hbits, Hn.
        replace (8 * length w.(w_buf) - length bs)%nat with (S (8 * length w.(w_buf) - (length bs + 1)))%nat by lia.
        cbn [replicate]. rewrite app_nth2, Nat.sub_diag by lia. cbn [nth orb].
        rewrite insert_app_r_alt by lia. rewrite Nat.sub_diag. cbn. by rewrite <- app_assoc. }
    destruct (IH w1 (bs ++ [b]) Hw1) as (w' & -> & Hw' & Hl').
    { unfold w1. cbn [w_buf]. rewrite length_insert, length_app. cbn. lia. }
    exists w'. split; [done |]. split.
    + cbn [to_bits]. by rewrite <- app_assoc in Hw'.
    + rewrite Hl'. unfold w1. cbn. apply length_insert.
Qed.

(** A run of writes, each followed by [?]. *)
Fixpoint write_all (fields : list (Z * nat)) : W unit :=
  match fields with
  | [] => mret tt
  | (v, n) :: fields => write v n ;; write_all fields
  end.

Fixpoint field_bits (fields : list (Z * nat)) : list bool :=
  match fields with [] => [] | (v, n) :: fields => to_bits n v ++ field_bits fields end.

Lemma write_all_wrote fields w bs :
  wrote w bs -> (length bs + length (field_bits fields) <= 8 * length w.(w_buf))%nat ->
  exists w', write_all fields w = (Ok tt, w') /\ wrote w' (bs ++ field_bits fields) /\
    length w'.(w_buf) = length w.(w_buf).
Proof.
  revert w bs. induction fields as [|[v n] fields IH]; intros w bs Hw Hlen.
  - exists w. cbn. by rewrite app_nil_r.
  - cbn [field_bits] in Hlen. rewrite length_app, length_to_bits in Hlen.
    destruct (write_wrote v n w bs Hw ltac:(lia)) as (w1 & E1 & Hw1 & Hl1).
    destruct (IH w1 _ Hw1) as (w2 & E2 & Hw2 & Hl2).
    { rewrite length_app, length_to_bits, Hl1. lia. }
    exists w2. cbn [write_all field_bits]. unfold mbind, W_bind. rewrite E1, E2.
    by rewrite app_assoc, Hl2.
Qed.

Lemma div_ceil8_spec n : (n <= 8 * div_ceil8 n)%nat /\ (8 * div_ceil8 n < n + 8)%nat.
Proof.
  unfold div_ceil8. pose proof (Nat.div_mod_eq (n + 7) 8).
  pose proof (Nat.mod_upper_bound (n + 7) 8). lia.
Qed.

Lemma div_ceil8_mul n k : (n <= 8 * k < n + 8)%nat -> div_ceil8 n = k.
Proof. pose proof (div_ceil8_spec n). lia. Qed.

(** [body] is [bs] zero-padded to whole bytes. *)
Definition encodes (body : bytes) (bs : list bool) : Prop :=
  bytes_ok body /\ length body = div_ceil8 (length bs) /\
  bits_of_bytes body = bs ++ replicate (8 * length body - length bs) false.

Lemma encodes_inj body body' bs : encodes body bs -> encodes body' bs -> body = body'.
Proof.
  intros (H1 & H2 & H3) (H1' & H2' & H3'). apply bits_of_bytes_inj; [done.. |].
  rewrite H3, H3'. do 2 f_equal. lia.
Qed.

Lemma take_bits_of_bytes k l : bits_of_bytes (take k l) = take (8 * k) (bits_of_bytes l).
Proof.
  revert k. induction l as [|b l IH]; intros [|k]; cbn [take bits_of_bytes]; try done.
  - rewrite IH. replace (8 * S k)%nat with (length (to_bits 8 b) + 8 * k)%nat by (rewrite length_to_bits; lia).
    rewrite take_app_add'; done.
Qed.

Lemma drop_bits_of_bytes k l : bits_of_bytes (drop k l) = drop (8 * k) (bits_of_bytes l).
Proof.
  revert k. induction l as [|b l IH]; intros [|k]; cbn [drop bits_of_bytes]; try done.
  - rewrite IH. replace (8 * S k)%nat with (length (to_bits 8 b) + 8 * k)%nat by (rewrite length_to_bits; lia).
    rewrite drop_app_add'; done.
Qed.

(** The writer's buffer: the padded bits, then zeros. *)
Lemma wrote_buf w bs :
  wrote w bs ->
  exists body, encodes body bs /\ byte_len w = length body /\
    w.(w_buf) = body ++ replicate (length w.(w_buf) - length body) 0.
Proof.
  intros (Hok & Hn & Hle & Hbits). pose proof (div_ceil8_spec (length bs)) as Hc.
  set (k := div_ceil8 (length bs)) in *.
  assert (length (take k w.(w_buf)) = k) as Hk by (rewrite length_take; lia).
  exists (take k w.(w_buf)). split_and!.
  - split_and!.
    + by apply Forall_take.
    + done.
    + rewrite take_bits_of_bytes, Hbits, take_app_ge, Hk, take_replicate by lia. do 2 f_equal. lia.
  - unfold byte_len. by rewrite Hn, Hk.
  - rewrite Hk. rewrite <- (take_drop k w.(w_buf)) at 1. f_equal.
    apply bits_of_bytes_inj.
    + by apply Forall_drop.
    + apply Forall_replicate. done.
    + rewrite drop_bits_of_bytes, bits_of_zeros, Hbits, drop_app_ge, drop_replicate by lia. f_equal. lia.
Qed.

(** ** What the reader reads *)

(** The bits still to read. *)
Definition unread (r : BitReader) : list bool := drop r.(pos) (bits_of_bytes r.(r_buf)).

Lemma read_loop_spec n value r xs rest :
  unread r = xs ++ rest -> length xs = n -> 0 <= value ->
  read_loop n value r =
  (foldl (fun a b => 2 * a + Z.b2z b) value xs, {| r_buf := r.(r_buf); pos := r.(pos) + n |}).
Proof.
  revert value r xs. induction n as [|n IH]; intros value r xs Hr Hx Hv.
  - destruct xs; [| done]. destruct r as [rb rp]. cbn. rewrite Nat.add_0_r. done.
  - destruct xs as [|x xs]; [done |]. injection Hx as Hx. cbn [read_loop foldl].
    assert (bits_of_bytes r.(r_buf) !! r.(pos) = Some x) as Hl.
    { pose proof (lookup_drop (bits_of_bytes r.(r_buf)) r.(pos) 0) as Hd.
      unfold unread in Hr. rewrite Hr in Hd. rewrite Nat.add_0_r in Hd. by rewrite <- Hd. }
    assert (is_Some (r.(r_buf) !! (r.(pos) / 8)%nat)) as [c Hc].
    { apply lookup_lt_is_Some_2. apply lookup_lt_Some in Hl. rewrite length_bits_of_bytes in Hl.
      by apply Nat.Div0.div_lt_upper_bound. }
    pose proof (bits_of_bytes_lookup _ _ _ Hc) as Hl'. rewrite Hl in Hl'. injection Hl' as Hx'.
    rewrite (nth_lookup_Some _ _ 0 _ Hc).
    assert (Z.land (Z.shiftr c (Z.of_nat (7 - r.(pos) mod 8))) 1 = Z.b2z x) as Eb.
    { rewrite Hx'. rewrite (Z.land_ones _ 1) by lia. change (2 ^ 1) with 2.
      by rewrite Z.testbit_spec', Z.shiftr_div_pow2 by lia. }
    rewrite Eb. rewrite (IH _ _ xs).
    + f_equal; [| cbn; f_equal; lia]. f_equal. rewrite lor_shiftl; [lia | lia |].
      destruct x; cbn; lia.
    + unfold unread in *. cbn [pos r_buf]. rewrite <- Nat.add_1_r, <- drop_drop, Hr. done.
    + done.
    + apply Z.lor_nonneg. split; [apply Z.shiftl_nonneg; lia | destruct x; cbn; lia].
Qed.

Lemma unread_length r xs rest :
  unread r = xs ++ rest -> xs <> [] \/ (r.(pos) <= 8 * length r.(r_buf))%nat ->
  (r.(pos) + length xs <= 8 * length r.(r_buf))%nat.
Proof.
  intros Hr Hx. assert (length (unread r) = length (xs ++ rest)) as Hl by by rewrite Hr.
  unfold unread in Hl. rewrite length_drop, length_bits_of_bytes, length_app in Hl.
  destruct Hx as [Hx|Hx]; [| lia]. destruct xs; [done |]. cbn [length] in *. lia.
Qed.

Lemma read_ok n r xs rest :
  (n <= 128)%nat -> unread r = xs ++ rest -> length xs = n -> n <> 0%nat ->
  exists r', read n r = Ok (of_bits xs, r') /\ unread r' = rest /\
    r'.(r_buf) = r.(r_buf) /\ r'.(pos) = (r.(pos) + n)%nat.
Proof.
  intros Hn Hr Hx H0. assert (xs <> []) as Hx0 by (destruct xs; [cbn in Hx; lia | done]).
  pose proof (unread_length _ _ _ Hr (or_introl Hx0)).
  exists {| r_buf := r.(r_buf); pos := r.(pos) + n |}. unfold read.
  rewrite (proj2 (Nat.ltb_ge _ _)), (proj2 (Nat.ltb_ge _ _)) by lia. cbn [r_buf pos].
  rewrite (read_loop_spec _ _ _ xs rest) by done. split_and!; [done | | done | done].
  unfold unread in *. cbn. by rewrite <- drop_drop, Hr, drop_app_length'.
Qed.

Lemma read_inv n r v r' :
  read n r = Ok (v, r') ->
  exists xs rest, unread r = xs ++ rest /\ length xs = n /\ v = of_bits xs /\ unread r' = rest /\
    r'.(r_buf) = r.(r_buf) /\ r'.(pos) = (r.(pos) + n)%nat /\ (r'.(pos) <= 8 * length r'.(r_buf))%nat.
Proof.
  unfold read. intros H. destruct (128 <? n)%nat eqn:E1; [done |].
  destruct (_ <? r.(pos) + n)%nat eqn:E2; [done |]. bool_to_prop.
  assert (length (take n (unread r)) = n) as Hl.
  { unfold unread. rewrite length_take, length_drop, length_bits_of_bytes. lia. }
  pose proof (eq_sym (take_drop n (unread r))) as Htd.
  rewrite (read_loop_spec _ _ _ _ _ Htd Hl) in H by done. injection H as <- <-.
  exists (take n (unread r)), (drop n (unread r)). cbn [r_buf pos].
  split_and!; try done; [| lia]. unfold unread. cbn [r_buf pos]. by rewrite drop_drop.
Qed.

(** The padding test reads the bits up to the byte boundary. *)
Lemma padding_is_zero_spec r :
  (r.(pos) <= 8 * length r.(r_buf))%nat ->
  padding_is_zero r = true <->
  take (8 * residue_byte_end r - r.(pos)) (unread r) = replicate (8 * residue_byte_end r - r.(pos)) false.
Proof.
  intros Hle. unfold padding_is_zero, residue_byte_end.
  pose proof (Nat.div_mod_eq r.(pos) 8) as Hdm. pose proof (Nat.mod_upper_bound r.(pos) 8 ltac:(lia)) as Hmod.
  set (u := (r.(pos) mod 8)%nat) in *. set (q := (r.(pos) / 8)%nat) in *.
  case_eq (u =? 0)%nat; intros Eu; bool_to_prop.
  - rewrite (div_ceil8_mul r.(pos) q) by lia. replace (8 * q - r.(pos))%nat with 0%nat by lia.
    by rewrite take_0.
  - rewrite (div_ceil8_mul r.(pos) (S q)) by lia.
    destruct (lookup_lt_is_Some_2 r.(r_buf) q ltac:(lia)) as [c Hc].
    rewrite (nth_lookup_Some _ _ 0 _ Hc).
    assert (take (8 * S q - r.(pos)) (unread r) = to_bits (8 - u) c) as ->.
    { replace (8 * S q - r.(pos))%nat with (8 - u)%nat by lia.
      apply list_eq_same_length with (8 - u)%nat.
      - by rewrite length_to_bits.
      - unfold unread. rewrite length_take, length_drop, length_bits_of_bytes. lia.
      - intros i x y Hi Hx Hy.
        rewrite lookup_take_lt in Hx by lia. unfold unread in Hx. rewrite lookup_drop in Hx.
        assert ((r.(pos) + i) / 8 = q)%nat as Hq.
        { rewrite Hdm, <- Nat.add_assoc, (Nat.mul_comm 8), Nat.div_add_l, (Nat.div_small (u + i)) by lia. lia. }
        erewrite bits_of_bytes_lookup in Hx by (by rewrite Hq).
        rewrite to_bits_lookup in Hy by lia.
        assert ((r.(pos) + i) mod 8 = u + i)%nat as Hm by (pose proof (Nat.div_mod_eq (r.(pos) + i) 8); lia).
        rewrite Hm in Hx. replace (8 - u - 1 - i)%nat with (7 - (u + i))%nat in Hy by lia. congruence. }
    replace (8 * S q - r.(pos))%nat with (8 - u)%nat by lia.
    assert (to_bits (8 - u) 0 = replicate (8 - u) false) as <-.
    { generalize (8 - u)%nat as m. induction m as [|m IH]; [done |].
      cbn [to_bits replicate]. rewrite IH. f_equal. apply Z.bits_0. }
    rewrite Z.shiftl_1_l. replace (2 ^ Z.of_nat (8 - u) - 1) with (Z.ones (Z.of_nat (8 - u))) by (rewrite Z.ones_equiv; lia).
    rewrite Z.land_ones, <- (to_bits_mod _ c) by lia. rewrite Z.eqb_eq.
    pose proof (Z.mod_pos_bound c (2 ^ Z.of_nat (8 - u)) ltac:(lia)).
    split; [congruence |]. intros E. apply (to_bits_inj (8 - u)); [done | lia | done].
Qed.

(** After reading exactly the residue bits of [body ++ tail]: the padding test
    succeeds and the tail starts where [body] ends. *)
Lemma finish_ok body tail bs r :
  encodes body bs -> r.(r_buf) = body ++ tail -> r.(pos) = length bs ->
  padding_is_zero r = true /\ residue_byte_end r = length body.
Proof.
  intros (H1 & H2 & H3) Hb Hp. pose proof (div_ceil8_spec (length bs)).
  assert (residue_byte_end r = length body) as E by (unfold residue_byte_end; congruence).
  split; [| done]. apply padding_is_zero_spec; [rewrite Hb, length_app; lia |].
  unfold unread. rewrite E, Hb, Hp, bits_of_bytes_app, H3, <- app_assoc, drop_app_length.
  apply take_app_length'. by rewrite length_replicate.
Qed.

Lemma finish_inv r bs :
  bytes_ok r.(r_buf) -> (r.(pos) <= 8 * length r.(r_buf))%nat -> padding_is_zero r = true ->
  bits_of_bytes r.(r_buf) = bs ++ unread r -> r.(pos) = length bs ->
  exists body, r.(r_buf) = body ++ drop (residue_byte_end r) r.(r_buf) /\ encodes body bs /\
    residue_byte_end r = length body.
Proof.
  intros Hok Hle Hpad Hbits Hp. apply padding_is_zero_spec in Hpad; [| done].
  pose proof (div_ceil8_spec r.(pos)).
  set (k := residue_byte_end r) in *. assert (k = div_ceil8 r.(pos)) as Hk by done.
  assert (length (take k r.(r_buf)) = k) as Hl by (rewrite length_take; lia).
  exists (take k r.(r_buf)). split_and!; [by rewrite take_drop | | done]. split_and!.
  - by apply Forall_take.
  - by rewrite Hl, Hk, Hp.
  - rewrite take_bits_of_bytes, Hl, Hbits, take_app_ge by lia. f_equal.
    rewrite <- Hp. exact Hpad.
Qed.

End SchcBits.
Export SchcBits.
