(* ===== verification/SchcCheck.v ===== *)
(** * What the header codec checks (lichen-schc/src/codec.rs, second part)

    The one's-complement checksums, the endpoint address policy, the structural
    validation of a complete IPv6 packet with its extension headers, and the
    search for an OSCORE option in a CoAP message. *)

From stdpp Require Import strings.
From S2P Require Import Prelude SchcBits.
Open Scope Z_scope.

Module SchcCheck.

(** ** Addresses *)

Definition all_zero (l : bytes) : bool := forallb (fun b => b =? 0) l.
Definition LINK_LOCAL_64 : bytes := [0xFE; 0x80; 0; 0; 0; 0; 0; 0].

Definition is_link_local_64 (addr : bytes) : bool :=
  (length addr =? 16)%nat && bool_decide (slice 0 8 addr = LINK_LOCAL_64).
Definition is_unspecified_address (address : bytes) : bool :=
  (length address =? 16)%nat && all_zero address.
Definition is_loopback_address (address : bytes) : bool :=
  (length address =? 16)%nat && all_zero (slice 0 15 address) && (nth 15 address 0 =? 1).
Definition is_ipv4_mapped_address (address : bytes) : bool :=
  (length address =? 16)%nat && all_zero (slice 0 10 address) &&
  bool_decide (slice 10 12 address = [0xff; 0xff]).

Definition validate_address_policy (src dst : bytes) : sresult unit :=
  if negb (length src =? 16)%nat || is_unspecified_address src || is_loopback_address src ||
     bool_decide (head src = Some 0xff) || is_ipv4_mapped_address src
  then Err (InvalidPacket "invalid IPv6 source address")
  else if negb (length dst =? 16)%nat || is_unspecified_address dst || is_loopback_address dst ||
     is_ipv4_mapped_address dst
  then Err (InvalidPacket "invalid IPv6 destination address")
  else if bool_decide (head dst = Some 0xff) &&
     negb ((2 <=? Z.land (nth 1 dst 0) 0x0f) && (Z.land (nth 1 dst 0) 0x0f <=? 14))
  then Err (InvalidPacket "invalid IPv6 destination multicast scope")
  else Ok tt.

(** ** Checksums

    Sums are [u32]; [oc_add_bound] below keeps them under 2^16, so that the
    additions never wrap. *)

Definition oc_add (a b : Z) : Z :=
  let s := a + b in
  if negb (Z.shiftr s 16 =? 0) then Z.land s 0xFFFF + Z.shiftr s 16 else s.

(** [chunks_exact(2)] with its remainder. *)
Fixpoint sum_pairs (sum : Z) (data : bytes) : Z * bytes :=
  match data with
  | a :: b :: data => sum_pairs (oc_add sum (from_be [a; b])) data
  | remainder => (sum, remainder)
  end.

Definition checksum_bytes (data : bytes) : Z :=
  match sum_pairs 0 data with
  | (sum, last :: _) => oc_add sum (Z.shiftl last 8)
  | (sum, []) => sum
  end.

(** One part: a byte left over by the earlier parts is the high byte of its
    first word. *)
Definition sum_part (acc : Z * option Z) (part : bytes) : Z * option Z :=
  let rest sum data :=
    let '(sum, remainder) := sum_pairs sum data in (sum, head remainder) in
  match acc with
  | (sum, Some high) =>
      match part with
      | first :: part => rest (oc_add sum (from_be [high; first])) part
      | [] => (sum, Some high)
      end
  | (sum, None) => rest sum part
  end.

Definition checksum_bytes_parts (parts : list bytes) : Z :=
  match foldl sum_part (0, None) parts with
  | (sum, Some last) => oc_add sum (Z.shiftl last 8)
  | (sum, None) => sum
  end.

Definition pseudo_sum (src dst : bytes) (next_header len : Z) : Z :=
  let sum := (sum_pairs 0 src).1 in
  let sum := (sum_pairs sum dst).1 in
  let sum := oc_add sum len in
  oc_add sum next_header.

(** [while s >> 16 != 0 { .. }]: a 32-bit value needs at most two rounds. *)
Fixpoint fold16 (fuel : nat) (s : Z) : Z :=
  match fuel with
  | O => s
  | S fuel => if Z.shiftr s 16 =? 0 then s else fold16 fuel (Z.land s 0xFFFF + Z.shiftr s 16)
  end.

Definition ones_complement_sum (sum : Z) : Z :=
  let c := 0xFFFF - wrap16 (fold16 3 sum) in
  if c =? 0 then 0xFFFF else c.

Definition parts_len (parts : list bytes) : nat := foldr (fun p n => (length p + n)%nat) O parts.

Definition udp_checksum_parts (src dst : bytes) (src_port dst_port : Z) (parts : list bytes) : sresult Z :=
  let total_len := (8 + parts_len parts)%nat in
  if 65535 <? Z.of_nat total_len then
    Err (ErrBufferTooSmall {| required := total_len; provided := Z.to_nat u16_max |})
  else
    let udp_len := wrap16 (Z.of_nat total_len) in
    let sum := pseudo_sum src dst 17 udp_len in
    let sum := oc_add sum src_port in
    let sum := oc_add sum dst_port in
    let sum := oc_add sum udp_len in
    let sum := oc_add sum (checksum_bytes_parts parts) in
    Ok (ones_complement_sum sum).

Definition udp_checksum (src dst : bytes) (src_port dst_port : Z) (payload : bytes) : sresult Z :=
  udp_checksum_parts src dst src_port dst_port [payload].

Definition icmpv6_checksum_parts (src dst : bytes) (parts : list bytes) : Z :=
  let sum := pseudo_sum src dst 58 (wrap16 (Z.of_nat (parts_len parts))) in
  let sum := oc_add sum (checksum_bytes_parts parts) in
  ones_complement_sum sum.

Definition icmpv6_checksum_valid (src dst icmpv6 : bytes) : bool :=
  if (length icmpv6 <? 4)%nat then false
  else
    let sum := pseudo_sum src dst 58 (wrap16 (Z.of_nat (length icmpv6))) in
    let sum := oc_add sum (checksum_bytes icmpv6) in
    wrap16 (fold16 3 sum) =? 0xFFFF.

(** ** The structure of an IPv6 packet *)

Definition u16_at (l : bytes) (i : nat) : Z := from_be [nth i l 0; nth (S i) l 0].

(** The extension-header loop: next header, offset of the upper layer, and the
    destination its checksum covers.  [None] is fuel running out; every
    iteration advances by at least eight bytes ([ext_walk_fuel]). *)
Fixpoint ext_walk (fuel : nat) (packet : bytes) (next_header : Z) (offset : nat) (dst : bytes) :
    option (sresult (Z * nat * bytes)) :=
  match fuel with
  | O => None
  | S fuel =>
      if (next_header =? 0) || (next_header =? 43) || (next_header =? 60) then
        if (length packet <? offset + 2)%nat then
          Some (Err (InvalidPacket "truncated IPv6 extension header"))
        else
          let ext_len := ((Z.to_nat (nth (offset + 1) packet 0%Z) + 1) * 8)%nat in
          let stop := (offset + ext_len)%nat in
          if (length packet <? stop)%nat then
            Some (Err (InvalidPacket "IPv6 extension header exceeds packet"))
          else
            let continue dst := ext_walk fuel packet (nth offset packet 0) stop dst in
            if next_header =? 43 then
              if (ext_len <? 24)%nat || negb (nth (offset + 2) packet 0 =? 3) ||
                 negb (nth (offset + 4) packet 0 =? 0) || negb (nth (offset + 5) packet 0 =? 0) ||
                 negb (nth (offset + 6) packet 0 =? 0) || negb (nth (offset + 7) packet 0 =? 0)
              then Some (Err (InvalidPacket "unsupported RPL source-routing header"))
              else
                let address_count := ((ext_len - 8) / 16)%nat in
                let segments_left := Z.to_nat (nth (offset + 3) packet 0%Z) in
                if (address_count <? segments_left)%nat then
                  Some (Err (InvalidPacket "invalid RPL source-routing segments-left"))
                else if negb (((ext_len - 8) mod 16 =? 0)%nat) then
                  Some (Err (InvalidPacket "invalid RPL source-routing header length"))
                else if negb (segments_left =? 0)%nat then continue (slice (stop - 16) stop packet)
                else continue dst
            else continue dst
      else if next_header =? 44 then Some (Err (InvalidPacket "IPv6 Fragment header is unsupported"))
      else Some (Ok (next_header, offset, dst))
  end.

Definition ext_headers (packet : bytes) : sresult (Z * nat * bytes) :=
  default (Err (InvalidPacket "unreachable"))
    (ext_walk (S (length packet)) packet (nth 6 packet 0) 40 (slice 24 40 packet)).

Definition check_udp (src dst udp : bytes) : sresult unit :=
  if (length udp <? 8)%nat then Err (InvalidPacket "truncated IPv6/UDP datagram")
  else
    let udp_len := u16_at udp 4 in
    if (udp_len <? 8) || negb (udp_len =? Z.of_nat (length udp)) then
      Err (InvalidPacket "UDP length mismatch")
    else
      let checksum := u16_at udp 6 in
      if checksum =? 0 then Err (InvalidPacket "IPv6 UDP checksum is zero")
      else
        c ← udp_checksum src dst (u16_at udp 0) (u16_at udp 2) (drop 8 udp);
        if negb (checksum =? c) then Err (InvalidPacket "IPv6 UDP checksum is invalid") else Ok tt.

Definition validate_full_ipv6_structure (packet : bytes) : sresult unit :=
  if (length packet <? 40)%nat then Err (InvalidPacket "truncated IPv6 header")
  else if negb (Z.shiftr (nth 0 packet 0) 4 =? 6) then Err (InvalidPacket "IPv6 version is not 6")
  else if negb (Z.of_nat (length packet) =? 40 + u16_at packet 4) then
    Err (InvalidPacket "IPv6 payload length mismatch")
  else
    '(next_header, offset, upper_layer_destination) ← ext_headers packet;
    if next_header =? 17 then check_udp (slice 8 24 packet) upper_layer_destination (drop offset packet)
    else Ok tt.

Definition validate_full_ipv6 (packet : bytes) : sresult unit :=
  _ ← validate_full_ipv6_structure packet;
  validate_address_policy (slice 8 24 packet) (slice 24 40 packet).

(** ** OSCORE options *)

Definition valid_oscore_option (value : bytes) : bool :=
  match value with
  | [] => true
  | flags :: _ =>
      if (255 <? length value)%nat then false
      else
        let partial_iv_len := Z.to_nat (Z.land flags 0x07) in
        if negb (Z.land flags 0xe0 =? 0) || (5 <? partial_iv_len)%nat || (flags =? 0) then false
        else
          let offset := (1 + partial_iv_len)%nat in
          if (length value <? offset)%nat then false
          else if (1 <? partial_iv_len)%nat && (nth 1 value 0 =? 0) then false
          else
            let finish (offset : nat) := negb (Z.land flags 0x08 =? 0) || (offset =? length value)%nat in
            if negb (Z.land flags 0x10 =? 0) then
              if (length value <=? offset)%nat then false
              else
                let context_len := Z.to_nat (nth offset value 0%Z) in
                let stop := (offset + 1 + context_len)%nat in
                if (length value <? stop)%nat then false else finish stop
            else finish offset
  end.

(** An option nibble with its extension: the value and the position after. *)
Definition opt_ext (coap : bytes) (nibble : Z) (pos : nat) : option (nat * nat) :=
  if nibble <=? 12 then Some (Z.to_nat nibble, pos)
  else if nibble =? 13 then
    if (length coap <=? pos)%nat then None
    else Some ((Z.to_nat (nth pos coap 0%Z) + 13)%nat, S pos)
  else if nibble =? 14 then
    if (length coap <=? pos + 1)%nat then None
    else Some ((Z.to_nat (u16_at coap pos) + 269)%nat, (pos + 2)%nat)
  else None.

(** The option walk.  [coap] is the concatenation of the fixed header and the
    residue tail, which the code reads through the closure [byte]. *)
Fixpoint oscore_walk (fuel : nat) (coap : bytes) (pos opt_num : nat) (oscore_found : bool) : option bool :=
  match fuel with
  | O => None
  | S fuel =>
      if (length coap <=? pos)%nat then Some oscore_found
      else
        let b := nth pos coap 0 in
        if b =? 0xFF then Some (oscore_found && (pos + 1 <? length coap)%nat)
        else
          match opt_ext coap (Z.land (Z.shiftr b 4) 0x0F) (S pos) with
          | None => Some false
          | Some (delta, pos) =>
              match opt_ext coap (Z.land b 0x0F) pos with
              | None => Some false
              | Some (len, pos) =>
                  let opt_num := (opt_num + delta)%nat in
                  let stop := (pos + len)%nat in
                  if (length coap <? stop)%nat then Some false
                  else if (opt_num =? 9)%nat then
                    if oscore_found then Some false
                    else if (255 <? stop - pos)%nat then Some false
                    else if negb (valid_oscore_option (slice pos stop coap)) then Some false
                    else oscore_walk fuel coap stop opt_num true
                  else oscore_walk fuel coap stop opt_num oscore_found
              end
          end
  end.

Definition has_oscore_option_parts (head tail : bytes) : bool :=
  let coap := head ++ tail in
  let tkl := Z.to_nat (Z.land (nth 0 coap 0) 0x0F) in
  if (8 <? tkl)%nat then false
  else
    let pos := (length head + tkl)%nat in
    if (length coap <? pos)%nat then false
    else default false (oscore_walk (S (length coap)) coap pos 0 false).

Definition has_oscore_option (coap : bytes) : bool :=
  if (length coap <? 4)%nat then false
  else has_oscore_option_parts (slice 0 4 coap) (drop 4 coap).

(** ** The checksum as a sum modulo 65535 *)

(** The one's-complement representative of a sum: 0 only for 0. *)
Definition cs (x : Z) : Z := if x =? 0 then 0 else (x - 1) mod 65535 + 1.

(** Sum of the big-endian words of a byte string, and the odd byte left. *)
Fixpoint words (l : bytes) : Z * option Z :=
  match l with
  | a :: b :: l => (a * 256 + b + (words l).1, (words l).2)
  | [a] => (0, Some a)
  | [] => (0, None)
  end.

(** The sum with the odd byte as a high byte. *)
Definition wsum (l : bytes) : Z := (words l).1 + match (words l).2 with Some a => a * 256 | None => 0 end.

Lemma pair_ind {A} (P : list A -> Prop) :
  P [] -> (forall a, P [a]) -> (forall a b l, P l -> P (a :: b :: l)) -> forall l, P l.
Proof.
  intros H0 H1 H2. assert (forall l, P l /\ forall a, P (a :: l)) as H.
  { induction l as [|a l [IHl IHa]]; [by split |]. split; [apply IHa |]. intros b. by apply H2. }
  intros l. apply H.
Qed.

Lemma cs_bound x : 0 <= x -> 0 <= cs x <= 65535.
Proof.
  unfold cs. intros H. destruct (x =? 0); [lia |].
  pose proof (Z.mod_pos_bound (x - 1) 65535). lia.
Qed.

Lemma cs_small x : 0 <= x <= 65535 -> cs x = x.
Proof.
  unfold cs. intros H. destruct (x =? 0) eqn:E; bool_to_prop; [done |].
  rewrite Z.mod_small by lia. lia.
Qed.

(** Every positive sum is its representative plus a multiple of 65535. *)
Lemma cs_spec x : 0 < x -> exists q, 0 <= q /\ x = 65535 * q + cs x /\ 1 <= cs x <= 65535.
Proof.
  intros H. unfold cs. rewrite (proj2 (Z.eqb_neq _ _)) by lia.
  exists ((x - 1) / 65535). pose proof (Z.div_mod (x - 1) 65535 ltac:(lia)).
  pose proof (Z.mod_pos_bound (x - 1) 65535). split; [apply Z.div_pos; lia |]. lia.
Qed.

Lemma cs_unique x q r : 0 <= q -> x = 65535 * q + r -> 1 <= r <= 65535 -> cs x = r.
Proof.
  intros Hq Hx Hr. unfold cs. rewrite (proj2 (Z.eqb_neq _ _)) by lia.
  replace (x - 1) with (r - 1 + q * 65535) by lia.
  rewrite Z.mod_add, Z.mod_small by lia. lia.
Qed.

Lemma oc_add_bound a b : 0 <= a <= 65535 -> 0 <= b <= 65535 -> 0 <= oc_add a b <= 65535.
Proof.
  intros Ha Hb. unfold oc_add. rewrite (Z.land_ones _ 16), Z.shiftr_div_pow2 by lia. change (2 ^ 16) with 65536.
  pose proof (Z.div_mod (a + b) 65536). pose proof (Z.mod_pos_bound (a + b) 65536).
  destruct (_ / _ =? 0) eqn:E; bool_to_prop; cbn [negb]; lia.
Qed.

Lemma oc_add_cs x y : 0 <= x -> 0 <= y -> oc_add (cs x) (cs y) = cs (x + y).
Proof.
  intros Hx Hy.
  destruct (decide (x = 0)) as [->|]; [| destruct (decide (y = 0)) as [->|]].
  - change (cs 0) with 0. pose proof (cs_bound y Hy). unfold oc_add. rewrite Z.add_0_l.
    by rewrite Z.shiftr_div_pow2, Z.div_small by lia.
  - change (cs 0) with 0. pose proof (cs_bound x Hx). unfold oc_add. rewrite !Z.add_0_r.
    by rewrite Z.shiftr_div_pow2, Z.div_small by lia.
  - destruct (cs_spec x) as (q & Hq & E & B); [lia |]. destruct (cs_spec y) as (q' & Hq' & E' & B'); [lia |].
    set (a := cs x) in *. set (b := cs y) in *. symmetry. unfold oc_add.
    rewrite (Z.land_ones _ 16), Z.shiftr_div_pow2 by lia. change (2 ^ 16) with 65536.
    pose proof (Z.div_mod (a + b) 65536). pose proof (Z.mod_pos_bound (a + b) 65536).
    destruct (_ / _ =? 0) eqn:Eq; bool_to_prop; cbn [negb].
    + apply (cs_unique _ (q + q')); lia.
    + apply (cs_unique _ (q + q' + 1)); lia.
Qed.

Lemma oc_add_cs_small x y : 0 <= x -> 0 <= y <= 65535 -> oc_add (cs x) y = cs (x + y).
Proof. intros. rewrite <- (cs_small y) at 1 by lia. apply oc_add_cs; lia. Qed.

Lemma words_nonneg l : bytes_ok l -> 0 <= (words l).1.
Proof.
  induction l as [|a|a b l IH] using pair_ind; intros H; [done.. |].
  apply Forall_cons in H as [Ha H]. apply Forall_cons in H as [Hb H].
  specialize (IH H). cbn [words fst]. width.
Qed.

Lemma words_odd_u8 l a : bytes_ok l -> (words l).2 = Some a -> is_u8 a.
Proof.
  induction l as [|c|c b l IH] using pair_ind; intros H Ha; [done | |].
  - apply Forall_cons in H as [Hc _]. cbn in Ha. by simplify_eq.
  - apply Forall_cons in H as [_ H]. apply Forall_cons in H as [_ H]. by apply IH.
Qed.

Lemma from_be_2 a b : from_be [a; b] = a * 256 + b.
Proof. cbn. lia. Qed.

Lemma sum_pairs_spec x data :
  bytes_ok data -> 0 <= x ->
  exists r, sum_pairs (cs x) data = (cs (x + (words data).1), r) /\ head r = (words data).2 /\ (length r <= 1)%nat.
Proof.
  revert x. induction data as [|a|a b l IH] using pair_ind; intros x H Hx.
  - exists []. cbn. rewrite Z.add_0_r. split_and!; [done.. | lia].
  - exists [a]. cbn. rewrite Z.add_0_r. split_and!; [done.. | lia].
  - apply Forall_cons in H as [Ha H]. apply Forall_cons in H as [Hb H].
    pose proof (words_nonneg l H). cbn [sum_pairs].
    rewrite from_be_2, oc_add_cs_small by width.
    destruct (IH (x + (a * 256 + b)) H ltac:(width)) as (r & E & Hr). exists r.
    rewrite E. cbn [words fst snd]. split; [| done]. do 2 f_equal. lia.
Qed.

Lemma shiftl_8 a : Z.shiftl a 8 = a * 256.
Proof. by rewrite Z.shiftl_mul_pow2. Qed.

Lemma checksum_bytes_spec data : bytes_ok data -> checksum_bytes data = cs (wsum data).
Proof.
  intros H. unfold checksum_bytes, wsum. change 0 with (cs 0) at 1.
  destruct (sum_pairs_spec 0 data H ltac:(lia)) as (r & -> & Hr & Hl).
  pose proof (words_nonneg data H). pose proof (words_odd_u8 data) as Ho.
  destruct r as [|a [|? ?]]; cbn in Hr, Hl; [| | lia]; rewrite <- Hr in *.
  - by rewrite Z.add_0_r.
  - specialize (Ho a H eq_refl). rewrite shiftl_8, oc_add_cs_small by width. done.
Qed.

(** Words of a concatenation: an odd prefix lends its last byte. *)
Lemma words_app k l :
  words (k ++ l) =
  match (words k).2, l with
  | None, _ => ((words k).1 + (words l).1, (words l).2)
  | Some h, [] => words k
  | Some h, f :: l => ((words k).1 + (h * 256 + f) + (words l).1, (words l).2)
  end.
Proof.
  induction k as [|a|a b k IH] using pair_ind; cbn [app words fst snd].
  - by destruct (words l).
  - destruct l as [|f l]; [done |]. cbn [words]. by rewrite Z.add_0_l.
  - rewrite IH. destruct (words k) as [x [h|]]; cbn [fst snd]; [destruct l |]; cbn [fst snd]; f_equal; lia.
Qed.

Definition sum_state (k : bytes) : Z * option Z := (cs (words k).1, (words k).2).

Lemma sum_part_spec k part :
  bytes_ok k -> bytes_ok part -> sum_part (sum_state k) part = sum_state (k ++ part).
Proof.
  intros Hk Hp. pose proof (words_nonneg k Hk). pose proof (words_odd_u8 k) as Ho.
  unfold sum_state at 2. rewrite words_app. unfold sum_state, sum_part.
  destruct (words k) as [x [h|]] eqn:Ek; cbn [fst snd] in *.
  - specialize (Ho h Hk eq_refl). destruct part as [|f part]; [done |].
    apply Forall_cons in Hp as [Hf Hp].
    rewrite from_be_2, oc_add_cs_small by width.
    destruct (sum_pairs_spec (x + (h * 256 + f)) part Hp ltac:(width)) as (r & -> & -> & _). done.
  - destruct (sum_pairs_spec x part Hp ltac:(lia)) as (r & -> & -> & _). done.
Qed.

Lemma sum_parts_spec parts k :
  bytes_ok k -> Forall bytes_ok parts ->
  foldl sum_part (sum_state k) parts = sum_state (k ++ concat parts).
Proof.
  intros Hk H. revert k Hk. induction H as [|p parts Hp H IH]; intros k Hk; cbn [foldl concat].
  - by rewrite app_nil_r.
  - rewrite sum_part_spec by done. rewrite IH by (by apply Forall_app). by rewrite app_assoc.
Qed.

Lemma bytes_ok_concat parts : Forall bytes_ok parts -> bytes_ok (concat parts).
Proof. induction 1; cbn; [done | by apply Forall_app]. Qed.

Lemma checksum_parts_spec parts :
  Forall bytes_ok parts -> checksum_bytes_parts parts = cs (wsum (concat parts)).
Proof.
  intros H. unfold checksum_bytes_parts. change (0, None) with (sum_state []).
  rewrite sum_parts_spec by done. unfold sum_state, wsum. cbn [app].
  pose proof (bytes_ok_concat _ H) as Hc. pose proof (words_nonneg _ Hc).
  pose proof (words_odd_u8 (concat parts)) as Ho.
  destruct (words (concat parts)) as [x [h|]]; cbn [fst snd] in *; [| by rewrite Z.add_0_r].
  specialize (Ho h Hc eq_refl). by rewrite shiftl_8, oc_add_cs_small by width.
Qed.

(** The split sum is the contiguous one, as its comment claims. *)
Lemma checksum_parts_contiguous parts :
  Forall bytes_ok parts -> checksum_bytes_parts parts = checksum_bytes (concat parts).
Proof. intros H. by rewrite checksum_parts_spec, checksum_bytes_spec by (try apply bytes_ok_concat; done). Qed.

Lemma parts_len_concat parts : parts_len parts = length (concat parts).
Proof. induction parts as [|p parts IH]; [done |]. cbn. by rewrite length_app, <- IH. Qed.

(** Every UDP checksum is a function of the whole payload. *)
Lemma udp_checksum_concat src dst sp dp parts :
  Forall bytes_ok parts ->
  udp_checksum_parts src dst sp dp parts = udp_checksum src dst sp dp (concat parts).
Proof.
  intros H. unfold udp_checksum, udp_checksum_parts.
  rewrite !checksum_parts_spec by (first [done | constructor; [by apply bytes_ok_concat | done]]).
  rewrite !parts_len_concat. cbn [concat]. by rewrite app_nil_r.
Qed.

Lemma udp_checksum_ok src dst sp dp payload c :
  udp_checksum src dst sp dp payload = Ok c -> Z.of_nat (length payload) + 8 <= 65535 /\ c <> 0.
Proof.
  unfold udp_checksum, udp_checksum_parts. rewrite parts_len_concat. cbn [concat]. rewrite app_nil_r.
  destruct (65535 <? _) eqn:E; [done |]. bool_to_prop. intros Hc. apply ok_inj in Hc. split; [lia |].
  subst c. unfold ones_complement_sum.
  match goal with |- context [if ?b then _ else _] => destruct b eqn:Ec end; bool_to_prop; lia.
Qed.

Lemma udp_checksum_defined src dst sp dp payload :
  Z.of_nat (length payload) + 8 <= 65535 -> exists c, udp_checksum src dst sp dp payload = Ok c.
Proof.
  intros H. unfold udp_checksum, udp_checksum_parts. rewrite parts_len_concat. cbn [concat]. rewrite app_nil_r.
  rewrite (proj2 (Z.ltb_ge _ _)) by lia. by eexists.
Qed.

Lemma fold16_small n x : 0 <= x <= 65535 -> fold16 n x = x.
Proof.
  intros H. destruct n; [done |]. cbn [fold16]. by rewrite Z.shiftr_div_pow2, Z.div_small by lia.
Qed.

Lemma ones_complement_sum_cs x :
  0 <= x -> ones_complement_sum (cs x) = if cs x =? 65535 then 65535 else 65535 - cs x.
Proof.
  intros H. pose proof (cs_bound x H). unfold ones_complement_sum.
  rewrite fold16_small by lia. unfold wrap16. rewrite Z.mod_small by lia.
  destruct (cs x =? 65535) eqn:E; bool_to_prop.
  - by rewrite E.
  - by rewrite (proj2 (Z.eqb_neq _ _)) by lia.
Qed.

Lemma ones_complement_u16 x : 0 <= x -> 1 <= ones_complement_sum (cs x) <= 65535 \/ cs x = 0.
Proof.
  intros H. pose proof (cs_bound x H). rewrite ones_complement_sum_cs by done.
  destruct (cs x =? 65535) eqn:E; bool_to_prop; lia.
Qed.

(** The pseudo-header's sum. *)
Lemma pseudo_sum_spec src dst nh len :
  bytes_ok src -> bytes_ok dst -> 0 <= nh <= 65535 -> 0 <= len <= 65535 ->
  pseudo_sum src dst nh len = cs ((words src).1 + (words dst).1 + len + nh).
Proof.
  intros Hs Hd Hn Hl. unfold pseudo_sum. change 0 with (cs 0) at 1.
  pose proof (words_nonneg _ Hs). pose proof (words_nonneg _ Hd).
  destruct (sum_pairs_spec 0 src Hs ltac:(lia)) as (r & -> & _). cbn [fst].
  destruct (sum_pairs_spec (0 + (words src).1) dst Hd ltac:(lia)) as (r' & -> & _). cbn [fst].
  rewrite Z.add_0_l. by rewrite !oc_add_cs_small by lia.
Qed.

(** The sum an ICMPv6 checksum covers. *)
Definition icmp_total (src dst icmpv6 : bytes) : Z :=
  (words src).1 + (words dst).1 + Z.of_nat (length icmpv6) + 58 + wsum icmpv6.

Lemma wsum_nonneg l : bytes_ok l -> 0 <= wsum l.
Proof.
  intros H. unfold wsum. pose proof (words_nonneg l H). pose proof (words_odd_u8 l).
  destruct (words l).2 as [a|]; [specialize (H1 a H eq_refl) |]; width.
Qed.

Lemma icmp_total_pos src dst l :
  bytes_ok src -> bytes_ok dst -> bytes_ok l -> 58 <= icmp_total src dst l.
Proof.
  intros Hs Hd H. unfold icmp_total. pose proof (words_nonneg _ Hs). pose proof (words_nonneg _ Hd).
  pose proof (wsum_nonneg l H). lia.
Qed.

Lemma icmp_parts_spec src dst parts :
  bytes_ok src -> bytes_ok dst -> Forall bytes_ok parts -> Z.of_nat (length (concat parts)) <= 65535 ->
  icmpv6_checksum_parts src dst parts = ones_complement_sum (cs (icmp_total src dst (concat parts))).
Proof.
  intros Hs Hd H Hl. unfold icmpv6_checksum_parts, icmp_total. rewrite parts_len_concat.
  unfold wrap16. rewrite Z.mod_small by lia.
  rewrite pseudo_sum_spec, checksum_parts_spec by (done || lia).
  pose proof (words_nonneg _ Hs). pose proof (words_nonneg _ Hd).
  rewrite oc_add_cs; [done | lia |]. by apply wsum_nonneg, bytes_ok_concat.
Qed.

Lemma icmp_valid_spec src dst l :
  bytes_ok src -> bytes_ok dst -> bytes_ok l -> (4 <= length l)%nat -> Z.of_nat (length l) <= 65535 ->
  icmpv6_checksum_valid src dst l = true <-> cs (icmp_total src dst l) = 65535.
Proof.
  intros Hs Hd H Hl4 Hl. unfold icmpv6_checksum_valid, icmp_total.
  rewrite (proj2 (Nat.ltb_ge _ _)) by lia. unfold wrap16. rewrite (Z.mod_small (Z.of_nat _)) by lia.
  rewrite pseudo_sum_spec, checksum_bytes_spec by (done || lia).
  pose proof (words_nonneg _ Hs). pose proof (words_nonneg _ Hd). pose proof (wsum_nonneg _ H).
  rewrite oc_add_cs by lia. rewrite fold16_small by (apply cs_bound; lia).
  match goal with |- context [cs ?x] => pose proof (cs_bound x ltac:(lia)) end.
  rewrite Z.mod_small by lia. by rewrite Z.eqb_eq.
Qed.

Lemma icmp_total_field src dst t c k1 k2 rest :
  icmp_total src dst (t :: c :: k1 :: k2 :: rest) =
  icmp_total src dst (t :: c :: 0 :: 0 :: rest) + from_be [k1; k2].
Proof. unfold icmp_total, wsum. cbn [words fst snd length]. rewrite from_be_2. lia. Qed.

(** The checksum recomputed over a zero field is the one a valid message
    carries, except that the valid all-zeros form comes back as all ones. *)
Lemma icmp_checksum_restored src dst t c k1 k2 rest :
  bytes_ok src -> bytes_ok dst -> bytes_ok (t :: c :: k1 :: k2 :: rest) ->
  Z.of_nat (length rest) + 4 <= 65535 ->
  icmpv6_checksum_valid src dst (t :: c :: k1 :: k2 :: rest) = true ->
  let z := ones_complement_sum (cs (icmp_total src dst (t :: c :: 0 :: 0 :: rest))) in
  z = from_be [k1; k2] \/ (from_be [k1; k2] = 0 /\ z = 65535).
Proof.
  intros Hs Hd H Hl Hv. rewrite icmp_valid_spec in Hv by (done || (cbn [length]; lia)).
  rewrite icmp_total_field in Hv.
  inversion_clear H as [| ? ? Ht H1]. inversion_clear H1 as [| ? ? Hc H2].
  inversion_clear H2 as [| ? ? Hk1 H3]. inversion_clear H3 as [| ? ? Hk2 Hr].
  pose proof (icmp_total_pos src dst (t :: c :: 0 :: 0 :: rest) Hs Hd ltac:(repeat (apply Forall_cons; split; [done |]); done)) as Hp.
  set (T := icmp_total _ _ _) in *. pose proof (from_be_u16 _ _ Hk1 Hk2) as Hk.
  set (k := from_be [k1; k2]) in *. cbn zeta. rewrite ones_complement_sum_cs by lia.
  destruct (cs_spec T ltac:(lia)) as (q & Hq & E & B).
  destruct (cs_spec (T + k) ltac:(width)) as (q' & Hq' & E' & B').
  destruct (cs T =? 65535) eqn:Ez; bool_to_prop; unfold is_u16, u16_max in Hk.
  - destruct (decide (k = 0)); [right; done | left].
    assert (q' = q + 1) by nia. lia.
  - left. assert (q' = q) by nia. lia.
Qed.

Lemma icmp_checksum_computed src dst t c rest :
  bytes_ok src -> bytes_ok dst -> is_u8 t -> is_u8 c -> bytes_ok rest ->
  Z.of_nat (length rest) + 4 <= 65535 ->
  let z := ones_complement_sum (cs (icmp_total src dst (t :: c :: 0 :: 0 :: rest))) in
  1 <= z <= 65535 /\ icmpv6_checksum_valid src dst (t :: c :: to_be 2 z ++ rest) = true.
Proof.
  intros Hs Hd Ht Hc Hr Hl z.
  pose proof (icmp_total_pos src dst (t :: c :: 0 :: 0 :: rest) Hs Hd ltac:(repeat (apply Forall_cons; split; [done |]); done)) as Hp.
  set (T := icmp_total _ _ _) in *.
  destruct (cs_spec T ltac:(lia)) as (q & Hq & E & B).
  assert (z = if cs T =? 65535 then 65535 else 65535 - cs T) as Hz by (apply ones_complement_sum_cs; lia).
  assert (1 <= z <= 65535) as Hzb by (rewrite Hz; destruct (cs T =? 65535) eqn:?; bool_to_prop; lia).
  split; [done |].
  assert (to_be 2 z = [z / 256 mod 256; z mod 256]) as Etb by done.
  apply icmp_valid_spec; [done.. | | | |].
  - repeat (constructor; [done |]). apply Forall_app. split; [apply to_be_ok | done].
  - rewrite Etb. cbn [length app]. lia.
  - rewrite Etb. cbn [length app]. lia.
  - rewrite Etb. cbn [app]. rewrite icmp_total_field. fold T.
    rewrite <- Etb, from_be_to_be by (cbn; lia).
    destruct (cs T =? 65535) eqn:Ez; bool_to_prop.
    + apply (cs_unique _ (q + 1)); lia.
    + apply (cs_unique _ q); lia.
Qed.

(** ** The walks terminate *)

Lemma ext_walk_fuel fuel packet nh offset dst :
  (offset <= length packet)%nat -> (length packet - offset < fuel)%nat ->
  is_Some (ext_walk fuel packet nh offset dst).
Proof.
  revert nh offset dst. induction fuel as [|fuel IH]; intros nh offset dst Ho Hf; [lia |].
  cbn [ext_walk]. repeat case_match; bool_to_prop; try (by eexists); apply IH; lia.
Qed.

Lemma ext_headers_total packet :
  (40 <= length packet)%nat ->
  ext_walk (S (length packet)) packet (nth 6 packet 0) 40 (slice 24 40 packet) = Some (ext_headers packet).
Proof.
  intros H. unfold ext_headers.
  destruct (ext_walk_fuel (S (length packet)) packet (nth 6 packet 0) 40 (slice 24 40 packet)) as [r E]; [lia.. |].
  by rewrite E.
Qed.

Lemma opt_ext_pos coap nibble pos v p : opt_ext coap nibble pos = Some (v, p) -> (pos <= p)%nat.
Proof. unfold opt_ext. intros H0. repeat case_match; simplify_eq; lia. Qed.

Lemma oscore_walk_fuel fuel coap pos num found :
  (length coap - pos < fuel)%nat -> is_Some (oscore_walk fuel coap pos num found).
Proof.
  revert pos num found. induction fuel as [|fuel IH]; intros pos num found Hf; [lia |].
  cbn [oscore_walk].
  destruct (length coap <=? pos)%nat eqn:El; [by eexists | bool_to_prop].
  destruct (_ =? 0xFF); [by eexists |].
  destruct (opt_ext _ _ (S pos)) as [[delta p1]|] eqn:E1; [| by eexists].
  destruct (opt_ext _ _ p1) as [[len p2]|] eqn:E2; [| by eexists].
  apply opt_ext_pos in E1, E2.
  destruct (_ <? p2 + len)%nat; [by eexists |].
  destruct (_ =? 9)%nat; [| apply IH; lia].
  destruct found; [by eexists |]. destruct (255 <? _)%nat; [by eexists |].
  destruct (negb _); [by eexists | apply IH; lia].
Qed.

(** An OSCORE message has a token length the plaintext rules also require. *)
Lemma has_oscore_token coap :
  (4 <= length coap)%nat -> has_oscore_option_parts (slice 0 4 coap) (drop 4 coap) = true ->
  Z.land (nth 0 coap 0) 0x0F <= 8 /\ 4 + Z.land (nth 0 coap 0) 0x0F <= Z.of_nat (length coap).
Proof.
  intros Hl. unfold has_oscore_option_parts.
  replace (slice 0 4 coap ++ drop 4 coap) with coap
    by (unfold slice; rewrite drop_0; symmetry; apply take_drop).
  rewrite slice_length by lia.
  assert (0 <= Z.land (nth 0 coap 0) 0x0F) by (apply Z.land_nonneg; lia).
  destruct (8 <? _)%nat eqn:E1; [done |]. destruct (length coap <? _)%nat eqn:E2; [done |].
  intros _. bool_to_prop. lia.
Qed.

End SchcCheck.
Export SchcCheck.
