(* ===== verification/Schc.v ===== *)
(** * SCHC header compression (lichen-schc/src/codec.rs, third part)

    [compress] and [decompress] of the rule profile: CoAP and OSCORE over
    link-local and Yggdrasil addresses (rules 0, 1, 5, 6), ICMPv6 echo (2), RPL
    DIO and DAO (3, 4), MQTT-SN (7) and uncompressed (255).  Both take the
    caller's output buffer and return it with the result, since the code writes
    through a slice: what an error leaves in the buffer is part of the model. *)

From stdpp Require Import strings.
From S2P Require Import Prelude SchcBits SchcCheck.
Open Scope Z_scope.

Module Schc.

Definition RULE_LINK_LOCAL_COAP : Z := 0.
Definition RULE_GLOBAL_COAP : Z := 1.
Definition RULE_ICMPV6_ECHO : Z := 2.
Definition RULE_RPL_DIO : Z := 3.
Definition RULE_RPL_DAO : Z := 4.
Definition RULE_LINK_LOCAL_OSCORE : Z := 5.
Definition RULE_GLOBAL_OSCORE : Z := 6.
Definition RULE_MQTT_SN : Z := 7.
Definition RULE_UNCOMPRESSED : Z := 255.
Definition PORT_MQTT_SN : Z := 10883.
Definition COAP_PORT : Z := 5683.
Definition SCHC_FRAG_MAX_PACKET_SIZE : Z := 22554.

(** [0xFE80_0000_0000_0000_u128 << 64] *)
Definition LINK_LOCAL_PREFIX : Z := Z.shiftl 0xFE80000000000000 64.
Definition YGGDRASIL_PREFIX : Z := Z.shiftl 0x02 120.

(** An operation on the caller's output slice. *)
Abbreviation on_out := (sresult nat * bytes)%type (only parsing).

Definition too_small (needed : nat) (out : bytes) : SchcError :=
  ErrBufferTooSmall {| required := needed; provided := length out |}.
Definition profile_limit_error : SchcError := InvalidPacket "SCHC packet exceeds profile limit".
Definition above_profile (n : nat) : bool := SCHC_FRAG_MAX_PACKET_SIZE <? Z.of_nat n.

(** ** Compression, rule by rule *)

(** [packet.len() < 40 || packet[0] >> 4 != 6] *)
Definition ensure_ipv6 (packet : bytes) : sresult unit :=
  if (length packet <? 40)%nat || negb (Z.shiftr (nth 0 packet 0) 4 =? 6) then Err NoMatchingRule else Ok tt.

(** The end every rule shares: the rule byte, the residue written over the
    zero-filled rest of [out], the tail behind it. *)
Definition emit (rule_id : Z) (fields : list (Z * nat)) (tail_start : BitWriter -> nat) (needed : nat)
    (tail out : bytes) : on_out :=
  let out := <[O := rule_id]> out in
  let '(r, w) := write_all fields (bw_new (drop 1 out)) in
  let out := take 1 out ++ w.(w_buf) in
  match r with
  | Err e => (Err e, out)
  | Ok _ => (Ok needed, list_inserts (tail_start w) tail out)
  end.

(** The preflight of rules 2, 3, 4 and 7. *)
Definition preflight (needed : nat) (out : bytes) : sresult unit :=
  if (length out =? 0)%nat then Err (ErrBufferTooSmall {| required := 1; provided := 0 |})
  else if (length out <? needed)%nat then Err (too_small needed out)
  else if above_profile needed then Err profile_limit_error
  else Ok tt.

Definition class_and_flow_zero (packet : bytes) : bool := bool_decide (slice 0 4 packet = [0x60; 0; 0; 0]).

Definition compress_coap (packet out : bytes) (rule_id : Z) : on_out :=
  let attempt :=
    _ ← ensure_ipv6 packet;
    if (length packet <? 40 + 8 + 4)%nat then Err NoMatchingRule
    else if negb (class_and_flow_zero packet) then Err NoMatchingRule
    else
      let hop_limit := nth 7 packet 0 in
      let src := slice 8 24 packet in
      let dst := slice 24 40 packet in
      let udp := drop 40 packet in
      let src_port := u16_at udp 0 in
      let dst_port := u16_at udp 2 in
      let coap := drop 8 udp in
      let coap_type := Z.land (Z.shiftr (nth 0 coap 0) 4) 0x3 in
      let coap_tkl := Z.land (nth 0 coap 0) 0x0F in
      if negb (Z.shiftr (nth 0 coap 0) 6 =? 1) || (8 <? coap_tkl) ||
         (Z.of_nat (length coap) <? 4 + coap_tkl) then Err NoMatchingRule
      else
        let coap_code := nth 1 coap 0 in
        let coap_mid := u16_at coap 2 in
        let tail := drop 4 coap in
        let both_link_local := is_link_local_64 src && is_link_local_64 dst in
        let both_yggdrasil := (nth 0 src 0 =? 0x02) && (nth 0 dst 0 =? 0x02) in
        residue_len ←
          (if (rule_id =? RULE_LINK_LOCAL_COAP) || (rule_id =? RULE_LINK_LOCAL_OSCORE) then
             if both_link_local then Ok 22%nat else Err NoMatchingRule
           else if (rule_id =? RULE_GLOBAL_COAP) || (rule_id =? RULE_GLOBAL_OSCORE) then
             if both_yggdrasil then Ok 36%nat else Err NoMatchingRule
           else Err NoMatchingRule);
        let expected_msb := Z.shiftr COAP_PORT 4 in
        if negb (Z.shiftr src_port 4 =? expected_msb) || negb (Z.shiftr dst_port 4 =? expected_msb) then
          Err NoMatchingRule
        else
          let needed := (1 + residue_len + length tail)%nat in
          if (length out <? needed)%nat then Err (too_small needed out)
          else if above_profile needed then Err profile_limit_error
          else
            let addresses :=
              if (rule_id =? RULE_LINK_LOCAL_COAP) || (rule_id =? RULE_LINK_LOCAL_OSCORE) then
                [(from_be (slice 8 16 src), 64%nat); (from_be (slice 8 16 dst), 64%nat)]
              else
                [(Z.land (from_be src) (Z.shiftl 1 120 - 1), 120%nat);
                 (Z.land (from_be dst) (Z.shiftl 1 120 - 1), 120%nat)] in
            let fields := [(hop_limit, 8%nat)] ++ addresses ++
              [(Z.land src_port 0xF, 4%nat); (Z.land dst_port 0xF, 4%nat); (coap_type, 2%nat);
               (coap_tkl, 4%nat); (coap_code, 8%nat); (coap_mid, 16%nat)] in
            Ok (fields, residue_len, needed, tail) in
  match attempt with
  | Err e => (Err e, out)
  | Ok (fields, residue_len, needed, tail) =>
      emit rule_id fields (fun _ => 1 + residue_len)%nat needed tail out
  end.

Definition compress_icmpv6_echo (packet out : bytes) : on_out :=
  let attempt :=
    _ ← ensure_ipv6 packet;
    if (length packet <? 40 + 8)%nat then Err NoMatchingRule
    else
      let hop_limit := nth 7 packet 0 in
      let src := slice 8 24 packet in
      let dst := slice 24 40 packet in
      let icmp := drop 40 packet in
      let icmp_type := nth 0 icmp 0 in
      let icmp_id := u16_at icmp 4 in
      let icmp_seq := u16_at icmp 6 in
      let tail := drop 8 icmp in
      let residue_bits := (8 + 64 + 64 + 8 + 16 + 16)%nat in
      let needed := (1 + div_ceil8 residue_bits + length tail)%nat in
      _ ← preflight needed out;
      Ok ([(hop_limit, 8%nat); (from_be (slice 8 16 src), 64%nat); (from_be (slice 8 16 dst), 64%nat);
           (icmp_type, 8%nat); (icmp_id, 16%nat); (icmp_seq, 16%nat)], needed, tail) in
  match attempt with
  | Err e => (Err e, out)
  | Ok (fields, needed, tail) => emit RULE_ICMPV6_ECHO fields (fun w => 1 + byte_len w)%nat needed tail out
  end.

Definition compress_rpl_dio (packet out : bytes) : on_out :=
  let attempt :=
    _ ← ensure_ipv6 packet;
    if (length packet <? 40 + 4 + 24)%nat then Err NoMatchingRule
    else
      let hop_limit := nth 7 packet 0 in
      let src := slice 8 24 packet in
      let dst := slice 24 40 packet in
      let rpl := drop 44 packet in
      let instance := nth 0 rpl 0 in
      let version := nth 1 rpl 0 in
      let rank := u16_at rpl 2 in
      let gmop := nth 4 rpl 0 in
      let dtsn := nth 5 rpl 0 in
      if negb (nth 6 rpl 0 =? 0) || negb (nth 7 rpl 0 =? 0) then Err NoMatchingRule
      else
        let dodagid := from_be (slice 8 24 rpl) in
        let tail := drop 24 rpl in
        let residue_bits := (8 + 64 + 64 + 8 + 8 + 16 + 8 + 8 + 128)%nat in
        let needed := (1 + div_ceil8 residue_bits + length tail)%nat in
        _ ← preflight needed out;
        Ok ([(hop_limit, 8%nat); (from_be (slice 8 16 src), 64%nat); (from_be (slice 8 16 dst), 64%nat);
             (instance, 8%nat); (version, 8%nat); (rank, 16%nat); (gmop, 8%nat); (dtsn, 8%nat);
             (dodagid, 128%nat)], needed, tail) in
  match attempt with
  | Err e => (Err e, out)
  | Ok (fields, needed, tail) => emit RULE_RPL_DIO fields (fun w => 1 + byte_len w)%nat needed tail out
  end.

Definition compress_rpl_dao (packet out : bytes) : on_out :=
  let attempt :=
    _ ← ensure_ipv6 packet;
    if (length packet <? 40 + 4 + 20)%nat then Err NoMatchingRule
    else
      let hop_limit := nth 7 packet 0 in
      let src := slice 8 24 packet in
      let dst := slice 24 40 packet in
      let rpl := drop 44 packet in
      let instance := nth 0 rpl 0 in
      let kd_flags := nth 1 rpl 0 in
      if (Z.land kd_flags 0x40 =? 0) || negb (nth 2 rpl 0 =? 0) then Err NoMatchingRule
      else
        let seq := nth 3 rpl 0 in
        let dodagid := from_be (slice 4 20 rpl) in
        let tail := drop 20 rpl in
        let residue_bits := (8 + 64 + 64 + 8 + 8 + 8 + 128)%nat in
        let needed := (1 + div_ceil8 residue_bits + length tail)%nat in
        _ ← preflight needed out;
        Ok ([(hop_limit, 8%nat); (from_be (slice 8 16 src), 64%nat); (from_be (slice 8 16 dst), 64%nat);
             (instance, 8%nat); (kd_flags, 8%nat); (seq, 8%nat); (dodagid, 128%nat)], needed, tail) in
  match attempt with
  | Err e => (Err e, out)
  | Ok (fields, needed, tail) => emit RULE_RPL_DAO fields (fun w => 1 + byte_len w)%nat needed tail out
  end.

Definition compress_mqtt_sn (packet out : bytes) : on_out :=
  let attempt :=
    _ ← ensure_ipv6 packet;
    if (length packet <? 40 + 8)%nat then Err (InvalidPacket "truncated IPv6/UDP datagram")
    else if negb (nth 6 packet 0 =? 17) then Err (InvalidPacket "Rule 7 requires UDP next header")
    else
      let available_udp_len := Z.of_nat (length packet - 40) in
      if negb (u16_at packet 4 =? available_udp_len) then Err (InvalidPacket "IPv6 payload length mismatch")
      else
        let hop_limit := nth 7 packet 0 in
        let src := slice 8 24 packet in
        let dst := slice 24 40 packet in
        _ ← validate_address_policy src dst;
        let udp := drop 40 packet in
        let src_port := u16_at udp 0 in
        let dst_port := u16_at udp 2 in
        let udp_len := u16_at udp 4 in
        if (udp_len <? 8) || negb (udp_len =? available_udp_len) then Err (InvalidPacket "UDP length mismatch")
        else if negb (src_port =? PORT_MQTT_SN) && negb (dst_port =? PORT_MQTT_SN) then Err NoMatchingRule
        else
          let wire_checksum := u16_at udp 6 in
          if wire_checksum =? 0 then Err (InvalidPacket "IPv6 UDP checksum is zero")
          else
            expected_checksum ← udp_checksum src dst src_port dst_port (drop 8 udp);
            if negb (wire_checksum =? expected_checksum) then Err (InvalidPacket "IPv6 UDP checksum is invalid")
            else if negb (class_and_flow_zero packet) then Err NoMatchingRule
            else
              let other_port := if src_port =? PORT_MQTT_SN then dst_port else src_port in
              let direction := if src_port =? PORT_MQTT_SN then 0 else 1 in
              let tail := drop 8 udp in
              let link_local := is_link_local_64 src && is_link_local_64 dst in
              let residue_bits :=
                if link_local then (8 + 1 + 64 + 64 + 1 + 16)%nat else (8 + 1 + 128 + 128 + 1 + 16)%nat in
              let needed := (1 + div_ceil8 residue_bits + length tail)%nat in
              _ ← preflight needed out;
              let addresses :=
                if link_local then
                  [(0, 1%nat); (from_be (slice 8 16 src), 64%nat); (from_be (slice 8 16 dst), 64%nat)]
                else [(1, 1%nat); (from_be src, 128%nat); (from_be dst, 128%nat)] in
              Ok ([(hop_limit, 8%nat)] ++ addresses ++ [(direction, 1%nat); (other_port, 16%nat)], needed, tail) in
  match attempt with
  | Err e => (Err e, out)
  | Ok (fields, needed, tail) => emit RULE_MQTT_SN fields (fun w => 1 + byte_len w)%nat needed tail out
  end.

(** ** Decompression, rule by rule *)

Definition write_ipv6_header (out : bytes) (payload_len next_header hop_limit : Z) (src dst : bytes) : bytes :=
  let out := list_inserts 0 [0x60; 0; 0; 0; wrap8 (Z.shiftr payload_len 8); wrap8 payload_len;
                             next_header; hop_limit] out in
  let out := list_inserts 8 src out in
  list_inserts 24 dst out.

Definition read_u8 (n : nat) : R Z := v ← read n; mret (wrap8 v).
Definition read_u16 (n : nat) : R Z := v ← read n; mret (wrap16 v).

(** [if !r.padding_is_zero()]; then the offset of the tail. *)
Definition end_residue (reason : string) : R nat := fun r =>
  if padding_is_zero r then Ok (residue_byte_end r, r) else Err (NonCanonicalResidue reason).

Definition reader_value {A} (m : sresult (A * BitReader)) : sresult A := fst <$> m.

Record CoapFields := {
  cf_hop : Z; cf_src : Z; cf_dst : Z; cf_sport : Z; cf_dport : Z;
  cf_type : Z; cf_tkl : Z; cf_code : Z; cf_mid : Z; cf_end : nat
}.

Definition read_coap (rule_id : Z) : R CoapFields :=
  hop_limit ← read_u8 8;
  addresses ←
    (if (rule_id =? RULE_LINK_LOCAL_COAP) || (rule_id =? RULE_LINK_LOCAL_OSCORE) then
       src_iid ← read 64; dst_iid ← read 64;
       mret (Z.lor LINK_LOCAL_PREFIX src_iid, Z.lor LINK_LOCAL_PREFIX dst_iid)
     else if (rule_id =? RULE_GLOBAL_COAP) || (rule_id =? RULE_GLOBAL_OSCORE) then
       src_lsb ← read 120; dst_lsb ← read 120;
       mret (Z.lor YGGDRASIL_PREFIX src_lsb, Z.lor YGGDRASIL_PREFIX dst_lsb)
     else src ← read 128; dst ← read 128; mret (src, dst));
  let COAP_PORT_MSB := Z.land 5683 0xFFF0 in
  s4 ← read_u16 4;
  d4 ← read_u16 4;
  coap_type ← read_u8 2;
  coap_tkl ← read_u8 4;
  coap_code ← read_u8 8;
  coap_mid ← read_u16 16;
  stop ← end_residue "nonzero generic rule residue padding";
  mret {| cf_hop := hop_limit; cf_src := addresses.1; cf_dst := addresses.2;
          cf_sport := Z.lor COAP_PORT_MSB s4; cf_dport := Z.lor COAP_PORT_MSB d4;
          cf_type := coap_type; cf_tkl := coap_tkl; cf_code := coap_code; cf_mid := coap_mid;
          cf_end := stop |}.

Definition decompress_coap (data out : bytes) (rule_id : Z) : on_out :=
  let attempt :=
    f ← reader_value (read_coap rule_id (br_new (drop 1 data)));
    let tail := drop (1 + f.(cf_end)) data in
    let src := to_be 16 f.(cf_src) in
    let dst := to_be 16 f.(cf_dst) in
    let coap_b0 := Z.lor (Z.lor (Z.shiftl 1 6) (wrap8 (Z.shiftl (Z.land f.(cf_type) 0x3) 4)))
                         (Z.land f.(cf_tkl) 0x0F) in
    let coap_head := [coap_b0; f.(cf_code); wrap8 (Z.shiftr f.(cf_mid) 8); wrap8 f.(cf_mid)] in
    let coap_len := (4 + length tail)%nat in
    let total_udp := (8 + coap_len)%nat in
    if 65535 <? Z.of_nat total_udp then
      Err (ErrBufferTooSmall {| required := total_udp; provided := Z.to_nat u16_max |})
    else
      let udp_len := wrap16 (Z.of_nat total_udp) in
      let total := (40 + 8 + coap_len)%nat in
      if (length out <? total)%nat then Err (too_small total out)
      else
        let has_oscore := has_oscore_option_parts coap_head tail in
        if ((rule_id =? RULE_LINK_LOCAL_OSCORE) || (rule_id =? RULE_GLOBAL_OSCORE)) && negb has_oscore then
          Err (NonCanonicalResidue "OSCORE rule does not reconstruct valid OSCORE CoAP")
        else if ((rule_id =? RULE_LINK_LOCAL_COAP) || (rule_id =? RULE_GLOBAL_COAP)) && has_oscore then
          Err (NonCanonicalResidue "plaintext CoAP rule reconstructs OSCORE content")
        else
          udp_cksum ← udp_checksum_parts src dst f.(cf_sport) f.(cf_dport) [coap_head; tail];
          let out := write_ipv6_header out udp_len 17 f.(cf_hop) src dst in
          let out := list_inserts 40 (to_be 2 f.(cf_sport)) out in
          let out := list_inserts 42 (to_be 2 f.(cf_dport)) out in
          let out := list_inserts 44 (to_be 2 udp_len) out in
          let out := list_inserts 46 (to_be 2 udp_cksum) out in
          let out := list_inserts 48 coap_head out in
          let out := list_inserts 52 tail out in
          Ok (total, out) in
  match attempt with Err e => (Err e, out) | Ok (n, out) => (Ok n, out) end.

Record EchoFields := { ef_hop : Z; ef_src : Z; ef_dst : Z; ef_type : Z; ef_id : Z; ef_seq : Z; ef_end : nat }.

Definition read_echo : R EchoFields :=
  hop_limit ← read_u8 8;
  src_iid ← read 64;
  dst_iid ← read 64;
  icmp_type ← read_u8 8;
  icmp_id ← read_u16 16;
  icmp_seq ← read_u16 16;
  if negb (icmp_type =? 128) && negb (icmp_type =? 129) then
    r_err (NonCanonicalResidue "rule 2 residue contains non-Echo ICMPv6 type")
  else
    stop ← end_residue "nonzero generic rule residue padding";
    mret {| ef_hop := hop_limit; ef_src := src_iid; ef_dst := dst_iid; ef_type := icmp_type;
            ef_id := icmp_id; ef_seq := icmp_seq; ef_end := stop |}.

Definition decompress_icmpv6_echo (data out : bytes) : on_out :=
  let attempt :=
    f ← reader_value (read_echo (br_new (drop 1 data)));
    let tail := drop (1 + f.(ef_end)) data in
    let src := to_be 16 (Z.lor LINK_LOCAL_PREFIX f.(ef_src)) in
    let dst := to_be 16 (Z.lor LINK_LOCAL_PREFIX f.(ef_dst)) in
    let icmp_len := (8 + length tail)%nat in
    let total := (40 + icmp_len)%nat in
    if (length out <? total)%nat then Err (too_small total out)
    else
      let icmp_head := [f.(ef_type); 0; 0; 0; wrap8 (Z.shiftr f.(ef_id) 8); wrap8 f.(ef_id);
                        wrap8 (Z.shiftr f.(ef_seq) 8); wrap8 f.(ef_seq)] in
      let cksum := icmpv6_checksum_parts src dst [icmp_head; tail] in
      let out := write_ipv6_header out (wrap16 (Z.of_nat icmp_len)) 58 f.(ef_hop) src dst in
      let out := list_inserts 40 [f.(ef_type); 0; wrap8 (Z.shiftr cksum 8); wrap8 cksum;
                                  wrap8 (Z.shiftr f.(ef_id) 8); wrap8 f.(ef_id);
                                  wrap8 (Z.shiftr f.(ef_seq) 8); wrap8 f.(ef_seq)] out in
      let out := list_inserts 48 tail out in
      Ok (total, out) in
  match attempt with Err e => (Err e, out) | Ok (n, out) => (Ok n, out) end.

(** What rules 3 and 4 do with the rebuilt ICMPv6 message: [icmp_head] carries a
    zero checksum, overwritten last. *)
Definition write_rpl (out icmp_head tail src dst : bytes) (hop_limit : Z) : bytes :=
  let icmp_len := (length icmp_head + length tail)%nat in
  let cksum := icmpv6_checksum_parts src dst [icmp_head; tail] in
  let out := write_ipv6_header out (wrap16 (Z.of_nat icmp_len)) 58 hop_limit src dst in
  let out := list_inserts 40 icmp_head out in
  let out := list_inserts (40 + length icmp_head) tail out in
  <[43%nat := wrap8 cksum]> (<[42%nat := wrap8 (Z.shiftr cksum 8)]> out).

Record DioFields := {
  df_hop : Z; df_src : Z; df_dst : Z; df_instance : Z; df_version : Z; df_rank : Z;
  df_gmop : Z; df_dtsn : Z; df_dodagid : Z; df_end : nat
}.

Definition read_dio : R DioFields :=
  hop_limit ← read_u8 8;
  src_iid ← read 64;
  dst_iid ← read 64;
  instance ← read_u8 8;
  version ← read_u8 8;
  rank ← read_u16 16;
  gmop ← read_u8 8;
  dtsn ← read_u8 8;
  dodagid ← read 128;
  stop ← end_residue "nonzero generic rule residue padding";
  mret {| df_hop := hop_limit; df_src := src_iid; df_dst := dst_iid; df_instance := instance;
          df_version := version; df_rank := rank; df_gmop := gmop; df_dtsn := dtsn;
          df_dodagid := dodagid; df_end := stop |}.

Definition decompress_rpl_dio (data out : bytes) : on_out :=
  let attempt :=
    f ← reader_value (read_dio (br_new (drop 1 data)));
    let tail := drop (1 + f.(df_end)) data in
    let src := to_be 16 (Z.lor LINK_LOCAL_PREFIX f.(df_src)) in
    let dst := to_be 16 (Z.lor LINK_LOCAL_PREFIX f.(df_dst)) in
    let rpl_body_len := (24 + length tail)%nat in
    let icmp_len := (4 + rpl_body_len)%nat in
    let total := (40 + icmp_len)%nat in
    if (length out <? total)%nat then Err (too_small total out)
    else
      let icmp_head := [155; 1; 0; 0; f.(df_instance); f.(df_version);
                        wrap8 (Z.shiftr f.(df_rank) 8); wrap8 f.(df_rank);
                        f.(df_gmop); f.(df_dtsn); 0; 0] ++ to_be 16 f.(df_dodagid) in
      Ok (total, write_rpl out icmp_head tail src dst f.(df_hop)) in
  match attempt with Err e => (Err e, out) | Ok (n, out) => (Ok n, out) end.

Record DaoFields := {
  af_hop : Z; af_src : Z; af_dst : Z; af_instance : Z; af_kd_flags : Z; af_seq : Z;
  af_dodagid : Z; af_end : nat
}.

Definition read_dao : R DaoFields :=
  hop_limit ← read_u8 8;
  src_iid ← read 64;
  dst_iid ← read 64;
  instance ← read_u8 8;
  kd_flags ← read_u8 8;
  seq ← read_u8 8;
  dodagid ← read 128;
  if Z.land kd_flags 0x40 =? 0 then
    r_err (NonCanonicalResidue "rule 4 residue lacks required D flag in kd_flags")
  else
    stop ← end_residue "nonzero generic rule residue padding";
    mret {| af_hop := hop_limit; af_src := src_iid; af_dst := dst_iid; af_instance := instance;
            af_kd_flags := kd_flags; af_seq := seq; af_dodagid := dodagid; af_end := stop |}.

Definition decompress_rpl_dao (data out : bytes) : on_out :=
  let attempt :=
    f ← reader_value (read_dao (br_new (drop 1 data)));
    let tail := drop (1 + f.(af_end)) data in
    let src := to_be 16 (Z.lor LINK_LOCAL_PREFIX f.(af_src)) in
    let dst := to_be 16 (Z.lor LINK_LOCAL_PREFIX f.(af_dst)) in
    let rpl_body_len := (20 + length tail)%nat in
    let icmp_len := (4 + rpl_body_len)%nat in
    let total := (40 + icmp_len)%nat in
    if (length out <? total)%nat then Err (too_small total out)
    else
      let icmp_head := [155; 2; 0; 0; f.(af_instance); f.(af_kd_flags); 0; f.(af_seq)] ++
                       to_be 16 f.(af_dodagid) in
      Ok (total, write_rpl out icmp_head tail src dst f.(af_hop)) in
  match attempt with Err e => (Err e, out) | Ok (n, out) => (Ok n, out) end.

Record MqttFields := { mf_hop : Z; mf_src : bytes; mf_dst : bytes; mf_direction : Z; mf_port : Z; mf_end : nat }.

Definition read_mqtt_sn : R MqttFields :=
  hop_limit ← read_u8 8;
  addr_mode ← read_u8 1;
  addresses ←
    (if addr_mode =? 0 then
       src_iid ← read 64; dst_iid ← read 64;
       mret (to_be 16 (Z.lor LINK_LOCAL_PREFIX src_iid), to_be 16 (Z.lor LINK_LOCAL_PREFIX dst_iid))
     else
       src_int ← read 128; dst_int ← read 128; mret (to_be 16 src_int, to_be 16 dst_int));
  let '(src, dst) := addresses in
  _ ← r_lift (validate_address_policy src dst);
  if (addr_mode =? 1) && is_link_local_64 src && is_link_local_64 dst then
    r_err (NonCanonicalResidue "full-address mode used for two fe80::/64 addresses")
  else
    direction ← read_u8 1;
    other_port ← read_u16 16;
    if (direction =? 1) && (other_port =? PORT_MQTT_SN) then
      r_err (NonCanonicalResidue "both MQTT-SN ports require direction zero")
    else
      stop ← end_residue "nonzero Rule 7 residue padding";
      mret {| mf_hop := hop_limit; mf_src := src; mf_dst := dst; mf_direction := direction;
              mf_port := other_port; mf_end := stop |}.

Definition decompress_mqtt_sn (data out : bytes) (rule_id : Z) : on_out :=
  let attempt :=
    if (length data =? 0)%nat || negb (nth 0 data 0 =? rule_id) then Err NoMatchingRule
    else
      f ← reader_value (read_mqtt_sn (br_new (drop 1 data)));
      let src := f.(mf_src) in
      let dst := f.(mf_dst) in
      let src_port := if f.(mf_direction) =? 0 then PORT_MQTT_SN else f.(mf_port) in
      let dst_port := if f.(mf_direction) =? 0 then f.(mf_port) else PORT_MQTT_SN in
      let tail := drop (1 + f.(mf_end)) data in
      let total_len := (8 + length tail)%nat in
      if 65535 <? Z.of_nat total_len then
        Err (ErrBufferTooSmall {| required := total_len; provided := Z.to_nat u16_max |})
      else
        let udp_len := wrap16 (Z.of_nat total_len) in
        udp_cksum ← udp_checksum src dst src_port dst_port tail;
        let total := (40 + 8 + length tail)%nat in
        if (length out <? total)%nat then Err (too_small total out)
        else
          let out := write_ipv6_header out udp_len 17 f.(mf_hop) src dst in
          let out := list_inserts 40 (to_be 2 src_port) out in
          let out := list_inserts 42 (to_be 2 dst_port) out in
          let out := list_inserts 44 (to_be 2 udp_len) out in
          let out := list_inserts 46 (to_be 2 udp_cksum) out in
          let out := list_inserts 48 tail out in
          Ok (total, out) in
  match attempt with Err e => (Err e, out) | Ok (n, out) => (Ok n, out) end.

(** ** Rule 255 and the dispatchers *)

(** [single_frame_limit.min(SCHC_FRAG_MAX_PACKET_SIZE)]; [None] is [usize::MAX]. *)
Definition profile_limit (single_frame_limit : option Z) : Z :=
  match single_frame_limit with
  | Some l => Z.min l SCHC_FRAG_MAX_PACKET_SIZE
  | None => SCHC_FRAG_MAX_PACKET_SIZE
  end.

Definition encode_rule255 (packet out : bytes) (single_frame_limit : option Z) : on_out :=
  match validate_full_ipv6 packet with
  | Err e => (Err e, out)
  | Ok _ =>
      let needed := (length packet + 1)%nat in
      if (length out <? needed)%nat then (Err (too_small needed out), out)
      else if profile_limit single_frame_limit <? Z.of_nat needed then
        (Err (InvalidPacket "Rule 255 raw IPv6 packet exceeds profile single-frame limit"), out)
      else (Ok needed, list_inserts 1 packet (<[O := RULE_UNCOMPRESSED]> out))
  end.

Definition decode_rule255 (data out : bytes) (single_frame_limit : option Z) : on_out :=
  if negb (bool_decide (head data = Some RULE_UNCOMPRESSED)) then
    (Err (InvalidPacket "version mismatch accepts Rule 255 only"), out)
  else if profile_limit single_frame_limit <? Z.of_nat (length data) then
    (Err (InvalidPacket "Rule 255 packet exceeds profile single-frame limit"), out)
  else
    let packet := drop 1 data in
    match validate_full_ipv6_structure packet with
    | Err e => (Err e, out)
    | Ok _ =>
        if (length out <? length packet)%nat then (Err (too_small (length packet) out), out)
        else (Ok (length packet), list_inserts 0 packet out)
    end.

Definition enforce_encoded_profile_limit (n : nat) : sresult nat :=
  if above_profile n then Err profile_limit_error else Ok n.

(** [match compress_x(packet, out) { Ok(n) => return enforce..(n), Err(NoMatchingRule) => {},
    Err(error) => return Err(error) }], continuing with [next]. *)
Definition try_rule (attempt : on_out) (next : bytes -> on_out) : on_out :=
  match attempt with
  | (Ok n, out) => (enforce_encoded_profile_limit n, out)
  | (Err NoMatchingRule, out) => next out
  | (Err e, out) => (Err e, out)
  end.

Definition compress (packet out : bytes) : on_out :=
  if above_profile (length packet) then (Err profile_limit_error, out)
  else
    match validate_full_ipv6 packet with
    | Err e => (Err e, out)
    | Ok _ =>
        let fallback out := encode_rule255 packet out None in
        if negb (class_and_flow_zero packet) then fallback out
        else
          let nh := nth 6 packet 0 in
          let src := slice 8 24 packet in
          let dst := slice 24 40 packet in
          if (nh =? 17) && (48 <=? length packet)%nat then
            let src_port := u16_at packet 40 in
            let dst_port := u16_at packet 42 in
            let coap_rules out :=
              let coap := drop 48 packet in
              let is_oscore := (52 <=? length packet)%nat && has_oscore_option coap in
              let global out :=
                let rule := if is_oscore then RULE_GLOBAL_OSCORE else RULE_GLOBAL_COAP in
                try_rule (compress_coap packet out rule) fallback in
              if is_link_local_64 src && is_link_local_64 dst then
                let rule := if is_oscore then RULE_LINK_LOCAL_OSCORE else RULE_LINK_LOCAL_COAP in
                try_rule (compress_coap packet out rule) global
              else global out in
            if (src_port =? PORT_MQTT_SN) || (dst_port =? PORT_MQTT_SN) then
              try_rule (compress_mqtt_sn packet out) coap_rules
            else coap_rules out
          else if (nh =? 58) && (40 + 4 <=? length packet)%nat then
            let icmpv6 := drop 40 packet in
            if negb (icmpv6_checksum_valid src dst icmpv6) then fallback out
            else
              let icmp_type := nth 40 packet 0 in
              let icmp_code := nth 41 packet 0 in
              let both_link_local := is_link_local_64 src && is_link_local_64 dst in
              if ((icmp_type =? 128) || (icmp_type =? 129)) && (icmp_code =? 0) && both_link_local &&
                 (40 + 8 <=? length packet)%nat
              then try_rule (compress_icmpv6_echo packet out) fallback
              else if (icmp_type =? 155) && both_link_local then
                if (icmp_code =? 1) && (40 + 4 + 24 <=? length packet)%nat then
                  try_rule (compress_rpl_dio packet out) fallback
                else if (icmp_code =? 2) && (40 + 4 + 20 <=? length packet)%nat then
                  if negb (Z.land (nth 45 packet 0) 0x40 =? 0) then
                    try_rule (compress_rpl_dao packet out) fallback
                  else fallback out
                else fallback out
              else fallback out
          else fallback out
    end.

Definition decompress (data out : bytes) : on_out :=
  match data with
  | [] => (Err (ErrTooShort {| expected := 1; actual := 0 |}), out)
  | id :: _ =>
      if above_profile (length data) then (Err profile_limit_error, out)
      else if id =? RULE_LINK_LOCAL_COAP then decompress_coap data out RULE_LINK_LOCAL_COAP
      else if id =? RULE_GLOBAL_COAP then decompress_coap data out RULE_GLOBAL_COAP
      else if id =? RULE_ICMPV6_ECHO then decompress_icmpv6_echo data out
      else if id =? RULE_RPL_DIO then decompress_rpl_dio data out
      else if id =? RULE_RPL_DAO then decompress_rpl_dao data out
      else if id =? RULE_LINK_LOCAL_OSCORE then decompress_coap data out RULE_LINK_LOCAL_OSCORE
      else if id =? RULE_GLOBAL_OSCORE then decompress_coap data out RULE_GLOBAL_OSCORE
      else if id =? RULE_MQTT_SN then decompress_mqtt_sn data out RULE_MQTT_SN
      else if id =? RULE_UNCOMPRESSED then decode_rule255 data out None
      else (Err (UnknownRuleId id), out)
  end.

End Schc.
Export Schc.
