(* ===== verification/SchcSpec.v ===== *)
(** * SCHC header compression: packets, residues and the two directions

    Packets in terms of the fields the rules send, and what each rule's
    compressor and decompressor do with them. *)

From stdpp Require Import strings.
From S2P Require Import Prelude SchcBits SchcCheck Schc.
Open Scope Z_scope.

(** ** Packets by field *)

Definition ip6 (nh hop : Z) (src dst payload : bytes) : bytes :=
  [0x60; 0; 0; 0] ++ to_be 2 (Z.of_nat (length payload)) ++ [nh; hop] ++ src ++ dst ++ payload.

Definition udp (sp dp ck : Z) (body : bytes) : bytes :=
  to_be 2 sp ++ to_be 2 dp ++ to_be 2 (8 + Z.of_nat (length body)) ++ to_be 2 ck ++ body.

Lemma to_be_2 x : to_be 2 x = [x / 256 mod 256; x mod 256].
Proof. done. Qed.

Lemma to_be_2_shift x : [wrap8 (Z.shiftr x 8); wrap8 x] = to_be 2 x.
Proof. unfold wrap8. by rewrite Z.shiftr_div_pow2. Qed.

Lemma length_16 {A} (l : list A) :
  length l = 16%nat ->
  exists a0 a1 a2 a3 a4 a5 a6 a7 a8 a9 a10 a11 a12 a13 a14 a15,
    l = [a0; a1; a2; a3; a4; a5; a6; a7; a8; a9; a10; a11; a12; a13; a14; a15].
Proof. intros H. do 16 (destruct l as [|? l]; [done |]). destruct l; [| done]. by repeat eexists. Qed.

Section ip6_fields.
Context (nh hop : Z) (src dst payload : bytes).
Hypothesis (Hs : length src = 16%nat) (Hd : length dst = 16%nat).
Hypothesis (Hp : Z.of_nat (length payload) <= 65535).

Ltac open_addresses :=
  destruct (length_16 _ Hs) as (?&?&?&?&?&?&?&?&?&?&?&?&?&?&?&?&->);
  destruct (length_16 _ Hd) as (?&?&?&?&?&?&?&?&?&?&?&?&?&?&?&?&->).

Lemma ip6_length : length (ip6 nh hop src dst payload) = (40 + length payload)%nat.
Proof using Hs Hd. clear Hp. unfold ip6. rewrite !length_app, Hs, Hd. cbn [length]. rewrite length_to_be. lia. Qed.
Lemma ip6_nh : nth 6 (ip6 nh hop src dst payload) 0 = nh.
Proof using. done. Qed.
Lemma ip6_hop : nth 7 (ip6 nh hop src dst payload) 0 = hop.
Proof using. done. Qed.
Lemma ip6_flow : class_and_flow_zero (ip6 nh hop src dst payload) = true.
Proof using. done. Qed.
Lemma ip6_src : slice 8 24 (ip6 nh hop src dst payload) = src.
Proof using Hs. destruct (length_16 _ Hs) as (?&?&?&?&?&?&?&?&?&?&?&?&?&?&?&?&->). reflexivity. Qed.
Lemma ip6_dst : slice 24 40 (ip6 nh hop src dst payload) = dst.
Proof using Hs Hd. open_addresses. reflexivity. Qed.
Lemma ip6_payload : drop 40 (ip6 nh hop src dst payload) = payload.
Proof using Hs Hd. open_addresses. reflexivity. Qed.
Lemma ip6_len : u16_at (ip6 nh hop src dst payload) 4 = Z.of_nat (length payload).
Proof using Hp.
  clear Hs Hd.
  change (u16_at _ 4) with (from_be (to_be 2 (Z.of_nat (length payload)))).
  apply from_be_to_be. cbn. lia.
Qed.
Lemma ip6_ensure : ensure_ipv6 (ip6 nh hop src dst payload) = Ok tt.
Proof using Hs Hd. clear Hp. unfold ensure_ipv6. rewrite ip6_length. by rewrite (proj2 (Nat.ltb_ge _ _)) by lia. Qed.
End ip6_fields.

(** Every packet of the profile whose class and flow label are zero. *)
Lemma ip6_inv p :
  bytes_ok p -> (40 <= length p)%nat -> class_and_flow_zero p = true ->
  Z.of_nat (length p) = 40 + u16_at p 4 ->
  p = ip6 (nth 6 p 0) (nth 7 p 0) (slice 8 24 p) (slice 24 40 p) (drop 40 p).
Proof.
  intros Hok Hl Hc Hlen. unfold class_and_flow_zero in Hc. apply bool_decide_eq_true in Hc.
  unfold ip6. rewrite length_drop.
  assert (to_be 2 (Z.of_nat (length p - 40)) = slice 4 6 p) as ->.
  { replace (Z.of_nat (length p - 40)) with (u16_at p 4) by lia. unfold u16_at.
    do 6 (destruct p as [|? p]; [cbn in Hl; lia |]). apply to_be_from_be_u16; cbn [nth].
    - do 4 (apply Forall_cons in Hok as [_ Hok]). by apply Forall_cons in Hok as [? _].
    - do 5 (apply Forall_cons in Hok as [_ Hok]). by apply Forall_cons in Hok as [? _]. }
  rewrite <- Hc.
  assert ([nth 6 p 0; nth 7 p 0] = slice 6 8 p) as ->.
  { do 8 (destruct p as [|? p]; [cbn in Hl; lia |]). done. }
  assert (drop 40 p = slice 40 (length p) p) as ->.
  { unfold slice. symmetry. apply take_ge. by rewrite length_drop. }
  rewrite (slice_split 24 40), (slice_split 8 24), (slice_split 6 8), (slice_split 4 6), (slice_split 0 4) by lia.
  by rewrite slice_full.
Qed.

Section udp_fields.
Context (sp dp ck : Z) (body : bytes).
Lemma udp_length : length (udp sp dp ck body) = (8 + length body)%nat.
Proof using. unfold udp. rewrite !length_app, !length_to_be. lia. Qed.
Lemma udp_sport : is_u16 sp -> u16_at (udp sp dp ck body) 0 = sp.
Proof using. exact (from_be_to_be_u16 sp). Qed.
Lemma udp_dport : is_u16 dp -> u16_at (udp sp dp ck body) 2 = dp.
Proof using. exact (from_be_to_be_u16 dp). Qed.
Lemma udp_len : 8 + Z.of_nat (length body) <= 65535 -> u16_at (udp sp dp ck body) 4 = 8 + Z.of_nat (length body).
Proof using. intros H. apply (from_be_to_be_u16 (8 + Z.of_nat (length body))). width. Qed.
Lemma udp_cksum : is_u16 ck -> u16_at (udp sp dp ck body) 6 = ck.
Proof using. exact (from_be_to_be_u16 ck). Qed.
Lemma udp_body : drop 8 (udp sp dp ck body) = body.
Proof using. done. Qed.
End udp_fields.

Lemma udp_inv u :
  bytes_ok u -> (8 <= length u)%nat -> u16_at u 4 = Z.of_nat (length u) ->
  u = udp (u16_at u 0) (u16_at u 2) (u16_at u 6) (drop 8 u).
Proof.
  intros Hok Hl Hlen. unfold udp. replace (8 + Z.of_nat (length (drop 8 u))) with (u16_at u 4).
  2:{ rewrite length_drop. lia. }
  do 8 (destruct u as [|? u]; [cbn in Hl; lia |]).
  do 8 (let H := fresh "Hb" in apply Forall_cons in Hok as [H Hok]).
  unfold u16_at. cbn [nth drop]. rewrite !to_be_from_be_u16 by done. done.
Qed.

(** ** Writing the residue *)

Lemma emit_ok rule_id fields tail_start needed tail out k :
  k = div_ceil8 (length (field_bits fields)) ->
  needed = (1 + k + length tail)%nat -> (needed <= length out)%nat ->
  (forall w, byte_len w = k -> tail_start w = (1 + k)%nat) ->
  exists body, encodes body (field_bits fields) /\
    emit rule_id fields tail_start needed tail out =
    (Ok needed, (rule_id :: body ++ tail) ++ replicate (length out - needed) 0).
Proof.
  intros Hk Hn Hout Hts. destruct out as [|o out]; [cbn in Hout; lia |]. unfold emit. cbn [length] in Hout.
  pose proof (div_ceil8_spec (length (field_bits fields))) as Hc.
  assert (length (w_buf (bw_new out)) = length out) as Hlb by (cbn; apply length_replicate).
  destruct (write_all_wrote fields (bw_new out) [] (bw_new_wrote out)) as (w & E & Hw & Hl).
  { rewrite Hlb. cbn [length Nat.add]. lia. }
  change (drop 1 (<[0%nat := rule_id]> (o :: out))) with out. rewrite E.
  change (take 1 (<[0%nat := rule_id]> (o :: out))) with [rule_id].
  cbn [app] in Hw. destruct (wrote_buf _ _ Hw) as (body & Hb & Hbl & ->).
  rewrite Hl, Hlb. exists body. split; [done |].
  assert (length body = k) as Hbk by (destruct Hb as (_ & -> & _); done).
  rewrite Hts by congruence. f_equal. cbn [app list_inserts].
  change ((1 + k)%nat) with (S k).
  change (rule_id :: body ++ replicate (length out - length body) 0)
    with ((rule_id :: body) ++ replicate (length out - length body) 0).
  replace (S k) with (length (rule_id :: body) + 0)%nat by (cbn; lia).
  rewrite list_inserts_app_r, inserts_front by (rewrite length_replicate; lia).
  rewrite drop_replicate. cbn [app length]. rewrite <- app_assoc. do 4 f_equal. lia.
Qed.


(** ** Reading it back *)

Definition reading (r : BitReader) (buf : bytes) (consumed : nat) (rest : list bool) : Prop :=
  r.(r_buf) = buf /\ r.(pos) = consumed /\ unread r = rest.

Lemma reading_new buf : reading (br_new buf) buf 0 (bits_of_bytes buf).
Proof. done. Qed.

Lemma bind_read {A} n v rest buf d (k : Z -> R A) r :
  reading r buf d (to_bits n v ++ rest) -> (1 <= n <= 128)%nat -> 0 <= v < 2 ^ Z.of_nat n ->
  exists r', reading r' buf (d + n) rest /\ (read n ≫= k) r = k v r'.
Proof.
  intros (Hb & Hp & Hu) Hn Hv.
  destruct (read_ok n r _ rest ltac:(lia) Hu (length_to_bits n v) ltac:(lia)) as (r' & E & Hu' & Hb' & Hp').
  exists r'. split; [split_and!; congruence |]. unfold mbind, R_bind. by rewrite E, of_to_bits.
Qed.

Lemma bind_read_u8 {A} n v rest buf d (k : Z -> R A) r :
  reading r buf d (to_bits n v ++ rest) -> (1 <= n <= 8)%nat -> 0 <= v < 2 ^ Z.of_nat n ->
  exists r', reading r' buf (d + n) rest /\ (read_u8 n ≫= k) r = k v r'.
Proof.
  intros Hr Hn Hv. destruct (bind_read n v rest buf d (fun v => mret (wrap8 v)) r Hr ltac:(lia) Hv) as (r' & Hr' & E).
  exists r'. split; [done |]. unfold mbind at 1, R_bind at 1, read_u8. rewrite E.
  cbn. rewrite wrap8_small; [done |].
  assert (2 ^ Z.of_nat n <= 2 ^ 8) by (apply Z.pow_le_mono_r; lia). width.
Qed.

Lemma bind_read_u16 {A} n v rest buf d (k : Z -> R A) r :
  reading r buf d (to_bits n v ++ rest) -> (1 <= n <= 16)%nat -> 0 <= v < 2 ^ Z.of_nat n ->
  exists r', reading r' buf (d + n) rest /\ (read_u16 n ≫= k) r = k v r'.
Proof.
  intros Hr Hn Hv. destruct (bind_read n v rest buf d (fun v => mret (wrap16 v)) r Hr ltac:(lia) Hv) as (r' & Hr' & E).
  exists r'. split; [done |]. unfold mbind at 1, R_bind at 1, read_u16. rewrite E.
  cbn. rewrite wrap16_small; [done |].
  assert (2 ^ Z.of_nat n <= 2 ^ 16) by (apply Z.pow_le_mono_r; lia). width.
Qed.

Lemma bind_end {A} reason body tail bs buf rest (k : nat -> R A) r :
  reading r buf (length bs) rest -> encodes body bs -> buf = body ++ tail ->
  (end_residue reason ≫= k) r = k (length body) r.
Proof.
  intros (Hb & Hp & _) He Ht. destruct (finish_ok body tail bs r He ltac:(congruence) Hp) as [E1 E2].
  unfold mbind, R_bind, end_residue. by rewrite E1, E2.
Qed.

(** The same reads, from their success. *)
Lemma bind_read_inv {A} n (k : Z -> R A) r buf d rest res :
  (read n ≫= k) r = Ok res -> reading r buf d rest ->
  exists v r' rest', 0 <= v < 2 ^ Z.of_nat n /\ rest = to_bits n v ++ rest' /\
    reading r' buf (d + n) rest' /\ k v r' = Ok res.
Proof.
  intros H (Hb & Hp & Hu). unfold mbind, R_bind in H. destruct (read n r) as [[v r']|] eqn:E; [| done].
  apply read_inv in E as (xs & rest' & Hu' & Hx & -> & Hr & Hb' & Hp' & _).
  exists (of_bits xs), r', rest'. rewrite <- Hx at 1. split; [apply of_bits_bound |].
  rewrite <- Hx at 1. rewrite to_of_bits. split_and!; [congruence | | done]. split_and!; congruence.
Qed.

Lemma bind_read_u8_inv {A} n (k : Z -> R A) r buf d rest res :
  (read_u8 n ≫= k) r = Ok res -> (n <= 8)%nat -> reading r buf d rest ->
  exists v r' rest', 0 <= v < 2 ^ Z.of_nat n /\ rest = to_bits n v ++ rest' /\
    reading r' buf (d + n) rest' /\ k v r' = Ok res.
Proof.
  intros H Hn Hr. unfold mbind at 1, R_bind at 1 in H.
  destruct (read_u8 n r) as [[v r']|] eqn:E; [| done].
  unfold read_u8 in E. eapply bind_read_inv in E as (v' & r'' & rest' & Hv & Hrest & Hr' & E); [| done].
  cbn in E. injection E as <- <-. rewrite wrap8_small in H.
  - by exists v', r'', rest'.
  - assert (2 ^ Z.of_nat n <= 2 ^ 8) by (apply Z.pow_le_mono_r; lia). width.
Qed.

Lemma bind_read_u16_inv {A} n (k : Z -> R A) r buf d rest res :
  (read_u16 n ≫= k) r = Ok res -> (n <= 16)%nat -> reading r buf d rest ->
  exists v r' rest', 0 <= v < 2 ^ Z.of_nat n /\ rest = to_bits n v ++ rest' /\
    reading r' buf (d + n) rest' /\ k v r' = Ok res.
Proof.
  intros H Hn Hr. unfold mbind at 1, R_bind at 1 in H.
  destruct (read_u16 n r) as [[v r']|] eqn:E; [| done].
  unfold read_u16 in E. eapply bind_read_inv in E as (v' & r'' & rest' & Hv & Hrest & Hr' & E); [| done].
  cbn in E. injection E as <- <-. rewrite wrap16_small in H.
  - by exists v', r'', rest'.
  - assert (2 ^ Z.of_nat n <= 2 ^ 16) by (apply Z.pow_le_mono_r; lia). width.
Qed.

Lemma bind_end_inv {A} reason bs buf rest (k : nat -> R A) r res :
  (end_residue reason ≫= k) r = Ok res -> bytes_ok buf -> reading r buf (length bs) rest ->
  bits_of_bytes buf = bs ++ rest ->
  exists body tail, buf = body ++ tail /\ encodes body bs /\ k (length body) r = Ok res.
Proof.
  intros H Hok (Hb & Hp & Hu) Hbits. unfold mbind, R_bind, end_residue in H.
  destruct (padding_is_zero r) eqn:Ep; [| done].
  assert ((r.(pos) <= 8 * length r.(r_buf))%nat) as Hle.
  { rewrite Hb, Hp. apply (f_equal length) in Hbits. rewrite length_bits_of_bytes, length_app in Hbits. lia. }
  destruct (finish_inv r bs) as (body & Hbuf & He & Hend); [congruence | done | done | congruence | done |].
  exists body, (drop (residue_byte_end r) r.(r_buf)). rewrite <- Hend. split_and!; congruence.
Qed.

(** ** Addresses *)

Lemma to_be_app n m x : to_be (n + m) x = to_be n (x / 256 ^ Z.of_nat m) ++ to_be m x.
Proof.
  revert x. induction m as [|m IH]; intros x.
  - rewrite Nat.add_0_r. change (256 ^ Z.of_nat 0) with 1. by rewrite Z.div_1_r, app_nil_r.
  - rewrite <- plus_n_Sm. cbn [to_be]. rewrite IH, app_assoc. do 2 f_equal.
    rewrite Nat2Z.inj_succ, Z.pow_succ_r, Z.div_div by lia. do 2 f_equal.
Qed.


Lemma to_be_mod n x : to_be n (x mod 256 ^ Z.of_nat n) = to_be n x.
Proof.
  revert x. induction n as [|n IH]; intros x; [done |]. cbn [to_be].
  rewrite Nat2Z.inj_succ, Z.pow_succ_r by lia.
  assert (0 < 256 ^ Z.of_nat n) by lia.
  rewrite Z.rem_mul_r by lia. f_equal.
  - rewrite Z.add_comm, (Z.mul_comm 256), Z.div_add_l, (Z.div_small (x mod 256)), Z.add_0_r by (try apply Z.mod_pos_bound; lia).
    apply IH.
  - rewrite Z.add_comm, (Z.mul_comm 256), Z.add_comm, Z.mod_add, Z.mod_mod by lia. done.
Qed.

(** A prefix of [16 - n] bytes over an [n]-byte suffix. *)
Lemma prefixed_addr n k x : (n + k = 16)%nat ->
  0 <= x < 256 ^ Z.of_nat k -> forall hi, to_be 16 (Z.lor (Z.shiftl hi (8 * Z.of_nat k)) x) = to_be n hi ++ to_be k x.
Proof.
  intros Hk Hx hi. assert (256 ^ Z.of_nat k = 2 ^ (8 * Z.of_nat k)) as E by (rewrite Z.pow_mul_r by lia; done).
  rewrite lor_shiftl by (rewrite <- ?E; lia). rewrite <- E, <- Hk, to_be_app.
  rewrite Z.div_add_l, (Z.div_small x), Z.add_0_r by lia. f_equal.
  rewrite <- (to_be_mod k (_ + x)), Z.add_comm, Z.mod_add, Z.mod_small by lia. done.
Qed.

Lemma ll_addr iid : 0 <= iid < 2 ^ 64 -> to_be 16 (Z.lor LINK_LOCAL_PREFIX iid) = LINK_LOCAL_64 ++ to_be 8 iid.
Proof. intros H. unfold LINK_LOCAL_PREFIX. exact (prefixed_addr 8 8 iid eq_refl H 0xFE80000000000000). Qed.

Lemma ygg_addr lsb : 0 <= lsb < 2 ^ 120 -> to_be 16 (Z.lor YGGDRASIL_PREFIX lsb) = 2 :: to_be 15 lsb.
Proof. intros H. unfold YGGDRASIL_PREFIX. exact (prefixed_addr 1 15 lsb eq_refl H 2). Qed.

(** The two compressed address forms: the bytes elided, the bits sent. *)
Definition prefix_of (ll : bool) : bytes := if ll then LINK_LOCAL_64 else [2].
Definition suffix_len (ll : bool) : nat := if ll then 8%nat else 15%nat.
Definition addr (ll : bool) (x : Z) : bytes := prefix_of ll ++ to_be (suffix_len ll) x.
Definition addr_int (ll : bool) (x : Z) : Z := Z.lor (if ll then LINK_LOCAL_PREFIX else YGGDRASIL_PREFIX) x.
Definition addr_bits (ll : bool) : nat := (8 * suffix_len ll)%nat.

Lemma addr_int_bytes ll x : 0 <= x < 2 ^ Z.of_nat (addr_bits ll) -> to_be 16 (addr_int ll x) = addr ll x.
Proof. destruct ll; [apply ll_addr | apply ygg_addr]. Qed.

Lemma addr_length ll x : length (addr ll x) = 16%nat.
Proof. by destruct ll. Qed.

Lemma addr_ok ll x : bytes_ok (addr ll x).
Proof. apply Forall_app. split; [destruct ll; by repeat constructor | apply to_be_ok]. Qed.

(** What the compressor recognises in an address, and what it sends. *)
Definition addr_form (ll : bool) (a : bytes) : bool := if ll then is_link_local_64 a else nth 0 a 0 =? 0x02.
Definition addr_sent (ll : bool) (a : bytes) : Z :=
  if ll then from_be (slice 8 16 a) else Z.land (from_be a) (Z.shiftl 1 120 - 1).

Lemma addr_sent_suffix ll a :
  bytes_ok a -> length a = 16%nat -> addr_sent ll a = from_be (slice (length (prefix_of ll)) 16 a).
Proof.
  intros Ha Hl. destruct ll; [done |]. unfold addr_sent. cbn [prefix_of length].
  destruct a as [|b a]; [done |]. change (slice 1 16 (b :: a)) with (take 15 a). injection Hl as Hl.
  rewrite take_ge by lia. apply Forall_cons in Ha as [Hb Ha].
  rewrite Z.shiftl_1_l. replace (2 ^ 120 - 1) with (Z.ones 120) by done. rewrite Z.land_ones by lia.
  change (b :: a) with ([b] ++ a).
  assert (forall l x, foldl (fun acc b => acc * 256 + b) x l = x * 256 ^ Z.of_nat (length l) + from_be l) as Hf.
  { induction l as [|c l IH] using rev_ind; intros x; [cbn; lia |].
    rewrite foldl_app, from_be_snoc, length_app, Nat2Z.inj_add, Z.pow_add_r by lia. cbn [foldl length].
    rewrite IH. change (256 ^ Z.of_nat 1) with 256. lia. }
  unfold from_be at 1. rewrite foldl_app, Hf, Hl. change (256 ^ Z.of_nat 15) with (2 ^ 120).
  rewrite Z.add_comm, Z.mod_add by lia. apply Z.mod_small.
  pose proof (from_be_bound a Ha) as Hb'. rewrite Hl in Hb'. exact Hb'.
Qed.

Lemma addr_sent_bound ll a :
  bytes_ok a -> length a = 16%nat -> 0 <= addr_sent ll a < 2 ^ Z.of_nat (addr_bits ll).
Proof.
  intros Ha Hl. rewrite addr_sent_suffix by done.
  pose proof (from_be_bound (slice (length (prefix_of ll)) 16 a) ltac:(by apply slice_Forall)) as H.
  rewrite slice_length in H by (destruct ll; cbn; lia). by destruct ll.
Qed.

Lemma addr_of_form ll a :
  bytes_ok a -> length a = 16%nat -> addr_form ll a = true -> a = addr ll (addr_sent ll a).
Proof.
  intros Ha Hl Hf. rewrite addr_sent_suffix by done. unfold addr.
  assert (suffix_len ll = length (slice (length (prefix_of ll)) 16 a)) as Hs
    by (rewrite slice_length by (destruct ll; cbn; lia); by destruct ll).
  rewrite Hs, to_be_from_be by (by apply slice_Forall).
  assert (prefix_of ll = slice 0 (length (prefix_of ll)) a) as Hp.
  { destruct ll; cbn [prefix_of length addr_form] in *.
    - unfold is_link_local_64 in Hf. apply andb_true_iff in Hf as [_ Hf]. by apply bool_decide_eq_true in Hf.
    - destruct a as [|b a]; [done |]. cbn in Hf. apply Z.eqb_eq in Hf. by subst. }
  rewrite Hp at 1. rewrite slice_split by (destruct ll; cbn; lia). rewrite <- Hl. by rewrite slice_full.
Qed.

Lemma addr_form_addr ll x : addr_form ll (addr ll x) = true.
Proof. destruct ll; reflexivity. Qed.

Lemma addr_sent_addr ll x : 0 <= x < 2 ^ Z.of_nat (addr_bits ll) -> addr_sent ll (addr ll x) = x.
Proof.
  intros H. rewrite addr_sent_suffix by (apply addr_ok || apply addr_length).
  unfold addr. replace (slice _ 16 _) with (to_be (suffix_len ll) x).
  - apply from_be_to_be. by destruct ll.
  - symmetry. replace 16%nat with (length (prefix_of ll) + suffix_len ll)%nat by (by destruct ll).
    unfold slice. rewrite drop_app_length. apply take_ge. rewrite length_to_be. lia.
Qed.

(** A link-local address is within the endpoint policy; so is a Yggdrasil one. *)
Lemma addr_policy ll x y : validate_address_policy (addr ll x) (addr ll y) = Ok tt.
Proof. destruct ll; reflexivity. Qed.

Lemma ygg_not_link_local x : is_link_local_64 (addr false x) = false.
Proof. reflexivity. Qed.

(** ** Residues, field by field *)

Lemma length_field_bits fields : length (field_bits fields) = foldr (fun f n => (f.2 + n)%nat) O fields.
Proof. induction fields as [|[v n] fields IH]; [done |]. cbn. by rewrite length_app, length_to_bits, IH. Qed.

Ltac field_bound := first [assumption | cbn; width].

(** One read whose bits are known; one read known to have succeeded. *)
Ltac read_step :=
  let step L k Hr :=
    let r' := fresh "r" in let H := fresh "Hr" in let E := fresh "E" in
    edestruct (L _ _ _ _ _ _ k _ Hr) as (r' & H & E); [lia | field_bound |];
    rewrite E; clear E Hr in
  match goal with
  | Hr : reading ?r _ _ _ |- context [(read_u8 _ ≫= ?k) ?r] => step (@bind_read_u8) k Hr
  | Hr : reading ?r _ _ _ |- context [(read_u16 _ ≫= ?k) ?r] => step (@bind_read_u16) k Hr
  | Hr : reading ?r _ _ _ |- context [(read _ ≫= ?k) ?r] => step (@bind_read) k Hr
  end.

Ltac read_step_inv H :=
  let step P Hr :=
    let v := fresh "v" in let r' := fresh "r" in let rest := fresh "rest" in
    let Hv := fresh "Hv" in let Hx := fresh "Hx" in let Hr' := fresh "Hr" in let H' := fresh "H" in
    destruct P as (v & r' & rest & Hv & Hx & Hr' & H'); clear H Hr; rename H' into H in
  match goal with
  | Hr : reading ?r _ _ _ |- _ =>
      lazymatch type of H with
      | (read_u8 _ ≫= _) r = _ => step (bind_read_u8_inv _ _ _ _ _ _ _ H ltac:(lia) Hr) Hr
      | (read_u16 _ ≫= _) r = _ => step (bind_read_u16_inv _ _ _ _ _ _ _ H ltac:(lia) Hr) Hr
      | (read _ ≫= _) r = _ => step (bind_read_inv _ _ _ _ _ _ _ H Hr) Hr
      end
  end.

(** All the fields read: the rest of the buffer is the tail. *)
Ltac read_end_inv H Hok fields :=
  match goal with
  | Hr : reading ?r ?buf ?d ?rest |- _ =>
      let Hr' := fresh in let Hb := fresh in let body := fresh "body" in let tail := fresh "tail" in
      let Hbuf := fresh "Hbuf" in let He := fresh "He" in let H' := fresh in
      assert (reading r buf (length (field_bits fields)) rest) as Hr'
        by (replace (length (field_bits fields)) with d by (rewrite length_field_bits; cbn; lia); exact Hr);
      assert (bits_of_bytes buf = field_bits fields ++ rest) as Hb
        by (match goal with E : bits_of_bytes buf = _ |- _ => rewrite E end;
            cbn -[to_bits addr_bits app]; rewrite ?app_nil_r, <- ?app_assoc; reflexivity);
      destruct (bind_end_inv _ _ _ _ _ _ _ H Hok Hr' Hb) as (body & tail & Hbuf & He & H');
      clear H Hr Hr' Hb; rename H' into H
  end.

Lemma reader_value_inv {A} (m : sresult (A * BitReader)) a : reader_value m = Ok a -> exists r, m = Ok (a, r).
Proof. destruct m as [[a' r]|]; [| done]. intros H. injection H as ->. by exists r. Qed.

Lemma encodes_reading body tail bs :
  encodes body bs -> exists rest, reading (br_new (body ++ tail)) (body ++ tail) 0 (bs ++ rest).
Proof.
  intros (_ & _ & H). eexists. pose proof (reading_new (body ++ tail)) as Hr.
  rewrite bits_of_bytes_app, H, <- app_assoc in Hr. exact Hr.
Qed.

Definition coap_rule (ll oscore : bool) : Z :=
  if ll then if oscore then RULE_LINK_LOCAL_OSCORE else RULE_LINK_LOCAL_COAP
  else if oscore then RULE_GLOBAL_OSCORE else RULE_GLOBAL_COAP.

Record CoapSent := {
  c_hop : Z; c_src : Z; c_dst : Z; c_sport : Z; c_dport : Z; c_type : Z; c_tkl : Z; c_code : Z; c_mid : Z
}.
Definition coap_sent_ok (ll : bool) (c : CoapSent) : Prop :=
  is_u8 c.(c_hop) /\ 0 <= c.(c_src) < 2 ^ Z.of_nat (addr_bits ll) /\
  0 <= c.(c_dst) < 2 ^ Z.of_nat (addr_bits ll) /\ 0 <= c.(c_sport) < 16 /\ 0 <= c.(c_dport) < 16 /\
  0 <= c.(c_type) < 4 /\ 0 <= c.(c_tkl) < 16 /\ is_u8 c.(c_code) /\ is_u16 c.(c_mid).

Definition coap_fields (ll : bool) (c : CoapSent) : list (Z * nat) :=
  [(c.(c_hop), 8%nat); (c.(c_src), addr_bits ll); (c.(c_dst), addr_bits ll); (c.(c_sport), 4%nat);
   (c.(c_dport), 4%nat); (c.(c_type), 2%nat); (c.(c_tkl), 4%nat); (c.(c_code), 8%nat); (c.(c_mid), 16%nat)].

(** Reader steps reassociate. *)
Lemma R_assoc {A B C} (m : R A) (f : A -> R B) (g : B -> R C) r :
  ((m ≫= f) ≫= g) r = (m ≫= (fun x => f x ≫= g)) r.
Proof. unfold mbind, R_bind. by destruct (m r) as [[? ?]|]. Qed.

(** [read_coap] with the address form of its rule. *)
Definition read_coap_form (ll : bool) : R CoapFields :=
  hop_limit ← read_u8 8;
  src ← read (addr_bits ll);
  dst ← read (addr_bits ll);
  s4 ← read_u16 4;
  d4 ← read_u16 4;
  coap_type ← read_u8 2;
  coap_tkl ← read_u8 4;
  coap_code ← read_u8 8;
  coap_mid ← read_u16 16;
  stop ← end_residue "nonzero generic rule residue padding";
  mret {| cf_hop := hop_limit; cf_src := addr_int ll src; cf_dst := addr_int ll dst;
          cf_sport := Z.lor 5680 s4; cf_dport := Z.lor 5680 d4;
          cf_type := coap_type; cf_tkl := coap_tkl; cf_code := coap_code; cf_mid := coap_mid;
          cf_end := stop |}.

Lemma read_coap_rule ll o r : read_coap (coap_rule ll o) r = read_coap_form ll r.
Proof.
  unfold read_coap, read_coap_form, mbind, R_bind.
  destruct (read_u8 8 r) as [[hop r1]|]; [| done].
  destruct ll, o;
    cbn [coap_rule orb Z.eqb Pos.eqb RULE_LINK_LOCAL_COAP RULE_LINK_LOCAL_OSCORE RULE_GLOBAL_COAP RULE_GLOBAL_OSCORE
         addr_bits suffix_len Nat.mul Nat.add];
    do 2 (match goal with |- context [read ?n ?r] => destruct (read n r) as [[? ?]|]; [| done] end); done.
Qed.

Definition coap_read (ll : bool) (c : CoapSent) (stop : nat) : CoapFields :=
  {| cf_hop := c.(c_hop); cf_src := addr_int ll c.(c_src); cf_dst := addr_int ll c.(c_dst);
     cf_sport := Z.lor 5680 c.(c_sport); cf_dport := Z.lor 5680 c.(c_dport);
     cf_type := c.(c_type); cf_tkl := c.(c_tkl); cf_code := c.(c_code); cf_mid := c.(c_mid);
     cf_end := stop |}.

Lemma read_coap_ok ll o c body tail :
  coap_sent_ok ll c -> encodes body (field_bits (coap_fields ll c)) ->
  reader_value (read_coap (coap_rule ll o) (br_new (body ++ tail))) = Ok (coap_read ll c (length body)).
Proof.
  intros Hc He. destruct Hc as (? & ? & ? & ? & ? & ? & ? & ? & ?).
  assert (1 <= addr_bits ll <= 128)%nat by (destruct ll; cbn; lia).
  destruct (encodes_reading body tail _ He) as (rest & Hr).
  unfold coap_fields in Hr. cbn [field_bits] in Hr. rewrite app_nil_r, <- !app_assoc in Hr.
  rewrite read_coap_rule. unfold read_coap_form.
  do 9 read_step.
  erewrite bind_end; [| | exact He | done]; [done |].
  match goal with H : reading _ _ ?a _ |- reading _ _ ?b _ => replace b with a; [exact H |] end.
  rewrite length_field_bits. cbn. lia.
Qed.

Lemma read_coap_inv ll o buf f :
  bytes_ok buf -> reader_value (read_coap (coap_rule ll o) (br_new buf)) = Ok f ->
  exists c body tail, coap_sent_ok ll c /\ encodes body (field_bits (coap_fields ll c)) /\
    buf = body ++ tail /\ f = coap_read ll c (length body).
Proof.
  intros Hok H. apply reader_value_inv in H as [r H]. rewrite read_coap_rule in H. unfold read_coap_form in H.
  pose proof (reading_new buf) as Hr.
  do 9 read_step_inv H. subst.
  set (c := {| c_hop := v; c_src := v0; c_dst := v1; c_sport := v2; c_dport := v3; c_type := v4;
               c_tkl := v5; c_code := v6; c_mid := v7 |}).
  read_end_inv H Hok (coap_fields ll c).
  exists c, body, tail. split; [| split; [done | split; [done |]]].
  - unfold coap_sent_ok, is_u8, is_u16, u8_max, u16_max. cbn in *. lia.
  - injection H as <- _. reflexivity.
Qed.

(** ** CoAP packets (rules 0, 1, 5, 6) *)

Definition coap_head (c : CoapSent) : bytes :=
  [64 + 16 * c.(c_type) + c.(c_tkl); c.(c_code)] ++ to_be 2 c.(c_mid).
Definition coap_packet (ll : bool) (c : CoapSent) (ck : Z) (tail : bytes) : bytes :=
  ip6 17 c.(c_hop) (addr ll c.(c_src)) (addr ll c.(c_dst))
    (udp (5680 + c.(c_sport)) (5680 + c.(c_dport)) ck (coap_head c ++ tail)).
Definition coap_residue_len (ll : bool) : nat := if ll then 22%nat else 36%nat.

Lemma nibble_forallb (P : Z -> bool) : forallb P (Z.of_nat <$> seq 0 16) = true -> forall x, 0 <= x < 16 -> P x = true.
Proof.
  intros H x Hx. rewrite forallb_forall in H. apply H. apply list_elem_of_In, list_elem_of_fmap.
  exists (Z.to_nat x). split; [lia |]. apply elem_of_seq. lia.
Qed.

Lemma coap_first_byte t k :
  0 <= t < 4 -> 0 <= k < 16 ->
  Z.shiftr (64 + 16 * t + k) 6 = 1 /\ Z.land (Z.shiftr (64 + 16 * t + k) 4) 3 = t /\
  Z.land (64 + 16 * t + k) 15 = k /\
  Z.lor (Z.lor (Z.shiftl 1 6) (wrap8 (Z.shiftl (Z.land t 0x3) 4))) (Z.land k 0x0F) = 64 + 16 * t + k.
Proof.
  intros Ht Hk. assert (t = 0 \/ t = 1 \/ t = 2 \/ t = 3) as Hc by lia.
  pose (P := fun t k => (Z.shiftr (64 + 16 * t + k) 6 =? 1) && (Z.land (Z.shiftr (64 + 16 * t + k) 4) 3 =? t) &&
    (Z.land (64 + 16 * t + k) 15 =? k) &&
    (Z.lor (Z.lor (Z.shiftl 1 6) (wrap8 (Z.shiftl (Z.land t 0x3) 4))) (Z.land k 0x0F) =? 64 + 16 * t + k)).
  assert (P t k = true) as HP
    by (destruct Hc as [-> | [-> | [-> | ->]]]; apply (nibble_forallb (P _)); done).
  unfold P in HP. bool_to_prop. done.
Qed.

Lemma coap_first_byte_inv b :
  is_u8 b -> Z.shiftr b 6 = 1 ->
  b = 64 + 16 * Z.land (Z.shiftr b 4) 3 + Z.land b 15 /\ 0 <= Z.land (Z.shiftr b 4) 3 < 4 /\ 0 <= Z.land b 15 < 16.
Proof.
  intros Hb. revert b Hb.
  assert (forall b, is_u8 b -> (negb (Z.shiftr b 6 =? 1) || (b =? 64 + 16 * Z.land (Z.shiftr b 4) 3 + Z.land b 15) &&
    (0 <=? Z.land (Z.shiftr b 4) 3) && (Z.land (Z.shiftr b 4) 3 <? 4) && (0 <=? Z.land b 15) && (Z.land b 15 <? 16)) = true) as H
    by (apply u8_forallb; done).
  intros b Hb H6. specialize (H b Hb). rewrite H6 in H. cbn [negb Z.eqb Pos.eqb orb] in H. bool_to_prop. lia.
Qed.

Lemma coap_port s :
  0 <= s < 16 ->
  Z.shiftr (5680 + s) 4 = Z.shiftr COAP_PORT 4 /\ Z.land (5680 + s) 0xF = s /\ Z.lor 5680 s = 5680 + s.
Proof.
  intros Hs. pose (P := fun s => (Z.shiftr (5680 + s) 4 =? Z.shiftr COAP_PORT 4) && (Z.land (5680 + s) 0xF =? s) &&
    (Z.lor 5680 s =? 5680 + s)).
  assert (P s = true) as HP by (apply (nibble_forallb P); done). unfold P in HP. bool_to_prop. done.
Qed.

Lemma coap_port_inv p :
  0 <= p -> Z.shiftr p 4 = Z.shiftr COAP_PORT 4 -> p = 5680 + Z.land p 0xF /\ 0 <= Z.land p 0xF < 16.
Proof.
  intros H0 H. rewrite Z.shiftr_div_pow2 in H by lia. change (Z.shiftr COAP_PORT 4) with 355 in H.
  rewrite (Z.land_ones _ 4) by lia. change (2 ^ 4) with 16 in *.
  pose proof (Z.div_mod p 16). pose proof (Z.mod_pos_bound p 16). lia.
Qed.

Lemma coap_rule_is_ll ll o :
  ((coap_rule ll o =? RULE_LINK_LOCAL_COAP) || (coap_rule ll o =? RULE_LINK_LOCAL_OSCORE)) = ll.
Proof. by destruct ll, o. Qed.
Lemma coap_rule_is_global ll o :
  ((coap_rule ll o =? RULE_GLOBAL_COAP) || (coap_rule ll o =? RULE_GLOBAL_OSCORE)) = negb ll.
Proof. by destruct ll, o. Qed.
Lemma coap_rule_is_oscore ll o :
  ((coap_rule ll o =? RULE_LINK_LOCAL_OSCORE) || (coap_rule ll o =? RULE_GLOBAL_OSCORE)) = o.
Proof. by destruct ll, o. Qed.
Lemma coap_rule_is_plain ll o :
  ((coap_rule ll o =? RULE_LINK_LOCAL_COAP) || (coap_rule ll o =? RULE_GLOBAL_COAP)) = negb o.
Proof. by destruct ll, o. Qed.

(** The addresses a rule sends, in the words of [compress_coap]. *)
Lemma coap_fields_eq ll c src dst :
  c.(c_src) = addr_sent ll src -> c.(c_dst) = addr_sent ll dst ->
  [(c.(c_hop), 8%nat)] ++
  (if ll then [(from_be (slice 8 16 src), 64%nat); (from_be (slice 8 16 dst), 64%nat)]
   else [(Z.land (from_be src) (Z.shiftl 1 120 - 1), 120%nat); (Z.land (from_be dst) (Z.shiftl 1 120 - 1), 120%nat)]) ++
  [(c.(c_sport), 4%nat); (c.(c_dport), 4%nat); (c.(c_type), 2%nat); (c.(c_tkl), 4%nat); (c.(c_code), 8%nat); (c.(c_mid), 16%nat)]
  = coap_fields ll c.
Proof. intros Hs Hd. unfold coap_fields. rewrite Hs, Hd. by destruct ll. Qed.

Lemma coap_fields_len ll c : div_ceil8 (length (field_bits (coap_fields ll c))) = coap_residue_len ll.
Proof. rewrite length_field_bits. by destruct ll. Qed.

(** [compress_coap] on a packet of its rule. *)
Lemma compress_coap_ok ll o c ck tail out :
  coap_sent_ok ll c -> c.(c_tkl) <= 8 -> c.(c_tkl) <= Z.of_nat (length tail) ->
  let needed := (1 + coap_residue_len ll + length tail)%nat in
  Z.of_nat needed <= SCHC_FRAG_MAX_PACKET_SIZE -> (needed <= length out)%nat ->
  exists body, encodes body (field_bits (coap_fields ll c)) /\
    compress_coap (coap_packet ll c ck tail) out (coap_rule ll o) =
    (Ok needed, (coap_rule ll o :: body ++ tail) ++ replicate (length out - needed) 0).
Proof.
  intros Hc Ht8 Htl needed Hn Hout. pose proof Hc as (Hhop & Ha & Hb & Hsp & Hdp & Hty & Htkl & Hco & Hmid).
  destruct (coap_first_byte _ _ Hty Htkl) as (E6 & E4 & E0 & _).
  destruct (coap_port _ Hsp) as (Esp & Esl & _). destruct (coap_port _ Hdp) as (Edp & Edl & _).
  destruct (emit_ok (coap_rule ll o) (coap_fields ll c) (fun _ => 1 + coap_residue_len ll)%nat needed tail out
              (coap_residue_len ll)) as (body & He & Ee); [by rewrite coap_fields_len | done | done | done |].
  exists body. split; [done |]. rewrite <- Ee.
  unfold compress_coap, coap_packet.
  rewrite ip6_ensure, ip6_length, ip6_flow, ip6_src, ip6_dst, ip6_hop, ip6_payload by apply addr_length.
  rewrite udp_length, udp_body, udp_sport, udp_dport by width.
  rewrite length_app. change (length (coap_head c)) with 4%nat.
  unfold mbind, result_bind. rewrite (proj2 (Nat.ltb_ge _ _)) by lia. cbn [negb].
  change (nth 0 (coap_head c ++ tail) 0) with (64 + 16 * c_type c + c_tkl c).
  change (nth 1 (coap_head c ++ tail) 0) with (c_code c).
  change (drop 4 (coap_head c ++ tail)) with tail.
  change (u16_at (coap_head c ++ tail) 2) with (from_be (to_be 2 (c_mid c))).
  rewrite from_be_to_be_u16 by done. rewrite E6, E4, E0, Esp, Edp, Esl, Edl, Z.eqb_refl.
  rewrite (proj2 (Z.ltb_ge 8 _)), (proj2 (Z.ltb_ge _ (4 + _))) by lia. cbn [negb orb].
  rewrite coap_rule_is_ll, coap_rule_is_global.
  rewrite (coap_fields_eq ll c) by (by rewrite addr_sent_addr).
  assert ((if ll then if is_link_local_64 (addr ll (c_src c)) && is_link_local_64 (addr ll (c_dst c))
             then Ok 22%nat else Err NoMatchingRule
           else if negb ll then if (nth 0 (addr ll (c_src c)) 0 =? 2) && (nth 0 (addr ll (c_dst c)) 0 =? 2)
             then Ok 36%nat else Err NoMatchingRule else Err NoMatchingRule)
          = Ok (E := SchcError) (coap_residue_len ll)) as -> by (by destruct ll).
  fold needed. rewrite (proj2 (Nat.ltb_ge _ _)) by lia.
  unfold above_profile. by rewrite (proj2 (Z.ltb_ge _ _)) by lia.
Qed.

(** What [validate_full_ipv6] has checked of a UDP packet. *)
Record udp_valid (p : bytes) : Prop := {
  uv_bytes : bytes_ok p;
  uv_flow : class_and_flow_zero p = true;
  uv_len40 : Z.of_nat (length p) = 40 + u16_at p 4;
  uv_nh : nth 6 p 0 = 17;
  uv_len : (48 <= length p)%nat;
  uv_udp_len : u16_at (drop 40 p) 4 = Z.of_nat (length p) - 40;
  uv_cksum : udp_checksum (slice 8 24 p) (slice 24 40 p) (u16_at (drop 40 p) 0) (u16_at (drop 40 p) 2)
               (drop 48 p) = Ok (u16_at (drop 40 p) 6);
  uv_nonzero : u16_at (drop 40 p) 6 <> 0
}.

Lemma nth_is_u8 l i : bytes_ok l -> is_u8 (nth i l 0).
Proof.
  intros H. destruct (decide (i < length l)%nat).
  - rewrite Forall_forall in H. apply H. rewrite list_elem_of_In. by apply nth_In.
  - by rewrite nth_overflow by lia.
Qed.

Lemma u16_at_u16 l i : bytes_ok l -> is_u16 (u16_at l i).
Proof. intros H. apply from_be_u16; by apply nth_is_u8. Qed.

Lemma udp_valid_form p :
  udp_valid p ->
  p = ip6 17 (nth 7 p 0) (slice 8 24 p) (slice 24 40 p)
        (udp (u16_at (drop 40 p) 0) (u16_at (drop 40 p) 2) (u16_at (drop 40 p) 6) (drop 48 p)).
Proof.
  intros []. rewrite <- uv_nh0 at 1.
  replace (udp _ _ _ _) with (drop 40 p).
  - apply ip6_inv; (done || lia).
  - replace (drop 48 p) with (drop 8 (drop 40 p)) by (by rewrite drop_drop).
    apply udp_inv; [by apply Forall_drop | rewrite length_drop; lia |]. rewrite length_drop. lia.
Qed.

Lemma coap_addr_forms (ll : bool) (src dst : bytes) :
  (if ll then is_link_local_64 src && is_link_local_64 dst
   else (nth 0 src 0 =? 0x02) && (nth 0 dst 0 =? 0x02)) = addr_form ll src && addr_form ll dst.
Proof. by destruct ll. Qed.

Lemma residue_len_choice {B} (ll : bool) (x y : bool) (k : nat -> sresult B) :
  (residue_len ← (if ll then if x then Ok 22%nat else Err NoMatchingRule
    else if negb ll then if y then Ok 36%nat else Err NoMatchingRule else Err NoMatchingRule); k residue_len) =
  if (if ll then x else y) then k (coap_residue_len ll) else Err NoMatchingRule.
Proof. by destruct ll, x, y. Qed.

(** A UDP packet either is not for the rule, and the buffer is untouched, or is
    a CoAP packet of the rule. *)
Lemma compress_coap_cases ll o p out :
  udp_valid p ->
  compress_coap p out (coap_rule ll o) = (Err NoMatchingRule, out) \/
  exists c tail, coap_sent_ok ll c /\ c.(c_tkl) <= 8 /\ c.(c_tkl) <= Z.of_nat (length tail) /\
    p = coap_packet ll c (u16_at (drop 40 p) 6) tail /\ drop 48 p = coap_head c ++ tail.
Proof.
  intros Hv. pose proof (udp_valid_form p Hv) as Hform. destruct Hv.
  unfold compress_coap. destruct (ensure_ipv6 p) as [|e] eqn:Ee.
  2:{ unfold ensure_ipv6 in Ee. destruct (_ || _); simplify_eq. by left. }
  unfold mbind, result_bind. destruct (_ <? 40 + 8 + 4)%nat eqn:El; [by left |].
  rewrite uv_flow0. cbn [negb].
  rewrite !drop_drop. change (40 + 8)%nat with 48%nat.
  assert (bytes_ok (drop 48 p)) as Hok by (by apply Forall_drop).
  destruct (_ || _ || _) eqn:Eh; [by left |]. bool_to_prop.
  rewrite coap_rule_is_ll, coap_rule_is_global.
  pose proof (residue_len_choice (B := list (Z * nat) * nat * nat * bytes) ll) as Hres.
  unfold mbind, result_bind in Hres. rewrite Hres. clear Hres. rewrite coap_addr_forms.
  destruct (addr_form ll (slice 8 24 p) && addr_form ll (slice 24 40 p)) eqn:Ef; [| by left].
  destruct (negb _ || negb _) eqn:Ep; [by left |]. bool_to_prop. right.
  pose proof (coap_first_byte_inv _ (nth_is_u8 _ 0 Hok) ltac:(assumption)) as (Eb & Hty & Htkl).
  assert (bytes_ok (slice 8 24 p)) as Hsok by (by apply slice_Forall).
  assert (bytes_ok (slice 24 40 p)) as Hdok by (by apply slice_Forall).
  assert (length (slice 8 24 p) = 16%nat) as Hsl by (rewrite slice_length; lia).
  assert (length (slice 24 40 p) = 16%nat) as Hdl by (rewrite slice_length; lia).
  assert (bytes_ok (drop 40 p)) as Huok by (by apply Forall_drop).
  pose proof (u16_at_u16 _ 0 Huok) as Hsp. pose proof (u16_at_u16 _ 2 Huok) as Hdp.
  destruct (coap_port_inv (u16_at (drop 40 p) 0)) as [Esp Hsp4]; [width | done |].
  destruct (coap_port_inv (u16_at (drop 40 p) 2)) as [Edp Hdp4]; [width | done |].
  exists {| c_hop := nth 7 p 0; c_src := addr_sent ll (slice 8 24 p); c_dst := addr_sent ll (slice 24 40 p);
       c_sport := Z.land (u16_at (drop 40 p) 0) 0xF; c_dport := Z.land (u16_at (drop 40 p) 2) 0xF;
       c_type := Z.land (Z.shiftr (nth 0 (drop 48 p) 0) 4) 3; c_tkl := Z.land (nth 0 (drop 48 p) 0) 15;
       c_code := nth 1 (drop 48 p) 0; c_mid := u16_at (drop 48 p) 2 |}, (drop 4 (drop 48 p)).
  cbn [c_tkl]. rewrite length_drop.
  assert (drop 48 p = coap_head {| c_hop := nth 7 p 0; c_src := addr_sent ll (slice 8 24 p); c_dst := addr_sent ll (slice 24 40 p);
       c_sport := Z.land (u16_at (drop 40 p) 0) 0xF; c_dport := Z.land (u16_at (drop 40 p) 2) 0xF;
       c_type := Z.land (Z.shiftr (nth 0 (drop 48 p) 0) 4) 3; c_tkl := Z.land (nth 0 (drop 48 p) 0) 15;
       c_code := nth 1 (drop 48 p) 0; c_mid := u16_at (drop 48 p) 2 |} ++ drop 4 (drop 48 p)) as Hcoap.
  { assert (4 <= length (drop 48 p))%nat as Hl4 by (rewrite length_drop; lia).
    generalize dependent (drop 48 p). intros l; intros.
    do 4 (destruct l as [|? l]; [cbn in Hl4; lia |]). unfold coap_head.
    cbn [c_type c_tkl c_code c_mid app drop]. cbn [nth] in Eb |- *. rewrite <- Eb.
    unfold u16_at. cbn [nth]. do 2 (apply Forall_cons in Hok as [_ Hok]).
    apply Forall_cons in Hok as [? Hok]. apply Forall_cons in Hok as [? Hok].
    by rewrite to_be_from_be_u16 by done. }
  split_and!.
  - unfold coap_sent_ok. cbn [c_hop c_src c_dst c_sport c_dport c_type c_tkl c_code c_mid].
    split_and!; try (apply addr_sent_bound; done); try (by apply nth_is_u8); try lia; by apply u16_at_u16.
  - done.
  - rewrite length_drop in *. lia.
  - rewrite Hform at 1. unfold coap_packet. cbn [c_hop c_src c_dst c_sport c_dport].
    rewrite <- !addr_of_form by done.
    rewrite <- Esp, <- Edp. by rewrite Hcoap at 1.
  - done.
Qed.

(** The writes that rebuild a packet, front to back. *)
Lemma write_header_inserts out len nh hop src dst :
  length src = 16%nat ->
  write_ipv6_header out len nh hop src dst =
  list_inserts 0 ([0x60; 0; 0; 0] ++ to_be 2 len ++ [nh; hop] ++ src ++ dst) out.
Proof.
  intros Hs. unfold write_ipv6_header. rewrite (inserts_adjacent 8 24) by (by rewrite Hs).
  rewrite inserts_adjacent by done. f_equal.
  rewrite <- (to_be_2_shift len). cbn [app]. done.
Qed.

Lemma write_udp_packet out hop src dst sp dp ck body :
  length src = 16%nat -> length dst = 16%nat -> (48 + length body <= length out)%nat ->
  list_inserts 48 body (list_inserts 46 (to_be 2 ck) (list_inserts 44 (to_be 2 (8 + Z.of_nat (length body)))
    (list_inserts 42 (to_be 2 dp) (list_inserts 40 (to_be 2 sp)
      (write_ipv6_header out (8 + Z.of_nat (length body)) 17 hop src dst))))) =
  ip6 17 hop src dst (udp sp dp ck body) ++ drop (48 + length body) out.
Proof.
  intros Hs Hd Hl. rewrite write_header_inserts by done.
  do 4 rewrite inserts_adjacent by (by rewrite length_to_be).
  rewrite inserts_adjacent by (rewrite !length_app, Hs, Hd; done).
  unfold ip6. rewrite udp_length.
  replace (Z.of_nat (8 + length body)) with (8 + Z.of_nat (length body)) by lia.
  unfold udp. rewrite inserts_front; rewrite !length_app, !length_to_be, Hs, Hd; cbn [length]; [| lia].
  rewrite <- !app_assoc. do 6 f_equal.
Qed.

Lemma has_oscore_head c tail :
  has_oscore_option (coap_head c ++ tail) = has_oscore_option_parts (coap_head c) tail.
Proof.
  unfold has_oscore_option. rewrite length_app. change (length (coap_head c)) with 4%nat.
  by rewrite (proj2 (Nat.ltb_ge _ _)) by lia.
Qed.

Lemma coap_head_bytes ll c : coap_sent_ok ll c -> bytes_ok (coap_head c).
Proof.
  intros (?&?&?&?&?&?&?&?&?). unfold coap_head.
  apply Forall_app. split; [| apply to_be_ok]. repeat (constructor; [width |]). constructor.
Qed.

Lemma decompress_coap_ok ll o c body tail out :
  coap_sent_ok ll c -> encodes body (field_bits (coap_fields ll c)) -> bytes_ok tail ->
  Z.of_nat (length tail) + 12 <= 65535 -> has_oscore_option_parts (coap_head c) tail = o ->
  (52 + length tail <= length out)%nat ->
  exists ck, udp_checksum (addr ll c.(c_src)) (addr ll c.(c_dst)) (5680 + c.(c_sport)) (5680 + c.(c_dport))
      (coap_head c ++ tail) = Ok ck /\
    decompress_coap (coap_rule ll o :: body ++ tail) out (coap_rule ll o) =
    (Ok (52 + length tail)%nat, coap_packet ll c ck tail ++ drop (52 + length tail) out).
Proof.
  intros Hc He Htl Hlen Ho Hout. pose proof Hc as (Hhop & Ha & Hb & Hsp & Hdp & Hty & Htkl & Hco & Hmid).
  destruct (udp_checksum_defined (addr ll c.(c_src)) (addr ll c.(c_dst)) (5680 + c.(c_sport)) (5680 + c.(c_dport))
      (coap_head c ++ tail)) as [ck Hck].
  { rewrite length_app. change (length (coap_head c)) with 4%nat. lia. }
  exists ck. split; [done |]. unfold decompress_coap.
  change (drop 1 (coap_rule ll o :: body ++ tail)) with (body ++ tail).
  rewrite (read_coap_ok ll o c body tail Hc He).
  unfold coap_read, mbind, result_bind. cbn [cf_hop cf_src cf_dst cf_sport cf_dport cf_type cf_tkl cf_code cf_mid cf_end].
  change (drop (1 + length body) (coap_rule ll o :: body ++ tail)) with (drop (length body) (body ++ tail)).
  rewrite drop_app_length, !addr_int_bytes by done.
  destruct (coap_first_byte _ _ Hty Htkl) as (_ & _ & _ & ->).
  destruct (coap_port _ Hsp) as (_ & _ & ->). destruct (coap_port _ Hdp) as (_ & _ & ->).
  assert ([64 + 16 * c_type c + c_tkl c; c_code c; wrap8 (Z.shiftr (c_mid c) 8); wrap8 (c_mid c)] = coap_head c) as ->.
  { unfold coap_head. by rewrite <- to_be_2_shift. }
  rewrite (proj2 (Z.ltb_ge _ _)) by lia. rewrite (proj2 (Nat.ltb_ge _ _)) by lia.
  rewrite coap_rule_is_oscore, coap_rule_is_plain, Ho, andb_negb_r.
  replace (negb o && o) with false by (by destruct o).
  assert (Forall bytes_ok [coap_head c; tail]) as Hparts.
  { constructor; [by apply coap_head_bytes with ll | by constructor]. }
  rewrite udp_checksum_concat by done. cbn [concat]. rewrite app_nil_r, Hck.
  f_equal. rewrite inserts_adjacent by done.
  assert (wrap16 (Z.of_nat (8 + (4 + length tail))) = 8 + Z.of_nat (length (coap_head c ++ tail))) as ->.
  { rewrite length_app. change (length (coap_head c)) with 4%nat. unfold wrap16. rewrite Z.mod_small by lia. lia. }
  rewrite write_udp_packet; [| apply addr_length..|].
  - unfold coap_packet. rewrite length_app. done.
  - rewrite length_app. change (length (coap_head c)) with 4%nat. lia.
Qed.

(** Everything [decompress_coap] accepts has that form. *)
Lemma decompress_coap_inv ll o data out n out' :
  bytes_ok data -> decompress_coap (coap_rule ll o :: data) out (coap_rule ll o) = (Ok n, out') ->
  exists c body tail, coap_sent_ok ll c /\ encodes body (field_bits (coap_fields ll c)) /\ data = body ++ tail /\
    Z.of_nat (length tail) + 12 <= 65535 /\ has_oscore_option_parts (coap_head c) tail = o /\
    (52 + length tail <= length out)%nat.
Proof.
  intros Hok H. unfold decompress_coap in H.
  change (drop 1 (coap_rule ll o :: data)) with data in H.
  destruct (reader_value _) as [f|] eqn:Ef; [| done].
  destruct (read_coap_inv ll o data f Hok Ef) as (c & body & tail & Hc & He & -> & ->).
  exists c, body, tail. split; [done |]. split; [done |]. split; [done |].
  pose proof Hc as (Hhop & Ha & Hb & Hsp & Hdp & Hty & Htkl & Hco & Hmid).
  unfold coap_read, mbind, result_bind in H. cbn [cf_hop cf_src cf_dst cf_sport cf_dport cf_type cf_tkl cf_code cf_mid cf_end] in H.
  change (drop (1 + length body) (coap_rule ll o :: body ++ tail)) with (drop (length body) (body ++ tail)) in H.
  rewrite drop_app_length in H.
  destruct (coap_first_byte _ _ Hty Htkl) as (_ & _ & _ & E0). rewrite E0 in H.
  assert ([64 + 16 * c_type c + c_tkl c; c_code c; wrap8 (Z.shiftr (c_mid c) 8); wrap8 (c_mid c)] = coap_head c) as Eh.
  { unfold coap_head. by rewrite <- to_be_2_shift. }
  rewrite Eh in H.
  destruct (65535 <? _) eqn:E1; [done |]. destruct (length out <? _)%nat eqn:E2; [done |]. bool_to_prop.
  rewrite coap_rule_is_oscore, coap_rule_is_plain in H.
  split; [lia |]. split; [| lia].
  destruct (has_oscore_option_parts (coap_head c) tail), o; done.
Qed.
