(* ===== verification/SchcRules.v ===== *)
(** * SCHC header compression: the ICMPv6 and MQTT-SN rules

    As for CoAP in SchcSpec.v: the packets of rules 2, 3, 4 and 7 by field, and
    what their compressors and decompressors do with them. *)

From stdpp Require Import strings.
From S2P Require Import Prelude SchcBits SchcCheck Schc SchcSpec.
Open Scope Z_scope.

(** ** ICMPv6 between link-local addresses *)

Definition icmp_packet (hop a b ty code ck : Z) (rest : bytes) : bytes :=
  ip6 58 hop (addr true a) (addr true b) (ty :: code :: to_be 2 ck ++ rest).

(** The checksum the decompressor computes. *)
Definition icmp_ck (a b ty code : Z) (rest : bytes) : Z :=
  ones_complement_sum (cs (icmp_total (addr true a) (addr true b) (ty :: code :: 0 :: 0 :: rest))).

Definition iid_ok (x : Z) : Prop := 0 <= x < 2 ^ 64.

Lemma write_icmp_packet out hop src dst head tail len :
  length src = 16%nat -> length dst = 16%nat -> len = Z.of_nat (length (head ++ tail)) ->
  (40 + length (head ++ tail) <= length out)%nat ->
  list_inserts (40 + length head) tail (list_inserts 40 head (write_ipv6_header out len 58 hop src dst)) =
  ip6 58 hop src dst (head ++ tail) ++ drop (40 + length (head ++ tail)) out.
Proof.
  intros Hs Hd -> Hl. rewrite write_header_inserts by done.
  rewrite inserts_adjacent by done.
  rewrite inserts_adjacent by (rewrite !length_app, Hs, Hd; done).
  unfold ip6. rewrite inserts_front; rewrite !length_app, length_to_be, Hs, Hd; cbn [length];
    rewrite <- ?app_assoc; [done |]. rewrite length_app in Hl. lia.
Qed.

Lemma icmp_head_parts ty code b4 rest head tail :
  head = ty :: code :: 0 :: 0 :: b4 -> rest = b4 ++ tail -> concat [head; tail] = ty :: code :: 0 :: 0 :: rest.
Proof. intros -> ->. cbn [concat]. by rewrite app_nil_r. Qed.

Lemma icmp_ck_parts a b ty code b4 tail :
  is_u8 ty -> is_u8 code -> bytes_ok b4 -> bytes_ok tail ->
  Z.of_nat (length (b4 ++ tail)) + 4 <= 65535 ->
  icmpv6_checksum_parts (addr true a) (addr true b) [ty :: code :: 0 :: 0 :: b4; tail] = icmp_ck a b ty code (b4 ++ tail).
Proof.
  intros Ht Hc Hb Htl Hl. rewrite icmp_parts_spec; try apply addr_ok.
  - unfold icmp_ck. cbn [concat]. rewrite app_nil_r. cbn [app]. reflexivity.
  - constructor; [| by constructor]. repeat (apply Forall_cons; split; [done |]). done.
  - cbn [concat]. rewrite app_nil_r, length_app in *. cbn [length]. lia.
Qed.

(** The checksum bytes written over the zero field. *)
Lemma patch_checksum hop src dst ty code rest after x y :
  length src = 16%nat -> length dst = 16%nat ->
  <[43%nat := y]> (<[42%nat := x]> (ip6 58 hop src dst (ty :: code :: 0 :: 0 :: rest) ++ after)) =
  ip6 58 hop src dst (ty :: code :: x :: y :: rest) ++ after.
Proof.
  intros Hs Hd. destruct (length_16 _ Hs) as (?&?&?&?&?&?&?&?&?&?&?&?&?&?&?&?&->).
  destruct (length_16 _ Hd) as (?&?&?&?&?&?&?&?&?&?&?&?&?&?&?&?&->). reflexivity.
Qed.

Lemma write_rpl_packet out hop a b code b4 tail :
  is_u8 code -> bytes_ok b4 -> bytes_ok tail -> Z.of_nat (length (b4 ++ tail)) + 4 <= 65535 ->
  (44 + length (b4 ++ tail) <= length out)%nat ->
  write_rpl out (155 :: code :: 0 :: 0 :: b4) tail (addr true a) (addr true b) hop =
  icmp_packet hop a b 155 code (icmp_ck a b 155 code (b4 ++ tail)) (b4 ++ tail) ++ drop (44 + length (b4 ++ tail)) out.
Proof.
  intros Hc Hb Ht Hl Hout. unfold write_rpl. rewrite icmp_ck_parts by done.
  rewrite write_icmp_packet; [| apply addr_length.. | |].
  - cbn [app]. rewrite patch_checksum by apply addr_length.
    unfold icmp_packet. rewrite <- to_be_2_shift. done.
  - unfold wrap16. rewrite Z.mod_small; [f_equal |]; rewrite ?length_app in *; cbn [length]; lia.
  - rewrite length_app in *. cbn [length]. lia.
Qed.

Lemma icmp_packet_length hop a b ty code ck rest :
  length (icmp_packet hop a b ty code ck rest) = (44 + length rest)%nat.
Proof. unfold icmp_packet. rewrite ip6_length by apply addr_length. cbn [length]. rewrite length_app, length_to_be. lia. Qed.

Lemma icmp_packet_drop k hop a b ty code ck rest :
  drop (44 + k) (icmp_packet hop a b ty code ck rest) = drop k rest.
Proof. rewrite <- drop_drop. f_equal. Qed.

Lemma preflight_ok needed out :
  (0 < needed <= length out)%nat -> Z.of_nat needed <= SCHC_FRAG_MAX_PACKET_SIZE -> preflight needed out = Ok tt.
Proof.
  intros H Hn. unfold preflight. rewrite (proj2 (Nat.eqb_neq _ _)) by lia.
  rewrite (proj2 (Nat.ltb_ge _ _)) by lia. unfold above_profile. by rewrite (proj2 (Z.ltb_ge _ _)) by lia.
Qed.

(** A 16-byte identifier read as an integer. *)
Lemma to_be_16_u128 x : 0 <= x < 2 ^ 128 -> from_be (to_be 16 x) = x.
Proof. intros H. apply from_be_to_be. exact H. Qed.

Lemma iid_of_addr x : iid_ok x -> from_be (slice 8 16 (addr true x)) = x.
Proof. exact (addr_sent_addr true x). Qed.

(** *** Echo (rule 2) *)

Record EchoSent := { e_hop : Z; e_src : Z; e_dst : Z; e_type : Z; e_id : Z; e_seq : Z }.
Definition echo_sent_ok (e : EchoSent) : Prop :=
  is_u8 e.(e_hop) /\ iid_ok e.(e_src) /\ iid_ok e.(e_dst) /\ (e.(e_type) = 128 \/ e.(e_type) = 129) /\
  is_u16 e.(e_id) /\ is_u16 e.(e_seq).
Definition echo_fields (e : EchoSent) : list (Z * nat) :=
  [(e.(e_hop), 8%nat); (e.(e_src), 64%nat); (e.(e_dst), 64%nat); (e.(e_type), 8%nat); (e.(e_id), 16%nat);
   (e.(e_seq), 16%nat)].
Definition echo_rest (e : EchoSent) (tail : bytes) : bytes := (to_be 2 e.(e_id) ++ to_be 2 e.(e_seq)) ++ tail.
Definition echo_packet (e : EchoSent) (ck : Z) (tail : bytes) : bytes :=
  icmp_packet e.(e_hop) e.(e_src) e.(e_dst) e.(e_type) 0 ck (echo_rest e tail).
Definition echo_ck (e : EchoSent) (tail : bytes) : Z := icmp_ck e.(e_src) e.(e_dst) e.(e_type) 0 (echo_rest e tail).

Lemma read_echo_ok e body tail :
  echo_sent_ok e -> encodes body (field_bits (echo_fields e)) ->
  reader_value (read_echo (br_new (body ++ tail))) =
  Ok {| ef_hop := e.(e_hop); ef_src := e.(e_src); ef_dst := e.(e_dst); ef_type := e.(e_type); ef_id := e.(e_id);
        ef_seq := e.(e_seq); ef_end := length body |}.
Proof.
  intros (Hh & Hs & Hd & Ht & Hi & Hq) He. unfold iid_ok in *.
  destruct (encodes_reading body tail _ He) as (rest & Hr).
  unfold echo_fields in Hr. cbn [field_bits] in Hr. rewrite app_nil_r, <- !app_assoc in Hr.
  unfold read_echo. do 6 read_step.
  replace (_ && _) with false by (destruct Ht as [-> | ->]; done).
  erewrite bind_end; [| | exact He | done]; [done |].
  match goal with H : reading _ _ ?a _ |- reading _ _ ?b _ => replace b with a; [exact H |] end.
  by rewrite length_field_bits.
Qed.

Lemma read_echo_inv buf f :
  bytes_ok buf -> reader_value (read_echo (br_new buf)) = Ok f ->
  exists e body tail, echo_sent_ok e /\ encodes body (field_bits (echo_fields e)) /\ buf = body ++ tail /\
    f = {| ef_hop := e.(e_hop); ef_src := e.(e_src); ef_dst := e.(e_dst); ef_type := e.(e_type); ef_id := e.(e_id);
           ef_seq := e.(e_seq); ef_end := length body |}.
Proof.
  intros Hok H. apply reader_value_inv in H as [r H]. unfold read_echo in H.
  pose proof (reading_new buf) as Hr. do 6 read_step_inv H. subst.
  destruct (negb (v2 =? 128) && negb (v2 =? 129)) eqn:Et; [done |].
  set (e := {| e_hop := v; e_src := v0; e_dst := v1; e_type := v2; e_id := v3; e_seq := v4 |}).
  read_end_inv H Hok (echo_fields e).
  exists e, body, tail. split; [| split; [done | split; [done |]]].
  - unfold echo_sent_ok, iid_ok, is_u8, is_u16, u8_max, u16_max.
    apply andb_false_iff in Et as [Et|Et]; bool_to_prop; cbn in *; lia.
  - injection H as <- _. reflexivity.
Qed.

Lemma echo_needed e : div_ceil8 (length (field_bits (echo_fields e))) = 22%nat.
Proof. by rewrite length_field_bits. Qed.

Lemma compress_echo_ok e ck tail out :
  echo_sent_ok e -> Z.of_nat (23 + length tail) <= SCHC_FRAG_MAX_PACKET_SIZE -> (23 + length tail <= length out)%nat ->
  exists body, encodes body (field_bits (echo_fields e)) /\
    compress_icmpv6_echo (echo_packet e ck tail) out =
    (Ok (23 + length tail)%nat, (RULE_ICMPV6_ECHO :: body ++ tail) ++ replicate (length out - (23 + length tail)) 0).
Proof.
  intros (Hh & Hs & Hd & Ht & Hi & Hq) Hn Hout.
  destruct (emit_ok RULE_ICMPV6_ECHO (echo_fields e) (fun w => 1 + byte_len w)%nat (23 + length tail)%nat tail out 22)
    as (body & He & Ee); [by rewrite echo_needed | done | done | by intros ? -> |].
  exists body. split; [done |]. rewrite <- Ee. unfold compress_icmpv6_echo, echo_packet.
  rewrite icmp_packet_length. unfold icmp_packet.
  rewrite ip6_ensure, ip6_src, ip6_dst, ip6_hop, ip6_payload by apply addr_length.
  rewrite !iid_of_addr by done. unfold mbind, result_bind.
  unfold echo_rest at 1. rewrite length_app, (proj2 (Nat.ltb_ge _ _)) by (cbn [length]; rewrite ?length_app, ?length_to_be; lia).
  change (drop 8 _) with tail. change (u16_at (_ :: _) 4) with (from_be (to_be 2 (e_id e))).
  change (u16_at (_ :: _) 6) with (from_be (to_be 2 (e_seq e))). rewrite !from_be_to_be_u16 by done.
  rewrite preflight_ok; [done | |]; change (div_ceil8 _) with 22%nat; lia.
Qed.

Lemma echo_head_bytes t x y i q :
  [t; 0; x; y; wrap8 (Z.shiftr i 8); wrap8 i; wrap8 (Z.shiftr q 8); wrap8 q] = t :: 0 :: x :: y :: to_be 2 i ++ to_be 2 q.
Proof. by rewrite <- (to_be_2_shift i), <- (to_be_2_shift q). Qed.

Lemma checksum_head t c ck rest : t :: c :: wrap8 (Z.shiftr ck 8) :: wrap8 ck :: rest = t :: c :: to_be 2 ck ++ rest.
Proof. by rewrite <- to_be_2_shift. Qed.

Lemma decompress_echo_ok e body tail out :
  echo_sent_ok e -> encodes body (field_bits (echo_fields e)) -> bytes_ok tail ->
  Z.of_nat (length tail) + 8 <= 65535 -> (48 + length tail <= length out)%nat ->
  decompress_icmpv6_echo (RULE_ICMPV6_ECHO :: body ++ tail) out =
  (Ok (48 + length tail)%nat, echo_packet e (echo_ck e tail) tail ++ drop (48 + length tail) out).
Proof.
  intros Hs He Htl Hlen Hout. unfold decompress_icmpv6_echo.
  change (drop 1 (RULE_ICMPV6_ECHO :: body ++ tail)) with (body ++ tail).
  rewrite (read_echo_ok e body tail Hs He). destruct Hs as (Hh & Hs & Hd & Ht & Hi & Hq).
  unfold mbind, result_bind. cbn [ef_hop ef_src ef_dst ef_type ef_id ef_seq ef_end].
  change (drop (1 + length body) (RULE_ICMPV6_ECHO :: body ++ tail)) with (drop (length body) (body ++ tail)).
  rewrite drop_app_length, (ll_addr (e_src e)), (ll_addr (e_dst e)) by done.
  change (LINK_LOCAL_64 ++ to_be 8 (e_src e)) with (addr true (e_src e)).
  change (LINK_LOCAL_64 ++ to_be 8 (e_dst e)) with (addr true (e_dst e)).
  rewrite (proj2 (Nat.ltb_ge _ _)) by lia. f_equal.
  rewrite !echo_head_bytes. rewrite icmp_ck_parts;
    [| destruct Ht as [-> | ->]; done | done | apply Forall_app; split; apply to_be_ok | done |
       rewrite !length_app, !length_to_be; lia].
  unfold echo_ck, echo_rest. set (ck := icmp_ck _ _ _ _ _).
  rewrite checksum_head.
  rewrite (write_icmp_packet out (e_hop e) _ _ (e_type e :: 0 :: to_be 2 ck ++ to_be 2 (e_id e) ++ to_be 2 (e_seq e)) tail);
    [| apply addr_length.. | |].
  - unfold echo_packet, icmp_packet, echo_rest. cbn [app]. by rewrite <- !app_assoc.
  - unfold wrap16. rewrite Z.mod_small by lia. rewrite length_app. cbn [length]. rewrite !length_app, !length_to_be. lia.
  - rewrite length_app. cbn [length]. rewrite !length_app, !length_to_be. lia.
Qed.

Lemma decompress_echo_inv data out n out' :
  bytes_ok data -> decompress_icmpv6_echo (RULE_ICMPV6_ECHO :: data) out = (Ok n, out') ->
  exists e body tail, echo_sent_ok e /\ encodes body (field_bits (echo_fields e)) /\ data = body ++ tail /\
    (48 + length tail <= length out)%nat.
Proof.
  intros Hok H. unfold decompress_icmpv6_echo in H. change (drop 1 (RULE_ICMPV6_ECHO :: data)) with data in H.
  destruct (reader_value _) as [f|] eqn:Ef; [| done].
  destruct (read_echo_inv data f Hok Ef) as (e & body & tail & Hs & He & -> & ->).
  exists e, body, tail. split_and!; [done.. |]. unfold mbind, result_bind in H. cbn [ef_end] in H.
  change (drop (1 + length body) (RULE_ICMPV6_ECHO :: body ++ tail)) with (drop (length body) (body ++ tail)) in H.
  rewrite drop_app_length in H. destruct (length out <? _)%nat eqn:E; [done |]. bool_to_prop. lia.
Qed.

(** *** DIO (rule 3) *)

Record DioSent := {
  d_hop : Z; d_src : Z; d_dst : Z; d_instance : Z; d_version : Z; d_rank : Z; d_gmop : Z; d_dtsn : Z; d_dodagid : Z
}.
Definition dio_sent_ok (d : DioSent) : Prop :=
  is_u8 d.(d_hop) /\ iid_ok d.(d_src) /\ iid_ok d.(d_dst) /\ is_u8 d.(d_instance) /\ is_u8 d.(d_version) /\
  is_u16 d.(d_rank) /\ is_u8 d.(d_gmop) /\ is_u8 d.(d_dtsn) /\ 0 <= d.(d_dodagid) < 2 ^ 128.
Definition dio_fields (d : DioSent) : list (Z * nat) :=
  [(d.(d_hop), 8%nat); (d.(d_src), 64%nat); (d.(d_dst), 64%nat); (d.(d_instance), 8%nat); (d.(d_version), 8%nat);
   (d.(d_rank), 16%nat); (d.(d_gmop), 8%nat); (d.(d_dtsn), 8%nat); (d.(d_dodagid), 128%nat)].
Definition dio_body (d : DioSent) : bytes :=
  [d.(d_instance); d.(d_version)] ++ to_be 2 d.(d_rank) ++ [d.(d_gmop); d.(d_dtsn); 0; 0] ++ to_be 16 d.(d_dodagid).
Definition dio_packet (d : DioSent) (ck : Z) (tail : bytes) : bytes :=
  icmp_packet d.(d_hop) d.(d_src) d.(d_dst) 155 1 ck (dio_body d ++ tail).
Definition dio_ck (d : DioSent) (tail : bytes) : Z := icmp_ck d.(d_src) d.(d_dst) 155 1 (dio_body d ++ tail).

Lemma dio_body_length d : length (dio_body d) = 24%nat.
Proof. done. Qed.

Lemma dio_body_ok d : dio_sent_ok d -> bytes_ok (dio_body d).
Proof.
  intros (?&?&?&?&?&?&?&?&?). unfold dio_body.
  rewrite !Forall_app. split_and!; try apply to_be_ok; rewrite !Forall_cons; done.
Qed.

Lemma read_dio_ok d body tail :
  dio_sent_ok d -> encodes body (field_bits (dio_fields d)) ->
  reader_value (read_dio (br_new (body ++ tail))) =
  Ok {| df_hop := d.(d_hop); df_src := d.(d_src); df_dst := d.(d_dst); df_instance := d.(d_instance);
        df_version := d.(d_version); df_rank := d.(d_rank); df_gmop := d.(d_gmop); df_dtsn := d.(d_dtsn);
        df_dodagid := d.(d_dodagid); df_end := length body |}.
Proof.
  intros (?&?&?&?&?&?&?&?&?) He. unfold iid_ok in *.
  destruct (encodes_reading body tail _ He) as (rest & Hr).
  unfold dio_fields in Hr. cbn [field_bits] in Hr. rewrite app_nil_r, <- !app_assoc in Hr.
  unfold read_dio. do 9 read_step.
  erewrite bind_end; [| | exact He | done]; [done |].
  match goal with H : reading _ _ ?a _ |- reading _ _ ?b _ => replace b with a; [exact H |] end.
  by rewrite length_field_bits.
Qed.

Lemma read_dio_inv buf f :
  bytes_ok buf -> reader_value (read_dio (br_new buf)) = Ok f ->
  exists d body tail, dio_sent_ok d /\ encodes body (field_bits (dio_fields d)) /\ buf = body ++ tail /\
    f = {| df_hop := d.(d_hop); df_src := d.(d_src); df_dst := d.(d_dst); df_instance := d.(d_instance);
           df_version := d.(d_version); df_rank := d.(d_rank); df_gmop := d.(d_gmop); df_dtsn := d.(d_dtsn);
           df_dodagid := d.(d_dodagid); df_end := length body |}.
Proof.
  intros Hok H. apply reader_value_inv in H as [r H]. unfold read_dio in H.
  pose proof (reading_new buf) as Hr. do 9 read_step_inv H. subst.
  set (d := {| d_hop := v; d_src := v0; d_dst := v1; d_instance := v2; d_version := v3; d_rank := v4;
               d_gmop := v5; d_dtsn := v6; d_dodagid := v7 |}).
  read_end_inv H Hok (dio_fields d).
  exists d, body, tail. split; [| split; [done | split; [done |]]].
  - unfold dio_sent_ok, iid_ok, is_u8, is_u16, u8_max, u16_max. cbn in *. lia.
  - injection H as <- _. reflexivity.
Qed.

Lemma dio_needed d : div_ceil8 (length (field_bits (dio_fields d))) = 39%nat.
Proof. by rewrite length_field_bits. Qed.

Lemma compress_dio_ok d ck tail out :
  dio_sent_ok d -> Z.of_nat (40 + length tail) <= SCHC_FRAG_MAX_PACKET_SIZE -> (40 + length tail <= length out)%nat ->
  exists body, encodes body (field_bits (dio_fields d)) /\
    compress_rpl_dio (dio_packet d ck tail) out =
    (Ok (40 + length tail)%nat, (RULE_RPL_DIO :: body ++ tail) ++ replicate (length out - (40 + length tail)) 0).
Proof.
  intros (?&?&?&?&?&?&?&?&?) Hn Hout.
  destruct (emit_ok RULE_RPL_DIO (dio_fields d) (fun w => 1 + byte_len w)%nat (40 + length tail)%nat tail out 39)
    as (body & He & Ee); [by rewrite dio_needed | done | done | by intros ? -> |].
  exists body. split; [done |]. rewrite <- Ee. unfold compress_rpl_dio, dio_packet.
  rewrite icmp_packet_length, (icmp_packet_drop 0). unfold icmp_packet.
  rewrite ip6_ensure, ip6_src, ip6_dst, ip6_hop by apply addr_length.
  rewrite !iid_of_addr by done. unfold mbind, result_bind. rewrite length_app, dio_body_length.
  rewrite (proj2 (Nat.ltb_ge _ _)) by lia.
  change (drop 24 _) with tail. change (slice 8 24 _) with (to_be 16 (d_dodagid d)).
  change (u16_at (drop 0 _) 2) with (from_be (to_be 2 (d_rank d))).
  rewrite from_be_to_be_u16, to_be_16_u128 by done. change (negb _ || negb _) with false. cbn [orb].
  rewrite preflight_ok; [done | |]; change (div_ceil8 _) with 39%nat; lia.
Qed.

Lemma decompress_dio_ok d body tail out :
  dio_sent_ok d -> encodes body (field_bits (dio_fields d)) -> bytes_ok tail ->
  Z.of_nat (length tail) + 28 <= 65535 -> (68 + length tail <= length out)%nat ->
  decompress_rpl_dio (RULE_RPL_DIO :: body ++ tail) out =
  (Ok (68 + length tail)%nat, dio_packet d (dio_ck d tail) tail ++ drop (68 + length tail) out).
Proof.
  intros Hs He Htl Hlen Hout. unfold decompress_rpl_dio.
  change (drop 1 (RULE_RPL_DIO :: body ++ tail)) with (body ++ tail).
  rewrite (read_dio_ok d body tail Hs He). pose proof (dio_body_ok d Hs) as Hbok. destruct Hs as (?&?&?&?&?&?&?&?&?).
  unfold mbind, result_bind.
  cbn [df_hop df_src df_dst df_instance df_version df_rank df_gmop df_dtsn df_dodagid df_end].
  change (drop (1 + length body) (RULE_RPL_DIO :: body ++ tail)) with (drop (length body) (body ++ tail)).
  rewrite drop_app_length, (ll_addr (d_src d)), (ll_addr (d_dst d)) by done.
  change (LINK_LOCAL_64 ++ to_be 8 (d_src d)) with (addr true (d_src d)).
  change (LINK_LOCAL_64 ++ to_be 8 (d_dst d)) with (addr true (d_dst d)).
  rewrite (proj2 (Nat.ltb_ge _ _)) by lia. f_equal.
  assert ([155; 1; 0; 0; d_instance d; d_version d; wrap8 (Z.shiftr (d_rank d) 8); wrap8 (d_rank d); d_gmop d; d_dtsn d; 0; 0]
          ++ to_be 16 (d_dodagid d) = 155 :: 1 :: 0 :: 0 :: dio_body d) as ->.
  { unfold dio_body. by rewrite <- (to_be_2_shift (d_rank d)). }
  rewrite write_rpl_packet; [| done | done | done | rewrite length_app, dio_body_length; lia..].
  unfold dio_packet, dio_ck. by rewrite length_app, dio_body_length.
Qed.

Lemma decompress_dio_inv data out n out' :
  bytes_ok data -> decompress_rpl_dio (RULE_RPL_DIO :: data) out = (Ok n, out') ->
  exists d body tail, dio_sent_ok d /\ encodes body (field_bits (dio_fields d)) /\ data = body ++ tail /\
    (68 + length tail <= length out)%nat.
Proof.
  intros Hok H. unfold decompress_rpl_dio in H. change (drop 1 (RULE_RPL_DIO :: data)) with data in H.
  destruct (reader_value _) as [f|] eqn:Ef; [| done].
  destruct (read_dio_inv data f Hok Ef) as (d & body & tail & Hs & He & -> & ->).
  exists d, body, tail. split_and!; [done.. |]. unfold mbind, result_bind in H. cbn [df_end] in H.
  change (drop (1 + length body) (RULE_RPL_DIO :: body ++ tail)) with (drop (length body) (body ++ tail)) in H.
  rewrite drop_app_length in H. destruct (length out <? _)%nat eqn:E; [done |]. bool_to_prop. lia.
Qed.

(** *** DAO (rule 4) *)

Record DaoSent := { a_hop : Z; a_src : Z; a_dst : Z; a_instance : Z; a_kd : Z; a_seq : Z; a_dodagid : Z }.
Definition dao_sent_ok (d : DaoSent) : Prop :=
  is_u8 d.(a_hop) /\ iid_ok d.(a_src) /\ iid_ok d.(a_dst) /\ is_u8 d.(a_instance) /\ is_u8 d.(a_kd) /\
  is_u8 d.(a_seq) /\ 0 <= d.(a_dodagid) < 2 ^ 128 /\ Z.land d.(a_kd) 0x40 <> 0.
Definition dao_fields (d : DaoSent) : list (Z * nat) :=
  [(d.(a_hop), 8%nat); (d.(a_src), 64%nat); (d.(a_dst), 64%nat); (d.(a_instance), 8%nat); (d.(a_kd), 8%nat);
   (d.(a_seq), 8%nat); (d.(a_dodagid), 128%nat)].
Definition dao_body (d : DaoSent) : bytes :=
  [d.(a_instance); d.(a_kd); 0; d.(a_seq)] ++ to_be 16 d.(a_dodagid).
Definition dao_packet (d : DaoSent) (ck : Z) (tail : bytes) : bytes :=
  icmp_packet d.(a_hop) d.(a_src) d.(a_dst) 155 2 ck (dao_body d ++ tail).
Definition dao_ck (d : DaoSent) (tail : bytes) : Z := icmp_ck d.(a_src) d.(a_dst) 155 2 (dao_body d ++ tail).

Lemma dao_body_length d : length (dao_body d) = 20%nat.
Proof. done. Qed.

Lemma dao_body_ok d : dao_sent_ok d -> bytes_ok (dao_body d).
Proof.
  intros (?&?&?&?&?&?&?&?). unfold dao_body.
  apply Forall_app; split; [repeat (constructor; [done |]); constructor | apply to_be_ok].
Qed.

Lemma read_dao_ok d body tail :
  dao_sent_ok d -> encodes body (field_bits (dao_fields d)) ->
  reader_value (read_dao (br_new (body ++ tail))) =
  Ok {| af_hop := d.(a_hop); af_src := d.(a_src); af_dst := d.(a_dst); af_instance := d.(a_instance);
        af_kd_flags := d.(a_kd); af_seq := d.(a_seq); af_dodagid := d.(a_dodagid); af_end := length body |}.
Proof.
  intros (?&?&?&?&?&?&?&Hkd) He. unfold iid_ok in *.
  destruct (encodes_reading body tail _ He) as (rest & Hr).
  unfold dao_fields in Hr. cbn [field_bits] in Hr. rewrite app_nil_r, <- !app_assoc in Hr.
  unfold read_dao. do 7 read_step. rewrite (proj2 (Z.eqb_neq _ _) Hkd).
  erewrite bind_end; [| | exact He | done]; [done |].
  match goal with H : reading _ _ ?a _ |- reading _ _ ?b _ => replace b with a; [exact H |] end.
  by rewrite length_field_bits.
Qed.

Lemma read_dao_inv buf f :
  bytes_ok buf -> reader_value (read_dao (br_new buf)) = Ok f ->
  exists d body tail, dao_sent_ok d /\ encodes body (field_bits (dao_fields d)) /\ buf = body ++ tail /\
    f = {| af_hop := d.(a_hop); af_src := d.(a_src); af_dst := d.(a_dst); af_instance := d.(a_instance);
           af_kd_flags := d.(a_kd); af_seq := d.(a_seq); af_dodagid := d.(a_dodagid); af_end := length body |}.
Proof.
  intros Hok H. apply reader_value_inv in H as [r H]. unfold read_dao in H.
  pose proof (reading_new buf) as Hr. do 7 read_step_inv H. subst.
  destruct (Z.land v3 0x40 =? 0) eqn:Ek; [done |]. apply Z.eqb_neq in Ek.
  set (d := {| a_hop := v; a_src := v0; a_dst := v1; a_instance := v2; a_kd := v3; a_seq := v4; a_dodagid := v5 |}).
  read_end_inv H Hok (dao_fields d).
  exists d, body, tail. split; [| split; [done | split; [done |]]].
  - unfold dao_sent_ok, iid_ok, is_u8, is_u16, u8_max, u16_max. cbn in *. lia.
  - injection H as <- _. reflexivity.
Qed.

Lemma dao_needed d : div_ceil8 (length (field_bits (dao_fields d))) = 36%nat.
Proof. by rewrite length_field_bits. Qed.

Lemma compress_dao_ok d ck tail out :
  dao_sent_ok d -> Z.of_nat (37 + length tail) <= SCHC_FRAG_MAX_PACKET_SIZE -> (37 + length tail <= length out)%nat ->
  exists body, encodes body (field_bits (dao_fields d)) /\
    compress_rpl_dao (dao_packet d ck tail) out =
    (Ok (37 + length tail)%nat, (RULE_RPL_DAO :: body ++ tail) ++ replicate (length out - (37 + length tail)) 0).
Proof.
  intros (?&?&?&?&?&?&?&Hkd) Hn Hout.
  destruct (emit_ok RULE_RPL_DAO (dao_fields d) (fun w => 1 + byte_len w)%nat (37 + length tail)%nat tail out 36)
    as (body & He & Ee); [by rewrite dao_needed | done | done | by intros ? -> |].
  exists body. split; [done |]. rewrite <- Ee. unfold compress_rpl_dao, dao_packet.
  rewrite icmp_packet_length, (icmp_packet_drop 0). unfold icmp_packet.
  rewrite ip6_ensure, ip6_src, ip6_dst, ip6_hop by apply addr_length.
  rewrite !iid_of_addr by done. unfold mbind, result_bind. rewrite length_app, dao_body_length.
  rewrite (proj2 (Nat.ltb_ge _ _)) by lia.
  change (drop 20 _) with tail. change (slice 4 20 _) with (to_be 16 (a_dodagid d)).
  change (nth 1 (drop 0 _) 0) with (a_kd d). change (negb (nth 2 (drop 0 _) 0 =? 0)) with false.
  rewrite (proj2 (Z.eqb_neq _ _) Hkd), to_be_16_u128 by done. cbn [orb].
  rewrite preflight_ok; [done | |]; change (div_ceil8 _) with 36%nat; lia.
Qed.

Lemma decompress_dao_ok d body tail out :
  dao_sent_ok d -> encodes body (field_bits (dao_fields d)) -> bytes_ok tail ->
  Z.of_nat (length tail) + 24 <= 65535 -> (64 + length tail <= length out)%nat ->
  decompress_rpl_dao (RULE_RPL_DAO :: body ++ tail) out =
  (Ok (64 + length tail)%nat, dao_packet d (dao_ck d tail) tail ++ drop (64 + length tail) out).
Proof.
  intros Hs He Htl Hlen Hout. unfold decompress_rpl_dao.
  change (drop 1 (RULE_RPL_DAO :: body ++ tail)) with (body ++ tail).
  rewrite (read_dao_ok d body tail Hs He). pose proof (dao_body_ok d Hs) as Hbok. destruct Hs as (?&?&?&?&?&?&?&?).
  unfold mbind, result_bind.
  cbn [af_hop af_src af_dst af_instance af_kd_flags af_seq af_dodagid af_end].
  change (drop (1 + length body) (RULE_RPL_DAO :: body ++ tail)) with (drop (length body) (body ++ tail)).
  rewrite drop_app_length, (ll_addr (a_src d)), (ll_addr (a_dst d)) by done.
  change (LINK_LOCAL_64 ++ to_be 8 (a_src d)) with (addr true (a_src d)).
  change (LINK_LOCAL_64 ++ to_be 8 (a_dst d)) with (addr true (a_dst d)).
  rewrite (proj2 (Nat.ltb_ge _ _)) by lia. f_equal.
  change ([155; 2; 0; 0; a_instance d; a_kd d; 0; a_seq d] ++ to_be 16 (a_dodagid d)) with (155 :: 2 :: 0 :: 0 :: dao_body d).
  rewrite write_rpl_packet; [| done | done | done | rewrite length_app, dao_body_length; lia..].
  unfold dao_packet, dao_ck. by rewrite length_app, dao_body_length.
Qed.

Lemma decompress_dao_inv data out n out' :
  bytes_ok data -> decompress_rpl_dao (RULE_RPL_DAO :: data) out = (Ok n, out') ->
  exists d body tail, dao_sent_ok d /\ encodes body (field_bits (dao_fields d)) /\ data = body ++ tail /\
    (64 + length tail <= length out)%nat.
Proof.
  intros Hok H. unfold decompress_rpl_dao in H. change (drop 1 (RULE_RPL_DAO :: data)) with data in H.
  destruct (reader_value _) as [f|] eqn:Ef; [| done].
  destruct (read_dao_inv data f Hok Ef) as (d & body & tail & Hs & He & -> & ->).
  exists d, body, tail. split_and!; [done.. |]. unfold mbind, result_bind in H. cbn [af_end] in H.
  change (drop (1 + length body) (RULE_RPL_DAO :: body ++ tail)) with (drop (length body) (body ++ tail)) in H.
  rewrite drop_app_length in H. destruct (length out <? _)%nat eqn:E; [done |]. bool_to_prop. lia.
Qed.

(** ** MQTT-SN (rule 7) *)

Record MqttSent := { m_hop : Z; m_src : bytes; m_dst : bytes; m_direction : Z; m_port : Z }.
Definition m_link_local (m : MqttSent) : bool := is_link_local_64 m.(m_src) && is_link_local_64 m.(m_dst).
Definition mqtt_sent_ok (m : MqttSent) : Prop :=
  is_u8 m.(m_hop) /\ (bytes_ok m.(m_src) /\ length m.(m_src) = 16%nat) /\
  (bytes_ok m.(m_dst) /\ length m.(m_dst) = 16%nat) /\ validate_address_policy m.(m_src) m.(m_dst) = Ok tt /\
  is_u16 m.(m_port) /\ (m.(m_direction) = 0 \/ m.(m_direction) = 1 /\ m.(m_port) <> PORT_MQTT_SN).
Definition mqtt_addresses (m : MqttSent) : list (Z * nat) :=
  if m_link_local m then
    [(0, 1%nat); (from_be (slice 8 16 m.(m_src)), 64%nat); (from_be (slice 8 16 m.(m_dst)), 64%nat)]
  else [(1, 1%nat); (from_be m.(m_src), 128%nat); (from_be m.(m_dst), 128%nat)].
Definition mqtt_fields (m : MqttSent) : list (Z * nat) :=
  [(m.(m_hop), 8%nat)] ++ mqtt_addresses m ++ [(m.(m_direction), 1%nat); (m.(m_port), 16%nat)].
Definition mqtt_sport (m : MqttSent) : Z := if m.(m_direction) =? 0 then PORT_MQTT_SN else m.(m_port).
Definition mqtt_dport (m : MqttSent) : Z := if m.(m_direction) =? 0 then m.(m_port) else PORT_MQTT_SN.
Definition mqtt_packet (m : MqttSent) (ck : Z) (tail : bytes) : bytes :=
  ip6 17 m.(m_hop) m.(m_src) m.(m_dst) (udp (mqtt_sport m) (mqtt_dport m) ck tail).
Definition mqtt_residue_len (m : MqttSent) : nat := if m_link_local m then 20%nat else 36%nat.

Lemma mqtt_needed m : div_ceil8 (length (field_bits (mqtt_fields m))) = mqtt_residue_len m.
Proof.
  rewrite length_field_bits. unfold mqtt_fields, mqtt_addresses, mqtt_residue_len. by destruct (m_link_local m).
Qed.

Lemma ll_form a : bytes_ok a -> length a = 16%nat -> is_link_local_64 a = true ->
  a = to_be 16 (Z.lor LINK_LOCAL_PREFIX (from_be (slice 8 16 a))) /\ 0 <= from_be (slice 8 16 a) < 2 ^ 64.
Proof.
  intros Ha Hl Hf. pose proof (addr_sent_bound true a Ha Hl) as Hb. split; [| exact Hb].
  rewrite ll_addr by exact Hb. exact (addr_of_form true a Ha Hl Hf).
Qed.

Lemma u128_form a : bytes_ok a -> length a = 16%nat -> a = to_be 16 (from_be a) /\ 0 <= from_be a < 2 ^ 128.
Proof.
  intros Ha Hl. split; [by rewrite <- Hl, to_be_from_be |].
  pose proof (from_be_bound a Ha) as H. rewrite Hl in H. exact H.
Qed.

Lemma direction_port dir port :
  dir = 0 \/ dir = 1 /\ port <> PORT_MQTT_SN -> (dir =? 1) && (port =? PORT_MQTT_SN) = false.
Proof. intros [-> | [-> H]]; [done |]. by rewrite (proj2 (Z.eqb_neq _ _) H). Qed.

Lemma R_ret_l {A B} (a : A) (k : A -> R B) r : (mret a ≫= k) r = k a r.
Proof. done. Qed.
Lemma R_lift_ok {A B} (a : A) (k : A -> R B) r : (r_lift (Ok a) ≫= k) r = k a r.
Proof. done. Qed.

Lemma read_mqtt_ok m body tail :
  mqtt_sent_ok m -> encodes body (field_bits (mqtt_fields m)) ->
  reader_value (read_mqtt_sn (br_new (body ++ tail))) =
  Ok {| mf_hop := m.(m_hop); mf_src := m.(m_src); mf_dst := m.(m_dst); mf_direction := m.(m_direction);
        mf_port := m.(m_port); mf_end := length body |}.
Proof.
  intros (Hh & (Hs & Hsl) & (Hd & Hdl) & Hpol & Hp & Hdir) He.
  assert (0 <= m.(m_direction) < 2) as Hdb by lia.
  pose proof (direction_port _ _ Hdir) as Hdp.
  destruct (encodes_reading body tail _ He) as (rest & Hr).
  unfold mqtt_fields, mqtt_addresses in Hr. unfold read_mqtt_sn.
  destruct (m_link_local m) eqn:Em; unfold m_link_local in Em; cbn [field_bits app] in Hr;
    rewrite app_nil_r, <- !app_assoc in Hr; do 2 read_step; cbn [Z.eqb].
  - apply andb_true_iff in Em as [El1 El2].
    destruct (ll_form _ Hs Hsl El1) as [Es Esb]. destruct (ll_form _ Hd Hdl El2) as [Ed Edb].
    rewrite R_assoc. read_step. rewrite R_assoc. read_step.
    rewrite R_ret_l. cbn beta iota. rewrite <- Es, <- Ed, Hpol, R_lift_ok. cbn beta iota.
    cbn [andb]. do 2 read_step. rewrite Hdp. erewrite bind_end; [| | exact He | done]; [done |].
    match goal with H : reading _ _ ?a _ |- reading _ _ ?b _ => replace b with a; [exact H |] end.
    rewrite length_field_bits. unfold mqtt_fields, mqtt_addresses, m_link_local. by rewrite El1, El2.
  - destruct (u128_form _ Hs Hsl) as [Es Esb]. destruct (u128_form _ Hd Hdl) as [Ed Edb].
    rewrite R_assoc. read_step. rewrite R_assoc. read_step.
    rewrite R_ret_l. cbn beta iota. rewrite <- Es, <- Ed, Hpol, R_lift_ok. cbn beta iota.
    change (1 =? 1)%positive with true. cbn [andb]. rewrite Em. do 2 read_step. rewrite Hdp. erewrite bind_end; [| | exact He | done]; [done |].
    match goal with H : reading _ _ ?a _ |- reading _ _ ?b _ => replace b with a; [exact H |] end.
    rewrite length_field_bits. unfold mqtt_fields, mqtt_addresses, m_link_local. by rewrite Em.
Qed.

Lemma field_bits_app k l : field_bits (k ++ l) = field_bits k ++ field_bits l.
Proof. induction k as [|[v n] k IH]; [done |]. cbn [app field_bits]. by rewrite IH, app_assoc. Qed.

(** The checks between the address and the ports. *)
Definition mqtt_ports (mode : Z) (hop : Z) (src dst : bytes) : R MqttFields :=
  _ ← r_lift (validate_address_policy src dst);
  if (mode =? 1) && is_link_local_64 src && is_link_local_64 dst then
    r_err (NonCanonicalResidue "full-address mode used for two fe80::/64 addresses")
  else
    direction ← read_u8 1;
    other_port ← read_u16 16;
    if (direction =? 1) && (other_port =? PORT_MQTT_SN) then
      r_err (NonCanonicalResidue "both MQTT-SN ports require direction zero")
    else
      stop ← end_residue "nonzero Rule 7 residue padding";
      mret {| mf_hop := hop; mf_src := src; mf_dst := dst; mf_direction := direction;
              mf_port := other_port; mf_end := stop |}.

Lemma mqtt_ports_inv mode hop src dst r0 buf bs rest0 f r addresses :
  mqtt_ports mode hop src dst r0 = Ok (f, r) -> bytes_ok buf ->
  reading r0 buf (length (field_bits ((hop, 8%nat) :: addresses))) rest0 ->
  bits_of_bytes buf = bs ++ rest0 -> bs = field_bits ((hop, 8%nat) :: addresses) -> is_u8 hop ->
  bytes_ok src -> bytes_ok dst -> length src = 16%nat -> length dst = 16%nat ->
  (((mode =? 1) && is_link_local_64 src && is_link_local_64 dst) = false ->
     addresses = mqtt_addresses {| m_hop := hop; m_src := src; m_dst := dst; m_direction := 0; m_port := 0 |}) ->
  exists m body tail, mqtt_sent_ok m /\ encodes body (field_bits (mqtt_fields m)) /\ buf = body ++ tail /\
    f = {| mf_hop := m.(m_hop); mf_src := m.(m_src); mf_dst := m.(m_dst); mf_direction := m.(m_direction);
           mf_port := m.(m_port); mf_end := length body |}.
Proof.
  intros H Hok Hr Hbits Hbs Hh Hs Hd Hsl Hdl Haddr. unfold mqtt_ports in H.
  destruct (validate_address_policy src dst) as [[]|] eqn:Hpol; [rewrite R_lift_ok in H | done].
  cbn beta iota in H. destruct (_ && _ && _) eqn:Ell; [done |].
  do 2 read_step_inv H. destruct ((v =? 1) && _) eqn:Ed; [done |].
  set (m := {| m_hop := hop; m_src := src; m_dst := dst; m_direction := v; m_port := v0 |}).
  assert (addresses = mqtt_addresses m) as -> by (by apply Haddr).
  match goal with
  | Hr : reading ?r ?buf ?d ?rest |- _ =>
      assert (reading r buf (length (field_bits (mqtt_fields m))) rest) as Hr'
  end.
  { match goal with H : reading ?r _ ?d _ |- reading ?r _ ?d' _ => replace d' with d; [exact H |] end.
    change (mqtt_fields m) with (((hop, 8%nat) :: mqtt_addresses m) ++ [(v, 1%nat); (v0, 16%nat)]).
    rewrite field_bits_app, length_app, <- Nat.add_assoc. done. }
  assert (bits_of_bytes buf = field_bits (mqtt_fields m) ++ rest1) as Hb'.
  { rewrite Hbits, Hbs. subst.
    change (mqtt_fields m) with (((hop, 8%nat) :: mqtt_addresses m) ++ [(v, 1%nat); (v0, 16%nat)]).
    rewrite field_bits_app, <- app_assoc. done. }
  destruct (bind_end_inv _ _ _ _ _ _ _ H Hok Hr' Hb') as (body & tail & Hbuf & He & H').
  exists m, body, tail. split; [| split; [done | split; [done |]]].
  - unfold mqtt_sent_ok. cbn [m m_hop m_src m_dst m_direction m_port]. split_and!; try done; [cbn in *; width |].
    cbn in Hv. destruct (decide (v = 0)); [by left | right]. assert (v = 1) as -> by lia.
    split; [done |]. cbn [Z.eqb andb] in Ed. by apply Z.eqb_neq in Ed.
  - injection H' as <- _. done.
Qed.

Lemma read_mqtt_inv buf f :
  bytes_ok buf -> reader_value (read_mqtt_sn (br_new buf)) = Ok f ->
  exists m body tail, mqtt_sent_ok m /\ encodes body (field_bits (mqtt_fields m)) /\ buf = body ++ tail /\
    f = {| mf_hop := m.(m_hop); mf_src := m.(m_src); mf_dst := m.(m_dst); mf_direction := m.(m_direction);
           mf_port := m.(m_port); mf_end := length body |}.
Proof.
  intros Hok H. apply reader_value_inv in H as [r H]. unfold read_mqtt_sn in H.
  pose proof (reading_new buf) as Hr. do 2 read_step_inv H. subst.
  assert (is_u8 v) as Hh by (cbn in Hv; width).
  destruct (v0 =? 0) eqn:E0.
  - apply Z.eqb_eq in E0 as ->. rewrite R_assoc in H. read_step_inv H. rewrite R_assoc in H. read_step_inv H.
    rewrite R_ret_l in H. cbn beta iota in H. subst.
    assert (iid_ok v0 /\ iid_ok v1) as [Hi1 Hi2] by done.
    rewrite (ll_addr v0), (ll_addr v1) in H by done.
    change (LINK_LOCAL_64 ++ to_be 8 ?x) with (addr true x) in H.
    match goal with Hr : reading ?r' buf _ ?rest' |- _ => eapply (mqtt_ports_inv 0 v _ _ r' buf _ rest' f r [(0, 1%nat); (v0, 64%nat); (v1, 64%nat)]);
      [exact H | done | exact Hr | | reflexivity | done | apply addr_ok | apply addr_ok | apply addr_length | apply addr_length | ] end.
    + match goal with E : bits_of_bytes buf = _ |- _ => rewrite E end. cbn [field_bits]. by rewrite app_nil_r, <- !app_assoc.
    + intros _. unfold mqtt_addresses, m_link_local. cbn [m_src m_dst].
      change (is_link_local_64 (addr true v0)) with true. change (is_link_local_64 (addr true v1)) with true.
      cbn [andb]. by rewrite !iid_of_addr.
  - assert (v0 = 1) as -> by (cbn in Hv0; bool_to_prop; lia).
    rewrite R_assoc in H. read_step_inv H. rewrite R_assoc in H. read_step_inv H.
    rewrite R_ret_l in H. cbn beta iota in H. subst.
    match goal with Hr : reading ?r' buf _ ?rest' |- _ => eapply (mqtt_ports_inv 1 v _ _ r' buf _ rest' f r [(1, 1%nat); (v0, 128%nat); (v1, 128%nat)]);
      [exact H | done | exact Hr | | reflexivity | done | apply to_be_ok | apply to_be_ok | apply length_to_be | apply length_to_be | ] end.
    + match goal with E : bits_of_bytes buf = _ |- _ => rewrite E end. cbn [field_bits]. by rewrite app_nil_r, <- !app_assoc.
    + intros El. change (1 =? 1) with true in El. cbn [andb] in El.
      unfold mqtt_addresses, m_link_local. cbn [m_src m_dst]. rewrite El. by rewrite !to_be_16_u128.
Qed.

Lemma mqtt_sport_u16 m : mqtt_sent_ok m -> is_u16 (mqtt_sport m).
Proof. intros (_&_&_&_&?&_). unfold mqtt_sport. by destruct (_ =? 0). Qed.
Lemma mqtt_dport_u16 m : mqtt_sent_ok m -> is_u16 (mqtt_dport m).
Proof. intros (_&_&_&_&?&_). unfold mqtt_dport. by destruct (_ =? 0). Qed.

(** The direction and the other port follow from the two ports. *)
Lemma mqtt_port_choice m :
  mqtt_sent_ok m ->
  (if mqtt_sport m =? PORT_MQTT_SN then 0 else 1) = m.(m_direction) /\
  (if mqtt_sport m =? PORT_MQTT_SN then mqtt_dport m else mqtt_sport m) = m.(m_port) /\
  negb (mqtt_sport m =? PORT_MQTT_SN) && negb (mqtt_dport m =? PORT_MQTT_SN) = false.
Proof.
  intros (_&_&_&_&_&Hd). unfold mqtt_sport, mqtt_dport. destruct Hd as [-> | [-> Hp]]; [done |].
  cbn [Z.eqb]. by rewrite (proj2 (Z.eqb_neq _ _) Hp).
Qed.

Lemma compress_mqtt_ok m ck tail out :
  mqtt_sent_ok m -> udp_checksum m.(m_src) m.(m_dst) (mqtt_sport m) (mqtt_dport m) tail = Ok ck -> is_u16 ck ->
  let needed := (1 + mqtt_residue_len m + length tail)%nat in
  Z.of_nat needed <= SCHC_FRAG_MAX_PACKET_SIZE -> (needed <= length out)%nat ->
  exists body, encodes body (field_bits (mqtt_fields m)) /\
    compress_mqtt_sn (mqtt_packet m ck tail) out =
    (Ok needed, (RULE_MQTT_SN :: body ++ tail) ++ replicate (length out - needed) 0).
Proof.
  intros Hm Hck Hcku needed Hn Hout.
  destruct (mqtt_port_choice m Hm) as (Edir & Eport & Eno).
  pose proof (mqtt_sport_u16 m Hm) as Hsp. pose proof (mqtt_dport_u16 m Hm) as Hdp.
  pose proof (udp_checksum_ok _ _ _ _ _ _ Hck) as [Hl Hck0].
  destruct Hm as (Hh & (Hs & Hsl) & (Hd & Hdl) & Hpol & Hp & Hdir).
  destruct (emit_ok RULE_MQTT_SN (mqtt_fields m) (fun w => 1 + byte_len w)%nat needed tail out (mqtt_residue_len m))
    as (body & He & Ee); [by rewrite mqtt_needed | done | done | by intros ? -> |].
  exists body. split; [done |]. rewrite <- Ee. unfold compress_mqtt_sn, mqtt_packet.
  assert (Z.of_nat (length (udp (mqtt_sport m) (mqtt_dport m) ck tail)) <= 65535) as Hul by (rewrite udp_length; lia).
  rewrite ip6_ensure, ip6_length, ip6_nh, ip6_hop, ip6_src, ip6_dst, ip6_flow, ip6_payload, ip6_len by done.
  unfold mbind, result_bind. rewrite udp_length, (proj2 (Nat.ltb_ge _ _)) by lia. cbn [negb].
  replace (Z.of_nat (40 + (8 + length tail) - 40)) with (Z.of_nat (8 + length tail)) by lia.
  change (17 =? 17) with true. rewrite Z.eqb_refl, Hpol. cbn [negb].
  rewrite udp_len, udp_sport, udp_dport, udp_cksum, udp_body by (done || lia).
  rewrite (proj2 (Z.ltb_ge _ 8)) by lia. replace (Z.of_nat (8 + length tail)) with (8 + Z.of_nat (length tail)) by lia.
  rewrite Z.eqb_refl. cbn [negb orb]. rewrite Eno, (proj2 (Z.eqb_neq ck 0) Hck0), Hck, Z.eqb_refl. cbn [negb].
  rewrite Edir, Eport. fold (m_link_local m).
  assert ((1 + div_ceil8 (if m_link_local m then 8 + 1 + 64 + 64 + 1 + 16 else 8 + 1 + 128 + 128 + 1 + 16) + length tail)%nat
     = needed) as -> by (unfold needed, mqtt_residue_len; by destruct (m_link_local m)).
  rewrite preflight_ok by lia. done.
Qed.

Lemma mqtt_form p :
  udp_valid p -> validate_address_policy (slice 8 24 p) (slice 24 40 p) = Ok tt ->
  u16_at (drop 40 p) 0 = PORT_MQTT_SN \/ u16_at (drop 40 p) 2 = PORT_MQTT_SN ->
  exists m, mqtt_sent_ok m /\ p = mqtt_packet m (u16_at (drop 40 p) 6) (drop 48 p).
Proof.
  intros Hv Hpol Hport. pose proof (udp_valid_form p Hv) as Hform. destruct Hv.
  assert (bytes_ok (drop 40 p)) as Huok by (by apply Forall_drop).
  set (sp := u16_at (drop 40 p) 0) in *. set (dp := u16_at (drop 40 p) 2) in *.
  exists {| m_hop := nth 7 p 0; m_src := slice 8 24 p; m_dst := slice 24 40 p;
       m_direction := if sp =? PORT_MQTT_SN then 0 else 1; m_port := if sp =? PORT_MQTT_SN then dp else sp |}.
  split.
  - unfold mqtt_sent_ok. cbn [m_hop m_src m_dst m_direction m_port]. split_and!.
    + by apply nth_is_u8.
    + by apply slice_Forall.
    + rewrite slice_length; lia.
    + by apply slice_Forall.
    + rewrite slice_length; lia.
    + done.
    + destruct (sp =? _); by apply u16_at_u16.
    + destruct (sp =? PORT_MQTT_SN) eqn:E; bool_to_prop; [by left | right]. done.
  - rewrite Hform at 1. unfold mqtt_packet, mqtt_sport, mqtt_dport. cbn [m_hop m_src m_dst m_direction m_port].
    destruct (sp =? PORT_MQTT_SN) eqn:E; bool_to_prop; cbn [Z.eqb].
    + by rewrite <- E.
    + destruct Hport as [?|Ed]; [done |]. by rewrite <- Ed.
Qed.

Lemma decompress_mqtt_ok m body tail out :
  mqtt_sent_ok m -> encodes body (field_bits (mqtt_fields m)) ->
  Z.of_nat (length tail) + 8 <= 65535 -> (48 + length tail <= length out)%nat ->
  exists ck, udp_checksum m.(m_src) m.(m_dst) (mqtt_sport m) (mqtt_dport m) tail = Ok ck /\
    decompress_mqtt_sn (RULE_MQTT_SN :: body ++ tail) out RULE_MQTT_SN =
    (Ok (48 + length tail)%nat, mqtt_packet m ck tail ++ drop (48 + length tail) out).
Proof.
  intros Hm He Hl Hout.
  destruct (udp_checksum_defined m.(m_src) m.(m_dst) (mqtt_sport m) (mqtt_dport m) tail) as [ck Hck]; [lia |].
  exists ck. split; [done |]. unfold decompress_mqtt_sn.
  change ((length (RULE_MQTT_SN :: body ++ tail) =? 0)%nat || negb (nth 0 (RULE_MQTT_SN :: body ++ tail) 0 =? RULE_MQTT_SN)) with false.
  change (drop 1 (RULE_MQTT_SN :: body ++ tail)) with (body ++ tail).
  rewrite (read_mqtt_ok m body tail Hm He). unfold mbind, result_bind. cbn [mf_hop mf_src mf_dst mf_direction mf_port mf_end].
  change (drop (1 + length body) (RULE_MQTT_SN :: body ++ tail)) with (drop (length body) (body ++ tail)).
  rewrite drop_app_length. fold (mqtt_sport m) (mqtt_dport m).
  rewrite (proj2 (Z.ltb_ge _ _)) by lia. rewrite Hck, (proj2 (Nat.ltb_ge _ _)) by lia.
  assert (wrap16 (Z.of_nat (8 + length tail)) = 8 + Z.of_nat (length tail)) as ->
    by (unfold wrap16; rewrite Z.mod_small; lia).
  destruct Hm as (Hh & (Hs & Hsl) & (Hd & Hdl) & Hrest).
  by rewrite write_udp_packet by (done || lia).
Qed.

Lemma decompress_mqtt_inv data out n out' :
  bytes_ok data -> decompress_mqtt_sn (RULE_MQTT_SN :: data) out RULE_MQTT_SN = (Ok n, out') ->
  exists m body tail, mqtt_sent_ok m /\ encodes body (field_bits (mqtt_fields m)) /\ data = body ++ tail /\
    Z.of_nat (length tail) + 8 <= 65535 /\ (48 + length tail <= length out)%nat.
Proof.
  intros Hok H. unfold decompress_mqtt_sn in H.
  change ((length (RULE_MQTT_SN :: data) =? 0)%nat || negb (nth 0 (RULE_MQTT_SN :: data) 0 =? RULE_MQTT_SN)) with false in H.
  change (drop 1 (RULE_MQTT_SN :: data)) with data in H.
  destruct (reader_value _) as [f|] eqn:Ef; [| done].
  destruct (read_mqtt_inv data f Hok Ef) as (m & body & tail & Hm & He & -> & ->).
  exists m, body, tail. split_and!; [done.. | |];
    unfold mbind, result_bind in H; cbn [mf_hop mf_src mf_dst mf_direction mf_port mf_end] in H;
    change (drop (1 + length body) (RULE_MQTT_SN :: body ++ tail)) with (drop (length body) (body ++ tail)) in H;
    rewrite drop_app_length in H; destruct (65535 <? _) eqn:E1; [done | | done |]; bool_to_prop; [lia |].
  destruct (udp_checksum _ _ _ _ _); [| done]. destruct (length out <? _)%nat eqn:E2; [done |]. bool_to_prop. lia.
Qed.
