(* ===== verification/SchcRoundtrip.v ===== *)
(** * SCHC header compression: what is accepted, and the round trips

    [residue data p] says, rule by rule, which encoded packets stand for which
    IPv6 packets.  [decompress] implements it exactly, [compress] always lands
    in it, and every residue of a compressed rule is what [compress] would emit. *)

From stdpp Require Import strings.
From S2P Require Import Prelude SchcBits SchcCheck Schc SchcSpec SchcRules.
Open Scope Z_scope.

Module SchcRoundtrip.

Inductive residue : bytes -> bytes -> Prop :=
  | residue_coap ll o c ck body tail :
      coap_sent_ok ll c -> encodes body (field_bits (coap_fields ll c)) -> bytes_ok tail ->
      has_oscore_option_parts (coap_head c) tail = o ->
      udp_checksum (addr ll c.(c_src)) (addr ll c.(c_dst)) (5680 + c.(c_sport)) (5680 + c.(c_dport))
        (coap_head c ++ tail) = Ok ck ->
      residue (coap_rule ll o :: body ++ tail) (coap_packet ll c ck tail)
  | residue_echo e body tail :
      echo_sent_ok e -> encodes body (field_bits (echo_fields e)) -> bytes_ok tail ->
      residue (RULE_ICMPV6_ECHO :: body ++ tail) (echo_packet e (echo_ck e tail) tail)
  | residue_dio d body tail :
      dio_sent_ok d -> encodes body (field_bits (dio_fields d)) -> bytes_ok tail ->
      residue (RULE_RPL_DIO :: body ++ tail) (dio_packet d (dio_ck d tail) tail)
  | residue_dao d body tail :
      dao_sent_ok d -> encodes body (field_bits (dao_fields d)) -> bytes_ok tail ->
      residue (RULE_RPL_DAO :: body ++ tail) (dao_packet d (dao_ck d tail) tail)
  | residue_mqtt m ck body tail :
      mqtt_sent_ok m -> encodes body (field_bits (mqtt_fields m)) -> bytes_ok tail ->
      udp_checksum m.(m_src) m.(m_dst) (mqtt_sport m) (mqtt_dport m) tail = Ok ck ->
      residue (RULE_MQTT_SN :: body ++ tail) (mqtt_packet m ck tail)
  | residue_raw p :
      bytes_ok p -> validate_full_ipv6_structure p = Ok tt -> residue (RULE_UNCOMPRESSED :: p) p.

Definition within_profile (data : bytes) : Prop := Z.of_nat (length data) <= SCHC_FRAG_MAX_PACKET_SIZE.

Lemma above_profile_false data : within_profile data -> above_profile (length data) = false.
Proof. intros H. unfold above_profile. by apply Z.ltb_ge. Qed.

Lemma encodes_len body bs : encodes body bs -> length body = div_ceil8 (length bs).
Proof. by intros (_ & H & _). Qed.

Lemma coap_packet_length ll c ck tail : length (coap_packet ll c ck tail) = (52 + length tail)%nat.
Proof. unfold coap_packet. rewrite ip6_length, udp_length, length_app by apply addr_length. done. Qed.
Lemma echo_packet_length e ck tail : length (echo_packet e ck tail) = (48 + length tail)%nat.
Proof. unfold echo_packet. rewrite icmp_packet_length. unfold echo_rest. rewrite !length_app, !length_to_be. lia. Qed.
Lemma dio_packet_length d ck tail : length (dio_packet d ck tail) = (68 + length tail)%nat.
Proof. unfold dio_packet. by rewrite icmp_packet_length, length_app, dio_body_length. Qed.
Lemma dao_packet_length d ck tail : length (dao_packet d ck tail) = (64 + length tail)%nat.
Proof. unfold dao_packet. by rewrite icmp_packet_length, length_app, dao_body_length. Qed.
Lemma mqtt_packet_length m ck tail : mqtt_sent_ok m -> length (mqtt_packet m ck tail) = (48 + length tail)%nat.
Proof. intros (_ & (_ & ?) & (_ & ?) & _). unfold mqtt_packet. by rewrite ip6_length, udp_length. Qed.

(** The dispatcher of [decompress], by rule byte. *)
Lemma decompress_coap_rule ll o rest out :
  within_profile (coap_rule ll o :: rest) ->
  decompress (coap_rule ll o :: rest) out = decompress_coap (coap_rule ll o :: rest) out (coap_rule ll o).
Proof. intros H. unfold decompress. rewrite above_profile_false by done. by destruct ll, o. Qed.

Ltac dispatch := intros H; unfold decompress; rewrite above_profile_false by done; done.
Lemma decompress_rule_2 rest out : within_profile (RULE_ICMPV6_ECHO :: rest) ->
  decompress (RULE_ICMPV6_ECHO :: rest) out = decompress_icmpv6_echo (RULE_ICMPV6_ECHO :: rest) out.
Proof. dispatch. Qed.
Lemma decompress_rule_3 rest out : within_profile (RULE_RPL_DIO :: rest) ->
  decompress (RULE_RPL_DIO :: rest) out = decompress_rpl_dio (RULE_RPL_DIO :: rest) out.
Proof. dispatch. Qed.
Lemma decompress_rule_4 rest out : within_profile (RULE_RPL_DAO :: rest) ->
  decompress (RULE_RPL_DAO :: rest) out = decompress_rpl_dao (RULE_RPL_DAO :: rest) out.
Proof. dispatch. Qed.
Lemma decompress_rule_7 rest out : within_profile (RULE_MQTT_SN :: rest) ->
  decompress (RULE_MQTT_SN :: rest) out = decompress_mqtt_sn (RULE_MQTT_SN :: rest) out RULE_MQTT_SN.
Proof. dispatch. Qed.
Lemma decompress_rule_255 rest out : within_profile (RULE_UNCOMPRESSED :: rest) ->
  decompress (RULE_UNCOMPRESSED :: rest) out = decode_rule255 (RULE_UNCOMPRESSED :: rest) out None.
Proof. dispatch. Qed.

Lemma decode_raw p out :
  within_profile (RULE_UNCOMPRESSED :: p) -> validate_full_ipv6_structure p = Ok tt -> (length p <= length out)%nat ->
  decode_rule255 (RULE_UNCOMPRESSED :: p) out None = (Ok (length p), p ++ drop (length p) out).
Proof.
  intros Hw Hv Hl. unfold decode_rule255. cbn [head]. rewrite bool_decide_eq_true_2 by done. cbn [negb profile_limit].
  rewrite (proj2 (Z.ltb_ge _ _)) by exact Hw. change (drop 1 (RULE_UNCOMPRESSED :: p)) with p.
  rewrite Hv, (proj2 (Nat.ltb_ge _ _)) by lia. by rewrite inserts_front.
Qed.

(** Every residue within the profile is accepted, and gives its packet. *)
Lemma decompress_residue data p out :
  residue data p -> within_profile data -> (length p <= length out)%nat ->
  decompress data out = (Ok (length p), p ++ drop (length p) out).
Proof.
  intros H Hw Hl. pose proof Hw as Hw'. unfold within_profile, SCHC_FRAG_MAX_PACKET_SIZE in Hw'.
  destruct H as [ll o c ck body tail Hc He Ht Ho Hck|e body tail Hs He Ht|d body tail Hs He Ht|d body tail Hs He Ht
    |m ck body tail Hs He Ht Hck|p Hok Hv]; cbn [length] in Hw'; rewrite ?length_app in Hw'.
  - rewrite coap_packet_length in *. rewrite decompress_coap_rule by done.
    destruct (decompress_coap_ok ll o c body tail out Hc He Ht ltac:(lia) Ho Hl) as (ck' & Hck' & ->). congruence.
  - rewrite echo_packet_length in *. rewrite decompress_rule_2 by done.
    apply decompress_echo_ok; (done || lia).
  - rewrite dio_packet_length in *. rewrite decompress_rule_3 by done.
    apply decompress_dio_ok; (done || lia).
  - rewrite dao_packet_length in *. rewrite decompress_rule_4 by done.
    apply decompress_dao_ok; (done || lia).
  - rewrite mqtt_packet_length in * by done. rewrite decompress_rule_7 by done.
    destruct (decompress_mqtt_ok m body tail out Hs He ltac:(lia) Hl) as (ck' & Hck' & ->). congruence.
  - rewrite decompress_rule_255 by done. by apply decode_raw.
Qed.

(** Nothing else is. *)
Lemma decompress_accepts data out n out' :
  bytes_ok data -> decompress data out = (Ok n, out') ->
  within_profile data /\ exists p, residue data p /\ (length p <= length out)%nat.
Proof.
  intros Hok H. unfold decompress in H. destruct data as [|id data]; [done |].
  destruct (above_profile _) eqn:Ew; [done |].
  assert (within_profile (id :: data)) as Hw by (unfold above_profile in Ew; by apply Z.ltb_ge in Ew).
  split; [done |]. apply Forall_cons in Hok as [_ Hok].
  assert (forall ll o, decompress_coap (coap_rule ll o :: data) out (coap_rule ll o) = (Ok n, out') ->
    exists p, residue (coap_rule ll o :: data) p /\ (length p <= length out)%nat) as Hcoap.
  { intros ll o Hd. destruct (decompress_coap_inv ll o data out n out' Hok Hd) as (c & body & tail & Hc & He & -> & Hl & Ho & Hout).
    apply Forall_app in Hok as [_ Ht].
    destruct (decompress_coap_ok ll o c body tail out Hc He Ht Hl Ho Hout) as (ck & Hck & _).
    exists (coap_packet ll c ck tail). split; [by constructor | by rewrite coap_packet_length]. }
  repeat match goal with
  | H : (if ?i =? ?r then _ else _) = _ |- _ => destruct (i =? r) eqn:?; [bool_to_prop; subst i | ]
  end; try done.
  - exact (Hcoap true false H).
  - exact (Hcoap false false H).
  - destruct (decompress_echo_inv data out n out' Hok H) as (e & body & tail & Hs & He & -> & Hl).
    apply Forall_app in Hok as [_ Ht]. eexists. split; [by constructor | by rewrite echo_packet_length].
  - destruct (decompress_dio_inv data out n out' Hok H) as (d & body & tail & Hs & He & -> & Hl).
    apply Forall_app in Hok as [_ Ht]. eexists. split; [by constructor | by rewrite dio_packet_length].
  - destruct (decompress_dao_inv data out n out' Hok H) as (d & body & tail & Hs & He & -> & Hl).
    apply Forall_app in Hok as [_ Ht]. eexists. split; [by constructor | by rewrite dao_packet_length].
  - exact (Hcoap true true H).
  - exact (Hcoap false true H).
  - destruct (decompress_mqtt_inv data out n out' Hok H) as (m & body & tail & Hs & He & -> & Hl & Hout).
    apply Forall_app in Hok as [_ Ht].
    destruct (decompress_mqtt_ok m body tail out Hs He Hl Hout) as (ck & Hck & _).
    exists (mqtt_packet m ck tail). split; [by constructor | by rewrite mqtt_packet_length].
  - unfold decode_rule255 in H. cbn [head] in H. destruct (negb _); [done |]. destruct (_ <? _); [done |].
    change (drop 1 (RULE_UNCOMPRESSED :: data)) with data in H.
    destruct (validate_full_ipv6_structure data) as [[]|] eqn:Hv; [| done].
    destruct (length out <? _)%nat eqn:El; [done |]. bool_to_prop.
    exists data. split; [by constructor | done].
Qed.

Lemma udp_checksum_u16 src dst sp dp payload ck : udp_checksum src dst sp dp payload = Ok ck -> is_u16 ck.
Proof.
  unfold udp_checksum, udp_checksum_parts. destruct (_ <? _); [done |]. intros H. apply ok_inj in H as <-.
  unfold ones_complement_sum. set (s := fold16 3 _). unfold wrap16.
  pose proof (Z.mod_pos_bound s 65536). destruct (_ =? 0); width.
Qed.

Lemma ext_headers_direct p : nth 6 p 0 = 17 \/ nth 6 p 0 = 58 -> ext_headers p = Ok (nth 6 p 0, 40%nat, slice 24 40 p).
Proof. intros [E|E]; unfold ext_headers; rewrite E; done. Qed.

Lemma validate_ip6_udp hop src dst sp dp ck body :
  length src = 16%nat -> length dst = 16%nat -> is_u16 sp -> is_u16 dp -> udp_checksum src dst sp dp body = Ok ck ->
  validate_full_ipv6_structure (ip6 17 hop src dst (udp sp dp ck body)) = Ok tt.
Proof.
  intros Hs Hd Hsp Hdp Hck. pose proof (udp_checksum_u16 _ _ _ _ _ _ Hck) as Hu.
  pose proof (udp_checksum_ok _ _ _ _ _ _ Hck) as [Hl H0].
  assert (Z.of_nat (length (udp sp dp ck body)) <= 65535) as Hul by (rewrite udp_length; lia).
  unfold validate_full_ipv6_structure. rewrite ip6_length, ip6_len by done.
  rewrite (proj2 (Nat.ltb_ge _ _)) by lia. change (Z.shiftr (nth 0 (ip6 _ _ _ _ _) 0) 4 =? 6) with true. cbn [negb].
  replace (Z.of_nat (40 + length (udp sp dp ck body))) with (40 + Z.of_nat (length (udp sp dp ck body))) by lia.
  rewrite Z.eqb_refl. cbn [negb]. rewrite ext_headers_direct by (by left).
  unfold mbind, result_bind. change (nth 6 (ip6 _ _ _ _ _) 0 =? 17) with true. cbn beta iota.
  rewrite ip6_src, ip6_dst, ip6_payload by done. unfold check_udp.
  rewrite udp_length, (proj2 (Nat.ltb_ge _ _)) by lia. rewrite udp_len, udp_cksum, udp_sport, udp_dport, udp_body by (done || lia).
  rewrite (proj2 (Z.ltb_ge _ _)) by lia. replace (Z.of_nat (8 + length body)) with (8 + Z.of_nat (length body)) by lia.
  rewrite Z.eqb_refl. cbn [negb orb]. rewrite (proj2 (Z.eqb_neq _ _) H0).
  unfold mbind, result_bind. by rewrite Hck, Z.eqb_refl.
Qed.

Lemma validate_ip6_icmp hop src dst payload :
  length src = 16%nat -> length dst = 16%nat -> Z.of_nat (length payload) <= 65535 ->
  validate_full_ipv6_structure (ip6 58 hop src dst payload) = Ok tt.
Proof.
  intros Hs Hd Hl. unfold validate_full_ipv6_structure. rewrite ip6_length, ip6_len by done.
  rewrite (proj2 (Nat.ltb_ge _ _)) by lia. change (Z.shiftr (nth 0 (ip6 _ _ _ _ _) 0) 4 =? 6) with true. cbn [negb].
  replace (Z.of_nat (40 + length payload)) with (40 + Z.of_nat (length payload)) by lia.
  rewrite Z.eqb_refl. cbn [negb]. by rewrite ext_headers_direct by (by right).
Qed.

Lemma coap_ports_u16 ll c : coap_sent_ok ll c -> is_u16 (5680 + c.(c_sport)) /\ is_u16 (5680 + c.(c_dport)).
Proof. intros (_&_&_&?&?&_). split; width. Qed.

Lemma residue_valid data p : residue data p -> within_profile data -> validate_full_ipv6_structure p = Ok tt.
Proof.
  intros H Hw. unfold within_profile, SCHC_FRAG_MAX_PACKET_SIZE in Hw.
  destruct H as [ll o c ck body tail Hc He Ht Ho Hck|e body tail Hs He Ht|d body tail Hs He Ht|d body tail Hs He Ht
    |m ck body tail Hs He Ht Hck|p Hok Hv]; cbn [length] in Hw; rewrite ?length_app in Hw.
  - destruct (coap_ports_u16 ll c Hc). by apply validate_ip6_udp; try apply addr_length.
  - apply validate_ip6_icmp; try apply addr_length. cbn [length]. unfold echo_rest.
    rewrite !length_app, !length_to_be. lia.
  - apply validate_ip6_icmp; try apply addr_length. cbn [length]. rewrite !length_app, length_to_be, dio_body_length. lia.
  - apply validate_ip6_icmp; try apply addr_length. cbn [length]. rewrite !length_app, length_to_be, dao_body_length. lia.
  - pose proof (mqtt_sport_u16 m Hs). pose proof (mqtt_dport_u16 m Hs).
    destruct Hs as (_ & (_ & ?) & (_ & ?) & _). by apply validate_ip6_udp.
  - done.
Qed.

(** ** Compression *)

(** What decompression gives back for [p]: [p], except that a valid ICMPv6
    checksum of 0x0000 comes back as 0xFFFF. *)
Definition restored (p p' : bytes) : Prop :=
  p' = p \/ nth 6 p 0 = 58 /\ slice 42 44 p = [0; 0] /\ p' = list_inserts 42 [0xFF; 0xFF] p.

(** [r] is a successful compression of [p]: what it wrote is a residue. *)
Definition compressed (p out : bytes) (r : sresult nat * bytes) : Prop :=
  exists data p' after, r = (Ok (length data), data ++ after) /\ length (data ++ after) = length out /\
    residue data p' /\ restored p p' /\ (length data <= length p + 1)%nat.

Lemma validate_udp p :
  bytes_ok p -> validate_full_ipv6_structure p = Ok tt -> class_and_flow_zero p = true -> nth 6 p 0 = 17 -> udp_valid p.
Proof.
  intros Hok Hv Hc Hn. unfold validate_full_ipv6_structure in Hv.
  destruct (length p <? 40)%nat eqn:El; [done |]. destruct (negb (_ =? 6)); [done |].
  destruct (negb (_ =? 40 + _)) eqn:Ep; [done |]. rewrite ext_headers_direct in Hv by (by left).
  unfold mbind, result_bind in Hv. rewrite Hn in Hv. cbn [Z.eqb Pos.eqb] in Hv. bool_to_prop.
  unfold check_udp in Hv. rewrite length_drop in Hv.
  destruct (_ <? 8)%nat eqn:E8; [done |]. destruct (_ || _) eqn:Eu; [done |].
  destruct (u16_at (drop 40 p) 6 =? 0) eqn:E0; [done |]. unfold mbind, result_bind in Hv. rewrite drop_drop in Hv.
  change (40 + 8)%nat with 48%nat in Hv.
  destruct (udp_checksum _ _ _ _ _) as [c|] eqn:Eck; [| done].
  destruct (negb (_ =? c)) eqn:Ec; [done |]. bool_to_prop. subst c.
  constructor; try done; lia.
Qed.

Lemma validate_split p :
  validate_full_ipv6 p = Ok tt ->
  validate_full_ipv6_structure p = Ok tt /\ validate_address_policy (slice 8 24 p) (slice 24 40 p) = Ok tt /\
  (40 <= length p)%nat /\ Z.of_nat (length p) = 40 + u16_at p 4.
Proof.
  intros H. unfold validate_full_ipv6, mbind, result_bind in H.
  destruct (validate_full_ipv6_structure p) as [[]|] eqn:Hs; [| done]. split; [done |]. split; [done |].
  unfold validate_full_ipv6_structure in Hs.
  destruct (length p <? 40)%nat eqn:El; [done |]. destruct (negb (_ =? 6)); [done |].
  destruct (negb (_ =? 40 + _)) eqn:Ep; [done |]. bool_to_prop. done.
Qed.

Lemma fallback_compressed p out :
  bytes_ok p -> validate_full_ipv6 p = Ok tt -> (length p < length out)%nat ->
  Z.of_nat (length p) < SCHC_FRAG_MAX_PACKET_SIZE ->
  compressed p out (encode_rule255 p out None).
Proof.
  intros Hok Hv Hl Hp. unfold encode_rule255. rewrite Hv, (proj2 (Nat.ltb_ge _ _)) by lia.
  unfold profile_limit. rewrite (proj2 (Z.ltb_ge _ _)) by lia.
  exists (RULE_UNCOMPRESSED :: p), p, (drop (length p + 1) out).
  assert (list_inserts 1 p (<[0%nat := RULE_UNCOMPRESSED]> out) = (RULE_UNCOMPRESSED :: p) ++ drop (length p + 1) out) as ->.
  { destruct out as [|x out]; [cbn in Hl; lia |]. cbn [length] in Hl.
    change (<[0%nat := RULE_UNCOMPRESSED]> (x :: out)) with ([RULE_UNCOMPRESSED] ++ out).
    change 1%nat with (length [RULE_UNCOMPRESSED] + 0)%nat at 1. rewrite list_inserts_app_r, inserts_front by lia.
    rewrite Nat.add_1_r. done. }
  split_and!.
  - f_equal. f_equal. cbn [length]. lia.
  - rewrite length_app, length_drop. cbn [length]. lia.
  - constructor; [done |]. by apply validate_split.
  - by left.
  - cbn [length]. lia.
Qed.

Lemma try_rule_compressed p out n data after next :
  n = length data -> Z.of_nat n <= SCHC_FRAG_MAX_PACKET_SIZE ->
  (exists p', residue data p' /\ restored p p') -> (n <= length p + 1)%nat -> length (data ++ after) = length out ->
  compressed p out (try_rule (Ok n, data ++ after) next).
Proof.
  intros -> Hn (p' & Hr & Hp) Hl Ho. unfold try_rule, enforce_encoded_profile_limit, above_profile.
  rewrite (proj2 (Z.ltb_ge _ _)) by lia. by exists data, p', after.
Qed.

Lemma body_len body fields k : encodes body (field_bits fields) -> div_ceil8 (length (field_bits fields)) = k -> length body = k.
Proof. intros (_ & H & _) <-. done. Qed.

Lemma compress_coap_compressed ll p out next :
  udp_valid p -> (length p < length out)%nat -> Z.of_nat (length p) < SCHC_FRAG_MAX_PACKET_SIZE ->
  compressed p out (next out) ->
  let o := (52 <=? length p)%nat && has_oscore_option (drop 48 p) in
  compressed p out (try_rule (compress_coap p out (coap_rule ll o)) next).
Proof.
  intros Hv Hl Hp Hnext o.
  destruct (compress_coap_cases ll o p out Hv) as [E|(c & tail & Hc & H8 & Htl & Hform & Hcoap)].
  { by rewrite E. }
  pose proof (uv_cksum p Hv) as Hck. remember (u16_at (drop 40 p) 6) as ck eqn:Eck. clear Eck.
  assert (length p = (52 + length tail)%nat) as Hlen by (rewrite Hform; apply coap_packet_length).
  assert (has_oscore_option_parts (coap_head c) tail = o) as Ho.
  { unfold o. rewrite Hcoap, has_oscore_head, Hlen. by rewrite (proj2 (Nat.leb_le _ _)) by lia. }
  pose proof (uv_bytes p Hv) as Hok.
  assert (coap_residue_len ll <= 36)%nat as Hr36 by (destruct ll; cbn; lia).
  destruct (compress_coap_ok ll o c ck tail out Hc H8 Htl) as (body & He & E); [lia | lia |].
  rewrite <- Hform in E. rewrite E.
  assert (length body = coap_residue_len ll) as Hb by (eapply body_len; [done | apply coap_fields_len]).
  apply try_rule_compressed.
  - cbn [length]. rewrite length_app, Hb. lia.
  - lia.
  - exists p. split; [| by left].
    enough (residue (coap_rule ll o :: body ++ tail) (coap_packet ll c ck tail)) as H by (by rewrite <- Hform in H).
    apply residue_coap; try done.
    + assert (bytes_ok (drop 48 p)) as Hd by (by apply Forall_drop). rewrite Hcoap in Hd. by apply Forall_app in Hd as [_ ?].
    + rewrite Hcoap, Hform in Hck. unfold coap_packet in Hck.
      rewrite ip6_src, ip6_dst, ip6_payload in Hck by apply addr_length.
      destruct (coap_ports_u16 ll c Hc). by rewrite udp_sport, udp_dport in Hck by done.
  - lia.
  - rewrite length_app, length_replicate. cbn [length]. rewrite length_app. lia.
Qed.

Lemma compress_mqtt_compressed p out next :
  udp_valid p -> validate_address_policy (slice 8 24 p) (slice 24 40 p) = Ok tt ->
  u16_at (drop 40 p) 0 = PORT_MQTT_SN \/ u16_at (drop 40 p) 2 = PORT_MQTT_SN ->
  (length p < length out)%nat -> Z.of_nat (length p) < SCHC_FRAG_MAX_PACKET_SIZE ->
  compressed p out (try_rule (compress_mqtt_sn p out) next).
Proof.
  intros Hv Hpol Hport Hl Hp. destruct (mqtt_form p Hv Hpol Hport) as (m & Hm & Hform).
  pose proof (uv_cksum p Hv) as Hck. pose proof (uv_bytes p Hv) as Hok.
  assert (bytes_ok (drop 48 p)) as Htok by (by apply Forall_drop).
  pose proof (u16_at_u16 (drop 40 p) 6 ltac:(by apply Forall_drop)) as Hcku.
  remember (u16_at (drop 40 p) 6) as ck eqn:Eck. remember (drop 48 p) as tail eqn:Etail. clear Eck Etail.
  assert (length p = (48 + length tail)%nat) as Hlen by (rewrite Hform; by apply mqtt_packet_length).
  rewrite Hform in Hck. pose proof (mqtt_sport_u16 m Hm) as Hsp. pose proof (mqtt_dport_u16 m Hm) as Hdp.
  assert (length (m_src m) = 16%nat /\ length (m_dst m) = 16%nat) as [Hs Hd]
    by (destruct Hm as (_ & (_ & ?) & (_ & ?) & _); done).
  unfold mqtt_packet in Hck. rewrite ip6_src, ip6_dst, ip6_payload, udp_sport, udp_dport in Hck by done.
  assert (mqtt_residue_len m <= 36)%nat as Hr by (unfold mqtt_residue_len; destruct (m_link_local m); lia).
  destruct (compress_mqtt_ok m ck tail out Hm Hck Hcku) as (body & He & E); [lia | lia |].
  rewrite <- Hform in E. rewrite E.
  assert (length body = mqtt_residue_len m) as Hb by (eapply body_len; [done | apply mqtt_needed]).
  apply try_rule_compressed.
  - cbn [length]. rewrite length_app, Hb. lia.
  - lia.
  - exists p. split; [| by left].
    enough (residue (RULE_MQTT_SN :: body ++ tail) (mqtt_packet m ck tail)) as H by (by rewrite <- Hform in H).
    by apply residue_mqtt.
  - lia.
  - rewrite length_app, length_replicate. cbn [length]. rewrite length_app. lia.
Qed.

(** An ICMPv6 packet between link-local addresses. *)
Lemma icmp_form p :
  bytes_ok p -> (44 <= length p)%nat -> class_and_flow_zero p = true -> Z.of_nat (length p) = 40 + u16_at p 4 ->
  nth 6 p 0 = 58 -> is_link_local_64 (slice 8 24 p) = true -> is_link_local_64 (slice 24 40 p) = true ->
  exists a b, iid_ok a /\ iid_ok b /\
    p = icmp_packet (nth 7 p 0) a b (nth 40 p 0) (nth 41 p 0) (u16_at p 42) (drop 44 p) /\
    slice 8 24 p = addr true a /\ slice 24 40 p = addr true b /\
    drop 40 p = nth 40 p 0 :: nth 41 p 0 :: nth 42 p 0 :: nth 43 p 0 :: drop 44 p.
Proof.
  intros Hok Hl Hc Hlen Hn Hls Hld.
  assert (bytes_ok (slice 8 24 p)) as Hso by (by apply slice_Forall).
  assert (bytes_ok (slice 24 40 p)) as Hdo by (by apply slice_Forall).
  assert (length (slice 8 24 p) = 16%nat) as Hsl by (rewrite slice_length; lia).
  assert (length (slice 24 40 p) = 16%nat) as Hdl by (rewrite slice_length; lia).
  pose proof (ip6_inv p Hok ltac:(lia) Hc Hlen) as Hform.
  assert (drop 40 p = nth 40 p 0 :: nth 41 p 0 :: nth 42 p 0 :: nth 43 p 0 :: drop 44 p) as Hdrop.
  { clear -Hl. do 44 (destruct p as [|? p]; [cbn in Hl; lia |]). done. }
  exists (addr_sent true (slice 8 24 p)), (addr_sent true (slice 24 40 p)).
  rewrite <- !addr_of_form by done. split_and!; try done.
  - exact (addr_sent_bound true _ Hso Hsl).
  - exact (addr_sent_bound true _ Hdo Hdl).
  - unfold icmp_packet. rewrite <- !addr_of_form by done.
    unfold u16_at. rewrite to_be_from_be_u16 by (by apply nth_is_u8). cbn [app].
    rewrite <- Hdrop, <- Hn. exact Hform.
Qed.

(** What the recomputed checksum does to such a packet. *)
Lemma icmp_restored hop a b ty code k1 k2 rest :
  is_u8 ty -> is_u8 code -> is_u8 k1 -> is_u8 k2 -> bytes_ok rest -> Z.of_nat (length rest) + 4 <= 65535 ->
  icmpv6_checksum_valid (addr true a) (addr true b) (ty :: code :: k1 :: k2 :: rest) = true ->
  restored (icmp_packet hop a b ty code (from_be [k1; k2]) rest)
           (icmp_packet hop a b ty code (icmp_ck a b ty code rest) rest).
Proof.
  intros Ht Hc Hk1 Hk2 Hr Hl Hv.
  assert (bytes_ok (ty :: code :: k1 :: k2 :: rest)) as Hok by (repeat (apply Forall_cons; split; [assumption |]); assumption).
  destruct (icmp_checksum_restored (addr true a) (addr true b) ty code k1 k2 rest) as [E|[E0 Ez]];
    [apply addr_ok.. | done | done | done | |].
  - left. unfold icmp_ck. by rewrite E.
  - right. unfold icmp_ck. rewrite Ez, E0. split; [done |]. split; [reflexivity |]. reflexivity.
Qed.

(** Compressing an ICMPv6 packet, given the packet and the residue of its rule. *)
Lemma icmp_compressed p p' out next data n :
  length data = n -> (n <= length p + 1)%nat -> (n <= length out)%nat -> (length p < length out)%nat ->
  Z.of_nat (length p) < SCHC_FRAG_MAX_PACKET_SIZE ->
  residue data p' -> restored p p' ->
  compressed p out (try_rule (Ok n, data ++ replicate (length out - n) 0) next).
Proof.
  intros <- Hn Hno Hl Hp Hr Hs. apply try_rule_compressed; [done | lia | by exists p' | done |].
  rewrite length_app, length_replicate. lia.
Qed.

(** The RPL bodies by field. *)
Lemma echo_rest_form hop a b ty rest :
  is_u8 hop -> iid_ok a -> iid_ok b -> ty = 128 \/ ty = 129 -> bytes_ok rest -> (4 <= length rest)%nat ->
  exists e, echo_sent_ok e /\ e.(e_hop) = hop /\ e.(e_src) = a /\ e.(e_dst) = b /\ e.(e_type) = ty /\
    rest = echo_rest e (drop 4 rest) /\ bytes_ok (drop 4 rest).
Proof.
  intros Hh Ha Hb Ht Hok Hl. do 4 (destruct rest as [|? rest]; [cbn in Hl; lia |]).
  rewrite !Forall_cons in Hok. destruct Hok as (?&?&?&?&?).
  exists {| e_hop := hop; e_src := a; e_dst := b; e_type := ty; e_id := from_be [z; z0]; e_seq := from_be [z1; z2] |}.
  split_and!; try done.
  - unfold echo_sent_ok. cbn [e_hop e_src e_dst e_type e_id e_seq]. split_and!; try done; by apply from_be_u16.
  - unfold echo_rest. cbn [e_id e_seq drop]. by rewrite !to_be_from_be_u16 by done.
Qed.

Lemma dodagid_form l : bytes_ok l -> length l = 16%nat -> 0 <= from_be l < 2 ^ 128 /\ to_be 16 (from_be l) = l.
Proof. intros Hok Hl. destruct (u128_form l Hok Hl) as [E Hb]. by rewrite <- E. Qed.

Lemma dio_body_form hop a b rest :
  is_u8 hop -> iid_ok a -> iid_ok b -> bytes_ok rest -> (24 <= length rest)%nat ->
  nth 6 rest 0 = 0 -> nth 7 rest 0 = 0 ->
  exists d, dio_sent_ok d /\ d.(d_hop) = hop /\ d.(d_src) = a /\ d.(d_dst) = b /\
    rest = dio_body d ++ drop 24 rest /\ bytes_ok (drop 24 rest).
Proof.
  intros Hh Ha Hb Hok Hl H6 H7. pose proof (Forall_drop _ 24 _ Hok) as Ht.
  rewrite <- (take_drop 24 rest) in Hok at 1. apply Forall_app in Hok as [Hok _].
  remember (drop 24 rest) as tail eqn:Etail. assert (length (take 24 rest) = 24%nat) as Hk by (rewrite length_take; lia).
  assert (rest = take 24 rest ++ tail) as Hrest by (subst; by rewrite take_drop).
  assert (nth 6 (take 24 rest) 0 = 0) as H6' by (rewrite Hrest, app_nth1 in H6 by lia; done).
  assert (nth 7 (take 24 rest) 0 = 0) as H7' by (rewrite Hrest, app_nth1 in H7 by lia; done).
  rewrite Hrest. clear Hrest Etail H6 H7 Hl. generalize dependent (take 24 rest). intros l Hok Hk H6 H7.
  do 8 (destruct l as [|? l]; [done |]). rewrite !Forall_cons in Hok. destruct Hok as (?&?&?&?&?&?&?&?&Hl).
  destruct (dodagid_form l Hl ltac:(cbn in Hk; lia)) as [Hd Hb16].
  cbn [nth] in H6, H7. subst.
  exists {| d_hop := hop; d_src := a; d_dst := b; d_instance := z; d_version := z0; d_rank := from_be [z1; z2];
       d_gmop := z3; d_dtsn := z4; d_dodagid := from_be l |}.
  split_and!; try done.
  - unfold dio_sent_ok. cbn [d_hop d_src d_dst d_instance d_version d_rank d_gmop d_dtsn d_dodagid].
    split_and!; try done; try lia; by apply from_be_u16.
  - unfold dio_body. cbn [d_instance d_version d_rank d_gmop d_dtsn d_dodagid].
    by rewrite to_be_from_be_u16, Hb16 by done.
Qed.

Lemma dao_body_form hop a b rest :
  is_u8 hop -> iid_ok a -> iid_ok b -> bytes_ok rest -> (20 <= length rest)%nat ->
  nth 2 rest 0 = 0 -> Z.land (nth 1 rest 0) 0x40 <> 0 ->
  exists d, dao_sent_ok d /\ d.(a_hop) = hop /\ d.(a_src) = a /\ d.(a_dst) = b /\
    rest = dao_body d ++ drop 20 rest /\ bytes_ok (drop 20 rest).
Proof.
  intros Hh Ha Hb Hok Hl H2 H1. pose proof (Forall_drop _ 20 _ Hok) as Ht.
  rewrite <- (take_drop 20 rest) in Hok at 1. apply Forall_app in Hok as [Hok _].
  remember (drop 20 rest) as tail eqn:Etail. assert (length (take 20 rest) = 20%nat) as Hk by (rewrite length_take; lia).
  assert (rest = take 20 rest ++ tail) as Hrest by (subst; by rewrite take_drop).
  assert (nth 2 (take 20 rest) 0 = 0) as H2' by (rewrite Hrest, app_nth1 in H2 by lia; done).
  assert (Z.land (nth 1 (take 20 rest) 0) 0x40 <> 0) as H1' by (rewrite Hrest, app_nth1 in H1 by lia; done).
  rewrite Hrest. clear Hrest Etail H2 H1 Hl. generalize dependent (take 20 rest). intros l Hok Hk H2 H1.
  do 4 (destruct l as [|? l]; [done |]). rewrite !Forall_cons in Hok. destruct Hok as (?&?&?&?&Hl).
  destruct (dodagid_form l Hl ltac:(cbn in Hk; lia)) as [Hd Hb16].
  cbn [nth] in H2, H1. subst.
  exists {| a_hop := hop; a_src := a; a_dst := b; a_instance := z; a_kd := z0; a_seq := z2; a_dodagid := from_be l |}.
  split_and!; try done.
  unfold dao_body. cbn [a_instance a_kd a_seq a_dodagid]. by rewrite Hb16 by done.
Qed.

(** The packets the ICMPv6 dispatcher has recognised. *)
Record icmp_valid (p : bytes) : Prop := {
  iv_bytes : bytes_ok p;
  iv_flow : class_and_flow_zero p = true;
  iv_len40 : Z.of_nat (length p) = 40 + u16_at p 4;
  iv_nh : nth 6 p 0 = 58;
  iv_len : (44 <= length p)%nat;
  iv_src : is_link_local_64 (slice 8 24 p) = true;
  iv_dst : is_link_local_64 (slice 24 40 p) = true;
  iv_cksum : icmpv6_checksum_valid (slice 8 24 p) (slice 24 40 p) (drop 40 p) = true
}.

Lemma icmp_valid_form p :
  icmp_valid p -> Z.of_nat (length p) < SCHC_FRAG_MAX_PACKET_SIZE ->
  exists a b, iid_ok a /\ iid_ok b /\
    p = icmp_packet (nth 7 p 0) a b (nth 40 p 0) (nth 41 p 0) (u16_at p 42) (drop 44 p) /\
    restored p (icmp_packet (nth 7 p 0) a b (nth 40 p 0) (nth 41 p 0)
                  (icmp_ck a b (nth 40 p 0) (nth 41 p 0) (drop 44 p)) (drop 44 p)).
Proof.
  intros [] Hp. destruct (icmp_form p) as (a & b & Ha & Hb & Hform & Es & Ed & Edrop); try done.
  exists a, b. split_and!; try done. rewrite Es, Ed, Edrop in iv_cksum0.
  rewrite Hform at 1. apply icmp_restored; try (by apply nth_is_u8).
  - by apply Forall_drop.
  - rewrite length_drop. unfold SCHC_FRAG_MAX_PACKET_SIZE in Hp. lia.
  - done.
Qed.

Lemma echo_rebuilt e tail :
  icmp_packet (e_hop e) (e_src e) (e_dst e) (e_type e) 0 (icmp_ck (e_src e) (e_dst e) (e_type e) 0 (echo_rest e tail))
    (echo_rest e tail) = echo_packet e (echo_ck e tail) tail.
Proof. unfold echo_packet, echo_ck. reflexivity. Qed.
Lemma dio_rebuilt d tail :
  icmp_packet (d_hop d) (d_src d) (d_dst d) 155 1 (icmp_ck (d_src d) (d_dst d) 155 1 (dio_body d ++ tail))
    (dio_body d ++ tail) = dio_packet d (dio_ck d tail) tail.
Proof. unfold dio_packet, dio_ck. reflexivity. Qed.
Lemma dao_rebuilt d tail :
  icmp_packet (a_hop d) (a_src d) (a_dst d) 155 2 (icmp_ck (a_src d) (a_dst d) 155 2 (dao_body d ++ tail))
    (dao_body d ++ tail) = dao_packet d (dao_ck d tail) tail.
Proof. unfold dao_packet, dao_ck. reflexivity. Qed.

Ltac residue_size := cbn [length]; rewrite ?length_app; lia.

Lemma compress_echo_compressed p out next :
  icmp_valid p -> nth 40 p 0 = 128 \/ nth 40 p 0 = 129 -> nth 41 p 0 = 0 -> (48 <= length p)%nat ->
  (length p < length out)%nat -> Z.of_nat (length p) < SCHC_FRAG_MAX_PACKET_SIZE ->
  compressed p out (try_rule (compress_icmpv6_echo p out) next).
Proof.
  intros Hv Ht Hc Hl48 Hl Hp. destruct (icmp_valid_form p Hv Hp) as (a & b & Ha & Hb & Hform & Hres).
  pose proof (iv_bytes p Hv) as Hok. rewrite Hc in *.
  destruct (echo_rest_form (nth 7 p 0) a b (nth 40 p 0) (drop 44 p)) as (e & He & Ehop & <- & <- & Ety & Hrest & Htok);
    [by apply nth_is_u8 | done | done | done | by apply Forall_drop | rewrite length_drop; lia |].
  rewrite <- Ehop, <- Ety in Hform, Hres. remember (drop 4 (drop 44 p)) as tail eqn:Et. remember (u16_at p 42) as ck eqn:Eck. clear Et Eck.
  rewrite Hrest in Hform, Hres. rewrite echo_rebuilt in Hres.
  fold (echo_packet e ck tail) in Hform.
  assert (length p = (48 + length tail)%nat) as Hlen by (rewrite Hform; apply echo_packet_length).
  destruct (compress_echo_ok e ck tail out He) as (body & Hb' & E); [lia | lia |]. rewrite <- Hform in E. rewrite E.
  pose proof (body_len _ _ _ Hb' (echo_needed e)) as Hbl.
  eapply icmp_compressed; [residue_size | lia | lia | done | done | by apply residue_echo | done].
Qed.

Lemma compress_dio_compressed p out next :
  icmp_valid p -> nth 40 p 0 = 155 -> nth 41 p 0 = 1 -> (68 <= length p)%nat ->
  (length p < length out)%nat -> Z.of_nat (length p) < SCHC_FRAG_MAX_PACKET_SIZE ->
  compressed p out (next out) -> compressed p out (try_rule (compress_rpl_dio p out) next).
Proof.
  intros Hv Ht Hc Hl68 Hl Hp Hnext. pose proof (iv_bytes p Hv) as Hok.
  destruct (decide (nth 6 (drop 44 p) 0 = 0 /\ nth 7 (drop 44 p) 0 = 0)) as [[H6 H7]|Hn].
  2:{ assert (compress_rpl_dio p out = (Err NoMatchingRule, out)) as ->; [| done].
      unfold compress_rpl_dio. destruct (ensure_ipv6 p) as [[]|e] eqn:Ee.
      2:{ unfold ensure_ipv6 in Ee. destruct (_ || _); by simplify_eq. }
      unfold mbind, result_bind. rewrite (proj2 (Nat.ltb_ge _ _)) by lia.
      destruct (nth 6 (drop 44 p) 0 =? 0) eqn:E6; [| done]. destruct (nth 7 (drop 44 p) 0 =? 0) eqn:E7; [| done].
      bool_to_prop. tauto. }
  destruct (icmp_valid_form p Hv Hp) as (a & b & Ha & Hb & Hform & Hres). rewrite Ht, Hc in *.
  destruct (dio_body_form (nth 7 p 0) a b (drop 44 p)) as (d & Hd & Ehop & <- & <- & Hrest & Htok);
    [by apply nth_is_u8 | done | done | by apply Forall_drop | rewrite length_drop; lia | done | done |].
  rewrite <- Ehop in Hform, Hres. remember (drop 24 (drop 44 p)) as tail eqn:Et. remember (u16_at p 42) as ck eqn:Eck. clear Et Eck.
  rewrite Hrest in Hform, Hres. rewrite dio_rebuilt in Hres.
  fold (dio_packet d ck tail) in Hform.
  assert (length p = (68 + length tail)%nat) as Hlen by (rewrite Hform; apply dio_packet_length).
  destruct (compress_dio_ok d ck tail out Hd) as (body & Hb' & E); [lia | lia |]. rewrite <- Hform in E. rewrite E.
  pose proof (body_len _ _ _ Hb' (dio_needed d)) as Hbl.
  eapply icmp_compressed; [residue_size | lia | lia | done | done | by apply residue_dio | done].
Qed.

Lemma compress_dao_compressed p out next :
  icmp_valid p -> nth 40 p 0 = 155 -> nth 41 p 0 = 2 -> (64 <= length p)%nat -> Z.land (nth 45 p 0) 0x40 <> 0 ->
  (length p < length out)%nat -> Z.of_nat (length p) < SCHC_FRAG_MAX_PACKET_SIZE ->
  compressed p out (next out) -> compressed p out (try_rule (compress_rpl_dao p out) next).
Proof.
  intros Hv Ht Hc Hl64 Hkd Hl Hp Hnext. pose proof (iv_bytes p Hv) as Hok.
  assert (nth 45 p 0 = nth 1 (drop 44 p) 0) as E45 by (by rewrite nth_skipn).
  rewrite E45 in Hkd.
  destruct (decide (nth 2 (drop 44 p) 0 = 0)) as [H2|Hn].
  2:{ assert (compress_rpl_dao p out = (Err NoMatchingRule, out)) as ->; [| done].
      unfold compress_rpl_dao. destruct (ensure_ipv6 p) as [[]|e] eqn:Ee.
      2:{ unfold ensure_ipv6 in Ee. destruct (_ || _); by simplify_eq. }
      unfold mbind, result_bind. rewrite (proj2 (Nat.ltb_ge _ _)) by lia.
      rewrite (proj2 (Z.eqb_neq (nth 2 _ _) 0)) by done. by rewrite orb_true_r. }
  destruct (icmp_valid_form p Hv Hp) as (a & b & Ha & Hb & Hform & Hres). rewrite Ht, Hc in *.
  destruct (dao_body_form (nth 7 p 0) a b (drop 44 p)) as (d & Hd & Ehop & <- & <- & Hrest & Htok);
    [by apply nth_is_u8 | done | done | by apply Forall_drop | rewrite length_drop; lia | done | done |].
  rewrite <- Ehop in Hform, Hres. remember (drop 20 (drop 44 p)) as tail eqn:Et. remember (u16_at p 42) as ck eqn:Eck. clear Et Eck.
  rewrite Hrest in Hform, Hres. rewrite dao_rebuilt in Hres.
  fold (dao_packet d ck tail) in Hform.
  assert (length p = (64 + length tail)%nat) as Hlen by (rewrite Hform; apply dao_packet_length).
  destruct (compress_dao_ok d ck tail out Hd) as (body & Hb' & E); [lia | lia |]. rewrite <- Hform in E. rewrite E.
  pose proof (body_len _ _ _ Hb' (dao_needed d)) as Hbl.
  eapply icmp_compressed; [residue_size | lia | lia | done | done | by apply residue_dao | done].
Qed.

(** Every accepted packet that fits is compressed, whatever its protocol. *)
Lemma compress_compressed p out :
  bytes_ok p -> validate_full_ipv6 p = Ok tt -> Z.of_nat (length p) < SCHC_FRAG_MAX_PACKET_SIZE ->
  (length p < length out)%nat -> compressed p out (compress p out).
Proof.
  intros Hok Hv Hp Hl. destruct (validate_split p Hv) as (Hs & Hpol & H40 & Hlen).
  unfold compress. unfold above_profile at 1. rewrite (proj2 (Z.ltb_ge _ _)) by lia. rewrite Hv.
  pose proof (fallback_compressed p out Hok Hv Hl Hp) as Hfall.
  destruct (class_and_flow_zero p) eqn:Hc; cbn [negb]; [| exact Hfall].
  destruct ((nth 6 p 0 =? 17) && _) eqn:E17.
  - bool_to_prop. pose proof (validate_udp p Hok Hs Hc ltac:(done)) as Hu.
    assert (u16_at p 40 = u16_at (drop 40 p) 0 /\ u16_at p 42 = u16_at (drop 40 p) 2) as [-> ->]
      by (unfold u16_at; by rewrite !nth_skipn).
    set (o := (52 <=? length p)%nat && has_oscore_option (drop 48 p)).
    assert (compressed p out (try_rule (compress_coap p out (coap_rule false o)) (fun out => encode_rule255 p out None))) as Hg
      by (by apply compress_coap_compressed).
    destruct ((_ =? PORT_MQTT_SN) || _) eqn:Eport.
    + apply compress_mqtt_compressed; try done. apply orb_true_iff in Eport. rewrite !Z.eqb_eq in Eport. exact Eport.
    + destruct (is_link_local_64 _ && _); [| exact Hg].
      exact (compress_coap_compressed true p out _ Hu Hl Hp Hg).
  - destruct ((nth 6 p 0 =? 58) && _) eqn:E58; [| exact Hfall].
    destruct (icmpv6_checksum_valid _ _ _) eqn:Eck; cbn [negb]; [| exact Hfall].
    destruct (is_link_local_64 (slice 8 24 p) && is_link_local_64 (slice 24 40 p)) eqn:Ell.
    2:{ rewrite !andb_false_r. exact Hfall. }
    bool_to_prop. assert (icmp_valid p) as Hi by (by constructor).
    rewrite !andb_true_r.
    destruct (((nth 40 p 0 =? 128) || (nth 40 p 0 =? 129)) && (nth 41 p 0 =? 0) && _) eqn:Eecho.
    + bool_to_prop.
      match goal with H : (_ =? 128) || _ = true |- _ => apply orb_true_iff in H; rewrite !Z.eqb_eq in H end.
      by apply compress_echo_compressed.
    + destruct (nth 40 p 0 =? 155) eqn:E155; [| exact Hfall].
      destruct ((nth 41 p 0 =? 1) && _) eqn:E1; [bool_to_prop; by apply compress_dio_compressed |].
      destruct ((nth 41 p 0 =? 2) && _) eqn:E2; [| exact Hfall].
      destruct (Z.land (nth 45 p 0) 0x40 =? 0) eqn:Ekd; cbn [negb]; [exact Hfall |].
      bool_to_prop. by apply compress_dao_compressed.
Qed.

(** ** Errors leave the caller's buffer alone *)

Lemma emit_never_errs rule_id fields tail_start needed tail out k :
  k = div_ceil8 (length (field_bits fields)) -> needed = (1 + k + length tail)%nat -> (needed <= length out)%nat ->
  (forall w, byte_len w = k -> tail_start w = (1 + k)%nat) ->
  exists out', emit rule_id fields tail_start needed tail out = (Ok needed, out').
Proof. intros H1 H2 H3 H4. destruct (emit_ok rule_id fields tail_start needed tail out k H1 H2 H3 H4) as (b & _ & E). eauto. Qed.

(** An error with the buffer as it was, or a success within the profile: the
    check the dispatcher makes after the writes never fires. *)
Definition atomic (out : bytes) (r : sresult nat * bytes) : Prop :=
  match r.1 with Err _ => r.2 = out | Ok n => above_profile n = false end.

Lemma attempt_atomic {A} (attempt : sresult A) (k : A -> sresult nat * bytes) (out : bytes) :
  (forall a, attempt = Ok a -> exists n out', k a = (Ok n, out') /\ above_profile n = false) ->
  atomic out (match attempt with Err e => (Err e, out) | Ok a => k a end).
Proof.
  intros H. unfold atomic. destruct attempt as [a|e']; [| done].
  destruct (H a eq_refl) as (n & out' & E & Hn). by rewrite E.
Qed.

Lemma preflight_size needed out u : preflight needed out = Ok u -> (needed <= length out)%nat /\ above_profile needed = false.
Proof.
  unfold preflight. destruct (_ =? 0)%nat; [done |]. destruct (_ <? _)%nat eqn:E; [done |].
  destruct (above_profile needed); [done |]. intros _. by bool_to_prop.
Qed.

Ltac fits :=
  try match goal with H : preflight _ _ = Ok _ |- _ => apply preflight_size in H as [? ?] end; assumption.

(** Opens the checks of a rule's attempt. *)
Ltac open_attempt H :=
  unfold mbind, result_bind in H;
  repeat match type of H with
  | (match ?x with Ok _ => _ | Err _ => _ end) = _ => let E := fresh "E" in destruct x as [?|?] eqn:E; [| discriminate H]
  | (if ?b then _ else _) = _ => let E := fresh "E" in destruct b eqn:E; try discriminate H
  end.

Lemma compress_coap_atomic p out ll o : atomic out (compress_coap p out (coap_rule ll o)).
Proof.
  unfold compress_coap. eapply (attempt_atomic _ (fun x => let '(fields, residue_len, needed, tail) := x in _)).
  intros [[[fields residue_len] needed] tail] H. cbn zeta in H. rewrite coap_rule_is_ll, coap_rule_is_global in H.
  open_attempt H; injection H as <- <- <- <-; bool_to_prop;
    destruct ll; cbn [negb] in *;
    match goal with H : (if ?b then Ok _ else _) = Ok _ |- _ => destruct b; [injection H as <- | done] end;
    (edestruct emit_never_errs as [out' ->];
      [reflexivity | rewrite length_field_bits; reflexivity | fits | by intros; rewrite length_field_bits | eexists _, _; split; [reflexivity | fits]]).
Qed.

Lemma compress_echo_atomic p out : atomic out (compress_icmpv6_echo p out).
Proof.
  unfold compress_icmpv6_echo. eapply (attempt_atomic _ (fun x => let '(fields, needed, tail) := x in _)).
  intros [[fields needed] tail] H. cbn zeta in H. open_attempt H. injection H as <- <- <-.
  edestruct emit_never_errs as [out' ->];
    [reflexivity | by rewrite length_field_bits | fits | intros ? Hb; cbn beta; by rewrite Hb | eexists _, _; split; [reflexivity | fits]].
Qed.

Lemma compress_dio_atomic p out : atomic out (compress_rpl_dio p out).
Proof.
  unfold compress_rpl_dio. eapply (attempt_atomic _ (fun x => let '(fields, needed, tail) := x in _)).
  intros [[fields needed] tail] H. cbn zeta in H. open_attempt H. injection H as <- <- <-.
  edestruct emit_never_errs as [out' ->];
    [reflexivity | by rewrite length_field_bits | fits | intros ? Hb; cbn beta; by rewrite Hb | eexists _, _; split; [reflexivity | fits]].
Qed.

Lemma compress_dao_atomic p out : atomic out (compress_rpl_dao p out).
Proof.
  unfold compress_rpl_dao. eapply (attempt_atomic _ (fun x => let '(fields, needed, tail) := x in _)).
  intros [[fields needed] tail] H. cbn zeta in H. open_attempt H. injection H as <- <- <-.
  edestruct emit_never_errs as [out' ->];
    [reflexivity | by rewrite length_field_bits | fits | intros ? Hb; cbn beta; by rewrite Hb | eexists _, _; split; [reflexivity | fits]].
Qed.

Lemma compress_mqtt_atomic p out : atomic out (compress_mqtt_sn p out).
Proof.
  unfold compress_mqtt_sn. eapply (attempt_atomic _ (fun x => let '(fields, needed, tail) := x in _)).
  intros [[fields needed] tail] H. cbn zeta in H.
  destruct (is_link_local_64 (slice 8 24 p) && is_link_local_64 (slice 24 40 p));
  open_attempt H; injection H as <- <- <-;
  (edestruct emit_never_errs as [out' ->];
    [reflexivity | by rewrite length_field_bits | fits | intros ? Hb; cbn beta; by rewrite Hb | eexists _, _; split; [reflexivity | fits]]).
Qed.

Lemma try_rule_atomic out attempt next :
  atomic out attempt -> atomic out (next out) -> atomic out (try_rule attempt next).
Proof.
  destruct attempt as [[n|e] o]; unfold atomic, try_rule; cbn [fst snd].
  - intros Hn _. unfold enforce_encoded_profile_limit. rewrite Hn. exact Hn.
  - intros -> Hnext. destruct e; done.
Qed.

Lemma encode_rule255_atomic p out : atomic out (encode_rule255 p out None).
Proof.
  unfold encode_rule255, atomic. destruct (validate_full_ipv6 p); [| done].
  destruct (_ <? _)%nat; [done |]. destruct (_ <? _) eqn:E; [done |]. exact E.
Qed.

Lemma compress_atomic p out : atomic out (compress p out).
Proof.
  unfold compress. destruct (above_profile (length p)); [done |].
  destruct (validate_full_ipv6 p); [| done].
  pose proof (encode_rule255_atomic p out) as Hf.
  destruct (negb _); [exact Hf |].
  destruct (_ && _).
  - set (o := _ && has_oscore_option _).
    assert (forall ll next, atomic out (next out) -> atomic out (try_rule (compress_coap p out (coap_rule ll o)) next)) as Hc.
    { intros ll next Hn. apply try_rule_atomic; [apply compress_coap_atomic | exact Hn]. }
    assert (atomic out (if is_link_local_64 (slice 8 24 p) && is_link_local_64 (slice 24 40 p)
              then try_rule (compress_coap p out (coap_rule true o)) (fun out =>
                try_rule (compress_coap p out (coap_rule false o)) (fun out => encode_rule255 p out None))
              else try_rule (compress_coap p out (coap_rule false o)) (fun out => encode_rule255 p out None))) as Hr
      by (destruct (is_link_local_64 (slice 8 24 p) && is_link_local_64 (slice 24 40 p)); [apply (Hc true) |];
          apply (Hc false); exact Hf).
    destruct (_ || _); [| exact Hr]. apply try_rule_atomic; [apply compress_mqtt_atomic | exact Hr].
  - destruct (_ && _); [| exact Hf]. destruct (negb _); [exact Hf |].
    destruct (_ && _); [apply try_rule_atomic; [apply compress_echo_atomic | exact Hf] |].
    destruct (_ && _); [| exact Hf].
    destruct (_ && _); [apply try_rule_atomic; [apply compress_dio_atomic | exact Hf] |].
    destruct (_ && _); [| exact Hf]. destruct (negb _); [| exact Hf].
    apply try_rule_atomic; [apply compress_dao_atomic | exact Hf].
Qed.

Lemma decompress_atomic data out e : (decompress data out).1 = Err e -> (decompress data out).2 = out.
Proof.
  unfold decompress. destruct data as [|id data]; [done |].
  assert (forall m : sresult (nat * bytes), (match m with Err e => (Err e, out) | Ok (n, out) => (Ok n, out) end).1 = Err e ->
    (match m with Err e => (Err e, out) | Ok (n, out) => (Ok n, out) end).2 = out) as Hm by (by intros [[? ?]|]).
  repeat match goal with |- (if ?b then _ else _).1 = _ -> _ => destruct b end; try done; try (apply Hm).
  unfold decode_rule255. repeat case_match; done.
Qed.

(** ** One encoding per packet *)

(** A residue of the plaintext CoAP rules whose token does not fit is accepted
    by [decompress] but never produced. *)
Definition token_fits (data p : bytes) : Prop :=
  nth 0 data 0 <= 1 -> Z.land (nth 48 p 0) 0x0F <= 8 /\ 52 + Z.land (nth 48 p 0) 0x0F <= Z.of_nat (length p).

Lemma validate_policy p :
  validate_full_ipv6_structure p = Ok tt -> validate_address_policy (slice 8 24 p) (slice 24 40 p) = Ok tt ->
  validate_full_ipv6 p = Ok tt.
Proof. intros H1 H2. unfold validate_full_ipv6, mbind, result_bind. by rewrite H1. Qed.

Lemma enforce_ok (p : bytes) n : (n <= length p)%nat -> Z.of_nat (length p) <= SCHC_FRAG_MAX_PACKET_SIZE -> enforce_encoded_profile_limit n = Ok n.
Proof. intros H1 H2. unfold enforce_encoded_profile_limit, above_profile. by rewrite (proj2 (Z.ltb_ge _ _)) by lia. Qed.

(** [compress] on a UDP packet that is neither MQTT-SN nor refused. *)
Lemma compress_udp_dispatch p out :
  validate_full_ipv6 p = Ok tt -> Z.of_nat (length p) <= SCHC_FRAG_MAX_PACKET_SIZE ->
  class_and_flow_zero p = true -> nth 6 p 0 = 17 -> (48 <= length p)%nat ->
  let o := (52 <=? length p)%nat && has_oscore_option (drop 48 p) in
  let global out := try_rule (compress_coap p out (coap_rule false o)) (fun out => encode_rule255 p out None) in
  let coap out := if is_link_local_64 (slice 8 24 p) && is_link_local_64 (slice 24 40 p)
    then try_rule (compress_coap p out (coap_rule true o)) global else global out in
  compress p out = if (u16_at (drop 40 p) 0 =? PORT_MQTT_SN) || (u16_at (drop 40 p) 2 =? PORT_MQTT_SN)
    then try_rule (compress_mqtt_sn p out) coap else coap out.
Proof.
  intros Hv Hp Hc Hn Hl. cbn zeta. unfold compress. unfold above_profile at 1. rewrite (proj2 (Z.ltb_ge _ _)) by lia.
  rewrite Hv, Hc, Hn, (proj2 (Nat.leb_le _ _)) by done.
  assert (u16_at p 40 = u16_at (drop 40 p) 0 /\ u16_at p 42 = u16_at (drop 40 p) 2) as [-> ->]
    by (unfold u16_at; by rewrite !nth_skipn).
  reflexivity.
Qed.

Lemma coap_canonical ll o c ck body tail out :
  coap_sent_ok ll c -> encodes body (field_bits (coap_fields ll c)) -> bytes_ok tail ->
  has_oscore_option_parts (coap_head c) tail = o ->
  udp_checksum (addr ll c.(c_src)) (addr ll c.(c_dst)) (5680 + c.(c_sport)) (5680 + c.(c_dport))
    (coap_head c ++ tail) = Ok ck ->
  c.(c_tkl) <= 8 -> c.(c_tkl) <= Z.of_nat (length tail) ->
  let p := coap_packet ll c ck tail in
  validate_full_ipv6_structure p = Ok tt ->
  Z.of_nat (length p) <= SCHC_FRAG_MAX_PACKET_SIZE -> (length p <= length out)%nat ->
  let data := coap_rule ll o :: body ++ tail in
  compress p out = (Ok (length data), data ++ replicate (length out - length data) 0).
Proof.
  intros Hc He Ht Ho Hck H8 Htl p Hv Hp Hl data.
  assert (length p = (52 + length tail)%nat) as Hlen by apply coap_packet_length.
  assert (slice 8 24 p = addr ll (c_src c)) as Hs by (apply ip6_src, addr_length).
  assert (slice 24 40 p = addr ll (c_dst c)) as Hd by (apply ip6_dst; apply addr_length).
  assert (drop 40 p = udp (5680 + c_sport c) (5680 + c_dport c) ck (coap_head c ++ tail)) as Hu
    by (apply ip6_payload; apply addr_length).
  assert (drop 48 p = coap_head c ++ tail) as H48 by (change 48%nat with (40 + 8)%nat; by rewrite <- drop_drop, Hu).
  destruct (coap_ports_u16 ll c Hc) as [Hsp Hdp]. pose proof Hc as (_&_&_&Hsb&Hdb&_).
  assert (coap_residue_len ll <= 36)%nat as Hr36 by (destruct ll; cbn; lia).
  destruct (compress_coap_ok ll o c ck tail out Hc H8 Htl) as (body' & He' & E); [lia | lia |].
  rewrite (encodes_inj _ _ _ He' He) in E.
  assert (length data = (1 + coap_residue_len ll + length tail)%nat) as Hld.
  { unfold data. cbn [length]. rewrite length_app, (body_len _ _ _ He (coap_fields_len ll c)). lia. }
  rewrite compress_udp_dispatch; [| | done | reflexivity | reflexivity | lia].
  2:{ apply validate_policy; [done |]. rewrite Hs, Hd. apply addr_policy. }
  rewrite Hs, Hd, Hu, H48, has_oscore_head, Ho, Hlen, (proj2 (Nat.leb_le _ _)) by lia.
  rewrite udp_sport, udp_dport by done. unfold PORT_MQTT_SN.
  rewrite !(proj2 (Z.eqb_neq _ 10883)) by lia. cbn [orb andb].
  rewrite <- Hld in E.
  destruct ll.
  - change (is_link_local_64 (addr true ?x)) with true. cbn [andb]. fold p in E. rewrite E. unfold try_rule.
    fold data. by rewrite (enforce_ok p) by lia.
  - rewrite ygg_not_link_local. cbn [andb]. fold p in E. rewrite E. unfold try_rule.
    fold data. by rewrite (enforce_ok p) by lia.
Qed.

Lemma mqtt_canonical m ck body tail out :
  mqtt_sent_ok m -> encodes body (field_bits (mqtt_fields m)) ->
  udp_checksum m.(m_src) m.(m_dst) (mqtt_sport m) (mqtt_dport m) tail = Ok ck ->
  let p := mqtt_packet m ck tail in
  validate_full_ipv6_structure p = Ok tt ->
  Z.of_nat (length p) <= SCHC_FRAG_MAX_PACKET_SIZE -> (length p <= length out)%nat ->
  let data := RULE_MQTT_SN :: body ++ tail in
  compress p out = (Ok (length data), data ++ replicate (length out - length data) 0).
Proof.
  intros Hm He Hck p Hv Hp Hl data.
  assert (length p = (48 + length tail)%nat) as Hlen by (by apply mqtt_packet_length).
  pose proof (mqtt_sport_u16 m Hm) as Hsp. pose proof (mqtt_dport_u16 m Hm) as Hdp.
  destruct (mqtt_port_choice m Hm) as (_ & _ & Hno).
  pose proof Hm as (_ & (_ & Hs16) & (_ & Hd16) & Hpol & _).
  assert (slice 8 24 p = m_src m) as Hs by (by apply ip6_src).
  assert (slice 24 40 p = m_dst m) as Hd by (by apply ip6_dst).
  assert (drop 40 p = udp (mqtt_sport m) (mqtt_dport m) ck tail) as Hu by (by apply ip6_payload).
  assert (mqtt_residue_len m <= 36)%nat as Hr by (unfold mqtt_residue_len; destruct (m_link_local m); lia).
  destruct (compress_mqtt_ok m ck tail out Hm Hck (udp_checksum_u16 _ _ _ _ _ _ Hck)) as (body' & He' & E); [lia | lia |].
  rewrite (encodes_inj _ _ _ He' He) in E.
  assert (length data = (1 + mqtt_residue_len m + length tail)%nat) as Hld.
  { unfold data. cbn [length]. rewrite length_app, (body_len _ _ _ He (mqtt_needed m)). lia. }
  rewrite compress_udp_dispatch; [| | done | reflexivity | reflexivity | lia].
  2:{ apply validate_policy; [done |]. by rewrite Hs, Hd. }
  rewrite Hu, udp_sport, udp_dport by done.
  replace (_ || _) with true.
  2:{ symmetry. apply negb_false_iff. by rewrite negb_orb. }
  rewrite <- Hld in E. fold p in E. rewrite E. unfold try_rule. fold data. by rewrite (enforce_ok p) by lia.
Qed.

(** [compress] on a link-local ICMPv6 packet with its checksum. *)
Lemma compress_icmp_dispatch hop a b ty code rest out :
  iid_ok a -> iid_ok b -> is_u8 ty -> is_u8 code -> bytes_ok rest ->
  let p := icmp_packet hop a b ty code (icmp_ck a b ty code rest) rest in
  Z.of_nat (length p) <= SCHC_FRAG_MAX_PACKET_SIZE ->
  let fallback out := encode_rule255 p out None in
  compress p out =
    if ((ty =? 128) || (ty =? 129)) && (code =? 0) && (48 <=? length p)%nat
    then try_rule (compress_icmpv6_echo p out) fallback
    else if ty =? 155 then
      if (code =? 1) && (68 <=? length p)%nat then try_rule (compress_rpl_dio p out) fallback
      else if (code =? 2) && (64 <=? length p)%nat then
        if negb (Z.land (nth 45 p 0) 0x40 =? 0) then try_rule (compress_rpl_dao p out) fallback else fallback out
      else fallback out
    else fallback out.
Proof.
  intros Ha Hb Ht Hc Hr p Hp fallback.
  assert (length p = (44 + length rest)%nat) as Hlen by apply icmp_packet_length.
  assert (slice 8 24 p = addr true a) as Es by (apply ip6_src, addr_length).
  assert (slice 24 40 p = addr true b) as Ed by (apply ip6_dst; apply addr_length).
  assert (drop 40 p = ty :: code :: to_be 2 (icmp_ck a b ty code rest) ++ rest) as Eu
    by (apply ip6_payload; apply addr_length).
  unfold SCHC_FRAG_MAX_PACKET_SIZE in Hp.
  assert (validate_full_ipv6 p = Ok tt) as Hv.
  { apply validate_policy; [| rewrite Es, Ed; apply addr_policy].
    apply validate_ip6_icmp; [apply addr_length.. |]. cbn [length]. rewrite length_app, length_to_be. lia. }
  destruct (icmp_checksum_computed (addr true a) (addr true b) ty code rest) as [_ Hck];
    [apply addr_ok.. | done | done | done | lia |].
  unfold compress. unfold above_profile at 1. rewrite (proj2 (Z.ltb_ge _ _)) by (unfold SCHC_FRAG_MAX_PACKET_SIZE; lia).
  rewrite Hv. change (class_and_flow_zero p) with true. change (nth 6 p 0 =? 17) with false. change (nth 6 p 0 =? 58) with true.
  rewrite (proj2 (Nat.leb_le (40 + 4) _)) by lia. cbn [negb andb]. rewrite Es, Ed, Eu.
  unfold icmp_ck at 1. rewrite Hck. cbn [negb].
  change (is_link_local_64 (addr true ?x)) with true. cbn [andb].
  assert (nth 40 p 0 = ty /\ nth 41 p 0 = code) as [-> ->].
  { change 40%nat with (40 + 0)%nat at 1. change 41%nat with (40 + 1)%nat. by rewrite <- !nth_skipn, Eu. }
  rewrite !andb_true_r. reflexivity.
Qed.

Lemma try_rule_done (p data after : bytes) r next :
  r = (Ok (length data), data ++ after) -> (length data <= length p)%nat -> Z.of_nat (length p) <= SCHC_FRAG_MAX_PACKET_SIZE ->
  try_rule r next = (Ok (length data), data ++ after).
Proof. intros -> H1 H2. unfold try_rule. by rewrite (enforce_ok p). Qed.

Lemma echo_canonical e body tail out :
  echo_sent_ok e -> encodes body (field_bits (echo_fields e)) -> bytes_ok tail ->
  let p := echo_packet e (echo_ck e tail) tail in
  Z.of_nat (length p) <= SCHC_FRAG_MAX_PACKET_SIZE -> (length p <= length out)%nat ->
  let data := RULE_ICMPV6_ECHO :: body ++ tail in
  compress p out = (Ok (length data), data ++ replicate (length out - length data) 0).
Proof.
  intros Hs He Ht p Hp Hl data. pose proof Hs as (Hh & Ha & Hb & Hty & Hi & Hq).
  assert (length p = (48 + length tail)%nat) as Hlen by apply echo_packet_length.
  destruct (compress_echo_ok e (echo_ck e tail) tail out Hs) as (body' & He' & E); [lia | lia |].
  rewrite (encodes_inj _ _ _ He' He) in E.
  assert (length data = (23 + length tail)%nat) as Hld.
  { unfold data. cbn [length]. rewrite length_app, (body_len _ _ _ He (echo_needed e)). lia. }
  rewrite <- Hld in E. fold data p in E.
  assert (bytes_ok (echo_rest e tail)) as Hr by (unfold echo_rest; rewrite !Forall_app; split_and!; [apply to_be_ok.. | done]).
  assert (is_u8 (e_type e)) as Hty8 by (destruct Hty as [-> | ->]; done).
  pose proof (compress_icmp_dispatch (e_hop e) (e_src e) (e_dst e) (e_type e) 0 (echo_rest e tail) out Ha Hb Hty8 ltac:(done) Hr) as D.
  cbn zeta in D. rewrite echo_rebuilt in D. fold p in D. rewrite D by done.
  rewrite Hlen, (proj2 (Nat.leb_le 48 _)) by lia.
  replace ((e_type e =? 128) || (e_type e =? 129)) with true by (destruct Hty as [-> | ->]; done). cbn [andb].
  change (0 =? 0) with true. cbn [andb].
  eapply (try_rule_done p data); [exact E | lia | done].
Qed.

Lemma dio_canonical d body tail out :
  dio_sent_ok d -> encodes body (field_bits (dio_fields d)) -> bytes_ok tail ->
  let p := dio_packet d (dio_ck d tail) tail in
  Z.of_nat (length p) <= SCHC_FRAG_MAX_PACKET_SIZE -> (length p <= length out)%nat ->
  let data := RULE_RPL_DIO :: body ++ tail in
  compress p out = (Ok (length data), data ++ replicate (length out - length data) 0).
Proof.
  intros Hs He Ht p Hp Hl data. pose proof Hs as (Hh & Ha & Hb & _). pose proof (dio_body_ok d Hs) as Hbok.
  assert (length p = (68 + length tail)%nat) as Hlen by apply dio_packet_length.
  destruct (compress_dio_ok d (dio_ck d tail) tail out Hs) as (body' & He' & E); [lia | lia |].
  rewrite (encodes_inj _ _ _ He' He) in E.
  assert (length data = (40 + length tail)%nat) as Hld.
  { unfold data. cbn [length]. rewrite length_app, (body_len _ _ _ He (dio_needed d)). lia. }
  rewrite <- Hld in E. fold data p in E.
  assert (bytes_ok (dio_body d ++ tail)) as Hr by (by apply Forall_app).
  pose proof (compress_icmp_dispatch (d_hop d) (d_src d) (d_dst d) 155 1 (dio_body d ++ tail) out Ha Hb ltac:(done) ltac:(done) Hr) as D.
  cbn zeta in D. rewrite dio_rebuilt in D. fold p in D. rewrite D by done.
  change ((155 =? 128) || (155 =? 129)) with false. change (155 =? 155) with true. change (1 =? 1) with true.
  rewrite Hlen, (proj2 (Nat.leb_le 68 _)) by lia. cbn [andb].
  eapply (try_rule_done p data); [exact E | lia | done].
Qed.

Lemma dao_canonical d body tail out :
  dao_sent_ok d -> encodes body (field_bits (dao_fields d)) -> bytes_ok tail ->
  let p := dao_packet d (dao_ck d tail) tail in
  Z.of_nat (length p) <= SCHC_FRAG_MAX_PACKET_SIZE -> (length p <= length out)%nat ->
  let data := RULE_RPL_DAO :: body ++ tail in
  compress p out = (Ok (length data), data ++ replicate (length out - length data) 0).
Proof.
  intros Hs He Ht p Hp Hl data. pose proof Hs as (Hh & Ha & Hb & _ & _ & _ & _ & Hkd). pose proof (dao_body_ok d Hs) as Hbok.
  assert (length p = (64 + length tail)%nat) as Hlen by apply dao_packet_length.
  destruct (compress_dao_ok d (dao_ck d tail) tail out Hs) as (body' & He' & E); [lia | lia |].
  rewrite (encodes_inj _ _ _ He' He) in E.
  assert (length data = (37 + length tail)%nat) as Hld.
  { unfold data. cbn [length]. rewrite length_app, (body_len _ _ _ He (dao_needed d)). lia. }
  rewrite <- Hld in E. fold data p in E.
  assert (bytes_ok (dao_body d ++ tail)) as Hr by (by apply Forall_app).
  pose proof (compress_icmp_dispatch (a_hop d) (a_src d) (a_dst d) 155 2 (dao_body d ++ tail) out Ha Hb ltac:(done) ltac:(done) Hr) as D.
  cbn zeta in D. rewrite dao_rebuilt in D. fold p in D. rewrite D by done.
  change ((155 =? 128) || (155 =? 129)) with false. change (155 =? 155) with true.
  change (2 =? 1) with false. change (2 =? 2) with true.
  rewrite Hlen, (proj2 (Nat.leb_le 64 _)) by lia. cbn [andb].
  assert (nth 45 p 0 = a_kd d) as ->.
  { change 45%nat with (44 + 1)%nat. rewrite <- nth_skipn. unfold p, dao_packet.
    change (drop 44 ?x) with (drop (44 + 0) x). by rewrite icmp_packet_drop. }
  rewrite (proj2 (Z.eqb_neq _ _) Hkd). cbn [negb].
  eapply (try_rule_done p data); [exact E | lia | done].
Qed.

Lemma take_app_eq {A} (k l : list A) : take (length k) (k ++ l) = k.
Proof. apply take_app_length. Qed.

(** Decompression without the tail of the buffer. *)
Lemma residue_canonical data p out :
  residue data p -> within_profile data -> nth 0 data 0 <> RULE_UNCOMPRESSED -> token_fits data p ->
  Z.of_nat (length p) <= SCHC_FRAG_MAX_PACKET_SIZE -> (length p <= length out)%nat ->
  compress p out = (Ok (length data), data ++ replicate (length out - length data) 0).
Proof.
  intros H Hw H255 Htok Hp Hl. pose proof (residue_valid data p H Hw) as Hv.
  destruct H as [ll o c ck body tail Hc He Ht Ho Hck|e body tail Hs He Ht|d body tail Hs He Ht|d body tail Hs He Ht
    |m ck body tail Hs He Ht Hck|p Hok Hvp].
  - assert (c_tkl c <= 8 /\ c_tkl c <= Z.of_nat (length tail)) as [H8 Htl].
    { pose proof Hc as (_&_&_&_&_&Hty&Htk&_). destruct (coap_first_byte _ _ Hty Htk) as (_ & _ & Et & _).
      destruct o.
      - pose proof (has_oscore_token (coap_head c ++ tail)) as Hh.
        rewrite length_app in Hh. change (length (coap_head c)) with 4%nat in Hh.
        change (nth 0 (coap_head c ++ tail) 0) with (64 + 16 * c_type c + c_tkl c) in Hh. rewrite Et in Hh.
        destruct Hh as [? ?]; [lia | exact Ho | lia].
      - unfold token_fits in Htok. rewrite coap_packet_length in Htok.
        assert (nth 48 (coap_packet ll c ck tail) 0 = 64 + 16 * c_type c + c_tkl c) as E48.
        { change 48%nat with (40 + 8)%nat. rewrite <- nth_skipn. unfold coap_packet.
          by rewrite ip6_payload by apply addr_length. }
        rewrite E48, Et in Htok. destruct Htok; [destruct ll; cbn; unfold RULE_LINK_LOCAL_COAP, RULE_GLOBAL_COAP; lia | lia]. }
    by apply coap_canonical.
  - by apply echo_canonical.
  - by apply dio_canonical.
  - by apply dao_canonical.
  - by apply mqtt_canonical.
  - done.
Qed.

(** ** Theorems *)

(** C14: SCHC round trip.  Every complete IPv6 packet that passes [validate_full_ipv6]
    (structure, UDP checksum, endpoint policy) and fits the profile is compressed by
    [compress], whatever rule it matches, into at most one byte more than itself; and
    [decompress] of exactly those bytes succeeds and rebuilds the packet byte for
    byte at the front of the receiver's buffer, leaving the rest of it alone.  The one
    exception is an ICMPv6 packet of rules 2-4 whose valid checksum is 0x0000: it
    comes back with the checksum 0xFFFF. *)
Theorem schc_roundtrip (p out out2 : bytes) :
  bytes_ok p -> validate_full_ipv6 p = Ok tt -> Z.of_nat (length p) < SCHC_FRAG_MAX_PACKET_SIZE ->
  (length p < length out)%nat -> (length p <= length out2)%nat ->
  exists n out' p', compress p out = (Ok n, out') /\ length out' = length out /\ (n <= length p + 1)%nat /\
    decompress (take n out') out2 = (Ok (length p), p' ++ drop (length p) out2) /\
    (p' = p \/ nth 6 p 0 = 58 /\ slice 42 44 p = [0; 0] /\ p' = list_inserts 42 [0xFF; 0xFF] p).
Proof.
  intros Hok Hv Hp Hl Hl2.
  destruct (compress_compressed p out Hok Hv Hp Hl) as (data & p' & after & E & Ho & Hr & Hs & Hn).
  assert (length p' = length p) as Hlp
    by (destruct Hs as [->|(_ & _ & ->)]; [done | apply length_inserts]).
  exists (length data), (data ++ after), p'. split_and!; try done.
  rewrite take_app_eq, (decompress_residue data p'); [by rewrite Hlp | done | | by rewrite Hlp].
  unfold within_profile. lia.
Qed.

(** C21: [decompress] accepts exactly the residues, within the profile, of packets
    that fit the caller's buffer, and writes exactly the packet they stand for; what
    it writes passes the structural validation of [validate_full_ipv6_structure]
    (version, lengths, extension headers, UDP length and checksum). *)
Theorem decompress_accepts_exactly (data out out' : bytes) (n : nat) :
  bytes_ok data ->
  (decompress data out = (Ok n, out') <->
   within_profile data /\ exists p, residue data p /\ n = length p /\ (n <= length out)%nat /\
     out' = p ++ drop n out /\ validate_full_ipv6_structure p = Ok tt).
Proof.
  intros Hok. split.
  - intros H. destruct (decompress_accepts data out n out' Hok H) as (Hw & p & Hr & Hl).
    split; [done |]. exists p. rewrite (decompress_residue data p out Hr Hw Hl) in H. injection H as <- <-.
    split_and!; try done. by apply residue_valid with data.
  - intros (Hw & p & Hr & -> & Hl & -> & _). by apply decompress_residue.
Qed.

(** What [compress] makes of a packet that [decompress] rebuilt. *)
Lemma recompressed (data out out' out2 : bytes) (n : nat) :
  bytes_ok data -> decompress data out = (Ok n, out') -> nth 0 data 0 <> RULE_UNCOMPRESSED ->
  token_fits data (take n out') -> Z.of_nat n <= SCHC_FRAG_MAX_PACKET_SIZE -> (n <= length out2)%nat ->
  compress (take n out') out2 = (Ok (length data), data ++ replicate (length out2 - length data) 0).
Proof.
  intros Hok H H255 Htok Hn Hl2. destruct (decompress_accepts data out n out' Hok H) as (Hw & p & Hr & Hl).
  rewrite (decompress_residue data p out Hr Hw Hl) in H. injection H as <- <-. rewrite take_app_eq in *.
  exact (residue_canonical data p out2 Hr Hw H255 Htok Hn Hl2).
Qed.

(** C22: One compressed encoding per packet.  Whatever [decompress] accepts under a
    rule other than 255 is what [compress] produces for the packet it rebuilt, byte
    for byte, provided that the packet is at most 22554 octets long:
    [compress] refuses a longer one.  No two compressed forms are accepted for one
    packet; the uncompressed form under Rule 255, which [decompress] accepts for the
    same packet, is outside this statement.  (Under the plaintext CoAP rules this
    also needs the token to fit the message, which [decompress] does not check.) *)
Theorem compressed_rules_canonical (data out out' out2 : bytes) (n : nat) :
  bytes_ok data -> decompress data out = (Ok n, out') -> nth 0 data 0 <> RULE_UNCOMPRESSED ->
  token_fits data (take n out') -> Z.of_nat n <= SCHC_FRAG_MAX_PACKET_SIZE -> (n <= length out2)%nat ->
  (exists out2', compress (take n out') out2 = (Ok (length data), out2') /\ take (length data) out2' = data) /\
  (forall data' o o', bytes_ok data' -> decompress data' o = (Ok n, o') -> nth 0 data' 0 <> RULE_UNCOMPRESSED ->
     token_fits data' (take n o') -> take n o' = take n out' -> data' = data).
Proof.
  intros Hok H H255 Htok Hn Hl2. pose proof (recompressed data out out' out2 n Hok H H255 Htok Hn Hl2) as Hc. split.
  - eexists. split; [exact Hc | apply take_app_eq].
  - intros data' o o' Hok' H' H255' Htok' E. pose proof (recompressed data' o o' out2 n Hok' H' H255' Htok' Hn Hl2) as Hc'.
    rewrite E, Hc in Hc'. injection Hc' as Hl Hd. symmetry in Hd. by apply app_inj_1 in Hd as [? _].
Qed.

(** Both directions are atomic on error: when [compress] or [decompress] returns an
    error (no matching rule, malformed or non-canonical input, a buffer that is too
    small, the profile limit), the caller's buffer holds what it held before, for
    any input at all; and a successful [compress] is within the profile limit before
    its first write, so the check made after the writes never fires. *)
Lemma errors_leave_output (input out : bytes) :
  (forall e, (compress input out).1 = Err e -> (compress input out).2 = out) /\
  (forall n, (compress input out).1 = Ok n -> Z.of_nat n <= SCHC_FRAG_MAX_PACKET_SIZE) /\
  (forall e, (decompress input out).1 = Err e -> (decompress input out).2 = out).
Proof.
  pose proof (compress_atomic input out) as H. unfold atomic in H. split_and!.
  - intros e E. by rewrite E in H.
  - intros n E. rewrite E in H. unfold above_profile in H. by apply Z.ltb_ge in H.
  - intros e. apply decompress_atomic.
Qed.

(** ** Concrete packets *)

Definition ll_demo (i : Z) : bytes := LINK_LOCAL_64 ++ [2; 0; 0; 0; 0; 0; 0; i].
Definition coap_demo : bytes :=
  let coap := [0x44; 1; 0x12; 0x34; 9; 8; 7; 6; 0xb3; 102; 111; 111] in
  ip6 17 64 (ll_demo 1) (ll_demo 2)
    (udp 5683 5684 (match udp_checksum (ll_demo 1) (ll_demo 2) 5683 5684 coap with Ok c => c | Err _ => 0 end) coap).

(** A link-local echo whose correct checksum is zero is not restored: it comes
    back with the other representation of zero. *)
Definition zero_checksum_echo : bytes :=
  let c := icmpv6_checksum_parts (ll_demo 1) (ll_demo 2) [[128; 0; 0; 0; 0; 1; 0; 0]] in
  ip6 58 64 (ll_demo 1) (ll_demo 2) ([128; 0; 0; 0; 0; 1] ++ to_be 2 c).

Example zero_checksum_echo_changes :
  icmpv6_checksum_valid (ll_demo 1) (ll_demo 2) (drop 40 zero_checksum_echo) = true /\
  slice 42 44 zero_checksum_echo = [0; 0] /\
  (compress zero_checksum_echo (replicate 60 0)).1 = Ok 23%nat /\
  slice 42 44 (decompress (take 23 (compress zero_checksum_echo (replicate 60 0)).2) (replicate 48 0)).2 = [0xFF; 0xFF].
Proof. vm_compute. done. Qed.

(** A plaintext residue with the reserved token length 15 is accepted. *)
Definition bad_token_residue : bytes := 0 :: 64 :: replicate 16 1 ++ [0x33; 0x3c; 0x04; 0x48; 0xd0].

Example bad_token_accepted :
  is_ok (decompress bad_token_residue (replicate 60 0)).1 = true /\
  Z.land (nth 48 (decompress bad_token_residue (replicate 60 0)).2 0) 0x0F = 15.
Proof. vm_compute. done. Qed.

Lemma schc_roundtrip_witness :
  exists n out' p', compress coap_demo (replicate 100 170) = (Ok n, out') /\
    decompress (take n out') (replicate 70 1) = (Ok 60%nat, p' ++ drop 60 (replicate 70 1)).
Proof.
  destruct (schc_roundtrip coap_demo (replicate 100 170) (replicate 70 1)) as (n & out' & p' & H1 & _ & _ & H2 & _).
  - apply (bool_decide_unpack _). vm_compute. done.
  - vm_compute. done.
  - vm_compute. done.
  - apply Nat.ltb_lt. vm_compute. done.
  - apply Nat.leb_le. vm_compute. done.
  - exists n, out', p'. split; [exact H1 | exact H2].
Defined.

Definition coap_data : bytes :=
  match compress coap_demo (replicate 100 170) with (Ok n, out') => take n out' | (Err _, _) => [] end.
Definition coap_rebuilt : bytes := (decompress coap_data (replicate 70 1)).2.

Lemma decompress_accepts_exactly_witness :
  exists p, residue coap_data p /\ 60%nat = length p.
Proof.
  destruct (proj1 (decompress_accepts_exactly coap_data (replicate 70 1) coap_rebuilt 60
              ltac:(apply (bool_decide_unpack _); vm_compute; done))) as (_ & p & Hr & Hn & _).
  - vm_compute. done.
  - exists p. split; [exact Hr | exact Hn].
Defined.

Lemma compressed_rules_canonical_witness :
  exists out2', compress (take 60 coap_rebuilt) (replicate 90 0) = (Ok (length coap_data), out2') /\
    take (length coap_data) out2' = coap_data.
Proof.
  apply (compressed_rules_canonical coap_data (replicate 70 1) coap_rebuilt (replicate 90 0) 60).
  - apply (bool_decide_unpack _). vm_compute. done.
  - vm_compute. done.
  - apply Z.eqb_neq. vm_compute. done.
  - intros _. split; apply Z.leb_le; vm_compute; done.
  - apply Z.leb_le. vm_compute. done.
  - apply Nat.leb_le. vm_compute. done.
Defined.

End SchcRoundtrip.
