(* ===== verification/AddrAssign.v ===== *)
(** * Coordinator-managed short addresses (lichen-rpl/src/address_assignment.rs)

    The assignment option of a DAO and DAO-ACK with its codec and the node side
    ([ShortAddressAssignmentClient]); the derived addresses of
    lichen-core/src/short_addr.rs.  The coordinator is [AddrCoord]. *)

From stdpp Require Import strings sorting.
From S2P Require Import Prelude RplMessage Addr Schnorr.
Import RplMessage.
Open Scope Z_scope.

(** ** Derived short addresses (lichen-core/src/short_addr.rs) *)
Module ShortAddr.

Definition LICHEN_CRC32_INITIAL : Z := 0x4348454e.

Definition SHORT_ADDR_IID_PREFIX : bytes := [0x00; 0x00; 0x00; 0xff; 0xfe; 0x00].
Definition is_reserved_short_addr (short_addr : Z) : bool :=
  (short_addr =? 0x0000) || (short_addr =? 0xfffe) || (short_addr =? 0xffff).
Definition short_addr_to_iid (short_addr : Z) : bytes := SHORT_ADDR_IID_PREFIX ++ to_be 2 short_addr.
Definition short_addr_from_iid (iid : bytes) : option Z :=
  if negb (length iid =? 8)%nat || negb (bool_decide (take 6 iid = SHORT_ADDR_IID_PREFIX)) then None
  else Some (from_be (slice 6 8 iid)).

Definition crc_bit (crc : Z) : Z :=
  let mask := wrap32 (0 - Z.land crc 1) in
  Z.lxor (Z.shiftr crc 1) (Z.land 0xedb88320 mask).
Definition crc_byte (crc byte : Z) : Z := Nat.iter 8 crc_bit (Z.lxor crc byte).
Definition crc32_ieee (data : bytes) (initial : Z) : Z :=
  Z.lxor (foldl crc_byte (Z.lxor initial u32_max) data) u32_max.

Definition derive_short_addr (eui64 : bytes) : Z := wrap16 (crc32_ieee eui64 LICHEN_CRC32_INITIAL).

(** The little-endian seed is mixed into the last four bytes. *)
Definition derive_short_addr_with_seed (eui64 : bytes) (seed : Z) : Z :=
  let seed_bytes := reverse (to_be 4 seed) in
  derive_short_addr (take 4 eui64 ++ zip_with Z.lxor (drop 4 eui64) seed_bytes).

Example canonical_short : derive_short_addr [0x00; 0x11; 0x22; 0x33; 0x44; 0x55; 0x66; 0x77] = 0x056e.
Proof. reflexivity. Qed.
Example seeded_short :
  derive_short_addr_with_seed [0x00; 0x11; 0x22; 0x33; 0x44; 0x55; 0x66; 0x77] 1 = 0x620b.
Proof. reflexivity. Qed.

(** The interface identifiers of the form 0000:00ff:fe00:XXXX are the short
    addresses. *)
Lemma short_iid_roundtrip (short_addr : Z) (iid : bytes) :
  is_u16 short_addr -> bytes_ok iid ->
  short_addr_from_iid (short_addr_to_iid short_addr) = Some short_addr /\
  (short_addr_from_iid iid = Some short_addr <-> iid = short_addr_to_iid short_addr).
Proof.
  intros Hs Hb. assert (short_addr_from_iid (short_addr_to_iid short_addr) = Some short_addr) as Hr.
  { unfold short_addr_from_iid. cbn -[from_be]. unfold slice. cbn -[from_be]. f_equal. by apply from_be_to_be_u16. }
  split; [done |]. split; [| by intros ->].
  unfold short_addr_from_iid, short_addr_to_iid. destruct (_ || _) eqn:E; [done |].
  apply orb_false_iff in E as [El Ep]. bool_to_prop. apply bool_decide_eq_true in Ep. intros [= <-].
  rewrite <- (take_drop 6 iid) at 1. rewrite Ep. f_equal. unfold slice. cbn [Nat.sub].
  rewrite take_ge by (rewrite length_drop; lia).
  rewrite <- (to_be_from_be (drop 6 iid)) at 1 by (by apply Forall_drop). by rewrite length_drop, El.
Qed.

Lemma derive_u16 eui64 : is_u16 (derive_short_addr eui64).
Proof. apply wrap16_u16. Qed.

End ShortAddr.
Export ShortAddr.

Module AddrAssign.

Definition SHORT_ADDRESS_OPTION_TYPE : Z := 252.
Definition SHORT_ADDRESS_OPTION_VERSION : Z := 1.
Definition SHORT_ADDRESS_NONE : Z := 0xFFFF.
Definition REQUEST_KIND : Z := 0.
Definition ACK_KIND : Z := 1.
Definition REQUEST_LENGTH : nat := 13.
Definition ACK_LENGTH : nat := 14.
Definition FIRST_SHORT : Z := 1.
Definition LAST_SHORT : Z := 0xFFFD.
Definition MAX_ACK_WIRE : nat := 40.

Inductive AssignmentError :=
  | Protocol (msg : string)
  | Persistence (msg : string).
#[export] Instance AssignmentError_eq_dec : EqDecision AssignmentError.
Proof. solve_decision. Defined.

Abbreviation aresult := (result AssignmentError).

(** [From<RplError>]. *)
Definition from_rpl {A} (m : result RplError A) : aresult A :=
  map_err (fun _ => Protocol "invalid RPL assignment message") m.

Inductive AssignmentOperation := Allocate | Release.
#[export] Instance AssignmentOperation_eq_dec : EqDecision AssignmentOperation.
Proof. solve_decision. Defined.
Definition operation_u8 (o : AssignmentOperation) : Z := match o with Allocate => 0 | Release => 1 end.
Definition operation_try_from (value : Z) : aresult AssignmentOperation :=
  if value =? 0 then Ok Allocate else if value =? 1 then Ok Release
  else Err (Protocol "unknown assignment operation").

Inductive AssignmentStatus := Success | Exhausted | Invalid.
#[export] Instance AssignmentStatus_eq_dec : EqDecision AssignmentStatus.
Proof. solve_decision. Defined.
Definition status_u8 (s : AssignmentStatus) : Z := match s with Success => 0 | Exhausted => 1 | Invalid => 2 end.
Definition status_try_from (value : Z) : aresult AssignmentStatus :=
  if value =? 0 then Ok Success else if value =? 1 then Ok Exhausted else if value =? 2 then Ok Invalid
  else Err (Protocol "unknown assignment ACK value").

Definition check_eui64 (eui64 : bytes) : aresult bytes :=
  if (length eui64 =? 8)%nat then Ok eui64 else Err (Protocol "EUI-64 must be exactly 8 immutable bytes").

Definition in_pool (short_addr : Z) : bool := (FIRST_SHORT <=? short_addr) && (short_addr <=? LAST_SHORT).
Definition check_short (short_addr : Z) : aresult Z :=
  if in_pool short_addr then Ok short_addr else Err (Protocol "short address must be in 0x0001..0xfffd").

Definition CIRCULAR_BIT : Z := 128.
Definition SEQUENCE_WINDOW : Z := 16.
Definition dao_seq_is_newer (new_seq old_seq : Z) : bool :=
  match new_seq <? CIRCULAR_BIT, old_seq <? CIRCULAR_BIT with
  | true, true | false, false =>
      let diff := Z.land (wrap8 (new_seq - old_seq)) 0x7F in
      (1 <=? diff) && (diff <=? SEQUENCE_WINDOW)
  | true, false => 256 + new_seq - old_seq <=? SEQUENCE_WINDOW
  | false, true => SEQUENCE_WINDOW <? 256 + old_seq - new_seq
  end.

(** ** The option *)

(** The loop over [OptionIter]; each option takes at least two bytes, so that
    the length of the tail is fuel enough. *)
Fixpoint find_option (tail : bytes) (pos fuel : nat) (found : option bytes) : aresult bytes :=
  match fuel with
  | O => ok_or found (Protocol "message must contain exactly one short-address option")
  | S fuel =>
      match option_next tail pos with
      | (None, _) => ok_or found (Protocol "message must contain exactly one short-address option")
      | (Some (Err e), _) => from_rpl (Err e)
      | (Some (Ok o), pos) =>
          if negb (o.(opt_type) =? SHORT_ADDRESS_OPTION_TYPE) then find_option tail pos fuel found
          else match found with
               | Some _ => Err (Protocol "message must contain exactly one short-address option")
               | None => find_option tail pos fuel (Some o.(opt_data))
               end
      end
  end.
Definition one_assignment_option (tail : bytes) : aresult bytes := find_option tail 0 (S (length tail)) None.

Definition write_option (out payload : bytes) : aresult nat * bytes :=
  let total := (2 + length payload)%nat in
  if (length out <? total)%nat then (Err (Protocol "assignment option buffer too small"), out)
  else
    let out := <[0%nat := SHORT_ADDRESS_OPTION_TYPE]> out in
    let out := <[1%nat := wrap8 (Z.of_nat (length payload))]> out in
    (Ok total, list_inserts 2 payload out).

(** A [None] on the wire. *)
Definition short_wire (s : option Z) : Z := default SHORT_ADDRESS_NONE s.
Definition short_of_wire (s : Z) : option Z := if s =? SHORT_ADDRESS_NONE then None else Some s.

Record AddressAssignmentRequest := {
  rq_eui64 : bytes;
  rq_operation : AssignmentOperation;
  requested_short : option Z
}.

Definition request_new (eui64 : bytes) (operation : AssignmentOperation) (requested : option Z) :
    aresult AddressAssignmentRequest :=
  if bool_decide (operation = Release) && bool_decide (is_Some requested) then
    Err (Protocol "release request cannot carry a preferred address")
  else
    _ ← (match requested with Some short_addr => check_short short_addr | None => Ok 0 end);
    Ok {| rq_eui64 := eui64; rq_operation := operation; requested_short := requested |}.

Definition request_allocate (eui64 : bytes) (requested : option Z) := request_new eui64 Allocate requested.
Definition request_release (eui64 : bytes) := request_new eui64 Release None.

Definition request_write_option (r : AddressAssignmentRequest) (out : bytes) : aresult nat * bytes :=
  let payload := [SHORT_ADDRESS_OPTION_VERSION; REQUEST_KIND; operation_u8 r.(rq_operation)] ++
                 r.(rq_eui64) ++ to_be 2 (short_wire r.(requested_short)) in
  write_option out payload.

Definition request_from_option_data (data : bytes) : aresult AddressAssignmentRequest :=
  if negb (length data =? REQUEST_LENGTH)%nat then Err (Protocol "invalid short-address request option")
  else if negb (nth 0 data 0 =? SHORT_ADDRESS_OPTION_VERSION) || negb (nth 1 data 0 =? REQUEST_KIND) then
    Err (Protocol "unsupported short-address request encoding")
  else
    let requested := from_be [nth 11 data 0; nth 12 data 0] in
    eui64 ← check_eui64 (slice 3 11 data);
    operation ← operation_try_from (nth 2 data 0);
    request_new eui64 operation (short_of_wire requested).

(** [base = x.write_to(out)?; option = self.write_option(&mut out[base..])?]. *)
Definition write_after {E} (first : result E nat * bytes) (lift : E -> AssignmentError)
    (option : bytes -> aresult nat * bytes) : aresult nat * bytes :=
  match first with
  | (Err e, out) => (Err (lift e), out)
  | (Ok base, out) =>
      match option (drop base out) with
      | (Err e, rest) => (Err e, take base out ++ rest)
      | (Ok n, rest) => (Ok (base + n)%nat, take base out ++ rest)
      end
  end.
Definition rpl_error (_ : RplError) : AssignmentError := Protocol "invalid RPL assignment message".

Definition request_write_dao (r : AddressAssignmentRequest) (rpl_instance_id dao_sequence : Z)
    (dodag_id : option bytes) (out : bytes) : aresult nat * bytes :=
  let dao := {| dao_instance := rpl_instance_id; ack_requested := true; dao_flags := 0;
                RplMessage.dao_sequence := dao_sequence; dao_dodag_id := dodag_id |} in
  write_after (dao_write_to dao out) rpl_error (request_write_option r).

Definition request_from_dao_bytes (data : bytes) : aresult AddressAssignmentRequest :=
  dao ← from_rpl (dao_from_bytes data);
  if negb dao.(ack_requested) then Err (Protocol "address-assignment DAO must request an ACK")
  else
    option ← one_assignment_option (dao_options_tail data);
    request_from_option_data option.

Record AddressAssignmentAck := {
  ak_eui64 : bytes;
  ak_operation : AssignmentOperation;
  ak_status : AssignmentStatus;
  ak_assigned : option Z;
  ak_sequence : Z
}.

Definition ack_new (eui64 : bytes) (operation : AssignmentOperation) (status : AssignmentStatus)
    (assigned_short : option Z) (dao_sequence : Z) : aresult AddressAssignmentAck :=
  _ ← (match assigned_short with Some short_addr => check_short short_addr | None => Ok 0 end);
  let should_assign := bool_decide (operation = Allocate) && bool_decide (status = Success) in
  if negb (Bool.eqb should_assign (bool_decide (is_Some assigned_short))) then
    Err (Protocol "ACK address is inconsistent with operation/status")
  else Ok {| ak_eui64 := eui64; ak_operation := operation; ak_status := status;
             ak_assigned := assigned_short; ak_sequence := dao_sequence |}.

Definition ack_write_option (a : AddressAssignmentAck) (out : bytes) : aresult nat * bytes :=
  let payload := [SHORT_ADDRESS_OPTION_VERSION; ACK_KIND; operation_u8 a.(ak_operation); status_u8 a.(ak_status)] ++
                 a.(ak_eui64) ++ to_be 2 (short_wire a.(ak_assigned)) in
  write_option out payload.

Definition ack_from_option_data (data : bytes) (dao_sequence : Z) : aresult AddressAssignmentAck :=
  if negb (length data =? ACK_LENGTH)%nat then Err (Protocol "invalid short-address ACK option")
  else if negb (nth 0 data 0 =? SHORT_ADDRESS_OPTION_VERSION) || negb (nth 1 data 0 =? ACK_KIND) then
    Err (Protocol "unsupported short-address ACK encoding")
  else
    let assigned := from_be [nth 12 data 0; nth 13 data 0] in
    eui64 ← check_eui64 (slice 4 12 data);
    operation ← operation_try_from (nth 2 data 0);
    status ← status_try_from (nth 3 data 0);
    ack_new eui64 operation status (short_of_wire assigned) dao_sequence.

Definition ack_write_dao_ack (a : AddressAssignmentAck) (rpl_instance_id : Z) (dodag_id : option bytes)
    (out : bytes) : aresult nat * bytes :=
  let ack := {| da_instance := rpl_instance_id; da_flags := 0; da_sequence := a.(ak_sequence);
                da_status := status_u8 a.(ak_status); da_dodag_id := dodag_id |} in
  write_after (da_write_to ack out) rpl_error (ack_write_option a).

Definition ack_from_dao_ack_bytes (data : bytes) : aresult AddressAssignmentAck :=
  ack ← from_rpl (da_from_bytes data);
  option ← one_assignment_option (da_options_tail data);
  result ← ack_from_option_data option ack.(da_sequence);
  if negb (ack.(da_status) =? status_u8 result.(ak_status)) then
    Err (Protocol "DAO-ACK status disagrees with assignment option")
  else Ok result.

(** [write_vec]: a 64-byte scratch buffer. *)
Definition write_vec (write : bytes -> aresult nat * bytes) : aresult bytes :=
  match write (replicate 64 0) with
  | (Ok n, buf) => Ok (take n buf)
  | (Err e, _) => Err e
  end.
Definition to_dao_vec (r : AddressAssignmentRequest) (rpl_instance_id dao_sequence : Z) (dodag_id : option bytes) :=
  write_vec (request_write_dao r rpl_instance_id dao_sequence dodag_id).
Definition to_dao_ack_vec (a : AddressAssignmentAck) (rpl_instance_id : Z) (dodag_id : option bytes) :=
  write_vec (ack_write_dao_ack a rpl_instance_id dodag_id).

(** ** The node *)

(** [last_ack] is the stored prefix of a 40-byte array: [MAX_ACK_WIRE] bounds it. *)
Record ShortAddressAssignmentClient := {
  cl_eui64 : bytes;
  cl_assigned : option Z;
  cl_last_ack : option bytes;
  cl_last_sequence : option Z
}.
Definition client_new (eui64 : bytes) : ShortAddressAssignmentClient :=
  {| cl_eui64 := eui64; cl_assigned := None; cl_last_ack := None; cl_last_sequence := None |}.

Definition apply_dao_ack (c : ShortAddressAssignmentClient) (ack : bytes) (expected_sequence : Z)
    (root_authenticated : bool) : aresult bool * ShortAddressAssignmentClient :=
  if negb root_authenticated then (Err (Protocol "DAO-ACK is not root-authenticated"), c)
  else
    match ack_from_dao_ack_bytes ack with
    | Err e => (Err e, c)
    | Ok result =>
        if negb (result.(ak_sequence) =? expected_sequence) then (Ok false, c)
        else if negb (bool_decide (result.(ak_eui64) = c.(cl_eui64))) then (Ok false, c)
        else if (MAX_ACK_WIRE <? length ack)%nat then
          (Err (Protocol "DAO-ACK exceeds stored fingerprint"), c)
        else
          let install :=
            if negb (bool_decide (result.(ak_status) = Success)) then (Ok false, c)
            else (Ok true, {| cl_eui64 := c.(cl_eui64); cl_assigned := result.(ak_assigned);
                              cl_last_ack := Some ack; cl_last_sequence := Some result.(ak_sequence) |}) in
          match c.(cl_last_ack) with
          | Some stored =>
              if bool_decide (c.(cl_last_sequence) = Some result.(ak_sequence)) then
                if bool_decide (stored = ack) then (Ok true, c)
                else (Err (Protocol "conflicting DAO-ACK for one sequence"), c)
              else install
          | None => install
          end
    end.

End AddrAssign.
