(* ===== verification/AddrCoord.v ===== *)
(** * The short-address coordinator (lichen-rpl/src/address_assignment.rs)

    The checksummed snapshots of the assignment table and the coordinator over
    a persistence adapter.  The adapter is a class; the atomicity its
    documentation demands is the class [AtomicStore], met by the in-memory
    adapter.  A [BTreeMap] is a [gmap] that is visited in the order of its
    keys; a [HashMap] is a [gmap] of which only lookups and sizes are used.
    The clock is the reading an operation takes. *)

From stdpp Require Import strings sorting.
From S2P Require Import Prelude RplMessage Addr Schnorr AddrAssign.
Import RplMessage AddrAssign.
Open Scope Z_scope.

Module AddrStore.

(** [trait AddressAssignmentStore]: [load] and [save]. *)
Class AddressAssignmentStore (St : Type) := {
  store_load : St -> aresult (option bytes);
  store_save : St -> bytes -> aresult unit * St
}.

(** The documented contract of [save]: it replaces the whole blob or nothing. *)
Class AtomicStore (St : Type) `{!AddressAssignmentStore St} : Prop := {
  save_ok : forall s blob s', store_save s blob = (Ok tt, s') -> store_load s' = Ok (Some blob);
  save_err : forall s blob e s', store_save s blob = (Err e, s') -> store_load s' = store_load s
}.

Record MemoryAddressAssignmentStore := { mem_state : option bytes }.
Definition mem_new (state : option bytes) : MemoryAddressAssignmentStore := {| mem_state := state |}.
Definition mem_load (s : MemoryAddressAssignmentStore) : aresult (option bytes) := Ok s.(mem_state).
Definition mem_save (s : MemoryAddressAssignmentStore) (state : bytes) :
    aresult unit * MemoryAddressAssignmentStore := (Ok tt, {| mem_state := Some state |}).
#[export] Instance memory_store : AddressAssignmentStore MemoryAddressAssignmentStore :=
  {| store_load := mem_load; store_save := mem_save |}.
#[export] Instance memory_atomic : AtomicStore MemoryAddressAssignmentStore.
Proof. split; unfold store_save, store_load, memory_store, mem_save; [| done]. by intros s blob s' [= <-]. Qed.

Inductive NoStore := TheNoStore.
Definition no_load (_ : NoStore) : aresult (option bytes) := Ok None.
Definition no_save (s : NoStore) (_ : bytes) : aresult unit * NoStore := (Ok tt, s).
#[export] Instance no_store : AddressAssignmentStore NoStore :=
  {| store_load := no_load; store_save := no_save |}.

End AddrStore.
Export AddrStore.

(** ** Snapshots *)
Module AddrState.

Definition SHORT_POOL_SIZE : Z := LAST_SHORT.
Definition STATE_MAGIC : bytes := [0x53; 0x41; 0x41; 0x31].
Definition STATE_RECORD_LENGTH : nat := 10.
Definition TABLE_STATE_MAGIC : bytes := [0x53; 0x41; 0x54; 0x32].
Definition TABLE_STATE_RECORD_LENGTH : nat := 20.
Definition NO_EXPIRY : Z := u64_max.
Definition NO_SEQUENCE : Z := 256.

Abbreviation Assignments := (gmap Z bytes).
Abbreviation Expiries := (gmap bytes Z).
Abbreviation Sequences := (gmap bytes Z).

Definition crc32_be (data : bytes) : bytes := to_be 4 (crc32_ieee data 0).
Definition checksum_ok (state : bytes) : bool :=
  let n := length state in
  (4 <=? n)%nat && bool_decide (crc32_be (take (n - 4) state) = drop (n - 4) state).

Definition check_capacity (capacity : Z) : aresult Z :=
  if (1 <=? capacity) && (capacity <=? SHORT_POOL_SIZE) then Ok capacity
  else Err (Protocol "capacity must be in 1..65533").

Definition short_le (a b : Z * bytes) : Prop := fst a <= fst b.
#[export] Instance short_le_dec a b : Decision (short_le a b) := decide (fst a <= fst b).
(** The order a [BTreeMap<u16, _>] is visited in. *)
Definition btree_iter (m : Assignments) : list (Z * bytes) := merge_sort short_le (map_to_list m).

(** The loop of [encode_records]; [seen] is the set of keys of its map. *)
Fixpoint encode_loop (entries : list (Z * bytes)) (seen : gset bytes)
    (write_record : Z -> bytes -> bytes) (records : bytes) : aresult bytes :=
  match entries with
  | [] => Ok records
  | (short_addr, eui64) :: entries =>
      _ ← check_short short_addr;
      _ ← check_eui64 eui64;
      if bool_decide (eui64 ∈ seen) then Err (Protocol "one EUI-64 cannot own multiple short addresses")
      else encode_loop entries ({[eui64]} ∪ seen) write_record (records ++ write_record short_addr eui64)
  end.

Definition encode_records (magic : bytes) (assignments : Assignments)
    (write_record : Z -> bytes -> bytes) : aresult bytes :=
  if SHORT_POOL_SIZE <? Z.of_nat (size assignments) then Err (Protocol "too many short-address assignments")
  else
    records ← encode_loop (btree_iter assignments) ∅ write_record [];
    let count := Z.of_nat (size assignments) in
    if u16_max <? count then Err (Protocol "too many short-address assignments")
    else
      let body := magic ++ to_be 2 count ++ records in
      Ok (body ++ crc32_be body).

Definition write_assignment_record (short_addr : Z) (eui64 : bytes) : bytes := to_be 2 short_addr ++ eui64.
Definition encode_assignment_state (assignments : Assignments) : aresult bytes :=
  encode_records STATE_MAGIC assignments write_assignment_record.

Fixpoint decode_assignment_loop (state : bytes) (count offset : nat) (previous : Z) (seen : gset bytes)
    (assignments : Assignments) : aresult Assignments :=
  match count with
  | O => Ok assignments
  | S count =>
      let short_addr := from_be (slice offset (offset + 2) state) in
      eui64 ← check_eui64 (slice (offset + 2) (offset + 10) state);
      _ ← check_short short_addr;
      if short_addr <=? previous then Err (Protocol "assignment state records are not strictly sorted")
      else if bool_decide (eui64 ∈ seen) then Err (Protocol "assignment state contains duplicate EUI-64")
      else decode_assignment_loop state count (offset + STATE_RECORD_LENGTH) short_addr
             ({[eui64]} ∪ seen) (<[short_addr := eui64]> assignments)
  end.

Definition decode_assignment_state (state : bytes) : aresult Assignments :=
  if (length state <? 10)%nat || negb (bool_decide (take 4 state = STATE_MAGIC)) then
    Err (Protocol "invalid assignment state header")
  else
    let count := Z.to_nat (from_be (slice 4 6 state)) in
    if negb (length state =? 6 + count * STATE_RECORD_LENGTH + 4)%nat then
      Err (Protocol "assignment state length does not match record count")
    else if negb (checksum_ok state) then Err (Protocol "assignment state checksum mismatch")
    else decode_assignment_loop state count 6 0 ∅ ∅.

Definition write_table_record (expiries : Expiries) (sequences : Sequences) (short_addr : Z) (eui64 : bytes) :
    bytes :=
  let expiry := default NO_EXPIRY (expiries !! eui64) in
  let sequence := default NO_SEQUENCE (sequences !! eui64) in
  to_be 2 short_addr ++ eui64 ++ to_be 8 expiry ++ to_be 2 sequence.
Definition encode_table_state (assignments : Assignments) (expiries : Expiries) (sequences : Sequences) :
    aresult bytes :=
  encode_records TABLE_STATE_MAGIC assignments (write_table_record expiries sequences).

Fixpoint decode_table_loop (state : bytes) (count offset : nat) (previous : Z) (seen : gset bytes)
    (assignments : Assignments) (expiries : Expiries) (sequences : Sequences) :
    aresult (Assignments * Expiries * Sequences) :=
  match count with
  | O => Ok (assignments, expiries, sequences)
  | S count =>
      let short_addr := from_be (slice offset (offset + 2) state) in
      eui64 ← check_eui64 (slice (offset + 2) (offset + 10) state);
      let expiry := from_be (slice (offset + 10) (offset + 18) state) in
      let sequence := from_be (slice (offset + 18) (offset + 20) state) in
      _ ← check_short short_addr;
      if short_addr <=? previous then Err (Protocol "coordinator table records are not strictly sorted")
      else if bool_decide (eui64 ∈ seen) then Err (Protocol "coordinator table contains duplicate EUI-64")
      else if NO_SEQUENCE <? sequence then Err (Protocol "persisted DAO sequence is invalid")
      else decode_table_loop state count (offset + TABLE_STATE_RECORD_LENGTH) short_addr
             ({[eui64]} ∪ seen) (<[short_addr := eui64]> assignments)
             (if expiry =? NO_EXPIRY then expiries else <[eui64 := expiry]> expiries)
             (if sequence =? NO_SEQUENCE then sequences else <[eui64 := sequence]> sequences)
  end.

Definition decode_table_state (state : bytes) : aresult (Assignments * Expiries * Sequences) :=
  if negb (bool_decide (take 4 state = TABLE_STATE_MAGIC)) then
    assignments ← decode_assignment_state state; Ok (assignments, ∅, ∅)
  else if (length state <? 10)%nat then Err (Protocol "invalid coordinator table state header")
  else
    let count := Z.to_nat (from_be (slice 4 6 state)) in
    if negb (length state =? 6 + count * TABLE_STATE_RECORD_LENGTH + 4)%nat then
      Err (Protocol "coordinator table state length mismatch")
    else if negb (checksum_ok state) then Err (Protocol "coordinator table state checksum mismatch")
    else decode_table_loop state count 6 0 ∅ ∅ ∅ ∅.

End AddrState.
Export AddrState.

(** ** The coordinator *)
Module AddrCoord.
Section coordinator.
Context {St : Type} `{!AddressAssignmentStore St}.

Record ShortAddressCoordinator := {
  co_store : St;
  co_capacity : Z;
  lease_seconds : option Z;
  by_short : Assignments;
  by_eui : gmap bytes Z;
  expires_by_eui : Expiries;
  last_sequence_by_eui : Sequences
}.

(** [assignments.iter().map(|(&s, &e)| (e, s)).collect()]: a later short
    address of one EUI-64 replaces an earlier one. *)
Definition invert (assignments : Assignments) : gmap bytes Z :=
  foldl (fun m e => <[snd e := fst e]> m) ∅ (btree_iter assignments).

Definition commit (c : ShortAddressCoordinator) (assignments : Assignments) (expiries : Expiries)
    (sequences : Sequences) : aresult unit * ShortAddressCoordinator :=
  match encode_table_state assignments expiries sequences with
  | Err e => (Err e, c)
  | Ok blob =>
      match store_save c.(co_store) blob with
      | (Err _, store) =>
          (Err (Persistence "could not commit assignment state"),
           {| co_store := store; co_capacity := c.(co_capacity); lease_seconds := c.(lease_seconds);
              by_short := c.(by_short); by_eui := c.(by_eui); expires_by_eui := c.(expires_by_eui);
              last_sequence_by_eui := c.(last_sequence_by_eui) |})
      | (Ok _, store) =>
          (Ok tt,
           {| co_store := store; co_capacity := c.(co_capacity); lease_seconds := c.(lease_seconds);
              by_short := assignments; by_eui := invert assignments; expires_by_eui := expiries;
              last_sequence_by_eui := sequences |})
      end
  end.

Definition lookup_by_short (c : ShortAddressCoordinator) (short_addr : Z) : option bytes :=
  c.(by_short) !! short_addr.
Definition lookup_by_eui (c : ShortAddressCoordinator) (eui64 : bytes) : aresult (option Z) :=
  eui64 ← check_eui64 eui64; Ok (c.(by_eui) !! eui64).
Definition expires_at (c : ShortAddressCoordinator) (eui64 : bytes) : aresult (option Z) :=
  eui64 ← check_eui64 eui64; Ok (c.(expires_by_eui) !! eui64).
Definition co_len (c : ShortAddressCoordinator) : nat := size c.(by_short).

Definition prune_expired (c : ShortAddressCoordinator) (now : Z) : aresult nat * ShortAddressCoordinator :=
  let expired := dom (filter (fun e => snd e <= now) c.(expires_by_eui)) in
  if (size expired =? 0)%nat then (Ok 0%nat, c)
  else
    let assignments := filter (fun e => snd e ∉ expired) c.(by_short) in
    let expiries := filter (fun e => fst e ∉ expired) c.(expires_by_eui) in
    let sequences := filter (fun e => fst e ∉ expired) c.(last_sequence_by_eui) in
    match commit c assignments expiries sequences with
    | (Err e, c) => (Err e, c)
    | (Ok _, c) => (Ok (size expired), c)
    end.

Fixpoint fallback_loop (start : Z) (occupied : Assignments) (offset : Z) (n : nat) : option Z :=
  match n with
  | O => None
  | S n =>
      let candidate := FIRST_SHORT + (start - FIRST_SHORT + offset) mod SHORT_POOL_SIZE in
      if bool_decide (is_Some (occupied !! candidate)) then fallback_loop start occupied (offset + 1) n
      else Some candidate
  end.
Definition fallback (start : Z) (occupied : Assignments) : option Z :=
  if SHORT_POOL_SIZE <=? Z.of_nat (size occupied) then None
  else fallback_loop (Z.max start FIRST_SHORT) occupied 0 (Z.to_nat SHORT_POOL_SIZE).

Definition is_free (c : ShortAddressCoordinator) (short_addr : Z) : bool :=
  bool_decide (c.(by_short) !! short_addr = None).
Fixpoint seed_loop (c : ShortAddressCoordinator) (eui64 : bytes) (seed : Z) (n : nat) : option Z :=
  match n with
  | O => None
  | S n =>
      let candidate := derive_short_addr_with_seed eui64 seed in
      if in_pool candidate && is_free c candidate then Some candidate else seed_loop c eui64 (seed + 1) n
  end.
Definition candidate (c : ShortAddressCoordinator) (eui64 : bytes) (preferred : option Z) : option Z :=
  let derived := derive_short_addr eui64 in
  let search :=
    if in_pool derived && is_free c derived then Some derived
    else match seed_loop c eui64 1 255 with
         | Some candidate => Some candidate
         | None => fallback (default (Z.max derived FIRST_SHORT) preferred) c.(by_short)
         end in
  match preferred with
  | Some preferred => if is_free c preferred then Some preferred else search
  | None => search
  end.

(** [now.checked_add(lease)] inserted into the deadlines when leases are on. *)
Definition renew_lease (c : ShortAddressCoordinator) (eui64 : bytes) (now : Z) : aresult Expiries :=
  match c.(lease_seconds) with
  | None => Ok c.(expires_by_eui)
  | Some lease =>
      if u64_max <? now + lease then Err (Protocol "lease expiry overflow")
      else Ok (<[eui64 := now + lease]> c.(expires_by_eui))
  end.

Definition set_sequence (c : ShortAddressCoordinator) (eui64 : bytes) (sequence : Z) : ShortAddressCoordinator :=
  {| co_store := c.(co_store); co_capacity := c.(co_capacity); lease_seconds := c.(lease_seconds);
     by_short := c.(by_short); by_eui := c.(by_eui); expires_by_eui := c.(expires_by_eui);
     last_sequence_by_eui := <[eui64 := sequence]> c.(last_sequence_by_eui) |}.

(** [process] after it has pruned the table. *)
Definition apply_request (c : ShortAddressCoordinator) (request : AddressAssignmentRequest) (dao_sequence : Z)
    (now : Z) : aresult AddressAssignmentAck * ShortAddressCoordinator :=
  let eui64 := request.(rq_eui64) in
  let ack := ack_new eui64 request.(rq_operation) in
  let sequences := <[eui64 := dao_sequence]> c.(last_sequence_by_eui) in
  let current := c.(by_eui) !! eui64 in
  let stale := match c.(last_sequence_by_eui) !! eui64 with
               | Some last => negb (dao_seq_is_newer dao_sequence last)
               | None => false
               end in
  if stale then
    let already_matches := match request.(rq_operation) with
                           | Release => bool_decide (current = None)
                           | Allocate => bool_decide (is_Some current)
                           end in
    (ack (if already_matches then Success else Invalid)
         (if already_matches && bool_decide (request.(rq_operation) = Allocate) then current else None)
         dao_sequence, c)
  else if bool_decide (request.(rq_operation) = Release) then
    match current with
    | Some short =>
        match commit c (delete short c.(by_short)) (delete eui64 c.(expires_by_eui)) sequences with
        | (Err e, c) => (Err e, c)
        | (Ok _, c) => (ack Success None dao_sequence, c)
        end
    | None => (ack Success None dao_sequence, set_sequence c eui64 dao_sequence)
    end
  else
    let publish short updated :=
      match renew_lease c eui64 now with
      | Err e => (Err e, c)
      | Ok expiries =>
          match commit c updated expiries sequences with
          | (Err e, c) => (Err e, c)
          | (Ok _, c) => (ack Success (Some short) dao_sequence, c)
          end
      end in
    match current with
    | Some short => publish short c.(by_short)
    | None =>
        if c.(co_capacity) <=? Z.of_nat (size c.(by_short)) then (ack Exhausted None dao_sequence, c)
        else match candidate c eui64 request.(requested_short) with
             | None => (ack Exhausted None dao_sequence, c)
             | Some short => publish short (<[short := eui64]> c.(by_short))
             end
    end.

Definition process (c : ShortAddressCoordinator) (request : AddressAssignmentRequest) (dao_sequence : Z)
    (authenticated_eui64 : bytes) (now : Z) : aresult AddressAssignmentAck * ShortAddressCoordinator :=
  if negb (bool_decide (request.(rq_eui64) = authenticated_eui64)) then
    (Err (Protocol "assignment option EUI-64 does not match authenticated origin"), c)
  else
    match prune_expired c now with
    | (Err e, c) => (Err e, c)
    | (Ok _, c) => apply_request c request dao_sequence now
    end.

Definition handle_dao (c : ShortAddressCoordinator) (dao_bytes authenticated_eui64 : bytes) (now : Z) :
    aresult bytes * ShortAddressCoordinator :=
  match from_rpl (dao_from_bytes dao_bytes) with
  | Err e => (Err e, c)
  | Ok dao =>
      match request_from_dao_bytes dao_bytes with
      | Err e => (Err e, c)
      | Ok request =>
          match process c request (dao_sequence dao) authenticated_eui64 now with
          | (Err e, c) => (Err e, c)
          | (Ok result, c) => (to_dao_ack_vec result (dao_instance dao) (dao_dodag_id dao), c)
          end
      end
  end.

(** [build] up to the first pruning: the tables come from the snapshot, from
    [initial] after a trip through its encoding, or are empty. *)
Definition build_table (store : St) (initial : option Assignments) (capacity : Z) (lease : option Z) :
    aresult ShortAddressCoordinator :=
  capacity ← check_capacity capacity;
  if match lease with Some lease => lease <? 1 | None => false end then
    Err (Protocol "lease_seconds must be positive")
  else
    stored ← map_err (fun _ => Persistence "could not load assignment state") (store_load store);
    if bool_decide (is_Some stored) && bool_decide (is_Some initial) then
      Err (Protocol "store and initial_assignments are mutually exclusive")
    else
      '(assignments, expiries, sequences) ←
        (match stored with
         | Some blob => decode_table_state blob
         | None =>
             match initial with
             | Some initial =>
                 blob ← encode_assignment_state initial;
                 assignments ← decode_assignment_state blob;
                 Ok (assignments, ∅, ∅)
             | None => Ok (∅, ∅, ∅)
             end
         end : aresult (Assignments * Expiries * Sequences));
      if capacity <? Z.of_nat (size assignments) then
        Err (Protocol "persisted assignments exceed coordinator capacity")
      else Ok {| co_store := store; co_capacity := capacity; lease_seconds := lease;
                 by_short := assignments; by_eui := invert assignments; expires_by_eui := expiries;
                 last_sequence_by_eui := sequences |}.

(** The store moves into the coordinator; its state is returned in either case. *)
Definition build (store : St) (initial : option Assignments) (capacity : Z) (lease : option Z) (now : Z) :
    aresult ShortAddressCoordinator * St :=
  match build_table store initial capacity lease with
  | Err e => (Err e, store)
  | Ok c =>
      match prune_expired c now with
      | (Err e, c) => (Err e, c.(co_store))
      | (Ok _, c) => (Ok c, c.(co_store))
      end
  end.

End coordinator.
#[global] Arguments ShortAddressCoordinator : clear implicits.

(** [ShortAddressCoordinator::new] and its siblings. *)
Definition coordinator_new := build TheNoStore None SHORT_POOL_SIZE None 0.
Definition with_capacity (capacity : Z) := build TheNoStore None capacity None 0.
Definition with_initial_assignments (assignments : Assignments) :=
  build TheNoStore (Some assignments) SHORT_POOL_SIZE None 0.
Definition with_store {St} `{!AddressAssignmentStore St} (store : St) (unix_now : Z) :=
  build store None SHORT_POOL_SIZE None unix_now.
Definition with_lease {St} `{!AddressAssignmentStore St} (store : St) (capacity : Z) (lease : option Z) (now : Z) :=
  build store None capacity lease now.

End AddrCoord.
