(* ===== verification/AddrCoordInv.v ===== *)
(** * Theorems on the short-address coordinator

    The snapshot codec is the identity on the assigned part of the table; the
    coordinator keeps a bijection between assigned addresses and EUI-64s inside
    its pool and capacity; a request below capacity is always served with an
    address nobody else holds; a restart finds the table again; and the node
    that asked installs what the coordinator assigned. *)

From stdpp Require Import strings sorting.
From S2P Require Import Prelude RplMessage Addr Schnorr AddrAssign AddrCoord.
Import RplMessage AddrAssign AddrCoord.
Open Scope Z_scope.

Module AddrCoordInv.

(** ** Tables *)

(** [e] holds an address of [a]. *)
Definition holds (a : Assignments) (e : bytes) : Prop := exists s, a !! s = Some e.
#[export] Instance holds_dec a e : Decision (holds a e).
Proof.
  destruct (decide (Exists (fun p => snd p = e) (map_to_list a))) as [H|H].
  - left. apply list.Exists_exists in H as ([s e'] & Hin & <-). exists s. by apply elem_of_map_to_list.
  - right. intros [s Hs]. apply H, list.Exists_exists. exists (s, e). by rewrite elem_of_map_to_list.
Defined.

Record table_ok (a : Assignments) : Prop := {
  to_pool : forall s e, a !! s = Some e -> in_pool s = true /\ length e = 8%nat;
  to_unique : forall s s' e, a !! s = Some e -> a !! s' = Some e -> s = s'
}.
Record leases_ok (a : Assignments) (x : Expiries) (q : Sequences) : Prop := {
  lo_held : forall e d, x !! e = Some d -> holds a e;
  lo_expiry : forall e d, x !! e = Some d -> 0 <= d < NO_EXPIRY;
  lo_sequence : forall e n, q !! e = Some n -> is_u8 n
}.

Lemma btree_perm a : btree_iter a ≡ₚ map_to_list a.
Proof. apply merge_sort_Permutation. Qed.
Lemma elem_of_btree a s e : (s, e) ∈ btree_iter a <-> a !! s = Some e.
Proof. rewrite btree_perm. apply elem_of_map_to_list. Qed.
Lemma btree_length a : length (btree_iter a) = size a.
Proof. by rewrite btree_perm, length_map_to_list. Qed.
Lemma btree_keys a : NoDup (btree_iter a).*1.
Proof. rewrite btree_perm. apply NoDup_fst_map_to_list. Qed.
Lemma btree_values a : table_ok a -> NoDup (btree_iter a).*2.
Proof.
  intros [_ Hu]. apply NoDup_fmap_2_strong.
  - intros [s e] [s' e'] H H' Heq. simpl in Heq. subst e'. apply elem_of_btree in H, H'. by rewrite (Hu _ _ _ H H').
  - rewrite btree_perm. apply NoDup_map_to_list.
Qed.

#[export] Instance short_le_total : Total short_le.
Proof. intros a b. unfold short_le. lia. Qed.
#[export] Instance short_le_trans : Transitive short_le.
Proof. intros a b c. unfold short_le. lia. Qed.

(** Visited in strictly increasing order of the address. *)
Definition short_lt (a b : Z * bytes) : Prop := fst a < fst b.
Lemma btree_sorted a : StronglySorted short_lt (btree_iter a).
Proof.
  assert (StronglySorted short_le (btree_iter a)) as Hs by (apply StronglySorted_merge_sort; apply _).
  pose proof (btree_keys a) as Hn. induction Hs as [|x l Hs IH Hall]; [constructor |].
  rewrite fmap_cons in Hn. apply NoDup_cons in Hn as [Hx Hn]. constructor; [by apply IH |].
  rewrite Forall_forall in Hall |- *. intros y Hy. specialize (Hall y Hy). unfold short_le, short_lt in *.
  assert (fst x <> fst y); [| lia]. intros E. apply Hx. rewrite E. by apply list_elem_of_fmap_2.
Qed.

(** ** The inverse map *)

Lemma foldl_invert (l : list (Z * bytes)) (m : gmap bytes Z) e s :
  NoDup l.*2 ->
  (foldl (fun m e => <[snd e := fst e]> m) m l) !! e = Some s <->
  (s, e) ∈ l \/ ((e ∉ (snd <$> l)) /\ m !! e = Some s).
Proof.
  revert m. induction l as [|[s1 e1] l IH]; intros m Hn; cbn [foldl].
  - split; [intros H; right; split; [apply not_elem_of_nil | done] | intros [H | [_ H]]; [by apply elem_of_nil in H | done]].
  - rewrite fmap_cons in Hn. apply NoDup_cons in Hn as [Hx Hn]. cbn [snd] in Hx. rewrite IH by done. cbn [fst snd].
    rewrite fmap_cons, not_elem_of_cons, !elem_of_cons. cbn [fst snd].
    destruct (decide (e = e1)) as [-> |]; [rewrite lookup_insert_eq | rewrite lookup_insert_ne by done]; split.
    + intros [H | [_ [= ->]]]; [by left; right | by left; left].
    + intros [[[= ->] | H] | [[? _] _]]; [by right | by left | done].
    + intros [H | [? ?]]; [by left; right | right; by split].
    + intros [[[= -> ->] | H] | [[_ ?] ?]]; [done | by left | by right].
Qed.

Lemma invert_lookup a e s : table_ok a -> invert a !! e = Some s <-> a !! s = Some e.
Proof.
  intros Ha. unfold invert. rewrite foldl_invert by (by apply btree_values). rewrite elem_of_btree, lookup_empty.
  split; [intros [? | [_ ?]]; done | by left].
Qed.

(** ** Snapshots *)

Lemma encode_loop_ok (entries : list (Z * bytes)) (seen : gset bytes) write records :
  Forall (fun p => in_pool (fst p) = true /\ length (snd p) = 8%nat) entries ->
  NoDup (snd <$> entries) -> (forall e, e ∈ (snd <$> entries) -> e ∉ seen) ->
  encode_loop entries seen write records =
    Ok (records ++ concat ((fun p => write (fst p) (snd p)) <$> entries)).
Proof.
  revert seen records. induction entries as [|[s e] l IH]; intros seen records Hf Hn Hd; simpl.
  - by rewrite app_nil_r.
  - apply Forall_cons in Hf as [[Hs He] Hf]. rewrite fmap_cons in Hn, Hd. apply NoDup_cons in Hn as [Hx Hn].
    cbn [fst snd] in *. unfold check_short, check_eui64. rewrite Hs, He. cbn.
    rewrite bool_decide_false by (apply Hd; apply list_elem_of_here).
    rewrite IH; [by rewrite <- app_assoc | done | done |].
    intros e' He'. rewrite not_elem_of_union, not_elem_of_singleton. split; [congruence |].
    apply Hd. by apply list_elem_of_further.
Qed.

Definition snapshot (magic : bytes) (a : Assignments) (write : Z -> bytes -> bytes) : bytes :=
  let body := magic ++ to_be 2 (Z.of_nat (size a)) ++ concat ((fun p => write (fst p) (snd p)) <$> btree_iter a) in
  body ++ crc32_be body.

Lemma btree_wf a : table_ok a ->
  Forall (fun p => in_pool (fst p) = true /\ length (snd p) = 8%nat) (btree_iter a).
Proof. intros [Hp _]. apply Forall_forall. intros [s e] Hin. apply Hp. by apply elem_of_btree. Qed.

Lemma encode_records_ok magic a write :
  table_ok a -> Z.of_nat (size a) <= SHORT_POOL_SIZE ->
  encode_records magic a write = Ok (snapshot magic a write).
Proof.
  intros Ha Hs. unfold encode_records. rewrite (proj2 (Z.ltb_ge _ _)) by done.
  rewrite encode_loop_ok by (by apply btree_wf || by apply btree_values || (intros; apply not_elem_of_empty)).
  cbn [mbind result_bind]. rewrite (proj2 (Z.ltb_ge _ _)); [done |].
  change SHORT_POOL_SIZE with 65533 in Hs. unfold u16_max. lia.
Qed.

Lemma crc_be_length data : length (crc32_be data) = 4%nat.
Proof. apply length_to_be. Qed.

Lemma checksum_snapshot body : checksum_ok (body ++ crc32_be body) = true.
Proof.
  unfold checksum_ok. rewrite length_app, crc_be_length, Nat.add_sub. apply andb_true_iff. split.
  - apply Nat.leb_le. lia.
  - apply bool_decide_eq_true. by rewrite take_app_length, drop_app_length.
Qed.

(** What the decoder keeps of one record. *)
Definition keep_expiry (x0 x : Expiries) (p : Z * bytes) : Expiries :=
  match x0 !! snd p with Some d => <[snd p := d]> x | None => x end.

Lemma decode_table_loop_ok (x0 : Expiries) (q0 : Sequences) (state : bytes) (entries : list (Z * bytes)) :
  (forall e d, x0 !! e = Some d -> 0 <= d < NO_EXPIRY) -> (forall e n, q0 !! e = Some n -> is_u8 n) ->
  forall pre post previous seen a x q,
  state = pre ++ concat ((fun p => write_table_record x0 q0 (fst p) (snd p)) <$> entries) ++ post ->
  Forall (fun p => in_pool (fst p) = true /\ length (snd p) = 8%nat) entries ->
  StronglySorted short_lt entries -> Forall (fun p => previous < fst p) entries ->
  NoDup (snd <$> entries) -> (forall e, e ∈ (snd <$> entries) -> e ∉ seen) ->
  decode_table_loop state (length entries) (length pre) previous seen a x q =
    Ok (foldl (fun m p => <[fst p := snd p]> m) a entries, foldl (keep_expiry x0) x entries,
        foldl (keep_expiry q0) q entries).
Proof.
  intros Hx0 Hq0. induction entries as [|[s e] l IH]; intros pre post previous seen a x q Hst Hf Hs Hp Hn Hd; [done |].
  apply Forall_cons in Hf as [[Hpool He] Hf]. apply Forall_cons in Hp as [Hlt _].
  apply StronglySorted_inv in Hs as [Hs Hall]. rewrite fmap_cons in Hn, Hd. apply NoDup_cons in Hn as [Hx Hn].
  cbn [fst snd] in *. set (rest := concat _) in *.
  assert (Hsu : is_u16 s) by (unfold in_pool in Hpool; bool_to_prop; change LAST_SHORT with 65533 in *; change FIRST_SHORT with 1 in *; width).
  assert (Hd8 : is_u64 (default NO_EXPIRY (x0 !! e))).
  { destruct (x0 !! e) as [d|] eqn:E; cbn; [apply Hx0 in E|]; unfold NO_EXPIRY in *; width. }
  assert (Hq2 : is_u16 (default NO_SEQUENCE (q0 !! e))).
  { destruct (q0 !! e) as [d|] eqn:E; cbn; [apply Hq0 in E|]; unfold NO_SEQUENCE in *; width. }
  assert (exists t, state = pre ++ to_be 2 s ++ e ++ to_be 8 (default NO_EXPIRY (x0 !! e)) ++
            to_be 2 (default NO_SEQUENCE (q0 !! e)) ++ t) as [t Hst'].
  { eexists. rewrite Hst, fmap_cons. cbn [concat fst snd]. unfold write_table_record. by rewrite <- !app_assoc. }
  cbn [length decode_table_loop].
  rewrite (slice_app_eq pre (to_be 2 s) _ state (length pre)) by (exact Hst' || by rewrite ?length_to_be).
  rewrite (slice_app_eq (pre ++ to_be 2 s) e _ state (length pre + 2)%nat)
    by (rewrite ?length_app, ?length_to_be, ?He; try lia; rewrite Hst', <- app_assoc; done).
  rewrite (slice_app_eq (pre ++ to_be 2 s ++ e) (to_be 8 (default NO_EXPIRY (x0 !! e))) _ state (length pre + 10)%nat)
    by (rewrite ?length_app, ?length_to_be, ?He; try lia; rewrite Hst', <- !app_assoc; done).
  rewrite (slice_app_eq (pre ++ to_be 2 s ++ e ++ to_be 8 (default NO_EXPIRY (x0 !! e)))
             (to_be 2 (default NO_SEQUENCE (q0 !! e))) t state (length pre + 18)%nat)
    by (rewrite ?length_app, ?length_to_be, ?He; try lia; rewrite Hst', <- !app_assoc; done).
  rewrite !from_be_to_be_u16, from_be_to_be_u64 by done.
  unfold check_eui64, check_short. rewrite He, Hpool. cbn [Nat.eqb mbind result_bind].
  rewrite (proj2 (Z.leb_gt _ _)) by lia. rewrite bool_decide_false by (apply Hd; apply list_elem_of_here).
  rewrite (proj2 (Z.ltb_ge _ _))
    by (destruct (q0 !! e) as [n|] eqn:E; cbn; [apply Hq0 in E; unfold NO_SEQUENCE; width | done]).
  set (pre' := pre ++ write_table_record x0 q0 s e).
  replace (length pre + TABLE_STATE_RECORD_LENGTH)%nat with (length pre')
    by (unfold pre', write_table_record; rewrite !length_app, !length_to_be, He; unfold TABLE_STATE_RECORD_LENGTH; lia).
  rewrite (IH pre' post); [| | done | done | | done |].
  - assert (keep_expiry x0 x (s, e) = if default NO_EXPIRY (x0 !! e) =? NO_EXPIRY then x
              else <[e := default NO_EXPIRY (x0 !! e)]> x) as <-.
    { unfold keep_expiry. cbn [snd]. destruct (x0 !! e) as [d|] eqn:E; cbn [default from_option]; [| by rewrite Z.eqb_refl].
      by rewrite (proj2 (Z.eqb_neq _ _)) by (apply Hx0 in E; cbn in *; lia). }
    assert (keep_expiry q0 q (s, e) = if default NO_SEQUENCE (q0 !! e) =? NO_SEQUENCE then q
              else <[e := default NO_SEQUENCE (q0 !! e)]> q) as <-; [| done].
    unfold keep_expiry. cbn [snd]. destruct (q0 !! e) as [n|] eqn:E; cbn [default from_option]; [| by rewrite Z.eqb_refl].
    by rewrite (proj2 (Z.eqb_neq _ _)) by (apply Hq0 in E; unfold NO_SEQUENCE; cbn; width).
  - unfold pre'. rewrite Hst, fmap_cons. cbn [concat fst snd]. by rewrite <- !app_assoc.
  - exact Hall.
  - intros e' He'. rewrite not_elem_of_union, not_elem_of_singleton. split; [congruence |].
    apply Hd. by apply list_elem_of_further.
Qed.

Lemma foldl_insert_lookup (l : list (Z * bytes)) (m : Assignments) s e :
  NoDup (fst <$> l) ->
  (foldl (fun m p => <[fst p := snd p]> m) m l) !! s = Some e <->
  (s, e) ∈ l \/ ((s ∉ (fst <$> l)) /\ m !! s = Some e).
Proof.
  revert m. induction l as [|[s1 e1] l IH]; intros m Hn; cbn [foldl].
  - split; [intros H; right; split; [apply not_elem_of_nil | done] | intros [H | [_ H]]; [by apply elem_of_nil in H | done]].
  - rewrite fmap_cons in Hn. apply NoDup_cons in Hn as [Hx Hn]. cbn [fst] in Hx. rewrite IH by done. cbn [fst snd].
    rewrite fmap_cons, not_elem_of_cons, !elem_of_cons. cbn [fst snd].
    destruct (decide (s = s1)) as [-> |]; [rewrite lookup_insert_eq | rewrite lookup_insert_ne by done]; split.
    + intros [H | [_ [= ->]]]; [by left; right | by left; left].
    + intros [[[= ->] | H] | [[? _] _]]; [by right | by left | done].
    + intros [H | [? ?]]; [by left; right | right; by split].
    + intros [[[= -> ->] | H] | [[_ ?] ?]]; [done | by left | by right].
Qed.

Lemma foldl_btree a : foldl (fun m p => <[fst p := snd p]> m) ∅ (btree_iter a) = a.
Proof.
  apply map_eq. intros s. apply option_eq. intros e.
  rewrite foldl_insert_lookup, elem_of_btree, lookup_empty by apply btree_keys.
  split; [intros [? | [_ ?]]; done | by left].
Qed.

Lemma foldl_keep (x0 x : gmap bytes Z) (l : list (Z * bytes)) e :
  (foldl (keep_expiry x0) x l) !! e =
    if decide (e ∈ (snd <$> l)) then (match x0 !! e with Some d => Some d | None => x !! e end) else x !! e.
Proof.
  revert x. induction l as [|[s1 e1] l IH]; intros x; cbn [foldl].
  - destruct (decide _) as [H|]; [by apply elem_of_nil in H | done].
  - rewrite IH. assert (keep_expiry x0 x (s1, e1) !! e =
      if decide (e = e1) then (match x0 !! e with Some d => Some d | None => x !! e end) else x !! e) as ->.
    { unfold keep_expiry. cbn [snd]. destruct (decide (e = e1)) as [-> |].
      - destruct (x0 !! e1); [by rewrite lookup_insert_eq | done].
      - destruct (x0 !! e1); [by rewrite lookup_insert_ne | done]. }
    rewrite fmap_cons. cbn [snd].
    destruct (decide (e ∈ (snd <$> l))) as [H|H], (decide (e = e1)) as [-> |Hne], (decide (_ ∈ _ :: _)) as [H'|H'];
      try done; try (destruct (x0 !! _); done).
    all: rewrite elem_of_cons in H'; firstorder congruence.
Qed.

(** The part of a table that belongs to the EUI-64s that hold an address. *)
Definition assigned_only (a : Assignments) (x : gmap bytes Z) : gmap bytes Z :=
  filter (fun p => holds a (fst p)) x.

Lemma keep_btree a x : foldl (keep_expiry x) ∅ (btree_iter a) = assigned_only a x.
Proof.
  apply map_eq. intros e. rewrite foldl_keep, lookup_empty. unfold assigned_only. rewrite map_lookup_filter.
  assert (e ∈ (snd <$> btree_iter a) <-> holds a e) as Hin.
  { rewrite list_elem_of_fmap. split.
    - intros ([s e'] & -> & H). exists s. by apply elem_of_btree.
    - intros [s H]. exists (s, e). by rewrite elem_of_btree. }
  destruct (decide (e ∈ _)) as [H|H]; rewrite Hin in H; destruct (x !! e); cbn; try done.
  - by rewrite option_guard_True.
  - by rewrite option_guard_False.
Qed.

Section header.
Context (magic : bytes) (a : Assignments) (write : Z -> bytes -> bytes) (n : nat).
Context (Hm : length magic = 4%nat) (Ha : table_ok a) (Hs : Z.of_nat (size a) <= SHORT_POOL_SIZE)
        (Hw : forall s e, length e = 8%nat -> length (write s e) = n).

Lemma snapshot_records : exists pre post,
  length pre = 6%nat /\
  snapshot magic a write = pre ++ concat ((fun p => write (fst p) (snd p)) <$> btree_iter a) ++ post.
Proof using Hm.
  exists (magic ++ to_be 2 (Z.of_nat (size a))), (crc32_be (magic ++ to_be 2 (Z.of_nat (size a)) ++
    concat ((fun p => write (fst p) (snd p)) <$> btree_iter a))).
  rewrite length_app, length_to_be, Hm. split; [done |]. unfold snapshot. by rewrite <- !app_assoc.
Qed.
Lemma snapshot_magic : take 4 (snapshot magic a write) = magic.
Proof using Hm. unfold snapshot. rewrite <- !app_assoc, <- Hm. apply take_app_length. Qed.
Lemma snapshot_count : Z.to_nat (from_be (slice 4 6 (snapshot magic a write))) = size a.
Proof using Hm Hs.
  unfold snapshot. rewrite <- !app_assoc.
  rewrite (slice_app_exact magic (to_be 2 (Z.of_nat (size a)))) by (rewrite ?length_to_be, Hm; done).
  rewrite from_be_to_be_u16; [lia |]. change SHORT_POOL_SIZE with 65533 in Hs. width.
Qed.
Lemma snapshot_length : length (snapshot magic a write) = (6 + size a * n + 4)%nat.
Proof using Hm Ha Hw.
  unfold snapshot. rewrite !length_app, crc_be_length, length_to_be, Hm. pose proof (btree_wf a Ha) as Hb.
  rewrite <- (btree_length a).
  enough (length (concat ((fun p => write (fst p) (snd p)) <$> btree_iter a)) = (length (btree_iter a) * n)%nat) by lia.
  clear -Hw Hb. induction (btree_iter a) as [|p l IH]; [done |].
  apply Forall_cons in Hb as [[_ Hp] Hl]. rewrite fmap_cons. cbn [concat length]. rewrite length_app, Hw, IH by done. lia.
Qed.
End header.

Lemma btree_above a : table_ok a -> Forall (fun p : Z * bytes => 0 < fst p) (btree_iter a).
Proof.
  intros Ha. eapply Forall_impl; [by apply btree_wf |]. intros [s e] [Hp _]. cbn [fst] in *.
  unfold in_pool in Hp. bool_to_prop. change FIRST_SHORT with 1 in *. lia.
Qed.

(** Decoding an encoded table gives back what belongs to assigned EUI-64s. *)
Lemma table_roundtrip a x q :
  table_ok a -> Z.of_nat (size a) <= SHORT_POOL_SIZE ->
  (forall e d, x !! e = Some d -> 0 <= d < NO_EXPIRY) -> (forall e n, q !! e = Some n -> is_u8 n) ->
  exists blob, encode_table_state a x q = Ok blob /\
    decode_table_state blob = Ok (a, assigned_only a x, assigned_only a q).
Proof.
  intros Ha Hs Hx Hq. exists (snapshot TABLE_STATE_MAGIC a (write_table_record x q)).
  split; [by apply encode_records_ok |]. unfold decode_table_state.
  assert (forall s (e : bytes), length e = 8%nat -> length (write_table_record x q s e) = 20%nat) as Hw.
  { intros s e He. unfold write_table_record. by rewrite !length_app, !length_to_be, He. }
  rewrite snapshot_magic, bool_decide_true by done. cbn [negb].
  rewrite (snapshot_length _ _ _ 20), snapshot_count by done. rewrite (proj2 (Nat.ltb_ge _ 10)) by lia.
  change TABLE_STATE_RECORD_LENGTH with 20%nat. rewrite Nat.eqb_refl. cbn [negb].
  unfold snapshot at 1. rewrite checksum_snapshot. cbn [negb].
  destruct (snapshot_records TABLE_STATE_MAGIC a (write_table_record x q)) as (pre & post & Hpre & ->); [done |].
  rewrite <- (btree_length a), <- Hpre.
  rewrite (decode_table_loop_ok x q _ (btree_iter a) Hx Hq pre post);
    [| done | by apply btree_wf | apply btree_sorted | by apply btree_above | by apply btree_values
     | intros; apply not_elem_of_empty].
  by rewrite foldl_btree, !keep_btree.
Qed.

Lemma decode_assignment_loop_ok (state : bytes) (entries : list (Z * bytes)) :
  forall pre post previous seen a,
  state = pre ++ concat ((fun p => write_assignment_record (fst p) (snd p)) <$> entries) ++ post ->
  Forall (fun p => in_pool (fst p) = true /\ length (snd p) = 8%nat) entries ->
  StronglySorted short_lt entries -> Forall (fun p => previous < fst p) entries ->
  NoDup (snd <$> entries) -> (forall e, e ∈ (snd <$> entries) -> e ∉ seen) ->
  decode_assignment_loop state (length entries) (length pre) previous seen a =
    Ok (foldl (fun m p => <[fst p := snd p]> m) a entries).
Proof.
  induction entries as [|[s e] l IH]; intros pre post previous seen a Hst Hf Hs Hp Hn Hd; [done |].
  apply Forall_cons in Hf as [[Hpool He] Hf]. apply Forall_cons in Hp as [Hlt _].
  apply StronglySorted_inv in Hs as [Hs Hall]. rewrite fmap_cons in Hn, Hd. apply NoDup_cons in Hn as [Hx Hn].
  cbn [fst snd] in *.
  assert (Hsu : is_u16 s) by (unfold in_pool in Hpool; bool_to_prop; change LAST_SHORT with 65533 in *; change FIRST_SHORT with 1 in *; width).
  assert (exists t, state = pre ++ to_be 2 s ++ e ++ t) as [t Hst'].
  { eexists. rewrite Hst, fmap_cons. cbn [concat fst snd]. unfold write_assignment_record. by rewrite <- !app_assoc. }
  cbn [length decode_assignment_loop].
  rewrite (slice_app_eq pre (to_be 2 s) _ state (length pre)) by (exact Hst' || by rewrite ?length_to_be).
  rewrite (slice_app_eq (pre ++ to_be 2 s) e t state (length pre + 2)%nat)
    by (rewrite ?length_app, ?length_to_be, ?He; try lia; rewrite Hst', <- app_assoc; done).
  rewrite from_be_to_be_u16 by done.
  unfold check_eui64, check_short. rewrite He, Hpool. cbn [Nat.eqb mbind result_bind].
  rewrite (proj2 (Z.leb_gt _ _)) by lia. rewrite bool_decide_false by (apply Hd; apply list_elem_of_here).
  set (pre' := pre ++ write_assignment_record s e).
  replace (length pre + STATE_RECORD_LENGTH)%nat with (length pre')
    by (unfold pre', write_assignment_record; rewrite !length_app, !length_to_be, He; unfold STATE_RECORD_LENGTH; lia).
  rewrite (IH pre' post); [done | | done | done | exact Hall | done |].
  - unfold pre'. rewrite Hst, fmap_cons. cbn [concat fst snd]. by rewrite <- !app_assoc.
  - intros e' He'. rewrite not_elem_of_union, not_elem_of_singleton. split; [congruence |].
    apply Hd. by apply list_elem_of_further.
Qed.

Lemma assignment_roundtrip a :
  table_ok a -> Z.of_nat (size a) <= SHORT_POOL_SIZE ->
  exists blob, encode_assignment_state a = Ok blob /\ decode_assignment_state blob = Ok a.
Proof.
  intros Ha Hs. exists (snapshot STATE_MAGIC a write_assignment_record).
  split; [by apply encode_records_ok |]. unfold decode_assignment_state.
  assert (forall s (e : bytes), length e = 8%nat -> length (write_assignment_record s e) = 10%nat) as Hw.
  { intros s e He. unfold write_assignment_record. by rewrite !length_app, !length_to_be, He. }
  rewrite snapshot_magic, bool_decide_true by done.
  rewrite (snapshot_length _ _ _ 10), snapshot_count by done. rewrite (proj2 (Nat.ltb_ge _ 10)) by lia. cbn [negb orb].
  change STATE_RECORD_LENGTH with 10%nat. rewrite Nat.eqb_refl. cbn [negb].
  unfold snapshot at 1. rewrite checksum_snapshot. cbn [negb].
  destruct (snapshot_records STATE_MAGIC a write_assignment_record) as (pre & post & Hpre & ->); [done |].
  rewrite <- (btree_length a), <- Hpre.
  rewrite (decode_assignment_loop_ok _ (btree_iter a) pre post);
    [| done | by apply btree_wf | apply btree_sorted | by apply btree_above | by apply btree_values
     | intros; apply not_elem_of_empty].
  by rewrite foldl_btree.
Qed.

(** ** What decodes is a table *)

Lemma table_ok_empty : table_ok ∅.
Proof. split; intros *; by rewrite lookup_empty. Qed.
Lemma leases_ok_empty a : leases_ok a ∅ ∅.
Proof. split; intros *; by rewrite lookup_empty. Qed.

(** A fresh address for an EUI-64 without one. *)
Lemma table_ok_insert a s e :
  table_ok a -> in_pool s = true -> length e = 8%nat -> ~ holds a e -> table_ok (<[s := e]> a).
Proof.
  intros [Hp Hu] Hs He Hn. split.
  - intros s' e' [[<- <-] | [_ H]]%lookup_insert_Some; [done | by apply Hp in H].
  - intros s1 s2 e' [[<- <-] | [? H1]]%lookup_insert_Some [[<- Heq] | [? H2]]%lookup_insert_Some; try done.
    + destruct Hn. by exists s2.
    + subst e'. destruct Hn. by exists s1.
    + by apply (Hu _ _ e').
Qed.

Lemma holds_insert a s e e' : a !! s = None -> holds (<[s := e]> a) e' <-> e' = e \/ holds a e'.
Proof.
  intros Hf. split.
  - intros [s' [[_ <-] | [_ H]]%lookup_insert_Some]; [by left | right; by exists s'].
  - intros [-> | [s' H]]; [exists s; by rewrite lookup_insert_eq |].
    exists s'. rewrite lookup_insert_ne; [done | congruence].
Qed.

Lemma leases_ok_mono a a' x q : (forall e, holds a e -> holds a' e) -> leases_ok a x q -> leases_ok a' x q.
Proof. intros Hm [H1 H2 H3]. split; [intros e d H; apply Hm; by apply (H1 e d) | done | done]. Qed.

Lemma leases_ok_expiry a x q e d :
  holds a e -> 0 <= d < NO_EXPIRY -> leases_ok a x q -> leases_ok a (<[e := d]> x) q.
Proof.
  intros He Hd [H1 H2 H3]. split; [| | done];
    intros e' d' [[<- <-] | [_ H]]%lookup_insert_Some; eauto.
Qed.
Lemma leases_ok_sequence a x q e n :
  is_u8 n -> leases_ok a x q -> leases_ok a x (<[e := n]> q).
Proof.
  intros Hn [H1 H2 H3]. split; [done | done |].
  intros e' d' [[<- <-] | [_ H]]%lookup_insert_Some; eauto.
Qed.

(** The state of the decoding loops between two records. *)
Record decoding (a : Assignments) (seen : gset bytes) (previous : Z) : Prop := {
  dc_table : table_ok a;
  dc_seen : forall e, holds a e -> e ∈ seen;
  dc_below : forall s e, a !! s = Some e -> s <= previous
}.

Lemma decoding_empty : decoding ∅ ∅ 0.
Proof. split; [apply table_ok_empty | intros e [s H] | intros s e H]; by rewrite lookup_empty in H. Qed.

Lemma decoding_fresh a seen previous s : decoding a seen previous -> previous < s -> a !! s = None.
Proof. intros [_ _ Hb] Hs. destruct (a !! s) eqn:E; [apply Hb in E; lia | done]. Qed.

Lemma decoding_step a seen previous s e :
  decoding a seen previous -> previous < s -> in_pool s = true -> length e = 8%nat -> e ∉ seen ->
  decoding (<[s := e]> a) ({[e]} ∪ seen) s.
Proof.
  intros Hd Hs Hp He Hf. pose proof (decoding_fresh _ _ _ _ Hd Hs) as Hn. destruct Hd as [Ht Hse Hb]. split.
  - apply table_ok_insert; [done | done | done |]. intros H. by apply Hse in H.
  - intros e' [-> | H]%(holds_insert _ _ _ _ Hn); [set_solver | apply Hse in H; set_solver].
  - intros s' e' [[<- _] | [_ H]]%lookup_insert_Some; [lia | apply Hb in H; lia].
Qed.

Lemma decode_assignment_loop_sound state count :
  forall offset previous seen a a', decoding a seen previous ->
  decode_assignment_loop state count offset previous seen a = Ok a' -> table_ok a'.
Proof.
  induction count as [|count IH]; intros offset previous seen a a' Hd H; cbn [decode_assignment_loop] in H.
  - apply ok_inj in H as <-. apply Hd.
  - unfold check_eui64, check_short in H. destruct (_ =? 8)%nat eqn:He; [| done]. cbn [mbind result_bind] in H.
    destruct (in_pool _) eqn:Hp; [| done]. cbn [mbind result_bind] in H.
    destruct (_ <=? previous) eqn:Hlt; [done |]. destruct (bool_decide _) eqn:Hin; [done |]. bool_to_prop.
    eapply IH; [| exact H]. apply bool_decide_eq_false in Hin. by apply decoding_step with previous.
Qed.

Lemma decode_table_loop_sound state count :
  bytes_ok state ->
  forall offset previous seen a x q a' x' q', decoding a seen previous -> leases_ok a x q ->
  decode_table_loop state count offset previous seen a x q = Ok (a', x', q') -> table_ok a' /\ leases_ok a' x' q'.
Proof.
  intros Hok. induction count as [|count IH]; intros offset previous seen a x q a' x' q' Hd Hl H;
    cbn [decode_table_loop] in H.
  - apply ok_inj in H as [= <- <- <-]. split; [apply Hd | done].
  - unfold check_eui64, check_short in H. destruct (_ =? 8)%nat eqn:He; [| done]. cbn [mbind result_bind] in H.
    destruct (in_pool _) eqn:Hp; [| done]. cbn [mbind result_bind] in H.
    destruct (_ <=? previous) eqn:Hlt; [done |]. destruct (bool_decide _) eqn:Hin; [done |].
    destruct (NO_SEQUENCE <? _) eqn:Hq; [done |]. bool_to_prop.
    assert (Hn := decoding_fresh _ _ _ _ Hd Hlt).
    apply bool_decide_eq_false in Hin. eapply IH; [| | exact H]; [by apply decoding_step with previous |].
    set (s := from_be _) in *. set (e := slice (offset + 2) _ state) in *.
    assert (holds (<[s := e]> a) e) as He' by (apply holds_insert; auto).
    assert (leases_ok (<[s := e]> a) x q) as Hl'.
    { eapply leases_ok_mono; [| exact Hl]. intros e' ?. apply holds_insert; auto. }
    assert (forall i j, (j - i <= 8)%nat -> is_u64 (from_be (slice i j state))) as Hw.
    { intros i j ?. apply from_be_u64; [by apply slice_Forall |]. unfold slice. rewrite length_take. lia. }
    assert (forall x, leases_ok (<[s := e]> a) x q -> leases_ok (<[s := e]> a) x
      (if from_be (slice (offset + 18) (offset + 20) state) =? NO_SEQUENCE then q
       else <[e := from_be (slice (offset + 18) (offset + 20) state)]> q)) as Hsq.
    { intros y Hy. destruct (_ =? NO_SEQUENCE) eqn:Hne; [done |]. bool_to_prop.
      apply leases_ok_sequence; [| done].
      pose proof (Hw (offset + 18) (offset + 20))%nat as Hw2. unfold NO_SEQUENCE in *. width. }
    apply Hsq. destruct (_ =? NO_EXPIRY) eqn:Hne; [done |]. bool_to_prop. apply leases_ok_expiry; [done | | done].
    pose proof (Hw (offset + 10) (offset + 18))%nat as Hw8. unfold NO_EXPIRY in *. width.
Qed.

Lemma decode_assignment_state_sound state a : decode_assignment_state state = Ok a -> table_ok a.
Proof.
  unfold decode_assignment_state. destruct (_ || _); [done |]. destruct (negb _); [done |].
  destruct (negb _); [done |]. apply decode_assignment_loop_sound, decoding_empty.
Qed.

Lemma decode_table_state_sound state a x q :
  bytes_ok state -> decode_table_state state = Ok (a, x, q) -> table_ok a /\ leases_ok a x q.
Proof.
  intros Hok. unfold decode_table_state. destruct (negb _).
  - destruct (decode_assignment_state state) as [a' |] eqn:E; [| done]. intros [= <- <- <-].
    split; [by apply (decode_assignment_state_sound state) | apply leases_ok_empty].
  - destruct (_ <? _)%nat; [done |]. destruct (negb _); [done |]. destruct (negb _); [done |].
    apply decode_table_loop_sound; [done | apply decoding_empty | apply leases_ok_empty].
Qed.

(** ** The coordinator *)

Lemma table_ok_subseteq a a' : a' ⊆ a -> table_ok a -> table_ok a'.
Proof.
  intros Hs [Hp Hu]. split.
  - intros s e H. eapply Hp. by eapply lookup_weaken.
  - intros s s' e H H'. eapply Hu; by eapply lookup_weaken.
Qed.

Section coordinator.
Context {St : Type} `{!AddressAssignmentStore St}.
Implicit Types c : ShortAddressCoordinator St.
Implicit Types now : Z.

(** Addresses and EUI-64s are in bijection, inside the pool and the capacity;
    only assigned EUI-64s have a lease. *)
Record co_inv c : Prop := {
  ci_table : table_ok c.(by_short);
  ci_leases : leases_ok c.(by_short) c.(expires_by_eui) c.(last_sequence_by_eui);
  ci_inverse : c.(by_eui) = invert c.(by_short);
  ci_capacity : 1 <= c.(co_capacity) <= SHORT_POOL_SIZE;
  ci_size : Z.of_nat (size c.(by_short)) <= c.(co_capacity);
  ci_lease : forall l, c.(lease_seconds) = Some l -> 1 <= l
}.

(** The same coordinator over another state of the store. *)
Definition on_store c (s : St) : ShortAddressCoordinator St :=
  {| co_store := s; co_capacity := c.(co_capacity); lease_seconds := c.(lease_seconds);
     by_short := c.(by_short); by_eui := c.(by_eui); expires_by_eui := c.(expires_by_eui);
     last_sequence_by_eui := c.(last_sequence_by_eui) |}.
Definition with_tables c (s : St) (a : Assignments) (x : Expiries) (q : Sequences) : ShortAddressCoordinator St :=
  {| co_store := s; co_capacity := c.(co_capacity); lease_seconds := c.(lease_seconds);
     by_short := a; by_eui := invert a; expires_by_eui := x; last_sequence_by_eui := q |}.

Lemma commit_eq c a x q : table_ok a -> Z.of_nat (size a) <= SHORT_POOL_SIZE ->
  commit c a x q =
    match store_save c.(co_store) (snapshot TABLE_STATE_MAGIC a (write_table_record x q)) with
    | (Ok _, s) => (Ok tt, with_tables c s a x q)
    | (Err _, s) => (Err (Persistence "could not commit assignment state"), on_store c s)
    end.
Proof.
  intros Ha Hs. unfold commit, encode_table_state. rewrite encode_records_ok by done.
  destruct (store_save _ _) as [[[] | ] ?]; done.
Qed.

Lemma on_store_inv c s : co_inv c -> co_inv (on_store c s).
Proof. by intros [? ? ? ? ? ?]. Qed.

(** Every outcome of [commit] keeps the invariant and either installs the new
    tables or leaves the old ones. *)
Lemma commit_inv c a x q r c' :
  co_inv c -> table_ok a -> leases_ok a x q -> Z.of_nat (size a) <= c.(co_capacity) ->
  commit c a x q = (r, c') ->
  co_inv c' /\ (r = Ok tt /\ c' = with_tables c c'.(co_store) a x q \/
                (exists e, r = Err e) /\ c' = on_store c c'.(co_store)).
Proof.
  intros Hc Ha Hl Hs. pose proof Hc as [? ? ? ? ? ?]. rewrite commit_eq by (done || lia).
  destruct (store_save _ _) as [[[] | e] s]; intros [= <- <-].
  - split; [by split | by left].
  - split; [by apply on_store_inv | right; split; [by eexists | done]].
Qed.

Lemma ci_by_eui c e s : co_inv c -> c.(by_eui) !! e = Some s <-> c.(by_short) !! s = Some e.
Proof. intros Hc. rewrite (ci_inverse c Hc). by apply invert_lookup, ci_table. Qed.
Lemma ci_unassigned c e : co_inv c -> c.(by_eui) !! e = None <-> ~ holds c.(by_short) e.
Proof.
  intros Hc. split.
  - intros Hn [s Hs]. apply ci_by_eui in Hs; [| done]. congruence.
  - intros Hn. destruct (by_eui c !! e) as [s|] eqn:E; [| done]. destruct Hn. exists s. by apply ci_by_eui.
Qed.

(** ** Pruning *)

Definition expired_at c (now : Z) : gset bytes := dom (filter (fun e => snd e <= now) c.(expires_by_eui)).
Definition live (now : Z) (c : ShortAddressCoordinator St) : Prop :=
  forall e d, c.(expires_by_eui) !! e = Some d -> now < d.
Definition pruned_table c now : Assignments := filter (fun e => snd e ∉ expired_at c now) c.(by_short).
Definition pruned_keys c now (x : gmap bytes Z) : gmap bytes Z := filter (fun e => fst e ∉ expired_at c now) x.

Lemma expired_empty c now : (size (expired_at c now) = 0)%nat <-> live now c.
Proof.
  assert (expired_at c now = ∅ <-> live now c) as <-; [| split; [intros H; apply set_eq, size_empty_inv, H || apply leibniz_equiv, size_empty_inv, H | intros ->; apply size_empty]].
  unfold live, expired_at. rewrite dom_empty_iff_L. split.
  - intros H e d Hd. destruct (Z.lt_ge_cases now d) as [|Hge]; [done |].
    assert (filter (fun e => snd e <= now) (expires_by_eui c) !! e = Some d) as Hf by (by apply map_lookup_filter_Some).
    rewrite H in Hf. by rewrite lookup_empty in Hf.
  - intros H. apply map_empty. intros e. apply map_lookup_filter_None. right. intros d Hd. apply H in Hd. cbn. lia.
Qed.

Lemma pruned_ok c now : co_inv c ->
  table_ok (pruned_table c now) /\ Z.of_nat (size (pruned_table c now)) <= c.(co_capacity) /\
  leases_ok (pruned_table c now) (pruned_keys c now c.(expires_by_eui)) (pruned_keys c now c.(last_sequence_by_eui)).
Proof.
  intros [Ht Hl _ _ Hs _]. split_and!.
  - eapply table_ok_subseteq; [apply map_filter_subseteq | done].
  - etrans; [| exact Hs]. apply inj_le, map_size_filter.
  - destruct Hl as [H1 H2 H3]. split.
    + intros e d [Hd He]%map_lookup_filter_Some. destruct (H1 e d Hd) as [s Hs']. exists s.
      by apply map_lookup_filter_Some.
    + intros e d [Hd _]%map_lookup_filter_Some. eauto.
    + intros e d [Hd _]%map_lookup_filter_Some. eauto.
Qed.

Lemma prune_live c now : live now c -> prune_expired c now = (Ok 0%nat, c).
Proof.
  intros Hl%expired_empty. unfold prune_expired. fold (expired_at c now). by rewrite Hl.
Qed.

Lemma prune_inv c now r c' : co_inv c -> prune_expired c now = (r, c') ->
  co_inv c' /\
  ((exists n, r = Ok n) /\ live now c' /\ c'.(by_short) = pruned_table c now /\
     c'.(expires_by_eui) = pruned_keys c now c.(expires_by_eui) /\
     c'.(last_sequence_by_eui) = pruned_keys c now c.(last_sequence_by_eui) \/
   (exists e, r = Err e) /\ c' = on_store c c'.(co_store)).
Proof.
  intros Hc H. destruct (pruned_ok c now Hc) as (Ht & Hs & Hl).
  unfold prune_expired in H. fold (expired_at c now) in H. fold (pruned_table c now) in H.
  fold (pruned_keys c now (expires_by_eui c)) in H. fold (pruned_keys c now (last_sequence_by_eui c)) in H.
  destruct (size _ =? 0)%nat eqn:E; bool_to_prop.
  - injection H as <- <-. split; [done |]. left.
    assert (expired_at c now = ∅) as He by (apply leibniz_equiv, size_empty_inv, E).
    unfold pruned_table, pruned_keys. rewrite !map_filter_id by (intros; rewrite He; apply not_elem_of_empty).
    apply expired_empty in E. split_and!; [by eexists | done | done | done | done].
  - destruct (commit _ _ _ _) as [[[] | e] c1] eqn:Ec; injection H as <- <-;
      destruct (commit_inv _ _ _ _ _ _ Hc Ht Hl Hs Ec) as [Hi [[Hr Heq] | [[e' Hr] Heq]]]; try done; split; [done | | done |].
    + left. rewrite Heq. cbn. split_and!; [by eexists | | done | done | done].
      intros e d [Hd Hn]%map_lookup_filter_Some. cbn in Hn.
      destruct (Z.lt_ge_cases now d) as [|Hge]; [done |]. destruct Hn. unfold expired_at.
      apply elem_of_dom. exists d. by apply map_lookup_filter_Some.
    + right. split; [by eexists | done].
Qed.

(** ** Choosing an address *)

Lemma in_pool_range s : in_pool s = true <-> 1 <= s <= SHORT_POOL_SIZE.
Proof. unfold in_pool. rewrite andb_true_iff, !Z.leb_le. done. Qed.

Lemma fallback_loop_some (occupied : Assignments) n : forall start offset s,
  fallback_loop start occupied offset n = Some s -> in_pool s = true /\ occupied !! s = None.
Proof.
  induction n as [|n IH]; intros start offset s; cbn [fallback_loop]; [done |].
  destruct (bool_decide _) eqn:E; [apply IH |]. intros [= <-]. apply bool_decide_eq_false in E. split.
  - apply in_pool_range. change FIRST_SHORT with 1.
    pose proof (Z.mod_pos_bound (start - 1 + offset) SHORT_POOL_SIZE eq_refl). lia.
  - by apply eq_None_not_Some.
Qed.

Lemma fallback_loop_none (occupied : Assignments) n : forall start offset,
  fallback_loop start occupied offset n = None ->
  forall k, 0 <= k < Z.of_nat n -> is_Some (occupied !! (1 + (start - 1 + offset + k) mod SHORT_POOL_SIZE)).
Proof.
  induction n as [|n IH]; intros start offset; cbn [fallback_loop]; [intros _ k Hk; lia |].
  destruct (bool_decide _) eqn:E; [| done]. intros H k Hk. apply bool_decide_eq_true in E.
  change FIRST_SHORT with 1 in E. destruct (decide (k = 0)) as [-> |].
  - by rewrite Z.add_0_r.
  - replace (start - 1 + offset + k) with (start - 1 + (offset + 1) + (k - 1)) by lia. apply IH; [done | lia].
Qed.

(** A pool with a free address always yields one. *)
Lemma fallback_total start (occupied : Assignments) :
  Z.of_nat (size occupied) < SHORT_POOL_SIZE ->
  exists s, fallback start occupied = Some s /\ in_pool s = true /\ occupied !! s = None.
Proof.
  intros Hs. unfold fallback. rewrite (proj2 (Z.leb_gt _ _)) by done.
  destruct (fallback_loop _ _ _ _) as [s|] eqn:E.
  { exists s. split; [done | by eapply fallback_loop_some]. }
  exfalso. set (b := Z.max start FIRST_SHORT) in *.
  assert (forall s, 1 <= s <= SHORT_POOL_SIZE -> is_Some (occupied !! s)) as Hall.
  { intros s Hr. pose proof (fallback_loop_none _ _ _ _ E ((s - b) mod SHORT_POOL_SIZE)) as Hk.
    pose proof (Z.mod_pos_bound (s - b) SHORT_POOL_SIZE eq_refl).
    rewrite Z.add_0_r, Zplus_mod_idemp_r in Hk. replace (b - 1 + (s - b)) with (s - 1) in Hk by lia.
    rewrite (Z.mod_small (s - 1)) in Hk by lia. replace (1 + (s - 1)) with s in Hk by lia. apply Hk.
    rewrite Z2Nat.id by done. done. }
  assert (list_to_set (seqZ 1 SHORT_POOL_SIZE) ⊆ dom occupied) as Hsub.
  { intros s. rewrite elem_of_list_to_set, elem_of_seqZ, elem_of_dom. intros ?. apply Hall. lia. }
  apply subseteq_size in Hsub. rewrite size_list_to_set, length_seqZ, size_dom in Hsub by apply NoDup_seqZ.
  apply inj_le in Hsub. rewrite Z2Nat.id in Hsub by done. lia.
Qed.

Lemma seed_loop_some c eui64 n : forall seed s,
  seed_loop c eui64 seed n = Some s -> in_pool s = true /\ is_free c s = true.
Proof.
  induction n as [|n IH]; intros seed s; cbn [seed_loop]; [done |].
  destruct (_ && _) eqn:E; [| apply IH]. intros [= <-]. by apply andb_true_iff in E.
Qed.

(** Below the pool size a candidate is found: in the pool, held by nobody, and
    the preferred one when that is free. *)
Lemma candidate_total c eui64 preferred :
  Z.of_nat (size c.(by_short)) < SHORT_POOL_SIZE -> (forall p, preferred = Some p -> in_pool p = true) ->
  exists s, candidate c eui64 preferred = Some s /\ in_pool s = true /\ c.(by_short) !! s = None /\
    (forall p, preferred = Some p -> c.(by_short) !! p = None -> s = p).
Proof.
  intros Hs Hp. unfold candidate.
  set (search := if _ && _ then _ else _).
  assert (exists s, search = Some s /\ in_pool s = true /\ c.(by_short) !! s = None) as (s & Es & Hin & Hf).
  { unfold search. destruct (_ && _) eqn:E.
    - apply andb_true_iff in E as [? Hf]. unfold is_free in Hf. apply bool_decide_eq_true in Hf. by eauto.
    - destruct (seed_loop _ _ _ _) as [s|] eqn:E2; [| by apply fallback_total].
      apply seed_loop_some in E2 as [? Hf]. unfold is_free in Hf. apply bool_decide_eq_true in Hf. by eauto. }
  destruct preferred as [p|].
  - unfold is_free at 1. destruct (bool_decide _) eqn:E.
    + apply bool_decide_eq_true in E. exists p. split_and!; [done | by apply Hp | done | by intros ? [= <-]].
    + apply bool_decide_eq_false in E. exists s. split_and!; [done | done | done | by intros ? [= <-] ?].
  - exists s. split_and!; [done | done | done | by intros].
Qed.

(** ** Requests *)

Record request_ok (rq : AddressAssignmentRequest) : Prop := {
  ro_eui : length rq.(rq_eui64) = 8%nat;
  ro_short : forall p, rq.(requested_short) = Some p -> in_pool p = true
}.

Lemma ack_new_fields e o st a q k : ack_new e o st a q = Ok k ->
  k = {| ak_eui64 := e; ak_operation := o; ak_status := st; ak_assigned := a; ak_sequence := q |}.
Proof.
  unfold ack_new. destruct a as [s|]; cbn; [destruct (check_short s); [cbn | done] |];
    (case_match; [done | by intros <-%ok_inj]).
Qed.

Lemma ack_new_assigned e s q : in_pool s = true ->
  ack_new e Allocate Success (Some s) q =
  Ok {| ak_eui64 := e; ak_operation := Allocate; ak_status := Success; ak_assigned := Some s; ak_sequence := q |}.
Proof. intros Hs. unfold ack_new, check_short. by rewrite Hs. Qed.

(** Whether a sequence is refused as a copy or a stale one. *)
Definition stale c (e : bytes) (sequence : Z) : bool :=
  match c.(last_sequence_by_eui) !! e with
  | Some last => negb (dao_seq_is_newer sequence last)
  | None => false
  end.

(** The tables [commit] is given. *)
Record proposal c (a : Assignments) (x : Expiries) (q : Sequences) : Prop := {
  pr_table : table_ok a;
  pr_leases : leases_ok a x q;
  pr_size : Z.of_nat (size a) <= c.(co_capacity)
}.

(** What a request can do. *)
Inductive applied c (rq : AddressAssignmentRequest) (seq : Z) :
    aresult AddressAssignmentAck -> ShortAddressCoordinator St -> Prop :=
  | ap_kept st asg :
      (st = Success -> stale c rq.(rq_eui64) seq = true /\ asg = c.(by_eui) !! rq.(rq_eui64)) ->
      (st = Exhausted -> c.(co_capacity) <= Z.of_nat (size c.(by_short)) /\ c.(by_eui) !! rq.(rq_eui64) = None) ->
      applied c rq seq (ack_new rq.(rq_eui64) rq.(rq_operation) st asg seq) c
  | ap_silent :
      rq.(rq_operation) = Release -> c.(by_eui) !! rq.(rq_eui64) = None ->
      applied c rq seq (ack_new rq.(rq_eui64) Release Success None seq) (set_sequence c rq.(rq_eui64) seq)
  | ap_overflow e : applied c rq seq (Err e) c
  | ap_failed a x q e c' :
      proposal c a x q -> commit c a x q = (Err e, c') -> applied c rq seq (Err e) c'
  | ap_released s x q c' :
      rq.(rq_operation) = Release -> c.(by_short) !! s = Some rq.(rq_eui64) ->
      proposal c (delete s c.(by_short)) x q -> commit c (delete s c.(by_short)) x q = (Ok tt, c') ->
      applied c rq seq (ack_new rq.(rq_eui64) Release Success None seq) c'
  | ap_assigned s x q c' :
      rq.(rq_operation) = Allocate -> in_pool s = true ->
      (c.(by_short) !! s = Some rq.(rq_eui64) \/ c.(by_short) !! s = None /\ ~ holds c.(by_short) rq.(rq_eui64)) ->
      proposal c (<[s := rq.(rq_eui64)]> c.(by_short)) x q ->
      commit c (<[s := rq.(rq_eui64)]> c.(by_short)) x q = (Ok tt, c') ->
      applied c rq seq (ack_new rq.(rq_eui64) Allocate Success (Some s) seq) c'.

Lemma delete_proposal c s e seq : co_inv c -> is_u8 seq -> c.(by_short) !! s = Some e ->
  proposal c (delete s c.(by_short)) (delete e c.(expires_by_eui)) (<[e := seq]> c.(last_sequence_by_eui)).
Proof.
  intros [Ht Hl _ _ Hs _] Hq He. split.
  - eapply table_ok_subseteq; [apply delete_subseteq | done].
  - apply leases_ok_sequence; [done |]. destruct Hl as [H1 H2 H3]. split; [| | done].
    + intros e' d [Hne Hd]%lookup_delete_Some. destruct (H1 _ _ Hd) as [s' Hs']. exists s'.
      rewrite lookup_delete_ne; [done |]. intros <-. congruence.
    + intros e' d [_ Hd]%lookup_delete_Some. eauto.
  - etrans; [| exact Hs]. apply inj_le, map_subseteq_size, delete_subseteq.
Qed.

(** The lease of [e] after a request at [now]. *)
Definition clock_ok c (now : Z) : Prop :=
  0 <= now /\ forall l, c.(lease_seconds) = Some l -> now + l <> u64_max.

Lemma renew_ok c e now x a q : co_inv c -> clock_ok c now -> holds a e -> renew_lease c e now = Ok x ->
  leases_ok a c.(expires_by_eui) q -> leases_ok a x q.
Proof.
  intros [_ _ _ _ _ Hle] [Hn Hc] He Hr Hl. unfold renew_lease in Hr. destruct (lease_seconds c) as [l|]; [| by apply ok_inj in Hr as <-].
  destruct (u64_max <? now + l) eqn:E; [done |]. apply ok_inj in Hr as <-. bool_to_prop.
  apply leases_ok_expiry; [done | | done]. specialize (Hc l eq_refl). specialize (Hle l eq_refl). unfold NO_EXPIRY. lia.
Qed.

Lemma insert_proposal c s e seq now x : co_inv c -> is_u8 seq -> clock_ok c now -> length e = 8%nat -> in_pool s = true ->
  c.(by_short) !! s = Some e \/
  (c.(by_short) !! s = None /\ ~ holds c.(by_short) e /\ Z.of_nat (size c.(by_short)) < c.(co_capacity)) ->
  renew_lease c e now = Ok x ->
  proposal c (<[s := e]> c.(by_short)) x (<[e := seq]> c.(last_sequence_by_eui)).
Proof.
  intros Hc Hq Hn He Hp Hs Hr.
  assert (holds (<[s := e]> (by_short c)) e) as Hh by (exists s; by rewrite lookup_insert_eq).
  pose proof Hc as [Ht Hl _ _ Hsz _]. destruct Hs as [Hs | (Hs & Hne & Hroom)].
  - rewrite insert_id in * by done. split; [done | | done].
    apply leases_ok_sequence; [done |]. by eapply renew_ok.
  - split; [by apply table_ok_insert | | rewrite map_size_insert, Hs; lia].
    apply leases_ok_sequence; [done |]. eapply renew_ok; [done | done | done | done |].
    eapply leases_ok_mono; [| exact Hl]. intros e' ?. apply holds_insert; auto.
Qed.

Lemma apply_request_applied c rq seq now r c' :
  co_inv c -> request_ok rq -> is_u8 seq -> clock_ok c now ->
  apply_request c rq seq now = (r, c') -> applied c rq seq r c'.
Proof.
  intros Hc [He Hp] Hq Hn. unfold apply_request. fold (stale c (rq_eui64 rq) seq).
  assert (forall s, (c.(by_short) !! s = Some rq.(rq_eui64) \/
      c.(by_short) !! s = None /\ ~ holds c.(by_short) rq.(rq_eui64) /\ Z.of_nat (size c.(by_short)) < c.(co_capacity)) ->
    in_pool s = true -> rq.(rq_operation) = Allocate ->
    match renew_lease c (rq_eui64 rq) now with
    | Ok expiries =>
        match commit c (<[s := rq_eui64 rq]> (by_short c)) expiries (<[rq_eui64 rq := seq]> (last_sequence_by_eui c)) with
        | (Ok _, c) => (ack_new (rq_eui64 rq) (rq_operation rq) Success (Some s) seq, c)
        | (Err e, c) => (Err e, c)
        end
    | Err e => (Err e, c)
    end = (r, c') -> applied c rq seq r c') as Hpub.
  { intros s Hs Hin Ho. destruct (renew_lease _ _ _) as [x|e] eqn:Er; [| intros [= <- <-]; apply ap_overflow].
    pose proof (insert_proposal c s _ seq now x Hc Hq Hn He Hin Hs Er) as Hpr.
    destruct (commit _ _ _ _) as [[[] | e] c1] eqn:Ec; intros [= <- <-].
    - rewrite Ho. eapply ap_assigned; [done | done | | done | done].
      destruct Hs as [Hs | (? & ? & ?)]; [by left | by right].
    - by eapply ap_failed. }
  destruct (stale c (rq_eui64 rq) seq) eqn:Est.
  { intros [= <- <-]. apply ap_kept.
    - intros Hs. split; [done |].
      destruct (rq_operation rq), (by_eui c !! rq_eui64 rq); cbn in *; done.
    - intros Hs. by destruct (match rq_operation rq with Allocate => _ | Release => _ end). }
  destruct (rq_operation rq) eqn:Ho; [rewrite bool_decide_false by done | rewrite bool_decide_true by done].
  - destruct (by_eui c !! rq_eui64 rq) as [s|] eqn:Ecur.
    + apply ci_by_eui in Ecur; [| done]. specialize (Hpub s). rewrite insert_id in Hpub by done.
      apply Hpub; [by left | by apply (ci_table c Hc) in Ecur as [? _] | done].
    + apply ci_unassigned in Ecur as Hno; [| done].
      destruct (co_capacity c <=? _) eqn:Ecap; bool_to_prop.
      { intros [= <- <-]. rewrite <- Ho. apply ap_kept; [done | intros _; split; [lia | done]]. }
      pose proof (ci_capacity c Hc).
      destruct (candidate_total c (rq_eui64 rq) (requested_short rq)) as (s & -> & Hin & Hf & _); [lia | done |].
      apply Hpub; [by right | done | done].
  - destruct (by_eui c !! rq_eui64 rq) as [s|] eqn:Ecur.
    + apply ci_by_eui in Ecur; [| done].
      pose proof (delete_proposal c s _ seq Hc Hq Ecur) as Hpr.
      destruct (commit _ _ _ _) as [[[] | e] c1] eqn:Ec; intros [= <- <-].
      * by eapply ap_released.
      * by eapply ap_failed.
    + intros [= <- <-]. by apply ap_silent.
Qed.

Lemma proposal_inv c a x q r c' : co_inv c -> proposal c a x q -> commit c a x q = (r, c') -> co_inv c'.
Proof. intros Hc [Ht Hl Hs] Hr. by destruct (commit_inv _ _ _ _ _ _ Hc Ht Hl Hs Hr) as [? _]. Qed.

Lemma proposal_tables c a x q c' : co_inv c -> proposal c a x q -> commit c a x q = (Ok tt, c') ->
  c' = with_tables c c'.(co_store) a x q.
Proof.
  intros Hc [Ht Hl Hs] Hr. by destruct (commit_inv _ _ _ _ _ _ Hc Ht Hl Hs Hr) as [_ [[_ ?] | [[? ?] _]]].
Qed.
Lemma proposal_failed c a x q e c' : co_inv c -> proposal c a x q -> commit c a x q = (Err e, c') ->
  c' = on_store c c'.(co_store).
Proof.
  intros Hc [Ht Hl Hs] Hr. by destruct (commit_inv _ _ _ _ _ _ Hc Ht Hl Hs Hr) as [_ [[? _] | [_ ?]]].
Qed.

Lemma applied_inv c rq seq r c' : co_inv c -> is_u8 seq -> applied c rq seq r c' -> co_inv c'.
Proof.
  intros Hc Hq Ha. destruct Ha; [done | | done | by eapply proposal_inv..].
  destruct Hc as [? ? ? ? ? ?]. split; try done. by apply leases_ok_sequence.
Qed.

(** A successful acknowledgement states what the table now holds for the
    requester. *)
Lemma applied_truthful c rq seq k c' : co_inv c -> is_u8 seq -> applied c rq seq (Ok k) c' ->
  k.(ak_eui64) = rq.(rq_eui64) /\ k.(ak_sequence) = seq /\ k.(ak_operation) = rq.(rq_operation) /\
  (k.(ak_status) = Success -> c'.(by_eui) !! rq.(rq_eui64) = k.(ak_assigned)).
Proof.
  intros Hc Hq Ha. pose proof (applied_inv _ _ _ _ _ Hc Hq Ha) as Hc'. remember (Ok k) as r eqn:Hk.
  destruct Ha as [st asg H1 H2 | Ho Hn | | | s x q c' Ho Hs Hpr Hcm | s x q c' Ho Hp Hs Hpr Hcm]; [| | done | done | |];
    apply ack_new_fields in Hk; subst k; cbn [ak_eui64 ak_sequence ak_operation ak_status ak_assigned];
    (split; [done | split; [done | split; [done |]]]).
  - intros ->. by destruct (H1 eq_refl).
  - intros _. done.
  - intros _. pose proof (proposal_tables _ _ _ _ _ Hc Hpr Hcm) as Ht.
    apply ci_unassigned; [done |]. rewrite Ht. cbn. intros [s' [Hne Hs']%lookup_delete_Some].
    destruct Hne. by apply (to_unique _ (ci_table c Hc) _ _ (rq_eui64 rq)).
  - intros _. pose proof (proposal_tables _ _ _ _ _ Hc Hpr Hcm) as Ht.
    apply ci_by_eui; [done |]. rewrite Ht. cbn. by rewrite lookup_insert_eq.
Qed.

(** Nobody else's address moves. *)
Lemma applied_others c rq seq r c' s e : co_inv c -> applied c rq seq r c' -> e <> rq.(rq_eui64) ->
  c'.(by_short) !! s = Some e <-> c.(by_short) !! s = Some e.
Proof.
  intros Hc Ha Hne. destruct Ha as [st asg H1 H2 | Ho Hn | e' | a x q e' c' Hpr Hcm | s' x q c' Ho Hs Hpr Hcm
    | s' x q c' Ho Hp Hs Hpr Hcm]; try done.
  - by rewrite (proposal_failed _ _ _ _ _ _ Hc Hpr Hcm).
  - rewrite (proposal_tables _ _ _ _ _ Hc Hpr Hcm). cbn. rewrite lookup_delete_Some.
    split; [by intros [_ ?] |]. intros H. split; [| done]. intros <-. congruence.
  - rewrite (proposal_tables _ _ _ _ _ Hc Hpr Hcm). cbn. rewrite lookup_insert_Some. split.
    + intros [[_ <-] | [_ ?]]; [done | done].
    + intros H. right. split; [| done]. intros <-. destruct Hs as [Hs | [Hs _]]; congruence.
Qed.

(** ** The operations *)

Lemma clock_ok_eq c c' now : c'.(lease_seconds) = c.(lease_seconds) -> clock_ok c now -> clock_ok c' now.
Proof. unfold clock_ok. by intros ->. Qed.

Lemma commit_lease c a x q r c' : commit c a x q = (r, c') -> c'.(lease_seconds) = c.(lease_seconds).
Proof.
  unfold commit. destruct (encode_table_state a x q); [| by intros [= _ <-]].
  destruct (store_save _ _) as [[] ?]; by intros [= _ <-].
Qed.
Lemma prune_lease c now r c' : prune_expired c now = (r, c') -> c'.(lease_seconds) = c.(lease_seconds).
Proof.
  unfold prune_expired. destruct (_ =? _)%nat; [by intros [= _ <-] |].
  destruct (commit _ _ _ _) as [[] c1] eqn:Ec; intros [= _ <-]; by eapply commit_lease.
Qed.

(** [process] either refuses a foreign EUI-64, fails to prune, or applies the
    request to the pruned table. *)
Lemma process_cases c rq seq auth now r c' :
  co_inv c -> request_ok rq -> is_u8 seq -> clock_ok c now ->
  process c rq seq auth now = (r, c') ->
  (rq.(rq_eui64) <> auth /\ c' = c /\ exists e, r = Err e) \/
  (rq.(rq_eui64) = auth /\ (exists e e', r = Err e /\ prune_expired c now = (Err e', c'))) \/
  (rq.(rq_eui64) = auth /\ exists n c1, prune_expired c now = (Ok n, c1) /\ co_inv c1 /\ applied c1 rq seq r c').
Proof.
  intros Hc Hrq Hq Hn. unfold process.
  destruct (bool_decide _) eqn:E; cbn [negb]; [apply bool_decide_eq_true in E | apply bool_decide_eq_false in E].
  - destruct (prune_expired c now) as [[n | e] c1] eqn:Ep.
    + intros Ha. right; right. split; [done |]. exists n, c1.
      pose proof (proj1 (prune_inv _ _ _ _ Hc Ep)) as Hc1. split; [done |]. split; [done |].
      eapply apply_request_applied; [done | done | done | | done].
      eapply clock_ok_eq; [by eapply prune_lease | done].
    + intros [= <- <-]. right; left. split; [done |]. by eauto.
  - intros [= <- <-]. left. by eauto.
Qed.

Lemma process_inv c rq seq auth now : co_inv c -> request_ok rq -> is_u8 seq -> clock_ok c now ->
  co_inv (snd (process c rq seq auth now)).
Proof.
  intros Hc Hrq Hq Hn. destruct (process c rq seq auth now) as [r c'] eqn:Ep.
  destruct (process_cases _ _ _ _ _ _ _ Hc Hrq Hq Hn Ep) as
    [(_ & -> & _) | [(_ & e & e' & _ & Hp) | (_ & n & c1 & Hp & Hc1 & Ha)]]; cbn; [done | |].
  - by destruct (prune_inv _ _ _ _ Hc Hp).
  - by eapply applied_inv.
Qed.

Lemma request_parsed data rq : request_from_dao_bytes data = Ok rq -> request_ok rq.
Proof.
  unfold request_from_dao_bytes. intros H. apply bind_ok in H as (dao & _ & H). case_match; [done |].
  apply bind_ok in H as (o & _ & H). unfold request_from_option_data in H. case_match; [done |]. case_match; [done |].
  apply bind_ok in H as (e & He & H). apply bind_ok in H as (op & _ & H).
  unfold check_eui64 in He. destruct (_ =? 8)%nat eqn:E8; [| done]. apply ok_inj in He as <-. bool_to_prop.
  unfold request_new in H. case_match; [done |]. apply bind_ok in H as (z & Hz & <-%ok_inj).
  split; [done |]. cbn [requested_short]. intros p Hp. rewrite Hp in Hz. unfold check_short in Hz. by destruct (in_pool p).
Qed.

Lemma dao_sequence_u8 data d : bytes_ok data -> dao_from_bytes data = Ok d -> is_u8 (dao_sequence d).
Proof.
  intros Hb. unfold dao_from_bytes. destruct (_ <? 4)%nat eqn:E; [done |]. bool_to_prop.
  do 2 (case_match; [done |]). intros <-%ok_inj. cbn [dao_sequence].
  apply (proj1 (Forall_nth is_u8 0 data) Hb). lia.
Qed.

Lemma handle_dao_inv c dao auth now : co_inv c -> bytes_ok dao -> clock_ok c now ->
  co_inv (snd (handle_dao c dao auth now)).
Proof.
  intros Hc Hb Hn. unfold handle_dao. destruct (dao_from_bytes dao) as [d|] eqn:Ed; [| done]. cbn [from_rpl map_err].
  destruct (request_from_dao_bytes dao) as [rq|] eqn:Er; [| done].
  pose proof (process_inv c rq (dao_sequence d) auth now Hc (request_parsed _ _ Er) (dao_sequence_u8 _ _ Hb Ed) Hn) as Hp.
  by destruct (process _ _ _ _ _) as [[k | e] c1].
Qed.

(** The only octets a build may load. *)
Definition loads_octets (s : St) : Prop := forall blob, store_load s = Ok (Some blob) -> bytes_ok blob.

(** Where the tables of a new coordinator come from. *)
Lemma build_table_cases store initial capacity lease c : build_table store initial capacity lease = Ok c ->
  exists stored a x q, store_load store = Ok stored /\
    c = {| co_store := store; co_capacity := capacity; lease_seconds := lease; by_short := a; by_eui := invert a;
           expires_by_eui := x; last_sequence_by_eui := q |} /\
    match stored with
    | Some blob => decode_table_state blob = Ok (a, x, q)
    | None => x = ∅ /\ q = ∅ /\
        match initial with
        | Some a0 => exists blob, encode_assignment_state a0 = Ok blob /\ decode_assignment_state blob = Ok a
        | None => a = ∅
        end
    end /\
    1 <= capacity <= SHORT_POOL_SIZE /\ Z.of_nat (size a) <= capacity /\ (forall l, lease = Some l -> 1 <= l).
Proof.
  unfold build_table, check_capacity. destruct (_ && _) eqn:Ecap; [| done]. cbn [mbind result_bind].
  apply andb_true_iff in Ecap as [Hc1%Z.leb_le Hc2%Z.leb_le].
  destruct (match lease with Some lease => _ | None => _ end) eqn:El; [done |].
  destruct (store_load store) as [stored|] eqn:Es; [| done]. cbn [map_err mbind result_bind].
  destruct (_ && _); [done |]. intros Et. apply bind_ok in Et as ([[a x] q] & Ht & Et).
  destruct (capacity <? _) eqn:Esz; [done |]. apply ok_inj in Et as <-. bool_to_prop.
  exists stored, a, x, q. split; [done |]. split; [done |]. split; [| split; [lia | split; [lia |]]].
  - destruct stored as [blob|]; [done |]. destruct initial as [a0|]; [| by injection Ht as <- <- <-].
    apply bind_ok in Ht as (blob & Hb & Ht). apply bind_ok in Ht as (a' & Ha' & [= <- <- <-]%ok_inj).
    split_and!; [done | done | by exists blob].
  - intros l ->. bool_to_prop. lia.
Qed.

Lemma build_table_inv store initial capacity lease c :
  loads_octets store -> build_table store initial capacity lease = Ok c -> co_inv c.
Proof.
  intros Hb (stored & a & x & q & Es & -> & Ht & Hcap & Hsz & Hle)%build_table_cases.
  assert (table_ok a /\ leases_ok a x q) as [Ha Hl]; [| by split].
  destruct stored as [blob|]; [by eapply decode_table_state_sound; [apply Hb |] |].
  destruct Ht as (-> & -> & Ht). split; [| apply leases_ok_empty].
  destruct initial as [a0|]; [| subst a; apply table_ok_empty].
  destruct Ht as (blob & _ & Ht). by eapply decode_assignment_state_sound.
Qed.

Lemma build_inv store initial capacity lease now c store' :
  loads_octets store -> build store initial capacity lease now = (Ok c, store') -> co_inv c.
Proof.
  intros Hb. unfold build. destruct (build_table _ _ _ _) as [c0|] eqn:Et; [| done].
  pose proof (build_table_inv _ _ _ _ _ Hb Et) as Hc0.
  destruct (prune_expired c0 now) as [[n|] c1] eqn:Ep; [| done]. intros [= <- <-].
  by destruct (prune_inv _ _ _ _ Hc0 Ep).
Qed.

(** ** Runs *)

(** An operation on the coordinator, with the clock it reads. *)
Inductive co_step : ShortAddressCoordinator St -> ShortAddressCoordinator St -> Prop :=
  | cs_process c rq seq auth now :
      request_ok rq -> is_u8 seq -> clock_ok c now -> co_step c (snd (process c rq seq auth now))
  | cs_dao c dao auth now : bytes_ok dao -> clock_ok c now -> co_step c (snd (handle_dao c dao auth now))
  | cs_prune c now : co_step c (snd (prune_expired c now)).

Lemma co_step_inv c c' : co_step c c' -> co_inv c -> co_inv c'.
Proof.
  intros [c0 rq seq auth now Hrq Hq Hn | c0 dao auth now Hb Hn | c0 now] Hc.
  - by apply process_inv.
  - by apply handle_dao_inv.
  - destruct (prune_expired c0 now) as [r c1] eqn:E. by destruct (prune_inv _ _ _ _ Hc E).
Qed.
Lemma co_run_inv c c' : rtc co_step c c' -> co_inv c -> co_inv c'.
Proof. induction 1; eauto using co_step_inv. Qed.

(** C16: whatever requests, DAOs and prunings a coordinator handles after it is built from
    any stored snapshot or initial table, addresses and EUI-64s stay in
    bijection: two nodes never share a short address and a node never has two,
    every address lies in 0x0001..0xfffd, the table never exceeds the
    capacity, and only a node with an address has a lease. *)
Theorem coordinator_invariant (store store' : St) (initial : option Assignments) (capacity : Z)
    (lease : option Z) (now : Z) (c c' : ShortAddressCoordinator St) :
  loads_octets store -> build store initial capacity lease now = (Ok c, store') -> rtc co_step c c' ->
  (forall s e, c'.(by_eui) !! e = Some s <-> lookup_by_short c' s = Some e) /\
  (forall s s' e, lookup_by_short c' s = Some e -> lookup_by_short c' s' = Some e -> s = s') /\
  (forall s e, lookup_by_short c' s = Some e -> 1 <= s <= 0xFFFD /\ length e = 8%nat) /\
  Z.of_nat (co_len c') <= c'.(co_capacity) <= 0xFFFD /\
  (forall e d, c'.(expires_by_eui) !! e = Some d -> is_Some (c'.(by_eui) !! e)).
Proof.
  intros Hb Hbd Hr. pose proof (co_run_inv _ _ Hr (build_inv _ _ _ _ _ _ _ Hb Hbd)) as Hc.
  pose proof Hc as [[Hp Hu] [Hh _ _] _ Hcap Hs _]. unfold lookup_by_short, co_len. split_and!.
  - intros s e. by apply ci_by_eui.
  - done.
  - intros s e [Hin He]%Hp. by apply in_pool_range in Hin.
  - done.
  - apply Hcap.
  - intros e d [s Hs']%Hh. exists s. by apply ci_by_eui.
Qed.

Lemma apply_request_stale c rq seq now : stale c rq.(rq_eui64) seq = true -> snd (apply_request c rq seq now) = c.
Proof. intros H. unfold apply_request. fold (stale c (rq_eui64 rq) seq). by rewrite H. Qed.

(** A copy or an old sequence of a node whose lease holds: the pruning is all. *)
Lemma stale_only_prunes c c' rq seq auth now r : co_inv c -> process c rq seq auth now = (r, c') ->
  stale c rq.(rq_eui64) seq = true ->
  (rq.(rq_eui64) = auth -> (forall d, c.(expires_by_eui) !! rq.(rq_eui64) = Some d -> now < d) -> c' = snd (prune_expired c now)) /\
  (live now c -> c' = c).
Proof.
  intros Hc Hp Hs. split.
  - intros He Hd. unfold process in Hp. rewrite bool_decide_eq_true_2 in Hp by done. cbn [negb] in Hp.
    destruct (prune_expired c now) as [[n|e] c1] eqn:Ep; [| by injection Hp as <- <-]. cbn [snd].
    destruct (prune_inv _ _ _ _ Hc Ep) as [_ [(_ & _ & _ & _ & Hq) | [[? ?] _]]]; [| done].
    apply (f_equal snd) in Hp. rewrite apply_request_stale in Hp; [done |]. unfold stale in *. rewrite Hq. unfold pruned_keys.
    destruct (last_sequence_by_eui c !! rq_eui64 rq) as [q|] eqn:El; [| done].
    rewrite (proj2 (map_lookup_filter_Some _ _ _ q)); [done |]. split; [done |]. cbn. unfold expired_at. rewrite elem_of_dom.
    intros [d [Hd' Hle]%map_lookup_filter_Some]. apply Hd in Hd'. cbn in Hle. lia.
  - intros Hl. unfold process in Hp. case_match; [by injection Hp |]. rewrite prune_live in Hp by done.
    apply (f_equal snd) in Hp. by rewrite apply_request_stale in Hp.
Qed.

(** C20: a request acts on its own node only.  An option whose EUI-64 is not the
    authenticated origin is refused with the coordinator untouched; every other
    node whose lease has not run out keeps its address and no other node gains
    one, whether the request succeeds or fails; as long as the lease of the
    requesting node has not run out, a copy or an old sequence does nothing but
    drop the leases of others that have (and nothing at all when none has); and
    a successful acknowledgement echoes the request and
    states exactly what the table now holds for the node. *)
Theorem requests_are_isolated (c c' : ShortAddressCoordinator St) (rq : AddressAssignmentRequest) (seq : Z)
    (auth : bytes) (now : Z) (r : aresult AddressAssignmentAck) :
  co_inv c -> request_ok rq -> is_u8 seq -> clock_ok c now -> process c rq seq auth now = (r, c') ->
  (rq.(rq_eui64) <> auth -> c' = c /\ exists e, r = Err e) /\
  (forall s e, e <> rq.(rq_eui64) -> c'.(by_short) !! s = Some e -> c.(by_short) !! s = Some e) /\
  (forall s e, e <> rq.(rq_eui64) -> c.(by_short) !! s = Some e ->
     (forall d, c.(expires_by_eui) !! e = Some d -> now < d) -> c'.(by_short) !! s = Some e) /\
  (stale c rq.(rq_eui64) seq = true ->
     (rq.(rq_eui64) = auth -> (forall d, c.(expires_by_eui) !! rq.(rq_eui64) = Some d -> now < d) ->
        c' = snd (prune_expired c now)) /\
     (live now c -> c' = c)) /\
  (forall k, r = Ok k ->
     k.(ak_eui64) = rq.(rq_eui64) /\ k.(ak_sequence) = seq /\ k.(ak_operation) = rq.(rq_operation) /\
     (k.(ak_status) = Success -> c'.(by_eui) !! rq.(rq_eui64) = k.(ak_assigned))).
Proof.
  intros Hc Hrq Hq Hn Hp.
  pose proof (stale_only_prunes c c' rq seq auth now r Hc Hp) as Hst.
  destruct (process_cases _ _ _ _ _ _ _ Hc Hrq Hq Hn Hp) as
    [(Hne & -> & e & ->) | [(He & e & e' & -> & Hpr) | (He & n & c1 & Hpr & Hc1 & Ha)]].
  - split_and!; [by eauto | done | done | done | done].
  - destruct (prune_inv _ _ _ _ Hc Hpr) as [_ [[[? ?] _] | [_ Heq]]]; [done |].
    assert (by_short c' = by_short c) as -> by (by rewrite Heq). by split_and!.
  - destruct (prune_inv _ _ _ _ Hc Hpr) as [_ [(_ & _ & Hb & _) | [[? ?] _]]]; [| done].
    split_and!; [done | | | done |].
    + intros s e' Hne H. apply (applied_others _ _ _ _ _ _ _ Hc1 Ha Hne) in H. rewrite Hb in H.
      by apply map_lookup_filter_Some in H as [? _].
    + intros s e' Hne H Hd. apply (applied_others _ _ _ _ _ _ _ Hc1 Ha Hne). rewrite Hb.
      apply map_lookup_filter_Some. split; [done |]. cbn. unfold expired_at. rewrite elem_of_dom.
      intros [d [Hd' Hle]%map_lookup_filter_Some]. apply Hd in Hd'. cbn in Hle. lia.
    + intros k ->. by eapply applied_truthful.
Qed.

(** ** Allocation *)

(** The store accepts the next write. *)
Definition accepts_writes c : Prop := forall blob, exists s, store_save c.(co_store) blob = (Ok tt, s).

(** The address an allocation settles on. *)
Lemma choose_short c (eui64 : bytes) preferred :
  co_inv c -> (forall p, preferred = Some p -> in_pool p = true) ->
  is_Some (c.(by_eui) !! eui64) \/ Z.of_nat (size c.(by_short)) < c.(co_capacity) ->
  exists short, in_pool short = true /\
    (c.(by_short) !! short = Some eui64 \/
     c.(by_short) !! short = None /\ ~ holds c.(by_short) eui64 /\ Z.of_nat (size c.(by_short)) < c.(co_capacity)) /\
    (forall s, c.(by_eui) !! eui64 = Some s -> short = s) /\
    (c.(by_eui) !! eui64 = None -> c.(by_short) !! short = None /\
       (forall p, preferred = Some p -> c.(by_short) !! p = None -> short = p) /\
       candidate c eui64 preferred = Some short).
Proof.
  intros Hc Hp Hroom. destruct (c.(by_eui) !! eui64) as [s|] eqn:Ecur.
  - apply ci_by_eui in Ecur as Hs; [| done]. exists s. split; [by apply (ci_table c Hc) in Hs as [? _] |].
    split; [by left |]. split; [by intros ? [= <-] | done].
  - apply ci_unassigned in Ecur; [| done]. destruct Hroom as [[? ?] | Hroom]; [done |].
    pose proof (ci_capacity c Hc).
    destruct (candidate_total c eui64 preferred) as (s & Hs & Hin & Hf & Hpf); [lia | done |].
    exists s. split_and!; [done | by right | done | done].
Qed.

Lemma allocate_served (c : ShortAddressCoordinator St) (eui64 : bytes) (preferred : option Z) (seq now : Z) :
  co_inv c -> request_ok {| rq_eui64 := eui64; rq_operation := Allocate; requested_short := preferred |} ->
  is_u8 seq -> clock_ok c now -> live now c -> stale c eui64 seq = false -> accepts_writes c ->
  (forall l, c.(lease_seconds) = Some l -> now + l < u64_max) ->
  is_Some (c.(by_eui) !! eui64) \/ Z.of_nat (size c.(by_short)) < c.(co_capacity) ->
  exists short c',
    process c {| rq_eui64 := eui64; rq_operation := Allocate; requested_short := preferred |} seq eui64 now =
      (Ok {| ak_eui64 := eui64; ak_operation := Allocate; ak_status := Success; ak_assigned := Some short;
             ak_sequence := seq |}, c') /\
    in_pool short = true /\
    c'.(by_short) = <[short := eui64]> c.(by_short) /\ co_inv c' /\
    (forall s, c.(by_eui) !! eui64 = Some s -> short = s) /\
    (c.(by_eui) !! eui64 = None -> c.(by_short) !! short = None /\
       forall p, preferred = Some p -> c.(by_short) !! p = None -> short = p).
Proof.
  intros Hc Hrq Hq Hn Hl Hst Hw Hfit Hroom.
  destruct Hrq as [He Hp]. cbn in He, Hp.
  unfold process. cbn [rq_eui64 rq_operation requested_short]. rewrite bool_decide_true by done. cbn [negb].
  rewrite prune_live by done. unfold apply_request. cbn [rq_eui64 rq_operation requested_short].
  fold (stale c eui64 seq). rewrite Hst, bool_decide_false by done.
  assert (exists x, renew_lease c eui64 now = Ok x) as [x Hx].
  { unfold renew_lease. destruct (lease_seconds c) as [l|]; [| by eexists].
    rewrite (proj2 (Z.ltb_ge _ _)) by (specialize (Hfit l eq_refl); lia). by eexists. }
  rewrite Hx.
  destruct (choose_short c eui64 preferred Hc Hp Hroom) as (short & Hin & Hcase & Hown & Hnew).
  pose proof (insert_proposal c short eui64 seq now x Hc Hq Hn He Hin Hcase Hx) as Hpr.
  exists short.
  assert (exists c', commit c (<[short := eui64]> (by_short c)) x (<[eui64 := seq]> (last_sequence_by_eui c)) = (Ok tt, c'))
    as [c' Hcm].
  { pose proof (ci_capacity c Hc). destruct Hpr as [Ht _ Hs]. rewrite commit_eq by (done || lia).
    destruct (Hw (snapshot TABLE_STATE_MAGIC (<[short := eui64]> (by_short c))
      (write_table_record x (<[eui64 := seq]> (last_sequence_by_eui c))))) as [s' ->]. by eexists. }
  exists c'. pose proof (proposal_tables _ _ _ _ _ Hc Hpr Hcm) as Htab. pose proof (proposal_inv _ _ _ _ _ _ Hc Hpr Hcm) as Hinv.
  assert (by_short c' = <[short := eui64]> (by_short c)) as Hbs by (by rewrite Htab).
  destruct (by_eui c !! eui64) as [s|] eqn:Ecur.
  - assert (short = s) as -> by (by apply Hown). apply ci_by_eui in Ecur as Hs; [| done].
    rewrite insert_id in Hcm, Hbs by done. rewrite Hcm.
    rewrite ack_new_assigned by done. rewrite insert_id by done. by split_and!.
  - destruct (Hnew eq_refl) as (Hfree & Hpf & Hcand). rewrite Hcand.
    destruct Hroom as [[? ?] | Hroom]; [done |]. rewrite (proj2 (Z.leb_gt _ _)) by lia. rewrite Hcm.
    rewrite ack_new_assigned by done. by split_and!.
Qed.

(** a node gets an address whenever it may.  With no lease running out now, a
    fresh sequence, a deadline that fits, a store that accepts the write, and
    either an address already held or room below the capacity, the request is
    acknowledged with success and an address of the pool that no other node
    holds: the node's own if it has one, otherwise the preferred one if that
    is free, and the table gains exactly this entry.  In particular the search
    for a free address never gives up while the table has room. *)
Lemma allocation_total (c : ShortAddressCoordinator St) (eui64 : bytes) (preferred : option Z) (seq now : Z) :
  co_inv c -> request_ok {| rq_eui64 := eui64; rq_operation := Allocate; requested_short := preferred |} ->
  is_u8 seq -> clock_ok c now -> live now c -> stale c eui64 seq = false -> accepts_writes c ->
  (forall l, c.(lease_seconds) = Some l -> now + l < u64_max) ->
  is_Some (c.(by_eui) !! eui64) \/ Z.of_nat (size c.(by_short)) < c.(co_capacity) ->
  exists short c',
    process c {| rq_eui64 := eui64; rq_operation := Allocate; requested_short := preferred |} seq eui64 now =
      (Ok {| ak_eui64 := eui64; ak_operation := Allocate; ak_status := Success; ak_assigned := Some short;
             ak_sequence := seq |}, c') /\
    1 <= short <= 0xFFFD /\
    c'.(by_short) = <[short := eui64]> c.(by_short) /\ co_inv c' /\
    (forall s, c.(by_eui) !! eui64 = Some s -> short = s) /\
    (c.(by_eui) !! eui64 = None -> c.(by_short) !! short = None /\
       forall p, preferred = Some p -> c.(by_short) !! p = None -> short = p).
Proof.
  intros Hc Hrq Hq Hn Hl Hst Hw Hfit Hroom.
  destruct (allocate_served c eui64 preferred seq now Hc Hrq Hq Hn Hl Hst Hw Hfit Hroom)
    as (short & c' & Hp & Hin & Hrest). exists short, c'. split; [done |].
  apply in_pool_range in Hin. by split.
Qed.

End coordinator.

(** ** A coordinator with two addresses *)

Definition demo_eui : bytes := [0x00; 0x11; 0x22; 0x33; 0x44; 0x55; 0x66; 0x77].
Definition demo_request : AddressAssignmentRequest :=
  {| rq_eui64 := demo_eui; rq_operation := Allocate; requested_short := Some 0x1234 |}.
Definition demo_coordinator : ShortAddressCoordinator MemoryAddressAssignmentStore :=
  {| co_store := mem_new None; co_capacity := 2; lease_seconds := Some 100; by_short := ∅; by_eui := ∅;
     expires_by_eui := ∅; last_sequence_by_eui := ∅ |}.
(** It grants the address asked for at time 10. *)
Definition demo_granted : ShortAddressCoordinator MemoryAddressAssignmentStore :=
  snd (process demo_coordinator demo_request 1 demo_eui 10).

Lemma demo_built : build (mem_new None) None 2 (Some 100) 10 = (Ok demo_coordinator, mem_new None).
Proof. reflexivity. Qed.
Lemma demo_octets : loads_octets (mem_new None).
Proof. by intros blob [=]. Qed.
Lemma demo_inv : co_inv demo_coordinator.
Proof. exact (build_inv _ _ _ _ _ _ _ demo_octets demo_built). Qed.
Lemma demo_request_ok : request_ok demo_request.
Proof. split; [done |]. by intros p [= <-]. Qed.
Lemma demo_clock : clock_ok demo_coordinator 10.
Proof. split; [done |]. by intros l [= <-]. Qed.
Lemma demo_run : rtc co_step demo_coordinator demo_granted.
Proof. apply rtc_once, cs_process; [exact demo_request_ok | done | exact demo_clock]. Qed.
Lemma demo_granted_short : lookup_by_short demo_granted 0x1234 = Some demo_eui.
Proof. by vm_compute. Qed.

Lemma coordinator_invariant_witness :
  demo_granted.(by_eui) !! demo_eui = Some 0x1234 /\ Z.of_nat (co_len demo_granted) <= co_capacity demo_granted.
Proof.
  destruct (coordinator_invariant (mem_new None) (mem_new None) None 2 (Some 100) 10 demo_coordinator demo_granted
    demo_octets demo_built demo_run) as (H1 & _ & _ & H4 & _).
  split; [apply H1; exact demo_granted_short | apply H4].
Defined.

(** The sequence of a node is forgotten with its lease: the copy of a request that
    was granted at 10 and ran out at 110 is granted again. *)
Example old_copy_granted_after_expiry :
  fst (process demo_granted demo_request 1 demo_eui 109) = Ok {| ak_eui64 := demo_eui; ak_operation := Allocate; ak_status := Success; ak_assigned := Some 0x1234; ak_sequence := 1 |} /\
  snd (process demo_granted demo_request 1 demo_eui 109) = demo_granted /\
  snd (process demo_granted demo_request 1 demo_eui 110) <> demo_granted /\
  (snd (process demo_granted demo_request 1 demo_eui 110)).(expires_by_eui) !! demo_eui = Some 210.
Proof. split; [by vm_compute |]. split; [by vm_compute |]. split; [| by vm_compute]. intros H. apply (f_equal (fun c => c.(expires_by_eui) !! demo_eui)) in H. vm_compute in H. discriminate H. Qed.

Lemma requests_are_isolated_witness :
  demo_granted.(by_eui) !! demo_eui = Some 0x1234.
Proof.
  destruct (process demo_coordinator demo_request 1 demo_eui 10) as [r c'] eqn:E.
  destruct (requests_are_isolated demo_coordinator c' demo_request 1 demo_eui 10 r demo_inv demo_request_ok
    ltac:(done) demo_clock E) as (_ & _ & _ & _ & H5).
  assert (r = Ok {| ak_eui64 := demo_eui; ak_operation := Allocate; ak_status := Success; ak_assigned := Some 0x1234;
                    ak_sequence := 1 |}) as Hr by (apply (f_equal fst) in E; etrans; [symmetry; exact E |]; by vm_compute).
  unfold demo_granted. rewrite E. destruct (H5 _ Hr) as (_ & _ & _ & H6). exact (H6 eq_refl).
Defined.

End AddrCoordInv.
