(* ===== verification/AddrRestart.v ===== *)
(** * The short-address coordinator across restarts, and end to end

    Over a store that saves atomically the coordinator's table is the table
    its last snapshot decodes to, so that a restart finds it again; and a node
    that asks a coordinator with room for an address installs the one the
    coordinator has recorded for it. *)

From stdpp Require Import strings sorting.
From S2P Require Import Prelude RplMessage Addr Schnorr AddrAssign AddrCoord AddrCoordInv.
Import RplMessage AddrAssign AddrCoord AddrCoordInv.
Open Scope Z_scope.

Module AddrRestart.

Section restart.
Context {St : Type} `{!AddressAssignmentStore St} `{!AtomicStore St}.
Implicit Types c : ShortAddressCoordinator St.

(** The stored blob is the table, the leases, and the sequences of the nodes
    that hold an address. *)
Definition durable c : Prop :=
  exists stored, store_load c.(co_store) = Ok stored /\
    match stored with
    | None => c.(by_short) = ∅ /\ c.(expires_by_eui) = ∅
    | Some blob =>
        decode_table_state blob =
          Ok (c.(by_short), c.(expires_by_eui), assigned_only c.(by_short) c.(last_sequence_by_eui))
    end.

Lemma assigned_only_held a x : (forall e d, x !! e = Some d -> holds a e) -> assigned_only a x = x.
Proof. intros H. apply map_filter_id. intros e d Hd. by apply (H e d). Qed.
Lemma assigned_only_empty x : assigned_only ∅ x = ∅.
Proof.
  apply map_empty. intros e. apply map_lookup_filter_None. right. intros d _ [s Hs]. by rewrite lookup_empty in Hs.
Qed.
Lemma assigned_only_insert (a : Assignments) (x : gmap bytes Z) e v : ~ holds a e -> assigned_only a (<[e := v]> x) = assigned_only a x.
Proof.
  intros Hn. apply map_eq. intros e'. unfold assigned_only. rewrite !map_lookup_filter.
  destruct (decide (e' = e)) as [-> |]; [| by rewrite lookup_insert_ne].
  rewrite lookup_insert_eq. cbn. rewrite option_guard_False by done.
  by destruct (x !! e).
Qed.

Lemma commit_durable c a x q r c' : co_inv c -> proposal c a x q -> durable c ->
  commit c a x q = (r, c') -> durable c'.
Proof using All.
  intros Hc [Ht Hl Hs] Hd Hcm. pose proof (ci_capacity c Hc). rewrite commit_eq in Hcm by (done || lia).
  destruct Hl as [Hh He Hq].
  destruct (store_save _ _) as [[[] | e] s] eqn:Es; injection Hcm as <- <-.
  - apply save_ok in Es. eexists. split; [exact Es |]. cbn [with_tables by_short expires_by_eui last_sequence_by_eui].
    destruct (table_roundtrip a x q Ht) as (blob & Henc & Hdec); [lia | done | done |].
    unfold encode_table_state in Henc. rewrite encode_records_ok in Henc by (done || lia). apply ok_inj in Henc as <-.
    by rewrite Hdec, (assigned_only_held a x).
  - apply save_err in Es. destruct Hd as (stored & Hld & Hst). exists stored. by rewrite <- Hld, <- Es.
Qed.

Lemma prune_durable c now r c' : co_inv c -> durable c -> prune_expired c now = (r, c') -> durable c'.
Proof using All.
  intros Hc Hd. unfold prune_expired. case_match; [by intros [= _ <-] |].
  destruct (pruned_ok c now Hc) as (Ht & Hs & Hl).
  destruct (commit _ _ _ _) as [[|] c1] eqn:Ec; intros [= _ <-]; by eapply commit_durable.
Qed.

Lemma applied_durable c rq seq r c' : co_inv c -> durable c -> applied c rq seq r c' -> durable c'.
Proof using All.
  intros Hc Hd Ha. destruct Ha; [done | | done | by eapply commit_durable..].
  destruct Hd as (stored & Hld & Hst). exists stored. split; [done |]. destruct stored as [blob|]; [| done].
  rewrite Hst. cbn. rewrite assigned_only_insert; [done |]. by apply ci_unassigned.
Qed.

Lemma process_durable c rq seq auth now :
  co_inv c -> request_ok rq -> is_u8 seq -> clock_ok c now -> durable c ->
  durable (snd (process c rq seq auth now)).
Proof using All.
  intros Hc Hrq Hq Hn Hd. destruct (process c rq seq auth now) as [r c'] eqn:Ep.
  destruct (process_cases _ _ _ _ _ _ _ Hc Hrq Hq Hn Ep) as
    [(_ & -> & _) | [(_ & e & e' & _ & Hp) | (_ & n & c1 & Hp & Hc1 & Ha)]]; cbn; [done | |].
  - by eapply prune_durable.
  - eapply applied_durable; [done | by eapply (prune_durable c) | done].
Qed.

Lemma co_step_durable c c' : co_step c c' -> co_inv c -> durable c -> durable c'.
Proof using All.
  intros [c0 rq seq auth now Hrq Hq Hn | c0 dao auth now Hb Hn | c0 now] Hc Hd.
  - by apply process_durable.
  - unfold handle_dao. destruct (dao_from_bytes dao) as [d|] eqn:Ed; [| done]. cbn [from_rpl map_err].
    destruct (request_from_dao_bytes dao) as [rq|] eqn:Er; [| done].
    pose proof (process_durable c0 rq (dao_sequence d) auth now Hc (request_parsed _ _ Er)
      (dao_sequence_u8 _ _ Hb Ed) Hn Hd) as Hp.
    by destruct (process _ _ _ _ _) as [[k | e] c1].
  - destruct (prune_expired c0 now) as [r c1] eqn:E. by eapply prune_durable.
Qed.

Lemma co_run_durable c c' : rtc co_step c c' -> co_inv c -> durable c -> durable c'.
Proof using All. induction 1; [done |]. eauto using co_step_inv, co_step_durable. Qed.

(** A snapshot has sequences for the nodes that hold an address only. *)
Lemma decode_loop_sequences state count : forall offset previous seen a x q a' x' q',
  decoding a seen previous -> (forall e n, q !! e = Some n -> holds a e) ->
  decode_table_loop state count offset previous seen a x q = Ok (a', x', q') ->
  forall e n, q' !! e = Some n -> holds a' e.
Proof using.
  induction count as [|count IH]; intros offset previous seen a x q a' x' q' Hd Hq H; cbn [decode_table_loop] in H.
  - by apply ok_inj in H as [= <- <- <-].
  - unfold check_eui64, check_short in H. destruct (_ =? 8)%nat eqn:He; [| done]. cbn [mbind result_bind] in H.
    destruct (in_pool _) eqn:Hp; [| done]. cbn [mbind result_bind] in H.
    destruct (_ <=? previous) eqn:Hlt; [done |]. destruct (bool_decide _) eqn:Hin; [done |].
    destruct (NO_SEQUENCE <? _); [done |]. bool_to_prop. apply bool_decide_eq_false in Hin.
    assert (Hn := decoding_fresh _ _ _ _ Hd Hlt).
    eapply IH; [| | exact H]; [by apply decoding_step with previous |].
    intros e n. destruct (_ =? NO_SEQUENCE); [intros H'%Hq | intros [[<- _] | [_ H'%Hq]]%lookup_insert_Some]; apply holds_insert; auto.
Qed.
Lemma decoded_sequences state a x q :
  decode_table_state state = Ok (a, x, q) -> forall e n, q !! e = Some n -> holds a e.
Proof using.
  unfold decode_table_state. destruct (negb _).
  - destruct (decode_assignment_state state); [| done]. intros [= _ _ <-] e n. by rewrite lookup_empty.
  - destruct (_ <? _)%nat; [done |]. destruct (negb _); [done |]. destruct (negb _); [done |].
    apply decode_loop_sequences; [apply decoding_empty |]. intros e n. by rewrite lookup_empty.
Qed.

(** A build that is given no initial table. *)
Lemma build_durable store capacity lease now c store' :
  loads_octets store -> build store None capacity lease now = (Ok c, store') -> durable c.
Proof using All.
  intros Hb. unfold build. destruct (build_table _ _ _ _) as [c0|] eqn:Et; [| done].
  pose proof (build_table_inv _ _ _ _ _ Hb Et) as Hc0.
  destruct (prune_expired c0 now) as [[n|] c1] eqn:Ep; [| done]. intros [= <- <-].
  eapply prune_durable; [done | | done].
  apply build_table_cases in Et as (stored & a & x & q & Es & -> & Ht & _). exists stored. split; [done |].
  destruct stored as [blob|]; cbn in *; [| by destruct Ht as (-> & _ & ->)].
  rewrite Ht. f_equal. f_equal. symmetry. apply assigned_only_held. by eapply decoded_sequences.
Qed.

(** C17: over a store that saves atomically a restart finds the table again.
    After any requests, DAOs and prunings, failed writes included, a
    coordinator built anew from the store, before any lease runs out, has the
    same addresses, the same deadlines, and the last sequence of every node
    that holds an address. *)
Theorem restart_preserves_table (store store' : St) (capacity now0 now : Z) (lease : option Z)
    (c c' : ShortAddressCoordinator St) :
  loads_octets store -> with_lease store capacity lease now0 = (Ok c, store') -> rtc co_step c c' -> live now c' ->
  exists c'', with_lease c'.(co_store) c'.(co_capacity) c'.(lease_seconds) now = (Ok c'', c'.(co_store)) /\
    c''.(by_short) = c'.(by_short) /\ c''.(by_eui) = c'.(by_eui) /\
    c''.(expires_by_eui) = c'.(expires_by_eui) /\
    (forall e, is_Some (c'.(by_eui) !! e) -> c''.(last_sequence_by_eui) !! e = c'.(last_sequence_by_eui) !! e).
Proof using All.
  intros Hb Hbd Hr Hl. unfold with_lease in *.
  pose proof (co_run_inv _ _ Hr (build_inv _ _ _ _ _ _ _ Hb Hbd)) as Hc.
  destruct (co_run_durable _ _ Hr (build_inv _ _ _ _ _ _ _ Hb Hbd) (build_durable _ _ _ _ _ _ Hb Hbd))
    as (stored & Hld & Hst). pose proof Hc as [Ht Hlo Hi Hcap Hsz Hle].
  pose (q := assigned_only (by_short c') (last_sequence_by_eui c')).
  exists (with_tables c' (co_store c') (by_short c') (expires_by_eui c') q).
  assert (forall e, is_Some (by_eui c' !! e) -> q !! e = last_sequence_by_eui c' !! e) as Hq.
  { intros e [s Hs]. apply ci_by_eui in Hs; [| done]. unfold q, assigned_only. rewrite map_lookup_filter.
    destruct (last_sequence_by_eui c' !! e); cbn; [rewrite option_guard_True; [done | by exists s] | done]. }
  split; [| by split_and!].
  unfold build, build_table, check_capacity. rewrite (proj2 (andb_true_iff _ _)) by (rewrite !Z.leb_le; lia). cbn [mbind result_bind].
  assert (match lease_seconds c' with Some l => l <? 1 | None => false end = false) as ->.
  { destruct (lease_seconds c') as [l|]; [| done]. apply Z.ltb_ge. by apply Hle. }
  rewrite Hld. cbn [map_err mbind result_bind]. rewrite (bool_decide_false (is_Some None)), andb_false_r by (by intros [? ?]).
  assert (match stored with Some blob => decode_table_state blob | None => Ok (∅, ∅, ∅) end =
    Ok (by_short c', expires_by_eui c', q)) as ->.
  { destruct stored as [blob|]; [done |]. destruct Hst as [Hb0 Hx0]. unfold q. by rewrite Hb0, Hx0, assigned_only_empty. }
  cbn [mbind result_bind]. rewrite (proj2 (Z.ltb_ge _ _)) by lia. by rewrite prune_live.
Qed.

End restart.

(** ** From request to installed address *)

Definition option_bytes (payload : bytes) : bytes :=
  SHORT_ADDRESS_OPTION_TYPE :: Z.of_nat (length payload) :: payload.
Definition request_payload (r : AddressAssignmentRequest) : bytes :=
  [SHORT_ADDRESS_OPTION_VERSION; REQUEST_KIND; operation_u8 r.(rq_operation)] ++ r.(rq_eui64) ++
  to_be 2 (short_wire r.(requested_short)).
Definition ack_payload (a : AddressAssignmentAck) : bytes :=
  [SHORT_ADDRESS_OPTION_VERSION; ACK_KIND; operation_u8 a.(ak_operation); status_u8 a.(ak_status)] ++ a.(ak_eui64) ++
  to_be 2 (short_wire a.(ak_assigned)).

(** A DODAG identifier a message can carry, and the instances that need one. *)
Definition scope_ok (i : Z) (id : option bytes) : Prop :=
  0 <= i < 192 /\ match id with Some id => length id = 16%nat | None => i < 128 end.

Lemma octets_8 {A} (l : list A) : length l = 8%nat ->
  exists a0 a1 a2 a3 a4 a5 a6 a7, l = [a0; a1; a2; a3; a4; a5; a6; a7].
Proof. intros H. do 8 (destruct l as [|? l]; [done |]). destruct l; [| done]. by repeat eexists. Qed.
Lemma octets_16 {A} (l : list A) : length l = 16%nat ->
  exists l1 l2 : list A, length l1 = 8%nat /\ length l2 = 8%nat /\ l = l1 ++ l2.
Proof.
  intros H. exists (take 8 l), (drop 8 l). rewrite length_take, length_drop, H. by rewrite take_drop.
Qed.

(** Makes the octets of identifiers explicit. *)
Ltac open_octets :=
  repeat match goal with
  | H : length ?l = 8%nat |- _ => is_var l; apply octets_8 in H as (? & ? & ? & ? & ? & ? & ? & ? & ->)
  | H : length ?l = 16%nat |- _ => is_var l; apply octets_16 in H as (? & ? & ? & ? & ->)
  end.

Lemma request_dao_wire r i q id : length r.(rq_eui64) = 8%nat -> scope_ok i id ->
  to_dao_vec r i q id =
    Ok ([i; match id with Some _ => 192 | None => 128 end; 0; q] ++ default [] id ++ option_bytes (request_payload r)).
Proof.
  destruct r as [e o s]. cbn [rq_eui64]. intros He [Hi Hid].
  unfold to_dao_vec, write_vec, request_write_dao, write_after, dao_write_to. cbn [dao_instance dao_dodag_id ack_requested dao_flags dao_sequence].
  rewrite (proj2 (Z.leb_gt _ _)) by lia. destruct id as [id|].
  - rewrite bool_decide_false, andb_false_r by done. open_octets. reflexivity.
  - rewrite bit7_clear by lia. cbn [negb andb]. open_octets. reflexivity.
Qed.

Lemma ack_dao_wire a i id : length a.(ak_eui64) = 8%nat -> scope_ok i id ->
  to_dao_ack_vec a i id =
    Ok ([i; match id with Some _ => 128 | None => 0 end; a.(ak_sequence); status_u8 a.(ak_status)] ++ default [] id ++
        option_bytes (ack_payload a)).
Proof.
  destruct a as [e o st s q]. cbn [ak_eui64]. intros He [Hi Hid].
  unfold to_dao_ack_vec, write_vec, ack_write_dao_ack, write_after, da_write_to.
  cbn [da_instance da_dodag_id da_flags da_sequence da_status ak_sequence ak_status].
  rewrite (proj2 (Z.leb_gt _ _)) by lia. destruct id as [id|]; open_octets; reflexivity.
Qed.

Lemma wire_short s : is_u16 s -> from_be [(s / 256) mod 256; s mod 256] = s.
Proof. apply from_be_to_be_u16. Qed.

Lemma pool_u16 s : in_pool s = true -> is_u16 s /\ s <> SHORT_ADDRESS_NONE.
Proof. intros [H1 H2]%in_pool_range. change SHORT_POOL_SIZE with 65533 in H2. unfold SHORT_ADDRESS_NONE. split; [width | lia]. Qed.

(** A preferred or assigned address survives the wire, its absence too. *)
Lemma short_wire_back (s : option Z) : (forall p, s = Some p -> in_pool p = true) ->
  short_of_wire (from_be [(short_wire s / 256) mod 256; short_wire s mod 256]) = s.
Proof.
  intros Hs. destruct s as [p|]; [| done]. destruct (pool_u16 p (Hs p eq_refl)) as [Hu Hn]. cbn [short_wire default from_option].
  change (short_wire (Some p)) with p.
  rewrite wire_short by done. unfold short_of_wire. by rewrite (proj2 (Z.eqb_neq _ _)).
Qed.

Lemma request_back e s i q id : length e = 8%nat -> scope_ok i id -> (forall p, s = Some p -> in_pool p = true) ->
  let wire := [i; match id with Some _ => 192 | None => 128 end; 0; q] ++ default [] id ++
    option_bytes (request_payload {| rq_eui64 := e; rq_operation := Allocate; requested_short := s |}) in
  dao_from_bytes wire = Ok {| dao_instance := i; ack_requested := true; dao_flags := 0;
                              dao_sequence := q; dao_dodag_id := id |} /\
  request_from_dao_bytes wire = Ok {| rq_eui64 := e; rq_operation := Allocate; requested_short := s |}.
Proof.
  intros He [Hi Hid] Hs wire. assert (forall A B : Prop, A -> (A -> B) -> A /\ B) as Hand by tauto. apply Hand; clear Hand.
  - unfold wire, dao_from_bytes. destruct id as [id|]; open_octets; cbn -[Z.leb]; by rewrite (proj2 (Z.leb_gt _ _)) by lia.
  - intros Hd. unfold request_from_dao_bytes. rewrite Hd. cbn [from_rpl map_err mbind result_bind ack_requested negb].
    assert (one_assignment_option (dao_options_tail wire) =
      Ok (request_payload {| rq_eui64 := e; rq_operation := Allocate; requested_short := s |})) as ->.
    { unfold wire. destruct id as [id|]; open_octets; reflexivity. }
    cbn [mbind result_bind].
    transitivity (request_new e Allocate (short_of_wire (from_be [(short_wire s / 256) mod 256; short_wire s mod 256])));
      [open_octets; reflexivity |].
    rewrite short_wire_back by done. unfold request_new. cbn. destruct s as [p|]; [| done].
    unfold check_short. by rewrite (Hs p eq_refl).
Qed.

Lemma ack_back e p i q id : length e = 8%nat -> scope_ok i id -> in_pool p = true ->
  let a := {| ak_eui64 := e; ak_operation := Allocate; ak_status := Success; ak_assigned := Some p; ak_sequence := q |} in
  ack_from_dao_ack_bytes ([i; match id with Some _ => 128 | None => 0 end; q; 0] ++ default [] id ++
    option_bytes (ack_payload a)) = Ok a.
Proof.
  intros He [Hi Hid] Hp a. set (wire := _ ++ _).
  assert (da_from_bytes wire = Ok {| da_instance := i; da_flags := 0; da_sequence := q; da_status := 0;
                                     da_dodag_id := id |}) as Hd.
  { unfold wire, da_from_bytes. destruct id as [id|]; open_octets; cbn -[Z.leb]; by rewrite (proj2 (Z.leb_gt _ _)) by lia. }
  unfold ack_from_dao_ack_bytes. rewrite Hd. cbn [from_rpl map_err mbind result_bind da_sequence da_status].
  assert (one_assignment_option (da_options_tail wire) = Ok (ack_payload a)) as ->.
  { unfold wire. destruct id as [id|]; open_octets; reflexivity. }
  cbn [mbind result_bind].
  assert (ack_from_option_data (ack_payload a) q =
    ack_new e Allocate Success (short_of_wire (from_be [(short_wire (Some p) / 256) mod 256; short_wire (Some p) mod 256])) q)
    as -> by (unfold a; open_octets; reflexivity).
  rewrite short_wire_back by (by intros ? [= <-]). by rewrite ack_new_assigned.
Qed.

(** C15: the assignment protocol end to end.  A node encodes an allocation request
    into a DAO; the coordinator, given the DAO and the authenticated EUI-64,
    answers with a DAO-ACK; and the node, given that DAO-ACK as coming from the
    root, installs the address under which the coordinator has just recorded
    it.  This needs: a preferred address, if the node names one, that is
    assignable; an address the coordinator already has for the node, or room for
    one; no lease that has run out; a DAO sequence newer than the last
    one recorded for the node, if any; a store that accepts the write; a new
    deadline that fits the clock; and a client that has not acted on an answer
    of that sequence before. *)
Theorem assignment_end_to_end {St} `{!AddressAssignmentStore St} (c : ShortAddressCoordinator St)
    (cl : ShortAddressAssignmentClient) (preferred : option Z) (i seq now : Z) (id : option bytes) :
  co_inv c -> length cl.(cl_eui64) = 8%nat -> (forall p, preferred = Some p -> in_pool p = true) ->
  scope_ok i id -> is_u8 seq -> cl.(cl_last_sequence) <> Some seq ->
  clock_ok c now -> live now c -> stale c cl.(cl_eui64) seq = false -> accepts_writes c ->
  (forall l, c.(lease_seconds) = Some l -> now + l < u64_max) ->
  is_Some (c.(by_eui) !! cl.(cl_eui64)) \/ Z.of_nat (size c.(by_short)) < c.(co_capacity) ->
  exists rq dao short ack c' cl',
    request_allocate cl.(cl_eui64) preferred = Ok rq /\
    to_dao_vec rq i seq id = Ok dao /\
    handle_dao c dao cl.(cl_eui64) now = (Ok ack, c') /\
    apply_dao_ack cl ack seq true = (Ok true, cl') /\
    cl'.(cl_assigned) = Some short /\ lookup_by_short c' short = Some cl.(cl_eui64) /\ co_inv c'.
Proof.
  intros Hc He Hp Hs Hq Hseq Hn Hl Hst Hw Hfit Hroom. set (e := cl_eui64 cl) in *.
  destruct (allocate_served c e preferred seq now) as (short & c' & Hpr & Hin & Hbs & Hc' & _); try done.
  set (rq := {| rq_eui64 := e; rq_operation := Allocate; requested_short := preferred |}) in *.
  destruct (request_back e preferred i seq id He Hs Hp) as [Hd Hr]. fold rq in Hd, Hr.
  exists rq. eexists. exists short. eexists. exists c'. eexists. split_and!.
  - unfold request_allocate, request_new. cbn. destruct preferred as [p|]; [| done]. unfold check_short. by rewrite (Hp p eq_refl).
  - by rewrite request_dao_wire.
  - unfold handle_dao. rewrite Hd, Hr. cbn [from_rpl map_err]. cbn [dao_sequence dao_instance dao_dodag_id].
    rewrite Hpr. by rewrite ack_dao_wire.
  - unfold apply_dao_ack. cbn [negb ak_sequence ak_status status_u8]. rewrite ack_back by done.
    cbn [ak_sequence ak_eui64 ak_status ak_assigned]. rewrite Z.eqb_refl, bool_decide_true by done. cbn [negb].
    rewrite (proj2 (Nat.ltb_ge _ _)).
    2:{ destruct Hs as [_ Hid]. unfold option_bytes, ack_payload, MAX_ACK_WIRE. cbn [ak_eui64 ak_operation ak_status ak_assigned].
        rewrite !length_app. cbn [length]. rewrite !length_app, length_to_be, He. destruct id as [id|]; cbn in *; lia. }
    destruct (cl_last_ack cl) as [st|]; [rewrite (bool_decide_false _ Hseq) |]; done.
  - done.
  - unfold lookup_by_short. rewrite Hbs. apply lookup_insert_eq.
  - done.
Qed.

Lemma restart_preserves_table_witness :
  exists c'', with_lease demo_granted.(co_store) 2 (Some 100) 20 = (Ok c'', demo_granted.(co_store)) /\
    lookup_by_short c'' 0x1234 = Some demo_eui.
Proof.
  destruct (restart_preserves_table (mem_new None) (mem_new None) 2 10 20 (Some 100) demo_coordinator demo_granted
    demo_octets demo_built demo_run) as (c'' & Hb & Hs & _).
  - apply expired_empty. by vm_compute.
  - exists c''. split; [exact Hb |]. unfold lookup_by_short. rewrite Hs. exact demo_granted_short.
Defined.

Lemma assignment_end_to_end_witness :
  exists rq dao short ack c' cl',
    request_allocate demo_eui (Some 0x1234) = Ok rq /\ to_dao_vec rq 0 7 None = Ok dao /\
    handle_dao demo_coordinator dao demo_eui 10 = (Ok ack, c') /\
    apply_dao_ack (client_new demo_eui) ack 7 true = (Ok true, cl') /\ cl'.(cl_assigned) = Some short.
Proof.
  destruct (assignment_end_to_end demo_coordinator (client_new demo_eui) (Some 0x1234) 0 7 10 None demo_inv)
    as (rq & dao & short & ack & c' & cl' & H1 & H2 & H3 & H4 & H5 & _).
  - done.
  - by intros p [= <-].
  - by split.
  - done.
  - done.
  - exact demo_clock.
  - by intros e d H.
  - done.
  - intros blob. by eexists.
  - by intros l [= <-].
  - by right.
  - by exists rq, dao, short, ack, c', cl'.
Defined.

(** ** A copy of an old request *)

Definition demo_release : AddressAssignmentRequest :=
  {| rq_eui64 := demo_eui; rq_operation := Release; requested_short := None |}.
Definition demo_released : ShortAddressCoordinator MemoryAddressAssignmentStore :=
  snd (process demo_granted demo_release 2 demo_eui 20).
Definition demo_restarted : ShortAddressCoordinator MemoryAddressAssignmentStore :=
  match with_lease demo_released.(co_store) 2 (Some 100) 20 with
  | (Ok c, _) => c
  | (Err _, _) => demo_released
  end.

(** After the release the copy of the first request is refused; the snapshot
    has no sequence for a node without an address, so that after a restart the
    same copy is granted; and so it is once the lease has run out. *)
Example released_sequence_forgotten :
  ak_status <$> fst (process demo_released demo_request 1 demo_eui 30) = Ok Invalid /\
  ak_status <$> fst (process demo_restarted demo_request 1 demo_eui 30) = Ok Success /\
  ak_status <$> fst (process demo_granted demo_request 1 demo_eui 120) = Ok Success /\
  expires_at (snd (process demo_granted demo_request 1 demo_eui 120)) demo_eui = Ok (Some 220).
Proof. by vm_compute. Qed.

End AddrRestart.
