(* ===== verification/DaoOrigin.v ===== *)
(** * Consolidated DAO origin validation (lichen-rpl/src/dao_origin.rs)

    The validator of section 8.6, its agreement with the verifier of the
    root's signed DAO path ([RplRoot]), and its composition with the
    short-address coordinator.  The pin table and the replay store are the
    traits [PinTable] and [OriginReplayStore]; the validator reads them only. *)

From stdpp Require Import strings sorting.
From S2P Require Import Prelude Addr Schnorr RplMessage RplDaoInv RplRoot AddrAssign AddrCoord AddrCoordInv.
Import Schnorr RplMessage AddrAssign AddrCoord AddrCoordInv.
Open Scope Z_scope.

Module DaoOrigin.

Inductive DaoOriginRejectReason :=
  | OriginNotPinned | IidMismatch | SignatureMissing | SignatureDuplicate | SignatureNotFinal
  | SignatureInvalidLength | SignatureInvalid | SequenceReplay | SequenceEqualDifferentBytes | Malformed.

Record DaoOriginResult := {
  valid : bool;
  reject_reason : option DaoOriginRejectReason;
  or_pubkey : option bytes;
  or_sequence : option Z;
  dao_digest : option bytes;
  is_fresh : bool
}.
Definition reject (reason : DaoOriginRejectReason) : DaoOriginResult :=
  {| valid := false; reject_reason := Some reason; or_pubkey := None; or_sequence := None; dao_digest := None;
     is_fresh := false |}.
Definition accept (pubkey : bytes) (sequence : Z) (digest : bytes) (fresh : bool) : DaoOriginResult :=
  {| valid := true; reject_reason := None; or_pubkey := Some pubkey; or_sequence := Some sequence;
     dao_digest := Some digest; is_fresh := fresh |}.

(** [trait PinTable] and [trait OriginReplayStore]. *)
Class PinTable (P : Type) := { pinned_pubkey_for : P -> bytes -> option bytes }.
Class OriginReplayStore (R : Type) := {
  get_floor : R -> bytes -> option (Z * bytes);
  set_floor : R -> bytes -> Z -> bytes -> R
}.

Section validator.
Context `{Crypto} {P R : Type} `{!PinTable P} `{!OriginReplayStore R}.

Definition compute_dao_digest (signed_dao_bytes : bytes) : bytes := sha512 signed_dao_bytes.

Record DaoOriginValidator := { pin_table : P; replay_store : option R }.

Definition envelope_reason (e : DaoEnvelopeError) : DaoOriginRejectReason :=
  match e with
  | MissingSignature => SignatureMissing
  | DuplicateSignature => SignatureDuplicate
  | NonTerminalSignature => SignatureNotFinal
  | InvalidOptionLength => SignatureInvalidLength
  | UnknownOption _ | Rpl _ => Malformed
  end.

(** The replay classification of an authentic DAO. *)
Definition classify (v : DaoOriginValidator) (pubkey : bytes) (sequence : Z) (digest : bytes) : DaoOriginResult :=
  match replay_store v with
  | Some store =>
      match get_floor store pubkey with
      | Some (floor_seq, floor_digest) =>
          if sequence <? floor_seq then reject SequenceReplay
          else if sequence =? floor_seq then
            if negb (bool_decide (digest = floor_digest)) then reject SequenceEqualDifferentBytes
            else accept pubkey sequence digest false
          else accept pubkey sequence digest true
      | None => accept pubkey sequence digest true
      end
  | None => accept pubkey sequence digest true
  end.

Definition validate (v : DaoOriginValidator) (wire origin : bytes) (rpl_instance_id : Z) (active_dodag_id : bytes) :
    DaoOriginResult :=
  match dao_from_bytes wire with
  | Err _ => reject Malformed
  | Ok dao =>
    if negb (dao_instance dao =? rpl_instance_id) then reject Malformed
    else if negb (dao_flags dao =? 0) || negb (bool_decide (wire !! 2%nat = Some 0)) then reject Malformed
    else if match dao_dodag_id dao with
            | Some dodag => negb (bool_decide (dodag = RplRoot.zero_id)) && negb (bool_decide (dodag = active_dodag_id))
            | None => false
            end then reject Malformed
    else
      match envelope_from_bytes wire with
      | Err e => reject (envelope_reason e)
      | Ok envelope =>
          match pinned_pubkey_for (pin_table v) (drop 8 origin) with
          | None => reject OriginNotPinned
          | Some pubkey =>
              if negb (bool_decide (origin = Addr.ygg_addr_from_pubkey pubkey)) then reject IidMismatch
              else
                let digest := RplRoot.dao_origin_digest origin
                                (RplRoot.effective_dodag_id (env_dao envelope) active_dodag_id)
                                (origin_sequence (env_origin envelope)) (unsigned_bytes envelope) in
                if negb (schnorr_verify pubkey digest (os_signature (env_origin envelope))) then reject SignatureInvalid
                else classify v pubkey (origin_sequence (env_origin envelope)) (compute_dao_digest wire)
          end
      end
  end.

End validator.
#[global] Arguments DaoOriginValidator : clear implicits.

(** [DaoOriginValidatorNoReplay]: a store without floors. *)
Inductive NoOpReplayStore := TheNoOpStore.
Definition noop_get_floor (_ : NoOpReplayStore) (_ : bytes) : option (Z * bytes) := None.
Definition noop_set_floor (s : NoOpReplayStore) (_ : bytes) (_ : Z) (_ : bytes) : NoOpReplayStore := s.
#[export] Instance noop_store : OriginReplayStore NoOpReplayStore :=
  {| get_floor := noop_get_floor; set_floor := noop_set_floor |}.
Definition validate_no_replay `{Crypto} {P} `{!PinTable P} (pins : P) (wire origin : bytes) (rpl_instance_id : Z)
    (active_dodag_id : bytes) : DaoOriginResult :=
  validate {| pin_table := pins; replay_store := Some TheNoOpStore |} wire origin rpl_instance_id active_dodag_id.

(** ** Short addresses for validated origins *)

Definition eui64_from_authenticated_identity `{Crypto} (origin pubkey : bytes) : aresult bytes :=
  if negb (bool_decide (Addr.ygg_addr_from_pubkey pubkey = origin)) then
    Err (Protocol "origin address does not match authenticated DAO pubkey")
  else Ok (flip_ul (iid_from_pubkey pubkey)).

Definition handle_origin_validated_dao `{Crypto} {St} `{!AddressAssignmentStore St} (c : ShortAddressCoordinator St)
    (dao_bytes origin : bytes) (origin_result : DaoOriginResult) (now : Z) :
    aresult bytes * ShortAddressCoordinator St :=
  if negb (valid origin_result) then (Err (Protocol "assignment DAO origin is not authenticated"), c)
  else match or_pubkey origin_result with
       | None => (Err (Protocol "assignment DAO origin is not authenticated"), c)
       | Some pubkey =>
           match eui64_from_authenticated_identity origin pubkey with
           | Err e => (Err e, c)
           | Ok authenticated_eui64 => handle_dao c dao_bytes authenticated_eui64 now
           end
       end.

(** ** Agreement with the root's verifier *)

Section agreement.
Context `{Crypto} {P R : Type} `{!PinTable P} `{!OriginReplayStore R}.
Implicit Types v : DaoOriginValidator P R.

(** The store's floor admits the sequence: above it, or at it with the same
    DAO. *)
Definition floor_admits v (pubkey : bytes) (sequence : Z) (digest : bytes) : Prop :=
  match replay_store v with
  | Some store => forall n d, get_floor store pubkey = Some (n, d) -> n < sequence \/ n = sequence /\ d = digest
  | None => True
  end.

(** The floor is at this sequence: an exact retransmission. *)
Definition at_floor v (pubkey : bytes) (sequence : Z) : bool :=
  match replay_store v with
  | Some store => bool_decide (fst <$> get_floor store pubkey = Some sequence)
  | None => false
  end.

Lemma classify_valid v pubkey sequence digest r : classify v pubkey sequence digest = r ->
  valid r = true <->
  floor_admits v pubkey sequence digest /\ r = accept pubkey sequence digest (negb (at_floor v pubkey sequence)).
Proof using.
  intros <-. unfold classify, floor_admits, at_floor. destruct (replay_store v) as [s|]; [| done].
  destruct (get_floor s pubkey) as [[n d]|]; cbn [fmap option_fmap option_map fst]; [| by split].
  destruct (sequence <? n) eqn:E1; [| destruct (sequence =? n) eqn:E2]; bool_to_prop.
  - split; [done |]. intros [Ha _]. destruct (Ha n d eq_refl); lia.
  - subst n. rewrite (bool_decide_true (Some sequence = Some sequence)) by done.
    case_bool_decide as Ed; cbn; (split; [intros ? | intros [Ha ?]]); try done.
    split; [| done]. intros ? ? [= <- <-]. by right.
  - rewrite bool_decide_false by congruence. split; [| done]. intros _. split; [| done].
    intros ? ? [= <- <-]. left. lia.
Qed.

Lemma third_octet (wire : bytes) : (3 <= length wire)%nat -> bool_decide (wire !! 2%nat = Some 0) = (nth 2 wire 0 =? 0).
Proof using.
  intros Hl. destruct (lookup_lt_is_Some_2 wire 2) as [x Hx]; [lia |]. rewrite (nth_lookup_Some _ _ 0 _ Hx), Hx.
  destruct (Z.eqb_spec x 0) as [-> |]; [by rewrite bool_decide_true |]. rewrite bool_decide_false; [done |]. congruence.
Qed.

Lemma dao_length wire d : dao_from_bytes wire = Ok d -> (4 <= length wire)%nat.
Proof using. unfold dao_from_bytes. destruct (_ <? 4)%nat eqn:E; [done |]. bool_to_prop. by intros _. Qed.

(** C18: the consolidated validator and the verifier of the root's DAO path agree.
    A DAO is valid exactly when the verifier accepts it under the key pinned for
    the IID of its origin address and the stored floor admits its sequence
    (above the floor, or at it with the digest of the same bytes); the result
    then carries that key, the sequence and the digest of the wire bytes, and
    is fresh unless it repeats the floor. *)
Theorem validator_agrees_with_verifier (v : DaoOriginValidator P R) (wire origin : bytes) (inst : Z) (active : bytes) :
  valid (validate v wire origin inst active) = true <->
  exists sv, RplRoot.verify_signature wire origin inst active (pinned_pubkey_for (pin_table v) (drop 8 origin)) = Ok sv /\
    floor_admits v (RplRoot.sv_public_key sv) (origin_sequence (env_origin (RplRoot.sv_envelope sv))) (sha512 wire) /\
    validate v wire origin inst active =
      accept (RplRoot.sv_public_key sv) (origin_sequence (env_origin (RplRoot.sv_envelope sv))) (sha512 wire)
        (negb (at_floor v (RplRoot.sv_public_key sv) (origin_sequence (env_origin (RplRoot.sv_envelope sv))))).
Proof using.
  unfold validate, RplRoot.verify_signature. destruct (dao_from_bytes wire) as [dao|] eqn:Hd; [| split; [done | by intros (? & ? & _)]].
  rewrite third_octet by (apply dao_length in Hd; lia).
  destruct (negb (dao_instance dao =? inst)); [split; [done | intros (? & E & _); by destruct (_ || _)] |].
  destruct (_ || _); [split; [done | by intros (? & ? & _)] |].
  destruct (match dao_dodag_id dao with Some _ => _ | None => _ end); [split; [done | by intros (? & ? & _)] |].
  destruct (envelope_from_bytes wire) as [env|e]; [| split; [by destruct e | by intros (? & ? & _)]]. cbn [map_err mbind result_bind].
  destruct (pinned_pubkey_for _ _) as [key|]; [| split; [done | by intros (? & ? & _)]]. cbn [ok_or mbind result_bind].
  destruct (negb (bool_decide _)); [split; [done | by intros (? & ? & _)] |].
  destruct (negb (schnorr_verify _ _ _)); [split; [done | by intros (? & ? & _)] |].
  rewrite classify_valid by done. split; [intros Hf; eexists; by split | by intros (? & [= <-] & Hf)].
Qed.

End agreement.
(** ** Validated DAOs carry no assignment *)

Lemma skip_pad_opts (o : DaoOriginSignature) opts : dao_opts opts -> forall (tail : bytes) pos fuel,
  drop pos tail = opts ++ os_bytes o -> (length opts <= fuel)%nat ->
  exists opts', dao_opts opts' /\ (length opts' <= length opts)%nat /\ drop (skip_pad tail pos fuel) tail = opts' ++ os_bytes o /\
    (opts' = [] \/ exists ty body l, opts' = ty :: Z.of_nat (length body) :: body ++ l /\ ty <> SHORT_ADDRESS_OPTION_TYPE /\
       dao_opts l).
Proof.
  assert (forall (tail : bytes) pos fuel x l, drop pos tail = x :: l -> x <> OPT_PAD1 -> skip_pad tail pos fuel = pos) as Hstop.
  { intros tail pos fuel x l Hd Hx. destruct fuel as [|fuel]; [done |]. cbn [skip_pad].
    pose proof (nth_drop tail _ pos 0 x Hd eq_refl) as Hn. rewrite Nat.add_0_r in Hn. rewrite Hn.
    rewrite (proj2 (Z.eqb_neq _ _)) by done. by rewrite andb_false_r. }
  induction 1 as [|l Hl IH|ty body l Hty Hsig Hok Hl IH]; intros tail pos fuel Hd Hf.
  - exists []. split_and!; [constructor | done | | by left]. by rewrite (Hstop _ _ _ _ _ Hd).
  - destruct fuel as [|fuel]; [cbn in Hf; lia |]. cbn [skip_pad].
    pose proof (nth_drop tail _ pos 0 OPT_PAD1 Hd eq_refl) as Hn. rewrite Nat.add_0_r in Hn. rewrite Hn.
    rewrite (proj2 (Nat.ltb_lt _ _)) by (apply drop_len in Hd; [cbn in Hd; lia | done]). cbn [Z.eqb andb].
    destruct (IH tail (pos + 1)%nat fuel) as (opts' & ? & ? & ? & ?);
      [by rewrite <- drop_drop, Hd | cbn in Hf; lia |].
    exists opts'. split_and!; try done. cbn. lia.
  - exists (ty :: Z.of_nat (length body) :: body ++ l). split_and!; [by constructor | done | by rewrite (Hstop _ _ _ _ _ Hd) |].
    right. exists ty, body, l. split_and!; [done | | done]. intros ->. by cbn in Hok.
Qed.

Lemma find_option_none (o : DaoOriginSignature) : os_ok o -> forall fuel (tail : bytes) pos opts,
  (dao_opts opts /\ drop pos tail = opts ++ os_bytes o) \/ drop pos tail = [] ->
  forall d, find_option tail pos fuel None <> Ok d.
Proof.
  intros Ho fuel. induction fuel as [|fuel IH]; intros tail pos opts Hpos d; cbn [find_option]; [done |].
  assert (forall ty body rest, drop (skip_pad tail pos (length tail)) tail = ty :: Z.of_nat (length body) :: body ++ rest ->
    ty <> SHORT_ADDRESS_OPTION_TYPE ->
    (forall pos' d, drop pos' tail = rest -> find_option tail pos' fuel None <> Ok d) ->
    match option_next tail pos with
    | (None, _) => ok_or None (Protocol "message must contain exactly one short-address option")
    | (Some (Err e), _) => from_rpl (Err e)
    | (Some (Ok o0), pos0) =>
        if negb (opt_type o0 =? SHORT_ADDRESS_OPTION_TYPE) then find_option tail pos0 fuel None
        else find_option tail pos0 fuel (Some (opt_data o0))
    end <> Ok d) as Hstep.
  { intros ty body rest Hd Hty Hrest. set (p := skip_pad tail pos (length tail)) in *. unfold option_next. fold p.
    pose proof (drop_len _ _ _ Hd) as Hlen. specialize (Hlen ltac:(done)). cbn [length] in Hlen. rewrite length_app in Hlen.
    pose proof (nth_drop tail _ p 0 ty Hd eq_refl) as H0. rewrite Nat.add_0_r in H0.
    pose proof (nth_drop tail _ p 1 _ Hd eq_refl) as H1. cbn zeta.
    rewrite (proj2 (Nat.leb_gt _ _)) by lia. rewrite (proj2 (Nat.ltb_ge _ (p + 2))) by lia. rewrite H1, Nat2Z.id.
    rewrite (proj2 (Nat.ltb_ge _ _)) by lia. cbn [opt_type]. rewrite H0, (proj2 (Z.eqb_neq _ _)) by done. cbn [negb].
    apply Hrest. replace (p + 2 + length body)%nat with (p + (2 + length body))%nat by lia.
    rewrite <- drop_drop, Hd. cbn [drop Nat.add]. apply drop_app_length. }
  destruct Hpos as [[Hopts Hd] | Hnil].
  - destruct (skip_pad_opts o opts Hopts tail pos (length tail) Hd) as (opts' & Ho' & _ & Hd' & [-> | (ty & body & l & -> & Hty & Hl)]).
    { pose proof (f_equal length Hd) as Hn. rewrite length_drop, length_app in Hn. lia. }
    + apply (Hstep 18 (to_be 8 (origin_sequence o) ++ os_signature o) []).
      * rewrite Hd'. destruct Ho as [_ _ Hs]. unfold os_bytes. rewrite length_app, length_to_be, Hs, app_nil_r. done.
      * done.
      * intros pos' d' Hp. apply (IH _ _ []). by right.
    + apply (Hstep ty body (l ++ os_bytes o)); [by rewrite Hd', <- !app_comm_cons, <- app_assoc | done |].
      intros pos' d' Hp. apply (IH _ _ l). by left.
  - assert (forall n, skip_pad tail pos n = pos) as Hsk.
    { intros [|n]; [done |]. cbn [skip_pad]. rewrite (proj2 (Nat.ltb_ge _ _)); [done |].
      destruct (decide (length tail <= pos)%nat); [done |]. apply (f_equal length) in Hnil. rewrite length_drop in Hnil. cbn in Hnil. lia. }
    unfold option_next. rewrite Hsk. rewrite (proj2 (Nat.leb_le _ _)); [done |].
    apply (f_equal length) in Hnil. rewrite length_drop in Hnil. cbn in Hnil. lia.
Qed.

(** A suffix is determined by its length. *)
Lemma drop_suffix {A} n (l : list A) : drop n l = drop (length l - length (drop n l)) l.
Proof.
  rewrite length_drop. destruct (decide (n <= length l)%nat); [f_equal; lia |]. rewrite !drop_ge; (done || lia).
Qed.

(** A DAO whose envelope is accepted has no assignment option. *)
Lemma envelope_no_assignment wire e : bytes_ok wire -> envelope_from_bytes wire = Ok e ->
  exists er, request_from_dao_bytes wire = Err er.
Proof.
  intros Hb He. apply envelope_sound in He as (base & opts & Hp); [| done].
  unfold request_from_dao_bytes. rewrite (ep_dao _ _ _ _ Hp). cbn [from_rpl map_err mbind result_bind].
  destruct (negb _); [by eexists |].
  destruct (one_assignment_option (dao_options_tail wire)) as [d|er] eqn:Eo; [| by eexists]. exfalso.
  destruct (dao_tail_len _ _ (ep_dao _ _ _ _ Hp)) as [Hl Hle].
  assert (dao_options_tail wire = opts ++ os_bytes (env_origin e)) as Ht.
  { assert (dao_options_tail wire = drop (dao_base_len (env_dao e)) wire) as ->.
    { rewrite <- Hl. clear. unfold dao_options_tail. destruct (_ <? 4)%nat; [by rewrite Nat.sub_0_r, drop_ge |].
      apply drop_suffix. }
    rewrite (ep_data _ _ _ _ Hp), <- (ep_base _ _ _ _ Hp). apply drop_app_length. }
  rewrite Ht in Eo. unfold one_assignment_option in Eo. revert Eo.
  apply (find_option_none (env_origin e) (ep_origin _ _ _ _ Hp) _ _ _ opts). left.
  split; [apply (ep_opts _ _ _ _ Hp) | apply drop_0].
Qed.

(** C19: the two halves of the authenticated assignment path do not meet.  A DAO
    that the origin validator accepts never yields an address: the signed
    envelope refuses every option but padding, targets with their descriptors,
    transit information and the signature, so an accepted DAO has no assignment option, and the
    coordinator's entry point for validated origins answers every such DAO
    with an error and an unchanged table. *)
Theorem validated_origin_never_assigned `{Crypto} {P R St : Type} `{!PinTable P} `{!OriginReplayStore R}
    `{!AddressAssignmentStore St} (v : DaoOriginValidator P R) (c : ShortAddressCoordinator St)
    (wire origin : bytes) (inst : Z) (active : bytes) (now : Z) :
  bytes_ok wire -> valid (validate v wire origin inst active) = true ->
  exists er, handle_origin_validated_dao c wire origin (validate v wire origin inst active) now = (Err er, c).
Proof.
  intros Hb Hv. assert (exists e, envelope_from_bytes wire = Ok e) as [e He].
  { unfold validate in Hv. destruct (dao_from_bytes wire); [| done]. do 3 (case_match; [done |]).
    destruct (envelope_from_bytes wire) as [e|er]; [by eexists | by destruct er]. }
  destruct (envelope_no_assignment _ _ Hb He) as [er Hr]. unfold handle_origin_validated_dao. rewrite Hv. cbn [negb].
  destruct (or_pubkey _) as [key|]; [| by eexists]. destruct (eui64_from_authenticated_identity origin key); [| by eexists].
  unfold handle_dao. destruct (dao_from_bytes wire); [| by eexists]. cbn [from_rpl map_err]. rewrite Hr. by eexists.
Qed.

(** ** A validated DAO *)

#[local] Existing Instance toy_crypto.
#[local] Instance one_pin : PinTable (bytes * bytes) :=
  {| pinned_pubkey_for := fun pin iid => if bool_decide (iid = fst pin) then Some (snd pin) else None |}.
Definition demo_validator : DaoOriginValidator (bytes * bytes) NoOpReplayStore :=
  {| pin_table := (drop 8 RplRoot.origin_address, RplRoot.origin_key); replay_store := Some TheNoOpStore |}.
Definition demo_wire : bytes := default [] (RplRoot.signed_dao 1).

Lemma validated_origin_never_assigned_witness :
  exists er, handle_origin_validated_dao demo_coordinator demo_wire RplRoot.origin_address
    (validate demo_validator demo_wire RplRoot.origin_address 0 RplDaoInv.RplDaoInv.demo_root) 10 = (Err er, demo_coordinator).
Proof.
  apply (validated_origin_never_assigned demo_validator demo_coordinator demo_wire RplRoot.origin_address 0 RplDaoInv.RplDaoInv.demo_root 10).
  - apply (bool_decide_unpack _). by vm_compute.
  - by vm_compute.
Defined.

End DaoOrigin.
