(* ===== verification/Sos.v ===== *)
(** * SOS alerts (lichen-link/src/sos.rs)

    The alert payload with its CBOR encoder and decoder, and the rate limit of
    one source.  A Rust string is the list of its bytes, valid UTF-8; the
    reader is the unread rest of its buffer; a float is the pattern of its
    bits, converted and compared through the Standard Library's IEEE 754
    values.  What a conversion makes of a NaN is left open by the language:
    the class [NanBits]. *)

From Stdlib Require Import Floats.SpecFloat Ascii String.
From stdpp Require Import strings sorting.
From S2P Require Import Prelude.
Open Scope Z_scope.

(** ** Floats as bits *)
Module FloatBits.

(** The value of a pattern with [mw] fraction and [ew] exponent bits. *)
Definition sf_of_bits (mw ew : Z) (bits : Z) : spec_float :=
  let sign := Z.testbit bits (mw + ew) in
  let exp := Z.land (Z.shiftr bits mw) (2 ^ ew - 1) in
  let frac := Z.land bits (2 ^ mw - 1) in
  let bias := 2 ^ (ew - 1) - 1 in
  if exp =? 0 then
    match frac with Z.pos p => S754_finite sign p (1 - bias - mw) | _ => S754_zero sign end
  else if exp =? 2 ^ ew - 1 then if frac =? 0 then S754_infinity sign else S754_nan
  else match frac + 2 ^ mw with Z.pos p => S754_finite sign p (exp - bias - mw) | _ => S754_nan end.

(** The pattern of a value in canonical form; [nan] for a NaN. *)
Definition bits_of_sf (mw ew : Z) (nan : Z) (x : spec_float) : Z :=
  let sign (s : bool) := if s then 2 ^ (mw + ew) else 0 in
  let bias := 2 ^ (ew - 1) - 1 in
  match x with
  | S754_zero s => sign s
  | S754_infinity s => sign s + (2 ^ ew - 1) * 2 ^ mw
  | S754_nan => nan
  | S754_finite s m e =>
      if Z.pos m <? 2 ^ mw then sign s + Z.pos m
      else sign s + (e + bias + mw) * 2 ^ mw + (Z.pos m - 2 ^ mw)
  end.

(** What the language leaves open: the patterns of converted NaNs. *)
Class NanBits := {
  nan32 : Z -> Z;
  nan64 : Z -> Z;
  nan64_u64 : forall b, is_u64 (nan64 b);
  nan64_nan : forall b, sf_of_bits 52 11 (nan64 b) = S754_nan
}.

Definition f64_of (bits : Z) : spec_float := sf_of_bits 52 11 bits.
Definition f32_of (bits : Z) : spec_float := sf_of_bits 23 8 bits.

(** [(x as f32).to_bits()], a [u32]: round to nearest, ties to even. *)
Definition f64_as_f32 `{NanBits} (bits : Z) : Z :=
  wrap32 match f64_of bits with
         | S754_nan => nan32 bits
         | S754_finite s m e => bits_of_sf 23 8 0 (binary_normalize 24 128 (cond_Zopp s (Z.pos m)) e s)
         | x => bits_of_sf 23 8 0 x
         end.
(** [(x as f64).to_bits()] of a pattern: exact. *)
Definition f32_as_f64 `{NanBits} (bits : Z) : Z :=
  match f32_of bits with
  | S754_nan => nan64 bits
  | S754_finite s m e => wrap64 (bits_of_sf 52 11 0 (binary_normalize 53 1024 (cond_Zopp s (Z.pos m)) e s))
  | x => bits_of_sf 52 11 0 x
  end.

Definition f64_lit (n : Z) : spec_float := binary_normalize 53 1024 n 0 false.

End FloatBits.
Export FloatBits.

(** ** UTF-8 *)
Module Utf8.

Definition cont (b : Z) : bool := (0x80 <=? b) && (b <=? 0xBF).

(** [core::str::from_utf8] accepts exactly the well-formed sequences. *)
Fixpoint utf8_valid (s : bytes) : bool :=
  match s with
  | [] => true
  | b0 :: s =>
      if b0 <? 0x80 then utf8_valid s
      else if (0xC2 <=? b0) && (b0 <=? 0xDF) then
        match s with b1 :: s => cont b1 && utf8_valid s | _ => false end
      else if (0xE0 <=? b0) && (b0 <=? 0xEF) then
        match s with
        | b1 :: b2 :: s =>
            (if b0 =? 0xE0 then (0xA0 <=? b1) && (b1 <=? 0xBF)
             else if b0 =? 0xED then (0x80 <=? b1) && (b1 <=? 0x9F) else cont b1) &&
            cont b2 && utf8_valid s
        | _ => false
        end
      else if (0xF0 <=? b0) && (b0 <=? 0xF4) then
        match s with
        | b1 :: b2 :: b3 :: s =>
            (if b0 =? 0xF0 then (0x90 <=? b1) && (b1 <=? 0xBF)
             else if b0 =? 0xF4 then (0x80 <=? b1) && (b1 <=? 0x8F) else cont b1) &&
            cont b2 && cont b3 && utf8_valid s
        | _ => false
        end
      else false
  end.

(** The bytes of an ASCII literal. *)
Fixpoint ascii (s : string) : bytes :=
  match s with
  | EmptyString => []
  | String c s => Z.of_N (N_of_ascii c) :: ascii s
  end.

End Utf8.
Export Utf8.

(** ** The alert and its encoding *)
Module Sos.

Inductive SosAlertType := AtSos | AtMedical | AtSecurity | AtFire | AtCancel.
#[export] Instance SosAlertType_eq_dec : EqDecision SosAlertType.
Proof. solve_decision. Defined.

Definition as_str (t : SosAlertType) : bytes :=
  match t with
  | AtSos => ascii "sos"
  | AtMedical => ascii "medical"
  | AtSecurity => ascii "security"
  | AtFire => ascii "fire"
  | AtCancel => ascii "cancel"
  end.
Definition from_str (s : bytes) : option SosAlertType :=
  if bool_decide (s = ascii "sos") then Some AtSos
  else if bool_decide (s = ascii "medical") then Some AtMedical
  else if bool_decide (s = ascii "security") then Some AtSecurity
  else if bool_decide (s = ascii "fire") then Some AtFire
  else if bool_decide (s = ascii "cancel") then Some AtCancel
  else None.

Record SosAlert := {
  alert_type : SosAlertType;
  node : bytes;
  ts : Z;
  lat : option Z;
  lon : option Z;
  msg : option bytes;
  seq : Z
}.
Definition alert_new (ty : SosAlertType) (n : bytes) (t s : Z) : SosAlert :=
  {| alert_type := ty; node := n; ts := t; lat := None; lon := None; msg := None; seq := s |}.
Definition with_location (a : SosAlert) (la lo : Z) : SosAlert :=
  {| alert_type := alert_type a; node := node a; ts := ts a; lat := Some la; lon := Some lo; msg := msg a; seq := seq a |}.
Definition with_message (a : SosAlert) (m : bytes) : SosAlert :=
  {| alert_type := alert_type a; node := node a; ts := ts a; lat := lat a; lon := lon a; msg := Some m; seq := seq a |}.

Inductive SosCborError :=
  | Truncated | NotAMap | TrailingData | DuplicateKey | UnknownKey | MissingField | UnexpectedType
  | InvalidValue | OutOfRange.
#[export] Instance SosCborError_eq_dec : EqDecision SosCborError.
Proof. solve_decision. Defined.

Inductive CborKeyOrder := Wire | Canonical.

Definition KEY_TYPE : bytes := ascii "type".
Definition KEY_NODE : bytes := ascii "node".
Definition KEY_TS : bytes := ascii "ts".
Definition KEY_LAT : bytes := ascii "lat".
Definition KEY_LON : bytes := ascii "lon".
Definition KEY_MSG : bytes := ascii "msg".
Definition KEY_SEQ : bytes := ascii "seq".

Definition push_type_len (major n : Z) : bytes :=
  let mt := wrap8 (Z.shiftl major 5) in
  if n <? 24 then [Z.lor mt (wrap8 n)]
  else if n <=? 0xff then [Z.lor mt 24; wrap8 n]
  else if n <=? 0xffff then Z.lor mt 25 :: to_be 2 (wrap16 n)
  else if n <=? 0xffffffff then Z.lor mt 26 :: to_be 4 (wrap32 n)
  else Z.lor mt 27 :: to_be 8 n.
Definition push_text (s : bytes) : bytes := push_type_len 3 (Z.of_nat (length s)) ++ s.

(** [while m & 0x400 == 0]: the fraction is not zero, ten turns are enough. *)
Fixpoint f16_subnormal (fuel : nat) (m e : Z) : Z * Z :=
  match fuel with
  | O => (m, e)
  | S fuel => if Z.land m 0x400 =? 0 then f16_subnormal fuel (Z.shiftl m 1) (e - 1) else (m, e)
  end.
Definition f16_to_f64 (bits : Z) : Z :=
  let sign := Z.land (Z.shiftr bits 15) 1 in
  let exp := Z.land (Z.shiftr bits 10) 0x1f in
  let frac := Z.land bits 0x3ff in
  if exp =? 0 then
    if frac =? 0 then Z.shiftl sign 63
    else
      let '(m, e) := f16_subnormal 10 frac (-14) in
      let m := Z.land m 0x3ff in
      Z.lor (Z.lor (Z.shiftl sign 63) (Z.shiftl (e + 1023) 52)) (Z.shiftl m 42)
  else if exp =? 31 then Z.lor (Z.lor (Z.shiftl sign 63) (Z.shiftl 0x7ff 52)) (Z.shiftl frac 42)
  else Z.lor (Z.lor (Z.shiftl sign 63) (Z.shiftl (exp - 15 + 1023) 52)) (Z.shiftl frac 42).

Definition f64_to_f16_exact (bits : Z) : option Z :=
  let sign := Z.land (wrap16 (Z.shiftr bits 63)) 1 in
  let exp := Z.land (Z.shiftr bits 52) 0x7ff in
  let frac := Z.land bits (Z.shiftl 1 52 - 1) in
  if (exp =? 0) && (frac =? 0) then Some (wrap16 (Z.shiftl sign 15))
  else if exp =? 0x7ff then None
  else
    let unbiased := exp - 1023 in
    if negb ((-14 <=? unbiased) && (unbiased <=? 15)) then None
    else if negb (Z.land frac (Z.shiftl 1 42 - 1) =? 0) then None
    else
      let half_exp := wrap16 (unbiased + 15) in
      let half_frac := wrap16 (Z.shiftr frac 42) in
      let half := Z.lor (Z.lor (wrap16 (Z.shiftl sign 15)) (wrap16 (Z.shiftl half_exp 10))) half_frac in
      if f16_to_f64 half =? bits then Some half else None.

Section encode.
Context `{NanBits}.

Definition push_float (value : Z) (preferred : bool) : bytes :=
  let full := 0xfb :: to_be 8 value in
  if preferred then
    match f64_to_f16_exact value with
    | Some half => 0xf9 :: to_be 2 half
    | None =>
        let single := f64_as_f32 value in
        if f32_as_f64 single =? value then 0xfa :: to_be 4 single else full
    end
  else full.

Definition text_pair (key value : bytes) : bytes * bytes := (push_text key, push_text value).
Definition uint_pair (key : bytes) (value : Z) : bytes * bytes := (push_text key, push_type_len 0 value).
Definition float_pair (key : bytes) (value : Z) (order : CborKeyOrder) : bytes * bytes :=
  (push_text key, push_float value match order with Canonical => true | Wire => false end).

Definition alert_pairs (a : SosAlert) (order : CborKeyOrder) : list (bytes * bytes) :=
  [text_pair KEY_TYPE (as_str (alert_type a)); text_pair KEY_NODE (node a); uint_pair KEY_TS (ts a)] ++
  match lat a with Some v => [float_pair KEY_LAT v order] | None => [] end ++
  match lon a with Some v => [float_pair KEY_LON v order] | None => [] end ++
  match msg a with Some m => [text_pair KEY_MSG m] | None => [] end ++
  [uint_pair KEY_SEQ (seq a)].

(** [Vec<u8>]'s order. *)
Fixpoint lex_leb (a b : bytes) : bool :=
  match a, b with
  | [], _ => true
  | _ :: _, [] => false
  | x :: a, y :: b => if x <? y then true else if x =? y then lex_leb a b else false
  end.
(** Insertion keeps the order of equal keys, as the stable sort does. *)
Fixpoint insert_pair (p : bytes * bytes) (l : list (bytes * bytes)) : list (bytes * bytes) :=
  match l with
  | [] => [p]
  | q :: l' => if lex_leb (fst p) (fst q) then p :: l else q :: insert_pair p l'
  end.
Definition sort_pairs (l : list (bytes * bytes)) : list (bytes * bytes) := foldr insert_pair [] l.

Definition encode_alert (a : SosAlert) (order : CborKeyOrder) : bytes :=
  let pairs := alert_pairs a order in
  let pairs := match order with Canonical => sort_pairs pairs | Wire => pairs end in
  push_type_len 5 (Z.of_nat (length pairs)) ++ concat ((fun p => fst p ++ snd p) <$> pairs).

Definition to_cbor (a : SosAlert) : bytes := encode_alert a Wire.
Definition to_canonical_cbor (a : SosAlert) : bytes := encode_alert a Canonical.

End encode.

(** ** Decoding *)

Abbreviation cresult := (result SosCborError).

Definition take_bytes (n : nat) (r : bytes) : cresult (bytes * bytes) :=
  if (length r <? n)%nat then Err Truncated else Ok (take n r, drop n r).
Definition take_u8 (r : bytes) : cresult (Z * bytes) :=
  '(b, r) ← take_bytes 1 r; Ok (nth 0 b 0, r).

Definition header (r : bytes) : cresult (Z * Z * bytes) :=
  '(first, r) ← take_u8 r;
  let major := Z.shiftr first 5 in
  let ai := Z.land first 0x1f in
  if ai <=? 23 then Ok (major, ai, r)
  else if ai =? 24 then '(n, r) ← take_u8 r; Ok (major, n, r)
  else if ai =? 25 then '(b, r) ← take_bytes 2 r; Ok (major, from_be b, r)
  else if ai =? 26 then '(b, r) ← take_bytes 4 r; Ok (major, from_be b, r)
  else if ai =? 27 then '(b, r) ← take_bytes 8 r; Ok (major, from_be b, r)
  else Err UnexpectedType.

(** The hexadecimal groups of [node.split(':')]. *)
Fixpoint split_colon (s : bytes) : list bytes :=
  match s with
  | [] => [[]]
  | b :: s =>
      match split_colon s with
      | g :: gs => if b =? 58 then [] :: g :: gs else (b :: g) :: gs
      | [] => [[b]]
      end
  end.
Definition is_ascii_hexdigit (b : Z) : bool :=
  ((48 <=? b) && (b <=? 57)) || ((65 <=? b) && (b <=? 70)) || ((97 <=? b) && (b <=? 102)).
Definition group_ok (g : bytes) : bool :=
  negb ((length g =? 0)%nat || (4 <? length g)%nat || negb (forallb is_ascii_hexdigit g)).
Definition valid_node_id (s : bytes) : bool :=
  forallb group_ok (split_colon s) && (length (split_colon s) =? 8)%nat.

Definition coordinate_in_range (value limit : Z) : bool :=
  SFleb (SFopp (f64_lit limit)) (f64_of value) && SFleb (f64_of value) (f64_lit limit).

(** The fields read so far. *)
Record Fields := {
  f_type : option SosAlertType;
  f_node : option bytes;
  f_ts : option Z;
  f_lat : option Z;
  f_lon : option Z;
  f_msg : option bytes;
  f_seq : option Z
}.
Definition no_fields : Fields :=
  {| f_type := None; f_node := None; f_ts := None; f_lat := None; f_lon := None; f_msg := None; f_seq := None |}.

Section decode.
Context `{NanBits} `{Usize}.

Definition text (r : bytes) : cresult (bytes * bytes) :=
  '(major, n, r) ← header r;
  if negb (major =? 3) then Err UnexpectedType
  else if usize_max <? n then Err OutOfRange
  else
    '(b, r) ← take_bytes (Z.to_nat n) r;
    if utf8_valid b then Ok (b, r) else Err InvalidValue.
Definition uint (r : bytes) : cresult (Z * bytes) :=
  '(major, n, r) ← header r;
  if negb (major =? 0) then Err UnexpectedType else Ok (n, r).
Definition float (r : bytes) : cresult (Z * bytes) :=
  '(first, r) ← take_u8 r;
  if first =? 0xf9 then '(b, r) ← take_bytes 2 r; Ok (f16_to_f64 (from_be b), r)
  else if first =? 0xfa then '(b, r) ← take_bytes 4 r; Ok (f32_as_f64 (from_be b), r)
  else if first =? 0xfb then '(b, r) ← take_bytes 8 r; Ok (from_be b, r)
  else Err UnexpectedType.

(** One turn of the loop: a key and its value. *)
Definition decode_pair (f : Fields) (r : bytes) : cresult (Fields * bytes) :=
  '(key, r) ← text r;
  if bool_decide (key = KEY_TYPE) then
    if bool_decide (is_Some (f_type f)) then Err DuplicateKey
    else
      '(raw, r) ← text r;
      ty ← ok_or (from_str raw) InvalidValue;
      Ok ({| f_type := Some ty; f_node := f_node f; f_ts := f_ts f; f_lat := f_lat f; f_lon := f_lon f;
             f_msg := f_msg f; f_seq := f_seq f |}, r)
  else if bool_decide (key = KEY_NODE) then
    if bool_decide (is_Some (f_node f)) then Err DuplicateKey
    else
      '(value, r) ← text r;
      if negb (valid_node_id value) then Err InvalidValue
      else Ok ({| f_type := f_type f; f_node := Some value; f_ts := f_ts f; f_lat := f_lat f; f_lon := f_lon f;
                  f_msg := f_msg f; f_seq := f_seq f |}, r)
  else if bool_decide (key = KEY_TS) then
    if bool_decide (is_Some (f_ts f)) then Err DuplicateKey
    else
      '(n, r) ← uint r;
      Ok ({| f_type := f_type f; f_node := f_node f; f_ts := Some n; f_lat := f_lat f; f_lon := f_lon f;
             f_msg := f_msg f; f_seq := f_seq f |}, r)
  else if bool_decide (key = KEY_LAT) then
    if bool_decide (is_Some (f_lat f)) then Err DuplicateKey
    else
      '(value, r) ← float r;
      if negb (coordinate_in_range value 90) then Err InvalidValue
      else Ok ({| f_type := f_type f; f_node := f_node f; f_ts := f_ts f; f_lat := Some value; f_lon := f_lon f;
                  f_msg := f_msg f; f_seq := f_seq f |}, r)
  else if bool_decide (key = KEY_LON) then
    if bool_decide (is_Some (f_lon f)) then Err DuplicateKey
    else
      '(value, r) ← float r;
      if negb (coordinate_in_range value 180) then Err InvalidValue
      else Ok ({| f_type := f_type f; f_node := f_node f; f_ts := f_ts f; f_lat := f_lat f; f_lon := Some value;
                  f_msg := f_msg f; f_seq := f_seq f |}, r)
  else if bool_decide (key = KEY_MSG) then
    if bool_decide (is_Some (f_msg f)) then Err DuplicateKey
    else
      '(value, r) ← text r;
      Ok ({| f_type := f_type f; f_node := f_node f; f_ts := f_ts f; f_lat := f_lat f; f_lon := f_lon f;
             f_msg := Some value; f_seq := f_seq f |}, r)
  else if bool_decide (key = KEY_SEQ) then
    if bool_decide (is_Some (f_seq f)) then Err DuplicateKey
    else
      '(n, r) ← uint r;
      if u32_max <? n then Err OutOfRange
      else Ok ({| f_type := f_type f; f_node := f_node f; f_ts := f_ts f; f_lat := f_lat f; f_lon := f_lon f;
                  f_msg := f_msg f; f_seq := Some n |}, r)
  else Err UnknownKey.

Fixpoint decode_pairs (count : nat) (f : Fields) (r : bytes) : cresult (Fields * bytes) :=
  match count with
  | O => Ok (f, r)
  | S count => '(f, r) ← decode_pair f r; decode_pairs count f r
  end.

(** The checks after the loop. *)
Definition finish (f : Fields) (r : bytes) : cresult SosAlert :=
  match f_type f, f_node f, f_ts f, f_seq f with
  | Some ty, Some n, Some t, Some s =>
      if negb (Bool.eqb (bool_decide (is_Some (f_lat f))) (bool_decide (is_Some (f_lon f)))) then Err MissingField
      else if negb (length r =? 0)%nat then Err TrailingData
      else Ok {| alert_type := ty; node := n; ts := t; lat := f_lat f; lon := f_lon f; msg := f_msg f; seq := s |}
  | _, _, _, _ => Err MissingField
  end.

Definition decode_alert (b : bytes) : cresult SosAlert :=
  '(major, count, r) ← header b;
  if negb (major =? 5) then Err NotAMap
  else if 16 <? count then Err OutOfRange
  else
    '(f, r) ← decode_pairs (Z.to_nat count) no_fields r;
    finish f r.
Definition from_cbor (b : bytes) : cresult SosAlert := decode_alert b.

End decode.
End Sos.

(** ** The rate limit of one source *)
Module SosRate.

Record SosRateLimitConfig := { cooldown_secs : Z; max_per_hour : Z; burst_allowance : Z }.
Inductive SosRateLimitConfigError := ZeroCooldown | InvalidHourlyLimit | InvalidBurstAllowance.
Definition config_default : SosRateLimitConfig :=
  {| cooldown_secs := 600; max_per_hour := 3; burst_allowance := 2 |}.
Definition config_new (cooldown hourly burst : Z) : result SosRateLimitConfigError SosRateLimitConfig :=
  if cooldown =? 0 then Err ZeroCooldown
  else if (hourly =? 0) || (3 <? hourly) then Err InvalidHourlyLimit
  else if (burst =? 0) || (2 <? burst) || (hourly <? burst) then Err InvalidBurstAllowance
  else Ok {| cooldown_secs := cooldown; max_per_hour := hourly; burst_allowance := burst |}.

Record SosRateLimitState := { alert_times : list Z; alert_count : nat; burst_remaining : Z }.

Inductive SosRateLimitResult :=
  | Allowed
  | CooldownActive (remaining_secs : Z)
  | HourlyLimitExceeded (window_reset_secs : Z).
#[export] Instance SosRateLimitResult_eq_dec : EqDecision SosRateLimitResult.
Proof. solve_decision. Defined.

Definition state_new (config : SosRateLimitConfig) : SosRateLimitState :=
  {| alert_times := [0; 0; 0]; alert_count := 0; burst_remaining := burst_allowance config |}.

Definition in_window (s : SosRateLimitState) (cutoff : Z) : list Z :=
  filter (fun t => cutoff <= t) (take (alert_count s) (alert_times s)).
Definition count_in_window (s : SosRateLimitState) (cutoff : Z) : nat := length (in_window s cutoff).
Definition oldest_in_window (s : SosRateLimitState) (cutoff : Z) : option Z :=
  match in_window s cutoff with
  | [] => None
  | t :: l => Some (foldl Z.min t l)
  end.
Definition most_recent (s : SosRateLimitState) : option Z :=
  if (alert_count s =? 0)%nat then None else Some (nth (alert_count s - 1) (alert_times s) 0).

(** [oldest + 3600] overflows for an alert within an hour of the end of time:
    a panic, [None], where overflow is checked. *)
Definition check (s : SosRateLimitState) (now : Z) (config : SosRateLimitConfig) : option SosRateLimitResult :=
  let hour_ago := saturating_sub now 3600 in
  let valid_count := count_in_window s hour_ago in
  let rest :=
    if 0 <? burst_remaining s then Allowed
    else match most_recent s with
         | Some last =>
             let elapsed := saturating_sub now last in
             if elapsed <? cooldown_secs config then CooldownActive (wrap32 (cooldown_secs config - elapsed))
             else Allowed
         | None => Allowed
         end in
  if max_per_hour config <=? Z.of_nat valid_count then
    match oldest_in_window s hour_ago with
    | Some oldest =>
        if u64_max <? oldest + 3600 then None
        else Some (HourlyLimitExceeded (wrap32 (saturating_sub (oldest + 3600) now)))
    | None => Some rest
    end
  else Some rest.

(** The loop of [prune_old]: the times kept so far and where the next goes. *)
Fixpoint prune_loop (times : list Z) (cutoff : Z) (read_idx write_idx n : nat) : list Z * nat :=
  match n with
  | O => (times, write_idx)
  | S n =>
      if cutoff <=? nth read_idx times 0
      then prune_loop (<[write_idx := nth read_idx times 0]> times) cutoff (S read_idx) (S write_idx) n
      else prune_loop times cutoff (S read_idx) write_idx n
  end.
Definition prune_old (s : SosRateLimitState) (cutoff : Z) : SosRateLimitState :=
  let '(times, write_idx) := prune_loop (alert_times s) cutoff 0 0 (alert_count s) in
  {| alert_times := times; alert_count := write_idx; burst_remaining := burst_remaining s |}.

(** [for i in 0..len - 1 { a[i] = a[i + 1] }]. *)
Fixpoint shift_loop (times : list Z) (i n : nat) : list Z :=
  match n with
  | O => times
  | S n => shift_loop (<[i := nth (i + 1) times 0]> times) (S i) n
  end.

Definition record (s : SosRateLimitState) (now : Z) : SosRateLimitState :=
  let burst := if 0 <? burst_remaining s then burst_remaining s - 1 else burst_remaining s in
  let s := prune_old {| alert_times := alert_times s; alert_count := alert_count s; burst_remaining := burst |}
             (saturating_sub now 3600) in
  if (alert_count s <? length (alert_times s))%nat then
    {| alert_times := <[alert_count s := now]> (alert_times s); alert_count := alert_count s + 1;
       burst_remaining := burst_remaining s |}
  else
    let times := shift_loop (alert_times s) 0 (length (alert_times s) - 1) in
    {| alert_times := <[(length times - 1)%nat := now]> times; alert_count := alert_count s;
       burst_remaining := burst_remaining s |}.

Definition reset_burst (s : SosRateLimitState) (config : SosRateLimitConfig) : SosRateLimitState :=
  {| alert_times := alert_times s; alert_count := alert_count s; burst_remaining := burst_allowance config |}.

End SosRate.
