(* ===== verification/SosLimit.v ===== *)
(** * The SOS rate limit enforces its contract

    The bounded state of one source (the last three accepted alerts) decides
    exactly as a history of all of them would: fewer than the hourly maximum in
    the last hour, and the cooldown since the last one once the burst is used. *)

From stdpp Require Import strings sorting.
From S2P Require Import Prelude Sos.
Import SosRate.
Open Scope Z_scope.

Module SosLimit.

(** ** The specification *)

(** The accepted alerts [h], oldest first, at or after [cutoff]. *)
Definition recent (h : list Z) (cutoff : Z) : list Z := filter (fun t => cutoff <= t) h.

Record allowed (cfg : SosRateLimitConfig) (h : list Z) (now : Z) : Prop := {
  al_hour : Z.of_nat (length (recent h (saturating_sub now 3600))) < max_per_hour cfg;
  al_cooldown : Z.of_nat (length h) < burst_allowance cfg \/
                forall l, last h = Some l -> cooldown_secs cfg <= now - l
}.

Record config_ok (cfg : SosRateLimitConfig) : Prop := {
  co_cooldown : 0 < cooldown_secs cfg <= u32_max;
  co_hourly : 1 <= max_per_hour cfg <= 3;
  co_burst : 1 <= burst_allowance cfg <= max_per_hour cfg
}.
Lemma config_new_ok c m b cfg : is_u32 c -> 0 <= m -> 0 <= b -> config_new c m b = Ok cfg -> config_ok cfg.
Proof.
  intros Hc Hm Hb. unfold config_new. destruct (c =? 0) eqn:E1; [done |].
  destruct ((m =? 0) || (3 <? m)) eqn:E2; [done |].
  destruct ((b =? 0) || (2 <? b) || (m <? b)) eqn:E3; [done |]. intros <-%ok_inj. rewrite !orb_false_iff in *. destruct E2, E3 as [[? ?] ?].
  bool_to_prop. split; cbn; width.
Qed.

(** Times in the order they were recorded, none after [now]. *)
Definition ordered (h : list Z) (now : Z) : Prop := StronglySorted Z.le h /\ Forall (fun t => 0 <= t <= now) h.

(** ** Representation *)

Definition live_times (s : SosRateLimitState) : list Z := take (alert_count s) (alert_times s).

Record rep (cfg : SosRateLimitConfig) (s : SosRateLimitState) (h : list Z) : Prop := {
  rp_len : length (alert_times s) = 3%nat;
  rp_count : (alert_count s <= 3)%nat;
  rp_split : exists d, h = d ++ live_times s /\
    (alert_count s = 3%nat \/ forall t l, t ∈ d -> last h = Some l -> t < saturating_sub l 3600);
  rp_last : h <> [] -> (0 < alert_count s)%nat;
  rp_burst : burst_remaining s = Z.max 0 (burst_allowance cfg - Z.of_nat (length h))
}.

Lemma rep_new cfg : 0 <= burst_allowance cfg -> rep cfg (state_new cfg) [].
Proof.
  intros Hb. split; cbn; try done; [lia | | lia]. exists []. split; [done |]. right. intros t l H. by apply elem_of_nil in H.
Qed.

(** ** Pruning keeps the recent times *)

Lemma prune_loop_spec cutoff n : forall times read write,
  (write <= read)%nat -> (read + n <= length times)%nat ->
  let '(times', w) := prune_loop times cutoff read write n in
  length times' = length times /\ (write <= w <= read + n)%nat /\
  take w times' = take write times ++ recent (take n (drop read times)) cutoff.
Proof.
  induction n as [|n IH]; intros times read write Hw Hr; cbn [prune_loop].
  - rewrite app_nil_r. split_and!; (done || lia).
  - destruct (lookup_lt_is_Some_2 times read) as [x Hx]; [lia |]. rewrite (nth_lookup_Some _ _ 0 _ Hx).
    rewrite (drop_S _ _ _ Hx). cbn [firstn]. unfold recent. destruct (cutoff <=? x) eqn:E; bool_to_prop.
    + specialize (IH (<[write := x]> times) (S read) (S write)). destruct (prune_loop _ _ _ _ _) as [times' w].
      rewrite length_insert in IH. destruct IH as (H1 & H2 & H3); [lia | lia |].
      split_and!; [done | lia | lia |]. rewrite H3. rewrite filter_cons_True by done.
      rewrite drop_insert_lt by lia. rewrite (take_S_r _ _ x) by (rewrite list_lookup_insert_eq; [done | lia]).
      rewrite take_insert_ge by lia. by rewrite <- app_assoc.
    + specialize (IH times (S read) write). destruct (prune_loop _ _ _ _ _) as [times' w].
      destruct IH as (H1 & H2 & H3); [lia | lia |]. split_and!; [done | lia | lia |].
      rewrite H3. by rewrite filter_cons_False by lia.
Qed.

Lemma prune_old_spec s cutoff : (alert_count s <= length (alert_times s))%nat ->
  length (alert_times (prune_old s cutoff)) = length (alert_times s) /\
  (alert_count (prune_old s cutoff) <= alert_count s)%nat /\
  live_times (prune_old s cutoff) = recent (live_times s) cutoff /\
  burst_remaining (prune_old s cutoff) = burst_remaining s.
Proof.
  intros Hc. unfold prune_old, live_times. pose proof (prune_loop_spec cutoff (alert_count s) (alert_times s) 0 0) as Hp.
  destruct (prune_loop _ _ _ _ _) as [times w]. destruct Hp as (H1 & H2 & H3); [lia | lia |]. cbn.
  split_and!; [done | lia | | done]. by rewrite H3, take_0, drop_0.
Qed.

Lemma recent_sorted (l : list Z) cutoff : StronglySorted Z.le l ->
  exists d, l = d ++ recent l cutoff /\ Forall (fun t => t < cutoff) d.
Proof.
  induction 1 as [|x l Hs IH Hall]; [by exists [] |]. unfold recent. destruct (decide (cutoff <= x)) as [Hx|Hx].
  - exists []. split; [| done]. rewrite app_nil_l. symmetry. rewrite filter_cons_True by done. f_equal.
    clear -Hall Hx. induction Hall as [|y l Hy Hl IH']; [done |]. rewrite filter_cons_True by lia. by rewrite IH'.
  - rewrite filter_cons_False by done. destruct IH as (d & Hd & Hf). exists (x :: d).
    split; [cbn; f_equal; exact Hd | constructor; [lia | done]].
Qed.

Lemma recent_app d l cutoff : recent (d ++ l) cutoff = recent d cutoff ++ recent l cutoff.
Proof. apply filter_app. Qed.
Lemma recent_none d cutoff : Forall (fun t => t < cutoff) d -> recent d cutoff = [].
Proof. induction 1 as [|x d Hx Hd IH]; [done |]. unfold recent in *. by rewrite filter_cons_False by lia. Qed.
Lemma recent_all d cutoff : Forall (fun t => cutoff <= t) d -> recent d cutoff = d.
Proof. induction 1 as [|x d Hx Hd IH]; [done |]. unfold recent in *. by rewrite filter_cons_True, IH by lia. Qed.

(** ** Recording *)

Lemma shift_three (times : list Z) now : length times = 3%nat ->
  <[(length (shift_loop times 0 (length times - 1)) - 1)%nat := now]> (shift_loop times 0 (length times - 1)) =
  drop 1 times ++ [now].
Proof. intros H. do 3 (destruct times as [|? times]; [done |]). by destruct times. Qed.

Lemma saturating_mono a b c : a <= b -> saturating_sub a c <= saturating_sub b c.
Proof. unfold saturating_sub. lia. Qed.

Lemma ordered_app h now l : ordered (h ++ [l]) now -> ordered h l.
Proof.
  intros [Hs Hf]. apply Forall_app in Hf as [Hf Hl]. split; [by eapply StronglySorted_app_1_l |].
  apply Forall_forall. intros t Ht. rewrite Forall_forall in Hf. pose proof (Hf t Ht).
  split; [lia |]. eapply StronglySorted_app_1_elem_of; [exact Hs | done | by apply list_elem_of_singleton].
Qed.

(** The state before the new time goes in. *)
Lemma record_rep cfg s h now : rep cfg s h -> ordered h now -> 0 <= burst_allowance cfg ->
  rep cfg (record s now) (h ++ [now]).
Proof.
  intros [Hl Hc (d & Hd & Hdrop) Hlast Hb] [Hs Hf] Hb0. set (cutoff := saturating_sub now 3600).
  set (s1 := {| alert_times := alert_times s; alert_count := alert_count s;
                burst_remaining := if 0 <? burst_remaining s then burst_remaining s - 1 else burst_remaining s |}).
  destruct (prune_old_spec s1 cutoff) as (P1 & P2 & P3 & P4); [cbn; lia |].
  change (live_times s1) with (live_times s) in P3. cbn [alert_times alert_count s1] in P1, P2.
  assert (StronglySorted Z.le (live_times s)) as Hsl by (rewrite Hd in Hs; by eapply StronglySorted_app_1_r).
  destruct (recent_sorted _ cutoff Hsl) as (d2 & Hd2 & Hf2).
  assert (burst_remaining (prune_old s1 cutoff) = Z.max 0 (burst_allowance cfg - Z.of_nat (length (h ++ [now])))) as Hbr.
  { rewrite P4. subst s1. cbn [burst_remaining]. rewrite Hb, length_app. cbn [length]. match goal with |- context [0 <? ?x] => destruct (Z.ltb_spec 0 x) end; lia. }
  unfold record. fold cutoff. fold s1. set (s2 := prune_old s1 cutoff) in *.
  assert (length (live_times s2) = alert_count s2) as Hl2 by (unfold live_times; rewrite length_take; lia).
  destruct (_ <? _)%nat eqn:Ecap; bool_to_prop.
  - assert (live_times {| alert_times := <[alert_count s2 := now]> (alert_times s2); alert_count := alert_count s2 + 1;
        burst_remaining := burst_remaining s2 |} = live_times s2 ++ [now]) as Hlv.
    { unfold live_times. cbn. rewrite Nat.add_1_r. rewrite (take_S_r _ _ now) by (apply list_lookup_insert_eq; lia).
      by rewrite take_insert_ge. }
    split; [cbn; rewrite length_insert; lia | cbn; lia | | cbn; intros _; lia | exact Hbr].
    exists (d ++ d2). rewrite Hlv, P3. split; [rewrite Hd, Hd2 at 1; by rewrite <- !app_assoc |].
    rewrite last_snoc. destruct Hdrop as [H3 | Hdrop].
    + (* the array was full: whatever was kept decides *)
      destruct (decide (alert_count s2 = 2%nat)) as [Heq|Hne]; [left; cbn; lia |]. right.
      intros t l Ht [= <-]. apply elem_of_app in Ht as [Ht | Ht]; [| rewrite Forall_forall in Hf2; by apply Hf2].
      assert (d2 <> []) as Hd2n.
      { intros ->. cbn in Hd2. rewrite <- P3 in Hd2. apply (f_equal length) in Hd2. rewrite Hl2 in Hd2.
        unfold live_times in Hd2. rewrite length_take in Hd2. lia. }
      destruct d2 as [|x d2]; [done |]. apply Forall_cons in Hf2 as [Hx _].
      assert (t <= x); [| unfold cutoff in *; lia]. rewrite Hd, Hd2 in Hs.
      eapply StronglySorted_app_1_elem_of; [exact Hs | done |]. apply elem_of_app. left. apply list_elem_of_here.
    + right. intros t l Ht [= <-]. apply elem_of_app in Ht as [Ht | Ht]; [| rewrite Forall_forall in Hf2; by apply Hf2].
      destruct (last h) as [l|] eqn:El.
      * specialize (Hdrop t l Ht eq_refl). assert (l <= now).
        { rewrite Forall_forall in Hf. apply last_Some_elem_of in El. by apply Hf in El as [_ ?]. }
        pose proof (saturating_mono l now 3600). fold cutoff. lia.
      * apply last_None in El. rewrite El in Hd. symmetry in Hd. apply app_eq_nil in Hd as [-> _]. by apply elem_of_nil in Ht.
  - rewrite shift_three by lia. assert (alert_count s2 = 3%nat) as H3 by lia.
    assert (live_times {| alert_times := drop 1 (alert_times s2) ++ [now]; alert_count := alert_count s2;
        burst_remaining := burst_remaining s2 |} = drop 1 (live_times s2) ++ [now]) as Hlv.
    { unfold live_times. cbn [alert_times alert_count]. rewrite H3, !take_ge; [done | lia |].
      rewrite length_app, length_drop. cbn. lia. }
    split; [cbn; rewrite length_app, length_drop; cbn; lia | cbn; lia | | cbn; intros _; lia | exact Hbr].
    exists (d ++ d2 ++ take 1 (live_times s2)). rewrite Hlv. split; [| left; done].
    rewrite Hd, Hd2, P3, <- !app_assoc. do 2 f_equal. rewrite app_assoc. f_equal. by rewrite take_drop.
Qed.

Definition state_after (cfg : SosRateLimitConfig) (h : list Z) : SosRateLimitState :=
  foldl record (state_new cfg) h.

Lemma state_after_rep cfg h now : 0 <= burst_allowance cfg -> ordered h now -> rep cfg (state_after cfg h) h.
Proof.
  intros Hb. revert now. induction h as [|x h IH] using rev_ind; intros now Ho; [by apply rep_new |].
  unfold state_after. rewrite foldl_snoc. apply record_rep; [| by eapply ordered_app | done].
  eapply IH. by eapply ordered_app.
Qed.

(** ** Deciding *)

(** The bounded state counts as many recent alerts as the limit can tell
    apart. *)
Lemma count_agrees cfg s h now : rep cfg s h -> ordered h now -> max_per_hour cfg <= 3 ->
  max_per_hour cfg <= Z.of_nat (count_in_window s (saturating_sub now 3600)) <->
  max_per_hour cfg <= Z.of_nat (length (recent h (saturating_sub now 3600))).
Proof.
  intros [Hl Hc (d & Hd & Hdrop) _ _] [Hs Hf] Hm. set (cutoff := saturating_sub now 3600).
  change (count_in_window s cutoff) with (length (recent (live_times s) cutoff)). rewrite Hd, recent_app, length_app.
  destruct Hdrop as [H3 | Hdrop].
  - destruct (recent d cutoff) as [|x r] eqn:Er; [done |].
    assert (recent (live_times s) cutoff = live_times s) as ->.
    { apply recent_all, Forall_forall. intros t Ht.
      assert (x ∈ recent d cutoff) as Hx by (rewrite Er; apply list_elem_of_here).
      apply list_elem_of_filter in Hx as [Hx1 Hx2]. rewrite Hd in Hs.
      pose proof (StronglySorted_app_1_elem_of _ _ _ x t Hs Hx2 Ht). lia. }
    unfold live_times. rewrite length_take. lia.
  - rewrite (recent_none d); [done |]. apply Forall_forall. intros t Ht. destruct (last h) as [l|] eqn:El.
    + specialize (Hdrop t l Ht eq_refl). assert (l <= now).
      { rewrite Forall_forall in Hf. apply last_Some_elem_of in El. by apply Hf in El as [_ ?]. }
      pose proof (saturating_mono l now 3600). fold cutoff in H0. lia.
    + apply last_None in El. rewrite El in Hd. symmetry in Hd. apply app_eq_nil in Hd as [-> _]. by apply elem_of_nil in Ht.
Qed.

Lemma most_recent_last cfg s h : rep cfg s h -> most_recent s = last h.
Proof.
  intros [Hl Hc (d & Hd & _) Hlast _]. unfold most_recent. destruct (_ =? 0)%nat eqn:E; bool_to_prop.
  - destruct h as [|x h]; [done |]. specialize (Hlast ltac:(done)). lia.
  - rewrite Hd, last_app. unfold live_times.
    assert (last (take (alert_count s) (alert_times s)) = alert_times s !! (alert_count s - 1)%nat) as ->.
    { rewrite last_lookup, length_take, lookup_take_lt by lia. f_equal. lia. }
    destruct (lookup_lt_is_Some_2 (alert_times s) (alert_count s - 1)) as [x Hx]; [lia |].
    by rewrite Hx, (nth_lookup_Some _ _ 0 _ Hx).
Qed.

Lemma foldl_min_in t (l : list Z) : foldl Z.min t l ∈ t :: l.
Proof.
  revert t. induction l as [|x l IH]; intros t; cbn; [apply list_elem_of_here |].
  specialize (IH (Z.min t x)). apply elem_of_cons in IH as [-> | IH].
  - destruct (Z.min_spec t x) as [[_ ->] | [_ ->]]; [apply list_elem_of_here | apply list_elem_of_further, list_elem_of_here].
  - by do 2 apply list_elem_of_further.
Qed.

Lemma oldest_recent s cutoff o : oldest_in_window s cutoff = Some o -> o ∈ live_times s /\ cutoff <= o.
Proof.
  unfold oldest_in_window. destruct (in_window s cutoff) as [|t l] eqn:E; [done |]. intros [= <-].
  pose proof (foldl_min_in t l) as Hin. rewrite <- E in Hin. by apply list_elem_of_filter in Hin as [? ?].
Qed.

(** The bounded state decides as the history does; no addition overflows. *)
Lemma check_exact cfg s h now : config_ok cfg -> rep cfg s h -> ordered h now -> now <= u64_max - 3600 ->
  exists r, check s now cfg = Some r /\ (r = Allowed <-> allowed cfg h now).
Proof.
  intros [Hcd Hm Hb] Hr Ho Hnow. pose proof (count_agrees cfg s h now Hr Ho ltac:(lia)) as Hcount.
  pose proof (most_recent_last cfg s h Hr) as Hlast. pose proof (rp_burst _ _ _ Hr) as Hbr. unfold check.
  destruct (max_per_hour cfg <=? _) eqn:E; bool_to_prop.
  - destruct (oldest_in_window _ _) as [o|] eqn:Eo.
    + apply oldest_recent in Eo as [Hin _]. destruct (rp_split _ _ _ Hr) as (d & Hd & _).
      assert (0 <= o <= now). { destruct Ho as [_ Hf]. rewrite Forall_forall in Hf. apply Hf. rewrite Hd. apply elem_of_app. by right. }
      rewrite (proj2 (Z.ltb_ge _ _)) by lia. eexists. split; [done |]. split; [done |]. intros [Hh _].
      apply Hcount in E. lia.
    + exfalso. unfold oldest_in_window in Eo. unfold count_in_window in E. destruct (in_window _ _); [cbn in E; lia | done].
  - assert (Z.of_nat (length (recent h (saturating_sub now 3600))) < max_per_hour cfg) as Hlt.
    { destruct (Z.lt_ge_cases (Z.of_nat (length (recent h (saturating_sub now 3600)))) (max_per_hour cfg)); [done |].
      assert (max_per_hour cfg <= Z.of_nat (count_in_window s (saturating_sub now 3600))) by (apply Hcount; lia). lia. }
    eexists. split; [done |]. rewrite Hlast. rewrite Hbr.
    match goal with |- context [0 <? ?x] => destruct (Z.ltb_spec 0 x) end.
    + split; [intros _ | done]. split; [done | left; lia].
    + destruct (last h) as [l|] eqn:El.
      * assert (0 <= l <= now). { destruct Ho as [_ Hf]. rewrite Forall_forall in Hf. apply Hf. by apply last_Some_elem_of. }
        unfold saturating_sub at 1. rewrite Z.max_r by lia. destruct (now - l <? _) eqn:Ec; bool_to_prop.
        -- split; [done |]. intros [_ [? | Hc]]; [lia |]. specialize (Hc l El). lia.
        -- split; [intros _ | done]. split; [done |]. right. intros ? [= <-]%(eq_trans (eq_sym El)). lia.
      * split; [intros _ | done]. split; [done |]. right. by rewrite El.
Qed.

(** ** A source that keeps asking *)

(** Alerts arrive at [times]; those that pass the check are recorded.  The
    accepted ones, or [None] for an overflow. *)
Fixpoint run (cfg : SosRateLimitConfig) (s : SosRateLimitState) (times : list Z) : option (list Z) :=
  match times with
  | [] => Some []
  | t :: times =>
      match check s t cfg with
      | None => None
      | Some Allowed => cons t <$> run cfg (record s t) times
      | Some _ => run cfg s times
      end
  end.

(** Every accepted alert was allowed by the ones before it. *)
Definition admissible (cfg : SosRateLimitConfig) (h : list Z) : Prop :=
  forall h1 t h2, h = h1 ++ t :: h2 -> allowed cfg h1 t.

Lemma admissible_snoc cfg h t : admissible cfg h -> allowed cfg h t -> admissible cfg (h ++ [t]).
Proof.
  intros Ha Ht h1 x h2 E. destruct h2 as [|y h2 _] using rev_ind.
  - apply app_inj_tail in E as [-> ->]. done.
  - rewrite app_comm_cons, app_assoc in E. apply app_inj_tail in E as [-> _]. by eapply Ha.
Qed.

Lemma ordered_extend h t now : ordered h t -> 0 <= t -> t <= now -> ordered (h ++ [t]) now.
Proof.
  intros [Hs Hf] H0 Ht. split.
  - apply StronglySorted_app_2; [| done | by repeat constructor].
    intros x y Hx ->%list_elem_of_singleton. rewrite Forall_forall in Hf. by apply Hf in Hx as [_ ?].
  - apply Forall_app. split; [| by repeat constructor]. eapply Forall_impl; [exact Hf |]. cbn. lia.
Qed.
Lemma ordered_mono h t now : ordered h t -> t <= now -> ordered h now.
Proof. intros [Hs Hf] Ht. split; [done |]. eapply Forall_impl; [exact Hf |]. cbn. lia. Qed.

Lemma run_admissible cfg times : config_ok cfg -> forall s h now,
  rep cfg s h -> ordered h now -> 0 <= now -> StronglySorted Z.le times ->
  Forall (fun t => now <= t <= u64_max - 3600) times -> admissible cfg h ->
  exists acc, run cfg s times = Some acc /\ admissible cfg (h ++ acc).
Proof.
  intros Hcfg. induction times as [|t times IH]; intros s h now Hr Ho H0 Hs Hf Ha.
  - exists []. by rewrite app_nil_r.
  - apply StronglySorted_inv in Hs as [Hs Hall]. apply Forall_cons in Hf as [Ht Hf]. cbn [run].
    assert (ordered h t) as Hot by (eapply ordered_mono; [done | lia]).
    assert (Forall (fun t' => t <= t' <= u64_max - 3600) times) as Hf'.
    { apply Forall_forall. intros x Hx. rewrite Forall_forall in Hall, Hf. apply Hall in Hx as ?. apply Hf in Hx. lia. }
    destruct (check_exact cfg s h t Hcfg Hr Hot ltac:(lia)) as (r & -> & Hiff).
    assert (r = Allowed \/ r <> Allowed) as [-> | Hne] by (destruct r; [by left | by right..]).
    + destruct (IH (record s t) (h ++ [t]) t) as (acc & Hrun & Hadm); [| | lia | done | done | |].
      * apply record_rep; [done | done |]. destruct Hcfg as [_ _ ?]. lia.
      * apply ordered_extend; [done | lia | lia].
      * apply admissible_snoc; [done | by apply Hiff].
      * exists (t :: acc). rewrite Hrun. split; [done |]. by rewrite <- app_assoc in Hadm.
    + destruct (IH s h t) as (acc & Hrun & Hadm); [done | done | lia | done | done | done |].
      exists acc. split; [| done]. by destruct r.
Qed.

(** The alerts of the hour that starts at [x]. *)
Definition hour_from (x : Z) (h : list Z) : list Z := filter (fun t => x <= t <= x + 3600) h.

(** At most the hourly maximum in any hour. *)
Lemma admissible_hour cfg h x : admissible cfg h -> 0 <= max_per_hour cfg -> Forall (fun t => 0 <= t) h -> 0 <= x ->
  Z.of_nat (length (hour_from x h)) <= max_per_hour cfg.
Proof.
  intros Ha Hm Hp Hx. induction h as [|t h IH] using rev_ind; [done |].
  unfold hour_from in *. rewrite filter_app, length_app. apply Forall_app in Hp as [Hp Ht].
  assert (admissible cfg h) as Ha' by (intros h1 y h2 ->; eapply (Ha h1 y (h2 ++ [t])); by rewrite <- app_assoc, app_comm_cons).
  destruct (decide (x <= t <= x + 3600)) as [Hin|Hout].
  - rewrite filter_cons_True by done. cbn. destruct (Ha h t [] eq_refl) as [Hh _].
    assert (length (hour_from x h) <= length (recent h (saturating_sub t 3600)))%nat; [| unfold hour_from in *; lia].
    clear -Hin Hx Hp. induction Hp as [|y h Hy Hp IH]; [done |]. unfold recent, hour_from in *.
    destruct (decide (x <= y <= x + 3600)) as [Hyin|]; [rewrite filter_cons_True by done | rewrite filter_cons_False by done].
    + rewrite filter_cons_True by (unfold saturating_sub; lia). cbn. by apply le_n_S.
    + destruct (decide (saturating_sub t 3600 <= y)); [rewrite filter_cons_True by done; cbn; lia |].
      by rewrite filter_cons_False.
  - rewrite (filter_cons_False _ t []) by done. cbn. rewrite Nat.add_0_r. by apply IH.
Qed.

Lemma admissible_gap cfg h h1 l t h2 : admissible cfg h -> h = h1 ++ l :: t :: h2 ->
  burst_allowance cfg <= Z.of_nat (length h1) + 1 -> cooldown_secs cfg <= t - l.
Proof.
  intros Ha -> Hb. destruct (Ha (h1 ++ [l]) t h2) as [_ Hc]; [by rewrite <- app_assoc |].
  rewrite length_app, last_snoc in Hc. cbn in Hc. destruct Hc as [? | Hc]; [lia |]. by apply Hc.
Qed.

Lemma run_subset cfg times : forall s acc t, run cfg s times = Some acc -> t ∈ acc -> t ∈ times.
Proof.
  induction times as [|x times IH]; intros s acc t H Ht; cbn [run] in H; [by injection H as <- |].
  destruct (check s x cfg) as [[| |]|]; [| by apply list_elem_of_further, (IH s acc).. | done].
  destruct (run cfg (record s x) times) as [acc'|] eqn:E; [| done]. injection H as <-.
  apply elem_of_cons in Ht as [-> | Ht]; [apply list_elem_of_here | apply list_elem_of_further; by eapply IH].
Qed.

(** C29: the rate limit of SOS alerts.  For any validated configuration and any
    non-decreasing times a source sends alerts at, none of them in the last hour
    before the end of 64-bit seconds, the check does not overflow, every hour contains at most the configured number of accepted alerts, and
    from the burst allowance on two successive accepted alerts are at least the
    cooldown apart; and the state of three times refuses nothing that the
    complete history of accepted alerts would allow. *)
Theorem sos_rate_limit_enforced (cfg : SosRateLimitConfig) (times : list Z) :
  config_ok cfg -> StronglySorted Z.le times -> Forall (fun t => 0 <= t <= u64_max - 3600) times ->
  (exists acc, run cfg (state_new cfg) times = Some acc /\
    (forall x, 0 <= x -> Z.of_nat (length (hour_from x acc)) <= max_per_hour cfg) /\
    (forall h1 l t h2, acc = h1 ++ l :: t :: h2 -> burst_allowance cfg <= Z.of_nat (length h1) + 1 ->
       cooldown_secs cfg <= t - l)) /\
  (forall h now, ordered h now -> now <= u64_max - 3600 ->
     exists r, check (state_after cfg h) now cfg = Some r /\ (r = Allowed <-> allowed cfg h now)).
Proof.
  intros Hcfg Hs Hf. pose proof Hcfg as [_ Hm Hb]. split.
  - destruct (run_admissible cfg times Hcfg (state_new cfg) [] 0) as (acc & Hrun & Ha); try done.
    + apply rep_new. lia.
    + split; [constructor | constructor].
    + intros h1 t h2 E. by apply (f_equal length) in E; rewrite length_app in E; cbn in E; lia.
    + exists acc. split; [done |]. split.
      * intros x Hx. apply admissible_hour; [done | lia | | done]. apply Forall_forall. intros t Ht.
        rewrite Forall_forall in Hf. eapply run_subset in Ht; [| exact Hrun]. by apply Hf in Ht as [? _].
      * intros h1 l t h2 E Hle. by eapply admissible_gap.
  - intros h now Ho Hnow. apply check_exact; [done | | done | done]. eapply state_after_rep; [lia | done].
Qed.

Lemma sos_rate_limit_enforced_witness :
  exists acc, run config_default (state_new config_default) [1000; 1001; 1002; 1601; 2000; 4600; 4601] = Some acc /\
    acc = [1000; 1001; 1601; 4601].
Proof.
  destruct (sos_rate_limit_enforced config_default [1000; 1001; 1002; 1601; 2000; 4600; 4601]) as [(acc & Hr & _) _].
  - by split.
  - repeat (constructor; [| repeat constructor; done]). constructor.
  - repeat constructor; done.
  - exists acc. split; [exact Hr |]. apply Some_inj. rewrite <- Hr. by vm_compute.
Defined.

(** The time a refusal by the hourly limit reports is one second early: at that
    second the oldest alert still counts, and the refusal reports zero. *)
Example reset_one_second_early :
  let s := state_after config_default [1000; 1001; 1601] in
  check s 2000 config_default = Some (HourlyLimitExceeded 2600) /\
  check s 4600 config_default = Some (HourlyLimitExceeded 0) /\
  check s 4601 config_default = Some Allowed.
Proof. by vm_compute. Qed.

End SosLimit.
