(* ===== verification/SosCodec.v ===== *)
(** * SOS alerts survive their encodings

    Both encodings of a well-formed alert decode to it, and what decodes is a
    well-formed alert; the canonical encoding, which is what an origin signs,
    determines the alert. *)

From Stdlib Require Import Floats.SpecFloat.
From stdpp Require Import strings.
From S2P Require Import Prelude Sos.
Import Sos.
Open Scope Z_scope.

Module SosCodec.

(** ** Heads *)

Definition head_ok (major n : Z) : bool :=
  (24 <=? n) || ((Z.shiftr (Z.lor (wrap8 (Z.shiftl major 5)) (wrap8 n)) 5 =? major) &&
                 (Z.land (Z.lor (wrap8 (Z.shiftl major 5)) (wrap8 n)) 0x1f =? n)).
Lemma head_ok_all major n : major = 0 \/ major = 3 \/ major = 5 -> is_u8 n -> head_ok major n = true.
Proof.
  intros [-> | [-> | ->]] Hn;
    [apply (u8_forallb (head_ok 0)) | apply (u8_forallb (head_ok 3)) | apply (u8_forallb (head_ok 5))];
    (done || by vm_compute).
Qed.

Lemma take_bytes_app n b r : length b = n -> take_bytes n (b ++ r) = Ok (b, r).
Proof.
  intros <-. unfold take_bytes. rewrite length_app, (proj2 (Nat.ltb_ge _ _)) by lia.
  by rewrite take_app_length, drop_app_length.
Qed.

Lemma take_u8_cons x r : take_u8 (x :: r) = Ok (x, r).
Proof. done. Qed.

Lemma header_back major n r : major = 0 \/ major = 3 \/ major = 5 -> is_u64 n ->
  header (push_type_len major n ++ r) = Ok (major, n, r).
Proof.
  intros Hm Hn. unfold push_type_len. destruct (n <? 24) eqn:E1; bool_to_prop.
  { assert (is_u8 n) as Hu by width. pose proof (head_ok_all major n Hm Hu) as Hh. unfold head_ok in Hh.
    rewrite (proj2 (Z.leb_gt 24 n)) in Hh by lia. cbn [orb] in Hh. apply andb_true_iff in Hh as [H1%Z.eqb_eq H2%Z.eqb_eq].
    unfold header. cbn [app]. rewrite take_u8_cons. cbn [mbind result_bind]. rewrite H1, H2, (proj2 (Z.leb_le _ _)) by lia. done. }
  assert (forall x k b, (x = 25 /\ k = 2%nat) \/ (x = 26 /\ k = 4%nat) \/ (x = 27 /\ k = 8%nat) ->
    length b = k -> header ((Z.lor (wrap8 (Z.shiftl major 5)) x :: b) ++ r) = Ok (major, from_be b, r)) as Hlong.
  { intros x k b Hx Hb.
    assert (Z.shiftr (Z.lor (wrap8 (Z.shiftl major 5)) x) 5 = major /\ Z.land (Z.lor (wrap8 (Z.shiftl major 5)) x) 0x1f = x)
      as [H1 H2] by (destruct Hm as [-> | [-> | ->]], Hx as [[-> _] | [[-> _] | [-> _]]]; by vm_compute).
    unfold header. rewrite <- app_comm_cons, take_u8_cons. cbn [mbind result_bind]. rewrite H1, H2.
    destruct Hx as [[-> ->] | [[-> ->] | [-> ->]]]; cbn [Z.leb Z.eqb Z.compare Pos.compare Pos.compare_cont Pos.eqb];
      by rewrite take_bytes_app. }
  destruct (n <=? 0xff) eqn:E2; bool_to_prop.
  { rewrite (wrap8_small n) by width. 
    assert (Z.shiftr (Z.lor (wrap8 (Z.shiftl major 5)) 24) 5 = major /\ Z.land (Z.lor (wrap8 (Z.shiftl major 5)) 24) 0x1f = 24)
      as [H1 H2] by (destruct Hm as [-> | [-> | ->]]; by vm_compute).
    unfold header. cbn [app]. rewrite take_u8_cons. cbn [mbind result_bind]. rewrite H1, H2. done. }
  destruct (n <=? 0xffff) eqn:E3; bool_to_prop.
  { rewrite (wrap16_small n) by width. rewrite (Hlong 25 2%nat) by (rewrite ?length_to_be; auto).
    by rewrite from_be_to_be_u16 by width. }
  destruct (n <=? 0xffffffff) eqn:E4; bool_to_prop.
  { rewrite (wrap32_small n) by width. rewrite (Hlong 26 4%nat) by (rewrite ?length_to_be; auto).
    by rewrite from_be_to_be_u32 by width. }
  rewrite (Hlong 27 8%nat) by (rewrite ?length_to_be; auto). by rewrite from_be_to_be_u64.
Qed.

(** ** Values *)

Section values.
Context `{NanBits} `{Usize}.

(** A string the platform can hold. *)
Definition string_ok (s : bytes) : Prop :=
  utf8_valid s = true /\ Z.of_nat (length s) <= usize_max /\ Z.of_nat (length s) <= u64_max.

Lemma text_back s r : string_ok s -> text (push_text s ++ r) = Ok (s, r).
Proof.
  intros (Hu & Hl & H64). unfold text, push_text. rewrite <- app_assoc, header_back by (auto || width).
  cbn [mbind result_bind]. rewrite Z.eqb_refl. cbn [negb]. rewrite (proj2 (Z.ltb_ge _ _)) by done.
  rewrite Nat2Z.id, take_bytes_app by done. cbn [mbind result_bind]. by rewrite Hu.
Qed.
Lemma uint_back n r : is_u64 n -> uint (push_type_len 0 n ++ r) = Ok (n, r).
Proof. intros Hn. unfold uint. by rewrite header_back by auto. Qed.

Lemma f16_zero sign : sign = 0 \/ sign = 1 -> f16_to_f64 (wrap16 (Z.shiftl sign 15)) = Z.shiftl sign 63.
Proof. by intros [-> | ->]. Qed.

Lemma lor_bound a b n : 0 <= n -> 0 <= a < 2 ^ n -> 0 <= b < 2 ^ n -> 0 <= Z.lor a b < 2 ^ n.
Proof.
  intros Hn Ha Hb. assert (0 <= Z.lor a b) by (apply Z.lor_nonneg; lia). split; [done |].
  destruct (Z.eq_dec (Z.lor a b) 0) as [-> |]; [apply Z.pow_pos_nonneg; lia |].
  apply Z.log2_lt_pow2; [lia |]. rewrite Z.log2_lor by lia. apply Z.max_lub_lt.
  - destruct (Z.eq_dec a 0) as [-> |]; [| by apply Z.log2_lt_pow2; lia]. change (Z.log2 0) with 0.
    destruct (Z.eq_dec n 0) as [-> |]; [| lia]. cbn in *. assert (b = 0) as -> by lia. done.
  - destruct (Z.eq_dec b 0) as [-> |]; [| by apply Z.log2_lt_pow2; lia]. change (Z.log2 0) with 0.
    destruct (Z.eq_dec n 0) as [-> |]; [| lia]. cbn in *. assert (a = 0) as -> by lia. done.
Qed.

Lemma f16_exact_back bits half : is_u64 bits -> f64_to_f16_exact bits = Some half ->
  is_u16 half /\ f16_to_f64 half = bits.
Proof.
  intros Hb. unfold f64_to_f16_exact.
  change (Z.shiftl 1 52 - 1) with (Z.ones 52). change 0x7ff with (Z.ones 11). change (Z.shiftl 1 42 - 1) with (Z.ones 42).
  destruct (_ && _) eqn:E0.
  - intros [= <-]. apply andb_true_iff in E0 as [E1%Z.eqb_eq E2%Z.eqb_eq].
    rewrite Z.land_ones, Z.shiftr_div_pow2 in E1 by lia. rewrite Z.land_ones in E2 by lia.
    assert (bits = bits / 2 ^ 63 * 2 ^ 63 /\ 0 <= bits / 2 ^ 63 <= 1) as [Hbits Hs].
    { unfold is_u64, u64_max in Hb. change (2 ^ 52) with 4503599627370496 in *. change (2 ^ 63) with 9223372036854775808.
      change (2 ^ 11) with 2048 in *. split; [| split; [apply Z.div_pos; lia | apply Z.lt_succ_r, Z.div_lt_upper_bound; lia]].
      pose proof (Z.div_mod bits 4503599627370496 ltac:(lia)). pose proof (Z.div_mod (bits / 4503599627370496) 2048 ltac:(lia)).
      assert (bits / 4503599627370496 / 2048 = bits / 9223372036854775808) by (by rewrite Z.div_div by lia). lia. }
    rewrite Z.shiftr_div_pow2 by lia. set (sg := bits / 2 ^ 63) in *.
    assert (Z.land (wrap16 sg) 1 = sg) as -> by (assert (sg = 0 \/ sg = 1) as [-> | ->] by lia; done).
    split; [apply wrap16_u16 |]. rewrite f16_zero by lia. rewrite Z.shiftl_mul_pow2 by lia. lia.
  - destruct (_ =? Z.ones 11); [done |]. destruct (negb (_ && _)); [done |]. destruct (negb _); [done |].
    set (h := Z.lor _ _). destruct (f16_to_f64 h =? bits) eqn:E; [| done]. intros [= <-]. apply Z.eqb_eq in E. split; [| done].
    assert (forall x, 0 <= wrap16 x < 2 ^ 16) as Hw by (intros x; pose proof (wrap16_u16 x); change (2 ^ 16) with 65536; width).
    assert (0 <= h < 2 ^ 16) as Hh by (unfold h; repeat (apply lor_bound; [lia | | ]); apply Hw).
    change (2 ^ 16) with 65536 in Hh. width.
Qed.

Lemma float_back v preferred r : is_u64 v -> float (push_float v preferred ++ r) = Ok (v, r).
Proof.
  intros Hv. assert (float ((0xfb :: to_be 8 v) ++ r) = Ok (v, r)) as Hfull.
  { unfold float. rewrite <- app_comm_cons, take_u8_cons.
    cbn -[take_bytes from_be to_be]. rewrite take_bytes_app by apply length_to_be.
    cbn [mbind result_bind]. by rewrite from_be_to_be_u64. }
  unfold push_float. destruct preferred; [| done]. destruct (f64_to_f16_exact v) as [half|] eqn:Eh.
  - apply f16_exact_back in Eh as [Hu He]; [| done].
    unfold float. rewrite <- app_comm_cons, take_u8_cons.
    cbn -[take_bytes from_be to_be f16_to_f64]. rewrite take_bytes_app by apply length_to_be.
    cbn [mbind result_bind]. by rewrite from_be_to_be_u16, He.
  - destruct (_ =? v) eqn:Es; [| done]. apply Z.eqb_eq in Es.
    unfold float. rewrite <- app_comm_cons, take_u8_cons.
    cbn -[take_bytes from_be to_be f32_as_f64 f64_as_f32]. rewrite take_bytes_app by apply length_to_be.
    cbn [mbind result_bind]. rewrite from_be_to_be_u32 by apply wrap32_u32. by rewrite Es.
Qed.

(** ** Pairs *)

(** A key with its value. *)
Inductive item :=
  | IType (t : SosAlertType) | INode (n : bytes) | ITs (t : Z) | ILat (v : Z) | ILon (v : Z) | IMsg (m : bytes)
  | ISeq (q : Z).

Definition item_pair (order : CborKeyOrder) (i : item) : bytes * bytes :=
  match i with
  | IType t => text_pair KEY_TYPE (as_str t)
  | INode n => text_pair KEY_NODE n
  | ITs t => uint_pair KEY_TS t
  | ILat v => float_pair KEY_LAT v order
  | ILon v => float_pair KEY_LON v order
  | IMsg m => text_pair KEY_MSG m
  | ISeq q => uint_pair KEY_SEQ q
  end.
Definition item_bytes (order : CborKeyOrder) (i : item) : bytes := fst (item_pair order i) ++ snd (item_pair order i).

Definition item_ok (i : item) : Prop :=
  match i with
  | IType _ => True
  | INode n => string_ok n /\ valid_node_id n = true
  | ITs t => is_u64 t
  | ILat v => is_u64 v /\ coordinate_in_range v 90 = true
  | ILon v => is_u64 v /\ coordinate_in_range v 180 = true
  | IMsg m => string_ok m
  | ISeq q => is_u32 q
  end.

Definition item_unset (f : Fields) (i : item) : Prop :=
  match i with
  | IType _ => f_type f = None
  | INode _ => f_node f = None
  | ITs _ => f_ts f = None
  | ILat _ => f_lat f = None
  | ILon _ => f_lon f = None
  | IMsg _ => f_msg f = None
  | ISeq _ => f_seq f = None
  end.
Definition set_item (f : Fields) (i : item) : Fields :=
  {| f_type := match i with IType t => Some t | _ => f_type f end;
     f_node := match i with INode n => Some n | _ => f_node f end;
     f_ts := match i with ITs t => Some t | _ => f_ts f end;
     f_lat := match i with ILat v => Some v | _ => f_lat f end;
     f_lon := match i with ILon v => Some v | _ => f_lon f end;
     f_msg := match i with IMsg m => Some m | _ => f_msg f end;
     f_seq := match i with ISeq q => Some q | _ => f_seq f end |}.

Lemma key_ok (k : bytes) : utf8_valid k = true -> (length k <= 8)%nat -> string_ok k.
Proof. intros Hu Hl. pose proof usize_max_ge. unfold u16_max in *. split; [done |]. unfold u64_max. lia. Qed.

Lemma type_back t : from_str (as_str t) = Some t.
Proof. by destruct t. Qed.
Lemma as_str_ok t : string_ok (as_str t).
Proof. apply key_ok; [by destruct t | destruct t; cbn; lia]. Qed.

Lemma decode_pair_item f order i r : item_ok i -> item_unset f i ->
  decode_pair f (item_bytes order i ++ r) = Ok (set_item f i, r).
Proof.
  intros Hi Hu. unfold decode_pair, item_bytes. rewrite <- app_assoc.
  destruct i as [t | n | t | v | v | m | q]; cbn [item_pair text_pair uint_pair float_pair item_ok item_unset fst snd] in *;
    rewrite text_back by (apply key_ok; [done | cbn; lia]); cbn [mbind result_bind];
    repeat (first [rewrite bool_decide_false by done | rewrite bool_decide_true by done]); rewrite Hu;
    rewrite bool_decide_false by (by intros [? ?]).
  - rewrite text_back by apply as_str_ok. cbn [mbind result_bind]. by rewrite type_back.
  - destruct Hi as [Hs Hn]. rewrite text_back by done. cbn [mbind result_bind]. by rewrite Hn.
  - by rewrite uint_back.
  - destruct Hi as [Hv Hr]. rewrite float_back by done. cbn [mbind result_bind]. by rewrite Hr.
  - destruct Hi as [Hv Hr]. rewrite float_back by done. cbn [mbind result_bind]. by rewrite Hr.
  - by rewrite text_back.
  - rewrite uint_back by width. cbn [mbind result_bind]. by rewrite (proj2 (Z.ltb_ge _ _)) by width.
Qed.

(** Distinct keys of a list of items, all still unset. *)
Fixpoint settable (f : Fields) (l : list item) : Prop :=
  match l with
  | [] => True
  | i :: l => item_ok i /\ item_unset f i /\ settable (set_item f i) l
  end.

Lemma decode_pairs_items order l : forall f r, settable f l ->
  decode_pairs (length l) f (concat (item_bytes order <$> l) ++ r) = Ok (foldl set_item f l, r).
Proof.
  induction l as [|i l IH]; intros f r Hl; [done |]. destruct Hl as (Hi & Hu & Hl).
  rewrite fmap_cons. cbn [concat length decode_pairs foldl]. rewrite <- app_assoc, decode_pair_item by done.
  cbn [mbind result_bind]. by apply IH.
Qed.

(** ** Alerts *)

Record alert_ok (a : SosAlert) : Prop := {
  ao_node : string_ok (node a) /\ valid_node_id (node a) = true;
  ao_ts : is_u64 (ts a);
  ao_lat : forall v, lat a = Some v -> is_u64 v /\ coordinate_in_range v 90 = true;
  ao_lon : forall v, lon a = Some v -> is_u64 v /\ coordinate_in_range v 180 = true;
  ao_both : is_Some (lat a) <-> is_Some (lon a);
  ao_msg : forall m, msg a = Some m -> string_ok m;
  ao_seq : is_u32 (seq a)
}.

Definition opt_item {A} (f : A -> item) (o : option A) : list item := match o with Some x => [f x] | None => [] end.
Definition alert_items (a : SosAlert) (order : CborKeyOrder) : list item :=
  match order with
  | Wire => [IType (alert_type a); INode (node a); ITs (ts a)] ++ opt_item ILat (lat a) ++ opt_item ILon (lon a) ++
            opt_item IMsg (msg a) ++ [ISeq (seq a)]
  | Canonical => [ITs (ts a)] ++ opt_item ILat (lat a) ++ opt_item ILon (lon a) ++ opt_item IMsg (msg a) ++
                 [ISeq (seq a); INode (node a); IType (alert_type a)]
  end.

(** The sorted order of the keys. *)
Lemma encode_alert_items a order :
  encode_alert a order = push_type_len 5 (Z.of_nat (length (alert_items a order))) ++
    concat (item_bytes order <$> alert_items a order).
Proof.
  unfold encode_alert, alert_items, alert_pairs.
  destruct order, (lat a), (lon a), (msg a); reflexivity.
Qed.

Lemma decode_items a order l : alert_ok a -> l = alert_items a order -> settable no_fields l ->
  foldl set_item no_fields l = {| f_type := Some (alert_type a); f_node := Some (node a); f_ts := Some (ts a);
    f_lat := lat a; f_lon := lon a; f_msg := msg a; f_seq := Some (seq a) |} ->
  (length l <= 16)%nat -> decode_alert (encode_alert a order) = Ok a.
Proof.
  intros Ha -> Hset Hfold Hlen. rewrite encode_alert_items. unfold decode_alert.
  rewrite header_back by (auto || width). cbn [mbind result_bind]. rewrite Z.eqb_refl. cbn [negb].
  rewrite (proj2 (Z.ltb_ge _ _)) by lia. rewrite Nat2Z.id, <- (app_nil_r (concat _)), decode_pairs_items by done.
  cbn [mbind result_bind]. rewrite Hfold. unfold finish. cbn [f_type f_node f_ts f_lat f_lon f_msg f_seq].
  destruct Ha as [_ _ _ _ Hboth _ _].
  assert (bool_decide (is_Some (lat a)) = bool_decide (is_Some (lon a))) as -> by (by apply bool_decide_ext).
  rewrite eqb_reflx. by destruct a.
Qed.

Lemma alert_settable a order : alert_ok a -> settable no_fields (alert_items a order).
Proof.
  intros [[Hn Hv] Ht Hla Hlo _ Hm Hs]. unfold alert_items. destruct order, (lat a) as [la|], (lon a) as [lo|], (msg a) as [m|];
    try pose proof (Hla _ eq_refl); try pose proof (Hlo _ eq_refl); try pose proof (Hm _ eq_refl);
    cbn [settable app opt_item item_ok item_unset set_item no_fields f_type f_node f_ts f_lat f_lon f_msg f_seq]; tauto.
Qed.

Lemma decode_encode a order : alert_ok a -> decode_alert (encode_alert a order) = Ok a.
Proof.
  intros Ha. eapply decode_items; [done | done | by apply alert_settable | |].
  - unfold alert_items. by destruct order, (lat a), (lon a), (msg a).
  - unfold alert_items. destruct order, (lat a), (lon a), (msg a); cbn; lia.
Qed.

(** ** What decodes is well formed *)

Lemma take_bytes_inv n r b r' : take_bytes n r = Ok (b, r') -> bytes_ok r ->
  length b = n /\ bytes_ok b /\ bytes_ok r'.
Proof.
  unfold take_bytes. destruct (_ <? n)%nat eqn:E; [done |]. intros [= <- <-] Hr. bool_to_prop.
  split_and!; [rewrite length_take; lia | by apply Forall_take | by apply Forall_drop].
Qed.
Lemma take_u8_inv r x r' : take_u8 r = Ok (x, r') -> bytes_ok r -> is_u8 x /\ bytes_ok r'.
Proof.
  intros Hx Hr. apply bind_ok in Hx as ([b r1] & Ht & [= <- <-]%ok_inj). apply take_bytes_inv in Ht as (Hl & Hb & Hr'); [| done].
  split; [| done]. destruct b as [|y b]; [done |]. by apply Forall_cons in Hb as [? _].
Qed.

Lemma header_inv r m n r' : header r = Ok (m, n, r') -> bytes_ok r -> is_u64 n /\ bytes_ok r'.
Proof.
  intros Hh Hr. apply bind_ok in Hh as ([first r1] & Ht & Hh). apply take_u8_inv in Ht as [Hf Hr1]; [| done].
  assert (forall k, (k <= 8)%nat -> take_bytes k r1 ≫= (fun '(b, r) => Ok (Z.shiftr first 5, from_be b, r)) = Ok (m, n, r') ->
    is_u64 n /\ bytes_ok r') as Hlong.
  { intros k Hk Hb. apply bind_ok in Hb as ([b r2] & Hb & [= <- <- <-]%ok_inj). apply take_bytes_inv in Hb as (Hl & Hb & Hr2); [| done].
    split; [apply from_be_u64; [done | lia] | done]. }
  cbn zeta in Hh. destruct (_ <=? 23) eqn:E1.
  { injection Hh as <- <- <-. bool_to_prop. split; [| done].
    assert (0 <= Z.land first 0x1f) by (apply Z.land_nonneg; lia). width. }
  destruct (_ =? 24).
  { apply bind_ok in Hh as ([x r2] & Hx & [= <- <- <-]%ok_inj). apply take_u8_inv in Hx as [? ?]; [| done]. split; [width | done]. }
  destruct (_ =? 25); [apply (Hlong 2%nat); [lia | done] |]. destruct (_ =? 26); [apply (Hlong 4%nat); [lia | done] |].
  destruct (_ =? 27); [apply (Hlong 8%nat); [lia | done] | done].
Qed.

Lemma text_inv r s r' : text r = Ok (s, r') -> bytes_ok r -> string_ok s /\ bytes_ok r'.
Proof.
  intros Ht Hr. apply bind_ok in Ht as ([[m n] r1] & Hh & Ht). apply header_inv in Hh as [Hn Hr1]; [| done].
  destruct (negb _); [done |]. destruct (usize_max <? n) eqn:Eu; [done |]. bool_to_prop.
  apply bind_ok in Ht as ([b r2] & Hb & Ht). apply take_bytes_inv in Hb as (Hl & _ & Hr2); [| done].
  destruct (utf8_valid b) eqn:Ev; [| done]. apply ok_inj in Ht as [= <- <-]. split; [| done].
  split; [done |]. rewrite Hl. unfold is_u64, u64_max in *. lia.
Qed.
Lemma uint_inv r n r' : uint r = Ok (n, r') -> bytes_ok r -> is_u64 n /\ bytes_ok r'.
Proof.
  intros Hu Hr. apply bind_ok in Hu as ([[m k] r1] & Hh & Hu). apply header_inv in Hh as [Hn Hr1]; [| done].
  destruct (negb _); [done |]. by apply ok_inj in Hu as [= <- <-].
Qed.

Lemma subnormal_range fuel : forall m e, -24 + Z.of_nat fuel <= e <= -14 ->
  -24 <= snd (f16_subnormal fuel m e) <= -14.
Proof.
  induction fuel as [|fuel IH]; intros m e He; cbn [f16_subnormal snd]; [lia |].
  destruct (_ =? 0); [apply IH; lia | cbn; lia].
Qed.

Lemma shiftl_small x k n : 0 <= k -> 0 <= n -> 0 <= x < 2 ^ n -> 0 <= Z.shiftl x k < 2 ^ (n + k).
Proof. intros Hk Hn Hx. rewrite Z.shiftl_mul_pow2, Z.pow_add_r by lia. nia. Qed.
Lemma land_small x n : 0 <= n -> 0 <= Z.land x (2 ^ n - 1) < 2 ^ n.
Proof. intros Hn. replace (2 ^ n - 1) with (Z.ones n) by (rewrite Z.ones_equiv; lia). rewrite Z.land_ones by lia. apply Z.mod_pos_bound, Z.pow_pos_nonneg; lia. Qed.

Lemma f16_to_f64_u64 b : is_u64 (f16_to_f64 b).
Proof.
  assert (forall s e m, 0 <= s < 2 ^ 1 -> 0 <= e < 2 ^ 12 -> 0 <= m < 2 ^ 10 ->
    is_u64 (Z.lor (Z.lor (Z.shiftl s 63) (Z.shiftl e 52)) (Z.shiftl m 42))) as Hb.
  { intros s e m Hs He Hm. pose proof (shiftl_small s 63 1 ltac:(lia) ltac:(lia) Hs) as H1.
    pose proof (shiftl_small e 52 12 ltac:(lia) ltac:(lia) He) as H2. pose proof (shiftl_small m 42 10 ltac:(lia) ltac:(lia) Hm) as H3.
    change (1 + 63) with 64 in H1. change (12 + 52) with 64 in H2. change (10 + 42) with 52 in H3.
    assert (0 <= Z.shiftl m 42 < 2 ^ 64) as H3' by (assert (2 ^ 52 <= 2 ^ 64) by done; lia).
    pose proof (lor_bound _ _ 64 ltac:(lia) (lor_bound _ _ 64 ltac:(lia) H1 H2) H3') as H4.
    change (2 ^ 64) with 18446744073709551616 in H4. unfold is_u64, u64_max. lia. }
  pose proof (land_small (Z.shiftr b 15) 1 ltac:(lia)) as Hs. change (2 ^ 1 - 1) with 1 in Hs.
  pose proof (land_small (Z.shiftr b 10) 5 ltac:(lia)) as He. change (2 ^ 5 - 1) with 0x1f in He. change (2 ^ 5) with 32 in He.
  pose proof (land_small b 10 ltac:(lia)) as Hm. change (2 ^ 10 - 1) with 0x3ff in Hm.
  unfold f16_to_f64. destruct (_ =? 0) eqn:E0; bool_to_prop; [destruct (_ =? 0) |].
  - pose proof (shiftl_small _ 63 1 ltac:(lia) ltac:(lia) Hs) as H1. change (2 ^ (1 + 63)) with 18446744073709551616 in H1.
    unfold is_u64, u64_max. lia.
  - pose proof (subnormal_range 10 (Z.land b 0x3ff) (-14) ltac:(lia)) as Hr. destruct (f16_subnormal _ _ _) as [m e]. cbn [snd] in Hr.
    apply Hb; [done | lia |]. pose proof (land_small m 10 ltac:(lia)) as H3. by change (2 ^ 10 - 1) with 0x3ff in H3.
  - destruct (_ =? 31); apply Hb; (done || lia).
Qed.

Lemma f32_as_f64_u64 b : is_u64 (f32_as_f64 b).
Proof.
  unfold f32_as_f64. destruct (f32_of b) as [[] | [] | | s m e]; [done.. | apply nan64_u64 |].
  unfold wrap64.
  match goal with |- context [?x mod ?y] => pose proof (Z.mod_pos_bound x y ltac:(done)) end. unfold is_u64, u64_max. lia.
Qed.

Lemma float_inv r v r' : float r = Ok (v, r') -> bytes_ok r -> is_u64 v /\ bytes_ok r'.
Proof.
  intros Hf Hr. apply bind_ok in Hf as ([first r1] & Ht & Hf). apply take_u8_inv in Ht as [_ Hr1]; [| done].
  destruct (_ =? 0xf9); [| destruct (_ =? 0xfa); [| destruct (_ =? 0xfb); [| done]]];
    apply bind_ok in Hf as ([b r2] & Hb & [= <- <-]%ok_inj); apply take_bytes_inv in Hb as (Hl & Hb & Hr2); try done;
    (split; [| done]).
  - apply f16_to_f64_u64.
  - apply f32_as_f64_u64.
  - apply from_be_u64; [done | lia].
Qed.

Record fields_ok (f : Fields) : Prop := {
  fo_node : forall n, f_node f = Some n -> item_ok (INode n);
  fo_ts : forall t, f_ts f = Some t -> item_ok (ITs t);
  fo_lat : forall v, f_lat f = Some v -> item_ok (ILat v);
  fo_lon : forall v, f_lon f = Some v -> item_ok (ILon v);
  fo_msg : forall m, f_msg f = Some m -> item_ok (IMsg m);
  fo_seq : forall q, f_seq f = Some q -> item_ok (ISeq q)
}.

Lemma set_item_ok f i : fields_ok f -> item_ok i -> fields_ok (set_item f i).
Proof. intros [? ? ? ? ? ?] Hi. split; destruct i; cbn [set_item f_node f_ts f_lat f_lon f_msg f_seq]; intros ? [= <-] || auto; auto. Qed.

(** One turn sets one field. *)
Lemma decode_pair_inv f r f' r' : decode_pair f r = Ok (f', r') -> bytes_ok r ->
  bytes_ok r' /\ exists i, item_ok i /\ f' = set_item f i.
Proof.
  intros Hd Hr. apply bind_ok in Hd as ([key r1] & Ht & Hd). apply text_inv in Ht as [_ Hr1]; [| done].
  repeat (destruct (bool_decide (key = _)); [destruct (bool_decide (is_Some _)); [done |];
    apply bind_ok in Hd as ([x r2] & Hx & Hd);
    first [apply text_inv in Hx as [Hxo Hr2]; [| done] | apply uint_inv in Hx as [Hxo Hr2]; [| done]
          | apply float_inv in Hx as [Hxo Hr2]; [| done]] |]); [.. | done].
  - apply bind_ok in Hd as (ty & _ & [= <- <-]%ok_inj). split; [done |]. by exists (IType ty).
  - destruct (valid_node_id x) eqn:E; [| done]. apply ok_inj in Hd as [= <- <-]. split; [done |]. by exists (INode x).
  - apply ok_inj in Hd as [= <- <-]. split; [done |]. by exists (ITs x).
  - destruct (coordinate_in_range x 90) eqn:E; [| done]. apply ok_inj in Hd as [= <- <-]. split; [done |]. by exists (ILat x).
  - destruct (coordinate_in_range x 180) eqn:E; [| done]. apply ok_inj in Hd as [= <- <-]. split; [done |]. by exists (ILon x).
  - apply ok_inj in Hd as [= <- <-]. split; [done |]. by exists (IMsg x).
  - destruct (u32_max <? x) eqn:E; [done |]. apply ok_inj in Hd as [= <- <-]. split; [done |]. exists (ISeq x). bool_to_prop.
    split; [cbn; width | done].
Qed.

Lemma decode_pairs_inv n : forall f r f' r', decode_pairs n f r = Ok (f', r') -> bytes_ok r -> fields_ok f -> fields_ok f'.
Proof.
  induction n as [|n IH]; intros f r f' r' Hd Hr Hf; cbn [decode_pairs] in Hd; [by apply ok_inj in Hd as [= <- <-] |].
  apply bind_ok in Hd as ([f1 r1] & H1 & Hd). apply decode_pair_inv in H1 as (Hr1 & i & Hi & ->); [| done].
  eapply IH; [exact Hd | done | by apply set_item_ok].
Qed.

Lemma decode_alert_ok b a : bytes_ok b -> decode_alert b = Ok a -> alert_ok a.
Proof.
  intros Hb Hd. apply bind_ok in Hd as ([[m n] r] & Hh & Hd). apply header_inv in Hh as [Hn Hr]; [| done].
  destruct (negb _); [done |]. destruct (16 <? n); [done |]. apply bind_ok in Hd as ([f r1] & Hp & Hd).
  assert (fields_ok f) as [H1 H2 H3 H4 H5 H6] by (eapply decode_pairs_inv; [exact Hp | done | by split]).
  unfold finish in Hd. destruct (f_type f) as [ty|], (f_node f) as [no|], (f_ts f) as [t|], (f_seq f) as [q|]; try done.
  destruct (Bool.eqb _ _) eqn:Eb; [| done]. cbn [negb] in Hd. destruct (negb _); [done |]. apply ok_inj in Hd as <-.
  split; cbn [alert_type node ts lat lon msg seq]; auto; [by apply H1 | by apply H2 | | by apply H6].
  apply eqb_prop in Eb. destruct (f_lat f), (f_lon f); cbn in Eb; split; intros [? ?]; by eauto.
Qed.

(** C28: SOS alerts survive their encodings.  A well-formed alert (a node address
    of eight hexadecimal groups, coordinates both present and in range or both
    absent, 64-bit time, 32-bit sequence) decodes from its wire encoding and
    from its canonical encoding, coordinates included to the bit whether they
    take two, four or eight octets; so the canonical octets, which the origin
    signs, determine the alert.  And whatever octets the decoder accepts, the
    value it returns is a well-formed alert in that sense. *)
Theorem sos_alert_roundtrip :
  (forall a : SosAlert, alert_ok a -> from_cbor (to_cbor a) = Ok a /\ from_cbor (to_canonical_cbor a) = Ok a) /\
  (forall a a' : SosAlert, alert_ok a -> alert_ok a' -> to_canonical_cbor a = to_canonical_cbor a' -> a = a') /\
  (forall (b : bytes) (a : SosAlert), bytes_ok b -> from_cbor b = Ok a -> alert_ok a).
Proof.
  split_and!; [intros a Ha; split; by apply decode_encode | | intros b a; apply decode_alert_ok].
  intros a a' Ha Ha' E. apply (f_equal decode_alert) in E. unfold to_canonical_cbor in E. rewrite !decode_encode in E by done.
  by apply ok_inj in E.
Qed.

End values.

(** ** An alert *)

#[local] Instance demo_nan : NanBits.
Proof. refine {| nan32 := fun _ => 0x7fc00000; nan64 := fun _ => 0x7ff8000000000000 |}; by intros. Defined.

(** 37.5 degrees north takes two octets, 122.419416 degrees west eight. *)
Definition demo_alert : SosAlert :=
  with_message (with_location (alert_new AtMedical (ascii "0200:0:0:0:0:0:0:1111") 1716742800 1)
    0x4042c00000000000 0xc05e9ad7b634dad3) (ascii "need evac").

Lemma demo_alert_ok : @alert_ok usize32 demo_alert.
Proof.
  split; cbn [node ts lat lon msg seq demo_alert with_message with_location alert_new].
  - repeat split; by vm_compute.
  - done.
  - intros ? [= <-]. by vm_compute.
  - intros ? [= <-]. by vm_compute.
  - by split; eauto.
  - intros ? [= <-]. repeat split; by vm_compute.
  - done.
Qed.

Lemma sos_alert_roundtrip_witness :
  @from_cbor demo_nan usize32 (@to_canonical_cbor demo_nan demo_alert) = Ok demo_alert /\
  length (@to_canonical_cbor demo_nan demo_alert) = 88%nat.
Proof.
  split; [| by vm_compute].
  exact (proj2 (proj1 (@sos_alert_roundtrip demo_nan usize32) demo_alert demo_alert_ok)).
Defined.

End SosCodec.
