(* ===== verification/SosOrigin.v ===== *)
(** * SOS origin signatures (lichen-link/src/sos_origin.rs)

    The signature that stays with an alert across relays, the transcript it
    covers, and the gate that accepts a sequence of an origin once.  The
    bounded gate decides as one that remembers every origin, as long as there
    are no more origins than it has room for. *)

From stdpp Require Import strings gmap.
From S2P Require Import Prelude Addr Schnorr Sos.
Import Addr Schnorr.
Open Scope Z_scope.

Module SosOrigin.

Definition SOS_ORIGIN_DOMAIN : bytes := ascii "LICHEN-SOS-ORIGIN-v1".
Definition SOS_ORIGIN_SIGNATURE_LENGTH : nat := 56.
Definition SOS_ORIGIN_GATE_DEFAULT_CAPACITY : nat := 256.

(** ** The gate *)

Record OriginSequenceTracker := { entries : list (bytes * Z); capacity : nat }.
Definition tracker_new (capacity : nat) : OriginSequenceTracker := {| entries := []; capacity := capacity |}.

Definition find_origin (origin : bytes) (l : list (bytes * Z)) : option (nat * (bytes * Z)) :=
  list_find (fun e => fst e = origin) l.

Definition accept (t : OriginSequenceTracker) (origin : bytes) (seq : Z) : bool * OriginSequenceTracker :=
  match find_origin origin (entries t) with
  | Some (pos, e) =>
      if seq <=? snd e then (false, t)
      else (true, {| entries := delete pos (entries t) ++ [(fst e, seq)]; capacity := capacity t |})
  | None =>
      if (capacity t =? 0)%nat then (false, t)
      else
        let l := if (capacity t <=? length (entries t))%nat then delete 0%nat (entries t) else entries t in
        (true, {| entries := l ++ [(origin, seq)]; capacity := capacity t |})
  end.

Definition last_seen (t : OriginSequenceTracker) (origin : bytes) : option Z :=
  (fun p => snd (snd p)) <$> find_origin origin (entries t).

(** ** Signatures *)

Record SosOriginSignature := { origin_sequence : Z; signature : bytes }.
Inductive SosOriginSignatureError := WrongLength.

Definition to_bytes (s : SosOriginSignature) : bytes := to_be 8 (origin_sequence s) ++ signature s.
Definition from_bytes (data : bytes) : result SosOriginSignatureError SosOriginSignature :=
  if negb (length data =? SOS_ORIGIN_SIGNATURE_LENGTH)%nat then Err WrongLength
  else Ok {| origin_sequence := from_be (take 8 data); signature := drop 8 data |}.

Definition origin_addr_from_pubkey (pubkey : bytes) : bytes := ygg_addr_from_pubkey pubkey.

Section signing.
Context `{Crypto}.

Definition transcript_input (origin_addr : bytes) (sequence : Z) (payload_cbor : bytes) : bytes :=
  SOS_ORIGIN_DOMAIN ++ origin_addr ++ to_be 8 sequence ++ payload_cbor.
Definition compute_sos_transcript (origin_addr : bytes) (sequence : Z) (payload_cbor : bytes) : bytes :=
  sha512 (transcript_input origin_addr sequence payload_cbor).

Definition sign_sos_origin (privkey : PrivateKey) (pubkey : PublicKey) (origin_addr : bytes) (sequence : Z)
    (payload_cbor : bytes) : SosOriginSignature :=
  let digest := compute_sos_transcript origin_addr sequence payload_cbor in
  {| origin_sequence := sequence; signature := schnorr_sign privkey pubkey digest |}.
Definition sign_sos_origin_for_key (privkey : PrivateKey) (pubkey : PublicKey) (sequence : Z) (payload_cbor : bytes) :
    SosOriginSignature :=
  sign_sos_origin privkey pubkey (origin_addr_from_pubkey pubkey) sequence payload_cbor.

Definition verify_sos_origin (pubkey : PublicKey) (origin_addr payload_cbor : bytes) (s : SosOriginSignature) : bool :=
  schnorr_verify pubkey (compute_sos_transcript origin_addr (origin_sequence s) payload_cbor) (signature s).

Definition verify_sos_origin_gated (tracker : OriginSequenceTracker) (pubkey : PublicKey) (origin_addr payload_cbor : bytes)
    (s : SosOriginSignature) : bool * OriginSequenceTracker :=
  if negb (verify_sos_origin pubkey origin_addr payload_cbor s) then (false, tracker)
  else accept tracker origin_addr (origin_sequence s).

(** ** Wire form and transcript *)

Record signature_ok (s : SosOriginSignature) : Prop := {
  so_sequence : is_u64 (origin_sequence s);
  so_length : length (signature s) = 48%nat
}.

(** The 56 octets are the signature, and nothing else parses. *)
Lemma signature_roundtrip (s : SosOriginSignature) (data : bytes) : signature_ok s -> bytes_ok data ->
  from_bytes (to_bytes s) = Ok s /\ (from_bytes data = Ok s <-> data = to_bytes s).
Proof.
  intros [Hq Hl] Hd. assert (from_bytes (to_bytes s) = Ok s) as Hr.
  { unfold from_bytes, to_bytes. rewrite length_app, length_to_be, Hl. cbn [Nat.eqb Nat.add SOS_ORIGIN_SIGNATURE_LENGTH negb].
    rewrite take_app_length', drop_app_length' by (by rewrite length_to_be). rewrite from_be_to_be_u64 by done.
    by destruct s. }
  split; [done |]. split; [| by intros ->]. unfold from_bytes. destruct (_ =? _)%nat eqn:E; [| done]. bool_to_prop.
  intros <-%ok_inj. unfold to_bytes. cbn [origin_sequence signature].
  pose proof (to_be_from_be (take 8 data) (Forall_take _ _ _ Hd)) as Hb.
  rewrite length_take, E in Hb. change (Nat.min 8 SOS_ORIGIN_SIGNATURE_LENGTH) with 8%nat in Hb. by rewrite Hb, take_drop.
Qed.

(** The transcript determines the origin, the sequence and the payload. *)
Lemma transcript_input_inj (o o' : bytes) (q q' : Z) (p p' : bytes) :
  length o = 16%nat -> length o' = 16%nat -> is_u64 q -> is_u64 q' ->
  transcript_input o q p = transcript_input o' q' p' -> o = o' /\ q = q' /\ p = p'.
Proof.
  intros Ho Ho' Hq Hq' E. unfold transcript_input in E. apply app_inv_head in E.
  apply app_inj_1 in E as [-> E]; [| congruence]. apply app_inj_1 in E as [E ->]; [| by rewrite !length_to_be].
  apply (f_equal from_be) in E. by rewrite !from_be_to_be_u64 in E.
Qed.

(** ** The gate against a complete memory *)

(** The origins the gate tracks are distinct, and within its capacity. *)
Record tracker_ok (t : OriginSequenceTracker) : Prop := {
  tk_nodup : NoDup (fst <$> entries t);
  tk_bound : (length (entries t) <= capacity t)%nat
}.

Lemma find_origin_some origin l pos e : find_origin origin l = Some (pos, e) -> l !! pos = Some e /\ fst e = origin.
Proof. intros H1. apply list_find_Some in H1 as (? & ? & _). done. Qed.
Lemma find_origin_none origin l : find_origin origin l = None -> origin ∉ (fst <$> l).
Proof.
  intros Hn. apply list_find_None in Hn. intros Hin. apply list_elem_of_fmap in Hin as (e & -> & He).
  rewrite Forall_forall in Hn. by apply (Hn e He).
Qed.
Lemma find_origin_elem origin q l : NoDup (fst <$> l) -> (origin, q) ∈ l ->
  exists pos, find_origin origin l = Some (pos, (origin, q)).
Proof.
  intros Hn Hin. destruct (find_origin origin l) as [[pos e]|] eqn:E.
  - apply find_origin_some in E as [Hp He]. exists pos. do 2 f_equal. apply list_elem_of_lookup in Hin as [i Hi].
    assert (pos = i) as ->.
    { eapply NoDup_lookup; [exact Hn | |]; rewrite list_lookup_fmap; [rewrite Hp | rewrite Hi]; cbn; [by rewrite He | done]. }
    congruence.
  - destruct (find_origin_none _ _ E). apply list_elem_of_fmap. by exists (origin, q).
Qed.

Lemma delete_perm {A} (l : list A) pos e : l !! pos = Some e -> l ≡ₚ e :: delete pos l.
Proof. intros Hp. by apply delete_Permutation. Qed.

Lemma accept_ok t origin seq : tracker_ok t -> tracker_ok (snd (accept t origin seq)).
Proof.
  intros [Hn Hb]. unfold accept. destruct (find_origin origin (entries t)) as [[pos e]|] eqn:E.
  - destruct (seq <=? snd e); [by split |]. apply find_origin_some in E as [Hp He].
    pose proof (delete_perm _ _ _ Hp) as Hperm. split; cbn.
    + rewrite fmap_app. cbn. rewrite Hperm in Hn. rewrite fmap_cons in Hn. by rewrite (comm (++)).
    + rewrite length_app. cbn. apply Permutation_length in Hperm. cbn in Hperm. lia.
  - destruct (capacity t =? 0)%nat eqn:E0; [by split |]. bool_to_prop. apply find_origin_none in E.
    assert (forall l, (forall x, x ∈ l -> x ∈ (fst <$> entries t)) -> NoDup l -> NoDup (l ++ [origin])) as Hadd.
    { intros l Hsub Hl. apply NoDup_app. split_and!; [done | | apply NoDup_singleton].
      intros x Hx ->%list_elem_of_singleton. by apply E, Hsub. }
    destruct (capacity t <=? _)%nat eqn:Ec; bool_to_prop; split; cbn; rewrite ?fmap_app, ?length_app; cbn.
    + destruct (entries t) as [|x l]; [cbn in *; lia |]. cbn in *. apply NoDup_cons in Hn as [_ Hn].
      apply Hadd; [| done]. intros y Hy. by apply list_elem_of_further.
    + destruct (entries t) as [|x l]; cbn in *; lia.
    + by apply Hadd.
    + lia.
Qed.

(** The gate remembers the highest accepted sequence of every origin. *)
Definition remembers (t : OriginSequenceTracker) (h : list (bytes * Z)) : Prop :=
  (forall o q, (o, q) ∈ h -> exists q', (o, q') ∈ entries t /\ q <= q') /\
  (forall o q, (o, q) ∈ entries t -> (o, q) ∈ h).

Definition origins (h : list (bytes * Z)) : gset bytes := list_to_set (fst <$> h).

Lemma room_left (l h : list (bytes * Z)) (origin : bytes) : NoDup (fst <$> l) -> (forall o q, (o, q) ∈ l -> (o, q) ∈ h) ->
  origin ∉ (fst <$> l) -> (length l < size ({[origin]} ∪ origins h))%nat.
Proof.
  intros Hn Hsub Ho. assert (length l < size ({[origin]} ∪ origins l))%nat as Hl.
  { rewrite size_union, size_singleton; [| unfold origins; set_solver].
    unfold origins. rewrite size_list_to_set by done. rewrite length_fmap. lia. }
  eapply Nat.lt_le_trans; [exact Hl |]. apply subseteq_size. apply union_mono_l. unfold origins. intros x.
  rewrite !elem_of_list_to_set, !list_elem_of_fmap. intros ([o q] & -> & Hin). exists (o, q). by split; [| apply Hsub].
Qed.

Lemma accept_remembers t h origin seq r t' :
  tracker_ok t -> remembers t h -> (size ({[origin]} ∪ origins h) <= capacity t)%nat ->
  accept t origin seq = (r, t') ->
  (r = true <-> forall q, (origin, q) ∈ h -> q < seq) /\
  remembers t' (if r then h ++ [(origin, seq)] else h).
Proof.
  intros [Hn Hb] [Hm1 Hm2] Hroom. unfold accept. destruct (find_origin origin (entries t)) as [[pos [o' q']]|] eqn:E.
  - apply find_origin_some in E as [Hp He]. cbn in He. subst o'. cbn [snd fst].
    assert ((origin, q') ∈ entries t) as Hin by (by eapply list_elem_of_lookup_2).
    pose proof (delete_perm _ _ _ Hp) as Hperm.
    assert (forall q, (origin, q) ∈ entries t -> q = q') as Huniq.
    { intros q Hq. destruct (find_origin_elem origin q _ Hn Hq) as [p1 H1].
      destruct (find_origin_elem origin q' _ Hn Hin) as [p2 H2]. congruence. }
    destruct (seq <=? q') eqn:Es; intros [= <- <-]; bool_to_prop.
    + split; [| done]. split; [done |]. intros Hall. pose proof (Hall q' (Hm2 _ _ Hin)). lia.
    + assert (forall q, (origin, q) ∈ h -> q < seq) as Hall.
      { intros q Hq. destruct (Hm1 _ _ Hq) as (q2 & Hq2 & Hle). apply Huniq in Hq2 as ->. lia. }
      split; [done |]. split; cbn [entries].
      * intros o q Hq. apply elem_of_app in Hq as [Hq | [= -> ->]%list_elem_of_singleton].
        -- destruct (decide (o = origin)) as [-> |Hne].
           ++ exists seq. split; [apply elem_of_app; right; by apply list_elem_of_singleton | specialize (Hall q Hq); lia].
           ++ destruct (Hm1 _ _ Hq) as (q2 & Hq2 & Hle). exists q2. split; [| done]. apply elem_of_app. left.
              rewrite Hperm in Hq2. apply elem_of_cons in Hq2 as [[= -> _] | ?]; done.
        -- exists seq. split; [apply elem_of_app; right; by apply list_elem_of_singleton | lia].
      * intros o q [Hq | [= -> ->]%list_elem_of_singleton]%elem_of_app; apply elem_of_app; [left | right; by apply list_elem_of_singleton].
        apply Hm2. rewrite Hperm. by apply list_elem_of_further.
  - apply find_origin_none in E. pose proof (room_left _ _ _ Hn Hm2 E) as Hlt.
    destruct (capacity t =? 0)%nat eqn:E0; bool_to_prop; [lia |].
    destruct (capacity t <=? _)%nat eqn:Ec; bool_to_prop; [lia |]. intros [= <- <-]. split.
    + split; [| done]. intros _ q Hq. destruct (Hm1 _ _ Hq) as (q2 & Hq2 & _). destruct E.
      apply list_elem_of_fmap. by exists (origin, q2).
    + split; cbn [entries]; intros o q [Hq | [= -> ->]%list_elem_of_singleton]%elem_of_app.
      * destruct (Hm1 _ _ Hq) as (q2 & Hq2 & Hle). exists q2. split; [apply elem_of_app; by left | done].
      * exists seq. split; [apply elem_of_app; right; by apply list_elem_of_singleton | lia].
      * apply elem_of_app. left. by apply Hm2.
      * apply elem_of_app. right. by apply list_elem_of_singleton.
Qed.

(** ** Runs of the gate *)

(** A received alert: the key it is checked with, its origin, payload and signature. *)
Record alert := { al_key : PublicKey; al_origin : bytes; al_payload : bytes; al_signature : SosOriginSignature }.

Fixpoint gate_run (t : OriginSequenceTracker) (ms : list alert) : list bool * OriginSequenceTracker :=
  match ms with
  | [] => ([], t)
  | m :: ms =>
      let '(r, t) := verify_sos_origin_gated t (al_key m) (al_origin m) (al_payload m) (al_signature m) in
      let '(rs, t) := gate_run t ms in (r :: rs, t)
  end.

(** The specification keeps every accepted pair, and accepts a verified alert
    whose sequence is above all those accepted from its origin. *)
Definition advances (h : list (bytes * Z)) (origin : bytes) (seq : Z) : bool :=
  forallb (fun e => negb (bool_decide (fst e = origin)) || (snd e <? seq)) h.
Fixpoint memory_run (h : list (bytes * Z)) (ms : list alert) : list bool :=
  match ms with
  | [] => []
  | m :: ms =>
      let q := origin_sequence (al_signature m) in
      let r := verify_sos_origin (al_key m) (al_origin m) (al_payload m) (al_signature m) && advances h (al_origin m) q in
      r :: memory_run (if r then h ++ [(al_origin m, q)] else h) ms
  end.

Lemma advances_spec h origin seq : advances h origin seq = true <-> forall q, (origin, q) ∈ h -> q < seq.
Proof.
  unfold advances. rewrite forallb_forall. split.
  - intros Ha q Hq. apply list_elem_of_In, Ha in Hq. cbn in Hq. rewrite bool_decide_true in Hq by done. cbn in Hq. lia.
  - intros Ha [o q] Hq%list_elem_of_In. cbn. destruct (bool_decide_reflect (o = origin)) as [-> |]; [| done].
    apply Ha in Hq. cbn. by apply Z.ltb_lt.
Qed.

Definition alert_origins (ms : list alert) : gset bytes := list_to_set (al_origin <$> ms).

Lemma accept_capacity t origin seq : capacity (snd (accept t origin seq)) = capacity t.
Proof. unfold accept. destruct (find_origin _ _) as [[??]|]; repeat case_match; done. Qed.

Lemma gate_run_refines ms : forall t h, tracker_ok t -> remembers t h ->
  (size (alert_origins ms ∪ origins h) <= capacity t)%nat ->
  fst (gate_run t ms) = memory_run h ms.
Proof.
  induction ms as [|m ms IH]; intros t h Ht Hr Hroom; [done |]. cbn [gate_run memory_run].
  assert (forall ms', alert_origins ms' ∪ origins h ⊆ alert_origins (m :: ms') ∪ origins h) as Hmono.
  { intros ms'. unfold alert_origins. cbn. set_solver. }
  unfold verify_sos_origin_gated. destruct (verify_sos_origin _ _ _ _); cbn [negb andb].
  - destruct (accept t (al_origin m) (origin_sequence (al_signature m))) as [r t'] eqn:E.
    assert (size ({[al_origin m]} ∪ origins h) <= capacity t)%nat as Hm.
    { etrans; [| exact Hroom]. apply subseteq_size. unfold alert_origins. cbn. set_solver. }
    destruct (accept_remembers _ _ _ _ _ _ Ht Hr Hm E) as (Hdec & Hr').
    assert (r = advances h (al_origin m) (origin_sequence (al_signature m))) as Hra.
    { apply eq_bool_prop_intro. rewrite !Is_true_true. by rewrite Hdec, advances_spec. }
    rewrite <- Hra. pose proof (accept_ok t (al_origin m) (origin_sequence (al_signature m)) Ht) as Ht'.
    pose proof (accept_capacity t (al_origin m) (origin_sequence (al_signature m))) as Hc. rewrite E in Ht', Hc. cbn in Ht', Hc.
    specialize (IH t' (if r then h ++ [(al_origin m, origin_sequence (al_signature m))] else h) Ht' Hr').
    destruct (gate_run t' ms) as [rs t2]. cbn [fst] in *. f_equal. apply IH. rewrite Hc. etrans; [| exact Hroom].
    apply subseteq_size. unfold alert_origins, origins. destruct r; [rewrite fmap_app |]; cbn; set_solver.
  - specialize (IH t h Ht Hr). destruct (gate_run t ms) as [rs t2]. cbn [fst] in *. f_equal. apply IH.
    etrans; [| exact Hroom]. apply subseteq_size, Hmono.
Qed.

Lemma gate_run_ok ms : forall t, tracker_ok t -> tracker_ok (snd (gate_run t ms)) /\ capacity (snd (gate_run t ms)) = capacity t.
Proof.
  induction ms as [|m ms IH]; intros t Ht; [done |]. cbn [gate_run]. unfold verify_sos_origin_gated.
  destruct (verify_sos_origin _ _ _ _); cbn [negb].
  - pose proof (accept_ok t (al_origin m) (origin_sequence (al_signature m)) Ht) as Ht'.
    pose proof (accept_capacity t (al_origin m) (origin_sequence (al_signature m))) as Hc.
    destruct (accept t _ _) as [r t']. cbn in Ht', Hc. destruct (IH t' Ht') as [H1 H2]. destruct (gate_run t' ms). cbn in *.
    split; congruence.
  - specialize (IH t Ht). by destruct (gate_run t ms).
Qed.

Lemma tracker_new_ok n : tracker_ok (tracker_new n).
Proof. split; cbn; [constructor | lia]. Qed.

(** C30: the gate on SOS origins, which keeps a bounded list of origins, decides as
    one that remembers every accepted alert, on any sequence of alerts with at
    most as many origins as its capacity: it accepts exactly the alerts whose
    signature verifies and whose sequence is above every one accepted from that
    origin, so no alert is accepted twice.  On any sequence whatever it holds at most
    [capacity] origins, no origin twice.  An alert signed with [sign_sos_origin_for_key]
    verifies under its key and the address of that key. *)
Theorem sos_origin_gate `{!CryptoLaws} (n : nat) (ms : list alert) :
  ((size (alert_origins ms) <= n)%nat -> fst (gate_run (tracker_new n) ms) = memory_run [] ms) /\
  (length (entries (snd (gate_run (tracker_new n) ms))) <= n)%nat /\
  NoDup (fst <$> entries (snd (gate_run (tracker_new n) ms))) /\
  (forall seed seq payload, let k := derive_keypair seed in
    verify_sos_origin (snd k) (origin_addr_from_pubkey (snd k)) payload (sign_sos_origin_for_key (fst k) (snd k) seq payload) = true).
Proof.
  destruct (gate_run_ok ms (tracker_new n) (tracker_new_ok n)) as [[Hn Hb] Hc]. rewrite Hc in Hb.
  split; [| split; [exact Hb | split; [exact Hn |]]].
  - intros Hs. apply gate_run_refines; [apply tracker_new_ok | by split; intros ?? Hin%not_elem_of_nil |].
    replace (alert_origins ms ∪ origins []) with (alert_origins ms); [done |]. unfold origins. set_solver.
  - intros seed seq payload k. apply sign_verify.
Qed.

End signing.

(** Two origins, a replay, a forgery and an older sequence. *)
Definition demo_alert `{Crypto} (seed : Seed) (seq claimed : Z) : alert :=
  let '(sk, pk) := derive_keypair seed in
  {| al_key := pk; al_origin := origin_addr_from_pubkey pk; al_payload := [160];
     al_signature := {| origin_sequence := claimed; signature := signature (sign_sos_origin_for_key sk pk seq [160]) |} |}.
Definition demo_alerts : list alert :=
  [demo_alert (H := toy_crypto) [1] 5 5; demo_alert (H := toy_crypto) [1] 5 5; demo_alert (H := toy_crypto) [1] 5 6;
   demo_alert (H := toy_crypto) [2] 3 3; demo_alert (H := toy_crypto) [1] 4 4; demo_alert (H := toy_crypto) [1] 7 7].

Lemma sos_origin_gate_witness :
  (size (alert_origins demo_alerts) <= 2)%nat /\
  fst (gate_run (H := toy_crypto) (tracker_new 2) demo_alerts) = [true; false; false; true; false; true].
Proof.
  destruct (sos_origin_gate (H := toy_crypto) (H0 := toy_crypto_laws) 2 demo_alerts) as [Hg _].
  assert (size (alert_origins demo_alerts) <= 2)%nat as Hs by (apply Nat.leb_le; vm_compute; reflexivity).
  split; [exact Hs |]. rewrite (Hg Hs). vm_compute. reflexivity.
Defined.

(** Past its capacity the gate forgets: with room for one origin an alert is
    accepted again once another origin was. *)
Example evicted_origin_replays :
  fst (gate_run (H := toy_crypto) (tracker_new 1)
    [demo_alert (H := toy_crypto) [1] 5 5; demo_alert (H := toy_crypto) [2] 3 3; demo_alert (H := toy_crypto) [1] 5 5]) =
  [true; true; true].
Proof. vm_compute. reflexivity. Qed.

End SosOrigin.
