(* ===== verification/TimeSync.v ===== *)
(** * Time sources and slot timing of the link layer

    time_source.rs, precedence.rs, failover.rs, epoch_floor.rs, monotonic.rs,
    wall_clock.rs, time_fallback.rs, dio_time.rs, data_timing.rs and
    tdma_clock.rs of lichen-link/src: which source sets the wall clock, what a
    consumer may stamp its data with, the DIO time option, and when a node may
    transmit in its slot. *)

From stdpp Require Import strings.
From S2P Require Import Prelude Sos.
Import Utf8.
Open Scope Z_scope.

Module TimeSource.

(** ** time_source.rs *)

Inductive TimeSourceClass := Gnss | Network | LocalClient | Manual | InternalRtc | Monotonic.
#[export] Instance TimeSourceClass_eq_dec : EqDecision TimeSourceClass.
Proof. solve_decision. Defined.

Definition as_str (c : TimeSourceClass) : bytes :=
  match c with
  | Gnss => ascii "GNSS"
  | Network => ascii "Network"
  | LocalClient => ascii "Local-client"
  | Manual => ascii "Manual/static"
  | InternalRtc => ascii "Internal RTC"
  | Monotonic => ascii "Monotonic"
  end.
Definition from_str (value : bytes) : option TimeSourceClass :=
  if bool_decide (value = ascii "GNSS") then Some Gnss
  else if bool_decide (value = ascii "Network") then Some Network
  else if bool_decide (value = ascii "Local-client") then Some LocalClient
  else if bool_decide (value = ascii "Manual/static") then Some Manual
  else if bool_decide (value = ascii "Internal RTC") then Some InternalRtc
  else if bool_decide (value = ascii "Monotonic") then Some Monotonic
  else None.

Definition can_establish_wall_clock (c : TimeSourceClass) : bool :=
  match c with Monotonic => false | _ => true end.
Definition ALL : list TimeSourceClass := [Gnss; Network; LocalClient; Manual; InternalRtc; Monotonic].

(** ** precedence.rs *)

(** The array of six classes, as a list of that length. *)
Record SourcePrecedencePolicy := { order : list TimeSourceClass }.
Inductive PrecedenceError := NotAPermutation.
Definition policy_default : SourcePrecedencePolicy := {| order := ALL |}.

Definition class_index (c : TimeSourceClass) : nat :=
  match c with
  | Gnss => 0
  | Network => 1
  | LocalClient => 2
  | Manual => 3
  | InternalRtc => 4
  | Monotonic => 5
  end.
Definition class_eq (a b : TimeSourceClass) : bool := (class_index a =? class_index b)%nat.

Fixpoint new_loop (l : list TimeSourceClass) (seen : list bool) : bool :=
  match l with
  | [] => true
  | c :: l =>
      let idx := class_index c in
      if nth idx seen false then false else new_loop l (<[idx := true]> seen)
  end.
Definition policy_new (l : list TimeSourceClass) : result PrecedenceError SourcePrecedencePolicy :=
  if new_loop l (replicate 6 false) then Ok {| order := l |} else Err NotAPermutation.

Fixpoint rank_loop (l : list TimeSourceClass) (c : TimeSourceClass) (i : nat) : nat :=
  match l with
  | [] => 6
  | x :: l => if class_eq x c then i else rank_loop l c (S i)
  end.
Definition rank (p : SourcePrecedencePolicy) (c : TimeSourceClass) : nat := rank_loop (order p) c 0.
Definition preferred (p : SourcePrecedencePolicy) (left right : TimeSourceClass) : TimeSourceClass :=
  if (rank p left <=? rank p right)%nat then left else right.

(** ** failover.rs *)

Definition select_step (p : SourcePrecedencePolicy) (best : option TimeSourceClass) (c : TimeSourceClass) :
    option TimeSourceClass :=
  if can_establish_wall_clock c then
    Some match best with None => c | Some cur => preferred p cur c end
  else best.
Definition select_wall_clock_source (p : SourcePrecedencePolicy) (available : list TimeSourceClass) : option TimeSourceClass :=
  foldl (select_step p) None available.

(** ** Correctness *)

Lemma as_str_roundtrip (c : TimeSourceClass) (s : bytes) : from_str (as_str c) = Some c /\ (from_str s = Some c -> s = as_str c).
Proof.
  split; [by destruct c |]. unfold from_str. repeat case_bool_decide; intros [= <-]; done.
Qed.

Lemma class_eq_spec (a b : TimeSourceClass) : class_eq a b = true <-> a = b.
Proof. split; [by destruct a, b | intros ->; by destruct b]. Qed.
#[local] Instance class_index_inj : Inj (=) (=) class_index.
Proof. intros a b E. apply class_eq_spec. unfold class_eq. by rewrite E, Nat.eqb_refl. Qed.

(** The loop of [new] asks for classes it has not marked before. *)
Lemma new_loop_spec (l : list TimeSourceClass) : forall (seen : list bool), length seen = 6%nat ->
  new_loop l seen = true <-> NoDup l /\ (forall c, c ∈ l -> nth (class_index c) seen false = false).
Proof.
  assert (forall c, class_index c < 6)%nat as Hlt by (intros []; cbn; lia).
  induction l as [|c l IH]; intros seen Hs; cbn [new_loop].
  - split; [| done]. intros _. split; [constructor |]. by intros c ?%not_elem_of_nil.
  - rewrite NoDup_cons. destruct (nth (class_index c) seen false) eqn:E.
    + split; [done |]. intros [_ Hc]. specialize (Hc c ltac:(by left)). congruence.
    + rewrite IH by (by rewrite length_insert).
      assert (forall d, nth (class_index d) (<[class_index c:=true]> seen) false =
        if decide (d = c) then true else nth (class_index d) seen false) as Hn.
      { intros d. rewrite !nth_lookup. destruct (decide (d = c)) as [-> |Hne].
        - by rewrite list_lookup_insert_eq by (rewrite Hs; apply Hlt).
        - rewrite list_lookup_insert_ne; [done |]. by intros E2%(inj class_index). }
      split.
      * intros [Hd Hm]. split_and!; [| done |].
        -- intros Hin. specialize (Hm c Hin). rewrite Hn, decide_True in Hm; done.
        -- intros d [-> | Hin]%elem_of_cons; [done |]. specialize (Hm d Hin). rewrite Hn in Hm. by case_decide.
      * intros ([Hni Hd] & Hm). split; [done |]. intros d Hin. rewrite Hn, decide_False by congruence. apply Hm. by right.
Qed.

(** [new] accepts the rankings of all six classes, each once. *)
Lemma policy_new_spec (l : list TimeSourceClass) : length l = 6%nat ->
  (is_ok (policy_new l) = true <-> l ≡ₚ ALL).
Proof.
  intros Hl. unfold policy_new. assert (new_loop l (replicate 6 false) = true <-> NoDup l) as Hnew.
  { rewrite new_loop_spec by done. split; [by intros [? _] |]. intros Hd. split; [done |]. by intros []. }
  assert (NoDup ALL) as Ha by (apply (bool_decide_unpack _); by vm_compute).
  assert (is_ok (if new_loop l (replicate 6 false) then Ok {| order := l |} else Err NotAPermutation) =
    new_loop l (replicate 6 false)) as -> by (by destruct (new_loop _ _)).
  rewrite Hnew. split; [| by intros ->]. intros Hd. apply submseteq_length_Permutation; [| by rewrite Hl].
  apply NoDup_submseteq; [done |]. intros [] _; apply (bool_decide_unpack _); by vm_compute.
Qed.

Lemma rank_loop_shift (l : list TimeSourceClass) c : forall i, c ∈ l -> exists k, rank_loop l c i = (i + k)%nat /\
  l !! k = Some c /\ forall j, (j < k)%nat -> l !! j <> Some c.
Proof.
  induction l as [|x l IH]; intros i Hc; [by apply not_elem_of_nil in Hc |]. cbn [rank_loop]. destruct (class_eq x c) eqn:E.
  - apply class_eq_spec in E as ->. exists 0%nat. split_and!; [lia | done |]. lia.
  - assert (x <> c) as Hne by (intros Hx%class_eq_spec; congruence).
    apply elem_of_cons in Hc as [-> |Hc]; [done |]. destruct (IH (S i) Hc) as (k & Hr & Hk & Hj).
    exists (S k). split_and!; [rewrite Hr; lia | done |]. intros [|j] Hlt; cbn; [congruence | apply Hj; lia].
Qed.
Lemma rank_lookup (p : SourcePrecedencePolicy) c : c ∈ order p -> order p !! rank p c = Some c.
Proof. intros Hc. destruct (rank_loop_shift _ _ 0 Hc) as (k & Hr & Hk & _). unfold rank. by rewrite Hr. Qed.

(** The fold keeps the best class seen so far. *)
Lemma select_fold (p : SourcePrecedencePolicy) (l : list TimeSourceClass) : forall best,
  (forall b, best = Some b -> can_establish_wall_clock b = true) ->
  match foldl (select_step p) best l with
  | None => best = None /\ forall c, c ∈ l -> can_establish_wall_clock c = false
  | Some r => can_establish_wall_clock r = true /\ (r ∈ l \/ best = Some r) /\
      (forall c, c ∈ l -> can_establish_wall_clock c = true -> (rank p r <= rank p c)%nat) /\
      (forall b, best = Some b -> (rank p r <= rank p b)%nat)
  end.
Proof.
  induction l as [|x l IH]; intros best Hb; cbn [foldl].
  - destruct best as [b|].
    + split_and!; [by apply Hb | by right | by intros c ?%not_elem_of_nil | by intros b' [= ->]].
    + split; [done |]. by intros c ?%not_elem_of_nil.
  - specialize (IH (select_step p best x)). unfold select_step in *. destruct (can_establish_wall_clock x) eqn:Ex.
    + set (y := match best with None => x | Some cur => preferred p cur x end) in *.
      assert (can_establish_wall_clock y = true /\ (rank p y <= rank p x)%nat /\ (y = x \/ best = Some y) /\
        (forall b, best = Some b -> (rank p y <= rank p b)%nat)) as (Hy & Hyx & Hyin & Hyb).
      { subst y. destruct best as [b|]; [| by split_and!; [| | left |]].
        unfold preferred. destruct (_ <=? _)%nat eqn:E; bool_to_prop; split_and!;
          [by apply Hb | done | by right | by intros ? [= <-] | done | done | by left | intros ? [= <-]; lia]. }
      destruct (foldl _ (Some y) l) as [r|].
      * destruct IH as (Hr & Hin & Hle & Hle'); [by intros b [= <-] |]. specialize (Hle' y eq_refl). split_and!; [done | | |].
        -- destruct Hin as [Hin | [= ->]]; [left; by right |]. destruct Hyin as [-> | ?]; [left; by left | by right].
        -- intros c [-> | Hc]%elem_of_cons Hec; [lia | by apply Hle].
        -- intros b Hbb. specialize (Hyb b Hbb). lia.
      * by destruct IH as [? _]; [intros b [= <-] |].
    + destruct (foldl _ best l) as [r|].
      * destruct IH as (Hr & Hin & Hle & Hle'); [done |]. split_and!; [done | | | done].
        -- destruct Hin; [left; by right | by right].
        -- intros c [-> | Hc]%elem_of_cons Hec; [congruence | by apply Hle].
      * destruct IH as [-> Hall]; [done |]. split; [done |]. intros c [-> | Hc]%elem_of_cons; [done | by apply Hall].
Qed.

(** failover picks the right source.  For a policy that [new] accepts, which are
    exactly the rankings of the six classes without repetition, the selected
    source is the first class of the ranking that is available and can set a
    wall clock, whatever the order the available ones are listed in; there is
    none exactly when no available class can, and monotonic uptime never wins. *)
Lemma failover_selects_best (l available : list TimeSourceClass) (p : SourcePrecedencePolicy) :
  length l = 6%nat -> policy_new l = Ok p ->
  l ≡ₚ ALL /\
  select_wall_clock_source p available =
    snd <$> list_find (fun c => c ∈ available /\ can_establish_wall_clock c = true) l.
Proof.
  intros Hl Hp. assert (l ≡ₚ ALL) as Hperm by (apply policy_new_spec; [done | by rewrite Hp]). split; [done |].
  assert (order p = l) as Ho by (unfold policy_new in Hp; destruct (new_loop _ _); by simplify_eq).
  assert (forall c, c ∈ l) as Hall.
  { intros c. rewrite Hperm. destruct c; apply (bool_decide_unpack _); by vm_compute. }
  unfold select_wall_clock_source. pose proof (select_fold p available None ltac:(done)) as Hsel.
  destruct (foldl _ None available) as [r|]; destruct (list_find _ l) as [[k c]|] eqn:Ef; cbn.
  - destruct Hsel as (Hr & [Hin | ?] & Hle & _); [| done]. apply list_find_Some in Ef as (Hk & [Hc Hec] & Hfirst).
    f_equal. pose proof (Hle c Hc Hec) as Hrc. rewrite <- Ho in Hall, Hk, Hfirst. pose proof (rank_lookup p r (Hall r)) as Hkr.
    destruct (rank_loop_shift (order p) c 0 (Hall c)) as (k' & Hrk & Hk' & Hj). fold (rank p c) in Hrk. cbn in Hrk.
    destruct (decide (rank p r < k)%nat) as [Hlt|Hge]; [by destruct (Hfirst _ _ Hkr Hlt) |].
    destruct (decide (k < k')%nat) as [Hlt|]; [by destruct (Hj k Hlt) |].
    assert (rank p r = k) as Hk2 by lia. congruence.
  - apply list_find_None in Ef. destruct Hsel as (Hr & [Hin | ?] & _); [| done]. rewrite Forall_forall in Ef.
    by destruct (Ef r (Hall r)).
  - apply list_find_Some in Ef as (_ & [Hc Hec] & _). destruct Hsel as [_ Hn]. rewrite (Hn c Hc) in Hec. done.
  - done.
Qed.

End TimeSource.

Module WallClock.
Import TimeSource.

(** ** epoch_floor.rs *)

Inductive ProvisionEpochStatus := Missing | Accepted | Unauthenticated | BeforeBuild | BeyondLead.
Record EpochFloorResult := { floor : Z; provision_status : ProvisionEpochStatus }.
Inductive EpochFloorError := ZeroBuildEpoch.

Definition status_str (s : ProvisionEpochStatus) : bytes :=
  match s with
  | Missing => ascii "missing"
  | Accepted => ascii "accepted"
  | Unauthenticated => ascii "unauthenticated"
  | BeforeBuild => ascii "before-build"
  | BeyondLead => ascii "beyond-lead"
  end.
Definition accepts (r : EpochFloorResult) (unix : Z) : bool := floor r <=? unix.

Definition evaluate_epoch_floor (firmware_build_epoch : Z) (board_provision_epoch : option Z) (authenticated : bool)
    (max_provision_lead_s : Z) : result EpochFloorError EpochFloorResult :=
  if firmware_build_epoch =? 0 then Err ZeroBuildEpoch
  else
    let build := firmware_build_epoch in
    match board_provision_epoch with
    | None => Ok {| floor := build; provision_status := Missing |}
    | Some provision =>
        if negb authenticated then Ok {| floor := build; provision_status := Unauthenticated |}
        else if provision <? build then Ok {| floor := build; provision_status := BeforeBuild |}
        else if max_provision_lead_s <? saturating_sub provision build then
          Ok {| floor := build; provision_status := BeyondLead |}
        else Ok {| floor := provision; provision_status := Accepted |}
    end.

(** ** monotonic.rs *)

Record MonotonicUptime := { last : option Z }.
Inductive MonotonicError := Regression.
Definition uptime_new : MonotonicUptime := {| last := None |}.
Definition observe (u : MonotonicUptime) (ticks : Z) : result MonotonicError Z * MonotonicUptime :=
  match last u with
  | Some prev => if ticks <? prev then (Err Regression, u) else (Ok ticks, {| last := Some ticks |})
  | None => (Ok ticks, {| last := Some ticks |})
  end.

(** ** wall_clock.rs *)

Record WallClockValidity := { valid : bool; source : option TimeSourceClass }.
Inductive WallClockError := SourceCannotEstablish.
Definition clock_new : WallClockValidity := {| valid := false; source := None |}.
Definition establish (w : WallClockValidity) (s : TimeSourceClass) : result WallClockError WallClockValidity :=
  if negb (can_establish_wall_clock s) then Err SourceCannotEstablish
  else Ok {| valid := true; source := Some s |}.
Definition invalidate (w : WallClockValidity) : WallClockValidity := {| valid := false; source := None |}.

(** ** time_fallback.rs *)

Inductive ConsumerTimestamp :=
  | UnixSeconds (unix : Z) (source : TimeSourceClass)
  | MonotonicFallback (ticks : Z).
Definition wall_clock_valid (t : ConsumerTimestamp) : bool :=
  match t with UnixSeconds _ _ => true | MonotonicFallback _ => false end.
Definition consumer_timestamp (clock : WallClockValidity) (unix uptime_ticks : Z) : ConsumerTimestamp :=
  match source clock with
  | Some s => if valid clock then UnixSeconds unix s else MonotonicFallback uptime_ticks
  | None => MonotonicFallback uptime_ticks
  end.

(** ** Correctness *)

(** The floor is never below the firmware's, and above it only by an
    authenticated provision epoch within the lead. *)
Lemma epoch_floor_bounds build provision auth lead r :
  evaluate_epoch_floor build provision auth lead = Ok r ->
  build <= floor r /\ (forall unix, accepts r unix = true -> build <= unix) /\
  (floor r <> build -> auth = true /\ provision = Some (floor r) /\ floor r - build <= lead).
Proof.
  unfold evaluate_epoch_floor, accepts, saturating_sub. destruct (build =? 0); [done |].
  destruct provision as [p|]; [| intros <-%ok_inj; cbn; split_and!; intros; lia].
  destruct auth; cbn [negb]; [| intros <-%ok_inj; cbn; split_and!; intros; lia].
  destruct (p <? build) eqn:E1; [intros <-%ok_inj; cbn; split_and!; intros; lia |].
  destruct (lead <? _) eqn:E2; intros <-%ok_inj; cbn; bool_to_prop; split_and!; try (intros; lia).
  intros _. split_and!; [done | done | lia].
Qed.

(** What happens to a node's clock: a source is tried, or the clock is lost. *)
Inductive clock_event := Establish (s : TimeSourceClass) | Invalidate.
Definition clock_step (w : WallClockValidity) (e : clock_event) : WallClockValidity :=
  match e with
  | Establish s => match establish w s with Ok w' => w' | Err _ => w end
  | Invalidate => invalidate w
  end.
(** The source that holds after a run of events, read backwards: the last one
    that could set the clock, unless the clock was lost after it. *)
Fixpoint holding (rev_events : list clock_event) : option TimeSourceClass :=
  match rev_events with
  | [] => None
  | Invalidate :: _ => None
  | Establish s :: es => if can_establish_wall_clock s then Some s else holding es
  end.

Lemma clock_run (es : list clock_event) :
  let w := foldl clock_step clock_new es in source w = holding (rev es) /\ valid w = bool_decide (is_Some (source w)).
Proof.
  induction es as [|e es IH] using rev_ind; [done |]. cbn in *. rewrite foldl_snoc, rev_app_distr. cbn.
  destruct e as [s|]; [| done]. cbn. unfold establish. destruct (can_establish_wall_clock s); cbn; [| exact IH].
  done.
Qed.

(** A consumer stamps Unix time exactly while a source holds, with its name. *)
Lemma consumer_never_unsynchronized (es : list clock_event) (unix ticks : Z) :
  consumer_timestamp (foldl clock_step clock_new es) unix ticks =
  match holding (rev es) with Some s => UnixSeconds unix s | None => MonotonicFallback ticks end.
Proof.
  destruct (clock_run es) as [Hs Hv]. unfold consumer_timestamp. rewrite Hs, Hv, Hs. by destruct (holding (rev es)).
Qed.

(** The accepted ticks of a power cycle never decrease. *)
Lemma uptime_never_decreases (u : MonotonicUptime) (ticks : Z) : let '(r, u') := observe u ticks in
  (is_ok r = true <-> forall prev, last u = Some prev -> prev <= ticks) /\ last u' = (if is_ok r then Some ticks else last u).
Proof.
  unfold observe. destruct (last u) as [prev|] eqn:E; [| by split]. destruct (ticks <? prev) eqn:El; bool_to_prop; split; try done.
  - split; [done |]. intros Hall. specialize (Hall prev eq_refl). lia.
  - split; [| done]. by intros _ ? [= <-].
Qed.

End WallClock.

Module DioTime.

(** ** dio_time.rs *)

Definition DIO_TIME_OPTION_TYPE : Z := 0x15.
Definition DIO_TIME_OPTION_LEN : Z := 6.
Definition DIO_TIME_OPTION_TOTAL : nat := 8.

Inductive DioTimeStratum := NoSync | ConservativeSync | Roughtime | Nts | GnssGpsd.
Inductive DioTimeError := Truncated | BadTypeOrLength | ReservedNonzero | InvalidStratum | NoSyncTimestamp.
Definition error_str (e : DioTimeError) : bytes :=
  match e with
  | Truncated => ascii "truncated"
  | BadTypeOrLength => ascii "bad-type-or-length"
  | ReservedNonzero => ascii "reserved-nonzero"
  | InvalidStratum => ascii "invalid-stratum"
  | NoSyncTimestamp => ascii "no-sync-timestamp"
  end.
Record DioTimeOption := { stratum : DioTimeStratum; timestamp : Z }.

Definition wire (s : DioTimeStratum) : Z :=
  match s with NoSync => 0 | ConservativeSync => 1 | Roughtime => 2 | Nts => 3 | GnssGpsd => 4 end.
Definition from_wire (value : Z) : option DioTimeStratum :=
  match value with
  | 0 => Some NoSync
  | 1 => Some ConservativeSync
  | 2 => Some Roughtime
  | 3 => Some Nts
  | 4 => Some GnssGpsd
  | _ => None
  end.

Definition option_new (s : DioTimeStratum) (t : Z) : result DioTimeError DioTimeOption :=
  if (match s with NoSync => true | _ => false end) && negb (t =? 0) then Err NoSyncTimestamp
  else Ok {| stratum := s; timestamp := t |}.
Definition encode (o : DioTimeOption) : bytes :=
  [DIO_TIME_OPTION_TYPE; DIO_TIME_OPTION_LEN; wire (stratum o); 0] ++ to_be 4 (timestamp o).
Definition decode (data : bytes) : result DioTimeError DioTimeOption :=
  if negb (length data =? DIO_TIME_OPTION_TOTAL)%nat then Err Truncated
  else if negb (nth 0 data 0 =? DIO_TIME_OPTION_TYPE) || negb (nth 1 data 0 =? DIO_TIME_OPTION_LEN) then Err BadTypeOrLength
  else if negb (nth 3 data 0 =? 0) then Err ReservedNonzero
  else
    s ← ok_or (from_wire (nth 2 data 0)) InvalidStratum;
    option_new s (from_be [nth 4 data 0; nth 5 data 0; nth 6 data 0; nth 7 data 0]).

(** ** Correctness *)

Lemma from_wire_spec v s : from_wire v = Some s <-> v = wire s.
Proof.
  split; [| intros ->; by destruct s]. unfold from_wire. intros E.
  destruct v as [|[[[]|[]|]|[[]|[]|]|]|]; by simplify_eq.
Qed.

(** The decoder accepts the encodings of the options that can be constructed,
    and nothing else. *)
Lemma dio_time_roundtrip (data : bytes) (o : DioTimeOption) : bytes_ok data ->
  decode data = Ok o <->
  data = encode o /\ is_u32 (timestamp o) /\ (stratum o = NoSync -> timestamp o = 0).
Proof.
  assert (forall s t o, option_new s t = Ok o <-> o = {| stratum := s; timestamp := t |} /\ (s = NoSync -> t = 0)) as Hnew.
  { intros s t o'. unfold option_new. destruct s; cbn [andb]; [destruct (t =? 0) eqn:E; bool_to_prop; cbn [negb] | ..];
      (split; [intros E'; try discriminate; apply ok_inj in E' as <- | intros [-> ?]]); try done.
    exfalso. auto. }
  intros Hb. unfold decode. split.
  - destruct (_ =? _)%nat eqn:E; [| done]. bool_to_prop. do 8 (destruct data as [|? data]; [done |]).
    destruct data; [| done]. cbn [nth negb]. destruct (_ || _) eqn:E2; [done |]. destruct (_ =? 0) eqn:E3; [| done].
    cbn [negb]. destruct (from_wire _) as [s|] eqn:Es; [| done]. cbn [ok_or mbind result_bind].
    intros [-> Hz]%Hnew. apply from_wire_spec in Es as ->. bool_to_prop. unfold encode. cbn [stratum timestamp].
    repeat (apply Forall_cons in Hb as [? Hb]).
    assert (bytes_ok [z3; z4; z5; z6]) as Hl by (repeat (apply Forall_cons_2; [done |]); apply Forall_nil_2).
    pose proof (to_be_from_be _ Hl) as Hbe. change (length [z3; z4; z5; z6]) with 4%nat in Hbe. rewrite Hbe. subst.
    split_and!; [done | | done]. apply from_be_u32; [done | cbn; lia].
  - intros (-> & Ht & Hz). cbn [encode app length Nat.eqb DIO_TIME_OPTION_TOTAL].
    rewrite <- (take_drop 0 (to_be 4 (timestamp o))).
    pose proof (length_to_be 4 (timestamp o)) as Hl. pose proof (from_be_to_be_u32 _ Ht) as Hf.
    rewrite drop_0. destruct (to_be 4 (timestamp o)) as [|x0 [|x1 [|x2 [|x3 [|]]]]]; try done.
    cbn. rewrite (proj2 (from_wire_spec _ (stratum o)) eq_refl). cbn. cbn in Hf. rewrite Hf. apply Hnew. by destruct o.
Qed.

End DioTime.

Module DataTiming.

(** ** data_timing.rs *)

Definition TELEMETRY_MIN_MS : Z := 5 * 60 * 1000.
Definition TELEMETRY_MAX_MS : Z := 60 * 60 * 1000.
Definition HEARTBEAT_MS : Z := 30 * 60 * 1000.

Definition elapsed (now then_ : Z) : Z := wrap64 (now - then_).

Record TelemetryInterval := { interval_ms : Z }.
Inductive TelemetryIntervalError := OutOfRange.
Definition interval_new (ms : Z) : result TelemetryIntervalError TelemetryInterval :=
  if (ms <? TELEMETRY_MIN_MS) || (TELEMETRY_MAX_MS <? ms) then Err OutOfRange else Ok {| interval_ms := ms |}.
Definition telemetry_due (t : TelemetryInterval) (now_ms : Z) (last_tx_ms : option Z) : bool :=
  match last_tx_ms with None => true | Some last => interval_ms t <=? elapsed now_ms last end.

Record Heartbeat := { heartbeat_ms : Z }.
Definition heartbeat_new : Heartbeat := {| heartbeat_ms := HEARTBEAT_MS |}.
Definition heartbeat_due (h : Heartbeat) (now_ms : Z) (last_data_tx_ms : option Z) : bool :=
  match last_data_tx_ms with None => true | Some last => heartbeat_ms h <=? elapsed now_ms last end.

(** ** Correctness *)

(** Readings of a counter that wraps at 64 bits give the true elapsed time. *)
Lemma elapsed_wrap t dt : 0 <= dt <= u64_max -> elapsed (wrap64 (t + dt)) (wrap64 t) = dt.
Proof. intros Hd. unfold elapsed, wrap64, u64_max in *. rewrite <- Zminus_mod. rewrite Z.mod_small; lia. Qed.

(** Between two samples at most an hour passes, and at least five minutes. *)
Lemma telemetry_period ms i t dt : interval_new ms = Ok i -> 0 <= dt <= u64_max ->
  (telemetry_due i (wrap64 (t + dt)) (Some (wrap64 t)) = true <-> ms <= dt) /\ TELEMETRY_MIN_MS <= ms <= TELEMETRY_MAX_MS.
Proof.
  unfold interval_new. destruct (_ || _) eqn:E; [done |]. intros <-%ok_inj Hd. bool_to_prop. unfold telemetry_due.
  rewrite elapsed_wrap by done. cbn. split; lia.
Qed.

End DataTiming.

Module TdmaClock.

(** ** tdma_clock.rs *)

Definition i64_min : Z := - 9223372036854775808.
Definition i64_max : Z := 9223372036854775807.
(** [as i64]. *)
Definition wrap_i64 (x : Z) : Z := (x - i64_min) mod 18446744073709551616 + i64_min.

Definition beacon_delta_ms (local_rx_ms expected_beacon_ms : Z) : Z :=
  Z.max i64_min (Z.min i64_max (local_rx_ms - expected_beacon_ms)).
Definition drift_ppm (delta_ms beacon_interval_ms : Z) : option Z :=
  if beacon_interval_ms =? 0 then None
  else Some (wrap_i64 (Z.quot (delta_ms * 1000000) beacon_interval_ms)).
Definition correction_ms (ppm future_delta_ms : Z) : Z := wrap_i64 (Z.quot (ppm * future_delta_ms) 1000000).
Definition drift_bound (b0 rho h : Z) : Z := saturating_add u64_max b0 (saturating_mul u64_max rho h).

Definition guard_sufficient (guard b_i b_j j_i j_j p m : Z) : bool :=
  let need := saturating_add u64_max b_i b_j in
  let need := saturating_add u64_max need j_i in
  let need := saturating_add u64_max need j_j in
  let need := saturating_add u64_max need p in
  let need := saturating_add u64_max need m in
  need <=? guard.

Definition in_guard (slot_start_ms current_ms slot_duration_ms guard_ms : Z) : bool :=
  if slot_duration_ms <? guard_ms then false
  else
    let guard_start := saturating_add u64_max slot_start_ms (saturating_sub slot_duration_ms guard_ms) in
    let slot_end := saturating_add u64_max slot_start_ms slot_duration_ms in
    (guard_start <=? current_ms) && (current_ms <? slot_end).
Definition tx_allowed (slot_start_ms current_ms slot_duration_ms guard_ms : Z) : bool :=
  if current_ms <? slot_start_ms then false
  else
    negb (in_guard slot_start_ms current_ms slot_duration_ms guard_ms)
    && (current_ms <? saturating_add u64_max slot_start_ms slot_duration_ms).

Fixpoint slot_map_loop (slot_map : bytes) (current_slot : Z) : bool :=
  match slot_map with
  | [] => false
  | s :: slot_map => if s =? current_slot then true else slot_map_loop slot_map current_slot
  end.
Definition slot_map_tx_allowed (slot_map : bytes) (current_slot num_slots : Z) : bool :=
  if num_slots <=? current_slot then false else slot_map_loop slot_map current_slot.

Definition holdover_expired (measured_drift_ppm guard_ppm : Z) : bool := guard_ppm <? Z.abs measured_drift_ppm.

(** ** Correctness *)

Lemma slot_map_spec (slot_map : bytes) (current num : Z) :
  slot_map_tx_allowed slot_map current num = true <-> current ∈ slot_map /\ current < num.
Proof.
  assert (slot_map_loop slot_map current = true <-> current ∈ slot_map) as Hl.
  { induction slot_map as [|s l IH]; cbn; [split; [done | by intros ?%not_elem_of_nil] |]. rewrite elem_of_cons.
    destruct (s =? current) eqn:E; bool_to_prop; [by subst; split; [left |] |]. rewrite IH. naive_solver. }
  unfold slot_map_tx_allowed. destruct (num <=? current) eqn:E; bool_to_prop; [| rewrite Hl]; naive_solver lia.
Qed.

(** A correction computed from a measured drift undoes the beacon's delay after
    one interval, up to the millisecond the divisions lose. *)
Lemma correction_of_drift (delta interval ppm : Z) :
  0 < interval -> 0 <= delta -> delta * 1000000 <= i64_max * interval -> drift_ppm delta interval = Some ppm ->
  let c := ppm * interval / 1000000 in c <= delta < c + interval / 1000000 + 2.
Proof.
  intros Hi Hd Hb. unfold drift_ppm. rewrite (proj2 (Z.eqb_neq _ _)) by lia. intros [= <-].
  rewrite Z.quot_div_nonneg by lia. set (q := delta * 1000000 / interval).
  assert (0 <= q <= i64_max) as Hq.
  { split; [apply Z.div_pos; lia |]. apply Z.div_le_upper_bound; lia. }
  assert (wrap_i64 q = q) as ->.
  { unfold wrap_i64, i64_min, i64_max in *. rewrite Z.mod_small; lia. }
  cbn zeta. pose proof (Z.mul_div_le (delta * 1000000) interval Hi). pose proof (Z.mul_succ_div_gt (delta * 1000000) interval Hi).
  fold q in H, H0. pose proof (Z.mul_div_le (q * interval) 1000000 ltac:(lia)).
  pose proof (Z.mul_succ_div_gt (q * interval) 1000000 ltac:(lia)). pose proof (Z.mul_succ_div_gt interval 1000000 ltac:(lia)). lia.
Qed.

Lemma saturating_add_le max x y g : saturating_add max x y <= g -> g < max -> x + y <= g.
Proof. unfold saturating_add. lia. Qed.
Lemma saturating_mul_le max x y g : saturating_mul max x y <= g -> g < max -> x * y <= g.
Proof. unfold saturating_mul. lia. Qed.

(** Below the largest guard the two bounds are the exact ones. *)
Lemma guard_sufficient_spec guard bi bj ji jj p m : guard < u64_max -> 0 <= ji -> 0 <= jj -> 0 <= p -> 0 <= m ->
  guard_sufficient guard bi bj ji jj p m = true -> bi + bj + ji + jj + p + m <= guard.
Proof.
  intros Hg H1 H2 H3 H4 H5. unfold guard_sufficient in H5. bool_to_prop. apply saturating_add_le in H5; [| done].
  match type of H5 with ?a + m <= guard => assert (a <= guard - m) as H6 by lia end.
  apply saturating_add_le in H6; [| lia].
  assert (saturating_add u64_max (saturating_add u64_max (saturating_add u64_max bi bj) ji) jj <= guard - m - p) as H7 by lia.
  apply saturating_add_le in H7; [| lia]. assert (saturating_add u64_max (saturating_add u64_max bi bj) ji <= guard - m - p - jj) as H8 by lia.
  apply saturating_add_le in H8; [| lia]. assert (saturating_add u64_max bi bj <= guard - m - p - jj - ji) as H9 by lia.
  apply saturating_add_le in H9; lia.
Qed.
Lemma drift_bound_spec b0 rho h g : 0 <= b0 -> drift_bound b0 rho h <= g -> g < u64_max -> b0 + rho * h <= g.
Proof.
  intros Hb H1 H2. apply saturating_add_le in H1; [| done].
  assert (saturating_mul u64_max rho h <= g - b0) as H3 by lia. apply saturating_mul_le in H3; lia.
Qed.
Lemma tx_allowed_spec start cur dur guard : start + dur <= u64_max -> 0 <= guard <= dur ->
  tx_allowed start cur dur guard = true <-> start <= cur < start + (dur - guard).
Proof.
  intros Hf Hg. unfold tx_allowed, in_guard, saturating_add, saturating_sub.
  rewrite (Z.max_r 0), !Z.min_r by lia. rewrite (proj2 (Z.ltb_ge dur guard)) by lia.
  destruct (cur <? start) eqn:E; bool_to_prop; [split; [done | lia] |].
  rewrite andb_true_iff, negb_true_iff, andb_false_iff, Z.leb_gt, Z.ltb_ge, Z.ltb_lt. lia.
Qed.

(** the guard keeps neighbouring slots apart.  Take two nodes whose slots
    follow one another, with clocks off by at most [b0 + rho * h] after [h] units
    of holdover and with their jitters.  If [guard_sufficient] accepts the guard
    for the bounds [drift_bound] computes, a transmission the first node may
    begin ([tx_allowed], on its own clock) reaches the second one, after
    propagation and with the margin, before the second one's slot opens on that
    one's clock.  Nothing is assumed of saturation: a saturated bound admits no
    transmission at all. *)
Lemma guarded_slots_disjoint (start dur guard cur : Z) (b0i rhoi hi b0j rhoj hj ji jj p m : Z) (ei ej ti tj prop : Z) :
  is_u64 start -> is_u64 cur -> is_u64 dur -> is_u64 guard -> Forall is_u64 [b0i; rhoi; hi; b0j; rhoj; hj; ji; jj; p; m] ->
  start + dur <= u64_max -> guard <= dur ->
  guard_sufficient guard (drift_bound b0i rhoi hi) (drift_bound b0j rhoj hj) ji jj p m = true ->
  tx_allowed start cur dur guard = true ->
  Z.abs ei <= b0i + rhoi * hi -> Z.abs ej <= b0j + rhoj * hj -> Z.abs ti <= ji -> Z.abs tj <= jj -> prop <= p ->
  start <= cur /\ (cur + ei + ti) + prop + m < start + dur + ej + tj.
Proof.
  intros Hs Hc Hd Hg Hall Hfit Hgd Hsuf Htx Hei Hej Hti Htj Hp.
  repeat (apply Forall_cons in Hall as [? Hall]). unfold is_u64 in *.
  assert (0 <= rhoi * hi) by nia. assert (0 <= rhoj * hj) by nia.
  apply tx_allowed_spec in Htx; [| done | lia]. split; [lia |].
  assert (0 <= drift_bound b0i rhoi hi /\ 0 <= drift_bound b0j rhoj hj) as [Hbi Hbj]
    by (unfold drift_bound, saturating_add, saturating_mul, u64_max; lia).
  apply guard_sufficient_spec in Hsuf; [| lia ..].
  pose proof (drift_bound_spec b0i rhoi hi (drift_bound b0i rhoi hi) ltac:(lia) ltac:(lia) ltac:(lia)).
  pose proof (drift_bound_spec b0j rhoj hj (drift_bound b0j rhoj hj) ltac:(lia) ltac:(lia) ltac:(lia)). lia.
Qed.

(** A guard longer than its slot is ignored: the whole slot may be used. *)
Example guard_longer_than_slot : tx_allowed 1000 3345 2346 3000 = true /\ tx_allowed 1000 3345 2346 2346 = false.
Proof. split; reflexivity. Qed.

End TdmaClock.
