(* ===== verification/OpenTrust.v ===== *)
(** * Open federation trust (lichen-link/src/trust.rs)

    The checks on first contact, key rotation and slot claims: an interface
    identifier belongs to the key it derives from, a rotation is authorised by
    the old key, a slot claim by the gateway's, and a signature made for one
    kind of message is never accepted for the other. *)

From stdpp Require Import strings.
From S2P Require Import Prelude Addr Schnorr Sos.
Import Utf8 Schnorr.
Open Scope Z_scope.

Module OpenTrust.

Definition MAX_CONTROL_MESSAGE_LEN : nat := 256.

Inductive TrustLevel := Tofu | BrProvisioned | Dane | Pkix.
Definition as_u8 (l : TrustLevel) : Z := match l with Tofu => 1 | BrProvisioned => 2 | Dane => 3 | Pkix => 4 end.
Definition from_u8 (v : Z) : option TrustLevel :=
  match v with 1 => Some Tofu | 2 => Some BrProvisioned | 3 => Some Dane | 4 => Some Pkix | _ => None end.

Inductive TofuResult := PinAndAccept | RejectDerivationMismatch.
Inductive RotationResult := AcceptRotation | RejectInvalidSignature.
Inductive SlotClaimResult := AcceptClaim | RejectSignatureInvalid.

Definition KEY_ROTATE_PREFIX : bytes := ascii "KEY_ROTATE:".
Definition SLOT_CLAIM_PREFIX : bytes := ascii "SLOT_CLAIM:".

(** [message.starts_with(prefix)]. *)
Definition starts_with (prefix message : bytes) : bool := bool_decide (take (length prefix) message = prefix).

Section trust.
Context `{Crypto}.

Definition verify_iid_derivation (pubkey : PublicKey) (claimed_iid : bytes) : bool :=
  bool_decide (iid_from_pubkey pubkey = claimed_iid).
Definition tofu_first_contact (pubkey : PublicKey) (claimed_iid : bytes) : TofuResult :=
  if verify_iid_derivation pubkey claimed_iid then PinAndAccept else RejectDerivationMismatch.

Definition verify_key_rotation (old_pubkey : PublicKey) (rotation_message signature : bytes) : RotationResult :=
  if negb (length rotation_message =? 11 + 32)%nat then RejectInvalidSignature
  else if negb (starts_with KEY_ROTATE_PREFIX rotation_message) then RejectInvalidSignature
  else if negb (length signature =? 48)%nat then RejectInvalidSignature
  else if schnorr_verify old_pubkey rotation_message signature then AcceptRotation else RejectInvalidSignature.

Definition verify_slot_claim (gateway_pubkey : PublicKey) (message signature : bytes) : SlotClaimResult :=
  if (MAX_CONTROL_MESSAGE_LEN <? length message)%nat then RejectSignatureInvalid
  else if negb (starts_with SLOT_CLAIM_PREFIX message) then RejectSignatureInvalid
  else if negb (length signature =? 48)%nat then RejectSignatureInvalid
  else if schnorr_verify gateway_pubkey message signature then AcceptClaim else RejectSignatureInvalid.

Definition verify_ygg_iid_binding (ygg_addr iid : bytes) : bool := bool_decide (slice 8 16 ygg_addr = iid).

(** ** Correctness *)

Lemma trust_level_roundtrip (l : TrustLevel) (v : Z) : from_u8 (as_u8 l) = Some l /\ (from_u8 v = Some l <-> v = as_u8 l).
Proof.
  split; [by destruct l |]. split; [| intros ->; by destruct l].
  unfold from_u8. intros E. destruct v as [|[[]|[[]|[]|]|]|]; by simplify_eq.
Qed.

Lemma starts_with_spec (prefix message : bytes) : starts_with prefix message = true <-> exists rest, message = prefix ++ rest.
Proof.
  unfold starts_with. rewrite bool_decide_eq_true. split.
  - intros E. exists (drop (length prefix) message). by rewrite <- E at 1; rewrite take_drop.
  - intros [rest ->]. apply take_app_length.
Qed.

(** A rotation is accepted for the message that names a 32-byte key, signed by
    the old key, and for no other. *)
Lemma rotation_accepts_exactly (k : PublicKey) (message signature : bytes) :
  verify_key_rotation k message signature = AcceptRotation <->
  exists new_key, message = KEY_ROTATE_PREFIX ++ new_key /\ length new_key = 32%nat /\ length signature = 48%nat /\
    schnorr_verify k message signature = true.
Proof.
  unfold verify_key_rotation. split.
  - destruct (_ =? _)%nat eqn:E1; [| done]. destruct (starts_with _ _) eqn:E2; [| done].
    destruct (length signature =? 48)%nat eqn:E3; [| done]. destruct (schnorr_verify _ _ _) eqn:E4; [| done]. intros _.
    bool_to_prop. apply starts_with_spec in E2 as [new_key ->]. exists new_key. rewrite length_app in E1. split_and!; [done | | done | done].
    change (length KEY_ROTATE_PREFIX) with 11%nat in E1. lia.
  - intros (new_key & -> & Hl & Hs & Hv). rewrite length_app, Hl, Hs, Hv. change (length KEY_ROTATE_PREFIX) with 11%nat.
    by rewrite (proj2 (starts_with_spec _ _)) by eauto.
Qed.

(** The two kinds of message cannot stand for one another. *)
Lemma contexts_separated (k k' : PublicKey) (message signature signature' : bytes) :
  verify_key_rotation k message signature = AcceptRotation -> verify_slot_claim k' message signature' <> AcceptClaim.
Proof.
  intros (new_key & -> & _)%rotation_accepts_exactly. unfold verify_slot_claim.
  destruct (MAX_CONTROL_MESSAGE_LEN <? _)%nat; [done |]. by destruct (starts_with SLOT_CLAIM_PREFIX _) eqn:E; vm_compute in E.
Qed.

(** Honest rotations and claims are accepted. *)
Lemma honest_messages_accepted `{!CryptoLaws} (seed : Seed) (new_key claim : bytes) :
  length new_key = 32%nat -> (length claim <= 245)%nat -> let k := derive_keypair seed in
  let rotation := KEY_ROTATE_PREFIX ++ new_key in let slot := SLOT_CLAIM_PREFIX ++ claim in
  verify_key_rotation (snd k) rotation (schnorr_sign (fst k) (snd k) rotation) = AcceptRotation /\
  verify_slot_claim (snd k) slot (schnorr_sign (fst k) (snd k) slot) = AcceptClaim.
Proof.
  intros Hn Hc k rotation slot. split.
  - apply rotation_accepts_exactly. exists new_key. split_and!; [done | done | apply sign_len | apply sign_verify].
  - unfold verify_slot_claim. rewrite sign_len. subst slot. rewrite length_app. change (length SLOT_CLAIM_PREFIX) with 11%nat.
    rewrite (proj2 (Nat.ltb_ge _ _)) by (unfold MAX_CONTROL_MESSAGE_LEN; lia).
    rewrite (proj2 (starts_with_spec _ _)) by eauto. cbn [negb Nat.eqb]. subst k. by rewrite (sign_verify seed).
Qed.

End trust.
End OpenTrust.
