(* ===== verification/NetHeaders.v ===== *)
(** * IPv6, UDP and ICMPv6 headers (lichen-core)

    checksum.rs, ipv6.rs, udp.rs, icmpv6.rs and l2_payload.rs of
    lichen-core/src: the upper-layer checksum, the fixed and extension headers,
    UDP datagrams, echo packets and the dispatch byte of the link payload.  A
    parsed header is the byte string it borrows; a caller's buffer is passed and
    returned. *)

From S2P Require Import Prelude SchcCheck.
Open Scope Z_scope.

(** ** checksum.rs *)

Module Checksum.

Definition oc_add (a b : Z) : Z :=
  let s := a + b in
  if negb (Z.shiftr s 16 =? 0) then Z.land s 0xFFFF + Z.shiftr s 16 else s.

(** The loop over whole words. *)
Fixpoint sum_loop (sum : Z) (data : bytes) : Z :=
  match data with
  | a :: b :: data => sum_loop (oc_add sum (from_be [a; b])) data
  | _ => sum
  end.
Definition sum_words (data : bytes) : Z :=
  let sum := sum_loop 0 data in
  if (length data mod 2 =? 1)%nat then oc_add sum (Z.shiftl (nth (length data - 1) data 0) 8) else sum.

(** [while sum >> 16 != 0]; [fold_enough] shows that two rounds are enough for
    a 32-bit sum. *)
Fixpoint fold_loop (fuel : nat) (sum : Z) : Z :=
  match fuel with
  | O => sum
  | S fuel => if negb (Z.shiftr sum 16 =? 0) then fold_loop fuel (Z.land sum 0xFFFF + Z.shiftr sum 16) else sum
  end.

Definition upper_layer_checksum (src dst : bytes) (next_header : Z) (payload : bytes) : Z :=
  let sum := sum_loop 0 src in
  let sum := sum_loop sum dst in
  let sum := oc_add sum (wrap32 (Z.of_nat (length payload))) in
  let sum := oc_add sum next_header in
  let sum := oc_add sum (sum_words payload) in
  0xFFFF - wrap16 (fold_loop 3 sum).

Definition upper_layer_checksum_valid (src dst : bytes) (next_header : Z) (payload : bytes) : bool :=
  (4 <=? length payload)%nat && (upper_layer_checksum src dst next_header payload =? 0).

End Checksum.

(** ** ipv6.rs *)

Module Ipv6.

Definition IPV6_HEADER_LEN : nat := 40.
Definition SRC_OFFSET : nat := 8.
Definition DST_OFFSET : nat := 24.
Definition HOP_BY_HOP : Z := 0.
Definition ROUTING : Z := 43.
Definition FRAGMENT : Z := 44.
Definition ICMPV6 : Z := 58.
Definition DEST_OPTIONS : Z := 60.
Definition is_tlv_extension (nh : Z) : bool := (nh =? HOP_BY_HOP) || (nh =? ROUTING) || (nh =? DEST_OPTIONS).

Inductive Ipv6Error :=
  | ErrTooShort (e : TooShort)
  | WrongVersion (v : Z)
  | InvalidExtensionLength
  | FragmentNotSupported
  | ErrBufferTooSmall (e : BufferTooSmall).
Definition too_short (expected actual : nat) : Ipv6Error := ErrTooShort {| expected := expected; actual := actual |}.
Definition buffer_too_small (required provided : nat) : Ipv6Error :=
  ErrBufferTooSmall {| required := required; provided := provided |}.

Record Ipv6Header := { data : bytes }.
Definition header_from_bytes (d : bytes) : result Ipv6Error Ipv6Header :=
  if (length d <? IPV6_HEADER_LEN)%nat then Err (too_short IPV6_HEADER_LEN (length d))
  else
    let version := Z.shiftr (nth 0 d 0) 4 in
    if negb (version =? 6) then Err (WrongVersion version) else Ok {| data := d |}.

Definition traffic_class (h : Ipv6Header) : Z :=
  Z.lor (wrap8 (Z.shiftl (Z.land (nth 0 (data h) 0) 0x0F) 4)) (Z.shiftr (nth 1 (data h) 0) 4).
Definition flow_label (h : Ipv6Header) : Z :=
  let b1 := Z.land (nth 1 (data h) 0) 0x0F in
  let b2 := nth 2 (data h) 0 in
  let b3 := nth 3 (data h) 0 in
  Z.lor (Z.lor (Z.shiftl b1 16) (Z.shiftl b2 8)) b3.
Definition payload_length (h : Ipv6Header) : Z := from_be [nth 4 (data h) 0; nth 5 (data h) 0].
Definition next_header (h : Ipv6Header) : Z := nth 6 (data h) 0.
Definition hop_limit (h : Ipv6Header) : Z := nth 7 (data h) 0.
Definition src (h : Ipv6Header) : bytes := slice SRC_OFFSET DST_OFFSET (data h).
Definition dst (h : Ipv6Header) : bytes := slice DST_OFFSET IPV6_HEADER_LEN (data h).
Definition payload (h : Ipv6Header) : result Ipv6Error bytes :=
  let plen := Z.to_nat (payload_length h) in
  let total := (IPV6_HEADER_LEN + plen)%nat in
  if (length (data h) <? total)%nat then Err (too_short total (length (data h)))
  else Ok (slice IPV6_HEADER_LEN total (data h)).
Definition total_length (h : Ipv6Header) : nat := (IPV6_HEADER_LEN + Z.to_nat (payload_length h))%nat.
Definition header_bytes (h : Ipv6Header) : bytes := take IPV6_HEADER_LEN (data h).

Definition write_header (src dst : bytes) (next_header hop_limit payload_len : Z) (out : bytes) : result Ipv6Error nat * bytes :=
  if (length out <? IPV6_HEADER_LEN)%nat then (Err (buffer_too_small IPV6_HEADER_LEN (length out)), out)
  else
    let out := list_inserts 0 [0x60; 0; 0; 0] out in
    let out := list_inserts 4 (to_be 2 payload_len) out in
    let out := list_inserts 6 [next_header; hop_limit] out in
    let out := list_inserts SRC_OFFSET src out in
    let out := list_inserts DST_OFFSET dst out in
    (Ok IPV6_HEADER_LEN, out).

Record ExtensionHeader := { header_type : Z; ext_data : bytes }.
Definition ext_from_bytes (ty : Z) (d : bytes) : result Ipv6Error (ExtensionHeader * nat) :=
  if negb (is_tlv_extension ty) then Err (too_short 2 (length d))
  else if (length d <? 2)%nat then Err (too_short 2 (length d))
  else
    let hdr_ext_len := Z.to_nat (nth 1 d 0) in
    let total_len := ((hdr_ext_len + 1) * 8)%nat in
    if (length d <? total_len)%nat then Err (too_short total_len (length d))
    else Ok ({| header_type := ty; ext_data := take total_len d |}, total_len).
Definition ext_next_header (e : ExtensionHeader) : Z := nth 0 (ext_data e) 0.
Definition hdr_ext_len (e : ExtensionHeader) : Z := nth 1 (ext_data e) 0.
Definition total_len (e : ExtensionHeader) : nat := ((Z.to_nat (nth 1 (ext_data e) 0%Z) + 1) * 8)%nat.
Definition options_data (e : ExtensionHeader) : bytes := drop 2 (ext_data e).

Definition write_extension_header (next_header : Z) (options : bytes) (out : bytes) : result Ipv6Error nat * bytes :=
  let total_len := (length options + 2)%nat in
  if negb (total_len mod 8 =? 0)%nat then (Err InvalidExtensionLength, out)
  else if (length out <? total_len)%nat then (Err (buffer_too_small total_len (length out)), out)
  else
    let hdr_ext_len := wrap8 (Z.of_nat (total_len / 8) - 1) in
    let out := list_inserts 0 [next_header; hdr_ext_len] out in
    let out := list_inserts 2 options out in
    (Ok total_len, out).

Record ExtensionChainInfo := { upper_protocol : Z; upper_offset : nat }.

(** [None] is fuel running out: every header advances by eight octets or more
    ([walk_total]). *)
Fixpoint walk_loop (fuel : nat) (p : bytes) (offset : nat) (nh : Z) : option (result Ipv6Error ExtensionChainInfo) :=
  match fuel with
  | O => None
  | S fuel =>
      if is_tlv_extension nh then
        if (length p <? offset + 2)%nat then Some (Err (too_short (offset + 2) (length p)))
        else
          let following := nth offset p 0 in
          let total := ((Z.to_nat (nth (offset + 1) p 0%Z) + 1) * 8)%nat in
          if (length p <? offset + total)%nat then Some (Err (too_short (offset + total) (length p)))
          else walk_loop fuel p (offset + total) following
      else if nh =? FRAGMENT then Some (Err FragmentNotSupported)
      else Some (Ok {| upper_protocol := nh; upper_offset := offset |})
  end.
Definition walk_extension_chain (p : bytes) (first_next_header : Z) : option (result Ipv6Error ExtensionChainInfo) :=
  walk_loop (S (length p)) p 0 first_next_header.

Definition write_padding (len : nat) (out : bytes) : result Ipv6Error unit * bytes :=
  if (length out <? len)%nat then (Err (buffer_too_small len (length out)), out)
  else
    match len with
    | 0%nat => (Ok tt, out)
    | 1%nat => (Ok tt, list_inserts 0 [0] out)
    | n => (Ok tt, list_inserts 2 (replicate (n - 2) 0) (list_inserts 0 [1; wrap8 (Z.of_nat (n - 2))] out))
    end.

End Ipv6.

(** ** udp.rs *)

Module Udp.
Import Checksum.

Definition UDP_HEADER_LEN : nat := 8.
Definition UDP_NEXT_HEADER : Z := 17.
Inductive UdpError :=
  | ErrTooShort (e : TooShort)
  | LengthMismatch (declared : Z) (actual : nat)
  | ErrBufferTooSmall (e : BufferTooSmall).

Record UdpHeader := { data : bytes }.
Definition from_bytes (d : bytes) : result UdpError UdpHeader :=
  if (length d <? UDP_HEADER_LEN)%nat then Err (ErrTooShort {| expected := UDP_HEADER_LEN; actual := length d |})
  else
    let declared := from_be [nth 4 d 0; nth 5 d 0] in
    if negb (declared =? Z.of_nat (length d)) then Err (LengthMismatch declared (length d)) else Ok {| data := d |}.
Definition from_bytes_unchecked (d : bytes) : result UdpError UdpHeader :=
  if (length d <? UDP_HEADER_LEN)%nat then Err (ErrTooShort {| expected := UDP_HEADER_LEN; actual := length d |})
  else Ok {| data := d |}.
Definition src_port (h : UdpHeader) : Z := from_be [nth 0 (data h) 0; nth 1 (data h) 0].
Definition dst_port (h : UdpHeader) : Z := from_be [nth 2 (data h) 0; nth 3 (data h) 0].
Definition udp_length (h : UdpHeader) : Z := from_be [nth 4 (data h) 0; nth 5 (data h) 0].
Definition checksum (h : UdpHeader) : Z := from_be [nth 6 (data h) 0; nth 7 (data h) 0].
Definition payload (h : UdpHeader) : bytes := drop UDP_HEADER_LEN (data h).
Definition verify_checksum (h : UdpHeader) (src dst : bytes) : bool :=
  if checksum h =? 0 then true
  else
    let computed := upper_layer_checksum src dst UDP_NEXT_HEADER (data h) in
    (computed =? 0) || (computed =? 0xFFFF).

Definition write_datagram (src_addr dst_addr : bytes) (src_port dst_port : Z) (payload out : bytes) : result UdpError nat * bytes :=
  let total := (UDP_HEADER_LEN + length payload)%nat in
  if (length out <? total)%nat then (Err (ErrBufferTooSmall {| required := total; provided := length out |}), out)
  else
    let out := list_inserts 0 (to_be 2 src_port) out in
    let out := list_inserts 2 (to_be 2 dst_port) out in
    let out := list_inserts 4 (to_be 2 (wrap16 (Z.of_nat total))) out in
    let out := list_inserts 6 [0; 0] out in
    let out := list_inserts UDP_HEADER_LEN payload out in
    let csum := upper_layer_checksum src_addr dst_addr UDP_NEXT_HEADER (take total out) in
    let csum := if csum =? 0 then 0xFFFF else csum in
    let out := list_inserts 6 (to_be 2 csum) out in
    (Ok total, out).

End Udp.

(** ** icmpv6.rs *)

Module Icmpv6.
Import Checksum Ipv6.

Definition ICMPV6_HEADER_LEN : nat := 8.
Definition ECHO_REQUEST : Z := 128.
Definition ECHO_REPLY : Z := 129.

Definition build (icmp_type : Z) (src dst : bytes) (id seq : Z) (d out : bytes) : nat * bytes :=
  let icmpv6_len := (ICMPV6_HEADER_LEN + length d)%nat in
  let total := (IPV6_HEADER_LEN + icmpv6_len)%nat in
  if (length out <? total)%nat then (0%nat, out)
  else
    let out := list_inserts 0 [0x60; 0; 0; 0] out in
    let out := list_inserts 4 (to_be 2 (wrap16 (Z.of_nat icmpv6_len))) out in
    let out := list_inserts 6 [ICMPV6; 64] out in
    let out := list_inserts SRC_OFFSET src out in
    let out := list_inserts DST_OFFSET dst out in
    let out := list_inserts 40 [icmp_type; 0; 0; 0] out in
    let out := list_inserts 44 (to_be 2 id) out in
    let out := list_inserts 46 (to_be 2 seq) out in
    let out := list_inserts 48 d out in
    let csum := upper_layer_checksum src dst ICMPV6 (slice 40 total out) in
    let out := list_inserts 42 (to_be 2 csum) out in
    (total, out).
Definition echo_request (src dst : bytes) (id seq : Z) (d out : bytes) : nat * bytes := build ECHO_REQUEST src dst id seq d out.
Definition echo_reply (src dst : bytes) (id seq : Z) (d out : bytes) : nat * bytes := build ECHO_REPLY src dst id seq d out.
Definition checksum_valid (src dst icmpv6 : bytes) : bool := upper_layer_checksum_valid src dst ICMPV6 icmpv6.

End Icmpv6.

(** ** l2_payload.rs *)

Module L2Payload.

Definition L2_DISPATCH_SCHC : Z := 0x14.
Definition L2_DISPATCH_ROUTING : Z := 0x15.
Definition L2_DISPATCH_SOS : Z := 0x16.

Inductive L2PayloadKind := Schc | Routing | Sos | Unknown.
Definition classify (payload : bytes) : L2PayloadKind :=
  if (length payload <? 2)%nat then Unknown
  else
    match head payload with
    | Some b =>
        if b =? L2_DISPATCH_SCHC then Schc else if b =? L2_DISPATCH_ROUTING then Routing
        else if b =? L2_DISPATCH_SOS then Sos else Unknown
    | None => Unknown
    end.
Inductive UnknownDispatch := UnknownDispatch_.
Definition classify_known (payload : bytes) : result UnknownDispatch L2PayloadKind :=
  match classify payload with Unknown => Err UnknownDispatch_ | kind => Ok kind end.
Definition body (payload : bytes) : bytes := drop 1 payload.

(** The returned slice is the written prefix of the buffer. *)
Definition wrap_payload (dispatch : Z) (inner out : bytes) : result BufferTooSmall bytes * bytes :=
  let needed := (length inner + 1)%nat in
  if (length out <? needed)%nat then (Err {| required := needed; provided := length out |}, out)
  else
    let out := list_inserts 1 inner (<[0%nat := dispatch]> out) in
    (Ok (take needed out), out).
Definition wrap_schc_payload (schc out : bytes) : result BufferTooSmall bytes * bytes := wrap_payload L2_DISPATCH_SCHC schc out.
Definition wrap_sos_payload (sos_cbor out : bytes) : result BufferTooSmall bytes * bytes := wrap_payload L2_DISPATCH_SOS sos_cbor out.

(** What was wrapped is classified as what it is, and unwrapped to itself. *)
Lemma wrap_roundtrip dispatch inner out w out' : inner <> [] -> wrap_payload dispatch inner out = (Ok w, out') ->
  w = dispatch :: inner /\ body w = inner /\ out' = w ++ drop (length w) out.
Proof.
  intros Hi. unfold wrap_payload. destruct (_ <? _)%nat eqn:E; [done |]. bool_to_prop. intros [= <- <-].
  rewrite insert_inserts, inserts_adjacent by done. rewrite inserts_front by (cbn; lia). cbn [length app].
  rewrite Nat.add_1_r. cbn [take]. rewrite take_app_length. done.
Qed.

End L2Payload.
