(* ===== verification/NetVerify.v ===== *)
(** * What the checksum of lichen-core guarantees

    The loops of checksum.rs compute one's-complement sums: a packet written
    with its checksum verifies, and a packet changed in one byte does not. *)

From S2P Require Import Prelude SchcCheck NetHeaders.
Import SchcCheck Checksum.
Open Scope Z_scope.

Module NetVerify.

(** ** The sum *)

Lemma sum_loop_pairs (data : bytes) : forall s, sum_loop s data = (sum_pairs s data).1.
Proof. induction data using pair_ind; intros s; [done | done |]. cbn [sum_loop sum_pairs]. by rewrite IHdata. Qed.

Lemma sum_words_spec (data : bytes) : bytes_ok data -> sum_words data = cs (wsum data).
Proof.
  intros Hb. rewrite <- checksum_bytes_spec by done. unfold sum_words, checksum_bytes. rewrite sum_loop_pairs.
  assert (forall s, length (sum_pairs s data).2 = (length data mod 2)%nat /\
    ((length data mod 2)%nat = 1%nat -> (sum_pairs s data).2 = [nth (length data - 1) data 0])) as Hr.
  { clear Hb. induction data as [|a|a b l IH] using pair_ind; intros s; [done | done |]. cbn [sum_pairs].
    specialize (IH (SchcCheck.oc_add s (from_be [a; b]))). destruct IH as [IH1 IH2].
    assert (length (a :: b :: l) mod 2 = length l mod 2)%nat as ->.
    { cbn [length]. replace (S (S (length l))) with (length l + 1 * 2)%nat by lia. apply Nat.Div0.mod_add. }
    split; [done |]. intros Ho. rewrite IH2 by done. f_equal. destruct l as [|c l]; [discriminate Ho |].
    cbn [length]. by rewrite !Nat.sub_succ, !Nat.sub_0_r. }
  destruct (Hr 0) as [H1 H2]. destruct (sum_pairs 0 data) as [s r]. cbn [fst snd] in *.
  destruct (length data mod 2 =? 1)%nat eqn:E; bool_to_prop.
  - by rewrite (H2 E).
  - destruct r as [|x r]; [done |]. cbn [length] in H1. pose proof (Nat.mod_upper_bound (length data) 2 ltac:(lia)). lia.
Qed.

(** Two rounds bring every 32-bit sum under 16 bits. *)
Lemma fold_enough (s : Z) : 0 <= s < 2 ^ 32 -> 0 <= fold_loop 3 s <= 65535 /\ fold_loop 2 s = fold_loop 3 s.
Proof.
  assert (forall x, 0 <= x <= 65535 -> forall n, fold_loop n x = x) as Hsmall.
  { intros x Hx [|n]; [done |]. cbn [fold_loop]. by rewrite Z.shiftr_div_pow2, Z.div_small by lia. }
  assert (forall x y, 0 <= x < 65536 * y -> 0 <= x mod 65536 + x / 65536 <= 65535 + y - 1) as Hstep.
  { intros x y Hx. pose proof (Z.mod_pos_bound x 65536 ltac:(lia)). pose proof (Z.div_pos x 65536 ltac:(lia) ltac:(lia)).
    pose proof (Z.div_lt_upper_bound x 65536 y ltac:(lia) ltac:(lia)). lia. }
  assert (forall x n, 0 <= x -> x > 65535 -> fold_loop (S n) x = fold_loop n (x mod 65536 + x / 65536)) as Hone.
  { intros x n H0 H1. cbn [fold_loop]. rewrite (Z.land_ones _ 16), Z.shiftr_div_pow2 by lia. change (2 ^ 16) with 65536.
    pose proof (Z.div_le_lower_bound x 65536 1 ltac:(lia) ltac:(lia)). by rewrite (proj2 (Z.eqb_neq _ _)) by lia. }
  intros Hs. change (2 ^ 32) with (65536 * 65536) in Hs. destruct (decide (s <= 65535)); [rewrite !Hsmall by lia; lia |].
  pose proof (Hstep s 65536 Hs) as H1. rewrite (Hone s 2%nat), (Hone s 1%nat) by lia. set (t := s mod 65536 + s / 65536) in *. clearbody t.
  destruct (decide (t <= 65535)); [rewrite !Hsmall by lia; lia |]. rewrite (Hone t 1%nat), (Hone t 0%nat) by lia.
  assert (0 <= t mod 65536 + t / 65536 <= 65535) as H2.
  { assert (t / 65536 = 1) as Ht by (symmetry; apply (Z.div_unique _ _ _ (t - 65536)); lia).
    pose proof (Z.div_mod t 65536 ltac:(lia)). lia. }
  rewrite !Hsmall by lia. lia.
Qed.

(** The sum a checksum covers. *)
Definition covered (src dst : bytes) (nh : Z) (payload : bytes) : Z :=
  (words src).1 + (words dst).1 + Z.of_nat (length payload) + nh + wsum payload.

Record packet_ok (src dst : bytes) (nh : Z) (payload : bytes) : Prop := {
  pk_src : bytes_ok src;
  pk_dst : bytes_ok dst;
  pk_nh : 1 <= nh <= 255;
  pk_payload : bytes_ok payload;
  pk_len : Z.of_nat (length payload) <= 65535
}.

Lemma covered_pos src dst nh payload : packet_ok src dst nh payload -> 0 < covered src dst nh payload.
Proof.
  intros [Hs Hd Hn Hp Hl]. unfold covered. pose proof (words_nonneg _ Hs). pose proof (words_nonneg _ Hd).
  pose proof (wsum_nonneg _ Hp). lia.
Qed.

Lemma checksum_covered src dst nh payload : packet_ok src dst nh payload ->
  upper_layer_checksum src dst nh payload = 65535 - cs (covered src dst nh payload).
Proof.
  intros Hk. pose proof (covered_pos _ _ _ _ Hk) as Hpos. destruct Hk as [Hs Hd Hn Hp Hl].
  pose proof (words_nonneg _ Hs). pose proof (words_nonneg _ Hd). pose proof (wsum_nonneg _ Hp).
  unfold upper_layer_checksum. unfold wrap32. rewrite (Z.mod_small (Z.of_nat _)) by lia.
  pose proof (pseudo_sum_spec src dst nh (Z.of_nat (length payload)) Hs Hd ltac:(lia) ltac:(lia)) as Hps.
  unfold pseudo_sum in Hps. rewrite <- !sum_loop_pairs in Hps. change Checksum.oc_add with SchcCheck.oc_add. rewrite Hps, sum_words_spec by done.
  rewrite oc_add_cs by lia. fold (covered src dst nh payload). pose proof (cs_bound (covered src dst nh payload) ltac:(lia)) as Hb.
  assert (fold_loop 3 (cs (covered src dst nh payload)) = cs (covered src dst nh payload)) as ->.
  { cbn [fold_loop]. by rewrite Z.shiftr_div_pow2, Z.div_small by lia. }
  unfold wrap16. by rewrite Z.mod_small by lia.
Qed.

(** The checksum of a packet is zero exactly when its words sum to a multiple of
    65535; it is never [0xFFFF]. *)
Lemma checksum_zero src dst nh payload : packet_ok src dst nh payload ->
  0 <= upper_layer_checksum src dst nh payload < 65535 /\
  (upper_layer_checksum src dst nh payload = 0 <-> (65535 | covered src dst nh payload)).
Proof.
  intros Hk. pose proof (covered_pos _ _ _ _ Hk) as Hpos. rewrite checksum_covered by done.
  destruct (cs_spec _ Hpos) as (q & Hq & E & Hb). split; [lia |]. split.
  - intros H0. exists (q + 1). lia.
  - intros [k Hk2]. rewrite Hk2 in E. assert (cs (covered src dst nh payload) = 65535); [| lia].
    rewrite Hk2 in Hb |- *. apply (cs_unique _ (k - 1)); lia.
Qed.

(** Filling a zero field in with the checksum makes the packet verify. *)
Lemma checksum_filled src dst nh payload payload' c : packet_ok src dst nh payload -> packet_ok src dst nh payload' ->
  covered src dst nh payload' = covered src dst nh payload + c ->
  c = upper_layer_checksum src dst nh payload \/ (c = 65535 /\ upper_layer_checksum src dst nh payload = 0) ->
  upper_layer_checksum src dst nh payload' = 0.
Proof.
  intros Hk Hk' Hc Hv. apply (checksum_zero _ _ _ _ Hk'). rewrite Hc.
  destruct Hv as [-> | [-> H0]].
  - rewrite checksum_covered by done. pose proof (covered_pos _ _ _ _ Hk) as Hpos.
    destruct (cs_spec _ Hpos) as (q & _ & E & _). exists (q + 1). lia.
  - apply (checksum_zero _ _ _ _ Hk) in H0 as [k Hk2]. exists (k + 1). lia.
Qed.

(** ** Changed bytes *)

Definition weight (i : nat) : Z := if Nat.even i then 256 else 1.

Lemma wsum_cons2 a b l : wsum (a :: b :: l) = a * 256 + b + wsum l.
Proof. unfold wsum. cbn [words fst snd]. lia. Qed.

Lemma wsum_insert (l : bytes) : forall i b x, l !! i = Some x -> wsum (<[i := b]> l) = wsum l + (b - x) * weight i.
Proof.
  induction l as [|a|a a' l IH] using pair_ind; intros i b x Hi; [done | |].
  - destruct i as [|i]; [| done]. cbn in *. simplify_eq. unfold wsum, weight. cbn. lia.
  - destruct i as [|[|i]]; cbn in Hi.
    + simplify_eq. change (<[0%nat:=b]> (x :: a' :: l)) with (b :: a' :: l). rewrite !wsum_cons2. unfold weight. cbn. lia.
    + simplify_eq. change (<[1%nat:=b]> (a :: x :: l)) with (a :: b :: l). rewrite !wsum_cons2. unfold weight. cbn. lia.
    + change (<[S (S i):=b]> (a :: a' :: l)) with (a :: a' :: <[i:=b]> l). rewrite !wsum_cons2, (IH i b x Hi).
      unfold weight. cbn [Nat.even]. lia.
Qed.

(** Two packets that differ in one byte do not both have checksum zero. *)
Lemma one_byte_changed src dst nh payload i b x : packet_ok src dst nh payload -> is_u8 b ->
  payload !! i = Some x -> b <> x ->
  upper_layer_checksum src dst nh payload = 0 -> upper_layer_checksum src dst nh (<[i := b]> payload) <> 0.
Proof.
  intros Hk Hb Hi Hne H0 H1.
  assert (packet_ok src dst nh (<[i := b]> payload)) as Hk'.
  { destruct Hk. split; try done; [by apply Forall_insert | by rewrite length_insert]. }
  assert (is_u8 x) as Hx by (eapply Forall_lookup_1; [apply (pk_payload _ _ _ _ Hk) | exact Hi]).
  apply (checksum_zero _ _ _ _ Hk) in H0 as [k E]. apply (checksum_zero _ _ _ _ Hk') in H1 as [k' E'].
  unfold covered in E, E'. rewrite length_insert, (wsum_insert _ _ _ _ Hi) in E'. unfold is_u8, u8_max in *.
  assert ((b - x) * weight i = (k' - k) * 65535) as Hd by lia. unfold weight in Hd. destruct (Nat.even i); lia.
Qed.

(** ** Packets *)

Lemma nth_to_be_2 (x : Z) : is_u16 x -> exists h l, to_be 2 x = [h; l] /\ is_u8 h /\ is_u8 l /\ from_be [h; l] = x.
Proof.
  intros Hx. pose proof (length_to_be 2 x) as Hl. pose proof (to_be_ok 2 x) as Hb. pose proof (from_be_to_be_u16 x Hx) as Hf.
  destruct (to_be 2 x) as [|h [|l [|]]]; try done. apply Forall_cons in Hb as [Hh Hb]. apply Forall_cons in Hb as [Hll _].
  by exists h, l.
Qed.

(** The bytes [write_datagram] writes, with checksum field [c]. *)
Definition datagram (sp dp : Z) (payload : bytes) (c : Z) : bytes :=
  to_be 2 sp ++ to_be 2 dp ++ to_be 2 (Z.of_nat (8 + length payload)) ++ to_be 2 c ++ payload.

Lemma length_datagram sp dp payload c : length (datagram sp dp payload c) = (8 + length payload)%nat.
Proof. unfold datagram. rewrite !length_app, !length_to_be. lia. Qed.

Section udp.
Context (src dst payload : bytes) (sp dp : Z).
Context (Hs : bytes_ok src) (Hd : bytes_ok dst) (Hp : bytes_ok payload) (Hsp : is_u16 sp) (Hdp : is_u16 dp).
Context (Hl : Z.of_nat (length payload) <= 65527).

Lemma datagram_packet c : packet_ok src dst 17 (datagram sp dp payload c).
Proof.
  split; [done | done | lia | | rewrite length_datagram; lia].
  unfold datagram. rewrite !Forall_app. split_and!; try apply to_be_ok. done.
Qed.

Lemma datagram_covered c : is_u16 c -> covered src dst 17 (datagram sp dp payload c) = covered src dst 17 (datagram sp dp payload 0) + c.
Proof.
  intros Hc. unfold covered. rewrite !length_datagram. unfold datagram.
  destruct (nth_to_be_2 sp Hsp) as (a1 & a2 & -> & _). destruct (nth_to_be_2 dp Hdp) as (b1 & b2 & -> & _).
  destruct (nth_to_be_2 (Z.of_nat (8 + length payload)) ltac:(unfold is_u16, u16_max; lia)) as (l1 & l2 & -> & _).
  destruct (nth_to_be_2 c Hc) as (c1 & c2 & -> & _ & _ & Hf). rewrite from_be_2 in Hf.
  change (to_be 2 0) with [0; 0]. cbn [app]. rewrite !wsum_cons2. lia.
Qed.

(** The checksum field the writer fills in. *)
Definition datagram_checksum : Z :=
  let c := upper_layer_checksum src dst 17 (datagram sp dp payload 0) in if c =? 0 then 65535 else c.

Lemma datagram_checksum_u16 : 1 <= datagram_checksum <= 65535.
Proof.
  unfold datagram_checksum. pose proof (checksum_zero _ _ _ _ (datagram_packet 0)) as [Hb _].
  destruct (_ =? 0) eqn:E; bool_to_prop; lia.
Qed.

Lemma datagram_zero : upper_layer_checksum src dst 17 (datagram sp dp payload datagram_checksum) = 0.
Proof.
  pose proof datagram_checksum_u16 as Hc. eapply checksum_filled; [apply (datagram_packet 0) | apply datagram_packet | |].
  - apply datagram_covered. unfold is_u16, u16_max. lia.
  - unfold datagram_checksum. destruct (_ =? 0) eqn:E; bool_to_prop; [right | left]; done.
Qed.

Lemma write_datagram_spec out : (8 + length payload <= length out)%nat ->
  Udp.write_datagram src dst sp dp payload out =
  (Ok (8 + length payload)%nat, datagram sp dp payload datagram_checksum ++ drop (8 + length payload) out).
Proof.
  intros Ho. unfold Udp.write_datagram. change Udp.UDP_HEADER_LEN with 8%nat.
  rewrite (proj2 (Nat.ltb_ge _ _)) by lia. unfold wrap16. rewrite Z.mod_small by lia.
  rewrite (inserts_adjacent 0 2) by (by rewrite length_to_be).
  rewrite (inserts_adjacent 0 4) by (by rewrite length_app, !length_to_be).
  rewrite (inserts_adjacent 0 6) by (by rewrite !length_app, !length_to_be).
  rewrite (inserts_adjacent 0 8) by (by rewrite !length_app, !length_to_be). rewrite <- !app_assoc.
  change [0; 0] with (to_be 2 0). fold (datagram sp dp payload 0).
  rewrite inserts_front by (rewrite length_datagram; lia). rewrite length_datagram.
  rewrite take_app_le' by (by rewrite length_datagram). reflexivity.
Qed.

Lemma datagram_parsed c : is_u16 c -> let h := {| Udp.data := datagram sp dp payload c |} in
  Udp.from_bytes (datagram sp dp payload c) = Ok h /\ Udp.src_port h = sp /\ Udp.dst_port h = dp /\
  Udp.checksum h = c /\ Udp.payload h = payload.
Proof.
  intros Hc h. subst h. unfold Udp.from_bytes. rewrite length_datagram, (proj2 (Nat.ltb_ge _ _)) by (unfold Udp.UDP_HEADER_LEN; lia).
  unfold Udp.src_port, Udp.dst_port, Udp.checksum, Udp.payload, datagram. cbn [Udp.data].
  destruct (nth_to_be_2 sp Hsp) as (a1 & a2 & -> & _ & _ & Ha). destruct (nth_to_be_2 dp Hdp) as (b1 & b2 & -> & _ & _ & Hb).
  destruct (nth_to_be_2 (Z.of_nat (8 + length payload)) ltac:(unfold is_u16, u16_max; lia)) as (l1 & l2 & -> & _ & _ & Hll).
  destruct (nth_to_be_2 c Hc) as (c1 & c2 & -> & _ & _ & Hcc). cbn [app nth Udp.UDP_HEADER_LEN drop].
  rewrite Hll, Z.eqb_refl, Ha, Hb, Hcc. done.
Qed.

End udp.

(** ** Echo packets *)

Definition echo_body (ty c id seq : Z) (d : bytes) : bytes := [ty; 0] ++ to_be 2 c ++ to_be 2 id ++ to_be 2 seq ++ d.
Definition echo_packet (ty : Z) (src dst : bytes) (c id seq : Z) (d : bytes) : bytes :=
  [0x60; 0; 0; 0] ++ to_be 2 (Z.of_nat (8 + length d)) ++ [58; 64] ++ src ++ dst ++ echo_body ty c id seq d.
Lemma length_echo_body ty c id seq d : length (echo_body ty c id seq d) = (8 + length d)%nat.
Proof. unfold echo_body. rewrite !length_app, !length_to_be. cbn [length]. lia. Qed.

Section echo.
Context (src dst d : bytes) (ty id seq : Z).
Context (Hs : bytes_ok src) (Hd : bytes_ok dst) (Hls : length src = 16%nat) (Hld : length dst = 16%nat).
Context (Hb : bytes_ok d) (Hty : is_u8 ty) (Hid : is_u16 id) (Hseq : is_u16 seq) (Hl : Z.of_nat (length d) <= 65527).

Definition echo_checksum : Z := upper_layer_checksum src dst 58 (echo_body ty 0 id seq d).

Lemma echo_packet_ok c : packet_ok src dst 58 (echo_body ty c id seq d).
Proof.
  split; [done | done | lia | | rewrite length_echo_body; lia].
  unfold echo_body. rewrite !Forall_app. split_and!; try apply to_be_ok; [| done].
  apply Forall_cons. split; [done |]. apply Forall_cons. split; [by vm_compute | constructor].
Qed.

Lemma echo_zero : upper_layer_checksum src dst 58 (echo_body ty echo_checksum id seq d) = 0.
Proof.
  pose proof (checksum_zero _ _ _ _ (echo_packet_ok 0)) as [Hc _]. fold echo_checksum in Hc.
  apply (checksum_filled _ _ _ _ _ echo_checksum (echo_packet_ok 0) (echo_packet_ok _)); [| by left].
  unfold covered. rewrite !length_echo_body. unfold echo_body. change (to_be 2 0) with [0; 0].
  destruct (nth_to_be_2 echo_checksum ltac:(unfold is_u16, u16_max; lia)) as (c1 & c2 & -> & _ & _ & Hf). rewrite from_be_2 in Hf.
  cbn [app]. rewrite !wsum_cons2. lia.
Qed.

Lemma build_spec out : (48 + length d <= length out)%nat ->
  Icmpv6.build ty src dst id seq d out =
  ((48 + length d)%nat, echo_packet ty src dst echo_checksum id seq d ++ drop (48 + length d) out).
Proof.
  intros Ho. unfold Icmpv6.build. change Icmpv6.ICMPV6_HEADER_LEN with 8%nat. change Ipv6.IPV6_HEADER_LEN with 40%nat.
  change Ipv6.SRC_OFFSET with 8%nat. change Ipv6.DST_OFFSET with 24%nat. change Ipv6.ICMPV6 with 58.
  rewrite (proj2 (Nat.ltb_ge _ _)) by lia. unfold wrap16. rewrite Z.mod_small by lia.
  assert (forall c, length (echo_packet ty src dst c id seq d) = (48 + length d)%nat) as Hlen.
  { intros c. unfold echo_packet. rewrite !length_app, length_to_be, length_echo_body, Hls, Hld. cbn [length]. lia. }
  rewrite (inserts_adjacent 0 4) by done. rewrite (inserts_adjacent 0 6) by done. rewrite (inserts_adjacent 0 8) by done.
  rewrite (inserts_adjacent 0 24) by (by rewrite !length_app, length_to_be, Hls).
  rewrite (inserts_adjacent 0 40) by (by rewrite !length_app, length_to_be, Hls, Hld).
  rewrite (inserts_adjacent 0 44) by (by rewrite !length_app, length_to_be, Hls, Hld).
  rewrite (inserts_adjacent 0 46) by (by rewrite !length_app, !length_to_be, Hls, Hld).
  rewrite (inserts_adjacent 0 48) by (by rewrite !length_app, !length_to_be, Hls, Hld). rewrite <- !app_assoc.
  change ([ty; 0; 0; 0] ++ ?x) with ([ty; 0] ++ to_be 2 0 ++ x). fold (echo_body ty 0 id seq d).
  fold (echo_packet ty src dst 0 id seq d). rewrite inserts_front by (rewrite Hlen; lia). rewrite Hlen.
  assert (forall c rest, echo_packet ty src dst c id seq d ++ rest =
    (([0x60; 0; 0; 0] ++ to_be 2 (Z.of_nat (8 + length d)) ++ [58; 64] ++ src ++ dst) ++ [ty; 0]) ++
    to_be 2 c ++ (to_be 2 id ++ to_be 2 seq ++ d) ++ rest) as Hsplit.
  { intros c rest. unfold echo_packet, echo_body. by rewrite <- !app_assoc. }
  assert (slice 40 (40 + (8 + length d)) (echo_packet ty src dst 0 id seq d ++ drop (48 + length d) out) = echo_body ty 0 id seq d) as ->.
  { unfold slice. replace (40 + (8 + length d) - 40)%nat with (8 + length d)%nat by lia. unfold echo_packet.
    rewrite <- !app_assoc. rewrite !(app_assoc _ _ (echo_body _ _ _ _ _ ++ _)).
    rewrite (drop_app_length' _ _ 40) by (by rewrite !length_app, length_to_be, Hls, Hld).
    apply take_app_length'. by rewrite length_echo_body. }
  fold echo_checksum. f_equal. rewrite !Hsplit.
  set (pre := ((_ ++ _) ++ [ty; 0])). assert (length pre = 42%nat) as Hpre.
  { subst pre. rewrite !length_app, length_to_be, Hls, Hld. done. }
  rewrite <- (Nat.add_0_r 42), <- Hpre, list_inserts_app_r. rewrite inserts_front; [done |].
  rewrite length_app, !length_to_be. lia.
Qed.

(** The receiver reads the packet's fields back, and the checksum holds. *)
Lemma echo_packet_verifies out : (48 + length d <= length out)%nat ->
  exists p h, Icmpv6.build ty src dst id seq d out = ((48 + length d)%nat, p ++ drop (48 + length d) out) /\
    Ipv6.header_from_bytes p = Ok h /\ Ipv6.src h = src /\ Ipv6.dst h = dst /\ Ipv6.next_header h = 58 /\ Ipv6.hop_limit h = 64 /\
    Ipv6.payload h = Ok (echo_body ty echo_checksum id seq d) /\
    Icmpv6.checksum_valid src dst (echo_body ty echo_checksum id seq d) = true.
Proof.
  intros Ho. exists (echo_packet ty src dst echo_checksum id seq d), {| Ipv6.data := echo_packet ty src dst echo_checksum id seq d |}.
  split; [by apply build_spec |]. unfold echo_packet.
  destruct (nth_to_be_2 (Z.of_nat (8 + length d)) ltac:(unfold is_u16, u16_max; lia)) as (l1 & l2 & -> & _ & _ & Hf).
  assert (length (echo_body ty echo_checksum id seq d) = (8 + length d)%nat) as Hlb by apply length_echo_body.
  split_and!.
  - unfold Ipv6.header_from_bytes. rewrite (proj2 (Nat.ltb_ge _ _)); [done |].
    rewrite !length_app, Hls, Hld. change Ipv6.IPV6_HEADER_LEN with 40%nat. cbn [length]. lia.
  - change (Ipv6.src _) with (take 16 (src ++ dst ++ echo_body ty echo_checksum id seq d)). by apply take_app_length'.
  - change (Ipv6.dst _) with (take 16 (drop 16 (src ++ dst ++ echo_body ty echo_checksum id seq d))).
    rewrite drop_app_length' by (by rewrite Hls). by apply take_app_length'.
  - done.
  - done.
  - unfold Ipv6.payload, Ipv6.payload_length. cbn [Ipv6.data app nth]. rewrite Hf, Nat2Z.id.
    change Ipv6.IPV6_HEADER_LEN with 40%nat. rewrite (proj2 (Nat.ltb_ge _ _)).
    2: { cbn [length]. rewrite !length_app, Hls, Hld, Hlb. lia. }
    f_equal. unfold slice. change (drop 40 _) with (drop 32 (src ++ dst ++ echo_body ty echo_checksum id seq d)).
    rewrite app_assoc, drop_app_length' by (by rewrite length_app, Hls, Hld). apply take_ge. lia.
  - unfold Icmpv6.checksum_valid, upper_layer_checksum_valid. rewrite Hlb. change Ipv6.ICMPV6 with 58. by rewrite echo_zero.
Qed.

End echo.

(** ** Extension headers *)

(** The walk returns, whatever the bytes. *)
Lemma walk_total (p : bytes) : forall fuel offset nh, (length p < offset + fuel)%nat -> (offset <= length p)%nat ->
  exists r, Ipv6.walk_loop fuel p offset nh = Some r.
Proof.
  induction fuel as [|fuel IH]; intros offset nh Hf Ho; [lia |]. cbn [Ipv6.walk_loop].
  destruct (Ipv6.is_tlv_extension nh); [| destruct (nh =? _); by eexists].
  destruct (_ <? offset + 2)%nat; [by eexists |]. destruct (_ <? _)%nat eqn:E; [by eexists |]. bool_to_prop. apply IH; lia.
Qed.
Lemma walk_extension_chain_total (p : bytes) nh : exists r, Ipv6.walk_extension_chain p nh = Some r.
Proof. apply walk_total; lia. Qed.

(** A header with its options, as written. *)
Definition ext_bytes (nh : Z) (options : bytes) : bytes :=
  [nh; Z.of_nat ((length options + 2) / 8) - 1] ++ options.
Definition options_ok (options : bytes) : Prop := ((length options + 2) mod 8 = 0 /\ length options + 2 <= 2048)%nat.

Lemma options_len options : options_ok options ->
  (((length options + 2) / 8) * 8 = length options + 2 /\ 1 <= (length options + 2) / 8 <= 256)%nat.
Proof. intros [Hm Hl]. pose proof (Nat.div_mod (length options + 2) 8 ltac:(lia)). lia. Qed.

Lemma write_extension_header_spec nh options out : options_ok options -> (length options + 2 <= length out)%nat ->
  Ipv6.write_extension_header nh options out =
  (Ok (length options + 2)%nat, ext_bytes nh options ++ drop (length options + 2) out).
Proof.
  intros Hok Ho. destruct (options_len _ Hok) as [H8 Hb]. unfold Ipv6.write_extension_header. destruct Hok as [-> Hl]. cbn [Nat.eqb negb].
  rewrite (proj2 (Nat.ltb_ge _ _)) by lia. unfold wrap8. rewrite Z.mod_small by lia. rewrite (inserts_adjacent 0 2) by done.
  fold (ext_bytes nh options). rewrite inserts_front by (cbn; lia). cbn [ext_bytes length app]. by rewrite Nat.add_comm.
Qed.

(** The chain of headers [hs] in front of protocol [upper]. *)
Definition first_header (hs : list (Z * bytes)) (upper : Z) : Z := match hs with [] => upper | (ty, _) :: _ => ty end.
Fixpoint chain (hs : list (Z * bytes)) (upper : Z) : bytes :=
  match hs with
  | [] => []
  | (_, options) :: hs => ext_bytes (first_header hs upper) options ++ chain hs upper
  end.

(** A chain of written headers is walked to the upper layer behind it. *)
Lemma chain_walked (hs : list (Z * bytes)) (upper : Z) (rest : bytes) :
  Forall (fun h => Ipv6.is_tlv_extension (fst h) = true /\ options_ok (snd h)) hs ->
  Ipv6.is_tlv_extension upper = false -> upper <> Ipv6.FRAGMENT ->
  Ipv6.walk_extension_chain (chain hs upper ++ rest) (first_header hs upper) =
  Some (Ok {| Ipv6.upper_protocol := upper; Ipv6.upper_offset := length (chain hs upper) |}).
Proof.
  intros Hhs Hu Hf. unfold Ipv6.walk_extension_chain.
  enough (forall fuel pre, (length (chain hs upper ++ rest) < fuel)%nat ->
    Ipv6.walk_loop fuel (pre ++ chain hs upper ++ rest) (length pre) (first_header hs upper) =
    Some (Ok {| Ipv6.upper_protocol := upper; Ipv6.upper_offset := (length pre + length (chain hs upper))%nat |})) as Hw.
  { apply (Hw _ []). lia. }
  induction Hhs as [|[ty options] hs [Hty Hok] _ IH]; intros fuel pre Hlen; (destruct fuel as [|fuel]; [lia |]); cbn [Ipv6.walk_loop first_header].
  - rewrite Hu, (proj2 (Z.eqb_neq _ _)) by done. by rewrite Nat.add_0_r.
  - cbn in Hty, Hok. rewrite Hty. destruct (options_len _ Hok) as [H8 Hb]. cbn [chain] in *. rewrite <- !app_assoc in *.
    set (e := ext_bytes (first_header hs upper) options) in *.
    assert (length e = (length options + 2)%nat) as Hle by (subst e; cbn; lia).
    assert (forall i, nth (length pre + i) (pre ++ e ++ chain hs upper ++ rest) 0 = nth i (e ++ chain hs upper ++ rest) 0) as Hn.
    { intros i. rewrite app_nth2 by lia. f_equal. lia. }
    rewrite !length_app, (proj2 (Nat.ltb_ge _ _)) by lia. pose proof (Hn 0%nat) as H0. rewrite Nat.add_0_r in H0.
    rewrite H0, (Hn 1%nat). change (nth 0 (e ++ _) 0) with (first_header hs upper).
    change (nth 1 (e ++ _) 0) with (Z.of_nat ((length options + 2) / 8) - 1).
    replace ((Z.to_nat (Z.of_nat ((length options + 2) / 8) - 1) + 1) * 8)%nat with (length e) by lia.
    rewrite (proj2 (Nat.ltb_ge _ _)) by lia. rewrite <- length_app, (app_assoc pre e).
    rewrite IH; [by rewrite !length_app, Nat.add_assoc |]. rewrite (length_app e) in Hlen. lia.
Qed.

(** C31: a UDP datagram verifies where it arrives, and a damaged one does not.  For
    every payload of at most 65527 bytes and a buffer with room, [write_datagram]
    writes the datagram and nothing else; the receiver parses it to the same
    ports and payload, its checksum field is not zero and verifies.  Changing
    any one byte of it to anything else makes it fail the check, unless the
    change leaves the checksum field zero, the value [verify_checksum] lets
    pass. *)
Theorem udp_datagram_verifies (src dst payload out : bytes) (sp dp : Z) :
  bytes_ok src -> bytes_ok dst -> bytes_ok payload -> is_u16 sp -> is_u16 dp ->
  Z.of_nat (length payload) <= 65527 -> (8 + length payload <= length out)%nat ->
  exists d, Udp.write_datagram src dst sp dp payload out = (Ok (8 + length payload)%nat, d ++ drop (8 + length payload) out) /\
    (let h := {| Udp.data := d |} in
     Udp.from_bytes d = Ok h /\ Udp.src_port h = sp /\ Udp.dst_port h = dp /\ Udp.payload h = payload /\
     Udp.checksum h <> 0 /\ Udp.verify_checksum h src dst = true) /\
    (forall i b x, d !! i = Some x -> is_u8 b -> b <> x -> let h := {| Udp.data := <[i := b]> d |} in
     Udp.verify_checksum h src dst = true -> Udp.checksum h = 0).
Proof.
  intros Hs Hd Hp Hsp Hdp Hl Ho. set (c := datagram_checksum src dst payload sp dp).
  pose proof (datagram_checksum_u16 src dst payload sp dp Hs Hd Hp Hl) as Hc. fold c in Hc.
  pose proof (datagram_zero src dst payload sp dp Hs Hd Hp Hsp Hdp Hl) as Hz. fold c in Hz.
  exists (datagram sp dp payload c). split; [by apply write_datagram_spec |].
  destruct (datagram_parsed payload sp dp Hsp Hdp Hl c) as (H1 & H2 & H3 & H4 & H5); [unfold is_u16, u16_max; lia |]. split.
  - cbv zeta. split_and!; try done; [rewrite H4; lia |]. unfold Udp.verify_checksum. rewrite H4, (proj2 (Z.eqb_neq _ _)) by lia.
    cbn [Udp.data]. change Udp.UDP_NEXT_HEADER with 17. by rewrite Hz.
  - intros i b x Hi Hb Hne. cbv zeta. unfold Udp.verify_checksum. destruct (_ =? 0) eqn:E; bool_to_prop; [done |].
    cbn [Udp.data]. change Udp.UDP_NEXT_HEADER with 17. intros Hv. exfalso.
    pose proof (datagram_packet src dst payload sp dp Hs Hd Hp Hl c) as Hk.
    pose proof (one_byte_changed _ _ _ _ _ _ _ Hk Hb Hi Hne Hz) as Hnz.
    assert (packet_ok src dst 17 (<[i:=b]> (datagram sp dp payload c))) as Hk'.
    { destruct Hk. split; try done; [by apply Forall_insert | by rewrite length_insert]. }
    pose proof (checksum_zero _ _ _ _ Hk') as [Hb' _]. apply orb_true_iff in Hv as [Hv|Hv]; bool_to_prop; [done | lia].
Qed.

Lemma udp_datagram_verifies_witness :
  exists d, Udp.write_datagram (replicate 16 1) (replicate 16 2) 5683 5683 [1; 2; 3] (replicate 12 255) = (Ok 11%nat, d ++ [255]) /\
    length d = 11%nat /\ Udp.verify_checksum {| Udp.data := d |} (replicate 16 1) (replicate 16 2) = true /\
    Udp.verify_checksum {| Udp.data := <[9%nat := 7]> d |} (replicate 16 1) (replicate 16 2) = false.
Proof.
  destruct (udp_datagram_verifies (replicate 16 1) (replicate 16 2) [1; 2; 3] (replicate 12 255) 5683 5683) as (d & Hw & (_ & _ & _ & _ & _ & Hv) & _).
  - apply Forall_replicate. by vm_compute.
  - apply Forall_replicate. by vm_compute.
  - repeat (constructor; [by vm_compute |]). constructor.
  - by vm_compute.
  - by vm_compute.
  - cbn. lia.
  - cbn. lia.
  - exists d. assert (length d = 11%nat) as Hl.
    { pose proof (f_equal (fun r => length (snd r)) Hw) as Hw'. clear Hw. rename Hw' into Hw. cbn [snd] in Hw. rewrite length_app in Hw.
      change (length (drop (8 + length [1; 2; 3]) (replicate 12 255))) with 1%nat in Hw.
      match type of Hw with ?n = _ => change n with 12%nat in Hw end. lia. }
    split; [exact Hw |]. split; [exact Hl |]. split; [exact Hv |].
    assert (d = take 11 (snd (Udp.write_datagram (replicate 16 1) (replicate 16 2) 5683 5683 [1; 2; 3] (replicate 12 255)))) as ->.
    { rewrite Hw. cbn [snd]. rewrite <- Hl. by rewrite take_app_length. }
    vm_compute. reflexivity.
Defined.

End NetVerify.
