(* ===== verification/Observe.v ===== *)
(** * CoAP Observe (lichen-coap/src/observe.rs)

    Both sides of RFC 7641 on fixed-capacity registries: the server's observers
    with their cached confirmable notifications and retry schedule, and the
    client's subscriptions with 24-bit serial ordering.  A registry array is the
    list of its slots; the endpoint type is a parameter with decidable equality,
    as the source's [Peer: Copy + Eq]. *)

From S2P Require Import Prelude Coap.
Import Coap.
Open Scope Z_scope.

Module Observe.

Definition OBSERVE_MAX_VALUE : Z := 0x00ffffff.
Definition OBSERVE_HALF_RANGE : Z := 0x00800000.
Definition OBSERVE_FRESHNESS_TIMEOUT_MS : Z := 128000.

Inductive ObserveError :=
  | InvalidObserveValue | InvalidRequestValue | TokenTooLong | RegistryFull | NotFound | Backpressure
  | PacketTooLarge | StaleSequence | AmbiguousSequence | WrongResource | InvalidBlockwise | InvalidTimeout.

(** ** The option value *)

Definition decode_observe_value (value : bytes) : result ObserveError Z :=
  if (3 <? length value)%nat || bool_decide (head value = Some 0) then Err InvalidObserveValue
  else Ok (foldl (fun decoded b => Z.lor (Z.shiftl decoded 8) b) 0 value).

Definition encode_observe_value (value : Z) : result ObserveError (bytes * nat) :=
  if OBSERVE_MAX_VALUE <? value then Err InvalidObserveValue
  else
    let b := to_be 4 value in
    let length := if value =? 0 then 0%nat else if value <=? 0xff then 1%nat else if value <=? 0xffff then 2%nat else 3%nat in
    let encoded := replicate 3 0 in
    let encoded := if (0 <? length)%nat then list_inserts 0 (drop (4 - length) b) encoded else encoded in
    Ok (encoded, length).

Inductive ObserveRequest := Register | Deregister.
Definition decode_request (option : option bytes) : result ObserveError (Datatypes.option ObserveRequest) :=
  match option with
  | None => Ok None
  | Some value =>
      v ← decode_observe_value value;
      if v =? 0 then Ok (Some Register) else if v =? 1 then Ok (Some Deregister) else Err InvalidRequestValue
  end.

Definition is_observe (o : CoapOption) : bool := number o =? option_u16 Coap.Observe.
Definition as_observe (o : CoapOption) : result ObserveError Z :=
  if negb (is_observe o) then Err InvalidObserveValue else decode_observe_value (Coap.value o).
Definition builder_observe (b : CoapBuilder) (v : Z) : option (result CoapError unit * CoapBuilder) :=
  match encode_observe_value v with
  | Err _ => Some (Err UintOptionTooLong, b)
  | Ok (encoded, length) => add_option b (option_u16 Coap.Observe) (take length encoded)
  end.

(** ** Sequences: [ObserveSequence] is its value *)

Inductive SequenceRelation := Equal | Newer | Older | Ambiguous.
#[export] Instance SequenceRelation_eq_dec : EqDecision SequenceRelation.
Proof. solve_decision. Defined.

Definition sequence_new (value : Z) : result ObserveError Z :=
  if OBSERVE_MAX_VALUE <? value then Err InvalidObserveValue else Ok value.
Definition sequence_next (s : Z) : Z := Z.land (s + 1) OBSERVE_MAX_VALUE.
Definition relation_to (s previous : Z) : SequenceRelation :=
  let difference := Z.land (wrap32 (s - previous)) OBSERVE_MAX_VALUE in
  if difference =? 0 then Equal
  else if difference <? OBSERVE_HALF_RANGE then Newer
  else if difference =? OBSERVE_HALF_RANGE then Ambiguous
  else Older.

Definition deadline (now_ms timeout_ms : Z) : Z := saturating_add u64_max now_ms timeout_ms.

(** [iter().position(..)] and the index of [iter_mut().find(..)]. *)
Fixpoint position {A} (P : A -> bool) (l : list A) : option nat :=
  match l with
  | [] => None
  | x :: l => if P x then Some 0%nat else S <$> position P l
  end.
(** [entry.as_ref().is_some_and(..)]. *)
Definition is_some_and {A} (P : A -> bool) (o : option A) : bool := match o with Some x => P x | None => false end.
Definition is_none {A} (o : option A) : bool := match o with Some _ => false | None => true end.
(** [iter().flatten()]. *)
Definition flatten {A} (l : list (option A)) : list A := omap id l.

Section observe.
Context {Peer : Type} `{EqDecision Peer}.

Record ObserveKey := { peer : Peer; token : bytes; token_len : Z }.
#[export] Instance ObserveKey_eq_dec : EqDecision ObserveKey.
Proof. solve_decision. Defined.
Definition key_new (p : Peer) (tok : bytes) : result ObserveError ObserveKey :=
  if (MAX_TOKEN_LEN <? length tok)%nat then Err TokenTooLong
  else Ok {| peer := p; token := list_inserts 0 tok (replicate MAX_TOKEN_LEN 0); token_len := wrap8 (Z.of_nat (length tok)) |}.
Definition key_token (k : ObserveKey) : bytes := take (Z.to_nat (token_len k)) (token k).

(** ** The server's registry *)

Record PendingNotification := {
  pn_sequence : Z;
  pn_message_id : Z;
  pn_wire : bytes;
  pn_wire_len : nat;
  pn_confirmable : bool;
  pn_attempts : Z;
  pn_due_at_ms : Z
}.
Record ServerObserver := {
  so_key : ObserveKey;
  so_resource : Z;
  so_expires_at_ms : Z;
  so_last_sequence : option Z;
  so_pending : option PendingNotification
}.
Record ObserverInfo := { oi_key : ObserveKey; oi_resource : Z }.
Record ObserveDelivery := {
  od_key : ObserveKey;
  od_sequence : Z;
  od_message_id : Z;
  od_wire : bytes;
  od_wire_len : nat;
  od_confirmable : bool;
  od_retransmission : bool
}.
Definition delivery_wire (d : ObserveDelivery) : bytes := take (od_wire_len d) (od_wire d).
Record ServerNotification := {
  sn_resource : Z;
  sn_sequence : Z;
  sn_message_id : Z;
  sn_confirmable : bool;
  sn_wire : bytes;
  sn_now_ms : Z
}.
Record ObserveServer := {
  sv_entries : list (option ServerObserver);
  idle_timeout_ms : Z;
  ack_timeout_ms : Z;
  max_retransmit : Z
}.
Definition with_entries (s : ObserveServer) (l : list (option ServerObserver)) : ObserveServer :=
  {| sv_entries := l; idle_timeout_ms := idle_timeout_ms s; ack_timeout_ms := ack_timeout_ms s; max_retransmit := max_retransmit s |}.

Definition server_new (OBSERVERS : nat) (idle ack max : Z) : result ObserveError ObserveServer :=
  if (idle =? 0) || (ack =? 0) then Err InvalidTimeout
  else Ok {| sv_entries := replicate OBSERVERS None; idle_timeout_ms := idle; ack_timeout_ms := ack; max_retransmit := max |}.

Definition has_key (k : ObserveKey) (e : ServerObserver) : bool := bool_decide (so_key e = k).

Definition register (s : ObserveServer) (k : ObserveKey) (resource now_ms : Z) : result ObserveError unit * ObserveServer :=
  let replacement := {| so_key := k; so_resource := resource; so_expires_at_ms := deadline now_ms (idle_timeout_ms s);
    so_last_sequence := None; so_pending := None |} in
  match position (is_some_and (has_key k)) (sv_entries s) with
  | Some i => (Ok tt, with_entries s (<[i := Some replacement]> (sv_entries s)))
  | None =>
      match position is_none (sv_entries s) with
      | None => (Err RegistryFull, s)
      | Some i => (Ok tt, with_entries s (<[i := Some replacement]> (sv_entries s)))
      end
  end.

Definition deregister (s : ObserveServer) (k : ObserveKey) : bool * ObserveServer :=
  match position (is_some_and (has_key k)) (sv_entries s) with
  | Some i => (true, with_entries s (<[i := None]> (sv_entries s)))
  | None => (false, s)
  end.

Definition server_contains (s : ObserveServer) (k : ObserveKey) : bool := existsb (has_key k) (flatten (sv_entries s)).
Definition server_len (s : ObserveServer) : nat := length (flatten (sv_entries s)).
Definition server_is_empty (s : ObserveServer) : bool := (server_len s =? 0)%nat.
Definition observers (s : ObserveServer) (resource : Z) : list ObserverInfo :=
  omap (fun entry => e ← entry;
    if so_resource e =? resource then Some {| oi_key := so_key e; oi_resource := resource |} else None) (sv_entries s).

Definition queued (e : ServerObserver) (idle : Z) (MAX_WIRE : nat) (n : ServerNotification) : ServerObserver :=
  {| so_key := so_key e; so_resource := so_resource e;
     so_expires_at_ms := deadline (sn_now_ms n) idle;
     so_last_sequence := Some (sn_sequence n);
     so_pending := Some {| pn_sequence := sn_sequence n; pn_message_id := sn_message_id n;
       pn_wire := list_inserts 0 (sn_wire n) (replicate MAX_WIRE 0); pn_wire_len := length (sn_wire n);
       pn_confirmable := sn_confirmable n; pn_attempts := 0; pn_due_at_ms := sn_now_ms n |} |}.

Definition queue_notification (MAX_WIRE : nat) (s : ObserveServer) (k : ObserveKey) (n : ServerNotification) :
    result ObserveError unit * ObserveServer :=
  if (MAX_WIRE <? length (sn_wire n))%nat then (Err PacketTooLarge, s)
  else
    match position (is_some_and (has_key k)) (sv_entries s) with
    | None => (Err NotFound, s)
    | Some i =>
        match sv_entries s !! i with
        | Some (Some e) =>
            if negb (so_resource e =? sn_resource n) then (Err WrongResource, s)
            else if bool_decide (is_Some (so_pending e)) then (Err Backpressure, s)
            else
              let go := (Ok tt, with_entries s (<[i := Some (queued e (idle_timeout_ms s) MAX_WIRE n)]> (sv_entries s))) in
              match so_last_sequence e with
              | Some previous =>
                  match relation_to (sn_sequence n) previous with
                  | Newer => go
                  | Ambiguous => (Err AmbiguousSequence, s)
                  | Equal | Older => (Err StaleSequence, s)
                  end
              | None => go
              end
        | _ => (Err NotFound, s)
        end
    end.

Definition permitted_attempts (max : Z) : Z := saturating_add u8_max max 1.
Definition delivery_of (e : ServerObserver) (p : PendingNotification) : ObserveDelivery :=
  {| od_key := so_key e; od_sequence := pn_sequence p; od_message_id := pn_message_id p; od_wire := pn_wire p;
     od_wire_len := pn_wire_len p; od_confirmable := pn_confirmable p; od_retransmission := 0 <? pn_attempts p |}.
Definition set_pending (e : ServerObserver) (p : option PendingNotification) : ServerObserver :=
  {| so_key := so_key e; so_resource := so_resource e; so_expires_at_ms := so_expires_at_ms e;
     so_last_sequence := so_last_sequence e; so_pending := p |}.
(** The entry after its pending notification was handed out. *)
Definition served (e : ServerObserver) (p : PendingNotification) (ack now_ms : Z) : ServerObserver :=
  if negb (pn_confirmable p) then set_pending e None
  else set_pending e (Some {| pn_sequence := pn_sequence p; pn_message_id := pn_message_id p; pn_wire := pn_wire p;
    pn_wire_len := pn_wire_len p; pn_confirmable := pn_confirmable p;
    pn_attempts := saturating_add u8_max (pn_attempts p) 1; pn_due_at_ms := deadline now_ms ack |}).

Fixpoint next_due_loop (l : list (option ServerObserver)) (ack max now_ms : Z) : option ObserveDelivery * list (option ServerObserver) :=
  match l with
  | [] => (None, [])
  | slot :: l =>
      let skip slot := let '(r, l) := next_due_loop l ack max now_ms in (r, slot :: l) in
      match slot with
      | None => skip slot
      | Some entry =>
          match so_pending entry with
          | None => skip slot
          | Some pending =>
              if now_ms <? pn_due_at_ms pending then skip slot
              else if permitted_attempts max <=? pn_attempts pending then skip None
              else (Some (delivery_of entry pending), Some (served entry pending ack now_ms) :: l)
          end
      end
  end.
Definition next_due (s : ObserveServer) (now_ms : Z) : option ObserveDelivery * ObserveServer :=
  let '(r, l) := next_due_loop (sv_entries s) (ack_timeout_ms s) (max_retransmit s) now_ms in (r, with_entries s l).

Definition pending_is (p : Peer) (message_id : Z) (e : ServerObserver) : bool :=
  bool_decide (peer (so_key e) = p) && is_some_and (fun n => pn_message_id n =? message_id) (so_pending e).

Definition acknowledge (s : ObserveServer) (p : Peer) (message_id now_ms : Z) : bool * ObserveServer :=
  match position (is_some_and (pending_is p message_id)) (sv_entries s) with
  | Some i =>
      match sv_entries s !! i with
      | Some (Some e) =>
          (true, with_entries s (<[i := Some {| so_key := so_key e; so_resource := so_resource e;
            so_expires_at_ms := deadline now_ms (idle_timeout_ms s); so_last_sequence := so_last_sequence e;
            so_pending := None |}]> (sv_entries s)))
      | _ => (false, s)
      end
  | None => (false, s)
  end.

Definition server_reset (s : ObserveServer) (p : Peer) (message_id : Z) : bool * ObserveServer :=
  match position (is_some_and (pending_is p message_id)) (sv_entries s) with
  | Some i => (true, with_entries s (<[i := None]> (sv_entries s)))
  | None => (false, s)
  end.

(** The slots after a sweep, and how many were emptied. *)
Definition sweep {A} (expired : A -> bool) (l : list (option A)) : nat * list (option A) :=
  (length (filter (fun e => is_some_and expired e = true) l), map (fun e => if is_some_and expired e then None else e) l).
Definition server_cleanup (s : ObserveServer) (now_ms : Z) : nat * ObserveServer :=
  let '(removed, l) := sweep (fun e => so_expires_at_ms e <=? now_ms) (sv_entries s) in (removed, with_entries s l).

(** ** The client's subscriptions *)

Inductive ClientState := Registering | Established (sequence received_at_ms : Z).
Record ClientSubscription := {
  cs_key : ObserveKey;
  cs_resource : Z;
  cs_expires_at_ms : Z;
  cs_last_message_id : option Z;
  cs_state : ClientState
}.
Record ClientNotification := {
  cn_message_type : MessageType;
  cn_message_id : Z;
  cn_observe : option Z;
  cn_block2_num : option Z;
  cn_max_age_ms : Z
}.
Inductive ClientEvent :=
  | Registered (sequence : Z)
  | Notification (sequence : Z) (fresh_by_time : bool)
  | EvDuplicate | EvStale | EvAmbiguous | BlockContinuation | Terminated.

(** [ObserveClient] is its array. *)
Definition ObserveClient := list (option ClientSubscription).
Definition client_new (SUBSCRIPTIONS : nat) : ObserveClient := replicate SUBSCRIPTIONS None.
Definition sub_key (k : ObserveKey) (c : ClientSubscription) : bool := bool_decide (cs_key c = k).

Definition subscribe (c : ObserveClient) (k : ObserveKey) (resource now_ms registration_timeout_ms : Z) :
    result ObserveError unit * ObserveClient :=
  if registration_timeout_ms =? 0 then (Err InvalidTimeout, c)
  else
    let subscription := {| cs_key := k; cs_resource := resource; cs_expires_at_ms := deadline now_ms registration_timeout_ms;
      cs_last_message_id := None; cs_state := Registering |} in
    match position (is_some_and (sub_key k)) c with
    | Some i => (Ok tt, <[i := Some subscription]> c)
    | None =>
        match position is_none c with
        | None => (Err RegistryFull, c)
        | Some i => (Ok tt, <[i := Some subscription]> c)
        end
    end.

Definition cancel (c : ObserveClient) (k : ObserveKey) : bool * ObserveClient :=
  match position (is_some_and (sub_key k)) c with
  | Some i => (true, <[i := None]> c)
  | None => (false, c)
  end.
Definition client_contains (c : ObserveClient) (k : ObserveKey) : bool := existsb (sub_key k) (flatten c).
Definition client_len (c : ObserveClient) : nat := length (flatten c).
Definition client_is_empty (c : ObserveClient) : bool := (client_len c =? 0)%nat.

(** The entry with a new deadline, message identifier and state. *)
Definition refreshed (e : ClientSubscription) (st : ClientState) (n : ClientNotification) (now_ms : Z) : ClientSubscription :=
  {| cs_key := cs_key e; cs_resource := cs_resource e; cs_expires_at_ms := deadline now_ms (cn_max_age_ms n);
     cs_last_message_id := Some (cn_message_id n); cs_state := st |}.

(** The event of a sequence in a state, and whether it advances the state. *)
Definition classify (st : ClientState) (sequence now_ms : Z) : ClientEvent * bool :=
  match st with
  | Registering => (Registered sequence, true)
  | Established previous received_at_ms =>
      let elapsed := saturating_sub now_ms received_at_ms in
      match relation_to sequence previous with
      | Newer => (Notification sequence false, true)
      | r =>
          if OBSERVE_FRESHNESS_TIMEOUT_MS <? elapsed then (Notification sequence true, true)
          else match r with Equal => (EvDuplicate, false) | Older => (EvStale, false) | _ => (EvAmbiguous, false) end
      end
  end.

Definition client_process (c : ObserveClient) (k : ObserveKey) (resource : Z) (n : ClientNotification) (now_ms : Z) :
    result ObserveError ClientEvent * ObserveClient :=
  match position (is_some_and (sub_key k)) c with
  | None => (Err NotFound, c)
  | Some index =>
      match c !! index with
      | Some (Some current) =>
          if negb (cs_resource current =? resource) then (Err WrongResource, c)
          else if (match cn_message_type n with Reset => true | _ => false end) then (Ok Terminated, <[index := None]> c)
          else if cn_max_age_ms n =? 0 then (Err InvalidTimeout, c)
          else if is_some_and (fun number => 0 <? number) (cn_block2_num n) then
            if bool_decide (is_Some (cn_observe n)) || (match cs_state current with Established _ _ => false | Registering => true end)
            then (Err InvalidBlockwise, c)
            else (Ok BlockContinuation, <[index := Some (refreshed current (cs_state current) n now_ms)]> c)
          else
            match cn_observe n with
            | None => (Ok Terminated, <[index := None]> c)
            | Some raw_sequence =>
                match sequence_new raw_sequence with
                | Err e => (Err e, c)
                | Ok sequence =>
                    match classify (cs_state current) sequence now_ms with
                    | (event, false) => (Ok event, c)
                    | (event, true) => (Ok event, <[index := Some (refreshed current (Established sequence now_ms) n now_ms)]> c)
                    end
                end
            end
      | _ => (Err NotFound, c)
      end
  end.

Definition client_reset (c : ObserveClient) (p : Peer) (message_id : Z) : bool * ObserveClient :=
  match position (is_some_and (fun e => bool_decide (peer (cs_key e) = p) && bool_decide (cs_last_message_id e = Some message_id))) c with
  | Some i => (true, <[i := None]> c)
  | None => (false, c)
  end.
Definition client_cleanup (c : ObserveClient) (now_ms : Z) : nat * ObserveClient :=
  sweep (fun e => cs_expires_at_ms e <=? now_ms) c.

End observe.
End Observe.
