(* ===== verification/ObserveInv.v ===== *)
(** * Observe: notifications are exact, retries bounded, order kept

    The server hands out exactly the cached bytes, at most the permitted number
    of times and spaced by the acknowledgement timeout, in every sequence of
    operations; polling serves every due notification; the client's view only
    moves forward. *)

From S2P Require Import Prelude Coap Observe.
Import Observe.
Open Scope Z_scope.

Create HintDb keeps.

Module ObserveInv.

(** ** Positions in a registry *)

Lemma position_some {A} (P : A -> bool) (l : list A) i : position P l = Some i ->
  (exists x, l !! i = Some x /\ P x = true) /\ (i < length l)%nat.
Proof.
  revert i. induction l as [|x l IH]; intros i; cbn [position]; [done |]. destruct (P x) eqn:E.
  - intros [= <-]. split; [by exists x | cbn; lia].
  - destruct (position P l) as [j|]; [| done]. intros [= <-]. destruct (IH j eq_refl) as [(y & Hy & Hp) Hl].
    split; [by exists y | cbn; lia].
Qed.
Lemma position_none {A} (P : A -> bool) (l : list A) : position P l = None -> forall i x, l !! i = Some x -> P x = false.
Proof.
  induction l as [|x l IH]; intros Hn i y Hi; [done |]. cbn [position] in Hn. destruct (P x) eqn:E; [done |].
  destruct (position P l); [done |]. destruct i as [|i]; cbn in Hi; [by simplify_eq | by eapply IH].
Qed.

Section server.
Context {Peer : Type} `{EqDecision Peer}.
Abbreviation Key := (ObserveKey (Peer := Peer)).
Abbreviation Entry := (ServerObserver (Peer := Peer)).

Lemma position_entry (P : Entry -> bool) (l : list (option Entry)) i : position (is_some_and P) l = Some i ->
  exists e, l !! i = Some (Some e) /\ P e = true.
Proof. intros ([[e|] [Hl Hp]] & _)%position_some; [by exists e | done]. Qed.

(** No two observers share endpoint and token. *)
Definition uniq (l : list (option Entry)) : Prop :=
  forall i j e e', l !! i = Some (Some e) -> l !! j = Some (Some e') -> so_key e = so_key e' -> i = j.

(** Every entry of [l'] is at the place of one of [l] with its key. *)
Definition keeps_keys (l l' : list (option Entry)) : Prop :=
  forall i e', l' !! i = Some (Some e') -> exists e, l !! i = Some (Some e) /\ so_key e = so_key e'.

Lemma uniq_keeps l l' : keeps_keys l l' -> uniq l -> uniq l'.
Proof.
  intros Hk Hu i j e e' Hi Hj E. apply Hk in Hi as (x & Hi & Ex), Hj as (y & Hj & Ey). eapply Hu; [exact Hi | exact Hj | congruence].
Qed.
Lemma insert_slot (l : list (option Entry)) i x j y : <[i := x]> l !! j = Some y ->
  (j = i /\ y = x) \/ (j <> i /\ l !! j = Some y).
Proof. intros [(-> & -> & _) | [? ?]]%list_lookup_insert_Some; [by left | by right]. Qed.

Lemma keeps_insert l i e e' : l !! i = Some (Some e) -> so_key e' = so_key e -> keeps_keys l (<[i := Some e']> l).
Proof. intros Hi E j x [[-> [= ->]] | [_ Hj]]%insert_slot; [by exists e | by exists x]. Qed.
Lemma keeps_remove l i : keeps_keys l (<[i := None]> l).
Proof. intros j x [[_ ?] | [_ Hj]]%insert_slot; [done | by exists x]. Qed.
Lemma keeps_map l (f : Entry -> bool) : keeps_keys l (map (fun e => if is_some_and f e then None else e) l).
Proof.
  intros i x Hx. rewrite list_lookup_fmap in Hx. destruct (l !! i) as [[e|]|] eqn:E; cbn in Hx; [| done | done].
  destruct (f e); simplify_eq. by exists x.
Qed.

(** ** One poll *)

Definition exhausted (max now : Z) (e : Entry) : Prop :=
  exists p, so_pending e = Some p /\ pn_due_at_ms p <= now /\ permitted_attempts max <= pn_attempts p.
(** What a poll leaves of a slot it does not serve. *)
Definition passed (max now : Z) (x x' : option Entry) : Prop :=
  x' = x \/ (x' = None /\ exists e, x = Some e /\ exhausted max now e).
Definition not_due (now : Z) (x : option Entry) : Prop :=
  forall e p, x = Some e -> so_pending e = Some p -> now < pn_due_at_ms p.

Lemma next_due_spec (ack max now : Z) (l : list (option Entry)) :
  let '(r, l') := next_due_loop l ack max now in length l' = length l /\
  match r with
  | None => forall i x', l' !! i = Some x' -> not_due now x' /\ exists x, l !! i = Some x /\ passed max now x x'
  | Some d => exists i e p, l !! i = Some (Some e) /\ so_pending e = Some p /\ pn_due_at_ms p <= now /\
      pn_attempts p < permitted_attempts max /\ d = delivery_of e p /\ l' !! i = Some (Some (served e p ack now)) /\
      (forall j x', j <> i -> l' !! j = Some x' -> exists x, l !! j = Some x /\ passed max now x x') /\
      (forall j x', (j < i)%nat -> l' !! j = Some x' -> not_due now x') /\ (forall j, (i < j)%nat -> l' !! j = l !! j)
  end.
Proof.
  induction l as [|slot l IH]; cbn [next_due_loop]; [by split |].
  assert (forall slot', passed max now slot slot' -> not_due now slot' ->
    let '(r, l') := (let '(r, l0) := next_due_loop l ack max now in (r, slot' :: l0)) in length l' = length (slot :: l) /\
    match r with
    | None => forall i x', l' !! i = Some x' -> not_due now x' /\ exists x, (slot :: l) !! i = Some x /\ passed max now x x'
    | Some d => exists i e p, (slot :: l) !! i = Some (Some e) /\ so_pending e = Some p /\ pn_due_at_ms p <= now /\
        pn_attempts p < permitted_attempts max /\ d = delivery_of e p /\ l' !! i = Some (Some (served e p ack now)) /\
        (forall j x', j <> i -> l' !! j = Some x' -> exists x, (slot :: l) !! j = Some x /\ passed max now x x') /\
        (forall j x', (j < i)%nat -> l' !! j = Some x' -> not_due now x') /\ (forall j, (i < j)%nat -> l' !! j = (slot :: l) !! j)
    end) as Hskip.
  { intros slot' Hp Hnd. destruct (next_due_loop l ack max now) as [r l']. destruct IH as [Hl IH]. split; [cbn; lia |].
    destruct r as [d|].
    - destruct IH as (i & e & p & H1 & H2 & H3 & H4 & H5 & H6 & H7 & H8 & H9). exists (S i), e, p. split_and!; try done.
      + intros [|j] x' Hj Hx; cbn in *; [simplify_eq; by exists slot | apply H7; [lia | done]].
      + intros [|j] x' Hj Hx; cbn in *; [by simplify_eq | apply (H8 j); [lia | done]].
      + intros [|j] Hj; [lia |]. cbn. apply H9. lia.
    - intros [|i] x' Hx; cbn in *; [simplify_eq; split; [done | by exists slot] | by apply IH]. }
  destruct slot as [e|]; [| apply Hskip; [by left | done]].
  destruct (so_pending e) as [p|] eqn:Ep; [| apply Hskip; [by left | intros ? ? [= <-] ?; congruence]].
  destruct (now <? pn_due_at_ms p) eqn:Ed; bool_to_prop.
  { apply Hskip; [by left |]. intros e' p' [= <-] Hp'. congruence. }
  destruct (permitted_attempts max <=? pn_attempts p) eqn:Ea; bool_to_prop.
  { apply Hskip; [| done]. right. split; [done |]. exists e. split; [done |]. exists p. split_and!; [done | lia | done]. }
  split; [done |]. exists 0%nat, e, p. split_and!; try done; [| intros; lia | by intros [|j] Hj; [lia |]].
  intros [|j] x' Hj Hx; [done |]. exists x'. split; [done | by left].
Qed.

Lemma served_key (e : Entry) p ack now : so_key (served e p ack now) = so_key e.
Proof. unfold served. by destruct (negb _). Qed.

Lemma keeps_poll ack max now (l : list (option Entry)) : keeps_keys l (snd (next_due_loop l ack max now)).
Proof.
  pose proof (next_due_spec ack max now l) as Hs. destruct (next_due_loop l ack max now) as [[d|] l']; destruct Hs as [_ Hs]; cbn.
  - destruct Hs as (i & e & p & H1 & _ & _ & _ & _ & H6 & H7 & _). intros j x Hj. destruct (decide (j = i)) as [-> |Hne].
    + rewrite H6 in Hj. simplify_eq. exists e. by rewrite served_key.
    + destruct (H7 _ _ Hne Hj) as (y & Hy & [<- | [? _]]); [by exists x | done].
  - intros j x Hj. destruct (Hs _ _ Hj) as (_ & y & Hy & [<- | [? _]]); [by exists x | done].
Qed.

(** ** Runs *)

Inductive op :=
  | OpRegister (k : Key) (resource now : Z)
  | OpDeregister (k : Key)
  | OpQueue (k : Key) (n : ServerNotification)
  | OpPoll (now : Z)
  | OpAck (p : Peer) (message_id now : Z)
  | OpReset (p : Peer) (message_id : Z)
  | OpCleanup (now : Z).

Context (MAX_WIRE : nat) (key : Key).

(** The server with what is observed of [key]: its last accepted notification
    since it registered, and the deliveries of that notification with their
    times. *)
Record observed := {
  ob_server : ObserveServer (Peer := Peer);
  ob_note : option ServerNotification;
  ob_log : list (Z * ObserveDelivery (Peer := Peer))
}.

Definition step (o : observed) (x : op) : observed :=
  let s := ob_server o in
  match x with
  | OpRegister k resource now =>
      let '(r, s) := register s k resource now in
      if is_ok r && bool_decide (k = key) then {| ob_server := s; ob_note := None; ob_log := [] |}
      else {| ob_server := s; ob_note := ob_note o; ob_log := ob_log o |}
  | OpDeregister k => {| ob_server := snd (deregister s k); ob_note := ob_note o; ob_log := ob_log o |}
  | OpQueue k n =>
      let '(r, s) := queue_notification MAX_WIRE s k n in
      if is_ok r && bool_decide (k = key) then {| ob_server := s; ob_note := Some n; ob_log := [] |}
      else {| ob_server := s; ob_note := ob_note o; ob_log := ob_log o |}
  | OpPoll now =>
      match next_due s now with
      | (Some d, s) => {| ob_server := s; ob_note := ob_note o;
          ob_log := if bool_decide (od_key d = key) then ob_log o ++ [(now, d)] else ob_log o |}
      | (None, s) => {| ob_server := s; ob_note := ob_note o; ob_log := ob_log o |}
      end
  | OpAck p message_id now => {| ob_server := snd (acknowledge s p message_id now); ob_note := ob_note o; ob_log := ob_log o |}
  | OpReset p message_id => {| ob_server := snd (server_reset s p message_id); ob_note := ob_note o; ob_log := ob_log o |}
  | OpCleanup now => {| ob_server := snd (server_cleanup s now); ob_note := ob_note o; ob_log := ob_log o |}
  end.
Definition run (s : ObserveServer) (ops : list op) : observed :=
  foldl step {| ob_server := s; ob_note := None; ob_log := [] |} ops.

(** A delivery is of the notification: its bytes, identifier and sequence. *)
Record delivers (n : ServerNotification) (d : ObserveDelivery (Peer := Peer)) : Prop := {
  dv_key : od_key d = key;
  dv_wire : delivery_wire d = sn_wire n;
  dv_id : od_message_id d = sn_message_id n;
  dv_sequence : od_sequence d = sn_sequence n;
  dv_confirmable : od_confirmable d = sn_confirmable n
}.

(** The deliveries of one notification: exact, the first one fresh and the others
    retransmissions, none before its time, spaced, bounded. *)
Record log_ok (ack max : Z) (n : ServerNotification) (log : list (Z * ObserveDelivery (Peer := Peer))) : Prop := {
  lg_exact : forall i t d, log !! i = Some (t, d) -> delivers n d /\ od_retransmission d = negb (i =? 0)%nat;
  lg_start : forall t d, log !! 0%nat = Some (t, d) -> sn_now_ms n <= t;
  lg_spaced : forall i t d t' d', log !! i = Some (t, d) -> log !! S i = Some (t', d') -> deadline t ack <= t';
  lg_bound : Z.of_nat (length log) <= permitted_attempts max;
  lg_once : sn_confirmable n = false -> (length log <= 1)%nat
}.

(** When the next delivery is due. *)
Definition next_time (ack : Z) (n : ServerNotification) (log : list (Z * ObserveDelivery (Peer := Peer))) : Z :=
  match last log with None => sn_now_ms n | Some (t, _) => deadline t ack end.

(** The pending notification of an entry is the one that was queued, after the
    logged deliveries. *)
Record pending_ok (ack : Z) (n : ServerNotification) (log : list (Z * ObserveDelivery (Peer := Peer))) (p : PendingNotification) : Prop := {
  po_wire : take (pn_wire_len p) (pn_wire p) = sn_wire n;
  po_id : pn_message_id p = sn_message_id n;
  po_sequence : pn_sequence p = sn_sequence n;
  po_confirmable : pn_confirmable p = sn_confirmable n;
  po_attempts : pn_attempts p = Z.of_nat (length log);
  po_due : pn_due_at_ms p = next_time ack n log;
  po_fresh : sn_confirmable n = false -> log = []
}.

Definition entries_ok (l : list (option Entry)) (ack : Z) (note : option ServerNotification) (log : list (Z * ObserveDelivery (Peer := Peer))) : Prop :=
  forall e p, Some e ∈ l -> so_key e = key -> so_pending e = Some p -> exists n, note = Some n /\ pending_ok ack n log p.

Record observed_ok (ack max : Z) (o : observed) : Prop := {
  oo_ack : ack_timeout_ms (ob_server o) = ack;
  oo_max : max_retransmit (ob_server o) = max;
  oo_uniq : uniq (sv_entries (ob_server o));
  oo_entries : entries_ok (sv_entries (ob_server o)) ack (ob_note o) (ob_log o);
  oo_log : match ob_note o with None => ob_log o = [] | Some n => log_ok ack max n (ob_log o) end
}.

(** An entry of [key] with something pending was so before. *)
Definition keeps_pending (l l' : list (option Entry)) : Prop :=
  forall i e', l' !! i = Some (Some e') -> so_key e' = key -> is_Some (so_pending e') -> l !! i = Some (Some e').

Lemma entries_keep l l' ack note log : keeps_pending l l' -> entries_ok l ack note log -> entries_ok l' ack note log.
Proof.
  intros Hk Ho e p Hin He Hp. apply list_elem_of_lookup in Hin as [i Hi]. apply (Ho e p); [| done | done].
  eapply list_elem_of_lookup_2, (Hk i); [done | done | by eexists].
Qed.

Lemma log_nil ack max n : 0 <= max -> log_ok ack max n [].
Proof. intros Hm. split; try done; cbn; unfold permitted_attempts, saturating_add, u8_max; lia. Qed.

(** A change that leaves the log as it is. *)
Lemma ok_quiet ack max o s : observed_ok ack max o -> ack_timeout_ms s = ack -> max_retransmit s = max ->
  keeps_keys (sv_entries (ob_server o)) (sv_entries s) -> keeps_pending (sv_entries (ob_server o)) (sv_entries s) ->
  observed_ok ack max {| ob_server := s; ob_note := ob_note o; ob_log := ob_log o |}.
Proof.
  intros [H1 H2 H3 H4 H5] Ha Hm Hk Hp. split; cbn; [done | done | by eapply uniq_keeps | by eapply entries_keep | done].
Qed.

Lemma has_key_spec (k : Key) (e : Entry) : has_key k e = true <-> so_key e = k.
Proof. unfold has_key. apply bool_decide_eq_true. Qed.

(** Setting the one slot of [key]: no other slot has it. *)
Lemma entries_set l i e ack note log : l !! i = Some (Some e) -> so_key e = key -> uniq l -> forall e',
  (forall p, so_pending e' = Some p -> exists n, note = Some n /\ pending_ok ack n log p) ->
  entries_ok (<[i := Some e']> l) ack note log.
Proof.
  intros Hi He Hu e' Hp x p Hin Hx Hpx. apply list_elem_of_lookup in Hin as [j Hj].
  apply insert_slot in Hj as [[-> [= ->]] | [Hne Hj]]; [by apply Hp |]. destruct Hne. eapply Hu; [exact Hj | exact Hi | congruence].
Qed.
Lemma keeps_pending_set l i e' : so_key e' <> key \/ so_pending e' = None -> keeps_pending l (<[i := Some e']> l).
Proof.
  intros He j x [[-> [= ->]] | [_ Hj]]%insert_slot Hk Hp; [| done]. destruct He as [?|He]; [done |]. rewrite He in Hp. by destruct Hp.
Qed.
Lemma keeps_pending_remove l i : keeps_pending l (<[i := None]> l).
Proof. intros j x [[_ ?] | [_ Hj]]%insert_slot Hk Hp; done. Qed.

Lemma step_register ack max o k resource now : observed_ok ack max o -> observed_ok ack max (step o (OpRegister k resource now)).
Proof.
  intros Hok. pose proof Hok as [H1 H2 H3 H4 H5]. cbn [step]. unfold register.
  set (e' := {| so_key := k; so_resource := resource |}).
  destruct (position (is_some_and (has_key k)) _) as [i|] eqn:E.
  - apply position_entry in E as (e & Hi & He). apply has_key_spec in He. cbn [is_ok andb].
    assert (keeps_keys (sv_entries (ob_server o)) (<[i := Some e']> (sv_entries (ob_server o)))) as Hk by (by eapply keeps_insert).
    case_bool_decide as Ek.
    + split; cbn; [done | done | by eapply uniq_keeps | | done]. eapply entries_set; [exact Hi | congruence | done |]. done.
    + apply ok_quiet; try done. apply keeps_pending_set. by right.
  - destruct (position is_none _) as [i|] eqn:Ef; cbn [is_ok andb]; [| by destruct o].
    assert (forall j x, sv_entries (ob_server o) !! j = Some (Some x) -> so_key x <> k) as Hfree.
    { intros j x Hj Hx. pose proof (position_none _ _ E _ _ Hj) as Hn. cbn in Hn. apply has_key_spec in Hx. congruence. }
    assert (uniq (<[i := Some e']> (sv_entries (ob_server o)))) as Hu.
    { intros j1 j2 x y [[-> [= ->]] | [N1 J1]]%insert_slot [[-> [= ->]] | [N2 J2]]%insert_slot Exy; [done | | | by eapply H3].
      - by destruct (Hfree _ _ J2).
      - by destruct (Hfree _ _ J1). }
    case_bool_decide as Ek.
    + split; cbn; [done | done | done | | done]. intros x p Hin Hx Hp. apply list_elem_of_lookup in Hin as [j Hj].
      apply insert_slot in Hj as [[-> [= ->]] | [Hne Hj]]; [done |]. subst. by destruct (Hfree _ _ Hj).
    + split; cbn; [done | done | done | | done]. eapply entries_keep; [| exact H4]. apply keeps_pending_set. by right.
Qed.

Lemma queued_pending e idle n ack : (length (sn_wire n) <= MAX_WIRE)%nat -> forall p,
  so_pending (queued (Peer := Peer) e idle MAX_WIRE n) = Some p -> pending_ok ack n [] p.
Proof.
  intros Hl p [= <-]. split; try done. cbn. rewrite inserts_front by (by rewrite length_replicate). by rewrite take_app_length.
Qed.

Lemma step_queue ack max o k n : 0 <= max -> observed_ok ack max o -> observed_ok ack max (step o (OpQueue k n)).
Proof.
  intros Hmax Hok. pose proof Hok as [H1 H2 H3 H4 H5]. cbn [step]. unfold queue_notification.
  destruct (MAX_WIRE <? _)%nat eqn:El; [by destruct o |]. bool_to_prop.
  destruct (position (is_some_and (has_key k)) _) as [i|] eqn:E; [| by destruct o].
  apply position_entry in E as (e & Hi & He). apply has_key_spec in He. rewrite Hi.
  destruct (so_resource e =? _); [| by destruct o]. cbn [negb]. case_bool_decide as Epe; [by destruct o |].
  set (go := (Ok tt, with_entries _ _)).
  assert (observed_ok ack max (let '(r, s) := go in
    if is_ok r && bool_decide (k = key) then {| ob_server := s; ob_note := Some n; ob_log := [] |}
    else {| ob_server := s; ob_note := ob_note o; ob_log := ob_log o |})) as Hgo.
  { subst go. cbn [is_ok andb].
    assert (keeps_keys (sv_entries (ob_server o)) (<[i := Some (queued e (idle_timeout_ms (ob_server o)) MAX_WIRE n)]> (sv_entries (ob_server o)))) as Hk
      by (by eapply keeps_insert).
    case_bool_decide as Ek.
    - split; cbn; [done | done | by eapply uniq_keeps | | by apply log_nil].
      eapply entries_set; [exact Hi | congruence | done |]. intros p Hp. exists n. split; [done |]. by eapply queued_pending.
    - apply ok_quiet; try done. apply keeps_pending_set. left. cbn. congruence. }
  destruct (so_last_sequence e) as [previous|]; [| exact Hgo].
  destruct (relation_to _ _); [by destruct o | exact Hgo | by destruct o | by destruct o].
Qed.

Lemma log_snoc ack max n log now p : log_ok ack max n log -> pending_ok ack n log p ->
  pn_due_at_ms p <= now -> pn_attempts p < permitted_attempts max -> forall e : Entry, so_key e = key ->
  log_ok ack max n (log ++ [(now, delivery_of e p)]).
Proof.
  intros [L1 L2 L3 L4 L5] [P1 P2 P3 P4 P5 P6 P7] Hdue Hatt e He.
  assert (forall i t d, (log ++ [(now, delivery_of e p)]) !! i = Some (t, d) ->
    log !! i = Some (t, d) \/ (i = length log /\ t = now /\ d = delivery_of e p)) as Hcase.
  { intros i t d Hi. apply lookup_app_Some in Hi as [Hi | [Hge Hi]]; [by left | right].
    destruct (i - length log)%nat as [|k] eqn:Ek; [| done]. cbn in Hi. simplify_eq. split_and!; [lia | done | done]. }
  split.
  - intros i t d [Hi | (-> & -> & ->)]%Hcase; [by apply (L1 i t) |]. split; [by split |]. cbn. rewrite P5.
    destruct log; [done |]. cbn [length Nat.eqb negb]. apply Z.ltb_lt. lia.
  - intros t d [Hi | (Hn & -> & ->)]%Hcase; [by eapply L2 |]. destruct log; [| done]. unfold next_time in P6. cbn in P6. lia.
  - intros i t d t' d' [Hi | (Hn & _)]%Hcase [Hi' | (Hn' & -> & ->)]%Hcase.
    + by eapply L3.
    + assert (last log = Some (t, d)) as Hlast by (rewrite last_lookup, <- Hn'; exact Hi).
      unfold next_time in P6. rewrite Hlast in P6. lia.
    + apply lookup_lt_Some in Hi'. lia.
    + lia.
  - rewrite length_app. cbn. lia.
  - intros Hc. rewrite (P7 Hc). cbn. lia.
Qed.

Lemma step_poll ack max o now : 0 <= max -> observed_ok ack max o -> observed_ok ack max (step o (OpPoll now)).
Proof.
  intros Hmax Hok. pose proof Hok as [H1 H2 H3 H4 H5]. cbn [step]. unfold next_due.
  pose proof (next_due_spec (ack_timeout_ms (ob_server o)) (max_retransmit (ob_server o)) now (sv_entries (ob_server o))) as Hs.
  pose proof (keeps_poll (ack_timeout_ms (ob_server o)) (max_retransmit (ob_server o)) now (sv_entries (ob_server o))) as Hk.
  destruct (next_due_loop _ _ _ _) as [[d|] l']; destruct Hs as [_ Hs]; cbn [snd] in Hk.
  - destruct Hs as (i & e & p & Hi & Hp & Hdue & Hatt & -> & Hi' & Hoth & _). cbn [od_key delivery_of]. rewrite H1, H2 in *.
    case_bool_decide as Ek.
    + destruct (H4 e p) as (n & Hn & Hpo); [by eapply list_elem_of_lookup_2 | done | done |]. rewrite Hn in *.
      split; cbn; [done | done | by eapply uniq_keeps | | by apply log_snoc].
      intros x q Hin Hx Hq. apply list_elem_of_lookup in Hin as [j Hj]. exists n. split; [done |].
      destruct (decide (j = i)) as [-> |Hne].
      * rewrite Hi' in Hj. simplify_eq. unfold served in Hq. destruct Hpo as [P1 P2 P3 P4 P5 P6 P7].
        destruct (pn_confirmable p) eqn:Ec; cbn [negb so_pending set_pending] in Hq; [| done]. simplify_eq.
        split; try done; cbn.
        -- rewrite P5, length_app. cbn. unfold permitted_attempts, saturating_add, u8_max in *. lia.
        -- unfold next_time. by rewrite last_snoc.
        -- congruence.
      * destruct (Hoth _ _ Hne Hj) as (y & Hy & [<- | [? _]]); [| done]. destruct Hne. eapply H3; [exact Hy | exact Hi | congruence].
    + apply ok_quiet; try done. intros j x Hj Hx Hpx. cbn in Hj. destruct (decide (j = i)) as [-> |Hne].
      * rewrite Hi' in Hj. simplify_eq. by rewrite served_key in Hx.
      * destruct (Hoth _ _ Hne Hj) as (y & Hy & [<- | [? _]]); done.
  - apply ok_quiet; try done. intros j x Hj Hx Hpx. cbn in Hj. destruct (Hs _ _ Hj) as (_ & y & Hy & [<- | [? _]]); done.
Qed.

Lemma keeps_refl (l : list (option Entry)) : keeps_keys l l.
Proof. intros i e Hi. by exists e. Qed.
Lemma keeps_pending_refl (l : list (option Entry)) : keeps_pending l l.
Proof. by intros i e Hi. Qed.
#[local] Hint Resolve keeps_refl keeps_pending_refl keeps_remove keeps_pending_remove : keeps.

Lemma step_ok ack max o x : 0 <= max -> observed_ok ack max o -> observed_ok ack max (step o x).
Proof.
  intros Hmax Hok. destruct x as [k resource now | k | k n | now | p mid now | p mid | now].
  - by apply step_register.
  - apply ok_quiet; try done; try apply Hok; unfold deregister; destruct (position _ _); cbn; try apply Hok; auto with keeps.
  - by apply step_queue.
  - by apply step_poll.
  - apply ok_quiet; try done; try apply Hok; unfold acknowledge; (destruct (position _ _) as [i|] eqn:E;
      [apply position_entry in E as (e & Hi & _); rewrite Hi |]); cbn; try apply Hok; auto with keeps;
      [by eapply keeps_insert | apply keeps_pending_set; by right].
  - apply ok_quiet; try done; try apply Hok; unfold server_reset; destruct (position _ _); cbn; try apply Hok; auto with keeps.
  - apply ok_quiet; try done; try apply Hok; [apply keeps_map |]. intros i e Hi He Hp. cbn in Hi.
    rewrite list_lookup_fmap in Hi. destruct (_ !! i) as [[e0|]|]; cbn in Hi; [| done | done]. case_match; by simplify_eq.
Qed.

Lemma observed_run_ok ack max s ops : 0 <= max -> (forall i e, sv_entries s !! i = Some (Some e) -> False) ->
  ack_timeout_ms s = ack -> max_retransmit s = max -> observed_ok ack max (run s ops).
Proof.
  intros Hmax He Ha Hm. unfold run. set (o := {| ob_server := s |}).
  assert (observed_ok ack max o) as Ho.
  { split; cbn; [done | done | | | done].
    - intros i j e e' Hi. by destruct (He _ _ Hi).
    - intros e p Hin. apply list_elem_of_lookup in Hin as [i Hi]. by destruct (He _ _ Hi). }
  clearbody o. revert o Ho. induction ops as [|x ops IH]; intros o Ho; [done |]. cbn. apply IH. by apply step_ok.
Qed.

(** ** Polling until nothing is due *)

Fixpoint drain (fuel : nat) (s : ObserveServer (Peer := Peer)) (now : Z) : option (list ObserveDelivery * ObserveServer) :=
  match fuel with
  | O => None
  | S fuel =>
      match next_due s now with
      | (None, s) => Some ([], s)
      | (Some d, s) => '(ds, s) ← drain fuel s now; Some (d :: ds, s)
      end
  end.

Lemma served_not_due (e : Entry) p ack now : 0 < ack -> 0 <= now < u64_max -> not_due now (Some (served e p ack now)).
Proof.
  intros Ha Hn e' q [= <-]. unfold served. destruct (negb _); cbn; [done |]. intros [= <-]. cbn.
  unfold deadline, saturating_add. lia.
Qed.

Lemma drain_total now : 0 <= now < u64_max -> forall fuel s k, 0 < ack_timeout_ms s ->
  (forall j x, (j < k)%nat -> sv_entries s !! j = Some x -> not_due now x) -> (length (sv_entries s) < k + fuel)%nat -> (k <= length (sv_entries s))%nat ->
  exists ds s', drain fuel s now = Some (ds, s') /\ Forall (not_due now) (sv_entries s') /\ (length ds + k <= length (sv_entries s))%nat /\
    (forall i e p, sv_entries s !! i = Some (Some e) -> so_pending e = Some p -> pn_due_at_ms p <= now ->
      pn_attempts p < permitted_attempts (max_retransmit s) -> delivery_of e p ∈ ds).
Proof.
  intros Hnow fuel. induction fuel as [|fuel IH]; intros s k Ha Hk Hf Hkl; [lia |]. cbn [drain]. unfold next_due.
  pose proof (next_due_spec (ack_timeout_ms s) (max_retransmit s) now (sv_entries s)) as Hs.
  destruct (next_due_loop _ _ _ _) as [[d|] l']; destruct Hs as [Hl Hs].
  - destruct Hs as (i & e & p & Hi & Hp & Hdue & Hatt & -> & Hi' & Hoth & Hbef & Haft).
    pose proof (lookup_lt_Some _ _ _ Hi) as Hilt.
    assert (k <= i)%nat as Hki. { destruct (decide (i < k)%nat) as [Hik|]; [| lia]. pose proof (Hk i _ Hik Hi _ _ eq_refl Hp). lia. }
    destruct (IH (with_entries s l') (S i)) as (ds & s' & Hdr & Hnd & Hlen & Hall); cbn; [done | | lia | lia |].
    + intros j x Hj Hx. destruct (decide (j = i)) as [-> |]; [| eapply (Hbef j); [lia | done]].
      rewrite Hi' in Hx. simplify_eq. by apply served_not_due.
    + cbn in Hlen, Hall. rewrite Hdr. cbn. exists (delivery_of e p :: ds), s'. split_and!; [done | done | cbn; lia |].
      intros i0 e0 p0 Hi0 Hp0 Hd0 Ha0. destruct (lt_eq_lt_dec i0 i) as [[Hlt| ->]|Hgt].
      * pose proof (lookup_lt_Some _ _ _ Hi0) as Hi0lt. rewrite <- Hl in Hi0lt. apply lookup_lt_is_Some in Hi0lt as [x' Hx'].
        destruct (Hoth i0 x' ltac:(lia) Hx') as (x & Hx & Hpass). rewrite Hi0 in Hx. simplify_eq.
        destruct Hpass as [-> | (_ & e1 & [= <-] & p1 & Hp1 & _ & Hex)].
        -- pose proof (Hbef _ _ Hlt Hx' _ _ eq_refl Hp0). lia.
        -- simplify_eq. lia.
      * simplify_eq. by left.
      * right. eapply Hall; [rewrite (Haft _ Hgt); exact Hi0 | done | done | done].
  - exists [], (with_entries s l'). split_and!; [done | | cbn; lia |].
    + apply Forall_lookup_2. intros i x Hx. by destruct (Hs _ _ Hx).
    + intros i0 e0 p0 Hi0 Hp0 Hd0 Ha0. pose proof (lookup_lt_Some _ _ _ Hi0) as Hi0lt. rewrite <- Hl in Hi0lt.
      apply lookup_lt_is_Some in Hi0lt as [x' Hx']. destruct (Hs _ _ Hx') as (Hnd & x & Hx & Hpass). rewrite Hi0 in Hx. simplify_eq.
      destruct Hpass as [-> | (_ & e1 & [= <-] & p1 & Hp1 & _ & Hex)].
      * pose proof (Hnd _ _ eq_refl Hp0). lia.
      * simplify_eq. lia.
Qed.

(** C27: the Observe server retransmits exactly and gives up in time.  In every
    sequence of registrations, cancellations, notifications, polls,
    acknowledgements, resets and sweeps, what is sent for a queued notification is
    its exact bytes under its message identifier, the first time fresh and then
    as retransmissions, never before it is due, spaced by the acknowledgement
    timeout, at most one time more than the retransmission limit, and once if it
    is not confirmable; and no two observers share endpoint and token.  Polling
    at one time ends after at most one delivery per slot, with every due
    notification that had attempts left delivered and none due any more. *)
Theorem observe_retransmission (OBSERVERS : nat) (idle ack max : Z) (s : ObserveServer (Peer := Peer)) (ops : list op) (now : Z) :
  server_new OBSERVERS idle ack max = Ok s -> 0 < ack -> is_u8 max -> 0 <= now < u64_max ->
  let o := run s ops in
  match ob_note o with None => ob_log o = [] | Some n => log_ok ack max n (ob_log o) end /\
  uniq (sv_entries (ob_server o)) /\
  exists ds s', drain (S (length (sv_entries (ob_server o)))) (ob_server o) now = Some (ds, s') /\
    Forall (not_due now) (sv_entries s') /\ (length ds <= length (sv_entries (ob_server o)))%nat /\
    (forall i e p, sv_entries (ob_server o) !! i = Some (Some e) -> so_pending e = Some p -> pn_due_at_ms p <= now ->
      pn_attempts p < permitted_attempts max -> delivery_of e p ∈ ds).
Proof.
  intros Hs Ha [Hm _] Hnow o. unfold server_new in Hs. destruct (_ || _) eqn:E; [done |]. apply ok_inj in Hs as <-.
  assert (observed_ok ack max o) as [H1 H2 H3 _ H5].
  { apply observed_run_ok; try done. cbn. intros i e Hi. apply lookup_replicate in Hi as [? _]. done. }
  split; [done |]. split; [done |].
  destruct (drain_total now Hnow (S (length (sv_entries (ob_server o)))) (ob_server o) 0) as (ds & s' & Hd & Hn & Hl & Hall);
    [lia | lia | lia | lia |].
  exists ds, s'. split; [done |]. split; [done |]. split; [lia |]. intros i e p. rewrite <- H2. apply Hall.
Qed.

End server.

(** One observer, a confirmable notification that is never answered: sent, sent
    again twice, and the observer is gone. *)
Definition demo_key : ObserveKey (Peer := Z) := {| peer := 1; token := [7; 0; 0; 0; 0; 0; 0; 0]; token_len := 1 |}.
Definition demo_note : ServerNotification :=
  {| sn_resource := 9; sn_sequence := 5; sn_message_id := 77; sn_confirmable := true; sn_wire := [1; 2; 3]; sn_now_ms := 100 |}.
Definition demo_ops : list (op (Peer := Z)) :=
  [OpRegister demo_key 9 50; OpQueue demo_key demo_note; OpPoll 100; OpPoll 101; OpPoll 2100; OpPoll 5000; OpPoll 6999; OpPoll 7000].

Lemma observe_retransmission_witness :
  exists s, server_new (Peer := Z) 4 60000 2000 2 = Ok s /\
    fst <$> ob_log (run 16 demo_key s demo_ops) = [100; 2100; 5000] /\ server_contains (ob_server (run 16 demo_key s demo_ops)) demo_key = false /\
    log_ok demo_key 2000 2 demo_note (ob_log (run 16 demo_key s demo_ops)).
Proof.
  eexists. split; [reflexivity |]. split; [vm_compute; reflexivity |]. split; [vm_compute; reflexivity |].
  set (s := {| sv_entries := _ |}).
  destruct (observe_retransmission (Peer := Z) 16 demo_key 4 60000 2000 2 s demo_ops 8000) as [Hlog _];
    [reflexivity | lia | by vm_compute | by vm_compute |].
  assert (ob_note (run 16 demo_key s demo_ops) = Some demo_note) as Hn by (vm_compute; reflexivity).
  by rewrite Hn in Hlog.
Defined.

(** ** The option value *)

Lemma decode_from_be (v : bytes) : bytes_ok v -> foldl (fun decoded b => Z.lor (Z.shiftl decoded 8) b) 0 v = from_be v.
Proof.
  unfold from_be. generalize 0 as a. induction v as [|b v IH]; intros a Hv; [done |]. cbn. apply Forall_cons in Hv as [Hb Hv].
  rewrite lor_shiftl by (unfold is_u8, u8_max in Hb; lia). by apply IH.
Qed.

(** Every 24-bit value is encoded in its shortest form, which decodes to it. *)
Lemma observe_value_roundtrip (v : Z) : 0 <= v <= OBSERVE_MAX_VALUE ->
  exists enc len, encode_observe_value v = Ok (enc, len) /\ decode_observe_value (take len enc) = Ok v.
Proof.
  intros Hv. unfold OBSERVE_MAX_VALUE in *. unfold encode_observe_value, OBSERVE_MAX_VALUE. rewrite (proj2 (Z.ltb_ge _ _)) by lia.
  do 2 eexists. split; [reflexivity |].
  assert (is_u32 v) as Hu by (unfold is_u32, u32_max; lia). pose proof (from_be_to_be_u32 v Hu) as Hf.
  pose proof (to_be_ok 4 v) as Hok. pose proof (length_to_be 4 v) as Hl.
  destruct (to_be 4 v) as [|b3 [|b2 [|b1 [|b0 [|]]]]]; try done.
  repeat (apply Forall_cons in Hok as [? Hok]). unfold from_be in Hf. cbn in Hf. unfold is_u8, u8_max in *.
  assert (forall l, bytes_ok l -> (length l <= 3)%nat -> head l <> Some 0 -> decode_observe_value l = Ok (from_be l)) as Hdec.
  { intros l Hb Hll Hh. unfold decode_observe_value. rewrite (proj2 (Nat.ltb_ge _ _)) by lia.
    rewrite bool_decide_false by done. cbn. by rewrite decode_from_be. }
  destruct (v =? 0) eqn:E0; bool_to_prop; [rewrite E0; reflexivity |]. destruct (v <=? 0xff) eqn:E1; bool_to_prop.
  { assert (b3 = 0 /\ b2 = 0 /\ b1 = 0) as (-> & -> & ->) by lia. change (take _ _) with [b0]. rewrite Hdec; [| | cbn; lia |].
    - f_equal. unfold from_be. cbn. lia.
    - repeat constructor; unfold is_u8, u8_max; lia.
    - intros [= ->]. lia. }
  destruct (v <=? 0xffff) eqn:E2; bool_to_prop.
  { assert (b3 = 0 /\ b2 = 0) as (-> & ->) by lia. change (take _ _) with [b1; b0]. rewrite Hdec; [| | cbn; lia |].
    - f_equal. unfold from_be. cbn. lia.
    - repeat constructor; unfold is_u8, u8_max; lia.
    - intros [= ->]. lia. }
  assert (b3 = 0) as -> by lia. change (take _ _) with [b2; b1; b0]. rewrite Hdec; [| | cbn; lia |].
  - f_equal. unfold from_be. cbn. lia.
  - repeat constructor; unfold is_u8, u8_max; lia.
  - intros [= ->]. lia.
Qed.

(** ** Serial order *)

Lemma relation_difference s p : relation_to s p =
  let d := (s - p) mod 16777216 in
  if d =? 0 then Equal else if d <? 8388608 then Newer else if d =? 8388608 then Ambiguous else Older.
Proof.
  unfold relation_to, wrap32, OBSERVE_MAX_VALUE, OBSERVE_HALF_RANGE. rewrite (Z.land_ones _ 24) by lia. change (2 ^ 24) with 16777216.
  rewrite <- (Znumtheory.Zmod_div_mod 16777216 4294967296); [done | lia | lia |]. by exists 256.
Qed.

(** A sequence advanced by less than half the range is newer, and never both
    newer and older. *)
Lemma relation_newer s p : relation_to s p = Newer <-> 0 < (s - p) mod 16777216 < 8388608.
Proof.
  rewrite relation_difference. cbn zeta. pose proof (Z.mod_pos_bound (s - p) 16777216 ltac:(lia)).
  destruct (_ =? 0) eqn:E; bool_to_prop; [split; [done | lia] |]. destruct (_ <? 8388608) eqn:E1; bool_to_prop; [by split; [lia |] |].
  destruct (_ =? 8388608); split; (done || lia).
Qed.
Lemma relation_antisymmetric s p : relation_to s p = Newer -> relation_to p s = Older.
Proof.
  rewrite relation_newer. intros Hn. rewrite relation_difference. cbn zeta.
  assert ((p - s) mod 16777216 = 16777216 - (s - p) mod 16777216) as ->.
  { replace (p - s) with (- (s - p)) by lia. apply Z.mod_opp_l_nz; lia. }
  rewrite (proj2 (Z.eqb_neq _ _)), (proj2 (Z.ltb_ge _ _)), (proj2 (Z.eqb_neq _ _)) by lia. done.
Qed.
Lemma sequence_next_newer s : 0 <= s <= OBSERVE_MAX_VALUE -> relation_to (sequence_next s) s = Newer.
Proof.
  intros Hs. apply relation_newer. unfold sequence_next, OBSERVE_MAX_VALUE in *. rewrite (Z.land_ones _ 24) by lia.
  change (2 ^ 24) with 16777216. rewrite Zminus_mod_idemp_l. replace (s + 1 - s) with 1 by lia. done.
Qed.

(** ** The client's view only moves forward *)

Section client.
Context {Peer : Type} `{EqDecision Peer}.

(** How a subscription changes when a message for it is processed. *)
Definition moved (now : Z) (st st' : ClientState) : Prop :=
  st' = st \/ exists q, st' = Established q now /\ 0 <= q <= OBSERVE_MAX_VALUE /\
    match st with
    | Registering => True
    | Established q0 t0 => relation_to q q0 = Newer \/ OBSERVE_FRESHNESS_TIMEOUT_MS < now - t0
    end.

Lemma classify_forward (st : ClientState) q now ev : classify st q now = (ev, true) ->
  match st with
  | Registering => True
  | Established q0 t0 => relation_to q q0 = Newer \/ OBSERVE_FRESHNESS_TIMEOUT_MS < now - t0
  end.
Proof.
  unfold classify, saturating_sub. destruct st as [|q0 t0]; [done |].
  destruct (relation_to q q0); [| by left | |]; (destruct (_ <? _) eqn:E; [bool_to_prop; intros _; right | done]);
    unfold OBSERVE_FRESHNESS_TIMEOUT_MS in *; lia.
Qed.

Lemma client_forward (c : ObserveClient (Peer := Peer)) k resource n now r c' :
  (forall v, cn_observe n = Some v -> 0 <= v) -> client_process c k resource n now = (r, c') ->
  (forall e, r = Err e -> c' = c) /\ length c' = length c /\
  forall i e', c' !! i = Some (Some e') -> exists e, c !! i = Some (Some e) /\ cs_key e = cs_key e' /\
    cs_resource e = cs_resource e' /\ moved now (cs_state e) (cs_state e').
Proof.
  intros Hv. unfold client_process.
  assert (forall r0, (r0, c) = (r, c') -> (forall e, r = Err e -> c' = c) /\ length c' = length c /\
    forall i e', c' !! i = Some (Some e') -> exists e, c !! i = Some (Some e) /\ cs_key e = cs_key e' /\
    cs_resource e = cs_resource e' /\ moved now (cs_state e) (cs_state e')) as Hsame.
  { intros r0 [= <- <-]. split_and!; [done | done |]. intros i e' Hi. exists e'. split_and!; [done | done | done | by left]. }
  destruct (position _ _) as [index|]; [| apply Hsame]. destruct (c !! index) as [[cur|]|] eqn:Ec; [| apply Hsame | apply Hsame].
  assert (forall ev x, (forall e', x = Some e' -> cs_key cur = cs_key e' /\ cs_resource cur = cs_resource e' /\ moved now (cs_state cur) (cs_state e')) ->
    (Ok ev, <[index := x]> c) = (r, c') -> (forall e, r = Err e -> c' = c) /\ length c' = length c /\
    forall i e', c' !! i = Some (Some e') -> exists e, c !! i = Some (Some e) /\ cs_key e = cs_key e' /\
    cs_resource e = cs_resource e' /\ moved now (cs_state e) (cs_state e')) as Hset.
  { intros ev x Hx [= <- <-]. split_and!; [done | apply length_insert |]. intros i e' Hi.
    apply list_lookup_insert_Some in Hi as [(-> & -> & _) | [_ Hi]]; [by exists cur; split; [| apply Hx] |].
    exists e'. split_and!; [done | done | done | by left]. }
  destruct (negb _); [apply Hsame |]. destruct (cn_message_type n); [| | | by apply Hset].
  all: destruct (cn_max_age_ms n =? 0); [apply Hsame |].
  all: destruct (is_some_and _ _); [destruct (_ || _); [apply Hsame | apply Hset; intros e' [= <-]; split_and!; [done | done | by left]] |].
  all: destruct (cn_observe n) as [v|] eqn:Eo; [| by apply Hset].
  all: unfold sequence_new; destruct (OBSERVE_MAX_VALUE <? v) eqn:Em; [apply Hsame |]; bool_to_prop.
  all: destruct (classify _ _ _) as [ev [|]] eqn:Hcl; [apply classify_forward in Hcl | apply Hsame].
  all: apply Hset; intros e' [= <-]; split_and!; [done | done | right; exists v; split_and!; [done | by apply Hv | done | done]].
Qed.

End client.
End ObserveInv.
