(* ===== verification/CoapClient.v ===== *)
(** * The CoAP client (lichen-coap/src/client.rs)

    Request identifiers, the request encoder and the response decoder, and the
    client that refuses to send to a peer that asked to back off.  The socket is
    not modelled: an exchange is its outcome, a received datagram or an I/O
    error, and whether it took place.  [Instant] is a count of nanoseconds, an
    endpoint a parameter.  [None] is a panic of the codec, as in Coap.v. *)

From stdpp Require Import gmap.
From S2P Require Import Prelude Coap.
Import Coap.
Open Scope Z_scope.

Module CoapClient.

Definition DEFAULT_503_BACKOFF_S : Z := 60.
Definition MAX_BACKOFF_S : Z := 3600.
Definition SERVICE_UNAVAILABLE : Z := 0xA3.
Definition CBOR : Z := 60.

Record Response := { r_code : Z; r_payload : bytes; r_max_age : option Z }.
Definition is_success (r : Response) : bool := Z.shiftr (r_code r) 5 =? 2.
Definition is_service_unavailable (r : Response) : bool := r_code r =? SERVICE_UNAVAILABLE.
Definition retry_after_s (r : Response) : option Z :=
  if negb (is_service_unavailable r) then None
  else Some (Z.min (default DEFAULT_503_BACKOFF_S (r_max_age r)) MAX_BACKOFF_S).

Inductive IoError := InvalidInput (e : CoapError) | InvalidData (e : option CoapError) | TimedOut | Other.

(** [fetch_update] with [checked_add]: the identifiers of this request, and the
    counter after it. *)
Definition next_request_id (sequence : Z) : result IoError (Z * bytes) * Z :=
  match checked_add u64_max sequence 1 with
  | None => (Err Other, sequence)
  | Some next => (Ok (wrap16 sequence, to_be 8 sequence), next)
  end.

(** [path.trim_start_matches('/').split('/')], on the bytes of the path. *)
Definition SLASH : Z := 47.
Fixpoint trim_start (path : bytes) : bytes :=
  match path with
  | b :: rest => if b =? SLASH then trim_start rest else path
  | [] => []
  end.
Fixpoint split (path : bytes) : list bytes :=
  match path with
  | [] => [[]]
  | b :: rest =>
      if b =? SLASH then [] :: split rest
      else match split rest with
           | seg :: segs => (b :: seg) :: segs
           | [] => [[b]]
           end
  end.

(** A fallible step of the builder, its error mapped to [InvalidInput]. *)
Definition checked (r : option (result CoapError unit * CoapBuilder)) : option (result IoError CoapBuilder) :=
  '(r, b) ← r;
  match r with Ok _ => Some (Ok b) | Err e => Some (Err (InvalidInput e)) end.

Fixpoint add_segments (b : CoapBuilder) (segs : list bytes) : option (result IoError CoapBuilder) :=
  match segs with
  | [] => Some (Ok b)
  | seg :: segs =>
      if bool_decide (seg = []) then add_segments b segs
      else
        r ← checked (uri_path b seg);
        match r with Ok b => add_segments b segs | Err e => Some (Err e) end
  end.

Definition add_body (b : CoapBuilder) (payload : option bytes) : option (result IoError CoapBuilder) :=
  match payload with
  | Some (x :: p) =>
      r ← checked (content_format b CBOR);
      match r with
      | Ok b => checked (add_payload b (x :: p))
      | Err e => Some (Err e)
      end
  | _ => Some (Ok b)
  end.

Definition encode (code mid : Z) (token path : bytes) (payload : option bytes) : option (result IoError bytes) :=
  let buf := replicate 256 0 in
  r ← builder_new buf Confirmable code mid token;
  match r with
  | Err e => Some (Err (InvalidInput e))
  | Ok b =>
      r ← add_segments b (split (trim_start path));
      match r with
      | Err e => Some (Err e)
      | Ok b =>
          r ← add_body b payload;
          match r with
          | Err e => Some (Err e)
          | Ok b => Some (Ok (take (pos b) (out b)))
          end
      end
  end.

Section decode.
Variable overflow_checks : bool.

(** The loop over [packet.options().flatten()], which skips erroneous options; an
    option area of [n] bytes yields at most [n] items. *)
Fixpoint find_max_age (fuel : nat) (it : OptionIterator) : option (option Z) :=
  match fuel with
  | O => Some None
  | S fuel =>
      '(item, it) ← next overflow_checks it;
      match item with
      | None => Some None
      | Some (Err _) => find_max_age fuel it
      | Some (Ok o) =>
          if number o =? option_u16 MaxAge then Some (match as_uint o with Ok v => Some v | Err _ => None end)
          else find_max_age fuel it
      end
  end.

Definition decode (data : bytes) (expected_mid : Z) (expected_token : bytes) : option (result IoError Response) :=
  r ← from_bytes overflow_checks data;
  match r with
  | Err e => Some (Err (InvalidData (Some e)))
  | Ok packet =>
      mid ← message_id packet;
      if negb (mid =? expected_mid) then Some (Err (InvalidData None))
      else if negb (bool_decide (token packet = expected_token)) then Some (Err (InvalidData None))
      else
        max_age ← find_max_age (S (length data)) (options packet);
        c ← code packet;
        Some (Ok {| r_code := c; r_payload := payload packet; r_max_age := max_age |})
  end.

(** A response is taken only if it carries the request's identifiers. *)
Lemma decode_matches data mid tok r : decode data mid tok = Some (Ok r) ->
  exists p, from_bytes overflow_checks data = Some (Ok p) /\ message_id p = Some mid /\ token p = tok /\
    code p = Some (r_code r) /\ payload p = r_payload r.
Proof.
  unfold decode. generalize (S (length data)) as fuel. intros fuel. destruct (from_bytes _ _) as [[p|e]|]; cbn; [| done | done].
  destruct (message_id p) as [m|] eqn:Em; cbn; [| done]. destruct (m =? mid) eqn:E; cbn; [| done]. bool_to_prop. subst.
  case_bool_decide as Et; cbn; [| done]. destruct (find_max_age fuel (options p)) as [ma|]; cbn; [| done].
  destruct (code p) as [c|] eqn:Ec; cbn; [| done]. intros [= <-]. exists p. by split_and!.
Qed.

End decode.

(** ** Backoff *)

Section client.
Context {SocketAddr : Type} `{Countable SocketAddr}.

Record ServiceUnavailableError := { su_peer : SocketAddr; su_retry_after_s : Z; is_backoff : bool }.
Inductive ClientError := Io (e : IoError) | ServiceUnavailable (e : ServiceUnavailableError).

Record CoapClient := { backoffs : gmap SocketAddr Z }.
Definition client_new : CoapClient := {| backoffs := ∅ |}.

Definition NANOS : Z := 1000000000.

(** The exchange, if there is one, ends at [later]. *)
Definition attempt (c : CoapClient) (addr : SocketAddr) (exchange : result IoError Response) (later : Z) :
    result ClientError Response * CoapClient :=
  match exchange with
  | Err e => (Err (Io e), c)
  | Ok response =>
      if is_service_unavailable response then
        let retry_after := default DEFAULT_503_BACKOFF_S (retry_after_s response) in
        (Err (ServiceUnavailable {| su_peer := addr; su_retry_after_s := retry_after; is_backoff := false |}),
         {| backoffs := <[addr := later + retry_after * NANOS]> (backoffs c) |})
      else (Ok response, c)
  end.

(** The result, the client, and whether a datagram was sent. *)
Definition client_request (c : CoapClient) (addr : SocketAddr) (now : Z) (exchange : result IoError Response) (later : Z) :
    result ClientError Response * CoapClient * bool :=
  match backoffs c !! addr with
  | Some expires_at =>
      if now <? expires_at then
        (Err (ServiceUnavailable {| su_peer := addr; su_retry_after_s := (expires_at - now) / NANOS + 1; is_backoff := true |}), c, false)
      else (attempt {| backoffs := delete addr (backoffs c) |} addr exchange later, true)
  | None => (attempt c addr exchange later, true)
  end.

Definition clear_backoff (c : CoapClient) (addr : SocketAddr) : CoapClient := {| backoffs := delete addr (backoffs c) |}.
Definition clear_all_backoffs (c : CoapClient) : CoapClient := {| backoffs := ∅ |}.
Definition is_backed_off (c : CoapClient) (addr : SocketAddr) (now : Z) : bool :=
  match backoffs c !! addr with Some expires_at => now <? expires_at | None => false end.

(** *** Runs of requests *)

Record call := { ca_addr : SocketAddr; ca_now : Z; ca_exchange : result IoError Response; ca_later : Z }.
Fixpoint calls (c : CoapClient) (l : list call) : list bool * CoapClient :=
  match l with
  | [] => ([], c)
  | x :: l =>
      let '(_, c, sent) := client_request c (ca_addr x) (ca_now x) (ca_exchange x) (ca_later x) in
      let '(sents, c) := calls c l in (sent :: sents, c)
  end.

(** A deadline stays as long as the peer is only asked before it. *)
Lemma request_keeps_deadline c addr now exchange later peer t : backoffs c !! peer = Some t -> (addr = peer -> now < t) ->
  backoffs (client_request c addr now exchange later).1.2 !! peer = Some t /\
  (addr = peer -> (client_request c addr now exchange later).2 = false).
Proof.
  intros Ht Hn. unfold client_request. destruct (decide (addr = peer)) as [-> |Hne].
  - rewrite Ht, (proj2 (Z.ltb_lt _ _)) by auto. done.
  - split; [| done].
    assert (forall c', backoffs c' !! peer = Some t -> backoffs (attempt c' addr exchange later).2 !! peer = Some t) as Ha.
    { intros c' Hc'. unfold attempt. destruct exchange as [r|e]; [| done]. destruct (is_service_unavailable r); [| done].
      cbn [snd backoffs]. by rewrite lookup_insert_ne. }
    destruct (backoffs c !! addr) as [t'|]; [destruct (now <? t') |]; cbn [fst snd]; [done | | by apply Ha]. apply Ha. cbn [backoffs]. by rewrite lookup_delete_ne.
Qed.

(** After a 5.03 nothing is sent to that peer before the time it asked for, at
    most an hour, has passed, whatever is asked of other peers. *)
Lemma backoff_enforced c peer now response later c' sent (l : list call) :
  client_request c peer now (Ok response) later = (Err (ServiceUnavailable {| su_peer := peer; su_retry_after_s := default 0 (retry_after_s response);
    is_backoff := false |}), c', sent) ->
  Forall (fun x => ca_addr x = peer -> ca_now x < later + default 0 (retry_after_s response) * NANOS) l ->
  forall i x, l !! i = Some x -> ca_addr x = peer -> (calls c' l).1 !! i = Some false.
Proof.
  intros Hr Hl.
  assert (backoffs c' !! peer = Some (later + default 0 (retry_after_s response) * NANOS)) as Hd.
  { unfold client_request, attempt in Hr. destruct (is_service_unavailable response) eqn:E; [| by repeat case_match].
    assert (exists v, retry_after_s response = Some v) as [v Hv] by (unfold retry_after_s; rewrite E; cbn; by eexists).
    rewrite Hv in *. cbn [default] in *. destruct (backoffs c !! peer) as [t|]; [destruct (now <? t) |]; simplify_eq; cbn [backoffs]; by rewrite lookup_insert_eq. }
  clear Hr. revert c' Hd. induction Hl as [|y l Hy Hl IH]; intros c' Hd i x Hi Hx; [done |]. cbn [calls].
  destruct (request_keeps_deadline c' (ca_addr y) (ca_now y) (ca_exchange y) (ca_later y) peer _ Hd Hy) as [Hk Hs].
  destruct (client_request _ _ _ _ _) as [[r c1] sent1]. cbn in Hk, Hs. specialize (IH c1 Hk).
  destruct (calls c1 l) as [sents c2]. cbn in IH |- *. destruct i as [|i]; cbn in *; [simplify_eq; by rewrite Hs | by eapply IH].
Qed.

End client.

(** Consecutive requests have different tokens, and the counter never wraps. *)
Lemma request_ids_fresh s mid tok s' mid' tok' s'' : is_u64 s ->
  next_request_id s = (Ok (mid, tok), s') -> next_request_id s' = (Ok (mid', tok'), s'') -> tok <> tok' /\ s < s' < s''.
Proof.
  unfold next_request_id, checked_add. destruct (s + 1 <=? u64_max) eqn:E; [| done]. intros Hs [= <- <- <-]. bool_to_prop.
  destruct (s + 1 + 1 <=? u64_max) eqn:E'; [| done]. intros [= <- <- <-]. bool_to_prop. split; [| lia].
  unfold is_u64 in Hs. pose proof (from_be_to_be_u64 s ltac:(unfold is_u64; lia)) as E1.
  pose proof (from_be_to_be_u64 (s + 1) ltac:(unfold is_u64; lia)) as E2. intros Ht. change (to_be 8 s = to_be 8 (s + 1)) in Ht. rewrite Ht in E1. lia.
Qed.

End CoapClient.
