(* ===== verification/ForwardBuffer.v ===== *)
(** * The forwarding buffer (lichen-node/src/forward_buffer.rs)

    Packets a relay holds, with a quota per source.  The quota holds in every
    run and the next packet out is the most urgent and oldest one; the bound on
    the whole buffer that the module states does not hold. *)

From S2P Require Import Prelude.
Open Scope Z_scope.

Module ForwardBuffer.

Definition MAX_FORWARDING_SOURCES : nat := 8.
Definition MAX_PACKETS_PER_SOURCE : nat := 2.

Inductive ForwardError := QueueFull | NotFound.

Record ForwardEntry := {
  packet : bytes;
  source_iid : bytes;
  queued_at_ms : Z;
  deadline_ms : option Z;
  priority : Z
}.

Definition is_expired (e : ForwardEntry) (now_ms : Z) : bool :=
  match deadline_ms e with
  | Some deadline =>
      let elapsed := wrap32 (now_ms - deadline) in
      (0 <? elapsed) && (elapsed <? 0x80000000)
  | None => false
  end.

Record ForwardBuffer := { entries : list ForwardEntry; packets_backpressure : nat }.
Definition new : ForwardBuffer := {| entries := []; packets_backpressure := 0 |}.
Definition with_entries (b : ForwardBuffer) (l : list ForwardEntry) : ForwardBuffer :=
  {| entries := l; packets_backpressure := packets_backpressure b |}.

Definition expire (b : ForwardBuffer) (now_ms : Z) : nat * ForwardBuffer :=
  let l := filter (fun e => is_expired e now_ms = false) (entries b) in
  ((length (entries b) - length l)%nat, with_entries b l).

Definition count_for_source (b : ForwardBuffer) (iid : bytes) : nat :=
  length (filter (fun e => source_iid e = iid) (entries b)).

(** [seen] is the filled part of the array of sources. *)
Fixpoint distinct_loop (l : list ForwardEntry) (seen : list bytes) : nat :=
  match l with
  | [] => length seen
  | e :: l =>
      if negb (bool_decide (source_iid e ∈ seen)) && (length seen <? MAX_FORWARDING_SOURCES)%nat
      then distinct_loop l (seen ++ [source_iid e])
      else distinct_loop l seen
  end.
Definition distinct_source_count (b : ForwardBuffer) : nat := distinct_loop (entries b) [].

(** [enumerate().filter(P).min_by_key(..)], which takes the first of the least: the
    index and the entry, for the order [le] of the keys. *)
Fixpoint min_by (P : ForwardEntry -> bool) (le : ForwardEntry -> ForwardEntry -> bool) (l : list ForwardEntry) (i : nat) :
    option (nat * ForwardEntry) :=
  match l with
  | [] => None
  | e :: l =>
      let rest := min_by P le l (S i) in
      if P e then
        match rest with
        | Some (j, m) => if le e m then Some (i, e) else Some (j, m)
        | None => Some (i, e)
        end
      else rest
  end.
Definition older (a b : ForwardEntry) : bool := queued_at_ms a <=? queued_at_ms b.
Definition urgent (a b : ForwardEntry) : bool :=
  (priority a <? priority b) || ((priority a =? priority b) && (queued_at_ms a <=? queued_at_ms b)).

Definition evict_oldest_source_packet (b : ForwardBuffer) : ForwardBuffer :=
  match entries b with
  | [] => b
  | _ =>
      let oldest_idx := match min_by (fun _ => true) older (entries b) 0 with Some (i, _) => i | None => 0%nat end in
      with_entries b (delete oldest_idx (entries b))
  end.

Definition queue (b : ForwardBuffer) (p : bytes) (iid : bytes) (now_ms : Z) (deadline : option Z) (prio : Z) :
    result ForwardError unit * ForwardBuffer :=
  let b := snd (expire b now_ms) in
  let source_count := count_for_source b iid in
  if (MAX_PACKETS_PER_SOURCE <=? source_count)%nat then
    (Err QueueFull, {| entries := entries b; packets_backpressure := S (packets_backpressure b) |})
  else
    let b :=
      if (source_count =? 0)%nat then
        if (MAX_FORWARDING_SOURCES <=? distinct_source_count b)%nat then evict_oldest_source_packet b else b
      else b in
    (Ok tt, with_entries b (entries b ++ [{| packet := p; source_iid := iid; queued_at_ms := now_ms;
      deadline_ms := deadline; priority := prio |}])).

Definition dequeue (b : ForwardBuffer) (now_ms : Z) : option ForwardEntry * ForwardBuffer :=
  let b := snd (expire b now_ms) in
  match min_by (fun _ => true) urgent (entries b) 0 with
  | None => (None, b)
  | Some (best_idx, e) => (Some e, with_entries b (delete best_idx (entries b)))
  end.

Definition dequeue_for_source (b : ForwardBuffer) (iid : bytes) (now_ms : Z) : option ForwardEntry * ForwardBuffer :=
  let b := snd (expire b now_ms) in
  match min_by (fun e => bool_decide (source_iid e = iid)) older (entries b) 0 with
  | None => (None, b)
  | Some (idx, e) => (Some e, with_entries b (delete idx (entries b)))
  end.

Definition buf_len (b : ForwardBuffer) : nat := length (entries b).
Definition is_empty (b : ForwardBuffer) : bool := (buf_len b =? 0)%nat.
Definition clear_source (b : ForwardBuffer) (iid : bytes) : nat * ForwardBuffer :=
  let l := filter (fun e => source_iid e <> iid) (entries b) in
  ((length (entries b) - length l)%nat, with_entries b l).
Definition clear (b : ForwardBuffer) : ForwardBuffer := with_entries b [].

Record ForwardStats := {
  total_packets : nat;
  distinct_sources : nat;
  oldest_queued_ms : option Z;
  st_backpressure : nat
}.
Definition stats (b : ForwardBuffer) : ForwardStats :=
  {| total_packets := length (entries b); distinct_sources := distinct_source_count b;
     oldest_queued_ms := (fun p => queued_at_ms (snd p)) <$> min_by (fun _ => true) older (entries b) 0;
     st_backpressure := packets_backpressure b |}.

(** ** The quota *)

Definition count (l : list ForwardEntry) (iid : bytes) : nat := length (filter (fun e => source_iid e = iid) l).
Definition fair (b : ForwardBuffer) : Prop := forall iid, (count (entries b) iid <= MAX_PACKETS_PER_SOURCE)%nat.

Lemma count_app l k iid : count (l ++ k) iid = (count l iid + count k iid)%nat.
Proof. unfold count. by rewrite filter_app, length_app. Qed.
Lemma count_sublist l k iid : sublist l k -> (count l iid <= count k iid)%nat.
Proof. unfold count. induction 1; rewrite ?filter_cons; repeat case_decide; cbn [length]; lia. Qed.

Lemma fair_sublist b l n : sublist l (entries b) -> fair b -> fair {| entries := l; packets_backpressure := n |}.
Proof. intros Hs Hf iid. cbn. etrans; [by apply count_sublist | apply Hf]. Qed.

Lemma evict_sublist b : sublist (entries (evict_oldest_source_packet b)) (entries b).
Proof. unfold evict_oldest_source_packet. destruct (entries b) eqn:E; [by rewrite E |]. cbn [with_entries entries]. rewrite <- E. apply sublist_delete. Qed.
Lemma expire_sublist b now : sublist (entries (snd (expire b now))) (entries b).
Proof. apply sublist_filter. Qed.

Lemma queue_fair b p iid now d prio : fair b -> fair (snd (queue b p iid now d prio)).
Proof.
  intros Hf. unfold queue. set (b1 := snd (expire b now)).
  assert (fair b1) as H1 by (eapply (fair_sublist b); [apply sublist_filter | done]).
  destruct (_ <=? _)%nat eqn:E; [exact H1 |]. bool_to_prop. cbn [snd].
  set (b2 := if (_ =? 0)%nat then _ else _).
  assert (sublist (entries b2) (entries b1)) as H2.
  { subst b2. destruct (_ =? 0)%nat; [| done]. destruct (_ <=? _)%nat; [apply evict_sublist | done]. }
  intros x. cbn [with_entries entries]. rewrite count_app. pose proof (count_sublist _ _ x H2) as Hx. specialize (H1 x).
  unfold count at 2. rewrite filter_cons. cbn [source_iid]. destruct (decide (iid = x)) as [-> |]; rewrite filter_nil; cbn [length].
  - unfold count_for_source in E. fold (count (entries b1) x) in E. unfold MAX_PACKETS_PER_SOURCE in *. lia.
  - lia.
Qed.

Inductive op :=
  | OpQueue (p iid : bytes) (now : Z) (d : option Z) (prio : Z)
  | OpDequeue (now : Z)
  | OpDequeueSource (iid : bytes) (now : Z)
  | OpExpire (now : Z)
  | OpClearSource (iid : bytes)
  | OpClear.
Definition step (b : ForwardBuffer) (o : op) : ForwardBuffer :=
  match o with
  | OpQueue p iid now d prio => snd (queue b p iid now d prio)
  | OpDequeue now => snd (dequeue b now)
  | OpDequeueSource iid now => snd (dequeue_for_source b iid now)
  | OpExpire now => snd (expire b now)
  | OpClearSource iid => snd (clear_source b iid)
  | OpClear => clear b
  end.
Definition run (ops : list op) : ForwardBuffer := foldl step new ops.

Lemma step_fair b o : fair b -> fair (step b o).
Proof.
  intros Hf. destruct o; cbn [step].
  - by apply queue_fair.
  - unfold dequeue. destruct (min_by _ _ _ _) as [[i e]|]; cbn [snd]; (eapply (fair_sublist b); [| done]);
      [etrans; [apply sublist_delete |] |]; apply sublist_filter.
  - unfold dequeue_for_source. destruct (min_by _ _ _ _) as [[i e]|]; cbn [snd]; (eapply (fair_sublist b); [| done]);
      [etrans; [apply sublist_delete |] |]; apply sublist_filter.
  - eapply (fair_sublist b); [apply sublist_filter | done].
  - eapply (fair_sublist b); [apply sublist_filter | done].
  - eapply (fair_sublist b); [apply sublist_nil_l | done].
Qed.

(** ** The next packet *)

Lemma min_by_spec P le (Htotal : forall a b, le a b = false -> le b a = true) (Htrans : forall a b c, le a b = true -> le b c = true -> le a c = true) (l : list ForwardEntry) : forall i,
  match min_by P le l i with
  | None => forall e, e ∈ l -> P e = false
  | Some (j, m) => (i <= j)%nat /\ l !! (j - i)%nat = Some m /\ P m = true /\ forall e, e ∈ l -> P e = true -> le m e = true
  end.
Proof.
  assert (forall a, le a a = true) as Hrefl. { intros a. destruct (le a a) eqn:E; [done |]. by rewrite (Htotal _ _ E) in E. }
  induction l as [|x l IH]; intros i; cbn [min_by]; [by intros e ?%not_elem_of_nil |]. specialize (IH (S i)).
  destruct (min_by P le l (S i)) as [[j m]|].
  - destruct IH as (Hj & Hl & Hp & Hmin).
    assert ((x :: l) !! (j - i)%nat = Some m) as Hl' by (replace (j - i)%nat with (S (j - S i)) by lia; done).
    destruct (P x) eqn:Ex; [destruct (le x m) eqn:El |].
    + split_and!; [lia | by rewrite Nat.sub_diag | done |]. intros e [-> | He]%elem_of_cons HPe; [done |]. eapply Htrans; [exact El | by apply Hmin].
    + split_and!; [lia | done | done |]. intros e [-> | He]%elem_of_cons HPe; [by apply Htotal | by apply Hmin].
    + split_and!; [lia | done | done |]. intros e [-> | He]%elem_of_cons HPe; [congruence | by apply Hmin].
  - destruct (P x) eqn:Ex.
    + split_and!; [lia | by rewrite Nat.sub_diag | done |]. intros e [-> | He]%elem_of_cons HPe; [done |]. by rewrite (IH e He) in HPe.
    + by intros e [-> | He]%elem_of_cons; [| apply IH].
Qed.

Lemma urgent_total a b : urgent a b = false -> urgent b a = true.
Proof. unfold urgent. destruct (priority a <? priority b) eqn:E1, (priority a =? priority b) eqn:E2; cbn; intros; bool_to_prop; try done.
  - rewrite E2, Z.ltb_irrefl, Z.eqb_refl. cbn. lia.
  - apply orb_true_iff. left. lia.
Qed.
Lemma urgent_trans a b c : urgent a b = true -> urgent b c = true -> urgent a c = true.
Proof. unfold urgent. rewrite !orb_true_iff, !andb_true_iff, !Z.ltb_lt, !Z.eqb_eq, !Z.leb_le. lia. Qed.

(** What is dequeued is live, was in the buffer, and no live packet is more
    urgent, or as urgent and older; nothing else is lost but expired packets. *)
Lemma dequeue_best b now : let live := filter (fun e => is_expired e now = false) (entries b) in
  match dequeue b now with
  | (None, b') => live = [] /\ entries b' = []
  | (Some e, b') => e ∈ live /\ (forall x, x ∈ live -> urgent e x = true) /\ live ≡ₚ e :: entries b'
  end.
Proof.
  unfold dequeue. cbn [expire snd with_entries entries]. set (live := filter _ _).
  pose proof (min_by_spec (fun _ => true) urgent urgent_total urgent_trans live 0) as Hm.
  destruct (min_by _ _ live 0) as [[j m]|].
  - destruct Hm as (_ & Hl & _ & Hmin). rewrite Nat.sub_0_r in Hl. split_and!.
    + by eapply list_elem_of_lookup_2.
    + intros x Hx. by apply Hmin.
    + cbn. by apply delete_Permutation.
  - cbn. destruct live as [|x l]; [done |]. by specialize (Hm x ltac:(left)).
Qed.

(** The forwarding buffer is fair.  Whatever is queued, dequeued, expired or
    cleared, no source ever holds more than its quota of packets; and from any
    buffer so reached the next packet out is a live one such that no live packet
    is more urgent, or as urgent and older, with every other live packet kept. *)
Lemma forward_buffer_fair (ops : list op) (now : Z) :
  let b := run ops in
  (forall iid, (count_for_source b iid <= MAX_PACKETS_PER_SOURCE)%nat) /\
  let live := filter (fun e => is_expired e now = false) (entries b) in
  match dequeue b now with
  | (None, b') => live = [] /\ entries b' = []
  | (Some e, b') => e ∈ live /\ (forall x, x ∈ live -> urgent e x = true) /\ live ≡ₚ e :: entries b'
  end.
Proof.
  intros b. split; [| apply dequeue_best]. enough (fair b) as Hf by apply Hf. unfold b, run.
  assert (fair new) as Hn by (intros iid; cbn; lia). revert Hn. generalize new.
  induction ops as [|o ops IH]; intros c Hc; [done |]. cbn. by apply IH, step_fair.
Qed.

(** ** No bound on the whole buffer *)

(** Two packets from each of [n] sources, none with a deadline. *)
Definition flood_iid (i : nat) : bytes := to_be 8 (Z.of_nat i).
Fixpoint flood (n : nat) : list op :=
  match n with
  | O => []
  | S n => flood n ++ [OpQueue [] (flood_iid n) 0 None 3; OpQueue [] (flood_iid n) 0 None 3]
  end.

Definition no_deadlines (b : ForwardBuffer) : Prop := Forall (fun e => deadline_ms e = None) (entries b).

Lemma expire_no_deadlines b now : no_deadlines b -> entries (snd (expire b now)) = entries b.
Proof.
  intros Hn. cbn. induction Hn as [|e l He Hn IH]; [done |]. rewrite filter_cons, decide_True, IH; [done |].
  unfold is_expired. by rewrite He.
Qed.
Lemma delete_length {A} (l : list A) : forall i, (length l <= S (length (delete i l)))%nat.
Proof. induction l as [|x l IH]; intros [|i]; [cbn; lia | cbn; lia | cbn; lia |].
  change (delete (S i) (x :: l)) with (x :: delete i l). cbn [length]. specialize (IH i). lia.
Qed.
Lemma evict_length b : (length (entries b) <= S (length (entries (evict_oldest_source_packet b))))%nat.
Proof.
  unfold evict_oldest_source_packet. destruct (entries b) as [|x l] eqn:E; [rewrite E; cbn; lia |]. cbn [with_entries entries].
  apply delete_length.
Qed.

(** A packet of a source with none or one queued is added; at most one is evicted,
    and none when the source had one already. *)
Lemma queue_adds b iid : no_deadlines b -> (count (entries b) iid < 2)%nat ->
  let b' := snd (queue b [] iid 0 None 3) in
  no_deadlines b' /\ (length (entries b) + count (entries b) iid <= length (entries b'))%nat /\
  exists l, sublist l (entries b) /\ entries b' = l ++ [{| packet := []; source_iid := iid; queued_at_ms := 0; deadline_ms := None; priority := 3 |}].
Proof.
  intros Hn Hc. unfold queue. pose proof (expire_no_deadlines b 0 Hn) as He. set (b1 := snd (expire b 0)) in *.
  unfold count_for_source. fold (count (entries b1) iid). rewrite He.
  rewrite (proj2 (Nat.leb_gt _ _)) by (unfold MAX_PACKETS_PER_SOURCE; lia). cbn [snd].
  set (b2 := if (_ =? 0)%nat then _ else _).
  assert (sublist (entries b2) (entries b) /\ (length (entries b) + count (entries b) iid <= S (length (entries b2)))%nat) as [Hs Hl].
  { subst b2. destruct (_ =? 0)%nat eqn:E0; bool_to_prop.
    - rewrite E0. destruct (_ <=? _)%nat.
      + rewrite <- He. split; [apply evict_sublist |]. pose proof (evict_length b1). lia.
      + rewrite He. split; [done | lia].
    - rewrite He. split; [done | lia]. }
  cbn [with_entries entries]. split_and!.
  - unfold no_deadlines. cbn. apply Forall_app. split; [| by repeat constructor]. apply Forall_forall. intros x Hx.
    eapply sublist_subseteq in Hx; [| exact Hs]. by eapply Forall_forall in Hx; [| exact Hn].
  - rewrite length_app. cbn. lia.
  - by exists (entries b2).
Qed.

Lemma count_absent l iid : (forall e, e ∈ l -> source_iid e <> iid) -> count l iid = 0%nat.
Proof.
  intros Ha. unfold count. induction l as [|x l IH]; [done |]. rewrite filter_cons, decide_False by (apply Ha; by left).
  apply IH. intros e He. apply Ha. by right.
Qed.

Lemma flood_spec n : Z.of_nat n <= u32_max -> let b := run (flood n) in
  no_deadlines b /\ (n <= length (entries b))%nat /\ forall e, e ∈ entries b -> exists i, (i < n)%nat /\ source_iid e = flood_iid i.
Proof.
  induction n as [|n IH]; intros Hn; [split_and!; [constructor | cbn; lia | by intros e ?%not_elem_of_nil] |].
  destruct IH as (Hd & Hl & Hs); [lia |]. unfold run in *. cbn [flood]. rewrite foldl_app. set (b := foldl step new (flood n)) in *. cbn [foldl step].
  assert (count (entries b) (flood_iid n) = 0%nat) as H0.
  { apply count_absent. intros e He E. destruct (Hs e He) as (i & Hi & Ei). rewrite Ei in E. apply (f_equal from_be) in E.
    unfold flood_iid in E. unfold u32_max in Hn. rewrite !from_be_to_be_u64 in E by (unfold is_u64, u64_max; lia). lia. }
  destruct (queue_adds b (flood_iid n) Hd) as (Hd1 & Hl1 & l1 & Hs1 & E1); [lia |]. set (b1 := snd (queue b _ _ _ _ _)) in *.
  assert (count (entries b1) (flood_iid n) = 1%nat) as H1.
  { rewrite E1, count_app. pose proof (count_sublist _ _ (flood_iid n) Hs1). unfold count at 2. rewrite filter_cons, decide_True by done.
    rewrite filter_nil. cbn [length]. lia. }
  destruct (queue_adds b1 (flood_iid n) Hd1) as (Hd2 & Hl2 & l2 & Hs2 & E2); [lia |].
  split_and!; [exact Hd2 | lia |].
  assert (forall e, e ∈ entries b1 -> exists i, (i < S n)%nat /\ source_iid e = flood_iid i) as Hb1.
  { intros e. rewrite E1. intros [He | ->%list_elem_of_singleton]%elem_of_app; [| by exists n; split; [lia |]].
    eapply sublist_subseteq in He; [| exact Hs1]. destruct (Hs e He) as (i & Hi & Ei). exists i. split; [lia | done]. }
  intros e. rewrite E2. intros [He | ->%list_elem_of_singleton]%elem_of_app; [| by exists n; split; [lia |]].
  apply Hb1. eapply sublist_subseteq; [exact Hs2 | exact He].
Qed.

(** The buffer grows with the number of sources: at its limit of sources a new one
    evicts a single packet and may then queue two. *)
Lemma forward_buffer_unbounded (n : nat) : Z.of_nat n <= u32_max -> (n <= buf_len (run (flood n)))%nat.
Proof. intros Hn. by destruct (flood_spec n Hn) as (_ & ? & _). Qed.

Example seventeen_packets : buf_len (run (flood 9)) = 17%nat /\ distinct_source_count (run (flood 9)) = 8%nat.
Proof. split; reflexivity. Qed.

End ForwardBuffer.
