(* ===== verification/RplTiming.v ===== *)
(** * Root sequence cache and DAO timing (lichen-rpl)

    root_seq_cache.rs and dao_timing.rs of lichen-rpl/src: the highest accepted
    sequence of every DODAG root, kept on two-slot storage, and the retry and
    refresh schedule of a DAO. *)

From stdpp Require Import strings gmap.
From S2P Require Import Prelude Storage Sos.
Import Utf8 Redundant.
Open Scope Z_scope.

Module RootSeq.

Definition MAX_ROOT_SEQ_KEYS : nat := 16.
Inductive RootSeqReject := Replay | Regression | Capacity.

(** A tracked key with its sequence. *)
Record Entry := { en_dodag : bytes; en_instance : Z; en_seq : Z }.
Record RootSeqCache := { entries : list (option Entry) }.
Definition cache_default : RootSeqCache := {| entries := replicate MAX_ROOT_SEQ_KEYS None |}.

Definition key_is (dodag_id : bytes) (instance : Z) (e : Entry) : bool :=
  bool_decide (en_dodag e = dodag_id) && (en_instance e =? instance).
Definition slot_is (dodag_id : bytes) (instance : Z) (s : option Entry) : bool :=
  match s with Some e => key_is dodag_id instance e | None => false end.

Definition accept (c : RootSeqCache) (dodag_id : bytes) (instance root_seq : Z) : result RootSeqReject unit * RootSeqCache :=
  let entry := Some {| en_dodag := dodag_id; en_instance := instance; en_seq := root_seq |} in
  match list_find (fun s => slot_is dodag_id instance s = true) (entries c) with
  | Some (i, Some e) =>
      if root_seq <=? en_seq e then (Err (if root_seq =? en_seq e then Replay else Regression), c)
      else (Ok tt, {| entries := <[i := entry]> (entries c) |})
  | _ =>
      match list_find (fun s => s = None) (entries c) with
      | None => (Err Capacity, c)
      | Some (i, _) => (Ok tt, {| entries := <[i := entry]> (entries c) |})
      end
  end.

Definition flat (c : RootSeqCache) : list Entry := omap id (entries c).
Definition cached (c : RootSeqCache) (dodag_id : bytes) (instance : Z) : option Z :=
  (fun p => en_seq (snd p)) <$> list_find (fun e => key_is dodag_id instance e = true) (flat c).

(** ** The durable form *)

Definition ROOT_SEQ_KEYS : string * string := ("rpl.rseq.a", "rpl.rseq.b")%string.
Definition ROOT_SEQ_MAGIC : bytes := ascii "RSQ1".
Definition ROOT_SEQ_ENTRY_LEN : nat := 16 + 1 + 8.
Definition ROOT_SEQ_PAYLOAD_LEN : nat := 1 + MAX_ROOT_SEQ_KEYS * ROOT_SEQ_ENTRY_LEN.
Definition ROOT_SEQ_RECORD_LEN : nat := ROOT_SEQ_PAYLOAD_LEN + 24.

Fixpoint encode_loop (l : list Entry) (offset : nat) (out : bytes) : bytes * nat :=
  match l with
  | [] => (out, offset)
  | e :: l =>
      let out := list_inserts offset (en_dodag e) out in
      let out := list_inserts (offset + 16) [en_instance e] out in
      let out := list_inserts (offset + 17) (to_be 8 (en_seq e)) out in
      encode_loop l (offset + ROOT_SEQ_ENTRY_LEN) out
  end.
Definition encode (c : RootSeqCache) : bytes * nat :=
  let out := replicate ROOT_SEQ_PAYLOAD_LEN 0 in
  let count := length (flat c) in
  let out := <[0%nat := wrap8 (Z.of_nat count)]> out in
  encode_loop (flat c) 1 out.

Fixpoint decode_loop (payload : bytes) (index n : nat) (c : RootSeqCache) : option RootSeqCache :=
  match n with
  | O => Some c
  | S n =>
      let offset := (1 + index * ROOT_SEQ_ENTRY_LEN)%nat in
      let dodag_id := slice offset (offset + 16) payload in
      let instance := nth (offset + 16) payload 0 in
      let root_seq := from_be (slice (offset + 17) (offset + ROOT_SEQ_ENTRY_LEN) payload) in
      if (root_seq =? 0) || bool_decide (is_Some (cached c dodag_id instance)) then None
      else decode_loop payload (S index) n
             {| entries := <[index := Some {| en_dodag := dodag_id; en_instance := instance; en_seq := root_seq |}]> (entries c) |}
  end.
Definition decode (payload : bytes) : option RootSeqCache :=
  first ← head payload;
  let count := Z.to_nat first in
  if (MAX_ROOT_SEQ_KEYS <? count)%nat || negb (length payload =? 1 + count * ROOT_SEQ_ENTRY_LEN)%nat then None
  else decode_loop payload 0 count cache_default.

Inductive RootSeqOpenError (E : Type) := Missing | Corrupt | StorageError (e : E).
Arguments Missing {E}.
Arguments Corrupt {E}.
Arguments StorageError {E} e.

Section storage.
Context {S SE : Type} `{!NonVolatile S SE}.

Definition open (storage : S) : S * result (RootSeqOpenError SE) (RootSeqCache * RedundantValue) :=
  let buf := replicate ROOT_SEQ_RECORD_LEN 0 in
  match open_redundant storage ROOT_SEQ_KEYS ROOT_SEQ_MAGIC buf buf (replicate ROOT_SEQ_PAYLOAD_LEN 0) with
  | (s, Err OMissing) => (s, Err Missing)
  | (s, Err OCorrupt) => (s, Err Corrupt)
  | (s, Err OBufferTooSmall) => (s, Err Corrupt)
  | (s, Err (OStorage e)) => (s, Err (StorageError e))
  | (s, Ok (current, payload)) =>
      match decode (take (len current) payload) with
      | Some cache => (s, Ok (cache, current))
      | None => (s, Err Corrupt)
      end
  end.

(** [None]: the [expect] on the record buffer fails. *)
Definition resume (storage : S) : option (S * result (RootSeqOpenError SE) (RootSeqCache * RedundantValue)) :=
  match open storage with
  | (s, Err Missing) =>
      let '(payload, n) := encode cache_default in
      '(s, r) ← provision_redundant s ROOT_SEQ_KEYS ROOT_SEQ_MAGIC (take n payload) (replicate ROOT_SEQ_RECORD_LEN 0);
      match r with
      | Err PExists => Some (s, Err Corrupt)
      | Err (PStorage e) => Some (s, Err (StorageError e))
      | Ok _ => Some (open s)
      end
  | r => Some r
  end.

Definition persist (c : RootSeqCache) (storage : S) (current : RedundantValue) :
    option (S * result (RedundantUpdateError SE) RedundantValue) :=
  let '(payload, n) := encode c in
  update_redundant storage ROOT_SEQ_KEYS ROOT_SEQ_MAGIC current (take n payload) (replicate ROOT_SEQ_RECORD_LEN 0).

End storage.

(** ** Correctness of the cache *)

Record entry_ok (e : Entry) : Prop := {
  eo_dodag : length (en_dodag e) = 16%nat;
  eo_bytes : bytes_ok (en_dodag e);
  eo_instance : is_u8 (en_instance e);
  eo_seq : 1 <= en_seq e <= u64_max
}.
Definition key (e : Entry) : bytes * Z := (en_dodag e, en_instance e).
Record cache_ok (c : RootSeqCache) : Prop := {
  ck_len : length (entries c) = MAX_ROOT_SEQ_KEYS;
  ck_entries : Forall entry_ok (flat c);
  ck_keys : NoDup (key <$> flat c)
}.

Lemma key_is_spec d i e : key_is d i e = true <-> key e = (d, i).
Proof. unfold key_is, key. rewrite andb_true_iff, bool_decide_eq_true, Z.eqb_eq. split; [by intros [-> ->] | by intros [= -> ->]]. Qed.

Lemma cached_spec c d i q : NoDup (key <$> flat c) ->
  cached c d i = Some q <-> exists e, e ∈ flat c /\ key e = (d, i) /\ en_seq e = q.
Proof.
  intros Hn. unfold cached. destruct (list_find _ (flat c)) as [[j x]|] eqn:E; cbn.
  - apply list_find_Some in E as (Hj & Hx & _). apply key_is_spec in Hx. split.
    + intros [= <-]. exists x. split_and!; [by eapply list_elem_of_lookup_2 | done | done].
    + intros (e & He & Hk & <-). f_equal. apply list_elem_of_lookup in He as [k He].
      assert (k = j) as ->; [| congruence]. eapply (NoDup_lookup _ _ _ (d, i)); [exact Hn | |]; rewrite list_lookup_fmap;
        [rewrite He | rewrite Hj]; cbn; congruence.
  - apply list_find_None in E. split; [done |]. intros (e & He & Hk & _). rewrite Forall_forall in E. destruct (E e He). by apply key_is_spec.
Qed.

Lemma flat_insert (l : list (option Entry)) i (old : option Entry) (e : Entry) : l !! i = Some old ->
  omap id (<[i := Some e]> l) ≡ₚ e :: omap id (delete i l) /\ omap id l ≡ₚ (match old with Some o => [o] | None => [] end) ++ omap id (delete i l).
Proof.
  intros Hi. assert (omap id l ≡ₚ omap id (old :: delete i l)) as H1 by (apply omap_Permutation, delete_Permutation; done).
  assert (<[i := Some e]> l ≡ₚ Some e :: delete i l) as H2.
  { rewrite (insert_take_drop l i (Some e)) by (by eapply lookup_lt_Some). rewrite delete_take_drop. by rewrite Permutation_middle. }
  apply (omap_Permutation id) in H2. split; [exact H2 |]. rewrite H1. by destruct old.
Qed.

(** A sequence is accepted when it is above the cached one, or its key is new
    and a slot is free; then it is cached, and no other key changes.  A refusal
    changes nothing. *)
Lemma accept_spec c d i q : cache_ok c -> entry_ok {| en_dodag := d; en_instance := i; en_seq := q |} ->
  match accept c d i q with
  | (Ok _, c') => (forall v, cached c d i = Some v -> v < q) /\ cache_ok c' /\ cached c' d i = Some q /\
      forall d' i', (d', i') <> (d, i) -> cached c' d' i' = cached c d' i'
  | (Err r, c') => c' = c /\ match r with
      | Replay => cached c d i = Some q
      | Regression => exists v, cached c d i = Some v /\ q < v
      | Capacity => cached c d i = None /\ length (flat c) = MAX_ROOT_SEQ_KEYS
      end
  end.
Proof.
  intros [Hl He Hk] Hnew. unfold accept. set (entry := {| en_dodag := d |}) in *.
  assert (forall j old, entries c !! j = Some old -> (forall o, old = Some o -> key o = (d, i)) ->
    (old = None -> cached c d i = None) -> let c' := {| entries := <[j := Some entry]> (entries c) |} in
    cache_ok c' /\ cached c' d i = Some q /\ forall d' i', (d', i') <> (d, i) -> cached c' d' i' = cached c d' i') as Hset.
  { intros j old Hj Hold Hnone c'. destruct (flat_insert (entries c) j old entry Hj) as [P1 P2].
    fold (flat c) in P2. change (omap id (<[j:=Some entry]> (entries c))) with (flat c') in P1. set (rest := omap id (delete j (entries c))) in *.
    assert (key entry ∉ (key <$> rest)) as Hni.
    { intros Hin. apply list_elem_of_fmap in Hin as (x & Hx & Hin). destruct old as [o|].
      - rewrite P2, fmap_app in Hk. cbn in Hk. apply NoDup_cons in Hk as [Hk _]. apply Hk. rewrite (Hold o eq_refl).
        apply list_elem_of_fmap. by exists x.
      - specialize (Hnone eq_refl). assert (x ∈ flat c) as Hxc by (rewrite P2; done).
        assert (cached c d i = Some (en_seq x)) as Hc by (apply cached_spec; [done |]; exists x; by split_and!). congruence. }
    assert (NoDup (key <$> flat c')) as Hnd.
    { rewrite P1. cbn. apply NoDup_cons. split; [done |]. rewrite P2, fmap_app in Hk. by apply NoDup_app in Hk as (_ & _ & ?). }
    split_and!.
    - split; [cbn; by rewrite length_insert | | done]. rewrite P1. constructor; [done |]. rewrite P2 in He. by apply Forall_app in He as [_ ?].
    - apply cached_spec; [done |]. exists entry. split_and!; [rewrite P1; by left | done | done].
    - intros d' i' Hne. apply option_eq. intros v. rewrite !cached_spec by done. split; intros (x & Hx & Hkx & Hv); exists x; split_and!; try done.
      + rewrite P1 in Hx. apply elem_of_cons in Hx as [-> |Hx]; [by destruct Hne |]. rewrite P2. apply elem_of_app. by right.
      + rewrite P2 in Hx. apply elem_of_app in Hx as [Hx|Hx]; [| rewrite P1; by right]. destruct old as [o|]; [| by apply not_elem_of_nil in Hx].
        apply list_elem_of_singleton in Hx as ->. rewrite (Hold o eq_refl) in Hkx. by destruct Hne. }
  assert (forall j s, list_find (fun s => slot_is d i s = true) (entries c) = Some (j, s) ->
    exists e, s = Some e /\ entries c !! j = Some (Some e) /\ key e = (d, i) /\ cached c d i = Some (en_seq e)) as Hfound.
  { intros j s Hf. apply list_find_Some in Hf as (Hj & Hs & _). destruct s as [e|]; [| done]. cbn in Hs. apply key_is_spec in Hs.
    exists e. split_and!; try done. apply cached_spec; [done |]. exists e. split_and!; [| done | done].
    apply list_elem_of_omap. exists (Some e). split; [by eapply list_elem_of_lookup_2 | done]. }
  destruct (list_find (fun s => slot_is d i s = true) (entries c)) as [[j s]|] eqn:Ef.
  - destruct (Hfound j s eq_refl) as (e & -> & Hj & Hke & Hce). destruct (q <=? en_seq e) eqn:Eq; bool_to_prop.
    + split; [done |]. destruct (q =? en_seq e) eqn:E2; bool_to_prop; [by rewrite Hce, E2 |]. exists (en_seq e). split; [done | lia].
    + split; [intros v Hv; rewrite Hce in Hv; simplify_eq; lia |]. apply (Hset j (Some e)); [done | by intros o [= <-] | done].
  - assert (cached c d i = None) as Hc.
    { unfold cached. destruct (list_find _ (flat c)) as [[k e]|] eqn:E2; [| done]. apply list_find_Some in E2 as (Hk2 & Hke & _).
      apply list_elem_of_lookup_2, list_elem_of_omap in Hk2 as (s & Hs & Es). cbn in Es. subst s.
      apply list_find_None in Ef. rewrite Forall_forall in Ef. by destruct (Ef _ Hs). }
    destruct (list_find (fun s => s = None) (entries c)) as [[j s]|] eqn:En.
    + apply list_find_Some in En as (Hj & -> & _). split; [by rewrite Hc |]. by apply (Hset j None).
    + split; [done |]. split; [done |]. apply list_find_None in En. rewrite <- Hl. unfold flat. clear -En.
      induction En as [|s l Hs Hall IH]; [done |]. destruct s as [e|]; [| done]. cbn. f_equal. exact IH.
Qed.

(** ** The durable form *)

Definition entry_bytes (e : Entry) : bytes := en_dodag e ++ [en_instance e] ++ to_be 8 (en_seq e).
Definition record_bytes (l : list Entry) : bytes := Z.of_nat (length l) :: concat (entry_bytes <$> l).

Lemma length_entry_bytes e : entry_ok e -> length (entry_bytes e) = 25%nat.
Proof. intros [Hd _ _ _]. unfold entry_bytes. rewrite !length_app, length_to_be, Hd. done. Qed.
Lemma length_concat_entries l : Forall entry_ok l -> length (concat (entry_bytes <$> l)) = (25 * length l)%nat.
Proof. induction 1 as [|e l He _ IH]; [done |]. cbn [fmap list_fmap concat length]. rewrite length_app, length_entry_bytes, IH by done. lia. Qed.
Lemma entry_bytes_ok e : entry_ok e -> bytes_ok (entry_bytes e).
Proof. intros [_ Hb Hi _]. unfold entry_bytes. apply Forall_app. split; [done |]. constructor; [done | apply to_be_ok]. Qed.

Lemma rseq_encode_loop_spec (l : list Entry) : Forall entry_ok l -> forall pre rest, (25 * length l <= length rest)%nat ->
  encode_loop l (length pre) (pre ++ rest) =
  (pre ++ concat (entry_bytes <$> l) ++ drop (25 * length l) rest, (length pre + 25 * length l)%nat).
Proof.
  induction 1 as [|e l He _ IH]; intros pre rest Hl; [cbn; by rewrite Nat.add_0_r |].
  cbn [encode_loop length] in *. pose proof He as [Hd _ _ _].
  rewrite (inserts_adjacent (length pre) (length pre + 16) (en_dodag e) [en_instance e]) by (by rewrite Hd).
  rewrite (inserts_adjacent (length pre) (length pre + 17) (en_dodag e ++ [en_instance e])) by (rewrite length_app, Hd; done).
  rewrite <- app_assoc. fold (entry_bytes e).
  replace (list_inserts (length pre)) with (list_inserts (A:=Z) (length pre + 0)) by (by rewrite Nat.add_0_r). rewrite list_inserts_app_r, inserts_front by (rewrite length_entry_bytes by done; lia).
  rewrite length_entry_bytes by done. rewrite app_assoc.
  replace (length pre + ROOT_SEQ_ENTRY_LEN)%nat with (length (pre ++ entry_bytes e))
    by (rewrite length_app, length_entry_bytes by done; done).
  rewrite IH by (rewrite length_drop; lia). rewrite length_app, length_entry_bytes, drop_drop by done. f_equal; [| lia].
  change (entry_bytes <$> e :: l) with (entry_bytes e :: (entry_bytes <$> l)). cbn [concat].
  rewrite <- !app_assoc. do 4 f_equal. lia.
Qed.

Lemma flat_len c : cache_ok c -> (length (flat c) <= 16)%nat.
Proof.
  intros [Hl _ _]. unfold MAX_ROOT_SEQ_KEYS in Hl. rewrite <- Hl. unfold flat. clear Hl. induction (entries c) as [|[e|] l IH]; cbn in *; lia.
Qed.

Lemma encode_bytes c : cache_ok c -> take (snd (encode c)) (fst (encode c)) = record_bytes (flat c).
Proof.
  intros Hok. pose proof (flat_len c Hok) as Hl. destruct Hok as [_ He _]. unfold encode. unfold wrap8. rewrite Z.mod_small by lia.
  change (<[0%nat:=Z.of_nat (length (flat c))]> (replicate ROOT_SEQ_PAYLOAD_LEN 0)) with
    ([Z.of_nat (length (flat c))] ++ replicate 400 0).
  change (encode_loop (flat c) 1) with (encode_loop (flat c) (length [Z.of_nat (length (flat c))])).
  rewrite rseq_encode_loop_spec by (done || (rewrite length_replicate; lia)). cbn [fst snd]. rewrite app_assoc.
  apply take_app_length'. unfold record_bytes. cbn [length app]. rewrite length_concat_entries by done. lia.
Qed.

Lemma slice_mid {A} (pre k rest : list A) a b : a = length pre -> b = (a + length k)%nat -> slice a b (pre ++ k ++ rest) = k.
Proof. intros -> ->. unfold slice. rewrite drop_app_length. replace (_ + _ - _)%nat with (length k) by lia. apply take_app_length. Qed.

(** The cache whose first slots hold [l]. *)
Definition packed (l : list Entry) : RootSeqCache := {| entries := (Some <$> l) ++ replicate (16 - length l) None |}.
Lemma flat_packed l : flat (packed l) = l.
Proof.
  unfold flat, packed. cbn [entries]. rewrite omap_app. assert (omap id (Some <$> l) = l) as ->.
  { induction l as [|e l IH]; [done |]. cbn. by rewrite IH. }
  assert (forall n, omap id (replicate n (@None Entry)) = []) as ->; [| apply app_nil_r]. induction n as [|n IH]; [done |]. exact IH.
Qed.

Lemma rseq_decode_loop_spec (todo : list Entry) : forall done rest cnt, Forall entry_ok (done ++ todo) -> NoDup (key <$> done ++ todo) ->
  (length (done ++ todo) <= 16)%nat ->
  decode_loop (cnt :: concat (entry_bytes <$> done ++ todo) ++ rest) (length done) (length todo) (packed done) = Some (packed (done ++ todo)).
Proof.
  induction todo as [|e todo IH]; intros done rest cnt Hok Hnd Hl; [cbn; by rewrite app_nil_r |].
  cbn [length decode_loop]. apply Forall_app in Hok as Hok2. destruct Hok2 as [Hdone Htodo]. apply Forall_cons in Htodo as [He Htodo].
  pose proof He as [Hd Hdb Hi [Hq1 Hq2]].
  set (pre := cnt :: concat (entry_bytes <$> done)).
  assert (length pre = (1 + length done * ROOT_SEQ_ENTRY_LEN)%nat) as Hpre.
  { subst pre. cbn [length]. rewrite length_concat_entries by done. unfold ROOT_SEQ_ENTRY_LEN. lia. }
  assert (cnt :: concat (entry_bytes <$> done ++ e :: todo) ++ rest =
    pre ++ en_dodag e ++ [en_instance e] ++ to_be 8 (en_seq e) ++ concat (entry_bytes <$> todo) ++ rest) as Hp.
  { subst pre. rewrite fmap_app, concat_app. cbn [fmap list_fmap concat app]. unfold entry_bytes at 2. by rewrite <- !app_assoc. }
  rewrite Hp, <- Hpre. rewrite (slice_mid pre (en_dodag e) _ (length pre) (length pre + 16)) by (done || by rewrite Hd).
  assert (nth (length pre + 16) (pre ++ en_dodag e ++ [en_instance e] ++ to_be 8 (en_seq e) ++ concat (entry_bytes <$> todo) ++ rest) 0 = en_instance e) as ->.
  { rewrite app_nth2 by lia. rewrite app_nth2 by lia. replace (length pre + 16 - length pre - length (en_dodag e))%nat with 0%nat by lia. done. }
  assert (slice (length pre + 17) (length pre + ROOT_SEQ_ENTRY_LEN)
    (pre ++ en_dodag e ++ [en_instance e] ++ to_be 8 (en_seq e) ++ concat (entry_bytes <$> todo) ++ rest) = to_be 8 (en_seq e)) as ->.
  { rewrite (app_assoc pre), (app_assoc (pre ++ en_dodag e)). apply slice_mid.
    - rewrite !length_app, Hd. cbn. lia.
    - rewrite length_to_be. unfold ROOT_SEQ_ENTRY_LEN. lia. }
  rewrite from_be_to_be_u64 by (unfold is_u64; lia). rewrite (proj2 (Z.eqb_neq _ _)) by lia. cbn [orb].
  rewrite bool_decide_false.
  2: { intros [q Hc]. apply cached_spec in Hc as (x & Hx & Hk & _); rewrite flat_packed in *.
       - rewrite fmap_app in Hnd. apply NoDup_app in Hnd as (_ & Hdis & _). apply (Hdis (key x)); [apply list_elem_of_fmap; by exists x |].
         cbn. rewrite Hk. by left.
       - rewrite fmap_app in Hnd. by apply NoDup_app in Hnd as (? & _ & _). }
  rewrite <- Hp. assert ({| entries := <[length done := Some {| en_dodag := en_dodag e; en_instance := en_instance e; en_seq := en_seq e |}]> (entries (packed done)) |} =
    packed (done ++ [e])) as ->.
  { unfold packed. f_equal. rewrite length_app in Hl. cbn [length] in Hl. cbn [entries].
    rewrite <- (Nat.add_0_r (length done)) at 1. rewrite <- (length_fmap Some done) at 1. rewrite insert_app_r.
    replace (16 - length done)%nat with (S (16 - length (done ++ [e])))%nat by (rewrite length_app; cbn; lia).
    rewrite fmap_app, <- app_assoc. by destruct e. }
  replace (S (length done)) with (length (done ++ [e])) by (rewrite length_app; cbn; lia).
  replace (done ++ e :: todo) with ((done ++ [e]) ++ todo) in * by (by rewrite <- app_assoc). by apply IH.
Qed.

(** What is written decodes to a cache with the same sequences. *)
Lemma root_seq_roundtrip c : cache_ok c ->
  exists c', decode (take (snd (encode c)) (fst (encode c))) = Some c' /\ flat c' = flat c /\ cache_ok c' /\
    forall d i, cached c' d i = cached c d i.
Proof.
  intros Hok. rewrite encode_bytes by done. pose proof (flat_len c Hok) as Hl. destruct Hok as [_ He Hk]. exists (packed (flat c)).
  assert (flat (packed (flat c)) = flat c) as Hf by apply flat_packed.
  split_and!; [| done | | by intros d i; unfold cached; rewrite Hf].
  - unfold decode, record_bytes. cbn [head mbind option_bind]. rewrite Nat2Z.id. cbn [length].
    rewrite length_concat_entries by done. change MAX_ROOT_SEQ_KEYS with 16%nat. change ROOT_SEQ_ENTRY_LEN with 25%nat.
    rewrite (proj2 (Nat.ltb_ge _ _)), (proj2 (Nat.eqb_eq _ _)) by lia. cbn [orb negb].
    pose proof (rseq_decode_loop_spec (flat c) [] [] (Z.of_nat (length (flat c))) He Hk Hl) as Hdl. cbn [app length] in Hdl.
    rewrite app_nil_r in Hdl. exact Hdl.
  - split; [| by rewrite Hf | by rewrite Hf]. cbn. rewrite length_app, length_fmap, length_replicate. unfold MAX_ROOT_SEQ_KEYS. lia.
Qed.

Section restart.
Context {S SE : Type} `{!NonVolatile S SE}.

(** The store holds [c] as its current record. *)
Definition holds (s : S) (c : RootSeqCache) (v : RedundantValue) : Prop :=
  store_ok (nv_contents s) /\ slots_fit ROOT_SEQ_KEYS ROOT_SEQ_RECORD_LEN (nv_contents s) /\
  current_value ROOT_SEQ_MAGIC ROOT_SEQ_KEYS (nv_contents s) = Some (generation v, slot v, record_bytes (flat c)).

Lemma record_len c : cache_ok c -> (length (record_bytes (flat c)) <= ROOT_SEQ_PAYLOAD_LEN)%nat.
Proof.
  intros Hok. pose proof (flat_len c Hok). destruct Hok as [_ He _]. unfold record_bytes. cbn [length]. rewrite length_concat_entries by done.
  change ROOT_SEQ_PAYLOAD_LEN with 401%nat. lia.
Qed.
Lemma record_ok c : cache_ok c -> bytes_ok (record_bytes (flat c)).
Proof.
  intros Hok. pose proof (flat_len c Hok). destruct Hok as [_ He _]. unfold record_bytes. constructor; [unfold is_u8, u8_max; lia |].
  clear H. induction He as [|e l He _ IH]; [constructor |]. cbn. apply Forall_app. split; [by apply entry_bytes_ok | done].
Qed.

(** Opening a store that holds a cache gives its sequences back, or fails to read. *)
Lemma open_holds s c v : cache_ok c -> holds s c v ->
  match snd (open s) with
  | Ok (c', v') => generation v' = generation v /\ slot v' = slot v /\ forall d i, cached c' d i = cached c d i
  | Err (StorageError _) => True
  | Err _ => False
  end.
Proof.
  intros Hok (_ & Hfit & Hcur). unfold open. set (buf := replicate ROOT_SEQ_RECORD_LEN 0). set (out := replicate ROOT_SEQ_PAYLOAD_LEN 0).
  pose proof (current_opens_as _ _ _ _ _ _ _ Hcur Hfit buf buf out) as Ho.
  subst buf out. rewrite !length_replicate in Ho. specialize (Ho ltac:(done) ltac:(done) (record_len c Hok)).
  destruct (open_redundant _ _ _ _ _ _) as [s' [[v' payload]|[]]]; cbn [snd] in *; try done.
  destruct Ho as [-> Ht]. cbn [len] in *. rewrite Ht. destruct (root_seq_roundtrip c Hok) as (c' & Hd & _ & _ & Hc).
  rewrite encode_bytes in Hd by done. rewrite Hd. cbn. done.
Qed.

(** Persisting with the current handle either stores the new cache or leaves the
    old one; it never panics. *)
Lemma persist_spec s c c' v : cache_ok c -> cache_ok c' -> holds s c v ->
  exists s' r, persist c' s v = Some (s', r) /\
    match r with Ok v' => holds s' c' v' | Err _ => holds s' c v end.
Proof.
  intros Hok Hok' (Hst & Hfit & Hcur). unfold persist. destruct (encode c') as [payload n] eqn:E.
  assert (take n payload = record_bytes (flat c')) as -> by (rewrite <- encode_bytes by done; by rewrite E).
  pose proof (record_len c' Hok') as Hl. change ROOT_SEQ_PAYLOAD_LEN with 401%nat in Hl.
  assert (ROOT_SEQ_KEYS.1 <> ROOT_SEQ_KEYS.2) as Hne by done.
  assert (bytes_ok ROOT_SEQ_MAGIC) as Hm by (repeat (constructor; [by vm_compute |]); constructor).
  destruct (update_redundant_spec s ROOT_SEQ_KEYS ROOT_SEQ_MAGIC v (record_bytes (flat c')) (replicate ROOT_SEQ_RECORD_LEN 0))
    as (s' & r & Hu & Hr); [done | done | done | by apply record_ok | unfold u32_max; lia |
      rewrite length_replicate; change ROOT_SEQ_RECORD_LEN with 425%nat; lia | done |].
  exists s', r. split; [done |].
  pose proof (update_result_store ROOT_SEQ_MAGIC ROOT_SEQ_KEYS v (record_bytes (flat c')) _ ROOT_SEQ_RECORD_LEN _ _ _ ltac:(done) Hm
    (record_ok c' Hok') ltac:(change ROOT_SEQ_RECORD_LEN with 425%nat; lia) Hne Hr Hst Hfit) as (Hst' & Hfit' & _).
  destruct r as [v'|e].
  - destruct Hr as (_ & _ & _ & Hc'). done.
  - destruct Hr as [Hc' _]. unfold holds. by rewrite Hc'.
Qed.

(** A sequence that was accepted and persisted is refused ever after: a restart
    either fails to read its storage or refuses it again as a replay. *)
Lemma root_seq_survives_restart s c c1 v d i q s' v' : cache_ok c -> holds s c v ->
  entry_ok {| en_dodag := d; en_instance := i; en_seq := q |} ->
  accept c d i q = (Ok tt, c1) -> persist c1 s v = Some (s', Ok v') ->
  match snd (open s') with
  | Ok (c2, _) => cached c2 d i = Some q /\ forall q', q' <= q -> fst (accept c2 d i q') <> Ok tt
  | Err (StorageError _) => True
  | Err _ => False
  end.
Proof.
  intros Hok Hh He Ha Hp. pose proof (accept_spec c d i q Hok He) as Hs. rewrite Ha in Hs. destruct Hs as (_ & Hok1 & Hc1 & _).
  destruct (persist_spec s c c1 v Hok Hok1 Hh) as (s0 & r & Hp' & Hr). rewrite Hp in Hp'. simplify_eq.
  pose proof (open_holds s0 c1 v' Hok1 Hr) as Ho. destruct (snd (open s0)) as [[c2 v2]|[]]; try done. destruct Ho as (_ & _ & Hc2).
  specialize (Hc2 d i). rewrite Hc1 in Hc2. split; [done |]. intros q' Hq. unfold accept.
  assert (exists j e, list_find (fun s => slot_is d i s = true) (entries c2) = Some (j, Some e) /\ en_seq e = q) as (j & e & -> & <-).
  { unfold cached, flat in Hc2. clear -Hc2. induction (entries c2) as [|[e|] l IH]; [done | |].
    - change (omap id (Some e :: l)) with (e :: omap id l) in Hc2. cbn [list_find] in *. change (slot_is d i (Some e)) with (key_is d i e).
      destruct (key_is d i e) eqn:K.
      + rewrite decide_True in Hc2 by done. rewrite decide_True by done. exists 0%nat, e. cbn in Hc2. split; [done | congruence].
      + rewrite decide_False in Hc2 by done. rewrite decide_False by done.
        destruct (list_find _ (omap id l)) as [[k x]|]; cbn in *; [| done]. destruct (IH Hc2) as (j & y & -> & Hy). by exists (Datatypes.S j), y.
    - cbn [list_find]. rewrite decide_False by done. destruct (IH Hc2) as (j & y & -> & Hy). by exists (Datatypes.S j), y. }
  rewrite (proj2 (Z.leb_le _ _)) by done. done.
Qed.

End restart.
End RootSeq.

(** ** DAO timing

    A [Duration] is its length in nanoseconds. *)
Module DaoTiming.

Definition DURATION_MAX : Z := u64_max * 1000000000 + 999999999.
Definition from_secs (s : Z) : Z := s * 1000000000.
Definition from_millis (ms : Z) : Z := ms * 1000000.
Definition duration_checked_add (a b : Z) : option Z := if a + b <=? DURATION_MAX then Some (a + b) else None.
Definition duration_saturating_sub (a b : Z) : Z := Z.max 0 (a - b).

Definition DAO_INITIAL_DELAY_MIN_MS : Z := 0.
Definition DAO_INITIAL_DELAY_MAX_MS : Z := 2000.
Definition DAO_RETRY_DELAYS_MS : list Z := [4000; 8000; 16000].
Definition DAO_RETRY_LIMIT : Z := wrap8 (Z.of_nat (length DAO_RETRY_DELAYS_MS)).
Definition DAO_SOFT_STATE_LIFETIME_SECONDS : Z := 30 * 60.
Definition DAO_REFRESH_INTERVAL_SECONDS : Z := DAO_SOFT_STATE_LIFETIME_SECONDS / 2.
Definition DAO_REFRESH_INTERVAL : Z := from_secs DAO_REFRESH_INTERVAL_SECONDS.
Definition DAO_INITIAL_DELAY_OUTCOMES : Z := DAO_INITIAL_DELAY_MAX_MS - DAO_INITIAL_DELAY_MIN_MS + 1.
Definition U32_OUTCOMES : Z := u32_max + 1.
Definition ACCEPTANCE_LIMIT : Z := U32_OUTCOMES - U32_OUTCOMES mod DAO_INITIAL_DELAY_OUTCOMES.

Definition dao_initial_delay_ms (random_word : Z) : option Z :=
  if ACCEPTANCE_LIMIT <=? random_word then None
  else
    let offset := random_word mod DAO_INITIAL_DELAY_OUTCOMES in
    Some (DAO_INITIAL_DELAY_MIN_MS + wrap16 offset).

Definition dao_retry_delay_ms (attempt : Z) : option Z :=
  match attempt with
  | 0 => DAO_RETRY_DELAYS_MS !! 0%nat
  | 1 => DAO_RETRY_DELAYS_MS !! 1%nat
  | 2 => DAO_RETRY_DELAYS_MS !! 2%nat
  | _ => None
  end.
Definition dao_retry_delay (attempt : Z) : option Z := from_millis <$> dao_retry_delay_ms attempt.
Definition dao_retry_exhausted (attempts : Z) : bool := DAO_RETRY_LIMIT <=? attempts.

Inductive DaoRetryDeadlineOverflow := RetryOverflow.
Definition checked_dao_retry_deadline (now attempt : Z) : result DaoRetryDeadlineOverflow (option Z) :=
  match dao_retry_delay attempt with
  | None => Ok None
  | Some delay =>
      match duration_checked_add now delay with Some t => Ok (Some t) | None => Err RetryOverflow end
  end.

Inductive DaoRefreshDeadlineOverflow := RefreshOverflow.
Definition checked_dao_refresh_deadline (now : Z) : result DaoRefreshDeadlineOverflow Z :=
  match duration_checked_add now DAO_REFRESH_INTERVAL with Some t => Ok t | None => Err RefreshOverflow end.

Record DaoRefreshTimer := { deadline : option Z }.
Definition timer_new : DaoRefreshTimer := {| deadline := None |}.
Definition checked_start (now : Z) : result DaoRefreshDeadlineOverflow DaoRefreshTimer :=
  match checked_dao_refresh_deadline now with Ok d => Ok {| deadline := Some d |} | Err e => Err e end.
Definition is_scheduled (t : DaoRefreshTimer) : bool := bool_decide (is_Some (deadline t)).
Definition is_due (t : DaoRefreshTimer) (now : Z) : bool := match deadline t with Some d => d <=? now | None => false end.
Definition remaining (t : DaoRefreshTimer) (now : Z) : option Z := (fun d => duration_saturating_sub d now) <$> deadline t.
Definition checked_reschedule (t : DaoRefreshTimer) (now : Z) : result DaoRefreshDeadlineOverflow Z * DaoRefreshTimer :=
  match checked_dao_refresh_deadline now with
  | Err e => (Err e, t)
  | Ok d => (Ok d, {| deadline := Some d |})
  end.
Definition timer_reset (t : DaoRefreshTimer) : DaoRefreshTimer := {| deadline := None |}.

Record DaoRetryBackoff := { attempts : Z }.
Definition backoff_new : DaoRetryBackoff := {| attempts := 0 |}.
Definition is_exhausted (b : DaoRetryBackoff) : bool := dao_retry_exhausted (attempts b).
Definition next_delay (b : DaoRetryBackoff) : option Z := dao_retry_delay (attempts b).
Definition take_next_delay (b : DaoRetryBackoff) : option Z * DaoRetryBackoff :=
  match next_delay b with
  | None => (None, b)
  | Some delay => (Some delay, {| attempts := attempts b + 1 |})
  end.
Definition checked_schedule_next (b : DaoRetryBackoff) (now : Z) :
    result DaoRetryDeadlineOverflow (option Z) * DaoRetryBackoff :=
  match checked_dao_retry_deadline now (attempts b) with
  | Err e => (Err e, b)
  | Ok None => (Ok None, b)
  | Ok (Some d) => (Ok (Some d), {| attempts := attempts b + 1 |})
  end.
Definition backoff_reset (b : DaoRetryBackoff) : DaoRetryBackoff := {| attempts := 0 |}.

(** The initial delay is uniform: every delay of 0 to 2000 ms is given by exactly
    the words [2001 * q + delay] for [q] below 2146410, and the rest are redrawn. *)
Lemma initial_delay_uniform word delay : is_u32 word ->
  dao_initial_delay_ms word = Some delay <->
  0 <= delay <= 2000 /\ exists q, 0 <= q < 2146410 /\ word = 2001 * q + delay.
Proof.
  intros Hw. unfold is_u32 in Hw. unfold dao_initial_delay_ms. change ACCEPTANCE_LIMIT with (2001 * 2146410).
  change DAO_INITIAL_DELAY_OUTCOMES with 2001. unfold DAO_INITIAL_DELAY_MIN_MS, wrap16.
  pose proof (Z.mod_pos_bound word 2001 ltac:(done)). pose proof (Z.div_mod word 2001 ltac:(done)).
  rewrite (Z.mod_small (word mod 2001)) by (unfold u16_max in *; lia).
  destruct (_ <=? word) eqn:E; bool_to_prop.
  - split; [done |]. intros (? & q & ? & ->). lia.
  - split.
    + intros [= <-]. split; [lia |]. exists (word / 2001). lia.
    + intros (? & q & ? & ->). f_equal. rewrite Z.add_0_l, Z.mul_comm, Z.add_comm, Z.mod_add by done. apply Z.mod_small. lia.
Qed.

(** [n] consecutive retries scheduled at the given times. *)
Fixpoint schedule_all (b : DaoRetryBackoff) (nows : list Z) : list (result DaoRetryDeadlineOverflow (option Z)) * DaoRetryBackoff :=
  match nows with
  | [] => ([], b)
  | now :: nows =>
      let '(r, b) := checked_schedule_next b now in
      let '(rs, b) := schedule_all b nows in (r :: rs, b)
  end.

Definition granted (r : result DaoRetryDeadlineOverflow (option Z)) : bool := match r with Ok (Some _) => true | _ => false end.

(** A retry slot is consumed exactly when a deadline comes back, and a sequence
    never consumes more than three. *)
Lemma retry_budget nows : forall b, 0 <= attempts b <= DAO_RETRY_LIMIT ->
  let '(rs, b') := schedule_all b nows in
  attempts b' = attempts b + Z.of_nat (length (filter (fun r => granted r = true) rs)) /\
  attempts b' <= DAO_RETRY_LIMIT.
Proof.
  induction nows as [|now nows IH]; intros b Hb; cbn [schedule_all]; [cbn; lia |].
  destruct (checked_schedule_next b now) as [r b1] eqn:E.
  assert (0 <= attempts b1 <= DAO_RETRY_LIMIT /\
    attempts b1 = attempts b + if granted r then 1 else 0) as [Hb1 Hr].
  { unfold checked_schedule_next, checked_dao_retry_deadline in E. destruct (dao_retry_delay (attempts b)) eqn:Ed; [| simplify_eq; cbn; lia].
    assert (attempts b < 3) by (unfold dao_retry_delay, dao_retry_delay_ms in Ed; destruct (attempts b) as [|[[]|[]|]|]; done || lia).
    change DAO_RETRY_LIMIT with 3 in *. destruct (duration_checked_add now _); simplify_eq; cbn; lia. }
  specialize (IH b1 Hb1). destruct (schedule_all b1 nows) as [rs b2]. destruct IH as [IH1 IH2]. split; [| done].
  rewrite filter_cons. destruct (granted r); [rewrite decide_True by done | rewrite decide_False by done]; cbn [length]; lia.
Qed.

(** A timer armed when a DAO was sent fires no later than half of the lifetime of
    the route it installed, and not before. *)
Lemma refresh_before_expiry now t at_ : checked_start now = Ok t -> 0 <= now ->
  (is_due t at_ = true <-> now + from_secs DAO_SOFT_STATE_LIFETIME_SECONDS / 2 <= at_) /\
  (remaining t at_ = Some 0 <-> is_due t at_ = true).
Proof.
  unfold checked_start, checked_dao_refresh_deadline, duration_checked_add. destruct (_ <=? _) eqn:E; intros [= <-] Hn.
  unfold is_due, remaining, duration_saturating_sub. cbn [deadline fmap option_fmap option_map].
  change (from_secs DAO_SOFT_STATE_LIFETIME_SECONDS / 2) with DAO_REFRESH_INTERVAL. rewrite Z.leb_le. split; [done |].
  split; [intros [= H]; lia | intros H; f_equal; lia].
Qed.

End DaoTiming.
