(* ===== verification/Tdma.v ===== *)
(** * Superframes, beacons and loss of synchronization (lichen-core)

    superframe.rs, tdma_beacon.rs and desync.rs of lichen-core/src, and the
    hopping functions of lib.rs: how superframes and slots follow from a time,
    how a beacon and its slot map are written and what is accepted, which
    channel a node uses, and when a node considers itself synchronized.

    [overflow_checks] says whether the build traps an integer overflow (the
    outer [None]) or wraps. *)

From S2P Require Import Prelude Heapless.
Open Scope Z_scope.

(** ** Hashing and hopping (lib.rs) *)
Module Hop.

(** One round of FNV-1a. *)
Definition fnv_step (hash b : Z) : Z := wrap32 (Z.lxor hash b * 0x01000193).
Definition lichen_hash_32 (data : bytes) : Z := foldl fnv_step 0x811c9dc5 data.

Definition sfn_from_unix_time (unix_time_us superframe_duration_us epoch_base_us : Z) : Z :=
  if (superframe_duration_us =? 0) || (unix_time_us <? epoch_base_us) then 0
  else wrap32 ((unix_time_us - epoch_base_us) / superframe_duration_us).
Definition sfn_delta (curr last : Z) : Z := wrap32 (curr - last).

Definition to_le (n : nat) (x : Z) : bytes := reverse (to_be n x).

Definition synchronized_hop_channel (sfn seed n_channels : Z) : Z :=
  let data := to_le 4 seed ++ to_le 4 sfn in
  let h := lichen_hash_32 data in
  let data_channels := saturating_sub n_channels 1 in
  if data_channels =? 0 then 0 else 1 + wrap8 (h mod data_channels).

Record GnssHopConfig := {
  enabled : bool;
  seed : Z;
  superframe_duration_us : Z;
  epoch_base_us : Z
}.

Definition select_channel_with_gnss (unix_time_us : option Z) (config : GnssHopConfig) (peer_eui64 : option bytes)
    (announce_rx_channel : option Z) (epoch density n_channels : Z) : Z :=
  let hash_based :=
    match peer_eui64 with
    | Some eui =>
        let h := lichen_hash_32 (eui ++ to_le 4 epoch) in
        if n_channels <=? 1 then 0
        else let n := Z.max (n_channels - 1) 1 in 1 + wrap8 (h mod n)
    | None => 0
    end in
  let unannounced :=
    if 10 <? density then 0
    else
      match (if enabled config then unix_time_us else None) with
      | Some unix_us =>
          let sfn := sfn_from_unix_time unix_us (superframe_duration_us config) (epoch_base_us config) in
          synchronized_hop_channel sfn (seed config) n_channels
      | None => hash_based
      end in
  match announce_rx_channel with
  | Some channel => if channel <? n_channels then channel else unannounced
  | None => unannounced
  end.

Lemma lichen_hash_32_ok data : is_u32 (lichen_hash_32 data).
Proof.
  unfold lichen_hash_32. assert (is_u32 0x811c9dc5) as H by (unfold is_u32, u32_max; lia). revert H. generalize 0x811c9dc5.
  induction data as [|b data IH]; intros h Hh; [done |]. cbn. apply IH. unfold fnv_step, wrap32, is_u32, u32_max.
  pose proof (Z.mod_pos_bound (Z.lxor h b * 0x01000193) 4294967296 ltac:(done)). lia.
Qed.

(** [1 + h mod n] for a channel count that fits a byte. *)
Lemma hashed_channel h n : 1 <= n -> n + 1 <= u8_max -> 1 <= 1 + wrap8 (h mod n) <= n.
Proof. intros H1 H2. unfold u8_max in H2. pose proof (Z.mod_pos_bound h n ltac:(lia)). unfold wrap8. rewrite Z.mod_small by lia. lia. Qed.

(** The chosen channel exists; only an announcement or the lack of any other
    channel or method puts traffic on the reserved channel 0; and what is chosen
    by hopping is a function of the superframe number, whoever computes it. *)
Lemma selected_channel_exists t cfg eui ann epoch density n :
  is_u8 n -> (forall c, ann = Some c -> is_u8 c) -> 1 <= n ->
  0 <= select_channel_with_gnss t cfg eui ann epoch density n < n.
Proof.
  intros Hn Ha H1. unfold is_u8 in Hn. unfold select_channel_with_gnss.
  assert (forall s sd, 0 <= synchronized_hop_channel s sd n < n) as Hs.
  { intros s sd. unfold synchronized_hop_channel, saturating_sub. destruct (_ =? 0) eqn:E; bool_to_prop; [lia |].
    pose proof (hashed_channel (lichen_hash_32 (to_le 4 sd ++ to_le 4 s)) (Z.max 0 (n - 1)) ltac:(lia) ltac:(unfold u8_max in *; lia)). lia. }
  destruct ann as [c|]; [specialize (Ha c eq_refl); unfold is_u8 in Ha; destruct (c <? n) eqn:E; bool_to_prop; [lia |]|];
  (destruct (10 <? density); [lia |]); (destruct (if enabled cfg then t else None); [apply Hs |]);
  (destruct eui as [e|]; [| lia]); (destruct (n <=? 1) eqn:E1; bool_to_prop; [lia |]);
  pose proof (hashed_channel (lichen_hash_32 (e ++ to_le 4 epoch)) (Z.max (n - 1) 1) ltac:(lia) ltac:(unfold u8_max in *; lia)); lia.
Qed.

(** Two nodes with the same seed and times in the same superframe meet on the
    same channel. *)
Lemma hopping_rendezvous t1 t2 cfg n density :
  enabled cfg = true -> 0 < superframe_duration_us cfg -> epoch_base_us cfg <= t1 -> epoch_base_us cfg <= t2 ->
  (t1 - epoch_base_us cfg) / superframe_duration_us cfg = (t2 - epoch_base_us cfg) / superframe_duration_us cfg ->
  forall eui1 eui2 epoch1 epoch2,
  select_channel_with_gnss (Some t1) cfg eui1 None epoch1 density n =
  select_channel_with_gnss (Some t2) cfg eui2 None epoch2 density n.
Proof.
  intros He Hd H1 H2 Heq eui1 eui2 epoch1 epoch2. unfold select_channel_with_gnss. rewrite He.
  destruct (10 <? density); [done |]. cbn beta iota. unfold sfn_from_unix_time.
  rewrite (proj2 (Z.eqb_neq _ _)) by lia. cbn [orb]. rewrite !(proj2 (Z.ltb_ge _ _)) by lia. by rewrite Heq.
Qed.

(** The difference of two superframe numbers survives the wrap of the counter. *)
Lemma sfn_delta_exact last n : 0 <= n <= u32_max -> sfn_delta (wrap32 (last + n)) last = n.
Proof.
  intros Hn. unfold sfn_delta, wrap32, u32_max in *. rewrite Zminus_mod_idemp_l. replace (last + n - last) with n by lia.
  apply Z.mod_small. lia.
Qed.

End Hop.

(** ** Superframes (superframe.rs) *)
Module Superframe.

Definition DEFAULT_SUPERFRAME_DURATION_S : Z := 60.
Definition DEFAULT_SLOTS_PER_SUPERFRAME : Z := 60.
Inductive TimeSource := Gps | BackboneElect | Unsynchronized.
Record SuperframeConfig := { duration_s : Z; slots_per_superframe : Z }.
Definition config_default : SuperframeConfig :=
  {| duration_s := DEFAULT_SUPERFRAME_DURATION_S; slots_per_superframe := DEFAULT_SLOTS_PER_SUPERFRAME |}.

(** An unsigned product of the width given by [max]. *)
Definition mul (overflow_checks : bool) (max x y : Z) : option Z :=
  if x * y <=? max then Some (x * y) else if overflow_checks then None else Some ((x * y) mod (max + 1)).

Definition slot_duration_ms (overflow_checks : bool) (c : SuperframeConfig) : option Z :=
  if slots_per_superframe c =? 0 then Some 0
  else ms ← mul overflow_checks u32_max (duration_s c) 1000; Some (ms / slots_per_superframe c).

Definition superframe_id (unix_timestamp superframe_duration_s : Z) : Z :=
  if superframe_duration_s =? 0 then 0 else unix_timestamp / superframe_duration_s.
Definition superframe_start (overflow_checks : bool) (id superframe_duration_s : Z) : option Z :=
  mul overflow_checks u64_max id superframe_duration_s.

Definition current_slot (unix_timestamp start superframe_duration_s slots : Z) : Z :=
  if (slots =? 0) || (superframe_duration_s =? 0) then 0
  else if unix_timestamp <? start then 0
  else
    let elapsed := unix_timestamp - start in
    let slot_duration := superframe_duration_s / slots in
    if slot_duration =? 0 then 0
    else
      let slot := elapsed / slot_duration in
      if slots <=? slot then saturating_sub slots 1 else wrap8 slot.

Definition slots_remaining (slot slots : Z) : Z := if slots <=? slot then 0 else slots - slot.

Definition iid_to_u64 (iid : bytes) : Z := from_be iid.
Definition compare_iid_for_election (iid_a iid_b : bytes) : comparison := (from_be iid_a ?= from_be iid_b).

Record TimeMasterCandidate := { iid : bytes; has_gps : bool }.
Definition elect_time_master (candidates : list TimeMasterCandidate) : option TimeMasterCandidate :=
  match candidates with
  | [] => None
  | first :: rest =>
      Some (fst (foldl (fun '(winner, winner_val) candidate =>
        let candidate_val := iid_to_u64 (iid candidate) in
        if candidate_val <? winner_val then (candidate, candidate_val) else (winner, winner_val))
        (first, iid_to_u64 (iid first)) rest))
  end.

Record SuperframeSync := {
  time_source : TimeSource;
  config : SuperframeConfig;
  sf_id : option Z;
  local_iid : bytes;
  time_master_iid : option bytes
}.
Definition sync_new (local : bytes) : SuperframeSync :=
  {| time_source := Unsynchronized; config := config_default; sf_id := None; local_iid := local; time_master_iid := None |}.
Definition sync_from_gps (s : SuperframeSync) (unix_timestamp : Z) : SuperframeSync :=
  {| time_source := Gps; config := config s; sf_id := Some (superframe_id unix_timestamp (duration_s (config s)));
     local_iid := local_iid s; time_master_iid := None |}.
Definition sync_from_backbone (s : SuperframeSync) (master_iid : bytes) (id : Z) : SuperframeSync :=
  {| time_source := BackboneElect; config := config s; sf_id := Some id; local_iid := local_iid s; time_master_iid := Some master_iid |}.
Definition should_be_master (s : SuperframeSync) (peer_iid : bytes) : bool :=
  match compare_iid_for_election (local_iid s) peer_iid with Lt => true | _ => false end.
(** The outer option is the panic, the inner one the result. *)
Definition sync_current_slot (overflow_checks : bool) (s : SuperframeSync) (unix_timestamp : Z) : option (option Z) :=
  match sf_id s with
  | None => Some None
  | Some id =>
      start ← superframe_start overflow_checks id (duration_s (config s));
      Some (Some (current_slot unix_timestamp start (duration_s (config s)) (slots_per_superframe (config s))))
  end.
Definition is_synchronized (s : SuperframeSync) : bool := bool_decide (is_Some (sf_id s)).

(** *** Slots *)

Lemma current_slot_range t start d n : is_u8 n -> 1 <= n -> 0 <= d -> 0 <= current_slot t start d n < n.
Proof.
  intros Hn H1 Hd. unfold current_slot, is_u8, u8_max in *. destruct (_ || _) eqn:E0; [lia |]. apply orb_false_iff in E0 as [_ E0]. bool_to_prop.
  destruct (t <? start) eqn:E1; bool_to_prop; [lia |]. destruct (_ =? 0) eqn:E2; bool_to_prop; [lia |].
  destruct (n <=? _) eqn:E3; bool_to_prop; [unfold saturating_sub; lia |].
  pose proof (Z.div_pos d n ltac:(lia) ltac:(lia)). pose proof (Z.div_pos (t - start) (d / n) ltac:(lia) ltac:(lia)).
  unfold wrap8. rewrite Z.mod_small by lia. lia.
Qed.

(** When a slot is a whole number [q] of seconds, slot [k] is exactly the [k]-th
    stretch of [q] seconds, and a superframe has as many as it should. *)
Lemma current_slot_exact t start q n k : 1 <= q -> is_u8 n -> 1 <= n -> start <= t < start + q * n ->
  current_slot t start (q * n) n = k <-> start + k * q <= t < start + (k + 1) * q.
Proof.
  intros Hq Hn H1 Ht. unfold current_slot, is_u8, u8_max in *.
  rewrite (proj2 (Z.eqb_neq n 0)), (proj2 (Z.eqb_neq (q * n) 0)) by nia. cbn [orb]. rewrite (proj2 (Z.ltb_ge t start)) by lia.
  rewrite Z.div_mul by lia. rewrite (proj2 (Z.eqb_neq q 0)) by lia.
  pose proof (Z.div_mod (t - start) q ltac:(lia)) as Hdm. pose proof (Z.mod_pos_bound (t - start) q ltac:(lia)).
  assert ((t - start) / q < n) by (apply Z.div_lt_upper_bound; nia). pose proof (Z.div_pos (t - start) q ltac:(lia) ltac:(lia)).
  rewrite (proj2 (Z.leb_gt n _)) by lia. unfold wrap8. rewrite Z.mod_small by lia. split; [intros <-; nia |].
  intros Hk. nia.
Qed.

(** With more slots than seconds the slot length is rounded down to zero, and
    every moment is in slot 0. *)
Lemma short_slots_collapse t start d n : 0 <= d < n -> current_slot t start d n = 0.
Proof.
  intros H. unfold current_slot. destruct (_ || _); [done |]. destruct (_ <? _); [done |]. rewrite Z.div_small by lia. done.
Qed.
Example short_slots_have_a_length : slot_duration_ms true {| duration_s := 60; slots_per_superframe := 120 |} = Some 500.
Proof. done. Qed.

(** A gateway on GPS time is never late or early: its superframe has begun and
    has not ended, and the slot it computes is the one it is in. *)
Lemma gps_sync_slot oc s t : 0 <= t <= u64_max -> 1 <= duration_s (config s) ->
  exists start, superframe_start oc (superframe_id t (duration_s (config s))) (duration_s (config s)) = Some start /\
    start <= t < start + duration_s (config s) /\
    sync_current_slot oc (sync_from_gps s t) t =
      Some (Some (current_slot t start (duration_s (config s)) (slots_per_superframe (config s)))).
Proof.
  intros Ht Hd. set (d := duration_s (config s)) in *. unfold sync_current_slot. cbn [sync_from_gps sf_id config]. fold d.
  unfold superframe_id, superframe_start. rewrite (proj2 (Z.eqb_neq d 0)) by lia.
  pose proof (Z.div_mod t d ltac:(lia)). pose proof (Z.mod_pos_bound t d ltac:(lia)).
  unfold mul. rewrite (proj2 (Z.leb_le _ _)) by nia. exists (t / d * d). cbn. split_and!; [done | nia | nia | done].
Qed.

(** *** Election *)

(** The elected master has the least identifier; with distinct identifiers all
    gateways that know the same candidates elect the same one. *)
Lemma elected_least l m : elect_time_master l = Some m ->
  m ∈ l /\ forall c, c ∈ l -> iid_to_u64 (iid m) <= iid_to_u64 (iid c).
Proof.
  destruct l as [|x l]; [done |]. cbn [elect_time_master]. intros [= <-].
  assert (forall l x, let m := foldl (fun '(winner, winner_val) candidate =>
    let candidate_val := iid_to_u64 (iid candidate) in
    if candidate_val <? winner_val then (candidate, candidate_val) else (winner, winner_val)) (x, iid_to_u64 (iid x)) l in
    fst m ∈ x :: l /\ forall c, c ∈ x :: l -> iid_to_u64 (iid (fst m)) <= iid_to_u64 (iid c)) as H; [| apply H].
  clear. induction l as [|y l IH]; intros x.
  - cbn. split; [by left |]. by intros c ->%list_elem_of_singleton.
  - cbn [foldl]. destruct (_ <? _) eqn:E; bool_to_prop.
    + destruct (IH y) as [H1 H2]. split; [by right |]. intros c [-> |Hc]%elem_of_cons; [| by apply H2].
      etrans; [apply H2; by left | lia].
    + destruct (IH x) as [H1 H2]. split; [apply elem_of_cons in H1 as [H1|H1]; apply elem_of_cons; [left; exact H1 | right; by right] |].
      intros c [-> |[-> |Hc]%elem_of_cons]%elem_of_cons; [apply H2; by left | etrans; [apply H2; by left | lia] | apply H2; by right].
Qed.

Lemma election_agrees l1 l2 m1 m2 :
  (forall c, c ∈ l1 -> length (iid c) = 8%nat /\ bytes_ok (iid c)) -> l1 ≡ₚ l2 ->
  elect_time_master l1 = Some m1 -> elect_time_master l2 = Some m2 -> iid m1 = iid m2.
Proof.
  intros Hok Hp H1 H2. apply elected_least in H1 as [I1 L1], H2 as [I2 L2]. rewrite <- Hp in I2.
  assert (iid_to_u64 (iid m1) = iid_to_u64 (iid m2)) as E by (apply Z.le_antisymm; [by apply L1 | apply L2; by rewrite <- Hp]).
  destruct (Hok _ I1) as [A1 B1], (Hok _ I2) as [A2 B2]. unfold iid_to_u64 in E.
  rewrite <- (to_be_from_be (iid m1)), <- (to_be_from_be (iid m2)) by done. by rewrite E, A1, A2.
Qed.

(** A gateway that should be master against each of its peers is the one elected. *)
Lemma master_wins s g peers : local_iid s = iid g -> (forall p, p ∈ peers -> should_be_master s (iid p) = true) ->
  forall l, l ≡ₚ g :: peers -> elect_time_master l = Some g.
Proof.
  intros Hl Hm l Hp. destruct (elect_time_master l) as [m|] eqn:E.
  - apply elected_least in E as [I L]. rewrite Hp in I. apply elem_of_cons in I as [-> |I]; [done |].
    specialize (L g ltac:(rewrite Hp; by left)). specialize (Hm m I). unfold should_be_master, compare_iid_for_election in Hm. rewrite Hl in Hm.
    unfold iid_to_u64 in L. destruct (Z.compare_spec (from_be (iid g)) (from_be (iid m))) as [C|C|C]; done || lia.
  - destruct l as [|x l]; [| done]. by apply Permutation_nil in Hp.
Qed.

End Superframe.

(** ** Beacons (tdma_beacon.rs) *)
Module Beacon.
Import Hop.

Definition HEADER_SIZE : nat := 24.
Definition SIG_SIZE : nat := 48.
Definition MIN_BEACON_SIZE : nat := HEADER_SIZE + SIG_SIZE.

Definition slot_for (eui64 : bytes) (sfn num_slots : Z) : option Z :=
  if num_slots =? 0 then None
  else let hash := lichen_hash_32 eui64 in Some (wrap8 (wrap32 (hash + sfn) mod num_slots)).

Record TdmaBeaconHeader := {
  epoch : Z;
  num_slots : Z;
  sfn : Z;
  timestamp : Z;
  flags : Z;
  rx_chains : Z;
  setup_window : Z;
  occupied_time : Z;
  guard : Z;
  channel_mask : Z
}.

Definition SCHEDULED : Z := 0x01.
Definition CSMA : Z := 0x02.
Definition CH0_RX : Z := 0x04.
Definition GNSS_PPS : Z := 0x08.
Definition RESERVED_MASK : Z := 0xF0.

Inductive ParseError := TooShort | ReservedFlagSet | NumSlotsZero.

Definition parse (data : bytes) : result ParseError TdmaBeaconHeader :=
  if (length data <? HEADER_SIZE)%nat then Err TooShort
  else
    let flags := nth 13 data 0 in
    if negb (Z.land flags RESERVED_MASK =? 0) then Err ReservedFlagSet
    else if nth 4 data 0 =? 0 then Err NumSlotsZero
    else Ok {|
      epoch := from_be (slice 0 4 data);
      num_slots := nth 4 data 0;
      sfn := from_be (slice 5 9 data);
      timestamp := from_be (slice 9 13 data);
      flags := flags;
      rx_chains := nth 14 data 0;
      setup_window := from_be (slice 15 17 data);
      occupied_time := from_be (slice 17 19 data);
      guard := nth 19 data 0;
      channel_mask := from_be (slice 20 24 data)
    |}.

Definition serialize (h : TdmaBeaconHeader) (out : bytes) : result ParseError unit * bytes :=
  if (length out <? HEADER_SIZE)%nat then (Err TooShort, out)
  else if negb (Z.land (flags h) RESERVED_MASK =? 0) then (Err ReservedFlagSet, out)
  else if num_slots h =? 0 then (Err NumSlotsZero, out)
  else
    let out := list_inserts 0 (to_be 4 (epoch h)) out in
    let out := list_inserts 4 [num_slots h] out in
    let out := list_inserts 5 (to_be 4 (sfn h)) out in
    let out := list_inserts 9 (to_be 4 (timestamp h)) out in
    let out := list_inserts 13 [flags h] out in
    let out := list_inserts 14 [rx_chains h] out in
    let out := list_inserts 15 (to_be 2 (setup_window h)) out in
    let out := list_inserts 17 (to_be 2 (occupied_time h)) out in
    let out := list_inserts 19 [guard h] out in
    let out := list_inserts 20 (to_be 4 (channel_mask h)) out in
    (Ok tt, out).

Definition is_scheduled (h : TdmaBeaconHeader) : bool := negb (Z.land (flags h) SCHEDULED =? 0).
Definition is_csma (h : TdmaBeaconHeader) : bool := negb (Z.land (flags h) CSMA =? 0).
Definition has_gnss_pps (h : TdmaBeaconHeader) : bool := negb (Z.land (flags h) GNSS_PPS =? 0).
Definition is_ch0_rx (h : TdmaBeaconHeader) : bool := negb (Z.land (flags h) CH0_RX =? 0).

Definition signature_bytes (beacon : bytes) : option bytes :=
  if (length beacon <? MIN_BEACON_SIZE)%nat then None else Some (drop (length beacon - SIG_SIZE) beacon).
Definition signed_data (beacon : bytes) : option bytes :=
  if (length beacon <? MIN_BEACON_SIZE)%nat then None else Some (take (length beacon - SIG_SIZE) beacon).
Definition cbor_options (beacon : bytes) : option bytes :=
  if (length beacon <=? MIN_BEACON_SIZE)%nat then None else Some (slice HEADER_SIZE (length beacon - SIG_SIZE) beacon).

Definition intersect_channel_mask (permitted advertised : Z) : Z := Z.land permitted advertised.

Definition MAX_SLOT_MAP_ENTRIES : nat := 64.
Inductive SlotMapError := Truncated | NotAnArray | TooManySlots | InvalidSlotEncoding | TrailingBytes
  | SlotOutOfBounds (slot num_slots : Z) | NotSorted.

Section slot_map.
Context `{Heapless}.

(** The rest of the buffer stands for the position in it. *)
Fixpoint slots_loop (len : nat) (num_slots : Z) (prev : option Z) (slots : vec MAX_SLOT_MAP_ENTRIES Z) (rest : bytes) :
    result SlotMapError (vec MAX_SLOT_MAP_ENTRIES Z) :=
  match len with
  | O => match rest with [] => Ok slots | _ => Err TrailingBytes end
  | S len =>
      let accept slot rest :=
        if num_slots <=? slot then Err (SlotOutOfBounds slot num_slots)
        else if match prev with Some p => slot <=? p | None => false end then Err NotSorted
        else
          match vec_push slot slots with
          | None => Err TooManySlots
          | Some slots => slots_loop len num_slots (Some slot) slots rest
          end in
      match rest with
      | [] => Err Truncated
      | byte :: rest =>
          if byte <=? 0x17 then accept byte rest
          else if byte =? 0x18 then
            match rest with
            | [] => Err Truncated
            | v :: rest => accept v rest
            end
          else Err InvalidSlotEncoding
      end
  end.
Definition parse_slot_map (cbor : bytes) (num_slots : Z) : result SlotMapError (vec MAX_SLOT_MAP_ENTRIES Z) :=
  match cbor with
  | [] => Ok vec_new
  | first :: rest =>
      let body len rest :=
        if (MAX_SLOT_MAP_ENTRIES <? Z.to_nat len)%nat then Err TooManySlots
        else slots_loop (Z.to_nat len) num_slots None vec_new rest in
      if (0x80 <=? first) && (first <=? 0x97) then body (first - 0x80) rest
      else if first =? 0x98 then
        match rest with
        | [] => Err Truncated
        | len :: rest => body len rest
        end
      else Err NotAnArray
  end.

End slot_map.

(** A caller's buffer is returned as the failed or finished write leaves it. *)
Fixpoint write_slots (slots : list Z) (pos : nat) (out : bytes) : option nat * bytes :=
  match slots with
  | [] => (Some pos, out)
  | v :: slots =>
      let need := if v <=? 0x17 then 1%nat else 2%nat in
      if (length out - pos <? need)%nat then (None, out)
      else if v <=? 0x17 then write_slots slots (pos + 1) (list_inserts pos [v] out)
      else write_slots slots (pos + 2) (list_inserts (pos + 1) [v] (list_inserts pos [0x18] out))
  end.
Definition write_slot_map (slots : list Z) (out : bytes) : option nat * bytes :=
  if (MAX_SLOT_MAP_ENTRIES <? length slots)%nat then (None, out)
  else if (length slots <=? 23)%nat then
    if (length out <=? 0)%nat then (None, out)
    else write_slots slots 1 (list_inserts 0 [0x80 + wrap8 (Z.of_nat (length slots))] out)
  else
    if (length out <? 2)%nat then (None, out)
    else write_slots slots 2 (list_inserts 1 [wrap8 (Z.of_nat (length slots))] (list_inserts 0 [0x98] out)).

Definition verify_gate (beacon : bytes) (verify_fn : bytes -> bytes -> bool) : bool :=
  match signed_data beacon with
  | None => false
  | Some signed => match signature_bytes beacon with None => false | Some sig => verify_fn signed sig end
  end.

Inductive AcceptError := Parse (e : ParseError) | BadSignature | NoCommonChannel.
Record AcceptedBeacon := { header : TdmaBeaconHeader; usable_channels : Z }.
Definition accept_beacon (beacon : bytes) (verify_fn : bytes -> bytes -> bool) (permitted_mask : Z) :
    result AcceptError AcceptedBeacon :=
  if (length beacon <? MIN_BEACON_SIZE)%nat then Err (Parse TooShort)
  else
    match parse beacon with
    | Err e => Err (Parse e)
    | Ok h =>
        if negb (verify_gate beacon verify_fn) then Err BadSignature
        else
          let usable := intersect_channel_mask permitted_mask (channel_mask h) in
          if usable =? 0 then Err NoCommonChannel else Ok {| header := h; usable_channels := usable |}
    end.

(** *** The header *)

Record header_ok (h : TdmaBeaconHeader) : Prop := {
  ho_epoch : is_u32 (epoch h);
  ho_slots : 1 <= num_slots h <= u8_max;
  ho_sfn : is_u32 (sfn h);
  ho_timestamp : is_u32 (timestamp h);
  ho_flags : is_u8 (flags h);
  ho_reserved : Z.land (flags h) RESERVED_MASK = 0;
  ho_chains : is_u8 (rx_chains h);
  ho_setup : is_u16 (setup_window h);
  ho_occupied : is_u16 (occupied_time h);
  ho_guard : is_u8 (guard h);
  ho_mask : is_u32 (channel_mask h)
}.

Definition header_bytes (h : TdmaBeaconHeader) : bytes :=
  to_be 4 (epoch h) ++ [num_slots h] ++ to_be 4 (sfn h) ++ to_be 4 (timestamp h) ++ [flags h; rx_chains h] ++
  to_be 2 (setup_window h) ++ to_be 2 (occupied_time h) ++ [guard h] ++ to_be 4 (channel_mask h).

Lemma length_header_bytes h : length (header_bytes h) = 24%nat.
Proof. unfold header_bytes. by rewrite !length_app, !length_to_be. Qed.

Lemma serialize_spec h out : header_ok h -> (24 <= length out)%nat -> serialize h out = (Ok tt, header_bytes h ++ drop 24 out).
Proof.
  intros [] Hl. unfold serialize. rewrite (proj2 (Nat.ltb_ge _ _)) by (unfold HEADER_SIZE; lia).
  rewrite (proj2 (Z.eqb_eq (Z.land _ _) 0)) by done. cbn [negb]. rewrite (proj2 (Z.eqb_neq (num_slots h) 0)) by lia.
  rewrite !(inserts_adjacent 0) by (rewrite ?length_app, ?length_to_be; done).
  rewrite <- !app_assoc. change (to_be 4 (epoch h) ++ _) with (header_bytes h).
  rewrite inserts_front by (rewrite length_header_bytes; lia). by rewrite length_header_bytes.
Qed.

Lemma parse_header_bytes h rest : header_ok h -> parse (header_bytes h ++ rest) = Ok h.
Proof.
  intros Hok. unfold parse. rewrite length_app, length_header_bytes. rewrite (proj2 (Nat.ltb_ge _ _)) by (unfold HEADER_SIZE; lia).
  destruct Hok.
  assert (header_bytes h ++ rest = to_be 4 (epoch h) ++ [num_slots h] ++ to_be 4 (sfn h) ++ to_be 4 (timestamp h) ++ [flags h; rx_chains h] ++
    to_be 2 (setup_window h) ++ to_be 2 (occupied_time h) ++ [guard h] ++ to_be 4 (channel_mask h) ++ rest) as ->
    by (unfold header_bytes; by rewrite <- !app_assoc).
  set (e := to_be 4 (epoch h)). set (s := to_be 4 (sfn h)). set (t := to_be 4 (timestamp h)). set (w := to_be 2 (setup_window h)).
  set (o := to_be 2 (occupied_time h)). set (m := to_be 4 (channel_mask h)).
  assert (length e = 4 /\ length s = 4 /\ length t = 4 /\ length w = 2 /\ length o = 2 /\ length m = 4)%nat as (Le & Ls & Lt & Lw & Lo & Lm)
    by (subst e s t w o m; by rewrite !length_to_be).
  assert (from_be e = epoch h /\ from_be s = sfn h /\ from_be t = timestamp h /\ from_be w = setup_window h /\ from_be o = occupied_time h /\
    from_be m = channel_mask h) as (Fe & Fs & Ft & Fw & Fo & Fm) by (subst e s t w o m; split_and!; auto using from_be_to_be_u32, from_be_to_be_u16).
  clearbody e s t w o m.
  destruct e as [|? [|? [|? [|? []]]]]; try done. destruct s as [|? [|? [|? [|? []]]]]; try done. destruct t as [|? [|? [|? [|? []]]]]; try done.
  destruct w as [|? [|? []]]; try done. destruct o as [|? [|? []]]; try done. destruct m as [|? [|? [|? [|? []]]]]; try done.
  cbn [app nth]. rewrite (proj2 (Z.eqb_eq (Z.land _ _) 0)) by done. cbn [negb]. rewrite (proj2 (Z.eqb_neq (num_slots h) 0)) by lia.
  unfold slice. cbn [drop take Nat.sub]. rewrite take_0, Fe, Fs, Ft, Fw, Fo, Fm. by destruct h.
Qed.

(** *** The slot map *)

Definition slot_bytes (v : Z) : bytes := if v <=? 0x17 then [v] else [0x18; v].
Definition slot_map_head (n : nat) : bytes := if (n <=? 23)%nat then [0x80 + Z.of_nat n] else [0x98; Z.of_nat n].
Definition slot_map_bytes (slots : list Z) : bytes := slot_map_head (length slots) ++ concat (slot_bytes <$> slots).

Lemma concat_slot_cons v l : concat (slot_bytes <$> v :: l) = slot_bytes v ++ concat (slot_bytes <$> l).
Proof. done. Qed.

Lemma inserts_after {A} (pre k out : list A) : (length k <= length out)%nat ->
  list_inserts (length pre) k (pre ++ out) = pre ++ k ++ drop (length k) out.
Proof.
  intros Hk. rewrite <- (Nat.add_0_r (length pre)) at 1. by rewrite list_inserts_app_r, inserts_front.
Qed.

(** The entries are written one after the other as long as there is room. *)
Lemma write_slots_spec (slots : list Z) : forall pre out,
  write_slots slots (length pre) (pre ++ out) =
    let b := concat (slot_bytes <$> slots) in
    if (length b <=? length out)%nat then (Some (length pre + length b)%nat, pre ++ b ++ drop (length b) out)
    else (None, snd (write_slots slots (length pre) (pre ++ out))).
Proof.
  induction slots as [|v slots IH]; intros pre out; cbn zeta; [cbn; by rewrite Nat.add_0_r |].
  rewrite concat_slot_cons. set (b := concat (slot_bytes <$> slots)) in *. rewrite length_app.
  assert (length (slot_bytes v) = if v <=? 0x17 then 1%nat else 2%nat) as Hb by (unfold slot_bytes; by destruct (v <=? 0x17)).
  cbn [write_slots]. rewrite length_app. replace (length pre + length out - length pre)%nat with (length out) by lia. rewrite <- Hb.
  destruct (_ <? _)%nat eqn:Er; bool_to_prop; [by rewrite (proj2 (Nat.leb_gt _ _)) by lia |].
  assert ((if v <=? 0x17 then write_slots slots (length pre + 1) (list_inserts (length pre) [v] (pre ++ out))
    else write_slots slots (length pre + 2) (list_inserts (length pre + 1) [v] (list_inserts (length pre) [0x18] (pre ++ out)))) =
    write_slots slots (length (pre ++ slot_bytes v)) ((pre ++ slot_bytes v) ++ drop (length (slot_bytes v)) out)) as ->.
  { rewrite length_app, Hb. unfold slot_bytes in *. destruct (v <=? 0x17); cbn [length] in *.
    - rewrite inserts_after by (cbn; lia). by rewrite <- app_assoc.
    - rewrite inserts_adjacent by done. cbn [app]. rewrite inserts_after by (cbn; lia). by rewrite <- app_assoc. }
  rewrite IH. cbn zeta. rewrite length_drop. destruct (length b <=? _)%nat eqn:E2; bool_to_prop.
  - rewrite (proj2 (Nat.leb_le _ _)) by lia. rewrite length_app, <- !app_assoc, drop_drop. f_equal; f_equal; lia.
  - rewrite (proj2 (Nat.leb_gt _ _)) by lia. by rewrite IH.
Qed.

(** A map of at most 64 entries is written if and only if its encoding fits. *)
Lemma write_slot_map_spec slots out : (length slots <= 64)%nat ->
  fst (write_slot_map slots out) = (if (length (slot_map_bytes slots) <=? length out)%nat then Some (length (slot_map_bytes slots)) else None) /\
  ((length (slot_map_bytes slots) <= length out)%nat ->
   snd (write_slot_map slots out) = slot_map_bytes slots ++ drop (length (slot_map_bytes slots)) out).
Proof.
  intros Hl. unfold write_slot_map. rewrite (proj2 (Nat.ltb_ge _ _)) by (unfold MAX_SLOT_MAP_ENTRIES; lia).
  unfold wrap8. rewrite Z.mod_small by lia. unfold slot_map_bytes, slot_map_head. rewrite length_app.
  set (b := concat (slot_bytes <$> slots)). destruct (length slots <=? 23)%nat eqn:E; bool_to_prop; cbn [length].
  - destruct (length out <=? 0)%nat eqn:E0; bool_to_prop.
    + rewrite (proj2 (Nat.leb_gt _ _)) by lia. split; [done | lia].
    + rewrite (inserts_front [_]) by (cbn; lia). cbn [length].
      rewrite (write_slots_spec slots [_]). cbn zeta. fold b. rewrite length_drop.
      destruct (length b <=? _)%nat eqn:E2; bool_to_prop.
      * rewrite (proj2 (Nat.leb_le _ _)) by lia. cbn [fst snd]. split; [done |]. intros _. cbn [app]. by rewrite drop_drop.
      * rewrite (proj2 (Nat.leb_gt _ _)) by lia. split; [done | lia].
  - destruct (length out <? 2)%nat eqn:E0; bool_to_prop.
    + rewrite (proj2 (Nat.leb_gt _ _)) by lia. split; [done | lia].
    + rewrite inserts_adjacent by done. cbn [app]. rewrite (inserts_front [_; _]) by (cbn; lia). cbn [length].
      rewrite (write_slots_spec slots [_; _]). cbn zeta. fold b. rewrite length_drop.
      destruct (length b <=? _)%nat eqn:E2; bool_to_prop.
      * rewrite (proj2 (Nat.leb_le _ _)) by lia. cbn [fst snd]. split; [done |]. intros _. cbn [app]. by rewrite drop_drop.
      * rewrite (proj2 (Nat.leb_gt _ _)) by lia. split; [done | lia].
Qed.

(** Strictly ascending, above [prev], below [n]. *)
Fixpoint ascending (prev : Z) (n : Z) (l : list Z) : Prop :=
  match l with [] => True | v :: l => prev < v < n /\ ascending v n l end.
Definition slots_ok (n : Z) (l : list Z) : Prop := ascending (-1) n l /\ (length l <= 64)%nat.

Section parsed.
Context `{Heapless} `{!HeaplessLaws}.

Lemma slots_loop_encoded l : forall n prev (acc : vec MAX_SLOT_MAP_ENTRIES Z), ascending (default (-1) prev) n l -> -1 <= default (-1) prev -> n <= u8_max ->
  (length (vec_items acc) + length l <= 64)%nat ->
  exists v, slots_loop (length l) n prev acc (concat (slot_bytes <$> l)) = Ok v /\ vec_items v = vec_items acc ++ l.
Proof.
  induction l as [|v l IH]; intros n prev acc Ha Hp Hn Hl; [exists acc; by rewrite app_nil_r |]. destruct Ha as [Hv Ha]. cbn [length] in Hl.
  rewrite concat_slot_cons. cbn [length slots_loop]. unfold slot_bytes at 1.
  assert ((n <=? v) = false) as E1 by lia.
  assert (match prev with Some p => v <=? p | None => false end = false) as E2 by (destruct prev; cbn in *; [lia | done]).
  assert (forall k m, k + S m <= 64 -> k < MAX_SLOT_MAP_ENTRIES)%nat as Hroom by (unfold MAX_SLOT_MAP_ENTRIES; lia).
  pose proof (vec_push_spec v acc) as Hpush. rewrite (proj2 (Nat.ltb_lt _ _)) in Hpush by (by eapply Hroom).
  destruct Hpush as (acc' & E3 & Hacc').
  destruct (IH n (Some v) acc') as (w & Hw & Hiw); [done | cbn; lia | done | rewrite Hacc', length_app; cbn; lia |].
  exists w. rewrite Hacc' in Hiw. rewrite Hiw, <- app_assoc. split; [| done].
  destruct (v <=? 0x17) eqn:E; cbn [app]; [rewrite E | cbn [Z.leb Z.compare Z.eqb Pos.eqb Pos.compare Pos.compare_cont]]; rewrite E1, E2, E3; exact Hw.
Qed.

(** Whatever the parser returns is strictly ascending, in range and bounded. *)
Lemma slots_loop_sound len : forall n prev (acc : vec MAX_SLOT_MAP_ENTRIES Z) rest v, bytes_ok rest -> slots_loop len n prev acc rest = Ok v ->
  exists k, vec_items v = vec_items acc ++ k /\ ascending (default (-1) prev) n k /\ length k = len.
Proof.
  induction len as [|len IH]; intros n prev acc rest l Hb Hl.
  - cbn in Hl. destruct rest; [| done]. injection Hl as <-. exists []. by rewrite app_nil_r.
  - cbn [slots_loop] in Hl.
    assert (forall v rest', is_u8 v -> bytes_ok rest' ->
      (if n <=? v then Err (SlotOutOfBounds v n)
       else if match prev with Some p => v <=? p | None => false end then Err NotSorted
       else match vec_push v acc with
            | None => Err TooManySlots
            | Some slots => slots_loop len n (Some v) slots rest'
            end) = Ok l ->
      exists k, vec_items l = vec_items acc ++ k /\ ascending (default (-1) prev) n k /\ length k = S len) as Hacc.
    { intros v rest' Hv Hr H'. destruct (n <=? v) eqn:E1; [done |]. destruct (match prev with Some _ => _ | None => _ end) eqn:E2; [done |].
      pose proof (vec_push_spec v acc) as Hpush. destruct (vec_push v acc) as [acc'|] eqn:E3; [| done]. bool_to_prop.
      destruct (_ <? _)%nat; [| done]. destruct Hpush as (? & [= <-] & Hacc').
      destruct (IH _ _ _ _ _ Hr H') as (k & Hi & Hk & Hlen). exists (v :: k). rewrite Hi, Hacc', <- app_assoc. unfold is_u8 in Hv. split_and!.
      - done.
      - cbn. split; [| done]. destruct prev; cbn; [bool_to_prop; lia | lia].
      - cbn. lia. }
    destruct rest as [|b rest]; [done |]. apply Forall_cons in Hb as [Hb Hrest].
    destruct (b <=? 0x17); [by eapply Hacc |]. destruct (b =? 0x18); [| done]. destruct rest as [|v rest]; [done |].
    apply Forall_cons in Hrest as [Hv Hrest]. by eapply Hacc.
Qed.

(** The parser as a function to lists. *)
Definition parsed_slots (cbor : bytes) (n : Z) : option (list Z) :=
  match parse_slot_map cbor n with Ok v => Some (vec_items v) | Err _ => None end.

Lemma slot_map_roundtrip n slots : n <= u8_max -> slots_ok n slots -> parsed_slots (slot_map_bytes slots) n = Some slots.
Proof.
  intros Hn [Ha Hl]. unfold parsed_slots, slot_map_bytes, slot_map_head.
  destruct (slots_loop_encoded slots n None vec_new Ha) as (v & Hs & Hi); [done | done | by rewrite vec_items_new |].
  rewrite vec_items_new in Hi. cbn [app] in Hi.
  destruct (length slots <=? 23)%nat eqn:E; bool_to_prop; cbn [app parse_slot_map].
  - rewrite (proj2 (Z.leb_le _ _)), (proj2 (Z.leb_le _ _)) by lia. cbn [andb]. replace (0x80 + Z.of_nat (length slots) - 0x80) with (Z.of_nat (length slots)) by lia.
    rewrite Nat2Z.id, (proj2 (Nat.ltb_ge _ _)) by (unfold MAX_SLOT_MAP_ENTRIES; lia). by rewrite Hs, Hi.
  - cbn [Z.leb Z.compare Z.eqb Pos.eqb Pos.compare Pos.compare_cont andb].
    rewrite Nat2Z.id, (proj2 (Nat.ltb_ge _ _)) by (unfold MAX_SLOT_MAP_ENTRIES; lia). by rewrite Hs, Hi.
Qed.

Lemma slot_map_sound cbor n slots : bytes_ok cbor -> parsed_slots cbor n = Some slots -> slots_ok n slots.
Proof.
  intros Hb. unfold parsed_slots, parse_slot_map. destruct cbor as [|first rest]; [rewrite vec_items_new; intros [= <-]; by split; [| cbn; lia] |].
  apply Forall_cons in Hb as [Hf Hr].
  assert (forall len rest', bytes_ok rest' -> match (if (MAX_SLOT_MAP_ENTRIES <? Z.to_nat len)%nat then Err TooManySlots
    else slots_loop (Z.to_nat len) n None vec_new rest') with Ok v => Some (vec_items v) | Err _ => None end = Some slots -> slots_ok n slots) as Hbody.
  { intros len rest' Hr' Hs. destruct (_ <? _)%nat eqn:E; [done |]. bool_to_prop. unfold MAX_SLOT_MAP_ENTRIES in E.
    destruct (slots_loop _ _ _ _ _) as [v|] eqn:El; [| done]. injection Hs as <-.
    destruct (slots_loop_sound _ _ _ _ _ _ Hr' El) as (k & Hi & Hk & Hlen). rewrite vec_items_new in Hi. cbn in Hi. rewrite Hi. split; [done | lia]. }
  destruct (_ && _); [by apply Hbody |]. destruct (first =? 0x98); [| done]. destruct rest as [|len rest]; [done |].
  apply Forall_cons in Hr as [_ Hr]. by eapply Hbody.
Qed.

End parsed.

(** *** Whole beacons *)

(** The bytes of a signed beacon. *)
Definition sealed (h : TdmaBeaconHeader) (options sig : bytes) : bytes := header_bytes h ++ options ++ sig.

Lemma length_sealed h options sig : length sig = SIG_SIZE -> length (sealed h options sig) = (72 + length options)%nat.
Proof. intros Hs. unfold sealed. rewrite !length_app, length_header_bytes, Hs. unfold SIG_SIZE. lia. Qed.

Lemma sealed_parts h options sig : length sig = SIG_SIZE ->
  signed_data (sealed h options sig) = Some (header_bytes h ++ options) /\
  signature_bytes (sealed h options sig) = Some sig /\
  cbor_options (sealed h options sig) = (if (length options =? 0)%nat then None else Some options).
Proof.
  intros Hs. pose proof (length_sealed h options sig Hs) as Hl. unfold signed_data, signature_bytes, cbor_options. rewrite Hl.
  unfold MIN_BEACON_SIZE, HEADER_SIZE, SIG_SIZE in *. rewrite (proj2 (Nat.ltb_ge _ _)) by lia.
  assert ((72 + length options - 48)%nat = length (header_bytes h ++ options)) as -> by (rewrite length_app, length_header_bytes; lia).
  unfold sealed. rewrite app_assoc. rewrite take_app_length, drop_app_length. split_and!; [done | done |].
  destruct (length options =? 0)%nat eqn:E; bool_to_prop; [by rewrite (proj2 (Nat.leb_le _ _)) by lia |].
  rewrite (proj2 (Nat.leb_gt _ _)) by lia. f_equal. unfold slice. rewrite <- app_assoc.
  rewrite (drop_app_length' (header_bytes h)) by (by rewrite length_header_bytes). rewrite length_app, length_header_bytes.
  replace (24 + length options - 24)%nat with (length options) by lia. apply take_app_length.
Qed.

(** A beacon is accepted exactly when it is long enough, its header is well
    formed, the signature over everything before it verifies, and some channel
    is common; acceptance tells the header and that channel set. *)
Lemma accept_beacon_exact beacon verify permitted b : accept_beacon beacon verify permitted = Ok b <->
  (MIN_BEACON_SIZE <= length beacon)%nat /\ parse beacon = Ok (header b) /\
  verify (take (length beacon - SIG_SIZE) beacon) (drop (length beacon - SIG_SIZE) beacon) = true /\
  usable_channels b = Z.land permitted (channel_mask (header b)) /\ usable_channels b <> 0.
Proof.
  unfold accept_beacon, verify_gate, signed_data, signature_bytes, intersect_channel_mask.
  destruct (_ <? _)%nat eqn:E; bool_to_prop; [split; [done | lia] |].
  destruct (parse beacon) as [h|e]; [| split; [done | by intros (_ & ? & _)]].
  destruct (verify _ _); cbn [negb]; [| split; [done | by intros (_ & _ & ? & _)]].
  destruct (_ =? 0) eqn:E0; bool_to_prop.
  - split; [done |]. intros (_ & [= ->] & _ & Hu & Hn). by rewrite Hu in Hn.
  - split; [intros [= <-]; by split_and! |]. intros (_ & [= ->] & _ & Hu & _). f_equal. destruct b. cbn in *. by subst.
Qed.

(** What a coordinator sends is what a node with a common channel accepts: the
    header it serialized and, from the options, the slot map it wrote. *)
Lemma beacon_end_to_end `{Heapless} `{!HeaplessLaws} h slots out sig verify permitted :
  header_ok h -> slots_ok (num_slots h) slots -> (24 + length (slot_map_bytes slots) <= length out)%nat ->
  length sig = SIG_SIZE -> Z.land permitted (channel_mask h) <> 0 ->
  exists out' n, serialize h out = (Ok tt, out') /\ fst (write_slot_map slots (drop 24 out')) = Some n /\
    let beacon := take 24 out' ++ take n (snd (write_slot_map slots (drop 24 out'))) ++ sig in
    (verify (take 24 out' ++ take n (snd (write_slot_map slots (drop 24 out')))) sig = true ->
     accept_beacon beacon verify permitted = Ok {| header := h; usable_channels := Z.land permitted (channel_mask h) |} /\
     (opts ← cbor_options beacon; parsed_slots opts (num_slots h)) = Some slots).
Proof.
  intros Hh Hs Hl Hsig Hc. rewrite serialize_spec by (done || lia). do 2 eexists. split; [done |].
  rewrite !(drop_app_length' (header_bytes h)), !(take_app_length' (header_bytes h)) by (by rewrite length_header_bytes).
  destruct (write_slot_map_spec slots (drop 24 out) (proj2 Hs)) as [H1 H2]. rewrite length_drop in *.
  rewrite (proj2 (Nat.leb_le _ _)) in H1 by lia. split; [exact H1 |]. rewrite H2 by lia. rewrite take_app_length. cbn zeta. intros Hv.
  assert (0 < length (slot_map_bytes slots))%nat as Hpos by (unfold slot_map_bytes, slot_map_head; destruct (_ <=? _)%nat; cbn; lia).
  fold (sealed h (slot_map_bytes slots) sig).
  destruct (sealed_parts h (slot_map_bytes slots) sig Hsig) as (P1 & P2 & P3). split.
  - apply accept_beacon_exact. pose proof (length_sealed h (slot_map_bytes slots) sig Hsig) as Hlen. cbn [header usable_channels].
    unfold signed_data, signature_bytes in P1, P2. rewrite Hlen in *. unfold MIN_BEACON_SIZE, HEADER_SIZE, SIG_SIZE in *.
    rewrite (proj2 (Nat.ltb_ge _ _)) in P1, P2 by lia. apply (inj Some) in P1, P2. rewrite P1, P2.
    split_and!; [lia | by apply parse_header_bytes | done | done | done].
  - rewrite P3, (proj2 (Nat.eqb_neq _ _)) by lia. cbn. destruct Hh. by rewrite slot_map_roundtrip by (done || lia).
Qed.

(** *** Slots from the hash *)

(** A node's slot moves on by one with every superframe, and nodes that share a
    slot share it in every later superframe, as long as neither hash sum wraps. *)
Lemma slot_for_rotates e s n k : 1 <= n <= u8_max -> 0 <= s -> lichen_hash_32 e + s + 1 <= u32_max -> slot_for e s n = Some k ->
  slot_for e (s + 1) n = Some ((k + 1) mod n).
Proof.
  intros Hn Hs Hw. pose proof (lichen_hash_32_ok e) as He. unfold slot_for, is_u32, u8_max, u32_max in *.
  rewrite (proj2 (Z.eqb_neq n 0)) by lia. set (h := lichen_hash_32 e) in *. unfold wrap32. rewrite !(Z.mod_small _ 4294967296) by lia.
  assert (forall x, wrap8 (x mod n) = x mod n) as Hw8.
  { intros x. pose proof (Z.mod_pos_bound x n ltac:(lia)). unfold wrap8. apply Z.mod_small. lia. }
  rewrite !Hw8. intros [= <-]. rewrite Zplus_mod_idemp_l. do 2 f_equal. lia.
Qed.

(** In [n] consecutive superframes a node is in every slot once. *)
Lemma slot_for_covers e s n k : 1 <= n <= u8_max -> 0 <= s -> lichen_hash_32 e + s + n <= u32_max -> 0 <= k < n ->
  exists i, 0 <= i < n /\ slot_for e (s + i) n = Some k /\ forall j, 0 <= j < n -> slot_for e (s + j) n = Some k -> j = i.
Proof.
  intros Hn Hs Hw Hk. pose proof (lichen_hash_32_ok e) as He. unfold slot_for, is_u32, u8_max, u32_max in *.
  rewrite (proj2 (Z.eqb_neq n 0)) by lia. set (h := lichen_hash_32 e) in *.
  assert (forall i, 0 <= i < n -> Some (wrap8 (wrap32 (h + (s + i)) mod n)) = Some k <-> (h + s + i) mod n = k) as Hiff.
  { intros i Hi. unfold wrap32. rewrite (Z.mod_small _ 4294967296) by lia. replace (h + (s + i)) with (h + s + i) by lia.
    pose proof (Z.mod_pos_bound (h + s + i) n ltac:(lia)). unfold wrap8. rewrite Z.mod_small by lia. split; congruence. }
  pose proof (Z.mod_pos_bound (k - (h + s)) n ltac:(lia)) as Hi. exists ((k - (h + s)) mod n). split; [done |]. split.
  - apply Hiff; [done |]. rewrite Zplus_mod_idemp_r. replace (h + s + (k - (h + s))) with k by lia. apply Z.mod_small. lia.
  - intros j Hj Hjk. apply Hiff in Hjk; [| done]. rewrite <- Hjk. rewrite Zminus_mod_idemp_l. replace (h + s + j - (h + s)) with j by lia.
    symmetry. apply Z.mod_small. lia.
Qed.

End Beacon.

(** ** Loss of synchronization (desync.rs) *)
Module Desync.

Definition DELAY_PER_NODE_S : Z := 5.
Definition MAX_STARTUP_DELAY_S : Z := 300.
Definition initial_startup_delay (nodes_heard : Z) : Z :=
  let computed := saturating_mul u32_max nodes_heard DELAY_PER_NODE_S in Z.min computed MAX_STARTUP_DELAY_S.

Definition RECOVERY_BEACONS : Z := 3.
Definition SYNCED_MISSED_BEACON_DESYNC : Z := 3.
Inductive DesyncState := Synced | Desynced | Recovering.
#[export] Instance desync_state_eq : EqDecision DesyncState.
Proof. solve_decision. Defined.

Record DesyncFSM := { state : DesyncState; consecutive_valid : Z; missed_superframes : Z }.
Definition fsm_new : DesyncFSM := {| state := Synced; consecutive_valid := 0; missed_superframes := 0 |}.
Definition desynced : DesyncFSM := {| state := Desynced; consecutive_valid := 0; missed_superframes := 0 |}.

Definition on_sfn_wrap (f : DesyncFSM) (time_valid : bool) : DesyncFSM :=
  if negb time_valid && bool_decide (state f = Synced) then desynced else f.

Definition on_beacon (f : DesyncFSM) (valid wall_clock_valid : bool) : DesyncFSM :=
  match state f with
  | Desynced => if valid && wall_clock_valid then {| state := Recovering; consecutive_valid := 1; missed_superframes := 0 |} else f
  | Recovering =>
      if valid then
        let n := consecutive_valid f + 1 in
        if RECOVERY_BEACONS <=? n then {| state := Synced; consecutive_valid := 0; missed_superframes := 0 |}
        else {| state := Recovering; consecutive_valid := n; missed_superframes := 0 |}
      else desynced
  | Synced =>
      if valid then {| state := Synced; consecutive_valid := consecutive_valid f; missed_superframes := 0 |} else f
  end.

Definition on_missed_superframe (f : DesyncFSM) : DesyncFSM :=
  match state f with
  | Synced =>
      let n := missed_superframes f + 1 in
      if SYNCED_MISSED_BEACON_DESYNC <=? n then desynced
      else {| state := Synced; consecutive_valid := consecutive_valid f; missed_superframes := n |}
  | Desynced => f
  | Recovering =>
      let n := missed_superframes f + 1 in
      if RECOVERY_BEACONS <=? n then desynced
      else {| state := Recovering; consecutive_valid := consecutive_valid f; missed_superframes := n |}
  end.

(** [i64::abs] has no result for the least value: it traps or returns it. *)
Definition i64_min : Z := -9223372036854775808.
Definition i64_abs (overflow_checks : bool) (x : Z) : option Z :=
  if x =? i64_min then if overflow_checks then None else Some i64_min else Some (Z.abs x).
Definition on_drift (overflow_checks : bool) (f : DesyncFSM) (drift_ppm guard_ppm : Z) : option DesyncFSM :=
  if bool_decide (state f = Synced) then
    d ← i64_abs overflow_checks drift_ppm; Some (if guard_ppm <? d then desynced else f)
  else Some f.

(** *** Runs *)

Inductive event :=
  | Wrap (time_valid : bool)
  | BeaconHeard (valid wall_clock_valid : bool)
  | Missed
  | Drift (drift_ppm guard_ppm : Z).

Section runs.
Variable overflow_checks : bool.

Definition step (f : DesyncFSM) (e : event) : option DesyncFSM :=
  match e with
  | Wrap b => Some (on_sfn_wrap f b)
  | BeaconHeard v w => Some (on_beacon f v w)
  | Missed => Some (on_missed_superframe f)
  | Drift d g => on_drift overflow_checks f d g
  end.
Fixpoint run (f : DesyncFSM) (l : list event) : option DesyncFSM :=
  match l with [] => Some f | e :: l => f ← step f e; run f l end.

Definition valid_beacons (l : list event) : Z :=
  Z.of_nat (length (filter (fun e => match e with BeaconHeard true _ => true | _ => false end = true) l)).
Definition no_invalid (l : list event) : Prop := Forall (fun e => match e with BeaconHeard false _ => False | _ => True end) l.

(** The counters never reach their limits, so an eight-bit counter is enough. *)
Definition counters_ok (f : DesyncFSM) : Prop :=
  0 <= missed_superframes f < 3 /\
  match state f with
  | Synced => consecutive_valid f = 0
  | Desynced => consecutive_valid f = 0 /\ missed_superframes f = 0
  | Recovering => 1 <= consecutive_valid f < 3
  end.

(** [l] ends with a recovery in progress: since the last time the node was
    desynced it heard a valid beacon with a valid clock, then as many more as
    counted, and no invalid one. *)
Definition recovery (l : list event) (n : Z) : Prop :=
  exists before after, l = before ++ BeaconHeard true true :: after /\ valid_beacons after = n - 1 /\ no_invalid after.

Lemma valid_beacons_snoc l e : valid_beacons (l ++ [e]) = valid_beacons l + match e with BeaconHeard true _ => 1 | _ => 0 end.
Proof.
  unfold valid_beacons. rewrite filter_app, length_app, Nat2Z.inj_add. f_equal. rewrite filter_cons.
  destruct e as [b|[] w| |d g]; (rewrite decide_True by done) || (rewrite decide_False by done); by rewrite filter_nil.
Qed.

Lemma recovery_snoc l n e : recovery l n -> match e with BeaconHeard false _ => False | _ => True end ->
  recovery (l ++ [e]) (n + match e with BeaconHeard true _ => 1 | _ => 0 end).
Proof.
  intros (b & a & -> & Hv & Hn) He. exists b, (a ++ [e]). rewrite <- app_assoc. split; [done |]. rewrite valid_beacons_snoc. split; [lia |].
  apply Forall_app. split; [done |]. by constructor.
Qed.

(** The invariant over a history. *)
Definition tracks (l : list event) (f : DesyncFSM) : Prop :=
  counters_ok f /\ (state f = Recovering -> recovery l (consecutive_valid f)).

Lemma step_tracks l f e f' : tracks l f -> step f e = Some f' ->
  tracks (l ++ [e]) f' /\ (state f <> Synced -> state f' = Synced -> recovery (l ++ [e]) 3).
Proof.
  intros [[Hm Hc] Hr] Hs. unfold tracks, counters_ok.
  destruct e as [b|v w| |d g]; cbn [step] in Hs.
  - injection Hs as <-. unfold on_sfn_wrap. destruct (state f) eqn:Es; destruct b; cbn [negb andb];
      repeat (rewrite bool_decide_true by done); repeat (rewrite bool_decide_false by done); cbn; rewrite ?Es; try (split; [split; [split; [lia | done] | done] | done]).
    all: try (split; [split; [split; [lia | lia] | intros _; rewrite <- (Z.add_0_r (consecutive_valid f)); by apply (recovery_snoc l _ (Wrap _)); [apply Hr |]] | done]).
  - injection Hs as <-. unfold on_beacon. destruct (state f) eqn:Es.
    + destruct v; cbn; rewrite ?Es; split; [split; [split; [lia | done] | done] | done | split; [split; [lia | done] | done] | done].
    + destruct v, w; cbn; rewrite ?Es; try (split; [split; [split; [lia | done] | done] | done]).
      split; [| done]. split; [lia |]. intros _. exists l, []. split_and!; [done | done | constructor].
    + destruct v; [| cbn; split; [split; [split; [lia | done] | done] | done]].
      pose proof (recovery_snoc l _ (BeaconHeard true w) (Hr eq_refl) I) as Hrec. unfold RECOVERY_BEACONS. destruct (3 <=? _) eqn:E; bool_to_prop; cbn.
      * split; [split; [split; [lia | done] | done] |]. intros _ _. replace 3 with (consecutive_valid f + 1) by lia. exact Hrec.
      * split; [split; [split; [lia | lia] |] | done]. by intros _.
  - injection Hs as <-. unfold on_missed_superframe, SYNCED_MISSED_BEACON_DESYNC, RECOVERY_BEACONS. destruct (state f) eqn:Es.
    + destruct (3 <=? _) eqn:E; bool_to_prop; cbn; (split; [split; [split; [lia | lia || done] | done] | done]).
    + rewrite Es. split; [split; [split; [lia | done] | done] | done].
    + destruct (3 <=? _) eqn:E; bool_to_prop; cbn; [split; [split; [split; [lia | done] | done] | done] |].
      split; [| done]. split; [lia |]. intros _. rewrite <- (Z.add_0_r (consecutive_valid f)). by apply (recovery_snoc l _ Missed); [apply Hr |].
  - unfold on_drift in Hs. destruct (bool_decide (state f = Synced)) eqn:Eb.
    + apply bool_decide_eq_true in Eb. destruct (i64_abs _ _) as [a|]; cbn in Hs; [| done]. injection Hs as <-. rewrite Eb in *.
      destruct (g <? a); cbn; rewrite ?Eb; (split; [split; [split; [lia | done] | done] | done]).
    + apply bool_decide_eq_false in Eb. injection Hs as <-. split; [| done]. split; [done |]. intros Es.
      rewrite <- (Z.add_0_r (consecutive_valid f)). by apply (recovery_snoc l _ (Drift _ _)); [apply Hr |].
Qed.

Lemma run_tracks l : forall h f f', tracks h f -> run f l = Some f' -> tracks (h ++ l) f'.
Proof.
  induction l as [|e l IH]; intros h f f' Ht Hr; [by injection Hr as <-; rewrite app_nil_r |]. cbn in Hr.
  destruct (step f e) as [f1|] eqn:E; [| done]. replace (h ++ e :: l) with ((h ++ [e]) ++ l) by (by rewrite <- app_assoc).
  eapply IH; [| exact Hr]. by eapply step_tracks.
Qed.

Lemma tracks_new : tracks [] fsm_new.
Proof. split; [split; [cbn; lia | done] | done]. Qed.

(** Synchronization is only regained by a valid beacon with a valid clock that is
    followed by two more valid beacons, with no invalid one in between; and the
    counters stay below their limits, whatever happens. *)
Lemma resync_needs_three_beacons l f e f' : run fsm_new l = Some f -> step f e = Some f' ->
  counters_ok f' /\ (state f <> Synced -> state f' = Synced -> recovery (l ++ [e]) 3).
Proof.
  intros Hr Hs. pose proof (run_tracks l [] _ _ tracks_new Hr) as Ht. cbn in Ht.
  destruct (step_tracks l f e f' Ht Hs) as [[Hc _] H]. done.
Qed.

(** Conversely three valid beacons with a valid clock bring any node back. *)
Lemma three_beacons_resync l f : run fsm_new l = Some f ->
  option_map state (run f [BeaconHeard true true; BeaconHeard true true; BeaconHeard true true]) = Some Synced.
Proof.
  intros Hr. pose proof (run_tracks l [] _ _ tracks_new Hr) as [[_ Hc] _]. cbn. destruct f as [s n m]. cbn [state consecutive_valid] in *.
  destruct s; [done | done |]. assert (n = 1 \/ n = 2) as [-> | ->] by lia; done.
Qed.

(** Three superframes without a beacon leave no node synchronized. *)
Lemma three_misses_desync l f : run fsm_new l = Some f -> option_map state (run f [Missed; Missed; Missed]) = Some Desynced.
Proof.
  intros Hr. pose proof (run_tracks l [] _ _ tracks_new Hr) as [[Hm _] _]. cbn. destruct f as [s n m]. cbn [missed_superframes] in *.
  destruct s; [| done |]; assert (m = 0 \/ m = 1 \/ m = 2) as [-> | [-> | ->]] by lia; done.
Qed.

End runs.

(** ** The join state machine of CCP-13a *)

Inductive CcpState := Unjoined | Joined | DriftState | Recover.
Record CcpFSM := { ccp_state : CcpState }.
Definition ccp_new : CcpFSM := {| ccp_state := Unjoined |}.
Definition on_join (f : CcpFSM) : CcpFSM := match ccp_state f with Unjoined => {| ccp_state := Joined |} | _ => f end.
Definition ccp_on_beacon (f : CcpFSM) (valid : bool) : CcpFSM :=
  match ccp_state f with DriftState | Recover => if valid then {| ccp_state := Joined |} else f | _ => f end.
Definition on_drift_warn (f : CcpFSM) : CcpFSM := match ccp_state f with Joined => {| ccp_state := DriftState |} | _ => f end.
Definition on_drift_max (f : CcpFSM) : CcpFSM := match ccp_state f with DriftState => {| ccp_state := Recover |} | _ => f end.
Definition on_give_up (f : CcpFSM) : CcpFSM := match ccp_state f with Recover => {| ccp_state := Unjoined |} | _ => f end.
Definition on_leave (f : CcpFSM) : CcpFSM := {| ccp_state := Unjoined |}.

(** The transitions the type documents. *)
Inductive ccp_step : CcpState -> CcpState -> Prop :=
  | ccp_join : ccp_step Unjoined Joined
  | ccp_warn : ccp_step Joined DriftState
  | ccp_back : ccp_step DriftState Joined
  | ccp_max : ccp_step DriftState Recover
  | ccp_resync : ccp_step Recover Joined
  | ccp_give_up : ccp_step Recover Unjoined
  | ccp_leave s : ccp_step s Unjoined.

Lemma ccp_transitions_documented (f f' : CcpFSM) :
  f' ∈ [on_join f; ccp_on_beacon f true; ccp_on_beacon f false; on_drift_warn f; on_drift_max f; on_give_up f; on_leave f] ->
  f' = f \/ ccp_step (ccp_state f) (ccp_state f').
Proof.
  destruct f as [[]]; intros H; repeat (apply elem_of_cons in H as [-> |H]); try (by left); try (right; constructor); by apply not_elem_of_nil in H.
Qed.

End Desync.
