(* ===== verification/Monitor.v ===== *)
(** * Watching the neighbours' airtime (lichen-core/src/neighbor_monitor.rs)

    A ring buffer of receipt times per neighbour and the rule that flags one that
    sends too often.  The ring buffer refines a queue, and the rule decides as one
    that remembers every receipt would.  The table of neighbours is a
    [heapless::Vec], of which [HeaplessVecOps] adds the operations used here. *)

From Stdlib Require Import Sorted.
From S2P Require Import Prelude Heapless DutyCycle.
Open Scope Z_scope.

Class HeaplessVecOps `{Heapless} := {
  (** Writing through the slice a vector dereferences to; the index is in range. *)
  vec_set {N A} : nat -> A -> vec N A -> vec N A;
  vec_swap_remove {N A} : nat -> vec N A -> vec N A;
  vec_clear {N A} : vec N A -> vec N A
}.
(** [swap_remove]: the last element takes the place of the removed one. *)
Definition swap_removed {A} (i : nat) (l : list A) : list A :=
  match last l with
  | Some x => take (length l - 1) (<[i := x]> l)
  | None => l
  end.
Class HeaplessVecLaws `{HeaplessVecOps} : Prop := {
  vec_set_spec {N A} i (x : A) (v : vec N A) : (i < length (vec_items v))%nat -> vec_items (vec_set i x v) = <[i := x]> (vec_items v);
  vec_swap_remove_spec {N A} i (v : vec N A) : (i < length (vec_items v))%nat -> vec_items (vec_swap_remove i v) = swap_removed i (vec_items v);
  vec_clear_spec {N A} (v : vec N A) : vec_items (vec_clear v) = []
}.

Module Monitor.
Import DutyCycle.

(** ** The ring buffer *)

Record RingBuf := { buf : list Z; head : nat; len : nat }.

Section ring.
Variable L : nat.

Definition ring_new : RingBuf := {| buf := replicate L 0; head := 0; len := 0 |}.
Definition push (r : RingBuf) (val : Z) : result unit unit * RingBuf :=
  if (len r =? L)%nat then (Err tt, r)
  else
    let idx := ((head r + len r) mod L)%nat in
    (Ok tt, {| buf := <[idx := val]> (buf r); head := head r; len := S (len r) |}).

(** The loop runs at most [len] times. *)
Fixpoint drain_loop (fuel : nat) (r : RingBuf) (cutoff : Z) : RingBuf :=
  match fuel with
  | O => r
  | S fuel =>
      if (0 <? len r)%nat && (nth (head r) (buf r) 0 <? cutoff)
      then drain_loop fuel {| buf := buf r; head := ((head r + 1) mod L)%nat; len := (len r - 1)%nat |} cutoff
      else r
  end.
Definition drain_before (r : RingBuf) (cutoff : Z) : RingBuf := drain_loop (len r) r cutoff.

Fixpoint count_loop (n : nat) (b : list Z) (pos : nat) (cutoff : Z) (cnt : nat) : nat :=
  match n with
  | O => cnt
  | S n => count_loop n b ((pos + 1) mod L)%nat cutoff (if cutoff <=? nth pos b 0 then S cnt else cnt)
  end.
Definition count_since (r : RingBuf) (cutoff : Z) : nat := count_loop (len r) (buf r) (head r) cutoff 0.

(** The [n] times from position [pos] on, oldest first. *)
Definition window (n : nat) (b : list Z) (pos : nat) : list Z := (fun i => nth ((pos + i) mod L) b 0) <$> seq 0 n.
Definition contents (r : RingBuf) : list Z := window (len r) (buf r) (head r).
Definition ring_ok (r : RingBuf) : Prop := length (buf r) = L /\ (len r <= L)%nat /\ (len r = 0 \/ head r < L)%nat /\ (L = 0 \/ head r < L)%nat.

Lemma length_window n b pos : length (window n b pos) = n.
Proof. unfold window. by rewrite length_fmap, length_seq. Qed.

Lemma window_cons n b pos : (pos < L)%nat -> window (S n) b pos = nth pos b 0 :: window n b ((pos + 1) mod L).
Proof.
  intros Hp. unfold window. cbn [seq]. rewrite fmap_cons. f_equal; [rewrite Nat.add_0_r, Nat.mod_small; done |].
  rewrite <- fmap_S_seq, <- list_fmap_compose. apply list_fmap_ext. intros i j _. cbn. rewrite Nat.Div0.add_mod_idemp_l. do 2 f_equal. lia.
Qed.

Lemma mod_add_inj p i j : (i < L)%nat -> (j < L)%nat -> ((p + i) mod L = (p + j) mod L)%nat -> i = j.
Proof.
  intros Hi Hj E. pose proof (Nat.div_mod (p + i) L ltac:(lia)) as H1. pose proof (Nat.div_mod (p + j) L ltac:(lia)) as H2.
  rewrite E in H1. generalize dependent ((p + i) / L)%nat. generalize dependent ((p + j) / L)%nat. intros q2 H2 q1 H1.
  destruct (Nat.lt_trichotomy q1 q2) as [Hq|[-> |Hq]]; nia.
Qed.

Lemma window_snoc n b pos v : (n < L)%nat -> length b = L ->
  window (S n) (<[((pos + n) mod L)%nat := v]> b) pos = window n b pos ++ [v].
Proof.
  intros Hn Hb. unfold window. rewrite seq_S, fmap_app. cbn [fmap list_fmap]. f_equal.
  - apply list_fmap_ext. intros i x Hx. apply lookup_seq in Hx as [-> Hx]. cbn. rewrite !nth_lookup. rewrite list_lookup_insert_ne; [done |].
    intros E. apply mod_add_inj in E; lia.
  - f_equal. cbn. rewrite nth_lookup, list_lookup_insert_eq; [done |]. rewrite Hb. apply Nat.mod_upper_bound. lia.
Qed.

Lemma ring_new_ok : ring_ok ring_new.
Proof. split_and!; cbn; [apply length_replicate | lia | by left | lia]. Qed.

(** A push adds at the back, unless the buffer is full. *)
Lemma push_spec r v : ring_ok r ->
  match push r v with
  | (Ok _, r') => ring_ok r' /\ contents r' = contents r ++ [v] /\ (len r < L)%nat
  | (Err _, r') => r' = r /\ length (contents r) = L
  end.
Proof.
  intros (Hb & Hl & Hh0 & Hh). unfold push, contents. destruct (len r =? L)%nat eqn:E; bool_to_prop.
  - split; [done |]. by rewrite length_window.
  - assert (len r < L)%nat by lia. unfold ring_ok. cbn [buf head len]. split_and!; [by rewrite length_insert | lia | lia | lia | by apply window_snoc | done].
Qed.

(** Draining drops the leading times before the cutoff. *)
Fixpoint drop_before (cutoff : Z) (l : list Z) : list Z :=
  match l with t :: l' => if t <? cutoff then drop_before cutoff l' else l | [] => [] end.

Lemma ring_drain_spec r cutoff : ring_ok r ->
  ring_ok (drain_before r cutoff) /\ contents (drain_before r cutoff) = drop_before cutoff (contents r).
Proof.
  unfold drain_before. remember (len r) as fuel eqn:Hf. revert r Hf. induction fuel as [|fuel IH]; intros r Hf Hok.
  - split; [done |]. unfold contents. cbn [drain_loop]. by rewrite <- Hf.
  - pose proof Hok as (Hb & Hl & Hh0 & Hh). assert (head r < L)%nat as Hh' by lia. cbn [drain_loop]. rewrite <- Hf.
    unfold contents at 2. rewrite <- Hf, window_cons by done. cbn [Nat.ltb Nat.leb andb drop_before]. destruct (_ <? cutoff) eqn:E.
    + set (r' := {| buf := buf r |}). destruct (IH r') as [H1 H2].
      * cbn. lia.
      * split_and!; cbn; [done | lia | right; apply Nat.mod_upper_bound; lia | right; apply Nat.mod_upper_bound; lia].
      * split; [done |]. rewrite H2. unfold contents, r'. cbn [len buf head]. by replace (S fuel - 1)%nat with fuel by lia.
    + split; [done |]. unfold contents. by rewrite <- Hf, window_cons.
Qed.

Lemma count_loop_spec n : forall b pos cutoff cnt, (n = 0 \/ pos < L)%nat ->
  count_loop n b pos cutoff cnt = (cnt + length (filter (fun t => (cutoff <= t)%Z) (window n b pos)))%nat.
Proof.
  induction n as [|n IH]; intros b pos cutoff cnt Hp; [cbn; lia |]. assert (pos < L)%nat as Hp' by lia. cbn [count_loop].
  rewrite IH by (right; apply Nat.mod_upper_bound; lia). rewrite window_cons, filter_cons by done.
  destruct (decide (cutoff <= nth pos b 0)); destruct (_ <=? _) eqn:E; bool_to_prop; cbn [length]; lia.
Qed.

Lemma count_since_spec r cutoff : ring_ok r -> count_since r cutoff = length (filter (fun t => (cutoff <= t)%Z) (contents r)).
Proof. intros (_ & _ & Hh & _). unfold count_since. by rewrite count_loop_spec. Qed.

End ring.

(** ** The monitor *)

Definition DEFAULT_PACKET_THRESHOLD : Z := 36.
Record NeighborTxLog := { addr : bytes; timestamps : RingBuf; flagged : bool }.

Section monitor.
Context `{HeaplessVecOps} {N L : nat}.

Definition log_new (a : bytes) : NeighborTxLog := {| addr := a; timestamps := ring_new L; flagged := false |}.
Definition with_timestamps (g : NeighborTxLog) (r : RingBuf) : NeighborTxLog := {| addr := addr g; timestamps := r; flagged := flagged g |}.
Definition log_record (g : NeighborTxLog) (timestamp_ms : Z) : bool * NeighborTxLog :=
  let '(r, t) := push L (timestamps g) timestamp_ms in (is_ok r, with_timestamps g t).
Definition window_start (now_ms : Z) : Z := saturating_sub now_ms WINDOW_MS.
Definition evict_stale (g : NeighborTxLog) (now_ms : Z) : NeighborTxLog :=
  with_timestamps g (drain_before L (timestamps g) (window_start now_ms)).
Definition log_packet_count (g : NeighborTxLog) (now_ms : Z) : nat := count_since L (timestamps g) (window_start now_ms).
Definition set_flag (g : NeighborTxLog) (b : bool) : NeighborTxLog := {| addr := addr g; timestamps := timestamps g; flagged := b |}.

Record NeighborMonitor := { neighbors : vec N NeighborTxLog; threshold : Z }.
Definition monitor_new : NeighborMonitor := {| neighbors := vec_new; threshold := DEFAULT_PACKET_THRESHOLD |}.
Definition with_threshold (t : Z) : NeighborMonitor := {| neighbors := vec_new; threshold := t |}.
Definition set_threshold (m : NeighborMonitor) (t : Z) : NeighborMonitor := {| neighbors := neighbors m; threshold := t |}.
Definition with_neighbors (m : NeighborMonitor) (v : vec N NeighborTxLog) : NeighborMonitor := {| neighbors := v; threshold := threshold m |}.

(** The place of a neighbour's log in the table. *)
Definition position (m : NeighborMonitor) (a : bytes) : option nat := fst <$> list_find (fun g => addr g = a) (vec_items (neighbors m)).
Definition get_log (m : NeighborMonitor) (a : bytes) : option NeighborTxLog := snd <$> list_find (fun g => addr g = a) (vec_items (neighbors m)).

(** A mutable reference to a log is its place; what is written through it goes there. *)
Definition get_or_create_log (m : NeighborMonitor) (a : bytes) : option (nat * NeighborTxLog) * NeighborMonitor :=
  match list_find (fun g => addr g = a) (vec_items (neighbors m)) with
  | Some found => (Some found, m)
  | None =>
      match vec_push (log_new a) (neighbors m) with
      | Some v => (Some ((length (vec_items v) - 1)%nat, log_new a), with_neighbors m v)
      | None => (None, m)
      end
  end.
Definition get_log_mut (m : NeighborMonitor) (a : bytes) : option (nat * NeighborTxLog) :=
  list_find (fun g => addr g = a) (vec_items (neighbors m)).
Definition write_log (m : NeighborMonitor) (i : nat) (g : NeighborTxLog) : NeighborMonitor := with_neighbors m (vec_set i g (neighbors m)).

Definition record_rx (m : NeighborMonitor) (a : bytes) (now_ms : Z) : bool * NeighborMonitor :=
  match get_or_create_log m a with
  | (Some (i, g), m) => let '(r, g) := log_record (evict_stale g now_ms) now_ms in (r, write_log m i g)
  | (None, m) => (false, m)
  end.
Definition check_neighbor_duty (m : NeighborMonitor) (a : bytes) (now_ms : Z) : bool * NeighborMonitor :=
  match get_log_mut m a with
  | Some (i, g) =>
      let g := evict_stale g now_ms in
      (threshold m <? Z.of_nat (log_packet_count g now_ms), write_log m i g)
  | None => (false, m)
  end.
Definition flag_cheater (m : NeighborMonitor) (a : bytes) : bool * NeighborMonitor :=
  match get_log_mut m a with Some (i, g) => (true, write_log m i (set_flag g true)) | None => (false, m) end.
Definition unflag_cheater (m : NeighborMonitor) (a : bytes) : bool * NeighborMonitor :=
  match get_log_mut m a with Some (i, g) => (true, write_log m i (set_flag g false)) | None => (false, m) end.
Definition get_cheaters (m : NeighborMonitor) : vec N bytes :=
  foldl (fun v g => if flagged g then default v (vec_push (addr g) v) else v) vec_new (vec_items (neighbors m)).
Definition is_cheater (m : NeighborMonitor) (a : bytes) : bool :=
  match get_log m a with Some g => flagged g | None => false end.
Definition packet_count (m : NeighborMonitor) (a : bytes) (now_ms : Z) : option nat * NeighborMonitor :=
  match get_log_mut m a with
  | Some (i, g) => let g := evict_stale g now_ms in (Some (log_packet_count g now_ms), write_log m i g)
  | None => (None, m)
  end.
Definition remove_neighbor (m : NeighborMonitor) (a : bytes) : bool * NeighborMonitor :=
  match position m a with Some i => (true, with_neighbors m (vec_swap_remove i (neighbors m))) | None => (false, m) end.
Definition neighbor_count (m : NeighborMonitor) : nat := length (vec_items (neighbors m)).
Definition clear (m : NeighborMonitor) : NeighborMonitor := with_neighbors m (vec_clear (neighbors m)).
Definition record_and_check (m : NeighborMonitor) (a : bytes) (now_ms : Z) : bool * NeighborMonitor :=
  let '(_, m) := record_rx m a now_ms in
  match check_neighbor_duty m a now_ms with
  | (true, m) => (true, snd (flag_cheater m a))
  | (false, m) => (is_cheater m a, m)
  end.

(** *** What the table holds *)

Definition lookup_log (l : list NeighborTxLog) (a : bytes) : option NeighborTxLog := snd <$> list_find (fun g => addr g = a) l.

Lemma lookup_log_cons g l a : lookup_log (g :: l) a = if decide (addr g = a) then Some g else lookup_log l a.
Proof.
  unfold lookup_log. cbn. destruct (decide (addr g = a)) as [E|E]; [done |].
  destruct (list_find _ l) as [[i x]|]; done.
Qed.
Lemma lookup_log_insert (l : list NeighborTxLog) a y : addr y = a -> forall i x, list_find (fun g => addr g = a) l = Some (i, x) ->
  forall a', lookup_log (<[i := y]> l) a' = if decide (a' = a) then Some y else lookup_log l a'.
Proof.
  intros Hy. induction l as [|g l IH]; intros i x Hf a'; [done |]. cbn in Hf. destruct (decide (addr g = a)) as [E|E].
  - injection Hf as <- <-. change (<[0%nat:=y]> (g :: l)) with (y :: l). rewrite !lookup_log_cons, Hy, E. repeat case_decide; congruence.
  - destruct (list_find _ l) as [[j z]|] eqn:Ef; cbn in Hf; [| done]. injection Hf as <- <-.
    change (<[S j:=y]> (g :: l)) with (g :: <[j:=y]> l). rewrite !lookup_log_cons, (IH j z eq_refl a'). repeat case_decide; congruence.
Qed.
Lemma lookup_log_snoc (l : list NeighborTxLog) a y : addr y = a -> list_find (fun g => addr g = a) l = None ->
  forall a', lookup_log (l ++ [y]) a' = if decide (a' = a) then Some y else lookup_log l a'.
Proof.
  intros Hy. induction l as [|g l IH]; intros Hf a'; cbn [app]; rewrite !lookup_log_cons.
  - rewrite Hy. repeat case_decide; congruence.
  - cbn in Hf. destruct (decide (addr g = a)) as [E|E]; [done |]. destruct (list_find _ l) as [[j z]|] eqn:Ef; [done |].
    rewrite (IH eq_refl). repeat case_decide; congruence.
Qed.

Context `{!HeaplessLaws} `{!HeaplessVecLaws}.

(** What [record_and_check] does to the log of its neighbour. *)
Definition log_step (T : Z) (g : NeighborTxLog) (now : Z) : bool * NeighborTxLog :=
  let g := evict_stale (snd (log_record (evict_stale g now) now)) now in
  if T <? Z.of_nat (log_packet_count g now) then (true, set_flag g true) else (flagged g, g).

Lemma addr_evict g now : addr (evict_stale g now) = addr g.
Proof. done. Qed.
Lemma addr_record g now : addr (snd (log_record g now)) = addr g.
Proof. unfold log_record. by destruct (push L _ _). Qed.

Lemma find_lookup (l : list NeighborTxLog) a :
  match list_find (fun g => addr g = a) l with
  | Some (i, g) => lookup_log l a = Some g /\ addr g = a /\ (i < length l)%nat
  | None => lookup_log l a = None
  end.
Proof.
  unfold lookup_log. destruct (list_find _ l) as [[i g]|] eqn:E; [| done]. apply list_find_Some in E as (Hi & Ha & _).
  split_and!; [done | done |]. by eapply lookup_lt_Some.
Qed.

(** Writing a log through its reference changes that log only. *)
Lemma write_log_spec m a i x y : list_find (fun g => addr g = a) (vec_items (neighbors m)) = Some (i, x) -> addr y = a ->
  length (vec_items (neighbors (write_log m i y))) = length (vec_items (neighbors m)) /\ threshold (write_log m i y) = threshold m /\
  (forall a', get_log (write_log m i y) a' = if decide (a' = a) then Some y else get_log m a') /\
  list_find (fun g => addr g = a) (vec_items (neighbors (write_log m i y))) = Some (i, y).
Proof.
  intros Hf Hy. pose proof (find_lookup (vec_items (neighbors m)) a) as Hl. rewrite Hf in Hl. destruct Hl as (_ & _ & Hlt).
  unfold write_log, get_log. cbn [neighbors with_neighbors threshold]. rewrite vec_set_spec by done. rewrite length_insert. split_and!; [done | done | |].
  - intros a'. by apply (lookup_log_insert _ a y Hy i x Hf).
  - apply list_find_Some in Hf as (Hi & Hx & Hbefore). apply list_find_Some. split_and!; [by apply list_lookup_insert_eq | done |].
    intros j z Hz Hj. rewrite list_lookup_insert_ne in Hz by lia. by eapply Hbefore.
Qed.

Definition fresh (m : NeighborMonitor) (a : bytes) : nat := match get_log m a with Some _ => 0 | None => 1 end.

(** The log of a neighbour that is tracked, or for which there is room. *)
Lemma get_or_create_spec m a : is_Some (get_log m a) \/ (length (vec_items (neighbors m)) < N)%nat ->
  let g := default (log_new a) (get_log m a) in
  exists i m0, get_or_create_log m a = (Some (i, g), m0) /\ addr g = a /\
    list_find (fun g => addr g = a) (vec_items (neighbors m0)) = Some (i, g) /\ threshold m0 = threshold m /\
    length (vec_items (neighbors m0)) = (length (vec_items (neighbors m)) + fresh m a)%nat /\
    forall a', a' <> a -> get_log m0 a' = get_log m a'.
Proof.
  intros Hroom g. unfold get_or_create_log, g. pose proof (find_lookup (vec_items (neighbors m)) a) as Hl.
  change (lookup_log (vec_items (neighbors m)) a) with (get_log m a) in Hl.
  destruct (list_find _ _) as [[i x]|] eqn:Ef.
  - destruct Hl as (Hg & Hx & _). unfold fresh. rewrite Hg. exists i, m. split_and!; done || (cbn; lia).
  - unfold fresh. rewrite Hl in *. destruct Hroom as [[? ?]|Hroom]; [done |]. pose proof (vec_push_spec (log_new a) (neighbors m)) as Hp.
    rewrite (proj2 (Nat.ltb_lt _ _)) in Hp by done. destruct Hp as (v & -> & Hv). do 2 eexists. split; [reflexivity |].
    cbn [neighbors with_neighbors threshold default]. rewrite Hv, length_app. cbn [length]. split_and!; [done | | done | lia |].
    + rewrite list_find_app_r by done. cbn. rewrite decide_True by done. cbn. do 2 f_equal. lia.
    + intros a' Ha'. unfold get_log at 1. cbn [neighbors with_neighbors]. rewrite Hv. change (lookup_log (vec_items (neighbors m) ++ [log_new a]) a' = get_log m a').
      rewrite (lookup_log_snoc _ a) by done. by rewrite decide_False.
Qed.

Lemma record_and_check_log m a now :
  is_Some (get_log m a) \/ (length (vec_items (neighbors m)) < N)%nat ->
  let g := default (log_new a) (get_log m a) in
  let '(r, m') := record_and_check m a now in
  r = fst (log_step (threshold m) g now) /\ threshold m' = threshold m /\
  length (vec_items (neighbors m')) = (length (vec_items (neighbors m)) + fresh m a)%nat /\
  forall a', get_log m' a' = if decide (a' = a) then Some (snd (log_step (threshold m) g now)) else get_log m a'.
Proof.
  intros Hroom g. destruct (get_or_create_spec m a Hroom) as (i & m0 & Ec & Ha & Hf0 & Ht0 & Hl0 & Hg0). fold g in Ec, Ha, Hf0.
  unfold record_and_check, record_rx. rewrite Ec. unfold log_step.
  pose proof (addr_record (evict_stale g now) now) as Hr. rewrite addr_evict, Ha in Hr.
  destruct (log_record (evict_stale g now) now) as [b g1]. cbn [snd] in *.
  destruct (write_log_spec m0 a i g g1 Hf0 Hr) as (L1 & T1 & G1 & F1). set (m1 := write_log m0 i g1) in *.
  unfold check_neighbor_duty, get_log_mut. rewrite F1, T1, Ht0. set (g2 := evict_stale g1 now).
  destruct (write_log_spec m1 a i g1 g2 F1 Hr) as (L2 & T2 & G2 & F2). set (m2 := write_log m1 i g2) in *.
  destruct (threshold m <? _).
  - unfold flag_cheater, get_log_mut. rewrite F2. cbn [snd fst].
    destruct (write_log_spec m2 a i g2 (set_flag g2 true) F2 Hr) as (L3 & T3 & G3 & F3).
    split_and!; [done | congruence | congruence |]. intros a'. rewrite G3, G2, G1. case_decide; [done |]. by apply Hg0.
  - unfold is_cheater. rewrite G2, decide_True by done. cbn [fst snd].
    split_and!; [done | congruence | congruence |]. intros a'. rewrite G2, G1. case_decide; [done |]. by apply Hg0.
Qed.

(** *** The rule *)

(** At some receipt more than [T] packets had been heard within the window. *)
Definition offends (T : Z) (l : list Z) : Prop :=
  exists p t, p ++ [t] `prefix_of` l /\ T < Z.of_nat (length (filter (fun x => window_start t <= x) (p ++ [t]))).
(** The times in the window at the last receipt. *)
Definition recent (l : list Z) : list Z :=
  match last l with Some t => filter (fun x => window_start t <= x) l | None => [] end.

Lemma offends_app T l k : offends T l -> offends T (l ++ k).
Proof. intros (p & t & Hp & Hc). exists p, t. split; [| done]. by apply prefix_app_r. Qed.
Lemma offends_snoc T l t : offends T (l ++ [t]) -> offends T l \/ T < Z.of_nat (length (recent (l ++ [t]))).
Proof.
  intros (p & x & Hp & Hc). destruct Hp as [k Hk]. destruct k as [|y k _] using rev_ind.
  - rewrite app_nil_r in Hk. right. unfold recent. rewrite last_snoc. apply app_inj_tail in Hk as [-> ->]. done.
  - left. rewrite app_assoc in Hk. apply app_inj_tail in Hk as [-> ->]. exists p, x. split; [by eexists | done].
Qed.
Lemma recent_offends T l t : T < Z.of_nat (length (recent (l ++ [t]))) -> offends T (l ++ [t]).
Proof. unfold recent. rewrite last_snoc. intros Hc. by exists l, t. Qed.

Definition sorted (l : list Z) : Prop := StronglySorted Z.le l.
Lemma times_sorted_filter (P : Z -> Prop) `{!forall x, Decision (P x)} l : sorted l -> sorted (filter P l).
Proof.
  induction 1 as [|x l Hs IH Hall]; [constructor |]. rewrite filter_cons. case_decide; [| done]. constructor; [done |].
  apply Forall_forall. intros y Hy. apply list_elem_of_filter in Hy as [_ Hy]. by eapply Forall_forall in Hy; [| exact Hall].
Qed.
Lemma filter_kept (P : Z -> Prop) `{!forall x, Decision (P x)} l : Forall P l -> filter P l = l.
Proof. induction 1 as [|x l Hx _ IH]; [done |]. rewrite filter_cons, decide_True by done. by rewrite IH. Qed.
Lemma drop_before_sorted c l : sorted l -> drop_before c l = filter (fun x => c <= x) l.
Proof.
  induction 1 as [|x l Hs IH Hall]; [done |]. cbn [drop_before]. rewrite filter_cons. destruct (x <? c) eqn:E; bool_to_prop.
  - rewrite decide_False by lia. exact IH.
  - rewrite decide_True by lia. f_equal. symmetry. apply filter_kept. eapply Forall_impl; [exact Hall |]. cbn. lia.
Qed.

Lemma sorted_snoc l t : sorted (l ++ [t]) -> sorted l /\ Forall (fun x => x <= t) l.
Proof.
  unfold sorted. induction l as [|x l IH]; cbn; intros Hs; [split; constructor |]. apply StronglySorted_inv in Hs as [Hs Hall].
  destruct (IH Hs) as [Hl1 Hl2]. apply Forall_app in Hall as [Hall Ht]. split; [by constructor |]. constructor; [by inversion Ht | done].
Qed.

(** A log that is not flagged holds exactly the recent receipts, no more than the
    threshold; a flagged one belongs to a neighbour that offended. *)
Definition log_ok (T : Z) (l : list Z) (g : NeighborTxLog) : Prop :=
  ring_ok L (timestamps g) /\
  if flagged g then offends T l else ~ offends T l /\ contents L (timestamps g) = recent l.

Lemma window_start_mono t now : t <= now -> window_start t <= window_start now.
Proof. unfold window_start, saturating_sub. lia. Qed.
Lemma window_start_le now : 0 <= now -> window_start now <= now.
Proof. unfold window_start, saturating_sub, WINDOW_MS. lia. Qed.

Lemma recent_within T l : 0 <= T -> ~ offends T l -> Z.of_nat (length (recent l)) <= T.
Proof.
  intros HT Hn. destruct l as [|t l _] using rev_ind; [cbn; lia |]. destruct (Z.le_gt_cases (Z.of_nat (length (recent (l ++ [t])))) T); [done |].
  destruct Hn. by apply recent_offends.
Qed.

(** Evicting at a later time leaves what is recent then. *)
Lemma evict_recent l now : sorted (l ++ [now]) ->
  drop_before (window_start now) (recent l) = filter (fun x => window_start now <= x) l.
Proof.
  intros Hs. apply sorted_snoc in Hs as [Hs Hle]. unfold recent. destruct (last l) as [t|] eqn:Et.
  - rewrite drop_before_sorted by (by apply times_sorted_filter). apply list_filter_filter_l. intros x Hx. etrans; [| exact Hx]. apply window_start_mono.
    apply last_Some in Et as [l' ->]. apply Forall_app in Hle as [_ Hle]. by inversion Hle.
  - apply last_None in Et as ->. done.
Qed.

Lemma log_step_ok T l g now : 0 <= T < Z.of_nat L -> 0 <= now -> sorted (l ++ [now]) -> log_ok T l g ->
  let '(b, g') := log_step T g now in log_ok T (l ++ [now]) g' /\ b = flagged g'.
Proof.
  intros HT Hnow Hs [Hring Hflag]. unfold log_step.
  destruct (ring_drain_spec L (timestamps g) (window_start now) Hring) as [Hr1 Hc1].
  unfold log_record, log_packet_count, evict_stale, with_timestamps. cbn [timestamps flagged addr]. set (r1 := drain_before L (timestamps g) (window_start now)) in *.
  pose proof (push_spec L r1 now Hr1) as Hpush. destruct (push L r1 now) as [res r2] eqn:Ep. cbn [snd timestamps flagged addr].
  assert (ring_ok L r2) as Hr2 by (destruct res; [by destruct Hpush as [? _] | by destruct Hpush as [-> _]]).
  destruct (ring_drain_spec L r2 (window_start now) Hr2) as [Hr3 Hc3]. set (r3 := drain_before L r2 (window_start now)) in *.
  rewrite (count_since_spec L r3) by done.
  destruct (flagged g) eqn:Ef.
  { destruct (T <? _); (split; [split; [done |]; cbn; rewrite ?Ef; by apply offends_app | cbn; by rewrite ?Ef]). }
  destruct Hflag as [Hno Hcont]. rewrite Hcont, evict_recent in Hc1 by done.
  assert (res = Ok tt /\ contents L r2 = recent (l ++ [now])) as [-> Hc2].
  { pose proof (recent_within T l ltac:(lia) Hno) as Hlen. pose proof (evict_recent l now Hs) as He.
    assert (length (filter (fun x => (window_start now <= x)%Z) l) <= length (recent l))%nat as Hle.
    { rewrite <- He. clear. induction (recent l) as [|x k IH]; cbn; [lia |]. destruct (x <? _); cbn; lia. }
    destruct res as [[]|]; [| destruct Hpush as [_ Hfull]; rewrite Hc1 in Hfull; lia]. split; [done |]. destruct Hpush as (_ & -> & _).
    rewrite Hc1. unfold recent. rewrite last_snoc, filter_app, filter_cons, filter_nil, decide_True by (by apply window_start_le). done. }
  assert (Forall (fun x => window_start now <= x) (recent (l ++ [now]))) as Hall.
  { unfold recent. rewrite last_snoc. apply Forall_forall. intros x Hx. by apply list_elem_of_filter in Hx as [? _]. }
  assert (contents L r3 = recent (l ++ [now])) as Hc3'.
  { rewrite Hc3, Hc2. destruct Hall as [|x k Hx _]; [done |]. cbn. by rewrite (proj2 (Z.ltb_ge _ _)). }
  rewrite Hc3', (filter_kept _ _ Hall). destruct (T <? _) eqn:Et; bool_to_prop.
  - split; [| done]. split; [done |]. cbn. by apply recent_offends.
  - split; [| done]. split; [done |]. cbn. split; [| done]. intros [Ho|Ho]%offends_snoc; [done | lia].
Qed.

(** *** Runs *)

Definition heard (a : bytes) (calls : list (bytes * Z)) : list Z := (snd <$> filter (fun c => fst c = a) calls).
Definition senders (calls : list (bytes * Z)) : gset bytes := list_to_set (fst <$> calls).
Definition observe (m : NeighborMonitor) (calls : list (bytes * Z)) : NeighborMonitor :=
  foldl (fun m c => snd (record_and_check m (fst c) (snd c))) m calls.

Lemma heard_snoc a calls c : heard a (calls ++ [c]) = heard a calls ++ if decide (fst c = a) then [snd c] else [].
Proof. unfold heard. rewrite filter_app, fmap_app, filter_cons. by case_decide. Qed.

Lemma heard_sorted a calls : sorted (snd <$> calls) -> sorted (heard a calls).
Proof.
  intros Hs. unfold heard. induction calls as [|c calls IH]; [constructor |]. cbn in Hs. apply StronglySorted_inv in Hs as [Hs Hall].
  rewrite filter_cons. case_decide; [| by apply IH]. cbn. constructor; [by apply IH |]. apply Forall_forall. intros x Hx.
  apply list_elem_of_fmap in Hx as (y & -> & Hy). apply list_elem_of_filter in Hy as [_ Hy].
  eapply Forall_forall; [exact Hall |]. apply list_elem_of_fmap. by exists y.
Qed.

(** After any calls every tracked neighbour's log stands for all of its receipts. *)
Record monitor_ok (T : Z) (calls : list (bytes * Z)) (m : NeighborMonitor) : Prop := {
  mo_threshold : threshold m = T;
  mo_size : length (vec_items (neighbors m)) = size (senders calls);
  mo_known a : a ∈ senders calls <-> is_Some (get_log m a);
  mo_logs a g : get_log m a = Some g -> log_ok T (heard a calls) g
}.

Lemma heard_none a calls : a ∉ senders calls -> heard a calls = [].
Proof.
  unfold senders, heard. rewrite elem_of_list_to_set. intros Ha. induction calls as [|c calls IH]; [done |].
  rewrite filter_cons, decide_False; [apply IH; set_solver | intros E; apply Ha; cbn; rewrite E; by left].
Qed.

Lemma observe_step_ok T calls m a now : 0 <= T < Z.of_nat L -> 0 <= now -> sorted (snd <$> calls ++ [(a, now)]) ->
  (size (senders (calls ++ [(a, now)])) <= N)%nat -> monitor_ok T calls m ->
  let '(b, m') := record_and_check m a now in
  monitor_ok T (calls ++ [(a, now)]) m' /\ b = is_cheater m' a.
Proof.
  intros HT Hnow Hs Hsize [Ht Hl Hk Hlogs].
  assert (senders (calls ++ [(a, now)]) = senders calls ∪ {[a]}) as Hsend.
  { unfold senders. rewrite fmap_app, list_to_set_app_L. cbn. set_solver. }
  assert (is_Some (get_log m a) \/ (length (vec_items (neighbors m)) < N)%nat) as Hroom.
  { destruct (decide (a ∈ senders calls)) as [Ha|Ha]; [left; by apply Hk | right].
    rewrite Hsend, size_union, size_singleton in Hsize by set_solver. lia. }
  pose proof (record_and_check_log m a now Hroom) as Hrc. cbn zeta in Hrc. set (g := default (log_new a) (get_log m a)) in *.
  destruct (record_and_check m a now) as [b m']. destruct Hrc as (Hb & Ht' & Hl' & Hg'). rewrite Ht in *.
  assert (log_ok T (heard a calls) g) as Hg.
  { subst g. destruct (get_log m a) as [x|] eqn:Eg; cbn; [by apply Hlogs |]. rewrite heard_none by (rewrite Hk; by intros [? ?]; congruence).
    split; [apply ring_new_ok |]. cbn. split; [| done]. intros (p & t & Hp & _). apply prefix_nil_inv in Hp. by destruct p. }
  assert (sorted (heard a calls ++ [now])) as Hsa.
  { pose proof (heard_sorted a _ Hs) as Hh. by rewrite heard_snoc, decide_True in Hh. }
  pose proof (log_step_ok T (heard a calls) g now HT Hnow Hsa Hg) as Hstep. destruct (log_step T g now) as [b' g'] eqn:Els. cbn [fst snd] in *.
  destruct Hstep as [Hok ->]. subst b. split.
  - split; [done | | |].
    + rewrite Hl', Hl, Hsend. unfold fresh. destruct (get_log m a) eqn:Eg.
      * assert (a ∈ senders calls) by (apply Hk; by rewrite Eg). replace (senders calls ∪ {[a]}) with (senders calls) by set_solver. lia.
      * assert (a ∉ senders calls) by (rewrite Hk, Eg; by intros [? ?]). rewrite size_union, size_singleton by set_solver. done.
    + intros a'. rewrite Hsend, elem_of_union, Hk, Hg'. case_decide as E; [subst; set_solver |]. set_solver.
    + intros a' x. rewrite Hg', heard_snoc. cbn [fst snd]. case_decide as E; [intros [= <-]; subst; by rewrite decide_True |].
      intros Hx. rewrite decide_False by congruence. rewrite app_nil_r. by apply Hlogs.
  - unfold is_cheater. by rewrite Hg', decide_True.
Qed.

Lemma observe_ok T calls : 0 <= T < Z.of_nat L -> Forall (fun c => 0 <= snd c) calls -> sorted (snd <$> calls) ->
  (size (senders calls) <= N)%nat -> monitor_ok T calls (observe (with_threshold T) calls).
Proof.
  intros HT. induction calls as [|[a now] calls IH] using rev_ind; intros Hpos Hs Hn.
  - split; cbn; [done | by rewrite vec_items_new | | ].
    + intros a. unfold get_log. cbn. rewrite vec_items_new. split; [set_solver | by intros [? ?]].
    + intros a g. unfold get_log. cbn. by rewrite vec_items_new.
  - unfold observe in *. rewrite foldl_app. cbn [foldl fst snd]. apply Forall_app in Hpos as [Hpos Hp1]. apply Forall_cons in Hp1 as [Hp1 _]. cbn in Hp1.
    assert (monitor_ok T calls (foldl (fun m c => snd (record_and_check m (fst c) (snd c))) (with_threshold T) calls)) as Hok.
    { apply IH; [done | |].
      - rewrite fmap_app in Hs. by apply sorted_snoc in Hs as [? _].
      - etrans; [| exact Hn]. apply subseteq_size. unfold senders. rewrite fmap_app, list_to_set_app_L. set_solver. }
    pose proof (observe_step_ok T calls _ a now HT Hp1 Hs Hn Hok) as Hstep. by destruct (record_and_check _ a now) as [b m'], Hstep as [? _].
Qed.

(** C36: neighbours that exceed the allowed rate are detected exactly.  Let the
    threshold be below the length of the logs and no more neighbours be heard
    than the table holds, with a clock that does not go back.  Then the answer to
    a receipt is [true] if and only if at this or an earlier receipt from the same
    neighbour more packets than the threshold had been heard from it within one
    hour, counting every packet ever heard; and the neighbours flagged are the
    ones for which that was so. *)
Theorem cheaters_detected_exactly (T : Z) (calls : list (bytes * Z)) (a : bytes) (now : Z) :
  0 <= T < Z.of_nat L -> Forall (fun c => 0 <= snd c) (calls ++ [(a, now)]) -> sorted (snd <$> calls ++ [(a, now)]) ->
  (size (senders (calls ++ [(a, now)])) <= N)%nat ->
  let '(b, m') := record_and_check (observe (with_threshold T) calls) a now in
  (b = true <-> offends T (heard a calls ++ [now])) /\
  forall a', is_cheater m' a' = true <-> offends T (heard a' (calls ++ [(a, now)])).
Proof.
  intros HT Hpos Hs Hn. apply Forall_app in Hpos as [Hpos Hp1]. apply Forall_cons in Hp1 as [Hp1 _]. cbn in Hp1.
  assert (monitor_ok T calls (observe (with_threshold T) calls)) as Hok.
  { apply observe_ok; [done | done | |].
    - rewrite fmap_app in Hs. by apply sorted_snoc in Hs as [? _].
    - etrans; [| exact Hn]. apply subseteq_size. unfold senders. rewrite fmap_app, list_to_set_app_L. clear. set_solver. }
  pose proof (observe_step_ok T calls _ a now HT Hp1 Hs Hn Hok) as Hstep. destruct (record_and_check _ a now) as [b m'], Hstep as [Hok' ->].
  assert (forall a', is_cheater m' a' = true <-> offends T (heard a' (calls ++ [(a, now)]))) as Hall.
  { intros a'. unfold is_cheater. destruct (get_log m' a') as [g|] eqn:Eg.
    - destruct (mo_logs _ _ _ Hok' a' g Eg) as [_ Hg]. destruct (flagged g); [done |]. destruct Hg as [Hg _]. done.
    - rewrite heard_none by (rewrite (mo_known _ _ _ Hok'), Eg; by intros [? ?]). split; [done |].
      intros (p & t & Hp & _). apply prefix_nil_inv in Hp. by destruct p. }
  split; [| exact Hall]. rewrite Hall, heard_snoc, decide_True by done. done.
Qed.

(** With a threshold that reaches the length of a log nobody is ever found to
    exceed it, however much is heard. *)
Lemma short_log_never_over m a now : Z.of_nat L <= threshold m ->
  (forall g, get_log m a = Some g -> ring_ok L (timestamps g)) -> fst (check_neighbor_duty m a now) = false.
Proof.
  intros HT Hok. unfold check_neighbor_duty, get_log_mut. pose proof (find_lookup (vec_items (neighbors m)) a) as Hl.
  change (lookup_log (vec_items (neighbors m)) a) with (get_log m a) in Hl. destruct (list_find _ _) as [[i g]|]; [| done].
  destruct Hl as (Hg & _). cbn [fst]. apply Z.ltb_ge. etrans; [| exact HT]. unfold log_packet_count, evict_stale. cbn [timestamps with_timestamps].
  destruct (ring_drain_spec L (timestamps g) (window_start now) (Hok g Hg)) as [Hr _]. rewrite count_since_spec by done.
  apply Nat2Z.inj_le. etrans; [apply length_filter |]. unfold contents. rewrite length_window. apply Hr.
Qed.

End monitor.

(** ** On lists *)

Import HeaplessList.
#[export] Instance list_vec_ops : HeaplessVecOps := {|
  vec_set _ _ i x v := <[i := x]> v;
  vec_swap_remove _ _ i v := swap_removed i v;
  vec_clear _ _ _ := []
|}.
#[export] Instance list_vec_laws : HeaplessVecLaws.
Proof. by split. Qed.

(** Two packets an hour are allowed; the third within the hour is found, although
    another neighbour was heard in between. *)
Lemma cheaters_detected_exactly_witness :
  let calls := [([1], 0); ([2], 100); ([1], 1000)] in
  let '(b, m') := record_and_check (N := 2) (L := 4) (observe (L := 4) (with_threshold 2) calls) [1] 3600000 in
  (b = true <-> offends 2 (heard [1] calls ++ [3600000])) /\
  forall a', is_cheater m' a' = true <-> offends 2 (heard a' (calls ++ [([1], 3600000)])).
Proof.
  apply (cheaters_detected_exactly (N := 2) (L := 4) 2 [([1], 0); ([2], 100); ([1], 1000)] [1] 3600000).
  - split; [lia | done].
  - repeat (constructor; [done |]). constructor.
  - repeat (constructor; [| repeat (constructor; [done |]); constructor]). constructor.
  - vm_compute. lia.
Defined.

Example third_packet_is_found :
  fst (record_and_check (N := 2) (L := 4) (observe (L := 4) (with_threshold 2) [([1], 0); ([2], 100); ([1], 1000)]) [1] 3600000) = true /\
  fst (record_and_check (N := 2) (L := 4) (observe (L := 4) (with_threshold 2) [([1], 0); ([2], 100); ([1], 1000)]) [1] 3600001) = false.
Proof. split; vm_compute; reflexivity. Qed.

End Monitor.
