(* ===== verification/RadioPlan.v ===== *)
(** * Spreading factors, airtime and the pulse-per-second clock

    sf_assignment.rs and airtime.rs of lichen-core/src, and pps.rs of
    lichen-rpl/src: which spreading factor a node uses and how a gateway spreads
    its nodes over them, how long a packet is on the air, and how a captured
    pulse is given its second. *)

From S2P Require Import Prelude Tdma.
Open Scope Z_scope.

(** ** Spreading factors (sf_assignment.rs) *)
Module SfAssign.
Import Hop.

Definition DIO_OPTION_ASSIGNED_SF : Z := 0x14.
Inductive InvalidSpreadingFactor := InvalidSf (sf : Z).

Definition assigned_sf_hash_based (iid : bytes) : Z := let h := lichen_hash_32 iid in 7 + wrap8 (h mod 6).

Record SfAssignmentState := { assigned_sf_dio : option Z; joined : bool }.
Definition state_new : SfAssignmentState := {| assigned_sf_dio := None; joined := false |}.
Definition is_valid_sf (sf : Z) : bool := (7 <=? sf) && (sf <=? 12).
Definition must_receive_all_sf (sf : Z) : bool := is_valid_sf sf.

Definition effective_sf (s : SfAssignmentState) (iid : bytes) : Z :=
  let unassigned := if negb (joined s) then 10 else assigned_sf_hash_based iid in
  match assigned_sf_dio s with
  | Some sf => if (7 <=? sf) && (sf <=? 12) then sf else unassigned
  | None => unassigned
  end.
Definition set_assigned_sf (s : SfAssignmentState) (sf : Z) : result InvalidSpreadingFactor unit * SfAssignmentState :=
  if negb (is_valid_sf sf) then (Err (InvalidSf sf), s)
  else (Ok tt, {| assigned_sf_dio := Some sf; joined := joined s |}).
Definition set_joined (s : SfAssignmentState) : SfAssignmentState := {| assigned_sf_dio := assigned_sf_dio s; joined := true |}.

(** One step of the scan: the best spreading factor and its load, and the index. *)
Definition better (acc : Z * Z * Z) (load : Z) : Z * Z * Z :=
  let '(best_sf, best_load, i) := acc in
  if load <? best_load then (7 + wrap8 i, load, i + 1) else (best_sf, best_load, i + 1).
(** [load_by_sf] has six entries. *)
Definition gateway_assigned_sf (load_by_sf : list Z) : Z :=
  fst (fst (foldl better (7, nth 0 load_by_sf 0, 1) (drop 1 load_by_sf))).

Definition make_assigned_sf_option (sf : Z) : result InvalidSpreadingFactor bytes :=
  if negb (is_valid_sf sf) then Err (InvalidSf sf) else Ok [DIO_OPTION_ASSIGNED_SF; 1; sf].
Definition parse_assigned_sf_option (data : bytes) : option Z :=
  if (length data <? 3)%nat then None
  else if negb (nth 0 data 0 =? DIO_OPTION_ASSIGNED_SF) then None
  else if negb (nth 1 data 0 =? 1) then None
  else let sf := nth 2 data 0 in if is_valid_sf sf then Some sf else None.

(** A gateway's nodes, one set per spreading factor from 7 to 12. *)
Record GatewaySfTracker := { nodes_by_sf : list (gset bytes) }.
Definition tracker_new : GatewaySfTracker := {| nodes_by_sf := replicate 6 ∅ |}.
Definition remove_node (t : GatewaySfTracker) (iid : bytes) : GatewaySfTracker :=
  {| nodes_by_sf := (fun set => set ∖ {[iid]}) <$> nodes_by_sf t |}.
(** [None]: the assertion on the spreading factor fails. *)
Definition register_node (t : GatewaySfTracker) (iid : bytes) (sf : Z) : option GatewaySfTracker :=
  if negb (is_valid_sf sf) then None
  else
    let t := remove_node t iid in
    Some {| nodes_by_sf := alter (fun set => {[iid]} ∪ set) (Z.to_nat (sf - 7)) (nodes_by_sf t) |}.
Definition unregister_node (t : GatewaySfTracker) (iid : bytes) : GatewaySfTracker := remove_node t iid.
Definition load_by_sf (t : GatewaySfTracker) : list Z := (fun set => wrap32 (Z.of_nat (size set))) <$> nodes_by_sf t.
Definition assign_sf (t : GatewaySfTracker) (iid : bytes) : option (Z * GatewaySfTracker) :=
  let sf := gateway_assigned_sf (load_by_sf t) in
  t ← register_node t iid sf; Some (sf, t).
Definition node_count (t : GatewaySfTracker) : nat := sum_list (size <$> nodes_by_sf t).

(** *** A node's choice *)

Lemma is_valid_sf_spec sf : is_valid_sf sf = true <-> 7 <= sf <= 12.
Proof. unfold is_valid_sf. rewrite andb_true_iff, !Z.leb_le. done. Qed.

Lemma hash_based_range iid : 7 <= assigned_sf_hash_based iid <= 12.
Proof.
  unfold assigned_sf_hash_based. pose proof (Z.mod_pos_bound (lichen_hash_32 iid) 6 ltac:(done)). unfold wrap8. rewrite Z.mod_small by lia. lia.
Qed.

(** Whatever is assigned, the spreading factor used is one that exists; a valid
    assignment is followed, and before joining everyone uses 10. *)
Lemma effective_sf_range s iid : 7 <= effective_sf s iid <= 12 /\
  (forall sf, fst (set_assigned_sf s sf) = Ok tt -> effective_sf (snd (set_assigned_sf s sf)) iid = sf) /\
  effective_sf state_new iid = 10.
Proof.
  split; [| split; [| done]].
  - assert (7 <= (if negb (joined s) then 10 else assigned_sf_hash_based iid) <= 12) as Hu by (destruct (joined s); cbn; [apply hash_based_range | lia]).
    unfold effective_sf. destruct (assigned_sf_dio s) as [sf|]; [| done]. destruct (_ && _) eqn:E; [| done]. by apply is_valid_sf_spec in E.
  - intros sf. unfold set_assigned_sf. destruct (is_valid_sf sf) eqn:E; cbn; [| done]. intros _. unfold effective_sf. cbn. unfold is_valid_sf in E. by rewrite E.
Qed.

Lemma sf_option_roundtrip sf rest : is_valid_sf sf = true ->
  exists o, make_assigned_sf_option sf = Ok o /\ parse_assigned_sf_option (o ++ rest) = Some sf.
Proof. intros Hv. unfold make_assigned_sf_option. rewrite Hv. eexists. split; [done |]. unfold parse_assigned_sf_option. cbn. by rewrite Hv. Qed.

(** *** The gateway's choice *)

Lemma better_spec (l : list Z) : forall best bl i,
  let '(sf, load, _) := foldl better (best, bl, i) l in
  (sf = best /\ load = bl /\ Forall (fun y => bl <= y) l) \/
  exists k, l !! k = Some load /\ sf = 7 + wrap8 (i + Z.of_nat k) /\ load < bl /\
    forall j y, l !! j = Some y -> load <= y /\ ((j < k)%nat -> load < y).
Proof.
  induction l as [|x l IH]; intros best bl i; cbn [foldl]; [left; by split_and! |]. unfold better at 2. destruct (x <? bl) eqn:E; bool_to_prop.
  - specialize (IH (7 + wrap8 i) x (i + 1)). destruct (foldl _ _ _) as [[sf load] i']. right. destruct IH as [(-> & -> & Hall)|(k & Hk & -> & Hlt & Hmin)].
    + exists 0%nat. rewrite Z.add_0_r. split_and!; [done | done | done |]. intros [|j] y Hy; cbn in Hy; [simplify_eq; lia |].
      split; [by eapply Forall_lookup in Hy; [| exact Hall] | lia].
    + exists (S k). split_and!; [done | do 2 f_equal; lia | lia |]. intros [|j] y Hy; cbn in Hy; [simplify_eq; lia |].
      destruct (Hmin j y Hy) as [H1 H2]. split; [done | intros; apply H2; lia].
  - specialize (IH best bl (i + 1)). destruct (foldl _ _ _) as [[sf load] i']. destruct IH as [(-> & -> & Hall)|(k & Hk & -> & Hlt & Hmin)].
    + left. split_and!; [done | done |]. by constructor.
    + right. exists (S k). split_and!; [done | do 2 f_equal; lia | lia |]. intros [|j] y Hy; cbn in Hy; [simplify_eq; lia |].
      destruct (Hmin j y Hy) as [H1 H2]. split; [done | intros; apply H2; lia].
Qed.

(** The scan finds the first least load. *)
Lemma gateway_assigned_least l : length l = 6%nat ->
  exists i x, (i < 6)%nat /\ gateway_assigned_sf l = 7 + Z.of_nat i /\ l !! i = Some x /\
    forall j y, l !! j = Some y -> x <= y /\ ((j < i)%nat -> x < y).
Proof.
  intros Hl. destruct l as [|x l]; [done |]. unfold gateway_assigned_sf. cbn [nth drop]. rewrite drop_0.
  pose proof (better_spec l 7 x 1) as Hs. destruct (foldl better _ l) as [[sf load] n]. cbn [fst]. destruct Hs as [(-> & -> & Hall)|(k & Hk & -> & Hlt & Hmin)].
  - exists 0%nat, x. split_and!; [lia | done | done |]. intros [|j] y Hy; cbn in Hy; [simplify_eq; lia |].
    split; [by eapply Forall_lookup in Hy; [| exact Hall] | lia].
  - pose proof (lookup_lt_Some _ _ _ Hk). cbn in Hl. exists (S k), load. split_and!; [lia | | done |].
    + unfold wrap8. rewrite Z.mod_small by lia. lia.
    + intros [|j] y Hy; cbn in Hy; [simplify_eq; lia |]. destruct (Hmin j y Hy) as [H1 H2]. split; [done | intros; apply H2; lia].
Qed.

Definition tracker_ok (t : GatewaySfTracker) : Prop :=
  length (nodes_by_sf t) = 6%nat /\
  forall i j s1 s2, nodes_by_sf t !! i = Some s1 -> nodes_by_sf t !! j = Some s2 -> i <> j -> s1 ## s2.
Definition tracked (t : GatewaySfTracker) (iid : bytes) : Prop := exists s, s ∈ nodes_by_sf t /\ iid ∈ s.

Lemma remove_node_ok t iid : tracker_ok t -> tracker_ok (remove_node t iid) /\ ~ tracked (remove_node t iid) iid.
Proof.
  intros [Hl Hd]. split; [split |].
  - cbn. by rewrite length_fmap.
  - intros i j s1 s2 Hi Hj Hne. cbn in Hi, Hj. rewrite list_lookup_fmap in Hi, Hj.
    destruct (nodes_by_sf t !! i) as [a|] eqn:Ei, (nodes_by_sf t !! j) as [b|] eqn:Ej; cbn in *; simplify_eq.
    specialize (Hd i j a b Ei Ej Hne). clear -Hd. set_solver.
  - intros (s & Hs & Hin). cbn in Hs. apply list_elem_of_fmap in Hs as (x & -> & _). clear -Hin. set_solver.
Qed.

(** A node is registered under one spreading factor at a time. *)
Lemma register_node_ok t iid sf : tracker_ok t -> is_valid_sf sf = true ->
  exists t', register_node t iid sf = Some t' /\ tracker_ok t' /\
    forall i s, nodes_by_sf t' !! i = Some s -> (iid ∈ s <-> Z.of_nat i = sf - 7).
Proof.
  intros Hok Hv. unfold register_node. rewrite Hv. cbn [negb]. eexists. split; [done |]. apply is_valid_sf_spec in Hv.
  destruct (remove_node_ok t iid Hok) as [[Hl Hd] Hn]. set (l := nodes_by_sf (remove_node t iid)) in *. cbn [nodes_by_sf].
  assert (forall i s, alter (fun set => {[iid]} ∪ set) (Z.to_nat (sf - 7)) l !! i = Some s -> exists s0, l !! i = Some s0 /\
    s = if decide (i = Z.to_nat (sf - 7)) then {[iid]} ∪ s0 else s0) as Halt.
  { intros i s. destruct (decide (i = Z.to_nat (sf - 7))) as [-> |Hne].
    - rewrite list_lookup_alter_eq. destruct (l !! _) as [s0|]; cbn; [| done]. intros [= <-]. by exists s0.
    - rewrite list_lookup_alter_ne by congruence. intros Hs. by exists s. }
  assert (forall i s0, l !! i = Some s0 -> iid ∉ s0) as Hnot.
  { intros i s0 Hs0 Hin. apply Hn. exists s0. split; [by eapply list_elem_of_lookup_2 | done]. }
  split; [split |].
  - cbn. by rewrite length_alter.
  - intros i j s1 s2 Hi Hj Hne. apply Halt in Hi as (a & Ha & ->), Hj as (b & Hb & ->). pose proof (Hd i j a b Ha Hb Hne) as Hab.
    pose proof (Hnot i a Ha). pose proof (Hnot j b Hb). repeat case_decide; subst; try done; clear -Hab H H0; set_solver.
  - intros i s Hs. apply Halt in Hs as (s0 & Hs0 & ->). pose proof (Hnot i s0 Hs0). case_decide as E.
    + subst i. split; [intros _; lia | intros _; clear; set_solver].
    + split; [done | intros E2; destruct E; lia].
Qed.

Definition balanced (t : GatewaySfTracker) : Prop :=
  forall i j s1 s2, nodes_by_sf t !! i = Some s1 -> nodes_by_sf t !! j = Some s2 -> (size s1 <= size s2 + 1)%nat.

Lemma remove_untracked t iid : ~ tracked t iid -> remove_node t iid = t.
Proof.
  intros Hn. destruct t as [l]. unfold remove_node. cbn. f_equal. assert (forall s, s ∈ l -> iid ∉ s) as H by (intros s Hs Hi; apply Hn; by exists s). clear Hn.
  induction l as [|s l IH]; [done |]. cbn. rewrite IH by (intros; apply H; by right). f_equal. pose proof (H s ltac:(by left)). set_solver.
Qed.

(** A new node goes where the load is least, so the loads stay within one of each
    other, and the others keep their spreading factors. *)
Lemma assign_sf_balanced t iid : tracker_ok t -> balanced t -> ~ tracked t iid ->
  (forall s, s ∈ nodes_by_sf t -> Z.of_nat (size s) <= u32_max) ->
  exists sf t', assign_sf t iid = Some (sf, t') /\ 7 <= sf <= 12 /\ tracker_ok t' /\ balanced t' /\
    (forall x, tracked t' x <-> x = iid \/ tracked t x) /\
    forall i s, nodes_by_sf t !! i = Some s -> exists s', nodes_by_sf t' !! i = Some s' /\ s ⊆ s' /\ (size s' <= size s + 1)%nat.
Proof.
  intros Hok Hb Hn Hsz. destruct (gateway_assigned_least (load_by_sf t)) as (i & x & Hi & Hsf & Hx & Hmin).
  { unfold load_by_sf. rewrite length_fmap. apply Hok. }
  unfold assign_sf. rewrite Hsf. destruct (register_node_ok t iid (7 + Z.of_nat i) Hok) as (t' & Hr & Hok' & _); [apply is_valid_sf_spec; lia |].
  rewrite Hr. exists (7 + Z.of_nat i), t'. cbn. split; [done |]. split; [lia |]. split; [done |].
  assert (nodes_by_sf t' = alter (fun set => {[iid]} ∪ set) i (nodes_by_sf t)) as Hl.
  { unfold register_node in Hr. destruct (negb _); [done |]. rewrite remove_untracked in Hr by done. apply (inj Some) in Hr. rewrite <- Hr. cbn [nodes_by_sf]. f_equal. lia. }
  assert (forall j s, nodes_by_sf t !! j = Some s -> load_by_sf t !! j = Some (Z.of_nat (size s))) as Hload.
  { intros j s Hj. unfold load_by_sf. rewrite list_lookup_fmap, Hj. cbn. f_equal. unfold wrap32. apply Z.mod_small.
    pose proof (Hsz s ltac:(by eapply list_elem_of_lookup_2)). unfold u32_max in *. lia. }
  assert (forall s, s ∈ nodes_by_sf t -> iid ∉ s) as Hni by (intros s Hs Hin; apply Hn; by exists s).
  assert (forall j s', nodes_by_sf t' !! j = Some s' -> exists s, nodes_by_sf t !! j = Some s /\ s' = (if decide (j = i) then {[iid]} ∪ s else s) /\
    size s' = (size s + if decide (j = i) then 1 else 0)%nat) as Hback.
  { intros j s'. rewrite Hl. destruct (decide (j = i)) as [-> |Hne].
    - rewrite list_lookup_alter_eq. destruct (nodes_by_sf t !! i) as [s|] eqn:Es; cbn; [| done]. intros [= <-]. exists s. split; [done |].
      split; [done |]. rewrite size_union, size_singleton by (pose proof (Hni s ltac:(by eapply list_elem_of_lookup_2)); set_solver). lia.
    - rewrite list_lookup_alter_ne by congruence. intros Hj. exists s'. split_and!; [done | done | lia]. }
  split; [| split].
  - intros j k s1 s2 Hj Hk. apply Hback in Hj as (a & Ha & _ & ->), Hk as (b & Hb2 & _ & ->). pose proof (Hb j k a b Ha Hb2).
    destruct (decide (j = i)) as [-> |]; [| lia]. destruct (Hmin k _ (Hload k b Hb2)) as [Hle _]. rewrite (Hload i a Ha) in Hx. injection Hx as <-. lia.
  - intros y. split.
    + intros (s' & Hs' & Hy). apply list_elem_of_lookup in Hs' as [j Hj]. apply Hback in Hj as (s & Hj & -> & _).
      apply list_elem_of_lookup_2 in Hj. destruct (decide (j = i)); [apply elem_of_union in Hy as [Hy%elem_of_singleton|Hy]; [by left |] |]; right; by exists s.
    + assert (i < length (nodes_by_sf t))%nat as Hlt by (destruct Hok as [-> _]; lia). destruct (lookup_lt_is_Some_2 _ _ Hlt) as [si Hsi].
      intros [-> |(s & Hs & Hy)].
      * exists ({[iid]} ∪ si). split; [| set_solver]. rewrite Hl. eapply list_elem_of_lookup_2. rewrite list_lookup_alter_eq, Hsi. done.
      * apply list_elem_of_lookup in Hs as [j Hj]. destruct (decide (j = i)) as [-> |Hne].
        -- exists ({[iid]} ∪ s). split; [| set_solver]. rewrite Hl. eapply list_elem_of_lookup_2. rewrite list_lookup_alter_eq, Hj. done.
        -- exists s. split; [| done]. rewrite Hl. eapply list_elem_of_lookup_2. by rewrite list_lookup_alter_ne.
  - intros j s Hj. assert (exists s', nodes_by_sf t' !! j = Some s') as [s' Hs'].
    { apply lookup_lt_is_Some_2. rewrite Hl, length_alter. by eapply lookup_lt_Some. }
    exists s'. split; [done |]. apply Hback in Hs' as (s0 & Hs0 & -> & ->). assert (s0 = s) as -> by congruence.
    split; [destruct (decide (j = i)); set_solver | destruct (decide (j = i)); lia].
Qed.

(** Nodes assigned one after the other. *)
Fixpoint assign_all (t : GatewaySfTracker) (l : list bytes) : option GatewaySfTracker :=
  match l with [] => Some t | iid :: l => '(_, t) ← assign_sf t iid; assign_all t l end.

(** However many different nodes a gateway assigns, the numbers of nodes on any
    two spreading factors differ by at most one. *)
Lemma assignments_balanced l : NoDup l -> Z.of_nat (length l) <= u32_max ->
  exists t, assign_all tracker_new l = Some t /\ tracker_ok t /\ balanced t /\ forall x, tracked t x <-> x ∈ l.
Proof.
  intros Hnd Hlen.
  assert (forall l t done, NoDup l -> (forall x, x ∈ l -> ~ tracked t x) -> tracker_ok t -> balanced t ->
    (forall s, s ∈ nodes_by_sf t -> (size s <= done)%nat) -> Z.of_nat (done + length l) <= u32_max ->
    exists t', assign_all t l = Some t' /\ tracker_ok t' /\ balanced t' /\ forall x, tracked t' x <-> x ∈ l \/ tracked t x) as H.
  { clear. induction l as [|iid l IH]; intros t done Hnd Hnew Hok Hb Hsz Hlen.
    - exists t. split; [done |]. split; [done |]. split; [done |]. intros x. split; [by right | by intros [?%not_elem_of_nil|?]].
    - apply NoDup_cons in Hnd as [Hni Hnd]. cbn [length] in Hlen.
      destruct (assign_sf_balanced t iid Hok Hb) as (sf & t1 & Ha & _ & Hok1 & Hb1 & Ht1 & Hs1).
      { apply Hnew. by left. }
      { intros s Hs. specialize (Hsz s Hs). lia. }
      destruct (IH t1 (S done) Hnd) as (t' & Ha' & Hok' & Hb' & Ht').
      + intros x Hx. rewrite Ht1. intros [-> |Hx2]; [done |]. eapply Hnew; [by right | done].
      + done.
      + done.
      + intros s Hs. apply list_elem_of_lookup in Hs as [j Hj].
        assert (exists s0, nodes_by_sf t !! j = Some s0) as [s0 Hs0].
        { apply lookup_lt_is_Some_2. destruct Hok as [-> _]. destruct Hok1 as [<- _]. by eapply lookup_lt_Some. }
        destruct (Hs1 j s0 Hs0) as (s' & Hs' & _ & Hle). rewrite Hj in Hs'. injection Hs' as <-.
        specialize (Hsz s0 ltac:(by eapply list_elem_of_lookup_2)). lia.
      + lia.
      + exists t'. split; [cbn [assign_all]; by rewrite Ha |]. split; [done |]. split; [done |]. intros x. rewrite Ht', Ht1, elem_of_cons. tauto. }
  destruct (H l tracker_new 0%nat) as (t & Ha & Hok & Hb & Ht); [done | | | | | done |].
  - intros x _ (s & Hs & Hx). apply elem_of_replicate in Hs as [-> _]. set_solver.
  - split; [done |]. intros i j s1 s2 Hi _ _. apply lookup_replicate in Hi as [-> _]. set_solver.
  - intros i j s1 s2 Hi Hj. apply lookup_replicate in Hi as [-> _], Hj as [-> _]. lia.
  - intros s Hs. apply elem_of_replicate in Hs as [-> _]. by rewrite size_empty.
  - exists t. split; [done |]. split; [done |]. split; [done |]. intros x. rewrite Ht. split; [| by left]. intros [?|(s & Hs & Hx)]; [done |].
    apply elem_of_replicate in Hs as [-> _]. set_solver.
Qed.

End SfAssign.

(** ** Airtime (airtime.rs)

    The source computes in [u32], [i32] and [u64]; for a valid configuration no
    intermediate value leaves its type ([airtime_fits]). *)
Module Airtime.

Definition DEFAULT_SPREADING_FACTOR : Z := 10.
Definition DEFAULT_BANDWIDTH_HZ : Z := 125000.
Definition DEFAULT_CODING_RATE : Z := 5.
Definition DEFAULT_PREAMBLE_SYMBOLS : Z := 8.
Definition SUPPORTED_BANDWIDTHS_HZ : list Z := [7800; 10400; 15600; 20800; 31250; 41700; 62500; 125000; 250000; 500000].
Definition MIN_PREAMBLE_SYMBOLS : Z := 6.

Inductive AirtimeError :=
  | InvalidPayloadLength (length : Z)
  | InvalidSpreadingFactor (sf : Z)
  | Sf6RequiresImplicitHeader
  | InvalidBandwidth (bandwidth : Z)
  | InvalidCodingRate (coding_rate : Z)
  | InvalidPreamble (preamble : Z).

Record AirtimeConfig := {
  spreading_factor : Z;
  bandwidth_hz : Z;
  coding_rate : Z;
  preamble_symbols : Z;
  crc_enabled : bool;
  implicit_header : bool;
  low_data_rate_optimization : option bool
}.
Definition config_default : AirtimeConfig := {|
  spreading_factor := DEFAULT_SPREADING_FACTOR; bandwidth_hz := DEFAULT_BANDWIDTH_HZ; coding_rate := DEFAULT_CODING_RATE;
  preamble_symbols := DEFAULT_PREAMBLE_SYMBOLS; crc_enabled := true; implicit_header := false; low_data_rate_optimization := None
|}.

Definition low_data_rate_optimization_enabled (c : AirtimeConfig) : bool :=
  match low_data_rate_optimization c with
  | Some enabled => enabled
  | None => 16 * bandwidth_hz c <=? Z.shiftl 1 (spreading_factor c) * 1000
  end.

Definition validate (c : AirtimeConfig) (payload_len : Z) : result AirtimeError unit :=
  if 255 <? payload_len then Err (InvalidPayloadLength payload_len)
  else if (spreading_factor c <? 6) || (12 <? spreading_factor c) then Err (InvalidSpreadingFactor (spreading_factor c))
  else if (spreading_factor c =? 6) && negb (implicit_header c) then Err Sf6RequiresImplicitHeader
  else if negb (bool_decide (bandwidth_hz c ∈ SUPPORTED_BANDWIDTHS_HZ)) then Err (InvalidBandwidth (bandwidth_hz c))
  else if (coding_rate c <? 5) || (8 <? coding_rate c) then Err (InvalidCodingRate (coding_rate c))
  else if preamble_symbols c <? MIN_PREAMBLE_SYMBOLS then Err (InvalidPreamble (preamble_symbols c))
  else Ok tt.

Definition airtime_us_with_config (payload_len : Z) (c : AirtimeConfig) : result AirtimeError Z :=
  match validate c payload_len with
  | Err e => Err e
  | Ok _ =>
      let sf := spreading_factor c in
      let de := Z.b2z (low_data_rate_optimization_enabled c) in
      let ih := Z.b2z (implicit_header c) in
      let crc := Z.b2z (crc_enabled c) in
      let payload_numerator := 8 * payload_len - 4 * sf + 28 + 16 * crc - 20 * ih in
      let payload_denominator := 4 * (sf - 2 * de) in
      let coded_blocks :=
        if payload_numerator <=? 0 then 0 else Z.quot (payload_numerator + payload_denominator - 1) payload_denominator in
      let payload_symbols := 8 + coded_blocks * coding_rate c in
      let quarter_symbols := 4 * preamble_symbols c + 17 + 4 * payload_symbols in
      let numerator := quarter_symbols * Z.shiftl 1 sf * 1000000 in
      let denominator := 4 * bandwidth_hz c in
      Ok (numerator / denominator)
  end.
Definition airtime_us (payload_len : Z) : result AirtimeError Z := airtime_us_with_config payload_len config_default.

(** What the modem supports. *)
Record valid (c : AirtimeConfig) (n : Z) : Prop := {
  v_len : n <= 255;
  v_sf : 6 <= spreading_factor c <= 12;
  v_sf6 : spreading_factor c = 6 -> implicit_header c = true;
  v_bw : bandwidth_hz c ∈ SUPPORTED_BANDWIDTHS_HZ;
  v_cr : 5 <= coding_rate c <= 8;
  v_preamble : 6 <= preamble_symbols c
}.

Lemma validate_exact c n : validate c n = Ok tt <-> valid c n.
Proof.
  unfold validate, MIN_PREAMBLE_SYMBOLS. split.
  - intros H. destruct (255 <? n) eqn:E1; [done |]. destruct (_ || _) eqn:E2; [done |]. destruct (_ && _) eqn:E3; [done |].
    destruct (bool_decide _) eqn:E4; cbn [negb] in H; [| done]. destruct ((coding_rate c <? 5) || _) eqn:E5; [done |]. destruct (preamble_symbols c <? 6) eqn:E6; [done |].
    apply orb_false_iff in E2 as [E2 E2'], E5 as [E5 E5']. apply bool_decide_eq_true in E4. bool_to_prop. split; try lia; [| done].
    intros E. rewrite E in E3. cbn in E3. by destruct (implicit_header c).
  - intros [H1 H2 H3 H4 H5 H6]. rewrite (proj2 (Z.ltb_ge _ _)), (proj2 (Z.ltb_ge _ 6)), (proj2 (Z.ltb_ge 12 _)) by lia. cbn [orb].
    assert (((spreading_factor c =? 6) && negb (implicit_header c)) = false) as ->.
    { destruct (spreading_factor c =? 6) eqn:E; bool_to_prop; [| done]. by rewrite H3. }
    rewrite bool_decide_true by done. cbn [negb]. rewrite (proj2 (Z.ltb_ge _ 5)), (proj2 (Z.ltb_ge 8 _)) by lia. cbn [orb].
    by rewrite (proj2 (Z.ltb_ge _ 6)) by lia.
Qed.

(** The symbols needed for [n] payload bytes, in quarters: the preamble and its
    suffix of 4.25 symbols, eight symbols, and the least number of coded blocks
    that hold the payload. *)
Definition needed (c : AirtimeConfig) (n : Z) : Z := 8 * n - 4 * spreading_factor c + 28 + 16 * Z.b2z (crc_enabled c) - 20 * Z.b2z (implicit_header c).
Definition per_block (c : AirtimeConfig) : Z := 4 * (spreading_factor c - 2 * Z.b2z (low_data_rate_optimization_enabled c)).
Definition least_blocks (c : AirtimeConfig) (n k : Z) : Prop := 0 <= k /\ needed c n <= k * per_block c /\ forall j, 0 <= j -> needed c n <= j * per_block c -> k <= j.
Definition quarters (c : AirtimeConfig) (k : Z) : Z := 4 * preamble_symbols c + 17 + 4 * (8 + k * coding_rate c).

Lemma bandwidth_bounds c n : valid c n -> 7800 <= bandwidth_hz c <= 500000.
Proof.
  intros [_ _ _ Hbw _ _]. unfold SUPPORTED_BANDWIDTHS_HZ in Hbw.
  repeat (apply elem_of_cons in Hbw as [-> |Hbw]; [lia |]). by apply not_elem_of_nil in Hbw.
Qed.
Lemma per_block_pos c n : valid c n -> 16 <= per_block c <= 48.
Proof. intros [_ H _ _ _ _]. unfold per_block. destruct (low_data_rate_optimization_enabled c); cbn; lia. Qed.

(** The result is the formula rounded down: the duration of that many quarter
    symbols of [2 ^ SF / BW] seconds each, in whole microseconds. *)
Lemma airtime_formula c n : valid c n -> exists k a, least_blocks c n k /\ airtime_us_with_config n c = Ok a /\
  a * (4 * bandwidth_hz c) <= quarters c k * 2 ^ spreading_factor c * 1000000 < (a + 1) * (4 * bandwidth_hz c).
Proof.
  intros Hv. pose proof (bandwidth_bounds c n Hv) as Hbw. pose proof (per_block_pos c n Hv) as Hpb. unfold airtime_us_with_config.
  rewrite (proj2 (validate_exact c n) Hv). cbn zeta. fold (needed c n) (per_block c). destruct Hv as [_ Hsf _ _ _ _].
  set (k := if needed c n <=? 0 then 0 else _). exists k. eexists. split; [| split; [reflexivity |]].
  - unfold least_blocks. subst k. destruct (needed c n <=? 0) eqn:E; bool_to_prop; [split_and!; [done | lia | by intros] |].
    rewrite Z.quot_div_nonneg by lia. set (p := per_block c) in *. set (m := needed c n) in *.
    pose proof (Z.div_mod (m + p - 1) p ltac:(lia)). pose proof (Z.mod_pos_bound (m + p - 1) p ltac:(lia)). split_and!.
    + apply Z.div_pos; lia.
    + nia.
    + intros j Hj Hm. apply Z.lt_succ_r. apply Z.div_lt_upper_bound; [lia |]. nia.
  - rewrite Z.shiftl_mul_pow2 by lia. rewrite Z.mul_1_l. fold (quarters c k). set (x := quarters c k * 2 ^ spreading_factor c * 1000000).
    pose proof (Z.div_mod x (4 * bandwidth_hz c) ltac:(lia)). pose proof (Z.mod_pos_bound x (4 * bandwidth_hz c) ltac:(lia)). nia.
Qed.

Lemma least_blocks_mono c n m k j : least_blocks c n k -> least_blocks c m j -> n <= m -> k <= j.
Proof. intros (_ & _ & Hk) (Hj & Hm & _) Hnm. apply Hk; [done |]. unfold needed in *. lia. Qed.

(** A longer payload is never shorter on the air. *)
Lemma airtime_monotone c n m a b : n <= m -> valid c m ->
  airtime_us_with_config n c = Ok a -> airtime_us_with_config m c = Ok b -> a <= b.
Proof.
  intros Hnm Hv Ha Hb. assert (valid c n) as Hvn by (destruct Hv; split; lia || done).
  destruct (airtime_formula c n Hvn) as (k & a' & Hk & Ea & Hfa), (airtime_formula c m Hv) as (j & b' & Hj & Eb & Hfb).
  rewrite Ha in Ea. rewrite Hb in Eb. injection Ea as <-. injection Eb as <-.
  pose proof (least_blocks_mono c n m k j Hk Hj Hnm) as Hkj. pose proof (bandwidth_bounds c m Hv) as Hbw. destruct Hv as [_ Hsf _ _ Hcr _].
  assert (quarters c k <= quarters c j) as Hq by (unfold quarters; nia).
  pose proof (Z.pow_pos_nonneg 2 (spreading_factor c) ltac:(lia) ltac:(lia)). nia.
Qed.

(** Nothing overflows: the sums fit [i32] and the product fits [u64]. *)
Lemma airtime_fits c n k : valid c n -> 0 <= n -> preamble_symbols c <= u16_max -> least_blocks c n k ->
  -2147483648 <= needed c n /\ needed c n + per_block c - 1 <= 2147483647 /\
  2 ^ spreading_factor c * 1000 <= u32_max /\ 16 * bandwidth_hz c <= u32_max /\
  0 <= quarters c k * 2 ^ spreading_factor c * 1000000 <= u64_max.
Proof.
  intros Hv Hn Hp Hk. pose proof (bandwidth_bounds c n Hv) as Hbw. pose proof (per_block_pos c n Hv) as Hpb. destruct Hv as [Hl Hsf _ _ Hcr Hpre].
  assert (-50 <= needed c n <= 2100) as Hne by (unfold needed; destruct (crc_enabled c), (implicit_header c); cbn; lia).
  assert (0 <= k <= 132) as Hkb.
  { destruct Hk as (H0 & _ & Hmin). split; [done |]. apply Hmin; [lia |]. nia. }
  assert (0 < 2 ^ spreading_factor c <= 4096) as H2.
  { split; [apply Z.pow_pos_nonneg; lia |]. change 4096 with (2 ^ 12). apply Z.pow_le_mono_r; lia. }
  unfold u16_max, u32_max, u64_max in *. assert (0 <= quarters c k <= 266647) as Hq by (unfold quarters; nia). split_and!; try lia; nia.
Qed.

End Airtime.

(** ** The pulse-per-second clock (lichen-rpl/src/pps.rs) *)
Module Pps.

Definition MICROS_PER_SECOND : Z := 1000000.
Inductive EdgeCapture := Captured | ReplacedUnassociated (previous_edge_ns : Z).
Record PpsAssociation := {
  edge_monotonic_ns : Z;
  message_monotonic_ns : Z;
  unix_second : Z;
  unix_time_us : Z;
  message_delay_ns : Z
}.
Inductive PpsError :=
  | ZeroBuildEpoch | BuildEpochOverflow | ZeroAssociationWindow
  | EdgeOutOfOrder (previous_ns received_ns : Z)
  | NoPendingEdge
  | MessageOutOfOrder (previous_ns received_ns : Z)
  | MessageBeforeEdge (edge_ns received_ns : Z)
  | StaleEdge (age_ns maximum_age_ns : Z)
  | GnssSecondBelowBuildEpoch (unix_second build_epoch_second : Z)
  | GnssSecondOutOfOrder (previous_second received_second : Z)
  | UnixTimeOverflow (unix_second : Z).

Record PpsAssociator := {
  firmware_build_epoch_s : Z;
  maximum_message_delay_ns : Z;
  last_edge_ns : option Z;
  pending_edge_ns : option Z;
  last_message_ns : option Z;
  last_gnss_second : option Z;
  last_association : option PpsAssociation
}.

Definition checked_mul (x y : Z) : option Z := if x * y <=? u64_max then Some (x * y) else None.

Definition new (epoch max_delay : Z) : result PpsError PpsAssociator :=
  if epoch =? 0 then Err ZeroBuildEpoch
  else match checked_mul epoch MICROS_PER_SECOND with
  | None => Err BuildEpochOverflow
  | Some _ =>
      if max_delay =? 0 then Err ZeroAssociationWindow
      else Ok {| firmware_build_epoch_s := epoch; maximum_message_delay_ns := max_delay; last_edge_ns := None;
                 pending_edge_ns := None; last_message_ns := None; last_gnss_second := None; last_association := None |}
  end.

Definition capture_edge (p : PpsAssociator) (edge : Z) : result PpsError EdgeCapture * PpsAssociator :=
  let capture :=
    (Ok match pending_edge_ns p with Some previous => ReplacedUnassociated previous | None => Captured end,
     {| firmware_build_epoch_s := firmware_build_epoch_s p; maximum_message_delay_ns := maximum_message_delay_ns p;
        last_edge_ns := Some edge; pending_edge_ns := Some edge; last_message_ns := last_message_ns p;
        last_gnss_second := last_gnss_second p; last_association := last_association p |}) in
  match last_edge_ns p with
  | Some previous => if edge <=? previous then (Err (EdgeOutOfOrder previous edge), p) else capture
  | None => capture
  end.

(** The association a message gives, before the state changes. *)
Definition association (p : PpsAssociator) (second message : Z) : result PpsError PpsAssociation :=
  edge ← ok_or (pending_edge_ns p) NoPendingEdge;
  _ ← match last_message_ns p with
      | Some previous => if message <=? previous then Err (MessageOutOfOrder previous message) else Ok tt
      | None => Ok tt
      end;
  delay ← (if edge <=? message then Ok (message - edge) else Err (MessageBeforeEdge edge message));
  _ ← (if maximum_message_delay_ns p <? delay then Err (StaleEdge delay (maximum_message_delay_ns p)) else Ok tt);
  _ ← (if second <? firmware_build_epoch_s p then Err (GnssSecondBelowBuildEpoch second (firmware_build_epoch_s p)) else Ok tt);
  _ ← match last_gnss_second p with
      | Some previous => if second <=? previous then Err (GnssSecondOutOfOrder previous second) else Ok tt
      | None => Ok tt
      end;
  time_us ← ok_or (checked_mul second MICROS_PER_SECOND) (UnixTimeOverflow second);
  Ok {| edge_monotonic_ns := edge; message_monotonic_ns := message; unix_second := second; unix_time_us := time_us; message_delay_ns := delay |}.
Definition associate_gnss_second (p : PpsAssociator) (second message : Z) : result PpsError PpsAssociation * PpsAssociator :=
  match association p second message with
  | Err e => (Err e, p)
  | Ok a =>
      (Ok a, {| firmware_build_epoch_s := firmware_build_epoch_s p; maximum_message_delay_ns := maximum_message_delay_ns p;
         last_edge_ns := last_edge_ns p; pending_edge_ns := None; last_message_ns := Some message;
         last_gnss_second := Some second; last_association := Some a |})
  end.
Definition discard_pending_edge (p : PpsAssociator) : option Z * PpsAssociator :=
  (pending_edge_ns p, {| firmware_build_epoch_s := firmware_build_epoch_s p; maximum_message_delay_ns := maximum_message_delay_ns p;
     last_edge_ns := last_edge_ns p; pending_edge_ns := None; last_message_ns := last_message_ns p;
     last_gnss_second := last_gnss_second p; last_association := last_association p |}).

(** *** Runs *)

Inductive op := Edge (ns : Z) | Gnss (second message : Z) | Discard.
(** The state after an operation and the association it made, if any. *)
Definition step (p : PpsAssociator) (o : op) : option PpsAssociation * PpsAssociator :=
  match o with
  | Edge ns => (None, snd (capture_edge p ns))
  | Gnss second message =>
      match associate_gnss_second p second message with (Ok a, p) => (Some a, p) | (Err _, p) => (None, p) end
  | Discard => (None, snd (discard_pending_edge p))
  end.
Fixpoint run (p : PpsAssociator) (ops : list op) : list PpsAssociation * PpsAssociator :=
  match ops with
  | [] => ([], p)
  | o :: ops =>
      let '(a, p) := step p o in
      let '(l, p) := run p ops in (match a with Some a => [a] | None => [] end ++ l, p)
  end.

(** A sound association: made in time from an edge, not before the epoch. *)
Definition sound (epoch max_delay : Z) (a : PpsAssociation) : Prop :=
  message_delay_ns a = message_monotonic_ns a - edge_monotonic_ns a /\ 0 <= message_delay_ns a <= max_delay /\
  epoch <= unix_second a /\ unix_time_us a = unix_second a * MICROS_PER_SECOND /\ unix_time_us a <= u64_max.

Definition above (o : option Z) (x : Z) : Prop := match o with Some y => y < x | None => True end.
(** Pending edges are the last ones, and not the one of the last association. *)
Definition state_ok (p : PpsAssociator) : Prop :=
  match pending_edge_ns p with
  | Some e => last_edge_ns p = Some e /\ above (edge_monotonic_ns <$> last_association p) e
  | None => match last_association p with Some a => exists e, last_edge_ns p = Some e /\ edge_monotonic_ns a <= e | None => True end
  end /\
  last_gnss_second p = unix_second <$> last_association p /\ last_message_ns p = message_monotonic_ns <$> last_association p.

Lemma association_spec p second message a : state_ok p -> association p second message = Ok a ->
  sound (firmware_build_epoch_s p) (maximum_message_delay_ns p) a /\ Some (edge_monotonic_ns a) = pending_edge_ns p /\
  unix_second a = second /\ message_monotonic_ns a = message /\
  above (edge_monotonic_ns <$> last_association p) (edge_monotonic_ns a) /\
  above (unix_second <$> last_association p) (unix_second a) /\ above (message_monotonic_ns <$> last_association p) (message_monotonic_ns a).
Proof.
  intros (Hp & Hs & Hm). unfold association. rewrite Hs, Hm. destruct (pending_edge_ns p) as [edge|]; [| done]. cbn [ok_or mbind result_bind].
  destruct Hp as [_ Hedge]. intros H.
  assert (above (message_monotonic_ns <$> last_association p) message /\ above (unix_second <$> last_association p) second /\ edge <= message /\
    message - edge <= maximum_message_delay_ns p /\ firmware_build_epoch_s p <= second /\ second * MICROS_PER_SECOND <= u64_max /\
    a = {| edge_monotonic_ns := edge; message_monotonic_ns := message; unix_second := second; unix_time_us := second * MICROS_PER_SECOND; message_delay_ns := message - edge |})
    as (H1 & H2 & H3 & H4 & H5 & H6 & ->).
  { unfold checked_mul in H. destruct (last_association p) as [b|]; cbn in *;
      repeat (let E := fresh "E" in destruct (_ <=? _) eqn:E in H || destruct (_ <? _) eqn:E in H; cbn in H; try done); bool_to_prop;
      injection H as <-; split_and!; lia || done. }
  cbn. unfold sound. cbn. split_and!; lia || done.
Qed.

Lemma pps_step_ok p o : state_ok p ->
  let '(r, p') := step p o in
  state_ok p' /\ firmware_build_epoch_s p' = firmware_build_epoch_s p /\ maximum_message_delay_ns p' = maximum_message_delay_ns p /\
  last_association p' = (match r with Some a => Some a | None => last_association p end) /\
  forall a, r = Some a -> sound (firmware_build_epoch_s p) (maximum_message_delay_ns p) a /\
    above (edge_monotonic_ns <$> last_association p) (edge_monotonic_ns a) /\
    above (unix_second <$> last_association p) (unix_second a) /\ above (message_monotonic_ns <$> last_association p) (message_monotonic_ns a).
Proof.
  intros Hok. destruct o as [ns|second message|]; cbn [step].
  - unfold capture_edge. pose proof Hok as (Hp & Hs & Hm).
    assert (forall q, q = {| firmware_build_epoch_s := firmware_build_epoch_s p; maximum_message_delay_ns := maximum_message_delay_ns p;
        last_edge_ns := Some ns; pending_edge_ns := Some ns; last_message_ns := last_message_ns p;
        last_gnss_second := last_gnss_second p; last_association := last_association p |} ->
        above (last_edge_ns p) ns -> state_ok q) as Hq.
    { intros q -> Ha. unfold state_ok. cbn. split_and!; try done. destruct (last_association p) as [a|]; [| done]. cbn.
      destruct (pending_edge_ns p) as [e|]; [destruct Hp as [He Hl]; rewrite He in Ha; cbn in *; lia |].
      destruct Hp as (e & He & Hl). rewrite He in Ha. cbn in Ha. lia. }
    destruct (last_edge_ns p) as [prev|] eqn:El; [destruct (ns <=? prev) eqn:E; bool_to_prop |]; cbn [snd].
    + split_and!; done.
    + split; [by apply (Hq _ eq_refl) |]. by split_and!.
    + split; [by apply (Hq _ eq_refl) |]. by split_and!.
  - unfold associate_gnss_second. destruct (association p second message) as [a|e] eqn:Ea; [| by split_and!].
    destruct (association_spec p second message a Hok Ea) as (Hsound & Hedge & Hsec & Hmsg & H1 & H2 & H3).
    cbn [firmware_build_epoch_s maximum_message_delay_ns last_association]. split_and!; try done; [| by intros ? [= <-]].
    unfold state_ok. cbn. rewrite Hsec, Hmsg. split_and!; [| done | done]. destruct Hok as [Hp _]. rewrite <- Hedge in Hp.
    destruct Hp as [Hl _]. exists (edge_monotonic_ns a). split; [done | lia].
  - cbn. pose proof Hok as (Hp & Hs & Hm). split_and!; try done. unfold state_ok. cbn. split_and!; try done.
    destruct (last_association p) as [a|]; [| done]. destruct (pending_edge_ns p) as [e|]; [| done]. destruct Hp as [He Hl].
    exists e. split; [done |]. cbn in Hl. lia.
Qed.

(** Each association comes after all earlier ones in every respect. *)
Fixpoint increasing (f : PpsAssociation -> Z) (from : option Z) (l : list PpsAssociation) : Prop :=
  match l with [] => True | a :: l => above from (f a) /\ increasing f (Some (f a)) l end.

(** Whatever edges and messages arrive, every association is sound, no pulse is
    used twice, and pulses, messages and seconds of successive associations
    strictly increase. *)
Lemma associations_in_order ops : forall p, state_ok p ->
  let l := fst (run p ops) in
  Forall (sound (firmware_build_epoch_s p) (maximum_message_delay_ns p)) l /\
  increasing edge_monotonic_ns (edge_monotonic_ns <$> last_association p) l /\
  increasing unix_second (unix_second <$> last_association p) l /\
  increasing message_monotonic_ns (message_monotonic_ns <$> last_association p) l.
Proof.
  induction ops as [|o ops IH]; intros p Hok; [by cbn |]. cbn [run]. pose proof (pps_step_ok p o Hok) as Hs. destruct (step p o) as [r p1].
  destruct Hs as (Hok1 & He & Hd & Hl & Hr). specialize (IH p1 Hok1). destruct (run p1 ops) as [l p2]. cbn [fst] in *. rewrite He, Hd, Hl in IH.
  destruct r as [a|]; cbn [app]; [| exact IH]. destruct (Hr a eq_refl) as (Hsound & H1 & H2 & H3). destruct IH as (I1 & I2 & I3 & I4). cbn in I2, I3, I4.
  split_and!; [by constructor | by split | by split | by split].
Qed.

Lemma new_ok epoch max_delay p : new epoch max_delay = Ok p -> state_ok p.
Proof. unfold new. destruct (_ =? 0); [done |]. destruct (checked_mul _ _); [| done]. destruct (_ =? 0); [done |]. by intros [= <-]. Qed.

End Pps.
