(* ===== verification/SchcPeer.v ===== *)
(** * SCHC with authenticated peers (lichen-schc/src/codec.rs and context.rs)

    The contexts a node keeps of its peers' rule set version: how one is taken
    from an authenticated DIO, the authority that issues and revokes them, the
    compression they gate, and the tracker of decompression failures.

    [AuthenticatedLinkFrame] of lichen-link/src/evidence.rs is a record; its two
    retirement flags are read when a frame is asked whether it is current, so the
    model passes the answer with the frame.  Owner numbers come from a process
    counter, an argument of the constructors.  A context that retains its frame is
    current while the frame is, so the operations on it take that answer too. *)

From stdpp Require Import strings.
From S2P Require Import Prelude Frame Evidence Addr Schnorr RplMessage SchcBits SchcCheck Schc SchcSpec SchcRoundtrip NetHeaders.
Open Scope Z_scope.

(** ** Failure tracking (context.rs) *)
Module FailureTracker.

Record FailureEntry := { source : bytes; count : Z; notified : bool }.
Record RuleVersionFailureTracker := { threshold : Z; entries : list (option FailureEntry); capacity_events : Z }.

Definition new (max_sources : nat) (t : Z) : option RuleVersionFailureTracker :=
  if (t =? 0) || (max_sources =? 0)%nat then None
  else Some {| threshold := t; entries := replicate max_sources None; capacity_events := 0 |}.

Definition is_source (src : bytes) (e : option FailureEntry) : Prop := match e with Some e => source e = src | None => False end.
#[export] Instance is_source_dec src e : Decision (is_source src e).
Proof. destruct e; cbn; apply _. Defined.

Definition with_entries (t : RuleVersionFailureTracker) (l : list (option FailureEntry)) : RuleVersionFailureTracker :=
  {| threshold := threshold t; entries := l; capacity_events := capacity_events t |}.

Definition record_failure (t : RuleVersionFailureTracker) (src : bytes) : result SchcBits.SchcError bool * RuleVersionFailureTracker :=
  match list_find (is_source src) (entries t) with
  | Some (i, Some e) =>
      let n := Z.min (saturating_add u16_max (count e) 1) (threshold t) in
      let notify := (n =? threshold t) && negb (notified e) in
      (Ok notify, with_entries t (<[i := Some {| source := src; count := n; notified := notified e || notify |}]> (entries t)))
  | _ =>
      match list_find (fun e => e = None) (entries t) with
      | None => (Err SchcBits.FailureTrackerFull, {| threshold := threshold t; entries := entries t; capacity_events := saturating_add u64_max (capacity_events t) 1 |})
      | Some (i, _) =>
          let notify := threshold t =? 1 in
          (Ok notify, with_entries t (<[i := Some {| source := src; count := 1; notified := notify |}]> (entries t)))
      end
  end.
Definition record_success (t : RuleVersionFailureTracker) (src : bytes) : RuleVersionFailureTracker :=
  match list_find (is_source src) (entries t) with
  | Some (i, _) => with_entries t (<[i := None]> (entries t))
  | None => t
  end.
Definition retire (t : RuleVersionFailureTracker) (src : bytes) : RuleVersionFailureTracker := record_success t src.

(** *** Notification *)

(** No source has two entries. *)
Definition uniq (l : list (option FailureEntry)) : Prop :=
  forall i j e e', l !! i = Some (Some e) -> l !! j = Some (Some e') -> source e = source e' -> i = j.
Definition held (l : list (option FailureEntry)) (e : FailureEntry) : Prop := exists i, l !! i = Some (Some e).

Lemma find_source l src :
  match list_find (is_source src) l with
  | Some (i, Some e) => l !! i = Some (Some e) /\ source e = src
  | Some (_, None) => False
  | None => forall e, held l e -> source e <> src
  end.
Proof.
  destruct (list_find _ l) as [[i x]|] eqn:E.
  - apply list_find_Some in E as (Hi & Hx & _). by destruct x.
  - apply list_find_None in E. intros e [i He] Hs. eapply Forall_lookup in He; [| exact E]. by apply He.
Qed.

(** Writing an entry of [src] over its own place or a free one. *)
Lemma held_insert l i old new src : uniq l -> l !! i = Some old -> (forall o, old = Some o -> source o = src) ->
  (forall e, held l e -> source e = src -> old = Some e) -> (forall n, new = Some n -> source n = src) ->
  uniq (<[i := new]> l) /\ forall e, held (<[i := new]> l) e <-> (new = Some e \/ (held l e /\ source e <> src)).
Proof.
  intros Hu Hi Hold Honly Hnew. pose proof (lookup_lt_Some _ _ _ Hi) as Hlt.
  assert (forall j e, <[i := new]> l !! j = Some (Some e) -> (j = i /\ new = Some e) \/ (j <> i /\ l !! j = Some (Some e) /\ source e <> src)) as Hl.
  { intros j e Hj. destruct (decide (j = i)) as [-> |Hne].
    - rewrite list_lookup_insert_eq in Hj by done. left. by simplify_eq.
    - rewrite list_lookup_insert_ne in Hj by congruence. right. split_and!; [done | done |]. intros Hs.
      pose proof (Honly e ltac:(by exists j) Hs) as Ho. subst old. apply Hne. by eapply Hu. }
  split.
  - intros j k e e' Hj Hk Hs. apply Hl in Hj as [[-> ->]|(Hj1 & Hj2 & Hj3)], Hk as [[-> Hk]|(Hk1 & Hk2 & Hk3)]; [done | | |].
    + exfalso. apply Hk3. rewrite <- Hs. by apply Hnew.
    + exfalso. apply Hj3. rewrite Hs. by apply Hnew.
    + by eapply Hu.
  - intros e. split.
    + intros [j Hj]. apply Hl in Hj as [[_ ?]|(_ & Hj & Hs)]; [by left | right]. split; [by exists j | done].
    + intros [-> |[[j Hj] Hs]]; [exists i; by apply list_lookup_insert_eq |]. exists j. rewrite list_lookup_insert_ne; [done |].
      intros <-. rewrite Hi in Hj. simplify_eq. by apply Hs, Hold.
Qed.

Inductive event := Fail (src : bytes) | Succeed (src : bytes).
Definition step (t : RuleVersionFailureTracker) (e : event) : RuleVersionFailureTracker :=
  match e with Fail src => snd (record_failure t src) | Succeed src => record_success t src end.
Definition event_source (e : event) : bytes := match e with Fail s => s | Succeed s => s end.
(** Failures of [src] since its last success; the newest event comes first. *)
Fixpoint consecutive (src : bytes) (l : list event) : Z :=
  match l with
  | [] => 0
  | Fail s :: l => if decide (s = src) then consecutive src l + 1 else consecutive src l
  | Succeed s :: l => if decide (s = src) then 0 else consecutive src l
  end.
Definition sources (l : list event) : gset bytes := list_to_set (event_source <$> l).

Lemma consecutive_nonneg src l : 0 <= consecutive src l.
Proof. induction l as [|[s|s] l IH]; cbn; [lia | |]; case_decide; lia. Qed.
Lemma consecutive_in src l : 0 < consecutive src l -> src ∈ sources l.
Proof.
  unfold sources. rewrite elem_of_list_to_set. induction l as [|[s|s] l IH]; cbn; intros Hc; [lia | |]; case_decide; subst; try lia; try (by left); right; apply IH; lia.
Qed.

(** The table holds an entry for exactly the sources with failures. *)
Record tracks (T : Z) (l : list event) (t : RuleVersionFailureTracker) : Prop := {
  tk_threshold : threshold t = T;
  tk_uniq : uniq (entries t);
  tk_entry e : held (entries t) e <->
    0 < consecutive (source e) l /\ count e = Z.min (consecutive (source e) l) T /\ notified e = (T <=? consecutive (source e) l)
}.

Definition the_entry (T : Z) (src : bytes) (n : Z) : FailureEntry := {| source := src; count := Z.min n T; notified := T <=? n |}.

Lemma tracks_lookup T l t src : tracks T l t -> 0 < consecutive src l -> held (entries t) (the_entry T src (consecutive src l)).
Proof. intros [_ _ He] Hc. by apply He. Qed.

Lemma tracks_only T l t e : tracks T l t -> held (entries t) e -> e = the_entry T (source e) (consecutive (source e) l).
Proof. intros [_ _ He] Hh. apply He in Hh as (_ & Hn & Hb). destruct e. unfold the_entry. cbn in *. congruence. Qed.

(** There is a free place for a new source. *)
Lemma room T l t src : tracks T l t -> (size (sources (Fail src :: l)) <= length (entries t))%nat -> consecutive src l = 0 ->
  exists i, list_find (fun e => e = None) (entries t) = Some (i, None).
Proof.
  intros Ht Hn Hc. destruct (list_find _ _) as [[i x]|] eqn:E; [apply list_find_Some in E as (_ & -> & _); by exists i |]. exfalso.
  apply list_find_None in E. pose proof (tk_uniq _ _ _ Ht) as Hu.
  assert (exists k : list FailureEntry, entries t = Some <$> k) as [k Hk].
  { clear -E. induction E as [|x l Hx _ [k IH]]; [by exists [] |]. destruct x as [e|]; [| done]. exists (e :: k). cbn. by f_equal. }
  assert (forall i e, k !! i = Some e -> held (entries t) e) as Hin.
  { intros i e He. exists i. rewrite Hk, list_lookup_fmap, He. done. }
  assert (NoDup (source <$> k)) as Hnd.
  { apply NoDup_alt. intros i j x Hi Hj. rewrite list_lookup_fmap in Hi, Hj. destruct (k !! i) as [e|] eqn:Ei, (k !! j) as [e'|] eqn:Ej; cbn in *; simplify_eq.
    apply (Hu i j e e'); [by rewrite Hk, list_lookup_fmap, Ei | by rewrite Hk, list_lookup_fmap, Ej | done]. }
  assert (list_to_set (source <$> k) ⊆ sources l ∖ {[src]}) as Hsub.
  { intros s Hs. apply elem_of_list_to_set, list_elem_of_fmap in Hs as (e & -> & He). apply list_elem_of_lookup in He as [i He].
    apply Hin, (tk_entry _ _ _ Ht) in He as (Hpos & _). apply elem_of_difference. split; [by apply consecutive_in |]. intros Hs%elem_of_singleton. rewrite Hs in Hpos. lia. }
  apply subseteq_size in Hsub. rewrite size_list_to_set in Hsub by done. rewrite length_fmap in Hsub. rewrite Hk, length_fmap in Hn.
  assert (size (sources l ∖ {[src]}) < size (sources (Fail src :: l)))%nat as Hlt; [| lia].
  apply subset_size. unfold sources. cbn. set (S := list_to_set (event_source <$> l) : gset bytes). set_solver.
Qed.

Lemma success_tracks T l t src : tracks T l t -> tracks T (Succeed src :: l) (record_success t src) /\ length (entries (record_success t src)) = length (entries t).
Proof.
  intros Ht. pose proof Ht as [H1 H2 H3]. unfold record_success. pose proof (find_source (entries t) src) as Hf.
  destruct (list_find _ _) as [[i [e|]]|]; [| done |].
  - destruct Hf as [Hi Hs]. destruct (held_insert (entries t) i (Some e) None src H2 Hi) as [Hu Hh]; [by intros o [= <-] | | done |].
    { intros e' He' Hs'. rewrite (tracks_only _ _ _ _ Ht He'), (tracks_only _ _ _ e Ht ltac:(by exists i)). by rewrite Hs, Hs'. }
    cbn. rewrite length_insert. split; [| done]. split; [done | done |]. intros x. cbn [entries with_entries consecutive]. rewrite Hh, H3. case_decide as E.
    + split; [intros [?|[_ ?]]; congruence | intros [? _]; lia].
    + split; [intros [?|[? _]]; done | intros Hx; right; split; [done | congruence]].
  - split; [| done]. split; [done | done |]. intros x. cbn [consecutive]. case_decide as E; [| apply H3].
    split; [intros Hx; by destruct (Hf x Hx) | intros [? _]; lia].
Qed.

Lemma failure_tracks T l t src : 1 <= T <= u16_max -> tracks T l t -> (size (sources (Fail src :: l)) <= length (entries t))%nat ->
  let '(r, t') := record_failure t src in
  r = Ok (consecutive src l + 1 =? T) /\ tracks T (Fail src :: l) t' /\ length (entries t') = length (entries t).
Proof.
  intros HT Ht Hn. pose proof Ht as [H1 H2 H3]. unfold record_failure. pose proof (find_source (entries t) src) as Hf.
  pose proof (consecutive_nonneg src l) as Hc0. set (n := consecutive src l) in *. unfold u16_max in HT.
  assert (forall i old, entries t !! i = Some old -> (forall o, old = Some o -> source o = src) -> (forall e, held (entries t) e -> source e = src -> old = Some e) ->
    tracks T (Fail src :: l) (with_entries t (<[i := Some (the_entry T src (n + 1))]> (entries t)))) as Hset.
  { intros i old Hi Hold Honly. destruct (held_insert (entries t) i old (Some (the_entry T src (n + 1))) src H2 Hi Hold Honly) as [Hu Hh]; [by intros ? [= <-] |].
    split; [done | done |]. intros x. cbn [entries with_entries consecutive]. rewrite Hh, H3. case_decide as E.
    - subst src. fold n. split.
      + intros [Hx|[_ Hx]]; [| done]. injection Hx as <-. cbn. idtac. split_and!; [lia | done | done].
      + intros (_ & Hx1 & Hx2). left. destruct x. unfold the_entry. cbn in *. by subst.
    - split; [intros [Hx|[Hx _]]; [| done] | intros Hx; right; split; [done | congruence]]. simplify_eq. }
  destruct (list_find (is_source src) _) as [[i [e|]]|]; [| done |].
  - destruct Hf as [Hi Hs]. assert (held (entries t) e) as He by (by exists i). pose proof (tracks_only _ _ _ _ Ht He) as Hee. rewrite Hs in Hee. fold n in Hee.
    pose proof (proj1 (H3 e) He) as (Hpos & _). rewrite Hs in Hpos. fold n in Hpos. rewrite H1.
    assert (Z.min (saturating_add u16_max (count e) 1) T = Z.min (n + 1) T) as Hm by (rewrite Hee; cbn; unfold saturating_add, u16_max; lia).
    assert (((Z.min (n + 1) T =? T) && negb (notified e)) = (n + 1 =? T)) as Hnot.
    { rewrite Hee. cbn [the_entry notified]. destruct (Z.min (n + 1) T =? T) eqn:E1, (T <=? n) eqn:E2, (n + 1 =? T) eqn:E3; cbn; done || lia. }
    rewrite Hm, Hnot. split; [done |]. cbn. rewrite length_insert. split; [| done].
    assert ((notified e || (n + 1 =? T)) = (T <=? n + 1)) as ->.
    { rewrite Hee. cbn [the_entry notified]. destruct (T <=? n) eqn:E2, (n + 1 =? T) eqn:E3, (T <=? n + 1) eqn:E4; cbn; done || lia. }
    apply (Hset i (Some e) Hi); [by intros ? [= <-] |]. intros e' He' Hs'. f_equal. rewrite (tracks_only _ _ _ _ Ht He'), Hs'. exact Hee.
  - assert (n = 0) as Hn0.
    { destruct (Z.eq_dec n 0) as [|Hne]; [done |]. exfalso. eapply (Hf (the_entry T src n)); [| done]. apply (tracks_lookup _ _ _ _ Ht). fold n. lia. }
    destruct (room T l t src Ht Hn Hn0) as [i Hi]. rewrite Hi. apply list_find_Some in Hi as (Hi & _ & _). cbn. rewrite length_insert, H1, Hn0.
    split; [f_equal; lia |]. split; [| done].
    replace {| source := src; count := 1; notified := T =? 1 |} with (the_entry T src (n + 1)).
    2: { unfold the_entry. rewrite Hn0. f_equal; [lia |]. destruct (T <=? 0 + 1) eqn:E1, (T =? 1) eqn:E2; done || lia. }
    apply (Hset i None Hi); [done |]. intros e He Hs. by destruct (Hf e He).
Qed.

(** The operator is notified of a source exactly at the failure that makes
    [threshold] in a row, once per run of failures, whatever other sources do. *)
Lemma notified_exactly_once m T t0 l src : new m T = Some t0 -> T <= u16_max -> 0 <= T ->
  (size (sources (Fail src :: l)) <= m)%nat ->
  fst (record_failure (foldr (fun e t => step t e) t0 l) src) = Ok (consecutive src l + 1 =? T).
Proof.
  intros H0 HT HT0 Hm. unfold new in H0. destruct ((T =? 0) || (m =? 0)%nat) eqn:Ez; [done |]. apply orb_false_iff in Ez as [Ez _]. bool_to_prop.
  assert (tracks T l (foldr (fun e t => step t e) t0 l) /\ length (entries (foldr (fun e t => step t e) t0 l)) = m) as [Ht Hlen].
  { injection H0 as <-. assert (size (sources l) <= m)%nat as Hm'.
    { etrans; [| exact Hm]. apply subseteq_size. unfold sources. cbn. set_solver. }
    clear Hm. induction l as [|e l IH].
    - split; [| cbn; apply length_replicate]. split; [done | |].
      + intros i j e e' Hi. apply lookup_replicate in Hi as [? _]. done.
      + intros e. split; [intros [i Hi]; apply lookup_replicate in Hi as [? _]; done | cbn; intros [? _]; lia].
    - destruct IH as [IH1 IH2]; [etrans; [| exact Hm']; apply subseteq_size; unfold sources; cbn; set_solver |]. cbn [foldr]. destruct e as [s|s]; cbn [step].
      + pose proof (failure_tracks T l _ s ltac:(lia) IH1 ltac:(by rewrite IH2)) as Hf. destruct (record_failure _ s) as [r t']. cbn. destruct Hf as (_ & ? & ?). split; [done | congruence].
      + destruct (success_tracks T l _ s IH1) as [? ?]. split; [done | congruence]. }
  pose proof (failure_tracks T l _ src ltac:(lia) Ht ltac:(by rewrite Hlen)) as Hf. destruct (record_failure _ src) as [r t']. by destruct Hf as [-> _].
Qed.

End FailureTracker.

(** ** Peer contexts and their authority (codec.rs) *)
Module PeerContext.
Import SchcBits SchcCheck Schc SchcRoundtrip FailureTracker.

Inductive ExpectedDioRole := Root | Peer.
#[export] Instance role_eq_dec : EqDecision ExpectedDioRole.
Proof. solve_decision. Defined.

Record AuthenticatedLinkFrame := {
  payload : bytes;
  destination : bytes;
  destination_mode : Frame.AddrMode;
  signer : bytes;
  signer_eui64 : bytes;
  epoch : Z;
  seqnum : Z;
  receipt : Evidence.ReceiptEvidence;
  peer_key_generation : Z;
  durable_peer_key_generation : bytes;
  is_current : bool
}.
Definition authenticated_counter_of (f : AuthenticatedLinkFrame) : Z := Z.lor (Z.shiftl (epoch f) 16) (seqnum f).
Definition monotonic_millis (r : Evidence.ReceiptEvidence) : option Z := Evidence.duration_millis r.

Record AuthenticatedPeerSchcContext := {
  remote_version : Z;
  expected_role : ExpectedDioRole;
  signer_identity : bytes;
  authenticated_counter : Z;
  key_generation : Z;
  durable_key_generation : bytes;
  authority_owner : Z;
  authority_slot : nat;
  authority_generation : Z;
  receipt_clock_domain : Z;
  receipt_ticks : Z
}.

Record PeerAuthorityEntry := {
  pa_signer : bytes;
  pa_counter : Z;
  pa_key_generation : Z;
  pa_durable_key_generation : bytes;
  pa_generation : Z;
  pa_receipt_clock_domain : Z;
  pa_receipt_ticks : Z
}.
Record PeerContextAuthority := { owner : Z; local_signer : bytes; local_eui64 : bytes; pa_entries : list (option PeerAuthorityEntry) }.

Definition versions_compatible (local remote : Z) : bool := (local =? RplMessage.RULE_SET_VERSION) && (remote =? RplMessage.RULE_SET_VERSION).
Definition allows_dodag_join (c : AuthenticatedPeerSchcContext) : bool := versions_compatible RplMessage.RULE_SET_VERSION (remote_version c).

(** [fetch_update] of the owner counter, then the identifiers of the local key. *)
Definition authority_new `{Schnorr.Crypto} (max_peers : nat) (next_owner : Z) (local : bytes) : sresult PeerContextAuthority * Z :=
  if (max_peers =? 0)%nat || (u16_max <? Z.of_nat max_peers) then (Err PeerAuthorityFull, next_owner)
  else
    match Evidence.nonzero (checked_add u32_max next_owner 1) with
    | None => (Err PeerAuthorityFull, next_owner)
    | Some next =>
        let iid := Schnorr.iid_from_pubkey local in
        let eui := match iid with b :: rest => Z.lxor b 2 :: rest | [] => [] end in
        (Ok {| owner := next_owner; local_signer := local; local_eui64 := eui; pa_entries := replicate max_peers None |}, next)
    end.

Definition SCHC_MAX_DECOMPRESSED : nat := 1500.
Definition ALL_RPL_NODES : bytes := [0xff; 2; 0; 0; 0; 0; 0; 0; 0; 0; 0; 0; 0; 0; 0; 0x1a].

Definition authenticated_dio_destination_is_canonical_multicast (f : AuthenticatedLinkFrame) : bool :=
  match decompress (drop 1 (payload f)) (replicate SCHC_MAX_DECOMPRESSED 0) with
  | (Err _, _) => false
  | (Ok length, ipv6) =>
      if (length <? 40)%nat then false
      else bool_decide (slice 24 40 ipv6 = ALL_RPL_NODES) && bool_decide (payload f !! 1%nat = Some RULE_UNCOMPRESSED)
  end.

(** The loop over the options of a DIO; [rest] is what is left from the cursor
    on.  Every round consumes a byte. *)
Fixpoint dio_options (fuel : nat) (rest : bytes) (version : option Z) : sresult (option Z) :=
  match fuel with
  | O => Ok version
  | S fuel =>
      match rest with
      | [] => Ok version
      | 0 :: rest => dio_options fuel rest version
      | [_] => Err (InvalidPacket "truncated authenticated DIO option")
      | option_type :: option_len :: body =>
          let n := Z.to_nat option_len in
          if (length body <? n)%nat then Err (InvalidPacket "truncated authenticated DIO option")
          else if option_type =? RplMessage.SCHC_RULE_VERSION_TYPE then
            if negb (option_len =? 1) then
              Err (DioAdmission (if option_len =? 0 then MalformedRuleVersionLength0
                                 else if option_len =? 2 then MalformedRuleVersionLength2 else MalformedRuleVersion))
            else
              match version with
              | Some _ => Err (DioAdmission DuplicateRuleVersion)
              | None => dio_options fuel (drop n body) (Some (nth 0 body 0))
              end
          else dio_options fuel (drop n body) version
      end
  end.

(** The part after decompression: [ipv6] is the packet. *)
Definition check_dio (f : AuthenticatedLinkFrame) (ipv6 : bytes) (instance_id : Z) (dodag_id : bytes) (mop : Z) (role : ExpectedDioRole) :
    sresult AuthenticatedPeerSchcContext :=
  if (length ipv6 <? 40 + 4 + 24)%nat || negb (nth 6 ipv6 0 =? 58) then Err (InvalidPacket "authenticated SCHC payload is not a valid RPL DIO")
  else if negb (nth 7 ipv6 0 =? 255) then Err (InvalidPacket "authenticated DIO Hop Limit must be 255")
  else
    let src := slice 8 24 ipv6 in
    let dst := slice 24 40 ipv6 in
    let signer_iid := match signer_eui64 f with b :: rest => Z.lxor b 2 :: rest | [] => [] end in
    if negb (bool_decide (take 8 src = [0xfe; 0x80; 0; 0; 0; 0; 0; 0])) || negb (bool_decide (drop 8 src = signer_iid))
    then Err (DioAdmission SourceSignerMismatch)
    else if negb (nth 40 ipv6 0 =? 155) || negb (nth 41 ipv6 0 =? 1) || negb (Checksum.upper_layer_checksum src dst 58 (drop 40 ipv6) =? 0)
    then Err (InvalidPacket "authenticated SCHC payload is not a valid RPL DIO")
    else
      let payload := drop 44 ipv6 in
      if negb (nth 7 payload 0 =? 0) then Err (InvalidPacket "malformed authenticated DIO")
      else if negb (nth 0 payload 0 =? instance_id) then Err (InvalidPacket "authenticated DIO instance mismatch")
      else if negb (bool_decide (slice 8 24 payload = dodag_id)) then Err (DioAdmission DodagScopeMismatch)
      else if negb (Z.land (Z.shiftr (nth 4 payload 0) 3) 0x07 =? mop) then Err (InvalidPacket "authenticated DIO MOP mismatch")
      else
        let is_root := from_be (slice 2 4 payload) =? 256 in
        if negb (Bool.eqb is_root (bool_decide (role = Root))) then Err (DioAdmission RoleScopeMismatch)
        else if is_root && negb (bool_decide (Addr.ygg_addr_from_pubkey (signer f) = dodag_id)) then Err (DioAdmission RootKeyDodagMismatch)
        else
          version ← dio_options (length payload) (drop 24 payload) None;
          version ← ok_or version (DioAdmission MissingRuleVersion);
          Ok {| remote_version := version; expected_role := role; signer_identity := signer f;
                authenticated_counter := authenticated_counter_of f; key_generation := peer_key_generation f;
                durable_key_generation := durable_peer_key_generation f; authority_owner := 0; authority_slot := 0;
                authority_generation := 0; receipt_clock_domain := Evidence.clock_domain (receipt f);
                receipt_ticks := Evidence.monotonic_ticks (receipt f) |}.

Definition parse_authenticated_dio_evidence (f : AuthenticatedLinkFrame) (instance_id : Z) (dodag_id : bytes) (mop : Z) (role : ExpectedDioRole) :
    sresult AuthenticatedPeerSchcContext :=
  if negb (is_current f) || negb (bool_decide (head (payload f) = Some L2Payload.L2_DISPATCH_SCHC))
  then Err (InvalidPacket "DIO missing SCHC L2 dispatch")
  else
    match decompress (drop 1 (payload f)) (replicate SCHC_MAX_DECOMPRESSED 0) with
    | (Err e, _) => Err e
    | (Ok n, ipv6) => check_dio f (take n ipv6) instance_id dodag_id mop role
    end.

Definition is_signer (s : bytes) (e : option PeerAuthorityEntry) : Prop := match e with Some e => pa_signer e = s | None => False end.
#[export] Instance is_signer_dec s e : Decision (is_signer s e).
Proof. destruct e; cbn; apply _. Defined.

Definition with_pa_entries (a : PeerContextAuthority) (l : list (option PeerAuthorityEntry)) : PeerContextAuthority :=
  {| owner := owner a; local_signer := local_signer a; local_eui64 := local_eui64 a; pa_entries := l |}.

(** Where the entry of a signer is, or would go. *)
Definition authority_place (a : PeerContextAuthority) (s : bytes) : option nat :=
  match list_find (is_signer s) (pa_entries a) with
  | Some (i, _) => Some i
  | None => fst <$> list_find (fun e => e = None) (pa_entries a)
  end.

(** Registration of a parsed context. *)
Definition register (a : PeerContextAuthority) (c : AuthenticatedPeerSchcContext) (kg : Z) (dkg : bytes) :
    sresult AuthenticatedPeerSchcContext * PeerContextAuthority :=
  match authority_place a (signer_identity c) with
  | None => (Err PeerAuthorityFull, a)
  | Some slot =>
      let prior := default None (pa_entries a !! slot) in
      let replayed := match prior with
        | Some e => (pa_key_generation e =? kg) && bool_decide (pa_durable_key_generation e = dkg) && (authenticated_counter c <=? pa_counter e)
        | None => false end in
      let out_of_order := match prior with
        | Some e => negb (pa_receipt_clock_domain e =? receipt_clock_domain c) || (receipt_ticks c <? pa_receipt_ticks e)
        | None => false end in
      if replayed || out_of_order then (Err InvalidPeerEvidence, a)
      else
        let generation := match prior with Some e => default 0 (checked_add u32_max (pa_generation e) 1) | None => 1 end in
        if generation =? 0 then (Err InvalidPeerEvidence, with_pa_entries a (<[slot := None]> (pa_entries a)))
        else
          (Ok {| remote_version := remote_version c; expected_role := expected_role c; signer_identity := signer_identity c;
                 authenticated_counter := authenticated_counter c; key_generation := kg; durable_key_generation := dkg;
                 authority_owner := owner a; authority_slot := slot; authority_generation := generation;
                 receipt_clock_domain := receipt_clock_domain c; receipt_ticks := receipt_ticks c |},
           with_pa_entries a (<[slot := Some {| pa_signer := signer_identity c; pa_counter := authenticated_counter c;
             pa_key_generation := kg; pa_durable_key_generation := dkg; pa_generation := generation;
             pa_receipt_clock_domain := receipt_clock_domain c; pa_receipt_ticks := receipt_ticks c |}]> (pa_entries a)))
  end.

Definition issue_from_authenticated_dio (a : PeerContextAuthority) (f : AuthenticatedLinkFrame) (instance_id : Z) (dodag_id : bytes) (mop : Z)
    (role : ExpectedDioRole) : sresult AuthenticatedPeerSchcContext * PeerContextAuthority :=
  if negb (is_current f) || bool_decide (monotonic_millis (receipt f) = None) || negb (authenticated_dio_destination_is_canonical_multicast f)
  then (Err InvalidPeerEvidence, a)
  else
    match parse_authenticated_dio_evidence f instance_id dodag_id mop role with
    | Err e => (Err e, a)
    | Ok c => register a c (peer_key_generation f) (durable_peer_key_generation f)
    end.

Definition retire_signer (a : PeerContextAuthority) (s : bytes) : PeerContextAuthority :=
  with_pa_entries a ((fun e => if decide (is_signer s e) then None else e) <$> pa_entries a).

Definition authority_is_current (a : PeerContextAuthority) (c : AuthenticatedPeerSchcContext) : bool :=
  (authority_owner c =? owner a) &&
  match pa_entries a !! authority_slot c with
  | Some (Some e) =>
      bool_decide (pa_signer e = signer_identity c) && (pa_counter e =? authenticated_counter c) && (pa_key_generation e =? key_generation c) &&
      bool_decide (pa_durable_key_generation e = durable_key_generation c) && (pa_generation e =? authority_generation c)
  | _ => false
  end.

Definition compress_with_authority (c : AuthenticatedPeerSchcContext) (a : PeerContextAuthority) (packet out : bytes) (limit : option Z) : sresult nat * bytes :=
  if negb (authority_is_current a c) then (Err InvalidPeerEvidence, out)
  else if allows_dodag_join c then compress packet out else encode_rule255 packet out limit.
Definition decompress_with_authority (c : AuthenticatedPeerSchcContext) (a : PeerContextAuthority) (data out : bytes) (limit : option Z) : sresult nat * bytes :=
  if negb (authority_is_current a c) then (Err InvalidPeerEvidence, out)
  else if allows_dodag_join c then decompress data out else decode_rule255 data out limit.

(** Contexts that retain the frame they came from: [evidence_current] is what the
    frame's flags say now, false without a frame. *)
Definition from_authenticated_dio_frame (f : AuthenticatedLinkFrame) (instance_id : Z) (dodag_id : bytes) (mop : Z) (role : ExpectedDioRole) :
    sresult AuthenticatedPeerSchcContext :=
  if negb (authenticated_dio_destination_is_canonical_multicast f) then Err InvalidPeerEvidence
  else parse_authenticated_dio_evidence f instance_id dodag_id mop role.
Definition peer_compress (c : AuthenticatedPeerSchcContext) (evidence_current : bool) (packet out : bytes) (limit : option Z) : sresult nat * bytes :=
  if negb evidence_current then (Err InvalidPeerEvidence, out)
  else if allows_dodag_join c then compress packet out else encode_rule255 packet out limit.
Definition peer_decompress (c : AuthenticatedPeerSchcContext) (evidence_current : bool) (data out : bytes) (limit : option Z) : sresult nat * bytes :=
  if negb evidence_current then (Err InvalidPeerEvidence, out)
  else if allows_dodag_join c then decompress data out else decode_rule255 data out limit.

(** What a tracked decompression does with its result; the last component says
    whether the operator is notified. *)
Definition track (r : sresult nat * bytes) (src : bytes) (t : RuleVersionFailureTracker) : sresult nat * bytes * RuleVersionFailureTracker * bool :=
  match r with
  | (Ok n, out) => (Ok n, out, record_success t src, false)
  | (Err (ErrBufferTooSmall e), out) => (Err (ErrBufferTooSmall e), out, t, false)
  | (Err InvalidPeerEvidence, out) => (Err InvalidPeerEvidence, out, t, false)
  | (Err e, out) =>
      let '(r, t) := record_failure t src in
      (Err e, out, t, match r with Ok notify => notify | Err _ => false end)
  end.
Definition decompress_tracked_with_authority (c : AuthenticatedPeerSchcContext) (a : PeerContextAuthority) (data out : bytes) (limit : option Z)
    (t : RuleVersionFailureTracker) : sresult nat * bytes * RuleVersionFailureTracker * bool :=
  track (decompress_with_authority c a data out limit) (signer_identity c) t.
Definition decompress_tracked (c : AuthenticatedPeerSchcContext) (evidence_current : bool) (data out : bytes) (limit : option Z)
    (t : RuleVersionFailureTracker) : sresult nat * bytes * RuleVersionFailureTracker * bool :=
  track (peer_decompress c evidence_current data out limit) (signer_identity c) t.

(** A frame of a link, which says whether it accepts it. *)
Definition decompress_authenticated_frame_tracked (accepted : bool) (f : AuthenticatedLinkFrame) (out : bytes) (t : RuleVersionFailureTracker) :
    sresult nat * bytes * RuleVersionFailureTracker * bool :=
  if negb accepted then (Err (InvalidPacket "stale or foreign authenticated link evidence"), out, t, false)
  else if negb (bool_decide (head (payload f) = Some L2Payload.L2_DISPATCH_SCHC)) then (Err (InvalidPacket "missing SCHC L2 dispatch"), out, t, false)
  else
    match decompress (drop 1 (payload f)) out with
    | (Ok n, out) => (Ok n, out, record_success t (signer f), false)
    | (Err (ErrBufferTooSmall e), out) => (Err (ErrBufferTooSmall e), out, t, false)
    | (Err e, out) =>
        let '(r, t) := record_failure t (signer f) in
        (Err e, out, t, match r with Ok notify => notify | Err _ => false end)
    end.

(** *** The options of a DIO *)

(** A byte sequence as padding and options. *)
Inductive option_list : bytes -> list (Z * bytes) -> Prop :=
| options_end : option_list [] []
| options_pad rest l : option_list rest l -> option_list (0 :: rest) l
| options_tlv t body rest l : t <> 0 -> option_list rest l -> option_list (t :: Z.of_nat (length body) :: body ++ rest) ((t, body) :: l).
Definition is_version (o : Z * bytes) : Prop := o.1 = RplMessage.SCHC_RULE_VERSION_TYPE.
#[export] Instance is_version_dec o : Decision (is_version o).
Proof. unfold is_version. apply _. Defined.
Definition version_options (v : option Z) : list (Z * bytes) :=
  match v with Some x => [(RplMessage.SCHC_RULE_VERSION_TYPE, [x])] | None => [] end.

Lemma dio_options_tlv fuel t n body v : t <> 0 ->
  dio_options (S fuel) (t :: n :: body) v =
  (if (length body <? Z.to_nat n)%nat then Err (InvalidPacket "truncated authenticated DIO option")
   else if t =? RplMessage.SCHC_RULE_VERSION_TYPE then
     if negb (n =? 1) then
       Err (DioAdmission (if n =? 0 then MalformedRuleVersionLength0
                          else if n =? 2 then MalformedRuleVersionLength2 else MalformedRuleVersion))
     else match v with
          | Some _ => Err (DioAdmission DuplicateRuleVersion)
          | None => dio_options fuel (drop (Z.to_nat n) body) (Some (nth 0 body 0))
          end
   else dio_options fuel (drop (Z.to_nat n) body) v).
Proof. by destruct t. Qed.

(** What is accepted is a sequence of whole options. *)
Lemma dio_options_sound fuel rest v v' : bytes_ok rest -> (length rest <= fuel)%nat -> dio_options fuel rest v = Ok v' ->
  exists l, option_list rest l /\ version_options v' = version_options v ++ filter is_version l.
Proof.
  revert rest v. induction fuel as [|fuel IH]; intros rest v Hok Hf H.
  - destruct rest; [| cbn in Hf; lia]. cbn in H. simplify_eq. exists []. rewrite app_nil_r. split; [constructor | done].
  - destruct rest as [|t rest]; [cbn in H; simplify_eq; exists []; rewrite app_nil_r; split; [constructor | done] |].
    cbn [length] in Hf. apply Forall_cons in Hok as [_ Hok]. destruct (Z.eq_dec t 0) as [-> |Ht].
    { cbn in H. destruct (IH rest v Hok ltac:(lia) H) as (l & Hl & Hv). exists l. split; [by constructor | done]. }
    destruct rest as [|n body]; [by destruct t |]. rewrite dio_options_tlv in H by done.
    destruct (_ <? _)%nat eqn:El; [done |]. bool_to_prop. apply Forall_cons in Hok as [Hn Hok]. cbn [length] in Hf.
    assert (length (take (Z.to_nat n) body) = Z.to_nat n) as Hlen by (rewrite length_take; lia).
    assert (forall l, option_list (drop (Z.to_nat n) body) l -> option_list (t :: n :: body) ((t, take (Z.to_nat n) body) :: l)) as Hcons.
    { intros l Hl. pose proof (options_tlv t (take (Z.to_nat n) body) _ l Ht Hl) as Ho. rewrite take_drop, Hlen, Z2Nat.id in Ho; [done |]. clear -Hn. width. }
    assert (length (drop (Z.to_nat n) body) <= fuel)%nat as Hd by (rewrite length_drop; lia).
    destruct (t =? _) eqn:Et; bool_to_prop.
    + destruct (n =? 1) eqn:En; [| done]. cbn [negb] in H. bool_to_prop. subst n. destruct v; [done |].
      destruct (IH _ _ (Forall_drop _ _ _ Hok) Hd H) as (l & Hl & Hv). exists ((t, take (Z.to_nat 1) body) :: l). split; [by apply Hcons |].
      rewrite Hv, filter_cons_True by done. destruct body as [|x body]; [cbn in El; lia |]. cbn. by rewrite Et.
    + destruct (IH _ _ (Forall_drop _ _ _ Hok) Hd H) as (l & Hl & Hv). exists ((t, take (Z.to_nat n) body) :: l). split; [by apply Hcons |].
      by rewrite Hv, filter_cons_False.
Qed.

(** Whole options with at most one version are accepted. *)
Lemma dio_options_complete fuel rest l v v' : option_list rest l -> (length rest <= fuel)%nat ->
  version_options v' = version_options v ++ filter is_version l -> dio_options fuel rest v = Ok v'.
Proof.
  intros Hl. revert fuel v. induction Hl as [|rest l Hl IH|t body rest l Ht Hl IH]; intros fuel v Hf Hv.
  - rewrite app_nil_r in Hv. assert (v' = v) as -> by (destruct v, v'; by simplify_eq). by destruct fuel.
  - cbn [length] in Hf. destruct fuel; [lia |]. apply IH; [lia | done].
  - cbn [length] in Hf. rewrite length_app in Hf. destruct fuel; [lia |]. rewrite dio_options_tlv, Nat2Z.id, length_app by done.
    rewrite (proj2 (Nat.ltb_ge _ _)) by lia. rewrite (drop_app_length' body rest) by done. destruct (t =? _) eqn:Et; bool_to_prop.
    + rewrite filter_cons_True in Hv by done. destruct v; [by destruct v' |]. destruct v' as [x'|]; [| done]. cbn in Hv.
      injection Hv as _ Hb Hv. subst body t. cbn. apply IH; [cbn in Hf; lia |]. by rewrite <- Hv.
    + rewrite filter_cons_False in Hv by done. apply IH; [lia | done].
Qed.

(** The scan accepts exactly well-formed options with at most one Rule Version,
    and returns it. *)
Lemma dio_options_exact rest v : bytes_ok rest ->
  dio_options (length rest) rest None = Ok v <-> exists l, option_list rest l /\ filter is_version l = version_options v.
Proof.
  intros Hok. split.
  - intros H. destruct (dio_options_sound _ _ _ _ Hok ltac:(reflexivity) H) as (l & Hl & Hv). by exists l.
  - intros (l & Hl & Hv). by apply (dio_options_complete _ _ l); [| reflexivity |].
Qed.

(** What an accepted DIO proves of its sender: it comes from the signer's own
    link-local address, names the expected DODAG, carries one Rule Version, and if
    it claims the root rank the DODAG is the address of the signer's key. *)
Lemma check_dio_sound f ipv6 iid dodag mop role c : bytes_ok ipv6 -> check_dio f ipv6 iid dodag mop role = Ok c ->
  slice 8 24 ipv6 = [0xfe; 0x80; 0; 0; 0; 0; 0; 0] ++ match signer_eui64 f with b :: rest => Z.lxor b 2 :: rest | [] => [] end /\
  nth 7 ipv6 0 = 255 /\ slice 8 24 (drop 44 ipv6) = dodag /\
  (role = Root <-> from_be (slice 2 4 (drop 44 ipv6)) = 256) /\ (role = Root -> Addr.ygg_addr_from_pubkey (signer f) = dodag) /\
  (exists l, option_list (drop 68 ipv6) l /\ filter is_version l = [(RplMessage.SCHC_RULE_VERSION_TYPE, [remote_version c])]) /\
  signer_identity c = signer f /\ authenticated_counter c = authenticated_counter_of f /\ key_generation c = peer_key_generation f.
Proof.
  intros Hok H. unfold check_dio in H. destruct (_ || _) eqn:E1; [done |]. apply orb_false_iff in E1 as [E1 _].
  destruct (negb (nth 7 ipv6 0 =? 255)) eqn:E2; [done |]. destruct (_ || _) eqn:E3; [done |]. apply orb_false_iff in E3 as [E3 E3'].
  destruct (_ || _) eqn:E4; [done |]. clear E4. cbv zeta in H. destruct (negb (nth 7 (drop 44 ipv6) 0 =? 0)); [done |].
  destruct (negb (nth 0 (drop 44 ipv6) 0 =? iid)); [done |]. destruct (negb (bool_decide (slice 8 24 (drop 44 ipv6) = dodag))) eqn:E5; [done |].
  destruct (negb (Z.land _ _ =? mop)); [done |]. destruct (negb (Bool.eqb _ _)) eqn:E6; [done |]. destruct (_ && _) eqn:E7; [done |].
  destruct (dio_options _ _ _) as [v|] eqn:E8; [| done]. destruct v as [v|]; [| done]. unfold mbind, result_bind, ok_or in H. injection H as <-.
  cbn [remote_version signer_identity authenticated_counter key_generation].
  apply negb_false_iff in E2, E3, E3', E5, E6. apply bool_decide_eq_true in E3, E3', E5. apply eqb_prop in E6. bool_to_prop.
  assert (role = Root <-> from_be (slice 2 4 (drop 44 ipv6)) = 256) as Hr.
  { rewrite <- (bool_decide_eq_true (role = Root)), <- E6. apply Z.eqb_eq. }
  split; [rewrite <- (take_drop 8 (slice 8 24 ipv6)); by rewrite E3, E3' |].
  split; [done |]. split; [done |]. split; [done |]. split; [| split; [| done]].
  - intros Hroot. apply andb_false_iff in E7 as [E7|E7]; [apply Hr in Hroot; lia |]. apply negb_false_iff in E7. by apply bool_decide_eq_true in E7.
  - apply dio_options_sound in E8 as (l & Hl & Hv); [| by do 2 apply Forall_drop | rewrite !length_drop; lia].
    rewrite drop_drop in Hl. by exists l.
Qed.

(** *** Issuing and revoking *)

(** No signer has two entries. *)
Definition uniq_signers (l : list (option PeerAuthorityEntry)) : Prop :=
  forall i j e e', l !! i = Some (Some e) -> l !! j = Some (Some e') -> pa_signer e = pa_signer e' -> i = j.

Lemma place_spec a s i : authority_place a s = Some i -> uniq_signers (pa_entries a) ->
  (exists old, pa_entries a !! i = Some old /\ forall e, old = Some e -> pa_signer e = s) /\
  (forall j e, pa_entries a !! j = Some (Some e) -> pa_signer e = s -> j = i).
Proof.
  unfold authority_place. intros H Hu. destruct (list_find (is_signer s) _) as [[k x]|] eqn:E.
  - apply list_find_Some in E as (Hk & Hx & _). simplify_eq. destruct x as [e|]; [| done]. split; [exists (Some e); split; [done | by intros ? [= <-]] |].
    intros j e' Hj Hs. apply (Hu j i e' e Hj Hk). by rewrite Hs.
  - apply list_find_None in E. apply fmap_Some in H as ([k x] & Hf & ->). apply list_find_Some in Hf as (Hk & -> & _). split; [by exists None |].
    intros j e Hj Hs. eapply Forall_lookup in Hj; [| exact E]. by destruct Hj.
Qed.

Lemma current_spec a c : authority_is_current a c = true <->
  authority_owner c = owner a /\ exists e, pa_entries a !! authority_slot c = Some (Some e) /\ pa_signer e = signer_identity c /\
    pa_counter e = authenticated_counter c /\ pa_key_generation e = key_generation c /\
    pa_durable_key_generation e = durable_key_generation c /\ pa_generation e = authority_generation c.
Proof.
  unfold authority_is_current. split.
  - intros H. apply andb_true_iff in H as [H0 H]. bool_to_prop. split; [done |]. destruct (pa_entries a !! _) as [[e|]|]; [| done | done].
    exists e. apply andb_true_iff in H as [H H5]. apply andb_true_iff in H as [H H4]. apply andb_true_iff in H as [H H3]. apply andb_true_iff in H as [H1 H2].
    apply bool_decide_eq_true in H1, H4. by bool_to_prop.
  - intros (-> & e & -> & -> & -> & -> & -> & ->). rewrite !Z.eqb_refl, !bool_decide_eq_true_2 by done. done.
Qed.

(** Writing over the place of [s] leaves the contexts of others as they were. *)
Lemma place_other a s i new c : authority_place a s = Some i -> uniq_signers (pa_entries a) -> (forall e, new = Some e -> pa_signer e = s) ->
  uniq_signers (<[i := new]> (pa_entries a)) /\
  (signer_identity c <> s -> authority_is_current (with_pa_entries a (<[i := new]> (pa_entries a))) c = authority_is_current a c).
Proof.
  intros Hp Hu Hnew. destruct (place_spec a s i Hp Hu) as ((old & Hi & Hold) & Honly). pose proof (lookup_lt_Some _ _ _ Hi) as Hlt. split.
  - intros j k e e' Hj Hk Hs. destruct (decide (j = i)) as [-> |Hji], (decide (k = i)) as [-> |Hki]; [done | | |].
    + rewrite list_lookup_insert_eq in Hj by done. rewrite list_lookup_insert_ne in Hk by done. symmetry. apply (Honly k e' Hk). rewrite <- Hs. apply Hnew. congruence.
    + rewrite list_lookup_insert_eq in Hk by done. rewrite list_lookup_insert_ne in Hj by done. apply (Honly j e Hj). rewrite Hs. apply Hnew. congruence.
    + rewrite list_lookup_insert_ne in Hj, Hk by done. by apply (Hu j k e e').
  - intros Hs. apply eq_true_iff_eq. rewrite !current_spec. cbn [with_pa_entries owner pa_entries].
    destruct (decide (authority_slot c = i)) as [-> |Hne]; [| by rewrite list_lookup_insert_ne by done]. rewrite list_lookup_insert_eq, Hi by done.
    split; intros (_ & e & He & Hsig & _); destruct Hs; rewrite <- Hsig; [apply Hnew | apply Hold]; congruence.
Qed.

(** A successful registration makes the new context the only current one of its
    signer: every earlier one is revoked, and under the same keys the counter has
    grown.  Contexts of other signers are not affected, by failures either. *)
Lemma register_supersedes a c kg dkg : uniq_signers (pa_entries a) ->
  let '(r, a') := register a c kg dkg in
  uniq_signers (pa_entries a') /\
  (forall c2, signer_identity c2 <> signer_identity c -> authority_is_current a' c2 = authority_is_current a c2) /\
  match r with
  | Ok c' =>
      authority_is_current a' c' = true /\ signer_identity c' = signer_identity c /\ remote_version c' = remote_version c /\
      forall c2, signer_identity c2 = signer_identity c -> authority_is_current a c2 = true ->
        authority_is_current a' c2 = false /\
        (key_generation c2 = kg -> durable_key_generation c2 = dkg -> authenticated_counter c2 < authenticated_counter c')
  | Err _ => True
  end.
Proof.
  intros Hu. unfold register. destruct (authority_place a (signer_identity c)) as [i|] eqn:Hp; [| done].
  destruct (place_spec a _ i Hp Hu) as ((old & Hi & Hold) & Honly). pose proof (lookup_lt_Some _ _ _ Hi) as Hlt. rewrite Hi. change (default None (Some old)) with old. cbv zeta.
  destruct (_ || _) eqn:Er; [done |]. apply orb_false_iff in Er as [Er _]. destruct (_ =? 0) eqn:Eg.
  { destruct (place_other a _ i None c Hp Hu ltac:(done)) as [Hu' _]. split; [done |]. split; [| done]. intros c2 Hc2. by apply (place_other a (signer_identity c)). }
  cbn [with_pa_entries pa_entries].
  set (e' := {| pa_signer := signer_identity c; pa_counter := authenticated_counter c |}).
  assert (forall e, Some e' = Some e -> pa_signer e = signer_identity c) as Hnew by (by intros ? [= <-]).
  destruct (place_other a _ i (Some e') c Hp Hu Hnew) as [Hu' _]. split; [done |]. split; [intros c2 Hc2; by apply (place_other a (signer_identity c)) |].
  split; [| split; [done | split; [done |]]].
  - apply current_spec. cbn. split; [done |]. exists e'. split; [by apply list_lookup_insert_eq | done].
  - intros c2 Hs Hc2. apply current_spec in Hc2 as (_ & e & He & Hes & Hcnt & Hkg & Hdkg & Hgen).
    assert (authority_slot c2 = i) as Hslot by (apply (Honly _ e He); congruence). rewrite Hslot, Hi in He. injection He as ->. split.
    + apply not_true_is_false. intros Hc. apply current_spec in Hc as (_ & x & Hx & _ & _ & _ & _ & Hxg). cbn [with_pa_entries pa_entries] in Hx.
      rewrite Hslot, list_lookup_insert_eq in Hx by done. injection Hx as <-. subst e'. cbn [pa_generation] in Hxg. cbv iota beta in Hxg, Eg. unfold checked_add in *.
      destruct (_ <=? _); cbn in Hxg, Eg; [lia | done].
    + intros Hk Hd. rewrite <- Hkg in Hk. rewrite <- Hdkg in Hd. rewrite Hk, Hd, Z.eqb_refl, bool_decide_eq_true_2 in Er by done.
      cbn in Er |- *. bool_to_prop. lia.
Qed.

(** Retiring a signer revokes its contexts and no other. *)
Lemma retire_revokes a s c : authority_is_current (retire_signer a s) c = authority_is_current a c && negb (bool_decide (signer_identity c = s)).
Proof.
  apply eq_true_iff_eq. rewrite andb_true_iff, negb_true_iff, bool_decide_eq_false, !current_spec. cbn [retire_signer with_pa_entries owner pa_entries].
  rewrite list_lookup_fmap. split.
  - intros (Ho & e & He & Hs & Hrest). destruct (pa_entries a !! _) as [o|]; [| done]. cbn in He. case_decide as Hd; simplify_eq.
    split; [split; [done |]; by exists e |]. rewrite <- Hs. exact Hd.
  - intros ((Ho & e & He & Hs & Hrest) & Hne). split; [done |]. exists e. rewrite He. cbn. rewrite decide_False by (cbn; congruence). done.
Qed.

(** Reachable authorities. *)
Inductive authority_op :=
| Issue (f : AuthenticatedLinkFrame) (instance_id : Z) (dodag_id : bytes) (mop : Z) (role : ExpectedDioRole)
| Retire (s : bytes).
Definition authority_step (a : PeerContextAuthority) (o : authority_op) : PeerContextAuthority :=
  match o with
  | Issue f iid dodag mop role => snd (issue_from_authenticated_dio a f iid dodag mop role)
  | Retire s => retire_signer a s
  end.

Lemma step_uniq a o : uniq_signers (pa_entries a) -> uniq_signers (pa_entries (authority_step a o)).
Proof.
  intros Hu. destruct o as [f iid dodag mop role|s]; cbn.
  - unfold issue_from_authenticated_dio. destruct (_ || _); [done |]. destruct (parse_authenticated_dio_evidence _ _ _ _ _) as [c|]; [| done].
    pose proof (register_supersedes a c (peer_key_generation f) (durable_peer_key_generation f) Hu) as Hr. destruct (register _ _ _ _). by destruct Hr.
  - intros i j e e' Hi Hj. rewrite list_lookup_fmap in Hi, Hj. destruct (pa_entries a !! i) as [o|] eqn:Ei, (pa_entries a !! j) as [o'|] eqn:Ej; try done.
    cbn in Hi, Hj. repeat case_decide; simplify_eq. by apply (Hu i j).
Qed.

(** Whatever is issued and retired, a signer has at most one current context: two
    current ones agree on its counter, keys and generation. *)
Lemma one_context_per_signer `{Schnorr.Crypto} m next local a next' ops c1 c2 : authority_new m next local = (Ok a, next') ->
  let a := foldl authority_step a ops in
  authority_is_current a c1 = true -> authority_is_current a c2 = true -> signer_identity c1 = signer_identity c2 ->
  authority_slot c1 = authority_slot c2 /\ authenticated_counter c1 = authenticated_counter c2 /\
  key_generation c1 = key_generation c2 /\ authority_generation c1 = authority_generation c2.
Proof.
  intros Hnew. cbv zeta. assert (uniq_signers (pa_entries a)) as Hu.
  { unfold authority_new in Hnew. destruct (_ || _); [done |]. destruct (Evidence.nonzero _); [| done]. injection Hnew as <- _.
    intros i j e e' Hi. apply lookup_replicate in Hi as [? _]. done. }
  assert (uniq_signers (pa_entries (foldl authority_step a ops))) as Hu'.
  { clear Hnew. revert a Hu. induction ops as [|o ops IH]; intros a Hu; [done |]. by apply IH, step_uniq. }
  rewrite !current_spec. intros (_ & e1 & He1 & Hs1 & Hc1 & Hk1 & _ & Hg1) (_ & e2 & He2 & Hs2 & Hc2 & Hk2 & _ & Hg2) Hs.
  pose proof (Hu' _ _ _ _ He1 He2 ltac:(congruence)) as Hslot. rewrite Hslot in He1. simplify_eq. split_and!; congruence.
Qed.

(** *** Exchange with a peer of another rule set *)

(** Towards a peer whose version differs the packet travels as Rule 255, and the
    peer restores it whatever version it believes the sender has. *)
Lemma mismatch_exchange c1 a1 c2 a2 p out out2 l1 l2 : authority_is_current a1 c1 = true -> authority_is_current a2 c2 = true ->
  allows_dodag_join c1 = false -> bytes_ok p -> validate_full_ipv6 p = Ok tt ->
  Z.of_nat (length p) < profile_limit l1 -> Z.of_nat (length p) < profile_limit l2 ->
  (length p < length out)%nat -> (length p <= length out2)%nat ->
  exists out', compress_with_authority c1 a1 p out l1 = (Ok (S (length p)), out') /\
    take (S (length p)) out' = RULE_UNCOMPRESSED :: p /\
    decompress_with_authority c2 a2 (take (S (length p)) out') out2 l2 = (Ok (length p), p ++ drop (length p) out2).
Proof.
  intros H1 H2 Hv Hok Hp Hl1 Hl2 Ho Ho2. unfold compress_with_authority, decompress_with_authority. rewrite H1, H2, Hv. cbn [negb].
  unfold encode_rule255. rewrite Hp, (proj2 (Nat.ltb_ge _ _)), (proj2 (Z.ltb_ge _ _)) by lia.
  eexists. rewrite Nat.add_1_r. split; [done |]. destruct out as [|x out]; [cbn in Ho; lia |]. cbn [length] in Ho.
  assert (take (S (length p)) (list_inserts 1 p (<[0%nat := RULE_UNCOMPRESSED]> (x :: out))) = RULE_UNCOMPRESSED :: p) as Ht.
  { change (<[0%nat := RULE_UNCOMPRESSED]> (x :: out)) with (RULE_UNCOMPRESSED :: out).
    assert (forall q i (y : Z) o, list_inserts (S i) q (y :: o) = y :: list_inserts i q o) as Hcons.
    { intros q. induction q as [|z q IH]; intros i y o; [done |]. cbn. by rewrite IH. }
    rewrite Hcons, inserts_front by lia. cbn. by rewrite take_app_length. }
  split; [done |]. rewrite Ht.
  assert (within_profile (RULE_UNCOMPRESSED :: p)) as Hw by (unfold within_profile, profile_limit in *; cbn [length]; destruct l1; lia).
  assert (validate_full_ipv6_structure p = Ok tt) as Hvs by (by apply validate_split in Hp as (? & _)).
  destruct (allows_dodag_join c2); [rewrite decompress_rule_255 by done; by apply decode_raw |].
  pose proof (decode_raw p out2 Hw Hvs Ho2) as Hd. unfold decode_rule255 in *. cbn [head] in *. rewrite bool_decide_eq_true_2 in * by done. cbn [negb] in *.
  rewrite (proj2 (Z.ltb_ge (profile_limit l2) _)) by (cbn [length]; lia). by rewrite (proj2 (Z.ltb_ge (profile_limit None) _)) in Hd.
Qed.

(** A peer of another version never has compressed data decompressed. *)
Lemma mismatch_rejects c a data out l : allows_dodag_join c = false -> head data <> Some RULE_UNCOMPRESSED ->
  exists e, decompress_with_authority c a data out l = (Err e, out).
Proof.
  intros Hv Hh. unfold decompress_with_authority, decode_rule255. rewrite Hv, bool_decide_eq_false_2 by done. destruct (negb _); by eexists.
Qed.

End PeerContext.
