(* ===== verification/FragPolicy.v ===== *)
(** * SCHC fragmentation: the policy of authenticated peers

    lichen-schc/src/fragment.rs: [FragmentationPolicy] with its per-peer entries
    (reservations, hold-downs, counter floors), the sealed floor record, and the
    operations of [FragmentSender] and [AuthenticatedFragmentReceiver] that
    consult it.

    An operation changes its state also on the way to an error (the clock it
    observed stays observed), so operations are functions of a small state and
    error monad that keeps the state of a failed run.  What an operation asks of
    a live link (is the peer still current, is this frame for us, does a sealed
    record wait) is an argument of the definitions for [std]; the definitions for
    the bounded authority ask [PeerContext].  The process counter of owners is an
    argument of the constructor. *)

From S2P Require Import Prelude Frame Evidence Schnorr FragCodec FragSession SchcPeer.
Open Scope Z_scope.

Module FragPolicy.
Import Frag FragSession.
Import PeerContext (AuthenticatedPeerSchcContext, AuthenticatedLinkFrame, PeerContextAuthority, authority_is_current, allows_dodag_join,
  signer_identity, authenticated_counter, key_generation, durable_key_generation, receipt_clock_domain, authenticated_counter_of, monotonic_millis,
  destination, destination_mode, signer, receipt, is_current, local_signer, local_eui64).

(** ** State with errors *)

Definition M (S A : Type) : Type := S -> result FragmentError A * S.
Definition ret {S A} (a : A) : M S A := fun s => (Ok a, s).
Definition fail {S A} (e : FragmentError) : M S A := fun s => (Err e, s).
Definition lift {S A} (r : result FragmentError A) : M S A := fun s => (r, s).
Definition get {S} : M S S := fun s => (Ok s, s).
Definition put {S} (s : S) : M S unit := fun _ => (Ok tt, s).
Definition bind {S A B} (m : M S A) (k : A -> M S B) : M S B :=
  fun s => match m s with (Ok a, s) => k a s | (Err e, s) => (Err e, s) end.
Definition require {S} (b : bool) (e : FragmentError) : M S unit := if b then ret tt else fail e.

Declare Scope policy_scope.
Delimit Scope policy_scope with policy.
Notation "'let!' x := m 'in' k" := (bind m (fun x => k)) (at level 10, x name, m at level 200, k at level 200) : policy_scope.
Notation "m ;; k" := (bind m (fun _ => k)) (at level 100, k at level 200, right associativity) : policy_scope.
#[local] Open Scope policy_scope.

(** ** The entry of a peer *)

Record SessionReservation := { id : Z; expires_at_ms : Z; high_counter : Z }.
Record TerminalTombstone := { until_ms : Z; t_high_counter : Z; t_result : ReceiverResult }.

Record FragmentationPolicyEntry := {
  e_signer : bytes;
  generation : Z;
  e_key_generation : Z;
  e_durable_key_generation : bytes;
  e_authenticated_counter : Z;
  compatible : bool;
  floor_restore_required : bool;
  sender_sessions : list (option SessionReservation);
  receiver_sessions : list (option SessionReservation);
  sender_tombstones : list (option TerminalTombstone);
  receiver_tombstones : list (option TerminalTombstone);
  next_session_id : Z;
  last_now_ms : Z
}.

(** Assignment to the arrays, and to the scalars. *)
Definition with_lanes (e : FragmentationPolicyEntry) ss rs st rt : FragmentationPolicyEntry :=
  {| e_signer := e_signer e; generation := generation e; e_key_generation := e_key_generation e;
     e_durable_key_generation := e_durable_key_generation e; e_authenticated_counter := e_authenticated_counter e;
     compatible := compatible e; floor_restore_required := floor_restore_required e; sender_sessions := ss; receiver_sessions := rs;
     sender_tombstones := st; receiver_tombstones := rt; next_session_id := next_session_id e; last_now_ms := last_now_ms e |}.
Definition with_scalars (e : FragmentationPolicyEntry) counter compat restore next now : FragmentationPolicyEntry :=
  {| e_signer := e_signer e; generation := generation e; e_key_generation := e_key_generation e;
     e_durable_key_generation := e_durable_key_generation e; e_authenticated_counter := counter;
     compatible := compat; floor_restore_required := restore; sender_sessions := sender_sessions e; receiver_sessions := receiver_sessions e;
     sender_tombstones := sender_tombstones e; receiver_tombstones := receiver_tombstones e; next_session_id := next; last_now_ms := now |}.
Definition set_now (e : FragmentationPolicyEntry) (now : Z) := with_scalars e (e_authenticated_counter e) (compatible e) (floor_restore_required e) (next_session_id e) now.
Definition set_next (e : FragmentationPolicyEntry) (n : Z) := with_scalars e (e_authenticated_counter e) (compatible e) (floor_restore_required e) n (last_now_ms e).
Definition set_ss (e : FragmentationPolicyEntry) (i : nat) (x : option SessionReservation) :=
  with_lanes e (<[i := x]> (sender_sessions e)) (receiver_sessions e) (sender_tombstones e) (receiver_tombstones e).
Definition set_rs (e : FragmentationPolicyEntry) (i : nat) (x : option SessionReservation) :=
  with_lanes e (sender_sessions e) (<[i := x]> (receiver_sessions e)) (sender_tombstones e) (receiver_tombstones e).
Definition set_st (e : FragmentationPolicyEntry) (i : nat) (x : option TerminalTombstone) :=
  with_lanes e (sender_sessions e) (receiver_sessions e) (<[i := x]> (sender_tombstones e)) (receiver_tombstones e).
Definition set_rt (e : FragmentationPolicyEntry) (i : nat) (x : option TerminalTombstone) :=
  with_lanes e (sender_sessions e) (receiver_sessions e) (sender_tombstones e) (<[i := x]> (receiver_tombstones e)).
(** An index is 0 or 1, a position of every array. *)
Definition at_index {A} (l : list (option A)) (i : nat) : option A := default None (l !! i).

Abbreviation ME := (M FragmentationPolicyEntry).

Definition observe_policy_now (now : Z) : ME unit := fun e =>
  if now <? last_now_ms e then (Err InvalidPeerEvidence, e) else (Ok tt, set_now e now).
Definition inactivity_deadline (now : Z) : result FragmentError Z :=
  match checked_add u64_max now INACTIVITY_TIMEOUT_MILLIS with
  | None => Err InvalidPeerEvidence
  | Some t => match checked_add u64_max t FRAGMENT_TOMBSTONE_MILLIS with None => Err InvalidPeerEvidence | Some _ => Ok t end
  end.
Definition tombstone_deadline (now : Z) : result FragmentError Z := ok_or (checked_add u64_max now FRAGMENT_TOMBSTONE_MILLIS) InvalidPeerEvidence.
Definition retransmission_deadline (now : Z) : result FragmentError Z := ok_or (checked_add u64_max now RETRANSMISSION_TIMEOUT_MILLIS) InvalidPeerEvidence.
Definition hold_until (now : Z) : Z := saturating_add u64_max now FRAGMENT_TOMBSTONE_MILLIS.

Definition expire_sender_session (e : FragmentationPolicyEntry) (i : nat) (now : Z) : FragmentationPolicyEntry :=
  match at_index (sender_sessions e) i with
  | None => e
  | Some s => set_st (set_ss e i None) i (Some {| until_ms := hold_until now; t_high_counter := high_counter s; t_result := result_default |})
  end.
Definition abort_result (rule : Z) : ReceiverResult :=
  {| response := Some (RespReceiverAbort rule); res_packet_len := None; mic_ok := None; aborted := true |}.
Definition expire_receiver_session (e : FragmentationPolicyEntry) (i : nat) (now : Z) : FragmentationPolicyEntry :=
  match at_index (receiver_sessions e) i with
  | None => e
  | Some s =>
      let rule := if (i =? 0)%nat then RULE_ID_A_TO_B else RULE_ID_B_TO_A in
      set_rt (set_rs e i None) i (Some {| until_ms := hold_until now; t_high_counter := high_counter s; t_result := abort_result rule |})
  end.

Definition drop_due (now : Z) (t : option TerminalTombstone) : option TerminalTombstone :=
  match t with Some x => if until_ms x <=? now then None else t | None => None end.
Definition is_due (now : Z) (s : option SessionReservation) : bool :=
  match s with Some x => expires_at_ms x <=? now | None => false end.
(** One round of the loop over the two indices. *)
Definition expire_at_index (now : Z) (acc : FragmentationPolicyEntry * nat) (i : nat) : FragmentationPolicyEntry * nat :=
  let '(e, n) := acc in
  let '(e, n) := if is_due now (at_index (sender_sessions e) i) then (expire_sender_session e i now, S n) else (e, n) in
  if is_due now (at_index (receiver_sessions e) i) then (expire_receiver_session e i now, S n) else (e, n).
Definition expire_sessions_at (e : FragmentationPolicyEntry) (now : Z) : FragmentationPolicyEntry * nat :=
  let e := with_lanes e (sender_sessions e) (receiver_sessions e) (drop_due now <$> sender_tombstones e) (drop_due now <$> receiver_tombstones e) in
  foldl (expire_at_index now) (e, O) [0; 1]%nat.

Definition take_session_id : ME Z := fun e =>
  match Evidence.nonzero (checked_add u32_max (next_session_id e) 1) with
  | None => (Err PolicyFull, e)
  | Some next => (Ok (next_session_id e), set_next e next)
  end.

(** ** Reservations *)

Definition entry_reserve_sender (rule now initial : Z) : ME Z :=
  let! i := lift (rule_index rule) in
  observe_policy_now now ;;
  let! e := get in
  match at_index (sender_sessions e) i with
  | Some s =>
      if now <? expires_at_ms s then fail SessionBusy
      else
        put (set_st (set_ss e i None) i (Some {| until_ms := hold_until now; t_high_counter := high_counter s; t_result := result_default |})) ;;
        fail SessionBusy
  | None =>
      if match at_index (sender_tombstones e) i with Some t => now <? until_ms t | None => false end then fail SessionBusy
      else
        put (set_st e i None) ;;
        let! deadline := lift (inactivity_deadline now) in
        let! n := take_session_id in
        let! e := get in
        put (set_ss e i (Some {| id := n; expires_at_ms := deadline; high_counter := initial |})) ;;
        ret n
  end.

Definition entry_reserve_receiver (rule now initial : Z) : ME (Z * Z) :=
  let! i := lift (rule_index rule) in
  observe_policy_now now ;;
  let! e := get in
  match at_index (receiver_sessions e) i with
  | Some s =>
      if now <? expires_at_ms s then fail SessionBusy
      else
        put (set_rt (set_rs e i None) i (Some {| until_ms := hold_until now; t_high_counter := high_counter s; t_result := result_default |})) ;;
        fail SessionBusy
  | None =>
      let! floor := match at_index (receiver_tombstones e) i with
        | Some t => if now <? until_ms t then fail SessionBusy else ret (Z.max (t_high_counter t) initial)
        | None => ret initial end in
      put (set_rt e i None) ;;
      let! deadline := lift (inactivity_deadline now) in
      let! n := take_session_id in
      let! e := get in
      put (set_rs e i (Some {| id := n; expires_at_ms := deadline; high_counter := floor |})) ;;
      ret (n, floor)
  end.

(** The session a handle names, or [InvalidState]. *)
Definition own_session (s : option SessionReservation) (n : Z) : ME SessionReservation :=
  match s with
  | Some s => if id s =? n then ret s else fail InvalidState
  | None => fail InvalidState
  end.

Definition entry_release_sender (rule n now high : Z) : ME unit :=
  let! i := lift (rule_index rule) in
  observe_policy_now now ;;
  let! e := get in
  own_session (at_index (sender_sessions e) i) n ;;
  let! until := lift (tombstone_deadline now) in
  put (set_st (set_ss e i None) i (Some {| until_ms := until; t_high_counter := high; t_result := result_default |})).

Definition entry_release_receiver (rule n now high : Z) (r : ReceiverResult) : ME unit :=
  let! i := lift (rule_index rule) in
  observe_policy_now now ;;
  let! e := get in
  let! s := own_session (at_index (receiver_sessions e) i) n in
  let! until := lift (tombstone_deadline now) in
  put (set_rt (set_rs e i None) i (Some {| until_ms := until; t_high_counter := Z.max high (high_counter s);
    t_result := {| response := response r; res_packet_len := None; mic_ok := mic_ok r; aborted := aborted r |} |})).

Definition entry_touch_sender (rule n now : Z) : ME unit :=
  let! i := lift (rule_index rule) in
  observe_policy_now now ;;
  let! e := get in
  let! s := own_session (at_index (sender_sessions e) i) n in
  if expires_at_ms s <=? now then put (expire_sender_session e i now) ;; fail InvalidState
  else
    let! deadline := lift (inactivity_deadline now) in
    put (set_ss e i (Some {| id := id s; expires_at_ms := deadline; high_counter := high_counter s |})).

Definition entry_touch_receiver (rule n now counter : Z) : ME unit :=
  let! i := lift (rule_index rule) in
  observe_policy_now now ;;
  let! e := get in
  let! s := own_session (at_index (receiver_sessions e) i) n in
  if expires_at_ms s <=? now then put (expire_receiver_session e i now) ;; fail InvalidState
  else
    let! deadline := lift (inactivity_deadline now) in
    put (set_rs e i (Some {| id := id s; expires_at_ms := deadline; high_counter := Z.max (high_counter s) counter |})).

Definition entry_expire_receiver (rule n now : Z) : ME unit :=
  let! i := lift (rule_index rule) in
  observe_policy_now now ;;
  let! e := get in
  let! s := own_session (at_index (receiver_sessions e) i) n in
  if now <? expires_at_ms s then fail InvalidState else put (expire_receiver_session e i now).

Definition entry_abandon_sender (rule n high : Z) (e : FragmentationPolicyEntry) : FragmentationPolicyEntry :=
  match rule_index rule with
  | Err _ => e
  | Ok i =>
      match at_index (sender_sessions e) i with
      | Some s =>
          if id s =? n then set_st (set_ss e i None) i (Some {| until_ms := hold_until (last_now_ms e);
            t_high_counter := Z.max (high_counter s) high; t_result := result_default |})
          else e
      | None => e
      end
  end.
Definition entry_abandon_receiver (rule n high : Z) (e : FragmentationPolicyEntry) : FragmentationPolicyEntry :=
  match rule_index rule with
  | Err _ => e
  | Ok i =>
      match at_index (receiver_sessions e) i with
      | Some s =>
          if id s =? n then set_rt (set_rs e i None) i (Some {| until_ms := hold_until (last_now_ms e);
            t_high_counter := Z.max (high_counter s) high;
            t_result := {| response := None; res_packet_len := None; mic_ok := None; aborted := true |} |})
          else e
      | None => e
      end
  end.

Definition entry_replay_receiver_terminal (rule counter now : Z) (data : bytes) : ME (option ReceiverResult) :=
  let! i := lift (rule_index rule) in
  observe_policy_now now ;;
  let! e := get in
  match at_index (receiver_tombstones e) i with
  | None => ret None
  | Some t =>
      if counter <=? t_high_counter t then fail InvalidPeerEvidence
      else
        let ack_request := (length data =? 2)%nat && (nth 0 data 0 =? rule) && (Z.land (nth 1 data 0) 0x7f =? 0) in
        let all_1 := match fragment_from_bytes data TILE_SIZE with Ok f => (rule_id f =? rule) && is_all_1 f | Err _ => false end in
        let opener := is_receiver_session_opener data rule in
        if (until_ms t <=? now) && opener then ret None
        else
          put (set_rt e i (Some {| until_ms := until_ms t; t_high_counter := counter; t_result := t_result t |})) ;;
          ret (if (now <? until_ms t) && (ack_request || all_1) then Some (t_result t) else None)
  end.

(** ** The policy *)

Record FragmentationPolicy := {
  owner : Z;
  p_local_signer : option bytes;
  entries : list (option FragmentationPolicyEntry);
  receiving_link : option Z
}.
Definition with_entries (p : FragmentationPolicy) (l : list (option FragmentationPolicyEntry)) : FragmentationPolicy :=
  {| owner := owner p; p_local_signer := p_local_signer p; entries := l; receiving_link := receiving_link p |}.

Definition policy_new (max_peers : nat) (next_owner : Z) : result FragmentError FragmentationPolicy * Z :=
  if (max_peers =? 0)%nat || (u16_max <? Z.of_nat max_peers) then (Err PolicyFull, next_owner)
  else
    match Evidence.nonzero (checked_add u32_max next_owner 1) with
    | None => (Err PolicyFull, next_owner)
    | Some next => (Ok {| owner := next_owner; p_local_signer := None; entries := replicate max_peers None; receiving_link := None |}, next)
    end.

Abbreviation MP := (M FragmentationPolicy).

Definition expire_due (now : Z) : MP nat := fun p =>
  if existsb (fun e => match e with Some e => now <? last_now_ms e | None => false end) (entries p) then (Err InvalidPeerEvidence, p)
  else
    let step e := match e with
      | Some e => let '(e, n) := expire_sessions_at (set_now e now) now in (Some e, n)
      | None => (None, O) end in
    (Ok (sum_list (snd <$> (step <$> entries p))), with_entries p (fst <$> (step <$> entries p))).

Definition bind_local_signer (s : bytes) : MP unit := fun p =>
  if match p_local_signer p with Some c => negb (bool_decide (c = s)) | None => false end then (Err InvalidPeerEvidence, p)
  else (Ok tt, {| owner := owner p; p_local_signer := Some s; entries := entries p; receiving_link := receiving_link p |}).

(** The entry a permit names: every part of the permit has to match. *)
Definition permit_entry (p : FragmentationPolicy) (permit : Permit) : option FragmentationPolicyEntry :=
  if negb (p_owner permit =? owner p) then None
  else
    match entries p !! Z.to_nat (p_slot permit) with
    | Some (Some e) =>
        if (generation e =? p_generation permit) && bool_decide (e_signer e = p_signer permit) && (e_key_generation e =? p_key_generation permit)
           && bool_decide (e_durable_key_generation e = p_durable_key_generation permit) then Some e else None
    | _ => None
    end.
(** [current_entry_mut] and an operation on the entry it gives. *)
Definition on_entry {A} (permit : Permit) (m : ME A) : MP A := fun p =>
  match permit_entry p permit with
  | None => (Err InvalidPeerEvidence, p)
  | Some e => let '(r, e) := m e in (r, with_entries p (<[Z.to_nat (p_slot permit) := Some e]> (entries p)))
  end.

(** The check here leaves out the durable generation. *)
Definition rule_for_permit (p : FragmentationPolicy) (permit : Permit) (outbound : bool) : result FragmentError Z :=
  if negb (p_owner permit =? owner p) ||
     negb match entries p !! Z.to_nat (p_slot permit) with
          | Some (Some e) => (generation e =? p_generation permit) && (e_key_generation e =? p_key_generation permit) && bool_decide (e_signer e = p_signer permit)
          | _ => false end
  then Err InvalidPeerEvidence
  else
    match p_local_signer p with
    | None => Err InvalidPeerEvidence
    | Some local => canonical_fragmentation_rule local (p_signer permit) outbound
    end.
Definition outbound_rule (p : FragmentationPolicy) (permit : Permit) := rule_for_permit p permit true.
Definition inbound_rule (p : FragmentationPolicy) (permit : Permit) := rule_for_permit p permit false.

Definition is_entry_of (s : bytes) (e : option FragmentationPolicyEntry) : Prop := match e with Some e => e_signer e = s | None => False end.
#[export] Instance is_entry_of_dec s e : Decision (is_entry_of s e).
Proof. destruct e; cbn; apply _. Defined.
Definition policy_place (p : FragmentationPolicy) (s : bytes) : option nat :=
  match list_find (is_entry_of s) (entries p) with
  | Some (i, _) => Some i
  | None => fst <$> list_find (fun e => e = None) (entries p)
  end.

Definition fresh_entry (peer : AuthenticatedPeerSchcContext) (gen now : Z) : FragmentationPolicyEntry :=
  {| e_signer := signer_identity peer; generation := gen; e_key_generation := key_generation peer;
     e_durable_key_generation := durable_key_generation peer; e_authenticated_counter := authenticated_counter peer;
     compatible := allows_dodag_join peer; floor_restore_required := false; sender_sessions := [None; None]; receiver_sessions := [None; None];
     sender_tombstones := [None; None]; receiver_tombstones := [None; None]; next_session_id := 1; last_now_ms := now |}.
Definition issue_permit (p : FragmentationPolicy) (slot : nat) (gen : Z) (peer : AuthenticatedPeerSchcContext) : Permit :=
  {| p_owner := owner p; p_slot := Z.of_nat slot; p_generation := gen; p_key_generation := key_generation peer;
     p_durable_key_generation := durable_key_generation peer; p_signer := signer_identity peer |}.

(** The same keys and compatibility as before refresh the entry and keep its
    sessions; anything else replaces it. *)
Definition install_peer (peer : AuthenticatedPeerSchcContext) (now : Z) : MP Permit := fun p =>
  let store slot e := with_entries p (<[slot := Some e]> (entries p)) in
  match p_local_signer p with
  | None => (Err InvalidPeerEvidence, p)
  | Some local =>
      match canonical_fragmentation_rule local (signer_identity peer) true with
      | Err e => (Err e, p)
      | Ok _ =>
          match policy_place p (signer_identity peer) with
          | None => (Err PolicyFull, p)
          | Some slot =>
              let replace gen :=
                let e := fresh_entry peer gen now in
                (if compatible e then Ok (issue_permit p slot gen peer) else Err VersionMismatch, store slot e) in
              match entries p !! slot with
              | Some (Some e) =>
                  if (e_key_generation e =? key_generation peer) && bool_decide (e_durable_key_generation e = durable_key_generation peer)
                     && Bool.eqb (compatible e) (allows_dodag_join peer) then
                    if (authenticated_counter peer <=? e_authenticated_counter e) || (now <? last_now_ms e) then (Err InvalidPeerEvidence, p)
                    else
                      let e := with_scalars e (authenticated_counter peer) (compatible e) (floor_restore_required e) (next_session_id e) now in
                      (if compatible e then Ok (issue_permit p slot (generation e) peer) else Err VersionMismatch, store slot e)
                  else
                    let gen := default 0 (checked_add u32_max (generation e) 1) in
                    if gen =? 0 then
                      (Err InvalidPeerEvidence,
                       store slot (with_scalars e (e_authenticated_counter e) false (floor_restore_required e) (next_session_id e) (last_now_ms e)))
                    else if now <? last_now_ms e then (Err InvalidPeerEvidence, p)
                    else replace gen
              | _ => replace 1
              end
          end
      end
  end.

(** [accept_peer]: [link] identifies the receiving link, [restore] is what it says
    of a sealed floor record. *)
Definition accept_peer (peer_current : bool) (link : Z) (link_key : bytes) (restore : bool) (peer : AuthenticatedPeerSchcContext) (now : Z) : MP Permit :=
  require peer_current InvalidPeerEvidence ;;
  let! p := get in
  require match receiving_link p with Some l => l =? link | None => true end InvalidPeerEvidence ;;
  put {| owner := owner p; p_local_signer := p_local_signer p; entries := entries p; receiving_link := Some (default link (receiving_link p)) |} ;;
  bind_local_signer link_key ;;
  let! permit := install_peer peer now in
  (if restore then
     on_entry permit (fun e => (Ok tt, with_scalars e (e_authenticated_counter e) (compatible e) true (next_session_id e) (last_now_ms e)))
   else ret tt) ;;
  ret permit.
Definition accept_peer_with_authority (a : PeerContextAuthority) (peer : AuthenticatedPeerSchcContext) (now : Z) : MP Permit :=
  require (authority_is_current a peer) InvalidPeerEvidence ;;
  bind_local_signer (local_signer a) ;;
  install_peer peer now.

Definition accepts_entry (p : FragmentationPolicy) (permit : Permit) (peer : AuthenticatedPeerSchcContext) : bool :=
  bool_decide (signer_identity peer = p_signer permit) && (key_generation peer =? p_key_generation permit) &&
  bool_decide (durable_key_generation peer = p_durable_key_generation permit) &&
  match permit_entry p permit with
  | Some e => compatible e && negb (floor_restore_required e) && (e_authenticated_counter e =? authenticated_counter peer)
  | None => false
  end.
Definition accepts_with_authority (p : FragmentationPolicy) (permit : Permit) (a : PeerContextAuthority) (peer : AuthenticatedPeerSchcContext) : bool :=
  authority_is_current a peer && accepts_entry p permit peer.
Definition accepts_current (p : FragmentationPolicy) (permit : Permit) (peer_current : bool) (link : Z) (peer : AuthenticatedPeerSchcContext) : bool :=
  peer_current && bool_decide (receiving_link p = Some link) && accepts_entry p permit peer.

Definition reserve_sender (permit : Permit) (rule now initial : Z) : MP Z := on_entry permit (entry_reserve_sender rule now initial).
Definition reserve_receiver (permit : Permit) (rule now initial : Z) : MP (Z * Z) := on_entry permit (entry_reserve_receiver rule now initial).
Definition release_sender (permit : Permit) (rule n now high : Z) : MP unit := on_entry permit (entry_release_sender rule n now high).
Definition release_receiver (permit : Permit) (rule n now high : Z) (r : ReceiverResult) : MP unit := on_entry permit (entry_release_receiver rule n now high r).
Definition touch_sender (permit : Permit) (rule n now : Z) : MP unit := on_entry permit (entry_touch_sender rule n now).
Definition touch_receiver (permit : Permit) (rule n now counter : Z) : MP unit := on_entry permit (entry_touch_receiver rule n now counter).
Definition expire_receiver (permit : Permit) (rule n now : Z) : MP unit := on_entry permit (entry_expire_receiver rule n now).
Definition abandon_sender (permit : Permit) (rule n high : Z) (p : FragmentationPolicy) : FragmentationPolicy :=
  snd (on_entry permit (fun e => (Ok tt, entry_abandon_sender rule n high e)) p).
Definition abandon_receiver (permit : Permit) (rule n high : Z) (p : FragmentationPolicy) : FragmentationPolicy :=
  snd (on_entry permit (fun e => (Ok tt, entry_abandon_receiver rule n high e)) p).
Definition replay_receiver_terminal (permit : Permit) (rule counter now : Z) (data : bytes) : MP (option ReceiverResult) :=
  on_entry permit (entry_replay_receiver_terminal rule counter now data).

Definition retire_peer (s : bytes) (p : FragmentationPolicy) : FragmentationPolicy :=
  with_entries p ((fun e => if decide (is_entry_of s e) then None else e) <$> entries p).

(** ** The lanes of an entry

    Each direction of each rule is a lane: free, busy with one session, or held
    after one.  An operation of the entry moves a single lane, or lets time pass
    on all of them. *)

Inductive lane :=
| Free
| Busy (n expires high : Z)
| Hold (until high : Z).
Definition lane_of (st : option SessionReservation * option TerminalTombstone) : lane :=
  match st with
  | (Some s, _) => Busy (id s) (expires_at_ms s) (high_counter s)
  | (None, Some t) => Hold (until_ms t) (t_high_counter t)
  | (None, None) => Free
  end.
(** Senders first, then receivers. *)
Definition lanes (e : FragmentationPolicyEntry) : list lane :=
  (lane_of <$> zip (sender_sessions e) (sender_tombstones e)) ++ (lane_of <$> zip (receiver_sessions e) (receiver_tombstones e)).
Definition RECEIVERS : nat := 2.

(** What may happen to a lane at time [now] when the next session is [next]; on
    the lane of a receiver the counter never goes down. *)
Inductive lane_move (recv : bool) (next now : Z) : lane -> lane -> Z -> Prop :=
| lm_stay l : lane_move recv next now l l next
| lm_clear u h : u <= now -> lane_move recv next now (Hold u h) Free next
| lm_reserve l h : (match l with Free => True | Hold u h' => u <= now /\ (recv = true -> h' <= h) | Busy _ _ _ => False end) ->
    now + INACTIVITY_TIMEOUT_MILLIS + FRAGMENT_TOMBSTONE_MILLIS <= u64_max -> next < u32_max ->
    lane_move recv next now l (Busy next (now + INACTIVITY_TIMEOUT_MILLIS) h) (next + 1)
| lm_touch n x h h' : now < x -> h <= h' -> now + INACTIVITY_TIMEOUT_MILLIS + FRAGMENT_TOMBSTONE_MILLIS <= u64_max ->
    lane_move recv next now (Busy n x h) (Busy n (now + INACTIVITY_TIMEOUT_MILLIS) h') next
| lm_end n x h h' : (recv = true -> h <= h') -> lane_move recv next now (Busy n x h) (Hold (hold_until now) h') next
| lm_late u h h' : h < h' -> lane_move recv next now (Hold u h) (Hold u h') next.

(** A poll: holds that are over end, sessions that are over are held. *)
Definition poll_lane (now : Z) (l : lane) : lane :=
  match l with
  | Free => Free
  | Busy _ x h => if x <=? now then Hold (hold_until now) h else l
  | Hold u _ => if u <=? now then Free else l
  end.

Inductive entry_move (e e' : FragmentationPolicyEntry) : Prop :=
| em_lane k l l' : lanes e !! k = Some l -> lanes e' = <[k := l']> (lanes e) ->
    lane_move (bool_decide (RECEIVERS <= k)%nat) (next_session_id e) (last_now_ms e') l l' (next_session_id e') ->
    last_now_ms e <= last_now_ms e' -> entry_move e e'
| em_poll : lanes e' = poll_lane (last_now_ms e') <$> lanes e -> next_session_id e' = next_session_id e ->
    last_now_ms e <= last_now_ms e' -> entry_move e e'.

(** The arrays have two places, and a place never has a session and a tombstone. *)
Record shape (e : FragmentationPolicyEntry) : Prop := {
  sh_s : exists s0 s1 t0 t1, sender_sessions e = [s0; s1] /\ sender_tombstones e = [t0; t1] /\ (s0 = None \/ t0 = None) /\ (s1 = None \/ t1 = None);
  sh_r : exists s0 s1 t0 t1, receiver_sessions e = [s0; s1] /\ receiver_tombstones e = [t0; t1] /\ (s0 = None \/ t0 = None) /\ (s1 = None \/ t1 = None)
}.

Lemma rule_index_lt rule i : rule_index rule = Ok i -> (i < 2)%nat.
Proof. unfold rule_index. repeat case_match; intros; simplify_eq; lia. Qed.

(** Opens the arrays of an entry. *)
Ltac open_shape H :=
  let H1 := fresh in let H2 := fresh in
  destruct H as [H1 H2];
  destruct H1 as (?s0 & ?s1 & ?t0 & ?t1 & ?Hss & ?Hst & ?Hx0 & ?Hx1); destruct H2 as (?r0 & ?r1 & ?q0 & ?q1 & ?Hrs & ?Hrt & ?Hy0 & ?Hy1).

(** Writing a session and a tombstone at one place. *)
Lemma set_sender_lane e i s t : shape e -> (i < 2)%nat -> (s = None \/ t = None) ->
  shape (set_st (set_ss e i s) i t) /\ lanes (set_st (set_ss e i s) i t) = <[i := lane_of (s, t)]> (lanes e).
Proof.
  intros H Hi Hx. open_shape H. destruct e. cbn in *. subst. destruct i as [|[|i]]; [| | lia]; split; try done; split; cbn; by repeat eexists.
Qed.
Lemma set_receiver_lane e i s t : shape e -> (i < 2)%nat -> (s = None \/ t = None) ->
  shape (set_rt (set_rs e i s) i t) /\ lanes (set_rt (set_rs e i s) i t) = <[(RECEIVERS + i)%nat := lane_of (s, t)]> (lanes e).
Proof.
  intros H Hi Hx. open_shape H. destruct e. cbn in *. subst. destruct i as [|[|i]]; [| | lia]; split; try done; split; cbn; by repeat eexists.
Qed.
Lemma sender_lane e i : shape e -> (i < 2)%nat ->
  lanes e !! i = Some (lane_of (at_index (sender_sessions e) i, at_index (sender_tombstones e) i)) /\
  (at_index (sender_sessions e) i = None \/ at_index (sender_tombstones e) i = None).
Proof. intros H Hi. open_shape H. unfold lanes, at_index. rewrite Hss, Hst. destruct i as [|[|i]]; [| | lia]; done. Qed.
Lemma receiver_lane e i : shape e -> (i < 2)%nat ->
  lanes e !! (RECEIVERS + i)%nat = Some (lane_of (at_index (receiver_sessions e) i, at_index (receiver_tombstones e) i)) /\
  (at_index (receiver_sessions e) i = None \/ at_index (receiver_tombstones e) i = None).
Proof. intros H Hi. open_shape H. unfold lanes, at_index. rewrite Hss, Hst, Hrs, Hrt. destruct i as [|[|i]]; [| | lia]; done. Qed.

(** One array is written: the other keeps its value. *)
Lemma set_idem {A} (l : list (option A)) i : <[i := at_index l i]> l = l.
Proof. unfold at_index. destruct (l !! i) as [x|] eqn:E; [by apply list_insert_id | apply list_insert_ge; by apply lookup_ge_None]. Qed.
Lemma set_ss_both e i s : set_ss e i s = set_st (set_ss e i s) i (at_index (sender_tombstones e) i).
Proof. destruct e. unfold set_ss, set_st, with_lanes. cbn. by rewrite set_idem. Qed.
Lemma set_st_both e i t : set_st e i t = set_st (set_ss e i (at_index (sender_sessions e) i)) i t.
Proof. destruct e. unfold set_ss, set_st, with_lanes. cbn. by rewrite set_idem. Qed.
Lemma set_rs_both e i s : set_rs e i s = set_rt (set_rs e i s) i (at_index (receiver_tombstones e) i).
Proof. destruct e. unfold set_rs, set_rt, with_lanes. cbn. by rewrite set_idem. Qed.
Lemma set_rt_both e i t : set_rt e i t = set_rt (set_rs e i (at_index (receiver_sessions e) i)) i t.
Proof. destruct e. unfold set_rs, set_rt, with_lanes. cbn. by rewrite set_idem. Qed.

Lemma shape_scalars e c b r n t : shape e -> shape (with_scalars e c b r n t) /\ lanes (with_scalars e c b r n t) = lanes e.
Proof. intros [H1 H2]. split; [by split | done]. Qed.

(** ** Every operation is a move *)

Definition moved (e e' : FragmentationPolicyEntry) : Prop := shape e' /\ entry_move e e'.

Lemma stay_moves e e0 : shape e -> shape e0 -> lanes e0 = lanes e -> next_session_id e0 = next_session_id e -> last_now_ms e <= last_now_ms e0 -> moved e e0.
Proof.
  intros H H0 Hl Hn Ht. split; [done |]. destruct (sender_lane e 0 H ltac:(lia)) as [Hk _]. eapply (em_lane e e0 0); [exact Hk | | | done].
  - by rewrite list_insert_id.
  - rewrite Hn. apply lm_stay.
Qed.
Lemma sender_moves e e0 i s t : shape e -> shape e0 -> lanes e0 = lanes e -> last_now_ms e <= last_now_ms e0 -> (i < 2)%nat -> (s = None \/ t = None) ->
  lane_move false (next_session_id e) (last_now_ms e0) (lane_of (at_index (sender_sessions e) i, at_index (sender_tombstones e) i)) (lane_of (s, t)) (next_session_id e0) ->
  moved e (set_st (set_ss e0 i s) i t).
Proof.
  intros H H0 Hl Ht Hi Hx Hm. destruct (set_sender_lane e0 i s t H0 Hi Hx) as [Hs Hl']. split; [done |]. destruct (sender_lane e i H Hi) as [Hk _].
  eapply (em_lane _ _ i); [exact Hk | by rewrite Hl', Hl | | done]. rewrite bool_decide_eq_false_2 by (unfold RECEIVERS; lia). exact Hm.
Qed.
Lemma receiver_moves e e0 i s t : shape e -> shape e0 -> lanes e0 = lanes e -> last_now_ms e <= last_now_ms e0 -> (i < 2)%nat -> (s = None \/ t = None) ->
  lane_move true (next_session_id e) (last_now_ms e0) (lane_of (at_index (receiver_sessions e) i, at_index (receiver_tombstones e) i)) (lane_of (s, t)) (next_session_id e0) ->
  moved e (set_rt (set_rs e0 i s) i t).
Proof.
  intros H H0 Hl Ht Hi Hx Hm. destruct (set_receiver_lane e0 i s t H0 Hi Hx) as [Hs Hl']. split; [done |]. destruct (receiver_lane e i H Hi) as [Hk _].
  eapply (em_lane _ _ (RECEIVERS + i)); [exact Hk | by rewrite Hl', Hl | | done]. rewrite bool_decide_eq_true_2 by lia. exact Hm.
Qed.

Ltac run_op := unfold bind, lift, get, put, ret, fail, require; cbv beta iota zeta.

(** The prefix of an operation: the index, then the clock. *)
Lemma observed {A} rule now (k : nat -> FragmentationPolicyEntry -> ME A) e : shape e ->
  (forall i, rule_index rule = Ok i -> (i < 2)%nat -> last_now_ms e <= now -> shape (set_now e now) -> moved e (snd (k i (set_now e now) (set_now e now)))) ->
  moved e (snd ((let! i := lift (rule_index rule) in observe_policy_now now ;; let! e := get in k i e) e)).
Proof.
  intros H Hk. run_op. unfold observe_policy_now. destruct (rule_index rule) as [i|] eqn:Hi; [| by apply stay_moves]. destruct (now <? last_now_ms e) eqn:En; [by apply stay_moves |].
  bool_to_prop. apply Hk; [done | by eapply rule_index_lt | lia | by apply shape_scalars].
Qed.
Lemma stay_now e now : shape e -> last_now_ms e <= now -> moved e (set_now e now).
Proof. intros H Ht. apply stay_moves; try done; by apply shape_scalars. Qed.

Lemma inactivity_ok now t : inactivity_deadline now = Ok t -> t = now + INACTIVITY_TIMEOUT_MILLIS /\ now + INACTIVITY_TIMEOUT_MILLIS + FRAGMENT_TOMBSTONE_MILLIS <= u64_max.
Proof. unfold inactivity_deadline, checked_add. repeat case_match; try done; intros; simplify_eq; by bool_to_prop. Qed.
Lemma tombstone_ok now t : tombstone_deadline now = Ok t -> t = hold_until now.
Proof. unfold tombstone_deadline, checked_add, hold_until, saturating_add. case_match; [| done]. cbn. intros; simplify_eq. bool_to_prop. lia. Qed.
Lemma own_ok s n e r : own_session s n e = r -> match r with (Ok x, e') => s = Some x /\ id x = n /\ e' = e | (Err _, e') => e' = e end.
Proof. unfold own_session, ret, fail. intros <-. repeat case_match; simplify_eq; bool_to_prop; done. Qed.
Lemma take_ok e r : take_session_id e = r ->
  match r with (Ok n, e') => n = next_session_id e /\ e' = set_next e (next_session_id e + 1) /\ next_session_id e < u32_max | (Err _, e') => e' = e end.
Proof.
  unfold take_session_id, checked_add. intros <-. destruct (_ <=? _) eqn:E; [| done]. bool_to_prop. unfold Evidence.nonzero. cbn [mbind option_bind].
  destruct (next_session_id e + 1 =? 0); [done |]. split_and!; (done || lia).
Qed.

Lemma reserve_sender_moves rule now initial e : shape e -> moved e (snd (entry_reserve_sender rule now initial e)).
Proof.
  intros H. apply observed; [done |]. intros i _ Hi Ht Hs. set (e1 := set_now e now) in *. destruct (sender_lane e i H Hi) as [_ Hx].
  change (sender_sessions e1) with (sender_sessions e). change (sender_tombstones e1) with (sender_tombstones e).
  destruct (at_index (sender_sessions e) i) as [s|] eqn:Es; run_op.
  - destruct (now <? expires_at_ms s); [by apply stay_now |]. cbn [snd]. apply sender_moves; try done; [by left |]. rewrite Es. cbn. by apply lm_end.
  - destruct (match at_index (sender_tombstones e) i with Some t => now <? until_ms t | None => false end) eqn:Et; [by apply stay_now |].
    assert (moved e (set_st e1 i None)) as Hclear.
    { rewrite set_st_both. change (sender_sessions e1) with (sender_sessions e). rewrite Es. apply sender_moves; try done; [by left |]. rewrite Es.
      destruct (at_index (sender_tombstones e) i) as [t|]; cbn; [apply lm_clear; bool_to_prop; exact Et | apply lm_stay]. }
    destruct (inactivity_deadline now) as [d|] eqn:Ed; [| done]. apply inactivity_ok in Ed as [-> Hd].
    pose proof (take_ok (set_st e1 i None) _ eq_refl) as Htk. destruct (take_session_id _) as [[n|] e2]; [| by subst].
    destruct Htk as (-> & -> & Hn). cbn [snd]. change (next_session_id (set_st e1 i None)) with (next_session_id e) in *.
    change (set_ss (set_next (set_st e1 i None) (next_session_id e + 1)) i ?x) with (set_st (set_ss (set_next e1 (next_session_id e + 1)) i x) i None).
    apply sender_moves; try done; [by apply shape_scalars | by right |]. rewrite Es. cbn. apply lm_reserve; [| done | done].
    destruct (at_index (sender_tombstones e) i) as [t|]; [| done]. cbn. bool_to_prop. split; [exact Et | done].
Qed.

Lemma reserve_receiver_moves rule now initial e : shape e -> moved e (snd (entry_reserve_receiver rule now initial e)).
Proof.
  intros H. apply observed; [done |]. intros i _ Hi Ht Hs. set (e1 := set_now e now) in *. destruct (receiver_lane e i H Hi) as [_ Hx].
  change (receiver_sessions e1) with (receiver_sessions e). change (receiver_tombstones e1) with (receiver_tombstones e).
  destruct (at_index (receiver_sessions e) i) as [s|] eqn:Es; run_op.
  - destruct (now <? expires_at_ms s); [by apply stay_now |]. cbn [snd]. apply receiver_moves; try done; [by left |]. rewrite Es. cbn. by apply lm_end.
  - set (floor := match at_index (receiver_tombstones e) i with Some t => Z.max (t_high_counter t) initial | None => initial end).
    destruct (match at_index (receiver_tombstones e) i with Some t => now <? until_ms t | None => false end) eqn:Et.
    { destruct (at_index (receiver_tombstones e) i) as [t|]; [| done]. rewrite Et. by apply stay_now. }
    match goal with |- moved e (snd (match ?m with _ => _ end)) => assert (m = (Ok floor, e1)) as -> by (destruct (at_index (receiver_tombstones e) i) as [t|]; [by rewrite Et | done]) end.
    assert (moved e (set_rt e1 i None)) as Hclear.
    { rewrite set_rt_both. change (receiver_sessions e1) with (receiver_sessions e). rewrite Es. apply receiver_moves; try done; [by left |]. rewrite Es.
      destruct (at_index (receiver_tombstones e) i) as [t|]; cbn; [apply lm_clear; bool_to_prop; exact Et | apply lm_stay]. }
    destruct (inactivity_deadline now) as [d|] eqn:Ed; [| done]. apply inactivity_ok in Ed as [-> Hd].
    pose proof (take_ok (set_rt e1 i None) _ eq_refl) as Htk. destruct (take_session_id _) as [[n|] e2]; [| by subst].
    destruct Htk as (-> & -> & Hn). cbn [snd]. change (next_session_id (set_rt e1 i None)) with (next_session_id e) in *.
    change (set_rs (set_next (set_rt e1 i None) (next_session_id e + 1)) i ?x) with (set_rt (set_rs (set_next e1 (next_session_id e + 1)) i x) i None).
    apply receiver_moves; try done; [by apply shape_scalars | by right |]. rewrite Es. cbn. apply lm_reserve; [| done | done].
    subst floor. destruct (at_index (receiver_tombstones e) i) as [t|]; [| done]. cbn. bool_to_prop. split; [exact Et | lia].
Qed.

(** The operations that name a session: [own] has succeeded. *)
Ltac own_case e i :=
  match goal with |- context [own_session ?l ?n ?x] =>
    let Ho := fresh "Ho" in pose proof (own_ok l n x _ eq_refl) as Ho; destruct (own_session l n x) as [[?s|] ?e']; [| subst; by apply stay_now];
    destruct Ho as (?Es & ?Hid & ->)
  end.

Lemma release_sender_moves rule n now high e : shape e -> moved e (snd (entry_release_sender rule n now high e)).
Proof.
  intros H. apply observed; [done |]. intros i _ Hi Ht Hs. run_op. change (sender_sessions (set_now e now)) with (sender_sessions e). own_case e i.
  destruct (tombstone_deadline now) as [u|] eqn:Eu; [| by apply stay_now]. apply tombstone_ok in Eu as ->.
  apply sender_moves; try done; [by left |]. rewrite Es. cbn. by apply lm_end.
Qed.
Lemma release_receiver_moves rule n now high r e : shape e -> moved e (snd (entry_release_receiver rule n now high r e)).
Proof.
  intros H. apply observed; [done |]. intros i _ Hi Ht Hs. run_op. change (receiver_sessions (set_now e now)) with (receiver_sessions e). own_case e i.
  destruct (tombstone_deadline now) as [u|] eqn:Eu; [| by apply stay_now]. apply tombstone_ok in Eu as ->.
  apply receiver_moves; try done; [by left |]. rewrite Es. cbn. apply lm_end. lia.
Qed.

Lemma expire_sender_moves e now i : shape e -> last_now_ms e <= now -> (i < 2)%nat -> moved e (expire_sender_session (set_now e now) i now).
Proof.
  intros H Ht Hi. pose proof (proj1 (shape_scalars e (e_authenticated_counter e) (compatible e) (floor_restore_required e) (next_session_id e) now H)) as Hs.
  unfold expire_sender_session. change (sender_sessions (set_now e now)) with (sender_sessions e).
  destruct (at_index (sender_sessions e) i) as [s|] eqn:Es; [| by apply stay_now]. apply sender_moves; try done; [by left |]. rewrite Es. cbn. by apply lm_end.
Qed.
Lemma expire_receiver_moves e now i : shape e -> last_now_ms e <= now -> (i < 2)%nat -> moved e (expire_receiver_session (set_now e now) i now).
Proof.
  intros H Ht Hi. pose proof (proj1 (shape_scalars e (e_authenticated_counter e) (compatible e) (floor_restore_required e) (next_session_id e) now H)) as Hs.
  unfold expire_receiver_session. change (receiver_sessions (set_now e now)) with (receiver_sessions e).
  destruct (at_index (receiver_sessions e) i) as [s|] eqn:Es; [| by apply stay_now]. apply receiver_moves; try done; [by left |]. rewrite Es. cbn. by apply lm_end.
Qed.

Lemma touch_sender_moves rule n now e : shape e -> moved e (snd (entry_touch_sender rule n now e)).
Proof.
  intros H. apply observed; [done |]. intros i _ Hi Ht Hs. run_op. change (sender_sessions (set_now e now)) with (sender_sessions e). own_case e i.
  destruct (expires_at_ms s <=? now) eqn:Ex; [by apply expire_sender_moves |]. bool_to_prop. destruct (inactivity_deadline now) as [d|] eqn:Ed; [| by apply stay_now].
  apply inactivity_ok in Ed as [-> Hd]. cbn [snd]. rewrite set_ss_both. change (sender_tombstones (set_now e now)) with (sender_tombstones e).
  destruct (sender_lane e i H Hi) as [_ Hx]. rewrite Es in Hx. apply sender_moves; try done; [right; by destruct Hx |]. rewrite Es. cbn. apply lm_touch; [lia | lia | done].
Qed.
Lemma touch_receiver_moves rule n now counter e : shape e -> moved e (snd (entry_touch_receiver rule n now counter e)).
Proof.
  intros H. apply observed; [done |]. intros i _ Hi Ht Hs. run_op. change (receiver_sessions (set_now e now)) with (receiver_sessions e). own_case e i.
  destruct (expires_at_ms s <=? now) eqn:Ex; [by apply expire_receiver_moves |]. bool_to_prop. destruct (inactivity_deadline now) as [d|] eqn:Ed; [| by apply stay_now].
  apply inactivity_ok in Ed as [-> Hd]. cbn [snd]. rewrite set_rs_both. change (receiver_tombstones (set_now e now)) with (receiver_tombstones e).
  destruct (receiver_lane e i H Hi) as [_ Hx]. rewrite Es in Hx. apply receiver_moves; try done; [right; by destruct Hx |]. rewrite Es. cbn. apply lm_touch; [lia | lia | done].
Qed.
Lemma expire_op_moves rule n now e : shape e -> moved e (snd (entry_expire_receiver rule n now e)).
Proof.
  intros H. apply observed; [done |]. intros i _ Hi Ht Hs. run_op. change (receiver_sessions (set_now e now)) with (receiver_sessions e). own_case e i.
  destruct (now <? expires_at_ms s); [by apply stay_now |]. by apply expire_receiver_moves.
Qed.
Lemma abandon_sender_moves rule n high e : shape e -> moved e (entry_abandon_sender rule n high e).
Proof.
  intros H. assert (moved e e) as Hstay by (by apply stay_moves). unfold entry_abandon_sender. destruct (rule_index rule) as [i|] eqn:Hi; [| done]. apply rule_index_lt in Hi.
  destruct (at_index (sender_sessions e) i) as [s|] eqn:Es; [| done]. destruct (id s =? n); [| done]. apply sender_moves; try done; [by left |]. rewrite Es. cbn. by apply lm_end.
Qed.
Lemma abandon_receiver_moves rule n high e : shape e -> moved e (entry_abandon_receiver rule n high e).
Proof.
  intros H. assert (moved e e) as Hstay by (by apply stay_moves). unfold entry_abandon_receiver. destruct (rule_index rule) as [i|] eqn:Hi; [| done]. apply rule_index_lt in Hi.
  destruct (at_index (receiver_sessions e) i) as [s|] eqn:Es; [| done]. destruct (id s =? n); [| done]. apply receiver_moves; try done; [by left |]. rewrite Es. cbn. apply lm_end. lia.
Qed.
Lemma replay_moves rule counter now data e : shape e -> moved e (snd (entry_replay_receiver_terminal rule counter now data e)).
Proof.
  intros H. apply observed; [done |]. intros i _ Hi Ht Hs. run_op. change (receiver_tombstones (set_now e now)) with (receiver_tombstones e).
  destruct (at_index (receiver_tombstones e) i) as [t|] eqn:Et; [| by apply stay_now]. destruct (counter <=? t_high_counter t) eqn:Ec; [by apply stay_now |]. bool_to_prop.
  destruct (_ && _); [by apply stay_now |]. cbn [snd]. rewrite set_rt_both. change (receiver_sessions (set_now e now)) with (receiver_sessions e).
  destruct (receiver_lane e i H Hi) as [_ Hx]. rewrite Et in Hx. destruct Hx as [Hx|]; [| done]. apply receiver_moves; try done; [by left |]. rewrite Hx, Et. cbn. apply lm_late. lia.
Qed.

(** A poll visits the arrays place by place; on the lanes it is a map. *)
Lemma poll_place now (s : option SessionReservation) (t : option TerminalTombstone) (hold : SessionReservation -> TerminalTombstone) :
  (s = None \/ t = None) -> (forall s, until_ms (hold s) = hold_until now /\ t_high_counter (hold s) = high_counter s) ->
  let s' := if is_due now s then None else s in
  let t' := if is_due now s then option_map hold s else drop_due now t in
  (s' = None \/ t' = None) /\ lane_of (s', t') = poll_lane now (lane_of (s, t)).
Proof.
  intros Hx Hh. destruct s as [s|]; cbn.
  - destruct Hx as [|Hx]; [done |]. subst t. destruct (_ <=? _); cbn; [| split; [by right | done]]. destruct (Hh s) as [-> ->]. split; [by left | done].
  - destruct t as [t|]; cbn; [| split; [by left | done]]. destruct (_ <=? _); split; (by left) || done.
Qed.

Lemma poll_full e now : shape e -> last_now_ms e <= now ->
  let e' := fst (expire_sessions_at (set_now e now) now) in
  shape e' /\ lanes e' = poll_lane now <$> lanes e /\ next_session_id e' = next_session_id e /\ last_now_ms e' = now.
Proof.
  intros H Ht. open_shape H.
  pose proof (fun s t Hx => poll_place now s t (fun s => {| until_ms := hold_until now; t_high_counter := high_counter s; t_result := result_default |}) Hx ltac:(done)) as Ps.
  pose proof (fun rule s t Hx => poll_place now s t (fun s => {| until_ms := hold_until now; t_high_counter := high_counter s; t_result := abort_result rule |}) Hx ltac:(done)) as Pr.
  destruct (Ps s0 t0 Hx0) as [A1 A2], (Ps s1 t1 Hx1) as [B1 B2], (Pr RULE_ID_A_TO_B r0 q0 Hy0) as [C1 C2], (Pr RULE_ID_B_TO_A r1 q1 Hy1) as [D1 D2]. clear Ps Pr.
  intros e'.
  assert (sender_sessions e' = [if is_due now s0 then None else s0; if is_due now s1 then None else s1] /\
    sender_tombstones e' = [if is_due now s0 then option_map (fun s => {| until_ms := hold_until now; t_high_counter := high_counter s; t_result := result_default |}) s0 else drop_due now t0;
      if is_due now s1 then option_map (fun s => {| until_ms := hold_until now; t_high_counter := high_counter s; t_result := result_default |}) s1 else drop_due now t1] /\
    receiver_sessions e' = [if is_due now r0 then None else r0; if is_due now r1 then None else r1] /\
    receiver_tombstones e' = [if is_due now r0 then option_map (fun s => {| until_ms := hold_until now; t_high_counter := high_counter s; t_result := abort_result RULE_ID_A_TO_B |}) r0 else drop_due now q0;
      if is_due now r1 then option_map (fun s => {| until_ms := hold_until now; t_high_counter := high_counter s; t_result := abort_result RULE_ID_B_TO_A |}) r1 else drop_due now q1] /\
    next_session_id e' = next_session_id e /\ last_now_ms e' = now) as (E1 & E2 & E3 & E4 & E5 & E6).
  { subst e'. clear -Hss Hst Hrs Hrt. destruct e. cbn in *. subst.
    unfold expire_sessions_at, expire_at_index, expire_sender_session, expire_receiver_session. cbn [foldl].
    destruct s0 as [s0|], s1 as [s1|], r0 as [r0|], r1 as [r1|]; cbn; repeat (destruct (_ <=? now); cbn); done. }
  split; [split; [do 4 eexists; split; [exact E1 | split; [exact E2 | done]] | do 4 eexists; split; [exact E3 | split; [exact E4 | done]]] |].
  split; [| done]. unfold lanes. rewrite E1, E2, E3, E4, Hss, Hst, Hrs, Hrt. cbn [zip zip_with fmap list_fmap app]. by rewrite A2, B2, C2, D2.
Qed.
Lemma poll_moves e now : shape e -> last_now_ms e <= now -> moved e (fst (expire_sessions_at (set_now e now) now)).
Proof. intros H Ht. destruct (poll_full e now H Ht) as (H1 & H2 & H3 & H4). split; [done |]. apply em_poll; [by rewrite H4 | done | lia]. Qed.

(** The calls an entry gets; a poll whose clock went back is refused. *)
Inductive call :=
| ReserveSender (rule now initial : Z)
| ReserveReceiver (rule now initial : Z)
| ReleaseSender (rule n now high : Z)
| ReleaseReceiver (rule n now high : Z) (r : ReceiverResult)
| TouchSender (rule n now : Z)
| TouchReceiver (rule n now counter : Z)
| ExpireReceiver (rule n now : Z)
| AbandonSender (rule n high : Z)
| AbandonReceiver (rule n high : Z)
| ReplayTerminal (rule counter now : Z) (data : bytes)
| Poll (now : Z).
Definition run_call (e : FragmentationPolicyEntry) (c : call) : FragmentationPolicyEntry :=
  match c with
  | ReserveSender rule now i => snd (entry_reserve_sender rule now i e)
  | ReserveReceiver rule now i => snd (entry_reserve_receiver rule now i e)
  | ReleaseSender rule n now h => snd (entry_release_sender rule n now h e)
  | ReleaseReceiver rule n now h r => snd (entry_release_receiver rule n now h r e)
  | TouchSender rule n now => snd (entry_touch_sender rule n now e)
  | TouchReceiver rule n now c => snd (entry_touch_receiver rule n now c e)
  | ExpireReceiver rule n now => snd (entry_expire_receiver rule n now e)
  | AbandonSender rule n h => entry_abandon_sender rule n h e
  | AbandonReceiver rule n h => entry_abandon_receiver rule n h e
  | ReplayTerminal rule c now d => snd (entry_replay_receiver_terminal rule c now d e)
  | Poll now => if now <? last_now_ms e then e else fst (expire_sessions_at (set_now e now) now)
  end.

Lemma call_moves e c : shape e -> moved e (run_call e c).
Proof.
  intros H. destruct c; cbn [run_call]; auto using reserve_sender_moves, reserve_receiver_moves, release_sender_moves, release_receiver_moves, touch_sender_moves,
    touch_receiver_moves, expire_op_moves, abandon_sender_moves, abandon_receiver_moves, replay_moves.
  destruct (_ <? _) eqn:E; [by apply stay_moves |]. bool_to_prop. by apply poll_moves.
Qed.

(** ** Sessions over time *)

Lemma poll_is_move recv next now l : lane_move recv next now l (poll_lane now l) next.
Proof.
  destruct l as [|n x h|u h]; cbn; [apply lm_stay | |]; destruct (_ <=? _) eqn:E; try apply lm_stay; bool_to_prop; [by apply lm_end | by apply lm_clear].
Qed.
Lemma lane_move_next recv next now l l' next' : lane_move recv next now l l' next' -> next <= next'.
Proof. intros []; lia. Qed.

(** Every lane of an entry that moves makes a move of its own. *)
Lemma move_lane e e' k l : entry_move e e' -> lanes e !! k = Some l ->
  exists l' next', lanes e' !! k = Some l' /\ lane_move (bool_decide (RECEIVERS <= k)%nat) (next_session_id e) (last_now_ms e') l l' next' /\
    next' <= next_session_id e' /\ last_now_ms e <= last_now_ms e'.
Proof.
  intros [k0 l0 l0' Hk0 Hl Hm Ht|Hl Hn Ht] Hk.
  - destruct (decide (k = k0)) as [-> |Hne].
    + rewrite Hk0 in Hk. injection Hk as ->. exists l0', (next_session_id e'). rewrite Hl, list_lookup_insert_eq by (by eapply lookup_lt_Some). done.
    + exists l, (next_session_id e). rewrite Hl, list_lookup_insert_ne by done. split_and!; [done | apply lm_stay | by eapply lane_move_next | done].
  - exists (poll_lane (last_now_ms e') l), (next_session_id e). rewrite Hl, list_lookup_fmap, Hk. split_and!; [done | apply poll_is_move | lia | done].
Qed.

(** Where a lane can be [t0] on, once it was busy with session [n]. *)
Definition since (recv : bool) (n h T now : Z) (l : lane) : Prop :=
  (exists x h', l = Busy n x h' /\ (recv = true -> h <= h')) \/
  (exists u h', l = Hold u h' /\ T <= u /\ (recv = true -> h <= h')) \/ T <= now.

Lemma hold_until_mono a b : a <= b -> hold_until a <= hold_until b.
Proof. unfold hold_until, saturating_add. lia. Qed.

Lemma since_step recv next now now' t0 n h l l' next' : since recv n h (hold_until t0) now l -> lane_move recv next now' l l' next' ->
  t0 <= now -> now <= now' -> since recv n h (hold_until t0) now' l'.
Proof.
  intros [(x & h1 & -> & Hh)|[(u & h1 & -> & Hu & Hh)|Hn]] Hm H0 Hnow; [| | right; right; lia].
  - inversion Hm as [ | | ? ? Hl | ? ? ? h2 ? ? | ? ? ? h2 ? | ]; subst; [left; eauto | done | left; eexists _, h2; split; [done | intros Hr; specialize (Hh Hr); lia] |].
    right; left. eexists _, h2. split; [done |]. split; [apply hold_until_mono; lia | intros Hr; specialize (Hh Hr); naive_solver lia].
  - inversion Hm as [ | ? ? Hc | ? ? Hl | | | ? ? h2 ? ]; subst; [right; left; eauto | right; right; lia | destruct Hl; right; right; lia |].
    right; left. eexists _, h2. split; [done |]. split; [done | intros Hr; specialize (Hh Hr); lia].
Qed.

Lemma run_calls_spec (P : FragmentationPolicyEntry -> Prop) e cs : shape e -> P e ->
  (forall e e', shape e -> P e -> moved e e' -> P e') -> shape (foldl run_call e cs) /\ P (foldl run_call e cs).
Proof.
  intros H HP Hstep. revert e H HP. induction cs as [|c cs IH]; intros e H HP; [done |]. cbn. pose proof (call_moves e c H) as Hm. apply IH; [by destruct Hm | by eapply Hstep].
Qed.

(** Whatever is called. *)
Lemma lane_since e cs k n x h : shape e -> lanes e !! k = Some (Busy n x h) ->
  exists l, lanes (foldl run_call e cs) !! k = Some l /\
    since (bool_decide (RECEIVERS <= k)%nat) n h (hold_until (last_now_ms e)) (last_now_ms (foldl run_call e cs)) l.
Proof.
  intros H Hk. eapply (run_calls_spec (fun e1 => last_now_ms e <= last_now_ms e1 /\ exists l, lanes e1 !! k = Some l /\
    since (bool_decide (RECEIVERS <= k)%nat) n h (hold_until (last_now_ms e)) (last_now_ms e1) l)).
  - done.
  - split; [lia |]. exists (Busy n x h). split; [done |]. left. exists x, h. split; [done | lia].
  - intros e1 e2 _ (Ht & l & Hl & Hs) [_ Hm]. destruct (move_lane _ _ _ _ Hm Hl) as (l' & next' & Hl' & Hlm & _ & Ht'). split; [lia |].
    exists l'. split; [done |]. by eapply since_step.
Qed.

(** C25: Whatever calls an entry gets, a lane that was busy with a session is not
    given to another one before the 60-second hold-down has passed, counted from
    no earlier than the time the session was seen live; and until then the lane of
    a receiver keeps every counter the session had seen, so that no frame of the
    old session can be taken for one of a new session. *)
Theorem hold_down_enforced e cs k n x h : shape e -> lanes e !! k = Some (Busy n x h) ->
  let e' := foldl run_call e cs in
  (forall n' x' h', lanes e' !! k = Some (Busy n' x' h') -> n' <> n -> hold_until (last_now_ms e) <= last_now_ms e') /\
  ((RECEIVERS <= k)%nat -> last_now_ms e' < hold_until (last_now_ms e) ->
    exists h', h <= h' /\ ((exists x', lanes e' !! k = Some (Busy n x' h')) \/ exists u, lanes e' !! k = Some (Hold u h'))).
Proof.
  intros H Hk e'. destruct (lane_since e cs k n x h H Hk) as (l & Hl & Hs). fold e' in Hl, Hs. split.
  - intros n' x' h' Hl' Hne. rewrite Hl in Hl'. injection Hl' as ->. destruct Hs as [(y & h1 & [= -> -> ->] & _)|[(u & h1 & ? & _)|Ht]]; done.
  - intros Hr Ht. rewrite bool_decide_eq_true_2 in Hs by done. destruct Hs as [(y & h1 & -> & Hh)|[(u & h1 & -> & _ & Hh)|]]; [| | lia]; exists h1; (split; [by apply Hh |]); eauto.
Qed.

(** *** Session numbers *)

Definition live (e : FragmentationPolicyEntry) (k : nat) (n : Z) : Prop := exists x h, lanes e !! k = Some (Busy n x h).
Record entry_inv (e : FragmentationPolicyEntry) : Prop := {
  ei_fresh k n : live e k n -> n < next_session_id e;
  ei_uniq k k' n : live e k n -> live e k' n -> k = k';
  ei_busy k n x h : lanes e !! k = Some (Busy n x h) -> x <= last_now_ms e + INACTIVITY_TIMEOUT_MILLIS;
  ei_hold k u h : lanes e !! k = Some (Hold u h) -> u <= last_now_ms e + FRAGMENT_TOMBSTONE_MILLIS
}.

(** A session that is live was live before, or has just got the next number. *)
Lemma live_back e e' k n : entry_move e e' -> live e' k n -> live e k n \/ (n = next_session_id e /\ next_session_id e' = next_session_id e + 1 /\
  forall k', k' <> k -> lanes e' !! k' = lanes e !! k').
Proof.
  intros [k0 l0 l0' Hk0 Hl Hm Ht|Hl Hn Ht] (x & h & Hk).
  - rewrite Hl in Hk. destruct (decide (k = k0)) as [-> |Hne]; [| left; rewrite list_lookup_insert_ne in Hk by done; by eexists _, _].
    rewrite list_lookup_insert_eq in Hk by (by eapply lookup_lt_Some). injection Hk as ->. inversion Hm; subst; [left; by eexists _, _ | | left; by eexists _, _].
    right. split; [done |]. split; [done |]. intros k' Hne. rewrite Hl. by apply list_lookup_insert_ne.
  - left. rewrite Hl, list_lookup_fmap in Hk. destruct (lanes e !! k) as [l|] eqn:E; [| done]. cbn in Hk. destruct l as [|n1 x1 h1|u1 h1]; cbn in Hk; [done | |].
    + destruct (_ <=? _); simplify_eq. by eexists _, _.
    + by destruct (_ <=? _).
Qed.

Lemma move_next e e' : entry_move e e' -> next_session_id e <= next_session_id e'.
Proof. intros [k l l' _ _ Hm _|_ Hn _]; [by eapply lane_move_next | lia]. Qed.

Lemma lookup_back e e' k l' : entry_move e e' -> lanes e' !! k = Some l' -> exists l, lanes e !! k = Some l.
Proof.
  intros Hm Hk. assert (length (lanes e') = length (lanes e)) as Hlen by (destruct Hm as [? ? ? ? -> | -> ? ?]; [by rewrite length_insert | by rewrite length_fmap]).
  apply lookup_lt_is_Some. rewrite <- Hlen. by eapply lookup_lt_Some.
Qed.

Lemma entry_inv_step e e' : entry_inv e -> entry_move e e' -> entry_inv e'.
Proof.
  intros [H1 H2 H3 H4] Hm. pose proof (move_next _ _ Hm) as Hn. split.
  - intros k n Hl. destruct (live_back _ _ _ _ Hm Hl) as [Hl'|(-> & Hnx & _)]; [specialize (H1 _ _ Hl') |]; lia.
  - intros k k' n Hl Hl'. destruct (live_back _ _ _ _ Hm Hl) as [Hb|(-> & _ & Hsame)], (live_back _ _ _ _ Hm Hl') as [Hb'|(E & _ & Hsame')]; [by eapply H2 | | |].
    + specialize (H1 _ _ Hb). lia.
    + specialize (H1 _ _ Hb'). lia.
    + destruct (decide (k' = k)) as [-> |Hne]; [done |]. destruct Hl' as (x & h & Hl'). rewrite Hsame in Hl' by done. specialize (H1 k' _ ltac:(by eexists _, _)). lia.
  - intros k n x h Hk. destruct (lookup_back _ _ _ _ Hm Hk) as [l Hl]. destruct (move_lane _ _ _ _ Hm Hl) as (l' & next' & Hl' & Hlm & _ & Ht). rewrite Hk in Hl'. injection Hl' as <-.
    inversion Hlm; subst; [specialize (H3 _ _ _ _ Hl) | |]; lia.
  - intros k u h Hk. destruct (lookup_back _ _ _ _ Hm Hk) as [l Hl]. destruct (move_lane _ _ _ _ Hm Hl) as (l' & next' & Hl' & Hlm & _ & Ht). rewrite Hk in Hl'. injection Hl' as <-.
    inversion Hlm; subst; [specialize (H4 _ _ _ Hl) | unfold hold_until, saturating_add | specialize (H4 _ _ _ Hl)]; lia.
Qed.

Lemma fresh_inv peer gen now : shape (fresh_entry peer gen now) /\ entry_inv (fresh_entry peer gen now).
Proof.
  assert (forall k l, lanes (fresh_entry peer gen now) !! k = Some l -> l = Free) as Hf.
  { intros k l. change (lanes (fresh_entry peer gen now)) with (replicate 4 Free). by intros [-> _]%lookup_replicate. }
  split; [split; do 4 eexists; cbn; split_and!; by (done || left) |]. split.
  - intros k n (x & h & Hk). by apply Hf in Hk.
  - intros k k' n (x & h & Hk). by apply Hf in Hk.
  - intros k n x h Hk. by apply Hf in Hk.
  - intros k u h Hk. by apply Hf in Hk.
Qed.

(** A handle whose session has ended stays dead: its number is never given out
    again, on any lane. *)
Lemma session_never_revived e cs n : shape e -> entry_inv e -> n < next_session_id e -> (forall k, ~ live e k n) -> forall k, ~ live (foldl run_call e cs) k n.
Proof.
  intros H Hi Hn Hd. eapply (run_calls_spec (fun e => entry_inv e /\ n < next_session_id e /\ forall k, ~ live e k n)); [done | done |].
  intros e1 e2 _ (Hi1 & Hn1 & Hd1) [_ Hm]. pose proof (move_next _ _ Hm). split; [by eapply entry_inv_step |]. split; [lia |].
  intros k Hl. destruct (live_back _ _ _ _ Hm Hl) as [Hb|(-> & _)]; [by apply (Hd1 k) | lia].
Qed.

(** Such a handle can change nothing but the clock. *)
Lemma stale_handle_inert e n : shape e -> (forall k, ~ live e k n) ->
  (forall rule now, (exists er, fst (entry_touch_sender rule n now e) = Err er) /\ lanes (snd (entry_touch_sender rule n now e)) = lanes e) /\
  (forall rule now c, (exists er, fst (entry_touch_receiver rule n now c e) = Err er) /\ lanes (snd (entry_touch_receiver rule n now c e)) = lanes e) /\
  (forall rule now h, (exists er, fst (entry_release_sender rule n now h e) = Err er) /\ lanes (snd (entry_release_sender rule n now h e)) = lanes e) /\
  (forall rule now h r, (exists er, fst (entry_release_receiver rule n now h r e) = Err er) /\ lanes (snd (entry_release_receiver rule n now h r e)) = lanes e).
Proof.
  intros H Hd.
  assert (forall i s, (i < 2)%nat -> at_index (sender_sessions e) i = Some s -> (id s =? n) = false) as Hs.
  { intros i s Hi Es. apply Z.eqb_neq. intros <-. destruct (sender_lane e i H Hi) as [Hk _]. rewrite Es in Hk. apply (Hd i). by eexists _, _. }
  assert (forall i s, (i < 2)%nat -> at_index (receiver_sessions e) i = Some s -> (id s =? n) = false) as Hr.
  { intros i s Hi Es. apply Z.eqb_neq. intros <-. destruct (receiver_lane e i H Hi) as [Hk _]. rewrite Es in Hk. apply (Hd (RECEIVERS + i)%nat). by eexists _, _. }
  assert (forall rule i, rule_index rule = Ok i -> (i < 2)%nat) as Hri by (apply rule_index_lt).
  split_and!; intros; [unfold entry_touch_sender | unfold entry_touch_receiver | unfold entry_release_sender | unfold entry_release_receiver];
    (destruct (rule_index rule) as [i|] eqn:Ei; [| split; [by eexists | done]]; run_op; unfold observe_policy_now; destruct (now <? last_now_ms e); [split; [by eexists | done] |]; cbn [sender_sessions receiver_sessions set_now with_scalars];
    match goal with |- context [own_session ?l ?m ?x] => destruct l as [s|] eqn:Es end; cbn [own_session];
    [first [rewrite (Hs i s) by eauto | rewrite (Hr i s) by eauto] |]; (split; [by eexists | done])).
Qed.

(** *** Recovery *)

Lemma poll_twice t1 t2 e l k : entry_inv e -> lanes e !! k = Some l -> last_now_ms e + INACTIVITY_TIMEOUT_MILLIS <= t1 -> t1 + FRAGMENT_TOMBSTONE_MILLIS <= t2 ->
  poll_lane t2 (poll_lane t1 l) = Free.
Proof.
  intros [_ _ H3 H4] Hk H1 H2. unfold INACTIVITY_TIMEOUT_MILLIS, INACTIVITY_TIMEOUT_S, FRAGMENT_TOMBSTONE_MILLIS in *. destruct l as [|n x h|u h]; [done | |]; cbn.
  - specialize (H3 _ _ _ _ Hk). rewrite (proj2 (Z.leb_le _ _)) by lia. cbn. rewrite (proj2 (Z.leb_le _ _)); [done |]. unfold hold_until, saturating_add, FRAGMENT_TOMBSTONE_MILLIS. lia.
  - specialize (H4 _ _ _ Hk). rewrite (proj2 (Z.leb_le _ _)) by lia. done.
Qed.

(** No lane is blocked for good: two polls, the inactivity time and the hold-down
    apart, free all of them, and a reservation gets the next number. *)
Lemma lanes_recover e t1 t2 rule i c : shape e -> entry_inv e -> rule_index rule = Ok i ->
  last_now_ms e + INACTIVITY_TIMEOUT_MILLIS <= t1 -> t1 + FRAGMENT_TOMBSTONE_MILLIS <= t2 ->
  t2 + INACTIVITY_TIMEOUT_MILLIS + FRAGMENT_TOMBSTONE_MILLIS <= u64_max -> 0 <= next_session_id e < u32_max ->
  let e2 := run_call (run_call e (Poll t1)) (Poll t2) in
  lanes e2 = replicate 4 Free /\
  fst (entry_reserve_sender rule t2 c e2) = Ok (next_session_id e) /\ fst (entry_reserve_receiver rule t2 c e2) = Ok (next_session_id e, c).
Proof.
  intros H Hi Hr H1 H2 H3 Hn e2. unfold INACTIVITY_TIMEOUT_MILLIS, INACTIVITY_TIMEOUT_S, FRAGMENT_TOMBSTONE_MILLIS in H1, H2, H3.
  destruct (poll_full e t1 H ltac:(lia)) as (P1 & P2 & P3 & P4). set (e1 := fst (expire_sessions_at (set_now e t1) t1)) in *.
  assert (run_call e (Poll t1) = e1) as He1 by (cbn [run_call]; by rewrite (proj2 (Z.ltb_ge t1 _)) by lia).
  destruct (poll_full e1 t2 P1 ltac:(lia)) as (Q1 & Q2 & Q3 & Q4).
  assert (e2 = fst (expire_sessions_at (set_now e1 t2) t2)) as He2 by (subst e2; rewrite He1; cbn [run_call]; by rewrite (proj2 (Z.ltb_ge t2 _)) by lia).
  rewrite <- He2 in Q1, Q2, Q3, Q4. clearbody e2.
  assert (lanes e2 = replicate 4 Free) as Hl.
  { rewrite Q2, P2. assert (length (lanes e) = 4%nat) as Hlen.
    { open_shape H. unfold lanes. by rewrite Hss, Hst, Hrs, Hrt. }
    apply list_eq. intros k. rewrite !list_lookup_fmap. destruct (lanes e !! k) as [l|] eqn:Ek; cbn [fmap option_fmap option_map].
    - rewrite (poll_twice t1 t2 e l k Hi Ek) by (unfold INACTIVITY_TIMEOUT_MILLIS, INACTIVITY_TIMEOUT_S, FRAGMENT_TOMBSTONE_MILLIS; lia). symmetry.
      apply lookup_replicate. split; [done |]. rewrite <- Hlen. by eapply lookup_lt_Some.
    - symmetry. apply lookup_replicate_None. rewrite <- Hlen. by apply lookup_ge_None. }
  split; [done |]. pose proof (rule_index_lt _ _ Hr) as Hlt. destruct (sender_lane e2 i Q1 Hlt) as [Hsl _], (receiver_lane e2 i Q1 Hlt) as [Hrl _].
  assert (at_index (sender_sessions e2) i = None /\ at_index (sender_tombstones e2) i = None) as [Es Et].
  { rewrite Hl in Hsl. apply lookup_replicate in Hsl as [Hsl _]. destruct (at_index (sender_sessions e2) i), (at_index (sender_tombstones e2) i); done. }
  assert (at_index (receiver_sessions e2) i = None /\ at_index (receiver_tombstones e2) i = None) as [Ers Ert].
  { rewrite Hl in Hrl. apply lookup_replicate in Hrl as [Hrl _]. destruct (at_index (receiver_sessions e2) i), (at_index (receiver_tombstones e2) i); done. }
  assert (inactivity_deadline t2 = Ok (t2 + INACTIVITY_TIMEOUT_MILLIS)) as Hd.
  { unfold inactivity_deadline, checked_add, INACTIVITY_TIMEOUT_MILLIS, INACTIVITY_TIMEOUT_S, FRAGMENT_TOMBSTONE_MILLIS. rewrite (proj2 (Z.leb_le _ _)) by lia. by rewrite (proj2 (Z.leb_le _ _)) by lia. }
  assert (forall x, next_session_id x = next_session_id e -> exists x', take_session_id x = (Ok (next_session_id e), x')) as Htk.
  { intros x Hx. unfold take_session_id, checked_add, Evidence.nonzero. rewrite Hx, (proj2 (Z.leb_le _ _)) by lia. cbn [mbind option_bind]. rewrite (proj2 (Z.eqb_neq _ _)) by lia. by eexists. }
  assert (next_session_id e2 = next_session_id e) as Hn2 by congruence. unfold entry_reserve_sender, entry_reserve_receiver.
  split; run_op; rewrite Hr; unfold observe_policy_now; rewrite Q4, (proj2 (Z.ltb_ge t2 t2)) by lia; cbn [set_now with_scalars sender_sessions receiver_sessions sender_tombstones receiver_tombstones];
    rewrite ?Es, ?Et, ?Ers, ?Ert, Hd.
  - destruct (Htk (set_st (set_now e2 t2) i None) Hn2) as [x' Hx']. by rewrite Hx'.
  - destruct (Htk (set_rt (set_now e2 t2) i None) Hn2) as [x' Hx']. by rewrite Hx'.
Qed.

(** ** The policy as a whole *)

(** The parts of an entry that name its peer. *)
Definition identity (e : FragmentationPolicyEntry) := (e_signer e, generation e, e_key_generation e, e_durable_key_generation e).

Lemma identity_lanes e ss rs st rt : identity (with_lanes e ss rs st rt) = identity e.
Proof. done. Qed.
Lemma own_state s n e : snd (own_session s n e) = e.
Proof. unfold own_session. by repeat case_match. Qed.
Lemma expire_sender_identity e i now : identity (expire_sender_session e i now) = identity e.
Proof. unfold expire_sender_session. by case_match. Qed.
Lemma expire_receiver_identity e i now : identity (expire_receiver_session e i now) = identity e.
Proof. unfold expire_receiver_session. by case_match. Qed.

Definition keeps {A} (m : ME A) : Prop := forall e, identity (snd (m e)) = identity e.
Lemma keeps_bind {A B} (m : ME A) (k : A -> ME B) : keeps m -> (forall a, keeps (k a)) -> keeps (bind m k).
Proof. intros Hm Hk e. unfold bind. specialize (Hm e). destruct (m e) as [[a|] e']; [by rewrite Hk | done]. Qed.
Lemma keeps_get {B} (k : FragmentationPolicyEntry -> ME B) : (forall x e, identity x = identity e -> identity (snd (k x e)) = identity e) -> keeps (bind get k).
Proof. intros Hk e. by apply Hk. Qed.
Lemma keeps_const {A} (r : result FragmentError A) : keeps (lift r).
Proof. done. Qed.
Lemma keeps_observe now : keeps (observe_policy_now now).
Proof. intros e. unfold observe_policy_now. by case_match. Qed.
Lemma keeps_take : keeps take_session_id.
Proof. intros e. unfold take_session_id. by case_match. Qed.

Lemma call_identity e c : identity (run_call e c) = identity e.
Proof.
  assert (forall A rule now (k : nat -> FragmentationPolicyEntry -> ME A),
    (forall i x, identity (snd (k i x x)) = identity x) -> keeps (let! i := lift (rule_index rule) in observe_policy_now now ;; let! e := get in k i e)) as Hpre.
  { intros A rule now k Hk. apply keeps_bind; [apply keeps_const |]. intros i. apply keeps_bind; [apply keeps_observe |]. intros _ x. apply Hk. }
  assert (forall x i now, identity (snd (put (expire_sender_session x i now) x)) = identity x) as Hes by (intros; apply expire_sender_identity).
  assert (forall x i now, identity (snd (put (expire_receiver_session x i now) x)) = identity x) as Her by (intros; apply expire_receiver_identity).
  destruct c; cbn [run_call].
  - apply Hpre. intros i x. run_op. destruct (at_index _ _); [by destruct (_ <? _) |]. destruct (match at_index (sender_tombstones x) i with Some t => now <? until_ms t | None => false end); [done |]. destruct (inactivity_deadline _); [| done].
    pose proof (take_ok (set_st x i None) _ eq_refl) as Ht. destruct (take_session_id _) as [[?|] ?]; [by destruct Ht as (_ & -> & _) | by subst].
  - apply Hpre. intros i x. run_op. destruct (at_index (receiver_sessions _) _); [by destruct (_ <? _) |].
    assert (forall fl, identity (snd (match inactivity_deadline now with
      | Ok d => match take_session_id (set_rt x i None) with
                | (Ok n, y) => (Ok (n, fl), set_rs y i (Some {| id := n; expires_at_ms := d; high_counter := fl |}))
                | (Err er, y) => (Err er, y) end
      | Err er => (Err er, set_rt x i None) end)) = identity x) as Htail.
    { intros fl. destruct (inactivity_deadline now); [| done]. pose proof (take_ok (set_rt x i None) _ eq_refl) as Ht.
      destruct (take_session_id _) as [[?|] ?]; [by destruct Ht as (_ & -> & _) | by subst]. }
    destruct (at_index (receiver_tombstones x) i) as [t|]; [destruct (now <? until_ms t); [done |] |]; destruct (inactivity_deadline now); try done;
      destruct (take_session_id _) as [[?|] ?]; exact (Htail 0).
  - apply Hpre. intros i x. run_op. pose proof (own_state (at_index (sender_sessions x) i) n x) as Ho. destruct (own_session _ _ _) as [[] ?]; cbn in Ho; subst; [| done]. by destruct (tombstone_deadline _).
  - apply Hpre. intros i x. run_op. pose proof (own_state (at_index (receiver_sessions x) i) n x) as Ho. destruct (own_session _ _ _) as [[] ?]; cbn in Ho; subst; [| done]. by destruct (tombstone_deadline _).
  - apply Hpre. intros i x. run_op. pose proof (own_state (at_index (sender_sessions x) i) n x) as Ho. destruct (own_session _ _ _) as [[] ?]; cbn in Ho; subst; [| done].
    destruct (_ <=? _); [apply Hes |]. by destruct (inactivity_deadline _).
  - apply Hpre. intros i x. run_op. pose proof (own_state (at_index (receiver_sessions x) i) n x) as Ho. destruct (own_session _ _ _) as [[] ?]; cbn in Ho; subst; [| done].
    destruct (_ <=? _); [apply Her |]. by destruct (inactivity_deadline _).
  - apply Hpre. intros i x. run_op. pose proof (own_state (at_index (receiver_sessions x) i) n x) as Ho. destruct (own_session _ _ _) as [[] ?]; cbn in Ho; subst; [| done].
    destruct (_ <? _); [done | apply Her].
  - unfold entry_abandon_sender. by repeat case_match.
  - unfold entry_abandon_receiver. by repeat case_match.
  - apply Hpre. intros i x. run_op. by repeat case_match.
  - destruct (_ <? _); [done |]. unfold expire_sessions_at. cbn [foldl].
    assert (forall acc i, identity (fst (expire_at_index now acc i)) = identity (fst acc)) as Hp.
    { intros [x m] i. unfold expire_at_index. repeat case_match; simplify_eq; cbn; by rewrite ?expire_receiver_identity, ?expire_sender_identity. }
    by rewrite !Hp.
Qed.

Definition entry_good (e : option FragmentationPolicyEntry) : Prop := match e with Some e => shape e /\ entry_inv e | None => True end.
Record policy_inv (p : FragmentationPolicy) : Prop := {
  pi_uniq i j e e' : entries p !! i = Some (Some e) -> entries p !! j = Some (Some e') -> e_signer e = e_signer e' -> i = j;
  pi_good : Forall entry_good (entries p)
}.

Lemma good_call e c : shape e -> entry_inv e -> shape (run_call e c) /\ entry_inv (run_call e c).
Proof. intros H Hi. pose proof (call_moves e c H) as [H1 H2]. split; [done | by eapply entry_inv_step]. Qed.

(** Replacing an entry by one of the same signer. *)
Lemma policy_inv_insert p k e e' : policy_inv p -> entries p !! k = Some (Some e) -> e_signer e' = e_signer e -> shape e' -> entry_inv e' ->
  policy_inv (with_entries p (<[k := Some e']> (entries p))).
Proof.
  intros [Hu Hg] Hk Hs Hsh Hi. split; [| by apply Forall_insert]. intros i j x y Hx Hy Hxy. cbn in Hx, Hy. pose proof (lookup_lt_Some _ _ _ Hk) as Hlt.
  destruct (decide (i = k)) as [-> |Hik], (decide (j = k)) as [-> |Hjk]; [done | | |].
  - rewrite list_lookup_insert_eq in Hx by done. rewrite list_lookup_insert_ne in Hy by done. simplify_eq. apply (Hu k j e y Hk Hy). congruence.
  - rewrite list_lookup_insert_eq in Hy by done. rewrite list_lookup_insert_ne in Hx by done. simplify_eq. apply (Hu i k x e Hx Hk). congruence.
  - rewrite list_lookup_insert_ne in Hx, Hy by done. by apply (Hu i j x y).
Qed.

Lemma permit_entry_lookup p permit e : permit_entry p permit = Some e ->
  entries p !! Z.to_nat (p_slot permit) = Some (Some e) /\ identity e = (p_signer permit, p_generation permit, p_key_generation permit, p_durable_key_generation permit).
Proof.
  unfold permit_entry. destruct (negb _); [done |]. destruct (entries p !! _) as [[x|]|]; [| done | done]. destruct (_ && _) eqn:E; [| done]. intros [= ->]. split; [done |].
  apply andb_true_iff in E as [E E4]. apply andb_true_iff in E as [E E3]. apply andb_true_iff in E as [E1 E2]. apply bool_decide_eq_true in E2, E4. bool_to_prop. unfold identity. congruence.
Qed.

Lemma on_entry_call {A} p permit (m : ME A) c : policy_inv p -> (forall e, snd (m e) = run_call e c) ->
  policy_inv (snd (on_entry permit m p)) /\
  (forall e, permit_entry p permit = Some e -> permit_entry (snd (on_entry permit m p)) permit = Some (run_call e c)) /\
  (forall permit2, p_slot permit2 <> p_slot permit -> 0 <= p_slot permit -> 0 <= p_slot permit2 ->
    permit_entry (snd (on_entry permit m p)) permit2 = permit_entry p permit2).
Proof.
  intros Hp Hm. unfold on_entry. destruct (permit_entry p permit) as [e|] eqn:E; [| done]. pose proof (Hm e) as He. destruct (m e) as [r e']. cbn in He |- *. subst e'.
  destruct (permit_entry_lookup _ _ _ E) as [Hk Hid]. pose proof (call_identity e c) as Hc. pose proof (proj1 (Forall_lookup _ _) (pi_good _ Hp) _ _ Hk) as [Hs Hi].
  destruct (good_call e c Hs Hi) as [Hs' Hi']. pose proof (lookup_lt_Some _ _ _ Hk) as Hlt. split; [| split].
  - eapply policy_inv_insert; try done. by injection Hc.
  - intros x [= <-]. unfold permit_entry in E |- *. cbn. destruct (negb _); [done |]. rewrite list_lookup_insert_eq by done. rewrite Hk in E.
    injection Hc as -> -> -> ->. destruct (_ && _); [done | done].
  - intros permit2 Hne H0 H2. unfold permit_entry. cbn. destruct (negb _); [done |]. by rewrite list_lookup_insert_ne by lia.
Qed.

(** Where the entry of a signer is, or a free place when it has none. *)
Lemma policy_place_spec p s k : policy_inv p -> policy_place p s = Some k ->
  (k < length (entries p))%nat /\ (forall e, entries p !! k = Some (Some e) -> e_signer e = s) /\
  (forall j e, entries p !! j = Some (Some e) -> e_signer e = s -> j = k).
Proof.
  intros [Hu _]. unfold policy_place. destruct (list_find (is_entry_of s) _) as [[i x]|] eqn:E; intros H.
  - apply list_find_Some in E as (Hi & Hx & _). simplify_eq. destruct x as [e|]; [| done]. split; [by eapply lookup_lt_Some |]. split.
    + intros e' He'. rewrite Hi in He'. by simplify_eq.
    + intros j e' Hj Hs. apply (Hu j k e' e Hj Hi). by rewrite Hs.
  - apply list_find_None in E. apply fmap_Some in H as ([i x] & Hf & ->). apply list_find_Some in Hf as (Hi & -> & _). split; [by eapply lookup_lt_Some |]. split.
    + intros e He. cbn in He. rewrite Hi in He. done.
    + intros j e Hj Hs. eapply Forall_lookup in Hj; [| exact E]. by destruct Hj.
Qed.

Lemma policy_inv_place p s k e' : policy_inv p -> policy_place p s = Some k -> e_signer e' = s -> shape e' -> entry_inv e' ->
  policy_inv (with_entries p (<[k := Some e']> (entries p))).
Proof.
  intros Hp Hk Hs Hsh Hi. destruct (policy_place_spec p s k Hp Hk) as (Hlt & Hown & Honly). destruct Hp as [Hu Hg]. split; [| by apply Forall_insert].
  intros i j x y Hx Hy Hxy. cbn in Hx, Hy. destruct (decide (i = k)) as [-> |Hik], (decide (j = k)) as [-> |Hjk]; [done | | |].
  - rewrite list_lookup_insert_eq in Hx by done. rewrite list_lookup_insert_ne in Hy by done. simplify_eq. symmetry. by apply (Honly j y).
  - rewrite list_lookup_insert_eq in Hy by done. rewrite list_lookup_insert_ne in Hx by done. simplify_eq. by apply (Honly i x).
  - rewrite list_lookup_insert_ne in Hx, Hy by done. by apply (Hu i j x y).
Qed.

Lemma inv_scalars e c b r now : entry_inv e -> last_now_ms e <= now -> entry_inv (with_scalars e c b r (next_session_id e) now).
Proof. intros [H1 H2 H3 H4] Ht. split; [exact H1 | exact H2 | |]; intros; cbn [last_now_ms with_scalars]; [specialize (H3 _ _ _ _ H) | specialize (H4 _ _ _ H)]; lia. Qed.

Lemma install_inv p peer now : policy_inv p -> policy_inv (snd (install_peer peer now p)).
Proof.
  intros Hp. unfold install_peer. destruct (p_local_signer p); [| done]. destruct (canonical_fragmentation_rule _ _ _); [| done].
  destruct (policy_place p (signer_identity peer)) as [k|] eqn:Hk; [| done]. destruct (policy_place_spec _ _ _ Hp Hk) as (_ & Hown & _).
  assert (forall gen, policy_inv (with_entries p (<[k := Some (fresh_entry peer gen now)]> (entries p)))) as Hf.
  { intros gen. destruct (fresh_inv peer gen now). by eapply policy_inv_place. }
  destruct (entries p !! k) as [[e|]|] eqn:He; [| apply Hf | apply Hf]. pose proof (proj1 (Forall_lookup _ _) (pi_good _ Hp) _ _ He) as [Hs Hi].
  assert (forall c b r now', last_now_ms e <= now' -> policy_inv (with_entries p (<[k := Some (with_scalars e c b r (next_session_id e) now')]> (entries p)))) as Hsc.
  { intros c b r now' Ht. eapply policy_inv_place; [done | done | exact (Hown e eq_refl) | by apply shape_scalars | by apply inv_scalars]. }
  destruct (_ && _).
  - destruct (_ || _) eqn:E; [done |]. apply orb_false_iff in E as [_ E]. bool_to_prop. apply Hsc. lia.
  - destruct (_ =? 0); [apply Hsc; lia |]. destruct (_ <? _); [done | apply Hf].
Qed.

Lemma fmap_inv p (f : option FragmentationPolicyEntry -> option FragmentationPolicyEntry) : policy_inv p ->
  (forall x e', f x = Some e' -> entry_good x -> exists e, x = Some e /\ e_signer e' = e_signer e /\ shape e' /\ entry_inv e') ->
  policy_inv (with_entries p (f <$> entries p)).
Proof.
  intros [Hu Hg] Hf. split.
  - intros i j e e' Hi Hj Hs. cbn in Hi, Hj. rewrite list_lookup_fmap in Hi, Hj. destruct (entries p !! i) as [x|] eqn:Ei; [| done]. destruct (entries p !! j) as [y|] eqn:Ej; [| done].
    cbn in Hi, Hj. injection Hi as Hi. injection Hj as Hj.
    destruct (Hf _ _ Hi (proj1 (Forall_lookup _ _) Hg _ _ Ei)) as (x' & -> & Hx & _), (Hf _ _ Hj (proj1 (Forall_lookup _ _) Hg _ _ Ej)) as (y' & -> & Hy & _).
    apply (Hu i j x' y'); [done | done | congruence].
  - cbn. apply Forall_fmap. eapply Forall_impl; [exact Hg |]. intros x Hx. cbn. destruct (f x) as [e'|] eqn:E; [| done]. by destruct (Hf _ _ E Hx) as (e & -> & _ & ? & ?).
Qed.

Lemma expire_due_inv p now : policy_inv p -> policy_inv (snd (expire_due now p)).
Proof.
  intros Hp. unfold expire_due. destruct (existsb _ _) eqn:E; [done |]. cbn [snd]. rewrite <- list_fmap_compose.
  assert (Forall (fun x => match x with Some e => last_now_ms e <= now | None => True end) (entries p)) as Hle.
  { apply Forall_forall. intros [e|] Hx; [| done]. destruct (Z.le_gt_cases (last_now_ms e) now) as [|Hgt]; [done |]. exfalso.
    assert (existsb (fun e => match e with Some e => now <? last_now_ms e | None => false end) (entries p) = true); [| congruence].
    apply existsb_exists. exists (Some e). split; [by apply list_elem_of_In | by apply Z.ltb_lt]. }
  rewrite (list_fmap_ext _ (fmap (fun e => run_call e (Poll now)))).
  - apply fmap_inv; [done |]. intros x e' (e & -> & ->)%fmap_Some [Hs Hi]. exists e. split; [done |]. split; [| by apply good_call].
    exact (f_equal (fun x => x.1.1.1) (call_identity e (Poll now))).
  - intros i [e|] Hi; [| done]. cbn [fmap option_fmap option_map run_call compose]. pose proof (proj1 (Forall_lookup _ _) Hle _ _ Hi) as Ht. cbn in Ht. rewrite (proj2 (Z.ltb_ge now _)) by done.
    by destruct (expire_sessions_at _ _).
Qed.

Lemma retire_inv p s : policy_inv p -> policy_inv (retire_peer s p).
Proof.
  intros Hp. apply fmap_inv; [done |]. intros x e' Hf Hx. case_decide; [done |]. subst x. exists e'. by destruct Hx.
Qed.

(** The steps a policy takes: the session operations of any permit, a poll, the
    arrival and the retirement of a peer. *)
Inductive policy_op :=
| PCall (permit : Permit) (c : call)
| PPoll (now : Z)
| PInstall (peer : AuthenticatedPeerSchcContext) (now : Z)
| PBind (s : bytes)
| PRetire (s : bytes).
Definition policy_step (p : FragmentationPolicy) (o : policy_op) : FragmentationPolicy :=
  match o with
  | PCall permit c => snd (on_entry permit (fun e => (Ok tt, run_call e c)) p)
  | PPoll now => snd (expire_due now p)
  | PInstall peer now => snd (install_peer peer now p)
  | PBind s => snd (bind_local_signer s p)
  | PRetire s => retire_peer s p
  end.

(** A policy keeps one entry per peer, with sessions that are unique, numbered
    below the counter and bounded in time, whatever its peers do. *)
Lemma policy_invariant m next p next' ops : policy_new m next = (Ok p, next') -> policy_inv (foldl policy_step p ops).
Proof.
  intros Hnew. assert (policy_inv p) as Hp.
  { unfold policy_new in Hnew. destruct (_ || _); [done |]. destruct (Evidence.nonzero _); [| done]. injection Hnew as <- _.
    split; [intros i j e e' Hi; apply lookup_replicate in Hi as [? _]; done | by apply Forall_replicate]. }
  clear Hnew. revert p Hp. induction ops as [|o ops IH]; intros p Hp; [done |]. apply IH. destruct o as [permit c|now|peer now|s|s]; cbn [policy_step].
  - by apply (on_entry_call p permit _ c).
  - by apply expire_due_inv.
  - by apply install_inv.
  - unfold bind_local_signer. repeat case_match; try done; destruct Hp; by split.
  - by apply retire_inv.
Qed.

(** New keys of a peer end its earlier permits. *)
Lemma new_keys_end_permits p peer now permit permit' p' : policy_inv p -> install_peer peer now p = (Ok permit', p') ->
  p_signer permit = signer_identity peer -> (p_key_generation permit, p_durable_key_generation permit) <> (key_generation peer, durable_key_generation peer) ->
  permit_entry p' permit = None /\ exists e, permit_entry p' permit' = Some e.
Proof.
  intros Hp H Hs Hk. pose proof (install_inv p peer now Hp) as Hp'. rewrite H in Hp'. cbn in Hp'.
  assert (exists e, permit_entry p' permit' = Some e /\ identity e = (signer_identity peer, p_generation permit', key_generation peer, durable_key_generation peer)) as (e & He & Hid).
  { unfold install_peer in H. destruct (p_local_signer p); [| done]. destruct (canonical_fragmentation_rule _ _ _); [| done].
    destruct (policy_place p (signer_identity peer)) as [k|] eqn:Hpl; [| done]. destruct (policy_place_spec _ _ _ Hp Hpl) as (Hlt & Hown & _).
    assert (forall gen e, e_signer e = signer_identity peer -> generation e = gen -> e_key_generation e = key_generation peer -> e_durable_key_generation e = durable_key_generation peer ->
      permit' = issue_permit p k gen peer -> p' = with_entries p (<[k := Some e]> (entries p)) ->
      exists e, permit_entry p' permit' = Some e /\ identity e = (signer_identity peer, p_generation permit', key_generation peer, durable_key_generation peer)) as Hdone.
    { intros gen e E1 E2 E3 E4 -> ->. exists e. unfold permit_entry. cbn. rewrite Z.eqb_refl, Nat2Z.id, list_lookup_insert_eq by done. cbn.
      rewrite E2, E3, !Z.eqb_refl, !bool_decide_eq_true_2 by congruence. split; [done |]. unfold identity. congruence. }
    assert (forall gen, (if compatible (fresh_entry peer gen now) then Ok (issue_permit p k gen peer) else Err VersionMismatch, with_entries p (<[k := Some (fresh_entry peer gen now)]> (entries p))) = (Ok permit', p') ->
      exists e, permit_entry p' permit' = Some e /\ identity e = (signer_identity peer, p_generation permit', key_generation peer, durable_key_generation peer)) as Hfresh.
    { intros gen Hg. destruct (compatible _); [| done]. injection Hg as <- <-. by eapply (Hdone gen (fresh_entry peer gen now)). }
    destruct (entries p !! k) as [[e|]|] eqn:Ee; [| by eapply Hfresh | by eapply Hfresh]. destruct (_ && _) eqn:Esame.
    - destruct (_ || _); [done |]. destruct (compatible _); [| done]. injection H as <- <-. apply andb_true_iff in Esame as [Esame _]. apply andb_true_iff in Esame as [E1 E2]. apply bool_decide_eq_true in E2. bool_to_prop.
      apply (Hdone (generation e) (with_scalars e (authenticated_counter peer) true (floor_restore_required e) (next_session_id e) now)); [exact (Hown e eq_refl) | reflexivity | exact E1 | exact E2 | reflexivity | reflexivity].
    - destruct (_ =? 0); [done |]. destruct (_ <? _); [done |]. by eapply Hfresh. }
  split; [| by exists e]. destruct (permit_entry p' permit) as [x|] eqn:Ex; [| done]. exfalso. apply permit_entry_lookup in Ex as [Hx Hxid], He as [He _].
  assert (Z.to_nat (p_slot permit) = Z.to_nat (p_slot permit')) as Heq.
  { apply (pi_uniq _ Hp' _ _ x e Hx He). unfold identity in Hid, Hxid. congruence. }
  rewrite Heq, He in Hx. injection Hx as <-. rewrite Hid in Hxid. apply Hk. unfold identity in Hxid. congruence.
Qed.

(** ** A session and its successor *)

Definition demo_peer : AuthenticatedPeerSchcContext :=
  {| PeerContext.remote_version := 3; PeerContext.expected_role := PeerContext.Peer; PeerContext.signer_identity := replicate 32 7;
     PeerContext.authenticated_counter := 4; PeerContext.key_generation := 1; PeerContext.durable_key_generation := replicate 16 1;
     PeerContext.authority_owner := 1; PeerContext.authority_slot := 0; PeerContext.authority_generation := 1;
     PeerContext.receipt_clock_domain := 1; PeerContext.receipt_ticks := 0 |}.
Definition demo_entry : FragmentationPolicyEntry := run_call (fresh_entry demo_peer 1 0) (ReserveReceiver RULE_ID_B_TO_A 1000 5).
Definition demo_calls : list call :=
  [TouchReceiver RULE_ID_B_TO_A 1 2000 9; ReleaseReceiver RULE_ID_B_TO_A 1 3000 9 result_default; ReserveReceiver RULE_ID_B_TO_A 50000 1;
   ReserveReceiver RULE_ID_B_TO_A 63000 1].
Lemma demo_lane : lanes demo_entry !! 3%nat = Some (Busy 1 61000 5) /\ lanes (foldl run_call demo_entry demo_calls) !! 3%nat = Some (Busy 2 123000 9).
Proof. by vm_compute. Qed.

Lemma hold_down_enforced_witness : hold_until 1000 <= 63000.
Proof.
  destruct (hold_down_enforced demo_entry demo_calls 3 1 61000 5) as [H _].
  - apply (call_moves (fresh_entry demo_peer 1 0)), fresh_inv.
  - apply demo_lane.
  - exact (H 2 123000 9 (proj2 demo_lane) ltac:(done)).
Defined.

End FragPolicy.
