(* ===== verification/FragAuth.v ===== *)
(** * SCHC fragmentation: authenticated sessions and the sealed floor

    lichen-schc/src/fragment.rs: the operations of [FragmentSender] and
    [AuthenticatedFragmentReceiver] that ask the policy first, and the floor
    record that carries a receiver's counter over a restart.

    The [std] operations and those for the bounded authority differ in how the
    peer is checked; the check is the argument [gate], with its two instances
    below.  A receiver operation that reassembles returns an [option]: [None] is
    the panic of [FragSession]. *)

From S2P Require Import Prelude Frame Evidence Schnorr FragCodec FragSession FragReceiver SchcPeer FragPolicy.
Open Scope Z_scope.

Module FragAuth.
Import Frag FragSession FragPolicy.
Import PeerContext (AuthenticatedPeerSchcContext, AuthenticatedLinkFrame, PeerContextAuthority, authority_is_current,
  signer_identity, authenticated_counter, key_generation, durable_key_generation, receipt_clock_domain, authenticated_counter_of, monotonic_millis,
  destination, destination_mode, signer, receipt, is_current, local_eui64).
#[local] Open Scope policy_scope.

Abbreviation frame_payload := PeerContext.payload.

#[export] Instance AddrMode_eq_dec : EqDecision Frame.AddrMode.
Proof. solve_decision. Defined.

(** ** Gates *)

Definition Gate : Type := FragmentationPolicy -> Permit -> bool.
Definition authority_gate (a : PeerContextAuthority) (peer : AuthenticatedPeerSchcContext) : Gate := fun p permit => accepts_with_authority p permit a peer.
Definition link_gate (peer_current : bool) (link : Z) (peer : AuthenticatedPeerSchcContext) : Gate := fun p permit => accepts_current p permit peer_current link peer.

(** An operation of the policy inside one on a handle. *)
Definition on_policy {X A} (m : MP A) : M (X * FragmentationPolicy) A := fun '(x, p) => let '(r, p) := m p in (r, (x, p)).
Definition get_handle {X} : M (X * FragmentationPolicy) X := fun s => (Ok s.1, s).
Definition get_policy {X} : M (X * FragmentationPolicy) FragmentationPolicy := fun s => (Ok s.2, s).
Definition put_handle {X} (x : X) : M (X * FragmentationPolicy) unit := fun s => (Ok tt, (x, s.2)).

(** ** The sender *)

Abbreviation MS := (M (FragmentSender * FragmentationPolicy)).

Definition sender_new (gate : Gate) (permit : Permit) (peer : AuthenticatedPeerSchcContext) (payload : bytes) (receiver_limit : nat) (now : Z) : MP FragmentSender :=
  let! p := get in
  require (gate p permit) InvalidPeerEvidence ;;
  let! rule := lift (outbound_rule p permit) in
  let! s := lift (new_unchecked payload rule receiver_limit permit) in
  let! n := reserve_sender permit rule now (authenticated_counter peer) in
  ret (s_session s (ack_high_counter s) (retransmit_at_ms s) now n true).

Definition start (gate : Gate) (now : Z) : MS unit :=
  let! s := get_handle in
  require (bool_decide (status s = Ready)) InvalidState ;;
  let! p := get_policy in
  require (gate p (s_permit s)) InvalidPeerEvidence ;;
  let! deadline := lift (retransmission_deadline now) in
  on_policy (touch_sender (s_permit s) (s_rule_id s) (s_session_id s) now) ;;
  let! s := lift (start_inner s) in
  put_handle (s_session s (ack_high_counter s) (Some deadline) now (s_session_id s) (reservation_active s)).

Definition get_fragment (gate : Gate) (index : nat) (now : Z) : MS (option Fragment) :=
  let! s := get_handle in
  if (count s <=? index)%nat then ret None
  else
    let! p := get_policy in
    require (gate p (s_permit s)) InvalidPeerEvidence ;;
    on_policy (touch_sender (s_permit s) (s_rule_id s) (s_session_id s) now) ;;
    ret (get_fragment_inner s index).

Definition terminal_status (s : FragmentSender) : bool := bool_decide (status s = Succeeded) || bool_decide (status s = Aborted).
Definition is_retransmit (o : SenderOutput) : bool := match o with OutRetransmit _ _ _ _ => true | _ => false end.

(** What both ways of receiving an acknowledgement do once the frame is accepted. *)
Definition ack_accepted (data : bytes) (counter now : Z) : MS SenderOutput :=
  let! s := get_handle in
  require (last_timer_ms s <=? now) InvalidPeerEvidence ;;
  let! next_deadline := lift (retransmission_deadline now) in
  on_policy (touch_sender (s_permit s) (s_rule_id s) (s_session_id s) now) ;;
  let '(r, s) := handle_ack_bytes_inner s data in
  put_handle s ;;
  let! output := lift r in
  let s := s_session s (Some counter) (retransmit_at_ms s) now (s_session_id s) (reservation_active s) in
  put_handle s ;;
  (if terminal_status s then
     on_policy (release_sender (s_permit s) (s_rule_id s) (s_session_id s) now counter) ;;
     put_handle (s_session s (ack_high_counter s) None (last_timer_ms s) (s_session_id s) false)
   else if is_retransmit output then
     put_handle (s_session s (ack_high_counter s) (Some next_deadline) (last_timer_ms s) (s_session_id s) (reservation_active s))
   else ret tt) ;;
  ret output.

Definition above (high : option Z) (counter : Z) : bool := match high with Some h => h <? counter | None => true end.

(** [unicast]: the frame is addressed to this link alone. *)
Definition handle_ack_frame (gate : Gate) (unicast : bool) (frame : AuthenticatedLinkFrame) : MS SenderOutput :=
  let! s := get_handle in
  let counter := authenticated_counter_of frame in
  match monotonic_millis (receipt frame) with
  | None => fail InvalidPeerEvidence
  | Some now =>
      let! p := get_policy in
      require (gate p (s_permit s) && is_current frame && bool_decide (signer frame = remote_signer s) && unicast && above (ack_high_counter s) counter) InvalidPeerEvidence ;;
      lift (validate_authenticated_control s (frame_payload frame)) ;;
      ack_accepted (frame_payload frame) counter now
  end.
Definition handle_ack_link_verified (a : PeerContextAuthority) (peer : AuthenticatedPeerSchcContext) (frame : AuthenticatedLinkFrame) : MS SenderOutput :=
  let! s := get_handle in
  let! p := get_policy in
  require (accepts_with_authority p (s_permit s) a peer && bool_decide (signer_identity peer = remote_signer s) && bool_decide (signer frame = remote_signer s)
           && bool_decide (destination_mode frame = Frame.AM_Extended) && bool_decide (destination frame = local_eui64 a)
           && (Evidence.clock_domain (receipt frame) =? receipt_clock_domain peer) && is_current frame
           && above (ack_high_counter s) (authenticated_counter_of frame)) InvalidPeerEvidence ;;
  lift (validate_authenticated_control s (frame_payload frame)) ;;
  match monotonic_millis (receipt frame) with
  | None => fail InvalidPeerEvidence
  | Some now => ack_accepted (frame_payload frame) (authenticated_counter_of frame) now
  end.

Definition timeout (gate : Gate) (peer : AuthenticatedPeerSchcContext) (now : Z) : MS SenderOutput :=
  let! s := get_handle in
  require (bool_decide (status s = Active)) InvalidState ;;
  let! p := get_policy in
  require (gate p (s_permit s)) InvalidPeerEvidence ;;
  require (last_timer_ms s <=? now) InvalidPeerEvidence ;;
  let! deadline := lift (ok_or (retransmit_at_ms s) InvalidState) in
  if now <? deadline then ret OutNone
  else
    let! next_deadline := lift (retransmission_deadline now) in
    on_policy (touch_sender (s_permit s) (s_rule_id s) (s_session_id s) now) ;;
    let '(r, s) := timeout_inner s in
    put_handle s ;;
    let! output := lift r in
    let s := s_session s (ack_high_counter s) (retransmit_at_ms s) now (s_session_id s) (reservation_active s) in
    put_handle s ;;
    (if bool_decide (status s = Aborted) then
       on_policy (release_sender (s_permit s) (s_rule_id s) (s_session_id s) now (default (authenticated_counter peer) (ack_high_counter s))) ;;
       put_handle (s_session s (ack_high_counter s) None (last_timer_ms s) (s_session_id s) false)
     else put_handle (s_session s (ack_high_counter s) (Some next_deadline) (last_timer_ms s) (s_session_id s) (reservation_active s))) ;;
    ret output.

Definition cancel (now : Z) : MS unit :=
  let! s := get_handle in
  require (bool_decide (status s = Ready) || bool_decide (status s = Active)) InvalidState ;;
  let s := s_update s (s_attempts s) Aborted (retransmit_at_ms s) in
  put_handle s ;;
  on_policy (release_sender (s_permit s) (s_rule_id s) (s_session_id s) now (default 0 (ack_high_counter s))) ;;
  put_handle (s_session s (ack_high_counter s) None (last_timer_ms s) (s_session_id s) false).

(** The selected message is written once to see whether there is one, then for
    good; the buffer keeps what the first writing left. *)
Definition write_next (gate : Gate) (s : FragmentSender) (p : FragmentationPolicy) (output : SenderOutput) (out : bytes) (now : Z) :
    result FragmentError (option nat) * SenderOutput * bytes * FragmentationPolicy :=
  let '(r, _, out) := write_next_inner s output out in
  match r with
  | Err e => (Err e, output, out, p)
  | Ok None => (Ok None, output, out, p)
  | Ok (Some _) =>
      if negb (gate p (s_permit s)) then (Err InvalidPeerEvidence, output, out, p)
      else
        match touch_sender (s_permit s) (s_rule_id s) (s_session_id s) now p with
        | (Err e, p) => (Err e, output, out, p)
        | (Ok _, p) => (write_next_inner s output out, p)
        end
  end.

Definition sender_drop (s : FragmentSender) (p : FragmentationPolicy) : FragmentationPolicy :=
  if reservation_active s then abandon_sender (s_permit s) (s_rule_id s) (s_session_id s) (default 0 (ack_high_counter s)) p else p.

(** The same behind a live link. *)
Definition sender_new_current (peer_current : bool) (link : Z) (permit : Permit) (peer : AuthenticatedPeerSchcContext) (payload : bytes) (receiver_limit : nat) (now : Z) : MP FragmentSender :=
  sender_new (link_gate peer_current link peer) permit peer payload receiver_limit now.
Definition start_current (peer_current : bool) (link : Z) (peer : AuthenticatedPeerSchcContext) (now : Z) : MS unit := start (link_gate peer_current link peer) now.
Definition get_fragment_current (peer_current : bool) (link : Z) (peer : AuthenticatedPeerSchcContext) (index : nat) (now : Z) : MS (option Fragment) :=
  get_fragment (link_gate peer_current link peer) index now.
Definition timeout_current (peer_current : bool) (link : Z) (peer : AuthenticatedPeerSchcContext) (now : Z) : MS SenderOutput := timeout (link_gate peer_current link peer) peer now.
Definition write_next_current (peer_current : bool) (link : Z) (peer : AuthenticatedPeerSchcContext) (s : FragmentSender) (p : FragmentationPolicy) (output : SenderOutput) (out : bytes) (now : Z) :
    result FragmentError (option nat) * SenderOutput * bytes * FragmentationPolicy :=
  write_next (link_gate peer_current link peer) s p output out now.

(** ** The receiver *)

Record AuthenticatedFragmentReceiver := {
  inner : FragmentReceiver;
  permit : Permit;
  a_rule_id : Z;
  a_signer : bytes;
  a_high_counter : option Z;
  admission_floor : Z;
  terminal : bool;
  session_id : Z
}.
Definition with_inner (r : AuthenticatedFragmentReceiver) (i : FragmentReceiver) (high : option Z) (t : bool) : AuthenticatedFragmentReceiver :=
  {| inner := i; permit := permit r; a_rule_id := a_rule_id r; a_signer := a_signer r; a_high_counter := high;
     admission_floor := admission_floor r; terminal := t; session_id := session_id r |}.

Definition receiver_allocation_error (rule : Z) (e : FragmentError) : FragmentError :=
  match e with
  | InvalidReceiverLimit | PolicyFull => ReceiverAllocationRejected (RespReceiverAbort rule)
  | e => e
  end.
Definition map_err {S A} (f : FragmentError -> FragmentError) (m : M S A) : M S A :=
  fun s => match m s with (Ok a, s) => (Ok a, s) | (Err e, s) => (Err (f e), s) end.

Definition receiver_new (gate : Gate) (pm : Permit) (peer : AuthenticatedPeerSchcContext) (storage : bytes) (now : Z) : MP AuthenticatedFragmentReceiver :=
  let! p := get in
  let! rule := lift (inbound_rule p pm) in
  lift (check_rule rule) ;;
  require (gate p pm) InvalidPeerEvidence ;;
  let! i := map_err (receiver_allocation_error rule) (lift (new_inner storage)) in
  let! r := map_err (receiver_allocation_error rule) (reserve_receiver pm rule now (authenticated_counter peer)) in
  ret {| inner := i; permit := pm; a_rule_id := rule; a_signer := signer_identity peer; a_high_counter := None;
         admission_floor := r.2; terminal := false; session_id := r.1 |}.

Definition receiver_new_current (peer_current : bool) (link : Z) (pm : Permit) (peer : AuthenticatedPeerSchcContext) (storage : bytes) (now : Z) : MP AuthenticatedFragmentReceiver :=
  receiver_new (link_gate peer_current link peer) pm peer storage now.

Definition replay_terminal_frame (gate : Gate) (pm : Permit) (peer : AuthenticatedPeerSchcContext) (unicast : bool) (frame : AuthenticatedLinkFrame) : MP (option ReceiverResult) :=
  let! p := get in
  require (gate p pm && is_current frame && unicast && bool_decide (signer frame = signer_identity peer)) InvalidPeerEvidence ;;
  match monotonic_millis (receipt frame) with
  | None => fail InvalidPeerEvidence
  | Some now =>
      match frame_payload frame with
      | [] => fail (FE_TooShort {| expected := 1; actual := 0 |})
      | rule :: _ =>
          let! inbound := lift (inbound_rule p pm) in
          require (rule =? inbound) InvalidPeerEvidence ;;
          let! facing := lift (is_sender_facing_control (frame_payload frame) rule) in
          require (negb facing) MalformedAck ;;
          replay_receiver_terminal pm rule (authenticated_counter_of frame) now (frame_payload frame)
      end
  end.
Definition replay_terminal_link_evidence (pm : Permit) (a : PeerContextAuthority) (peer : AuthenticatedPeerSchcContext) (frame : AuthenticatedLinkFrame) : MP (option ReceiverResult) :=
  replay_terminal_frame (authority_gate a peer) pm peer
    (bool_decide (destination_mode frame = Frame.AM_Extended) && bool_decide (destination frame = local_eui64 a)) frame.

Definition MR : Type := AuthenticatedFragmentReceiver -> FragmentationPolicy -> option (result FragmentError ReceiverResult * AuthenticatedFragmentReceiver * FragmentationPolicy).

Definition receive_verified (data : bytes) (counter now : Z) : MR := fun r p =>
  match receive_bytes_inner (inner r) data with
  | None => None
  | Some (Err e, i) => Some (Err e, with_inner r i (a_high_counter r) (terminal r), p)
  | Some (Ok res, i) =>
      let r := with_inner r i (Some counter) (terminal r) in
      if aborted res || bool_decide (res_packet_len res <> None) then
        match release_receiver (permit r) (a_rule_id r) (session_id r) now counter res p with
        | (Err e, p) => Some (Err e, r, p)
        | (Ok _, p) => Some (Ok res, with_inner r i (Some counter) true, p)
        end
      else
        match touch_receiver (permit r) (a_rule_id r) (session_id r) now counter p with
        | (Err e, p) => Some (Err e, r, p)
        | (Ok _, p) => Some (Ok res, r, p)
        end
  end.

(** The frame is newer than all the session has seen, and opens it if it is the
    first. *)
Definition fresh_for (r : AuthenticatedFragmentReceiver) (data : bytes) (counter : Z) : bool :=
  match a_high_counter r with
  | None => (admission_floor r <? counter) && is_receiver_session_opener data (a_rule_id r)
  | Some h => h <? counter
  end.

Definition receive_frame (gate : Gate) (peer : AuthenticatedPeerSchcContext) (unicast : bool) (frame : AuthenticatedLinkFrame) : MR := fun r p =>
  let counter := authenticated_counter_of frame in
  match monotonic_millis (receipt frame) with
  | None => Some (Err InvalidPeerEvidence, r, p)
  | Some now =>
      if negb (terminal r) && gate p (permit r) && is_current frame && bool_decide (signer frame = a_signer r) && unicast
         && bool_decide (head (frame_payload frame) = Some (a_rule_id r)) && fresh_for r (frame_payload frame) counter
         && (Evidence.clock_domain (receipt frame) =? receipt_clock_domain peer)
      then receive_verified (frame_payload frame) counter now r p
      else Some (Err InvalidPeerEvidence, r, p)
  end.
Definition receive_link_verified (a : PeerContextAuthority) (peer : AuthenticatedPeerSchcContext) (frame : AuthenticatedLinkFrame) : MR := fun r p =>
  let counter := authenticated_counter_of frame in
  if negb (terminal r) && accepts_with_authority p (permit r) a peer && bool_decide (signer_identity peer = a_signer r) && bool_decide (signer frame = a_signer r)
     && bool_decide (destination_mode frame = Frame.AM_Extended) && bool_decide (destination frame = local_eui64 a)
     && bool_decide (head (frame_payload frame) = Some (a_rule_id r)) && fresh_for r (frame_payload frame) counter
     && (Evidence.clock_domain (receipt frame) =? receipt_clock_domain peer) && is_current frame
  then
    match monotonic_millis (receipt frame) with
    | None => Some (Err InvalidPeerEvidence, r, p)
    | Some now => receive_verified (frame_payload frame) counter now r p
    end
  else Some (Err InvalidPeerEvidence, r, p).

Definition receiver_cancel (now : Z) : M (AuthenticatedFragmentReceiver * FragmentationPolicy) unit :=
  let! r := get_handle in
  require (negb (terminal r)) InvalidState ;;
  on_policy (release_receiver (permit r) (a_rule_id r) (session_id r) now (default 0 (a_high_counter r))
    {| response := None; res_packet_len := None; mic_ok := None; aborted := true |}) ;;
  put_handle (with_inner r (inner r) (a_high_counter r) true).
Definition receiver_timeout (now : Z) : M (AuthenticatedFragmentReceiver * FragmentationPolicy) unit :=
  let! r := get_handle in
  require (negb (terminal r)) InvalidState ;;
  on_policy (expire_receiver (permit r) (a_rule_id r) (session_id r) now) ;;
  put_handle (with_inner r (inner r) (a_high_counter r) true).
Definition receiver_drop (r : AuthenticatedFragmentReceiver) (p : FragmentationPolicy) : FragmentationPolicy :=
  if terminal r then p else abandon_receiver (permit r) (a_rule_id r) (session_id r) (default 0 (a_high_counter r)) p.

(** ** The sealed floor *)

(** b"LICHEN-SCHC-FLOOR-v1\0" *)
Definition FLOOR_RECORD_DOMAIN : bytes := [76; 73; 67; 72; 69; 78; 45; 83; 67; 72; 67; 45; 70; 76; 79; 79; 82; 45; 118; 49; 0].
Definition FLOOR_RECORD_SIGNATURE_LEN : nat := 48.
Definition FLOOR_RECORD_BODY_LEN : nat := length FLOOR_RECORD_DOMAIN + 1 + 8 + 4 + 32 + 32 + 16 + 1 + 8 + 4 + 1 + 1 + 8 + 1 + 1 + 1.
Definition FLOOR_RECORD_LEN : nat := FLOOR_RECORD_BODY_LEN + FLOOR_RECORD_SIGNATURE_LEN.

Record DecodedFloorRecord := {
  revision : Z;
  replay_counter : Z;
  d_local_signer : bytes;
  d_remote_signer : bytes;
  d_durable_key_generation : bytes;
  d_rule_id : Z;
  tombstone : TerminalTombstone;
  restart_hold_down_ms : Z
}.

(** [response_tag, ack_window, ack_bitmap, ack_complete] of a cached result. *)
Definition response_fields (rule : Z) (r : ReceiverResult) : option (Z * Z * Z * bool) :=
  match response r with
  | None => Some (0, 0, 0, false)
  | Some (RespAck a) =>
      if (ack_rule_id a =? rule) && (ack_window a <=? 1) && (Z.land (bitmap a) (Z.lxor u64_max BITMAP_MASK) =? 0)
         && (negb (complete a) || (bitmap a =? 0)) && negb (aborted r)
      then Some (1, ack_window a, bitmap a, complete a) else None
  | Some (RespReceiverAbort abort_rule) => if (abort_rule =? rule) && aborted r then Some (2, 0, 0, false) else None
  end.
Definition mic_code (m : option bool) : Z := match m with None => 0 | Some false => 1 | Some true => 2 end.

Definition encode_floor_record_body (rev counter : Z) (local remote dkg : bytes) (rule : Z) (t : TerminalTombstone) : result FragmentError bytes :=
  if bool_decide (res_packet_len (t_result t) <> None) then Err InvalidPersistentState
  else
    match response_fields rule (t_result t) with
    | None => Err InvalidPersistentState
    | Some (tag, window, bm, fin) =>
        Ok (FLOOR_RECORD_DOMAIN ++ [2] ++ to_be 8 rev ++ to_be 4 counter ++ local ++ remote ++ dkg ++ [rule] ++
            to_be 8 FRAGMENT_TOMBSTONE_MILLIS ++ to_be 4 (t_high_counter t) ++ [tag] ++ [window] ++ to_be 8 bm ++
            [if fin then 1 else 0] ++ [if aborted (t_result t) then 1 else 0] ++ [mic_code (mic_ok (t_result t))])
    end.

Definition bool_byte (b : Z) : option bool := if b =? 0 then Some false else if b =? 1 then Some true else None.
Definition mic_byte (b : Z) : option (option bool) := if b =? 0 then Some None else if b =? 1 then Some (Some false) else if b =? 2 then Some (Some true) else None.
(** The cached response a tag and its fields stand for. *)
Definition response_of (rule tag window bm : Z) (fin : bool) : option (option ReceiverResponse) :=
  if tag =? 0 then if (window =? 0) && (bm =? 0) && negb fin then Some None else None
  else if tag =? 1 then
    if (window <=? 1) && (Z.land bm (Z.lxor u64_max BITMAP_MASK) =? 0) && (negb fin || (bm =? 0)) then Some (Some (RespAck (ack_new rule window bm fin))) else None
  else if tag =? 2 then if (window =? 0) && (bm =? 0) && negb fin then Some (Some (RespReceiverAbort rule)) else None
  else None.
Definition is_ack (r : option ReceiverResponse) : bool := match r with Some (RespAck _) => true | _ => false end.
Definition is_abort (r : option ReceiverResponse) : bool := match r with Some (RespReceiverAbort _) => true | _ => false end.

Definition decode_floor_record_body (body : bytes) : result FragmentError DecodedFloorRecord :=
  let bad := Err InvalidPersistentState in
  if negb (length body =? FLOOR_RECORD_BODY_LEN)%nat || negb (bool_decide (take 21 body = FLOOR_RECORD_DOMAIN)) then bad
  else if negb (nth 21 body 0 =? 2) then bad
  else
    let rev := from_be (slice 22 30 body) in
    if rev =? 0 then bad
    else
      let dkg := slice 98 114 body in
      if bool_decide (dkg = replicate 16 0) then bad
      else
        let rule := nth 114 body 0 in
        _ ← check_rule rule;
        let hold := from_be (slice 115 123 body) in
        if (hold =? 0) || (FRAGMENT_TOMBSTONE_MILLIS <? hold) then bad
        else
          let tag := nth 127 body 0 in
          match bool_byte (nth 137 body 0) with
          | None => bad
          | Some fin =>
          match bool_byte (nth 138 body 0) with
          | None => bad
          | Some ab =>
          match mic_byte (nth 139 body 0) with
          | None => bad
          | Some mic =>
          match response_of rule tag (nth 128 body 0) (from_be (slice 129 137 body)) fin with
          | None => bad
          | Some resp =>
              if (is_ack resp && ab) || (is_abort resp && negb ab) || (bool_decide (mic = Some true) && negb fin)
                 || (bool_decide (mic = Some false) && (negb (tag =? 1) || fin)) then bad
              else
                Ok {| revision := rev; replay_counter := from_be (slice 30 34 body); d_local_signer := slice 34 66 body; d_remote_signer := slice 66 98 body;
                      d_durable_key_generation := dkg; d_rule_id := rule;
                      tombstone := {| until_ms := 0; t_high_counter := from_be (slice 123 127 body);
                        t_result := {| response := resp; res_packet_len := None; mic_ok := mic; aborted := ab |} |};
                      restart_hold_down_ms := hold |}
          end end end end.

(** [sign] is the local identity's signature. *)
Definition persist_receiver_floor (gate : Gate) (sign : bytes -> bytes) (p : FragmentationPolicy) (pm : Permit) (peer : AuthenticatedPeerSchcContext) (rev : Z) (out : bytes) :
    result FragmentError nat * bytes :=
  let body :=
    if (rev =? 0) || negb (gate p pm) then Err InvalidPersistentState
    else
      rule ← inbound_rule p pm;
      match permit_entry p pm with
      | None => Err InvalidPeerEvidence
      | Some e =>
          i ← rule_index rule;
          t ← ok_or (at_index (receiver_tombstones e) i) InvalidPersistentState;
          local ← ok_or (p_local_signer p) InvalidPersistentState;
          encode_floor_record_body rev (authenticated_counter peer) local (p_signer pm) (p_durable_key_generation pm) rule t
      end in
  match body with
  | Err e => (Err e, out)
  | Ok body =>
      if (length out <? FLOOR_RECORD_LEN)%nat then (Err (FE_BufferTooSmall {| required := FLOOR_RECORD_LEN; provided := length out |}), out)
      else (Ok FLOOR_RECORD_LEN, list_inserts 0 (body ++ sign body) out)
  end.

(** What the link answers: the peer is current, this is the record it waits for,
    and (asked last) it gives the record up. *)
Definition restore_receiver_floor `{Schnorr.Crypto} (peer_current matches consume : bool) (local_key : bytes) (pm : Permit) (peer : AuthenticatedPeerSchcContext)
    (record : bytes) (committed now : Z) : MP Z :=
  let bad := InvalidPersistentState in
  require (peer_current && (length record =? FLOOR_RECORD_LEN)%nat && matches) bad ;;
  let body := take FLOOR_RECORD_BODY_LEN record in
  require (Schnorr.verify_profile_message local_key body (drop FLOOR_RECORD_BODY_LEN record)) bad ;;
  let! d := lift (decode_floor_record_body body) in
  require (committed <=? revision d) PersistentRollback ;;
  require (revision d =? committed) bad ;;
  let! p := get in
  let! local := lift (ok_or (p_local_signer p) bad) in
  let! rule := lift (inbound_rule p pm) in
  require (bool_decide (d_local_signer d = local) && bool_decide (d_remote_signer d = p_signer pm) && bool_decide (d_durable_key_generation d = p_durable_key_generation pm)
           && (d_rule_id d =? rule) && bool_decide (durable_key_generation peer = p_durable_key_generation pm) && (replay_counter d <=? authenticated_counter peer)) bad ;;
  let! i := lift (rule_index rule) in
  on_entry pm (fun e =>
    if negb (compatible e) || negb (floor_restore_required e) || (now <? last_now_ms e) || bool_decide (at_index (receiver_sessions e) i <> None)
       || match at_index (receiver_tombstones e) i with Some c => t_high_counter (tombstone d) <? t_high_counter c | None => false end
    then (Err PersistentRollback, e)
    else
      match checked_add u64_max now (restart_hold_down_ms d) with
      | None => (Err bad, e)
      | Some deadline =>
          if negb consume then (Err bad, e)
          else
            let t := {| until_ms := deadline; t_high_counter := Z.max (t_high_counter (tombstone d)) (authenticated_counter peer); t_result := t_result (tombstone d) |} in
            let e := set_rt e i (Some t) in
            (Ok tt, with_scalars e (e_authenticated_counter e) (compatible e) false (next_session_id e) now)
      end) ;;
  ret (revision d).

(** *** The record round trip *)

Lemma slice_concat (k : nat) (parts : list bytes) x a b : parts !! k = Some x -> a = sum_list (length <$> take k parts) -> b = (a + length x)%nat ->
  slice a b (concat parts) = x.
Proof.
  intros Hk Ha Hb. apply list_elem_of_split_length in Hk as (l1 & l2 & -> & ->). rewrite take_app_length in Ha.
  apply (slice_app_eq (concat l1) x (concat l2)); [by rewrite concat_app | | ]; subst; rewrite length_concat; done.
Qed.
Lemma nth_concat (k : nat) (parts : list bytes) x a : parts !! k = Some [x] -> a = sum_list (length <$> take k parts) -> nth a (concat parts) 0 = x.
Proof.
  intros Hk Ha. apply list_elem_of_split_length in Hk as (l1 & l2 & -> & ->). rewrite take_app_length in Ha.
  apply (nth_app_eq (concat l1) (concat l2)); [by rewrite concat_app |]. subst. by rewrite length_concat.
Qed.

Lemma bitmap_masked b : is_u64 b -> Z.land b (Z.lxor u64_max BITMAP_MASK) = 0 -> Z.land b BITMAP_MASK = b.
Proof.
  intros Hb H. change BITMAP_MASK with (Z.ones 63). rewrite Z.land_ones by lia. apply Z.mod_small. split; [width |].
  destruct (Z.lt_ge_cases b (2 ^ 63)) as [|Hge]; [done |]. exfalso. assert (Z.testbit b 63 = true) as Ht.
  { rewrite Z.testbit_true by lia. replace (b / 2 ^ 63) with 1; [done |]. apply (Z.div_unique_pos b (2 ^ 63) 1 (b - 2 ^ 63)); width. }
  apply (f_equal (fun z => Z.testbit z 63)) in H. rewrite Z.land_spec, Ht in H. done.
Qed.

(** What the receiver caches: a packet that checked out was acknowledged as
    complete, one that did not was answered with its bitmap. *)
Definition result_consistent (r : ReceiverResult) : Prop :=
  match mic_ok r with
  | Some true => exists a, response r = Some (RespAck a) /\ complete a = true
  | Some false => exists a, response r = Some (RespAck a) /\ complete a = false
  | None => True
  end.

Lemma response_fields_back rule r tag window bm fin : response_fields rule r = Some (tag, window, bm, fin) ->
  (forall a, response r = Some (RespAck a) -> 0 <= ack_window a /\ is_u64 (bitmap a)) -> result_consistent r ->
  response_of rule tag window bm fin = Some (response r) /\ is_u64 bm /\
  ((is_ack (response r) && aborted r) || (is_abort (response r) && negb (aborted r)) || (bool_decide (mic_ok r = Some true) && negb fin)
   || (bool_decide (mic_ok r = Some false) && (negb (tag =? 1) || fin))) = false.
Proof.
  intros H Ha Hc. unfold response_fields in H. unfold result_consistent in Hc. destruct (response r) as [[a|q]|].
  - destruct (_ && _) eqn:E; [| done]. injection H as <- <- <- <-. apply andb_true_iff in E as [E E5]. apply andb_true_iff in E as [E E4]. apply andb_true_iff in E as [E E3]. apply andb_true_iff in E as [E1 E2].
    destruct (Ha a eq_refl) as [_ Hu]. apply negb_true_iff in E5. bool_to_prop. split; [| split; [done |]].
    + unfold response_of. cbn. rewrite (proj2 (Z.leb_le _ _) E2), E3, Z.eqb_refl, E4. cbn. unfold ack_new. rewrite bitmap_masked by done. by destruct a; cbn in *; subst.
    + cbn. rewrite E5. cbn. destruct (mic_ok r) as [[]|]; cbn; [| | done]; destruct Hc as (a' & [= <-] & ->); done.
  - destruct (_ && _) eqn:E; [| done]. injection H as <- <- <- <-. apply andb_true_iff in E as [E1 ->]. bool_to_prop. subst q. split; [done |]. split; [done |].
    destruct (mic_ok r) as [[]|]; [by destruct Hc as (? & ? & _) | by destruct Hc as (? & ? & _) | done].
  - injection H as <- <- <- <-. split; [done |]. split; [done |]. destruct (mic_ok r) as [[]|]; [by destruct Hc as (? & ? & _) | by destruct Hc as (? & ? & _) | done].
Qed.

(** A sealed floor reads back as it was, with the full hold-down to serve again. *)
Lemma floor_record_roundtrip rev counter local remote dkg rule t body : encode_floor_record_body rev counter local remote dkg rule t = Ok body ->
  is_u64 rev -> rev <> 0 -> is_u32 counter -> length local = 32%nat -> length remote = 32%nat -> length dkg = 16%nat -> dkg <> replicate 16 0 ->
  check_rule rule = Ok tt -> is_u32 (t_high_counter t) -> result_consistent (t_result t) ->
  (forall a, response (t_result t) = Some (RespAck a) -> 0 <= ack_window a /\ is_u64 (bitmap a)) ->
  decode_floor_record_body body = Ok {| revision := rev; replay_counter := counter; d_local_signer := local; d_remote_signer := remote; d_durable_key_generation := dkg;
    d_rule_id := rule; tombstone := {| until_ms := 0; t_high_counter := t_high_counter t; t_result := t_result t |}; restart_hold_down_ms := FRAGMENT_TOMBSTONE_MILLIS |}.
Proof.
  intros H Hrev Hrev0 Hcnt Hll Hlr Hld Hd0 Hrule Hh Hcons Hack. unfold encode_floor_record_body in H. destruct (bool_decide _) eqn:Ep; [done |].
  apply bool_decide_eq_false, dec_stable in Ep. destruct (response_fields rule (t_result t)) as [[[[tag window] bm] fin]|] eqn:Er; [| done]. apply ok_inj in H.
  destruct (response_fields_back _ _ _ _ _ _ Er Hack Hcons) as (Hresp & Hbm & Hbad). clear Er.
  set (parts := [FLOOR_RECORD_DOMAIN; [2]; to_be 8 rev; to_be 4 counter; local; remote; dkg; [rule]; to_be 8 FRAGMENT_TOMBSTONE_MILLIS; to_be 4 (t_high_counter t); [tag]; [window]; to_be 8 bm;
    [if fin then 1 else 0]; [if aborted (t_result t) then 1 else 0]; [mic_code (mic_ok (t_result t))]]).
  assert (body = concat parts) as Hb by (subst parts; cbn [concat]; rewrite app_nil_r; by rewrite <- H). clear H.
  assert (length <$> parts = [21; 1; 8; 4; 32; 32; 16; 1; 8; 4; 1; 1; 8; 1; 1; 1]%nat) as Hlens by (subst parts; cbn [fmap list_fmap]; by rewrite !length_to_be, Hll, Hlr, Hld).
  assert (forall k, length <$> take k parts = take k [21; 1; 8; 4; 32; 32; 16; 1; 8; 4; 1; 1; 8; 1; 1; 1]%nat) as Hpos by (intros k; by rewrite fmap_take, Hlens).
  assert (length body = FLOOR_RECORD_BODY_LEN) as Hlen by (transitivity (sum_list (length <$> parts)); [by rewrite Hb, length_concat | by rewrite Hlens]).
  assert (forall k x a b, parts !! k = Some x -> a = sum_list (take k [21; 1; 8; 4; 32; 32; 16; 1; 8; 4; 1; 1; 8; 1; 1; 1]%nat) -> b = (a + length x)%nat -> slice a b body = x) as Hf.
  { intros k x a b Hk Ha Hbb. rewrite Hb. apply (slice_concat k); [done | by rewrite Hpos | done]. }
  assert (forall k x a, parts !! k = Some [x] -> a = sum_list (take k [21; 1; 8; 4; 32; 32; 16; 1; 8; 4; 1; 1; 8; 1; 1; 1]%nat) -> nth a body 0 = x) as Hn.
  { intros k x a Hk Ha. rewrite Hb. apply (nth_concat k); [done | by rewrite Hpos]. }
  assert (take 21 body = FLOOR_RECORD_DOMAIN) as Hdom by (rewrite Hb; done).
  pose proof (Hn 1%nat 2 21%nat eq_refl eq_refl) as F1. pose proof (Hf 2%nat _ 22%nat 30%nat eq_refl eq_refl ltac:(by rewrite length_to_be)) as F2.
  pose proof (Hf 3%nat _ 30%nat 34%nat eq_refl eq_refl ltac:(by rewrite length_to_be)) as F3. pose proof (Hf 4%nat _ 34%nat 66%nat eq_refl eq_refl ltac:(by rewrite Hll)) as F4.
  pose proof (Hf 5%nat _ 66%nat 98%nat eq_refl eq_refl ltac:(by rewrite Hlr)) as F5. pose proof (Hf 6%nat _ 98%nat 114%nat eq_refl eq_refl ltac:(by rewrite Hld)) as F6.
  pose proof (Hn 7%nat rule 114%nat eq_refl eq_refl) as F7. pose proof (Hf 8%nat _ 115%nat 123%nat eq_refl eq_refl ltac:(by rewrite length_to_be)) as F8.
  pose proof (Hf 9%nat _ 123%nat 127%nat eq_refl eq_refl ltac:(by rewrite length_to_be)) as F9. pose proof (Hn 10%nat tag 127%nat eq_refl eq_refl) as F10.
  pose proof (Hn 11%nat window 128%nat eq_refl eq_refl) as F11. pose proof (Hf 12%nat _ 129%nat 137%nat eq_refl eq_refl ltac:(by rewrite length_to_be)) as F12.
  pose proof (Hn 13%nat _ 137%nat eq_refl eq_refl) as F13. pose proof (Hn 14%nat _ 138%nat eq_refl eq_refl) as F14. pose proof (Hn 15%nat _ 139%nat eq_refl eq_refl) as F15.
  unfold decode_floor_record_body. rewrite Hlen, Nat.eqb_refl, Hdom, bool_decide_eq_true_2 by done. cbn [negb orb].
  rewrite F1, F2, F3, F4, F5, F6, F7, F8, F9, F10, F11, F12, F13, F14, F15, !from_be_to_be_u64, !from_be_to_be_u32 by done.
  rewrite (proj2 (Z.eqb_neq rev 0)), (bool_decide_eq_false_2 (dkg = _)), Hrule by done. unfold mbind, result_bind. cbn [negb orb Z.eqb].
  assert (forall b, bool_byte (if b : bool then 1 else 0) = Some b) as Hbb by (by intros []). assert (forall m, mic_byte (mic_code m) = Some m) as Hmb by (by intros [[]|]).
  rewrite !Hbb, Hmb, Hresp, Hbad. change (FRAGMENT_TOMBSTONE_MILLIS <? FRAGMENT_TOMBSTONE_MILLIS) with false. cbn [orb].
  change (FRAGMENT_TOMBSTONE_MILLIS =? 0) with false. cbn [orb]. repeat f_equal. destruct (t_result t). cbn in *. by subst.
Qed.

(** *** Restoring *)

Lemma on_entry_err {A} pm (m : ME A) p : (forall e er e', m e = (Err er, e') -> e' = e) -> forall er p', on_entry pm m p = (Err er, p') -> p' = p.
Proof.
  intros Hm er p' H. unfold on_entry in H. destruct (permit_entry p pm) as [e|] eqn:E; [| by injection H]. destruct (m e) as [r e'] eqn:Em. injection H as -> <-.
  apply Hm in Em as ->. apply permit_entry_lookup in E as [Hk _]. unfold with_entries. rewrite list_insert_id by done. by destruct p.
Qed.

(** Reading a run backwards. *)
Lemma bind_inv {S A B} (m : M S A) (k : A -> M S B) s r s' : bind m k s = (r, s') ->
  (exists a s1, m s = (Ok a, s1) /\ k a s1 = (r, s')) \/ (exists e, m s = (Err e, s') /\ r = Err e).
Proof. unfold bind. destruct (m s) as [[a|e] s1]; [left; by exists a, s1 | intros [= <- <-]; right; by exists e]. Qed.
Tactic Notation "run_require" hyp(Hr) "as" ident(Hb) :=
  let E := fresh "E" in
  apply bind_inv in Hr as [([] & ? & E & Hr)|(? & E & ->)];
  [| unfold require, ret, fail in E; case_match; by simplify_eq];
  match type of E with require ?b _ _ = _ => destruct b eqn:Hb; [| done] end; injection E as <-.
Tactic Notation "run_lift" hyp(Hr) "as" ident(x) ident(Hx) :=
  let E := fresh "E" in
  apply bind_inv in Hr as [(x & ? & E & Hr)|(? & E & ->)]; [| by injection E as _ <-]; injection E as Hx <-.

(** A record is taken whole or changes nothing; taken, the peer's lane is held for
    the time it states from now on, with a counter at least the sealed one. *)
Lemma restore_floor_spec `{Schnorr.Crypto} peer_current matches consume key pm peer record committed now p r p' :
  restore_receiver_floor peer_current matches consume key pm peer record committed now p = (r, p') ->
  match r with
  | Err _ => p' = p
  | Ok rev =>
      rev = committed /\ Schnorr.verify_profile_message key (take FLOOR_RECORD_BODY_LEN record) (drop FLOOR_RECORD_BODY_LEN record) = true /\
      exists d e i t, decode_floor_record_body (take FLOOR_RECORD_BODY_LEN record) = Ok d /\ permit_entry p pm = Some e /\ rule_index (d_rule_id d) = Ok i /\
        until_ms t = now + restart_hold_down_ms d /\ t_high_counter (tombstone d) <= t_high_counter t /\ authenticated_counter peer <= t_high_counter t /\
        entries p' = <[Z.to_nat (p_slot pm) := Some (with_scalars (set_rt e i (Some t)) (e_authenticated_counter e) (compatible e) false (next_session_id e) now)]> (entries p)
  end.
Proof.
  intros Hr. unfold restore_receiver_floor in Hr.
  run_require Hr as Hlen. run_require Hr as Hsig. run_lift Hr as d Hd. run_require Hr as Hroll. run_require Hr as Hrev.
  apply bind_inv in Hr as [(p0 & p1 & [= <- <-] & Hr)|(er & Hx & _)]; [| done]. run_lift Hr as local Hlocal. run_lift Hr as rule Hinb. run_require Hr as Hall. run_lift Hr as i Hi.
  match type of Hr with bind (on_entry pm ?m) _ p = _ => set (op := m) in Hr end.
  unfold bind, ret in Hr. destruct (on_entry pm op p) as [[[]|er] p1] eqn:Eo; injection Hr as <- <-.
  2: { eapply on_entry_err; [| exact Eo]. intros e0 er0 e0' He. unfold op in He. repeat case_match; by simplify_eq. }
  bool_to_prop. split; [done |]. split; [done |]. unfold on_entry in Eo. destruct (permit_entry p pm) as [e|] eqn:Ee; [| done]. destruct (op e) as [r1 e1] eqn:Eop. injection Eo as -> <-. unfold op in Eop.
  destruct (_ || _) in Eop; [done |]. unfold checked_add in Eop. destruct (_ <=? _) in Eop; [| done]. destruct (negb consume); [done |]. injection Eop as <-.
  exists d, e, i, {| until_ms := now + restart_hold_down_ms d; t_high_counter := Z.max (t_high_counter (tombstone d)) (authenticated_counter peer); t_result := t_result (tombstone d) |}.
  split; [done |]. split; [done |]. split; [rewrite <- Hi; f_equal; repeat match goal with H : _ && _ = true |- _ => apply andb_true_iff in H as [? ?] end; bool_to_prop; done |].
  cbn. split; [done |]. split; [lia |]. split; [lia | done].
Qed.

(** *** What a receiver accepts *)

Lemma release_receiver_ok rule n now high res e e' : shape e -> entry_release_receiver rule n now high res e = (Ok tt, e') ->
  exists i h, rule_index rule = Ok i /\ lanes e' !! (RECEIVERS + i)%nat = Some (Hold (hold_until now) h) /\ high <= h.
Proof.
  intros H. unfold entry_release_receiver, bind, lift, get, put, ret, fail, observe_policy_now. destruct (rule_index rule) as [i|] eqn:Hi; [| done]. pose proof (rule_index_lt _ _ Hi) as Hlt.
  destruct (_ <? _); [done |]. set (e1 := set_now e now). pose proof (own_ok (at_index (receiver_sessions e1) i) n e1 _ eq_refl) as Ho.
  destruct (own_session _ _ _) as [[s|] e2]; [| done]. destruct Ho as (Es & _ & ->). destruct (tombstone_deadline now) as [u|] eqn:Eu; [| done]. apply tombstone_ok in Eu as ->. intros [= <-].
  exists i, (Z.max high (high_counter s)). split; [done |]. split; [| lia]. assert (shape e1) as H1 by (by apply shape_scalars).
  match goal with |- lanes (set_rt _ _ ?t) !! _ = _ => destruct (set_receiver_lane e1 i None t H1 Hlt ltac:(by left)) as [_ ->] end.
  destruct (receiver_lane e1 i H1 Hlt) as [Hk _]. rewrite list_lookup_insert_eq by (by eapply lookup_lt_Some). done.
Qed.
Lemma touch_receiver_ok rule n now counter e e' : shape e -> entry_touch_receiver rule n now counter e = (Ok tt, e') ->
  exists i h, rule_index rule = Ok i /\ lanes e' !! (RECEIVERS + i)%nat = Some (Busy n (now + INACTIVITY_TIMEOUT_MILLIS) h) /\ counter <= h.
Proof.
  intros H. unfold entry_touch_receiver, bind, lift, get, put, ret, fail, observe_policy_now. destruct (rule_index rule) as [i|] eqn:Hi; [| done]. pose proof (rule_index_lt _ _ Hi) as Hlt.
  destruct (_ <? _); [done |]. set (e1 := set_now e now). pose proof (own_ok (at_index (receiver_sessions e1) i) n e1 _ eq_refl) as Ho.
  destruct (own_session _ _ _) as [[s|] e2]; [| done]. destruct Ho as (Es & Hid & ->). destruct (_ <=? _); [done |]. destruct (inactivity_deadline now) as [d|] eqn:Ed; [| done]. apply inactivity_ok in Ed as [-> _]. intros [= <-].
  exists i, (Z.max (high_counter s) counter). split; [done |]. split; [| lia]. assert (shape e1) as H1 by (by apply shape_scalars). rewrite set_rs_both.
  destruct (receiver_lane e1 i H1 Hlt) as [Hk Hx]. rewrite Es in Hx. destruct Hx as [|Hx]; [done |]. rewrite Hx.
  match goal with |- lanes (set_rt (set_rs _ _ ?t) _ _) !! _ = _ => destruct (set_receiver_lane e1 i t None H1 Hlt ltac:(by right)) as [_ ->] end.
  rewrite list_lookup_insert_eq by (by eapply lookup_lt_Some). cbn. by rewrite Hid.
Qed.

(** A frame is accepted only above every counter the session has seen, above the
    floor for the first one; and the policy remembers its counter: with the
    session while it lives, with the hold-down after it. *)
Lemma accepted_counter_recorded a peer frame r p res r' p' : policy_inv p -> receive_link_verified a peer frame r p = Some (Ok res, r', p') ->
  let counter := authenticated_counter_of frame in
  terminal r = false /\ match a_high_counter r with Some h => h < counter | None => admission_floor r < counter end /\ a_high_counter r' = Some counter /\
  exists e i h now, permit_entry p' (permit r) = Some e /\ rule_index (a_rule_id r) = Ok i /\ counter <= h /\ monotonic_millis (receipt frame) = Some now /\
    lanes e !! (RECEIVERS + i)%nat = Some (if terminal r' then Hold (hold_until now) h else Busy (session_id r) (now + INACTIVITY_TIMEOUT_MILLIS) h).
Proof.
  intros Hp H. unfold receive_link_verified in H. destruct (_ && _) eqn:Eg in H; [| done].
  apply andb_true_iff in Eg as [Eg _]. apply andb_true_iff in Eg as [Eg _]. apply andb_true_iff in Eg as [Eg Efresh].
  repeat match goal with H : _ && _ = true |- _ => apply andb_true_iff in H as [? ?] end.
  assert (terminal r = false) as Hterm by (by apply negb_true_iff). destruct (monotonic_millis (receipt frame)) as [now|] eqn:Hnow; [| done]. split; [done |]. split.
  { unfold fresh_for in Efresh. destruct (a_high_counter r); [bool_to_prop; lia |]. apply andb_true_iff in Efresh as [Ef _]. bool_to_prop. lia. }
  unfold receive_verified in H. destruct (receive_bytes_inner _ _) as [[[res0|] i0]|]; [| done | done]. cbn [permit a_rule_id session_id with_inner] in H. destruct (_ || _) in H.
  - destruct (release_receiver _ _ _ _ _ _ _) as [[[]|] p1] eqn:Er; [| done]. injection H as <- <- <-. split; [done |].
    unfold release_receiver in Er. pose proof (on_entry_call p (permit r) _ (ReleaseReceiver (a_rule_id r) (session_id r) now (authenticated_counter_of frame) res0) Hp (fun e => eq_refl)) as (_ & Hpe & _).
    rewrite Er in Hpe. cbn [snd] in Hpe. unfold on_entry in Er. destruct (permit_entry p (permit r)) as [e|] eqn:Ee; [| done]. destruct (entry_release_receiver _ _ _ _ _ e) as [rr e1] eqn:Ec. injection Er as -> <-.
    destruct (permit_entry_lookup _ _ _ Ee) as [Hk _]. pose proof (proj1 (Forall_lookup _ _) (pi_good _ Hp) _ _ Hk) as [Hs _].
    destruct (release_receiver_ok _ _ _ _ _ _ _ Hs Ec) as (i & h & Hi & Hl & Hh). exists e1, i, h, now. rewrite (Hpe e eq_refl). cbn [run_call]. rewrite Ec. done.
  - destruct (touch_receiver _ _ _ _ _ _) as [[[]|] p1] eqn:Er; [| done]. injection H as <- <- <-. split; [done |].
    unfold touch_receiver in Er. pose proof (on_entry_call p (permit r) _ (TouchReceiver (a_rule_id r) (session_id r) now (authenticated_counter_of frame)) Hp (fun e => eq_refl)) as (_ & Hpe & _).
    rewrite Er in Hpe. cbn [snd] in Hpe. unfold on_entry in Er. destruct (permit_entry p (permit r)) as [e|] eqn:Ee; [| done]. destruct (entry_touch_receiver _ _ _ _ e) as [rr e1] eqn:Ec. injection Er as -> <-.
    destruct (permit_entry_lookup _ _ _ Ee) as [Hk _]. pose proof (proj1 (Forall_lookup _ _) (pi_good _ Hp) _ _ Hk) as [Hs _].
    destruct (touch_receiver_ok _ _ _ _ _ _ Hs Ec) as (i & h & Hi & Hl & Hh). exists e1, i, h, now. rewrite (Hpe e eq_refl). cbn [run_call with_inner terminal]. rewrite Ec, Hterm. done.
Qed.

(** A reservation on a held lane starts from the counter that is held. *)
Lemma successor_floor rule now initial e n floor e' i u h : shape e -> entry_reserve_receiver rule now initial e = (Ok (n, floor), e') -> rule_index rule = Ok i ->
  lanes e !! (RECEIVERS + i)%nat = Some (Hold u h) -> u <= now /\ h <= floor /\ initial <= floor.
Proof.
  intros H Hr Hi Hl. pose proof (rule_index_lt _ _ Hi) as Hlt. destruct (receiver_lane e i H Hlt) as [Hk _]. rewrite Hl in Hk.
  destruct (at_index (receiver_sessions e) i) as [s|] eqn:Es; [done |]. destruct (at_index (receiver_tombstones e) i) as [t|] eqn:Et; [| done]. cbn in Hk. injection Hk as -> ->.
  unfold entry_reserve_receiver, bind, lift, get, put, ret, fail, observe_policy_now in Hr. rewrite Hi in Hr. destruct (now <? last_now_ms e); [done |]. cbn [set_now with_scalars receiver_sessions receiver_tombstones] in Hr.
  rewrite Es, Et in Hr. destruct (now <? until_ms t) eqn:Eu; [done |]. bool_to_prop. destruct (inactivity_deadline now); [| done]. destruct (take_session_id _) as [[m|] x]; [| done]. injection Hr as _ <- _. lia.
Qed.

(** *** A revoked permit *)

(** Once the gate refuses the permit the sender gives nothing away and changes
    neither itself nor the policy. *)
Lemma revoked_sender_silent gate s p : gate p (s_permit s) = false ->
  (forall now, exists e, start gate now (s, p) = (Err e, (s, p))) /\
  (forall index now, (index < count s)%nat -> get_fragment gate index now (s, p) = (Err InvalidPeerEvidence, (s, p))) /\
  (forall peer now, exists e, timeout gate peer now (s, p) = (Err e, (s, p))) /\
  (forall unicast frame, handle_ack_frame gate unicast frame (s, p) = (Err InvalidPeerEvidence, (s, p))) /\
  (forall permit peer payload limit now, s_permit s = permit -> sender_new gate permit peer payload limit now p = (Err InvalidPeerEvidence, p)).
Proof.
  intros Hg. split; [| split; [| split; [| split]]]; intros.
  - unfold start, bind, get_handle, get_policy, require, fail, ret. cbn. destruct (bool_decide _); cbn; [| by eexists]. rewrite Hg. by eexists.
  - unfold get_fragment, bind, get_handle, get_policy, require, fail, ret. cbn. rewrite (proj2 (Nat.leb_gt _ _)) by lia. cbn. by rewrite Hg.
  - unfold timeout, bind, get_handle, get_policy, require, fail, ret. cbn. destruct (bool_decide _); cbn; [| by eexists]. rewrite Hg. by eexists.
  - unfold handle_ack_frame, bind, get_handle, get_policy, require, fail, ret. cbn. destruct (monotonic_millis _); [| done]. cbn. by rewrite Hg.
  - subst. unfold sender_new, bind, get, require, fail. by rewrite Hg.
Qed.

End FragAuth.
