(* ===== verification/Gradient.v ===== *)
(** * The gradient table (lichen-node/src/gradient.rs)

    Next hops toward destinations, learned from announces, LOADng replies, RPL
    and forwarded data, in a bounded table whose order is the order of use.  The
    table is a [Vec], least recently used entry first. *)

From Stdlib Require Import Floats.SpecFloat.
From S2P Require Import Prelude F32.
Open Scope Z_scope.

Module Gradient.
Import F32.

Definition MAX_GRADIENT_ENTRIES : nat := 64.
Definition GRADIENT_TIMEOUT_MS : Z := 600000.
Definition DATA_GRADIENT_TIMEOUT_MS : Z := 60000.
Definition SEQ_HALF : Z := Z.shiftl 1 15.

Inductive GradientSource := Announce | Rrep | Rpl | Data.
Definition priority (s : GradientSource) : Z := match s with Data => 0 | Announce | Rrep | Rpl => 1 end.

Record GeoCoords := { lat : f32; lon : f32 }.

(** [i32::from_be_bytes] *)
Definition i32_from_be (l : bytes) : Z := let n := from_be l in if n <? 2 ^ 31 then n else n - 2 ^ 32.
Definition degrees_e7 (l : bytes) : f32 := SFdiv prec emax (of_Z (i32_from_be l)) (of_Z 10000000).
(** The loop over [0..len - 8]; [rest] is the data from the index on. *)
Fixpoint scan_coords (n : nat) (rest : bytes) : option GeoCoords :=
  match n with
  | O => None
  | S n =>
      match rest with
      | b :: rest' => if b =? 1 then Some {| lat := degrees_e7 (slice 1 5 rest); lon := degrees_e7 (slice 5 9 rest) |} else scan_coords n rest'
      | [] => None
      end
  end.
Definition from_app_data (data : bytes) : option GeoCoords := scan_coords (length data - 8) data.

Record GradientEntry := {
  destination : bytes;
  next_hop : bytes;
  hop_count : Z;
  seq_num : Z;
  source : GradientSource;
  expires_ms : Z;
  coords : option GeoCoords
}.

Definition seq_cmp (a b : Z) : comparison :=
  if a =? b then Eq else if wrap16 (a - b) <? SEQ_HALF then Gt else Lt.

Definition should_replace (self other : GradientEntry) : bool :=
  if negb (priority (source self) =? priority (source other)) then priority (source other) <? priority (source self)
  else
    match seq_cmp (seq_num self) (seq_num other) with
    | Gt => true
    | Lt => false
    | Eq => (- hop_count other) <? (- hop_count self)
    end.

(** The difference of two clock readings as a signed number. *)
Definition is_expired (expires now : Z) : bool :=
  let diff := wrap32 (now - expires) in negb (diff =? 0) && (diff <? 0x80000000).

Record GradientTable := { entries : list GradientEntry; max_entries : nat }.
Definition new (m : nat) : GradientTable := {| entries := []; max_entries := m |}.
Definition with_entries (t : GradientTable) (l : list GradientEntry) : GradientTable := {| entries := l; max_entries := max_entries t |}.

Definition is_for (d : bytes) (e : GradientEntry) : Prop := destination e = d.
#[export] Instance is_for_dec d e : Decision (is_for d e).
Proof. unfold is_for. apply _. Defined.
(** [Vec::remove]. *)
Definition remove_at (i : nat) (l : list GradientEntry) : list GradientEntry := take i l ++ drop (S i) l.

Definition promote (t : GradientTable) (i : nat) (e : GradientEntry) : GradientTable :=
  if (i =? length (entries t) - 1)%nat then t else with_entries t (remove_at i (entries t) ++ [e]).
Definition lookup (t : GradientTable) (d : bytes) (now : Z) : option GradientEntry * GradientTable :=
  match list_find (is_for d) (entries t) with
  | None => (None, t)
  | Some (i, e) => if is_expired (expires_ms e) now then (None, t) else (Some e, promote t i e)
  end.

Definition update (t : GradientTable) (e : GradientEntry) (now : Z) : bool * GradientTable :=
  if (max_entries t =? 0)%nat then (false, t)
  else
    match list_find (is_for (destination e)) (entries t) with
    | Some (i, existing) =>
        if is_expired (expires_ms existing) now || should_replace e existing then (true, with_entries t (remove_at i (entries t) ++ [e]))
        else (false, t)
    | None =>
        let l := if (max_entries t <=? length (entries t))%nat then drop 1 (entries t) else entries t in
        (true, with_entries t (l ++ [e]))
    end.

Definition remove (t : GradientTable) (d : bytes) : GradientTable := with_entries t (filter (fun e => destination e <> d) (entries t)).
Definition remove_via (t : GradientTable) (hop : bytes) : list bytes * GradientTable :=
  (destination <$> filter (fun e => next_hop e = hop) (entries t), with_entries t (filter (fun e => next_hop e <> hop) (entries t))).
Definition expire_old (t : GradientTable) (now : Z) : nat * GradientTable :=
  let l := filter (fun e => is_expired (expires_ms e) now = false) (entries t) in
  ((length (entries t) - length l)%nat, with_entries t l).

(** ** Replacement *)

Lemma seq_cmp_flip a b : is_u16 a -> is_u16 b -> seq_cmp a b = Gt -> seq_cmp b a = Lt.
Proof.
  unfold seq_cmp, wrap16, SEQ_HALF. change (Z.shiftl 1 15) with 32768. intros Ha Hb. rewrite (Z.eqb_sym b a). destruct (a =? b) eqn:E; [done |]. bool_to_prop.
  destruct (_ <? _) eqn:E1; [| done]. intros _. bool_to_prop. rewrite (proj2 (Z.ltb_ge _ _)); [done |].
  destruct (Z.lt_ge_cases a b).
  - replace ((a - b) mod 65536) with (a - b + 65536) in E1 by (apply (Z.mod_unique _ _ (-1)); width). rewrite Z.mod_small; width.
  - replace ((a - b) mod 65536) with (a - b) in E1 by (rewrite Z.mod_small; width). replace ((b - a) mod 65536) with (b - a + 65536) by (apply (Z.mod_unique _ _ (-1)); width). lia.
Qed.

(** Two routes never replace each other in turn. *)
Lemma should_replace_asym a b : is_u16 (seq_num a) -> is_u16 (seq_num b) -> should_replace a b = true -> should_replace b a = false.
Proof.
  intros Ha Hb H. unfold should_replace in *. rewrite (Z.eqb_sym (priority (source b))). destruct (_ =? _) eqn:E; cbn [negb] in *.
  - destruct (seq_cmp (seq_num a) (seq_num b)) eqn:Ec; [| done |].
    + unfold seq_cmp in *. rewrite (Z.eqb_sym (seq_num b)). destruct (seq_num a =? seq_num b); [| by destruct (_ <? _)]. bool_to_prop. apply Z.ltb_ge. lia.
    + by rewrite (seq_cmp_flip _ _ Ha Hb Ec).
  - bool_to_prop. apply Z.ltb_ge. lia.
Qed.

(** ** The table as a map *)

Definition dests (t : GradientTable) : list bytes := destination <$> entries t.
Definition route (t : GradientTable) (d : bytes) : option GradientEntry := snd <$> list_find (is_for d) (entries t).
Definition table_ok (t : GradientTable) : Prop := NoDup (dests t) /\ (length (entries t) <= max_entries t)%nat.

Lemma find_route l d : NoDup (destination <$> l) -> forall e, snd <$> list_find (is_for d) l = Some e <-> e ∈ l /\ destination e = d.
Proof.
  intros Hnd e. split.
  - intros ([i x] & Hf & ->)%fmap_Some. apply list_find_Some in Hf as (Hi & Hx & _). split; [by eapply list_elem_of_lookup_2 | done].
  - intros [Hin Hd]. destruct (list_find_elem_of (is_for d) l e Hin Hd) as [[i x] Hf]. rewrite Hf. cbn. f_equal.
    apply list_find_Some in Hf as (Hi & Hx & _). apply list_elem_of_lookup in Hin as [j Hj].
    assert (i = j) as ->; [| congruence]. eapply NoDup_lookup; [exact Hnd | by rewrite list_lookup_fmap, Hi | rewrite list_lookup_fmap, Hj; cbn; by rewrite Hd, Hx].
Qed.
Lemma route_none t d : route t d = None <-> d ∉ dests t.
Proof.
  unfold route, dests. split.
  - intros H (e & -> & He)%list_elem_of_fmap. destruct (list_find_elem_of (is_for (destination e)) (entries t) e He eq_refl) as [x Hx]. by rewrite Hx in H.
  - intros H. destruct (list_find _ _) as [[i x]|] eqn:E; [| done]. exfalso. apply H. apply list_find_Some in E as (Hi & Hx & _). rewrite <- Hx. apply list_elem_of_fmap_2. by eapply list_elem_of_lookup_2.
Qed.

(** Moving the entry of [d], changed or not, to the end. *)
Lemma remove_at_split i (l : list GradientEntry) x : l !! i = Some x -> exists a b, l = a ++ x :: b /\ length a = i /\ remove_at i l = a ++ b.
Proof.
  intros H. exists (take i l), (drop (S i) l). split; [symmetry; by apply take_drop_middle |]. split; [| done]. rewrite length_take. apply lookup_lt_Some in H. lia.
Qed.
Lemma moved_ok l i x e : NoDup (destination <$> l) -> l !! i = Some x -> destination e = destination x ->
  NoDup (destination <$> (remove_at i l ++ [e])) /\ length (remove_at i l ++ [e]) = length l /\
  forall y, y ∈ remove_at i l ++ [e] <-> y = e \/ (y ∈ l /\ destination y <> destination e).
Proof.
  intros Hnd Hi Hd. destruct (remove_at_split i l x Hi) as (a & b & -> & _ & ->). rewrite fmap_app, fmap_cons in Hnd.
  assert (NoDup (destination x :: ((destination <$> a) ++ (destination <$> b)))) as Hnd' by (by rewrite Permutation_middle). apply NoDup_cons in Hnd' as [Hx Hab].
  split; [| split].
  - rewrite !fmap_app. cbn. rewrite Hd. apply NoDup_app. split; [done |]. split; [| apply NoDup_singleton]. intros z Hz Hz'. apply list_elem_of_singleton in Hz' as ->. done.
  - rewrite !length_app. cbn. lia.
  - intros y. rewrite !elem_of_app, list_elem_of_singleton, elem_of_cons. assert (y ∈ a \/ y ∈ b -> destination y <> destination e) as Hne.
    { intros Hy E. apply Hx. rewrite <- Hd, <- E, <- fmap_app. apply list_elem_of_fmap_2. by rewrite elem_of_app. }
    split; [intros [Hy|Hy]; [right; split; [tauto | by apply Hne] | by left] | intros [->|[[?|[->|?]] Hy]]; [by right | by left; left | congruence | by left; right]].
Qed.

Lemma lookup_spec t d now r t' : table_ok t -> lookup t d now = (r, t') ->
  r = (e ← route t d; if is_expired (expires_ms e) now then None else Some e) /\ table_ok t' /\ forall d', route t' d' = route t d'.
Proof.
  intros [Hnd Hlen] H. unfold dests in Hnd. unfold lookup, route in *. destruct (list_find (is_for d) (entries t)) as [[i e]|] eqn:Ef; [| injection H as <- <-; done]. cbn.
  destruct (is_expired _ _); [injection H as <- <-; done |]. injection H as <- <-. split; [done |]. unfold promote. destruct (_ =? _)%nat; [done |].
  apply list_find_Some in Ef as (Hi & Hd & _). destruct (moved_ok (entries t) i e e Hnd Hi eq_refl) as (Hnd' & Hl' & Hin). split; [split; [done | cbn; lia] |].
  intros d'. apply option_eq. intros x. cbn [entries with_entries]. rewrite (find_route _ _ Hnd'), (find_route _ _ Hnd), Hin.
  split; [intros [[-> |[? ?]] ?]; [split; [by eapply list_elem_of_lookup_2 | done] | done] |]. intros [Hx Hd']. split; [| done].
  destruct (decide (destination x = destination e)) as [E|]; [left | by right]. apply list_elem_of_lookup in Hx as [j Hj].
  assert (j = i) as ->; [| congruence]. eapply NoDup_lookup; [exact Hnd | by rewrite list_lookup_fmap, Hj | rewrite list_lookup_fmap, Hi; cbn; by rewrite E].
Qed.

(** A table with room or without: what an update does to every route.  [None] of
    the second component: the table has no place at all. *)
Lemma update_spec t e now b t' : table_ok t -> update t e now = (b, t') ->
  table_ok t' /\
  b = ((0 <? max_entries t)%nat && match route t (destination e) with Some x => is_expired (expires_ms x) now || should_replace e x | None => true end) /\
  (b = false -> t' = t) /\
  (b = true -> route t' (destination e) = Some e /\
    forall d, d <> destination e -> route t' d = route t d \/ (route t (destination e) = None /\ length (entries t) = max_entries t /\ dests t !! 0%nat = Some d /\ route t' d = None)).
Proof.
  intros [Hnd Hlen] H. pose proof Hnd as Hnd0. unfold dests in Hnd. unfold update in H. destruct (max_entries t =? 0)%nat eqn:Em.
  { injection H as <- <-. apply Nat.eqb_eq in Em. rewrite Em. done. }
  apply Nat.eqb_neq in Em. rewrite (proj2 (Nat.ltb_lt 0 _)) by lia. cbn [andb]. unfold route in *. destruct (list_find (is_for (destination e)) (entries t)) as [[i x]|] eqn:Ef; cbn [fmap option_fmap option_map snd].
  - destruct (_ || _) eqn:Er; [| injection H as <- <-; done]. injection H as <- <-. apply list_find_Some in Ef as (Hi & Hd & _).
    destruct (moved_ok (entries t) i x e Hnd Hi ltac:(done)) as (Hnd' & Hl' & Hin). split; [split; [done | cbn; lia] |]. split; [done |]. split; [done |]. intros _. cbn [entries with_entries]. split.
    + apply (find_route _ _ Hnd'). split; [apply Hin; by left | done].
    + intros d Hne. left. apply option_eq. intros y. rewrite (find_route _ _ Hnd'), (find_route _ _ Hnd), Hin. split; [intros [[-> |[? _]] ?]; [congruence | done] | intros [? Hy]; split; [right; split; [done | congruence] | done]].
  - injection H as <- <-. assert (destination e ∉ destination <$> entries t) as Hnew by (apply (route_none t); unfold route; by rewrite Ef).
    set (l := if (max_entries t <=? length (entries t))%nat then drop 1 (entries t) else entries t).
    assert (exists ev, entries t = ev ++ l /\ (length ev <= 1)%nat /\ (length l < max_entries t)%nat /\ (ev <> [] -> length (entries t) = max_entries t)) as (ev & Hev & Hev1 & Hl & Hfull).
    { subst l. destruct (_ <=? _)%nat eqn:E; [apply Nat.leb_le in E | apply Nat.leb_gt in E].
      - exists (take 1 (entries t)). rewrite take_drop, length_take, length_drop. split_and!; [done | lia | lia | intros _; lia].
      - exists []. split_and!; [done | cbn; lia | lia | done]. }
    assert (NoDup (destination <$> (l ++ [e]))) as Hnd'.
    { rewrite fmap_app. apply NoDup_app. rewrite Hev, fmap_app in Hnd, Hnew. apply NoDup_app in Hnd as (_ & _ & Hnl). split; [done |]. split; [| apply NoDup_singleton].
      intros z Hz ->%list_elem_of_singleton. apply Hnew. apply elem_of_app. by right. }
    split; [split; [done | cbn; rewrite length_app; cbn; lia] |]. split; [done |]. split; [done |]. intros _. cbn [entries with_entries]. split.
    + apply (find_route _ _ Hnd'). split; [apply elem_of_app; right; by apply list_elem_of_singleton | done].
    + intros d Hne. destruct (decide (d ∈ destination <$> ev)) as [Hin|Hout].
      * right. split; [done |]. split; [apply Hfull; intros ->; by apply not_elem_of_nil in Hin |]. destruct ev as [|v [|? ?]]; [by apply not_elem_of_nil in Hin | | cbn in Hev1; lia].
        apply list_elem_of_singleton in Hin as ->. split; [unfold dests; by rewrite Hev |]. change (snd <$> list_find (is_for (destination v)) (l ++ [e])) with (route (with_entries t (l ++ [e])) (destination v)).
        apply route_none. unfold dests. cbn [entries with_entries]. rewrite fmap_app. intros [Hl'|Hl']%elem_of_app; [| apply list_elem_of_singleton in Hl'; done].
        rewrite Hev in Hnd. cbn in Hnd. by apply NoDup_cons in Hnd as [? _].
      * left. apply option_eq. intros y. rewrite (find_route _ _ Hnd'), (find_route _ _ Hnd), Hev, !elem_of_app, list_elem_of_singleton.
        split; [intros [[? | ->] ?]; [tauto | congruence] |]. intros [[Hy|Hy] Hd]; [| tauto]. exfalso. apply Hout. rewrite <- Hd. by apply list_elem_of_fmap_2.
Qed.

Lemma filter_ok t (P : GradientEntry -> Prop) `{!forall x, Decision (P x)} : table_ok t -> table_ok (with_entries t (filter P (entries t))).
Proof.
  intros [Hnd Hlen]. split.
  - eapply sublist_NoDup; [exact Hnd | apply fmap_sublist, sublist_filter].
  - cbn. etrans; [apply length_filter | done].
Qed.

(** ** Eviction is by least recent use *)

Inductive use := Lookup (d : bytes) (now : Z) | Update (e : GradientEntry) (now : Z).
Definition apply_use (t : GradientTable) (u : use) : GradientTable :=
  match u with Lookup d now => snd (lookup t d now) | Update e now => snd (update t e now) end.
(** The destination a call uses: a route that was found, or one that was stored. *)
Definition used (t : GradientTable) (u : use) : option bytes :=
  match u with
  | Lookup d now => match fst (lookup t d now) with Some _ => Some d | None => None end
  | Update e now => if fst (update t e now) then Some (destination e) else None
  end.
(** The reference: a stack of destinations, most recent first, of bounded depth. *)
Definition lru_use (m : nat) (d : bytes) (l : list bytes) : list bytes := take m (d :: filter (fun x => x <> d) l).

Lemma lru_move (a b : list bytes) d m : d ∉ a -> d ∉ b -> (length (a ++ d :: b) <= m)%nat ->
  reverse ((a ++ b) ++ [d]) = lru_use m d (reverse (a ++ d :: b)).
Proof.
  intros Ha Hb Hl. unfold lru_use. assert (filter (fun x => x <> d) (reverse (a ++ d :: b)) = reverse (a ++ b)) as ->.
  { rewrite reverse_app, reverse_cons, !filter_app, filter_cons_False by (intros H; by apply H). rewrite filter_nil, app_nil_r, reverse_app.
    rewrite !filter_all; [done | |]; apply Forall_forall; intros x Hx ->; by rewrite elem_of_reverse in Hx. }
  rewrite (reverse_snoc (a ++ b) d). symmetry. apply take_ge. cbn. rewrite length_reverse, !length_app in *. cbn in Hl. lia.
Qed.

Lemma dests_split t i x : table_ok t -> entries t !! i = Some x ->
  exists a b, dests t = (a ++ destination x :: b) /\ (destination <$> remove_at i (entries t)) = (a ++ b) /\ (destination x ∉ a) /\ (destination x ∉ b) /\ length a = i.
Proof.
  intros [Hnd _] Hi. destruct (remove_at_split i _ x Hi) as (a & b & E & Hl & ->). exists (destination <$> a), (destination <$> b). unfold dests in *. rewrite E in *.
  rewrite fmap_app, fmap_cons in *. rewrite length_fmap. apply NoDup_app in Hnd as (_ & Hab & Hb). apply NoDup_cons in Hb as [Hb _].
  split_and!; [done | by rewrite fmap_app | | done | done]. intros Ha. apply (Hab _ Ha). apply elem_of_cons. by left.
Qed.

(** The order of the table is the order of use: calls act on it as on an LRU
    stack of its capacity, so what an update evicts is the destination that was
    used least recently. *)
Lemma table_is_lru t u : table_ok t -> (0 < max_entries t)%nat ->
  reverse (dests (apply_use t u)) = match used t u with Some d => lru_use (max_entries t) d (reverse (dests t)) | None => reverse (dests t) end.
Proof.
  intros Hok Hm. pose proof Hok as [Hnd Hlen]. assert (length (dests t) <= max_entries t)%nat as Hl by (unfold dests; by rewrite length_fmap). destruct u as [d now|e now]; cbn [apply_use used].
  - unfold lookup. destruct (list_find (is_for d) (entries t)) as [[i e]|] eqn:Ef; [| done]. apply list_find_Some in Ef as (Hi & Hd & _). unfold is_for in Hd. subst d.
    destruct (is_expired _ _); [done |]. cbn [fst snd]. destruct (dests_split t i e Hok Hi) as (a & b & E & Er & Ha & Hb & Hlen'). rewrite E in Hl |- *.
    rewrite <- lru_move by done. f_equal. unfold promote. destruct (i =? _)%nat eqn:Ei.
    + apply Nat.eqb_eq in Ei. rewrite E. assert (length b = 0%nat) as ->%nil_length_inv.
      { apply (f_equal length) in E. unfold dests in E. rewrite length_fmap, length_app in E. cbn in E. lia. } by rewrite app_nil_r.
    + unfold dests. cbn [entries with_entries]. by rewrite fmap_app, Er.
  - unfold update. rewrite (proj2 (Nat.eqb_neq _ _)) by lia. destruct (list_find _ (entries t)) as [[i x]|] eqn:Ef.
    + apply list_find_Some in Ef as (Hi & Hd & _). unfold is_for in Hd. destruct (_ || _); [| done]. cbn [fst snd]. destruct (dests_split t i x Hok Hi) as (a & b & E & Er & Ha & Hb & _).
      rewrite Hd in E, Ha, Hb. rewrite E in Hl |- *. rewrite <- lru_move by done. f_equal. unfold dests. cbn [entries with_entries]. by rewrite fmap_app, Er.
    + cbn [fst snd]. assert (destination e ∉ dests t) as Hnew by (apply route_none; unfold route; by rewrite Ef). unfold lru_use.
      rewrite filter_all by (apply Forall_forall; intros z Hz ->; by rewrite elem_of_reverse in Hz).
      unfold dests. cbn [entries with_entries]. rewrite fmap_app. cbn [fmap list_fmap]. rewrite reverse_snoc. destruct (max_entries t) as [|m] eqn:Emax; [lia |]. cbn [take]. f_equal.
      destruct (_ <=? _)%nat eqn:Efull.
      * apply Nat.leb_le in Efull. destruct (entries t) as [|v l] eqn:Ee; [cbn in Efull; lia |]. change (drop 1 (v :: l)) with l. cbn [fmap list_fmap]. rewrite reverse_cons. symmetry. apply take_app_length'.
        rewrite length_reverse, length_fmap. cbn in *. lia.
      * apply Nat.leb_gt in Efull. symmetry. apply take_ge. rewrite length_reverse, length_fmap. lia.
Qed.

(** After any calls the table is sound; a removal takes away what it names only. *)
Lemma uses_ok t us : table_ok t -> table_ok (foldl apply_use t us).
Proof.
  revert t. induction us as [|u us IH]; intros t Hok; [done |]. apply IH. destruct u as [d now|e now]; cbn.
  - destruct (lookup t d now) as [r t'] eqn:E. by destruct (lookup_spec _ _ _ _ _ Hok E) as (_ & ? & _).
  - destruct (update t e now) as [r t'] eqn:E. by destruct (update_spec _ _ _ _ _ Hok E) as (? & _).
Qed.
Lemma remove_spec t d : table_ok t -> route (remove t d) d = None /\ forall d', d' <> d -> route (remove t d) d' = route t d'.
Proof.
  intros Hok. pose proof (filter_ok t (fun e => destination e <> d) Hok) as [Hnd' _]. pose proof Hok as [Hnd _]. unfold dests in Hnd, Hnd'. cbn [entries with_entries] in Hnd'. split.
  - apply route_none. unfold dests, remove. cbn. intros (e & Hd & [He _]%list_elem_of_filter)%list_elem_of_fmap. congruence.
  - intros d' Hne. apply option_eq. intros e. unfold route, remove. cbn [entries with_entries]. rewrite (find_route _ _ Hnd'), (find_route _ _ Hnd), list_elem_of_filter.
    split; [tauto |]. intros [? ?]. split; [split; [congruence | done] | done].
Qed.

End Gradient.
