(* ===== verification/Announce.v ===== *)
(** * Announce messages (lichen-core/src/announce.rs)

    The announce and its wire format, the transcript its originator signs, the
    step of a relay, and the values a node reads from the application data
    (lichen-node/src/announce.rs).  The hop count is the one field a relay
    changes, and the one the signature does not cover. *)

From S2P Require Import Prelude NetHeaders.
Open Scope Z_scope.

Module Announce.

Definition ANNOUNCE_TYPE : Z := 1.
Definition MAX_ANNOUNCE_HOPS : Z := 15.
Definition MAX_ANNOUNCE_WIRE_LENGTH : nat := 193.
Definition FIXED_LENGTH : nat := 93.
Definition MAX_ANNOUNCE_APP_DATA : nat := MAX_ANNOUNCE_WIRE_LENGTH - FIXED_LENGTH.
(** b"LICHEN-ANNOUNCE-v1\0" *)
Definition ANNOUNCE_SIGNING_DOMAIN : bytes := [76; 73; 67; 72; 69; 78; 45; 65; 78; 78; 79; 85; 78; 67; 69; 45; 118; 49; 0].
Definition ANNOUNCE_SIGNED_FIXED_LENGTH : nat := 64.

Inductive AnnounceError :=
| ATooShort (e : TooShort)
| WrongType (t : Z)
| ABufferTooSmall (e : BufferTooSmall)
| InvalidChannel (c : Z)
| AppDataTooLong (n : nat)
| TooLong (n : nat).

(** [Announce], and [AnnounceBuilder], which has the same fields. *)
Record Announce := {
  originator_iid : bytes;
  pubkey : bytes;
  seq_num : Z;
  hop_count : Z;
  rx_channel : Z;
  signature : bytes;
  app_data : bytes
}.
#[export] Instance Announce_eq_dec : EqDecision Announce.
Proof. solve_decision. Defined.

Definition parse_body (data : bytes) : result AnnounceError Announce :=
  if (length data <? FIXED_LENGTH)%nat then Err (ATooShort {| expected := FIXED_LENGTH; actual := length data |})
  else if (MAX_ANNOUNCE_WIRE_LENGTH <? length data)%nat then Err (TooLong (length data))
  else if negb (nth 0 data 0 =? ANNOUNCE_TYPE) then Err (WrongType (nth 0 data 0))
  else if 8 <=? nth 1 data 0 then Err (InvalidChannel (nth 1 data 0))
  else Ok {| originator_iid := slice 5 13 data; pubkey := slice 13 45 data; seq_num := from_be (slice 3 5 data); hop_count := nth 2 data 0;
             rx_channel := nth 1 data 0; signature := slice 45 93 data; app_data := drop 93 data |}.
Definition from_bytes (data : bytes) : result AnnounceError Announce :=
  if bool_decide (head data = Some L2Payload.L2_DISPATCH_ROUTING) then
    if (length data <? FIXED_LENGTH + 1)%nat then Err (ATooShort {| expected := FIXED_LENGTH + 1; actual := length data |})
    else parse_body (drop 1 data)
  else parse_body data.

(** [write_announce_signed_data] *)
Definition signed_transcript (iid pk : bytes) (seq channel : Z) (app : bytes) : bytes :=
  ANNOUNCE_SIGNING_DOMAIN ++ iid ++ pk ++ to_be 2 seq ++ [channel] ++ to_be 2 (Z.of_nat (length app)) ++ app.
Definition write_announce_signed_data (iid pk : bytes) (seq channel : Z) (app out : bytes) : result AnnounceError nat * bytes :=
  if 8 <=? channel then (Err (InvalidChannel channel), out)
  else if (MAX_ANNOUNCE_APP_DATA <? length app)%nat then (Err (AppDataTooLong (length app)), out)
  else if u16_max <? Z.of_nat (length app) then (Err (AppDataTooLong (length app)), out)
  else
    let len := (ANNOUNCE_SIGNED_FIXED_LENGTH + length app)%nat in
    if (length out <? len)%nat then (Err (ABufferTooSmall {| required := len; provided := length out |}), out)
    else (Ok len, list_inserts 0 (signed_transcript iid pk seq channel app) out).
Definition write_signed_data (a : Announce) (out : bytes) : result AnnounceError nat * bytes :=
  write_announce_signed_data (originator_iid a) (pubkey a) (seq_num a) (rx_channel a) (app_data a) out.
Definition signed_data_len (a : Announce) : nat := ANNOUNCE_SIGNED_FIXED_LENGTH + length (app_data a).

Definition should_relay (a : Announce) : bool := hop_count a <? MAX_ANNOUNCE_HOPS.
Definition for_relay (a : Announce) : option Announce :=
  if MAX_ANNOUNCE_HOPS <=? hop_count a then None
  else Some {| originator_iid := originator_iid a; pubkey := pubkey a; seq_num := seq_num a; hop_count := hop_count a + 1;
               rx_channel := rx_channel a; signature := signature a; app_data := app_data a |}.

Definition wire (b : Announce) : bytes :=
  [ANNOUNCE_TYPE] ++ [rx_channel b] ++ [hop_count b] ++ to_be 2 (seq_num b) ++ originator_iid b ++ pubkey b ++ signature b ++ app_data b.
Definition write_to (b : Announce) (out : bytes) : result AnnounceError nat * bytes :=
  if 8 <=? rx_channel b then (Err (InvalidChannel (rx_channel b)), out)
  else if (MAX_ANNOUNCE_APP_DATA <? length (app_data b))%nat then (Err (AppDataTooLong (length (app_data b))), out)
  else
    let total := (FIXED_LENGTH + length (app_data b))%nat in
    if (length out <? total)%nat then (Err (ABufferTooSmall {| required := total; provided := length out |}), out)
    else (Ok total, list_inserts 0 (wire b) out).

(** ** Application data *)

Definition CONGESTION_TLV : Z := 2.
Definition TX_SF_TLV : Z := 6.
Definition TX_SF_ABSENT_DEFAULT : Z := 10.

(** The byte after the first [t] that has one. *)
Fixpoint byte_after (t : Z) (data : bytes) : option Z :=
  match data with
  | b :: ((v :: _) as rest) => if b =? t then Some v else byte_after t rest
  | _ => None
  end.
Definition parse_congestion (data : bytes) : option Z := byte_after CONGESTION_TLV data.
Definition parse_tx_sf (data : bytes) : Z :=
  match byte_after TX_SF_TLV data with
  | Some sf => if (7 <=? sf) && (sf <=? 12) then sf else TX_SF_ABSENT_DEFAULT
  | None => TX_SF_ABSENT_DEFAULT
  end.
Definition encode_tx_sf (sf : Z) : option bytes := if (7 <=? sf) && (sf <=? 12) then Some [TX_SF_TLV; sf] else None.

(** ** Round trip and transcript *)

Record announce_ok (a : Announce) : Prop := {
  ao_iid : length (originator_iid a) = 8%nat;
  ao_key : length (pubkey a) = 32%nat;
  ao_sig : length (signature a) = 48%nat;
  ao_seq : is_u16 (seq_num a);
  ao_channel : 0 <= rx_channel a < 8;
  ao_app : (length (app_data a) <= MAX_ANNOUNCE_APP_DATA)%nat
}.

Lemma announce_wire_length a : announce_ok a -> length (wire a) = (FIXED_LENGTH + length (app_data a))%nat.
Proof. intros [H1 H2 H3 _ _ _]. unfold wire. rewrite !length_app, length_to_be, H1, H2, H3. done. Qed.

Lemma wire_fields a : announce_ok a ->
  nth 0 (wire a) 0 = ANNOUNCE_TYPE /\ nth 1 (wire a) 0 = rx_channel a /\ nth 2 (wire a) 0 = hop_count a /\ slice 3 5 (wire a) = to_be 2 (seq_num a) /\
  slice 5 13 (wire a) = originator_iid a /\ slice 13 45 (wire a) = pubkey a /\ slice 45 93 (wire a) = signature a /\ drop 93 (wire a) = app_data a.
Proof.
  intros [H1 H2 H3 _ _ _]. unfold wire. split; [done |]. split; [done |]. split; [done |].
  assert (forall x, length (to_be 2 x) = 2%nat) as Hb by (intros; apply length_to_be).
  split; [by apply (slice_app_eq [ANNOUNCE_TYPE; rx_channel a; hop_count a] _ (originator_iid a ++ pubkey a ++ signature a ++ app_data a)); rewrite ?Hb |].
  split; [apply (slice_app_eq ([ANNOUNCE_TYPE; rx_channel a; hop_count a] ++ to_be 2 (seq_num a)) _ (pubkey a ++ signature a ++ app_data a)); rewrite ?length_app, ?Hb, ?H1; by rewrite <- ?app_assoc |].
  split; [apply (slice_app_eq ([ANNOUNCE_TYPE; rx_channel a; hop_count a] ++ to_be 2 (seq_num a) ++ originator_iid a) _ (signature a ++ app_data a)); rewrite ?length_app, ?Hb, ?H1, ?H2; by rewrite <- ?app_assoc |].
  split; [apply (slice_app_eq ([ANNOUNCE_TYPE; rx_channel a; hop_count a] ++ to_be 2 (seq_num a) ++ originator_iid a ++ pubkey a) _ (app_data a)); rewrite ?length_app, ?Hb, ?H1, ?H2, ?H3; by rewrite <- ?app_assoc |].
  replace ([ANNOUNCE_TYPE] ++ [rx_channel a] ++ [hop_count a] ++ to_be 2 (seq_num a) ++ originator_iid a ++ pubkey a ++ signature a ++ app_data a)
    with (([ANNOUNCE_TYPE; rx_channel a; hop_count a] ++ to_be 2 (seq_num a) ++ originator_iid a ++ pubkey a ++ signature a) ++ app_data a) by (by rewrite <- !app_assoc).
  apply drop_app_length'. rewrite !length_app, Hb, H1, H2, H3. done.
Qed.

(** What is written parses back, with or without the dispatch byte before it. *)
Lemma announce_roundtrip a out n out' : announce_ok a -> write_to a out = (Ok n, out') ->
  from_bytes (take n out') = Ok a /\ from_bytes (L2Payload.L2_DISPATCH_ROUTING :: take n out') = Ok a.
Proof.
  intros Hok H. unfold write_to in H. destruct (8 <=? _); [done |]. destruct (_ <? length (app_data a))%nat; [done |]. destruct (_ <? _)%nat eqn:El; [done |]. apply pair_equal_spec in H as [Hn <-]. apply ok_inj in Hn as <-.
  bool_to_prop. rewrite inserts_front by (rewrite announce_wire_length by done; lia). rewrite <- (announce_wire_length a Hok), take_app_length.
  assert (parse_body (wire a) = Ok a) as Hp.
  { unfold parse_body. destruct (wire_fields a Hok) as (-> & -> & -> & -> & -> & -> & -> & ->). rewrite announce_wire_length by done. pose proof (ao_app a Hok) as Ha. unfold MAX_ANNOUNCE_APP_DATA, MAX_ANNOUNCE_WIRE_LENGTH, FIXED_LENGTH in *.
    rewrite (proj2 (Nat.ltb_ge _ _)), (proj2 (Nat.ltb_ge _ _)) by lia. cbn [negb]. pose proof (ao_channel a Hok). rewrite (proj2 (Z.leb_gt _ _)) by lia.
    rewrite from_be_to_be_u16 by apply Hok. by destruct a. }
  split.
  - unfold from_bytes. rewrite bool_decide_eq_false_2 by done. exact Hp.
  - unfold from_bytes. cbn [head]. rewrite bool_decide_eq_true_2 by done. cbn [length drop]. rewrite announce_wire_length, (proj2 (Nat.ltb_ge _ _)) by (done || lia). exact Hp.
Qed.

Lemma parse_ok data a : bytes_ok data -> from_bytes data = Ok a -> announce_ok a.
Proof.
  intros Hb H. assert (forall d, bytes_ok d -> parse_body d = Ok a -> announce_ok a) as Hp.
  { intros d Hd Hp. unfold parse_body in Hp. destruct (length d <? _)%nat eqn:E1; [done |]. destruct (_ <? length d)%nat eqn:E2; [done |]. destruct (negb _); [done |]. destruct (8 <=? _) eqn:E3; [done |].
    bool_to_prop. injection Hp as <-. unfold FIXED_LENGTH, MAX_ANNOUNCE_WIRE_LENGTH in *. split; cbn [originator_iid pubkey signature seq_num rx_channel app_data].
    - by rewrite slice_length by lia.
    - by rewrite slice_length by lia.
    - by rewrite slice_length by lia.
    - assert (length (slice 3 5 d) = 2%nat) as Hl by (rewrite slice_length; lia). pose proof (slice_Forall is_u8 3 5 d Hd) as Hs.
      destruct (slice 3 5 d) as [|x [|y [|? ?]]]; try done. apply Forall_cons in Hs as [Hx Hs]. apply Forall_cons in Hs as [Hy _]. cbn. width.
    - destruct d as [|? [|c d]]; [done | done |]. cbn in *. apply Forall_cons in Hd as [_ Hd]. apply Forall_cons in Hd as [Hc _]. split; [width | lia].
    - rewrite length_drop. unfold MAX_ANNOUNCE_APP_DATA, MAX_ANNOUNCE_WIRE_LENGTH, FIXED_LENGTH. lia. }
  unfold from_bytes in H. destruct (bool_decide _); [destruct (_ <? _)%nat; [done |] |]; eapply Hp; try exact H; [by apply Forall_drop | done].
Qed.

(** The transcript determines what it covers. *)
Lemma transcript_injective a b : announce_ok a -> announce_ok b ->
  signed_transcript (originator_iid a) (pubkey a) (seq_num a) (rx_channel a) (app_data a) = signed_transcript (originator_iid b) (pubkey b) (seq_num b) (rx_channel b) (app_data b) ->
  originator_iid a = originator_iid b /\ pubkey a = pubkey b /\ seq_num a = seq_num b /\ rx_channel a = rx_channel b /\ app_data a = app_data b.
Proof.
  intros Ha Hb H. unfold signed_transcript in H. apply app_inv_head in H.
  apply app_inj_1 in H as [H1 H]; [| rewrite (ao_iid a Ha), (ao_iid b Hb); done]. apply app_inj_1 in H as [H2 H]; [| rewrite (ao_key a Ha), (ao_key b Hb); done].
  apply app_inj_1 in H as [H3 H]; [| by rewrite !length_to_be]. apply app_inj_1 in H as [H4 H]; [| done]. injection H4 as H4. apply app_inj_1 in H as [_ H]; [| by rewrite !length_to_be].
  split_and!; [done | done | | done | done]. apply (f_equal from_be) in H3. rewrite !from_be_to_be_u16 in H3; [done | apply Hb | apply Ha].
Qed.

(** A relay raises the hop count by one, up to the limit, and leaves the signed
    bytes as they were, so the originator's signature stays good on every hop. *)
Lemma relay_keeps_signature a b out : announce_ok a -> for_relay a = Some b ->
  announce_ok b /\ hop_count b = hop_count a + 1 /\ hop_count b <= MAX_ANNOUNCE_HOPS /\ signature b = signature a /\ write_signed_data b out = write_signed_data a out.
Proof.
  intros Ha H. unfold for_relay in H. destruct (_ <=? _) eqn:E; [done |]. injection H as <-. bool_to_prop. destruct Ha. split; [by split |]. split; [done |]. split; [cbn; lia | done].
Qed.

(** The application data is searched byte by byte, not option by option: a value
    that happens to hold the type of an option is taken for that option.  Here the
    position of a node (option 1, eight bytes) reads as a spreading factor. *)
Example position_read_as_sf : let position := [1; 0; 0; 6; 12; 0; 0; 0; 0] in parse_tx_sf position = 12 /\ parse_congestion [1; 0; 2; 9; 0; 0; 0; 0; 0] = Some 9.
Proof. done. Qed.

End Announce.
