(* ===== verification/AnnounceStore.v ===== *)
(** * Durable announce trust (lichen-node/src/announce_store.rs)

    The key pin and the sequence floor of every originator, sealed with the
    node's key and kept in two stores.  The stores are the class [NonVolatile] of
    Storage.v (the source uses [FileStorage], an implementation of that trait);
    the count of records a newly opened store makes is an argument, since it lists
    a directory.  A power loss between the two writes of [accept] is an event of
    its own below. *)

From stdpp Require Import strings.
From S2P Require Import Prelude Schnorr Storage Gradient.
Open Scope Z_scope.

Module AnnounceStore.

Definition MAX_TRACKED_ORIGINATORS : nat := 64.

(** lichen-node/src/announce.rs *)
Definition seq_gt (a b : Z) : bool := negb (a =? b) && (wrap16 (a - b) <? Gradient.SEQ_HALF).

Record AnnounceTrustState := { pubkey : bytes; seq : Z }.
#[export] Instance AnnounceTrustState_eq_dec : EqDecision AnnounceTrustState.
Proof. solve_decision. Defined.
Inductive AnnounceStoreError := Io | Corrupt | Full.

(** b"LICHEN-NODE-ANNOUNCE-STATE-v1\0" and the same with FLOOR. *)
Definition STATE_DOMAIN : bytes := [76; 73; 67; 72; 69; 78; 45; 78; 79; 68; 69; 45; 65; 78; 78; 79; 85; 78; 67; 69; 45; 83; 84; 65; 84; 69; 45; 118; 49; 0].
Definition FLOOR_DOMAIN : bytes := [76; 73; 67; 72; 69; 78; 45; 78; 79; 68; 69; 45; 65; 78; 78; 79; 85; 78; 67; 69; 45; 70; 76; 79; 79; 82; 45; 118; 49; 0].
Definition STATE_BYTES : nat := 34.
Definition RECORD_BYTES : nat := STATE_BYTES + Schnorr.SIGNATURE_LENGTH.

Record CacheEntry := { state : AnnounceTrustState; last_use : Z }.

Definition hex_digit (d : Z) : Ascii.ascii := Ascii.ascii_of_nat (Z.to_nat (if d <? 10 then 48 + d else 87 + d)).
Fixpoint hex_iid (iid : bytes) : string :=
  match iid with
  | [] => EmptyString
  | b :: rest => String (hex_digit (Z.shiftr b 4)) (String (hex_digit (Z.land b 0x0f)) (hex_iid rest))
  end.
Definition key (iid : bytes) (floor : bool) : string := "announce-pin-" +:+ (hex_iid iid +:+ (if floor then "-floor" else "")).

Definition encode (s : AnnounceTrustState) : bytes := pubkey s ++ to_be 2 (seq s).
Definition decode (l : bytes) : result AnnounceStoreError AnnounceTrustState :=
  if negb (length l =? STATE_BYTES)%nat then Err Corrupt else Ok {| pubkey := take 32 l; seq := from_be (drop 32 l) |}.
Definition domain (floor : bool) : bytes := if floor then FLOOR_DOMAIN else STATE_DOMAIN.
Definition transcript (dom iid st : bytes) : bytes := dom ++ iid ++ st.

(** A state that falls behind its floor. *)
Definition precedes (current floor : AnnounceTrustState) : bool :=
  negb (bool_decide (pubkey current = pubkey floor)) || (negb (seq_gt (seq current) (seq floor)) && negb (seq current =? seq floor)).

Section store.
Context {St SE : Type} {nv : NonVolatile St SE} {hi : HashIter} {cr : Crypto}.

Record AnnounceTrustStore := {
  records : gmap bytes CacheEntry;
  clock : Z;
  durable_count : nat;
  storage : option St;
  floor_storage : option St;
  sealing_seed : option bytes
}.

Definition ephemeral_unprotected : AnnounceTrustStore :=
  {| records := ∅; clock := 0; durable_count := 0; storage := None; floor_storage := None; sealing_seed := None |}.
Definition is_persistent (t : AnnounceTrustStore) : bool := bool_decide (is_Some (storage t)).
(** The stores opened, and the number of records found. *)
Definition persistent (s f : St) (count : nat) (seed : bytes) : AnnounceTrustStore :=
  {| records := ∅; clock := 0; durable_count := count; storage := Some s; floor_storage := Some f; sealing_seed := Some seed |}.

Definition with_storage (t : AnnounceTrustStore) (floor : bool) (s : option St) : AnnounceTrustStore :=
  {| records := records t; clock := clock t; durable_count := durable_count t; storage := if floor then storage t else s;
     floor_storage := if floor then s else floor_storage t; sealing_seed := sealing_seed t |}.
Definition with_cache (t : AnnounceTrustStore) (m : gmap bytes CacheEntry) (c : Z) : AnnounceTrustStore :=
  {| records := m; clock := c; durable_count := durable_count t; storage := storage t; floor_storage := floor_storage t; sealing_seed := sealing_seed t |}.
Definition side (t : AnnounceTrustStore) (floor : bool) : option St := if floor then floor_storage t else storage t.

(** What a record holds, or why it is refused. *)
Definition open_record (seed iid : bytes) (floor : bool) (n : nat) (encoded : bytes) : result AnnounceStoreError AnnounceTrustState :=
  if negb (n =? RECORD_BYTES)%nat then Err Corrupt
  else
    let st := take STATE_BYTES encoded in
    if negb (schnorr_verify (snd (derive_keypair seed)) (transcript (domain floor) iid st) (drop STATE_BYTES encoded)) then Err Corrupt
    else decode st.
Definition read (t : AnnounceTrustStore) (iid : bytes) (floor : bool) : result AnnounceStoreError (option AnnounceTrustState) * AnnounceTrustStore :=
  match side t floor with
  | None => (Ok None, t)
  | Some s =>
      let '(s, r) := nv_read s (key iid floor) (replicate RECORD_BYTES 0) in
      let t := with_storage t floor (Some s) in
      match r with
      | Err _ => (Err Io, t)
      | Ok (None, _) => (Ok None, t)
      | Ok (Some n, encoded) =>
          match sealing_seed t with
          | None => (Err (if (n =? RECORD_BYTES)%nat then Io else Corrupt), t)
          | Some seed => match open_record seed iid floor n encoded with Err e => (Err e, t) | Ok st => (Ok (Some st), t) end
          end
      end
  end.

Definition seal (seed iid : bytes) (floor : bool) (st : AnnounceTrustState) : bytes :=
  encode st ++ schnorr_sign (fst (derive_keypair seed)) (snd (derive_keypair seed)) (transcript (domain floor) iid (encode st)).
Definition write (t : AnnounceTrustStore) (iid : bytes) (floor : bool) (st : AnnounceTrustState) : result AnnounceStoreError unit * AnnounceTrustStore :=
  match sealing_seed t with
  | None => (Err Io, t)
  | Some seed =>
      match side t floor with
      | None => (Err Io, t)
      | Some s =>
          let '(s, r) := nv_write s (key iid floor) (seal seed iid floor st) in
          (match r with Ok _ => Ok tt | Err _ => Err Io end, with_storage t floor (Some s))
      end
  end.

Definition remember (t : AnnounceTrustStore) (iid : bytes) (st : AnnounceTrustState) : AnnounceTrustStore :=
  let m :=
    if bool_decide (records t !! iid = None) && (MAX_TRACKED_ORIGINATORS <=? size (records t))%nat then
      match min_by_key (fun e => last_use (snd e)) (hash_iter (records t)) with
      | Some (victim, _) => delete victim (records t)
      | None => records t
      end
    else records t in
  let c := wrap64 (clock t + 1) in
  with_cache t (<[iid := {| state := st; last_use := c |}]> m) c.

(** What the two durable sides say, without repairing them. *)
Definition resolve (s f : option AnnounceTrustState) : result AnnounceStoreError (option AnnounceTrustState) :=
  match s, f with
  | None, None => Ok None
  | None, Some _ => Err Corrupt
  | Some s, None => Ok (Some s)
  | Some s, Some f => if precedes s f then Err Corrupt else Ok (Some s)
  end.

Definition load (t : AnnounceTrustStore) (iid : bytes) : result AnnounceStoreError (option AnnounceTrustState) * AnnounceTrustStore :=
  match records t !! iid with
  | Some e =>
      let c := wrap64 (clock t + 1) in
      (Ok (Some (state e)), with_cache t (<[iid := {| state := state e; last_use := c |}]> (records t)) c)
  | None =>
      if negb (is_persistent t) then (Ok None, t)
      else
        match read t iid false with
        | (Err e, t) => (Err e, t)
        | (Ok s, t) =>
            match read t iid true with
            | (Err e, t) => (Err e, t)
            | (Ok f, t) =>
                match resolve s f with
                | Err e => (Err e, t)
                | Ok None => (Ok None, t)
                | Ok (Some st) =>
                    let '(healed, t) := if bool_decide (f = Some st) then (Ok tt, t) else write t iid true st in
                    match healed with
                    | Err e => (Err e, t)
                    | Ok _ => (Ok (Some st), if (size (records t) <? MAX_TRACKED_ORIGINATORS)%nat then remember t iid st else t)
                    end
                end
            end
        end
  end.

Definition read_durable_current (t : AnnounceTrustStore) (iid : bytes) : result AnnounceStoreError (option AnnounceTrustState) * AnnounceTrustStore :=
  match read t iid false with
  | (Err e, t) => (Err e, t)
  | (Ok s, t) =>
      match read t iid true with
      | (Err e, t) => (Err e, t)
      | (Ok f, t) => (resolve s f, t)
      end
  end.

(** The checks before anything is written: the state to advance, if any. *)
Definition admissible (t : AnnounceTrustStore) (existing : option AnnounceTrustState) (next : AnnounceTrustState) : result AnnounceStoreError unit :=
  match existing with
  | Some current =>
      if negb (bool_decide (pubkey next = pubkey current)) then Err Corrupt
      else if negb (seq_gt (seq next) (seq current)) then Err Corrupt else Ok tt
  | None =>
      if is_persistent t then if (MAX_TRACKED_ORIGINATORS <=? durable_count t)%nat then Err Full else Ok tt
      else if (MAX_TRACKED_ORIGINATORS <=? size (records t))%nat then Err Full else Ok tt
  end.
Definition validate (t : AnnounceTrustStore) (iid : bytes) (next : AnnounceTrustState) : result AnnounceStoreError (option AnnounceTrustState) * AnnounceTrustStore :=
  let '(r, t) := if is_persistent t then read_durable_current t iid else load t iid in
  match r with
  | Err e => (Err e, t)
  | Ok existing => match admissible t existing next with Err e => (Err e, t) | Ok _ => (Ok existing, t) end
  end.
Definition count_new (t : AnnounceTrustStore) (existing : option AnnounceTrustState) : AnnounceTrustStore :=
  match existing with
  | Some _ => t
  | None => {| records := records t; clock := clock t; durable_count := S (durable_count t); storage := storage t;
               floor_storage := floor_storage t; sealing_seed := sealing_seed t |}
  end.

Definition accept (t : AnnounceTrustStore) (iid : bytes) (next : AnnounceTrustState) : result AnnounceStoreError unit * AnnounceTrustStore :=
  match validate t iid next with
  | (Err e, t) => (Err e, t)
  | (Ok existing, t) =>
      if is_persistent t then
        match write t iid false next with
        | (Err e, t) => (Err e, t)
        | (Ok _, t) =>
            let t := count_new t existing in
            match write t iid true next with
            | (Err e, t) => (Err e, with_cache t (delete iid (records t)) (clock t))
            | (Ok _, t) => (Ok tt, remember t iid next)
            end
        end
      else (Ok tt, remember t iid next)
  end.

(** [accept] cut short by a power loss after its first write; what is volatile is
    lost with it. *)
Definition accept_cut (t : AnnounceTrustStore) (iid : bytes) (next : AnnounceTrustState) : AnnounceTrustStore :=
  match validate t iid next with
  | (Err e, t) => t
  | (Ok existing, t) => snd (write t iid false next)
  end.

(** ** What is on the stores *)

Definition state_ok (st : AnnounceTrustState) : Prop := length (pubkey st) = 32%nat /\ is_u16 (seq st).
(** The sealed state and floor of every originator. *)
Definition view : Type := bytes -> option AnnounceTrustState * option AnnounceTrustState.
Definition part (v : option AnnounceTrustState * option AnnounceTrustState) (floor : bool) : option AnnounceTrustState := if floor then snd v else fst v.
Definition set_view (v : view) (iid : bytes) (x : option AnnounceTrustState * option AnnounceTrustState) : view :=
  fun i => if decide (i = iid) then x else v i.
Definition set_part (x : option AnnounceTrustState * option AnnounceTrustState) (floor : bool) (st : AnnounceTrustState) :=
  if floor then (fst x, Some st) else (Some st, snd x).

Record holds (seed : bytes) (t : AnnounceTrustStore) (v : view) : Prop := {
  h_seed : sealing_seed t = Some seed;
  h_side floor : exists s, side t floor = Some s /\ forall iid, bytes_ok iid -> nv_contents s !! key iid floor = seal seed iid floor <$> part (v iid) floor;
  h_ok iid floor st : part (v iid) floor = Some st -> state_ok st
}.

Definition hex_value (c : Ascii.ascii) : Z := let n := Z.of_nat (Ascii.nat_of_ascii c) in if n <? 58 then n - 48 else n - 87.
Definition hex_back (b : Z) : bool := (hex_value (hex_digit (Z.shiftr b 4)) * 16 + hex_value (hex_digit (Z.land b 0x0f)) =? b).
Lemma hex_back_byte b : is_u8 b -> hex_back b = true.
Proof. apply u8_forallb. by vm_compute. Qed.
Lemma hex_iid_length a : String.length (hex_iid a) = (2 * length a)%nat.
Proof. induction a as [|b a IH]; [done |]. cbn [hex_iid String.length length]. lia. Qed.
Lemma string_length_app (a b : string) : String.length (a +:+ b) = (String.length a + String.length b)%nat.
Proof. induction a as [|c a IH]; [done |]. change (String c a +:+ b) with (String c (a +:+ b)). cbn [String.length]. lia. Qed.
Lemma hex_iid_inj a b x y : bytes_ok a -> bytes_ok b -> length a = length b -> hex_iid a +:+ x = hex_iid b +:+ y -> a = b.
Proof.
  intros Ha. revert b. induction Ha as [|p a Hp _ IH]; intros [|q b] Hb Hl H; try done. apply Forall_cons in Hb as [Hq Hb].
  change (hex_iid (?u :: ?w)) with (String (hex_digit (Z.shiftr u 4)) (String (hex_digit (Z.land u 0x0f)) (hex_iid w))) in H. injection H as H1 H2 H3. f_equal; [| apply IH; [done | by injection Hl | done]].
  pose proof (hex_back_byte p Hp) as Ep. pose proof (hex_back_byte q Hq) as Eq. unfold hex_back in Ep, Eq. rewrite H1, H2 in Ep. bool_to_prop. congruence.
Qed.
Lemma key_inj a b floor : bytes_ok a -> bytes_ok b -> key a floor = key b floor -> a = b.
Proof.
  intros Ha Hb H. unfold key in H. assert (hex_iid a +:+ (if floor then "-floor" else "") = hex_iid b +:+ (if floor then "-floor" else "")) as E by (by injection H).
  eapply hex_iid_inj; [done | done | | exact E]. apply (f_equal String.length) in E. rewrite !string_length_app, !hex_iid_length in E. lia.
Qed.

Context {cl : CryptoLaws}.

Lemma trust_decode_encode st : state_ok st -> decode (encode st) = Ok st.
Proof.
  intros [Hk Hs]. unfold decode, encode. rewrite length_app, length_to_be, Hk. cbn [negb Nat.eqb Nat.add STATE_BYTES]. rewrite take_app_length', drop_app_length' by done. rewrite from_be_to_be_u16 by done. by destruct st.
Qed.
Lemma encode_length st : state_ok st -> length (encode st) = STATE_BYTES.
Proof. intros [Hk _]. unfold encode. by rewrite length_app, length_to_be, Hk. Qed.
Lemma seal_length seed iid floor st : state_ok st -> length (seal seed iid floor st) = RECORD_BYTES.
Proof. intros H. unfold seal. by rewrite length_app, encode_length, sign_len. Qed.
Lemma open_seal seed iid floor st : state_ok st -> open_record seed iid floor RECORD_BYTES (seal seed iid floor st) = Ok st.
Proof.
  intros H. unfold open_record, seal. rewrite Nat.eqb_refl. cbn [negb]. pose proof (encode_length st H) as Hl. rewrite take_app_length', drop_app_length' by done. rewrite sign_verify. cbn [negb]. by apply trust_decode_encode.
Qed.

Lemma side_with t floor floor' s : side (with_storage t floor (Some s)) floor' = if Bool.eqb floor floor' then Some s else side t floor'.
Proof. by destruct floor, floor'. Qed.

(** Reading tells what is sealed, or fails. *)
Lemma read_spec seed t v iid floor r t' : holds seed t v -> bytes_ok iid -> read t iid floor = (r, t') ->
  holds seed t' v /\ records t' = records t /\ durable_count t' = durable_count t /\ (r = Ok (part (v iid) floor) \/ r = Err Io).
Proof.
  intros [Hseed Hside Hok] Hi H. unfold read in H. destruct (Hside floor) as (s & Hs & Hc). rewrite Hs in H. destruct (nv_read s (key iid floor) (replicate RECORD_BYTES 0)) as [s' rr] eqn:Er.
  pose proof (nv_read_keeps s (key iid floor) (replicate RECORD_BYTES 0)) as Hk. rewrite Er in Hk. cbn in Hk.
  assert (holds seed (with_storage t floor (Some s')) v) as Hh.
  { split; [done | | done]. intros fl. rewrite side_with. destruct (Bool.eqb floor fl) eqn:E; [| apply Hside]. apply Bool.eqb_prop in E as <-. exists s'. split; [done |]. intros i Hib. rewrite Hk. by apply Hc. }
  destruct rr as [[o buf]|e]; [| injection H as <- <-; split_and!; [done | done | done | by right]].
  destruct o as [n|].
  - cbn [sealing_seed with_storage] in H. rewrite Hseed in H. apply nv_read_some in Er as Hrs. destruct Hrs as (data & Hd & Ht & Hfit & _). rewrite (Hc iid Hi) in Hd. apply fmap_Some in Hd as (st & Hst & ->).
    pose proof (Hok _ _ _ Hst) as Hsok. pose proof (seal_length seed iid floor st Hsok) as Hl. rewrite length_replicate in *. rewrite Hl in Ht. rewrite (Hfit ltac:(lia)), Hl in H.
    assert (buf = seal seed iid floor st) as Hbuf.
    { rewrite Nat.min_id in Ht. apply nv_read_len in Er. rewrite length_replicate in Er. rewrite !take_ge in Ht by lia. done. }
    rewrite Hbuf, open_seal in H by done. injection H as <- <-. rewrite Hst. split_and!; [done | done | done | by left].
  - injection H as <- <-. apply nv_read_none in Er. rewrite (Hc iid Hi) in Er. apply fmap_None in Er. rewrite Er. split_and!; [done | done | done | by left].
Qed.

(** Writing seals the state, or leaves the record as it was. *)
Lemma write_spec seed t v iid floor st r t' : holds seed t v -> bytes_ok iid -> state_ok st ->
  write t iid floor st = (r, t') ->
  records t' = records t /\ durable_count t' = durable_count t /\
  match r with Ok _ => holds seed t' (set_view v iid (set_part (v iid) floor st)) | Err _ => holds seed t' v end.
Proof.
  intros Hh Hi Hst H. pose proof Hh as [Hseed Hside Hok]. unfold write in H. rewrite Hseed in H. destruct (Hside floor) as (s & Hs & Hc). rewrite Hs in H.
  destruct (nv_write s (key iid floor) (seal seed iid floor st)) as [s' rr] eqn:Ew. destruct rr as [[]|e]; injection H as <- <-; split; [done | | done |]; split; [done | | done |].
  - apply nv_write_ok in Ew. split; [done | |].
    + intros fl. rewrite side_with. destruct (Hside fl) as (sf & Hsf & Hcf). destruct (Bool.eqb floor fl) eqn:E.
      * apply Bool.eqb_prop in E as <-. exists s'. split; [done |]. intros i Hib. rewrite Ew. unfold set_view. destruct (decide (i = iid)) as [-> |Hne].
        { rewrite lookup_insert_eq. unfold set_part, part. by destruct floor. }
        rewrite lookup_insert_ne; [by apply Hc |]. intros Hkey. apply Hne. symmetry. by eapply key_inj.
      * exists sf. split; [done |]. intros i Hib. rewrite (Hcf i Hib). unfold set_view. destruct (decide (i = iid)) as [-> |]; [| done]. unfold set_part, part. by destruct floor, fl.
    + intros i fl x Hx. unfold set_view in Hx. destruct (decide (i = iid)) as [-> |]; [| by eapply Hok]. unfold set_part, part in Hx. destruct floor, fl; cbn in Hx; simplify_eq; try done; [by apply (Hok iid false) | by apply (Hok iid true)].
  - apply nv_write_err in Ew. split; [done | | done]. intros fl. rewrite side_with. destruct (Bool.eqb floor fl) eqn:E; [| apply Hside]. apply Bool.eqb_prop in E as <-. exists s'. split; [done |]. intros i Hib. rewrite Ew. by apply Hc.
Qed.

(** ** What is accepted *)

(** A first pin is free; a later state keeps the key and advances the sequence. *)
Definition advances (o : option AnnounceTrustState) (next : AnnounceTrustState) : Prop :=
  match o with None => True | Some c => pubkey next = pubkey c /\ seq_gt (seq next) (seq c) = true end.

Lemma holds_persistent seed t v : holds seed t v -> is_persistent t = true.
Proof. intros [_ Hs _]. destruct (Hs false) as (s & E & _). unfold is_persistent. apply bool_decide_eq_true_2. cbn in E. by rewrite E. Qed.

Lemma durable_spec seed t v iid r t' : holds seed t v -> bytes_ok iid -> read_durable_current t iid = (r, t') ->
  holds seed t' v /\ (r = resolve (fst (v iid)) (snd (v iid)) \/ r = Err Io).
Proof.
  intros Hh Hi H. unfold read_durable_current in H. destruct (read t iid false) as [r1 t1] eqn:E1. destruct (read_spec _ _ _ _ _ _ _ Hh Hi E1) as (Hh1 & _ & _ & [-> | ->]); [| injection H as <- <-; split; [done | by right]].
  destruct (read t1 iid true) as [r2 t2] eqn:E2. destruct (read_spec _ _ _ _ _ _ _ Hh1 Hi E2) as (Hh2 & _ & _ & [-> | ->]); injection H as <- <-; (split; [done |]); [by left | by right].
Qed.
Lemma resolve_ok s f o : resolve s f = Ok o -> o = s.
Proof. unfold resolve. destruct s, f; try done; [destruct (precedes _ _); [done |] | |]; by intros [= <-]. Qed.

Lemma validate_spec seed t v iid next r t' : holds seed t v -> bytes_ok iid -> validate t iid next = (r, t') ->
  holds seed t' v /\ match r with Ok o => o = fst (v iid) /\ advances o next | Err _ => True end.
Proof.
  intros Hh Hi H. unfold validate in H. rewrite (holds_persistent _ _ _ Hh) in H. destruct (read_durable_current t iid) as [r1 t1] eqn:E1.
  destruct (durable_spec _ _ _ _ _ _ Hh Hi E1) as (Hh1 & Hr). destruct r1 as [o|e]; [| by injection H as <- <-]. destruct Hr as [Hr|]; [| done]. symmetry in Hr. apply resolve_ok in Hr.
  destruct (admissible t1 o next) as [[]|e] eqn:Ea; injection H as <- <-; split; try done. split; [done |]. subst o. unfold admissible in Ea. unfold advances. destruct (fst (v iid)) as [c|]; [| done].
  destruct (negb (bool_decide _)) eqn:Ek; [done |]. destruct (negb (seq_gt _ _)) eqn:Es; [done |]. apply negb_false_iff in Ek, Es. by apply bool_decide_eq_true in Ek.
Qed.

Lemma holds_cache seed t v m c : holds seed t v -> holds seed (with_cache t m c) v.
Proof. by intros [? ? ?]. Qed.
Lemma holds_remember seed t v iid st : holds seed t v -> holds seed (remember t iid st) v.
Proof. apply holds_cache. Qed.
Lemma holds_count seed t v o : holds seed t v -> holds seed (count_new t o) v.
Proof. intros [? ? ?]. by destruct o. Qed.

(** An announce that is accepted advances its originator's record, and both sides
    hold it then; one that is not leaves the record, or has advanced the state
    without its floor. *)
Lemma trust_accept_spec seed t v iid next r t' : holds seed t v -> bytes_ok iid -> state_ok next -> accept t iid next = (r, t') ->
  match r with
  | Ok _ => advances (fst (v iid)) next /\ holds seed t' (set_view v iid (Some next, Some next))
  | Err _ => holds seed t' v \/ (advances (fst (v iid)) next /\ holds seed t' (set_view v iid (Some next, snd (v iid))))
  end.
Proof.
  intros Hh Hi Hn H. unfold accept in H. destruct (validate t iid next) as [[o|e] t1] eqn:Ev; [| injection H as <- <-; left; by destruct (validate_spec _ _ _ _ _ _ _ Hh Hi Ev)].
  destruct (validate_spec _ _ _ _ _ _ _ Hh Hi Ev) as (Hh1 & -> & Ha). rewrite (holds_persistent _ _ _ Hh1) in H. destruct (write t1 iid false next) as [r1 t2] eqn:Ew.
  destruct (write_spec _ _ _ _ _ _ _ _ Hh1 Hi Hn Ew) as (_ & _ & Hh2). destruct r1 as [[]|]; [| injection H as <- <-; by left]. cbn [set_part] in Hh2. apply (holds_count _ _ _ (fst (v iid))) in Hh2.
  destruct (write (count_new t2 (fst (v iid))) iid true next) as [r2 t3] eqn:Ew2. destruct (write_spec _ _ _ _ _ _ _ _ Hh2 Hi Hn Ew2) as (_ & _ & Hh3).
  destruct r2 as [[]|]; injection H as <- <-.
  - split; [done |]. apply holds_remember. unfold set_view in Hh3 |- *. rewrite decide_True in Hh3 by done. cbn [set_part fst] in Hh3.
    destruct Hh3 as [A1 A2 A3]. split; [done | |].
    + intros fl. destruct (A2 fl) as (s & Hs & Hc). exists s. split; [done |]. intros i Hib. rewrite (Hc i Hib). by destruct (decide (i = iid)).
    + intros i fl st Hst. apply (A3 i fl). by destruct (decide (i = iid)).
  - right. split; [done |]. by apply holds_cache.
Qed.

Lemma cut_spec seed t v iid next : holds seed t v -> bytes_ok iid -> state_ok next ->
  holds seed (accept_cut t iid next) v \/ (advances (fst (v iid)) next /\ holds seed (accept_cut t iid next) (set_view v iid (Some next, snd (v iid)))).
Proof.
  intros Hh Hi Hn. unfold accept_cut. destruct (validate t iid next) as [[o|e] t1] eqn:Ev; [| left; by destruct (validate_spec _ _ _ _ _ _ _ Hh Hi Ev)].
  destruct (validate_spec _ _ _ _ _ _ _ Hh Hi Ev) as (Hh1 & -> & Ha). destruct (write t1 iid false next) as [r1 t2] eqn:Ew.
  destruct (write_spec _ _ _ _ _ _ _ _ Hh1 Hi Hn Ew) as (_ & _ & Hh2). destruct r1 as [[]|]; [right | left]; done.
Qed.

(** Loading may bring a floor up to its state, and changes nothing else that lasts. *)
Lemma load_spec seed t v iid r t' : holds seed t v -> bytes_ok iid -> load t iid = (r, t') ->
  exists f, holds seed t' (set_view v iid (fst (v iid), f)) /\
    (records t !! iid = None -> match r with Ok o => o = fst (v iid) | Err _ => True end).
Proof.
  intros Hh Hi H.
  assert (forall t, holds seed t v -> holds seed t (set_view v iid (fst (v iid), snd (v iid)))) as Hsame.
  { intros u [A1 A2 A3]. unfold set_view. split; [done | |].
    - intros fl. destruct (A2 fl) as (s & Hs & Hc). exists s. split; [done |]. intros i Hib. rewrite (Hc i Hib). destruct (decide (i = iid)) as [-> |]; [by destruct (v iid) | done].
    - intros i fl st Hst. apply (A3 i fl). destruct (decide (i = iid)) as [-> |]; [by destruct (v iid) | done]. }
  unfold load in H. destruct (records t !! iid) as [e|] eqn:Ec; [injection H as <- <-; exists (snd (v iid)); split; [by apply Hsame, holds_cache | done] |].
  rewrite (holds_persistent _ _ _ Hh) in H. cbn [negb] in H. destruct (read t iid false) as [r1 t1] eqn:E1.
  destruct (read_spec _ _ _ _ _ _ _ Hh Hi E1) as (Hh1 & _ & _ & [-> | ->]); [| injection H as <- <-; exists (snd (v iid)); split; [by apply Hsame | done]].
  destruct (read t1 iid true) as [r2 t2] eqn:E2. destruct (read_spec _ _ _ _ _ _ _ Hh1 Hi E2) as (Hh2 & _ & _ & [-> | ->]); [| injection H as <- <-; exists (snd (v iid)); split; [by apply Hsame | done]].
  cbn [part] in H. destruct (resolve (fst (v iid)) (snd (v iid))) as [o|] eqn:Er; [| injection H as <- <-; exists (snd (v iid)); split; [by apply Hsame | done]].
  apply resolve_ok in Er. destruct o as [st|]; [| injection H as <- <-; exists (snd (v iid)); split; [by apply Hsame | done]].
  destruct (bool_decide (snd (v iid) = Some st)).
  - injection H as <- <-. exists (snd (v iid)). split; [| done]. apply Hsame. destruct (_ <? _)%nat; [by apply holds_remember | done].
  - destruct (write t2 iid true st) as [r3 t3] eqn:Ew. assert (state_ok st) as Hst by (apply (h_ok _ _ _ Hh iid false); by rewrite Er).
    destruct (write_spec _ _ _ _ _ _ _ _ Hh2 Hi Hst Ew) as (_ & _ & Hh3). destruct r3 as [[]|]; injection H as <- <-.
    + exists (Some st). split; [| done]. destruct (_ <? _)%nat; [by apply holds_remember | done].
    + exists (snd (v iid)). split; [by apply Hsame | done].
Qed.

(** ** Trust over time *)

(** What happens to the stores: a node loads, accepts, loses power between two
    writes, or comes up again with an empty cache and whatever count it finds.
    Several nodes on the same stores interleave such events. *)
Inductive event :=
| Load (iid : bytes)
| Accept (iid : bytes) (next : AnnounceTrustState)
| PowerLoss (iid : bytes) (next : AnnounceTrustState)
| Reopen (count : nat).
Definition event_ok (e : event) : Prop :=
  match e with Load iid => bytes_ok iid | Accept iid next | PowerLoss iid next => bytes_ok iid /\ state_ok next | Reopen _ => True end.
Definition reopen (t : AnnounceTrustStore) (count : nat) : AnnounceTrustStore :=
  {| records := ∅; clock := 0; durable_count := count; storage := storage t; floor_storage := floor_storage t; sealing_seed := sealing_seed t |}.
Definition trust_step (t : AnnounceTrustStore) (e : event) : AnnounceTrustStore :=
  match e with
  | Load iid => snd (load t iid)
  | Accept iid next => snd (accept t iid next)
  | PowerLoss iid next => reopen (accept_cut t iid next) 0
  | Reopen count => reopen t count
  end.

Definition advanced (a b : option AnnounceTrustState) : Prop := exists next, b = Some next /\ advances a next.

Lemma set_view_advanced v iid x f : (fst (v iid) = x \/ advanced (fst (v iid)) x) -> forall i, rtc advanced (fst (v i)) (fst (set_view v iid (x, f) i)).
Proof.
  intros Hx i. unfold set_view. destruct (decide (i = iid)) as [-> |]; [| apply rtc_refl]. cbn. destruct Hx as [-> |Hx]; [apply rtc_refl | by apply rtc_once].
Qed.

Lemma step_advances seed t v e : holds seed t v -> event_ok e -> exists v', holds seed (trust_step t e) v' /\ forall i, rtc advanced (fst (v i)) (fst (v' i)).
Proof.
  intros Hh He. assert (forall v0, holds seed t v0 -> forall c, holds seed (reopen t c) v0) as _ by (by intros v0 [? ? ?]).
  assert (forall u v0, holds seed u v0 -> forall c, holds seed (reopen u c) v0) as Hre by (intros u v0 Hu c; destruct Hu; by split).
  destruct e as [iid|iid next|iid next|c]; cbn [trust_step event_ok] in *.
  - destruct (load t iid) as [r t'] eqn:E. destruct (load_spec _ _ _ _ _ _ Hh He E) as (f & Hh' & _). eexists. split; [exact Hh' |]. apply set_view_advanced. by left.
  - destruct He as [Hi Hn]. destruct (accept t iid next) as [r t'] eqn:E. pose proof (trust_accept_spec _ _ _ _ _ _ _ Hh Hi Hn E) as Hs. cbn. destruct r as [[]|].
    + destruct Hs as [Ha Hh']. eexists. split; [exact Hh' |]. apply set_view_advanced. right. by exists next.
    + destruct Hs as [Hh'|[Ha Hh']]; [exists v; split; [done | intros; apply rtc_refl] |]. eexists. split; [exact Hh' |]. apply set_view_advanced. right. by exists next.
  - destruct He as [Hi Hn]. destruct (cut_spec _ _ _ _ next Hh Hi Hn) as [Hh'|[Ha Hh']]; [exists v; split; [by apply Hre | intros; apply rtc_refl] |].
    eexists. split; [by apply Hre |]. apply set_view_advanced. right. by exists next.
  - exists v. split; [by apply Hre | intros; apply rtc_refl].
Qed.

Lemma run_advances seed t v es : holds seed t v -> Forall event_ok es -> exists v', holds seed (foldl trust_step t es) v' /\ forall i, rtc advanced (fst (v i)) (fst (v' i)).
Proof.
  intros Hh Hes. revert t v Hh. induction Hes as [|e es He _ IH]; intros t v Hh; [exists v; split; [done | intros; apply rtc_refl] |].
  destruct (step_advances _ _ _ _ Hh He) as (v1 & Hh1 & H1). destruct (IH _ _ Hh1) as (v2 & Hh2 & H2). exists v2. split; [done |]. intros i. etrans; [apply H1 | apply H2].
Qed.

Lemma advanced_key a b : rtc advanced a b -> forall c, a = Some c -> exists c', b = Some c' /\ pubkey c' = pubkey c.
Proof.
  induction 1 as [a|a b d [n [-> Hn]] _ IH]; intros c Hc; [by exists c |]. subst a. destruct (IH n eq_refl) as (c' & -> & Hk). exists c'. split; [done |]. destruct Hn. congruence.
Qed.

End store.
Arguments AnnounceTrustStore St : clear implicits.

End AnnounceStore.
