(* ===== verification/AnnounceProc.v ===== *)
(** * Announce admission (lichen-node/src/announce.rs)

    An announce that is authentic and fresh updates the route to its originator
    and pins its key.  The trust store is behind a shared pointer, so that a
    processor that was cloned and then dropped has still committed what it
    accepted: it is an argument of its own here, passed and returned, next to the
    state of one processor. *)

From S2P Require Import Prelude Addr Schnorr Storage F32 NetHeaders Gradient Announce AnnounceStore.
Open Scope Z_scope.

Module AnnounceProc.
Import AnnounceStore.

Inductive AnnounceRejectReason :=
| InvalidSignature | IidMismatch | StaleSeqNum | HopLimitExceeded | Malformed | KeyChangeDetected | PersistenceError | StoreFull.

Record AnnounceResult := {
  accepted : bool;
  should_relay : bool;
  reject_reason : option AnnounceRejectReason;
  peer : option Schnorr.PeerIdentity;
  congestion : option Z;
  evicted_iid : option bytes;
  rx_channel : Z
}.
Definition rejected (reason : AnnounceRejectReason) : AnnounceResult :=
  {| accepted := false; should_relay := false; reject_reason := Some reason; peer := None; congestion := None; evicted_iid := None; rx_channel := 0 |}.

Record SeenEntry := { seen_seq : Z; seen_access : Z }.
Record PinnedKeyEntry := { pinned_key : bytes; pinned_access : Z }.

Record AnnounceProcessor := {
  gradient_table : Gradient.GradientTable;
  seen : gmap bytes SeenEntry;
  pinned_keys : gmap bytes PinnedKeyEntry;
  access_counter : Z;
  max_entries : nat
}.

(** [with_trust_store]; the store is kept apart. *)
Definition new (g : Gradient.GradientTable) : AnnounceProcessor :=
  {| gradient_table := g; seen := ∅; pinned_keys := ∅; access_counter := 0; max_entries := MAX_TRACKED_ORIGINATORS |}.

Section processor.
Context {St SE : Type} {nv : NonVolatile St SE} {hi : HashIter} {cr : Crypto}.

(** The eviction loops: one entry a round, so the number of entries is enough. *)
Fixpoint evict_loop {V} (access : V -> Z) (max fuel : nat) (evicted : option bytes) (m : gmap bytes V) : option bytes * gmap bytes V :=
  match fuel with
  | O => (evicted, m)
  | S fuel =>
      if (max <? size m)%nat then
        match min_by_key (fun e => access (snd e)) (hash_iter m) with
        | Some (iid, _) => evict_loop access max fuel (Some iid) (delete iid m)
        | None => evict_loop access max fuel evicted m
        end
      else (evicted, m)
  end.
Definition evict_pinned_if_needed (max : nat) (m : gmap bytes PinnedKeyEntry) : option bytes * gmap bytes PinnedKeyEntry :=
  evict_loop pinned_access max (size m) None m.
Definition evict_seen_if_needed (max : nat) (m : gmap bytes SeenEntry) : gmap bytes SeenEntry :=
  snd (evict_loop seen_access max (size m) None m).

(** What the originator signed, written into the buffer of the stack: none when it
    does not fit. *)
Definition signed_part (a : Announce.Announce) : bytes :=
  let '(r, buf) := Announce.write_signed_data a (replicate 256 0) in
  take (match r with Ok n => n | Err _ => 0%nat end) buf.

(** The checks that need no store. *)
Definition check_announce (p : AnnounceProcessor) (a : Announce.Announce) : option AnnounceRejectReason :=
  if negb (bool_decide (Announce.originator_iid a = Schnorr.iid_from_pubkey (Announce.pubkey a))) then Some IidMismatch
  else if (length (signed_part a) =? 0)%nat then Some Malformed
  else if negb (schnorr_verify (Announce.pubkey a) (signed_part a) (Announce.signature a)) then Some InvalidSignature
  else
    match pinned_keys p !! Announce.originator_iid a with
    | Some e => if negb (bool_decide (pinned_key e = Announce.pubkey a)) then Some KeyChangeDetected else None
    | None => None
    end.
(** The durable pin and floor, then the sequence last seen. *)
Definition check_freshness (p : AnnounceProcessor) (a : Announce.Announce) (durable : option AnnounceTrustState) : option AnnounceRejectReason :=
  let replay := match seen p !! Announce.originator_iid a with
                | Some e => if negb (seq_gt (Announce.seq_num a) (seen_seq e)) then Some StaleSeqNum else None
                | None => None
                end in
  match durable with
  | Some st =>
      if negb (bool_decide (pubkey st = Announce.pubkey a)) then Some KeyChangeDetected
      else if negb (seq_gt (Announce.seq_num a) (seq st)) then Some StaleSeqNum else replay
  | None => replay
  end.

Definition trust_of (a : Announce.Announce) : AnnounceTrustState := {| pubkey := Announce.pubkey a; seq := Announce.seq_num a |}.
Definition route_of (a : Announce.Announce) (from_neighbor : bytes) (now_ms : Z) : Gradient.GradientEntry :=
  {| Gradient.destination := Addr.ygg_addr_from_pubkey (Announce.pubkey a);
     Gradient.next_hop := from_neighbor;
     Gradient.hop_count := Announce.hop_count a;
     Gradient.seq_num := Announce.seq_num a;
     Gradient.source := Gradient.Announce;
     Gradient.expires_ms := wrap32 (now_ms + Gradient.GRADIENT_TIMEOUT_MS);
     Gradient.coords := Gradient.from_app_data (Announce.app_data a) |}.

(** The state after the commit.  The count of accesses has 64 bits and goes up by
    one an announce: it does not overflow. *)
Definition apply_accepted (p : AnnounceProcessor) (a : Announce.Announce) (from_neighbor : bytes) (now_ms : Z) : AnnounceResult * AnnounceProcessor :=
  let access := access_counter p + 1 in
  let iid := Announce.originator_iid a in
  let g := snd (Gradient.update (gradient_table p) (route_of a from_neighbor now_ms) now_ms) in
  let '(evicted, pins) := evict_pinned_if_needed (max_entries p) (<[iid := {| pinned_key := Announce.pubkey a; pinned_access := access |}]> (pinned_keys p)) in
  let s := evict_seen_if_needed (max_entries p) (<[iid := {| seen_seq := Announce.seq_num a; seen_access := access |}]> (seen p)) in
  ({| accepted := true; should_relay := Announce.should_relay a; reject_reason := None; peer := Some (Schnorr.from_pubkey (Announce.pubkey a));
      congestion := Announce.parse_congestion (Announce.app_data a); evicted_iid := evicted; rx_channel := Announce.rx_channel a |},
   {| gradient_table := g; seen := s; pinned_keys := pins; access_counter := access; max_entries := max_entries p |}).

Definition bump (p : AnnounceProcessor) : AnnounceProcessor :=
  {| gradient_table := gradient_table p; seen := seen p; pinned_keys := pinned_keys p; access_counter := access_counter p + 1; max_entries := max_entries p |}.

Definition process (p : AnnounceProcessor) (t : AnnounceTrustStore St) (a : Announce.Announce) (from_neighbor : bytes) (now_ms : Z) :
    AnnounceResult * AnnounceProcessor * AnnounceTrustStore St :=
  match check_announce p a with
  | Some reason => (rejected reason, p, t)
  | None =>
      let '(durable, t) := if is_persistent t then load t (Announce.originator_iid a) else (Ok None, t) in
      match durable with
      | Err _ => (rejected PersistenceError, p, t)
      | Ok durable =>
          match check_freshness p a durable with
          | Some reason => (rejected reason, p, t)
          | None =>
              let '(committed, t) := if is_persistent t then accept t (Announce.originator_iid a) (trust_of a) else (Ok tt, t) in
              match committed with
              | Err Full => (rejected StoreFull, bump p, t)
              | Err _ => (rejected PersistenceError, bump p, t)
              | Ok _ => let '(r, p) := apply_accepted p a from_neighbor now_ms in (r, p, t)
              end
          end
      end
  end.

(** [pinned_pubkey_for_routable] and [pinned_pubkey_for_addr], which are the same. *)
Definition pinned_pubkey_for_routable (p : AnnounceProcessor) (addr : bytes) : option PublicKey :=
  snd <$> list_find (fun k => Addr.ygg_addr_from_pubkey k = addr) ((fun e => pinned_key (snd e)) <$> hash_iter (pinned_keys p)).
Definition bound_key (iid : bytes) (k : PublicKey) : option PublicKey :=
  if bool_decide (Schnorr.iid_from_pubkey k = iid) then Some k else None.
Definition pinned_pubkey_for (p : AnnounceProcessor) (t : AnnounceTrustStore St) (iid : bytes) : option PublicKey * AnnounceTrustStore St :=
  match pinned_keys p !! iid with
  | Some e => (bound_key iid (pinned_key e), t)
  | None =>
      if negb (is_persistent t) then (None, t)
      else
        match load t iid with
        | (Ok (Some st), t) => (bound_key iid (pubkey st), t)
        | (_, t) => (None, t)
        end
  end.
Fixpoint snapshot_loop (l : list (bytes * PinnedKeyEntry)) : option (list PublicKey) :=
  match l with
  | [] => Some []
  | (iid, e) :: l => if bool_decide (Schnorr.iid_from_pubkey (pinned_key e) = iid) then cons (pinned_key e) <$> snapshot_loop l else None
  end.
Definition pinned_pubkeys_snapshot (p : AnnounceProcessor) : option (list PublicKey) :=
  if (max_entries p <? size (pinned_keys p))%nat || (MAX_TRACKED_ORIGINATORS <? size (pinned_keys p))%nat then None
  else snapshot_loop (hash_iter (pinned_keys p)).
Definition known_originators (p : AnnounceProcessor) : list bytes := fst <$> hash_iter (seen p).
Definition build_relay_hop_count (a : Announce.Announce) : option Z :=
  if Announce.should_relay a then Some (Announce.hop_count a + 1) else None.

(** ** The tables *)

Lemma announce_evict_spec {V} (access : V -> Z) (max fuel : nat) (ev : option bytes) (m : gmap bytes V) ev' m' : (size m <= fuel + max)%nat ->
  evict_loop access max fuel ev m = (ev', m') -> m' ⊆ m /\ (size m' <= max)%nat.
Proof.
  revert ev m. induction fuel as [|fuel IH]; intros ev m Hf H; cbn [evict_loop] in H; [injection H as <- <-; split; [done | lia] |].
  destruct (max <? size m)%nat eqn:E; [| injection H as <- <-; bool_to_prop; done]. bool_to_prop.
  destruct (min_by_key_hash m (fun e => access (snd e)) ltac:(lia)) as (k & v & Hm & Hk & _). rewrite Hm in H.
  apply IH in H as [Hs Hn]; [| rewrite map_size_delete_Some by (by exists v); lia].
  split; [| done]. etrans; [exact Hs | apply delete_subseteq].
Qed.
Lemma evict_pinned_spec max m ev m' : evict_pinned_if_needed max m = (ev, m') -> m' ⊆ m /\ (size m' <= max)%nat.
Proof. apply announce_evict_spec. lia. Qed.
Lemma evict_seen_spec max m : evict_seen_if_needed max m ⊆ m /\ (size (evict_seen_if_needed max m) <= max)%nat.
Proof. unfold evict_seen_if_needed. destruct (evict_loop _ _ _ _ m) as [e m'] eqn:E. eapply announce_evict_spec; [| exact E]. lia. Qed.

(** What was signed is the transcript. *)
Lemma signed_part_transcript a : Announce.announce_ok a ->
  signed_part a = Announce.signed_transcript (Announce.originator_iid a) (Announce.pubkey a) (Announce.seq_num a) (Announce.rx_channel a) (Announce.app_data a).
Proof.
  intros [H1 H2 H3 H4 H5 H6]. unfold signed_part, Announce.write_signed_data, Announce.write_announce_signed_data.
  unfold Announce.MAX_ANNOUNCE_APP_DATA, Announce.MAX_ANNOUNCE_WIRE_LENGTH, Announce.FIXED_LENGTH in *.
  rewrite (proj2 (Z.leb_gt _ _)), (proj2 (Nat.ltb_ge _ _)), (proj2 (Z.ltb_ge _ _)) by (unfold u16_max; lia).
  rewrite length_replicate, (proj2 (Nat.ltb_ge _ _)) by (unfold Announce.ANNOUNCE_SIGNED_FIXED_LENGTH; lia).
  set (s := Announce.signed_transcript _ _ _ _ _).
  assert (length s = (Announce.ANNOUNCE_SIGNED_FIXED_LENGTH + length (Announce.app_data a))%nat) as Hl.
  { unfold s, Announce.signed_transcript. rewrite !length_app, !length_to_be, H1, H2. done. }
  rewrite inserts_front by (rewrite length_replicate, Hl; unfold Announce.ANNOUNCE_SIGNED_FIXED_LENGTH; lia). rewrite <- Hl. apply take_app_length.
Qed.

(** An announce whose identifier, signature and in-memory pin are good. *)
Definition authentic (a : Announce.Announce) : Prop :=
  Announce.originator_iid a = Schnorr.iid_from_pubkey (Announce.pubkey a) /\
  schnorr_verify (Announce.pubkey a)
    (Announce.signed_transcript (Announce.originator_iid a) (Announce.pubkey a) (Announce.seq_num a) (Announce.rx_channel a) (Announce.app_data a))
    (Announce.signature a) = true.
Lemma check_announce_spec p a : Announce.announce_ok a -> check_announce p a = None -> authentic a.
Proof.
  intros Ha H. unfold check_announce in H. destruct (bool_decide _) eqn:E1; cbn [negb] in H; [| done]. destruct (_ =? _)%nat; [done |].
  destruct (schnorr_verify _ _ _) eqn:E2; cbn [negb] in H; [| done]. rewrite signed_part_transcript in E2 by done. apply bool_decide_eq_true in E1. done.
Qed.

(** Every pin is the key its identifier is made from, and the tables are bounded. *)
Record processor_ok (p : AnnounceProcessor) : Prop := {
  po_pins iid e : pinned_keys p !! iid = Some e -> iid = Schnorr.iid_from_pubkey (pinned_key e);
  po_pinned_size : (size (pinned_keys p) <= max_entries p)%nat;
  po_seen_size : (size (seen p) <= max_entries p)%nat;
  po_max : max_entries p = MAX_TRACKED_ORIGINATORS;
  po_gradient : Gradient.table_ok (gradient_table p)
}.

Lemma announce_new_ok g : Gradient.table_ok g -> processor_ok (new g).
Proof. intros Hg. split; try done; cbn; rewrite map_size_empty; lia. Qed.

Lemma admit_ok p a n now : processor_ok p -> authentic a -> processor_ok (snd (apply_accepted p a n now)).
Proof.
  intros [Hp Hs1 Hs2 Hm Hg] [Hiid _]. unfold apply_accepted.
  destruct (evict_pinned_if_needed _ _) as [ev pins] eqn:Ee. apply evict_pinned_spec in Ee as [Hsub Hsz].
  destruct (evict_seen_spec (max_entries p) (<[Announce.originator_iid a := {| seen_seq := Announce.seq_num a; seen_access := access_counter p + 1 |}]> (seen p))) as [_ Hsz2].
  split; cbn; try done.
  - intros iid e He. eapply lookup_weaken in He; [| exact Hsub]. destruct (decide (Announce.originator_iid a = iid)) as [<- |Hne].
    + rewrite lookup_insert_eq in He. by injection He as <-.
    + rewrite lookup_insert_ne in He by done. by apply Hp.
  - destruct (Gradient.update _ _ _) as [b g'] eqn:Eu. cbn. by eapply Gradient.update_spec.
Qed.
Lemma bump_ok p : processor_ok p -> processor_ok (bump p).
Proof. by intros []. Qed.

(** The snapshot of pins is there, and lists every pin. *)
Lemma snapshot_loop_all l : Forall (fun x => fst x = Schnorr.iid_from_pubkey (pinned_key (snd x))) l -> snapshot_loop l = Some ((fun x => pinned_key (snd x)) <$> l).
Proof.
  induction 1 as [|[iid e] l Hx _ IH]; [done |]. cbn in *. rewrite bool_decide_eq_true_2 by done. by rewrite IH.
Qed.
Lemma snapshot_complete p : processor_ok p -> exists l, pinned_pubkeys_snapshot p = Some l /\ forall k, k ∈ l <-> exists e, pinned_keys p !! Schnorr.iid_from_pubkey k = Some e /\ pinned_key e = k.
Proof.
  intros [Hp Hs1 _ Hm _]. unfold pinned_pubkeys_snapshot. rewrite (proj2 (Nat.ltb_ge _ _)) by done. rewrite <- Hm, (proj2 (Nat.ltb_ge _ _)) by done. cbn [orb].
  rewrite snapshot_loop_all; [| apply Forall_forall; intros [iid e] Hin; apply elem_of_hash_iter in Hin; by apply Hp].
  eexists. split; [done |]. intros k. rewrite list_elem_of_fmap. split.
  - intros ([iid e] & -> & Hin). apply elem_of_hash_iter in Hin. exists e. split; [| done]. cbn. by rewrite <- (Hp _ _ Hin).
  - intros (e & He & <-). exists (Schnorr.iid_from_pubkey (pinned_key e), e). split; [done |]. by apply elem_of_hash_iter.
Qed.

(** ** One announce *)

Context {cl : CryptoLaws}.

(** The record of one originator becomes [st], the others stay. *)
Definition commits (v v' : view) (iid : bytes) (st : AnnounceTrustState) : Prop :=
  advances (fst (v iid)) st /\ forall i, fst (v' i) = if decide (i = iid) then Some st else fst (v i).
Definition same_states (v v' : view) : Prop := forall i, fst (v' i) = fst (v i).
Lemma same_set_view v iid f : same_states v (set_view v iid (fst (v iid), f)).
Proof. intros i. unfold set_view. by destruct (decide (i = iid)) as [-> |]. Qed.
Lemma commits_after v v1 v' iid st : same_states v v1 -> commits v1 v' iid st -> commits v v' iid st.
Proof. intros Hs [Ha Hc]. split; [by rewrite <- Hs |]. intros i. by rewrite Hc, Hs. Qed.
Lemma commits_set v iid st f : advances (fst (v iid)) st -> commits v (set_view v iid (Some st, f)) iid st.
Proof. intros Ha. split; [done |]. intros i. unfold set_view. by destruct (decide (i = iid)). Qed.

Lemma trust_of_ok a : Announce.announce_ok a -> state_ok (trust_of a).
Proof. intros [_ H2 _ H4 _ _]. by split. Qed.
Lemma authentic_iid a : authentic a -> bytes_ok (Announce.originator_iid a).
Proof. intros [-> _]. apply Schnorr.iid_ok. Qed.

(** The part before the commit reads, and at most repairs a floor. *)
Lemma load_states seed t v iid r t' : holds seed t v -> bytes_ok iid -> load t iid = (r, t') -> exists v', holds seed t' v' /\ same_states v v'.
Proof. intros Hh Hi E. destruct (load_spec _ _ _ _ _ _ Hh Hi E) as (f & Hh' & _). eexists. split; [exact Hh' | apply same_set_view]. Qed.

(** An accepted announce is authentic, advances the durable record of its
    originator, which both stores hold then, and its route is offered to the table.
    A rejected one leaves the tables as they were; it may have advanced the durable
    state when only the second write failed. *)
Lemma announce_process_spec seed p t v a n now r p' t' : holds seed t v -> Announce.announce_ok a -> process p t a n now = (r, p', t') ->
  exists v', holds seed t' v' /\
  if accepted r then
    authentic a /\ commits v v' (Announce.originator_iid a) (trust_of a) /\ p' = snd (apply_accepted p a n now) /\
    reject_reason r = None /\ should_relay r = Announce.should_relay a /\ peer r = Some (Schnorr.from_pubkey (Announce.pubkey a))
  else
    (p' = p \/ p' = bump p) /\ (same_states v v' \/ (authentic a /\ commits v v' (Announce.originator_iid a) (trust_of a))).
Proof.
  intros Hh Ha H. unfold process in H. destruct (check_announce p a) as [re|] eqn:Ec; [injection H as <- <- <-; exists v; split; [done |]; cbn; by split; left |].
  apply check_announce_spec in Ec as Hau; [| done]. pose proof (authentic_iid a Hau) as Hib. rewrite (holds_persistent _ _ _ Hh) in H.
  destruct (load t (Announce.originator_iid a)) as [d t1] eqn:El. destruct (load_states _ _ _ _ _ _ Hh Hib El) as (v1 & Hh1 & Hs1).
  destruct d as [d|]; [| injection H as <- <- <-; exists v1; split; [done |]; cbn; by split; left].
  destruct (check_freshness p a d) as [re|]; [injection H as <- <- <-; exists v1; split; [done |]; cbn; by split; left |].
  rewrite (holds_persistent _ _ _ Hh1) in H. destruct (accept t1 _ _) as [c t2] eqn:Ea.
  pose proof (trust_accept_spec _ _ _ _ _ _ _ Hh1 Hib (trust_of_ok a Ha) Ea) as Hsp. destruct c as [[]|e].
  - destruct Hsp as [Hadv Hh2]. destruct (apply_accepted p a n now) as [r0 p0] eqn:Ead. injection H as <- <- <-. eexists. split; [exact Hh2 |].
    assert (r0 = fst (apply_accepted p a n now)) as -> by (by rewrite Ead). unfold apply_accepted. destruct (evict_pinned_if_needed _ _). cbn.
    split; [done |]. split; [eapply commits_after; [exact Hs1 | by apply commits_set] |]. done.
  - assert (accepted r = false /\ p' = bump p /\ t' = t2) as (-> & -> & ->) by (by destruct e; injection H as <- <- <-).
    destruct Hsp as [Hh2|[Hadv Hh2]]; eexists; (split; [exact Hh2 |]); (split; [by right |]); [by left | right; split; [done |]].
    eapply commits_after; [exact Hs1 | by apply commits_set].
Qed.

(** ** A node over time *)

(** The power fails while an announce is processed, after the first write. *)
Definition process_cut (p : AnnounceProcessor) (t : AnnounceTrustStore St) (a : Announce.Announce) : AnnounceTrustStore St :=
  match check_announce p a with
  | Some _ => t
  | None =>
      match load t (Announce.originator_iid a) with
      | (Err _, t) => t
      | (Ok durable, t) => match check_freshness p a durable with Some _ => t | None => accept_cut t (Announce.originator_iid a) (trust_of a) end
      end
  end.

Inductive node_event :=
| Receive (a : Announce.Announce) (from_neighbor : bytes) (now_ms : Z)
| Resolve (iid : bytes)
| PowerFails (a : Announce.Announce) (count : nat)
| Restart (count : nat).
Definition node_event_ok (e : node_event) : Prop :=
  match e with Receive a _ _ | PowerFails a _ => Announce.announce_ok a | Resolve iid => bytes_ok iid | Restart _ => True end.
(** What was accepted, with the neighbour and the time, since the node first came
    up and since it last came up. *)
Record node := {
  processor : AnnounceProcessor;
  store : AnnounceTrustStore St;
  ever : list (Announce.Announce * bytes * Z);
  since_boot : list (Announce.Announce * bytes * Z)
}.
Definition boot (count : nat) (t : AnnounceTrustStore St) (l : list (Announce.Announce * bytes * Z)) : node :=
  {| processor := new (Gradient.new Gradient.MAX_GRADIENT_ENTRIES); store := reopen t count; ever := l; since_boot := [] |}.
Definition node_step (s : node) (e : node_event) : node :=
  match e with
  | Receive a n now =>
      let '(r, p, t) := process (processor s) (store s) a n now in
      let got := if accepted r then [(a, n, now)] else [] in
      {| processor := p; store := t; ever := ever s ++ got; since_boot := since_boot s ++ got |}
  | Resolve iid =>
      {| processor := processor s; store := snd (pinned_pubkey_for (processor s) (store s) iid); ever := ever s; since_boot := since_boot s |}
  | PowerFails a count => boot count (process_cut (processor s) (store s) a) (ever s)
  | Restart count => boot count (store s) (ever s)
  end.

(** The commits of a run, oldest first, and what they did to the view. *)
Inductive linked : option AnnounceTrustState -> list AnnounceTrustState -> Prop :=
| linked_nil o : linked o []
| linked_cons o st l : advances o st -> linked (Some st) l -> linked o (st :: l).
Definition commits_of (iid : bytes) (h : list (bytes * AnnounceTrustState)) : list AnnounceTrustState := snd <$> filter (fun x => fst x = iid) h.
Definition entry_of (x : Announce.Announce * bytes * Z) : bytes * AnnounceTrustState := (Announce.originator_iid (fst (fst x)), trust_of (fst (fst x))).
Definition last_state (o : option AnnounceTrustState) (l : list AnnounceTrustState) : option AnnounceTrustState := match last l with Some st => Some st | None => o end.

Lemma linked_snoc o l st : linked o l -> advances (last_state o l) st -> linked o (l ++ [st]).
Proof.
  induction 1 as [o|o x l Hx Hl IH]; intros Hst; [by repeat constructor |]. cbn. constructor; [done |]. apply IH.
  unfold last_state in *. rewrite last_cons in Hst. by destruct (last l).
Qed.
Lemma linked_key o l c st : linked o l -> o = Some c -> st ∈ l -> pubkey st = pubkey c.
Proof.
  intros Hl. revert c. induction Hl as [|o x l Hx Hl IH]; intros c -> Hin; [by apply not_elem_of_nil in Hin |]. destruct Hx as [Hk _].
  apply elem_of_cons in Hin as [-> |Hin]; [done |]. rewrite (IH x eq_refl Hin). done.
Qed.
Lemma linked_same o l a b : linked o l -> a ∈ l -> b ∈ l -> pubkey a = pubkey b.
Proof.
  destruct 1 as [|o x l Hx Hl]; [intros H; by apply not_elem_of_nil in H |]. intros Ha Hb. apply elem_of_cons in Ha, Hb.
  destruct Ha as [-> |Ha], Hb as [-> |Hb]; rewrite ?(linked_key _ _ _ _ Hl eq_refl Ha), ?(linked_key _ _ _ _ Hl eq_refl Hb); done.
Qed.

Lemma update_entries g e now x : x ∈ Gradient.entries (snd (Gradient.update g e now)) -> x = e \/ x ∈ Gradient.entries g.
Proof.
  assert (forall l, x ∈ l ++ [e] -> x = e \/ x ∈ l) as Happ by (intros l [?|?%list_elem_of_singleton]%elem_of_app; auto).
  unfold Gradient.update. destruct (_ =? _)%nat; [by right |]. destruct (list_find _ _) as [[i y]|].
  - destruct (_ || _); [| by right]. cbn. intros [-> |H]%Happ; [by left | right]. unfold Gradient.remove_at in H.
    apply elem_of_app in H as [H|H]; [by apply elem_of_take in H as (? & ? & _); eapply list_elem_of_lookup_2 |]. eapply elem_of_sublist; [exact H | apply sublist_drop].
  - cbn. intros [-> |H]%Happ; [by left | right]. destruct (_ <=? _)%nat; [| done]. eapply elem_of_sublist; [exact H | apply sublist_drop].
Qed.

Record run_inv (seed : bytes) (v0 : view) (s : node) (h : list (bytes * AnnounceTrustState)) : Prop := {
  ri_view : exists v, holds seed (store s) v /\ forall i, fst (v i) = last_state (fst (v0 i)) (commits_of i h);
  ri_linked i : linked (fst (v0 i)) (commits_of i h);
  ri_ever : (entry_of <$> ever s) `sublist_of` h;
  ri_authentic : Forall (fun x => authentic (fst (fst x))) (ever s);
  ri_boot : Forall (fun x => x ∈ ever s) (since_boot s);
  ri_processor : processor_ok (processor s);
  ri_routes : Forall (fun e => exists a n now, (a, n, now) ∈ since_boot s /\ e = route_of a n now) (Gradient.entries (gradient_table (processor s)))
}.

Lemma commits_of_snoc i (h : list (bytes * AnnounceTrustState)) iid st : commits_of i (h ++ [(iid, st)]) = if decide (i = iid) then commits_of i h ++ [st] else commits_of i h.
Proof.
  unfold commits_of. rewrite filter_app, fmap_app, filter_cons, filter_nil. cbn [fst]. destruct (decide (iid = i)) as [-> |Hne].
  - by rewrite decide_True.
  - rewrite decide_False by congruence. apply app_nil_r.
Qed.

(** The history after one commit. *)
Lemma history_snoc (v0 v v' : view) h iid st : (forall i, fst (v i) = last_state (fst (v0 i)) (commits_of i h)) -> (forall i, linked (fst (v0 i)) (commits_of i h)) ->
  commits v v' iid st ->
  (forall i, fst (v' i) = last_state (fst (v0 i)) (commits_of i (h ++ [(iid, st)]))) /\ (forall i, linked (fst (v0 i)) (commits_of i (h ++ [(iid, st)]))).
Proof.
  intros Hv Hl [Ha Hc]. split; intros i; rewrite commits_of_snoc; [rewrite Hc |]; destruct (decide (i = iid)) as [-> |]; try done.
  - unfold last_state. by rewrite last_snoc.
  - apply linked_snoc; [done |]. by rewrite <- Hv.
Qed.

Lemma boot_inv seed v0 s h t count : run_inv seed v0 s h ->
  (exists v, holds seed t v /\ forall i, fst (v i) = last_state (fst (v0 i)) (commits_of i h)) -> run_inv seed v0 (boot count t (ever s)) h.
Proof.
  intros [_ Hl Hsub Hau _ _ _] (v & [A1 A2 A3] & Hv). split; cbn; try done.
  - exists v. split; [by split | done].
  - apply announce_new_ok. split; [apply NoDup_nil_2 | cbn; lia].
Qed.

Lemma cut_states seed p t v a : holds seed t v -> Announce.announce_ok a ->
  exists v', holds seed (process_cut p t a) v' /\ (same_states v v' \/ commits v v' (Announce.originator_iid a) (trust_of a)).
Proof.
  intros Hh Ha. unfold process_cut. destruct (check_announce p a) as [re|] eqn:Ec; [exists v; split; [done | by left] |].
  apply check_announce_spec in Ec as Hau; [| done]. pose proof (authentic_iid a Hau) as Hib.
  destruct (load t (Announce.originator_iid a)) as [d t1] eqn:El. destruct (load_states _ _ _ _ _ _ Hh Hib El) as (v1 & Hh1 & Hs1).
  destruct d as [d|]; [| exists v1; split; [done | by left]]. destruct (check_freshness p a d) as [re|]; [exists v1; split; [done | by left] |].
  destruct (cut_spec _ _ _ _ (trust_of a) Hh1 Hib (trust_of_ok a Ha)) as [Hh2|[Hadv Hh2]]; [exists v1; split; [done | by left] |].
  eexists. split; [exact Hh2 |]. right. eapply commits_after; [exact Hs1 | by apply commits_set].
Qed.

Lemma admit_routes p a n now l : Forall (fun e => exists a n now, (a, n, now) ∈ l /\ e = route_of a n now) (Gradient.entries (gradient_table p)) ->
  Forall (fun e => exists a' n' now', (a', n', now') ∈ l ++ [(a, n, now)] /\ e = route_of a' n' now') (Gradient.entries (gradient_table (snd (apply_accepted p a n now)))).
Proof.
  intros H. unfold apply_accepted. destruct (evict_pinned_if_needed _ _). cbn. apply Forall_forall. intros x Hx. apply update_entries in Hx as [-> |Hx].
  - exists a, n, now. split; [| done]. apply elem_of_app. right. by apply list_elem_of_singleton.
  - rewrite Forall_forall in H. destruct (H x Hx) as (a' & n' & now' & Hin & ->). exists a', n', now'. split; [| done]. apply elem_of_app. by left.
Qed.

Lemma receive_inv seed v0 s h a n now : run_inv seed v0 s h -> Announce.announce_ok a -> exists h', run_inv seed v0 (node_step s (Receive a n now)) h'.
Proof.
  intros Hinv Ha. pose proof Hinv as [(v & Hh & Hv) Hl Hsub Hau Hbo Hp Hr]. cbn. destruct (process (processor s) (store s) a n now) as [[r p'] t'] eqn:E.
  destruct (announce_process_spec _ _ _ _ _ _ _ _ _ _ Hh Ha E) as (v' & Hh' & Hc). destruct (accepted r).
  - destruct Hc as (Hat & Hcm & -> & _). destruct (history_snoc _ _ _ _ _ _ Hv Hl Hcm) as [Hv' Hl'].
    exists (h ++ [(Announce.originator_iid a, trust_of a)]). split; cbn; [by exists v' | done | | | | by apply admit_ok | by apply admit_routes].
    + rewrite fmap_app. by apply sublist_app.
    + apply Forall_app. split; [done | by apply Forall_singleton].
    + apply Forall_app. split; [eapply Forall_impl; [exact Hbo |]; intros; apply elem_of_app; by left |]. apply Forall_singleton. apply elem_of_app. right. by apply list_elem_of_singleton.
  - destruct Hc as [Hp' Hc]. rewrite !app_nil_r.
    assert (processor_ok p' /\ gradient_table p' = gradient_table (processor s)) as [Hok Hg] by (destruct Hp' as [-> | ->]; split; try done; by apply bump_ok).
    destruct Hc as [Hs|[_ Hcm]].
    + exists h. split; cbn; try done; [| by rewrite Hg]. exists v'. split; [done |]. intros i. by rewrite Hs.
    + destruct (history_snoc _ _ _ _ _ _ Hv Hl Hcm) as [Hv' Hl']. exists (h ++ [(Announce.originator_iid a, trust_of a)]). split; cbn; try done; [by exists v' | | by rewrite Hg]. by apply sublist_inserts_r.
Qed.

Lemma node_step_inv seed v0 s h e : run_inv seed v0 s h -> node_event_ok e -> exists h', run_inv seed v0 (node_step s e) h'.
Proof.
  intros Hinv He. pose proof Hinv as [(v & Hh & Hv) Hl Hsub Hau Hbo Hp Hr]. destruct e as [a n now|iid|a count|count]; cbn [node_event_ok] in He.
  - by eapply receive_inv.
  - exists h. assert (exists v', holds seed (snd (pinned_pubkey_for (processor s) (store s) iid)) v' /\ same_states v v') as (v' & Hh' & Hs).
    { unfold pinned_pubkey_for. destruct (pinned_keys _ !! iid); [by exists v |]. rewrite (holds_persistent _ _ _ Hh). cbn [negb].
      destruct (load (store s) iid) as [r t1] eqn:El. destruct (load_states _ _ _ _ _ _ Hh He El) as (v1 & Hh1 & Hs1). exists v1. split; [| done]. by destruct r as [[st|]|]. }
    split; cbn; try done. exists v'. split; [done |]. intros i. by rewrite Hs.
  - cbn. destruct (cut_states seed (processor s) _ _ a Hh He) as (v' & Hh' & [Hs|Hcm]).
    + exists h. apply boot_inv; [done |]. exists v'. split; [done |]. intros i. by rewrite Hs.
    + destruct (history_snoc _ _ _ _ _ _ Hv Hl Hcm) as [Hv' Hl']. exists (h ++ [(Announce.originator_iid a, trust_of a)]).
      apply (boot_inv _ _ {| processor := processor s; store := process_cut (processor s) (store s) a; ever := ever s; since_boot := since_boot s |}); [| by exists v'].
      split; cbn; try done; [by exists v' |]. by apply sublist_inserts_r.
  - exists h. cbn. apply boot_inv; [done |]. by exists v.
Qed.

Lemma node_run_inv seed v0 s h es : run_inv seed v0 s h -> Forall node_event_ok es -> exists h', run_inv seed v0 (foldl node_step s es) h'.
Proof.
  intros Hinv Hes. revert s h Hinv. induction Hes as [|e es He _ IH]; intros s h Hinv; [by exists h |]. destruct (node_step_inv _ _ _ _ _ Hinv He) as (h1 & H1). exact (IH _ _ H1).
Qed.

(** What a node accepts from announces over its whole life, with any reads and
    writes that fail, restarts, and power losses between the two durable writes,
    starting from stores that hold the records [v0]: every accepted announce names
    the identifier of its key and is signed by it; all accepted announces of one
    identifier carry the same key, the one pinned before the run if there was one;
    they are committed in an order in which every sequence number follows the one
    before it; and every route of the gradient table leads to the address of the
    key of an announce accepted since the last start, through the neighbour that
    delivered it. *)
Lemma announce_trust_endures seed v0 t count es : holds seed t v0 -> Forall node_event_ok es ->
  let s := foldl node_step (boot count t []) es in
  Forall (fun x => authentic (fst (fst x))) (ever s) /\
  (forall x y, x ∈ ever s -> y ∈ ever s -> Announce.originator_iid (fst (fst x)) = Announce.originator_iid (fst (fst y)) ->
     Announce.pubkey (fst (fst x)) = Announce.pubkey (fst (fst y))) /\
  (forall x c, x ∈ ever s -> fst (v0 (Announce.originator_iid (fst (fst x)))) = Some c -> Announce.pubkey (fst (fst x)) = pubkey c) /\
  (exists h, (entry_of <$> ever s) `sublist_of` h /\ forall iid, linked (fst (v0 iid)) (commits_of iid h)) /\
  (forall e, e ∈ Gradient.entries (gradient_table (processor s)) -> exists a n now, (a, n, now) ∈ ever s /\ e = route_of a n now).
Proof.
  intros Hh Hes s. assert (run_inv seed v0 (boot count t []) []) as H0.
  { split; cbn; try done; [| intros; constructor | apply announce_new_ok; split; [apply NoDup_nil_2 | cbn; lia]]. exists v0. split; [by destruct Hh |]. done. }
  destruct (node_run_inv _ _ _ _ _ H0 Hes) as (h & [_ Hl Hsub Hau Hbo _ Hr]). fold s in Hsub, Hau, Hbo, Hr.
  assert (forall x, x ∈ ever s -> trust_of (fst (fst x)) ∈ commits_of (Announce.originator_iid (fst (fst x))) h) as Hin.
  { intros x Hx. unfold commits_of. apply list_elem_of_fmap. exists (entry_of x). split; [done |]. apply list_elem_of_filter. split; [done |].
    eapply elem_of_sublist; [| exact Hsub]. by apply list_elem_of_fmap_2. }
  split; [done |]. split; [| split; [| split]].
  - intros x y Hx Hy Hxy. apply Hin in Hx, Hy. rewrite Hxy in Hx. exact (linked_same _ _ _ _ (Hl _) Hx Hy).
  - intros x c Hx Hc. exact (linked_key _ _ _ _ (Hl _) Hc (Hin x Hx)).
  - by exists h.
  - intros e He. rewrite Forall_forall in Hr. destruct (Hr e He) as (a & n & now & Hin' & ->). exists a, n, now. split; [| done]. rewrite Forall_forall in Hbo. by apply Hbo.
Qed.

End processor.

(** ** A concrete run *)
Section demo.
#[local] Existing Instance toy_crypto.
#[local] Existing Instance hash_iter_id.

Definition demo_seed : bytes := replicate 32 7.
Definition demo_keys : PrivateKey * PublicKey := derive_keypair (replicate 32 9).
Definition demo_signed (iid : bytes) (seq hops : Z) : Announce.Announce :=
  {| Announce.originator_iid := iid; Announce.pubkey := snd demo_keys; Announce.seq_num := seq; Announce.hop_count := hops; Announce.rx_channel := 3;
     Announce.signature := schnorr_sign (fst demo_keys) (snd demo_keys) (Announce.signed_transcript iid (snd demo_keys) seq 3 [6; 9]);
     Announce.app_data := [6; 9] |}.
Definition demo_announce : Z -> Z -> Announce.Announce := demo_signed (Schnorr.iid_from_pubkey (snd demo_keys)).
Definition demo_forged : Announce.Announce :=
  let a := demo_announce 40 1 in
  {| Announce.originator_iid := Announce.originator_iid a; Announce.pubkey := Announce.pubkey a; Announce.seq_num := 41; Announce.hop_count := 1;
     Announce.rx_channel := 3; Announce.signature := Announce.signature a; Announce.app_data := [6; 9] |}.
Definition demo_store : AnnounceTrustStore Mem.MemStorage := persistent Mem.new Mem.new 0 demo_seed.
Definition demo_hop : bytes := replicate 16 1.
(** Accepted, replayed, lost between two writes, refused after the restart because
    it was committed, and then a later one, a forged one and one with the
    identifier of another key. *)
Definition demo_run : list node_event :=
  [Receive (demo_announce 5 1) demo_hop 100; Receive (demo_announce 5 1) demo_hop 200; PowerFails (demo_announce 6 1) 1;
   Receive (demo_announce 6 1) demo_hop 50; Receive (demo_announce 7 2) demo_hop 60; Receive demo_forged demo_hop 70;
   Receive (demo_signed (replicate 8 0) 8 1) demo_hop 80; Restart 1; Resolve (Schnorr.iid_from_pubkey (snd demo_keys))].

Lemma demo_holds : holds demo_seed demo_store (fun _ => (None, None)).
Proof.
  split; [done | |].
  - intros floor. exists Mem.new. split; [by destruct floor |]. intros iid _. by destruct floor.
  - intros iid floor st H. by destruct floor.
Qed.
Lemma demo_ok iid seq hops : length iid = 8%nat -> is_u16 seq -> Announce.announce_ok (demo_signed iid seq hops).
Proof. intros Hi Hs. split; [done | apply (pubkey_len (CryptoLaws := toy_crypto_laws)) | apply (sign_len (CryptoLaws := toy_crypto_laws)) | done | cbn; lia | cbn; unfold Announce.MAX_ANNOUNCE_APP_DATA, Announce.MAX_ANNOUNCE_WIRE_LENGTH, Announce.FIXED_LENGTH; lia]. Qed.
Lemma demo_announce_ok seq hops : is_u16 seq -> Announce.announce_ok (demo_announce seq hops).
Proof. apply demo_ok, (Schnorr.length_iid (H0 := toy_crypto_laws)). Qed.
Lemma demo_forged_ok : Announce.announce_ok demo_forged.
Proof. destruct (demo_announce_ok 40 1 ltac:(width)) as [H1 H2 H3 _ H5 H6]. split; [exact H1 | exact H2 | exact H3 | cbn; width | exact H5 | exact H6]. Qed.
Lemma demo_run_ok : Forall node_event_ok demo_run.
Proof.
  assert (forall seq hops n now, is_u16 seq -> node_event_ok (Receive (demo_announce seq hops) n now)) as Hr by (intros; by apply demo_announce_ok).
  unfold demo_run.
  apply Forall_cons_2; [apply Hr; width |]. apply Forall_cons_2; [apply Hr; width |]. apply Forall_cons_2; [apply (Hr 6 1 [] 0); width |].
  apply Forall_cons_2; [apply Hr; width |]. apply Forall_cons_2; [apply Hr; width |]. apply Forall_cons_2; [exact demo_forged_ok |].
  apply Forall_cons_2; [apply demo_ok; [done | width] |]. apply Forall_cons_2; [exact I |].
  apply Forall_cons_2; [apply (Schnorr.iid_ok (H0 := toy_crypto_laws)) | apply Forall_nil_2].
Qed.

Lemma announce_trust_endures_witness :
  let s := foldl node_step (boot 0 demo_store []) demo_run in
  ever s = [(demo_announce 5 1, demo_hop, 100); (demo_announce 7 2, demo_hop, 60)] /\ Forall (fun x => authentic (fst (fst x))) (ever s).
Proof.
  intros s. split; [by vm_compute |]. exact (proj1 (announce_trust_endures (cl := toy_crypto_laws) demo_seed (fun _ => (None, None)) demo_store 0 demo_run demo_holds demo_run_ok)).
Defined.

End demo.
End AnnounceProc.
